(* ===== verification/_CoqProject ===== *)
-Q . S2P
Prelude.v
Concur.v
MutexCode.v
MutexSafety.v
MutexSeq.v
Semaphore.v
SemSafety.v
CondCode.v
CondWait.v
Monitor.v
RwCode.v
RwSafety.v
TlsKeys.v
Buffer.v
DnsPacket.v
NsName.v
NsUnpack.v
NsPack.v
NsParse.v
NsLayout.v
ResCache.v
CacheShape.v
LruCache.v
CacheRun.v
ResMkquery.v
ResIface.v
Qsort.v
Ctype.v
Strtol.v
CMem.v
CString.v
CStrCopy.v
CTok.v
SysProp.v
Timers.v
Time64.v
Inet.v
InetAton.v
Threads.v
ThreadSafety.v
Environ.v
Atexit.v
StdioFile.v
StdioRead.v
StdioWrite.v
Fnmatch.v
Base64.v
Digest.v
Sha1.v
Md5.v
Getopt.v
Ieee.v
Rounding.v
Fmod.v
Sqrt.v
