(* ===== verification/Prelude.v ===== *)
(** * Verification of parts of the bionic C library

    The repository holds bionic, the C library of Android (libc, libm, libdl and
    libstdc++, in C), beside the sources of an unrelated Eclipse plug-in.  This
    library models the parts of libc whose logic is its own: the thread
    synchronisation built on futexes, the timers and the system properties, the
    resolver (the path from the text of a name to a cached answer) and the
    network addresses, the string functions, the calendar, and the sorting and
    number conversion of stdlib, the environment, the handlers of exit, the
    buffers of stdio, the patterns of file names, the options of a command line,
    base 64 and the message digests; and the functions of libm that work on the
    words of a floating-point number.
    A definition has the name of the C function or of the loop that it
    translates.

    ** Parts and files

    - Prelude: C integers kept as [Z] with their conversions, error numbers, the
      tactics [zbool], [case_test] and the hint databases, sums over maps.

    Threads (libc/bionic/pthread.c, semaphore.c, pthread-rwlocks.c):
    - Concur: the atomic operations and futex calls as actions, programs as trees
      of actions, an interpreter [run] for one thread and the step relation of
      threads that interleave.
    - MutexCode, MutexSeq, MutexSafety: the pthread_mutex functions as programs;
      what each call does alone, for every type of mutex (C40); normal mutexes
      under every interleaving (C1, C2, C17).
    - Semaphore, SemSafety: semaphore.c and its guarantees under every
      interleaving (C5, C18, C19).
    - CondCode, CondWait: condition variables, and how many signals bring their counter
      round (lemmas); a waiter and a signal under every interleaving of any threads
      (C21).
    - Monitor, RwCode, RwSafety: the interface of a mutex with a condition
      variable, the read-write locks written against it, and their exclusion and
      progress (C6, C20).
    - TlsKeys: keys of thread-specific data and their destructors (lemmas).
    - Timers: pthread-timers.c, the table of timers as the timer functions and the
      timer threads change it in any order (C14), a round of a timer
      thread (C16) and the times set and read (lemmas).
    - Threads, ThreadSafety: attributes, the list of thread descriptors in memory,
      creation, exit, join, detach and cleanup handlers; threads that do all this
      to each other in any order (C22); what they may do is a record of
      permissions, and what goes wrong with each of them is shown by examples.
    - SysProp: the readers of system_properties.c as programs over atomic loads,
      against the class [PropertyService] of what the writer promises, which are the
      rules of _system_properties.h: they do not ask it to write the terminator of a
      value (C7).

    The resolver (libc/netbsd/nameser, libc/netbsd/resolv):
    - Buffer: byte buffers whose reads can fail, results with an errno.
    - NsName, NsUnpack, NsPack: ns_name.c.  Names between text and wire format
      (C34), expansion of compressed names and skipping
      (C4), compression with the array of known names (C9).
    - NsParse: ns_parse.c, ns_netint.c and the TTL of an answer; any order of calls
      on a message that can be read (lemmas).
    - NsLayout: messages laid out by the format of DNS messages, and what ns_parserr answers
      about their records (C35).
    - ResMkquery: res_mkquery.c, which writes queries with NsPack, followed from
      the text of a name through the cache (C8).
    - DnsPacket: the check, hash and comparison of queries in res_cache.c
      (C36).
    - ResCache, CacheShape, LruCache, CacheRun: the cache of res_cache.c as a heap
      of entries with their pointers; the shape of that heap; the list, ordered by
      last use, that it implements; the refinement and its consequences
      (C3).
    - ResIface: the caches and name servers of the network interfaces
      (C37); getaddrinfo is a parameter there, described by the class [AddrInfo].

    stdlib (libc/stdlib):
    - Qsort: qsort.c and bsearch.c (C11).
    - Ctype, Strtol: the tables of character classes and of case, and strtol with
      its siblings (C15).
    - Environ: getenv, setenv, unsetenv and putenv (C38).
    - Atexit: the handlers of exit and of unloading, which may register and
      unload themselves (C33).

    Strings and addresses (libc/string, libc/inet):
    - CMem: the functions on memory, bcopy.c with its copies by words
      (C12).
    - CString: lengths, searches and comparisons.
    - CStrCopy: the copies (C39).
    - CTok: strsep, strtok and strtok_r (lemmas).
    - Inet, InetAton: IPv4, IPv6 and Ethernet addresses as text
      (C10).

    Digests (libc/bionic/sha1.c, md5.c) and base 64 (libc/netbsd/net/base64.c):
    - Digest: what the two digests share, words of bytes and the absorption of a
      message by blocks.
    - Sha1, Md5: the incremental functions against the digests as their standards
      define them (C30, C31).
    - Base64: b64_ntop and b64_pton (C32).

    Streams (libc/stdio), patterns and options (libc/unistd/fnmatch.c, getopt_long.c):
    - StdioFile: the FILE with its flags, flushing, buffers and the switch to
      writing; the read and write functions of a stream are the class [Device].
    - StdioRead: refilling, fgetc, fread, fgets and ungetc; any sequence of them is
      reading from a list (C23).
    - StdioWrite: the character and the region writers, setvbuf and fpurge; any
      sequence of writes is appending to a list (C24).
    - Fnmatch: fnmatch against the rule of fnmatch.h for the items of a pattern
      (C25); the relation of the loop, which loses FNM_PERIOD behind some
      stars, is a lemma.
    - Getopt: getopt, getopt_long and getopt_long_only with the state they keep
      between calls, the exchange of blocks of arguments by cycles; a complete parse
      against the relation [reads], which goes through the arguments once, and the
      order in which it leaves argv (C26).

    libm (libm/src), the functions that work on the words of a number:
    - Ieee: doubles and floats as words, and their values as integers.
    - Rounding: floor, ceil and trunc with their float versions (C29).
    - Fmod: fmod, exact for all finite numbers (C28), and ilogb.
    - Sqrt: the square root bit by bit, correctly rounded (C27).

    The calendar (libc/bionic/time64.c):
    - Time64: dates of 64-bit times, and the extension of mktime to all years
      (C13).

    ** How the code is modelled

    Integers are [Z], with u8, u16, u32 and s32 where the C code converts; long
    has 32 bits.  A function that reads or writes memory outside its buffers, or
    that overflows a signed type where the source relies on its not doing so,
    answers [None]; the theorems show that this does not happen.  A function that
    fails with an errno answers [Fail errno] in [res].  State is passed
    explicitly; code that runs under a lock is a function of the state that the
    lock protects, and the code of the locks itself is a program of atomic
    actions.  Memory is sequentially consistent: ANDROID_MEMBAR_FULL does
    nothing.  time, malloc, random ids and kernel thread ids are arguments.  The
    memory of the string functions is one list of bytes in which their pointers
    are positions; where only the text behind a pointer matters, a pointer is the
    list of the characters from there on.

    Loops whose recursion is not structural take fuel, and the functions that
    start them give enough: the length of the buffer where each round moves
    forward, the space of the destination plus the length of the message in
    ns_name_unpack (a label uses space, a pointer uses up octets to look at), the
    length of the name plus that of the message in dn_find (a pointer leads to an
    earlier name), the number of elements in qsort, 33 rounds in bsearch, the
    number of entries in the cache's chains, the length of memory for a scan of a
    string or a pattern, the bytes still to be read or written in the loops of the
    streams, the number of arguments in the scan of getopt, the bits of a word or of a
    significand in libm, in the calendar 500 and 900 rounds for the years that are left when the
    400-year cycles are taken out, and in the timers the periods that fit between
    the expiry and the present.  The theorems state that a result is
    given, so that fuel that ran out would be seen.

    ** What the theorems show

    Safety and progress of the locks hold for every number of threads and every
    interleaving, and are proved by invariants of the step relation; the kinds of
    failure that the code allows (the recursion counter that wraps, a timed writer
    that leaves a reader asleep, a waiter that misses exactly 2^31 signals) are
    theorems or lemmas too.  The cache is proved to be a least-recently-used map: each
    operation on its memory simulates one on the list, and so does every run.
    Names are proved to round-trip between text, wire format and compressed wire
    format, and the functions that read messages to stay inside them whatever the
    bytes are (with the one exception that NsUnpack shows).  A reader of a system
    property never sees a mixture of two values.  Sorting, the conversion of numbers,
    the string functions and the calendar are proved correct against short
    reference definitions, and addresses and dates to be read back as they were
    written.  Streams lose, repeat and reorder no byte, however the device splits
    its transfers; the exceptions, an unbuffered stream with characters pushed back
    and fpurge on a stream that reads, are lemmas in their files.  A parse of a
    command line ends, answers what one reading of the arguments finds, and rearranges
    them without losing one.  Finite
    floating-point numbers are multiples of the smallest one, so that the results
    of floor, fmod and sqrt are stated, exactly, about integers.

    ** Not modelled

    - The functions of libm that compute in floating-point arithmetic, whose accuracy
      needs real analysis, and the inexact flag; the assembly of arch-*, the system
      call stubs, libdl and libstdc++; the kernel headers and the Unicode and service
      tables: data and declarations.
    - dlmalloc.c, malloc_debug*.c: the allocator; its clients here take calloc as
      an argument.  regex, strtod.c and tzcode: code of other projects that is
      kept with few changes.  The formatted input and output of stdio needs variadic
      arguments and floating point; opening and seeking are system calls.
    - getaddrinfo.c, gethnamaddr.c, res_send.c, res_init.c, res_query.c: mostly
      system calls and configuration files.
    - The stacks and TLS areas of new threads, pthread_kill, pthread_sigmask,
      scheduling parameters and names of threads; atfork; the rest of time64.c
      (asctime64 and ctime64 print with sprintf), the checks of host names in
      res_comp.c, ns_samedomain.c, ns_ttl.c; arc4random.c and the 48-bit generator.
    - Weak memory: the barriers of the source are not shown to be enough.
    - swapcode's loop over the bytes of an element and the int products with the
      element size in qsort; bit-string labels in the theorems on compression
      (they are in the definitions). *)
From stdpp Require Export base list gmap.
From Stdlib Require Export ZArith Lia.
#[global] Open Scope Z_scope.

(** ** Machine integers

    A C object of a fixed width is kept as a [Z]; the conversions below are
    applied where the C code converts or overflows. *)
Definition u8 (z : Z) : Z := z mod 2 ^ 8.
Definition u16 (z : Z) : Z := z mod 2 ^ 16.
Definition u32 (z : Z) : Z := z mod 2 ^ 32.
Definition s32 (z : Z) : Z := (z + 2 ^ 31) mod 2 ^ 32 - 2 ^ 31.

Definition is_u8 (z : Z) : Prop := 0 <= z < 2 ^ 8.
Definition is_u16 (z : Z) : Prop := 0 <= z < 2 ^ 16.
Definition is_u32 (z : Z) : Prop := 0 <= z < 2 ^ 32.
Definition is_s32 (z : Z) : Prop := - 2 ^ 31 <= z < 2 ^ 31.

Create HintDb cint.
Create Rewrite HintDb cint_rw.

Lemma u8_range z : is_u8 (u8 z).
Proof. unfold is_u8, u8. apply Z.mod_pos_bound. lia. Qed.
Lemma u16_range z : is_u16 (u16 z).
Proof. unfold is_u16, u16. apply Z.mod_pos_bound. lia. Qed.
Lemma u32_range z : is_u32 (u32 z).
Proof. unfold is_u32, u32. apply Z.mod_pos_bound. lia. Qed.
Lemma s32_range z : is_s32 (s32 z).
Proof. unfold is_s32, s32. pose proof (Z.mod_pos_bound (z + 2 ^ 31) (2 ^ 32)). lia. Qed.

Lemma u8_id z : is_u8 z -> u8 z = z.
Proof. unfold is_u8, u8. apply Z.mod_small. Qed.
Lemma u16_id z : is_u16 z -> u16 z = z.
Proof. unfold is_u16, u16. apply Z.mod_small. Qed.
Lemma u32_id z : is_u32 z -> u32 z = z.
Proof. unfold is_u32, u32. apply Z.mod_small. Qed.
Lemma s32_id z : is_s32 z -> s32 z = z.
Proof. unfold is_s32, s32. intros. rewrite Z.mod_small by lia. lia. Qed.

(** Converting to unsigned and back to signed loses nothing. *)
Lemma s32_u32 z : s32 (u32 z) = s32 z.
Proof. unfold s32, u32. rewrite Z.add_mod_idemp_l by lia. done. Qed.
Lemma u32_s32 z : u32 (s32 z) = u32 z.
Proof.
  unfold s32, u32.
  rewrite <- (Zminus_mod_idemp_l ((z + 2^31) mod 2^32)), Z.mod_mod by lia.
  rewrite Zminus_mod_idemp_l. f_equal. lia.
Qed.

(** Bits put below a shifted number are added to it. *)
Lemma lor_shiftl_low k t w : 0 <= k -> 0 <= w < 2 ^ k -> Z.lor (Z.shiftl t k) w = t * 2 ^ k + w.
Proof.
  intros Hk Hw. rewrite <- Z.shiftl_mul_pow2 by lia. symmetry. apply Z.add_nocarry_lor.
  apply Z.bits_inj'. intros i Hi. rewrite Z.land_spec, Z.bits_0. destruct (Z.ltb_spec i k).
  - by rewrite Z.shiftl_spec_low.
  - destruct (decide (w = 0)) as [->|]; [by rewrite Z.bits_0, andb_false_r|].
    rewrite (Z.bits_above_log2 w i), andb_false_r; [done|lia|].
    apply Z.log2_lt_pow2; [lia|]. eapply Z.lt_le_trans; [apply Hw|]. apply Z.pow_le_mono_r; lia.
Qed.

#[export] Hint Resolve u8_range u16_range u32_range s32_range : cint.
#[export] Hint Rewrite u8_id u16_id u32_id s32_id using (auto with cint) : cint_rw.

(** ** Error numbers (libc/kernel/common/asm-generic/errno*.h) *)
Definition EPERM : Z := 1.
Definition ESRCH : Z := 3.
Definition EINTR : Z := 4.
Definition EAGAIN : Z := 11.
Definition ENOMEM : Z := 12.
Definition EBUSY : Z := 16.
Definition EINVAL : Z := 22.
Definition ENODEV : Z := 19.
Definition EDEADLK : Z := 35.
Definition ENOSYS : Z := 38.
Definition EOVERFLOW : Z := 75.
Definition EMSGSIZE : Z := 90.
Definition ETIMEDOUT : Z := 110.

(** ** Tactics *)

(** Turn boolean tests on [Z] in the context and the goal into propositions. *)
Ltac zbool :=
  repeat match goal with
  | H : (_ && _) = true |- _ => apply andb_true_iff in H; destruct H
  | H : (_ || _) = false |- _ => apply orb_false_iff in H; destruct H
  | H : negb _ = true |- _ => apply negb_true_iff in H
  | H : negb _ = false |- _ => apply negb_false_iff in H
  | H : (_ =? _) = true |- _ => apply Z.eqb_eq in H
  | H : (_ =? _) = false |- _ => apply Z.eqb_neq in H
  | H : (_ <? _) = true |- _ => apply Z.ltb_lt in H
  | H : (_ <? _) = false |- _ => apply Z.ltb_ge in H
  | H : (_ <=? _) = true |- _ => apply Z.leb_le in H
  | H : (_ <=? _) = false |- _ => apply Z.leb_gt in H
  | H : (_ >? _) = true |- _ => apply Z.gtb_lt in H
  | H : (_ >? _) = false |- _ => rewrite Z.gtb_ltb in H; apply Z.ltb_ge in H
  | H : (_ >=? _) = true |- _ => apply Z.geb_le in H
  | H : (_ >=? _) = false |- _ => rewrite Z.geb_leb in H; apply Z.leb_gt in H
  end.

(** Case analysis on the first boolean test of the goal, kept as an equation. *)
Ltac case_test :=
  match goal with
  | |- context [if ?b then _ else _] => let E := fresh "E" in destruct b eqn:E
  end.

(** Case analysis on the scrutinee of a test in a hypothesis. *)
Ltac case_test_in H :=
  match type of H with
  | context [if ?b then _ else _] => let E := fresh "E" in destruct b eqn:E
  end.

(** ** Sums over the entries of a map *)
Definition msum {A} (f : A -> Z) (m : gmap Z A) : Z := map_fold (fun _ x acc => f x + acc) 0 m.

Lemma msum_empty {A} (f : A -> Z) : msum f ∅ = 0.
Proof. apply map_fold_empty. Qed.

Lemma msum_insert_new {A} (f : A -> Z) (m : gmap Z A) i x :
  m !! i = None -> msum f (<[i := x]> m) = f x + msum f m.
Proof. intros Hi. unfold msum. apply (map_fold_insert_L (fun _ x acc => f x + acc)); [intros; lia|done]. Qed.

Lemma msum_insert {A} (f : A -> Z) (m : gmap Z A) i x y :
  m !! i = Some x -> msum f (<[i := y]> m) = msum f m - f x + f y.
Proof.
  intros Hi. rewrite <- insert_delete_eq.
  rewrite msum_insert_new by apply lookup_delete_eq.
  assert (msum f m = f x + msum f (delete i m)) as ->; [|lia].
  rewrite <- (msum_insert_new f _ i) by apply lookup_delete_eq. by rewrite insert_delete_id.
Qed.

Lemma msum_nonneg {A} (f : A -> Z) (m : gmap Z A) : (forall x, 0 <= f x) -> 0 <= msum f m.
Proof.
  intros Hf. induction m as [|i x m Hi IH] using map_ind.
  - by rewrite msum_empty.
  - rewrite msum_insert_new by done. specialize (Hf x). lia.
Qed.

Lemma msum_le {A} (f g : A -> Z) (m : gmap Z A) : (forall x, f x <= g x) -> msum f m <= msum g m.
Proof.
  intros Hf. induction m as [|i x m Hi IH] using map_ind.
  - by rewrite !msum_empty.
  - rewrite !msum_insert_new by done. specialize (Hf x). lia.
Qed.

Lemma msum_zero {A} (f : A -> Z) (m : gmap Z A) :
  (forall i x, m !! i = Some x -> f x = 0) -> msum f m = 0.
Proof.
  induction m as [|i x m Hi IH] using map_ind; intros Hf.
  - apply msum_empty.
  - rewrite msum_insert_new by done. rewrite (Hf i x) by apply lookup_insert_eq.
    rewrite IH; [done|]. intros j y Hj. apply (Hf j). rewrite lookup_insert_ne; [done|]. congruence.
Qed.

Lemma msum_ge_one {A} (f : A -> Z) (m : gmap Z A) i x :
  (forall y, 0 <= f y) -> m !! i = Some x -> f x <= msum f m.
Proof.
  intros Hf Hi. rewrite <- (insert_delete_id m i x Hi), msum_insert_new by apply lookup_delete_eq.
  pose proof (msum_nonneg f (delete i m) Hf). lia.
Qed.

Lemma msum_ge_two {A} (f : A -> Z) (m : gmap Z A) i j x y :
  (forall y, 0 <= f y) -> i <> j -> m !! i = Some x -> m !! j = Some y -> f x + f y <= msum f m.
Proof.
  intros Hf Hij Hi Hj. rewrite <- (insert_delete_id m i x Hi), msum_insert_new by apply lookup_delete_eq.
  pose proof (msum_ge_one f (delete i m) j y Hf). rewrite lookup_delete_ne in H by done. specialize (H Hj). lia.
Qed.

(** A positive sum has a positive term. *)
Lemma msum_pos {A} (f : A -> Z) (m : gmap Z A) :
  0 < msum f m -> exists i x, m !! i = Some x /\ 0 < f x.
Proof.
  induction m as [|i x m Hi IH] using map_ind; intros Hp.
  - rewrite msum_empty in Hp. lia.
  - rewrite msum_insert_new in Hp by done. destruct (decide (0 < f x)).
    + exists i, x. by rewrite lookup_insert_eq.
    + destruct IH as (j & y & Hj & Hy); [lia|]. exists j, y.
      rewrite lookup_insert_ne by congruence. done.
Qed.

Lemma msum_fmap {A B} (f : B -> Z) (g : A -> B) (m : gmap Z A) :
  msum f (g <$> m) = msum (fun x => f (g x)) m.
Proof.
  induction m as [|i x m Hi IH] using map_ind.
  - by rewrite fmap_empty, !msum_empty.
  - rewrite fmap_insert, !msum_insert_new by (rewrite ?lookup_fmap, ?Hi; done). by rewrite IH.
Qed.

Lemma msum_ext {A} (f g : A -> Z) (m : gmap Z A) : (forall x, f x = g x) -> msum f m = msum g m.
Proof. intros H. apply Z.le_antisymm; apply msum_le; intros x; by rewrite H. Qed.

(** A list of keys without repetition is no longer than the map. *)
Lemma nodup_dom_length `{Countable K} {A} (h : gmap K A) (l : list K) :
  NoDup l -> (forall a, a ∈ l -> is_Some (h !! a)) -> (length l <= size h)%nat.
Proof.
  intros Hn Hl. rewrite <- size_dom, <- (size_list_to_set (C := gset K)) by done. apply subseteq_size.
  intros a Ha. apply elem_of_list_to_set in Ha. apply elem_of_dom. auto.
Qed.
