(* ===== verification/Concur.v ===== *)
(** * Atomic actions, programs and their interleavings

    The functions of libc/bionic/pthread.c, libc/bionic/semaphore.c that touch
    shared words are written as values of [prog]: a tree of atomic actions
    (volatile reads and writes, the [__atomic_*] operations and the futex
    system calls of libc/private/bionic_futex.h) and loops.  A program can be

    - run alone by [run], an executable interpreter, which gives the
      sequential behaviour of a call; or
    - put in a system of threads, whose steps [step] interleave the threads'
      actions arbitrarily, block in [__futex_wait_ex] and wake in
      [__futex_wake_ex].

    Memory is sequentially consistent: ANDROID_MEMBAR_FULL() does nothing. *)
From S2P Require Import Prelude.
From Stdlib Require Import FunctionalExtensionality.

(** An address; NULL is 0. *)
Abbreviation loc := Z (only parsing).
Abbreviation tid := Z (only parsing).

(** A [struct timespec]: seconds and nanoseconds. *)
Definition timespec : Type := Z * Z.

(** A word that was never written reads as 0. *)
Abbreviation mem := (gmap Z Z).
Definition mget (m : mem) (l : loc) : Z := default 0 (m !! l).
Definition mset (m : mem) (l : loc) (v : Z) : mem := <[l := v]> m.

Lemma mget_set_eq m l v : mget (mset m l v) l = v.
Proof. unfold mget, mset. by rewrite lookup_insert_eq. Qed.
Lemma mget_set_ne m l l' v : l <> l' -> mget (mset m l v) l' = mget m l'.
Proof. intros. unfold mget, mset. by rewrite lookup_insert_ne. Qed.
Create Rewrite HintDb mem.
#[export] Hint Rewrite mget_set_eq : mem.
#[export] Hint Rewrite mget_set_ne using congruence : mem.

(** The atomic actions.  Words hold signed 32-bit values.  [ACmpxchg old new l]
    answers 0 when it stored [new] and 1 otherwise; [ASwap] and [ADec] answer
    the previous value.  [AClock] is clock_gettime, answering nanoseconds.
    [ACrit] and [AGhost] are not instructions of the library: the first marks a
    client's critical section, the second adds to a client's event counter. *)
Inductive act : Type :=
| ALoad (l : loc)
| AStore (l : loc) (v : Z)
| ACmpxchg (old new : Z) (l : loc)
| ASwap (new : Z) (l : loc)
| ADec (l : loc)
| AClock (clock : Z)
| ACrit
| AGhost (l : loc) (d : Z)
| AFutexWait (l : loc) (pshared : Z) (val : Z) (timeout : option timespec)
| AFutexWake (l : loc) (pshared : Z) (n : Z).

(** Programs.  [Loop body x k] runs [body x] until it answers [inr b]
    ([inl x'] starts the next round) and goes on with [k b]. *)
Inductive prog (A : Type) : Type :=
| Ret (a : A)
| Act (a : act) (k : Z -> prog A)
| Loop (X B : Type) (body : X -> prog (X + B)) (x : X) (k : B -> prog A).
Arguments Ret {A} a.
Arguments Act {A} a k.
Arguments Loop {A X B} body x k.

Fixpoint bind {A B} (p : prog A) (f : A -> prog B) : prog B :=
  match p with
  | Ret a => f a
  | Act a k => Act a (fun z => bind (k z) f)
  | Loop body x k => Loop body x (fun b => bind (k b) f)
  end.

Declare Scope prog_scope.
Delimit Scope prog_scope with prog.
Notation "x <- p ;; q" := (bind p (fun x => q))
  (at level 100, p at next level, right associativity) : prog_scope.
Notation "p ;;; q" := (bind p (fun _ => q))
  (at level 100, right associativity) : prog_scope.
#[global] Open Scope prog_scope.

(** One constructor per C idiom. *)
Definition load (l : loc) : prog Z := Act (ALoad l) Ret.
Definition store (l : loc) (v : Z) : prog Z := Act (AStore l (s32 v)) Ret.
Definition __atomic_cmpxchg (old new : Z) (l : loc) : prog Z :=
  Act (ACmpxchg (s32 old) (s32 new) l) Ret.
Definition __atomic_swap (new : Z) (l : loc) : prog Z := Act (ASwap (s32 new) l) Ret.
Definition __atomic_dec (l : loc) : prog Z := Act (ADec l) Ret.
Definition __futex_wait_ex (l : loc) (pshared val : Z) (timeout : option timespec) : prog Z :=
  Act (AFutexWait l pshared (s32 val) timeout) Ret.
Definition __futex_wake_ex (l : loc) (pshared n : Z) : prog Z :=
  Act (AFutexWake l pshared n) Ret.

(** clock_gettime(clock, ts): the time splits in seconds and nanoseconds. *)
Definition clock_gettime (clock : Z) : prog timespec :=
  Act (AClock clock) (fun ns => Ret (ns / 1000000000, ns mod 1000000000)).

(** [while]-style loop without a carried value: [body] answers [Some b] to leave. *)
Definition forever {B} (body : prog (option B)) : prog B :=
  Loop (fun _ : unit => r <- body ;; Ret (match r with Some b => inr b | None => inl tt end))
       tt Ret.

(** The effect of the actions that neither block nor read the clock. *)
Definition exec (a : act) (m : mem) : option (Z * mem) :=
  match a with
  | ALoad l => Some (mget m l, m)
  | AStore l v => Some (0, mset m l v)
  | ACmpxchg old new l =>
      if mget m l =? old then Some (0, mset m l new) else Some (1, m)
  | ASwap new l => Some (mget m l, mset m l new)
  | ADec l => Some (mget m l, mset m l (s32 (mget m l - 1)))
  | ACrit => Some (0, m)
  | AGhost l d => Some (0, mset m l (mget m l + d))
  | AClock _ | AFutexWait _ _ _ _ | AFutexWake _ _ _ => None
  end.

(** ** Running one thread alone *)
Inductive outcome (A : Type) : Type :=
| Done (a : A) (m : mem)
| Blocked (l : loc) (m : mem)     (** asleep in __futex_wait_ex *)
| NoFuel.
Arguments Done {A} a m.
Arguments Blocked {A} l m.
Arguments NoFuel {A}.

(** [run fuel now m p]: the thread runs [p] with no interference, the clock
    reading [now].  Every action and loop round costs one unit of fuel. *)
Fixpoint run {A} (fuel : nat) (now : Z) (m : mem) (p : prog A) : outcome A :=
  match fuel with
  | O => NoFuel
  | S fuel =>
      match p with
      | Ret a => Done a m
      | Loop body x k =>
          run fuel now m
            (bind (body x) (fun r => match r with inl x' => Loop body x' k | inr b => k b end))
      | Act a k =>
          match a with
          | AClock _ => run fuel now m (k now)
          | AFutexWait l _ val _ =>
              if mget m l =? val then Blocked l m else run fuel now m (k (- EAGAIN))
          | AFutexWake _ _ _ => run fuel now m (k 0)
          | _ => match exec a m with
                 | Some (v, m') => run fuel now m' (k v)
                 | None => NoFuel
                 end
          end
      end
  end.

(** More fuel does not change a finished run. *)
Lemma run_more {A} f now m (p : prog A) r m' f' :
  run f now m p = Done r m' -> (f <= f')%nat -> run f' now m p = Done r m'.
Proof.
  revert m p f'. induction f as [|f IH]; intros m p f' H Hle; [done|].
  destruct f' as [|f']; [lia|]. simpl in *.
  destruct p as [a|a k|X B body x k]; [done| |apply IH; [done|lia]].
  destruct a; simpl in *; repeat case_test; try done; (apply IH; [done|lia]).
Qed.

(** ** Systems of threads *)
Inductive tstate (A : Type) : Type :=
| Run (p : prog A)
| Sleep (l : loc) (pshared : Z) (timed : bool) (k : Z -> prog A).
Arguments Run {A} p.
Arguments Sleep {A} l pshared timed k.

Record sys (A : Type) : Type := Sys { smem : mem; sthreads : gmap tid (tstate A) }.
Arguments Sys {A} smem sthreads.
Arguments smem {A} s.
Arguments sthreads {A} s.

(** A thread sleeps on the futex word [l]; private and process-shared futexes
    are distinct. *)
Definition sleeps_on {A} (l : loc) (pshared : Z) (t : tstate A) : Prop :=
  match t with
  | Sleep l' ps' _ _ => l' = l /\ (ps' =? 0) = (pshared =? 0)
  | Run _ => False
  end.

Definition wake1 {A} (t : tstate A) : tstate A :=
  match t with Sleep _ _ _ k => Run (k 0) | Run p => Run p end.

(** FUTEX_WAKE of the threads [ws]. *)
Definition wake_all {A} (ws : list tid) (th : gmap tid (tstate A)) : gmap tid (tstate A) :=
  foldr (fun w th => alter wake1 w th) th ws.

(** [woken l ps n th ws]: [ws] is a possible choice of FUTEX_WAKE with count [n]:
    at most [n] sleepers of the word, and all of them when fewer than [n]. *)
Definition woken {A} (l : loc) (ps n : Z) (th : gmap tid (tstate A)) (ws : list tid) : Prop :=
  NoDup ws /\
  (forall w, w ∈ ws -> exists t, th !! w = Some t /\ sleeps_on l ps t) /\
  Z.of_nat (length ws) <= n /\
  (Z.of_nat (length ws) < n -> forall w t, th !! w = Some t -> sleeps_on l ps t -> w ∈ ws).

Definition is_timed (o : option timespec) : bool := match o with Some _ => true | None => false end.

(** The next action of a program, what it does with the action's answer, and
    the program a loop unfolds to. *)
Definition head {A} (p : prog A) : option act :=
  match p with Act a _ => Some a | _ => None end.
Definition resume {A} (p : prog A) (v : Z) : prog A :=
  match p with Act _ k => k v | _ => p end.
Definition unroll {A} (p : prog A) : option (prog A) :=
  match p with
  | Loop body x k =>
      Some (bind (body x) (fun r => match r with inl x' => Loop body x' k | inr b => k b end))
  | _ => None
  end.

(** One step of one thread.  A thread asleep on a futex may also return with
    -EINTR (a signal), and with -ETIMEDOUT when it gave a timeout. *)
Inductive step {A} : sys A -> sys A -> Prop :=
| step_exec m th t p a v m' :
    th !! t = Some (Run p) -> head p = Some a -> exec a m = Some (v, m') ->
    step (Sys m th) (Sys m' (<[t := Run (resume p v)]> th))
| step_clock m th t p c v :
    th !! t = Some (Run p) -> head p = Some (AClock c) -> 0 <= v ->
    step (Sys m th) (Sys m (<[t := Run (resume p v)]> th))
| step_loop m th t p p' :
    th !! t = Some (Run p) -> unroll p = Some p' ->
    step (Sys m th) (Sys m (<[t := Run p']> th))
| step_wait_sleep m th t p l ps val to :
    th !! t = Some (Run p) -> head p = Some (AFutexWait l ps val to) -> mget m l = val ->
    step (Sys m th) (Sys m (<[t := Sleep l ps (is_timed to) (resume p)]> th))
| step_wait_again m th t p l ps val to :
    th !! t = Some (Run p) -> head p = Some (AFutexWait l ps val to) -> mget m l <> val ->
    step (Sys m th) (Sys m (<[t := Run (resume p (- EAGAIN))]> th))
| step_wait_intr m th t l ps timed k :
    th !! t = Some (Sleep l ps timed k) ->
    step (Sys m th) (Sys m (<[t := Run (k (- EINTR))]> th))
| step_wait_timeout m th t l ps k :
    th !! t = Some (Sleep l ps true k) ->
    step (Sys m th) (Sys m (<[t := Run (k (- ETIMEDOUT))]> th))
| step_wake m th t p l ps n ws :
    th !! t = Some (Run p) -> head p = Some (AFutexWake l ps n) -> woken l ps n th ws ->
    step (Sys m th)
         (Sys m (wake_all ws (<[t := Run (resume p (Z.of_nat (length ws)))]> th))).

Definition reachable {A} (s0 s : sys A) : Prop := rtc step s0 s.

Lemma lookup_wake_all {A} ws (th : gmap tid (tstate A)) t :
  wake_all ws th !! t = if decide (t ∈ ws) then wake1 <$> th !! t else th !! t.
Proof.
  induction ws as [|w ws IH]; simpl.
  - destruct (decide (t ∈ [])); [set_solver|done].
  - rewrite lookup_alter. destruct (decide (w = t)) as [->|Hne].
    + rewrite IH. destruct (decide (t ∈ t :: ws)); [|set_solver].
      destruct (decide (t ∈ ws)); [|done]. destruct (th !! t) as [[]|]; done.
    + rewrite IH. destruct (decide (t ∈ ws)), (decide (t ∈ w :: ws)); set_solver.
Qed.

(** An invariant of the initial state that every step keeps holds in every
    reachable state. *)
Lemma reachable_inv {A} (I : sys A -> Prop) s0 s :
  I s0 -> (forall a b, I a -> step a b -> I b) -> reachable s0 s -> I s.
Proof. intros H0 Hs Hr. induction Hr; eauto. Qed.

(** ** Program points

    Systems whose threads are at known points: [tst t p] is the state of thread
    [t] at point [p]. *)
Definition points_at {T P} (tst : tid -> P -> T) (th : gmap tid T) (pcs : gmap tid P) : Prop :=
  forall t, th !! t = tst t <$> pcs !! t.

Lemma points_insert {T P} (tst : tid -> P -> T) th pcs t p :
  points_at tst th pcs -> points_at tst (<[t := tst t p]> th) (<[t := p]> pcs).
Proof. intros H u. rewrite !lookup_insert. case_decide; [by subst|apply H]. Qed.

Lemma points_lookup {T P} (tst : tid -> P -> T) th pcs t ts :
  points_at tst th pcs -> th !! t = Some ts -> exists p, pcs !! t = Some p /\ ts = tst t p.
Proof. intros H Ht. rewrite H in Ht. destruct (pcs !! t); simplify_eq/=; eauto. Qed.

(** FUTEX_WAKE moves the sleeping points among [ws] by [wk]. *)
Lemma points_wake {A P} (tst : tid -> P -> tstate A) (wk : P -> P) th pcs ws :
  (forall t p, wake1 (tst t p) = tst t (wk p)) ->
  points_at tst th pcs ->
  points_at tst (wake_all ws th) (foldr (fun w (m : gmap tid P) => alter wk w m) pcs ws).
Proof.
  intros Hwk H. induction ws as [|w ws IH]; simpl; [done|].
  intros t. rewrite !lookup_alter. case_decide as Hd; [subst w|apply IH].
  rewrite IH, <- !option_fmap_compose. apply option_fmap_ext. intros p. apply Hwk.
Qed.

(** ** A scheduler

    [sched1 s t] lets thread [t] take its next step (the clock reading 0, and
    FUTEX_WAKE choosing the first sleepers); it answers [None] when [t] is
    asleep or finished. *)
#[export] Instance sleeps_on_dec {A} l ps (t : tstate A) : Decision (sleeps_on l ps t).
Proof. destruct t; simpl; apply _. Defined.

Definition sleepers {A} (l : loc) (ps : Z) (th : gmap tid (tstate A)) : list tid :=
  (filter (fun kt => sleeps_on l ps (snd kt)) (map_to_list th)).*1.

(** The first [n] of the sleepers. *)
Definition first_sleepers (n : Z) (ws : list tid) : list tid :=
  if Z.of_nat (length ws) <=? n then ws else take (Z.to_nat n) ws.
Lemma first_sleepers_take n ws : first_sleepers n ws = take (Z.to_nat n) ws.
Proof. unfold first_sleepers. case_test; [|done]. zbool. by rewrite take_ge by lia. Qed.

Definition sched1 {A} (s : sys A) (t : tid) : option (sys A) :=
  let m := smem s in
  let th := sthreads s in
  match th !! t with
  | Some (Run p) =>
      match head p with
      | Some (AClock _) => Some (Sys m (<[t := Run (resume p 0)]> th))
      | Some (AFutexWait l ps val to) =>
          Some (Sys m (<[t := if decide (mget m l = val)
                              then Sleep l ps (is_timed to) (resume p)
                              else Run (resume p (- EAGAIN))]> th))
      | Some (AFutexWake l ps n) =>
          let ws := first_sleepers n (sleepers l ps th) in
          if 0 <=? n
          then Some (Sys m (wake_all ws (<[t := Run (resume p (Z.of_nat (length ws)))]> th)))
          else None
      | Some a =>
          match exec a m with
          | Some (v, m') => Some (Sys m' (<[t := Run (resume p v)]> th))
          | None => None
          end
      | None => match unroll p with
                | Some p' => Some (Sys m (<[t := Run p']> th))
                | None => None
                end
      end
  | _ => None
  end.

Fixpoint sched {A} (s : sys A) (ts : list tid) : option (sys A) :=
  match ts with
  | [] => Some s
  | t :: ts => match sched1 s t with Some s' => sched s' ts | None => None end
  end.

Lemma elem_of_sleepers {A} l ps (th : gmap tid (tstate A)) w :
  w ∈ sleepers l ps th <-> exists t, th !! w = Some t /\ sleeps_on l ps t.
Proof.
  unfold sleepers. rewrite list_elem_of_fmap. split.
  - intros ([w' t] & -> & [Hs Hin]%list_elem_of_filter). apply elem_of_map_to_list in Hin. eauto.
  - intros (t & Ht & Hs). exists (w, t). split; [done|]. apply list_elem_of_filter.
    split; [done|]. by apply elem_of_map_to_list.
Qed.

Lemma NoDup_sleepers {A} l ps (th : gmap tid (tstate A)) : NoDup (sleepers l ps th).
Proof.
  unfold sleepers. eapply sublist_NoDup; [apply (NoDup_fst_map_to_list th)|].
  apply fmap_sublist, sublist_filter.
Qed.

Lemma sleepers_woken {A} l ps n (th : gmap tid (tstate A)) :
  0 <= n -> woken l ps n th (take (Z.to_nat n) (sleepers l ps th)).
Proof.
  intros Hn. pose proof (NoDup_sleepers l ps th) as Hnd. split_and!.
  - eapply sublist_NoDup; [done|apply sublist_take].
  - intros w Hw. apply elem_of_sleepers. apply elem_of_take in Hw as (i & Hi & _).
    by eapply list_elem_of_lookup_2.
  - rewrite length_take. lia.
  - intros Hlt w t Ht Hs. rewrite length_take in Hlt. rewrite take_ge by lia.
    apply elem_of_sleepers; eauto.
Qed.

Lemma sched1_step {A} (s s' : sys A) t : sched1 s t = Some s' -> step s s'.
Proof.
  destruct s as [m th]. unfold sched1; simpl. intros H.
  destruct (th !! t) as [[p|]|] eqn:Ht; try discriminate.
  destruct (head p) as [a|] eqn:Hh.
  - destruct a; simpl in H;
      try (injection H as <-; eapply step_exec; [done..|reflexivity]).
    + case_test_in H; injection H as <-; eapply step_exec; try done; simpl; by rewrite E.
    + injection H as <-. by eapply step_clock.
    + injection H as <-. case_decide; [by eapply step_wait_sleep|by eapply step_wait_again].
    + case_test_in H; [|done]. injection H as <-. zbool.
      eapply step_wake; [done..|]. rewrite first_sleepers_take. by apply sleepers_woken.
  - destruct (unroll p) eqn:Hu; [|done]. injection H as <-. by eapply step_loop.
Qed.

Lemma sched_reachable {A} ts (s s' : sys A) : sched s ts = Some s' -> reachable s s'.
Proof.
  revert s. induction ts as [|t ts IH]; simpl; intros s H.
  - injection H as ->. constructor.
  - destruct (sched1 s t) eqn:E; [|done]. econstructor; [by eapply sched1_step|by apply IH].
Qed.

(** An execution of a system: the steps from [i] to [j]. *)
Definition execution {A} (s : nat -> sys A) (i j : nat) : Prop := forall t, (i <= t < j)%nat -> step (s t) (s (S t)).

Lemma sched_snoc {A} ts t (s : sys A) : sched s (ts ++ [t]) = match sched s ts with Some s' => sched1 s' t | None => None end.
Proof.
  revert s. induction ts as [|t' ts IH]; intros s; cbn; [by destruct (sched1 s t)|]. destruct (sched1 s t'); [apply IH|done].
Qed.

(** ** Tests on threads *)
Definition finished {A} (ts : tstate A) : bool :=
  match ts with Run (Ret _) => true | _ => false end.

Definition asleep {A} (ts : tstate A) : bool :=
  match ts with Sleep _ _ _ _ => true | _ => false end.

(** The next atomic action of a program, looking through the head of a loop. *)
Definition next_action {A} (q : prog A) : option act :=
  match unroll q with Some q' => head q' | None => head q end.

Lemma running_steps {A} (s : sys A) t q :
  sthreads s !! t = Some (Run q) -> finished (Run q) = false ->
  (forall l ps n, head q = Some (AFutexWake l ps n) -> 0 <= n) ->
  exists s', sched1 s t = Some s'.
Proof.
  intros Ht Hf Hn. unfold sched1. rewrite Ht.
  destruct q as [|a k|]; [done| |by eexists]. simpl.
  destruct a; simpl; try (by eexists).
  - case_test; by eexists.
  - specialize (Hn _ _ _ eq_refl). rewrite (proj2 (Z.leb_le _ _) Hn). by eexists.
Qed.

(** Tests on the state of a thread, which evaluate. *)
Definition thread_is {A} (f : tstate A -> bool) (s : sys A) (t : tid) : bool :=
  match sthreads s !! t with Some ts => f ts | None => false end.

Lemma thread_is_Some {A} f (s : sys A) t : thread_is f s t = true -> exists ts, sthreads s !! t = Some ts /\ f ts = true.
Proof. unfold thread_is. destruct (sthreads s !! t) as [ts|]; [eauto|done]. Qed.

(** ** Terminating sequential runs

    [runs now m p a m']: run alone, [p] terminates with answer [a] and memory
    [m'] (for all sufficient fuel, by [run_more]). *)
Definition runs {A} (now : Z) (m : mem) (p : prog A) (a : A) (m' : mem) : Prop :=
  exists fuel, run fuel now m p = Done a m'.

Lemma runs_ret {A} now m (a : A) : runs now m (Ret a) a m.
Proof. by exists 1%nat. Qed.

Lemma runs_exec {A} now m a v m1 (k : Z -> prog A) b m2 :
  exec a m = Some (v, m1) -> runs now m1 (k v) b m2 -> runs now m (Act a k) b m2.
Proof.
  intros He [f Hf]. exists (S f). simpl. destruct a; try discriminate; by rewrite He.
Qed.

Lemma runs_clock {A} now m c (k : Z -> prog A) b m2 :
  runs now m (k now) b m2 -> runs now m (Act (AClock c) k) b m2.
Proof. intros [f Hf]. by exists (S f). Qed.

Lemma runs_wake {A} now m l ps n (k : Z -> prog A) b m2 :
  runs now m (k 0) b m2 -> runs now m (Act (AFutexWake l ps n) k) b m2.
Proof. intros [f Hf]. by exists (S f). Qed.

Lemma runs_loop {A X B} now m (body : X -> prog (X + B)) x (k : B -> prog A) b m2 :
  runs now m (bind (body x) (fun r => match r with inl x' => Loop body x' k | inr b => k b end)) b m2 ->
  runs now m (Loop body x k) b m2.
Proof. intros [f Hf]. by exists (S f). Qed.

(** Sequencing is associative (continuations are compared pointwise). *)
Lemma bind_assoc {A B C} (p : prog A) (f : A -> prog B) (g : B -> prog C) :
  bind (bind p f) g = bind p (fun x => bind (f x) g).
Proof.
  induction p as [|A a k IH|A X Y body _ x k IH]; simpl; [done| |];
    f_equal; apply functional_extensionality; intros; by rewrite IH.
Qed.

Lemma run_bind {A B} f1 f2 now m (p : prog A) (k : A -> prog B) a m1 b m2 :
  run f1 now m p = Done a m1 -> run f2 now m1 (k a) = Done b m2 ->
  run (f1 + f2) now m (bind p k) = Done b m2.
Proof.
  revert m p. induction f1 as [|f1 IH]; intros m p H1 H2; [done|].
  destruct p as [x|x kx|X Y body x kx].
  - injection H1 as -> ->. eapply run_more; [done|lia].
  - simpl in *. destruct x; simpl in *; repeat case_test; eauto; done.
  - simpl in *. rewrite <- (IH _ _ H1 H2), bind_assoc. do 2 f_equal.
    apply functional_extensionality. by intros [].
Qed.

Lemma runs_bind {A B} now m (p : prog A) (k : A -> prog B) a m1 b m2 :
  runs now m p a m1 -> runs now m1 (k a) b m2 -> runs now m (bind p k) b m2.
Proof. intros [f1 H1] [f2 H2]. exists (f1 + f2)%nat. by eapply run_bind. Qed.

Lemma runs_load now m l : runs now m (load l) (mget m l) m.
Proof. by exists 2%nat. Qed.
Lemma runs_store now m l v : runs now m (store l v) 0 (mset m l (s32 v)).
Proof. by exists 2%nat. Qed.

(** A terminating run has one answer. *)
Lemma runs_det {A} now m (p : prog A) a b m1 m2 :
  runs now m p a m1 -> runs now m p b m2 -> a = b /\ m1 = m2.
Proof.
  intros [f1 H1] [f2 H2].
  apply (run_more _ _ _ _ _ _ (f1 + f2)) in H1; [|lia].
  apply (run_more _ _ _ _ _ _ (f1 + f2)) in H2; [|lia].
  rewrite H1 in H2. by injection H2.
Qed.

(** Writes of the same word collapse, so symbolic memories stay small. *)
Lemma mset_mset m l v w : mset (mset m l v) l w = mset m l w.
Proof. apply insert_insert_eq. Qed.
