(* ===== verification/MutexCode.v ===== *)
(** * The mutexes of libc/bionic/pthread.c

    Every function of the pthread_mutexattr_* and pthread_mutex_* family, as
    programs over atomic actions.  A mutex is the word at its address:

      bits 31-16 owner tid, 15-14 type, 13 shared flag, 12-2 recursion
      counter, 1-0 lock state (0 unlocked, 1 locked, 2 locked and contended).

    [__get_thread()->kernel_id] is the parameter [tid]. *)
From S2P Require Import Prelude Concur.

Definition PTHREAD_MUTEX_NORMAL : Z := 0.
Definition PTHREAD_MUTEX_RECURSIVE : Z := 1.
Definition PTHREAD_MUTEX_ERRORCHECK : Z := 2.
Definition PTHREAD_MUTEX_DEFAULT : Z := PTHREAD_MUTEX_NORMAL.
Definition PTHREAD_PROCESS_PRIVATE : Z := 0.
Definition PTHREAD_PROCESS_SHARED : Z := 1.

(** Fields of the mutex word. *)
Definition MUTEX_OWNER (v : Z) : Z := Z.land (Z.shiftr v 16) 0xffff.
Definition MUTEX_TYPE_MASK : Z := 0xc000.
Definition MUTEX_TYPE_NORMAL : Z := 0x0000.
Definition MUTEX_TYPE_RECURSIVE : Z := 0x4000.
Definition MUTEX_TYPE_ERRORCHECK : Z := 0x8000.
Definition MUTEX_COUNTER_SHIFT : Z := 2.
Definition MUTEX_COUNTER_MASK : Z := 0x1ffc.
Definition MUTEX_SHARED_MASK : Z := 0x2000.
Definition MUTEXATTR_TYPE_MASK : Z := 0x000f.
Definition MUTEXATTR_SHARED_MASK : Z := 0x0010.
Definition CLOCK_REALTIME : Z := 0.
Definition CLOCK_MONOTONIC : Z := 1.

(** ** Attributes *)
Definition pthread_mutexattr_init (attr : loc) : prog Z :=
  if negb (attr =? 0) then store attr PTHREAD_MUTEX_DEFAULT ;;; Ret 0 else Ret EINVAL.

Definition pthread_mutexattr_destroy (attr : loc) : prog Z :=
  if negb (attr =? 0) then store attr (-1) ;;; Ret 0 else Ret EINVAL.

Definition pthread_mutexattr_gettype (attr type : loc) : prog Z :=
  if negb (attr =? 0) then
    a <- load attr ;;
    let atype := Z.land a MUTEXATTR_TYPE_MASK in
    if (PTHREAD_MUTEX_NORMAL <=? atype) && (atype <=? PTHREAD_MUTEX_ERRORCHECK)
    then store type atype ;;; Ret 0
    else Ret EINVAL
  else Ret EINVAL.

Definition pthread_mutexattr_settype (attr : loc) (type : Z) : prog Z :=
  if negb (attr =? 0) && (PTHREAD_MUTEX_NORMAL <=? type) && (type <=? PTHREAD_MUTEX_ERRORCHECK)
  then
    a <- load attr ;;
    store attr (Z.lor (Z.land a (Z.lnot MUTEXATTR_TYPE_MASK)) type) ;;; Ret 0
  else Ret EINVAL.

Definition pthread_mutexattr_setpshared (attr : loc) (pshared : Z) : prog Z :=
  if attr =? 0 then Ret EINVAL
  else if pshared =? PTHREAD_PROCESS_PRIVATE then
    a <- load attr ;; store attr (Z.land a (Z.lnot MUTEXATTR_SHARED_MASK)) ;;; Ret 0
  else if pshared =? PTHREAD_PROCESS_SHARED then
    a <- load attr ;; store attr (Z.lor a MUTEXATTR_SHARED_MASK) ;;; Ret 0
  else Ret EINVAL.

Definition pthread_mutexattr_getpshared (attr pshared : loc) : prog Z :=
  if (attr =? 0) || (pshared =? 0) then Ret EINVAL
  else
    a <- load attr ;;
    store pshared (if negb (Z.land a MUTEXATTR_SHARED_MASK =? 0)
                   then PTHREAD_PROCESS_SHARED else PTHREAD_PROCESS_PRIVATE) ;;;
    Ret 0.

Definition pthread_mutex_init (mutex attr : loc) : prog Z :=
  if mutex =? 0 then Ret EINVAL
  else if attr =? 0 then store mutex MUTEX_TYPE_NORMAL ;;; Ret 0
  else
    a <- load attr ;;
    let value := if negb (Z.land a MUTEXATTR_SHARED_MASK =? 0)
                 then Z.lor 0 MUTEX_SHARED_MASK else 0 in
    a' <- load attr ;;
    let atype := Z.land a' MUTEXATTR_TYPE_MASK in
    if atype =? PTHREAD_MUTEX_NORMAL then
      store mutex (Z.lor value MUTEX_TYPE_NORMAL) ;;; Ret 0
    else if atype =? PTHREAD_MUTEX_RECURSIVE then
      store mutex (Z.lor value MUTEX_TYPE_RECURSIVE) ;;; Ret 0
    else if atype =? PTHREAD_MUTEX_ERRORCHECK then
      store mutex (Z.lor value MUTEX_TYPE_ERRORCHECK) ;;; Ret 0
    else Ret EINVAL.

(** ** Normal mutexes *)

(** while (__atomic_swap(shared|2, &mutex->value) != (shared|0)) wait; *)
Definition _normal_lock_slow (mutex : loc) (shared : Z) : prog unit :=
  forever (
    old <- __atomic_swap (Z.lor shared 2) mutex ;;
    if negb (old =? Z.lor shared 0)
    then __futex_wait_ex mutex shared (Z.lor shared 2) None ;;; Ret None
    else Ret (Some tt)).

Definition _normal_lock (mutex : loc) : prog unit :=
  v <- load mutex ;;
  let shared := Z.land v MUTEX_SHARED_MASK in
  c <- __atomic_cmpxchg (Z.lor shared 0) (Z.lor shared 1) mutex ;;
  if negb (c =? 0) then _normal_lock_slow mutex shared else Ret tt.

Definition _normal_unlock (mutex : loc) : prog unit :=
  v <- load mutex ;;
  let shared := Z.land v MUTEX_SHARED_MASK in
  old <- __atomic_dec mutex ;;
  if negb (old =? Z.lor shared 1) then
    store mutex shared ;;;
    __futex_wake_ex mutex shared 1 ;;;
    Ret tt
  else Ret tt.

(** The global lock that protects the words of recursive and error-checking
    mutexes; its address is a constant of the model. *)
Definition __recursive_lock : loc := -16.
Definition _recursive_lock : prog unit := _normal_lock __recursive_lock.
Definition _recursive_unlock : prog unit := _normal_unlock __recursive_lock.

(** The owner of a recursive mutex enters it once more. *)
Definition relock (mutex : loc) : prog Z :=
  _recursive_lock ;;;
  oldv <- load mutex ;;
  let counter := Z.land (oldv + Z.shiftl 1 MUTEX_COUNTER_SHIFT) MUTEX_COUNTER_MASK in
  store mutex (Z.lor (Z.land oldv (Z.lnot MUTEX_COUNTER_MASK)) counter) ;;;
  _recursive_unlock ;;;
  Ret 0.

(** One attempt at a recursive or error-checking mutex: answers the value of
    [oldv] after the attempt. *)
Definition try_owned (mutex : loc) (tid mtype new_lock_type : Z) : prog Z :=
  _recursive_lock ;;;
  oldv <- load mutex ;;
  oldv <- (if oldv =? mtype then
             store mutex (Z.lor (Z.lor (Z.shiftl tid 16) mtype) new_lock_type) ;;; Ret oldv
           else if Z.land oldv 3 =? 1 then
             let oldv := Z.lxor oldv 3 in
             store mutex oldv ;;; Ret oldv
           else Ret oldv) ;;
  _recursive_unlock ;;;
  Ret oldv.

Definition pthread_mutex_lock (tid : Z) (mutex : loc) : prog Z :=
  if mutex =? 0 then Ret EINVAL
  else
    v1 <- load mutex ;;
    let mtype := Z.land v1 MUTEX_TYPE_MASK in
    v2 <- load mutex ;;
    let shared := Z.land v2 MUTEX_SHARED_MASK in
    if mtype =? MUTEX_TYPE_NORMAL then _normal_lock mutex ;;; Ret 0
    else
      v3 <- load mutex ;;
      if tid =? MUTEX_OWNER v3 then
        if mtype =? MUTEX_TYPE_ERRORCHECK then Ret EDEADLK else relock mutex
      else
        let mtype := Z.lor mtype shared in
        Loop (fun new_lock_type =>
          oldv <- try_owned mutex tid mtype new_lock_type ;;
          if oldv =? mtype then Ret (inr 0)
          else __futex_wait_ex mutex shared oldv None ;;; Ret (inl 2)) 1 Ret.

Definition pthread_mutex_unlock (tid : Z) (mutex : loc) : prog Z :=
  if mutex =? 0 then Ret EINVAL
  else
    v1 <- load mutex ;;
    let mtype := Z.land v1 MUTEX_TYPE_MASK in
    v2 <- load mutex ;;
    let shared := Z.land v2 MUTEX_SHARED_MASK in
    if mtype =? MUTEX_TYPE_NORMAL then _normal_unlock mutex ;;; Ret 0
    else
      v3 <- load mutex ;;
      if negb (tid =? MUTEX_OWNER v3) then Ret EPERM
      else
        _recursive_lock ;;;
        oldv <- load mutex ;;
        oldv <- (if negb (Z.land oldv MUTEX_COUNTER_MASK =? 0) then
                   store mutex (oldv - Z.shiftl 1 MUTEX_COUNTER_SHIFT) ;;; Ret 0
                 else
                   store mutex (Z.lor shared mtype) ;;; Ret oldv) ;;
        _recursive_unlock ;;;
        if Z.land oldv 3 =? 2
        then __futex_wake_ex mutex shared 1 ;;; Ret 0
        else Ret 0.

Definition pthread_mutex_trylock (tid : Z) (mutex : loc) : prog Z :=
  if mutex =? 0 then Ret EINVAL
  else
    v1 <- load mutex ;;
    let mtype := Z.land v1 MUTEX_TYPE_MASK in
    v2 <- load mutex ;;
    let shared := Z.land v2 MUTEX_SHARED_MASK in
    if mtype =? MUTEX_TYPE_NORMAL then
      c <- __atomic_cmpxchg (Z.lor shared 0) (Z.lor shared 1) mutex ;;
      if c =? 0 then Ret 0 else Ret EBUSY
    else
      v3 <- load mutex ;;
      if tid =? MUTEX_OWNER v3 then
        if mtype =? MUTEX_TYPE_ERRORCHECK then Ret EDEADLK else relock mutex
      else
        let mtype := Z.lor mtype shared in
        _recursive_lock ;;;
        oldv <- load mutex ;;
        (if oldv =? mtype
         then store mutex (Z.lor (Z.lor (Z.shiftl tid 16) mtype) 1) ;;; Ret tt
         else Ret tt) ;;;
        _recursive_unlock ;;;
        if negb (oldv =? mtype) then Ret EBUSY else Ret 0.

Definition pthread_mutex_destroy (tid : Z) (mutex : loc) : prog Z :=
  ret <- pthread_mutex_trylock tid mutex ;;
  if negb (ret =? 0) then Ret ret
  else store mutex 0xdead10cc ;;; Ret 0.

(** ** Timed locking *)

(** Answers the C result (-1 or 0) and the relative time in [ts]. *)
Definition __timespec_to_absolute (abstime : timespec) (clock : Z) : prog (Z * timespec) :=
  now <- clock_gettime clock ;;
  let tv_sec := s32 (fst abstime - fst now) in
  let tv_nsec := snd abstime - snd now in
  let '(tv_sec, tv_nsec) :=
    if tv_nsec <? 0 then (s32 (tv_sec - 1), tv_nsec + 1000000000) else (tv_sec, tv_nsec) in
  if (tv_nsec <? 0) || (tv_sec <? 0) then Ret (-1, (tv_sec, tv_nsec))
  else Ret (0, (tv_sec, tv_nsec)).

Definition __timespec_to_relative_msec (msecs clock : Z) : prog timespec :=
  now <- clock_gettime clock ;;
  let tv_sec := s32 (fst now + msecs / 1000) in
  let tv_nsec := snd now + msecs mod 1000 * 1000000 in
  if 1000000000 <=? tv_nsec then Ret (s32 (tv_sec + 1), tv_nsec - 1000000000)
  else Ret (tv_sec, tv_nsec).

Definition normal_lock_timeout_slow (mutex : loc) (shared : Z) (abstime : timespec) : prog Z :=
  forever (
    old <- __atomic_swap (Z.lor shared 2) mutex ;;
    if negb (old =? Z.lor shared 0) then
      r <- __timespec_to_absolute abstime CLOCK_MONOTONIC ;;
      if fst r <? 0 then Ret (Some EBUSY)
      else __futex_wait_ex mutex shared (Z.lor shared 2) (Some (snd r)) ;;; Ret None
    else Ret (Some 0)).

(** What pthread_mutex_lock_timeout_np does once it knows the time to give up. *)
Definition lock_timeout_until (tid : Z) (mutex : loc) (abstime : timespec) : prog Z :=
  if mutex =? 0 then Ret EINVAL
  else
    v1 <- load mutex ;;
    let mtype := Z.land v1 MUTEX_TYPE_MASK in
    v2 <- load mutex ;;
    let shared := Z.land v2 MUTEX_SHARED_MASK in
    if mtype =? MUTEX_TYPE_NORMAL then
      c <- __atomic_cmpxchg (Z.lor shared 0) (Z.lor shared 1) mutex ;;
      if c =? 0 then Ret 0 else normal_lock_timeout_slow mutex shared abstime
    else
      v3 <- load mutex ;;
      if tid =? MUTEX_OWNER v3 then
        if mtype =? MUTEX_TYPE_ERRORCHECK then Ret EDEADLK else relock mutex
      else
        let mtype := Z.lor mtype shared in
        Loop (fun new_lock_type =>
          oldv <- try_owned mutex tid mtype new_lock_type ;;
          if oldv =? mtype then Ret (inr 0)
          else
            r <- __timespec_to_absolute abstime CLOCK_MONOTONIC ;;
            if fst r <? 0 then Ret (inr EBUSY)
            else __futex_wait_ex mutex shared oldv (Some (snd r)) ;;; Ret (inl 2)) 1 Ret.

Definition pthread_mutex_lock_timeout_np (tid : Z) (mutex : loc) (msecs : Z) : prog Z :=
  abstime <- __timespec_to_relative_msec msecs CLOCK_MONOTONIC ;;
  lock_timeout_until tid mutex abstime.
