(* ===== verification/MutexSafety.v ===== *)
(** * Normal mutexes under every interleaving

    Any number of threads run clients that lock (pthread_mutex_lock,
    pthread_mutex_trylock, pthread_mutex_lock_timeout_np), enter a critical
    section and unlock one shared normal mutex.  The program points of the
    translated code are named by [pc]; [code_head], [code_resume] and
    [code_unroll] show that the code moves between them as [pc_act], [pc_next]
    say, and the invariant of the mutex word is proved on the points. *)
From S2P Require Import Prelude Concur MutexCode.

Inductive op : Type := OLock | OTry | OTimed (msecs : Z).

Section Normal.
(** The mutex is at the non-NULL address [Zpos addr]; [sh] is its
    process-shared flag. *)
Context (addr : positive) (sh : bool).

Definition mtx : loc := Zpos addr.
Definition sflag : Z := if sh then MUTEX_SHARED_MASK else 0.
(** The three values of the word: unlocked, locked, locked and contended. *)
Definition w0 : Z := sflag.
Definition w1 : Z := Z.lor sflag 1.
Definition w2 : Z := Z.lor sflag 2.

Definition acquire (t : tid) (o : op) : prog Z :=
  match o with
  | OLock => pthread_mutex_lock t mtx
  | OTry => pthread_mutex_trylock t mtx
  | OTimed ms => pthread_mutex_lock_timeout_np t mtx ms
  end.

(** A client performs its operations in turn; each that acquires the mutex
    passes a critical section and unlocks. *)
Fixpoint client (t : tid) (ops : list op) : prog unit :=
  match ops with
  | [] => Ret tt
  | o :: ops =>
      r <- acquire t o ;;
      (if r =? 0 then Act ACrit Ret ;;; pthread_mutex_unlock t mtx ;;; Ret tt
       else Ret tt) ;;;
      client t ops
  end.

Definition in_critical (ts : tstate unit) : bool :=
  match ts with Run (Act ACrit _) => true | _ => false end.

(** ** Program points *)
Inductive pc : Type :=
| PStart (ops : list op)                       (* before the next operation *)
| PLock (n : nat) (ops : list op)              (* pthread_mutex_lock: loads 2, 3 *)
| PLockCas (ops : list op)
| PLockLoop (ops : list op)
| PLockSwap (ops : list op)
| PLockWait (ops : list op)
| PLockSleep (ops : list op)
| PTry (ops : list op)
| PTryCas (ops : list op)
| PTim (n : nat) (a : timespec) (ops : list op)
| PTimCas (a : timespec) (ops : list op)
| PTimLoop (a : timespec) (ops : list op)
| PTimSwap (a : timespec) (ops : list op)
| PTimClock (a : timespec) (ops : list op)
| PTimWait (a ts : timespec) (ops : list op)
| PTimSleep (a ts : timespec) (ops : list op)
| PCrit (ops : list op)
| PUnl (n : nat) (ops : list op)               (* pthread_mutex_unlock: loads *)
| PUnlDec (ops : list op)
| PUnlStore (ops : list op)
| PUnlWake (ops : list op).

(** What a thread does after its [acquire] answered. *)
Definition after (t : tid) (ops : list op) (r : Z) : prog unit :=
  (if r =? 0 then Act ACrit Ret ;;; pthread_mutex_unlock t mtx ;;; Ret tt
   else Ret tt) ;;;
  client t ops.

Definition unlocking (t : tid) (ops : list op) : prog unit :=
  (pthread_mutex_unlock t mtx ;;; Ret tt) ;;; client t ops.

Definition timed_from (t : tid) (a : timespec) (ops : list op) : prog unit :=
  bind (lock_timeout_until t mtx a) (after t ops).

Fixpoint resumes (p : prog unit) (vs : list Z) : prog unit :=
  match vs with [] => p | v :: vs => resumes (resume p v) vs end.

Definition unrolled (p : prog unit) : prog unit :=
  match unroll p with Some q => q | None => p end.

(** The code at a point of thread [t]. *)
Definition code (t : tid) (p : pc) : prog unit :=
  match p with
  | PStart ops => client t ops
  | PLock n ops => resumes (client t (OLock :: ops)) (match n with O => [w0] | _ => [w0; w0] end)
  | PLockCas ops => resumes (client t (OLock :: ops)) [w0; w0; w0]
  | PLockLoop ops => resumes (client t (OLock :: ops)) [w0; w0; w0; 1]
  | PLockSwap ops => unrolled (resumes (client t (OLock :: ops)) [w0; w0; w0; 1])
  | PLockWait ops | PLockSleep ops =>
      resume (unrolled (resumes (client t (OLock :: ops)) [w0; w0; w0; 1])) w1
  | PTry ops => resumes (client t (OTry :: ops)) [w0]
  | PTryCas ops => resumes (client t (OTry :: ops)) [w0; w0]
  | PTim O a ops => timed_from t a ops
  | PTim (S _) a ops => resumes (timed_from t a ops) [w0]
  | PTimCas a ops => resumes (timed_from t a ops) [w0; w0]
  | PTimLoop a ops => resumes (timed_from t a ops) [w0; w0; 1]
  | PTimSwap a ops => unrolled (resumes (timed_from t a ops) [w0; w0; 1])
  | PTimClock a ops => resume (unrolled (resumes (timed_from t a ops) [w0; w0; 1])) w1
  | PTimWait a ts ops | PTimSleep a ts ops =>
      Act (AFutexWait mtx sflag w2 (Some ts))
          (fun _ => resumes (timed_from t a ops) [w0; w0; 1])
  | PCrit ops => after t ops 0
  | PUnl n ops => resumes (unlocking t ops) (match n with O => [] | 1%nat => [w0] | _ => [w0; w0] end)
  | PUnlDec ops => resumes (unlocking t ops) [w0; w0; w0]
  | PUnlStore ops => resumes (unlocking t ops) [w0; w0; w0; w2]
  | PUnlWake ops => resumes (unlocking t ops) [w0; w0; w0; w2; 0]
  end.

Definition tst (t : tid) (p : pc) : tstate unit :=
  match p with
  | PLockSleep ops => Sleep mtx sflag false (resume (code t p))
  | PTimSleep a ts ops => Sleep mtx sflag true (resume (code t p))
  | _ => Run (code t p)
  end.

(** The action at each point ([None]: finished or at the head of a loop). *)
Definition pc_act (p : pc) : option act :=
  match p with
  | PStart [] | PLockLoop _ | PTimLoop _ _ => None
  | PStart (OTimed _ :: _) => Some (AClock CLOCK_MONOTONIC)
  | PStart _ | PLock _ _ | PTry _ | PTim _ _ _ | PUnl _ _ => Some (ALoad mtx)
  | PLockCas _ | PTryCas _ | PTimCas _ _ => Some (ACmpxchg w0 w1 mtx)
  | PLockSwap _ | PTimSwap _ _ => Some (ASwap w2 mtx)
  | PLockWait _ | PLockSleep _ => Some (AFutexWait mtx sflag w2 None)
  | PTimWait _ ts _ | PTimSleep _ ts _ => Some (AFutexWait mtx sflag w2 (Some ts))
  | PTimClock _ _ => Some (AClock CLOCK_MONOTONIC)
  | PCrit _ => Some ACrit
  | PUnlDec _ => Some (ADec mtx)
  | PUnlStore _ => Some (AStore mtx w0)
  | PUnlWake _ => Some (AFutexWake mtx sflag 1)
  end.

(** The time a timed lock gives up, and the time it still has. *)
Definition give_up_at (ms now : Z) : timespec :=
  let sec := s32 (now / 1000000000 + ms / 1000) in
  let nsec := now mod 1000000000 + ms mod 1000 * 1000000 in
  if 1000000000 <=? nsec then (s32 (sec + 1), nsec - 1000000000) else (sec, nsec).
Definition remaining (a : timespec) (now : Z) : timespec :=
  let sec := s32 (fst a - now / 1000000000) in
  let nsec := snd a - now mod 1000000000 in
  if nsec <? 0 then (s32 (sec - 1), nsec + 1000000000) else (sec, nsec).

(** The next point, given the answer of the action. *)
Definition pc_next (p : pc) (v : Z) : pc :=
  match p with
  | PStart [] => p
  | PStart (OLock :: ops) => PLock 0 ops
  | PStart (OTry :: ops) => PTry ops
  | PStart (OTimed ms :: ops) => PTim 0 (give_up_at ms v) ops
  | PLock O ops => PLock 1 ops
  | PLock (S _) ops => PLockCas ops
  | PLockCas ops => if v =? 0 then PCrit ops else PLockLoop ops
  | PLockSwap ops => if v =? w0 then PCrit ops else PLockWait ops
  | PLockWait ops | PLockSleep ops | PLockLoop ops => PLockLoop ops
  | PTry ops => PTryCas ops
  | PTryCas ops => if v =? 0 then PCrit ops else PStart ops
  | PTim O a ops => PTim 1 a ops
  | PTim (S _) a ops => PTimCas a ops
  | PTimCas a ops => if v =? 0 then PCrit ops else PTimLoop a ops
  | PTimSwap a ops => if v =? w0 then PCrit ops else PTimClock a ops
  | PTimClock a ops =>
      let ts := remaining a v in
      if (snd ts <? 0) || (fst ts <? 0) then PStart ops else PTimWait a ts ops
  | PTimWait a _ ops | PTimSleep a _ ops | PTimLoop a ops => PTimLoop a ops
  | PCrit ops => PUnl 0 ops
  | PUnl O ops => PUnl 1 ops
  | PUnl (S O) ops => PUnl 2 ops
  | PUnl (S (S _)) ops => PUnlDec ops
  | PUnlDec ops => if v =? w1 then PStart ops else PUnlStore ops
  | PUnlStore ops => PUnlWake ops
  | PUnlWake ops => PStart ops
  end.

(** The answers the code can see at a point: a read of the word answers one
    of its three values. *)
Definition good_answer (p : pc) (v : Z) : Prop :=
  match pc_act p with
  | Some (ALoad _) => v = w0 \/ v = w1 \/ v = w2
  | _ => True
  end.

End Normal.

(** Case analysis on the program points, the flag being concrete. *)
Ltac pc_cases p sh :=
  destruct p as [[|[] ops]|[|n] ?| | | | | | | |[|n] ? ?| | | | | | | |[|[|n]] ?| | |];
  destruct sh.

Lemma code_head addr sh t p : head (code addr sh t p) = pc_act addr sh p.
Proof. pc_cases p sh; reflexivity. Qed.

Lemma code_unroll addr sh t p :
  unroll (code addr sh t p) =
    match p with
    | PLockLoop ops => Some (code addr sh t (PLockSwap ops))
    | PTimLoop a ops => Some (code addr sh t (PTimSwap a ops))
    | _ => None
    end.
Proof. pc_cases p sh; reflexivity. Qed.

(** The code after an action whose answer it tests. *)
Lemma resume_lock_cas addr sh t ops v :
  resume (code addr sh t (PLockCas ops)) v =
  bind (bind (if negb (v =? 0) then _normal_lock_slow (mtx addr) (sflag sh) else Ret tt)
             (fun _ => Ret 0))
       (after addr t ops).
Proof. destruct sh; reflexivity. Qed.

Lemma resume_try_cas addr sh t ops v :
  resume (code addr sh t (PTryCas ops)) v =
  bind (if v =? 0 then Ret 0 else Ret EBUSY) (after addr t ops).
Proof. destruct sh; reflexivity. Qed.

Lemma resume_tim_cas addr sh t a ops v :
  resume (code addr sh t (PTimCas a ops)) v =
  bind (if v =? 0 then Ret 0 else normal_lock_timeout_slow (mtx addr) (sflag sh) a)
       (after addr t ops).
Proof. destruct sh; reflexivity. Qed.

Lemma resume_tim_start addr sh t ms ops v :
  resume (code addr sh t (PStart (OTimed ms :: ops))) v =
  code addr sh t (PTim 0 (give_up_at ms v) ops).
Proof.
  transitivity (bind
    (bind (let tv_sec := s32 (v / 1000000000 + ms / 1000) in
           let tv_nsec := v mod 1000000000 + ms mod 1000 * 1000000 in
           if 1000000000 <=? tv_nsec then Ret (s32 (tv_sec + 1), tv_nsec - 1000000000)
           else Ret (tv_sec, tv_nsec)) (lock_timeout_until t (mtx addr)))
    (after addr t ops)); [reflexivity|].
  unfold give_up_at. cbv zeta. case_test; reflexivity.
Qed.

(** The continuation [K] of a round of a waiting loop: [inl] starts the next
    round at the point [p], [inr] leaves it with an answer of the lock call. *)
Definition loop_cont {B} addr sh t (p : pc) ops (ans : B -> Z) (K : unit + B -> prog unit) : Prop :=
  K (inl tt) = code addr sh t p /\ (forall b, K (inr b) = after addr t ops (ans b)).

Definition round {B} (r : option B) : prog (unit + B) :=
  Ret (match r with Some b => inr b | None => inl tt end).

Lemma resume_lock_swap addr sh t ops :
  exists K, loop_cont addr sh t (PLockLoop ops) ops (fun _ => 0) K /\
  forall v, resume (code addr sh t (PLockSwap ops)) v =
  bind (bind (if negb (v =? w0 sh)
              then __futex_wait_ex (mtx addr) (sflag sh) (w2 sh) None ;;; Ret None
              else Ret (Some tt)) round) K.
Proof. destruct sh; eexists; (split; [|reflexivity]); split; [|intros b| |intros b]; reflexivity. Qed.

Lemma resume_tim_swap addr sh t a ops :
  exists K, loop_cont addr sh t (PTimLoop a ops) ops id K /\
  forall v, resume (code addr sh t (PTimSwap a ops)) v =
  bind (bind (if negb (v =? w0 sh)
              then
                r <- __timespec_to_absolute a CLOCK_MONOTONIC ;;
                if fst r <? 0 then Ret (Some EBUSY)
                else __futex_wait_ex (mtx addr) (sflag sh) (w2 sh) (Some (snd r)) ;;; Ret None
              else Ret (Some 0)) round) K.
Proof. destruct sh; eexists; (split; [|reflexivity]); split; [|intros b| |intros b]; reflexivity. Qed.

Lemma resume_tim_clock addr sh t a ops v :
  resume (code addr sh t (PTimClock a ops)) v =
  code addr sh t (pc_next sh (PTimClock a ops) v).
Proof.
  assert (exists K, loop_cont addr sh t (PTimLoop a ops) ops id K /\ resume (code addr sh t (PTimClock a ops)) v = bind (bind (bind
     (let tv_sec := s32 (fst a - v / 1000000000) in
      let tv_nsec := snd a - v mod 1000000000 in
      let '(tv_sec, tv_nsec) :=
        if tv_nsec <? 0 then (s32 (tv_sec - 1), tv_nsec + 1000000000) else (tv_sec, tv_nsec) in
      if (tv_nsec <? 0) || (tv_sec <? 0) then Ret (-1, (tv_sec, tv_nsec))
      else Ret (0, (tv_sec, tv_nsec)))
     (fun r => if fst r <? 0 then Ret (Some EBUSY)
               else __futex_wait_ex (mtx addr) (sflag sh) (w2 sh) (Some (snd r)) ;;; Ret None))
     round) K) as (K & [HK1 HK2] & ->).
  { destruct sh; eexists; (split; [|reflexivity]); split; [|intros b| |intros b]; reflexivity. }
  cbn [pc_next]. unfold remaining. cbv zeta.
  destruct (snd a - v mod 1000000000 <? 0); cbn [fst snd];
    case_test; cbn -[code]; rewrite ?HK1, ?HK2; destruct sh; reflexivity.
Qed.

Lemma resume_unl_dec addr sh t ops v :
  resume (code addr sh t (PUnlDec ops)) v =
  bind (bind (bind (if negb (v =? w1 sh) then
                store (mtx addr) (sflag sh) ;;;
                __futex_wake_ex (mtx addr) (sflag sh) 1 ;;;
                Ret tt
              else Ret tt) (fun _ => Ret 0)) (fun _ => Ret tt)) (fun _ => client addr t ops).
Proof. destruct sh; reflexivity. Qed.

Lemma code_resume addr sh t p v :
  pc_act addr sh p <> None -> good_answer addr sh p v ->
  resume (code addr sh t p) v = code addr sh t (pc_next sh p v).
Proof.
  intros Hact Hv.
  destruct p as [[|[] ops]|[|n] ?| | | | | | | |[|n] ? ?| | | | | | | |[|[|n]] ?| | |];
    unfold good_answer in Hv; simpl in Hv;
    try (destruct Hv as [-> | [-> | ->]]; destruct sh; reflexivity);
    try (by destruct sh); try (by simpl in Hact).
  - apply resume_tim_start.
  - rewrite resume_lock_cas. cbn [pc_next]. destruct (v =? 0); destruct sh; reflexivity.
  - destruct (resume_lock_swap addr sh t ops) as (K & [_ HK] & Hr). cbn [pc_next].
    destruct (v =? w0 sh) eqn:E.
    + rewrite Hr, E. cbn -[code]. rewrite HK. by destruct sh.
    + change (code addr sh t (PLockWait ops)) with (resume (code addr sh t (PLockSwap ops)) (w1 sh)).
      rewrite !Hr, E. by destruct sh.
  - rewrite resume_try_cas. cbn [pc_next]. destruct (v =? 0); destruct sh; reflexivity.
  - rewrite resume_tim_cas. cbn [pc_next]. destruct (v =? 0); destruct sh; reflexivity.
  - destruct (resume_tim_swap addr sh t a ops) as (K & [_ HK] & Hr). cbn [pc_next].
    destruct (v =? w0 sh) eqn:E.
    + rewrite Hr, E. cbn -[code]. rewrite HK. by destruct sh.
    + change (code addr sh t (PTimClock a ops)) with (resume (code addr sh t (PTimSwap a ops)) (w1 sh)).
      rewrite !Hr, E. by destruct sh.
  - apply resume_tim_clock.
  - rewrite resume_unl_dec. cbn [pc_next]. destruct (v =? w1 sh); destruct sh; reflexivity.
Qed.

(** ** The invariant of the mutex word *)

(** What a thread is about to do with the mutex: it owns it ([COwn], or
    [CStore] between the decrement and the store of the release), it owes a
    FUTEX_WAKE ([CWake]), it will swap the word before it can sleep ([CSwap]),
    it sleeps, or none of these. *)
Inductive cls : Type := COut | COwn | CStore | CWake | CSwap | CAsleep.

#[export] Instance cls_eq_dec : EqDecision cls.
Proof. solve_decision. Defined.

Definition cls_of (p : pc) : cls :=
  match p with
  | PCrit _ | PUnl _ _ | PUnlDec _ => COwn
  | PUnlStore _ => CStore
  | PUnlWake _ => CWake
  | PLockLoop _ | PLockSwap _ | PTimLoop _ _ | PTimSwap _ _ => CSwap
  | PLockSleep _ | PTimSleep _ _ _ => CAsleep
  | _ => COut
  end.

Definition owns (c : cls) : Prop := c = COwn \/ c = CStore.
Definition has (c : cls) (cs : gmap tid cls) : Prop := exists t, cs !! t = Some c.

(** At most one thread owns the mutex, and one does exactly when the word is
    not the unlocked value. *)
Record own_ok (sh : bool) (w : Z) (cs : gmap tid cls) : Prop := {
  oo_word : w = w0 sh \/ w = w1 sh \/ w = w2 sh;
  oo_uniq : forall t1 t2 c1 c2, cs !! t1 = Some c1 -> cs !! t2 = Some c2 ->
              owns c1 -> owns c2 -> t1 = t2;
  oo_free : w = w0 sh -> forall t c, cs !! t = Some c -> ~ owns c;
  oo_held : w <> w0 sh -> exists t c, cs !! t = Some c /\ owns c }.

(** When a thread sleeps, either the owner will see the contended value when it
    releases, or a release or a swap that repairs the word is under way. *)
Definition wake_ok (sh : bool) (w : Z) (cs : gmap tid cls) : Prop :=
  has CAsleep cs ->
  (w = w2 sh /\ has COwn cs) \/ has CStore cs \/ has CWake cs \/ has CSwap cs.

Definition minv (sh : bool) (w : Z) (cs : gmap tid cls) : Prop :=
  own_ok sh w cs /\ wake_ok sh w cs.

(** The moves a thread of class [c] makes, and the word after them. *)
Inductive move (sh : bool) (cs : gmap tid cls) (t : tid) : Z -> cls -> Z -> cls -> Prop :=
| mv_stay w c : move sh cs t w c w c
| mv_take : move sh cs t (w0 sh) COut (w1 sh) COwn
| mv_retry w : move sh cs t w COut w CSwap
| mv_swap : move sh cs t (w0 sh) CSwap (w2 sh) COwn
| mv_contend w : w <> w0 sh -> move sh cs t w CSwap (w2 sh) COut
| mv_sleep : move sh cs t (w2 sh) COut (w2 sh) CAsleep
| mv_awake w : move sh cs t w CAsleep w CSwap
| mv_release : move sh cs t (w1 sh) COwn (w0 sh) COut
| mv_dec : move sh cs t (w2 sh) COwn (w1 sh) CStore
| mv_store w : move sh cs t w CStore (w0 sh) CWake
| mv_woke w : (has CAsleep cs -> has CSwap cs) -> move sh cs t w CWake w COut.

Lemma words_distinct sh : w0 sh <> w1 sh /\ w0 sh <> w2 sh /\ w1 sh <> w2 sh.
Proof. by destruct sh. Qed.

Lemma has_insert_same c t cs : has c (<[t := c]> cs).
Proof. exists t. apply lookup_insert_eq. Qed.
Lemma has_insert_other c c' t c0 cs :
  has c cs -> cs !! t = Some c0 -> c0 <> c -> has c (<[t := c']> cs).
Proof. intros [u Hu] Ht Hne. exists u. rewrite lookup_insert_ne by congruence. done. Qed.
Lemma has_insert_inv c c' t cs : has c (<[t := c']> cs) -> c <> c' -> has c cs.
Proof. intros [u Hu] Hne. apply lookup_insert_Some in Hu as [[_ ?]|[_ ?]]; [congruence|by exists u]. Qed.

(** A thread that changes class without changing ownership. *)
Lemma own_keep sh w w' c c' t cs :
  own_ok sh w cs -> cs !! t = Some c ->
  (owns c <-> owns c') -> (w = w0 sh <-> w' = w0 sh) ->
  (w' = w0 sh \/ w' = w1 sh \/ w' = w2 sh) ->
  own_ok sh w' (<[t := c']> cs).
Proof.
  intros [Hw Hu Hf Hh] Ht Hc Hww Hw'. constructor; [done| | |].
  - intros t1 t2 c1 c2 H1 H2 O1 O2.
    rewrite lookup_insert_Some in H1, H2.
    destruct H1 as [[<- <-]|[? H1']]; destruct H2 as [[<- <-]|[? H2']]; try done;
      [symmetry|..]; eapply Hu; eauto; tauto.
  - intros E t1 c1 H1. apply lookup_insert_Some in H1 as [[<- <-]|[? H1']].
    + rewrite <- Hc. apply (Hf (proj2 Hww E) _ _ Ht).
    + apply (Hf (proj2 Hww E) _ _ H1').
  - intros E. destruct Hh as (t1 & c1 & H1 & O1); [tauto|].
    destruct (decide (t1 = t)) as [->|Hne].
    + exists t, c'. rewrite lookup_insert_eq. split; [done|]. replace c1 with c in O1 by congruence. tauto.
    + exists t1, c1. by rewrite lookup_insert_ne.
Qed.

(** A thread that becomes the owner of a free mutex. *)
Lemma own_take sh w' c' t cs :
  own_ok sh (w0 sh) cs -> owns c' -> w' = w1 sh \/ w' = w2 sh ->
  own_ok sh w' (<[t := c']> cs).
Proof.
  intros [Hw Hu Hf Hh] Hc Hw'. specialize (Hf eq_refl).
  destruct (words_distinct sh) as (W01 & W02 & W12).
  constructor; [tauto| | |].
  - intros t1 t2 c1 c2 H1 H2 O1 O2.
    rewrite lookup_insert_Some in H1, H2.
    destruct H1 as [[<- <-]|[? H1']]; destruct H2 as [[<- <-]|[? H2']]; try done;
      exfalso; eapply Hf; eauto.
  - intros E. destruct Hw'; congruence.
  - intros _. exists t, c'. by rewrite lookup_insert_eq.
Qed.

(** The owner that gives the mutex up. *)
Lemma own_release sh w c c' t cs :
  own_ok sh w cs -> cs !! t = Some c -> owns c -> ~ owns c' ->
  own_ok sh (w0 sh) (<[t := c']> cs).
Proof.
  intros [Hw Hu Hf Hh] Ht Hc Hc'. constructor; [tauto| | |done].
  - intros t1 t2 c1 c2 H1 H2 O1 O2.
    rewrite lookup_insert_Some in H1, H2.
    destruct H1 as [[<- <-]|[? H1']]; destruct H2 as [[<- <-]|[? H2']]; try done.
    eapply Hu; eauto.
  - intros _ t1 c1 H1. apply lookup_insert_Some in H1 as [[<- <-]|[Hne H1']]; [done|].
    intros O1. apply Hne. eapply Hu; eauto.
Qed.

(** The owner of a locked mutex, seen from its class. *)
Lemma held_class sh w cs :
  own_ok sh w cs -> w <> w0 sh -> has COwn cs \/ has CStore cs.
Proof. intros H Hw. destruct (oo_held _ _ _ H Hw) as (t & c & Ht & [-> | ->]); [left|right]; by exists t. Qed.

Lemma move_own sh w w' c c' t cs :
  own_ok sh w cs -> cs !! t = Some c -> move sh cs t w c w' c' ->
  own_ok sh w' (<[t := c']> cs).
Proof.
  intros H Ht Hm. destruct (words_distinct sh) as (W01 & W02 & W12).
  pose proof (oo_word _ _ _ H).
  destruct Hm;
    (eapply own_keep; [done..|unfold owns; naive_solver|naive_solver|naive_solver])
    || (eapply own_take; [done|unfold owns; naive_solver|naive_solver])
    || (eapply own_release; [done..|unfold owns; naive_solver|unfold owns; naive_solver]).
Qed.

Lemma move_wake sh w w' c c' t cs :
  own_ok sh w cs -> wake_ok sh w cs -> cs !! t = Some c -> move sh cs t w c w' c' ->
  wake_ok sh w' (<[t := c']> cs).
Proof.
  intros Ho Hk Ht Hm Hs. destruct (words_distinct sh) as (W01 & W02 & W12).
  assert (Hsame : c' <> CAsleep -> has CAsleep cs) by (intros; eapply has_insert_inv; eauto).
  pose proof (has_insert_same c' t cs) as Hnew.
  assert (Hkeep : forall c0, c0 <> c -> has c0 cs -> has c0 (<[t := c']> cs))
    by (intros; eapply has_insert_other; eauto).
  destruct Hm; try (specialize (Hk (Hsame ltac:(done)))); eauto 6.
  - rewrite insert_id in * by done. auto.
  - destruct Hk as [[E _]|[?|[?|?]]]; [congruence|auto..].
  - destruct (held_class _ _ _ Ho) as [?|?]; auto.
  - destruct (held_class _ _ _ Ho) as [?|?]; auto.
  - destruct Hk as [[E _]|[?|[?|?]]]; [congruence|auto..].
  - right; right; right. apply Hkeep; auto.
Qed.

Lemma move_inv sh w w' c c' t cs :
  minv sh w cs -> cs !! t = Some c -> move sh cs t w c w' c' ->
  minv sh w' (<[t := c']> cs).
Proof. intros [Ho Hk] Ht Hm. split; [eapply move_own|eapply move_wake]; eauto. Qed.

(** ** The invariant holds in every reachable state *)

(** The threads of a system are at the points [pcs]. *)
Definition at_points addr sh := points_at (tst addr sh).

Definition inv addr sh (s : sys unit) : Prop :=
  exists pcs, at_points addr sh (sthreads s) pcs /\
              minv sh (mget (smem s) (mtx addr)) (cls_of <$> pcs).

Lemma at_points_insert addr sh th pcs t p :
  at_points addr sh th pcs ->
  at_points addr sh (<[t := tst addr sh t p]> th) (<[t := p]> pcs).
Proof. apply points_insert. Qed.

Lemma at_points_run addr sh th pcs t q :
  at_points addr sh th pcs -> th !! t = Some (Run q) ->
  exists p, pcs !! t = Some p /\ q = code addr sh t p /\ tst addr sh t p = Run q.
Proof.
  intros H Ht. rewrite H in Ht. destruct (pcs !! t) as [p|] eqn:E; [|done].
  exists p. simpl in Ht. injection Ht as Ht. split_and!; [done| |done].
  destruct p; simpl in *; congruence.
Qed.

Lemma at_points_sleep addr sh th pcs t l ps timed k :
  at_points addr sh th pcs -> th !! t = Some (Sleep l ps timed k) ->
  exists p, pcs !! t = Some p /\ cls_of p = CAsleep /\ l = mtx addr /\ ps = sflag sh /\
            forall v, Run (k v) = tst addr sh t (pc_next sh p v).
Proof.
  intros H Ht. rewrite H in Ht. destruct (pcs !! t) as [p|] eqn:E; [|done].
  exists p. simpl in Ht. injection Ht as Ht.
  assert (Hr : cls_of p = CAsleep -> forall v,
    resume (code addr sh t p) v = code addr sh t (pc_next sh p v)).
  { intros Hc v. apply code_resume; destruct p; done. }
  destruct p; try discriminate; injection Ht as <- <- <- <-; split_and!; try done;
    intros v; rewrite Hr by done; reflexivity.
Qed.

(** A move of one thread keeps the invariant. *)
Lemma inv_move addr sh m m' th pcs t p p' :
  at_points addr sh th pcs -> minv sh (mget m (mtx addr)) (cls_of <$> pcs) ->
  pcs !! t = Some p ->
  move sh (cls_of <$> pcs) t (mget m (mtx addr)) (cls_of p) (mget m' (mtx addr)) (cls_of p') ->
  inv addr sh (Sys m' (<[t := tst addr sh t p']> th)).
Proof.
  intros Hat Hm Hp Hmv. exists (<[t := p']> pcs). split; [by apply at_points_insert|].
  rewrite fmap_insert. simpl. eapply move_inv; eauto. by rewrite lookup_fmap, Hp.
Qed.

Lemma tst_next addr sh t p v : tst addr sh t (pc_next sh p v) = Run (code addr sh t (pc_next sh p v)).
Proof.
  destruct p as [[|[] ops]|[|n] ?| | | | | | | |[|n] ? ?| | | | | | | |[|[|n]] ?| | |]; simpl;
    try done; case_test; done.
Qed.

(** The owner sees a locked word. *)
Lemma own_word sh w cs t c : own_ok sh w cs -> cs !! t = Some c -> owns c -> w = w1 sh \/ w = w2 sh.
Proof.
  intros H Ht Hc. destruct (oo_word _ _ _ H) as [->|]; [|done].
  by destruct (oo_free _ _ _ H eq_refl _ _ Ht Hc).
Qed.

Lemma exec_move addr sh m m' cs t p a v :
  own_ok sh (mget m (mtx addr)) cs -> cs !! t = Some (cls_of p) ->
  pc_act addr sh p = Some a -> exec a m = Some (v, m') ->
  good_answer addr sh p v /\
  move sh cs t (mget m (mtx addr)) (cls_of p) (mget m' (mtx addr)) (cls_of (pc_next sh p v)).
Proof.
  intros Ho Ht Ha He. pose proof (oo_word _ _ _ Ho) as Hw.
  destruct (words_distinct sh) as (W01 & W02 & W12).
  destruct p as [[|[] ops]|[|n] ?| | | | | | | |[|n] ? ?| | | | | | | |[|[|n]] ?| | |];
    simpl in Ha; try discriminate; injection Ha as <-; simpl in He; try discriminate;
    (case_test_in He; [|]) || idtac; injection He as <- <-; zbool;
    unfold good_answer; simpl; rewrite ?mget_set_eq; (split; [done|]);
    try (by constructor).
  all: try (rewrite E; by constructor).
  - case_test; zbool; [rewrite E; apply mv_swap|by apply mv_contend].
  - case_test; zbool; [rewrite E; apply mv_swap|by apply mv_contend].
  - destruct (own_word _ _ _ _ _ Ho Ht) as [-> | ->]; [by left|destruct sh; apply mv_release|].
    destruct sh; apply mv_dec.
Qed.

Lemma lookup_cls (pcs : gmap tid pc) t p : pcs !! t = Some p -> (cls_of <$> pcs) !! t = Some (cls_of p).
Proof. intros H. by rewrite lookup_fmap, H. Qed.

(** Waking a thread that sleeps on the mutex. *)
Lemma inv_wake addr sh m th pcs w :
  at_points addr sh th pcs -> minv sh (mget m (mtx addr)) (cls_of <$> pcs) ->
  (exists ts, th !! w = Some ts /\ asleep ts = true) ->
  exists pcs', at_points addr sh (alter wake1 w th) pcs' /\
    minv sh (mget m (mtx addr)) (cls_of <$> pcs') /\ has CSwap (cls_of <$> pcs') /\
    (forall u, u <> w -> pcs' !! u = pcs !! u).
Proof.
  intros Hat Hm (ts & Hts & Hsl). destruct ts as [|l ps timed k]; [done|].
  destruct (at_points_sleep _ _ _ _ _ _ _ _ _ Hat Hts) as (p & Hp & Hc & -> & -> & Hk).
  exists (<[w := pc_next sh p 0]> pcs). split_and!.
  - intros u. rewrite lookup_alter, lookup_insert. destruct (decide (w = u)) as [->|]; [|apply Hat].
    rewrite Hts. simpl. by rewrite Hk.
  - rewrite fmap_insert. eapply move_inv; [done|by apply lookup_cls|].
    rewrite Hc. replace (cls_of (pc_next sh p 0)) with CSwap by (by destruct p). constructor.
  - exists w. rewrite lookup_fmap, lookup_insert_eq. simpl. by destruct p.
  - intros u Hu. by rewrite lookup_insert_ne.
Qed.

Lemma asleep_iff addr sh th pcs :
  at_points addr sh th pcs ->
  (has CAsleep (cls_of <$> pcs) <-> exists t ts, th !! t = Some ts /\ asleep ts = true).
Proof.
  intros Hat. split.
  - intros [t Ht]. rewrite lookup_fmap in Ht. destruct (pcs !! t) as [p|] eqn:E; [|done].
    injection Ht as Ht. exists t, (tst addr sh t p). rewrite Hat, E. split; [done|by destruct p].
  - intros (t & ts & Ht & Hs). exists t. rewrite Hat in Ht. rewrite lookup_fmap.
    destruct (pcs !! t) as [p|]; [|done]. injection Ht as <-. simpl. f_equal. by destruct p.
Qed.

(** A thread resumed after its action is at the next point. *)
Lemma inv_resume addr sh m m' th pcs t q v :
  at_points addr sh th pcs -> minv sh (mget m (mtx addr)) (cls_of <$> pcs) ->
  th !! t = Some (Run q) -> head q <> None ->
  (forall p, pcs !! t = Some p -> head q = pc_act addr sh p -> tst addr sh t p = Run q ->
     good_answer addr sh p v /\
     move sh (cls_of <$> pcs) t (mget m (mtx addr)) (cls_of p)
          (mget m' (mtx addr)) (cls_of (pc_next sh p v))) ->
  inv addr sh (Sys m' (<[t := Run (resume q v)]> th)).
Proof.
  intros Hat Hm Ht Hh Hmv.
  destruct (at_points_run _ _ _ _ _ _ Hat Ht) as (p & Hp & -> & Htst).
  rewrite code_head in Hh, Hmv. destruct (Hmv p Hp eq_refl Htst) as [Hg Hmove].
  rewrite code_resume by done. rewrite <- tst_next. by eapply inv_move.
Qed.

(** FUTEX_WAKE of one thread at the end of an unlock. *)
Lemma inv_futex_wake addr sh m th pcs t ops ws :
  at_points addr sh th pcs -> minv sh (mget m (mtx addr)) (cls_of <$> pcs) ->
  pcs !! t = Some (PUnlWake ops) -> woken (mtx addr) (sflag sh) 1 th ws ->
  inv addr sh (Sys m (wake_all ws (<[t := Run (client addr t ops)]> th))).
Proof.
  intros Hat Hm Hp (_ & Hin & Hlen & Hall).
  assert (Ht : th !! t = Some (Run (code addr sh t (PUnlWake ops)))) by by rewrite Hat, Hp.
  change (Run (client addr t ops)) with (tst addr sh t (PStart ops)).
  destruct ws as [|w [|w' ws]]; simpl in Hlen; [| |lia]; simpl.
  - apply (inv_move addr sh m m th pcs t (PUnlWake ops) (PStart ops)); [done..|]. constructor.
    rewrite asleep_iff by done. intros (u & ts & Hu & Hs). exfalso.
    destruct ts as [|l ps timed k]; [done|].
    destruct (at_points_sleep _ _ _ _ _ _ _ _ _ Hat Hu) as (_ & _ & _ & -> & -> & _).
    eapply not_elem_of_nil, Hall; [simpl; lia|done|done].
  - destruct (Hin w) as (ts & Hw & Hs); [set_solver|].
    assert (Hne : w <> t) by (intros ->; rewrite Ht in Hw; by injection Hw as <-).
    rewrite alter_insert_ne by done.
    destruct (inv_wake addr sh m th pcs w) as (pcs' & Hat' & Hm' & Hswap & Hsame); [done..| |].
    { exists ts. split; [done|]. by destruct ts. }
    apply (inv_move addr sh m m _ pcs' t (PUnlWake ops) (PStart ops)); [done..|by rewrite Hsame|].
    by constructor.
Qed.

Lemma inv_step addr sh s s' : inv addr sh s -> step s s' -> inv addr sh s'.
Proof.
  intros (pcs & Hat & Hm) Hst.
  destruct Hst as [m th t q a v m' Ht Hh He|m th t q c v Ht Hh Hv|m th t q q' Ht Hu
    |m th t q l ps val to Ht Hh Hv|m th t q l ps val to Ht Hh Hv
    |m th t l ps timed k Ht|m th t l ps k Ht|m th t q l ps n ws Ht Hh Hw]; simpl in *.
  - (* an action of the thread *)
    eapply inv_resume; [done..|congruence|]. intros p Hp Hhp _. rewrite Hh in Hhp. symmetry in Hhp.
    destruct Hm. eapply exec_move; eauto. by apply lookup_cls.
  - (* the clock *)
    eapply inv_resume; [done..|congruence|]. intros p Hp Hhp _. rewrite Hh in Hhp.
    destruct p as [[|[] ops]| | | | | | | | | | | | | | | | | | | |]; simpl in Hhp; try discriminate;
      unfold good_answer; simpl; try case_test; split; done || constructor.
  - (* a loop starts a round *)
    destruct (at_points_run _ _ _ _ _ _ Hat Ht) as (p & Hp & -> & _).
    rewrite code_unroll in Hu.
    destruct p as [| | |ops| | | | | | | |a ops| | | | | | | | |]; try discriminate; injection Hu as <-.
    + eapply (inv_move _ _ m m _ _ t _ (PLockSwap ops)); [done..|constructor].
    + eapply (inv_move _ _ m m _ _ t _ (PTimSwap a ops)); [done..|constructor].
  - (* falls asleep *)
    destruct (at_points_run _ _ _ _ _ _ Hat Ht) as (p & Hp & -> & Htst). rewrite code_head in Hh.
    destruct p as [[|[] ops]| | | | |ops| | | | | | | | |a ts ops| | | | | |]; simpl in Hh;
      try discriminate; injection Hh as <- <- <- <-.
    + eapply (inv_move _ _ m m _ _ t _ (PLockSleep ops)); [done..|]. rewrite Hv. constructor.
    + eapply (inv_move _ _ m m _ _ t _ (PTimSleep a ts ops)); [done..|]. rewrite Hv. constructor.
  - (* the word changed before the thread could sleep *)
    eapply inv_resume; [done..|congruence|]. intros p Hp Hhp Htst. rewrite Hh in Hhp.
    destruct p as [[|[] ops]| | | | | | | | | | | | | | | | | | | |]; simpl in Hhp, Htst;
      try discriminate; (split; [done|constructor]).
  - destruct (at_points_sleep _ _ _ _ _ _ _ _ _ Hat Ht) as (p & Hp & Hc & -> & -> & Hk).
    rewrite Hk. eapply inv_move; [done..|]. rewrite Hc.
    replace (cls_of (pc_next sh p (- EINTR))) with CSwap by (by destruct p). constructor.
  - destruct (at_points_sleep _ _ _ _ _ _ _ _ _ Hat Ht) as (p & Hp & Hc & -> & -> & Hk).
    rewrite Hk. eapply inv_move; [done..|]. rewrite Hc.
    replace (cls_of (pc_next sh p (- ETIMEDOUT))) with CSwap by (by destruct p). constructor.
  - (* FUTEX_WAKE *)
    destruct (at_points_run _ _ _ _ _ _ Hat Ht) as (p & Hp & -> & Htst). rewrite code_head in Hh.
    destruct p as [[|[] ops]| | | | | | | | | | | | | | | | | | | |ops]; simpl in Hh;
      try discriminate; injection Hh as <- <- <-.
    rewrite code_resume by done. by eapply inv_futex_wake.
Qed.

(** ** Systems of clients *)

(** The mutex is unlocked and every thread is at the start of its operations. *)
Definition init_sys addr sh (m : mem) (scripts : gmap tid (list op)) : sys unit :=
  Sys (mset m (mtx addr) (w0 sh)) (map_imap (fun t ops => Some (Run (client addr t ops))) scripts).

Lemma init_inv addr sh m scripts : inv addr sh (init_sys addr sh m scripts).
Proof.
  assert (Hout : forall t c, (cls_of <$> (PStart <$> scripts)) !! t = Some c -> c = COut).
  { intros t c. rewrite !lookup_fmap. destruct (scripts !! t); simpl; congruence. }
  exists (PStart <$> scripts). split.
  - intros t. simpl. rewrite map_lookup_imap, lookup_fmap. by destruct (scripts !! t).
  - simpl. rewrite mget_set_eq. split; [constructor|]; [by left| | |done|].
    + intros t1 t2 c1 c2 ->%Hout ->%Hout [|]; done.
    + intros _ t c ->%Hout [|]; done.
    + intros [t Ht%Hout]. done.
Qed.

Lemma reachable_minv addr sh m scripts s :
  reachable (init_sys addr sh m scripts) s -> inv addr sh s.
Proof. apply reachable_inv; [apply init_inv|]. intros a b. apply inv_step. Qed.

Lemma critical_own addr sh t p : in_critical (tst addr sh t p) = true -> cls_of p = COwn.
Proof. pc_cases p sh; done. Qed.

Lemma swap_next addr sh t p :
  cls_of p = CSwap -> tst addr sh t p = Run (code addr sh t p) /\
  next_action (code addr sh t p) = Some (ASwap (w2 sh) (mtx addr)).
Proof. pc_cases p sh; done. Qed.

Lemma busy_running addr sh t p :
  cls_of p <> COut -> cls_of p <> CAsleep ->
  exists q, tst addr sh t p = Run q /\ finished (Run q) = false.
Proof. pc_cases p sh; intros H1 H2; try (by simpl in H1, H2); eexists; (split; [reflexivity|reflexivity]). Qed.

Lemma wake_counts addr sh t p l ps cnt :
  head (code addr sh t p) = Some (AFutexWake l ps cnt) -> 0 <= cnt.
Proof. rewrite code_head. pc_cases p sh; simpl; intros; simplify_eq; lia. Qed.

(** C1.  Mutual exclusion: however the atomic actions of the threads are
    interleaved, with any mix of pthread_mutex_lock, pthread_mutex_trylock and
    pthread_mutex_lock_timeout_np, signals and timeouts, two threads are never
    in the critical section of a normal mutex at the same time. *)
Theorem mutex_mutual_exclusion addr sh m scripts s t1 t2 ts1 ts2 :
  reachable (init_sys addr sh m scripts) s ->
  sthreads s !! t1 = Some ts1 -> sthreads s !! t2 = Some ts2 ->
  in_critical ts1 = true -> in_critical ts2 = true -> t1 = t2.
Proof.
  intros (pcs & Hat & [Ho _])%reachable_minv H1 H2 C1 C2.
  rewrite Hat in H1, H2.
  destruct (pcs !! t1) as [p1|] eqn:E1, (pcs !! t2) as [p2|] eqn:E2; try discriminate.
  injection H1 as <-. injection H2 as <-.
  apply critical_own in C1, C2.
  eapply (oo_uniq _ _ _ Ho); [by apply lookup_cls|by apply lookup_cls|by left|by left].
Qed.

(** C2.  No lost wake-up: whenever the mutex word is in the unlocked state while
    some thread sleeps in __futex_wait_ex on it, some other thread is running
    whose very next action on the word is the FUTEX_WAKE of a release or the
    swap that tries to take the mutex. *)
Theorem mutex_no_lost_wakeup addr sh m scripts s t ts :
  reachable (init_sys addr sh m scripts) s ->
  sthreads s !! t = Some ts -> asleep ts = true ->
  mget (smem s) (mtx addr) = w0 sh ->
  exists u q, sthreads s !! u = Some (Run q) /\
    (next_action q = Some (AFutexWake (mtx addr) (sflag sh) 1) \/
     next_action q = Some (ASwap (w2 sh) (mtx addr))).
Proof.
  intros (pcs & Hat & [Ho Hk])%reachable_minv Ht Hs Hw.
  destruct (words_distinct sh) as (W01 & W02 & W12).
  destruct Hk as [[? _]|[Hc|[Hc|Hc]]]; [apply (asleep_iff addr sh (sthreads s)); eauto|congruence|..];
    destruct Hc as [u Hu]; pose proof Hu as Hu';
    rewrite lookup_fmap in Hu; (destruct (pcs !! u) as [p|] eqn:E; [|done]); injection Hu as Hc;
    exists u, (code addr sh u p); rewrite Hat, E.
  - exfalso. eapply (oo_free _ _ _ Ho Hw); [done|by right].
  - destruct p; try discriminate. split; [done|]. left. by destruct sh.
  - destruct (swap_next addr sh u p Hc) as [Htst Hn]. simpl. rewrite Htst. auto.
Qed.

(** C17.  No deadlock: in every reachable state either every thread has finished
    all its operations, or some thread that is not asleep can take a step. *)
Theorem mutex_progress addr sh m scripts s :
  reachable (init_sys addr sh m scripts) s ->
  (forall t ts, sthreads s !! t = Some ts -> finished ts = true) \/
  (exists t s', sched1 s t = Some s' /\ step s s').
Proof.
  intros (pcs & Hat & [Ho Hk])%reachable_minv.
  assert (Hrun : forall t p, pcs !! t = Some p ->
    (exists q, tst addr sh t p = Run q /\ finished (Run q) = false) ->
    exists t s', sched1 s t = Some s' /\ step s s').
  { intros t p Hp (q & Hq & Hf). destruct (running_steps s t q) as [s' Hs']; [by rewrite Hat, Hp; simpl; f_equal|done| |].
    - intros l ps n Hh. eapply (wake_counts addr sh t p). destruct p; try discriminate Hq; injection Hq as <-; exact Hh.
    - exists t, s'. eauto using sched1_step. }
  destruct (decide (map_Forall (fun t p => finished (tst addr sh t p) = true) pcs)) as [Hall|Hex].
  - left. intros t ts Ht. rewrite Hat in Ht. destruct (pcs !! t) as [p|] eqn:E; [|done].
    injection Ht as <-. by apply Hall.
  - right. apply map_not_Forall in Hex as (t & p & Hp & Hf); [|apply _].
    destruct (decide (cls_of p = CAsleep)) as [Hsl|Hsl].
    + destruct Hk as [[_ Hc]|[Hc|[Hc|Hc]]];
        [exists t; rewrite lookup_fmap, Hp; simpl; congruence|..];
        destruct Hc as [u Hu]; rewrite lookup_fmap in Hu;
        (destruct (pcs !! u) as [p'|] eqn:E; [|done]); injection Hu as Hc;
        (eapply Hrun; [done|apply busy_running; congruence]).
    + eapply Hrun; [done|]. exists (code addr sh t p). 
      replace (tst addr sh t p) with (Run (code addr sh t p)) in * by (by destruct p).
      split; [done|]. by apply not_true_is_false.
Qed.

(** Two clients of a process-shared mutex, run by the scheduler. *)
Definition demo_init : sys unit :=
  init_sys 1 true ∅ (<[1 := [OLock]]> (<[2 := [OLock; OTimed 5]]> ∅)).
Definition demo_at (ts : list tid) : sys unit := default demo_init (sched demo_init ts).

(** Thread 1 is in its critical section, thread 2 sleeps behind it. *)
Definition demo_held : sys unit := demo_at [1; 1; 1; 1; 2; 2; 2; 2; 2; 2; 2].
(** Thread 1 has stored the unlocked value but not yet called FUTEX_WAKE. *)
Definition demo_released : sys unit :=
  demo_at [1; 1; 1; 1; 2; 2; 2; 2; 2; 2; 2; 1; 1; 1; 1; 1; 1].

Definition demo_runs (ts : list tid) : bool :=
  match sched demo_init ts with Some _ => true | None => false end.
Lemma demo_reachable ts : demo_runs ts = true -> reachable demo_init (demo_at ts).
Proof.
  unfold demo_runs, demo_at. destruct (sched demo_init ts) as [s|] eqn:E; [|done].
  intros _. by eapply sched_reachable.
Qed.

Lemma mutex_mutual_exclusion_witness :
  thread_is in_critical demo_held 1 = true /\ thread_is asleep demo_held 2 = true /\
  (thread_is in_critical demo_held 2 = true -> 1 = 2).
Proof.
  split_and!; [vm_compute; reflexivity|vm_compute; reflexivity|].
  intros (ts2 & H2 & C2)%thread_is_Some.
  assert (H : thread_is in_critical demo_held 1 = true) by (vm_compute; reflexivity).
  apply thread_is_Some in H as (ts1 & H1 & C1).
  eapply (mutex_mutual_exclusion 1 true ∅ _ demo_held); [|exact H1|exact H2|exact C1|exact C2].
  apply demo_reachable. vm_compute. reflexivity.
Defined.

Lemma mutex_no_lost_wakeup_witness :
  exists u q, sthreads demo_released !! u = Some (Run q) /\
    (next_action q = Some (AFutexWake (mtx 1) (sflag true) 1) \/
     next_action q = Some (ASwap (w2 true) (mtx 1))).
Proof.
  assert (H : thread_is asleep demo_released 2 = true) by (vm_compute; reflexivity).
  apply thread_is_Some in H as (ts & Ht & Hs).
  eapply (mutex_no_lost_wakeup 1 true ∅ _ demo_released 2); [|exact Ht|exact Hs|vm_compute; reflexivity].
  apply demo_reachable. vm_compute. reflexivity.
Defined.

Lemma mutex_progress_witness :
  (forall t ts, sthreads demo_held !! t = Some ts -> finished ts = true) \/
  (exists t s', sched1 demo_held t = Some s' /\ step demo_held s').
Proof.
  eapply (mutex_progress 1 true ∅ _ demo_held). apply demo_reachable. vm_compute. reflexivity.
Defined.
