(* ===== verification/MutexSeq.v ===== *)
(** * Recursive and error-checking mutexes, call by call

    The behaviour of single calls of the pthread_mutex_* functions, run without
    interference from other threads, on every kind of mutex: what is returned,
    and the mutex word afterwards. *)
From S2P Require Import Prelude Concur MutexCode.

(** ** Mutex words *)

(** The word of a mutex owned by [tid], of type [ty], with recursion counter
    [n] and lock state [st]. *)
Definition low (ty : Z) (sh : bool) (n st : Z) : Z :=
  ty + (if sh then MUTEX_SHARED_MASK else 0) + 4 * n + st.
Definition mword (tid ty : Z) (sh : bool) (n st : Z) : Z := s32 (tid * 65536 + low ty sh n st).

Definition mtype_ok (ty : Z) : Prop :=
  ty = MUTEX_TYPE_NORMAL \/ ty = MUTEX_TYPE_RECURSIVE \/ ty = MUTEX_TYPE_ERRORCHECK.
Definition count_ok (n : Z) : Prop := 0 <= n < 2048.
Definition state_ok (st : Z) : Prop := 0 <= st < 3.
Definition tid_ok (tid : Z) : Prop := 0 < tid < 65536.

(** The fields of the low half, checked for all its values. *)
Definition low_fields (ty : Z) (sh : bool) (n st : Z) : bool :=
  let w := low ty sh n st in
  (0 <=? w) && (w <? 65536) &&
  (Z.land w MUTEX_TYPE_MASK =? ty) &&
  (Z.land w MUTEX_SHARED_MASK =? (if sh then MUTEX_SHARED_MASK else 0)) &&
  (Z.land w MUTEX_COUNTER_MASK =? 4 * n) && (Z.land w 3 =? st) &&
  (Z.land (w + 4) MUTEX_COUNTER_MASK =? 4 * ((n + 1) mod 2048)).

Lemma low_fields_all :
  forallb (fun ty => forallb (fun sh => forallb (fun n => forallb (fun st =>
    low_fields ty sh n st) (seqZ 0 3)) (seqZ 0 2048)) [true; false])
    [MUTEX_TYPE_NORMAL; MUTEX_TYPE_RECURSIVE; MUTEX_TYPE_ERRORCHECK] = true.
Proof. vm_compute. reflexivity. Qed.

Lemma low_fields_ok ty sh n st :
  mtype_ok ty -> count_ok n -> state_ok st -> low_fields ty sh n st = true.
Proof.
  intros Ht Hn Hs. pose proof low_fields_all as H.
  rewrite forallb_forall in H.
  assert (Hty : In ty [MUTEX_TYPE_NORMAL; MUTEX_TYPE_RECURSIVE; MUTEX_TYPE_ERRORCHECK])
    by (destruct Ht as [-> | [-> | ->]]; simpl; auto).
  specialize (H ty Hty). rewrite forallb_forall in H.
  specialize (H sh ltac:(destruct sh; simpl; auto)). rewrite forallb_forall in H.
  specialize (H n). rewrite forallb_forall in H.
  apply H; apply list_elem_of_In, elem_of_seqZ; unfold count_ok, state_ok in *; lia.
Qed.

(** ** Bit arithmetic on signed words *)
Lemma s32_shift x : exists k, s32 x = x - 2 ^ 32 * k.
Proof.
  exists ((x + 2 ^ 31) / 2 ^ 32). unfold s32.
  pose proof (Z.div_mod (x + 2 ^ 31) (2 ^ 32)). lia.
Qed.

Lemma s32_add x d : s32 (s32 x + d) = s32 (x + d).
Proof.
  destruct (s32_shift x) as [k ->]. unfold s32.
  replace (x - 2 ^ 32 * k + d + 2 ^ 31) with (x + d + 2 ^ 31 + (- k) * 2 ^ 32) by lia.
  by rewrite Z_mod_plus_full.
Qed.

(** A mask of the low half does not see the high half. *)
Lemma land_low h w M : 0 <= w < 65536 -> 0 <= M < 65536 -> Z.land (65536 * h + w) M = Z.land w M.
Proof.
  intros Hw HM.
  assert (E : Z.land (Z.ones 16) M = M) by (rewrite Z.land_comm, Z.land_ones by lia; apply Z.mod_small; lia).
  rewrite <- E, !Z.land_assoc, !Z.land_ones by lia. f_equal.
  rewrite Z.add_comm, Z.mul_comm, Z_mod_plus_full. done.
Qed.

Lemma mword_split tid ty sh n st :
  exists k, mword tid ty sh n st = 65536 * (tid - 65536 * k) + low ty sh n st.
Proof. unfold mword. destruct (s32_shift (tid * 65536 + low ty sh n st)) as [k ->]. exists k. lia. Qed.

(** Leaving a recursive mutex once: only the counter changes. *)
Lemma mword_dec tid ty sh n st :
  s32 (mword tid ty sh n st - Z.shiftl 1 MUTEX_COUNTER_SHIFT) = mword tid ty sh (n - 1) st.
Proof.
  change (Z.shiftl 1 MUTEX_COUNTER_SHIFT) with 4. unfold mword.
  rewrite <- (Z.add_opp_r (s32 _)), s32_add. f_equal. unfold low. lia.
Qed.

Section Fields.
Context (tid ty : Z) (sh : bool) (n st : Z).
Context (Hty : mtype_ok ty) (Hn : count_ok n) (Hst : state_ok st).

Lemma mword_type : Z.land (mword tid ty sh n st) MUTEX_TYPE_MASK = ty.
Proof.
  destruct (mword_split tid ty sh n st) as [k ->].
  pose proof (low_fields_ok ty sh n st Hty Hn Hst) as H. unfold low_fields in H. zbool.
  rewrite land_low by (unfold MUTEX_TYPE_MASK; lia). done.
Qed.

Lemma mword_shared :
  Z.land (mword tid ty sh n st) MUTEX_SHARED_MASK = (if sh then MUTEX_SHARED_MASK else 0).
Proof.
  destruct (mword_split tid ty sh n st) as [k ->].
  pose proof (low_fields_ok ty sh n st Hty Hn Hst) as H. unfold low_fields in H. zbool.
  rewrite land_low by (unfold MUTEX_SHARED_MASK; lia). done.
Qed.

Lemma mword_counter : Z.land (mword tid ty sh n st) MUTEX_COUNTER_MASK = 4 * n.
Proof.
  destruct (mword_split tid ty sh n st) as [k ->].
  pose proof (low_fields_ok ty sh n st Hty Hn Hst) as H. unfold low_fields in H. zbool.
  rewrite land_low by (unfold MUTEX_COUNTER_MASK; lia). done.
Qed.

Lemma mword_state : Z.land (mword tid ty sh n st) 3 = st.
Proof.
  destruct (mword_split tid ty sh n st) as [k ->].
  pose proof (low_fields_ok ty sh n st Hty Hn Hst) as H. unfold low_fields in H. zbool.
  rewrite land_low by lia. done.
Qed.

Lemma mword_owner : 0 <= tid < 65536 -> MUTEX_OWNER (mword tid ty sh n st) = tid.
Proof.
  intros Ht. destruct (mword_split tid ty sh n st) as [k ->].
  pose proof (low_fields_ok ty sh n st Hty Hn Hst) as H. unfold low_fields in H. zbool.
  unfold MUTEX_OWNER. rewrite Z.shiftr_div_pow2 by lia.
  replace ((65536 * (tid - 65536 * k) + low ty sh n st) / 2 ^ 16) with (tid - 65536 * k)
    by (apply Z.div_unique with (low ty sh n st); lia).
  change 65535 with (Z.ones 16). rewrite Z.land_ones by lia.
  replace (tid - 65536 * k) with (tid + (- k) * 65536) by lia.
  change (2 ^ 16) with 65536. rewrite Z_mod_plus_full, Z.mod_small; lia.
Qed.

(** Entering a recursive mutex once more: only the counter changes, and it
    wraps around. *)
Lemma mword_relock :
  s32 (Z.lor (Z.land (mword tid ty sh n st) (Z.lnot MUTEX_COUNTER_MASK))
             (Z.land (mword tid ty sh n st + Z.shiftl 1 MUTEX_COUNTER_SHIFT) MUTEX_COUNTER_MASK)) =
  mword tid ty sh ((n + 1) mod 2048) st.
Proof.
  set (w := mword tid ty sh n st).
  assert (E1 : Z.land w (Z.lnot MUTEX_COUNTER_MASK) = w - 4 * n).
  { rewrite <- mword_counter. fold w.
    pose proof (Z.sub_nocarry_ldiff w (Z.land w MUTEX_COUNTER_MASK)) as H.
    rewrite H; [|apply Z.bits_inj'; intros i Hi; rewrite Z.ldiff_spec, Z.land_spec, Z.bits_0;
                 by destruct (Z.testbit w i), (Z.testbit MUTEX_COUNTER_MASK i)].
    apply Z.bits_inj'. intros i Hi.
    rewrite Z.land_spec, Z.ldiff_spec, Z.lnot_spec, Z.land_spec by lia.
    by destruct (Z.testbit w i), (Z.testbit MUTEX_COUNTER_MASK i). }
  assert (E2 : Z.land (w + Z.shiftl 1 MUTEX_COUNTER_SHIFT) MUTEX_COUNTER_MASK =
               4 * ((n + 1) mod 2048)).
  { pose proof (low_fields_ok ty sh n st Hty Hn Hst) as H. unfold low_fields in H. zbool.
    unfold w. destruct (mword_split tid ty sh n st) as [k ->].
    change (Z.shiftl 1 MUTEX_COUNTER_SHIFT) with 4.
    destruct (decide (low ty sh n st + 4 < 65536)).
    - rewrite <- Z.add_assoc, land_low by (unfold MUTEX_COUNTER_MASK; lia). done.
    - exfalso. unfold low in *. unfold count_ok, state_ok, MUTEX_SHARED_MASK in *.
      destruct Hty as [-> | [-> | ->]], sh; unfold MUTEX_TYPE_NORMAL, MUTEX_TYPE_RECURSIVE,
        MUTEX_TYPE_ERRORCHECK in *; lia. }
  rewrite <- (Z.add_0_r (Z.lor _ _)).
  replace 0 with (Z.land (Z.land w (Z.lnot MUTEX_COUNTER_MASK))
                   (Z.land (w + Z.shiftl 1 MUTEX_COUNTER_SHIFT) MUTEX_COUNTER_MASK)) at 1.
  2:{ apply Z.bits_inj'. intros i Hi. rewrite !Z.land_spec, Z.lnot_spec, Z.bits_0 by lia.
      destruct (Z.testbit MUTEX_COUNTER_MASK i), (Z.testbit w i); simpl; by rewrite ?andb_false_r. }
  rewrite Z.add_lor_land, E1, E2. unfold w, mword.
  match goal with |- s32 (s32 ?x - ?y + ?z) = _ =>
    replace (s32 x - y + z) with (s32 x + (z - y)) by lia end.
  rewrite s32_add. f_equal. unfold low. lia.
Qed.
End Fields.

(** ** Symbolic execution *)
Lemma runs_act_load {A} now m l (k : Z -> prog A) b m2 :
  runs now m (k (mget m l)) b m2 -> runs now m (bind (load l) k) b m2.
Proof. by apply runs_exec. Qed.
Lemma runs_act_store {A} now m l v (k : Z -> prog A) b m2 :
  runs now (mset m l (s32 v)) (k 0) b m2 -> runs now m (bind (store l v) k) b m2.
Proof. by apply runs_exec. Qed.
Lemma runs_act_wake {A} now m l ps n (k : Z -> prog A) b m2 :
  runs now m (k 0) b m2 -> runs now m (bind (__futex_wake_ex l ps n) k) b m2.
Proof. apply runs_wake. Qed.

(** The global lock, when it is free, is taken and given back. *)
Lemma runs_recursive_lock now m :
  mget m __recursive_lock = 0 -> runs now m _recursive_lock tt (mset m __recursive_lock 1).
Proof.
  intros H. unfold _recursive_lock, _normal_lock. apply runs_act_load. rewrite H.
  eapply runs_exec; [simpl; rewrite H; reflexivity|]. apply runs_ret.
Qed.
Lemma runs_recursive_unlock now m :
  mget m __recursive_lock = 1 -> runs now m _recursive_unlock tt (mset m __recursive_lock 0).
Proof.
  intros H. unfold _recursive_unlock, _normal_unlock. apply runs_act_load. rewrite H.
  eapply runs_exec; [simpl; rewrite H; reflexivity|]. apply runs_ret.
Qed.

(** Memory after a section under the global lock that wrote the mutex word. *)
Definition upd (m : mem) (mutex : loc) (w : Z) : mem := mset (mset m mutex w) __recursive_lock 0.

Lemma upd_mutex m mutex w : mutex <> __recursive_lock -> mget (upd m mutex w) mutex = w.
Proof. intros. unfold upd. by rewrite mget_set_ne, mget_set_eq by congruence. Qed.
Lemma upd_lock m mutex w : mget (upd m mutex w) __recursive_lock = 0.
Proof. apply mget_set_eq. Qed.
Lemma upd_upd m mutex w w' : mutex <> __recursive_lock -> upd (upd m mutex w) mutex w' = upd m mutex w'.
Proof.
  intros. unfold upd, mset. rewrite (insert_insert_ne _ mutex __recursive_lock) by done.
  by rewrite !insert_insert_eq.
Qed.

(** Memory at the end of a section under the global lock. *)
Lemma section_mem m mutex w :
  mutex <> __recursive_lock ->
  mset (mset (mset m __recursive_lock 1) mutex w) __recursive_lock 0 = upd m mutex w.
Proof.
  intros. unfold upd, mset.
  by rewrite (insert_insert_ne _ mutex), !insert_insert_eq by done.
Qed.

(** Enter and leave a section under the global lock; the mutex word is [w]. *)
Ltac section_enter w :=
  eapply runs_bind; [by apply runs_recursive_lock|];
  apply runs_act_load; rewrite mget_set_ne by done;
  try match goal with H : mget _ _ = w |- _ => rewrite H end.
Ltac section_leave :=
  eapply runs_bind;
  [apply runs_recursive_unlock; rewrite mget_set_ne by congruence; by rewrite mget_set_eq|];
  try rewrite section_mem by done.

(** Words are built from a thread id by disjoint bits. *)
Lemma lor_shift_low t w : 0 <= w < 65536 -> Z.lor (Z.shiftl t 16) w = t * 65536 + w.
Proof. intros Hw. by apply (lor_shiftl_low 16). Qed.

Lemma take_word t ty (sh : bool) st :
  mtype_ok ty -> state_ok st ->
  s32 (Z.lor (Z.lor (Z.shiftl t 16) (Z.lor ty (if sh then MUTEX_SHARED_MASK else 0))) st) =
  mword t ty sh 0 st.
Proof.
  intros Hty Hst. rewrite <- Z.lor_assoc.
  assert (E : Z.lor (Z.lor ty (if sh then MUTEX_SHARED_MASK else 0)) st = low ty sh 0 st).
  { assert (st = 0 \/ st = 1 \/ st = 2) as Hc by (unfold state_ok in Hst; lia).
    destruct Hty as [-> | [-> | ->]], sh, Hc as [-> | [-> | ->]]; reflexivity. }
  rewrite E, lor_shift_low; [done|].
  pose proof (low_fields_ok ty sh 0 st Hty ltac:(unfold count_ok; lia) Hst) as H.
  unfold low_fields in H. zbool. lia.
Qed.

(** The word of a free mutex is its type and shared flag. *)
Lemma free_word ty (sh : bool) :
  mtype_ok ty -> mword 0 ty sh 0 0 = Z.lor ty (if sh then MUTEX_SHARED_MASK else 0).
Proof. intros [-> | [-> | ->]]; destruct sh; reflexivity. Qed.

(** ** One call at a time *)
Section Calls.
Context (now : Z) (tid : Z) (Htid : tid_ok tid).
Context (mutex : loc) (Hnull : mutex <> 0) (Hdis : mutex <> __recursive_lock).
Context (sh : bool).

Lemma null_test : (mutex =? 0) = false.
Proof. by apply Z.eqb_neq. Qed.

Definition owned_type (ty : Z) : Prop := ty = MUTEX_TYPE_RECURSIVE \/ ty = MUTEX_TYPE_ERRORCHECK.

Lemma owned_mtype ty : owned_type ty -> mtype_ok ty /\ (ty =? MUTEX_TYPE_NORMAL) = false.
Proof. intros [-> | ->]; (split; [unfold mtype_ok; auto|done]). Qed.

(** The calls start by reading the type, the shared flag and the owner. *)
Lemma lock_reads m ty o n st r m' :
  owned_type ty -> count_ok n -> state_ok st -> 0 <= o < 65536 ->
  mget m mutex = mword o ty sh n st ->
  runs now m
    (if tid =? o then if ty =? MUTEX_TYPE_ERRORCHECK then Ret EDEADLK else relock mutex
     else
       let shared := if sh then MUTEX_SHARED_MASK else 0 in
       let mtype := Z.lor ty shared in
       Loop (fun new_lock_type =>
         oldv <- try_owned mutex tid mtype new_lock_type ;;
         if oldv =? mtype then Ret (inr 0)
         else __futex_wait_ex mutex shared oldv None ;;; Ret (inl 2)) 1 Ret) r m' ->
  runs now m (pthread_mutex_lock tid mutex) r m'.
Proof.
  intros [Hty Hnn]%owned_mtype Hn Hst Ho Hw H. unfold pthread_mutex_lock. rewrite null_test.
  do 2 (apply runs_act_load; cbv zeta).
  rewrite Hw, mword_type, mword_shared, Hnn by done.
  apply runs_act_load. rewrite Hw, mword_owner by done. exact H.
Qed.

Lemma runs_relock m ty o n st :
  mget m __recursive_lock = 0 -> mtype_ok ty -> count_ok n -> state_ok st ->
  mget m mutex = mword o ty sh n st ->
  runs now m (relock mutex) 0 (upd m mutex (mword o ty sh ((n + 1) mod 2048) st)).
Proof.
  intros Hl Hty Hn Hst Hw. unfold relock. section_enter (mword o ty sh n st).
  apply runs_act_store. rewrite mword_relock by done. section_leave. apply runs_ret.
Qed.

(** pthread_mutex_lock on a free mutex: the caller becomes the owner. *)
Lemma lock_free m ty :
  mget m __recursive_lock = 0 -> owned_type ty ->
  mget m mutex = mword 0 ty sh 0 0 ->
  runs now m (pthread_mutex_lock tid mutex) 0 (upd m mutex (mword tid ty sh 0 1)).
Proof.
  intros Hl Hty Hw. pose proof (owned_mtype _ Hty) as [Hm _].
  eapply lock_reads; eauto; try (unfold count_ok, state_ok; lia).
  destruct (Z.eqb_spec tid 0); [unfold tid_ok in Htid; lia|]. cbv zeta.
  apply runs_loop. rewrite bind_assoc. eapply runs_bind.
  - unfold try_owned. section_enter (mword 0 ty sh 0 0).
    rewrite free_word by done. rewrite Z.eqb_refl.
    eapply runs_bind; [apply runs_act_store, runs_ret|].
    rewrite take_word by (try done; unfold state_ok; lia).
    section_leave. apply runs_ret.
  - cbv beta. rewrite Z.eqb_refl. apply runs_ret.
Qed.

(** The owner locks again. *)
Lemma lock_owned m ty n st :
  mget m __recursive_lock = 0 -> owned_type ty -> count_ok n -> state_ok st ->
  mget m mutex = mword tid ty sh n st ->
  if decide (ty = MUTEX_TYPE_ERRORCHECK)
  then runs now m (pthread_mutex_lock tid mutex) EDEADLK m
  else runs now m (pthread_mutex_lock tid mutex) 0
         (upd m mutex (mword tid ty sh ((n + 1) mod 2048) st)).
Proof.
  intros Hl Hty Hn Hst Hw. pose proof (owned_mtype _ Hty) as [Hm _].
  unfold tid_ok in Htid.
  case_decide as E; (apply (lock_reads m ty tid n st); [done..|lia|done|]); rewrite Z.eqb_refl.
  - subst ty. apply runs_ret.
  - rewrite (proj2 (Z.eqb_neq _ _) E). by apply runs_relock.
Qed.

(** The calls of pthread_mutex_unlock read the same fields. *)
Lemma unlock_reads m ty o n st r m' :
  owned_type ty -> count_ok n -> state_ok st -> 0 <= o < 65536 ->
  mget m mutex = mword o ty sh n st ->
  runs now m
    (if negb (tid =? o) then Ret EPERM
     else
       _recursive_lock ;;;
       oldv <- load mutex ;;
       oldv <- (if negb (Z.land oldv MUTEX_COUNTER_MASK =? 0) then
                  store mutex (oldv - Z.shiftl 1 MUTEX_COUNTER_SHIFT) ;;; Ret 0
                else
                  store mutex (Z.lor (if sh then MUTEX_SHARED_MASK else 0) ty) ;;; Ret oldv) ;;
       _recursive_unlock ;;;
       if Z.land oldv 3 =? 2
       then __futex_wake_ex mutex (if sh then MUTEX_SHARED_MASK else 0) 1 ;;; Ret 0
       else Ret 0) r m' ->
  runs now m (pthread_mutex_unlock tid mutex) r m'.
Proof.
  intros [Hty Hnn]%owned_mtype Hn Hst Ho Hw H. unfold pthread_mutex_unlock. rewrite null_test.
  do 2 (apply runs_act_load; cbv zeta).
  rewrite Hw, mword_type, mword_shared, Hnn by done.
  apply runs_act_load. rewrite Hw, mword_owner by done. exact H.
Qed.

(** The owner unlocks: the counter goes down, and at 0 the mutex is freed. *)
Lemma unlock_owned m ty n st :
  mget m __recursive_lock = 0 -> owned_type ty -> count_ok n -> state_ok st ->
  mget m mutex = mword tid ty sh n st ->
  runs now m (pthread_mutex_unlock tid mutex) 0
    (upd m mutex (if decide (n = 0) then mword 0 ty sh 0 0 else mword tid ty sh (n - 1) st)).
Proof.
  intros Hl Hty Hn Hst Hw. pose proof (owned_mtype _ Hty) as [Hm _]. unfold tid_ok in Htid.
  apply (unlock_reads m ty tid n st); [done..|lia|done|]. rewrite Z.eqb_refl. cbn [negb].
  section_enter (mword tid ty sh n st). rewrite mword_counter by done.
  case_decide as E.
  - subst n. cbn [Z.mul Z.eqb negb].
    eapply runs_bind; [apply runs_act_store, runs_ret|].
    replace (s32 _) with (mword 0 ty sh 0 0) by (rewrite free_word by done;
      destruct Hty as [-> | ->], sh; reflexivity).
    section_leave. case_test; [apply runs_act_wake|]; apply runs_ret.
  - rewrite (proj2 (Z.eqb_neq (4 * n) 0)) by lia. cbn [negb].
    eapply runs_bind; [apply runs_act_store, runs_ret|].
    rewrite mword_dec.
    section_leave. apply runs_ret.
Qed.

(** Another thread's attempt to unlock is refused. *)
Lemma unlock_other m ty o n st :
  owned_type ty -> count_ok n -> state_ok st -> 0 <= o < 65536 -> o <> tid ->
  mget m mutex = mword o ty sh n st ->
  runs now m (pthread_mutex_unlock tid mutex) EPERM m.
Proof.
  intros. apply (unlock_reads m ty o n st); [done..|].
  rewrite (proj2 (Z.eqb_neq tid o)) by congruence. apply runs_ret.
Qed.
End Calls.

(** ** trylock and destroy *)
Section TryCalls.
Context (now : Z) (tid : Z) (Htid : tid_ok tid).
Context (mutex : loc) (Hnull : mutex <> 0) (Hdis : mutex <> __recursive_lock).
Context (sh : bool).

Lemma trylock_reads m ty o n st r m' :
  owned_type ty -> count_ok n -> state_ok st -> 0 <= o < 65536 ->
  mget m mutex = mword o ty sh n st ->
  runs now m
    (if tid =? o then if ty =? MUTEX_TYPE_ERRORCHECK then Ret EDEADLK else relock mutex
     else
       let mtype := Z.lor ty (if sh then MUTEX_SHARED_MASK else 0) in
       _recursive_lock ;;;
       oldv <- load mutex ;;
       (if oldv =? mtype
        then store mutex (Z.lor (Z.lor (Z.shiftl tid 16) mtype) 1) ;;; Ret tt
        else Ret tt) ;;;
       _recursive_unlock ;;;
       if negb (oldv =? mtype) then Ret EBUSY else Ret 0) r m' ->
  runs now m (pthread_mutex_trylock tid mutex) r m'.
Proof.
  intros [Hty Hnn]%owned_mtype Hn Hst Ho Hw H. unfold pthread_mutex_trylock.
  rewrite null_test by done.
  do 2 (apply runs_act_load; cbv zeta).
  rewrite Hw, mword_type, mword_shared, Hnn by done.
  apply runs_act_load. rewrite Hw, mword_owner by done. exact H.
Qed.

Lemma trylock_free m ty :
  mget m __recursive_lock = 0 -> owned_type ty -> mget m mutex = mword 0 ty sh 0 0 ->
  runs now m (pthread_mutex_trylock tid mutex) 0 (upd m mutex (mword tid ty sh 0 1)).
Proof.
  intros Hl Hty Hw. pose proof (owned_mtype _ Hty) as [Hm _]. unfold tid_ok in Htid.
  apply (trylock_reads m ty 0 0 0); try done; try (unfold count_ok, state_ok; lia).
  destruct (Z.eqb_spec tid 0); [lia|]. cbv zeta.
  section_enter (mword 0 ty sh 0 0). rewrite free_word, Z.eqb_refl by done.
  eapply runs_bind; [apply runs_act_store, runs_ret|].
  rewrite take_word by (try done; unfold state_ok; lia). section_leave. apply runs_ret.
Qed.

(** A mutex held by another thread is busy, and stays as it is. *)
Lemma trylock_busy m ty o n st :
  mget m __recursive_lock = 0 -> owned_type ty -> count_ok n -> state_ok st ->
  0 < o < 65536 -> o <> tid -> mget m mutex = mword o ty sh n st ->
  runs now m (pthread_mutex_trylock tid mutex) EBUSY (mset m __recursive_lock 0).
Proof.
  intros Hl Hty Hn Hst Ho Hne Hw. pose proof (owned_mtype _ Hty) as [Hm _].
  apply (trylock_reads m ty o n st); [done..|lia|done|].
  rewrite (proj2 (Z.eqb_neq tid o)) by congruence. cbv zeta.
  section_enter (mword o ty sh n st).
  assert (E : mword o ty sh n st =? Z.lor ty (if sh then MUTEX_SHARED_MASK else 0) = false).
  { apply Z.eqb_neq. rewrite <- free_word by done. intros E.
    apply (f_equal MUTEX_OWNER) in E.
    rewrite !mword_owner in E by (done || (unfold count_ok, state_ok; lia)). lia. }
  rewrite E. eapply runs_bind; [apply runs_ret|].
  eapply runs_bind; [apply runs_recursive_unlock, mget_set_eq|].
  rewrite mset_mset. apply runs_ret.
Qed.

Lemma trylock_owned m ty n st :
  mget m __recursive_lock = 0 -> owned_type ty -> count_ok n -> state_ok st ->
  mget m mutex = mword tid ty sh n st ->
  if decide (ty = MUTEX_TYPE_ERRORCHECK)
  then runs now m (pthread_mutex_trylock tid mutex) EDEADLK m
  else runs now m (pthread_mutex_trylock tid mutex) 0
         (upd m mutex (mword tid ty sh ((n + 1) mod 2048) st)).
Proof.
  intros Hl Hty Hn Hst Hw. pose proof (owned_mtype _ Hty) as [Hm _]. unfold tid_ok in Htid.
  case_decide as E; (apply (trylock_reads m ty tid n st); [done..|lia|done|]); rewrite Z.eqb_refl.
  - subst ty. apply runs_ret.
  - rewrite (proj2 (Z.eqb_neq _ _) E). by apply runs_relock.
Qed.

Lemma destroy_after_try m r m' :
  runs now m (pthread_mutex_trylock tid mutex) r m' ->
  runs now m (pthread_mutex_destroy tid mutex) r
    (if r =? 0 then mset m' mutex (s32 0xdead10cc) else m').
Proof.
  intros H. unfold pthread_mutex_destroy. eapply runs_bind; [exact H|]. cbv beta.
  destruct (r =? 0) eqn:E; zbool; cbn [negb]; [|apply runs_ret].
  subst r. apply runs_act_store, runs_ret.
Qed.
End TryCalls.

(** Call a function [n] times and collect the answers. *)
Fixpoint times (n : nat) (p : prog Z) : prog (list Z) :=
  match n with
  | O => Ret []
  | S n => r <- p ;; rs <- times n p ;; Ret (r :: rs)
  end.

Lemma runs_times_step now m p r m1 n rs m2 :
  runs now m p r m1 -> runs now m1 (times n p) rs m2 -> runs now m (times (S n) p) (r :: rs) m2.
Proof. intros H1 H2. simpl. eapply runs_bind; [done|]. eapply runs_bind; [done|]. apply runs_ret. Qed.

(** [k] further locks by the owner of a recursive mutex. *)
Lemma relock_times now tid mutex sh k m n :
  tid_ok tid -> mutex <> 0 -> mutex <> __recursive_lock -> count_ok n ->
  runs now (upd m mutex (mword tid MUTEX_TYPE_RECURSIVE sh n 1)) (times k (pthread_mutex_lock tid mutex))
    (replicate k 0) (upd m mutex (mword tid MUTEX_TYPE_RECURSIVE sh ((n + Z.of_nat k) mod 2048) 1)).
Proof.
  intros Ht Hn0 Hd. revert n. induction k as [|k IH]; intros n Hn.
  - rewrite Z.add_0_r, Z.mod_small by (unfold count_ok in Hn; lia). apply runs_ret.
  - assert (Hn' : count_ok ((n + 1) mod 2048)) by (apply Z.mod_pos_bound; lia).
    eapply runs_times_step.
    + apply (lock_owned now tid Ht mutex Hn0 Hd sh _ MUTEX_TYPE_RECURSIVE n 1);
        [apply upd_lock|by left|done|unfold state_ok; lia|by apply upd_mutex].
    + rewrite upd_upd by done. replace ((n + Z.of_nat (S k)) mod 2048)
        with (((n + 1) mod 2048 + Z.of_nat k) mod 2048); [by apply IH|].
      rewrite Z.add_mod_idemp_l by lia. f_equal. lia.
Qed.

(** Recursive mutexes nest: a thread that locks a free recursive mutex [k]
    times (up to 2048) succeeds each time and owns it with counter [k - 1];
    after [j] unlocks it still owns it with counter [k - 1 - j] as long as
    [j < k], and the [k]-th unlock frees the mutex. *)
Theorem recursive_nesting now tid mutex sh m (k j : nat) :
  tid_ok tid -> mutex <> 0 -> mutex <> __recursive_lock ->
  (1 <= k <= 2048)%nat -> (j <= k)%nat ->
  mget m __recursive_lock = 0 ->
  mget m mutex = mword 0 MUTEX_TYPE_RECURSIVE sh 0 0 ->
  let locked := upd m mutex (mword tid MUTEX_TYPE_RECURSIVE sh (Z.of_nat k - 1) 1) in
  runs now m (times k (pthread_mutex_lock tid mutex)) (replicate k 0) locked /\
  runs now locked (times j (pthread_mutex_unlock tid mutex)) (replicate j 0)
    (upd m mutex (if decide (j = k) then mword 0 MUTEX_TYPE_RECURSIVE sh 0 0
                  else mword tid MUTEX_TYPE_RECURSIVE sh (Z.of_nat k - 1 - Z.of_nat j) 1)).
Proof.
  intros Ht Hn0 Hd Hk Hj Hl Hw locked. split.
  - destruct k as [|k]; [lia|]. eapply runs_times_step.
    + apply (lock_free now tid Ht mutex Hn0 Hd sh m MUTEX_TYPE_RECURSIVE Hl); [by left|done].
    + pose proof (relock_times now tid mutex sh k m 0 Ht Hn0 Hd) as H.
      rewrite Z.add_0_l, Z.mod_small in H by lia. unfold locked.
      replace (Z.of_nat (S k) - 1) with (Z.of_nat k) by lia. apply H. unfold count_ok; lia.
  - unfold locked. clear locked Hw Hl.
    revert k Hk Hj. induction j as [|j IH]; intros k Hk Hj.
    + rewrite decide_False by lia. rewrite Z.sub_0_r. apply runs_ret.
    + eapply runs_times_step.
      * apply (unlock_owned now tid Ht mutex Hn0 Hd sh _ MUTEX_TYPE_RECURSIVE (Z.of_nat k - 1) 1);
          [apply upd_lock|by left|unfold count_ok; lia|unfold state_ok; lia|by apply upd_mutex].
      * rewrite upd_upd by done. case_decide as E.
        -- replace j with O by lia. replace k with 1%nat by lia. apply runs_ret.
        -- specialize (IH (k - 1)%nat ltac:(lia) ltac:(lia)).
           replace (Z.of_nat (k - 1) - 1) with (Z.of_nat k - 1 - 1) in IH by lia.
           replace (if decide (S j = k) then _ else _)
             with (if decide (j = (k - 1)%nat) then mword 0 MUTEX_TYPE_RECURSIVE sh 0 0
                   else mword tid MUTEX_TYPE_RECURSIVE sh (Z.of_nat k - 1 - 1 - Z.of_nat j) 1);
             [exact IH|].
           destruct (decide (j = (k - 1)%nat)), (decide (S j = k)); try lia; f_equal; lia.
Qed.

(** The recursion counter has 11 bits and no overflow check: 2049 nested
    locks of a recursive mutex all succeed, the counter is then back at 0, and
    a single unlock frees the mutex although 2048 more are due. *)
Theorem recursive_counter_wraps now tid mutex sh m :
  tid_ok tid -> mutex <> 0 -> mutex <> __recursive_lock ->
  mget m __recursive_lock = 0 ->
  mget m mutex = mword 0 MUTEX_TYPE_RECURSIVE sh 0 0 ->
  let locked := upd m mutex (mword tid MUTEX_TYPE_RECURSIVE sh 0 1) in
  runs now m (times 2049 (pthread_mutex_lock tid mutex)) (replicate 2049 0) locked /\
  runs now locked (pthread_mutex_unlock tid mutex) 0
    (upd m mutex (mword 0 MUTEX_TYPE_RECURSIVE sh 0 0)).
Proof.
  intros Ht Hn0 Hd Hl Hw locked. split.
  - change (replicate 2049 0) with (0 :: replicate 2048 0).
    eapply (runs_times_step _ _ _ _ _ 2048).
    + apply (lock_free now tid Ht mutex Hn0 Hd sh m MUTEX_TYPE_RECURSIVE Hl); [by left|done].
    + by apply (relock_times now tid mutex sh 2048 m 0).
  - pose proof (unlock_owned now tid Ht mutex Hn0 Hd sh locked MUTEX_TYPE_RECURSIVE 0 1) as H.
    unfold locked in *. rewrite upd_upd in H by done.
    apply H; [apply upd_lock|by left|unfold count_ok; lia|unfold state_ok; lia|by apply upd_mutex].
Qed.

(** C40.  The error results of recursive and error-checking mutexes, for every
    owner, counter and lock state: the owner of an error-checking mutex gets
    EDEADLK from lock and trylock; a thread that is not the owner (of a held or
    of a free mutex) gets EPERM from unlock; trylock on a mutex held by another
    thread answers EBUSY.  None of them changes the mutex word. *)
Theorem mutex_errors now tid mutex sh m ty o n st :
  tid_ok tid -> mutex <> 0 -> mutex <> __recursive_lock ->
  mget m __recursive_lock = 0 -> owned_type ty ->
  0 <= o < 65536 -> count_ok n -> state_ok st ->
  mget m mutex = mword o ty sh n st ->
  (o = tid -> ty = MUTEX_TYPE_ERRORCHECK ->
     runs now m (pthread_mutex_lock tid mutex) EDEADLK m /\
     runs now m (pthread_mutex_trylock tid mutex) EDEADLK m) /\
  (o <> tid -> runs now m (pthread_mutex_unlock tid mutex) EPERM m) /\
  (o <> tid -> o <> 0 ->
     runs now m (pthread_mutex_trylock tid mutex) EBUSY (mset m __recursive_lock 0) /\
     mget (mset m __recursive_lock 0) mutex = mget m mutex).
Proof.
  intros Ht Hn0 Hd Hl Hty Ho Hn Hst Hw. split_and!.
  - intros -> E.
    pose proof (lock_owned now tid Ht mutex Hn0 Hd sh m ty n st Hl Hty Hn Hst Hw) as H1.
    pose proof (trylock_owned now tid Ht mutex Hn0 Hd sh m ty n st Hl Hty Hn Hst Hw) as H2.
    by rewrite decide_True in H1, H2 by done.
  - intros Hne. by apply (unlock_other now tid mutex Hn0 sh m ty o n st).
  - intros Hne Hnz. split; [|by rewrite mget_set_ne by congruence].
    apply (trylock_busy now tid mutex Hn0 Hd sh m ty o n st); try done. lia.
Qed.

(** pthread_mutex_destroy poisons a free mutex, and leaves one that another
    thread holds alone with EBUSY; but it also poisons, and answers 0 for, a
    recursive mutex that the calling thread itself still holds, since the
    trylock it relies on succeeds for the owner. *)
Theorem mutex_destroy_spec now tid mutex sh m ty o n st :
  tid_ok tid -> mutex <> 0 -> mutex <> __recursive_lock ->
  mget m __recursive_lock = 0 -> owned_type ty ->
  0 <= o < 65536 -> count_ok n -> state_ok st ->
  mget m mutex = mword o ty sh n st ->
  exists m',
    (o = 0 -> n = 0 -> st = 0 ->
       runs now m (pthread_mutex_destroy tid mutex) 0 m' /\ mget m' mutex = s32 0xdead10cc) /\
    (o <> 0 -> o <> tid ->
       runs now m (pthread_mutex_destroy tid mutex) EBUSY m' /\ mget m' mutex = mget m mutex) /\
    (o = tid -> ty = MUTEX_TYPE_ERRORCHECK ->
       runs now m (pthread_mutex_destroy tid mutex) EDEADLK m' /\ m' = m) /\
    (o = tid -> ty = MUTEX_TYPE_RECURSIVE ->
       runs now m (pthread_mutex_destroy tid mutex) 0 m' /\ mget m' mutex = s32 0xdead10cc).
Proof.
  intros Ht Hn0 Hd Hl Hty Ho Hn Hst Hw.
  assert (Htid : tid <> 0) by (unfold tid_ok in Ht; lia).
  destruct (decide (o = 0)) as [->|Hoz]; [|destruct (decide (o = tid)) as [->|Hot]].
  - exists (mset (upd m mutex (mword tid ty sh 0 1)) mutex (s32 0xdead10cc)).
    split_and!; try done; try congruence. intros _ -> ->. split; [|apply mget_set_eq].
    apply (destroy_after_try now tid mutex m 0), (trylock_free now tid Ht mutex Hn0 Hd sh m ty); done.
  - pose proof (trylock_owned now tid Ht mutex Hn0 Hd sh m ty n st Hl Hty Hn Hst Hw) as H.
    destruct Hty as [-> | ->].
    + rewrite decide_False in H by done. apply (destroy_after_try now tid mutex m) in H.
      eexists. split_and!; try congruence; intros _ E; [by compute in E|].
      split; [exact H|apply mget_set_eq].
    + rewrite decide_True in H by done. apply (destroy_after_try now tid mutex m) in H.
      eexists. split_and!; try congruence; intros _ E; [|by compute in E]. by split; [exact H|].
  - exists (mset m __recursive_lock 0). split_and!; try done; try congruence.
    intros _ _. split; [|by rewrite mget_set_ne by congruence].
    apply (destroy_after_try now tid mutex m EBUSY), (trylock_busy now tid mutex Hn0 Hd sh m ty o n st);
      try done; lia.
Qed.

(** ** Attributes and initialisation *)
Section Attr.
Context (now : Z) (attr : loc) (Hattr : attr <> 0).

Lemma attr_test : (attr =? 0) = false.
Proof. by apply Z.eqb_neq. Qed.

Lemma runs_settype m type :
  0 <= type <= 2 ->
  runs now m (pthread_mutexattr_settype attr type) 0
    (mset m attr (s32 (Z.lor (Z.land (mget m attr) (Z.lnot MUTEXATTR_TYPE_MASK)) type))).
Proof.
  intros Ht. unfold pthread_mutexattr_settype. rewrite attr_test.
  assert (E : negb false && (PTHREAD_MUTEX_NORMAL <=? type) && (type <=? PTHREAD_MUTEX_ERRORCHECK) = true)
    by (unfold PTHREAD_MUTEX_NORMAL, PTHREAD_MUTEX_ERRORCHECK; lia).
  rewrite E. apply runs_act_load, runs_act_store, runs_ret.
Qed.

Lemma runs_setpshared m (ps : bool) :
  runs now m (pthread_mutexattr_setpshared attr (if ps then 1 else 0)) 0
    (mset m attr (s32 (if ps then Z.lor (mget m attr) MUTEXATTR_SHARED_MASK
                       else Z.land (mget m attr) (Z.lnot MUTEXATTR_SHARED_MASK)))).
Proof.
  unfold pthread_mutexattr_setpshared. rewrite attr_test.
  destruct ps; apply runs_act_load, runs_act_store, runs_ret.
Qed.

Lemma runs_gettype m out :
  let a := Z.land (mget m attr) MUTEXATTR_TYPE_MASK in
  a <= 2 -> 0 <= a -> runs now m (pthread_mutexattr_gettype attr out) 0 (mset m out (s32 a)).
Proof.
  intros a H2 H0. unfold pthread_mutexattr_gettype. rewrite attr_test. apply runs_act_load.
  fold a. cbv zeta.
  assert (E : (PTHREAD_MUTEX_NORMAL <=? a) && (a <=? PTHREAD_MUTEX_ERRORCHECK) = true)
    by (unfold PTHREAD_MUTEX_NORMAL, PTHREAD_MUTEX_ERRORCHECK; lia).
  rewrite E. apply runs_act_store, runs_ret.
Qed.

Lemma runs_getpshared m out :
  out <> 0 ->
  runs now m (pthread_mutexattr_getpshared attr out) 0
    (mset m out (if Z.land (mget m attr) MUTEXATTR_SHARED_MASK =? 0 then 0 else 1)).
Proof.
  intros Ho. unfold pthread_mutexattr_getpshared.
  rewrite attr_test, (proj2 (Z.eqb_neq out 0) Ho). apply runs_act_load, runs_act_store.
  destruct (Z.land (mget m attr) MUTEXATTR_SHARED_MASK =? 0); apply runs_ret.
Qed.

Lemma runs_mutex_init m mutex ty :
  mutex <> 0 -> Z.land (mget m attr) MUTEXATTR_TYPE_MASK = ty -> 0 <= ty <= 2 ->
  runs now m (pthread_mutex_init mutex attr) 0
    (mset m mutex (mword 0 (ty * 0x4000) (negb (Z.land (mget m attr) MUTEXATTR_SHARED_MASK =? 0)) 0 0)).
Proof.
  intros Hm Ht Hr. unfold pthread_mutex_init.
  rewrite attr_test, (proj2 (Z.eqb_neq mutex 0) Hm).
  do 2 (apply runs_act_load; cbv zeta). rewrite Ht.
  assert (ty = 0 \/ ty = 1 \/ ty = 2) as [-> | [-> | ->]] by lia;
    destruct (Z.land (mget m attr) MUTEXATTR_SHARED_MASK =? 0); apply runs_act_store, runs_ret.
Qed.
End Attr.

(**  Attributes round-trip into mutexes: for every type and process-shared
    flag, initialising an attribute object, setting both, reading both back and
    initialising a mutex from it all succeed; the values read are the values
    set, and the mutex is free with that type and flag. *)
Lemma mutex_attr_roundtrip now m attr mutex out1 out2 type (ps : bool) :
  NoDup [0; attr; mutex; out1; out2] -> 0 <= type <= 2 ->
  exists m',
    runs now m
      (r1 <- pthread_mutexattr_init attr ;;
       r2 <- pthread_mutexattr_settype attr type ;;
       r3 <- pthread_mutexattr_setpshared attr (if ps then 1 else 0) ;;
       r4 <- pthread_mutexattr_gettype attr out1 ;;
       r5 <- pthread_mutexattr_getpshared attr out2 ;;
       r6 <- pthread_mutex_init mutex attr ;;
       Ret [r1; r2; r3; r4; r5; r6]) [0; 0; 0; 0; 0; 0] m' /\
    mget m' out1 = type /\ mget m' out2 = (if ps then 1 else 0) /\
    mget m' mutex = mword 0 (type * 0x4000) ps 0 0.
Proof.
  intros Hnd Ht. rewrite !NoDup_cons in Hnd.
  assert (Hd : attr <> 0 /\ mutex <> 0 /\ out1 <> 0 /\ out2 <> 0 /\ attr <> mutex /\ attr <> out1 /\
    attr <> out2 /\ mutex <> out1 /\ mutex <> out2 /\ out1 <> out2) by set_solver.
  destruct Hd as (? & ? & ? & ? & ? & ? & ? & ? & ? & ?). clear Hnd.
  set (a := s32 (if ps then Z.lor (s32 type) MUTEXATTR_SHARED_MASK
                 else Z.land (s32 type) (Z.lnot MUTEXATTR_SHARED_MASK))).
  assert (Ha : Z.land a MUTEXATTR_TYPE_MASK = type /\
               (Z.land a MUTEXATTR_SHARED_MASK =? 0) = negb ps).
  { subst a. assert (type = 0 \/ type = 1 \/ type = 2) as [-> | [-> | ->]] by lia; destruct ps; done. }
  destruct Ha as [Ha1 Ha2].
  set (m3 := mset m attr a).
  eexists. split; [|].
  - eapply runs_bind. { unfold pthread_mutexattr_init. rewrite attr_test by done. apply runs_act_store, runs_ret. }
    eapply runs_bind; [by apply runs_settype|]. rewrite mget_set_eq, mset_mset.
    replace (s32 (Z.lor (Z.land (s32 PTHREAD_MUTEX_DEFAULT) (Z.lnot MUTEXATTR_TYPE_MASK)) type))
      with (s32 type) by (assert (type = 0 \/ type = 1 \/ type = 2) as [-> | [-> | ->]] by lia; done).
    eapply runs_bind; [by apply runs_setpshared|]. rewrite mget_set_eq, mset_mset. fold a m3.
    eapply runs_bind; [apply runs_gettype; [done|unfold m3; rewrite mget_set_eq, Ha1; lia..]|].
    eapply runs_bind; [by apply runs_getpshared|].
    eapply runs_bind; [apply (runs_mutex_init now attr ltac:(done) _ mutex type);
      [done|unfold m3; autorewrite with mem; done|done]|].
    apply runs_ret.
  - unfold m3. autorewrite with mem. rewrite Ha1, Ha2. split_and!; [|by destruct ps|by destruct ps].
    apply s32_id. unfold is_s32. lia.
Qed.

(** A time in nanoseconds. *)
Definition ns_of (ts : timespec) : Z := fst ts * 1000000000 + snd ts.
Definition normalised (ts : timespec) : Prop := 0 <= snd ts < 1000000000.

(** The timeouts of the timed calls: for a normalised absolute time,
    __timespec_to_absolute answers 0 exactly when that time has not passed, and
    the relative time it computes is normalised and is the difference to the
    current time; __timespec_to_relative_msec adds its milliseconds to the
    current time and answers a normalised time.  The seconds of all times fit the
    32 bits of tv_sec. *)
Theorem timespec_conversions now m clock abstime msecs :
  normalised abstime -> 0 <= fst abstime < 2 ^ 31 -> 0 <= now -> 0 <= msecs < 2 ^ 32 -> now + msecs * 1000000 < 2 ^ 31 * 1000000000 ->
  (exists r ts,
     runs now m (__timespec_to_absolute abstime clock) (r, ts) m /\
     normalised ts /\ ns_of ts = ns_of abstime - now /\
     (r = 0 <-> now <= ns_of abstime) /\ (r <> 0 -> r = -1)) /\
  (exists ts,
     runs now m (__timespec_to_relative_msec msecs clock) ts m /\
     normalised ts /\ ns_of ts = now + msecs * 1000000).
Proof.
  destruct abstime as [sec nsec]. unfold normalised, ns_of; cbn [fst snd]. intros Hn Hsec Hnow Hms Hfit.
  pose proof (Z.div_mod now 1000000000) as Hd. pose proof (Z.mod_pos_bound now 1000000000) as Hb.
  pose proof (Z.div_mod msecs 1000) as Hd2. pose proof (Z.mod_pos_bound msecs 1000) as Hb2.
  assert (0 <= now / 1000000000 < 2 ^ 31) as Hq by lia.
  assert (0 <= msecs / 1000) as Hq2 by lia.
  split.
  - assert (s32 (sec - now / 1000000000) = sec - now / 1000000000 /\ s32 (sec - now / 1000000000 - 1) = sec - now / 1000000000 - 1) as [Es1 Es2]
      by (split; apply s32_id; unfold is_s32; lia).
    set (s := sec - now / 1000000000) in *. set (n := nsec - now mod 1000000000).
    set (sn := if n <? 0 then (s - 1, n + 1000000000) else (s, n)).
    assert (Hsn : 0 <= snd sn < 1000000000 /\ fst sn * 1000000000 + snd sn = sec * 1000000000 + nsec - now).
    { subst sn. destruct (n <? 0) eqn:E; zbool; simpl; lia. }
    destruct Hsn as [Hsn1 Hsn2].
    exists (if (snd sn <? 0) || (fst sn <? 0) then -1 else 0), sn.
    split_and!; [|lia|lia|done| |].
    + unfold __timespec_to_absolute, clock_gettime. apply runs_clock. cbn [bind fst snd].
      fold s n. rewrite Es1, Es2. fold sn. destruct sn as [s' n']. cbn [fst snd]. case_test; apply runs_ret.
    + destruct ((snd sn <? 0) || (fst sn <? 0)) eqn:E; [|zbool; lia].
      apply orb_true_iff in E as [E|E]; zbool; lia.
    + case_test; [done|lia].
  - unfold __timespec_to_relative_msec, clock_gettime.
    assert (s32 (now / 1000000000 + msecs / 1000) = now / 1000000000 + msecs / 1000) as Es1 by (apply s32_id; unfold is_s32; lia).
    destruct (1000000000 <=? now mod 1000000000 + msecs mod 1000 * 1000000) eqn:E; zbool;
      eexists; (split; [apply runs_clock; cbn [bind fst snd]|]).
    + rewrite (proj2 (Z.leb_le _ _) E), Es1. apply runs_ret.
    + cbn [fst snd]. rewrite s32_id by (unfold is_s32; lia). lia.
    + rewrite (proj2 (Z.leb_gt _ _) E), Es1. apply runs_ret.
    + cbn [fst snd]. lia.
Qed.

(** ** Instances *)
Definition m_recursive : mem := mset ∅ 100 (mword 0 MUTEX_TYPE_RECURSIVE true 0 0).
Definition m_errorcheck : mem := mset ∅ 100 (mword 7 MUTEX_TYPE_ERRORCHECK false 0 2).

Lemma recursive_nesting_witness :
  runs 0 m_recursive (times 3 (pthread_mutex_lock 7 100)) [0; 0; 0]
    (upd m_recursive 100 (mword 7 MUTEX_TYPE_RECURSIVE true 2 1)).
Proof.
  apply (recursive_nesting 0 7 100 true m_recursive 3 0); try done; try lia; vm_compute; done.
Defined.

Lemma recursive_counter_wraps_witness :
  runs 0 (upd m_recursive 100 (mword 7 MUTEX_TYPE_RECURSIVE true 0 1))
    (pthread_mutex_unlock 7 100) 0 (upd m_recursive 100 (mword 0 MUTEX_TYPE_RECURSIVE true 0 0)).
Proof. apply (recursive_counter_wraps 0 7 100 true m_recursive); try done; vm_compute; done. Defined.

Lemma mutex_errors_witness :
  runs 0 m_errorcheck (pthread_mutex_lock 7 100) EDEADLK m_errorcheck /\
  runs 0 m_errorcheck (pthread_mutex_unlock 8 100) EPERM m_errorcheck.
Proof.
  split.
  - apply (mutex_errors 0 7 100 false m_errorcheck MUTEX_TYPE_ERRORCHECK 7 0 2);
      try done; try (vm_compute; done). by right.
  - apply (mutex_errors 0 8 100 false m_errorcheck MUTEX_TYPE_ERRORCHECK 7 0 2);
      try done; try (vm_compute; done). by right.
Defined.

Lemma mutex_destroy_spec_witness :
  exists m', runs 0 m_errorcheck (pthread_mutex_destroy 8 100) EBUSY m' /\ mget m' 100 = mget m_errorcheck 100.
Proof.
  destruct (mutex_destroy_spec 0 8 100 false m_errorcheck MUTEX_TYPE_ERRORCHECK 7 0 2)
    as (m' & _ & H & _);
    [by vm_compute|done|done|by vm_compute|by right|lia|by vm_compute|by vm_compute|by vm_compute|].
  exists m'. by apply H.
Defined.

Lemma timespec_conversions_witness :
  exists ts, runs 5999000000 ∅ (__timespec_to_relative_msec 1500 0) ts ∅ /\
    normalised ts /\ ns_of ts = 5999000000 + 1500 * 1000000.
Proof. apply (timespec_conversions 5999000000 ∅ 0 (0, 0) 1500); [by vm_compute|cbn; lia|lia..]. Defined.
