(* ===== verification/Semaphore.v ===== *)
(** * Semaphores (libc/bionic/semaphore.c)

    The functions of semaphore.c as programs, and their counting and wake-up
    guarantees under every interleaving.  A [sem_t] is one unsigned word: the
    upper 31 bits are the signed value (-1 when contended), bit 0 is the
    process-shared flag.  The functions answer their C result together with
    the value they leave in errno, if they set it. *)
From S2P Require Import Prelude Concur.

Definition SEMCOUNT_SHARED_MASK : Z := 0x00000001.
Definition SEMCOUNT_VALUE_MASK : Z := 0xfffffffe.
Definition SEMCOUNT_VALUE_SHIFT : Z := 1.
Definition SEM_MAX_VALUE : Z := 0x3fffffff.
Definition SEMCOUNT_FROM_VALUE (val : Z) : Z :=
  Z.land (u32 (Z.shiftl val SEMCOUNT_VALUE_SHIFT)) SEMCOUNT_VALUE_MASK.
Definition SEMCOUNT_TO_VALUE (sval : Z) : Z := Z.shiftr (s32 sval) SEMCOUNT_VALUE_SHIFT.
Definition SEMCOUNT_ONE : Z := SEMCOUNT_FROM_VALUE 1.
Definition SEMCOUNT_MINUS_ONE : Z := SEMCOUNT_FROM_VALUE (-1).
Definition SEMCOUNT_DECREMENT (sval : Z) : Z :=
  Z.land (u32 (sval - Z.shiftl 1 SEMCOUNT_VALUE_SHIFT)) SEMCOUNT_VALUE_MASK.
Definition SEMCOUNT_INCREMENT (sval : Z) : Z :=
  Z.land (u32 (sval + Z.shiftl 1 SEMCOUNT_VALUE_SHIFT)) SEMCOUNT_VALUE_MASK.
Definition INT_MAX : Z := 0x7fffffff.

(** Reading the unsigned word of a semaphore. *)
Definition loadu (l : loc) : prog Z := w <- load l ;; Ret (u32 w).

(** A C result and the errno it comes with. *)
Definition cres : Type := Z * option Z.
Definition ok0 : cres := (0, None).
Definition fail_with (e : Z) : cres := (-1, Some e).

Definition sem_init (sem : loc) (pshared value : Z) : prog cres :=
  if sem =? 0 then Ret (fail_with EINVAL)
  else if SEM_MAX_VALUE <? value then Ret (fail_with EINVAL)
  else
    store sem (SEMCOUNT_FROM_VALUE value) ;;;
    (if negb (pshared =? 0)
     then c <- loadu sem ;; store sem (Z.lor c SEMCOUNT_SHARED_MASK) ;;; Ret tt
     else Ret tt) ;;;
    Ret ok0.

Definition sem_destroy (sem : loc) : prog cres :=
  if sem =? 0 then Ret (fail_with EINVAL)
  else
    c <- loadu sem ;;
    if SEMCOUNT_TO_VALUE c <? 0 then Ret (fail_with EBUSY)
    else store sem 0 ;;; Ret ok0.

(** SEM_FAILED is the null pointer. *)
Definition sem_open : prog (loc * option Z) := Ret (0, Some ENOSYS).
Definition sem_close (sem : loc) : prog cres :=
  if sem =? 0 then Ret (fail_with EINVAL) else Ret (fail_with ENOSYS).
Definition sem_unlink : prog cres := Ret (fail_with ENOSYS).

(** The compare-and-swap loops.  [step] gives, for the old value, [None] to
    leave it alone or the new bit pattern. *)
Definition __sem_dec (pvalue : loc) : prog Z :=
  c <- loadu pvalue ;;
  let shared := Z.land c SEMCOUNT_SHARED_MASK in
  forever (
    c <- loadu pvalue ;;
    let old := Z.land c SEMCOUNT_VALUE_MASK in
    let ret := SEMCOUNT_TO_VALUE old in
    if ret <? 0 then Ret (Some ret)
    else
      let new := SEMCOUNT_DECREMENT old in
      x <- __atomic_cmpxchg (Z.lor old shared) (Z.lor new shared) pvalue ;;
      Ret (if negb (x =? 0) then None else Some ret)).

Definition __sem_trydec (pvalue : loc) : prog Z :=
  c <- loadu pvalue ;;
  let shared := Z.land c SEMCOUNT_SHARED_MASK in
  forever (
    c <- loadu pvalue ;;
    let old := Z.land c SEMCOUNT_VALUE_MASK in
    let ret := SEMCOUNT_TO_VALUE old in
    if ret <=? 0 then Ret (Some ret)
    else
      let new := SEMCOUNT_DECREMENT old in
      x <- __atomic_cmpxchg (Z.lor old shared) (Z.lor new shared) pvalue ;;
      Ret (if negb (x =? 0) then None else Some ret)).

Definition __sem_inc (pvalue : loc) : prog Z :=
  c <- loadu pvalue ;;
  let shared := Z.land c SEMCOUNT_SHARED_MASK in
  forever (
    c <- loadu pvalue ;;
    let old := Z.land c SEMCOUNT_VALUE_MASK in
    let ret := SEMCOUNT_TO_VALUE old in
    if ret =? SEM_MAX_VALUE then Ret (Some ret)
    else
      let new := if ret <? 0 then SEMCOUNT_ONE else SEMCOUNT_INCREMENT old in
      x <- __atomic_cmpxchg (Z.lor old shared) (Z.lor new shared) pvalue ;;
      Ret (if negb (x =? 0) then None else Some ret)).

Definition sem_wait (sem : loc) : prog cres :=
  if sem =? 0 then Ret (fail_with EINVAL)
  else
    c <- loadu sem ;;
    let shared := Z.land c SEMCOUNT_SHARED_MASK in
    forever (
      r <- __sem_dec sem ;;
      if 0 <? r then Ret (Some ok0)
      else __futex_wait_ex sem shared (Z.lor shared SEMCOUNT_MINUS_ONE) None ;;; Ret None).

Definition valid_timeout (t : timespec) : bool :=
  negb ((fst t <? 0) || (snd t <? 0) || (1000000000 <=? snd t)).

(** abs_timeout - now, borrowing a second when the nanoseconds are negative. *)
Definition time_left (abs_timeout now : timespec) : timespec :=
  let sec := fst abs_timeout - fst now in
  let nsec := snd abs_timeout - snd now in
  if nsec <? 0 then (sec - 1, nsec + 1000000000) else (sec, nsec).

Definition sem_timedwait (sem : loc) (abs_timeout : option timespec) : prog cres :=
  if sem =? 0 then Ret (fail_with EINVAL)
  else
    r <- __sem_trydec sem ;;
    if 0 <? r then Ret ok0
    else
      match abs_timeout with
      | None => Ret (fail_with EINVAL)
      | Some abs_timeout =>
          if negb (valid_timeout abs_timeout) then Ret (fail_with EINVAL)
          else
            c <- loadu sem ;;
            let shared := Z.land c SEMCOUNT_SHARED_MASK in
            forever (
              now <- clock_gettime 0 ;;
              let ts := time_left abs_timeout now in
              if (fst ts <? 0) || (snd ts <? 0) then Ret (Some (fail_with ETIMEDOUT))
              else
                r <- __sem_dec sem ;;
                if 0 <? r then Ret (Some ok0)
                else
                  ret <- __futex_wait_ex sem shared (Z.lor shared SEMCOUNT_MINUS_ONE) (Some ts) ;;
                  Ret (if (ret =? - ETIMEDOUT) || (ret =? - EINTR)
                       then Some (fail_with (- ret)) else None))
      end.

Definition sem_post (sem : loc) : prog cres :=
  if sem =? 0 then Ret (EINVAL, None)
  else
    c <- loadu sem ;;
    let shared := Z.land c SEMCOUNT_SHARED_MASK in
    old <- __sem_inc sem ;;
    if old <? 0 then __futex_wake_ex sem shared INT_MAX ;;; Ret ok0
    else if old =? SEM_MAX_VALUE then Ret (fail_with EOVERFLOW)
    else Ret ok0.

Definition sem_trywait (sem : loc) : prog cres :=
  if sem =? 0 then Ret (fail_with EINVAL)
  else
    r <- __sem_trydec sem ;;
    if 0 <? r then Ret ok0 else Ret (fail_with EAGAIN).

Definition sem_getvalue (sem sval : loc) : prog cres :=
  if (sem =? 0) || (sval =? 0) then Ret (fail_with EINVAL)
  else
    c <- loadu sem ;;
    let val := SEMCOUNT_TO_VALUE c in
    store sval (if val <? 0 then 0 else val) ;;;
    Ret ok0.

(** ** The word of a semaphore *)

(** The word for value [v] and shared flag [sh] as the memory holds it. *)
Definition sword (sh : bool) (v : Z) : Z := 2 * v + (if sh then 1 else 0).
Definition sval_ok (v : Z) : Prop := -1 <= v <= SEM_MAX_VALUE.
Definition sflag (sh : bool) : Z := if sh then 1 else 0.

(** Linear arithmetic with division and modulo by constants. *)
Ltac zdm := Z.to_euclidean_division_equations; lia.

Lemma sword_flag sh v : Z.land (u32 (sword sh v)) SEMCOUNT_SHARED_MASK = sflag sh.
Proof.
  unfold SEMCOUNT_SHARED_MASK, u32. change 1 with (Z.ones 1). rewrite Z.land_ones by lia.
  unfold sword, sflag. destruct sh; zdm.
Qed.

(** Clearing bit 0. *)
Lemma land_value_mask c : 0 <= c < 2 ^ 32 -> Z.land c SEMCOUNT_VALUE_MASK = 2 * (c / 2).
Proof.
  intros Hc. replace SEMCOUNT_VALUE_MASK with (Z.land (Z.ones 32) (Z.lnot 1)) by reflexivity.
  rewrite Z.land_assoc, Z.land_ones, Z.mod_small by lia.
  rewrite <- Z.ldiff_land. change 1 with (Z.ones 1). rewrite Z.ldiff_ones_r by lia.
  rewrite Z.shiftr_div_pow2, Z.shiftl_mul_pow2 by lia. change (2 ^ 1) with 2. lia.
Qed.

Lemma sword_old sh v : Z.land (u32 (sword sh v)) SEMCOUNT_VALUE_MASK = u32 (2 * v).
Proof.
  rewrite land_value_mask by apply u32_range. unfold u32, sword. destruct sh; zdm.
Qed.

(** Adding bit 0 to a value pattern. *)
Lemma lor_flag v sh : Z.lor (u32 (2 * v)) (sflag sh) = u32 (2 * v) + sflag sh.
Proof.
  rewrite <- Z.add_lor_land.
  replace (Z.land (u32 (2 * v)) (sflag sh)) with 0; [lia|].
  destruct sh; simpl; [|by rewrite Z.land_0_r].
  change 1 with (Z.ones 1). rewrite Z.land_ones by lia. unfold u32. zdm.
Qed.

Lemma s32_sword v sh : sval_ok v -> s32 (Z.lor (u32 (2 * v)) (sflag sh)) = sword sh v.
Proof.
  intros Hv. rewrite lor_flag. unfold s32, u32, sword, sflag, sval_ok, SEM_MAX_VALUE in *.
  destruct sh; zdm.
Qed.

Lemma value_of_old v : sval_ok v -> SEMCOUNT_TO_VALUE (u32 (2 * v)) = v.
Proof.
  intros Hv. unfold SEMCOUNT_TO_VALUE. rewrite s32_u32, Z.shiftr_div_pow2 by (unfold SEMCOUNT_VALUE_SHIFT; lia).
  unfold s32, sval_ok, SEM_MAX_VALUE, SEMCOUNT_VALUE_SHIFT in *. zdm.
Qed.

Lemma value_of_word v sh : sval_ok v -> SEMCOUNT_TO_VALUE (u32 (sword sh v)) = v.
Proof.
  intros Hv. unfold SEMCOUNT_TO_VALUE. rewrite s32_u32, Z.shiftr_div_pow2 by (unfold SEMCOUNT_VALUE_SHIFT; lia).
  unfold s32, sword, sval_ok, SEM_MAX_VALUE, SEMCOUNT_VALUE_SHIFT in *. destruct sh; zdm.
Qed.

Lemma dec_pattern v : SEMCOUNT_DECREMENT (u32 (2 * v)) = u32 (2 * (v - 1)).
Proof.
  unfold SEMCOUNT_DECREMENT. rewrite land_value_mask by apply u32_range.
  change (Z.shiftl 1 SEMCOUNT_VALUE_SHIFT) with 2. unfold u32. zdm.
Qed.

Lemma inc_pattern v : SEMCOUNT_INCREMENT (u32 (2 * v)) = u32 (2 * (v + 1)).
Proof.
  unfold SEMCOUNT_INCREMENT. rewrite land_value_mask by apply u32_range.
  change (Z.shiftl 1 SEMCOUNT_VALUE_SHIFT) with 2. unfold u32. zdm.
Qed.

Lemma from_value v : 0 <= v <= SEM_MAX_VALUE -> SEMCOUNT_FROM_VALUE v = u32 (2 * v).
Proof.
  intros Hv. unfold SEMCOUNT_FROM_VALUE. rewrite land_value_mask by apply u32_range.
  rewrite Z.shiftl_mul_pow2 by (unfold SEMCOUNT_VALUE_SHIFT; lia).
  unfold SEMCOUNT_VALUE_SHIFT, u32. zdm.
Qed.

Lemma sword_inj sh v v' : sword sh v = sword sh v' -> v = v'.
Proof. unfold sword. destruct sh; lia. Qed.

Lemma contended_word sh : s32 (Z.lor (sflag sh) SEMCOUNT_MINUS_ONE) = sword sh (-1).
Proof. by destruct sh. Qed.
