(* ===== verification/SemSafety.v ===== *)
(** * Semaphores under every interleaving

    Any number of threads wait (sem_wait, sem_trywait, sem_timedwait) and post
    (sem_post) on one semaphore.  Clients count their events: a post is counted
    when it begins and when it is done, an acquisition when the wait returned 0. *)
From S2P Require Import Prelude Concur Semaphore.
From Stdlib Require Import FunctionalExtensionality.

Inductive sop : Type := SWait | STry | STimed (abs : option timespec) | SPost.

Definition BEGUN : loc := -1.
Definition DONE : loc := -2.
Definition ACQ : loc := -3.

Section Sem.
Context (addr : positive) (sh : bool).

Definition sem : loc := Zpos addr.

Definition count_if (r : cres) (l : loc) : prog Z :=
  if fst r =? 0 then Act (AGhost l 1) Ret else Ret 0.

Fixpoint client (ops : list sop) : prog unit :=
  match ops with
  | [] => Ret tt
  | SPost :: ops =>
      Act (AGhost BEGUN 1) Ret ;;; r <- sem_post sem ;; count_if r DONE ;;; client ops
  | SWait :: ops => r <- sem_wait sem ;; count_if r ACQ ;;; client ops
  | STry :: ops => r <- sem_trywait sem ;; count_if r ACQ ;;; client ops
  | STimed abs :: ops => r <- sem_timedwait sem abs ;; count_if r ACQ ;;; client ops
  end.

(** ** Program points *)

(** The three compare-and-swap loops, and where they return to. *)
Inductive kind : Type := KDec | KTryDec | KInc.
Inductive kont : Type :=
| RWait (ops : list sop)
| RTry (ops : list sop)
| RTimedTry (abs : option timespec) (ops : list sop)
| RTimed (a ts : timespec) (ops : list sop)
| RPost (ops : list sop).

Inductive pc : Type :=
| PStart (ops : list sop)
| PGot (ops : list sop)                        (* a wait succeeded, to be counted *)
| PCall (k : kind) (c : kont)                  (* entry of the loop function *)
| PLoop (k : kind) (c : kont)
| PLoad (k : kind) (c : kont)
| PCas (k : kind) (v : Z) (c : kont)
| PWaitLoop (ops : list sop)
| PWait (ops : list sop)
| PWaitSleep (ops : list sop)
| PTimLoad (a : timespec) (ops : list sop)
| PTimLoop (a : timespec) (ops : list sop)
| PTimClock (a : timespec) (ops : list sop)
| PTim (a ts : timespec) (ops : list sop)
| PTimSleep (a ts : timespec) (ops : list sop)
| PPostLoad (ops : list sop)
| PPostWake (ops : list sop)
| PPostDone (ops : list sop).

Definition fn_of (k : kind) : prog Z :=
  match k with KDec => __sem_dec sem | KTryDec => __sem_trydec sem | KInc => __sem_inc sem end.

(** The value a loop stores over [v]; [None]: it returns without storing. *)
Definition new_value (k : kind) (v : Z) : option Z :=
  match k with
  | KDec => if v <? 0 then None else Some (v - 1)
  | KTryDec => if v <=? 0 then None else Some (v - 1)
  | KInc => if v =? SEM_MAX_VALUE then None else Some (if v <? 0 then 1 else v + 1)
  end.

Definition counted (ops : list sop) (l : loc) : prog unit := Act (AGhost l 1) (fun _ => client ops).

(** The waiting loops. *)
Definition wait_loop (shared : Z) (ops : list sop) : prog unit :=
  bind (forever (
      r <- __sem_dec sem ;;
      if 0 <? r then Ret (Some ok0)
      else __futex_wait_ex sem shared (Z.lor shared SEMCOUNT_MINUS_ONE) None ;;; Ret None))
    (fun r => count_if r ACQ ;;; client ops).

Definition timed_loop (shared : Z) (a : timespec) (ops : list sop) : prog unit :=
  bind (forever (
      now <- clock_gettime 0 ;;
      let ts := time_left a now in
      if (fst ts <? 0) || (snd ts <? 0) then Ret (Some (fail_with ETIMEDOUT))
      else
        r <- __sem_dec sem ;;
        if 0 <? r then Ret (Some ok0)
        else
          ret <- __futex_wait_ex sem shared (Z.lor shared SEMCOUNT_MINUS_ONE) (Some ts) ;;
          Ret (if (ret =? - ETIMEDOUT) || (ret =? - EINTR)
               then Some (fail_with (- ret)) else None)))
    (fun r => count_if r ACQ ;;; client ops).

(** sem_timedwait once the first try failed and the timeout is valid. *)
Definition timed_load (a : timespec) (ops : list sop) : prog unit :=
  bind (c <- loadu sem ;;
        let shared := Z.land c SEMCOUNT_SHARED_MASK in
        forever (
          now <- clock_gettime 0 ;;
          let ts := time_left a now in
          if (fst ts <? 0) || (snd ts <? 0) then Ret (Some (fail_with ETIMEDOUT))
          else
            r <- __sem_dec sem ;;
            if 0 <? r then Ret (Some ok0)
            else
              ret <- __futex_wait_ex sem shared (Z.lor shared SEMCOUNT_MINUS_ONE) (Some ts) ;;
              Ret (if (ret =? - ETIMEDOUT) || (ret =? - EINTR)
                   then Some (fail_with (- ret)) else None)))
    (fun r => count_if r ACQ ;;; client ops).

Definition wait_here (ops : list sop) : prog unit :=
  Act (AFutexWait sem (sflag sh) (sword sh (-1)) None) (fun _ => wait_loop (sflag sh) ops).
Definition timed_here (a ts : timespec) (ops : list sop) : prog unit :=
  Act (AFutexWait sem (sflag sh) (sword sh (-1)) (Some ts))
      (fun ret => if (ret =? - ETIMEDOUT) || (ret =? - EINTR) then client ops else timed_loop (sflag sh) a ops).

(** Where a loop function's answer leads. *)
Definition kont_pc (c : kont) (r : Z) : pc :=
  match c with
  | RWait ops => if 0 <? r then PGot ops else PWait ops
  | RTry ops => if 0 <? r then PGot ops else PStart ops
  | RTimedTry abs ops =>
      if 0 <? r then PGot ops
      else match abs with
           | Some a => if valid_timeout a then PTimLoad a ops else PStart ops
           | None => PStart ops
           end
  | RTimed a ts ops => if 0 <? r then PGot ops else PTim a ts ops
  | RPost ops =>
      if r <? 0 then PPostWake ops
      else if r =? SEM_MAX_VALUE then PStart ops else PPostDone ops
  end.

Definition wake_here (ops : list sop) : prog unit :=
  Act (AFutexWake sem (sflag sh) INT_MAX) (fun _ => counted ops DONE).

(** The code at the points outside the loop functions. *)
Definition base_code (p : pc) : prog unit :=
  match p with
  | PStart ops => client ops
  | PGot ops => counted ops ACQ
  | PWaitLoop ops => wait_loop (sflag sh) ops
  | PWait ops | PWaitSleep ops => wait_here ops
  | PTimLoad a ops => timed_load a ops
  | PTimLoop a ops => timed_loop (sflag sh) a ops
  | PTimClock a ops =>
      match unroll (timed_loop (sflag sh) a ops) with Some q => q | None => Ret tt end
  | PTim a ts ops | PTimSleep a ts ops => timed_here a ts ops
  | PPostLoad ops => r <- sem_post sem ;; count_if r DONE ;;; client ops
  | PPostWake ops => wake_here ops
  | PPostDone ops => counted ops DONE
  | _ => Ret tt
  end.

Definition code (p : pc) : prog unit :=
  match p with
  | PCall k c => bind (fn_of k) (fun r => base_code (kont_pc c r))
  | PLoop k c =>
      bind (resume (fn_of k) (sword sh 0)) (fun r => base_code (kont_pc c r))
  | PLoad k c =>
      match unroll (bind (resume (fn_of k) (sword sh 0)) (fun r => base_code (kont_pc c r))) with
      | Some q => q
      | None => Ret tt
      end
  | PCas k v c =>
      Act (ACmpxchg (sword sh v) (sword sh (default 0 (new_value k v))) sem)
          (fun x => if x =? 0 then base_code (kont_pc c v)
                    else bind (resume (fn_of k) (sword sh 0)) (fun r => base_code (kont_pc c r)))
  | p => base_code p
  end.

Definition tst (p : pc) : tstate unit :=
  match p with
  | PWaitSleep ops => Sleep sem (sflag sh) false (resume (code p))
  | PTimSleep a ts ops => Sleep sem (sflag sh) true (resume (code p))
  | p => Run (code p)
  end.

Definition pc_act (p : pc) : option act :=
  match p with
  | PStart [] | PLoop _ _ | PWaitLoop _ | PTimLoop _ _ => None
  | PStart (SPost :: _) => Some (AGhost BEGUN 1)
  | PStart _ | PCall _ _ | PLoad _ _ | PTimLoad _ _ | PPostLoad _ => Some (ALoad sem)
  | PGot _ => Some (AGhost ACQ 1)
  | PCas k v _ => Some (ACmpxchg (sword sh v) (sword sh (default 0 (new_value k v))) sem)
  | PWait _ | PWaitSleep _ => Some (AFutexWait sem (sflag sh) (sword sh (-1)) None)
  | PTimClock _ _ => Some (AClock 0)
  | PTim _ ts _ | PTimSleep _ ts _ =>
      Some (AFutexWait sem (sflag sh) (sword sh (-1)) (Some ts))
  | PPostWake _ => Some (AFutexWake sem (sflag sh) INT_MAX)
  | PPostDone _ => Some (AGhost DONE 1)
  end.

(** The next point; a read of the word answers [sword sh v], whose half is [v]. *)
Definition pc_next (p : pc) (w : Z) : pc :=
  match p with
  | PStart [] | PWaitLoop _ | PTimLoop _ _ | PLoop _ _ => p
  | PStart (SWait :: ops) => PWaitLoop ops
  | PStart (STry :: ops) => PLoop KTryDec (RTry ops)
  | PStart (STimed abs :: ops) => PLoop KTryDec (RTimedTry abs ops)
  | PStart (SPost :: ops) => PPostLoad ops
  | PGot ops => PStart ops
  | PCall k c => PLoop k c
  | PLoad k c =>
      match new_value k (w / 2) with Some _ => PCas k (w / 2) c | None => kont_pc c (w / 2) end
  | PCas k v c => if w =? 0 then kont_pc c v else PLoop k c
  | PWait ops | PWaitSleep ops => PWaitLoop ops
  | PTimLoad a ops => PTimLoop a ops
  | PTimClock a ops =>
      let ts := time_left a (w / 1000000000, w mod 1000000000) in
      if (fst ts <? 0) || (snd ts <? 0) then PStart ops else PCall KDec (RTimed a ts ops)
  | PTim a _ ops | PTimSleep a _ ops =>
      if (w =? - ETIMEDOUT) || (w =? - EINTR) then PStart ops else PTimLoop a ops
  | PPostLoad ops => PCall KInc (RPost ops)
  | PPostWake ops => PPostDone ops
  | PPostDone ops => PStart ops
  end.

Definition good_answer (p : pc) (w : Z) : Prop :=
  match pc_act p with
  | Some (ALoad _) => exists v, sval_ok v /\ w = sword sh v
  | _ => True
  end.

(** The points a thread can be at: posts increment and waits decrement, and a
    compare-and-swap is about to store. *)
Definition kind_ok (k : kind) (c : kont) : bool :=
  match k, c with
  | KInc, RPost _ => true
  | KInc, _ | _, RPost _ => false
  | _, _ => true
  end.
Definition pc_ok (p : pc) : Prop :=
  match p with
  | PCall k c | PLoop k c | PLoad k c => kind_ok k c = true
  | PCas k v c => kind_ok k c = true /\ sval_ok v /\ new_value k v <> None
  | _ => True
  end.
End Sem.

Ltac spc_cases p :=
  destruct p as [[|[] ops]|ops|k c|k c|k c|k v c|ops|ops|ops|a ops|a ops|a ops|a ts ops|a ts ops|ops|ops|ops].

Lemma scode_head addr sh p : head (code addr sh p) = pc_act addr sh p.
Proof. spc_cases p; try (by destruct sh); try (destruct k; reflexivity); try reflexivity. Qed.

Ltac fext x := apply functional_extensionality; intros x.

Lemma scode_unroll addr sh p :
  unroll (code addr sh p) =
    match p with
    | PLoop k c => Some (code addr sh (PLoad k c))
    | PWaitLoop ops => Some (code addr sh (PCall KDec (RWait ops)))
    | PTimLoop a ops => Some (code addr sh (PTimClock a ops))
    | _ => None
    end.
Proof.
  spc_cases p; try (by destruct sh); try (destruct k; reflexivity); try reflexivity.
  unfold code, base_code, wait_loop, forever. cbn [bind unroll fn_of]. f_equal.
  rewrite !bind_assoc. f_equal. fext r. cbn [kont_pc].
  destruct (0 <? r); [done|]. unfold base_code, wait_here. by destruct sh.
Qed.

(** The loop functions only look at the shared flag of the first word they read. *)
Lemma resume_fn addr sh k v :
  resume (fn_of addr k) (sword sh v) = resume (fn_of addr k) (sword sh 0).
Proof.
  destruct k; simpl; unfold loadu; cbn [bind load]; by rewrite !sword_flag.
Qed.

(** One round of a loop function after it read the word [c]. *)
Definition round_of (addr : positive) (k : kind) (shared c : Z) : prog (option Z) :=
  let old := Z.land c SEMCOUNT_VALUE_MASK in
  let ret := SEMCOUNT_TO_VALUE old in
  let swap new :=
    x <- __atomic_cmpxchg (Z.lor old shared) (Z.lor new shared) (sem addr) ;;
    Ret (if negb (x =? 0) then None else Some ret) in
  match k with
  | KDec => if ret <? 0 then Ret (Some ret) else swap (SEMCOUNT_DECREMENT old)
  | KTryDec => if ret <=? 0 then Ret (Some ret) else swap (SEMCOUNT_DECREMENT old)
  | KInc => if ret =? SEM_MAX_VALUE then Ret (Some ret)
            else swap (if ret <? 0 then SEMCOUNT_ONE else SEMCOUNT_INCREMENT old)
  end.

Lemma resume_load addr sh k c w :
  resume (code addr sh (PLoad k c)) w =
  bind (round_of addr k (sflag sh) (u32 w))
       (fun r => match r with
                 | Some b => base_code addr sh (kont_pc c b)
                 | None => code addr sh (PLoop k c)
                 end).
Proof.
  assert (H : forall l, Z.land (u32 (sword sh l)) SEMCOUNT_SHARED_MASK = sflag sh) by apply sword_flag.
  destruct k; cbn -[sword u32 Z.land Z.lor sflag]; rewrite !H; rewrite bind_assoc; f_equal; fext r;
    destruct r; reflexivity.
Qed.

(** The round stores the pattern of the new value over that of the old one. *)
Lemma round_value addr sh k v :
  sval_ok v ->
  round_of addr k (sflag sh) (u32 (sword sh v)) =
  match new_value k v with
  | Some v' => Act (ACmpxchg (sword sh v) (sword sh v') (sem addr))
                   (fun x => Ret (if negb (x =? 0) then None else Some v))
  | None => Ret (Some v)
  end.
Proof.
  intros Hv. unfold round_of. cbv zeta. rewrite sword_old, value_of_old by done.
  unfold __atomic_cmpxchg. cbn [bind]. rewrite s32_sword by done.
  unfold sval_ok, SEM_MAX_VALUE in Hv.
  destruct k; simpl; (case_test; [done|]); zbool.
  - rewrite dec_pattern, s32_sword by (unfold sval_ok, SEM_MAX_VALUE; lia). done.
  - rewrite dec_pattern, s32_sword by (unfold sval_ok, SEM_MAX_VALUE; lia). done.
  - unfold SEM_MAX_VALUE in *. case_test; zbool.
    + change SEMCOUNT_ONE with (u32 (2 * 1)).
      rewrite s32_sword by (unfold sval_ok, SEM_MAX_VALUE; lia). done.
    + rewrite inc_pattern, s32_sword by (unfold sval_ok, SEM_MAX_VALUE; lia). done.
Qed.

Lemma sword_half sh v : sword sh v / 2 = v.
Proof. unfold sword. destruct sh; zdm. Qed.

Lemma base_kont addr sh c r : code addr sh (kont_pc c r) = base_code addr sh (kont_pc c r).
Proof. destruct c; simpl; repeat case_test; try done; destruct abs; simpl; repeat case_test; done. Qed.

Lemma resume_bind {A B} (p : prog A) (k : A -> prog B) w :
  head p <> None -> resume (bind p k) w = bind (resume p w) k.
Proof. by destruct p. Qed.

Lemma resume_start_timed addr sh abs ops x :
  resume (code addr sh (PStart (STimed abs :: ops))) (sword sh x) =
  code addr sh (PLoop KTryDec (RTimedTry abs ops)).
Proof.
  change (code addr sh (PStart (STimed abs :: ops)))
    with (bind (sem_timedwait (sem addr) abs) (fun r => count_if r ACQ ;;; client addr ops)).
  unfold sem_timedwait. change (sem addr =? 0) with false. cbv iota.
  rewrite bind_assoc, resume_bind by (simpl; discriminate). change (__sem_trydec (sem addr)) with (fn_of addr KTryDec).
  rewrite resume_fn. unfold code. f_equal. fext r. cbn [kont_pc].
  destruct (0 <? r); [done|]. destruct abs as [a|]; [|done].
  destruct (valid_timeout a); done.
Qed.

Lemma sresume_tim_clock addr sh a ops w :
  resume (code addr sh (PTimClock a ops)) w = code addr sh (pc_next (PTimClock a ops) w).
Proof.
  unfold code, base_code, timed_loop, forever. cbn -[time_left sflag __futex_wait_ex __sem_dec client].
  set (ts := time_left a (w / 1000000000, w mod 1000000000)).
  destruct ((fst ts <? 0) || (snd ts <? 0)); [done|].
  cbn -[time_left sflag __futex_wait_ex __sem_dec client]. rewrite !bind_assoc. f_equal. fext r.
  destruct (0 <? r); [done|]. cbn -[time_left sflag __sem_dec client timed_loop].
  unfold timed_here. rewrite contended_word. f_equal. fext ret.
  destruct ((ret =? - ETIMEDOUT) || (ret =? - EINTR)); by destruct sh.
Qed.

Lemma resume_post_load addr sh ops x :
  resume (code addr sh (PPostLoad ops)) (sword sh x) = code addr sh (PCall KInc (RPost ops)).
Proof.
  change (resume (code addr sh (PPostLoad ops)) (sword sh x)) with
    (bind (bind (fn_of addr KInc) (fun old =>
       if old <? 0 then __futex_wake_ex (sem addr) (Z.land (u32 (sword sh x)) SEMCOUNT_SHARED_MASK) INT_MAX ;;; Ret ok0
       else if old =? SEM_MAX_VALUE then Ret (fail_with EOVERFLOW)
       else Ret ok0)) (fun r => count_if r DONE ;;; client addr ops)).
  rewrite sword_flag, bind_assoc. unfold code. f_equal. fext r. cbn [kont_pc].
  destruct (r <? 0); [done|]. destruct (r =? SEM_MAX_VALUE); done.
Qed.

Lemma scode_resume addr sh p w :
  pc_act addr sh p <> None -> good_answer addr sh p w -> pc_ok p ->
  resume (code addr sh p) w = code addr sh (pc_next p w).
Proof.
  intros Hact Hw Hok. unfold good_answer in Hw.
  spc_cases p; simpl in Hact, Hw; try done; try (destruct Hw as (x & Hx & ->)).
  - change (resume (code addr sh (PStart (SWait :: ops))) (sword sh x))
      with (wait_loop addr (Z.land (u32 (sword sh x)) SEMCOUNT_SHARED_MASK) ops).
    by rewrite sword_flag.
  - change (resume (code addr sh (PStart (STry :: ops))) (sword sh x))
      with (bind (bind (resume (fn_of addr KTryDec) (sword sh x))
                       (fun r => if 0 <? r then Ret ok0 else Ret (fail_with EAGAIN)))
                 (fun r => count_if r ACQ ;;; client addr ops)).
    rewrite resume_fn, bind_assoc. unfold code. cbn [pc_next]. f_equal. fext r. cbn [kont_pc].
    by destruct (0 <? r).
  - apply resume_start_timed.
  - cbn [pc_next]. unfold code. rewrite resume_bind by (destruct k; simpl; discriminate). by rewrite resume_fn.
  - rewrite resume_load, round_value by done. cbn [pc_next]. rewrite sword_half.
    destruct (new_value k x) as [x'|] eqn:E; [|by rewrite base_kont].
    cbn [bind]. unfold code at 2. rewrite E. cbn [default]. f_equal. fext y. by destruct (y =? 0).
  - cbn [pc_next]. unfold code at 1. cbn [resume]. destruct (w =? 0); [by rewrite base_kont|done].
  - change (resume (code addr sh (PTimLoad a ops)) (sword sh x))
      with (timed_loop addr (Z.land (u32 (sword sh x)) SEMCOUNT_SHARED_MASK) a ops).
    by rewrite sword_flag.
  - apply sresume_tim_clock.
  - cbn [pc_next]. cbn -[client timed_loop]. by destruct ((w =? - ETIMEDOUT) || (w =? - EINTR)).
  - cbn [pc_next]. cbn -[client timed_loop]. by destruct ((w =? - ETIMEDOUT) || (w =? - EINTR)).
  - apply resume_post_load.
Qed.

(** ** Counting *)

(** Acquisitions and posts that took effect but are not yet counted, and posts
    that have begun and are not yet counted as done. *)
Definition got (p : pc) : Z := match p with PGot _ => 1 | _ => 0 end.
Definition posted (p : pc) : Z := match p with PPostWake _ | PPostDone _ => 1 | _ => 0 end.
Definition inflight (p : pc) : Z :=
  match p with
  | PPostLoad _ | PPostWake _ | PPostDone _ => 1
  | PCall KInc _ | PLoop KInc _ | PLoad KInc _ | PCas KInc _ _ => 1
  | _ => 0
  end.
Definition asleep_pc (p : pc) : bool :=
  match p with PWaitSleep _ | PTimSleep _ _ _ => true | _ => false end.
Definition waking (p : pc) : bool := match p with PPostWake _ => true | _ => false end.

Record cinv (addr : positive) (sh : bool) (init : Z) (m : mem) (pcs : gmap tid pc) (v : Z) : Prop := {
  ci_word : mget m (sem addr) = sword sh v;
  ci_val : sval_ok v;
  ci_count : Z.max 0 v + mget m ACQ + msum got pcs = init + mget m DONE + msum posted pcs;
  ci_begun : mget m DONE + msum inflight pcs <= mget m BEGUN;
  ci_ok : map_Forall (fun _ p => pc_ok p) pcs }.

(** A thread sleeps only while the word is in the contended state or a post
    that will wake every sleeper is under way. *)
Definition wake_ok (pcs : gmap tid pc) (v : Z) : Prop :=
  (exists t p, pcs !! t = Some p /\ asleep_pc p = true) ->
  v = -1 \/ exists t p, pcs !! t = Some p /\ waking p = true.

Lemma cinv_move addr sh init m m' pcs v v' t p p' :
  cinv addr sh init m pcs v -> pcs !! t = Some p -> pc_ok p' ->
  mget m' (sem addr) = sword sh v' -> sval_ok v' ->
  Z.max 0 v' - Z.max 0 v + (mget m' ACQ - mget m ACQ) + (got p' - got p) =
    mget m' DONE - mget m DONE + (posted p' - posted p) ->
  mget m' DONE - mget m DONE + (inflight p' - inflight p) <= mget m' BEGUN - mget m BEGUN ->
  cinv addr sh init m' (<[t := p']> pcs) v'.
Proof.
  intros [Hw Hv Hc Hb Ho] Hp Hp' Hw' Hv' H1 H2. constructor; try done.
  - rewrite !(msum_insert _ _ _ p) by done. lia.
  - rewrite !(msum_insert _ _ _ p) by done. lia.
  - by apply map_Forall_insert_2.
Qed.

Lemma wake_move pcs v v' t p p' :
  wake_ok pcs v -> pcs !! t = Some p -> waking p = false ->
  (asleep_pc p' = true -> v' = -1) -> (v = -1 -> v' = -1 \/ waking p' = true) ->
  wake_ok (<[t := p']> pcs) v'.
Proof.
  intros Hk Hp Hnw Hsl Hv (u & q & Hu & Hq).
  apply lookup_insert_Some in Hu as [[<- <-]|[Hne Hu]]; [auto|].
  destruct Hk as [->|(w & q' & Hw & Hq')]; [eauto| |].
  - destruct (Hv eq_refl) as [|Hw]; [auto|]. right. exists t, p'. by rewrite lookup_insert_eq.
  - right. exists w, q'. rewrite lookup_insert_ne by congruence. done.
Qed.

Definition sinv addr sh init (s : sys unit) : Prop :=
  exists pcs v, points_at (fun _ => tst addr sh) (sthreads s) pcs /\
    cinv addr sh init (smem s) pcs v /\ wake_ok pcs v /\ Z.of_nat (size pcs) < INT_MAX.

(** What one action of a thread does to the semaphore and the counters. *)
Lemma kont_weights c r k :
  kind_ok k c = true ->
  pc_ok (kont_pc c r) /\ asleep_pc (kont_pc c r) = false /\
  match k with
  | KInc => got (kont_pc c r) = 0 /\
      (if r =? SEM_MAX_VALUE then posted (kont_pc c r) = 0 /\ inflight (kont_pc c r) = 0
       else posted (kont_pc c r) = 1 /\ inflight (kont_pc c r) = 1) /\
      waking (kont_pc c r) = (r <? 0)
  | _ => posted (kont_pc c r) = 0 /\ inflight (kont_pc c r) = 0 /\ waking (kont_pc c r) = false /\
      got (kont_pc c r) = (if 0 <? r then 1 else 0)
  end.
Proof.
  destruct k, c; try done; intros _; simpl; repeat case_test; try (by destruct abs);
    try (destruct abs; simpl; repeat case_test); zbool; subst; try done; try lia.
Qed.

Ltac gset := unfold sem, ACQ, DONE, BEGUN in *;
  repeat (rewrite mget_set_eq || rewrite mget_set_ne by lia).

(** A thread's move that leaves the word alone. *)
Lemma inv_move_same addr sh init m m' pcs v t p p' :
  cinv addr sh init m pcs v -> wake_ok pcs v -> pcs !! t = Some p -> pc_ok p' ->
  mget m' (sem addr) = mget m (sem addr) -> waking p = false ->
  (asleep_pc p' = true -> v = -1) ->
  mget m' ACQ - mget m ACQ + (got p' - got p) = mget m' DONE - mget m DONE + (posted p' - posted p) ->
  mget m' DONE - mget m DONE + (inflight p' - inflight p) <= mget m' BEGUN - mget m BEGUN ->
  cinv addr sh init m' (<[t := p']> pcs) v /\ wake_ok (<[t := p']> pcs) v.
Proof.
  intros Hc Hk Hp Hok Hm Hw Ha H1 H2. split.
  - destruct Hc as [Hw' Hv Hcnt Hb Ho] eqn:E. eapply cinv_move; eauto; [congruence|lia].
  - eapply wake_move; eauto.
Qed.

Definition exec_result addr sh init pcs t p w m' v' : Prop :=
  good_answer addr sh p w /\ cinv addr sh init m' (<[t := pc_next p w]> pcs) v' /\
  wake_ok (<[t := pc_next p w]> pcs) v'.

Lemma load_move addr sh init m pcs v t k c :
  cinv addr sh init m pcs v -> wake_ok pcs v -> pcs !! t = Some (PLoad k c) ->
  exec_result addr sh init pcs t (PLoad k c) (sword sh v) m v.
Proof.
  intros Hc Hk Hp. pose proof (ci_ok _ _ _ _ _ _ Hc _ _ Hp) as Hok. simpl in Hok.
  pose proof (ci_val _ _ _ _ _ _ Hc) as Hv.
  split; [exists v; done|]. cbn [pc_next]. rewrite sword_half.
  destruct (new_value k v) as [v'|] eqn:E.
  - eapply inv_move_same; [done..| | | | | |]; try done.
    + simpl. rewrite E. done.
    + simpl. lia.
    + destruct k; simpl; lia.
  - destruct (kont_weights c v k Hok) as (Hok' & Has & Hwt).
    eapply inv_move_same; [done..|by rewrite Has| |].
    + destruct k; simpl in E; case_test_in E; try discriminate E; zbool; simpl.
      * destruct Hwt as (-> & _ & _ & ->). case_test; zbool; lia.
      * destruct Hwt as (-> & _ & _ & ->). case_test; zbool; lia.
      * subst v. simpl in Hwt. lia.
    + destruct k; simpl in E; case_test_in E; try discriminate E; zbool; simpl.
      * lia.
      * lia.
      * subst v. simpl in Hwt. lia.
Qed.

Lemma cas_move addr sh init m pcs v t k v0 c w m' :
  cinv addr sh init m pcs v -> wake_ok pcs v -> pcs !! t = Some (PCas k v0 c) ->
  exec (ACmpxchg (sword sh v0) (sword sh (default 0 (new_value k v0))) (sem addr)) m = Some (w, m') ->
  exists v', exec_result addr sh init pcs t (PCas k v0 c) w m' v'.
Proof.
  intros Hc Hk Hp He. destruct (ci_ok _ _ _ _ _ _ Hc _ _ Hp) as (Hok & Hv0 & Hn).
  destruct (new_value k v0) as [v'|] eqn:E; [clear Hn|done].
  simpl in He. rewrite (ci_word _ _ _ _ _ _ Hc) in He. case_test_in He; zbool; injection He as <- <-.
  - apply sword_inj in E0 as ->. exists v'. split; [done|]. cbn [pc_next].
    destruct (kont_weights c v0 k Hok) as (Hok' & Has & Hwt). cbn [Z.eqb].
    unfold sval_ok, SEM_MAX_VALUE in *. split.
    + eapply cinv_move; [done..| | | |]; [by gset| | |]; gset.
      * destruct k; simpl in E; unfold sval_ok, SEM_MAX_VALUE in *; repeat case_test_in E; simplify_eq; zbool; lia.
      * destruct k; simpl in E; unfold SEM_MAX_VALUE in *; repeat case_test_in E; simplify_eq; zbool; simpl.
        -- destruct Hwt as (-> & _ & _ & ->). case_test; zbool; lia.
        -- destruct Hwt as (-> & _ & _ & ->). case_test; zbool; lia.
        -- destruct Hwt as (? & Hwt & ?). lia.
        -- destruct Hwt as (? & Hwt & ?). lia.
      * destruct k; simpl in E; unfold SEM_MAX_VALUE in *; repeat case_test_in E; simplify_eq; zbool; simpl; try lia.
        all: destruct Hwt as (? & Hwt & ?); lia.
    + eapply wake_move; [done..|by rewrite Has|]. intros ->. right.
      destruct k; simpl in E; simplify_eq. by destruct Hwt as (_ & _ & ->).
  - exists v. split; [done|]. cbn [pc_next].
    eapply inv_move_same; [done..| |]; destruct k; simpl; lia.
Qed.

Lemma sexec_move addr sh init m pcs x t p act w m' :
  cinv addr sh init m pcs x -> wake_ok pcs x -> pcs !! t = Some p ->
  pc_act addr sh p = Some act -> exec act m = Some (w, m') ->
  exists v', exec_result addr sh init pcs t p w m' v'.
Proof.
  intros Hc Hk Hp Ha He. pose proof (ci_word _ _ _ _ _ _ Hc) as Hw.
  pose proof (ci_val _ _ _ _ _ _ Hc) as Hv.
  pose proof (ci_ok _ _ _ _ _ _ Hc _ _ Hp) as Hok.
  spc_cases p; simpl in Ha; try discriminate Ha; injection Ha as <-;
    try (by eapply cas_move); simpl in He; try discriminate He; injection He as <- <-;
    rewrite ?Hw; try (exists x; by apply load_move); exists x;
    (split; [(by exists x) || done|]);
    (eapply inv_move_same; [done..| | | | | |]); try done; gset; simpl; try lia;
    try (destruct k; simpl; lia).
Qed.

(** ** Steps *)
Lemma tst_run addr sh p : asleep_pc p = false -> tst addr sh p = Run (code addr sh p).
Proof. by destruct p. Qed.

Lemma at_run addr sh (th : gmap tid (tstate unit)) pcs t q :
  points_at (fun _ => tst addr sh) th pcs -> th !! t = Some (Run q) ->
  exists p, pcs !! t = Some p /\ q = code addr sh p /\ asleep_pc p = false.
Proof.
  intros Hat Ht. destruct (points_lookup _ _ _ _ _ Hat Ht) as (p & Hp & Hq).
  exists p. destruct p; try discriminate Hq; injection Hq as ->; done.
Qed.

Lemma at_sleep addr sh (th : gmap tid (tstate unit)) pcs t l ps timed k :
  points_at (fun _ => tst addr sh) th pcs -> th !! t = Some (Sleep l ps timed k) ->
  exists p, pcs !! t = Some p /\ asleep_pc p = true /\ k = resume (code addr sh p) /\
    l = sem addr /\ ps = sflag sh.
Proof.
  intros Hat Ht. destruct (points_lookup _ _ _ _ _ Hat Ht) as (p & Hp & Hq).
  exists p. destruct p; try discriminate Hq; injection Hq as -> -> -> ->; done.
Qed.

(** A thread moves to the point [p'], the word staying at value [v]. *)
Lemma sinv_insert addr sh init m' th pcs v t p p' :
  points_at (fun _ => tst addr sh) th pcs -> Z.of_nat (size pcs) < INT_MAX ->
  pcs !! t = Some p ->
  cinv addr sh init m' (<[t := p']> pcs) v -> wake_ok (<[t := p']> pcs) v ->
  sinv addr sh init (Sys m' (<[t := tst addr sh p']> th)).
Proof.
  intros Hat Hsz Hp Hc Hk. exists (<[t := p']> pcs), v. split_and!; try done.
  - by apply (points_insert (fun _ => tst addr sh)).
  - rewrite map_size_insert_Some; done.
Qed.

Lemma next_awake p w : asleep_pc (pc_next p w) = false.
Proof.
  spc_cases p; simpl; try done; repeat case_test; try done;
    try (destruct (new_value _ _)); try done; destruct c; simpl; repeat case_test; try done;
    destruct abs; simpl; repeat case_test; done.
Qed.

(** The answers other than that of a read lead to the next point. *)
Lemma sinv_resume addr sh init m' th pcs v t p w :
  points_at (fun _ => tst addr sh) th pcs -> Z.of_nat (size pcs) < INT_MAX ->
  pcs !! t = Some p -> pc_act addr sh p <> None -> pc_ok p ->
  exec_result addr sh init pcs t p w m' v ->
  sinv addr sh init (Sys m' (<[t := Run (resume (code addr sh p) w)]> th)).
Proof.
  intros Hat Hsz Hp Ha Hok (Hg & Hc & Hk).
  rewrite scode_resume, <- tst_run by (done || apply next_awake).
  by eapply sinv_insert.
Qed.

Definition wk (p : pc) : pc :=
  match p with PWaitSleep ops => PWaitLoop ops | PTimSleep a _ ops => PTimLoop a ops | p => p end.

Lemma wake_tst addr sh p : wake1 (tst addr sh p) = tst addr sh (wk p).
Proof. by destruct p. Qed.

(** FUTEX_WAKE leaves the counts alone. *)
Lemma cinv_wk addr sh init m pcs v w :
  cinv addr sh init m pcs v -> cinv addr sh init m (alter wk w pcs) v.
Proof.
  intros Hc. destruct (pcs !! w) as [p|] eqn:E; [|by rewrite alter_id; [|congruence]].
  replace (alter wk w pcs) with (<[w := wk p]> pcs).
  2: { apply map_eq. intros i. rewrite lookup_alter, lookup_insert. case_decide; [subst; by rewrite E|done]. }
  pose proof (ci_ok _ _ _ _ _ _ Hc _ _ E). pose proof (ci_word _ _ _ _ _ _ Hc).
  pose proof (ci_val _ _ _ _ _ _ Hc).
  eapply cinv_move; eauto; [by destruct p| |]; destruct p; simpl; lia.
Qed.

Definition wk_all (ws : list tid) (pcs : gmap tid pc) : gmap tid pc :=
  foldr (fun w (m : gmap tid pc) => alter wk w m) pcs ws.

Lemma cinv_wk_all addr sh init m pcs v ws :
  cinv addr sh init m pcs v -> cinv addr sh init m (wk_all ws pcs) v.
Proof. intros Hc. induction ws; simpl; [done|by apply cinv_wk]. Qed.

Lemma lookup_wk_all ws pcs t :
  wk_all ws pcs !! t = if decide (t ∈ ws) then wk <$> pcs !! t else pcs !! t.
Proof.
  induction ws as [|w ws IH]; simpl.
  - destruct (decide (t ∈ [])); [set_solver|done].
  - rewrite lookup_alter. destruct (decide (w = t)) as [->|Hne].
    + rewrite IH. destruct (decide (t ∈ t :: ws)); [|set_solver].
      destruct (decide (t ∈ ws)); [|done]. destruct (pcs !! t) as [[]|]; done.
    + rewrite IH. destruct (decide (t ∈ ws)), (decide (t ∈ w :: ws)); set_solver.
Qed.

Lemma size_wk_all ws pcs : size (wk_all ws pcs) = size pcs.
Proof.
  rewrite <- !size_dom. f_equal. apply set_eq. intros t. rewrite !elem_of_dom, lookup_wk_all.
  case_decide; [by rewrite fmap_is_Some|done].
Qed.

(** The sleepers a FUTEX_WAKE of INT_MAX threads leaves asleep: none. *)
Lemma woken_all addr sh (th : gmap tid (tstate unit)) pcs ws t p :
  points_at (fun _ => tst addr sh) th pcs -> Z.of_nat (size pcs) < INT_MAX ->
  woken (sem addr) (sflag sh) INT_MAX th ws ->
  pcs !! t = Some p -> asleep_pc p = true -> t ∈ ws.
Proof.
  intros Hat Hsz (Hnd & Hin & Hlen & Hall) Hp Ha.
  eapply (Hall _ t (tst addr sh p)); [by rewrite Hat, Hp|by destruct p].
  Unshelve.
  assert (length ws <= size pcs)%nat; [|lia].
  rewrite <- (size_dom (D := gset tid) pcs), <- (size_list_to_set (C := gset tid) ws) by done.
  apply subseteq_size. intros w Hw. rewrite elem_of_list_to_set in Hw.
  destruct (Hin w Hw) as (ts & Hw' & _). rewrite Hat in Hw'. apply elem_of_dom.
  by destruct (pcs !! w).
Qed.

(** A thread moves between points of the same weights, memory untouched. *)
Lemma quiet_move addr sh init m th pcs v t p p' :
  points_at (fun _ => tst addr sh) th pcs -> Z.of_nat (size pcs) < INT_MAX ->
  cinv addr sh init m pcs v -> wake_ok pcs v -> pcs !! t = Some p ->
  pc_ok p' -> waking p = false -> (asleep_pc p' = true -> v = -1) ->
  got p' = got p -> posted p' = posted p -> inflight p' = inflight p ->
  sinv addr sh init (Sys m (<[t := tst addr sh p']> th)).
Proof.
  intros Hat Hsz Hc Hk Hp Hok Hw Ha Hg Hpo Hi.
  destruct (inv_move_same addr sh init m m pcs v t p p') as [Hc' Hk']; try done; [lia..|].
  by eapply sinv_insert.
Qed.

(** A thread whose futex wait answered [w]. *)
Lemma wait_move addr sh init m th pcs x t p w l ps val to :
  points_at (fun _ => tst addr sh) th pcs -> Z.of_nat (size pcs) < INT_MAX ->
  cinv addr sh init m pcs x -> wake_ok pcs x -> pcs !! t = Some p ->
  pc_act addr sh p = Some (AFutexWait l ps val to) ->
  sinv addr sh init (Sys m (<[t := Run (resume (code addr sh p) w)]> th)).
Proof.
  intros Hat Hsz Hc Hk Hp Ha.
  assert (Hok : pc_ok p) by apply (ci_ok _ _ _ _ _ _ Hc _ _ Hp).
  rewrite scode_resume; [|congruence|unfold good_answer; by rewrite Ha|done].
  rewrite <- tst_run by apply next_awake.
  eapply (quiet_move _ _ _ _ _ _ x); [done..| | | | | |];
    try (rewrite next_awake; done); spc_cases p; simpl in Ha |- *; try discriminate Ha; try done;
    case_test; done.
Qed.

Lemma wake_step addr sh init m th pcs v t ops n ws :
  points_at (fun _ => tst addr sh) th pcs -> Z.of_nat (size pcs) < INT_MAX ->
  cinv addr sh init m pcs v -> pcs !! t = Some (PPostWake ops) ->
  woken (sem addr) (sflag sh) INT_MAX th ws ->
  sinv addr sh init (Sys m (wake_all ws (<[t := Run (resume (code addr sh (PPostWake ops)) n)]> th))).
Proof.
  intros Hat Hsz Hc Hp Hw.
  rewrite scode_resume by done. rewrite <- tst_run by done.
  pose proof (ci_word _ _ _ _ _ _ Hc). pose proof (ci_val _ _ _ _ _ _ Hc).
  exists (wk_all ws (<[t := PPostDone ops]> pcs)), v. split_and!.
  - apply (points_wake (fun _ => tst addr sh)); [intros _; apply wake_tst|].
    by apply (points_insert (fun _ => tst addr sh)).
  - apply cinv_wk_all. eapply cinv_move; eauto; simpl; lia.
  - intros (u & q & Hu & Hq). exfalso. rewrite lookup_wk_all in Hu. case_decide as Hd.
    + destruct (<[t := PPostDone ops]> pcs !! u) as [p|]; [|done].
      injection Hu as <-. by destruct p.
    + apply lookup_insert_Some in Hu as [[_ <-]|[Hne Hu]]; [done|].
      apply Hd. by eapply woken_all.
  - rewrite size_wk_all, map_size_insert_Some; done.
Qed.

Lemma sinv_step addr sh init s s' : sinv addr sh init s -> step s s' -> sinv addr sh init s'.
Proof.
  intros (pcs & x & Hat & Hc & Hk & Hsz) Hst.
  destruct Hst as [m th t q act w m' Ht Hh He|m th t q cl w Ht Hh Hv|m th t q q' Ht Hu
    |m th t q l ps val to Ht Hh Hv|m th t q l ps val to Ht Hh Hv
    |m th t l ps timed kk Ht|m th t l ps kk Ht|m th t q l ps n ws Ht Hh Hw]; simpl in *.
  - destruct (at_run _ _ _ _ _ _ Hat Ht) as (p & Hp & -> & Ha). rewrite scode_head in Hh.
    destruct (sexec_move _ _ _ _ _ _ _ _ _ _ _ Hc Hk Hp Hh He) as (x' & Hr).
    eapply sinv_resume; eauto; [congruence|]. apply (ci_ok _ _ _ _ _ _ Hc _ _ Hp).
  - destruct (at_run _ _ _ _ _ _ Hat Ht) as (p & Hp & -> & Ha). rewrite scode_head in Hh.
    spc_cases p; simpl in Hh; try discriminate Hh.
    rewrite scode_resume, <- tst_run by (done || apply next_awake).
    eapply quiet_move; eauto; rewrite ?next_awake; try done; simpl; case_test; done.
  - destruct (at_run _ _ _ _ _ _ Hat Ht) as (p & Hp & -> & Ha). rewrite scode_unroll in Hu.
    assert (Hok : pc_ok p) by apply (ci_ok _ _ _ _ _ _ Hc _ _ Hp).
    spc_cases p; try discriminate Hu; apply (inj Some) in Hu; rewrite <- Hu;
      rewrite <- tst_run by done; eapply quiet_move; eauto; by try destruct k.
  - destruct (at_run _ _ _ _ _ _ Hat Ht) as (p & Hp & -> & Ha). rewrite scode_head in Hh.
    spc_cases p; simpl in Hh; try discriminate Hh; try discriminate Ha; injection Hh as <- <- <- <-;
      rewrite (ci_word _ _ _ _ _ _ Hc) in Hv; apply sword_inj in Hv.
    + eapply (quiet_move _ _ _ _ _ _ _ _ _ (PWaitSleep ops)); eauto; done.
    + eapply (quiet_move _ _ _ _ _ _ _ _ _ (PTimSleep a ts ops)); eauto; done.
  - destruct (at_run _ _ _ _ _ _ Hat Ht) as (p & Hp & -> & Ha). rewrite scode_head in Hh.
    by eapply wait_move.
  - destruct (at_sleep _ _ _ _ _ _ _ _ _ Hat Ht) as (p & Hp & Ha & -> & -> & ->).
    destruct p; try discriminate Ha; by eapply wait_move.
  - destruct (at_sleep _ _ _ _ _ _ _ _ _ Hat Ht) as (p & Hp & Ha & -> & -> & ->).
    destruct p; try discriminate Ha; by eapply wait_move.
  - destruct (at_run _ _ _ _ _ _ Hat Ht) as (p & Hp & -> & Ha). rewrite scode_head in Hh.
    spc_cases p; simpl in Hh; try discriminate Hh; injection Hh as <- <- <-.
    by eapply wake_step.
Qed.

(** ** Systems of clients *)

(** A semaphore of initial value [init], the counters at 0, and every thread at
    the start of its operations. *)
Definition sem_sys addr sh (init : Z) (m : mem) (scripts : gmap tid (list sop)) : sys unit :=
  Sys (mset (mset (mset (mset m BEGUN 0) DONE 0) ACQ 0) (sem addr) (sword sh init))
      ((fun ops => Run (client addr ops)) <$> scripts).

Lemma sem_sys_inv addr sh init m scripts :
  0 <= init <= SEM_MAX_VALUE -> Z.of_nat (size scripts) < INT_MAX ->
  sinv addr sh init (sem_sys addr sh init m scripts).
Proof.
  intros Hi Hsz. exists (PStart <$> scripts), init.
  assert (Hz : forall f, (forall ops, f (PStart ops) = 0) -> msum f (PStart <$> scripts) = 0).
  { intros f Hf. apply msum_zero. intros i p. rewrite lookup_fmap.
    destruct (scripts !! i); intros; simplify_eq/=. apply Hf. }
  split_and!.
  - intros t. simpl. rewrite !lookup_fmap. by destruct (scripts !! t).
  - constructor; simpl; rewrite ?Hz by done; gset; try done; try lia.
    + unfold sval_ok. lia.
    + intros t p. rewrite lookup_fmap. destruct (scripts !! t); intros; by simplify_eq/=.
  - intros (t & p & Ht & Ha). rewrite lookup_fmap in Ht.
    destruct (scripts !! t); simplify_eq/=.
  - by rewrite map_size_fmap.
Qed.

Lemma reachable_sinv addr sh init m scripts s :
  0 <= init <= SEM_MAX_VALUE -> Z.of_nat (size scripts) < INT_MAX ->
  reachable (sem_sys addr sh init m scripts) s -> sinv addr sh init s.
Proof.
  intros Hi Hsz. apply reachable_inv; [by apply sem_sys_inv|]. intros a b. apply sinv_step.
Qed.

Lemma posted_inflight p : posted p <= inflight p.
Proof. destruct p as [| |[]|[]|[]|[]| | | | | | | | | | |]; done. Qed.
Lemma finished_pc addr sh p : finished (tst addr sh p) = true -> p = PStart [].
Proof.
  intros Hf.
  assert (H : head (code addr sh p) = None /\ unroll (code addr sh p) = None)
    by (destruct p; try discriminate Hf; unfold tst in Hf; destruct (code addr sh _); done).
  rewrite scode_head, scode_unroll in H. destruct H as [H1 H2]. spc_cases p; done.
Qed.
Lemma asleep_tst addr sh p : asleep (tst addr sh p) = asleep_pc p.
Proof. by destruct p. Qed.

(** The number of times an event counter was raised. *)
Definition counted_events (l : loc) (s : sys unit) : Z := mget (smem s) l.

(** C5.  A semaphore never gives out more than it has: in every state that any
    interleaving of sem_wait, sem_trywait, sem_timedwait and sem_post can reach,
    with signals and timeouts, the acquisitions that succeeded are at most the
    initial value plus the posts that have begun. *)
Theorem semaphore_safety addr sh init m scripts s :
  0 <= init <= SEM_MAX_VALUE -> Z.of_nat (size scripts) < INT_MAX ->
  reachable (sem_sys addr sh init m scripts) s ->
  counted_events ACQ s <= init + counted_events BEGUN s.
Proof.
  intros Hi Hsz Hr. apply reachable_sinv in Hr as (pcs & v & _ & [Hw Hv Hc Hb _] & _); [|done..].
  assert (0 <= msum got pcs) by (apply msum_nonneg; by intros []).
  pose proof (msum_le _ _ pcs posted_inflight). unfold counted_events. lia.
Qed.

(** No token is lost or made up: when every thread has finished, the value
    of the semaphore is exactly the initial value plus the successful posts
    minus the acquisitions. *)
Theorem semaphore_conservation addr sh init m scripts s :
  0 <= init <= SEM_MAX_VALUE -> Z.of_nat (size scripts) < INT_MAX ->
  reachable (sem_sys addr sh init m scripts) s ->
  (forall t ts, sthreads s !! t = Some ts -> finished ts = true) ->
  exists v, mget (smem s) (sem addr) = sword sh v /\ -1 <= v <= SEM_MAX_VALUE /\
    Z.max 0 v = init + counted_events DONE s - counted_events ACQ s.
Proof.
  intros Hi Hsz Hr Hf.
  apply reachable_sinv in Hr as (pcs & v & Hat & [Hw Hv Hc Hb _] & _); [|done..].
  assert (Hz : forall f, f (PStart []) = 0 -> msum f pcs = 0).
  { intros f Hf0. apply msum_zero. intros t p Hp.
    rewrite (finished_pc addr sh p); [done|]. apply (Hf t). by rewrite Hat, Hp. }
  rewrite !Hz in Hc by done. exists v. unfold counted_events. split_and!; [done|apply Hv..|lia].
Qed.

(** C18.  No lost wake-up: whenever a thread sleeps on the semaphore while its
    word is not in the contended state, some running thread's very next action
    is the FUTEX_WAKE, of every sleeper, of a sem_post. *)
Theorem semaphore_no_lost_wakeup addr sh init m scripts s t ts :
  0 <= init <= SEM_MAX_VALUE -> Z.of_nat (size scripts) < INT_MAX ->
  reachable (sem_sys addr sh init m scripts) s ->
  sthreads s !! t = Some ts -> asleep ts = true ->
  mget (smem s) (sem addr) <> sword sh (-1) ->
  exists u q, sthreads s !! u = Some (Run q) /\
    next_action q = Some (AFutexWake (sem addr) (sflag sh) INT_MAX).
Proof.
  intros Hi Hsz Hr Ht Ha Hne.
  apply reachable_sinv in Hr as (pcs & v & Hat & Hc & Hk & _); [|done..].
  destruct (points_lookup _ _ _ _ _ Hat Ht) as (p & Hp & ->). rewrite asleep_tst in Ha.
  destruct Hk as [->|(u & q & Hu & Hq)]; [eauto|by rewrite (ci_word _ _ _ _ _ _ Hc) in Hne|].
  destruct q; try discriminate Hq. exists u. eexists. by rewrite Hat, Hu.
Qed.

Lemma swake_counts addr sh p l ps n : head (code addr sh p) = Some (AFutexWake l ps n) -> 0 <= n.
Proof.
  rewrite scode_head. spc_cases p; simpl; intros; simplify_eq; done.
Qed.

(** C19.  Deadlock freedom: a reachable state in which no running thread can
    take a step has only finished threads and threads that sleep in sem_wait or
    sem_timedwait, and if one sleeps then every token was taken: the acquisitions
    are exactly the initial value plus the successful posts. *)
Theorem semaphore_progress addr sh init m scripts s :
  0 <= init <= SEM_MAX_VALUE -> Z.of_nat (size scripts) < INT_MAX ->
  reachable (sem_sys addr sh init m scripts) s ->
  (exists t s', sched1 s t = Some s' /\ step s s') \/
  ((forall t ts, sthreads s !! t = Some ts -> finished ts = true \/ asleep ts = true) /\
   ((exists t ts, sthreads s !! t = Some ts /\ asleep ts = true) ->
    counted_events ACQ s = init + counted_events DONE s)).
Proof.
  intros Hi Hsz Hr.
  apply reachable_sinv in Hr as (pcs & v & Hat & Hc & Hk & _); [|done..].
  destruct (decide (map_Forall (fun t p => finished (tst addr sh p) = true \/ asleep_pc p = true) pcs)) as [Hall|Hex].
  - right. split.
    + intros t ts Ht. destruct (points_lookup _ _ _ _ _ Hat Ht) as (p & Hp & ->).
      rewrite asleep_tst. by apply (Hall t).
    + intros (t & ts & Ht & Ha). destruct (points_lookup _ _ _ _ _ Hat Ht) as (p & Hp & ->).
      rewrite asleep_tst in Ha. destruct Hc as [Hw Hv Hc Hb Hok].
      assert (Hz : forall f, f (PStart []) = 0 -> (forall q, asleep_pc q = true -> f q = 0) -> msum f pcs = 0).
      { intros f Hf0 Hfs. apply msum_zero. intros u q Hq.
        destruct (Hall u q Hq) as [E%finished_pc|E]; [by subst|by apply Hfs]. }
      rewrite !Hz in Hc by (done || by intros []).
      destruct Hk as [->|(u & q & Hu & Hq)]; [eauto|unfold counted_events; lia|].
      destruct q; try discriminate Hq. by destruct (Hall u _ Hu).
  - left. apply map_not_Forall in Hex as (t & p & Hp & Hf); [|apply _].
    assert (Ha : asleep_pc p = false) by (apply not_true_is_false; tauto).
    rewrite tst_run in Hf by done.
    destruct (running_steps s t (code addr sh p)) as [s' Hs'].
    + rewrite Hat, Hp. simpl. by rewrite tst_run.
    + apply not_true_is_false. tauto.
    + intros l ps n. apply swake_counts.
    + exists t, s'. eauto using sched1_step.
Qed.

(** ** One call at a time *)
Section Calls.
Context (now : Z) (addr : positive) (sh : bool).

Lemma runs_loadu m v {A} (k : Z -> prog A) b m' :
  mget m (sem addr) = sword sh v ->
  runs now m (k (u32 (sword sh v))) b m' -> runs now m (bind (loadu (sem addr)) k) b m'.
Proof. intros Hw H. eapply runs_exec; [reflexivity|]. rewrite Hw. done. Qed.

(** A loop function run alone returns at its first round. *)
Lemma runs_fn m v k :
  mget m (sem addr) = sword sh v -> sval_ok v ->
  runs now m (fn_of addr k) v
    (match new_value k v with Some v' => mset m (sem addr) (sword sh v') | None => m end).
Proof.
  intros Hw Hv.
  assert (Hr : runs now m (Act (ALoad (sem addr)) (fun c =>
      bind (bind (round_of addr k (sflag sh) (u32 c)) (fun r => Ret (match r with Some b => inr b | None => inl tt end)))
        (fun r => match r with inl x' => Loop (fun _ : unit => r <- (c <- loadu (sem addr) ;; round_of addr k (sflag sh) c) ;; Ret (match r with Some b => inr b | None => inl tt end)) x' Ret | inr b => Ret b end)))
     v (match new_value k v with Some v' => mset m (sem addr) (sword sh v') | None => m end)).
  { eapply runs_exec; [reflexivity|]. rewrite Hw, round_value by done.
    destruct (new_value k v) as [v'|]; [|apply runs_ret].
    eapply runs_exec; [simpl; by rewrite Hw, Z.eqb_refl|]. apply runs_ret. }
  assert (Hfl : Z.land (u32 (mget m (sem addr))) SEMCOUNT_SHARED_MASK = sflag sh) by (rewrite Hw; apply sword_flag).
  destruct k; (eapply runs_exec; [reflexivity|]); apply runs_loop; cbn -[u32 Z.land Z.lor mget sword sflag];
    rewrite Hfl; exact Hr.
Qed.

Lemma runs_sem_init m pshared value :
  0 <= value <= SEM_MAX_VALUE ->
  exists m', runs now m (sem_init (sem addr) pshared value) ok0 m' /\
    mget m' (sem addr) = sword (negb (pshared =? 0)) value.
Proof.
  intros Hv. unfold sem_init. change (sem addr =? 0) with false. cbv iota.
  rewrite (proj2 (Z.ltb_ge _ _)) by lia.
  assert (Hs : s32 (SEMCOUNT_FROM_VALUE value) = sword false value).
  { rewrite from_value by done. rewrite <- (s32_sword value false) by (unfold sval_ok; lia).
    by rewrite lor_flag, Z.add_0_r. }
  destruct (pshared =? 0); simpl negb; cbv iota.
  - eexists. split; [eapply runs_exec; [reflexivity|]; apply runs_ret|].
    by rewrite mget_set_eq.
  - eexists. split.
    + eapply runs_exec; [reflexivity|]. eapply runs_exec; [reflexivity|].
      eapply runs_exec; [reflexivity|]. apply runs_ret.
    + rewrite !mget_set_eq, Hs. change SEMCOUNT_SHARED_MASK with (sflag true).
      replace (u32 (sword false value)) with (u32 (2 * value)) by (unfold sword; f_equal; lia).
      apply s32_sword. unfold sval_ok. lia.
Qed.
End Calls.

(** The calls on a semaphore of value [v] (negative: contended), one at a
    time, on every branch: sem_trywait takes a token or fails with EAGAIN;
    sem_post adds one, resetting a contended semaphore to 1, or fails with
    EOVERFLOW at SEM_MAX_VALUE; sem_getvalue stores the value, 0 for a contended
    one; sem_destroy clears the word, or fails with EBUSY when contended; and
    sem_init stores a word from which sem_getvalue reads the initial value
    back. *)
Theorem semaphore_calls now addr sh m v sval pshared value :
  mget m (sem addr) = sword sh v -> -1 <= v <= SEM_MAX_VALUE ->
  0 < sval -> sval <> sem addr -> 0 <= value <= SEM_MAX_VALUE ->
  runs now m (sem_trywait (sem addr)) (if 0 <? v then ok0 else fail_with EAGAIN)
    (if 0 <? v then mset m (sem addr) (sword sh (v - 1)) else m) /\
  runs now m (sem_post (sem addr)) (if v =? SEM_MAX_VALUE then fail_with EOVERFLOW else ok0)
    (if v =? SEM_MAX_VALUE then m else mset m (sem addr) (sword sh (if v <? 0 then 1 else v + 1))) /\
  runs now m (sem_getvalue (sem addr) sval) ok0 (mset m sval (Z.max 0 v)) /\
  runs now m (sem_destroy (sem addr)) (if v <? 0 then fail_with EBUSY else ok0)
    (if v <? 0 then m else mset m (sem addr) 0) /\
  (exists m1 m2, runs now m (sem_init (sem addr) pshared value) ok0 m1 /\
     runs now m1 (sem_getvalue (sem addr) sval) ok0 m2 /\ mget m2 sval = value).
Proof.
  intros Hw Hv Hsv Hne Hval.
  assert (Hget : forall sh m v, mget m (sem addr) = sword sh v -> sval_ok v ->
     runs now m (sem_getvalue (sem addr) sval) ok0 (mset m sval (Z.max 0 v))).
  { intros sh' m0 v0 Hw0 Hv0. unfold sem_getvalue. change (sem addr =? 0) with false. simpl orb.
    rewrite (proj2 (Z.eqb_neq _ _)) by lia. eapply runs_loadu; [done|].
    rewrite value_of_word by done. eapply runs_exec; [reflexivity|].
    rewrite s32_id by (unfold is_s32, sval_ok, SEM_MAX_VALUE in *; case_test; zbool; lia).
    replace (Z.max 0 v0) with (if v0 <? 0 then 0 else v0) by (case_test; zbool; lia). apply runs_ret. }
  split_and!.
  - unfold sem_trywait. change (sem addr =? 0) with false. cbv iota.
    eapply runs_bind; [apply (runs_fn now addr sh m v KTryDec); done|]. simpl new_value.
    destruct (0 <? v) eqn:E, (v <=? 0) eqn:E2; zbool; try lia; apply runs_ret.
  - unfold sem_post. change (sem addr =? 0) with false. cbv iota.
    eapply runs_loadu; [done|].
    eapply runs_bind; [apply (runs_fn now addr sh m v KInc); done|]. simpl new_value.
    destruct (v =? SEM_MAX_VALUE) eqn:E.
    + zbool. subst v. apply runs_ret.
    + destruct (v <? 0); [|apply runs_ret]. apply runs_wake, runs_ret.
  - by apply (Hget sh).
  - unfold sem_destroy. change (sem addr =? 0) with false. cbv iota.
    eapply runs_loadu; [done|]. rewrite value_of_word by done.
    destruct (v <? 0); [apply runs_ret|]. eapply runs_exec; [reflexivity|]. apply runs_ret.
  - destruct (runs_sem_init now addr m pshared value Hval) as (m1 & H1 & Hw1).
    exists m1. eexists. split; [done|]. split; [apply (Hget _ _ _ Hw1); unfold sval_ok; lia|].
    rewrite mget_set_eq. lia.
Qed.

(** A waiter and a poster on a process-shared semaphore of value 0. *)
Definition sem_demo_init : sys unit :=
  sem_sys 1 true 0 ∅ (<[1 := [SWait]]> (<[2 := [SPost]]> ∅)).
Definition sem_demo_at (ts : list tid) : sys unit := default sem_demo_init (sched sem_demo_init ts).
Definition sem_demo_runs (ts : list tid) : bool :=
  match sched sem_demo_init ts with Some _ => true | None => false end.
Lemma sem_demo_reachable ts :
  sem_demo_runs ts = true -> reachable sem_demo_init (sem_demo_at ts).
Proof.
  unfold sem_demo_runs, sem_demo_at. destruct (sched sem_demo_init ts) as [s|] eqn:E; [|done].
  intros _. by eapply sched_reachable.
Qed.

(** Thread 1 sleeps; then thread 2 has stored the new value and not yet called
    FUTEX_WAKE; then both have finished. *)
Definition blocked_trace : list tid := replicate 7 1.
Definition posted_trace : list tid := blocked_trace ++ replicate 6 2.
Definition done_trace : list tid := posted_trace ++ [2; 2] ++ replicate 6 1.

Definition all_finished (s : sys unit) : bool :=
  forallb (fun kt => finished (snd kt)) (map_to_list (sthreads s)).
Lemma all_finished_spec s :
  all_finished s = true -> forall t ts, sthreads s !! t = Some ts -> finished ts = true.
Proof.
  unfold all_finished. rewrite forallb_forall. intros H t ts Ht.
  apply (H (t, ts)), list_elem_of_In, elem_of_map_to_list, Ht.
Qed.

Lemma semaphore_safety_witness :
  counted_events ACQ (sem_demo_at done_trace) = 1 /\
  counted_events ACQ (sem_demo_at done_trace) <= 0 + counted_events BEGUN (sem_demo_at done_trace).
Proof.
  split; [vm_compute; reflexivity|].
  apply (semaphore_safety 1 true 0 ∅ (<[1 := [SWait]]> (<[2 := [SPost]]> ∅)));
    [unfold SEM_MAX_VALUE; lia|vm_compute; reflexivity|].
  apply sem_demo_reachable. vm_compute. reflexivity.
Defined.

Lemma semaphore_conservation_witness :
  exists v, mget (smem (sem_demo_at done_trace)) (sem 1) = sword true v /\ -1 <= v <= SEM_MAX_VALUE /\
    Z.max 0 v = 0 + counted_events DONE (sem_demo_at done_trace) - counted_events ACQ (sem_demo_at done_trace).
Proof.
  apply (semaphore_conservation 1 true 0 ∅ (<[1 := [SWait]]> (<[2 := [SPost]]> ∅)));
    [unfold SEM_MAX_VALUE; lia|vm_compute; reflexivity| |].
  - apply sem_demo_reachable. vm_compute. reflexivity.
  - apply all_finished_spec. vm_compute. reflexivity.
Defined.

Lemma semaphore_no_lost_wakeup_witness :
  exists u q, sthreads (sem_demo_at posted_trace) !! u = Some (Run q) /\
    next_action q = Some (AFutexWake (sem 1) (sflag true) INT_MAX).
Proof.
  assert (H : thread_is asleep (sem_demo_at posted_trace) 1 = true) by (vm_compute; reflexivity).
  apply thread_is_Some in H as (ts & Ht & Hs).
  assert (Hw : mget (smem (sem_demo_at posted_trace)) (sem 1) = sword true 1) by (vm_compute; reflexivity).
  apply (semaphore_no_lost_wakeup 1 true 0 ∅ (<[1 := [SWait]]> (<[2 := [SPost]]> ∅)) _ 1 ts);
    [unfold SEM_MAX_VALUE; lia|vm_compute; reflexivity| |exact Ht|exact Hs|].
  - apply sem_demo_reachable. vm_compute. reflexivity.
  - rewrite Hw. discriminate.
Defined.

Lemma semaphore_progress_witness :
  (exists t s', sched1 (sem_demo_at blocked_trace) t = Some s' /\ step (sem_demo_at blocked_trace) s') \/
  ((forall t ts, sthreads (sem_demo_at blocked_trace) !! t = Some ts -> finished ts = true \/ asleep ts = true) /\
   ((exists t ts, sthreads (sem_demo_at blocked_trace) !! t = Some ts /\ asleep ts = true) ->
    counted_events ACQ (sem_demo_at blocked_trace) = 0 + counted_events DONE (sem_demo_at blocked_trace))).
Proof.
  apply (semaphore_progress 1 true 0 ∅ (<[1 := [SWait]]> (<[2 := [SPost]]> ∅)));
    [unfold SEM_MAX_VALUE; lia|vm_compute; reflexivity|].
  apply sem_demo_reachable. vm_compute. reflexivity.
Defined.

Lemma semaphore_calls_witness :
  runs 0 (mset ∅ (sem 5) (sword true 3)) (sem_trywait (sem 5)) ok0
    (mset (mset ∅ (sem 5) (sword true 3)) (sem 5) (sword true 2)).
Proof.
  apply (semaphore_calls 0 5 true (mset ∅ (sem 5) (sword true 3)) 3 9 1 7);
    [apply mget_set_eq|unfold SEM_MAX_VALUE; lia|lia|discriminate|unfold SEM_MAX_VALUE; lia].
Defined.
