(* ===== verification/CondCode.v ===== *)
(** * Condition variables (libc/bionic/pthread.c)

    The pthread_condattr_* and pthread_cond_* functions as programs.  A
    condition variable is one word: bit 0 is the process-shared flag, the rest a
    counter that every signal and broadcast changes, so that a waiter that
    read the counter before it released the mutex does not sleep through a
    signal sent since. *)
From S2P Require Import Prelude Concur MutexCode Semaphore.

Definition pthread_condattr_init (attr : loc) : prog Z :=
  if attr =? 0 then Ret EINVAL else store attr PTHREAD_PROCESS_PRIVATE ;;; Ret 0.

Definition pthread_condattr_getpshared (attr pshared : loc) : prog Z :=
  if (attr =? 0) || (pshared =? 0) then Ret EINVAL
  else a <- load attr ;; store pshared a ;;; Ret 0.

Definition pthread_condattr_setpshared (attr : loc) (pshared : Z) : prog Z :=
  if attr =? 0 then Ret EINVAL
  else if negb (pshared =? PTHREAD_PROCESS_SHARED) && negb (pshared =? PTHREAD_PROCESS_PRIVATE)
  then Ret EINVAL
  else store attr pshared ;;; Ret 0.

Definition pthread_condattr_destroy (attr : loc) : prog Z :=
  if attr =? 0 then Ret EINVAL else store attr 0xdeada11d ;;; Ret 0.

Definition COND_SHARED_MASK : Z := 0x0001.
Definition COND_COUNTER_INCREMENT : Z := 0x0002.
Definition COND_COUNTER_MASK : Z := Z.lnot COND_SHARED_MASK.
Definition COND_IS_SHARED (value : Z) : Z :=
  if negb (Z.land value COND_SHARED_MASK =? 0) then 1 else 0.

Definition pthread_cond_init (cond attr : loc) : prog Z :=
  if cond =? 0 then Ret EINVAL
  else
    store cond 0 ;;;
    shared <- (if negb (attr =? 0)
               then a <- load attr ;; Ret (a =? PTHREAD_PROCESS_SHARED) else Ret false) ;;
    (if shared : bool
     then v <- load cond ;; store cond (Z.lor v COND_SHARED_MASK) ;;; Ret tt
     else Ret tt) ;;;
    Ret 0.

Definition pthread_cond_destroy (cond : loc) : prog Z :=
  if cond =? 0 then Ret EINVAL else store cond 0xdeadc04d ;;; Ret 0.

(** The new value of a pulse. *)
Definition pulsed (oldval flags : Z) : Z :=
  Z.lor (Z.land (s32 (oldval - COND_COUNTER_INCREMENT)) COND_COUNTER_MASK) flags.

Definition __pthread_cond_pulse (cond : loc) (counter : Z) : prog Z :=
  if cond =? 0 then Ret EINVAL
  else
    v <- load cond ;;
    let flags := Z.land v (Z.lnot COND_COUNTER_MASK) in
    forever (
      oldval <- load cond ;;
      x <- __atomic_cmpxchg oldval (pulsed oldval flags) cond ;;
      Ret (if x =? 0 then Some tt else None)) ;;;
    v <- load cond ;;
    __futex_wake_ex cond (COND_IS_SHARED v) counter ;;;
    Ret 0.

Definition pthread_cond_broadcast (cond : loc) : prog Z := __pthread_cond_pulse cond INT_MAX.
Definition pthread_cond_signal (cond : loc) : prog Z := __pthread_cond_pulse cond 1.

(** The part of a wait after the mutex was released. *)
Definition cond_sleep (tid : Z) (cond mutex : loc) (oldvalue : Z)
    (reltime : option timespec) : prog Z :=
  v <- load cond ;;
  status <- __futex_wait_ex cond (COND_IS_SHARED v) oldvalue reltime ;;
  pthread_mutex_lock tid mutex ;;;
  Ret (if status =? - ETIMEDOUT then ETIMEDOUT else 0).

Definition __pthread_cond_timedwait_relative (tid : Z) (cond mutex : loc)
    (reltime : option timespec) : prog Z :=
  oldvalue <- load cond ;;
  pthread_mutex_unlock tid mutex ;;;
  cond_sleep tid cond mutex oldvalue reltime.

Definition __pthread_cond_timedwait (tid : Z) (cond mutex : loc)
    (abstime : option timespec) (clock : Z) : prog Z :=
  match abstime with
  | Some abstime =>
      r <- __timespec_to_absolute abstime clock ;;
      if fst r <? 0 then Ret ETIMEDOUT
      else __pthread_cond_timedwait_relative tid cond mutex (Some (snd r))
  | None => __pthread_cond_timedwait_relative tid cond mutex None
  end.

Definition pthread_cond_timedwait (tid : Z) (cond mutex : loc) (abstime : option timespec) : prog Z :=
  __pthread_cond_timedwait tid cond mutex abstime CLOCK_REALTIME.

Definition pthread_cond_wait (tid : Z) (cond mutex : loc) : prog Z :=
  pthread_cond_timedwait tid cond mutex None.

Definition pthread_cond_timedwait_monotonic (tid : Z) (cond mutex : loc)
    (abstime : option timespec) : prog Z :=
  __pthread_cond_timedwait tid cond mutex abstime CLOCK_MONOTONIC.

Definition pthread_cond_timedwait_monotonic_np (tid : Z) (cond mutex : loc)
    (abstime : option timespec) : prog Z :=
  __pthread_cond_timedwait tid cond mutex abstime CLOCK_MONOTONIC.

Definition pthread_cond_timedwait_relative_np (tid : Z) (cond mutex : loc)
    (reltime : option timespec) : prog Z :=
  __pthread_cond_timedwait_relative tid cond mutex reltime.

Definition pthread_cond_timeout_np (tid : Z) (cond mutex : loc) (msecs : Z) : prog Z :=
  __pthread_cond_timedwait_relative tid cond mutex
    (Some (msecs / 1000, msecs mod 1000 * 1000000)).

(** ** The counter *)
Lemma land_split x : Z.lor (Z.land x COND_COUNTER_MASK) (Z.land x COND_SHARED_MASK) = x.
Proof.
  unfold COND_COUNTER_MASK. rewrite <- Z.ldiff_land.
  apply Z.bits_inj'. intros n Hn. rewrite !Z.lor_spec, Z.ldiff_spec, Z.land_spec.
  by destruct (Z.testbit x n), (Z.testbit COND_SHARED_MASK n).
Qed.

Lemma land_flag x : Z.land x COND_SHARED_MASK = x mod 2.
Proof. unfold COND_SHARED_MASK. change 1 with (Z.ones 1). by rewrite Z.land_ones. Qed.

(** A pulse subtracts one from the counter and keeps the flag. *)
Lemma pulsed_word w : pulsed w (Z.land w (Z.lnot COND_COUNTER_MASK)) = s32 (w - 2).
Proof.
  unfold pulsed. change COND_COUNTER_INCREMENT with 2.
  unfold COND_COUNTER_MASK at 2. rewrite Z.lnot_involutive.
  replace (Z.land w COND_SHARED_MASK) with (Z.land (s32 (w - 2)) COND_SHARED_MASK); [apply land_split|].
  rewrite !land_flag. unfold s32. zdm.
Qed.

Lemma runs_pulse now m cond counter :
  cond <> 0 -> is_s32 (mget m cond) ->
  runs now m (__pthread_cond_pulse cond counter) 0 (mset m cond (s32 (mget m cond - 2))).
Proof.
  intros Hc Hw. unfold __pthread_cond_pulse. rewrite (proj2 (Z.eqb_neq _ _)) by done.
  eapply runs_exec; [reflexivity|]. cbv beta zeta. unfold forever. apply runs_loop.
  eapply runs_exec; [reflexivity|].
  eapply runs_exec; [simpl; rewrite s32_id, Z.eqb_refl by done; reflexivity|].
  rewrite pulsed_word, (s32_id (s32 _)) by apply s32_range.
  eapply runs_exec; [reflexivity|]. apply runs_wake, runs_ret.
Qed.

Fixpoint pulses (n : nat) (cond : loc) (counter : Z) : prog Z :=
  match n with O => Ret 0 | S n => __pthread_cond_pulse cond counter ;;; pulses n cond counter end.

Lemma runs_pulses now n m cond counter :
  cond <> 0 -> is_s32 (mget m cond) ->
  exists m', runs now m (pulses n cond counter) 0 m' /\
    mget m' cond = s32 (mget m cond - 2 * Z.of_nat n) /\
    (forall l, l <> cond -> mget m' l = mget m l).
Proof.
  intros Hc. revert m. induction n as [|n IH]; intros m Hw.
  - exists m. split_and!; [apply runs_ret| |done]. rewrite Z.sub_0_r. by rewrite s32_id.
  - destruct (IH (mset m cond (s32 (mget m cond - 2)))) as (m' & Hr & Hv & Ho);
      [rewrite mget_set_eq; apply s32_range|].
    exists m'. split_and!.
    + simpl. eapply runs_bind; [by apply runs_pulse|done].
    + rewrite Hv, mget_set_eq. unfold s32. zdm.
    + intros l Hl. rewrite Ho, mget_set_ne by done. done.
Qed.

(** A normal, private mutex that nobody holds is taken at once. *)
Lemma runs_lock_free now m tid mutex :
  mutex <> 0 -> mget m mutex = 0 ->
  runs now m (pthread_mutex_lock tid mutex) 0 (mset m mutex 1).
Proof.
  intros Hm H0. unfold pthread_mutex_lock. rewrite (proj2 (Z.eqb_neq _ _)) by done.
  eapply runs_exec; [simpl; by rewrite H0|]. simpl.
  eapply runs_exec; [simpl; by rewrite H0|]. simpl.
  unfold _normal_lock. 
  eapply runs_exec; [simpl; by rewrite H0|]. simpl.
  eapply runs_exec; [simpl; by rewrite H0|]. apply runs_ret.
Qed.

(** Run alone, a waiter that has released the mutex does not sleep through a signal:
    after any number of signals or broadcasts between 1 and 2^31 - 1 its
    futex wait returns at once and it takes the mutex again with result 0; with
    no signal it blocks.  After exactly 2^31 signals the counter has come
    round and the waiter blocks although it was signalled. *)
Theorem cond_counter_round now m tid cond mutex counter n reltime :
  cond <> 0 -> mutex <> 0 -> cond <> mutex -> is_s32 (mget m cond) -> mget m mutex = 0 ->
  0 < Z.of_nat n < 2 ^ 31 ->
  (exists m1, runs now m (pulses n cond counter) 0 m1 /\
     runs now m1 (cond_sleep tid cond mutex (mget m cond) reltime) 0 (mset m1 mutex 1)) /\
  (exists f, run f now m (cond_sleep tid cond mutex (mget m cond) reltime) = Blocked cond m) /\
  (exists m2, runs now m (pulses (Z.to_nat (2 ^ 31)) cond counter) 0 m2 /\
     exists f, run f now m2 (cond_sleep tid cond mutex (mget m cond) reltime) = Blocked cond m2).
Proof.
  intros Hc Hm Hne Hw Hfree Hn.
  assert (Hblock : forall m', mget m' cond = mget m cond ->
    exists f, run f now m' (cond_sleep tid cond mutex (mget m cond) reltime) = Blocked cond m').
  { intros m' E. exists 2%nat. simpl. by rewrite s32_id, E, Z.eqb_refl by done. }
  split_and!.
  - destruct (runs_pulses now n m cond counter Hc Hw) as (m1 & Hr & Hv & Ho). exists m1. split; [done|].
    assert (Hdiff : mget m1 cond <> mget m cond) by (rewrite Hv; unfold s32, is_s32 in *; zdm).
    assert (Hlock : runs now m1 (pthread_mutex_lock tid mutex) 0 (mset m1 mutex 1)).
    { apply runs_lock_free; [done|]. by rewrite Ho. }
    destruct Hlock as [f Hf]. exists (S (S (f + 1))). simpl. rewrite s32_id by done.
    rewrite (proj2 (Z.eqb_neq _ _)) by done. 
    apply (run_bind f 1 now m1 _ _ 0 (mset m1 mutex 1)); [exact Hf|reflexivity].
  - by apply Hblock.
  - destruct (runs_pulses now (Z.to_nat (2 ^ 31)) m cond counter Hc Hw) as (m2 & Hr & Hv & _).
    exists m2. split; [exact Hr|]. apply Hblock. rewrite Hv, Z2Nat.id by lia. clear -Hw. unfold s32, is_s32 in *. zdm.
Qed.

Lemma cond_counter_round_witness :
  exists m1, runs 0 (mset ∅ 8 5) (pulses 1 8 1) 0 m1 /\
    runs 0 m1 (cond_sleep 7 8 16 (mget (mset ∅ 8 5) 8) None) 0 (mset m1 16 1).
Proof.
  apply (cond_counter_round 0 (mset ∅ 8 5) 7 8 16 1 1 None);
    [lia|lia|lia|rewrite mget_set_eq; unfold is_s32; lia|reflexivity|lia].
Defined.
