(* ===== verification/CondWait.v ===== *)
(** * Waiting on a condition variable among other threads (libc/bionic/pthread.c)

    A waiter, a signaller and any other threads, interleaved: the waiter does not stay
    asleep through a signal that was sent after it began to wait. *)
From S2P Require Import Prelude Concur MutexCode Semaphore CondCode.

(** ** The steps of one thread *)
Inductive thread_moves {A} (s s' : sys A) (u : tid) : tstate A -> tstate A -> Prop :=
| moves_exec p a v :
    head p = Some a -> exec a (smem s) = Some (v, smem s') -> thread_moves s s' u (Run p) (Run (resume p v))
| moves_clock p c v : head p = Some (AClock c) -> smem s' = smem s -> thread_moves s s' u (Run p) (Run (resume p v))
| moves_loop p p' : unroll p = Some p' -> smem s' = smem s -> thread_moves s s' u (Run p) (Run p')
| moves_sleep p l ps val to :
    head p = Some (AFutexWait l ps val to) -> mget (smem s) l = val -> smem s' = smem s ->
    thread_moves s s' u (Run p) (Sleep l ps (is_timed to) (resume p))
| moves_again p l ps val to v :
    head p = Some (AFutexWait l ps val to) -> smem s' = smem s -> thread_moves s s' u (Run p) (Run (resume p v))
| moves_wake p l ps n ws v :
    head p = Some (AFutexWake l ps n) -> smem s' = smem s -> woken l ps n (sthreads s) ws ->
    (forall w ts, w ∈ ws -> sthreads s !! w = Some ts -> sthreads s' !! w = Some (wake1 ts)) ->
    thread_moves s s' u (Run p) (Run (resume p v))
| moves_awake l ps timed k v : smem s' = smem s -> thread_moves s s' u (Sleep l ps timed k) (Run (k v)).

Lemma step_thread {A} (s s' : sys A) u ts :
  step s s' -> sthreads s !! u = Some ts ->
  exists ts', sthreads s' !! u = Some ts' /\ (ts' = ts \/ thread_moves s s' u ts ts').
Proof.
  intros Hst Hts.
  destruct Hst as [m th t p a v m' Ht Hh He|m th t p c v Ht Hh Hv|m th t p p' Ht Hu|m th t p l ps val to Ht Hh Hv
    |m th t p l ps val to Ht Hh Hv|m th t l ps timed k Ht|m th t l ps k Ht|m th t p l ps n ws Ht Hh Hw]; cbn [sthreads smem] in *;
    (destruct (decide (t = u)) as [->|Hne];
      [rewrite Hts in Ht; injection Ht as ->|try (exists ts; rewrite lookup_insert_ne by done; split; [done|by left])]);
    try (eexists; rewrite lookup_insert_eq; split; [done|right]; by econstructor).
  - pose proof Hw as (_ & Hsl & _). exists (Run (resume p (Z.of_nat (length ws)))). rewrite lookup_wake_all, lookup_insert_eq.
    assert (u ∉ ws) as Hu by (intros Hu; destruct (Hsl u Hu) as (t & Ht & Hs); rewrite Hts in Ht; by injection Ht as <-).
    rewrite decide_False by done. split; [done|]. right. eapply moves_wake; [done|done|exact Hw|].
    intros w ts' Hin Hts'. cbn [sthreads] in *. rewrite lookup_wake_all, decide_True by done.
    rewrite lookup_insert_ne by (intros ->; by apply Hu). by rewrite Hts'.
  - rewrite lookup_wake_all, lookup_insert_ne, Hts by done. destruct (decide (u ∈ ws)); [|exists ts; split; [done|by left]].
    exists (wake1 ts). split; [done|]. destruct ts as [q|l' ps' timed k]; [by left|]. right. by apply moves_awake.
Qed.

(** ** Programs that never wait on a word *)
Fixpoint avoids (l : loc) {A} (p : prog A) : Prop :=
  match p with
  | Ret _ => True
  | Act a k => match a with AFutexWait l' _ _ _ => l' <> l | _ => True end /\ forall v, avoids l (k v)
  | Loop body x k => (forall x, avoids l (body x)) /\ forall b, avoids l (k b)
  end.

Lemma avoids_bind l {A B} (p : prog A) (f : A -> prog B) : avoids l p -> (forall a, avoids l (f a)) -> avoids l (bind p f).
Proof.
  induction p as [a|A a k IH|A X Y body _ x k IH]; intros H Hf; cbn in *; [done| |]; (split; [apply H|]; intros; apply IH; [apply H|done]).
Qed.
Lemma avoids_unroll l {A} (p p' : prog A) : unroll p = Some p' -> avoids l p -> avoids l p'.
Proof.
  destruct p as [| |X B body x k]; cbn; try done. intros [= <-] [Hb Hk]. apply avoids_bind; [done|]. intros [x'|b]; [by split|done].
Qed.
Lemma avoids_resume l {A} (p : prog A) v : avoids l p -> avoids l (resume p v).
Proof. destruct p; cbn; [done|by intros []|done]. Qed.

Definition avoiding {A} (l : loc) (ts : tstate A) : Prop :=
  match ts with Run p => avoids l p | Sleep l' _ _ k => l' <> l /\ forall v, avoids l (k v) end.

(** What a thread does next keeps to this. *)
Lemma avoiding_moves {A} l (s s' : sys A) u ts ts' : thread_moves s s' u ts ts' -> avoiding l ts -> avoiding l ts'.
Proof.
  intros Hmv H. destruct Hmv as [p a v Hh He|p c v Hh|p p' Hu|p l' ps val to Hh Hv|p l' ps val to v Hh|p l' ps n ws v Hh|l' ps timed k v Hm]; cbn in *;
    try (by apply avoids_resume); [by eapply avoids_unroll| |apply H].
  destruct p as [|a k|]; try done. injection Hh as ->. split; [apply H|]. intros v. apply H.
Qed.

Ltac avoid_tac :=
  repeat first
    [ done | intros ? | case_test | apply avoids_bind
    | match goal with |- avoids _ (Act _ _) => split; [done|] | |- avoids _ (Loop _ _ _) => split end ].

Lemma avoids_lock_word l mutex : mutex <> l -> avoids l (_normal_lock mutex).
Proof. intros Hm. unfold _normal_lock, _normal_lock_slow, forever, load, __atomic_cmpxchg, __atomic_swap, __futex_wait_ex. avoid_tac. Qed.
Lemma avoids_unlock_word l mutex : avoids l (_normal_unlock mutex).
Proof. unfold _normal_unlock, load, __atomic_dec, store, __futex_wake_ex. avoid_tac. Qed.

Lemma avoids_unlock l tid mutex : __recursive_lock <> l -> avoids l (pthread_mutex_unlock tid mutex).
Proof.
  intros Hr. pose proof (avoids_lock_word l __recursive_lock Hr). pose proof (avoids_unlock_word l __recursive_lock).
  pose proof (avoids_unlock_word l mutex).
  unfold pthread_mutex_unlock, _recursive_lock, _recursive_unlock, load, store, __futex_wake_ex. avoid_tac.
Qed.

Lemma avoids_lock l tid mutex : __recursive_lock <> l -> mutex <> l -> avoids l (pthread_mutex_lock tid mutex).
Proof.
  intros Hr Hm. pose proof (avoids_lock_word l __recursive_lock Hr). pose proof (avoids_unlock_word l __recursive_lock).
  pose proof (avoids_lock_word l mutex Hm).
  unfold pthread_mutex_lock, relock, try_owned, _recursive_lock, _recursive_unlock, load, store, __futex_wait_ex. avoid_tac.
Qed.

(** ** The word of the condition variable *)
Section Word.
Context {A : Type} (s : nat -> sys A) (cond : loc).

Definition word (t : nat) : Z := mget (smem (s t)) cond.

(** Between [i] and [j] the word changes only as a signal or a broadcast changes it,
    and this many times. *)
Definition only_pulses (i j : nat) : Prop :=
  forall t, (i <= t < j)%nat -> word (S t) = word t \/ word (S t) = s32 (word t - COND_COUNTER_INCREMENT).
Definition pulse_count (i j : nat) : nat := length (filter (fun t => word (S t) <> word t) (seq i (j - i))).

Lemma pulse_count_S i j : (i <= j)%nat ->
  pulse_count i (S j) = (pulse_count i j + if decide (word (S j) = word j) then 0 else 1)%nat.
Proof.
  intros Hij. unfold pulse_count. replace (S j - i)%nat with (S (j - i)) by lia. rewrite seq_S, filter_app, length_app.
  replace (i + (j - i))%nat with j by lia. f_equal. rewrite filter_cons, filter_nil. by do 2 case_decide.
Qed.

Lemma pulse_count_split i j k : (i <= j <= k)%nat -> pulse_count i k = (pulse_count i j + pulse_count j k)%nat.
Proof.
  intros Hij. unfold pulse_count. replace (k - i)%nat with ((j - i) + (k - j))%nat by lia. rewrite seq_app, filter_app, length_app.
  by replace (i + (j - i))%nat with j by lia.
Qed.

Lemma pulse_count_mono i j k : (i <= j <= k)%nat -> (pulse_count i j <= pulse_count i k)%nat.
Proof. intros Hij. rewrite (pulse_count_split i j k) by done. lia. Qed.

Lemma pulse_counted i j t : (i <= t < j)%nat -> word (S t) <> word t -> (0 < pulse_count i j)%nat.
Proof.
  intros Ht Hne. pose proof (pulse_count_mono i (S t) j ltac:(lia)). rewrite pulse_count_S, decide_False in H by (done || lia). lia.
Qed.

Lemma word_after i j : only_pulses i j -> (i <= j)%nat -> is_s32 (word i) ->
  word j = s32 (word i - 2 * Z.of_nat (pulse_count i j)).
Proof.
  intros Hp Hij Hi. induction Hij as [|j Hij IH].
  { unfold pulse_count. rewrite Nat.sub_diag. cbn. by rewrite Z.sub_0_r, s32_id. }
  assert (word j = s32 (word i - 2 * Z.of_nat (pulse_count i j))) as E by (apply IH; intros t Ht; apply Hp; lia).
  rewrite pulse_count_S by done. destruct (decide (word (S j) = word j)) as [->|Hne]; [by rewrite Nat.add_0_r|].
  destruct (Hp j ltac:(lia)) as [| ->]; [done|]. rewrite E. change COND_COUNTER_INCREMENT with 2. clear. unfold s32. zdm.
Qed.

Lemma word_same_flag i j : only_pulses i j -> (i <= j)%nat -> word j mod 2 = word i mod 2.
Proof.
  intros Hp Hij. induction Hij as [|j Hij IH]; [done|]. rewrite <- IH by (intros t Ht; apply Hp; lia).
  destruct (Hp j ltac:(lia)) as [->| ->]; [done|]. change COND_COUNTER_INCREMENT with 2. clear. unfold s32. zdm.
Qed.
End Word.

Lemma is_shared_flag v w : v mod 2 = w mod 2 -> COND_IS_SHARED v = COND_IS_SHARED w.
Proof. intros E. unfold COND_IS_SHARED. by rewrite !land_flag, E. Qed.

Lemma pulsed_flag v w : v mod 2 = w mod 2 -> pulsed w (Z.land v (Z.lnot COND_COUNTER_MASK)) = s32 (w - 2).
Proof.
  intros E. rewrite <- pulsed_word. f_equal. unfold COND_COUNTER_MASK. by rewrite Z.lnot_involutive, !land_flag.
Qed.

(** ** The waiter *)
Section Wait.
Context (s : nat -> sys Z) (w tid cond mutex : Z) (reltime : option timespec) (t0 te : nat).
Context (Hpulses : only_pulses s cond t0 te).
Context (Hrec : __recursive_lock <> cond) (Hmutex : mutex <> cond).

Definition flag : Z := COND_IS_SHARED (word s cond t0).
Definition after_wait (status : Z) : prog Z :=
  pthread_mutex_lock tid mutex ;;; Ret (if status =? - ETIMEDOUT then ETIMEDOUT else 0).

Definition asleep_on (t : nat) : Prop := exists ps timed k, sthreads (s t) !! w = Some (Sleep cond ps timed k).
Definition waiting (t : nat) : Prop := sthreads (s t) !! w = Some (Sleep cond flag (is_timed reltime) after_wait).

(** The states of the waiter that read the word at time [tr]. *)
Inductive waiter (tr t : nat) : tstate Z -> Prop :=
| waiter_unlocks (q : prog Z) :
    avoids cond q -> waiter tr t (Run (bind q (fun _ => cond_sleep tid cond mutex (word s cond tr) reltime)))
| waiter_unlock_sleeps l ps timed (k : Z -> prog Z) :
    l <> cond -> (forall v, avoids cond (k v)) ->
    waiter tr t (Sleep l ps timed (fun v => bind (k v) (fun _ => cond_sleep tid cond mutex (word s cond tr) reltime)))
| waiter_waits : waiter tr t (Run (Act (AFutexWait cond flag (s32 (word s cond tr)) reltime) after_wait))
| waiter_sleeps tf :
    (tr <= tf < t)%nat -> word s cond tf = s32 (word s cond tr) -> (forall u, (tf < u <= t)%nat -> waiting u) ->
    waiter tr t (Sleep cond flag (is_timed reltime) after_wait)
| waiter_awake ts : avoiding cond ts -> waiter tr t ts.

Lemma after_avoids v : avoids cond (after_wait v).
Proof using Hrec Hmutex. unfold after_wait. apply avoids_bind; [by apply avoids_lock|done]. Qed.

Lemma flag_at t : (t0 <= t <= te)%nat -> COND_IS_SHARED (word s cond t) = flag.
Proof using Hpulses.
  intros Ht. apply is_shared_flag. apply word_same_flag; [|lia]. intros u Hu. apply Hpulses. lia.
Qed.

Lemma waiter_stays tr t ts :
  waiter tr t ts -> sthreads (s (S t)) !! w = Some ts -> waiter tr (S t) ts.
Proof using Hpulses Hrec Hmutex.
  intros H Hs. destruct H as [q Hq|l ps timed k Hl Hk| |tf Htf Hw Hsl|ts Hts]; try by constructor.
  apply (waiter_sleeps _ _ tf); [lia|done|]. intros u Hu. destruct (decide (u = S t)) as [->|]; [done|apply Hsl; lia].
Qed.

Lemma waiter_moves tr t ts ts' :
  waiter tr t ts -> (t0 <= tr <= t)%nat -> (t < te)%nat -> sthreads (s (S t)) !! w = Some ts' ->
  thread_moves (s t) (s (S t)) w ts ts' -> waiter tr (S t) ts'.
Proof using Hpulses Hrec Hmutex.
  intros H Htr Ht Hs Hm. set (f := fun _ : Z => cond_sleep tid cond mutex (word s cond tr) reltime).
  destruct H as [q Hq|l ps timed k Hl Hk| |tf Htf Hw Hsl|ts Hts].
  - fold f in Hm |- *. destruct q as [a|a k|X B body x k].
    + inversion Hm; subst; cbn in *; simplify_eq. cbn in *. simplify_eq. fold (word s cond t). rewrite flag_at by lia. apply waiter_waits.
    + destruct Hq as [Ha Hk]. inversion Hm; subst; cbn in *; simplify_eq; try (apply waiter_unlocks; by apply Hk).
      by apply waiter_unlock_sleeps.
    + inversion Hm; subst; cbn in *; simplify_eq.
      replace (bind (body x) _) with (bind (bind (body x) (fun r => match r with inl x' => Loop body x' k | inr b => k b end)) f).
      * apply waiter_unlocks. by apply (avoids_unroll cond (Loop body x k)).
      * rewrite bind_assoc. f_equal. apply FunctionalExtensionality.functional_extensionality. by intros [].
  - inversion Hm; subst. by apply waiter_unlocks.
  - inversion Hm; subst; cbn in *; simplify_eq.
    + apply (waiter_sleeps _ _ t); [lia|done|]. intros u Hu. by assert (u = S t) as -> by lia.
    + apply waiter_awake, after_avoids.
  - inversion Hm; subst. apply waiter_awake, after_avoids.
  - apply waiter_awake. by eapply avoiding_moves.
Qed.

Lemma waiter_runs i j ts tr :
  execution s i j -> (i <= j)%nat -> (t0 <= tr <= i)%nat -> (j <= te)%nat ->
  sthreads (s i) !! w = Some ts -> waiter tr i ts -> exists ts', sthreads (s j) !! w = Some ts' /\ waiter tr j ts'.
Proof using Hpulses Hrec Hmutex.
  intros He Hij Htr Hj Hs Hw. induction Hij as [|j Hij IH]; [eauto|].
  destruct IH as (ts1 & Hs1 & Hw1); [intros u Hu; apply He; lia|lia|].
  destruct (step_thread _ _ w ts1 (He j ltac:(lia)) Hs1) as (ts2 & Hs2 & [E|Hm]); exists ts2; (split; [done|]).
  - subst ts2. by apply waiter_stays.
  - by eapply waiter_moves; [done|lia|lia|..].
Qed.

(** From the start of the call: the read of the word comes first. *)
Lemma waiter_starts j :
  execution s t0 j -> (t0 <= j <= te)%nat ->
  sthreads (s t0) !! w = Some (Run (__pthread_cond_timedwait_relative tid cond mutex reltime)) ->
  sthreads (s j) !! w = Some (Run (__pthread_cond_timedwait_relative tid cond mutex reltime)) \/
  exists tr ts, (t0 <= tr < j)%nat /\ sthreads (s j) !! w = Some ts /\ waiter tr j ts.
Proof using Hpulses Hrec Hmutex.
  intros He [Hij Hj] Hs. induction Hij as [|j Hij IH]; [by left|].
  assert (step (s j) (s (S j))) as Hst by (apply He; lia).
  destruct IH as [Hs1|(tr & ts & Htr & Hs1 & Hw1)]; [intros u Hu; apply He; lia|lia| |].
  - destruct (step_thread _ _ w _ Hst Hs1) as (ts2 & Hs2 & [->|Hm]); [by left|]. right. exists j, ts2. split; [lia|]. split; [done|].
    inversion Hm; subst; cbn in *; simplify_eq. cbn in *. simplify_eq.
    apply (waiter_unlocks j (S j) (pthread_mutex_unlock tid mutex)). by apply avoids_unlock.
  - right. destruct (waiter_runs j (S j) ts tr) as (ts' & ? & ?); [intros u Hu; by assert (u = j) as -> by lia|lia|lia|lia|done|done|].
    exists tr, ts'. split; [lia|done].
Qed.
End Wait.

(** ** The signaller *)
Section Sender.
Context (s : nat -> sys Z) (b cond counter : Z) (t0 ta te : nat).
Context (Hpulses : only_pulses s cond t0 te) (Hta : (t0 <= ta)%nat) (Hcond : cond <> 0) (Hword : is_s32 (word s cond t0)).

Definition pulse_tail : prog Z :=
  v <- load cond ;; __futex_wake_ex cond (COND_IS_SHARED v) counter ;;; Ret 0.
Definition pulse_round (flags : Z) : prog (option unit) :=
  oldval <- load cond ;;
  x <- __atomic_cmpxchg oldval (pulsed oldval flags) cond ;;
  Ret (if x =? 0 then Some tt else None).
Definition pulse_loop (flags : Z) : prog Z := forever (pulse_round flags) ;;; pulse_tail.

(** The compare-and-swap and the wake-up that a signaller has behind it. *)
Definition has_pulsed (t tc : nat) : Prop := (ta <= tc < t)%nat /\ word s cond (S tc) <> word s cond tc.
Definition has_woken (t tw : nat) : Prop :=
  (tw < t)%nat /\ exists ws, woken cond (flag s cond t0) counter (sthreads (s tw)) ws /\
    forall u ts, u ∈ ws -> sthreads (s tw) !! u = Some ts -> sthreads (s (S tw)) !! u = Some (wake1 ts).

Inductive sender (t : nat) : tstate Z -> Prop :=
| sender_starts : sender t (Run (__pthread_cond_pulse cond counter))
| sender_loops v : v mod 2 = word s cond t0 mod 2 -> sender t (Run (pulse_loop (Z.land v (Z.lnot COND_COUNTER_MASK))))
| sender_reads v p :
    v mod 2 = word s cond t0 mod 2 -> unroll (pulse_loop (Z.land v (Z.lnot COND_COUNTER_MASK))) = Some p -> sender t (Run p)
| sender_swaps v p oldval :
    v mod 2 = word s cond t0 mod 2 -> oldval mod 2 = word s cond t0 mod 2 -> is_s32 oldval ->
    unroll (pulse_loop (Z.land v (Z.lnot COND_COUNTER_MASK))) = Some p -> sender t (Run (resume p oldval))
| sender_reads_flag tc : has_pulsed t tc -> sender t (Run pulse_tail)
| sender_wakes tc : has_pulsed t tc -> sender t (Run (Act (AFutexWake cond (flag s cond t0) counter) (fun _ => Ret 0)))
| sender_done tc tw : has_pulsed tw tc -> has_woken t tw -> sender t (Run (Ret 0)).

Lemma sender_stays t ts : sender t ts -> sender (S t) ts.
Proof.
  assert (forall t tc, has_pulsed t tc -> has_pulsed (S t) tc) as Hp by (intros t' tc [? ?]; split; [lia|done]).
  intros H. destruct H as [|v Hv|v p Hv Hu|v p oldval Hv Hold Ho32 Hu|tc Htc|tc Htc|tc tw Htc [? ?]].
  - apply sender_starts.
  - by apply sender_loops.
  - by apply (sender_reads _ v).
  - by apply (sender_swaps _ v).
  - by apply (sender_reads_flag _ tc), Hp.
  - by apply (sender_wakes _ tc), Hp.
  - apply (sender_done _ tc tw); [done|]. split; [lia|done].
Qed.

Lemma word_s32 t : (t0 <= t <= te)%nat -> is_s32 (word s cond t).
Proof using Hpulses Hta Hword.
  intros Ht. rewrite (word_after s cond t0 t); [apply s32_range| |lia|done]. intros u Hu. apply Hpulses. lia.
Qed.
Lemma word_flag t : (t0 <= t <= te)%nat -> word s cond t mod 2 = word s cond t0 mod 2.
Proof using Hpulses Hta. intros Ht. apply word_same_flag; [|lia]. intros u Hu. apply Hpulses. lia. Qed.

Lemma sender_moves t ts ts' :
  sender t ts -> (ta <= t < te)%nat -> thread_moves (s t) (s (S t)) b ts ts' -> sender (S t) ts'.
Proof using Hpulses Hta Hcond Hword.
  intros H Ht Hm. pose proof (word_flag t ltac:(lia)) as Hfl. pose proof (word_s32 t ltac:(lia)) as H32.
  destruct H as [|v Hv|v p Hv Hp|v p oldval Hv Hold Ho32 Hp|tc Htc|tc Htc|tc tw Htc Htw].
  - unfold __pthread_cond_pulse in Hm. rewrite (proj2 (Z.eqb_neq _ _)) in Hm by done.
    inversion Hm; subst; cbn in *; simplify_eq. cbn in *. simplify_eq. fold (word s cond t). by apply (sender_loops _ (word s cond t)).
  - inversion Hm; subst; cbn in *; simplify_eq. by apply (sender_reads _ v).
  - cbn in Hp. injection Hp as <-. inversion Hm; subst; cbn in *; simplify_eq. cbn in *. simplify_eq. fold (word s cond t).
    exact (sender_swaps (S t) v _ (word s cond t) Hv Hfl H32 eq_refl).
  - cbn in Hp. injection Hp as <-. cbn in Hm. inversion Hm as [p a x Hh He| | | | | |]; subst; cbn in *; simplify_eq. cbn in He.
    fold (word s cond t) in He. rewrite s32_id in He by done. destruct (Z.eqb_spec (word s cond t) oldval) as [E|E]; injection He as <- Esm; cbn.
    + apply (sender_reads_flag _ t). split; [lia|]. unfold word at 1. rewrite <- Esm, mget_set_eq, <- E, pulsed_flag by lia.
      rewrite (s32_id (s32 _)) by apply s32_range. clear -H32. unfold s32, is_s32 in *. zdm.
    + by apply (sender_loops _ v).
  - inversion Hm; subst; cbn in *; simplify_eq. cbn in *. simplify_eq. fold (word s cond t).
    replace (COND_IS_SHARED (word s cond t)) with (flag s cond t0) by (symmetry; by apply is_shared_flag).
    apply (sender_wakes _ tc). destruct Htc. split; [lia|done].
  - inversion Hm; subst; cbn in *; simplify_eq. cbn in *. apply (sender_done _ tc t); [done|]. split; [lia|]. eauto.
  - inversion Hm; subst; cbn in *; simplify_eq.
Qed.
End Sender.

Lemma sender_runs s b cond counter t0 ta te :
  only_pulses s cond t0 te -> (t0 <= ta <= te)%nat -> cond <> 0 -> is_s32 (word s cond t0) -> execution s ta te ->
  sthreads (s ta) !! b = Some (Run (__pthread_cond_pulse cond counter)) ->
  exists ts, sthreads (s te) !! b = Some ts /\ sender s cond counter t0 ta te ts.
Proof.
  intros Hp Hta Hc Hw He Hs. assert (forall j, (ta <= j <= te)%nat -> exists ts, sthreads (s j) !! b = Some ts /\ sender s cond counter t0 ta j ts) as H.
  { intros j [Haj Hj]. induction Haj as [|j Haj IH]; [eexists; split; [done|apply sender_starts]|].
    destruct IH as (ts & Hts & Hsend); [lia|]. destruct (step_thread _ _ b ts (He j ltac:(lia)) Hts) as (ts' & Hts' & [->|Hm]).
    - exists ts. split; [done|]. apply sender_stays; [lia|exact Hsend].
    - exists ts'. split; [done|]. eapply (sender_moves s b cond counter t0 ta te); [done|lia|done|done|done|lia|done]. }
  apply H. lia.
Qed.

(** C21.  A signal or a broadcast is not missed, whatever the threads of the process do
    and however their steps interleave: when a thread has begun
    __pthread_cond_timedwait_relative (it reads the counter before it releases the mutex,
    so in particular when it has released it) and another thread then runs
    pthread_cond_signal or pthread_cond_broadcast to its end, the first thread is not
    asleep on the condition variable at that end: it was woken, or it does not fall
    asleep because the counter has changed.  Nothing else writes the counter; no more
    threads sleep on the condition variable than the call is to wake (one for a signal);
    and fewer than 2^31 signals and broadcasts fall between the beginning of the wait and
    the end of the call, since the counter comes round after 2^31 of them (the comment in
    the code says UINT_MAX/2, one less). *)
Theorem cond_no_missed_signal (s : nat -> sys Z) w b tid cond mutex counter reltime t0 ta tb r :
  cond <> 0 -> mutex <> cond -> __recursive_lock <> cond -> is_s32 (word s cond t0) ->
  execution s t0 tb -> (t0 <= ta <= tb)%nat ->
  sthreads (s t0) !! w = Some (Run (__pthread_cond_timedwait_relative tid cond mutex reltime)) ->
  sthreads (s ta) !! w <> Some (Run (__pthread_cond_timedwait_relative tid cond mutex reltime)) ->
  sthreads (s ta) !! b = Some (Run (__pthread_cond_pulse cond counter)) ->
  sthreads (s tb) !! b = Some (Run (Ret r)) ->
  only_pulses s cond t0 tb -> Z.of_nat (pulse_count s cond t0 tb) < 2 ^ 31 ->
  (forall t ws, (ta <= t < tb)%nat -> NoDup ws ->
     (forall u, u ∈ ws -> exists ts, sthreads (s t) !! u = Some ts /\ sleeps_on cond (COND_IS_SHARED (word s cond t0)) ts) ->
     Z.of_nat (length ws) <= counter) ->
  r = 0 /\ ~ asleep_on s w cond tb.
Proof.
  intros Hc Hm Hrl Hw32 He Ht Hw0 Hwa Hba Hbb Hp Hcount Hfew.
  destruct (sender_runs s b cond counter t0 ta tb) as (ts & Hts & Hsend); [done|done|done|done|intros u Hu; apply He; lia|done|].
  rewrite Hbb in Hts. injection Hts as <-.
  assert (r = 0 /\ exists tc tw, has_pulsed s cond ta tw tc /\ has_woken s cond counter t0 tb tw) as (-> & tc & tw & [Htc Hch] & Htw & ws & Hwoken & Hwake).
  { inversion Hsend as [E|? ? E|? ? ? Hu E|? ? ? ? ? ? Hu E|? ? E|? ? E|tc tw ? ? E]; subst.
    - exfalso. unfold __pthread_cond_pulse in E. by rewrite (proj2 (Z.eqb_neq _ _)) in E.
    - by cbn in Hu.
    - cbn in Hu. injection Hu as <-. done.
    - split; [done|]. eauto. }
  split; [done|]. intros (ps & timed & k & Hsl).
  destruct (waiter_starts s w tid cond mutex reltime t0 tb Hp Hrl Hm ta) as [?|(tr & ts & Htr & Hts & Hwait)];
    [intros u Hu; apply He; lia|lia|done|done|].
  destruct (waiter_runs s w tid cond mutex reltime t0 tb Hp Hrl Hm ta tb ts tr) as (ts' & Hts' & Hwait');
    [intros u Hu; apply He; lia|lia|lia|lia|done|done|].
  rewrite Hsl in Hts'. injection Hts' as <-.
  assert (exists tf, (tr <= tf < tb)%nat /\ word s cond tf = s32 (word s cond tr) /\ ps = flag s cond t0 /\ forall u, (tf < u <= tb)%nat -> waiting s w tid cond mutex reltime t0 u)
    as (tf & Htf & Eold & -> & Hasleep).
  { inversion Hwait' as [|? ? ? ? Hne| |tf ? ? ?|? Hav]; subst; [done|by exists tf|by destruct Hav]. }
  destruct (decide (tf < tw)%nat) as [Hlt|Hge].
  - (* asleep when the signal wakes the sleepers *)
    pose proof (Hasleep tw ltac:(lia)) as Hs1. pose proof (Hasleep (S tw) ltac:(lia)) as Hs2. unfold waiting in *.
    assert (w ∈ ws) as Hin.
    { destruct Hwoken as (Hnd & Hall & Hle & Hrest). destruct (decide (w ∈ ws)) as [|Hout]; [done|].
      destruct (decide (Z.of_nat (length ws) < counter)) as [Hl|Hl]; [apply (Hrest Hl _ _ Hs1); by split|].
      pose proof (Hfew tw (w :: ws) ltac:(lia) ltac:(by constructor)) as Hlong. cbn [length] in Hlong. exfalso.
      assert (Z.of_nat (S (length ws)) <= counter); [|lia]. apply Hlong. intros u [->|Hu]%elem_of_cons; [|by apply Hall].
      eexists. split; [exact Hs1|]. by split. }
    rewrite (Hwake w _ Hin Hs1) in Hs2. done.
  - (* the counter has changed *)
    assert (0 < pulse_count s cond tr tf)%nat as Hpos by (apply (pulse_counted s cond tr tf tc); [lia|done]).
    assert (word s cond tf = s32 (word s cond tr - 2 * Z.of_nat (pulse_count s cond tr tf))) as Etf.
    { apply word_after; [intros u Hu; apply Hp; lia|lia|]. apply (word_s32 s cond t0 t0 tb Hp); (done || lia). }
    rewrite Etf in Eold. assert (pulse_count s cond tr tf <= pulse_count s cond t0 tb)%nat as Hle.
    { rewrite (pulse_count_split s cond t0 tr tb), (pulse_count_split s cond tr tf tb) by lia. lia. }
    clear -Eold Hpos Hle Hcount. unfold s32 in *. zdm.
Qed.

(** The waiter reads the counter and releases the mutex; the other thread signals; the
    waiter, about to sleep, goes on. *)
Definition cond_demo_init : sys Z :=
  Sys (mset (mset ∅ 8 4) 16 1)
    {[1 := Run (__pthread_cond_timedwait_relative 7 8 16 None); 2 := Run (pthread_cond_signal 8)]}.
Definition cond_demo_schedule : list tid := replicate 6 1 ++ replicate 6 2 ++ [1].
Definition cond_demo (t : nat) : sys Z := default cond_demo_init (sched cond_demo_init (take t cond_demo_schedule)).
Definition cond_demo_len : nat := 13.

Lemma cond_demo_execution : execution cond_demo 0 cond_demo_len.
Proof.
  intros t [_ Ht]. assert (forallb (fun t => match sched cond_demo_init (take t cond_demo_schedule) with Some _ => true | None => false end) (seq 0 14) = true)
    as Hall by (vm_compute; reflexivity).
  unfold cond_demo_len in Ht. rewrite forallb_forall in Hall.
  pose proof (Hall t ltac:(apply in_seq; lia)) as H1. pose proof (Hall (S t) ltac:(apply in_seq; lia)) as H2. cbn beta in *.
  unfold cond_demo. destruct (sched cond_demo_init (take t cond_demo_schedule)) as [s1|] eqn:E1; [|done].
  destruct (sched cond_demo_init (take (S t) cond_demo_schedule)) as [s2|] eqn:E2; [|done].
  destruct (lookup_lt_is_Some_2 cond_demo_schedule t ltac:(cbn; lia)) as [r Hr].
  rewrite (take_S_r _ _ _ Hr), sched_snoc, E1 in E2. by eapply sched1_step.
Qed.

(** What holds at every moment before [n] can be computed. *)
Lemma every_moment (f : nat -> bool) n : forallb f (seq 0 n) = true -> forall t, (t < n)%nat -> f t = true.
Proof. rewrite forallb_forall. intros H t Ht. apply H, in_seq. lia. Qed.

Lemma cond_demo_sleepers t ws : (t < cond_demo_len)%nat -> NoDup ws ->
  (forall u, u ∈ ws -> exists ts, sthreads (cond_demo t) !! u = Some ts /\ sleeps_on 8 0 ts) -> Z.of_nat (length ws) <= 1.
Proof.
  intros Ht Hnd Hws.
  pose proof (every_moment (fun t => (length (sleepers 8 0 (sthreads (cond_demo t))) <=? 1)%nat) cond_demo_len ltac:(vm_compute; reflexivity) t Ht) as Hone.
  apply Nat.leb_le in Hone. assert (length ws <= length (sleepers 8 0 (sthreads (cond_demo t))))%nat; [|lia].
  apply submseteq_length, NoDup_submseteq; [done|]. intros u Hu. by apply elem_of_sleepers, Hws.
Qed.

Lemma cond_demo_pulses : only_pulses cond_demo 8 0 cond_demo_len.
Proof.
  intros t [_ Ht]. pose proof (every_moment (fun t => let v := mget (smem (cond_demo t)) 8 in let w := mget (smem (cond_demo (S t))) 8 in
    (w =? v) || (w =? s32 (v - COND_COUNTER_INCREMENT))) cond_demo_len ltac:(vm_compute; reflexivity) t Ht) as H.
  cbn beta zeta in H. apply orb_true_iff in H as [H|H]; zbool; [by left|by right].
Qed.

Lemma cond_no_missed_signal_witness :
  sthreads (cond_demo cond_demo_len) !! 2 = Some (Run (Ret 0)) /\ ~ asleep_on cond_demo 1 8 cond_demo_len.
Proof.
  split; [vm_compute; reflexivity|].
  apply (cond_no_missed_signal cond_demo 1 2 7 8 16 1 None 0 6 cond_demo_len 0).
  - done.
  - done.
  - done.
  - done.
  - exact cond_demo_execution.
  - unfold cond_demo_len. lia.
  - reflexivity.
  - intros H. apply (f_equal (fun o => match o with Some (Run p) => head p | _ => None end)) in H. vm_compute in H. discriminate.
  - reflexivity.
  - vm_compute. reflexivity.
  - exact cond_demo_pulses.
  - vm_compute. reflexivity.
  - intros t ws [_ Ht]. change (COND_IS_SHARED (word cond_demo 8 0)) with 0. by apply cond_demo_sleepers.
Defined.
