(* ===== verification/Monitor.v ===== *)
(** * Monitors: a mutex, the state it protects, and a condition variable

    The interface through which libc/bionic/pthread-rwlocks.c uses
    pthread_mutex_t and pthread_cond_t.  A program takes and releases the mutex,
    reads and writes the protected state [S] while it holds it, waits on the
    condition variable and broadcasts it.  The mutex admits one thread
    at a time (what MutexSafety proves of the futex code), and a wait releases
    it and takes it again before it returns: with 0 after a broadcast or a
    spurious wake-up, with ETIMEDOUT when its time is over (at once, without
    releasing the mutex, when the time was over before the wait). *)
From S2P Require Import Prelude Concur.

Inductive mprog (S A : Type) : Type :=
| MRet (a : A)
| MLock (k : mprog S A)
| MUnlock (k : mprog S A)
| MRead (k : S -> mprog S A)
| MWrite (s : S) (k : mprog S A)
| MWait (timed : bool) (k : Z -> mprog S A)
| MBroadcast (k : mprog S A)
| MMark (mode : bool) (k : mprog S A)          (** a client's critical section *)
| MLoop (body : mprog S (option Z)) (k : Z -> mprog S A).
Arguments MRet {S A} a.
Arguments MLock {S A} k.
Arguments MUnlock {S A} k.
Arguments MRead {S A} k.
Arguments MWrite {S A} s k.
Arguments MWait {S A} timed k.
Arguments MBroadcast {S A} k.
Arguments MMark {S A} mode k.
Arguments MLoop {S A} body k.

Fixpoint mbind {S A B} (p : mprog S A) (f : A -> mprog S B) : mprog S B :=
  match p with
  | MRet a => f a
  | MLock k => MLock (mbind k f)
  | MUnlock k => MUnlock (mbind k f)
  | MRead k => MRead (fun s => mbind (k s) f)
  | MWrite s k => MWrite s (mbind k f)
  | MWait timed k => MWait timed (fun r => mbind (k r) f)
  | MBroadcast k => MBroadcast (mbind k f)
  | MMark mode k => MMark mode (mbind k f)
  | MLoop body k => MLoop body (fun r => mbind (k r) f)
  end.

Declare Scope monitor_scope.
Delimit Scope monitor_scope with monitor.
Notation "x <- p ;; q" := (mbind p (fun x => q))
  (at level 100, p at next level, right associativity) : monitor_scope.
Notation "p ;;; q" := (mbind p (fun _ => q))
  (at level 100, right associativity) : monitor_scope.

(** The stretch of a program from one scheduling point to the next: the reads,
    writes and broadcasts a thread does on its own, up to a lock, an unlock, a
    wait, a mark or the end.  [b]: a broadcast happened. *)
Fixpoint seg {S A} (fuel : nat) (s : S) (b : bool) (p : mprog S A) : option (S * bool * mprog S A) :=
  match fuel with
  | O => None
  | Datatypes.S fuel =>
      match p with
      | MRead k => seg fuel s b (k s)
      | MWrite s' k => seg fuel s' b k
      | MBroadcast k => seg fuel s true k
      | MLoop body k =>
          seg fuel s b (mbind body (fun r => match r with Some z => k z | None => MLoop body k end))
      | MRet _ | MLock _ | MUnlock _ | MWait _ _ | MMark _ _ => Some (s, b, p)
      end
  end.

Arguments seg : simpl never.

Lemma seg_read {S A} f s b (k : S -> mprog S A) : seg (Datatypes.S f) s b (MRead k) = seg f s b (k s).
Proof. done. Qed.
Lemma seg_write {S A} f s s' b (k : mprog S A) : seg (Datatypes.S f) s b (MWrite s' k) = seg f s' b k.
Proof. done. Qed.
Lemma seg_broadcast {S A} f (s : S) b (k : mprog S A) :
  seg (Datatypes.S f) s b (MBroadcast k) = seg f s true k.
Proof. done. Qed.
Lemma seg_loop {S A} f (s : S) b body (k : Z -> mprog S A) :
  seg (Datatypes.S f) s b (MLoop body k) =
  seg f s b (mbind body (fun r => match r with Some z => k z | None => MLoop body k end)).
Proof. done. Qed.
Lemma seg_unlock {S A} f (s : S) b (k : mprog S A) :
  seg (Datatypes.S f) s b (MUnlock k) = Some (s, b, MUnlock k).
Proof. done. Qed.
Lemma seg_wait {S A} f (s : S) b timed (k : Z -> mprog S A) :
  seg (Datatypes.S f) s b (MWait timed k) = Some (s, b, MWait timed k).
Proof. done. Qed.
Create Rewrite HintDb seg.
#[export] Hint Rewrite @seg_read @seg_write @seg_broadcast @seg_loop @seg_unlock @seg_wait : seg.

(** Run a stretch up to the next test of the code. *)
Ltac seg_run := repeat (simpl; rewrite_strat (topdown (hints seg))); simpl.

(** A thread runs, or waits on the condition variable. *)
Inductive mthread (S A : Type) : Type :=
| TRun (p : mprog S A)
| TWait (timed : bool) (k : Z -> mprog S A).
Arguments TRun {S A} p.
Arguments TWait {S A} timed k.

Record msys (S A : Type) : Type :=
  MSys { mstate : S; mowner : option Z; mthreads : gmap Z (mthread S A) }.
Arguments MSys {S A} mstate mowner mthreads.
Arguments mstate {S A} m.
Arguments mowner {S A} m.
Arguments mthreads {S A} m.

(** A thread that waited takes the mutex again. *)
Definition rewake {S A} (r : Z) (t : mthread S A) : mthread S A :=
  match t with TWait _ k => TRun (MLock (k r)) | TRun p => TRun p end.

Definition broadcast {S A} (b : bool) (th : gmap Z (mthread S A)) : gmap Z (mthread S A) :=
  if b then rewake 0 <$> th else th.

Inductive mstep {S A} : msys S A -> msys S A -> Prop :=
| mstep_lock s th t p s' b p' fuel :
    th !! t = Some (TRun (MLock p)) -> seg fuel s false p = Some (s', b, p') ->
    mstep (MSys s None th) (MSys s' (Some t) (broadcast b (<[t := TRun p']> th)))
| mstep_unlock s th t p :
    th !! t = Some (TRun (MUnlock p)) ->
    mstep (MSys s (Some t) th) (MSys s None (<[t := TRun p]> th))
| mstep_wait s th t timed k :
    th !! t = Some (TRun (MWait timed k)) ->
    mstep (MSys s (Some t) th) (MSys s None (<[t := TWait timed k]> th))
| mstep_expired s th t k s' b p' fuel :
    th !! t = Some (TRun (MWait true k)) -> seg fuel s false (k ETIMEDOUT) = Some (s', b, p') ->
    mstep (MSys s (Some t) th) (MSys s' (Some t) (broadcast b (<[t := TRun p']> th)))
| mstep_spurious s o th t timed k :
    th !! t = Some (TWait timed k) ->
    mstep (MSys s o th) (MSys s o (<[t := TRun (MLock (k 0))]> th))
| mstep_timeout s o th t k :
    th !! t = Some (TWait true k) ->
    mstep (MSys s o th) (MSys s o (<[t := TRun (MLock (k ETIMEDOUT))]> th))
| mstep_mark s o th t mode p :
    th !! t = Some (TRun (MMark mode p)) ->
    mstep (MSys s o th) (MSys s o (<[t := TRun p]> th)).

Definition mreachable {S A} (a b : msys S A) : Prop := rtc mstep a b.

Lemma mreachable_inv {S A} (I : msys S A -> Prop) a b :
  I a -> (forall x y, I x -> mstep x y -> I y) -> mreachable a b -> I b.
Proof. intros H0 Hs Hr. induction Hr; eauto. Qed.

Lemma seg_more {S A} f f' s b (p : mprog S A) r :
  seg f s b p = Some r -> (f <= f')%nat -> seg f' s b p = Some r.
Proof.
  revert f' s b p. induction f as [|f IH]; intros f' s b p H Hle; [done|].
  destruct f' as [|f']; [lia|].
  destruct p; autorewrite with seg in *; try done; apply IH; eauto; lia.
Qed.

(** The stretch a thread does is determined. *)
Lemma seg_det {S A} f f' s b (p : mprog S A) r r' :
  seg f s b p = Some r -> seg f' s b p = Some r' -> r = r'.
Proof.
  intros H H'. apply (seg_more _ (f + f')) in H; [|lia]. apply (seg_more _ (f + f')) in H'; [|lia].
  congruence.
Qed.

(** ** A scheduler: what thread [t] does next *)
Inductive mmove : Type := GoOn | WakeUp | TimeOut.

Definition msched1 {S A} (x : msys S A) (tm : Z * mmove) : option (msys S A) :=
  let '(t, mv) := tm in
  let '(MSys s o th) := x in
  match mv, th !! t with
  | GoOn, Some (TRun (MLock p)) =>
      match o, seg 32 s false p with
      | None, Some (s', b, p') => Some (MSys s' (Some t) (broadcast b (<[t := TRun p']> th)))
      | _, _ => None
      end
  | GoOn, Some (TRun (MUnlock p)) =>
      if decide (o = Some t) then Some (MSys s None (<[t := TRun p]> th)) else None
  | GoOn, Some (TRun (MWait timed k)) =>
      if decide (o = Some t) then Some (MSys s None (<[t := TWait timed k]> th)) else None
  | GoOn, Some (TRun (MMark _ p)) => Some (MSys s o (<[t := TRun p]> th))
  | WakeUp, Some (TWait _ k) => Some (MSys s o (<[t := TRun (MLock (k 0))]> th))
  | TimeOut, Some (TWait true k) => Some (MSys s o (<[t := TRun (MLock (k ETIMEDOUT))]> th))
  | _, _ => None
  end.

Fixpoint msched {S A} (x : msys S A) (tms : list (Z * mmove)) : option (msys S A) :=
  match tms with
  | [] => Some x
  | tm :: tms => match msched1 x tm with Some y => msched y tms | None => None end
  end.

Lemma msched1_step {S A} (x y : msys S A) tm : msched1 x tm = Some y -> mstep x y.
Proof.
  destruct tm as [t mv], x as [s o th]. unfold msched1. intros H.
  destruct mv, (th !! t) as [[p|timed k]|] eqn:Ht; try discriminate.
  - destruct p; try discriminate.
    + destruct o; [discriminate|]. destruct (seg 32 s false p) as [[[s' b] p']|] eqn:E; [|discriminate].
      injection H as <-. by eapply mstep_lock.
    + case_decide; [|discriminate]. subst o. injection H as <-. by eapply mstep_unlock.
    + case_decide; [|discriminate]. subst o. injection H as <-. by eapply mstep_wait.
    + injection H as <-. by eapply mstep_mark.
  - injection H as <-. by eapply mstep_spurious.
  - destruct timed; [|discriminate]. injection H as <-. by eapply mstep_timeout.
Qed.

Lemma msched_reachable {S A} tms (x y : msys S A) : msched x tms = Some y -> mreachable x y.
Proof.
  revert x. induction tms as [|tm tms IH]; simpl; intros x H.
  - injection H as ->. constructor.
  - destruct (msched1 x tm) eqn:E; [|done]. econstructor; [by eapply msched1_step|by apply IH].
Qed.
