(* ===== verification/RwCode.v ===== *)
(** * Read-write locks: the code of libc/bionic/pthread-rwlocks.c

    The attribute functions and pthread_rwlock_init/destroy are programs over
    words (they touch the mutex and the condition variable themselves); the
    lock functions are monitor programs over the record of the four counters.
    [tid] is the kernel id of the calling thread (__get_thread_id). *)
From S2P Require Import Prelude Concur MutexCode CondCode Monitor.

(** ** Attributes, initialisation and destruction *)
Definition pthread_rwlockattr_init (attr : loc) : prog Z :=
  if attr =? 0 then Ret EINVAL else store attr PTHREAD_PROCESS_PRIVATE ;;; Ret 0.

Definition pthread_rwlockattr_destroy (attr : loc) : prog Z :=
  if attr =? 0 then Ret EINVAL else store attr (-1) ;;; Ret 0.

Definition pthread_rwlockattr_setpshared (attr : loc) (pshared : Z) : prog Z :=
  if attr =? 0 then Ret EINVAL
  else if (pshared =? PTHREAD_PROCESS_PRIVATE) || (pshared =? PTHREAD_PROCESS_SHARED)
  then store attr pshared ;;; Ret 0
  else Ret EINVAL.

Definition pthread_rwlockattr_getpshared (attr pshared : loc) : prog Z :=
  if (attr =? 0) || (pshared =? 0) then Ret EINVAL
  else v <- load attr ;; store pshared v ;;; Ret 0.

(** The fields of a [pthread_rwlock_t], and of the two attribute objects on the
    stack of pthread_rwlock_init (as addresses [stack], [stack + 4]). *)
Definition rw_lock (rwlock : loc) : loc := rwlock.
Definition rw_cond (rwlock : loc) : loc := rwlock + 4.
Definition rw_numLocks (rwlock : loc) : loc := rwlock + 8.
Definition rw_writerThreadId (rwlock : loc) : loc := rwlock + 12.
Definition rw_pendingReaders (rwlock : loc) : loc := rwlock + 16.
Definition rw_pendingWriters (rwlock : loc) : loc := rwlock + 20.

Definition pthread_rwlock_init (tid : Z) (stack rwlock attr : loc) : prog Z :=
  if rwlock =? 0 then Ret EINVAL
  else
    shared <- (if negb (attr =? 0)
               then a <- load attr ;; Ret (a =? PTHREAD_PROCESS_SHARED) else Ret false) ;;
    attrs <- (if shared : bool
     then pthread_mutexattr_init stack ;;;
          pthread_mutexattr_setpshared stack PTHREAD_PROCESS_SHARED ;;;
          pthread_condattr_init (stack + 4) ;;;
          pthread_condattr_setpshared (stack + 4) PTHREAD_PROCESS_SHARED ;;;
          Ret (stack, stack + 4)
     else Ret (0, 0)) ;;
    ret <- pthread_mutex_init (rw_lock rwlock) (fst attrs) ;;
    if negb (ret =? 0) then Ret ret
    else
      ret <- pthread_cond_init (rw_cond rwlock) (snd attrs) ;;
      if negb (ret =? 0) then pthread_mutex_destroy tid (rw_lock rwlock) ;;; Ret ret
      else
        store (rw_numLocks rwlock) 0 ;;;
        store (rw_pendingReaders rwlock) 0 ;;;
        store (rw_pendingWriters rwlock) 0 ;;;
        store (rw_writerThreadId rwlock) 0 ;;;
        Ret 0.

Definition pthread_rwlock_destroy (tid : Z) (rwlock : loc) : prog Z :=
  if rwlock =? 0 then Ret EINVAL
  else
    n <- load (rw_numLocks rwlock) ;;
    if 0 <? n then Ret EBUSY
    else
      pthread_cond_destroy (rw_cond rwlock) ;;;
      pthread_mutex_destroy tid (rw_lock rwlock) ;;;
      Ret 0.

(** ** Locking *)
Record rwlock_t : Type := RW {
  numLocks : Z; pendingReaders : Z; pendingWriters : Z; writerThreadId : Z }.

Definition set_numLocks (n : Z) (l : rwlock_t) : rwlock_t :=
  RW n (pendingReaders l) (pendingWriters l) (writerThreadId l).
Definition set_pendingReaders (n : Z) (l : rwlock_t) : rwlock_t :=
  RW (numLocks l) n (pendingWriters l) (writerThreadId l).
Definition set_pendingWriters (n : Z) (l : rwlock_t) : rwlock_t :=
  RW (numLocks l) (pendingReaders l) n (writerThreadId l).
Definition set_writerThreadId (n : Z) (l : rwlock_t) : rwlock_t :=
  RW (numLocks l) (pendingReaders l) (pendingWriters l) n.

Definition read_precondition (rwlock : rwlock_t) (thread_id : Z) : bool :=
  if 0 <? pendingWriters rwlock then false
  else if (writerThreadId rwlock =? 0) || (writerThreadId rwlock =? thread_id) then true
  else false.

Definition write_precondition (rwlock : rwlock_t) (thread_id : Z) : bool :=
  if numLocks rwlock =? 0 then true
  else if writerThreadId rwlock =? thread_id then true
  else false.

Open Scope monitor_scope.

Definition mget_st : mprog rwlock_t rwlock_t := MRead MRet.
Definition mput (s : rwlock_t) : mprog rwlock_t unit := MWrite s (MRet tt).
Definition mmod (f : rwlock_t -> rwlock_t) : mprog rwlock_t unit := s <- mget_st ;; mput (f s).
Definition mlock : mprog rwlock_t unit := MLock (MRet tt).
Definition munlock : mprog rwlock_t unit := MUnlock (MRet tt).
Definition mwait (timed : bool) : mprog rwlock_t Z := MWait timed MRet.

Definition _pthread_rwlock_pulse : mprog rwlock_t unit :=
  l <- mget_st ;;
  if (0 <? pendingReaders l) || (0 <? pendingWriters l) then MBroadcast (MRet tt) else MRet tt.

Definition pthread_rwlock_tryrdlock (tid : Z) (rwlock : loc) : mprog rwlock_t Z :=
  if rwlock =? 0 then MRet EINVAL else
  mlock ;;;
  l <- mget_st ;;
  ret <- (if negb (read_precondition l tid) then MRet EBUSY
          else mmod (fun l => set_numLocks (numLocks l + 1) l) ;;; MRet 0) ;;
  munlock ;;; MRet ret.

(** The do-while loop around pthread_cond_timedwait. *)
Definition wait_until (timed : bool) (precondition : rwlock_t -> bool) : mprog rwlock_t Z :=
  MLoop (ret <- mwait timed ;;
         l <- mget_st ;;
         MRet (if (ret =? 0) && negb (precondition l) then None else Some ret)) MRet.

(** [timed]: abs_timeout is not NULL. *)
Definition pthread_rwlock_timedrdlock (tid : Z) (rwlock : loc) (timed : bool) : mprog rwlock_t Z :=
  if rwlock =? 0 then MRet EINVAL else
  mlock ;;;
  l <- mget_st ;;
  ret <- (if negb (read_precondition l tid) then
            mmod (fun l => set_pendingReaders (pendingReaders l + 1) l) ;;;
            ret <- wait_until timed (fun l => read_precondition l tid) ;;
            mmod (fun l => set_pendingReaders (pendingReaders l - 1) l) ;;;
            MRet ret
          else MRet 0) ;;
  (if negb (ret =? 0) then MRet tt
   else mmod (fun l => set_numLocks (numLocks l + 1) l)) ;;;
  munlock ;;; MRet ret.

Definition pthread_rwlock_rdlock (tid : Z) (rwlock : loc) : mprog rwlock_t Z :=
  pthread_rwlock_timedrdlock tid rwlock false.

Definition pthread_rwlock_trywrlock (tid : Z) (rwlock : loc) : mprog rwlock_t Z :=
  if rwlock =? 0 then MRet EINVAL else
  mlock ;;;
  l <- mget_st ;;
  ret <- (if negb (write_precondition l tid) then MRet EBUSY
          else mmod (fun l => set_numLocks (numLocks l + 1) l) ;;;
               mmod (set_writerThreadId tid) ;;; MRet 0) ;;
  munlock ;;; MRet ret.

Definition pthread_rwlock_timedwrlock (tid : Z) (rwlock : loc) (timed : bool) : mprog rwlock_t Z :=
  if rwlock =? 0 then MRet EINVAL else
  mlock ;;;
  l <- mget_st ;;
  ret <- (if negb (write_precondition l tid) then
            mmod (fun l => set_pendingWriters (pendingWriters l + 1) l) ;;;
            ret <- wait_until timed (fun l => write_precondition l tid) ;;
            mmod (fun l => set_pendingWriters (pendingWriters l - 1) l) ;;;
            MRet ret
          else MRet 0) ;;
  (if negb (ret =? 0) then MRet tt
   else mmod (fun l => set_numLocks (numLocks l + 1) l) ;;;
        mmod (set_writerThreadId tid)) ;;;
  munlock ;;; MRet ret.

Definition pthread_rwlock_wrlock (tid : Z) (rwlock : loc) : mprog rwlock_t Z :=
  pthread_rwlock_timedwrlock tid rwlock false.

Definition pthread_rwlock_unlock (tid : Z) (rwlock : loc) : mprog rwlock_t Z :=
  if rwlock =? 0 then MRet EINVAL else
  mlock ;;;
  l <- mget_st ;;
  ret <- (if numLocks l =? 0 then MRet EPERM
          else if writerThreadId l =? 0 then
            mmod (fun l => set_numLocks (numLocks l - 1) l) ;;;
            l <- mget_st ;;
            (if numLocks l =? 0 then _pthread_rwlock_pulse else MRet tt) ;;;
            MRet 0
          else if negb (writerThreadId l =? tid) then MRet EPERM
          else
            mmod (fun l => set_numLocks (numLocks l - 1) l) ;;;
            l <- mget_st ;;
            (if numLocks l =? 0
             then mmod (set_writerThreadId 0) ;;; _pthread_rwlock_pulse
             else MRet tt) ;;;
            MRet 0) ;;
  munlock ;;; MRet ret.
