(* ===== verification/RwSafety.v ===== *)
(** * Read-write locks under every interleaving

    Any number of threads take one read-write lock for reading or writing (with
    the blocking, the trying and the timed functions), pass a critical section
    and unlock. *)
From S2P Require Import Prelude Concur Monitor RwCode.
Open Scope monitor_scope.

Inductive rwop : Type :=
| ORd (timed : bool) | OWr (timed : bool) | OTryRd | OTryWr.

#[export] Instance rwop_eq_dec : EqDecision rwop.
Proof. solve_decision. Defined.

Section RW.
Context (addr : positive).
Definition rw : loc := Zpos addr.

Definition rw_acquire (t : Z) (o : rwop) : mprog rwlock_t Z :=
  match o with
  | ORd false => pthread_rwlock_rdlock t rw
  | ORd true => pthread_rwlock_timedrdlock t rw true
  | OWr false => pthread_rwlock_wrlock t rw
  | OWr true => pthread_rwlock_timedwrlock t rw true
  | OTryRd => pthread_rwlock_tryrdlock t rw
  | OTryWr => pthread_rwlock_trywrlock t rw
  end.

Definition writes (o : rwop) : bool := match o with OWr _ | OTryWr => true | _ => false end.

(** The critical section of an acquisition is marked with its mode. *)
Fixpoint rw_client (t : Z) (ops : list rwop) : mprog rwlock_t unit :=
  match ops with
  | [] => MRet tt
  | o :: ops =>
      r <- rw_acquire t o ;;
      (if r =? 0 then MMark (writes o) (MRet tt) ;;; pthread_rwlock_unlock t rw ;;; MRet tt
       else MRet tt) ;;;
      rw_client t ops
  end.

(** ** Program points ([m]: [true] for writing) *)
Inductive rpc : Type :=
| QStart (ops : list rwop)
| QAtWait (m timed : bool) (ops : list rwop)      (* about to wait, holding the mutex *)
| QWaiting (m timed : bool) (ops : list rwop)
| QWoken (m timed : bool) (r : Z) (ops : list rwop)  (* about to take the mutex again *)
| QGot (m : bool) (ops : list rwop)               (* acquired, still holding the mutex *)
| QFail (m : bool) (r : Z) (ops : list rwop)
| QCrit (m : bool) (ops : list rwop)
| QUnl (m : bool) (ops : list rwop)               (* before pthread_rwlock_unlock *)
| QUnlIn (ops : list rwop).

Definition after_acq (t : Z) (m : bool) (ops : list rwop) (r : Z) : mprog rwlock_t unit :=
  (if r =? 0 then MMark m (MRet tt) ;;; pthread_rwlock_unlock t rw ;;; MRet tt
   else MRet tt) ;;;
  rw_client t ops.

Definition precondition (t : Z) (m : bool) (l : rwlock_t) : bool :=
  if m then write_precondition l t else read_precondition l t.
Definition pending_add (m : bool) (d : Z) (l : rwlock_t) : rwlock_t :=
  if m then set_pendingWriters (pendingWriters l + d) l
  else set_pendingReaders (pendingReaders l + d) l.
Definition acquired (t : Z) (m : bool) (l : rwlock_t) : rwlock_t :=
  if m then set_writerThreadId t (set_numLocks (numLocks l + 1) l)
  else set_numLocks (numLocks l + 1) l.

(** After the waiting loop, and the waiting loop itself. *)
Definition wait_exit (t : Z) (m : bool) (ops : list rwop) (z : Z) : mprog rwlock_t unit :=
  if m then
    mbind (mbind (mmod (fun l => set_pendingWriters (pendingWriters l - 1) l)) (fun _ =>
            mbind (if negb (z =? 0) then MRet tt
                   else mmod (fun l => set_numLocks (numLocks l + 1) l) ;;;
                        mmod (set_writerThreadId t)) (fun _ => munlock ;;; MRet z)))
          (after_acq t m ops)
  else
    mbind (mbind (mmod (fun l => set_pendingReaders (pendingReaders l - 1) l)) (fun _ =>
            mbind (if negb (z =? 0) then MRet tt
                   else mmod (fun l => set_numLocks (numLocks l + 1) l)) (fun _ => munlock ;;; MRet z)))
          (after_acq t m ops).
Definition wait_body (t : Z) (m timed : bool) : mprog rwlock_t (option Z) :=
  if m then
    (ret <- mwait timed ;; l <- mget_st ;;
     MRet (if (ret =? 0) && negb (write_precondition l t) then None else Some ret))
  else
    (ret <- mwait timed ;; l <- mget_st ;;
     MRet (if (ret =? 0) && negb (read_precondition l t) then None else Some ret)).
Definition waitk (t : Z) (m timed : bool) (ops : list rwop) (r : Z) : mprog rwlock_t unit :=
  MRead (fun l => match (if (r =? 0) && negb (precondition t m l) then None else Some r) with
                  | Some z => wait_exit t m ops z
                  | None => MLoop (wait_body t m timed) (wait_exit t m ops)
                  end).

Definition rcode (t : Z) (p : rpc) : mthread rwlock_t unit :=
  match p with
  | QStart ops => TRun (rw_client t ops)
  | QAtWait m timed ops => TRun (MWait timed (waitk t m timed ops))
  | QWaiting m timed ops => TWait timed (waitk t m timed ops)
  | QWoken m timed r ops => TRun (MLock (waitk t m timed ops r))
  | QGot m ops => TRun (MUnlock (after_acq t m ops 0))
  | QFail m r ops => TRun (MUnlock (after_acq t m ops r))
  | QCrit m ops => TRun (after_acq t m ops 0)
  | QUnl m ops => TRun (mbind (mbind (pthread_rwlock_unlock t rw) (fun _ => MRet tt))
                              (fun _ => rw_client t ops))
  | QUnlIn ops => TRun (MUnlock (rw_client t ops))
  end.

(** The state and the point after a thread took the mutex at point [p]; the
    boolean says whether it broadcast. *)
Definition try_point (t : Z) (m : bool) (ops : list rwop) (s : rwlock_t) (block : rwlock_t * bool * rpc) :
    rwlock_t * bool * rpc :=
  if precondition t m s then (acquired t m s, false, QGot m ops) else block.

Definition has_pending (s : rwlock_t) : bool := (0 <? pendingReaders s) || (0 <? pendingWriters s).
Definition entered (t : Z) (p : rpc) (s : rwlock_t) : rwlock_t * bool * rpc :=
  match p with
  | QStart (ORd timed :: ops) =>
      try_point t false ops s (pending_add false 1 s, false, QAtWait false timed ops)
  | QStart (OWr timed :: ops) =>
      try_point t true ops s (pending_add true 1 s, false, QAtWait true timed ops)
  | QStart (OTryRd :: ops) => try_point t false ops s (s, false, QFail false EBUSY ops)
  | QStart (OTryWr :: ops) => try_point t true ops s (s, false, QFail true EBUSY ops)
  | QWoken m timed r ops =>
      if (r =? 0) && negb (precondition t m s) then (s, false, QAtWait m timed ops)
      else if r =? 0 then (acquired t m (pending_add m (-1) s), false, QGot m ops)
      else (pending_add m (-1) s, false, QFail m r ops)
  | QUnl m ops =>
      if numLocks s =? 0 then (s, false, QUnlIn ops)
      else if writerThreadId s =? 0 then
        let s := set_numLocks (numLocks s - 1) s in
        (s, (numLocks s =? 0) && has_pending s, QUnlIn ops)
      else if negb (writerThreadId s =? t) then (s, false, QUnlIn ops)
      else
        let s := set_numLocks (numLocks s - 1) s in
        if numLocks s =? 0 then (set_writerThreadId 0 s, has_pending s, QUnlIn ops)
        else (s, false, QUnlIn ops)
  | p => (s, false, p)
  end.
End RW.

#[export] Instance rpc_eq_dec : EqDecision rpc.
Proof. solve_decision. Defined.

(** The points at which a thread is about to take the mutex. *)
Definition locking (p : rpc) : bool :=
  match p with QStart (_ :: _) | QWoken _ _ _ _ | QUnl _ _ => true | _ => false end.

Ltac rpc_cases p :=
  destruct p as [[|[timed|timed| |] ops]|m timed ops|m timed ops|m timed r ops|m ops|m r ops|m ops|m ops|ops].

(** Taking the mutex at a point leads where [entered] says. *)
Lemma code_entered addr t p s :
  locking p = true ->
  exists q, rcode addr t p = TRun (MLock q) /\
    seg 32 s false q =
      (let '(s', b, p') := entered t p s in
       match rcode addr t p' with TRun q' => Some (s', b, q') | TWait _ _ => None end).
Proof.
  intros Hl. rpc_cases p; try discriminate Hl; try destruct timed;
    (eexists; split; [reflexivity|]); unfold entered, try_point, waitk, wait_exit, precondition; seg_run.
  1, 2: destruct (read_precondition s t); seg_run; reflexivity.
  1, 2: destruct (write_precondition s t); seg_run; reflexivity.
  1: destruct (read_precondition s t); seg_run; reflexivity.
  1: destruct (write_precondition s t); seg_run; reflexivity.
  1, 2: destruct m; simpl; destruct (r =? 0) eqn:E; simpl; [apply Z.eqb_eq in E as ->| |apply Z.eqb_eq in E as ->|];
    try destruct (write_precondition s t); try destruct (read_precondition s t); seg_run; try rewrite E; seg_run; reflexivity.
  destruct (numLocks s =? 0); seg_run; [reflexivity|]. unfold has_pending; simpl.
  destruct (writerThreadId s =? 0); [|destruct (writerThreadId s =? t)]; seg_run; try reflexivity;
    (destruct (numLocks s - 1 =? 0); seg_run; [|reflexivity]);
    destruct ((0 <? pendingReaders s) || (0 <? pendingWriters s)); seg_run; reflexivity.
Qed.

(** ** The invariant *)
Definition holds (p : rpc) : Z := match p with QGot _ _ | QCrit _ _ | QUnl _ _ => 1 | _ => 0 end.
Definition holdsW (p : rpc) : bool := match p with QGot m _ | QCrit m _ | QUnl m _ => m | _ => false end.
Definition pend (w : bool) (p : rpc) : Z :=
  match p with
  | QAtWait m _ _ | QWaiting m _ _ | QWoken m _ _ _ => if Bool.eqb m w then 1 else 0
  | _ => 0
  end.
Definition blocked (p : rpc) : bool := match p with QAtWait _ _ _ | QWaiting _ _ _ => true | _ => false end.
Definition inmon (p : rpc) : bool :=
  match p with QAtWait _ _ _ | QGot _ _ | QFail _ _ _ | QUnlIn _ => true | _ => false end.

(** [nt]: no thread uses a timed write lock. *)
Definition op_ok (nt : bool) (o : rwop) : bool := match o with OWr timed => negb (nt && timed) | _ => true end.
Definition rpc_ok (nt : bool) (p : rpc) : bool :=
  match p with
  | QStart ops | QGot _ ops | QCrit _ ops | QUnl _ ops | QUnlIn ops => forallb (op_ok nt) ops
  | QFail _ r ops => negb (r =? 0) && forallb (op_ok nt) ops
  | QAtWait m timed ops | QWaiting m timed ops => negb (nt && m && timed) && forallb (op_ok nt) ops
  | QWoken m timed r ops =>
      ((r =? 0) || (r =? ETIMEDOUT) && timed) && negb (nt && m && timed) && forallb (op_ok nt) ops
  end.

Record rinv (nt : bool) (s : rwlock_t) (o : option Z) (pcs : gmap Z rpc) : Prop := {
  ri_nz : forall t p, pcs !! t = Some p -> t <> 0;
  ri_ok : forall t p, pcs !! t = Some p -> rpc_ok nt p = true;
  ri_in : forall t p, pcs !! t = Some p -> inmon p = true -> o = Some t;
  ri_owner : forall t, o = Some t -> exists p, pcs !! t = Some p /\ inmon p = true;
  ri_num : numLocks s = msum holds pcs;
  ri_pr : pendingReaders s = msum (pend false) pcs;
  ri_pw : pendingWriters s = msum (pend true) pcs;
  ri_w : forall t p, pcs !! t = Some p -> holdsW p = true -> writerThreadId s = t /\ numLocks s = 1;
  ri_w0 : writerThreadId s <> 0 -> exists p, pcs !! writerThreadId s = Some p /\ holdsW p = true }.

(** Without timed writers: while nobody holds the lock, only readers are
    blocked, and only behind a writer that is on its way. *)
Definition jinv (s : rwlock_t) (pcs : gmap Z rpc) : Prop :=
  numLocks s = 0 -> forall t p, pcs !! t = Some p -> blocked p = true ->
  pend true p = 0 /\ 0 < pendingWriters s.

Lemma holds_nonneg p : 0 <= holds p.
Proof. by destruct p. Qed.
Lemma pend_nonneg w p : 0 <= pend w p.
Proof. destruct p; simpl; try done; by destruct (Bool.eqb _ _). Qed.
Lemma holdsW_holds p : holdsW p = true -> holds p = 1.
Proof. by destruct p. Qed.

Section Inv.
Context (nt : bool) (s : rwlock_t) (o : option Z) (pcs : gmap Z rpc) (t : Z) (p : rpc).
Context (HI : rinv nt s o pcs) (Hp : pcs !! t = Some p) (Hfree : o = None \/ o = Some t).

(** Thread [t] moves to [p'], the state becoming [s'] and the owner [t] or none. *)
Lemma rinv_move s' o' p' :
  rpc_ok nt p' = true -> o' = (if inmon p' then Some t else None) ->
  numLocks s' - numLocks s = holds p' - holds p ->
  pendingReaders s' - pendingReaders s = pend false p' - pend false p ->
  pendingWriters s' - pendingWriters s = pend true p' - pend true p ->
  (forall u q, u <> t -> pcs !! u = Some q -> holdsW q = true -> writerThreadId s' = u /\ numLocks s' = 1) ->
  (holdsW p' = true -> writerThreadId s' = t /\ numLocks s' = 1) ->
  (writerThreadId s' <> 0 ->
     (writerThreadId s' = t /\ holdsW p' = true) \/
     (writerThreadId s' <> t /\ writerThreadId s' = writerThreadId s)) ->
  rinv nt s' o' (<[t := p']> pcs).
Proof using HI Hp Hfree.
  intros Hok Ho' Hn Hr Hw Hothers Hself Hwr. destruct HI. constructor.
  - intros u q [[<- _]|[_ Hu]]%lookup_insert_Some; eauto.
  - intros u q [[<- <-]|[_ Hu]]%lookup_insert_Some; eauto.
  - intros u q [[<- <-]|[Hne Hu]]%lookup_insert_Some Hq; [by rewrite Ho', Hq|].
    specialize (ri_in0 u q Hu Hq). destruct Hfree; congruence.
  - intros u Hu. rewrite Ho' in Hu. destruct (inmon p') eqn:E; [|done]. injection Hu as <-.
    exists p'. by rewrite lookup_insert_eq.
  - rewrite (msum_insert _ _ _ p) by done. lia.
  - rewrite (msum_insert _ _ _ p) by done. lia.
  - rewrite (msum_insert _ _ _ p) by done. lia.
  - intros u q [[<- <-]|[Hne Hu]]%lookup_insert_Some Hq; eauto.
  - intros Hnz. destruct (Hwr Hnz) as [[-> Hq]|[Hne Heq]].
    + exists p'. by rewrite lookup_insert_eq.
    + rewrite lookup_insert_ne by congruence. rewrite Heq. apply ri_w2. congruence.
Qed.

(** No other thread holds the lock for writing while [t] is not the writer and
    the lock is free, or while [t] holds it. *)
Lemma no_other_writer u q :
  numLocks s = 0 \/ holds p = 1 -> u <> t -> pcs !! u = Some q -> holdsW q = true -> False.
Proof using HI Hp.
  intros [Hz|Hh] Hne Hu Hq; destruct (ri_w _ _ _ _ HI u q Hu Hq) as [_ H1]; [lia|].
  rewrite (ri_num _ _ _ _ HI) in H1. pose proof (holdsW_holds q Hq).
  pose proof (msum_ge_two holds pcs u t q p holds_nonneg Hne Hu Hp). lia.
Qed.

Lemma self_not_writer : holds p = 0 -> writerThreadId s <> t.
Proof using HI Hp.
  intros Hh E. destruct (ri_w0 _ _ _ _ HI) as (q & Hq & Hw).
  - rewrite E. by apply (ri_nz _ _ _ _ HI t p).
  - rewrite E, Hp in Hq. injection Hq as <-. apply holdsW_holds in Hw. lia.
Qed.

Lemma pre_free m :
  holds p = 0 -> precondition t m s = true ->
  if m then numLocks s = 0 else writerThreadId s = 0.
Proof using HI Hp.
  intros Hh Hpre. pose proof (self_not_writer Hh) as Hns.
  destruct m; simpl in Hpre; unfold write_precondition, read_precondition in Hpre;
    repeat case_test_in Hpre; try discriminate Hpre; zbool; try done.
  apply orb_true_iff in E0 as [E0|E0]; zbool; done.
Qed.

(** Acquiring in mode [m] from a point of pending weight [d]. *)
Lemma rinv_acquire m d ops :
  holds p = 0 -> pend m p = d -> pend (negb m) p = 0 -> precondition t m s = true ->
  forallb (op_ok nt) ops = true ->
  rinv nt (acquired t m (pending_add m (- d) s)) (Some t) (<[t := QGot m ops]> pcs) /\
  numLocks (acquired t m (pending_add m (- d) s)) <> 0.
Proof using HI Hp Hfree.
  intros Hh Hd Hd' Hpre Hok. pose proof (pre_free m Hh Hpre) as Hfr.
  assert (0 <= numLocks s) by (rewrite (ri_num _ _ _ _ HI); apply msum_nonneg, holds_nonneg).
  split; [|destruct m; simpl; lia].
  destruct m; apply rinv_move; simpl in *; try done; try lia.
  - intros u q Hne Hu Hq. exfalso. eapply no_other_writer; eauto.
  - intros u q Hne Hu Hq. exfalso. destruct (ri_w _ _ _ _ HI u q Hu Hq) as [Hwu _].
    rewrite Hfr in Hwu. subst u. by apply (ri_nz _ _ _ _ HI _ _ Hu).
Qed.

(** Starting to wait, giving up, and the moves that leave the counters alone. *)
Lemma rinv_shift m d o' p' :
  holds p' = holds p -> holdsW p' = holdsW p -> pend m p' = pend m p + d ->
  pend (negb m) p' = pend (negb m) p -> rpc_ok nt p' = true ->
  o' = (if inmon p' then Some t else None) ->
  rinv nt (pending_add m d s) o' (<[t := p']> pcs).
Proof using HI Hp Hfree.
  intros Hh HW Hd Hd' Hok Ho. 
  assert (Hwr : writerThreadId s <> 0 -> (writerThreadId s = t /\ holdsW p = true) \/
     (writerThreadId s <> t /\ writerThreadId s = writerThreadId s)).
  { intros Hnz. destruct (decide (writerThreadId s = t)) as [E|]; [left|right; done].
    destruct (ri_w0 _ _ _ _ HI Hnz) as (q & Hq & Hw). rewrite E, Hp in Hq. split; congruence. }
  pose proof (ri_w _ _ _ _ HI).
  destruct m; apply rinv_move; simpl in *; rewrite ?HW; eauto; lia.
Qed.
End Inv.

(** A broadcast moves every waiting thread on its way. *)
Definition wkp (p : rpc) : rpc := match p with QWaiting m timed ops => QWoken m timed 0 ops | p => p end.
Definition wkall (b : bool) (pcs : gmap Z rpc) : gmap Z rpc := if b then wkp <$> pcs else pcs.

Lemma lookup_wkp (pcs : gmap Z rpc) t q :
  (wkp <$> pcs) !! t = Some q -> exists p, pcs !! t = Some p /\ q = wkp p.
Proof. rewrite lookup_fmap. destruct (pcs !! t); intros; simplify_eq/=; eauto. Qed.

Lemma rinv_wkall nt s o pcs b : rinv nt s o pcs -> rinv nt s o (wkall b pcs).
Proof.
  destruct b; [|done]. intros []. constructor; simpl.
  - intros t q (p & Hp & ->)%lookup_wkp. eauto.
  - intros t q (p & Hp & ->)%lookup_wkp. specialize (ri_ok0 t p Hp). by destruct p.
  - intros t q (p & Hp & ->)%lookup_wkp Hin. eapply ri_in0; [done|]. by destruct p.
  - intros t Ht. destruct (ri_owner0 t Ht) as (p & Hp & Hin). exists (wkp p).
    rewrite lookup_fmap, Hp. split; [done|by destruct p].
  - rewrite msum_fmap, ri_num0. apply msum_ext. by intros [].
  - rewrite msum_fmap, ri_pr0. apply msum_ext. by intros [].
  - rewrite msum_fmap, ri_pw0. apply msum_ext. by intros [].
  - intros t q (p & Hp & ->)%lookup_wkp HW. eapply ri_w1; [done|]. by destruct p.
  - intros Hnz. destruct (ri_w2 Hnz) as (p & Hp & HW). exists (wkp p).
    rewrite lookup_fmap, Hp. split; [done|by destruct p].
Qed.

(** Releasing the lock. *)
Lemma rinv_unlock nt s pcs t m ops :
  rinv nt s None pcs -> pcs !! t = Some (QUnl m ops) ->
  let '(s', b, p') := entered t (QUnl m ops) s in
  rinv nt s' (Some t) (<[t := p']> pcs) /\ p' = QUnlIn ops /\
  numLocks s' = numLocks s - 1 /\ pendingReaders s' = pendingReaders s /\
  pendingWriters s' = pendingWriters s /\ (numLocks s' = 0 -> b = has_pending s).
Proof.
  intros HI Hp. pose proof (ri_ok _ _ _ _ HI _ _ Hp) as Hok. simpl in Hok.
  assert (Hn : 1 <= numLocks s).
  { rewrite (ri_num _ _ _ _ HI). apply (msum_ge_one holds pcs t _ holds_nonneg Hp). }
  assert (Htz : t <> 0) by by apply (ri_nz _ _ _ _ HI t _ Hp).
  simpl. rewrite (proj2 (Z.eqb_neq _ _)) by lia.
  destruct m.
  - destruct (ri_w _ _ _ _ HI t _ Hp eq_refl) as [-> H1].
    rewrite (proj2 (Z.eqb_neq t 0)), Z.eqb_refl by done. simpl. rewrite H1. simpl.
    split_and!; try done. eapply rinv_move; eauto; simpl; try done; try lia.
    intros u q Hne Hu Hq. exfalso. eapply (no_other_writer nt s None pcs t _ HI Hp u q); auto.
  - assert (Hw : writerThreadId s = 0).
    { destruct (decide (writerThreadId s = 0)) as [|Hnz]; [done|exfalso].
      destruct (ri_w0 _ _ _ _ HI Hnz) as (q & Hq & HW).
      destruct (decide (writerThreadId s = t)) as [E|Hne]; [rewrite E, Hp in Hq; by injection Hq as <-|].
      eapply (no_other_writer nt s None pcs t _ HI Hp _ q); eauto. }
    rewrite Hw. simpl. split_and!; try done; [|by intros ->].
    eapply rinv_move; eauto; simpl; try done; try lia.
    intros u q Hne Hu Hq. exfalso. eapply (no_other_writer nt s None pcs t _ HI Hp u q); auto.
Qed.

Lemma jinv_other s s' pcs t p' :
  jinv s pcs -> numLocks s' = numLocks s -> pendingWriters s' = pendingWriters s ->
  (numLocks s = 0 -> blocked p' = true -> pend true p' = 0 /\ 0 < pendingWriters s) ->
  jinv s' (<[t := p']> pcs).
Proof.
  intros Hj Hn Hw Hp' Hz u q Hu Hq. rewrite Hn in Hz. rewrite Hw.
  apply lookup_insert_Some in Hu as [[<- <-]|[_ Hu]]; [auto|by eapply Hj].
Qed.

Lemma jinv_held s pcs : numLocks s <> 0 -> jinv s pcs.
Proof. by intros H Hz. Qed.

(** Readers that must wait find a writer holding the lock or pending. *)
Lemma read_blocked nt s o pcs t :
  rinv nt s o pcs -> read_precondition s t = false -> numLocks s = 0 -> 0 < pendingWriters s.
Proof.
  intros HI Hpre Hz. unfold read_precondition in Hpre. repeat case_test_in Hpre; try discriminate; zbool; [done|].
  destruct (ri_w0 _ _ _ _ HI) as (q & Hq & HW); [done|].
  destruct (ri_w _ _ _ _ HI _ _ Hq HW). lia.
Qed.

Lemma pending_add_0 m l : pending_add m 0 l = l.
Proof. destruct m, l; unfold pending_add, set_pendingWriters, set_pendingReaders; simpl; by rewrite Z.add_0_r. Qed.

(** After a release that found pending threads nobody is blocked. *)
Lemma jinv_unlock nt s pcs t m ops :
  rinv nt s None pcs -> pcs !! t = Some (QUnl m ops) ->
  let '(s', b, p') := entered t (QUnl m ops) s in jinv s' (wkall b (<[t := p']> pcs)).
Proof.
  intros HI Hp. pose proof (rinv_unlock nt s pcs t m ops HI Hp) as H.
  destruct (entered t (QUnl m ops) s) as [[s' b] p'].
  destruct H as (HI' & -> & Hn & Hr & Hw & Hb). intros Hz u q Hu Hq. exfalso.
  assert (Hnone : forall u q, <[t := QUnlIn ops]> pcs !! u = Some q -> match q with QAtWait _ _ _ => False | _ => True end).
  { intros v q0 [[<- <-]|[Hne Hv]]%lookup_insert_Some; [done|].
    destruct q0; try done. by apply (ri_in _ _ _ _ HI) in Hv. }
  rewrite (Hb Hz) in Hu. unfold wkall, has_pending in Hu.
  destruct ((0 <? pendingReaders s) || (0 <? pendingWriters s)) eqn:E.
  - apply lookup_wkp in Hu as (q' & Hu & ->). apply Hnone in Hu. by destruct q'.
  - assert (Hpend : pend true q + pend false q = 1) by (destruct q as [| [] | [] | | | | | |]; done).
    pose proof (msum_ge_one (pend true) _ u q (pend_nonneg true) Hu).
    pose proof (msum_ge_one (pend false) _ u q (pend_nonneg false) Hu).
    rewrite <- (ri_pr _ _ _ _ HI'), <- (ri_pw _ _ _ _ HI') in *. zbool. lia.
Qed.

Definition full_inv (nt : bool) s o pcs : Prop := rinv nt s o pcs /\ (nt = true -> jinv s pcs).

(** A thread that finds its precondition true at the start of a lock call. *)
Lemma start_acquire nt s pcs t o m ops :
  full_inv nt s None pcs -> pcs !! t = Some (QStart (o :: ops)) ->
  precondition t m s = true -> forallb (op_ok nt) ops = true ->
  full_inv nt (acquired t m s) (Some t) (<[t := QGot m ops]> pcs).
Proof.
  intros [HI HJ] Hp Hpre Hok.
  destruct (rinv_acquire nt s None pcs t _ HI Hp (or_introl eq_refl) m 0 ops) as [H1 H2]; try done.
  rewrite Z.opp_0, pending_add_0 in H1, H2. split; [done|]. intros _. by apply jinv_held.
Qed.

Lemma start_wait nt s pcs t o m timed ops :
  full_inv nt s None pcs -> pcs !! t = Some (QStart (o :: ops)) ->
  precondition t m s = false -> rpc_ok nt (QAtWait m timed ops) = true ->
  full_inv nt (pending_add m 1 s) (Some t) (<[t := QAtWait m timed ops]> pcs).
Proof.
  intros [HI HJ] Hp Hpre Hok. split.
  - eapply rinv_shift; eauto; simpl; by destruct m.
  - intros Hnt. destruct m; simpl in Hpre.
    + apply jinv_held. simpl. intros Hz. unfold write_precondition in Hpre. by rewrite Hz in Hpre.
    + eapply jinv_other; [by apply HJ|done..|]. intros Hz _. split; [done|]. by eapply read_blocked.
Qed.

Lemma start_fail nt s pcs t o m r ops :
  full_inv nt s None pcs -> pcs !! t = Some (QStart (o :: ops)) ->
  rpc_ok nt (QFail m r ops) = true -> full_inv nt s (Some t) (<[t := QFail m r ops]> pcs).
Proof.
  intros [HI HJ] Hp Hok. split.
  - rewrite <- (pending_add_0 true s). eapply rinv_shift; eauto.
  - intros Hnt. eapply jinv_other; [by apply HJ|done..].
Qed.

(** Giving up a wait whose time is over. *)
Lemma stop_waiting nt s o pcs t m timed ops p :
  full_inv nt s o pcs -> pcs !! t = Some p -> o = None \/ o = Some t ->
  p = QAtWait m timed ops \/ p = QWoken m timed ETIMEDOUT ops -> timed = true ->
  rpc_ok nt p = true ->
  full_inv nt (pending_add m (-1) s) (Some t) (<[t := QFail m ETIMEDOUT ops]> pcs).
Proof.
  intros [HI HJ] Hp Ho Hcase -> Hok. split.
  - eapply rinv_shift; eauto; destruct Hcase as [-> | ->]; simpl in *; try (by destruct m);
      zbool; rewrite ?andb_true_iff; done.
  - intros ->. assert (m = false) as -> by (destruct Hcase as [-> | ->], m; simpl in Hok; zbool; done).
    eapply jinv_other; [by apply HJ|done..].
Qed.

Lemma entered_inv nt s pcs t p :
  full_inv nt s None pcs -> pcs !! t = Some p -> locking p = true ->
  let '(s', b, p') := entered t p s in full_inv nt s' (Some t) (wkall b (<[t := p']> pcs)).
Proof.
  intros [HI HJ] Hp Hl. pose proof (ri_ok _ _ _ _ HI _ _ Hp) as Hok.
  rpc_cases p; try discriminate Hl; simpl in Hok; simpl.
  - unfold try_point. case_test; [by apply (start_acquire nt s pcs t (ORd timed) false)|].
    apply (start_wait nt s pcs t (ORd timed) false timed ops); [by split|done..|].
    simpl. by rewrite andb_false_r.
  - unfold try_point. zbool. case_test; [by apply (start_acquire nt s pcs t (OWr timed) true)|].
    apply (start_wait nt s pcs t (OWr timed) true timed ops); [by split|done..|].
    simpl. rewrite andb_true_r. apply andb_true_iff. split; [|done]. by apply negb_true_iff.
  - unfold try_point. case_test; [by apply (start_acquire nt s pcs t OTryRd false)|].
    by apply (start_fail nt s pcs t OTryRd false).
  - unfold try_point. case_test; [by apply (start_acquire nt s pcs t OTryWr true)|].
    by apply (start_fail nt s pcs t OTryWr true).
  - zbool. destruct (r =? 0) eqn:E; simpl.
    + zbool. subst r. destruct (precondition t m s) eqn:Hpre; simpl.
      * destruct (rinv_acquire nt s None pcs t _ HI Hp (or_introl eq_refl) m 1 ops) as [H1' H2'];
          simpl; try done; try (by destruct m).
      * split.
        -- rewrite <- (pending_add_0 true s). eapply rinv_shift; eauto; simpl; try lia.
           zbool. rewrite ?andb_true_iff, ?negb_true_iff. done.
        -- intros Hnt. eapply jinv_other; [by apply HJ|done..|]. intros Hz _. destruct m; simpl in *.
           ++ unfold write_precondition in Hpre. by rewrite Hz in Hpre.
           ++ split; [done|]. by eapply read_blocked.
    + rewrite orb_false_l in H. zbool. subst r timed.
      eapply (stop_waiting nt s None pcs t m true ops); [by split|done|auto|auto|done|].
      apply (ri_ok _ _ _ _ HI _ _ Hp).
  - pose proof (rinv_unlock nt s pcs t m ops HI Hp) as HU.
    pose proof (jinv_unlock nt s pcs t m ops HI Hp) as HJ'.
    change (let '(s', b, p') := entered t (QUnl m ops) s in full_inv nt s' (Some t) (wkall b (<[t := p']> pcs))).
    destruct (entered t (QUnl m ops) s) as [[s' b] p'].
    split; [apply rinv_wkall, HU|done].
Qed.

(** ** Steps *)
Definition rsys_inv addr nt (x : msys rwlock_t unit) : Prop :=
  exists pcs, points_at (rcode addr) (mthreads x) pcs /\ full_inv nt (mstate x) (mowner x) pcs.

(** A move that leaves the lock's counters alone. *)
Lemma quiet_inv nt s o o' pcs t p p' :
  full_inv nt s o pcs -> pcs !! t = Some p -> o = None \/ o = Some t ->
  holds p' = holds p -> holdsW p' = holdsW p ->
  (forall w, pend w p' = pend w p) -> rpc_ok nt p' = true ->
  o' = (if inmon p' then Some t else None) -> (blocked p' = true -> blocked p = true) ->
  full_inv nt s o' (<[t := p']> pcs).
Proof.
  intros [HI HJ] Hp Ho Hh HW Hpe Hok Ho' Hb. split.
  - rewrite <- (pending_add_0 true s). eapply rinv_shift; eauto; rewrite !Hpe; lia.
  - intros Hnt. eapply jinv_other; [by apply HJ|done..|]. intros Hz Hb'.
    rewrite Hpe. eapply HJ; eauto.
Qed.

(** A move outside the monitor: a wake-up, or the end of a critical section. *)
Lemma outside_inv nt s o pcs t p p' :
  full_inv nt s o pcs -> pcs !! t = Some p -> inmon p = false -> inmon p' = false ->
  holds p' = holds p -> holdsW p' = holdsW p -> (forall w, pend w p' = pend w p) ->
  rpc_ok nt p' = true -> blocked p' = false ->
  full_inv nt s o (<[t := p']> pcs).
Proof.
  intros [[] HJ] Hp Hin Hin' Hh HW Hpe Hok Hb. split; [constructor|].
  - intros u q [[<- _]|[_ Hu]]%lookup_insert_Some; eauto.
  - intros u q [[<- <-]|[_ Hu]]%lookup_insert_Some; eauto.
  - intros u q [[<- <-]|[_ Hu]]%lookup_insert_Some Hq; [congruence|eauto].
  - intros u Hu. destruct (ri_owner0 u Hu) as (q & Hq & Hi). exists q.
    rewrite lookup_insert_ne; [done|]. intros ->. congruence.
  - rewrite (msum_insert _ _ _ _ _ Hp), ri_num0. lia.
  - rewrite (msum_insert _ _ _ _ _ Hp), ri_pr0, Hpe. lia.
  - rewrite (msum_insert _ _ _ _ _ Hp), ri_pw0, Hpe. lia.
  - intros u q [[<- <-]|[_ Hu]]%lookup_insert_Some Hq; [|eauto]. apply (ri_w1 t p); congruence.
  - intros Hnz. destruct (ri_w2 Hnz) as (q & Hq & HW').
    destruct (decide (writerThreadId s = t)) as [E|Hne].
    + rewrite E in Hq |- *. exists p'. rewrite lookup_insert_eq. split; congruence.
    + exists q. by rewrite lookup_insert_ne.
  - intros Hnt Hz u q Hu Hq.
    apply lookup_insert_Some in Hu as [[<- <-]|[_ Hu]]; [congruence|by eapply HJ].
Qed.

Lemma wake_inv nt s o pcs t m timed ops r :
  full_inv nt s o pcs -> pcs !! t = Some (QWaiting m timed ops) ->
  r = 0 \/ (r = ETIMEDOUT /\ timed = true) ->
  full_inv nt s o (<[t := QWoken m timed r ops]> pcs).
Proof.
  intros HI Hp Hr. pose proof (ri_ok _ _ _ _ (proj1 HI) _ _ Hp) as Hok. simpl in Hok.
  eapply outside_inv; eauto. simpl. rewrite <- andb_assoc, Hok, andb_true_r.
  by destruct Hr as [-> | [-> ->]].
Qed.

Lemma rcode_broadcast addr b th pcs :
  points_at (rcode addr) th pcs -> points_at (rcode addr) (broadcast b th) (wkall b pcs).
Proof.
  intros Hat. destruct b; [|done]. intros t. simpl. rewrite !lookup_fmap, Hat.
  destruct (pcs !! t) as [p|]; [|done]. simpl. f_equal. rpc_cases p; done.
Qed.

(** The point of a thread from the shape of its program. *)
Lemma rcode_lock addr t p q : rcode addr t p = TRun (MLock q) -> locking p = true.
Proof. rpc_cases p; try done; simpl; intros H; simplify_eq. Qed.

Lemma rcode_unlock addr nt t p q :
  rpc_ok nt p = true -> rcode addr t p = TRun (MUnlock q) ->
  exists p', TRun q = rcode addr t p' /\ inmon p = true /\ inmon p' = false /\ holds p' = holds p /\
    holdsW p' = holdsW p /\ (forall w, pend w p' = pend w p) /\ rpc_ok nt p' = true /\ blocked p' = false.
Proof.
  rpc_cases p; try done; try (by destruct timed); simpl; intros Hok H; simplify_eq.
  - by exists (QCrit m ops).
  - zbool. exists (QStart ops). split_and!; try done. unfold after_acq.
    by rewrite (proj2 (Z.eqb_neq _ _)).
  - by exists (QStart ops).
Qed.

Lemma rcode_wait addr t p tm k :
  rcode addr t p = TRun (MWait tm k) ->
  exists m ops, p = QAtWait m tm ops /\ k = waitk addr t m tm ops.
Proof. rpc_cases p; try done; try (by destruct timed); simpl; intros H; simplify_eq; eauto. Qed.

Lemma rcode_waiting addr t p tm k :
  rcode addr t p = TWait tm k ->
  exists m ops, p = QWaiting m tm ops /\ k = waitk addr t m tm ops.
Proof. rpc_cases p; try done; simpl; intros H; simplify_eq; eauto. Qed.

Lemma rcode_mark addr t p mode q :
  rcode addr t p = TRun (MMark mode q) -> exists ops, p = QCrit mode ops /\ TRun q = rcode addr t (QUnl mode ops).
Proof. rpc_cases p; try done; try (by destruct timed); simpl; intros H; simplify_eq; eauto. Qed.

Lemma entered_inmon t p s : locking p = true -> inmon (snd (entered t p s)) = true.
Proof. rpc_cases p; try done; intros _; simpl; unfold try_point; repeat case_test; done. Qed.

Lemma inmon_run addr t p : inmon p = true -> exists q, rcode addr t p = TRun q.
Proof. destruct p; try done; intros _; simpl; eauto. Qed.

(** The stretch of a thread that takes the mutex, with any fuel. *)
Lemma entered_seg addr t p s :
  locking p = true ->
  exists q q', rcode addr t p = TRun (MLock q) /\
    rcode addr t (snd (entered t p s)) = TRun q' /\
    seg 32 s false q = Some (fst (fst (entered t p s)), snd (fst (entered t p s)), q').
Proof.
  intros Hl. destruct (code_entered addr t p s Hl) as (q & Hq & Hs).
  pose proof (entered_inmon t p s Hl) as Hin.
  destruct (entered t p s) as [[s' b] p']. simpl in *.
  destruct (inmon_run addr t p' Hin) as [q' Hq']. rewrite Hq' in Hs. eauto.
Qed.

Lemma insert_point addr th pcs t p q :
  points_at (rcode addr) th pcs -> rcode addr t p = q ->
  points_at (rcode addr) (<[t := q]> th) (<[t := p]> pcs).
Proof. intros Hat <-. by apply (points_insert (rcode addr)). Qed.

Lemma rsys_step addr nt x y : rsys_inv addr nt x -> mstep x y -> rsys_inv addr nt y.
Proof.
  intros (pcs & Hat & HI) Hst. 
  destruct Hst as [s th t q s' b q' fuel Ht Hs|s th t q Ht|s th t timed k Ht
    |s th t k s' b q' fuel Ht Hs|s o th t timed k Ht|s o th t k Ht|s o th t mode q Ht];
    simpl in *; destruct (points_lookup _ _ _ _ _ Hat Ht) as (p & Hp & Hc); symmetry in Hc;
    pose proof (ri_ok _ _ _ _ (proj1 HI) _ _ Hp) as Hok.
  - pose proof (rcode_lock _ _ _ _ Hc) as Hl.
    destruct (entered_seg addr t p s Hl) as (q1 & q2 & Hq1 & Hq2 & Hs').
    rewrite Hc in Hq1. injection Hq1 as <-. pose proof (seg_det _ _ _ _ _ _ _ Hs Hs') as E.
    pose proof (entered_inv nt s pcs t p HI Hp Hl) as HI'.
    destruct (entered t p s) as [[s1 b1] p1]. simpl in *. injection E as -> -> ->.
    exists (wkall b1 (<[t := p1]> pcs)). split; [|done]. simpl.
    by apply rcode_broadcast, insert_point.
  - destruct (rcode_unlock addr nt t p q Hok Hc) as (p' & Hq & Hin & Hin' & Hh & HW & Hpe & Hok' & Hb).
    exists (<[t := p']> pcs). split; [by apply insert_point|].
    eapply quiet_inv; eauto; simpl; [by rewrite Hin'|congruence].
  - destruct (rcode_wait _ _ _ _ _ Hc) as (m & ops & -> & ->).
    exists (<[t := QWaiting m timed ops]> pcs). split; [by apply insert_point|].
    eapply quiet_inv; eauto; done.
  - destruct (rcode_wait _ _ _ _ _ Hc) as (m & ops & -> & ->).
    destruct (entered_seg addr t (QWoken m true ETIMEDOUT ops) s eq_refl) as (q1 & q2 & Hq1 & Hq2 & Hs').
    injection Hq1 as <-. pose proof (seg_det _ _ _ _ _ _ _ Hs Hs') as E. simpl in *. injection E as -> -> ->.
    exists (<[t := QFail m ETIMEDOUT ops]> pcs). split; [simpl; by apply insert_point|].
    eapply (stop_waiting nt s (Some t) pcs t m true ops); eauto.
  - destruct (rcode_waiting _ _ _ _ _ Hc) as (m & ops & -> & ->).
    exists (<[t := QWoken m timed 0 ops]> pcs). split; [by apply insert_point|].
    eapply wake_inv; eauto.
  - destruct (rcode_waiting _ _ _ _ _ Hc) as (m & ops & -> & ->).
    exists (<[t := QWoken m true ETIMEDOUT ops]> pcs). split; [by apply insert_point|].
    eapply wake_inv; eauto.
  - destruct (rcode_mark _ _ _ _ _ Hc) as (ops & -> & Hq).
    exists (<[t := QUnl mode ops]> pcs). split; [by apply insert_point|].
    eapply outside_inv; eauto.
Qed.

(** ** Systems of clients *)
Definition rw_init addr (scripts : gmap Z (list rwop)) : msys rwlock_t unit :=
  MSys (RW 0 0 0 0) None (map_imap (fun t ops => Some (TRun (rw_client addr t ops))) scripts).

(** No thread of [scripts] has the id 0; no script uses a timed write lock. *)
Definition tids_ok (scripts : gmap Z (list rwop)) : Prop := scripts !! 0 = None.
Definition no_timed_writers (scripts : gmap Z (list rwop)) : Prop :=
  map_Forall (fun _ ops => forallb (op_ok true) ops = true) scripts.

Lemma init_full addr nt scripts :
  tids_ok scripts -> (nt = true -> no_timed_writers scripts) -> rsys_inv addr nt (rw_init addr scripts).
Proof.
  intros Htid Hnt. exists (QStart <$> scripts).
  assert (Hst : forall t p, (QStart <$> scripts) !! t = Some p -> exists ops, p = QStart ops /\ scripts !! t = Some ops).
  { intros t p. rewrite lookup_fmap. destruct (scripts !! t); intros; simplify_eq/=; eauto. }
  assert (Hz : forall f, (forall ops, f (QStart ops) = 0) -> msum f (QStart <$> scripts) = 0).
  { intros f Hf. apply msum_zero. intros t p (ops & -> & _)%Hst. apply Hf. }
  split; [|split; [constructor|]]; simpl; rewrite ?Hz by done; try done.
  - intros t. rewrite map_lookup_imap, lookup_fmap. by destruct (scripts !! t).
  - intros t p (ops & -> & Ht)%Hst ->. by rewrite Htid in Ht.
  - intros t p (ops & -> & Ht)%Hst. simpl. destruct nt; [by eapply (Hnt eq_refl)|].
    apply forallb_forall. by intros [].
  - intros t p (ops & -> & _)%Hst. done.
  - intros t p (ops & -> & _)%Hst. done.
  - intros Hn _ t p (ops & -> & _)%Hst. done.
Qed.

Lemma reachable_full addr nt scripts x :
  tids_ok scripts -> (nt = true -> no_timed_writers scripts) ->
  mreachable (rw_init addr scripts) x -> rsys_inv addr nt x.
Proof.
  intros Htid Hnt. apply mreachable_inv; [by apply init_full|]. intros a b. apply rsys_step.
Qed.

Definition in_section (m : bool) (ts : mthread rwlock_t unit) : bool :=
  match ts with TRun (MMark m' _) => Bool.eqb m m' | _ => false end.
Definition m_finished (ts : mthread rwlock_t unit) : bool :=
  match ts with TRun (MRet _) => true | _ => false end.
Definition m_waiting (ts : mthread rwlock_t unit) : bool :=
  match ts with TWait _ _ => true | _ => false end.

Lemma section_point addr t p m : in_section m (rcode addr t p) = true -> exists ops, p = QCrit m ops.
Proof.
  destruct (rcode addr t p) as [q|] eqn:E; [|done]. destruct q; try done. simpl.
  destruct (rcode_mark _ _ _ _ _ E) as (ops & -> & _). intros ->%Bool.eqb_prop. eauto.
Qed.

(** C6.  Exclusion: under every interleaving of the read-write lock functions,
    with spurious wake-ups and timeouts, while a thread is in a section it
    entered with the write lock no other thread is in a section of either
    mode. *)
Theorem rwlock_exclusion addr scripts x t1 t2 ts1 ts2 m :
  tids_ok scripts -> mreachable (rw_init addr scripts) x ->
  mthreads x !! t1 = Some ts1 -> mthreads x !! t2 = Some ts2 ->
  in_section true ts1 = true -> in_section m ts2 = true -> t1 = t2.
Proof.
  intros Htid Hr H1 H2 C1 C2.
  apply (reachable_full addr false) in Hr as (pcs & Hat & HI & _); [|done..].
  destruct (points_lookup _ _ _ _ _ Hat H1) as (p1 & Hp1 & ->).
  destruct (points_lookup _ _ _ _ _ Hat H2) as (p2 & Hp2 & ->).
  apply section_point in C1 as [ops1 ->]. apply section_point in C2 as [ops2 ->].
  destruct (decide (t1 = t2)) as [|Hne]; [done|exfalso].
  eapply (no_other_writer false _ _ _ t2 _ HI Hp2 t1); eauto.
Qed.

(** A thread that is about to act can go on when the mutex is free or its own. *)
Lemma point_goes addr nt s o th pcs t p :
  points_at (rcode addr) th pcs -> full_inv nt s o pcs -> pcs !! t = Some p ->
  o = None \/ o = Some t ->
  p = QStart [] \/ (exists m timed ops, p = QWaiting m timed ops) \/
  (exists y, msched1 (MSys s o th) (t, GoOn) = Some y).
Proof.
  intros Hat HI Hp Ho. assert (Ht : th !! t = Some (rcode addr t p)) by by rewrite Hat, Hp.
  destruct (locking p) eqn:Hl.
  - right. right. destruct (entered_seg addr t p s Hl) as (q & q' & Hq & _ & Hs).
    assert (o = None) as ->.
    { destruct Ho as [|Ho]; [done|]. destruct (ri_owner _ _ _ _ (proj1 HI) t Ho) as (p' & Hp' & Hin).
      rewrite Hp in Hp'. injection Hp' as <-. by destruct p. }
    eexists. unfold msched1. rewrite Ht, Hq, Hs. reflexivity.
  - destruct (inmon p) eqn:Hin.
    + right. right. pose proof (ri_in _ _ _ _ (proj1 HI) _ _ Hp Hin) as ->.
      unfold msched1. rewrite Ht.
      destruct p; try discriminate Hin; simpl; eexists; by rewrite decide_True by done.
    + rpc_cases p; try discriminate; eauto 10. right. right. eexists. unfold msched1. by rewrite Ht.
Qed.

(** C20.  Deadlock freedom: when no thread uses a timed write lock, in every
    reachable state either every thread has finished or some thread can go on
    without a timeout or a spurious wake-up. *)
Theorem rwlock_progress addr scripts x :
  tids_ok scripts -> no_timed_writers scripts -> mreachable (rw_init addr scripts) x ->
  (forall t ts, mthreads x !! t = Some ts -> m_finished ts = true) \/
  (exists t y, msched1 x (t, GoOn) = Some y /\ mstep x y).
Proof.
  intros Htid Hnt Hr. apply (reachable_full addr true) in Hr as (pcs & Hat & HI); [|done..].
  destruct x as [s o th]. simpl in *.
  assert (Hgo : forall t p, pcs !! t = Some p -> o = None \/ o = Some t ->
    p = QStart [] \/ (exists m timed ops, p = QWaiting m timed ops) \/
    (exists t y, msched1 (MSys s o th) (t, GoOn) = Some y /\ mstep (MSys s o th) y)).
  { intros t p Hp Ho. destruct (point_goes addr true s o th pcs t p Hat HI Hp Ho) as [?|[?|[y Hy]]]; auto.
    right. right. exists t, y. eauto using msched1_step. }
  destruct o as [t|].
  { right. destruct (ri_owner _ _ _ _ (proj1 HI) t eq_refl) as (p & Hp & Hin).
    destruct (Hgo t p Hp) as [->|[(m & tm & ops & ->)|?]]; auto; done. }
  destruct (decide (map_Forall (fun _ p => p = QStart [] \/ blocked p = true) pcs)) as [Hall|Hex].
  - left. intros t ts Ht. destruct (points_lookup _ _ _ _ _ Hat Ht) as (p & Hp & ->).
    destruct (Hall t p Hp) as [->|Hb]; [done|exfalso].
    assert (Hz : numLocks s = 0).
    { rewrite (ri_num _ _ _ _ (proj1 HI)). apply msum_zero. intros u q Hq.
      destruct (Hall u q Hq) as [->|Hb']; [done|by destruct q]. }
    destruct HI as [HI HJ]. destruct (HJ eq_refl Hz t p Hp Hb) as [_ Hw].
    rewrite (ri_pw _ _ _ _ HI) in Hw. apply msum_pos in Hw as (u & q & Hq & Hpos).
    destruct (Hall u q Hq) as [->|Hb']; [simpl in Hpos; lia|].
    destruct (HJ eq_refl Hz u q Hq Hb'). lia.
  - right. apply map_not_Forall in Hex as (t & p & Hp & Hf); [|apply _].
    destruct (Hgo t p Hp) as [->|[(m & tm & ops & ->)|?]]; auto; destruct Hf; auto.
Qed.

(** ** A concrete system *)
Definition rw_demo_init : msys rwlock_t unit :=
  rw_init 1 (<[1 := [ORd false]]> (<[2 := [OWr true]]> (<[3 := [ORd false]]> ∅))).
Definition rw_demo_at (tms : list (Z * mmove)) : msys rwlock_t unit :=
  default rw_demo_init (msched rw_demo_init tms).
Definition rw_demo_runs (tms : list (Z * mmove)) : bool :=
  match msched rw_demo_init tms with Some _ => true | None => false end.
Lemma rw_demo_reachable tms :
  rw_demo_runs tms = true -> mreachable rw_demo_init (rw_demo_at tms).
Proof.
  unfold rw_demo_runs, rw_demo_at. destruct (msched rw_demo_init tms) as [x|] eqn:E; [|done].
  intros _. by eapply msched_reachable.
Qed.
Definition m_thread_is (f : mthread rwlock_t unit -> bool) (x : msys rwlock_t unit) (t : Z) : bool :=
  match mthreads x !! t with Some ts => f ts | None => false end.
Lemma m_thread_is_Some f x t :
  m_thread_is f x t = true -> exists ts, mthreads x !! t = Some ts /\ f ts = true.
Proof. unfold m_thread_is. destruct (mthreads x !! t) as [ts|]; [eauto|done]. Qed.

(** Thread 1 reads; the timed writer 2 and the reader 3 wait; the time of 2
    runs out; 1 unlocks, waking 3, which finds 2 still pending and waits
    again; 2 gives up without waking anyone. *)
Definition lost_trace : list (Z * mmove) :=
  [(1, GoOn); (1, GoOn); (2, GoOn); (2, GoOn); (3, GoOn); (3, GoOn); (2, TimeOut);
   (1, GoOn); (1, GoOn); (1, GoOn); (3, GoOn); (3, GoOn); (2, GoOn); (2, GoOn)].

(** A timed write lock that gives up can leave a reader asleep on a free
    lock: there is a reachable state in which the lock is free, nobody is
    pending but the reader, every other thread has finished, and the reader
    waits with no wake-up to come. *)
Theorem rwlock_timed_writer_strands_reader :
  exists x, mreachable (rw_init 1 (<[1 := [ORd false]]> (<[2 := [OWr true]]> (<[3 := [ORd false]]> ∅)))) x /\
    mstate x = RW 0 1 0 0 /\ mowner x = None /\ m_thread_is m_waiting x 3 = true /\
    m_thread_is m_finished x 1 = true /\ m_thread_is m_finished x 2 = true /\
    (forall t, msched1 x (t, GoOn) = None).
Proof.
  exists (rw_demo_at lost_trace). split; [apply rw_demo_reachable; vm_compute; reflexivity|].
  do 5 (split; [vm_compute; reflexivity|]).
  intros t. destruct (rw_demo_at lost_trace) as [s o th] eqn:E.
  assert (Hd : map_Forall (fun _ ts => m_finished ts || m_waiting ts = true) th).
  { replace th with (mthreads (rw_demo_at lost_trace)) by (by rewrite E).
    apply map_Forall_to_list. repeat (constructor; [vm_compute; reflexivity|]). constructor. }
  unfold msched1. destruct (th !! t) as [ts|] eqn:Ht; [|done].
  specialize (Hd _ _ Ht). destruct ts as [[]|]; done.
Qed.

Lemma rwlock_exclusion_witness :
  m_thread_is (in_section false) (rw_demo_at [(1, GoOn); (1, GoOn)]) 1 = true /\
  (m_thread_is (in_section true) (rw_demo_at [(1, GoOn); (1, GoOn)]) 2 = true -> 2 = 1).
Proof.
  assert (H : m_thread_is (in_section false) (rw_demo_at [(1, GoOn); (1, GoOn)]) 1 = true)
    by (vm_compute; reflexivity).
  split; [exact H|]. intros (ts2 & H2 & C2)%m_thread_is_Some.
  apply m_thread_is_Some in H as (ts1 & H1 & C1).
  eapply (rwlock_exclusion 1 _ (rw_demo_at [(1, GoOn); (1, GoOn)])); [| |exact H2|exact H1|exact C2|exact C1].
  2: apply rw_demo_reachable; vm_compute; reflexivity.
  vm_compute. reflexivity.
Defined.

Lemma rwlock_progress_witness :
  let scripts := <[1 := [ORd true; OWr false]]> (<[2 := [OTryWr]]> ∅) in
  (forall t ts, mthreads (rw_init 1 scripts) !! t = Some ts -> m_finished ts = true) \/
  (exists t y, msched1 (rw_init 1 scripts) (t, GoOn) = Some y /\ mstep (rw_init 1 scripts) y).
Proof.
  intros scripts. apply (rwlock_progress 1 scripts).
  - vm_compute. reflexivity.
  - apply map_Forall_to_list. repeat (constructor; [vm_compute; reflexivity|]). constructor.
  - constructor.
Defined.
