(* ===== verification/TlsKeys.v ===== *)
(** * Thread-specific data keys (libc/bionic/pthread.c)

    The global map of allocated keys with their destructors, the TLS areas of
    the threads of the process, and the pthread_key_* functions over them.
    Every function holds _tlsmap_lock while it works on the map, so a call is a
    step from one state to the next.  Pointers are numbers, NULL is 0. *)
From S2P Require Import Prelude.

Definition TLS_SLOT_MAX_WELL_KNOWN : Z := 2.
Definition BIONIC_TLS_SLOTS : Z := 64.
Definition TLS_DEFAULT_ALLOC_MAP : Z := 0x0000001F.
Definition TLSMAP_START : Z := TLS_SLOT_MAX_WELL_KNOWN + 1.
Definition TLSMAP_SIZE : Z := BIONIC_TLS_SLOTS.
Definition TLSMAP_BITS : Z := 32.
Definition PTHREAD_DESTRUCTOR_ITERATIONS : nat := 4.

(** Arrays: reads and writes at an index inside the array. *)
Definition aget (a : list Z) (i : Z) : Z := default 0 (a !! Z.to_nat i).
Definition aset (a : list Z) (i v : Z) : list Z := <[Z.to_nat i := v]> a.

Record tlsmap_t : Type := TlsMap { init : Z; map : list Z; dtors : list Z }.
(** What the functions use of a [pthread_internal_t]; [tls = None] is a NULL
    TLS area. *)
Record thread : Type := Thread { join_count : Z; tls : option (list Z) }.
(** The process: _tlsmap and the list gThreadList. *)
Record tls_st : Type := TlsSt { _tlsmap : tlsmap_t; gThreadList : list thread }.

Definition TLSMAP_WORD (m : tlsmap_t) (k : Z) : Z := aget (map m) (k / TLSMAP_BITS).
Definition TLSMAP_MASK (k : Z) : Z := u32 (Z.shiftl 1 (Z.land k (TLSMAP_BITS - 1))).
Definition TLSMAP_VALIDATE_KEY (key : Z) : bool := (TLSMAP_START <=? key) && (key <? TLSMAP_SIZE).

(** The map as it is once the lock is held. *)
Definition tlsmap_lock (m : tlsmap_t) : tlsmap_t :=
  if init m =? 0 then TlsMap 1 (aset (map m) 0 TLS_DEFAULT_ALLOC_MAP) (dtors m) else m.

Definition tlsmap_test (m : tlsmap_t) (key : Z) : bool :=
  negb (Z.land (TLSMAP_WORD m key) (TLSMAP_MASK key) =? 0).

Definition tlsmap_set (m : tlsmap_t) (key dtor : Z) : tlsmap_t :=
  TlsMap (init m)
    (aset (map m) (key / TLSMAP_BITS) (Z.lor (TLSMAP_WORD m key) (TLSMAP_MASK key)))
    (aset (dtors m) key dtor).

Definition tlsmap_clear (m : tlsmap_t) (key : Z) : tlsmap_t :=
  TlsMap (init m)
    (aset (map m) (key / TLSMAP_BITS) (Z.land (TLSMAP_WORD m key) (u32 (Z.lnot (TLSMAP_MASK key)))))
    (aset (dtors m) key 0).

(** The keys a loop "for (key = TLSMAP_START; key < TLSMAP_SIZE; key++)" visits. *)
Definition keys : list Z := seqZ TLSMAP_START (TLSMAP_SIZE - TLSMAP_START).

Fixpoint alloc_from (m : tlsmap_t) (dtor : Z) (ks : list Z) : Z * tlsmap_t :=
  match ks with
  | [] => (-1, m)
  | key :: ks =>
      if negb (tlsmap_test m key) then (key, tlsmap_set m key dtor) else alloc_from m dtor ks
  end.

Definition tlsmap_alloc (m : tlsmap_t) (dtor : Z) : Z * tlsmap_t := alloc_from m dtor keys.

(** Answers the error code and the key stored at *key, if one is. *)
Definition pthread_key_create (st : tls_st) (destructor : Z) : Z * option Z * tls_st :=
  let map := tlsmap_lock (_tlsmap st) in
  let '(k, map') := tlsmap_alloc map destructor in
  if 0 <=? k then (0, Some k, TlsSt map' (gThreadList st))
  else (ENOMEM, None, TlsSt map' (gThreadList st)).

Definition clear_value (key : Z) (thr : thread) : thread :=
  if join_count thr <? 0 then thr
  else match tls thr with
       | None => thr
       | Some a => Thread (join_count thr) (Some (aset a key 0))
       end.

Definition pthread_key_delete (st : tls_st) (key : Z) : Z * tls_st :=
  if negb (TLSMAP_VALIDATE_KEY key) then (EINVAL, st)
  else
    let map := tlsmap_lock (_tlsmap st) in
    if negb (tlsmap_test map key) then (EINVAL, TlsSt map (gThreadList st))
    else (0, TlsSt (tlsmap_clear map key) (clear_value key <$> gThreadList st)).

(** __get_tls() of the thread at position [self] of the list. *)
Definition tls_get (st : tls_st) (self : nat) (key : Z) : Z :=
  match gThreadList st !! self with
  | Some (Thread _ (Some a)) => aget a key
  | _ => 0
  end.
Definition tls_set (st : tls_st) (self : nat) (key v : Z) : tls_st :=
  TlsSt (_tlsmap st)
    (alter (fun thr => Thread (join_count thr) ((fun a => aset a key v) <$> tls thr)) self (gThreadList st)).

Definition pthread_setspecific (st : tls_st) (self : nat) (key ptr : Z) : Z * tls_st :=
  if TLSMAP_VALIDATE_KEY key then
    let st := TlsSt (tlsmap_lock (_tlsmap st)) (gThreadList st) in
    if tlsmap_test (_tlsmap st) key then (0, tls_set st self key (u32 ptr)) else (EINVAL, st)
  else (EINVAL, st).

Definition pthread_getspecific (st : tls_st) (self : nat) (key : Z) : Z :=
  if negb (TLSMAP_VALIDATE_KEY key) then 0 else tls_get st self key.

(** pthread_key_clean_all runs the application's destructors: [call_dtor d x st]
    is the state after the destructor [d] was called on [x].  The calls are
    logged. *)
Section Clean.
Context (call_dtor : Z -> Z -> tls_st -> tls_st).

Definition relock (st : tls_st) : tls_st := TlsSt (tlsmap_lock (_tlsmap st)) (gThreadList st).

Definition clean_key (self : nat) (acc : tls_st * list (Z * Z) * Z) (kk : Z) :
    tls_st * list (Z * Z) * Z :=
  let '(st, calls, count) := acc in
  if tlsmap_test (_tlsmap st) kk then
    let data := tls_get st self kk in
    let dtor := aget (dtors (_tlsmap st)) kk in
    if negb (data =? 0) && negb (dtor =? 0) then
      let st := tls_set st self kk 0 in
      (relock (call_dtor dtor data st), calls ++ [(dtor, data)], count + 1)
    else acc
  else acc.

Definition clean_round (self : nat) (st : tls_st) (calls : list (Z * Z)) :
    tls_st * list (Z * Z) * Z :=
  foldl (clean_key self) (st, calls, 0) keys.

Fixpoint clean_rounds (rounds : nat) (self : nat) (st : tls_st) (calls : list (Z * Z)) :
    tls_st * list (Z * Z) :=
  match rounds with
  | O => (st, calls)
  | S rounds =>
      let '(st', calls', count) := clean_round self st calls in
      if count =? 0 then (st', calls') else clean_rounds rounds self st' calls'
  end.

Definition pthread_key_clean_all (self : nat) (st : tls_st) : tls_st * list (Z * Z) :=
  clean_rounds PTHREAD_DESTRUCTOR_ITERATIONS self (relock st) [].
End Clean.

(** The TLS area of a new thread. *)
Definition __init_tls (area thread_ptr : Z) : list Z :=
  area :: thread_ptr :: replicate 62 0.

(** ** Arrays and bits *)
Lemma aget_aset_eq a i v : 0 <= i < Z.of_nat (length a) -> aget (aset a i v) i = v.
Proof. intros. unfold aget, aset. rewrite list_lookup_insert_eq; [done|lia]. Qed.
Lemma aget_aset_ne a i j v : 0 <= i -> 0 <= j -> i <> j -> aget (aset a i v) j = aget a j.
Proof. intros. unfold aget, aset. rewrite list_lookup_insert_ne; [done|lia]. Qed.
Lemma length_aset a i v : length (aset a i v) = length a.
Proof. apply length_insert. Qed.

Lemma mask_bit k : TLSMAP_MASK k = 2 ^ (k mod 32).
Proof.
  unfold TLSMAP_MASK, TLSMAP_BITS. change (32 - 1) with (Z.ones 5). rewrite Z.land_ones by lia.
  change (2 ^ 5) with 32. pose proof (Z.mod_pos_bound k 32).
  rewrite Z.shiftl_1_l. apply u32_id. split; [apply Z.pow_nonneg; lia|].
  apply Z.pow_lt_mono_r; lia.
Qed.

Lemma test_bit m k : tlsmap_test m k = Z.testbit (TLSMAP_WORD m k) (k mod 32).
Proof.
  unfold tlsmap_test. rewrite mask_bit. pose proof (Z.mod_pos_bound k 32).
  replace (Z.land (TLSMAP_WORD m k) (2 ^ (k mod 32)))
    with (if Z.testbit (TLSMAP_WORD m k) (k mod 32) then 2 ^ (k mod 32) else 0).
  - destruct (Z.testbit _ _); [|done]. apply negb_true_iff, Z.eqb_neq.
    pose proof (Z.pow_pos_nonneg 2 (k mod 32)). lia.
  - apply Z.bits_inj'. intros n Hn. rewrite Z.land_spec, Z.pow2_bits_eqb by lia.
    destruct (Z.eqb_spec (k mod 32) n) as [<-|Hne].
    + rewrite andb_true_r. destruct (Z.testbit (TLSMAP_WORD m k) (k mod 32)); [|by rewrite Z.bits_0].
      rewrite Z.pow2_bits_eqb by lia. apply Z.eqb_refl.
    + rewrite andb_false_r. destruct (Z.testbit (TLSMAP_WORD m k) (k mod 32)); [|by rewrite Z.bits_0].
      rewrite Z.pow2_bits_eqb by lia. by apply Z.eqb_neq.
Qed.

(** ** The invariant *)
Definition key_ok (k : Z) : Prop := 0 <= k < TLSMAP_SIZE.
Definition map_ok (m : tlsmap_t) : Prop := length (map m) = 2%nat /\ length (dtors m) = 64%nat.
Definition live (thr : thread) : Prop := 0 <= join_count thr /\ exists a, tls thr = Some a.

(** The arrays have their sizes, and a live thread has NULL for every key that
    is not allocated. *)
Record tls_ok (st : tls_st) : Prop := {
  to_map : map_ok (_tlsmap st);
  to_areas : forall i thr a, gThreadList st !! i = Some thr -> tls thr = Some a -> length a = 64%nat;
  to_null : forall i thr a k, gThreadList st !! i = Some thr -> 0 <= join_count thr -> tls thr = Some a ->
    TLSMAP_VALIDATE_KEY k = true -> tlsmap_test (tlsmap_lock (_tlsmap st)) k = false -> aget a k = 0 }.

Lemma valid_key k : TLSMAP_VALIDATE_KEY k = true <-> TLSMAP_START <= k < TLSMAP_SIZE.
Proof. unfold TLSMAP_VALIDATE_KEY. rewrite andb_true_iff, Z.leb_le, Z.ltb_lt. done. Qed.

Lemma elem_keys k : k ∈ keys <-> TLSMAP_START <= k < TLSMAP_SIZE.
Proof. unfold keys. rewrite elem_of_seqZ. unfold TLSMAP_START, TLSMAP_SIZE, TLS_SLOT_MAX_WELL_KNOWN, BIONIC_TLS_SLOTS. lia. Qed.

Ltac keyd := unfold key_ok, TLSMAP_START, TLSMAP_SIZE, TLSMAP_BITS, TLS_SLOT_MAX_WELL_KNOWN, BIONIC_TLS_SLOTS in *;
  Z.to_euclidean_division_equations; lia.

Lemma word_of m i k w :
  map_ok m -> key_ok k -> key_ok i ->
  TLSMAP_WORD (TlsMap (init m) (aset (map m) (i / TLSMAP_BITS) w) (dtors m)) k =
  if k / 32 =? i / 32 then w else TLSMAP_WORD m k.
Proof.
  intros [Hl _] Hk Hi. unfold TLSMAP_WORD. simpl. unfold TLSMAP_BITS. case_test; zbool.
  - rewrite E. apply aget_aset_eq. rewrite Hl. keyd.
  - apply aget_aset_ne; [keyd|keyd|congruence].
Qed.

(** Setting and clearing a key. *)
Lemma test_set m i d k :
  map_ok m -> key_ok i -> key_ok k ->
  tlsmap_test (tlsmap_set m i d) k = (k =? i) || tlsmap_test m k.
Proof.
  intros Hm Hi Hk. rewrite !test_bit.
  change (TLSMAP_WORD (tlsmap_set m i d) k) with
    (TLSMAP_WORD (TlsMap (init m) (aset (map m) (i / TLSMAP_BITS) (Z.lor (TLSMAP_WORD m i) (TLSMAP_MASK i))) (dtors m)) k).
  rewrite word_of by done. case_test; zbool.
  - replace (TLSMAP_WORD m i) with (TLSMAP_WORD m k) by (unfold TLSMAP_WORD, TLSMAP_BITS; by rewrite E).
    rewrite mask_bit, Z.lor_spec, Z.pow2_bits_eqb, orb_comm by keyd. f_equal.
    destruct (Z.eqb_spec (i mod 32) (k mod 32)), (Z.eqb_spec k i); subst; try done; keyd.
  - destruct (Z.eqb_spec k i); [subst; done|done].
Qed.

Lemma test_clear m i k :
  map_ok m -> key_ok i -> key_ok k ->
  tlsmap_test (tlsmap_clear m i) k = negb (k =? i) && tlsmap_test m k.
Proof.
  intros Hm Hi Hk. rewrite !test_bit.
  change (TLSMAP_WORD (tlsmap_clear m i) k) with
    (TLSMAP_WORD (TlsMap (init m) (aset (map m) (i / TLSMAP_BITS) (Z.land (TLSMAP_WORD m i) (u32 (Z.lnot (TLSMAP_MASK i))))) (dtors m)) k).
  rewrite word_of by done. case_test; zbool.
  - replace (TLSMAP_WORD m i) with (TLSMAP_WORD m k) by (unfold TLSMAP_WORD, TLSMAP_BITS; by rewrite E).
    unfold u32. rewrite mask_bit, <- Z.land_ones, !Z.land_spec, Z.lnot_spec, Z.ones_spec_low, andb_true_r, andb_comm by keyd.
    rewrite Z.pow2_bits_eqb by keyd. f_equal. f_equal.
    destruct (Z.eqb_spec (i mod 32) (k mod 32)), (Z.eqb_spec k i); subst; try done; keyd.
  - destruct (Z.eqb_spec k i); [subst; done|done].
Qed.

Lemma lock_map_ok m : map_ok m -> map_ok (tlsmap_lock m).
Proof. intros [H1 H2]. unfold tlsmap_lock. case_test; [|done]. split; simpl; [by rewrite length_aset|done]. Qed.
Lemma lock_idem m : tlsmap_lock (tlsmap_lock m) = tlsmap_lock m.
Proof. unfold tlsmap_lock. destruct (init m =? 0) eqn:E; simpl; by rewrite ?E. Qed.
Lemma lock_init m : (init (tlsmap_lock m) =? 0) = false.
Proof. unfold tlsmap_lock. by destruct (init m =? 0) eqn:E. Qed.
Lemma lock_nop m : (init m =? 0) = false -> tlsmap_lock m = m.
Proof. unfold tlsmap_lock. by intros ->. Qed.
Lemma lock_set m k d : tlsmap_lock (tlsmap_set (tlsmap_lock m) k d) = tlsmap_set (tlsmap_lock m) k d.
Proof. apply lock_nop, lock_init. Qed.
Lemma lock_clear m k : tlsmap_lock (tlsmap_clear (tlsmap_lock m) k) = tlsmap_clear (tlsmap_lock m) k.
Proof. apply lock_nop, lock_init. Qed.
Lemma set_map_ok m k d : map_ok m -> map_ok (tlsmap_set m k d).
Proof. intros [H1 H2]. split; simpl; by rewrite length_aset. Qed.
Lemma clear_map_ok m k : map_ok m -> map_ok (tlsmap_clear m k).
Proof. intros [H1 H2]. split; simpl; by rewrite length_aset. Qed.

(** The key is allocated, as seen by a caller that takes the lock. *)
Definition allocated (st : tls_st) (k : Z) : bool := tlsmap_test (tlsmap_lock (_tlsmap st)) k.
Definition dtor_of (st : tls_st) (k : Z) : Z := aget (dtors (_tlsmap st)) k.

(** The first free key of a list, or none. *)
Lemma alloc_spec m d ks :
  (forall k, k ∈ ks -> key_ok k) ->
  match alloc_from m d ks with
  | (k, m') =>
      (k = -1 /\ m' = m /\ forall j, j ∈ ks -> tlsmap_test m j = true) \/
      (k ∈ ks /\ m' = tlsmap_set m k d /\ tlsmap_test m k = false /\
       exists before after, ks = before ++ k :: after /\ forall j, j ∈ before -> tlsmap_test m j = true)
  end.
Proof.
  induction ks as [|k ks IH]; simpl; intros Hk.
  - left. split_and!; [done..|]. intros j Hj. set_solver.
  - destruct (tlsmap_test m k) eqn:E; simpl.
    + destruct (alloc_from m d ks) as [k' m'].
      destruct IH as [(-> & -> & Hall)|(Hin & -> & Ht & bf & af & -> & Hb)]; [set_solver| |].
      * left. split_and!; [done..|]. intros j [->|Hj]%elem_of_cons; auto.
      * right. split_and!; [set_solver|done..|]. exists (k :: bf), af. split; [done|].
        intros j [->|Hj]%elem_of_cons; auto.
    + right. split_and!; [set_solver|done..|]. exists [], ks. split; [done|]. intros j Hj. set_solver.
Qed.

(** The keys before a key in the order of the loop are the smaller ones. *)
Lemma keys_before bf k af j :
  keys = bf ++ k :: af -> TLSMAP_START <= j < k -> j ∈ bf.
Proof.
  intros Hks Hj.
  assert (Hk : keys !! length bf = Some k) by (rewrite Hks; by apply list_lookup_middle).
  apply lookup_seqZ in Hk as [-> Hlt].
  assert (Hjk : keys !! Z.to_nat (j - TLSMAP_START) = Some j) by (apply lookup_seqZ; lia).
  rewrite Hks, lookup_app_l in Hjk by lia. by eapply list_elem_of_lookup_2.
Qed.

(** pthread_key_create keeps the map consistent and either finds every
    key allocated and answers ENOMEM, or allocates the lowest free key with the
    given destructor, leaving the other keys alone; every live thread then reads
    NULL for the new key. *)
Theorem key_create_spec st d :
  tls_ok st ->
  let '(err, k, st') := pthread_key_create st d in
  tls_ok st' /\ gThreadList st' = gThreadList st /\
  ((err = ENOMEM /\ k = None /\ (forall j, TLSMAP_START <= j < TLSMAP_SIZE -> allocated st j = true) /\
    (forall j, key_ok j -> allocated st' j = allocated st j)) \/
   (exists key, err = 0 /\ k = Some key /\ TLSMAP_START <= key < TLSMAP_SIZE /\
      allocated st key = false /\ (forall j, TLSMAP_START <= j < key -> allocated st j = true) /\
      (forall j, key_ok j -> allocated st' j = (j =? key) || allocated st j) /\
      dtor_of st' key = d /\
      (forall self thr, gThreadList st !! self = Some thr -> live thr ->
         pthread_getspecific st' self key = 0))).
Proof.
  intros [Hm Ha Hn]. unfold pthread_key_create, tlsmap_alloc.
  pose proof (alloc_spec (tlsmap_lock (_tlsmap st)) d keys) as Hs.
  destruct (alloc_from (tlsmap_lock (_tlsmap st)) d keys) as [k m'].
  destruct Hs as [(-> & -> & Hall)|(Hin & -> & Ht & bf & af & Hks & Hb)].
  { intros k0 Hk0%elem_keys. keyd. }
  - simpl. split_and!; [split; simpl| |]; [by apply lock_map_ok|done| |done|].
    { intros i thr a j. rewrite lock_idem. apply Hn. }
    left. split_and!; try done.
    + intros j Hj. apply Hall. by apply elem_keys.
    + intros j _. unfold allocated. simpl. by rewrite lock_idem.
  - assert (Hk : TLSMAP_START <= k < TLSMAP_SIZE) by by apply elem_keys.
    assert (Hko : key_ok k) by keyd.
    pose proof (lock_map_ok _ Hm) as Hm'.
    rewrite (proj2 (Z.leb_le 0 k)) by keyd.
    assert (Hal : forall j, key_ok j -> allocated (TlsSt (tlsmap_set (tlsmap_lock (_tlsmap st)) k d) (gThreadList st)) j = (j =? k) || allocated st j).
    { intros j Hj. unfold allocated. simpl. rewrite lock_set. by apply test_set. }
    split_and!; [split; simpl| |]; [by apply set_map_ok|done| |done|].
    { intros i thr a j Hi Hjc Htls Hv Hf.
      apply (Hn i thr a j Hi Hjc Htls Hv). apply valid_key in Hv.
      specialize (Hal j ltac:(keyd)). unfold allocated in Hal. simpl in Hal. rewrite Hf in Hal.
      symmetry in Hal. by apply orb_false_iff in Hal as [_ ?]. }
    right. exists k. split_and!; try done; try keyd.
    + intros j Hj. apply Hb. by eapply keys_before.
    + unfold dtor_of. simpl. apply aget_aset_eq. destruct Hm' as [_ ->]. keyd.
    + intros self thr Hself [Hjc [a Htls]]. unfold pthread_getspecific, tls_get. simpl.
      rewrite (proj2 (valid_key k)) by done. simpl. rewrite Hself. destruct thr as [jc tl]. simpl in *. subst tl.
      eapply (Hn self _ a k Hself); [exact Hjc|reflexivity|by apply valid_key|exact Ht].
Qed.

Lemma lookup_clear_value st k i thr' :
  (clear_value k <$> gThreadList st) !! i = Some thr' ->
  exists thr, gThreadList st !! i = Some thr /\ thr' = clear_value k thr.
Proof. rewrite list_lookup_fmap. destruct (gThreadList st !! i); intros; simplify_eq/=; eauto. Qed.

Lemma clear_value_area k thr a :
  tls (clear_value k thr) = Some a ->
  exists a0, tls thr = Some a0 /\ (a = a0 \/ (0 <= join_count thr /\ a = aset a0 k 0)).
Proof.
  unfold clear_value. case_test; [eauto|]. destruct (tls thr) as [a0|] eqn:E'; simpl; [|congruence].
  intros [= <-]. zbool. eauto.
Qed.
Lemma clear_value_live k thr a :
  0 <= join_count thr -> tls (clear_value k thr) = Some a ->
  exists a0, tls thr = Some a0 /\ a = aset a0 k 0.
Proof.
  intros Hj. unfold clear_value. rewrite (proj2 (Z.ltb_ge _ _)) by done.
  destruct (tls thr) eqn:E'; simpl; [|congruence]. intros [= <-]. eauto.
Qed.
Lemma clear_value_join k thr : join_count (clear_value k thr) = join_count thr.
Proof. unfold clear_value. case_test; [done|]. by destruct (tls thr). Qed.

(** pthread_key_delete keeps the map consistent; for a key that is not
    valid or not allocated it answers EINVAL and changes no allocation and no
    value; otherwise it frees that key only, and every live thread reads NULL
    for it while it keeps its values of the other keys. *)
Theorem key_delete_spec st key :
  tls_ok st ->
  let '(err, st') := pthread_key_delete st key in
  tls_ok st' /\
  ((err = EINVAL /\ (TLSMAP_VALIDATE_KEY key && allocated st key = false) /\
    gThreadList st' = gThreadList st /\ (forall j, key_ok j -> allocated st' j = allocated st j)) \/
   (err = 0 /\ TLSMAP_VALIDATE_KEY key = true /\ allocated st key = true /\
    (forall j, key_ok j -> allocated st' j = negb (j =? key) && allocated st j) /\
    (forall self thr, gThreadList st !! self = Some thr -> live thr ->
       pthread_getspecific st' self key = 0 /\
       forall j, TLSMAP_VALIDATE_KEY j = true -> j <> key ->
         pthread_getspecific st' self j = pthread_getspecific st self j))).
Proof.
  intros [Hm Ha Hn]. unfold pthread_key_delete. pose proof (lock_map_ok _ Hm) as Hm'.
  destruct (TLSMAP_VALIDATE_KEY key) eqn:Hv; simpl.
  2: { split; [done|]. left. done. }
  pose proof (proj1 (valid_key key) Hv) as Hk. assert (Hko : key_ok key) by keyd.
  destruct (tlsmap_test (tlsmap_lock (_tlsmap st)) key) eqn:Ht; simpl.
  2: { split.
       - split; simpl; [done|done|]. intros i thr a j. rewrite lock_idem. apply Hn.
       - left. split_and!; [done|done|done|]. intros j _. unfold allocated. simpl. by rewrite lock_idem. }
  assert (Hal : forall j, key_ok j -> tlsmap_test (tlsmap_clear (tlsmap_lock (_tlsmap st)) key) j = negb (j =? key) && allocated st j).
  { intros j Hj. by apply test_clear. }
  split; [split; simpl; [by apply clear_map_ok| |]|right; split_and!; try done].
  - intros i thr' a (thr & Hi & ->)%lookup_clear_value (a0 & Ha0 & Hor)%clear_value_area.
    destruct Hor as [->|[_ ->]]; rewrite ?length_aset; eauto.
  - intros i thr' a j (thr & Hi & ->)%lookup_clear_value Hj Htls Hvj Hf.
    rewrite clear_value_join in Hj. apply clear_value_live in Htls as (a0 & Ha0 & ->); [|done].
    pose proof (proj1 (valid_key j) Hvj). rewrite lock_clear, Hal in Hf by keyd.
    pose proof (Ha _ _ _ Hi Ha0).
    destruct (Z.eqb_spec j key) as [->|Hne]; [apply aget_aset_eq; keyd|].
    rewrite aget_aset_ne by keyd. by eapply Hn.
  - intros j Hj. unfold allocated. simpl. rewrite lock_clear. by apply Hal.
  - intros self thr Hself [Hj [a Htls]]. pose proof (Ha _ _ _ Hself Htls).
    unfold pthread_getspecific, tls_get. simpl. rewrite list_lookup_fmap, Hself. simpl.
    destruct thr as [jc tl]. simpl in *. subst tl. unfold clear_value. simpl.
    rewrite (proj2 (Z.ltb_ge _ _)) by done. rewrite Hv. simpl. split; [apply aget_aset_eq; keyd|].
    intros j Hvj Hne. pose proof (proj1 (valid_key j) Hvj). rewrite Hvj. simpl. by rewrite aget_aset_ne by keyd.
Qed.

(** ** Values *)
Lemma tls_get_set_eq st self key v thr a :
  gThreadList st !! self = Some thr -> tls thr = Some a -> length a = 64%nat -> key_ok key ->
  tls_get (tls_set st self key v) self key = v.
Proof.
  intros Hs Ht Hl Hk. unfold tls_get, tls_set. simpl. rewrite list_lookup_alter_eq, Hs. simpl.
  rewrite Ht. simpl. apply aget_aset_eq. keyd.
Qed.
Lemma tls_get_set_ne st self self' key j v :
  key_ok key -> key_ok j -> self' <> self \/ j <> key ->
  tls_get (tls_set st self key v) self' j = tls_get st self' j.
Proof.
  intros Hk Hj Hne. unfold tls_get, tls_set. simpl. destruct (decide (self' = self)) as [->|].
  - rewrite list_lookup_alter_eq. destruct (gThreadList st !! self) as [[jc [a|]]|]; simpl; try done.
    destruct Hne; [done|]. rewrite aget_aset_ne by (unfold key_ok in *; lia). done.
  - by rewrite list_lookup_alter_ne.
Qed.

Lemma tls_set_lookup st self key v i thr' :
  gThreadList (tls_set st self key v) !! i = Some thr' ->
  exists thr, gThreadList st !! i = Some thr /\ join_count thr' = join_count thr /\
    tls thr' = if decide (i = self) then (fun a => aset a key v) <$> tls thr else tls thr.
Proof.
  unfold tls_set. simpl. case_decide as E; [subst|].
  - rewrite list_lookup_alter_eq. destruct (gThreadList st !! self); intros; simplify_eq/=; eauto.
  - rewrite list_lookup_alter_ne by done. eauto.
Qed.

(** pthread_setspecific and pthread_getspecific: for an allocated key the
    value set is read back by the same thread, and no other key and no other
    thread sees a change; for an invalid or free key the answer is EINVAL and no
    value changes.  The map stays consistent. *)
Theorem setspecific_spec st self thr key ptr :
  tls_ok st -> gThreadList st !! self = Some thr -> live thr ->
  let '(err, st') := pthread_setspecific st self key ptr in
  tls_ok st' /\
  (forall j, key_ok j -> allocated st' j = allocated st j) /\
  (forall self' j, self' <> self \/ j <> key ->
     pthread_getspecific st' self' j = pthread_getspecific st self' j) /\
  if TLSMAP_VALIDATE_KEY key && allocated st key
  then err = 0 /\ pthread_getspecific st' self key = u32 ptr
  else err = EINVAL /\ pthread_getspecific st' self key = pthread_getspecific st self key.
Proof.
  intros [Hm Ha Hn] Hself [Hj [a Htls]]. pose proof (Ha _ _ _ Hself Htls) as Hlen.
  unfold pthread_setspecific.
  destruct (TLSMAP_VALIDATE_KEY key) eqn:Hv; [|split_and!; done].
  pose proof (proj1 (valid_key key) Hv) as Hk. assert (Hko : key_ok key) by keyd.
  unfold allocated at 3. simpl.
  destruct (tlsmap_test (tlsmap_lock (_tlsmap st)) key) eqn:Ht; simpl.
  - split_and!; try done.
    + split; simpl; [by apply lock_map_ok| |].
      * intros i thr' a' (t0 & Hi & _ & E)%tls_set_lookup Hta. simpl in Hi. rewrite E in Hta.
        case_decide; [|eauto]. destruct (tls t0) eqn:E0; simplify_eq/=. rewrite length_aset. eauto.
      * intros i thr' a' j (t0 & Hi & Ejc & E)%tls_set_lookup Hjc Hta Hvj Hf. simpl in Hi.
        rewrite lock_idem in Hf. pose proof (proj1 (valid_key j) Hvj).
        assert (j <> key) by congruence. rewrite E in Hta. rewrite Ejc in Hjc.
        case_decide; [|by eapply Hn]. destruct (tls t0) eqn:E0; simplify_eq/=.
        rewrite aget_aset_ne by keyd. by eapply Hn.
    + intros j _. unfold allocated. simpl. by rewrite lock_idem.
    + intros self' j Hne. unfold pthread_getspecific.
      destruct (TLSMAP_VALIDATE_KEY j) eqn:Hvj; [|done]. simpl. pose proof (proj1 (valid_key j) Hvj).
      rewrite tls_get_set_ne; [done|done|keyd|done].
    + unfold pthread_getspecific. rewrite Hv. simpl. by eapply tls_get_set_eq.
  - split_and!; try done.
    + split; simpl; [by apply lock_map_ok|done|]. intros i t0 a' j. rewrite lock_idem. apply Hn.
    + intros j _. unfold allocated. simpl. by rewrite lock_idem.
Qed.

(** ** Thread exit *)

(** The destructor calls due: for every allocated key with a value and a
    destructor, in the order of the keys. *)
Definition due (st : tls_st) (self : nat) (ks : list Z) : list (Z * Z) :=
  omap (fun k => if tlsmap_test (_tlsmap st) k && negb (tls_get st self k =? 0) && negb (dtor_of st k =? 0)
                 then Some (dtor_of st k, tls_get st self k) else None) ks.

Lemma due_set st self k v ks :
  key_ok k -> (forall j, j ∈ ks -> key_ok j) -> k ∉ ks -> due (tls_set st self k v) self ks = due st self ks.
Proof.
  intros Hk. induction ks as [|j ks IH]; simpl; intros Hks Hin; [done|].
  rewrite tls_get_set_ne; [|done|set_solver|set_solver].
  change (dtor_of (tls_set st self k v) j) with (dtor_of st j). 
  rewrite IH by set_solver. done.
Qed.

Section CleanProof.
Context (call_dtor : Z -> Z -> tls_st -> tls_st).
(** The destructors leave the keys and the values of the thread alone. *)
Context (Hquiet : forall d x st, call_dtor d x st = st).

Lemma clean_fold self ks st calls n thr a :
  NoDup ks -> (forall k, k ∈ ks -> key_ok k) -> tlsmap_lock (_tlsmap st) = _tlsmap st ->
  gThreadList st !! self = Some thr -> tls thr = Some a -> length a = 64%nat ->
  exists st', foldl (clean_key call_dtor self) (st, calls, n) ks =
      (st', calls ++ due st self ks, n + Z.of_nat (length (due st self ks))) /\
    _tlsmap st' = _tlsmap st /\
    (exists thr' a', gThreadList st' !! self = Some thr' /\ tls thr' = Some a' /\ length a' = 64%nat) /\
    (forall k, key_ok k -> tls_get st' self k =
       if decide (k ∈ ks) then if tlsmap_test (_tlsmap st) k && negb (dtor_of st k =? 0) then 0 else tls_get st self k
       else tls_get st self k) /\
    (forall self' k, key_ok k -> self' <> self -> tls_get st' self' k = tls_get st self' k).
Proof.
  revert st calls n thr a. induction ks as [|k ks IH]; intros st calls n thr a Hnd Hks Hlk Hs Ht Hl.
  - exists st. simpl. rewrite app_nil_r, Z.add_0_r. split_and!; eauto.
  - apply NoDup_cons in Hnd as [Hk Hnd]. assert (Hko : key_ok k) by (apply Hks; set_solver).
    assert (Hks' : forall j, j ∈ ks -> key_ok j) by (intros; apply Hks; set_solver).
    change (foldl (clean_key call_dtor self) (st, calls, n) (k :: ks))
      with (foldl (clean_key call_dtor self) (clean_key call_dtor self (st, calls, n) k) ks).
    simpl due.
    destruct (tlsmap_test (_tlsmap st) k && negb (tls_get st self k =? 0) && negb (dtor_of st k =? 0)) eqn:E.
    + apply andb_true_iff in E as [[E1 E2]%andb_true_iff E3].
      assert (Hstep : clean_key call_dtor self (st, calls, n) k =
        (tls_set st self k 0, calls ++ [(dtor_of st k, tls_get st self k)], n + 1)).
      { unfold clean_key. change (aget (dtors (_tlsmap st)) k) with (dtor_of st k).
        rewrite E1, E2, E3, Hquiet. unfold relock. simpl. rewrite Hlk. done. }
      rewrite Hstep.
      edestruct (IH (tls_set st self k 0) (calls ++ [(dtor_of st k, tls_get st self k)]) (n + 1)) as (st' & Hf & Hm & Hthr & Hg & Ho);
        [done|done|done|by simpl; rewrite list_lookup_alter_eq, Hs|simpl; by rewrite Ht|by rewrite length_aset|].
      exists st'. rewrite Hf, due_set by done. split_and!.
      * rewrite <- app_assoc. simpl. f_equal. lia.
      * by rewrite Hm.
      * done.
      * intros j Hj. rewrite Hg by done. change (dtor_of (tls_set st self k 0) j) with (dtor_of st j).
        change (_tlsmap (tls_set st self k 0)) with (_tlsmap st).
        destruct (decide (j = k)) as [->|Hne].
        -- rewrite decide_False by done. rewrite decide_True by set_solver. rewrite E1, E3. simpl.
           by eapply tls_get_set_eq.
        -- rewrite tls_get_set_ne by auto. by destruct (decide (j ∈ ks)), (decide (j ∈ k :: ks)); set_solver.
      * intros i j Hj Hne. rewrite Ho by done. apply tls_get_set_ne; auto.
    + assert (Hskip : clean_key call_dtor self (st, calls, n) k = (st, calls, n)).
      { unfold clean_key. change (aget (dtors (_tlsmap st)) k) with (dtor_of st k).
        destruct (tlsmap_test (_tlsmap st) k); [|done].
        destruct (negb (tls_get st self k =? 0)), (negb (dtor_of st k =? 0)); done. }
      rewrite Hskip. destruct (IH st calls n thr a) as (st' & Hf & Hm & Hthr & Hg & Ho); try done.
      exists st'. split_and!; try done. intros j Hj. rewrite Hg by done.
      destruct (decide (j = k)) as [->|Hne].
      * rewrite decide_False by done. rewrite decide_True by set_solver.
        destruct (tlsmap_test (_tlsmap st) k), (negb (dtor_of st k =? 0)); simpl in *; try done.
        rewrite andb_true_r in E. zbool. done.
      * by destruct (decide (j ∈ ks)), (decide (j ∈ k :: ks)); set_solver.
Qed.
End CleanProof.

Lemma due_nil st self ks :
  (forall k, k ∈ ks -> tlsmap_test (_tlsmap st) k && negb (dtor_of st k =? 0) = true -> tls_get st self k = 0) ->
  due st self ks = [].
Proof.
  induction ks as [|k ks IH]; simpl; intros H; [done|].
  rewrite IH by (intros; apply H; set_solver).
  destruct (tlsmap_test (_tlsmap st) k) eqn:E1; [|done].
  destruct (dtor_of st k =? 0) eqn:E2; [by rewrite andb_false_r|].
  rewrite (H k); [done|set_solver|by rewrite E1, E2].
Qed.

(** pthread_key_clean_all, with destructors that leave the thread's keys
    and values alone: every allocated key with a value and a destructor gets
    exactly one call, of its destructor on its value, in the order of the keys;
    these values are NULL afterwards and no other value of this or another
    thread changes. *)
Theorem key_clean_all_spec call_dtor st self thr :
  (forall d x s, call_dtor d x s = s) ->
  tls_ok st -> gThreadList st !! self = Some thr -> live thr ->
  let '(st', calls) := pthread_key_clean_all call_dtor self st in
  calls = due (relock st) self keys /\
  (forall k, TLSMAP_VALIDATE_KEY k = true -> pthread_getspecific st' self k =
     if allocated st k && negb (dtor_of st k =? 0) then 0 else pthread_getspecific st self k) /\
  (forall self' k, self' <> self -> pthread_getspecific st' self' k = pthread_getspecific st self' k).
Proof.
  intros Hq [Hm Ha Hn] Hs [_ [a Ht]]. pose proof (Ha _ _ _ Hs Ht) as Hl.
  assert (Hnd : NoDup keys) by apply NoDup_seqZ.
  assert (Hks : forall k, k ∈ keys -> key_ok k) by (intros k Hk%elem_keys; keyd).
  assert (Hdt : forall k, dtor_of (relock st) k = dtor_of st k).
  { intros k. unfold dtor_of, relock, tlsmap_lock. simpl. by case_test. }
  destruct (clean_fold call_dtor Hq self keys (relock st) [] 0 thr a) as (s1 & Hf & Hm1 & (t1 & a1 & H1 & Ht1 & Hl1) & Hg & Ho);
    [exact Hnd|exact Hks|apply lock_idem|exact Hs|exact Ht|exact Hl|].
  assert (Hres : exists s2, pthread_key_clean_all call_dtor self st = (s2, due (relock st) self keys) /\
    (forall k, key_ok k -> tls_get s2 self k = tls_get s1 self k) /\
    (forall i k, key_ok k -> i <> self -> tls_get s2 i k = tls_get s1 i k)).
  { unfold pthread_key_clean_all, PTHREAD_DESTRUCTOR_ITERATIONS. cbn [clean_rounds]. unfold clean_round. rewrite Hf.
    cbn [app]. case_test; [eauto|].
    destruct (clean_fold call_dtor Hq self keys s1 (due (relock st) self keys) 0 t1 a1) as (s2 & Hf2 & Hm2 & _ & Hg2 & Ho2);
      [exact Hnd|exact Hks|rewrite Hm1; apply lock_idem|exact H1|exact Ht1|exact Hl1|].
    assert (Hd : due s1 self keys = []).
    { apply due_nil. intros k Hk Hc. rewrite Hg by auto. rewrite decide_True by done.
      unfold dtor_of in Hc. rewrite Hm1 in Hc. unfold dtor_of. by rewrite Hc. }
    rewrite Hf2, Hd, app_nil_r. exists s2. split_and!; [reflexivity| |exact Ho2].
    intros k Hk. rewrite Hg2 by done. case_decide as Hin; [|done]. case_test; [|done].
    rewrite Hg by done. rewrite decide_True by done. unfold dtor_of in E0 |- *. rewrite Hm1 in E0. by rewrite E0. }
  destruct Hres as (s2 & -> & Hg2 & Ho2). split_and!; [done| |].
  - intros k Hv. pose proof (proj1 (valid_key k) Hv) as Hk. unfold pthread_getspecific. rewrite Hv. simpl.
    rewrite Hg2, Hg by keyd. rewrite decide_True by by apply elem_keys. by rewrite Hdt.
  - intros i k Hne. unfold pthread_getspecific. destruct (TLSMAP_VALIDATE_KEY k) eqn:Hv; [|done]. simpl.
    pose proof (proj1 (valid_key k) Hv). rewrite Ho2, Ho by (done || keyd). done.
Qed.

(** ** A process of two threads, with the keys in their initial state *)
Definition tls_demo : tls_st :=
  TlsSt (TlsMap 0 [0; 0] (replicate 64 0)) [Thread 0 (Some (__init_tls 4096 8192)); Thread 0 None].

Lemma init_tls_null area p k : 2 <= k < 64 -> aget (__init_tls area p) k = 0.
Proof.
  intros Hk. unfold aget, __init_tls.
  replace (Z.to_nat k) with (S (S (Z.to_nat (k - 2)))) by lia.
  rewrite !lookup_cons. rewrite lookup_replicate_2 by lia. done.
Qed.

Lemma tls_demo_ok : tls_ok tls_demo.
Proof.
  split; [done| |].
  - intros [|[|]] thr a Hi Ht; [injection Hi as <-; injection Ht as <-; done|by injection Hi as <-|done].
  - intros [|[|]] thr a k Hi Hj Ht Hv _; [|by injection Hi as <-|done].
    injection Hi as <-. apply (inj Some) in Ht as <-.
    apply init_tls_null. pose proof (proj1 (valid_key k) Hv). keyd.
Qed.

Lemma key_create_spec_witness :
  fst (fst (pthread_key_create tls_demo 77)) = 0 /\ snd (fst (pthread_key_create tls_demo 77)) = Some 5 /\
  tls_ok (snd (pthread_key_create tls_demo 77)).
Proof.
  split; [vm_compute; reflexivity|]. split; [vm_compute; reflexivity|].
  pose proof (key_create_spec tls_demo 77 tls_demo_ok) as H.
  destruct (pthread_key_create tls_demo 77) as [[err k] st']. apply H.
Defined.

Lemma key_delete_spec_witness :
  fst (pthread_key_delete tls_demo 4) = 0 /\ tls_ok (snd (pthread_key_delete tls_demo 4)).
Proof.
  split; [vm_compute; reflexivity|].
  pose proof (key_delete_spec tls_demo 4 tls_demo_ok) as H.
  destruct (pthread_key_delete tls_demo 4) as [err st']. apply H.
Defined.

Lemma setspecific_spec_witness :
  fst (pthread_setspecific tls_demo 0 3 99) = 0 /\ tls_ok (snd (pthread_setspecific tls_demo 0 3 99)).
Proof.
  split; [vm_compute; reflexivity|].
  assert (Hl : live (Thread 0 (Some (__init_tls 4096 8192)))) by (split; [simpl; lia|eexists; reflexivity]).
  pose proof (setspecific_spec tls_demo 0 _ 3 99 tls_demo_ok eq_refl Hl) as H.
  destruct (pthread_setspecific tls_demo 0 3 99) as [err st']. apply H.
Defined.

Lemma key_clean_all_spec_witness :
  snd (pthread_key_clean_all (fun _ _ s => s) 0 tls_demo) = due (relock tls_demo) 0 keys.
Proof.
  assert (Hl : live (Thread 0 (Some (__init_tls 4096 8192)))) by (split; [simpl; lia|eexists; reflexivity]).
  pose proof (key_clean_all_spec (fun _ _ s => s) tls_demo 0 _ (fun _ _ _ => eq_refl) tls_demo_ok eq_refl Hl) as H.
  destruct (pthread_key_clean_all (fun _ _ s => s) 0 tls_demo) as [st' calls]. apply H.
Defined.
