(* ===== verification/Buffer.v ===== *)
(** * Byte buffers

    The buffers that the resolver code reads through pointers: a list of bytes,
    read at an offset.  A read outside the buffer answers [None], so a function
    that can read outside its input answers [None] too. *)
From S2P Require Import Prelude.

Definition bytes : Type := list Z.
Definition rd (buf : bytes) (i : Z) : option Z := if 0 <=? i then buf !! Z.to_nat i else None.

Definition len (buf : bytes) : Z := Z.of_nat (length buf).
Definition byte_list (buf : bytes) : Prop := Forall (fun b => 0 <= b < 256) buf.

(** (p[i] << 8) | p[i+1] *)
Definition be16 (buf : bytes) (i : Z) : option Z :=
  a ← rd buf i; b ← rd buf (i + 1); Some (Z.lor (Z.shiftl a 8) b).

Lemma rd_lt buf i b : rd buf i = Some b -> 0 <= i < len buf.
Proof.
  unfold rd, len. case_test; [|done]. zbool. intros H%lookup_lt_Some. lia.
Qed.
Lemma rd_in buf i : 0 <= i < len buf -> exists b, rd buf i = Some b.
Proof.
  unfold rd, len. intros Hi. rewrite (proj2 (Z.leb_le _ _)) by lia.
  destruct (buf !! Z.to_nat i) eqn:E; [eauto|]. apply lookup_ge_None in E. lia.
Qed.
Lemma rd_byte buf i b : byte_list buf -> rd buf i = Some b -> 0 <= b < 256.
Proof.
  unfold rd. intros Hb H. case_test_in H; [|done].
  apply (Forall_lookup_1 _ _ _ _ Hb H).
Qed.

Ltac obind := cbn [mbind option_bind fst snd negb].

Lemma be16_in buf i : 0 <= i -> i + 2 <= len buf -> exists n, be16 buf i = Some n.
Proof.
  intros. unfold be16. destruct (rd_in buf i) as [a ->]; [lia|].
  destruct (rd_in buf (i + 1)) as [b ->]; [lia|]. simpl. eauto.
Qed.

Lemma be16_nonneg buf i n : byte_list buf -> be16 buf i = Some n -> 0 <= n.
Proof.
  intros Hb. unfold be16. destruct (rd buf i) as [a|] eqn:Ha; [|done]. destruct (rd buf (i + 1)) as [b|] eqn:Hb'; [|done].
  simpl. intros [= <-]. pose proof (rd_byte _ _ _ Hb Ha). pose proof (rd_byte _ _ _ Hb Hb').
  apply Z.lor_nonneg. split; [apply Z.shiftl_nonneg; lia|lia].
Qed.

(** ** Results of functions that fail with an errno

    [None]: a read outside the buffer; [Fail e]: the error result with errno [e]. *)
Inductive res (A : Type) : Type := Fail (errno : Z) | Good (a : A).
Arguments Fail {A} errno.
Arguments Good {A} a.

Definition io (A : Type) : Type := option (res A).
Definition good {A} (a : A) : io A := Some (Good a).
Definition fail {A} (e : Z) : io A := Some (Fail e).
Definition rbind {A B} (m : io A) (f : A -> io B) : io B :=
  match m with
  | None => None
  | Some (Fail e) => Some (Fail e)
  | Some (Good a) => f a
  end.
Notation "'let!' p := m 'in' k" := (rbind m (fun x => match x with p => k end))
  (at level 200, p pattern, m at level 200, k at level 200).

Definition getb (buf : bytes) (i : Z) : io Z :=
  match rd buf i with Some b => good b | None => None end.
(** *cp++ of a pointer [cp] into a buffer whose rest is the list. *)
Definition next (cp : bytes) : io (Z * bytes) :=
  match cp with b :: cp => good (b, cp) | [] => None end.
(** *cp *)
Definition peek (cp : bytes) : io Z :=
  match cp with b :: _ => good b | [] => None end.
