(* ===== verification/DnsPacket.v ===== *)
(** * DNS query packets (libc/netbsd/resolv/res_cache.c)

    The functions of res_cache.c that check, hash and compare query packets.  A
    packet is its bytes (base is offset 0, end the length) and a cursor.  Every
    read of the buffer may fail: an answer [None] means that the function reads
    outside the buffer. *)
From S2P Require Import Prelude Buffer.

Record DnsPacket : Type := Pkt { base : bytes; end_ : Z; cursor : Z }.

Definition DNS_HEADER_SIZE : Z := 12.

(** The bytes of the C string literals: an octal escape has at most three
    digits, so the literal written for DNS_TYPE_ALL is the bytes 0, 31, 55. *)
Definition DNS_TYPE_A : list Z := [0; 1].
Definition DNS_TYPE_PTR : list Z := [0; 12].
Definition DNS_TYPE_MX : list Z := [0; 15].
Definition DNS_TYPE_AAAA : list Z := [0; 28].
Definition DNS_TYPE_ALL : list Z := [0; 31; 55].
Definition DNS_CLASS_IN : list Z := [0; 1].

Definition _dnsPacket_init (buff : bytes) : DnsPacket := Pkt buff (Z.of_nat (length buff)) 0.
Definition seek (packet : DnsPacket) (p : Z) : DnsPacket := Pkt (base packet) (end_ packet) p.
Definition _dnsPacket_rewind (packet : DnsPacket) : DnsPacket := seek packet 0.
Definition _dnsPacket_skip (packet : DnsPacket) (count : Z) : DnsPacket :=
  let p := cursor packet + count in
  seek packet (if end_ packet <? p then end_ packet else p).

Definition _dnsPacket_readInt16 (packet : DnsPacket) : option (Z * DnsPacket) :=
  let p := cursor packet in
  if end_ packet <? p + 2 then Some (-1, packet)
  else
    b0 ← rd (base packet) p;
    b1 ← rd (base packet) (p + 1);
    Some (Z.lor (Z.shiftl b0 8) b1, seek packet (p + 2)).

(** memcmp(p, bytes, numBytes) == 0 *)
Fixpoint same_bytes (buf : bytes) (p : Z) (numBytes : nat) (bs : list Z) : option bool :=
  match numBytes, bs with
  | O, _ => Some true
  | S n, b :: bs =>
      x ← rd buf p;
      if x =? b then same_bytes buf (p + 1) n bs else Some false
  | S _, [] => None
  end.

Definition _dnsPacket_checkBytes (packet : DnsPacket) (numBytes : nat) (bs : list Z) :
    option (bool * DnsPacket) :=
  let p := cursor packet in
  if end_ packet <? p + Z.of_nat numBytes then Some (false, packet)
  else
    same ← same_bytes (base packet) p numBytes bs;
    Some (if same : bool then (true, seek packet (p + Z.of_nat numBytes)) else (false, packet)).

(** The loop of _dnsPacket_checkQName from [p]: the new cursor, or [Some None]
    for malformed data. *)
Fixpoint check_qname (fuel : nat) (buf : bytes) (end_ p : Z) : option (option Z) :=
  match fuel with
  | O => None
  | S fuel =>
      if end_ <=? p then Some None
      else
        c ← rd buf p;
        let p := p + 1 in
        if c =? 0 then Some (Some p)
        else if 64 <=? c then Some None
        else check_qname fuel buf end_ (p + c)
  end.

(** Every round of a loop over the buffer advances by at least one byte. *)
Definition loop_fuel (packet : DnsPacket) : nat := S (length (base packet)).

Definition _dnsPacket_checkQName (packet : DnsPacket) : option (bool * DnsPacket) :=
  r ← check_qname (loop_fuel packet) (base packet) (end_ packet) (cursor packet);
  Some (match r with Some p => (true, seek packet p) | None => (false, packet) end).

(** The first of the alternatives that matches, as the chain of && and ! in
    _dnsPacket_checkQR evaluates them. *)
Fixpoint check_any (packet : DnsPacket) (alts : list (list Z)) : option (bool * DnsPacket) :=
  match alts with
  | [] => Some (false, packet)
  | a :: alts =>
      r ← _dnsPacket_checkBytes packet 2 a;
      if fst r : bool then Some r else check_any packet alts
  end.

Definition _dnsPacket_checkQR (packet : DnsPacket) : option (bool * DnsPacket) :=
  '(ok, packet) ← _dnsPacket_checkQName packet;
  if negb ok then Some (false, packet)
  else
    '(ok, packet) ← check_any packet [DNS_TYPE_A; DNS_TYPE_PTR; DNS_TYPE_MX; DNS_TYPE_AAAA; DNS_TYPE_ALL];
    if negb ok then Some (false, packet)
    else
      '(ok, packet) ← _dnsPacket_checkBytes packet 2 DNS_CLASS_IN;
      if negb ok then Some (false, packet) else Some (true, packet).

Fixpoint check_qrs (qdCount : nat) (packet : DnsPacket) : option (bool * DnsPacket) :=
  match qdCount with
  | O => Some (true, packet)
  | S n =>
      '(ok, packet) ← _dnsPacket_checkQR packet;
      if negb ok then Some (false, packet) else check_qrs n packet
  end.

Definition _dnsPacket_checkQuery (packet : DnsPacket) : option (bool * DnsPacket) :=
  let p := base packet in
  if end_ packet <? DNS_HEADER_SIZE then Some (false, packet)
  else
    p2 ← rd p 2;
    p3 ← rd p 3;
    if negb (Z.land p2 0xFC =? 0) || negb (p3 =? 0) then Some (false, packet)
    else
      qdCount ← be16 p 4;
      anCount ← be16 p 6;
      dnCount ← be16 p 8;
      arCount ← be16 p 10;
      if negb (anCount =? 0) || negb (dnCount =? 0) || negb (arCount =? 0) then Some (false, packet)
      else if qdCount =? 0 then Some (false, packet)
      else check_qrs (Z.to_nat qdCount) (seek packet DNS_HEADER_SIZE).

(** ** Hashing *)
Definition FNV_MULT : Z := 16777619.
Definition FNV_BASIS : Z := 2166136261.
Definition fnv (hash b : Z) : Z := Z.lxor (u32 (hash * FNV_MULT)) b.

Fixpoint hash_bytes (fuel : nat) (buf : bytes) (end_ p numBytes hash : Z) : option (Z * Z) :=
  match fuel with
  | O => None
  | S fuel =>
      if (0 <? numBytes) && (p <? end_) then
        b ← rd buf p; hash_bytes fuel buf end_ (p + 1) numBytes (fnv hash b)
      else Some (hash, p)
  end.

Definition _dnsPacket_hashBytes (packet : DnsPacket) (numBytes hash : Z) : option (Z * DnsPacket) :=
  '(hash, p) ← hash_bytes (loop_fuel packet) (base packet) (end_ packet) (cursor packet) numBytes hash;
  Some (hash, seek packet p).

(** while (c > 0) { hash = hash*FNV_MULT ^ *p++; c -= 1; } *)
Fixpoint hash_label (c : nat) (buf : bytes) (p hash : Z) : option Z :=
  match c with
  | O => Some hash
  | S c => b ← rd buf p; hash_label c buf (p + 1) (fnv hash b)
  end.

Fixpoint hash_qname (fuel : nat) (buf : bytes) (end_ p hash : Z) : option (Z * Z) :=
  match fuel with
  | O => None
  | S fuel =>
      if end_ <=? p then Some (hash, p)
      else
        c ← rd buf p;
        let p := p + 1 in
        if c =? 0 then Some (hash, p)
        else if 64 <=? c then Some (hash, p)
        else if end_ <=? p + c then Some (hash, p)
        else hash ← hash_label (Z.to_nat c) buf p hash; hash_qname fuel buf end_ (p + c) hash
  end.

Definition _dnsPacket_hashQName (packet : DnsPacket) (hash : Z) : option (Z * DnsPacket) :=
  '(hash, p) ← hash_qname (loop_fuel packet) (base packet) (end_ packet) (cursor packet) hash;
  Some (hash, seek packet p).

Definition _dnsPacket_hashQR (packet : DnsPacket) (hash : Z) : option (Z * DnsPacket) :=
  '(hash, packet) ← _dnsPacket_hashQName packet hash;
  _dnsPacket_hashBytes packet 4 hash.

Fixpoint hash_qrs (count : nat) (packet : DnsPacket) (hash : Z) : option Z :=
  match count with
  | O => Some hash
  | S n => '(hash, packet) ← _dnsPacket_hashQR packet hash; hash_qrs n packet hash
  end.

Definition _dnsPacket_hashQuery (packet : DnsPacket) : option Z :=
  let packet := _dnsPacket_rewind packet in
  b2 ← rd (base packet) 2;
  let hash := fnv FNV_BASIS (Z.land b2 1) in
  let packet := _dnsPacket_skip packet 4 in
  '(count, packet) ← _dnsPacket_readInt16 packet;
  let packet := _dnsPacket_skip packet 6 in
  hash_qrs (Z.to_nat count) packet hash.

(** ** Comparison *)
(** memcmp(p1, p2, n) == 0 *)
Fixpoint cmp_bytes (buf1 buf2 : bytes) (p1 p2 : Z) (n : nat) : option bool :=
  match n with
  | O => Some true
  | S n =>
      b1 ← rd buf1 p1;
      b2 ← rd buf2 p2;
      if b1 =? b2 then cmp_bytes buf1 buf2 (p1 + 1) (p2 + 1) n else Some false
  end.

Fixpoint equal_dname (fuel : nat) (buf1 buf2 : bytes) (end1 end2 p1 p2 : Z) :
    option (option (Z * Z)) :=
  match fuel with
  | O => None
  | S fuel =>
      if (end1 <=? p1) || (end2 <=? p2) then Some None
      else
        c1 ← rd buf1 p1;
        c2 ← rd buf2 p2;
        let p1 := p1 + 1 in
        let p2 := p2 + 1 in
        if negb (c1 =? c2) then Some None
        else if c1 =? 0 then Some (Some (p1, p2))
        else if 64 <=? c1 then Some None
        else if (end1 <? p1 + c1) || (end2 <? p2 + c1) then Some None
        else
          same ← cmp_bytes buf1 buf2 p1 p2 (Z.to_nat c1);
          if negb same then Some None
          else equal_dname fuel buf1 buf2 end1 end2 (p1 + c1) (p2 + c1)
  end.

Definition _dnsPacket_isEqualDomainName (pack1 pack2 : DnsPacket) :
    option (bool * DnsPacket * DnsPacket) :=
  r ← equal_dname (loop_fuel pack1) (base pack1) (base pack2) (end_ pack1) (end_ pack2)
                  (cursor pack1) (cursor pack2);
  Some (match r with
        | Some (p1, p2) => (true, seek pack1 p1, seek pack2 p2)
        | None => (false, pack1, pack2)
        end).

Definition _dnsPacket_isEqualBytes (pack1 pack2 : DnsPacket) (numBytes : nat) :
    option (bool * DnsPacket * DnsPacket) :=
  let p1 := cursor pack1 in
  let p2 := cursor pack2 in
  let n := Z.of_nat numBytes in
  if (end_ pack1 <? p1 + n) || (end_ pack2 <? p2 + n) then Some (false, pack1, pack2)
  else
    same ← cmp_bytes (base pack1) (base pack2) p1 p2 numBytes;
    Some (if same : bool then (true, seek pack1 (p1 + n), seek pack2 (p2 + n))
          else (false, pack1, pack2)).

Definition _dnsPacket_isEqualQR (pack1 pack2 : DnsPacket) : option (bool * DnsPacket * DnsPacket) :=
  '(ok, pack1, pack2) ← _dnsPacket_isEqualDomainName pack1 pack2;
  if negb ok then Some (false, pack1, pack2)
  else _dnsPacket_isEqualBytes pack1 pack2 4.

Fixpoint equal_qrs (count : nat) (pack1 pack2 : DnsPacket) : option bool :=
  match count with
  | O => Some true
  | S n =>
      '(ok, pack1, pack2) ← _dnsPacket_isEqualQR pack1 pack2;
      if negb ok then Some false else equal_qrs n pack1 pack2
  end.

Definition _dnsPacket_isEqualQuery (pack1 pack2 : DnsPacket) : option bool :=
  let pack1 := _dnsPacket_rewind pack1 in
  let pack2 := _dnsPacket_rewind pack2 in
  f1 ← rd (base pack1) 2;
  f2 ← rd (base pack2) 2;
  if negb (Z.land f1 1 =? Z.land f2 1) then Some false
  else
    let pack1 := _dnsPacket_skip pack1 4 in
    let pack2 := _dnsPacket_skip pack2 4 in
    '(count1, pack1) ← _dnsPacket_readInt16 pack1;
    '(count2, pack2) ← _dnsPacket_readInt16 pack2;
    if negb (count1 =? count2) || (count1 <? 0) then Some false
    else
      equal_qrs (Z.to_nat count1) (_dnsPacket_skip pack1 6) (_dnsPacket_skip pack2 6).

(** ** The format of queries *)
Section Format.
Context (buf : bytes).
(** A name without compression occupies the bytes from [p] to [q]. *)
Inductive qname : Z -> Z -> Prop :=
| qname_root p : rd buf p = Some 0 -> qname p (p + 1)
| qname_label p c q : rd buf p = Some c -> 0 < c < 64 -> qname (p + 1 + c) q -> qname p q.

(** A question: a name, a type of the table, the class IN. *)
Definition supported_types : list Z := [1; 12; 15; 28; 31].
Definition question (p q : Z) : Prop :=
  exists e ty, qname p e /\ rd buf e = Some 0 /\ rd buf (e + 1) = Some ty /\ ty ∈ supported_types /\
    rd buf (e + 2) = Some 0 /\ rd buf (e + 3) = Some 1 /\ q = e + 4.

Inductive questions : nat -> Z -> Z -> Prop :=
| questions_nil p : questions 0 p p
| questions_cons n p e q : question p e -> questions n e q -> questions (S n) p q.

(** A query that can be cached, whose question section ends at [q]. *)
Definition valid_query (q : Z) : Prop :=
  exists f n, DNS_HEADER_SIZE <= len buf /\ rd buf 2 = Some f /\ Z.land f 0xFC = 0 /\ rd buf 3 = Some 0 /\
    be16 buf 4 = Some n /\ n <> 0 /\ be16 buf 6 = Some 0 /\ be16 buf 8 = Some 0 /\ be16 buf 10 = Some 0 /\
    questions (Z.to_nat n) DNS_HEADER_SIZE q.
(** The format alone: [tys] are the types of the questions between [p] and [q],
    as 16-bit numbers. *)
Inductive questions_of : list Z -> Z -> Z -> Prop :=
| questions_of_nil p : questions_of [] p p
| questions_of_cons ty tys p e q :
    qname p e -> be16 buf e = Some ty -> be16 buf (e + 2) = Some 1 -> questions_of tys (e + 4) q -> questions_of (ty :: tys) p q.

Definition query_format (tys : list Z) (q : Z) : Prop :=
  exists f, DNS_HEADER_SIZE <= len buf /\ rd buf 2 = Some f /\ Z.land f 0xFC = 0 /\ rd buf 3 = Some 0 /\
    be16 buf 4 = Some (len tys) /\ tys <> [] /\ be16 buf 6 = Some 0 /\ be16 buf 8 = Some 0 /\ be16 buf 10 = Some 0 /\
    questions_of tys DNS_HEADER_SIZE q.
End Format.

(** The types that the comments of the table of types name (A, PTR, MX, AAAA and
    ALL), and those that the table holds. *)
Definition documented_types : list Z := [1; 12; 15; 28; 255].
Definition accepted_type (ty : Z) : Prop := ty = 31 \/ (ty ∈ documented_types /\ ty <> 255).

Definition pk_ok (pk : DnsPacket) : Prop := end_ pk = len (base pk) /\ 0 <= cursor pk.

Lemma qname_det buf p q q' : qname buf p q -> qname buf p q' -> q = q'.
Proof.
  intros H. revert q'. induction H as [p H|p c q H Hc _ IH]; intros q' H'; inversion H'; subst;
    [lia|rewrite H in *; simplify_eq; lia|rewrite H in *; simplify_eq; lia|].
  rewrite H in *. simplify_eq. auto.
Qed.
Lemma qname_bounds buf p q : qname buf p q -> 0 <= p < q /\ q <= len buf.
Proof. induction 1 as [p H%rd_lt|p c q H%rd_lt Hc _ IH]; lia. Qed.
Lemma question_det buf p q q' : question buf p q -> question buf p q' -> q = q'.
Proof. intros (e & ty & H & _ & _ & _ & _ & _ & ->) (e' & ty' & H' & _ & _ & _ & _ & _ & ->). by rewrite (qname_det _ _ _ _ H H'). Qed.
Lemma question_bounds buf p q : question buf p q -> 0 <= p < q /\ q <= len buf.
Proof.
  intros (e & ty & H%qname_bounds & _ & _ & _ & _ & H3%rd_lt & ->). lia.
Qed.

(** The loop of checkQName recognises names, and needs no more fuel than bytes. *)
Lemma check_qname_spec buf fuel p :
  byte_list buf -> 0 <= p -> len buf - p < Z.of_nat fuel -> (0 < fuel)%nat ->
  exists r, check_qname fuel buf (len buf) p = Some r /\ forall q, r = Some q <-> qname buf p q.
Proof.
  intros Hb. revert p. induction fuel as [|fuel IH]; intros p Hp Hf H0; [lia|]. simpl.
  case_test; zbool.
  - exists None. split; [done|]. split; [done|]. intros H%qname_bounds. lia.
  - destruct (rd_in buf p) as [c Hc]; [lia|]. rewrite Hc. simpl. pose proof (rd_byte _ _ _ Hb Hc).
    case_test; zbool; [subst c|case_test; zbool].
    + eexists. split; [done|]. intros q. split; [intros [= <-]; by constructor|].
      intros Hq. f_equal. apply (qname_det buf p); [by constructor|done].
    + eexists. split; [done|]. intros q. split; [done|]. intros Hq. inversion Hq; simplify_eq; lia.
    + destruct (IH (p + 1 + c)) as (r & Hr & Hspec); [lia..|].
      exists r. split; [done|]. intros q. rewrite Hspec. split; intros Hq.
      * eapply qname_label; eauto. lia.
      * inversion Hq; simplify_eq. done.
Qed.

Lemma checkQName_spec pk :
  byte_list (base pk) -> pk_ok pk ->
  exists (b : bool) pk', _dnsPacket_checkQName pk = Some (b, pk') /\ base pk' = base pk /\ pk_ok pk' /\
    (forall q, qname (base pk) (cursor pk) q <-> b = true /\ cursor pk' = q).
Proof.
  intros Hb [He Hc]. unfold _dnsPacket_checkQName. rewrite He.
  destruct (check_qname_spec (base pk) (loop_fuel pk) (cursor pk)) as (r & -> & Hr);
    [done..|unfold loop_fuel, len; lia|unfold loop_fuel; lia|].
  simpl. destruct r as [p|]; eexists _, _; (split; [done|]); simpl.
  - split; [done|]. assert (qname (base pk) (cursor pk) p) as Hq by by apply Hr.
    split; [split; simpl; [done|apply qname_bounds in Hq; lia]|].
    intros q. rewrite <- Hr. split; [intros [= ->]; done|intros [_ ->]; done].
  - split; [done|]. split; [done|]. intros q. rewrite <- Hr. split; [done|]. intros [? _]. done.
Qed.

(** Two bytes, the first of them 0. *)
Lemma checkBytes_spec pk x rest :
  pk_ok pk ->
  exists b : bool, _dnsPacket_checkBytes pk 2 (0 :: x :: rest) =
      Some (b, if b then seek pk (cursor pk + 2) else pk) /\
    (b = true <-> rd (base pk) (cursor pk) = Some 0 /\ rd (base pk) (cursor pk + 1) = Some x).
Proof.
  intros [He Hc]. unfold _dnsPacket_checkBytes. rewrite He. change (Z.of_nat 2) with 2.
  case_test; zbool.
  - exists false. split; [done|]. split; [done|]. intros [_ H%rd_lt]. lia.
  - destruct (rd_in (base pk) (cursor pk)) as [b0 H0]; [lia|].
    destruct (rd_in (base pk) (cursor pk + 1)) as [b1 H1]; [lia|]. simpl.
    rewrite H0. simpl. rewrite H1. case_test; zbool; simpl; [case_test; zbool; simpl|].
    + exists true. subst. done.
    + exists false. split; [done|]. split; [done|]. intros [_ ?]. simplify_eq.
    + exists false. split; [done|]. split; [done|]. intros [? _]. simplify_eq.
Qed.

Lemma check_any_spec pk xs alts :
  pk_ok pk -> Forall2 (fun a x => exists rest, a = 0 :: x :: rest) alts xs ->
  exists b : bool, check_any pk alts = Some (b, if b then seek pk (cursor pk + 2) else pk) /\
    (b = true <-> rd (base pk) (cursor pk) = Some 0 /\ exists x, rd (base pk) (cursor pk + 1) = Some x /\ x ∈ xs).
Proof.
  intros Hok. induction 1 as [|a x alts xs [rest ->] _ IH]; simpl.
  - exists false. split; [done|]. split; [done|]. intros (_ & x & _ & Hx). set_solver.
  - destruct (checkBytes_spec pk x rest Hok) as (b & -> & Hb). simpl. destruct b; simpl.
    + exists true. split; [done|]. split; [|done]. intros _. destruct Hb as [Hb _]. destruct Hb; [done|]. 
      split; [done|]. exists x. split; [done|]. set_solver.
    + destruct IH as (b & -> & Hb'). exists b. split; [done|]. rewrite Hb'. split.
      * intros (H0 & y & Hy & Hin). split; [done|]. exists y. set_solver.
      * intros (H0 & y & Hy & Hin). split; [done|]. exists y. split; [done|].
        apply elem_of_cons in Hin as [->|]; [|done]. destruct Hb as [_ Hb]. by discriminate Hb.
Qed.

Lemma pk_seek pk p : pk_ok pk -> 0 <= p -> pk_ok (seek pk p).
Proof. intros [He _] Hp. split; [done|]. simpl. lia. Qed.

Lemma checkQR_spec pk :
  byte_list (base pk) -> pk_ok pk ->
  exists (b : bool) pk', _dnsPacket_checkQR pk = Some (b, pk') /\ base pk' = base pk /\ pk_ok pk' /\
    (forall q, question (base pk) (cursor pk) q <-> b = true /\ cursor pk' = q).
Proof.
  intros Hb Hok. unfold _dnsPacket_checkQR.
  destruct (checkQName_spec pk Hb Hok) as (b1 & pk1 & -> & Hbase & Hok1 & Hq1). obind.
  destruct b1; obind.
  2: { eexists _, _. split_and!; try done. intros q. split; [|by intros [? _]].
       intros (e & ty & He & _). apply Hq1 in He as [? _]. done. }
  destruct (check_any_spec pk1 supported_types
    [DNS_TYPE_A; DNS_TYPE_PTR; DNS_TYPE_MX; DNS_TYPE_AAAA; DNS_TYPE_ALL] Hok1) as (b2 & -> & Hb2).
  { repeat (constructor; [by eexists|]). constructor. }
  obind. rewrite Hbase in Hb2.
  assert (Hne : forall q, question (base pk) (cursor pk) q -> b2 = true /\
      rd (base pk) (cursor pk1 + 2) = Some 0 /\ rd (base pk) (cursor pk1 + 3) = Some 1 /\ q = cursor pk1 + 4).
  { intros q (e & ty & He & H0 & H1 & Hty & H2 & H3 & ->). apply Hq1 in He as [_ <-].
    split_and!; try done. apply Hb2. eauto. }
  destruct b2; obind.
  2: { eexists _, _. split_and!; try done. intros q. split; [|by intros [? _]].
       intros [? _]%Hne. done. }
  pose proof Hok1 as [He1 Hc1].
  assert (Hok2 : pk_ok (seek pk1 (cursor pk1 + 2))) by (apply pk_seek; [done|lia]).
  change DNS_CLASS_IN with [0; 1].
  destruct (checkBytes_spec (seek pk1 (cursor pk1 + 2)) 1 [] Hok2) as (b3 & -> & Hb3).
  obind. cbn [base seek cursor] in *. rewrite Hbase in Hb3. replace (cursor pk1 + 2 + 1) with (cursor pk1 + 3) in Hb3 by lia.
  destruct b3; simpl; eexists _, _; (split; [done|]); simpl.
  - split_and!; [done|by apply pk_seek; [done|simpl; lia]|].
    intros q. split.
    + intros (_ & _ & _ & ->)%Hne. split; [done|lia].
    + intros [_ <-]. destruct (proj1 Hb2 eq_refl) as (H0 & ty & H1 & Hty).
      destruct (proj1 Hb3 eq_refl) as [H2 H3].
      exists (cursor pk1), ty. split_and!; try done; [by apply Hq1|lia].
  - split_and!; try done. intros q. split; [|by intros [? _]]. intros (_ & H2 & H3 & _)%Hne.
    assert (false = true); [|done]. by apply Hb3.
Qed.

Lemma check_qrs_spec n pk :
  byte_list (base pk) -> pk_ok pk ->
  exists (b : bool) pk', check_qrs n pk = Some (b, pk') /\ base pk' = base pk /\
    (forall q, questions (base pk) n (cursor pk) q <-> b = true /\ cursor pk' = q).
Proof.
  revert pk. induction n as [|n IH]; intros pk Hb Hok; simpl.
  - exists true, pk. split_and!; try done. intros q. split; [intros H; by inversion H|].
    intros [_ <-]. constructor.
  - destruct (checkQR_spec pk Hb Hok) as (b & pk1 & -> & Hbase & Hok1 & Hq). simpl.
    destruct b; simpl.
    + destruct (IH pk1) as (b & pk' & -> & Hbase' & Hq'); [by rewrite Hbase|done|].
      exists b, pk'. rewrite Hbase in *. split_and!; try done. intros q. rewrite <- Hq'. split.
      * intros H. inversion H as [|? ? e ? He Hr]; subst. apply Hq in He as [_ <-]. done.
      * intros H. econstructor; [|done]. by apply Hq.
    + eexists _, _. split_and!; try done. intros q. split; [|by intros [? _]].
      intros H. inversion H as [|? ? e ? He Hr]; subst. apply Hq in He as [? _]. done.
Qed.

Lemma query_check buf :
  byte_list buf ->
  exists (b : bool) pk', _dnsPacket_checkQuery (_dnsPacket_init buf) = Some (b, pk') /\ base pk' = buf /\
    (forall q, valid_query buf q <-> b = true /\ cursor pk' = q).
Proof.
  intros Hb. unfold _dnsPacket_checkQuery, _dnsPacket_init. cbn [base end_ cursor]. change (Z.of_nat (length buf)) with (len buf).
  assert (Hrej : forall pk, base pk = buf -> (forall q, valid_query buf q -> False) ->
    exists (b : bool) pk', Some (false, pk) = Some (b, pk') /\ base pk' = buf /\
    (forall q, valid_query buf q <-> b = true /\ cursor pk' = q)).
  { intros pk Hbase Hno. exists false, pk. split_and!; try done. intros q. split; [by intros ?%Hno|by intros [? _]]. }
  case_test; zbool.
  { apply Hrej; [done|]. intros q (f & n & Hl & _). lia. }
  unfold DNS_HEADER_SIZE in *.
  destruct (rd_in buf 2) as [f Hf]; [lia|]. destruct (rd_in buf 3) as [f3 Hf3]; [lia|].
  rewrite Hf, Hf3. cbn [mbind option_bind].
  case_test.
  { apply Hrej; [done|]. intros q (f' & n & _ & Hf' & Hl & H3 & _). simplify_eq.
    rewrite Hl in E0. done. }
  zbool. subst f3.
  destruct (be16_in buf 4) as [n Hn]; [lia..|]. destruct (be16_in buf 6) as [n6 H6]; [lia..|].
  destruct (be16_in buf 8) as [n8 H8]; [lia..|]. destruct (be16_in buf 10) as [n10 H10]; [lia..|].
  rewrite Hn, H6, H8, H10. cbn [mbind option_bind].
  case_test.
  { apply Hrej; [done|]. intros q (f' & n' & _ & _ & _ & _ & _ & _ & G6 & G8 & G10 & _). simplify_eq. }
  zbool. subst.
  case_test.
  { apply Hrej; [done|]. zbool. intros q (f' & n' & _ & _ & _ & _ & G & Hnz & _). simplify_eq. }
  zbool.
  destruct (check_qrs_spec (Z.to_nat n) (Pkt buf (len buf) 12)) as (b & pk' & Hc & Hbase & Hq);
    [done|split; simpl; [done|lia]|].
  exists b, pk'. split_and!; [exact Hc|done|]. intros q. rewrite <- Hq. unfold valid_query, DNS_HEADER_SIZE.
  split.
  - intros (f' & n' & _ & _ & _ & _ & G & _ & _ & _ & _ & Hqs). simplify_eq. done.
  - intros Hqs. exists f, n. split_and!; done.
Qed.

(** ** The format and the table *)
Lemma be16_split buf e ty :
  byte_list buf -> ty < 256 -> be16 buf e = Some ty <-> rd buf e = Some 0 /\ rd buf (e + 1) = Some ty.
Proof.
  intros Hb Hty. unfold be16. destruct (rd buf e) as [b0|] eqn:E0, (rd buf (e + 1)) as [b1|] eqn:E1; cbn [mbind option_bind];
    [|naive_solver..].
  pose proof (rd_byte _ _ _ Hb E0). pose proof (rd_byte _ _ _ Hb E1).
  rewrite lor_shiftl_low by (simpl; lia). change (2 ^ 8) with 256.
  split; [intros [= <-]|by intros [[= ->] [= ->]]]. assert (b0 = 0) as -> by lia. done.
Qed.

Lemma accepted_supported ty : accepted_type ty <-> ty ∈ supported_types.
Proof.
  unfold accepted_type, documented_types, supported_types. rewrite !elem_of_cons, elem_of_nil. lia.
Qed.

Lemma questions_format buf n p q :
  byte_list buf -> questions buf n p q <-> exists tys, length tys = n /\ questions_of buf tys p q /\ Forall accepted_type tys.
Proof.
  intros Hb. split.
  - induction 1 as [p|n p e q (e0 & ty & Hn & H0 & H1 & Hty & H2 & H3 & ->) _ (tys & Hl & Hqs & Hall)];
      [exists []; split_and!; [done|constructor|done]|].
    assert (ty < 256) by (apply (rd_byte _ _ _ Hb H1)).
    exists (ty :: tys). split_and!; [simpl; lia| |by constructor; [apply accepted_supported|]].
    econstructor; [done|by apply be16_split|apply be16_split; [done|lia|]|done].
    by replace (e0 + 2 + 1) with (e0 + 3) by lia.
  - intros (tys & <- & Hqs & Hall). induction Hqs as [p|ty tys p e q Hn Hty Hc _ IH]; [constructor|].
    apply Forall_cons in Hall as [Ha Hall]. apply accepted_supported in Ha.
    assert (Hlt : ty < 256) by (unfold supported_types in Ha; rewrite !elem_of_cons, elem_of_nil in Ha; lia).
    apply be16_split in Hty as [H0 H1]; [|done..]. apply be16_split in Hc as [H2 H3]; [|done|lia].
    replace (e + 2 + 1) with (e + 3) in H3 by lia. cbn [length]. econstructor; [|by apply IH]. exists e, ty. by split_and!.
Qed.

Lemma questions_of_det buf tys tys' p q q' :
  length tys = length tys' -> questions_of buf tys p q -> questions_of buf tys' p q' -> tys = tys' /\ q = q'.
Proof.
  intros Hl H. revert tys' q' Hl. induction H as [p|ty tys p e q Hn Hty _ _ IH]; intros tys' q' Hl H';
    inversion H' as [|ty' tys0 ? e' ? Hn' Hty' _ Hqs']; subst; [done|done|done|].
  pose proof (qname_det _ _ _ _ Hn Hn') as <-. destruct (IH tys0 q') as [-> ->]; [simpl in Hl; lia|done|].
  rewrite Hty in Hty'. by injection Hty' as ->.
Qed.

Lemma query_format_iff buf q :
  byte_list buf -> valid_query buf q <-> exists tys, query_format buf tys q /\ Forall accepted_type tys.
Proof.
  intros Hb. unfold valid_query, query_format. split.
  - intros (f & n & Hl & Hf & Hf' & H3 & Hn & Hnz & H6 & H8 & H10 & Hqs).
    pose proof (be16_nonneg _ _ _ Hb Hn).
    apply questions_format in Hqs as (tys & Hlen & Hqs & Hall); [|done]. exists tys. split; [|done]. exists f.
    assert (len tys = n) as -> by (unfold len; lia). split_and!; try done. intros ->. simpl in Hlen. lia.
  - intros (tys & (f & Hl & Hf & Hf' & H3 & Hn & Hnz & H6 & H8 & H10 & Hqs) & Hall). exists f, (len tys).
    split_and!; try done; [destruct tys; [done|unfold len; simpl; lia]|].
    apply questions_format; [done|]. exists tys. unfold len. rewrite Nat2Z.id. done.
Qed.

Lemma query_format_det buf tys tys' q q' : query_format buf tys q -> query_format buf tys' q' -> tys = tys' /\ q = q'.
Proof.
  intros (f & _ & _ & _ & _ & Hn & _ & _ & _ & _ & Hqs) (f' & _ & _ & _ & _ & Hn' & _ & _ & _ & _ & Hqs').
  rewrite Hn in Hn'. injection Hn' as Hn'. apply (questions_of_det buf tys tys' DNS_HEADER_SIZE q q'); [|done..].
  unfold len in Hn'. lia.
Qed.

(** C36.  _dnsPacket_checkQuery reads no byte outside the packet.  It rejects
    what does not have the format of a query (a header with no flag but TC and RD
    and with no answer, authority or additional records, and QDCOUNT > 0 questions
    of the class IN); a query it accepts, leaving the cursor at the end of the
    question section, exactly when each of its types is one that the comments of the
    table of types name, with one exception: where the comment says 255 (ALL) the
    table holds 31, so that queries for ALL are rejected and those for the type 31
    are accepted. *)
Theorem checkQuery_correct buf :
  byte_list buf ->
  exists (b : bool) pk', _dnsPacket_checkQuery (_dnsPacket_init buf) = Some (b, pk') /\ base pk' = buf /\
    (b = true -> exists tys q, query_format buf tys q) /\
    (forall tys q, query_format buf tys q ->
       (b = true <-> Forall (fun ty => ty = 31 \/ (ty ∈ documented_types /\ ty <> 255)) tys) /\
       (b = true -> cursor pk' = q)).
Proof.
  intros Hb. destruct (query_check buf Hb) as (b & pk' & Hc & Hbase & Hq). exists b, pk'. split_and!; [done|done| |].
  - intros ->. destruct (proj1 (query_format_iff buf (cursor pk') Hb)) as (tys & Hf & _); [by apply Hq|]. by exists tys, (cursor pk').
  - intros tys q Hf. split.
    + split; [|intros Hall; apply (Hq q), query_format_iff; [done|]; by exists tys].
      intros ->. destruct (proj1 (query_format_iff buf (cursor pk') Hb)) as (tys' & Hf' & Hall); [by apply Hq|].
      by destruct (query_format_det _ _ _ _ _ Hf Hf') as [-> _].
    + intros ->. destruct (proj1 (query_format_iff buf (cursor pk') Hb)) as (tys' & Hf' & _); [by apply Hq|].
      by destruct (query_format_det _ _ _ _ _ Hf Hf') as [_ ->].
Qed.

(** A query of one question for the root, of type [ty] and class IN. *)
Definition root_query (ty : Z) : bytes := [7; 7; 1; 0; 0; 1; 0; 0; 0; 0; 0; 0; 0; 0; ty; 0; 1].

Lemma root_query_format ty : ty ∈ [28; 31; 255] -> query_format (root_query ty) [ty] 17.
Proof.
  intros Hty. exists 1. split_and!; try (vm_compute; congruence).
  apply (questions_of_cons _ ty [] _ 13 17); [by constructor| |reflexivity|constructor].
  rewrite !elem_of_cons, elem_of_nil in Hty. by destruct Hty as [->|[->|[->|[]]]].
Qed.

Lemma checkQuery_correct_witness :
  fst <$> _dnsPacket_checkQuery (_dnsPacket_init (root_query 28)) = Some true /\
  fst <$> _dnsPacket_checkQuery (_dnsPacket_init (root_query 255)) = Some false.
Proof.
  split.
  - destruct (checkQuery_correct (root_query 28)) as (b & pk' & -> & _ & _ & Hq); [repeat constructor; lia|].
    destruct (Hq [28] 17) as [Hiff _]; [apply root_query_format; set_solver|].
    simpl. f_equal. apply Hiff. constructor; [|constructor]. right. split; [unfold documented_types; set_solver|lia].
  - destruct (checkQuery_correct (root_query 255)) as (b & pk' & -> & _ & _ & Hq); [repeat constructor; lia|].
    destruct (Hq [255] 17) as [Hiff _]; [apply root_query_format; set_solver|].
    simpl. f_equal. destruct b; [|done]. destruct Hiff as [Hiff _]. specialize (Hiff eq_refl).
    apply Forall_cons in Hiff as [Hty _]. cbv beta in Hty. destruct Hty as [|[_ Hty]]; lia.
Defined.

(** The table entry for the query type ALL is wrong: a query for type 255,
    which its comment names, is rejected, and one for type 31 is accepted. *)
Theorem query_type_all :
  fst <$> _dnsPacket_checkQuery (_dnsPacket_init (root_query 255)) = Some false /\
  fst <$> _dnsPacket_checkQuery (_dnsPacket_init (root_query 31)) = Some true.
Proof. split; vm_compute; reflexivity. Qed.

(** ** Comparison of checked queries *)
Definition agree (b1 b2 : bytes) (i j : Z) : Prop := forall k, i <= k < j -> rd b1 k = rd b2 k.

Lemma agree_split b1 b2 i j k : i <= j <= k -> agree b1 b2 i k <-> agree b1 b2 i j /\ agree b1 b2 j k.
Proof.
  intros Hj. split; [intros H; split; intros x Hx; apply H; lia|].
  intros [H1 H2] x Hx. destruct (Z_lt_dec x j); [apply H1|apply H2]; lia.
Qed.
Lemma agree_one b1 b2 i : agree b1 b2 i (i + 1) <-> rd b1 i = rd b2 i.
Proof. split; [intros H; apply H; lia|]. intros H k Hk. by replace k with i by lia. Qed.

Lemma cmp_bytes_spec b1 b2 p n :
  0 <= p -> p + Z.of_nat n <= len b1 -> p + Z.of_nat n <= len b2 ->
  exists b, cmp_bytes b1 b2 p p n = Some b /\ (b = true <-> agree b1 b2 p (p + Z.of_nat n)).
Proof.
  revert p. induction n as [|n IH]; intros p Hp H1 H2; simpl.
  - exists true. split; [done|]. split; [|done]. intros _ k Hk. lia.
  - destruct (rd_in b1 p) as [x Hx]; [lia|]. destruct (rd_in b2 p) as [y Hy]; [lia|].
    rewrite Hx, Hy. simpl. setoid_rewrite (agree_split b1 b2 p (p + 1) (p + Z.of_nat (S n)) ltac:(lia)).
    setoid_rewrite agree_one. rewrite Hx, Hy.
    case_test; zbool.
    + destruct (IH (p + 1)) as (b & Hb & Hs); [lia..|]. exists b. split; [done|]. rewrite Hs.
      replace (p + 1 + Z.of_nat n) with (p + Z.of_nat (S n)) by lia. naive_solver.
    + exists false. split; [done|]. split; [done|]. intros [? _]. congruence.
Qed.

Lemma qname_agree b1 b2 p q : qname b1 p q -> agree b1 b2 p q -> qname b2 p q.
Proof.
  induction 1 as [p H|p c q H Hc Hq IH]; intros Ha.
  - constructor. rewrite <- Ha by lia. done.
  - pose proof (qname_bounds _ _ _ Hq). econstructor; [|done|].
    + rewrite <- Ha by lia. done.
    + apply IH. intros k Hk. apply Ha. lia.
Qed.

Lemma equal_dname_spec b1 b2 p q1 q2 fuel :
  qname b1 p q1 -> qname b2 p q2 -> len b1 - p < Z.of_nat fuel ->
  exists r, equal_dname fuel b1 b2 (len b1) (len b2) p p = Some r /\
    ((r = Some (q1, q1) /\ q1 = q2 /\ agree b1 b2 p q1) \/ (r = None /\ ~ agree b1 b2 p q1)).
Proof.
  intros H1. revert q2 fuel. induction H1 as [p Hp|p c q1 Hp Hc Hq IH]; intros q2 fuel H2 Hf.
  - pose proof (rd_lt _ _ _ Hp). destruct fuel as [|fuel]; [lia|]. cbn [equal_dname].
    pose proof (qname_bounds _ _ _ H2). rewrite (proj2 (Z.leb_gt (len b1) p)), (proj2 (Z.leb_gt (len b2) p)) by lia.
    rewrite Hp. destruct (rd_in b2 p) as [c2 Hc2]; [lia|]. rewrite Hc2. cbn [orb]. obind.
    setoid_rewrite agree_one. rewrite Hp, Hc2.
    case_test; zbool; eexists; (split; [done|]).
    + right. split; [done|]. intros ?; simplify_eq.
    + subst c2. left. split_and!; [done| |done]. inversion H2; simplify_eq; [done|lia].
  - pose proof (rd_lt _ _ _ Hp). destruct fuel as [|fuel]; [lia|]. cbn [equal_dname].
    pose proof (qname_bounds _ _ _ H2). rewrite (proj2 (Z.leb_gt (len b1) p)), (proj2 (Z.leb_gt (len b2) p)) by lia.
    rewrite Hp. destruct (rd_in b2 p) as [c2 Hc2]; [lia|]. rewrite Hc2. cbn [orb]. obind.
    pose proof (qname_bounds _ _ _ Hq).
    setoid_rewrite (agree_split b1 b2 p (p + 1) q1 ltac:(lia)). setoid_rewrite agree_one. rewrite Hp, Hc2.
    case_test; zbool; [eexists; split; [done|]; right; split; [done|]; intros [? _]; congruence|]. subst c2.
    rewrite (proj2 (Z.eqb_neq c 0)), (proj2 (Z.leb_gt 64 c)) by lia.
    inversion H2 as [|? c' ? ? Hc' Hq2]; simplify_eq; [lia|].
    pose proof (qname_bounds _ _ _ Hq2).
    rewrite (proj2 (Z.ltb_ge (len b1) _)), (proj2 (Z.ltb_ge (len b2) _)) by lia. simpl.
    destruct (cmp_bytes_spec b1 b2 (p + 1) (Z.to_nat c)) as (b & -> & Hb); [lia..|]. simpl.
    rewrite Z2Nat.id in Hb by lia. setoid_rewrite (agree_split b1 b2 (p + 1) (p + 1 + c) q1 ltac:(lia)). destruct b; simpl.
    + destruct (IH q2 fuel) as (r & -> & Hr); [done|lia|]. exists r. split; [done|]. naive_solver.
    + eexists. split; [done|]. right. split; [done|]. intros (_ & Ha & _). by apply Hb in Ha.
Qed.

Definition pkt_at (buf : bytes) (p : Z) : DnsPacket := Pkt buf (len buf) p.

Lemma isEqualQR_spec b1 b2 p q1 q2 :
  question b1 p q1 -> question b2 p q2 ->
  exists (b : bool) pk1 pk2, _dnsPacket_isEqualQR (pkt_at b1 p) (pkt_at b2 p) = Some (b, pk1, pk2) /\
    (b = true <-> agree b1 b2 p q1) /\
    (b = true -> q1 = q2 /\ pk1 = pkt_at b1 q1 /\ pk2 = pkt_at b2 q1).
Proof.
  intros (e1 & t1 & N1 & _ & _ & _ & _ & L1%rd_lt & ->) (e2 & t2 & N2 & _ & _ & _ & _ & L2%rd_lt & ->).
  pose proof (qname_bounds _ _ _ N1).
  unfold _dnsPacket_isEqualQR, _dnsPacket_isEqualDomainName. cbn [base end_ cursor pkt_at].
  destruct (equal_dname_spec b1 b2 p e1 e2 (loop_fuel (pkt_at b1 p)) N1 N2) as (r & -> & Hr);
    [unfold loop_fuel, len; simpl; lia|]. obind.
  setoid_rewrite (agree_split b1 b2 p e1 (e1 + 4) ltac:(lia)).
  destruct Hr as [(-> & <- & Ha)|(-> & Hna)]; obind.
  - unfold _dnsPacket_isEqualBytes. cbn [base end_ cursor seek pkt_at]. change (Z.of_nat 4) with 4.
    rewrite (proj2 (Z.ltb_ge (len b1) _)), (proj2 (Z.ltb_ge (len b2) _)) by lia. cbn [orb].
    destruct (cmp_bytes_spec b1 b2 e1 4) as (b & -> & Hb); [lia..|]. obind.
    change (Z.of_nat 4) with 4 in Hb. destruct b; eexists _, _, _; (split; [done|]); split; naive_solver.
  - eexists _, _, _. split; [done|]. split; [|done]. split; [done|]. intros [? _]. done.
Qed.

Lemma equal_qrs_spec b1 b2 n p q1 q2 :
  questions b1 n p q1 -> questions b2 n p q2 ->
  exists b, equal_qrs n (pkt_at b1 p) (pkt_at b2 p) = Some b /\
    (b = true <-> agree b1 b2 p q1) /\ (b = true -> q1 = q2).
Proof.
  revert p. induction n as [|n IH]; intros p H1 H2;
    inversion H1 as [|? ? e1 ? Q1 R1]; inversion H2 as [|? ? e2 ? Q2 R2]; subst.
  - exists true. split; [done|]. split; [|done]. split; [|done]. intros _ k Hk. lia.
  - destruct (isEqualQR_spec b1 b2 p e1 e2 Q1 Q2) as (b & pk1 & pk2 & Heq & Hb & Hpk). simpl. rewrite Heq. obind.
    assert (Hle : e1 <= q1).
    { clear -R1. induction R1 as [|? ? ? ? Hq%question_bounds]; lia. }
    pose proof (question_bounds _ _ _ Q1).
    setoid_rewrite (agree_split b1 b2 p e1 q1 ltac:(lia)). destruct b; cbn [negb].
    + destruct Hpk as (<- & -> & ->); [done|]. destruct (IH e1 R1 R2) as (b & -> & Hb' & Hq).
      exists b. split; [done|]. naive_solver.
    + exists false. split; [done|]. split; [|done]. split; [done|]. intros [? _]. naive_solver.
Qed.

Definition rd_bit (buf : bytes) : option Z := (fun f => Z.land f 1) <$> rd buf 2.

(** Reading the header of a packet of at least 12 bytes. *)
Lemma header_read buf n :
  12 <= len buf -> be16 buf 4 = Some n ->
  _dnsPacket_readInt16 (_dnsPacket_skip (_dnsPacket_rewind (_dnsPacket_init buf)) 4) = Some (n, pkt_at buf 6) /\
  _dnsPacket_skip (pkt_at buf 6) 6 = pkt_at buf 12.
Proof.
  intros Hl Hn. unfold _dnsPacket_skip, _dnsPacket_rewind, _dnsPacket_init, _dnsPacket_readInt16, seek, pkt_at.
  cbn [base end_ cursor]. change (Z.of_nat (length buf)) with (len buf).
  rewrite (proj2 (Z.ltb_ge (len buf) (0 + 4))) by lia. cbn [base end_ cursor].
  rewrite (proj2 (Z.ltb_ge (len buf) (0 + 4 + 2))) by lia.
  rewrite (proj2 (Z.ltb_ge (len buf) (6 + 6))) by lia. split; [|done].
  unfold be16 in Hn. change (0 + 4) with 4.
  destruct (rd buf 4); [|done]. destruct (rd buf (4 + 1)); [|done]. simpl in *. by injection Hn as <-.
Qed.

(** Equality of checked queries. *)
Lemma query_equality b1 b2 q1 q2 :
  byte_list b1 -> byte_list b2 -> valid_query b1 q1 -> valid_query b2 q2 ->
  exists b, _dnsPacket_isEqualQuery (_dnsPacket_init b1) (_dnsPacket_init b2) = Some b /\
    (b = true <-> rd_bit b1 = rd_bit b2 /\ be16 b1 4 = be16 b2 4 /\ agree b1 b2 DNS_HEADER_SIZE q1) /\
    (b = true -> q1 = q2).
Proof.
  intros B1 B2 (f1 & n1 & L1 & F1 & _ & _ & N1 & _ & _ & _ & _ & Q1) (f2 & n2 & L2 & F2 & _ & _ & N2 & _ & _ & _ & _ & Q2).
  unfold _dnsPacket_isEqualQuery, rd_bit. change (base (_dnsPacket_rewind (_dnsPacket_init b1))) with b1.
  change (base (_dnsPacket_rewind (_dnsPacket_init b2))) with b2. rewrite F1, F2, N1, N2. obind. cbn [fmap option_fmap option_map].
  pose proof (be16_nonneg _ _ _ B1 N1).
  case_test; zbool; [exists false; split; [done|]; split; [|done]; split; [done|]; intros [? _]; congruence|].
  destruct (header_read b1 n1 L1 N1) as [R1 S1]. destruct (header_read b2 n2 L2 N2) as [R2 S2].
  rewrite R1, R2. obind. rewrite S1, S2.
  case_test.
  - exists false. split; [done|]. split; [|done]. split; [done|]. intros (_ & Hn & _).
    injection Hn as ->. rewrite Z.eqb_refl in E0. simpl in E0. zbool. lia.
  - zbool. subst n2. destruct (equal_qrs_spec b1 b2 (Z.to_nat n1) 12 q1 q2 Q1 Q2) as (b & Hb & Hs & Hq).
    exists b. split; [exact Hb|]. split; [|done]. rewrite Hs, E. split; [done|]. by intros (_ & _ & ?).
Qed.

(** On checked queries _dnsPacket_isEqualQuery reads no byte outside the
    packets and decides equality of what identifies a query: the RD bit, the
    number of questions, and the bytes of the question section (the ID and the
    TC bit are ignored). *)
Theorem isEqualQuery_correct b1 b2 q1 q2 :
  byte_list b1 -> byte_list b2 -> valid_query b1 q1 -> valid_query b2 q2 ->
  exists b, _dnsPacket_isEqualQuery (_dnsPacket_init b1) (_dnsPacket_init b2) = Some b /\
    (b = true <-> rd_bit b1 = rd_bit b2 /\ be16 b1 4 = be16 b2 4 /\ agree b1 b2 DNS_HEADER_SIZE q1) /\
    (b = true -> q1 = q2).
Proof. apply query_equality. Qed.

(** ** Hashes of checked queries *)
Definition agree_from (b1 b2 : bytes) (p : Z) : Prop := forall k, p <= k -> rd b1 k = rd b2 k.

Lemma hash_label_agree b1 b2 c p h :
  agree_from b1 b2 p -> hash_label c b1 p h = hash_label c b2 p h.
Proof.
  revert p h. induction c as [|c IH]; intros p h Ha; simpl; [done|].
  rewrite Ha by lia. destruct (rd b2 p); simpl; [|done]. apply IH. intros k Hk. apply Ha. lia.
Qed.

Lemma hash_label_total buf c p h :
  0 <= p -> p + Z.of_nat c <= len buf -> exists h', hash_label c buf p h = Some h'.
Proof.
  revert p h. induction c as [|c IH]; intros p h Hp Hl; simpl; [eauto|].
  destruct (rd_in buf p) as [b ->]; [lia|]. simpl. apply IH; lia.
Qed.

Lemma hash_qname_agree b1 b2 fuel p h :
  byte_list b2 -> agree_from b1 b2 p -> len b1 = len b2 ->
  hash_qname fuel b1 (len b1) p h = hash_qname fuel b2 (len b2) p h.
Proof.
  intros Hb Ha Hl. rewrite Hl. revert p h Ha. induction fuel as [|fuel IH]; intros p h Ha; cbn [hash_qname]; [done|].
  case_test; [done|]. rewrite Ha by lia. destruct (rd b2 p) as [c|] eqn:Ec; obind; [|done].
  repeat (case_test; [done|]). zbool. pose proof (rd_byte _ _ _ Hb Ec).
  rewrite (hash_label_agree b1 b2) by (intros k Hk; apply Ha; lia).
  destruct (hash_label (Z.to_nat c) b2 (p + 1) h); obind; [|done]. apply IH. intros k Hk. apply Ha. lia.
Qed.

Lemma hash_qname_total buf fuel p h :
  byte_list buf -> 0 <= p -> len buf - p < Z.of_nat fuel -> (0 < fuel)%nat ->
  exists h' q, hash_qname fuel buf (len buf) p h = Some (h', q) /\ p <= q.
Proof.
  intros Hb. revert p h. induction fuel as [|fuel IH]; intros p h Hp Hf H0; [lia|]. cbn [hash_qname].
  case_test; zbool; [eexists _, _; split; [done|lia]|].
  destruct (rd_in buf p) as [c Hc]; [lia|]. rewrite Hc. obind. pose proof (rd_byte _ _ _ Hb Hc).
  repeat (case_test; [eexists _, _; split; [done|lia]|]). zbool.
  destruct (hash_label_total buf (Z.to_nat c) (p + 1) h) as [h' ->]; [lia..|]. obind.
  destruct (IH (p + 1 + c) h') as (h2 & q & Heq & Hq); [lia..|]. exists h2, q. split; [done|lia].
Qed.

Lemma hash_bytes_agree b1 b2 fuel p n h :
  agree_from b1 b2 p -> hash_bytes fuel b1 (len b2) p n h = hash_bytes fuel b2 (len b2) p n h.
Proof.
  revert p h. induction fuel as [|fuel IH]; intros p h Ha; cbn [hash_bytes]; [done|].
  case_test; [|done]. rewrite Ha by lia. destruct (rd b2 p); obind; [|done]. apply IH. intros k Hk. apply Ha. lia.
Qed.

Lemma hash_bytes_total buf fuel p n h :
  0 <= p -> len buf - p < Z.of_nat fuel -> (0 < fuel)%nat ->
  exists h' q, hash_bytes fuel buf (len buf) p n h = Some (h', q) /\ p <= q.
Proof.
  revert p h. induction fuel as [|fuel IH]; intros p h Hp Hf H0; [lia|]. cbn [hash_bytes].
  case_test; [|eexists _, _; split; [done|lia]]. zbool.
  destruct (rd_in buf p) as [c ->]; [lia|]. obind. destruct (IH (p + 1) (fnv h c)) as (h2 & q & Heq & Hq); [lia..|].
  exists h2, q. split; [done|lia].
Qed.

Lemma hashQR_spec b1 b2 p h :
  byte_list b2 -> 0 <= p -> agree_from b1 b2 p -> len b1 = len b2 ->
  exists h' q, p <= q /\ _dnsPacket_hashQR (pkt_at b1 p) h = Some (h', pkt_at b1 q) /\
    _dnsPacket_hashQR (pkt_at b2 p) h = Some (h', pkt_at b2 q).
Proof.
  intros Hb Hp Ha Hl. unfold _dnsPacket_hashQR, _dnsPacket_hashQName, _dnsPacket_hashBytes.
  assert (Hlf : forall p, loop_fuel (pkt_at b1 p) = loop_fuel (pkt_at b2 p)) by (intros; unfold loop_fuel, len in *; simpl; lia).
  cbn [base end_ cursor pkt_at]. rewrite Hlf, (hash_qname_agree b1 b2) by done.
  destruct (hash_qname_total b2 (loop_fuel (pkt_at b2 p)) p h) as (h1 & q1 & -> & Hq1);
    [done..|unfold loop_fuel, len; simpl; lia|unfold loop_fuel; lia|]. obind.
  change (seek (pkt_at b1 p) q1) with (pkt_at b1 q1). change (seek (pkt_at b2 p) q1) with (pkt_at b2 q1).
  cbn [base end_ cursor pkt_at]. rewrite Hlf, Hl, (hash_bytes_agree b1 b2) by (intros k Hk; apply Ha; lia).
  destruct (hash_bytes_total b2 (loop_fuel (pkt_at b2 q1)) q1 4 h1) as (h2 & q2 & -> & Hq2);
    [lia|unfold loop_fuel, len; simpl; lia|unfold loop_fuel; lia|]. obind.
  exists h2, q2. split_and!; [lia|done..].
Qed.

Lemma hash_qrs_spec b1 b2 n p h :
  byte_list b2 -> 0 <= p -> agree_from b1 b2 p -> len b1 = len b2 ->
  exists h', hash_qrs n (pkt_at b1 p) h = Some h' /\ hash_qrs n (pkt_at b2 p) h = Some h'.
Proof.
  intros Hb Hp Ha Hl. revert p h Hp Ha. induction n as [|n IH]; intros p h Hp Ha; simpl; [eauto|].
  destruct (hashQR_spec b1 b2 p h) as (h1 & q & Hq & -> & ->); [done..|]. obind.
  apply IH; [lia|]. intros k Hk. apply Ha. lia.
Qed.

(** Queries that agree on what is compared have the same hash. *)
Lemma hash_of_same b1 b2 q1 q2 :
  byte_list b1 -> byte_list b2 -> valid_query b1 q1 -> valid_query b2 q2 ->
  length b1 = length b2 -> q1 = Z.of_nat (length b1) ->
  rd_bit b1 = rd_bit b2 -> be16 b1 4 = be16 b2 4 -> agree b1 b2 12 q1 ->
  exists h, _dnsPacket_hashQuery (_dnsPacket_init b1) = Some h /\
            _dnsPacket_hashQuery (_dnsPacket_init b2) = Some h.
Proof.
  intros B1 B2 V1 V2 Hl Hq Hr Hn Ha.
  destruct V1 as (f1 & n & L1 & F1 & _ & _ & N1 & _). destruct V2 as (f2 & n2 & L2 & F2 & _ & _ & N2 & _).
  rewrite N1, N2 in Hn. injection Hn as <-. unfold rd_bit in Hr. rewrite F1, F2 in Hr. injection Hr as Hr.
  assert (Hl' : len b1 = len b2) by (unfold len; lia).
  assert (Haf : agree_from b1 b2 12).
  { intros k Hk. destruct (Z_lt_dec k q1); [apply Ha; lia|].
    destruct (rd b1 k) eqn:R1; [apply rd_lt in R1; unfold len in R1; lia|].
    destruct (rd b2 k) eqn:R2; [apply rd_lt in R2; unfold len in R2; lia|done]. }
  destruct (hash_qrs_spec b1 b2 (Z.to_nat n) 12 (fnv FNV_BASIS (Z.land f1 1)) B2) as (h & H1 & H2); [lia|done..|].
  exists h. unfold _dnsPacket_hashQuery.
  change (base (_dnsPacket_rewind (_dnsPacket_init b1))) with b1.
  change (base (_dnsPacket_rewind (_dnsPacket_init b2))) with b2. rewrite F1, F2. obind. rewrite <- Hr.
  destruct (header_read b1 n L1 N1) as [R1 S1]. destruct (header_read b2 n L2 N2) as [R2 S2].
  rewrite R1, R2. obind. rewrite S1, S2. done.
Qed.

(** Hashing a checked query reads no byte outside the packet; and two
    checked queries of the same length that compare equal have the same hash
    when the packet ends with its question section. *)
Theorem equal_queries_hash_equal b1 b2 q1 q2 :
  byte_list b1 -> byte_list b2 -> valid_query b1 q1 -> valid_query b2 q2 ->
  length b1 = length b2 -> q1 = Z.of_nat (length b1) ->
  _dnsPacket_isEqualQuery (_dnsPacket_init b1) (_dnsPacket_init b2) = Some true ->
  exists h, _dnsPacket_hashQuery (_dnsPacket_init b1) = Some h /\
            _dnsPacket_hashQuery (_dnsPacket_init b2) = Some h.
Proof.
  intros B1 B2 V1 V2 Hl Hq Heq.
  destruct (query_equality b1 b2 q1 q2 B1 B2 V1 V2) as (b & Hb & Hs & _).
  rewrite Heq in Hb. injection Hb as <-. destruct (proj1 Hs eq_refl) as (Hr & Hn & Ha). by apply (hash_of_same b1 b2 q1 q2).
Qed.

(** Where hashing departs from its comments: two checked queries of the
    same length that compare equal can hash differently, because
    _dnsPacket_hashBytes never counts numBytes down and so hashes the bytes after
    the question section; and a packet of two bytes is hashed, reading outside
    it, although _dnsPacket_checkQuery rejects it. *)
Theorem hash_divergences :
  (exists b1 b2, length b1 = length b2 /\
     fst <$> _dnsPacket_checkQuery (_dnsPacket_init b1) = Some true /\
     fst <$> _dnsPacket_checkQuery (_dnsPacket_init b2) = Some true /\
     _dnsPacket_isEqualQuery (_dnsPacket_init b1) (_dnsPacket_init b2) = Some true /\
     _dnsPacket_hashQuery (_dnsPacket_init b1) <> _dnsPacket_hashQuery (_dnsPacket_init b2)) /\
  (fst <$> _dnsPacket_checkQuery (_dnsPacket_init [7; 7]) = Some false /\
   _dnsPacket_hashQuery (_dnsPacket_init [7; 7]) = None).
Proof.
  split; [|split; vm_compute; reflexivity].
  exists (root_query 1 ++ [1]), (root_query 1 ++ [2]).
  do 4 (split; [vm_compute; reflexivity|]). vm_compute. discriminate.
Qed.

Lemma root_query_bytes ty : 0 <= ty < 256 -> byte_list (root_query ty).
Proof. intros. repeat constructor; lia. Qed.

Lemma root_query_valid ty : ty ∈ supported_types -> valid_query (root_query ty) 17.
Proof.
  intros Hty. exists 1, 1. split_and!; try (vm_compute; congruence).
  eapply questions_cons; [|constructor]. exists 13, ty. split_and!; try done; [|vm_compute; reflexivity..].
  by constructor.
Qed.

Lemma isEqualQuery_correct_witness :
  exists b, _dnsPacket_isEqualQuery (_dnsPacket_init (root_query 1)) (_dnsPacket_init (root_query 28)) = Some b /\
    (b = true <-> rd_bit (root_query 1) = rd_bit (root_query 28) /\ be16 (root_query 1) 4 = be16 (root_query 28) 4 /\
       agree (root_query 1) (root_query 28) DNS_HEADER_SIZE 17) /\ (b = true -> 17 = 17).
Proof.
  apply (isEqualQuery_correct (root_query 1) (root_query 28) 17 17);
    [apply root_query_bytes; lia|apply root_query_bytes; lia|apply root_query_valid; set_solver|apply root_query_valid; set_solver].
Defined.

Lemma equal_queries_hash_equal_witness :
  exists h, _dnsPacket_hashQuery (_dnsPacket_init (root_query 15)) = Some h /\
            _dnsPacket_hashQuery (_dnsPacket_init (root_query 15)) = Some h.
Proof.
  apply (equal_queries_hash_equal (root_query 15) (root_query 15) 17 17);
    [apply root_query_bytes; lia|apply root_query_bytes; lia|apply root_query_valid; set_solver|apply root_query_valid; set_solver
    |reflexivity|reflexivity|vm_compute; reflexivity].
Defined.
