(* ===== verification/NsName.v ===== *)
(** * Domain names (libc/netbsd/nameser/ns_name.c)

    Names in wire format are sequences of labels (a length byte and the bytes of
    the label), ended by a zero byte or a compression pointer.  A pointer that
    moves through a buffer is the rest of the buffer; ns_name_unpack, which jumps
    inside a message, uses offsets.  The destination is the list of the bytes
    written so far.  Characters are unsigned, as on ARM. *)
From S2P Require Import Prelude Buffer.

Definition NS_TYPE_ELT : Z := 0x40.
Definition DNS_LABELTYPE_BITSTRING : Z := 0x41.
Definition NS_CMPRSFLGS : Z := 0xc0.
Definition NS_MAXCDNAME : Z := 255.
Definition NS_MAXDNAME : Z := 1025.

(** Characters of the presentation format. *)
Definition ch_dot : Z := 0x2E.
Definition ch_backslash : Z := 0x5C.
Definition ch_lbracket : Z := 0x5B.
Definition ch_rbracket : Z := 0x5D.
Definition ch_slash : Z := 0x2F.
Definition ch_x : Z := 0x78.

Definition labellen (lp : bytes) : io Z :=
  let! (l, rest) := next lp in
  if Z.land l NS_CMPRSFLGS =? NS_CMPRSFLGS then good (-1)
  else if Z.land l NS_CMPRSFLGS =? NS_TYPE_ELT then
    if l =? DNS_LABELTYPE_BITSTRING then
      let! b := peek rest in
      let bitlen := if b =? 0 then 256 else b in
      good ((bitlen + 7) / 8 + 1)
    else good (-1)
  else good l.

Definition special (ch : Z) : bool :=
  match ch with
  | 0x22 | 0x2E | 0x3B | 0x5C | 0x28 | 0x29 | 0x40 | 0x24 => true
  | _ => false
  end.

Definition printable (ch : Z) : bool := (0x20 <? ch) && (ch <? 0x7f).

Definition mklower (ch : Z) : Z := if (0x41 <=? ch) && (ch <=? 0x5A) then ch + 0x20 else ch.

(** digits[n], and the hexadecimal digits that "%x" prints. *)
Definition digit (n : Z) : Z := 0x30 + n.
Definition hexdigit (n : Z) : Z := if n <? 10 then 0x30 + n else 0x61 + (n - 10).
Definition hex2 (n : Z) : list Z := [hexdigit (n / 16); hexdigit (n mod 16)].
(** "%d" of a number between 0 and 999. *)
Definition dec3 (n : Z) : list Z :=
  if 99 <? n then [digit (n / 100); digit (n mod 100 / 10); digit (n mod 10)]
  else if 9 <? n then [digit (n / 10); digit (n mod 10)]
  else [digit n].

(** ** ns_name_ntop *)

(** The full bytes of a bit string: for (b = blen; b > 7; b -= 8, cp++). *)
Fixpoint bit_bytes (n : nat) (cp : bytes) (out : list Z) : io (bytes * list Z) :=
  match n with
  | O => good (cp, out)
  | S n => let! (c, cp) := next cp in bit_bytes n cp (out ++ hex2 c)
  end.

Definition decode_bitstring (cp : bytes) (out : list Z) (dstsiz : Z) : io (bytes * list Z) :=
  let! (b0, cp') := next cp in
  let blen := if b0 =? 0 then 256 else b0 in
  let plen := (blen + 3) / 4 + 6 + (if 99 <? blen then 3 else if 9 <? blen then 2 else 1) in
  if dstsiz <=? len out + plen then fail EMSGSIZE
  else
    let! (cp, out) := bit_bytes (Z.to_nat (blen / 8)) cp' (out ++ [ch_backslash; ch_lbracket; ch_x]) in
    let b := blen mod 8 in
    let! (cp, out) := (if 4 <? b then
         let! (tc, cp) := next cp in good (cp, out ++ hex2 (Z.land tc (Z.shiftl 0xff (8 - b))))
       else if 0 <? b then
         let! (tc, cp) := next cp in
         good (cp, out ++ [hexdigit (Z.land (Z.land (Z.shiftr tc 4) 0x0f) (Z.shiftl 0x0f (4 - b)))])
       else good (cp, out)) in
    good (cp, out ++ [ch_slash] ++ dec3 blen ++ [ch_rbracket]).

(** for (; l > 0; l--): the characters of a label. *)
Fixpoint ntop_chars (l : nat) (cp : bytes) (out : list Z) (dstsiz : Z) : io (bytes * list Z) :=
  match l with
  | O => good (cp, out)
  | S l =>
      let! (c, cp) := next cp in
      if special c then
        if dstsiz <=? len out + 1 then fail EMSGSIZE
        else ntop_chars l cp (out ++ [ch_backslash; c]) dstsiz
      else if negb (printable c) then
        if dstsiz <=? len out + 3 then fail EMSGSIZE
        else ntop_chars l cp
               (out ++ [ch_backslash; digit (c / 100); digit (c mod 100 / 10); digit (c mod 10)]) dstsiz
      else
        if dstsiz <=? len out then fail EMSGSIZE
        else ntop_chars l cp (out ++ [c]) dstsiz
  end.

(** while ((n = *cp++) != 0) *)
Fixpoint ntop_labels (fuel : nat) (cp : bytes) (out : list Z) (dstsiz : Z) : io (list Z) :=
  match fuel with
  | O => None
  | S fuel =>
      let! (n, cp') := next cp in
      if n =? 0 then good out
      else if Z.land n NS_CMPRSFLGS =? NS_CMPRSFLGS then fail EMSGSIZE
      else
        let! out := (if negb (len out =? 0)
                 then if dstsiz <=? len out then fail EMSGSIZE else good (out ++ [ch_dot])
                 else good out) in
        let! l := labellen cp in
        if l <? 0 then fail EMSGSIZE
        else if dstsiz <=? len out + l then fail EMSGSIZE
        else if Z.land n NS_CMPRSFLGS =? NS_TYPE_ELT then
          if negb (n =? DNS_LABELTYPE_BITSTRING) then fail EINVAL
          else let! (cp, out) := decode_bitstring cp' out dstsiz in ntop_labels fuel cp out dstsiz
        else let! (cp, out) := ntop_chars (Z.to_nat l) cp' out dstsiz in ntop_labels fuel cp out dstsiz
  end.

(** Answers the number of bytes written and the bytes. *)
Definition ns_name_ntop (src : bytes) (dstsiz : Z) : io (Z * list Z) :=
  let! out := ntop_labels (S (length src)) src [] dstsiz in
  let! out := (if len out =? 0
           then if dstsiz <=? len out then fail EMSGSIZE else good (out ++ [ch_dot])
           else good out) in
  if dstsiz <=? len out then fail EMSGSIZE
  else good (len out + 1, out ++ [0]).

(** ** ns_name_pton *)
Definition isdigit (c : Z) : bool := (0x30 <=? c) && (c <=? 0x39).
Definition isxdigit (c : Z) : bool :=
  isdigit c || ((0x41 <=? c) && (c <=? 0x46)) || ((0x61 <=? c) && (c <=? 0x66)).
(** strchr(digits, c) - digits *)
Definition digit_of (c : Z) : option Z := if isdigit c then Some (c - 0x30) else None.
Definition digitvalue (c : Z) : Z :=
  if isdigit c then c - 0x30
  else if (0x41 <=? c) && (c <=? 0x46) then c - 0x41 + 10
  else if (0x61 <=? c) && (c <=? 0x66) then c - 0x61 + 10
  else -1.

(** strchr(s, c) of a NUL-terminated string: the offset of [c]. *)
Fixpoint strchr (s : bytes) (c : Z) : io (option Z) :=
  match s with
  | [] => None
  | x :: s =>
      if x =? c then good (Some 0)
      else if x =? 0 then good None
      else let! r := strchr s c in good (Z.succ <$> r)
  end.

(** strtol(s, &end, 10) on a string that starts with a digit: the value, which
    saturates at LONG_MAX, and the rest. *)
Fixpoint strtol10 (s : bytes) (acc : Z) : io (Z * bytes) :=
  match s with
  | [] => None
  | c :: s' => if isdigit c then strtol10 s' (Z.min 0x7fffffff (acc * 10 + (c - 0x30))) else good (acc, s)
  end.

(** The state of the loop of encode_bitsring; [beg] is beg_blen. *)
Record bits : Type := Bits {
  afterslash : bool; beg : option bytes; value : Z; count : Z; tbcount : Z; tp : list Z }.

(** The loop over the characters up to the closing bracket: [left] is
    [end - cp] and [room] is [eom] minus the address of the first data byte.
    Answers the state, the cursor, what is left of it, and blen. *)
Fixpoint bit_loop (fuel : nat) (cp : bytes) (left room : Z) (s : bits) :
    io (bits * bytes * Z * Z) :=
  match fuel with
  | O => None
  | S fuel =>
      if negb ((0 <? left) && (len (tp s) <? room)) then good (s, cp, left, 0)
      else
        let! (c, cp') := next cp in
        if c =? ch_rbracket then
          let! blen := (if afterslash s then
                      match beg s with
                      | None => fail EINVAL
                      | Some b =>
                          let! (blen, rest) := strtol10 b 0 in
                          let! e := peek rest in
                          if negb (e =? ch_rbracket) then fail EINVAL else good blen
                      end
                    else good 0) in
          let tp' := if negb (count s =? 0) then tp s ++ [Z.land (Z.shiftl (value s) 4) 0xff] else tp s in
          good (Bits (afterslash s) (beg s) (value s) (count s) (tbcount s) tp', cp', left - 1, blen)
        else if c =? ch_slash then
          bit_loop fuel cp' (left - 1) room (Bits true (beg s) (value s) (count s) (tbcount s) (tp s))
        else if afterslash s then
          if negb (isdigit c) then fail EINVAL
          else
            match beg s with
            | None => if c =? 0x30 then fail EINVAL
                      else bit_loop fuel cp' (left - 1) room
                             (Bits true (Some cp) (value s) (count s) (tbcount s) (tp s))
            | Some _ => bit_loop fuel cp' (left - 1) room s
            end
        else
          if negb (isxdigit c) then fail EINVAL
          else
            let v := s32 (Z.shiftl (value s) 4 + digitvalue c) in
            let n := count s + 4 in
            let tb := tbcount s + 4 in
            if 256 <? tb then fail EINVAL
            else if n =? 8
            then bit_loop fuel cp' (left - 1) room (Bits false (beg s) v 0 tb (tp s ++ [u8 v]))
            else bit_loop fuel cp' (left - 1) room (Bits false (beg s) v n tb (tp s))
  end.

(** Answers the rest of the source, blen and the data bytes; [left] is
    [end - cp] at the start and [room] is the space after the first data byte. *)
Definition encode_bitsring (cp : bytes) (left room : Z) : io (bytes * Z * list Z) :=
  if left <? 2 then fail EINVAL
  else
    let! (x, cp) := next cp in
    if negb (x =? ch_x) then fail EINVAL
    else
      let! c := peek cp in
      if negb (isxdigit c) then fail EINVAL
      else
        let! (s, cp, left, blen) := bit_loop (S (length cp)) cp (left - 1) room (Bits false None 0 0 0 []) in
        if (left <=? 0) || (room <=? len (tp s)) then fail EMSGSIZE
        else if (0 <? blen) &&
                (negb (Z.land (s32 (blen + 3)) (Z.lnot 3) =? tbcount s) ||
                 negb (Z.land (Z.shiftl (value s) (8 - (tbcount s - blen))) 0xff =? 0))
        then fail EINVAL
        else
          let blen := if 0 <? blen then blen else tbcount s in
          good (cp, (if blen =? 256 then 0 else u8 blen), tp s).

(** The destination of ns_name_pton: the finished labels, and the bytes of the
    label being written.  [label] is [len fin] and [bp] is
    [len fin + 1 + len cur]. *)
Record pstate : Type := PState { fin : list Z; cur : list Z }.
Definition bp (s : pstate) : Z := len (fin s) + 1 + len (cur s).
Definition put (s : pstate) (c : Z) : pstate := PState (fin s) (cur s ++ [c]).
(** *label = c; label = bp++ *)
Definition close (s : pstate) (c : Z) : pstate := PState (fin s ++ [c] ++ cur s) [].

(** From the label "done": [c] is the length of the last label. *)
Definition pton_done (s : pstate) (c dstsiz : Z) : io (Z * list Z) :=
  if dstsiz <=? len (fin s) then fail EMSGSIZE
  else
    let dst := fin s ++ [u8 c] ++ cur s in
    let! dst := (if negb (c =? 0)
             then if dstsiz <=? bp s then fail EMSGSIZE else good (dst ++ [0])
             else good dst) in
    if NS_MAXCDNAME <? len dst then fail EMSGSIZE else good (0, dst).

(** while ((c = *src++) != 0) *)
Fixpoint pton_loop (fuel : nat) (src : bytes) (s : pstate) (escaped : bool) (dstsiz : Z) :
    io (Z * list Z) :=
  match fuel with
  | O => None
  | S fuel =>
      let! (c, src) := next src in
      let write (c : Z) (src : bytes) :=
        if dstsiz <=? bp s then fail EMSGSIZE else pton_loop fuel src (put s c) false dstsiz in
      if c =? 0 then
        let n := len (cur s) in
        if negb (Z.land n NS_CMPRSFLGS =? 0) then fail EMSGSIZE else pton_done s n dstsiz
      else if escaped then
        if c =? ch_lbracket then
          let! off := strchr src ch_rbracket in
          match off with
          | None => fail EINVAL
          | Some off =>
              let! (src, blen, data) := encode_bitsring src (off + 2) (dstsiz - bp s - 1) in
              let s := PState (fin s ++ [DNS_LABELTYPE_BITSTRING] ++ cur s ++ [blen] ++ data) [] in
              let! (c, src) := next src in
              if c =? 0 then pton_done s 0 dstsiz
              else if negb (c =? ch_dot) then fail EINVAL
              else pton_loop fuel src s false dstsiz
          end
        else
          match digit_of c with
          | Some d1 =>
              let! (c, src) := next src in
              match digit_of c with
              | None => fail EMSGSIZE
              | Some d2 =>
                  let! (c, src) := next src in
                  match digit_of c with
                  | None => fail EMSGSIZE
                  | Some d3 =>
                      let n := d1 * 100 + d2 * 10 + d3 in
                      if 255 <? n then fail EMSGSIZE else write n src
                  end
              end
          | None => write c src
          end
      else if c =? ch_backslash then pton_loop fuel src s true dstsiz
      else if c =? ch_dot then
        let n := len (cur s) in
        if negb (Z.land n NS_CMPRSFLGS =? 0) then fail EMSGSIZE
        else if dstsiz <=? len (fin s) then fail EMSGSIZE
        else
          let! nextc := peek src in
          if nextc =? 0 then
            let dst := fin s ++ [n] ++ cur s in
            let! dst := (if negb (n =? 0)
                     then if dstsiz <=? bp s then fail EMSGSIZE else good (dst ++ [0])
                     else good dst) in
            if NS_MAXCDNAME <? len dst then fail EMSGSIZE else good (1, dst)
          else if (n =? 0) || (nextc =? ch_dot) then fail EMSGSIZE
          else pton_loop fuel src (close s n) false dstsiz
      else write c src
  end.

(** Answers the result (1: fully qualified, 0: not) and the encoded name. *)
Definition ns_name_pton (src : bytes) (dstsiz : Z) : io (Z * list Z) :=
  pton_loop (S (length src)) src (PState [] []) false dstsiz.

(** ** Encoded names and their text *)
Definition label_ok (l : bytes) : Prop := 0 < len l < 64 /\ byte_list l.
Definition encode_label (l : bytes) : bytes := len l :: l.
Definition encode (ls : list bytes) : bytes := concat (map encode_label ls) ++ [0].

Definition esc (c : Z) : list Z :=
  if special c then [ch_backslash; c]
  else if negb (printable c) then [ch_backslash; digit (c / 100); digit (c mod 100 / 10); digit (c mod 10)]
  else [c].
Definition escs (l : bytes) : list Z := concat (map esc l).
Definition dotted (ls : list bytes) : list Z := concat (map (fun l => ch_dot :: escs l) ls).
Definition text (ls : list bytes) : list Z :=
  match ls with [] => [ch_dot] | l :: ls => escs l ++ dotted ls end.

Lemma encode_cons l ls : encode (l :: ls) = encode_label l ++ encode ls.
Proof. unfold encode. simpl. by rewrite <- app_assoc. Qed.

Lemma len_app a b : len (a ++ b) = len a + len b.
Proof. unfold len. rewrite length_app. lia. Qed.
Lemma len_cons x a : len (x :: a) = 1 + len a.
Proof. unfold len. simpl length. lia. Qed.
Lemma len_nil : len [] = 0.
Proof. done. Qed.
Lemma len_nonneg a : 0 <= len a.
Proof. unfold len. lia. Qed.
Create Rewrite HintDb len.
#[export] Hint Rewrite len_app len_cons len_nil : len.

(** The special characters, as a finite set. *)
Lemma special_in c : special c = true -> c ∈ [0x22; 0x2E; 0x3B; 0x5C; 0x28; 0x29; 0x40; 0x24].
Proof.
  unfold special. intros H.
  repeat match type of H with context [match ?x with _ => _ end] => destruct x; try discriminate H end;
    set_solver.
Qed.

Lemma esc_bounds c : 1 <= len (esc c) <= 4.
Proof. unfold esc. repeat case_test; autorewrite with len; lia. Qed.
Lemma escs_bounds l : len l <= len (escs l) <= 4 * len l.
Proof.
  unfold escs. induction l as [|c l IH]; simpl; autorewrite with len; [lia|].
  pose proof (esc_bounds c). lia.
Qed.

Lemma small_label n : 0 <= n < 64 -> Z.land n NS_CMPRSFLGS = 0.
Proof.
  intros Hn. change NS_CMPRSFLGS with (Z.shiftl 3 6). apply Z.bits_inj'. intros i Hi.
  rewrite Z.land_spec, Z.bits_0. destruct (Z_lt_dec i 6).
  - rewrite Z.shiftl_spec_low by lia. apply andb_false_r.
  - rewrite (Z.bits_above_log2 n i); [done|lia|].
    destruct (decide (n = 0)) as [->|]; [simpl; lia|].
    assert (Z.log2 n < 6); [|lia]. apply Z.log2_lt_pow2; lia.
Qed.

Lemma ntop_chars_text l rest out dstsiz :
  len out + len (escs l) <= dstsiz ->
  ntop_chars (length l) (l ++ rest) out dstsiz = good (rest, out ++ escs l).
Proof.
  revert out. induction l as [|c l IH]; intros out H; simpl.
  - by rewrite app_nil_r.
  - unfold escs in H. simpl in H. rewrite len_app in H. pose proof (len_nonneg (concat (map esc l))).
    change (concat (map esc l)) with (escs l) in *.
    change (escs (c :: l)) with (esc c ++ escs l). rewrite app_assoc. unfold esc in *.
    destruct (special c); [|destruct (negb (printable c))]; autorewrite with len in H;
      (rewrite (proj2 (Z.leb_gt _ _)) by lia); apply IH; autorewrite with len; lia.
Qed.

Lemma labellen_small n rest : 0 <= n < 64 -> labellen (n :: rest) = good n.
Proof. intros Hn. unfold labellen. simpl. by rewrite small_label. Qed.

(** One label of ntop, after the separator. *)
Lemma ntop_labels_dotted ls out dstsiz fuel :
  Forall label_ok ls -> (length ls < fuel)%nat -> 0 < len out -> len out + len (dotted ls) < dstsiz ->
  ntop_labels fuel (encode ls) out dstsiz = good (out ++ dotted ls).
Proof.
  intros Hls. revert out fuel. induction Hls as [|l ls [Hl Hb] _ IH]; intros out fuel Hf Ho Hd;
    (destruct fuel as [|fuel]; [simpl in Hf; lia|]).
  - simpl. by rewrite app_nil_r.
  - unfold dotted in Hd. simpl in Hd. change (concat (map _ ls)) with (dotted ls) in Hd. autorewrite with len in Hd.
    pose proof (len_nonneg (dotted ls)). pose proof (escs_bounds l).
    change (encode (l :: ls)) with (len l :: (l ++ concat (map encode_label ls)) ++ [0]).
    rewrite <- app_assoc. change (concat (map encode_label ls) ++ [0]) with (encode ls).
    cbn [ntop_labels next rbind good]. rewrite (proj2 (Z.eqb_neq (len l) 0)), small_label by lia.
    change (0 =? NS_CMPRSFLGS) with false. change (0 =? NS_TYPE_ELT) with false. cbv iota.
    rewrite (proj2 (Z.eqb_neq (len out) 0)) by lia. cbn [negb].
    rewrite (proj2 (Z.leb_gt dstsiz (len out))) by lia. cbn [rbind good].
    rewrite labellen_small by lia. cbn [rbind good].
    rewrite (proj2 (Z.ltb_ge (len l) 0)) by lia.
    rewrite (proj2 (Z.leb_gt dstsiz _)) by (autorewrite with len; lia).
    unfold len at 1. rewrite Nat2Z.id, ntop_chars_text by (autorewrite with len; lia). cbn [rbind good].
    rewrite IH; [|simpl in Hf; lia|autorewrite with len; pose proof (len_nonneg (escs l)); lia|autorewrite with len; lia].
    unfold dotted. simpl. by rewrite <- !app_assoc.
Qed.

Lemma text_bound ls :
  Forall label_ok ls -> len (encode ls) <= NS_MAXCDNAME -> len (text ls) < NS_MAXDNAME.
Proof.
  assert (Hd : forall ls, 4 * Z.of_nat (length ls) + len (dotted ls) <= 4 * (len (encode ls) - 1) + Z.of_nat (length ls)).
  { intros ks. induction ks as [|l ks IH]; [done|]. unfold dotted, encode. simpl length. simpl concat. unfold dotted, encode in IH.
    autorewrite with len in *. pose proof (escs_bounds l). lia. }
  intros Hls He. destruct Hls as [|l ls [Hl _] Hls]; [done|]. specialize (Hd ls). simpl text.
  unfold encode in *. simpl in He. unfold NS_MAXCDNAME, NS_MAXDNAME in *. autorewrite with len in *.
  pose proof (escs_bounds l).
  lia.
Qed.

Lemma ntop_text ls dstsiz :
  Forall label_ok ls -> len (text ls) < dstsiz ->
  ns_name_ntop (encode ls) dstsiz = good (len (text ls) + 1, text ls ++ [0]).
Proof.
  intros Hls Hd. unfold ns_name_ntop. destruct Hls as [|l ls [Hl Hb] Hls].
  - simpl in *. change (len [ch_dot]) with 1 in Hd. change (len []) with 0.
    rewrite (proj2 (Z.leb_gt dstsiz 0)) by lia. simpl. by rewrite (proj2 (Z.leb_gt dstsiz _)) by (unfold len; simpl; lia).
  - simpl text in *. autorewrite with len in Hd. pose proof (len_nonneg (dotted ls)). pose proof (escs_bounds l).
    change (encode (l :: ls)) with (len l :: (l ++ concat (map encode_label ls)) ++ [0]).
    rewrite <- app_assoc. change (concat (map encode_label ls) ++ [0]) with (encode ls).
    cbn [ntop_labels next rbind good]. rewrite (proj2 (Z.eqb_neq (len l) 0)), small_label by lia.
    change (0 =? NS_CMPRSFLGS) with false. change (0 =? NS_TYPE_ELT) with false. cbv iota.
    change (len [] =? 0) with true. cbn [negb rbind good].
    rewrite labellen_small by lia. cbn [rbind good].
    rewrite (proj2 (Z.ltb_ge (len l) 0)) by lia.
    rewrite (proj2 (Z.leb_gt dstsiz _)) by (change (len []) with 0; lia).
    unfold len at 1. rewrite Nat2Z.id, ntop_chars_text by (change (len []) with 0; lia). cbn [rbind good app].
    rewrite ntop_labels_dotted; [|done| |lia|lia].
    + cbn [rbind good]. rewrite (proj2 (Z.eqb_neq _ 0)) by (autorewrite with len; lia). cbn [rbind good].
      by rewrite (proj2 (Z.leb_gt dstsiz _)) by (autorewrite with len; lia).
    + simpl length. rewrite length_app. unfold encode. rewrite length_app. simpl.
      assert (length ls <= length (concat (map encode_label ls)))%nat; [|lia].
      clear. induction ls as [|k ks IH]; simpl; [lia|]. rewrite length_app. lia.
Qed.

Lemma digit_back n : 0 <= n <= 9 -> digit_of (digit n) = Some n.
Proof.
  intros Hn. unfold digit_of, isdigit, digit.
  rewrite (proj2 (Z.leb_le _ _)), (proj2 (Z.leb_le _ _)) by lia. simpl. f_equal. lia.
Qed.

Lemma special_plain c :
  special c = true -> (c =? 0) = false /\ (c =? ch_lbracket) = false /\ digit_of c = None.
Proof. intros H%special_in. repeat (apply elem_of_cons in H as [->|H]; [done|]). by apply elem_of_nil in H. Qed.

Lemma special_chars : special ch_backslash = true /\ special ch_dot = true.
Proof. done. Qed.

(** An escaped character is read back. *)
Lemma pton_esc c src s fuel dstsiz :
  0 <= c < 256 -> bp s < dstsiz -> (length (esc c ++ src) < fuel)%nat ->
  exists fuel', (length src < fuel')%nat /\
    pton_loop fuel (esc c ++ src) s false dstsiz = pton_loop fuel' src (put s c) false dstsiz.
Proof.
  intros Hc Hbp Hf. unfold esc in *. destruct (special c) eqn:Es; [|destruct (negb (printable c)) eqn:Ep];
    simpl in Hf.
  - destruct fuel as [|[|fuel]]; [lia..|]. exists fuel. split; [lia|].
    destruct (special_plain c Es) as (E0 & Eb & Ed).
    cbn [app pton_loop next rbind good]. change (ch_backslash =? 0) with false. cbv iota.
    change (ch_backslash =? ch_backslash) with true. cbv iota. rewrite E0, Eb, Ed.
    by rewrite (proj2 (Z.leb_gt _ _)) by lia.
  - destruct fuel as [|[|fuel]]; [lia..|]. exists fuel. split; [lia|].
    assert (Hd : 0 <= c / 100 <= 9 /\ 0 <= c mod 100 / 10 <= 9 /\ 0 <= c mod 10 <= 9 /\
      c / 100 * 100 + c mod 100 / 10 * 10 + c mod 10 = c) by (Z.to_euclidean_division_equations; lia).
    destruct Hd as (H1 & H2 & H3 & H4).
    cbn [app pton_loop next rbind good]. change (ch_backslash =? 0) with false. cbv iota.
    change (ch_backslash =? ch_backslash) with true. cbv iota.
    rewrite (proj2 (Z.eqb_neq (digit (c / 100)) 0)), (proj2 (Z.eqb_neq (digit (c / 100)) ch_lbracket))
      by (unfold digit, ch_lbracket; lia).
    rewrite !digit_back by done. rewrite H4, (proj2 (Z.ltb_ge 255 c)) by lia.
    by rewrite (proj2 (Z.leb_gt _ _)) by lia.
  - destruct fuel as [|fuel]; [lia|]. exists fuel. split; [lia|].
    zbool. unfold printable in Ep. zbool.
    cbn [app pton_loop next rbind good].
    assert (c <> ch_backslash) by (intros ->; done). assert (c <> ch_dot) by (intros ->; done).
    rewrite (proj2 (Z.eqb_neq c 0)), (proj2 (Z.eqb_neq c ch_backslash)), (proj2 (Z.eqb_neq c ch_dot)) by (done || lia).
    by rewrite (proj2 (Z.leb_gt _ _)) by lia.
Qed.

Lemma pton_escs l src s fuel dstsiz :
  byte_list l -> bp s + len l <= dstsiz -> (length (escs l ++ src) < fuel)%nat ->
  exists fuel', (length src < fuel')%nat /\
    pton_loop fuel (escs l ++ src) s false dstsiz =
    pton_loop fuel' src (PState (fin s) (cur s ++ l)) false dstsiz.
Proof.
  revert s fuel. induction l as [|c l IH]; intros s fuel Hb Hbp Hf.
  - exists fuel. split; [done|]. rewrite app_nil_r. by destruct s.
  - inversion Hb as [|? ? Hc Hb']; subst. change (escs (c :: l)) with (esc c ++ escs l) in *.
    rewrite <- app_assoc in *. rewrite len_cons in Hbp. pose proof (len_nonneg l).
    destruct (pton_esc c (escs l ++ src) s fuel dstsiz) as (f1 & Hf1 & ->); [done|lia|done|].
    destruct (IH (put s c) f1) as (f2 & Hf2 & ->); [done|unfold bp, put in *; simpl; autorewrite with len; lia|done|].
    exists f2. split; [done|]. unfold put. simpl. by rewrite <- app_assoc.
Qed.

(** The first character of the text of a label is neither NUL nor a dot. *)
Lemma escs_head l : label_ok l -> exists c rest, escs l = c :: rest /\ c <> 0 /\ c <> ch_dot.
Proof.
  intros [Hl Hb]. destruct l as [|c l]; [change (len []) with 0 in Hl; lia|].
  change (escs (c :: l)) with (esc c ++ escs l). unfold esc.
  destruct (special c) eqn:Es; [eexists _, _; split; [reflexivity|done]|].
  destruct (negb (printable c)) eqn:Ep; [eexists _, _; split; [reflexivity|done]|].
  eexists _, _. split; [reflexivity|]. zbool. unfold printable in Ep. zbool. split; [lia|]. intros ->. done.
Qed.

(** Text of the labels after a finished one, up to the end. *)
Lemma pton_dotted ls l fin0 fuel dstsiz :
  Forall label_ok ls -> label_ok l ->
  len (fin0 ++ encode_label l ++ encode ls) <= dstsiz -> len (fin0 ++ encode_label l ++ encode ls) <= NS_MAXCDNAME ->
  (length (dotted ls ++ [0%Z]) < fuel)%nat ->
  pton_loop fuel (dotted ls ++ [0]) (PState fin0 l) false dstsiz = good (0, fin0 ++ encode_label l ++ encode ls).
Proof.
  intros Hls. revert l fin0 fuel. induction Hls as [|k ks Hk _ IH]; intros l fin0 fuel [Hl Hb] Hd Hm Hf;
    (destruct fuel as [|fuel]; [lia|]).
  - cbn [dotted map concat app pton_loop next rbind good Z.eqb]. cbn [fin cur].
    unfold encode, encode_label in *. simpl in *. autorewrite with len in *.
    rewrite small_label by lia. cbn [Z.eqb negb]. unfold pton_done. cbn [fin cur].
    rewrite (proj2 (Z.leb_gt _ _)) by lia. rewrite (proj2 (Z.eqb_neq (len l) 0)) by lia. cbn [negb].
    unfold bp. cbn [fin cur]. rewrite (proj2 (Z.leb_gt _ _)) by lia. cbn [rbind good].
    rewrite (proj2 (Z.ltb_ge _ _)) by (autorewrite with len; lia).
    rewrite u8_id by (unfold is_u8; lia). by rewrite <- !app_assoc.
  - change (dotted (k :: ks)) with (ch_dot :: escs k ++ dotted ks) in *.
    destruct (escs_head k Hk) as (c & rest & Hc & Hc0 & Hcd). pose proof Hk as [Hkl Hkb].
    rewrite encode_cons in *.
    cbn [app pton_loop next rbind good]. change (ch_dot =? 0) with false. cbv iota.
    change (ch_dot =? ch_backslash) with false. change (ch_dot =? ch_dot) with true. cbv iota. cbn [fin cur].
    unfold encode_label in Hd, Hm |- *. autorewrite with len in Hd, Hm. pose proof (len_nonneg (encode ks)).
    rewrite small_label by lia. cbn [Z.eqb negb]. pose proof (len_nonneg fin0).
    rewrite (proj2 (Z.leb_gt _ _)) by lia.
    rewrite <- app_assoc. replace (peek (escs k ++ dotted ks ++ [0])) with (good c) by (by rewrite Hc). cbn [rbind good].
    rewrite (proj2 (Z.eqb_neq c 0)), (proj2 (Z.eqb_neq (len l) 0)), (proj2 (Z.eqb_neq c ch_dot)) by (done || lia).
    cbn [orb]. unfold close. cbn [fin cur].
    destruct (pton_escs k (dotted ks ++ [0]) (PState (fin0 ++ [len l] ++ l) []) fuel dstsiz) as (f1 & Hf1 & ->);
      [done|unfold bp; simpl; autorewrite with len; lia|simpl in Hf; rewrite <- app_assoc in Hf; lia|].
    cbn [fin cur]. rewrite app_nil_l, IH;
      [|done|unfold encode_label; autorewrite with len; lia|unfold encode_label; autorewrite with len; lia|done].
    unfold encode_label. by rewrite <- !app_assoc.
Qed.

(** The text of a name is parsed back into its encoding. *)
Lemma pton_text ls dstsiz :
  Forall label_ok ls -> len (encode ls) <= NS_MAXCDNAME -> len (encode ls) <= dstsiz ->
  ns_name_pton (text ls ++ [0]) dstsiz = good ((match ls with [] => 1 | _ => 0 end), encode ls).
Proof.
  intros Hls Hm Hd. destruct Hls as [|l ls Hl Hls].
  - unfold ns_name_pton. change (len (encode [])) with 1 in *. simpl.
    by rewrite (proj2 (Z.leb_gt _ _)) by (change (len []) with 0; lia).
  - pose proof Hl as [Hll Hb]. rewrite encode_cons in *.
    unfold ns_name_pton. simpl text. rewrite <- app_assoc.
    destruct (pton_escs l (dotted ls ++ [0]) (PState [] []) (S (length (escs l ++ dotted ls ++ [0]))) dstsiz) as (f1 & Hf1 & ->);
      [done| |lia|].
    + unfold encode_label, bp in *. autorewrite with len in *. simpl. pose proof (len_nonneg (encode ls)).
      change (len []) with 0. unfold encode in *. autorewrite with len in *.
      pose proof (len_nonneg (concat (map encode_label ls))). lia.
    + cbn [fin cur]. rewrite app_nil_l. by apply (pton_dotted ls l []).
Qed.

(** C34.  Names round-trip through their text: for labels of 1 to 63 arbitrary
    bytes whose encoding has at most 255 bytes, ns_name_ntop fits in a buffer of
    NS_MAXDNAME bytes and writes the text with special and unprintable bytes
    escaped, and ns_name_pton reads the same encoding back from that text (with
    result 0; the root is "." and gives 1). *)
Theorem name_text_roundtrip ls dstsiz :
  Forall label_ok ls -> len (encode ls) <= NS_MAXCDNAME -> len (encode ls) <= dstsiz ->
  ns_name_ntop (encode ls) NS_MAXDNAME = good (len (text ls) + 1, text ls ++ [0]) /\
  ns_name_pton (text ls ++ [0]) dstsiz = good ((match ls with [] => 1 | _ => 0 end), encode ls).
Proof.
  intros Hls Hm Hd. split; [by apply ntop_text; [|apply text_bound]|by apply pton_text].
Qed.

Lemma name_text_roundtrip_witness :
  ns_name_ntop (encode [[119; 46; 200]; [91]]) NS_MAXDNAME =
    good (len (text [[119; 46; 200]; [91]]) + 1, text [[119; 46; 200]; [91]] ++ [0]) /\
  ns_name_pton (text [[119; 46; 200]; [91]] ++ [0]) 255 = good (0, encode [[119; 46; 200]; [91]]).
Proof.
  apply (name_text_roundtrip [[119; 46; 200]; [91]] 255).
  - repeat constructor; unfold len; simpl; lia.
  - unfold len, NS_MAXCDNAME; simpl; lia.
  - unfold len; simpl; lia.
Defined.
