(* ===== verification/NsUnpack.v ===== *)
(** * Names inside messages (libc/netbsd/nameser/ns_name.c)

    ns_name_unpack follows compression pointers inside a message, ns_name_skip
    steps over a name, ns_name_uncompress gives its text.  A pointer into the
    message is its offset; eom is the length of the message. *)
From S2P Require Import Prelude Buffer NsName.

Definition from (msg : bytes) (i : Z) : bytes := drop (Z.to_nat i) msg.
Definition slice (msg : bytes) (i n : Z) : bytes := take (Z.to_nat n) (from msg i).

(** while ((n = *srcp++) != 0): [clen] is the variable len, [checked] the octets
    looked at. *)
Fixpoint unpack_loop (fuel : nat) (msg : bytes) (src srcp : Z) (out : bytes)
    (clen checked dstsiz : Z) : io (Z * bytes) :=
  match fuel with
  | O => None
  | S fuel =>
      let! n := getb msg srcp in
      let srcp := srcp + 1 in
      if n =? 0 then good ((if clen <? 0 then srcp - src else clen), out ++ [0])
      else
        let flags := Z.land n NS_CMPRSFLGS in
        if (flags =? 0) || (flags =? NS_TYPE_ELT) then
          let! l := labellen (from msg (srcp - 1)) in
          if l <? 0 then fail EMSGSIZE
          else if (dstsiz <=? len out + l + 1) || (len msg <=? srcp + l) then fail EMSGSIZE
          else unpack_loop fuel msg src (srcp + l) (out ++ [n] ++ slice msg srcp l) clen
                 (checked + l + 1) dstsiz
        else if flags =? NS_CMPRSFLGS then
          if len msg <=? srcp then fail EMSGSIZE
          else
            let clen := if clen <? 0 then srcp - src + 1 else clen in
            let! b := getb msg srcp in
            let srcp := Z.lor (Z.shiftl (Z.land n 0x3f) 8) (Z.land b 0xff) in
            if (srcp <? 0) || (len msg <=? srcp) then fail EMSGSIZE
            else
              let checked := checked + 2 in
              if len msg <=? checked then fail EMSGSIZE
              else unpack_loop fuel msg src srcp out clen checked dstsiz
        else fail EMSGSIZE
  end.

(** A label uses up space of the destination, a pointer some of [checked]. *)
Definition unpack_fuel (msg : bytes) (dstsiz : Z) : nat := S (Z.to_nat dstsiz + length msg).

(** Answers the number of octets consumed and the expanded name. *)
Definition ns_name_unpack (msg : bytes) (src dstsiz : Z) : io (Z * bytes) :=
  if (src <? 0) || (len msg <=? src) then fail EMSGSIZE
  else unpack_loop (unpack_fuel msg dstsiz) msg src src [] (-1) 0 dstsiz.

Definition ns_name_uncompress (msg : bytes) (src dstsiz : Z) : io (Z * bytes) :=
  let! (n, tmp) := ns_name_unpack msg src NS_MAXCDNAME in
  let! (_, dst) := ns_name_ntop tmp dstsiz in
  good (n, dst).

Fixpoint skip_loop (fuel : nat) (msg : bytes) (cp : Z) : io Z :=
  match fuel with
  | O => None
  | S fuel =>
      if cp <? len msg then
        let! n := getb msg cp in
        let cp := cp + 1 in
        if n =? 0 then good cp
        else
          let flags := Z.land n NS_CMPRSFLGS in
          if flags =? 0 then skip_loop fuel msg (cp + n)
          else if flags =? NS_TYPE_ELT then
            let! l := labellen (from msg (cp - 1)) in
            if l <? 0 then fail EMSGSIZE else skip_loop fuel msg (cp + l)
          else if flags =? NS_CMPRSFLGS then good (cp + 1)
          else fail EMSGSIZE
      else good cp
  end.

(** Answers the new value of *ptrptr. *)
Definition ns_name_skip (msg : bytes) (ptr : Z) : io Z :=
  let! cp := skip_loop (S (length msg)) msg ptr in
  if len msg <? cp then fail EMSGSIZE else good cp.

(** while ((n = *cp++) != 0) of ns_name_ntol; isupper and tolower are those of
    the C locale. *)
Definition isupper (c : Z) : bool := (0x41 <=? c) && (c <=? 0x5A).
Definition tolower (c : Z) : Z := if isupper c then c + 0x20 else c.

Fixpoint ntol_chars (l : nat) (cp : bytes) (out : bytes) : io (bytes * bytes) :=
  match l with
  | O => good (cp, out)
  | S l =>
      let! (c, cp) := next cp in
      ntol_chars l cp (out ++ [if isupper c then tolower c else c])
  end.

Fixpoint ntol_labels (fuel : nat) (cp out : bytes) (dstsiz : Z) : io bytes :=
  match fuel with
  | O => None
  | S fuel =>
      let! (n, cp') := next cp in
      if n =? 0 then good (out ++ [0])
      else if Z.land n NS_CMPRSFLGS =? NS_CMPRSFLGS then fail EMSGSIZE
      else
        let out := out ++ [n] in
        let! l := labellen cp in
        if l <? 0 then fail EMSGSIZE
        else if dstsiz <=? len out + l then fail EMSGSIZE
        else let! (cp, out) := ntol_chars (Z.to_nat l) cp' out in ntol_labels fuel cp out dstsiz
  end.

Definition ns_name_ntol (src : bytes) (dstsiz : Z) : io (Z * bytes) :=
  if dstsiz <=? 0 then fail EMSGSIZE
  else let! out := ntol_labels (S (length src)) src [] dstsiz in good (len out, out).

(** The pointers of dnptrs up to lastdnptr; [None] is NULL. *)
Fixpoint ns_name_rollback (src : Z) (dnptrs : list (option Z)) : list (option Z) :=
  match dnptrs with
  | Some p :: rest => if src <=? p then None :: rest else Some p :: ns_name_rollback src rest
  | _ => dnptrs
  end.

(** ** Expansion of compressed names *)
Section Expand.
Context (msg : bytes).

(** The first byte of a label. *)
Definition plain (n : Z) : Prop := Z.land n NS_CMPRSFLGS = 0 \/ Z.land n NS_CMPRSFLGS = NS_TYPE_ELT.

(** The name at offset [p] expands to the bytes [out]. *)
Inductive expands : Z -> bytes -> Prop :=
| expands_root p : rd msg p = Some 0 -> expands p [0]
| expands_label p n l out :
    rd msg p = Some n -> n <> 0 -> plain n -> labellen (from msg p) = good l -> 0 < l -> p + 1 + l < len msg ->
    expands (p + 1 + l) out -> expands p (n :: slice msg (p + 1) l ++ out)
| expands_pointer p n b out :
    rd msg p = Some n -> Z.land n NS_CMPRSFLGS = NS_CMPRSFLGS -> rd msg (p + 1) = Some b ->
    expands (Z.lor (Z.shiftl (Z.land n 0x3f) 8) (Z.land b 0xff)) out -> expands p out.

(** The encoding of the name at [p] itself ends at [q]. *)
Inductive ends : Z -> Z -> Prop :=
| ends_root p : rd msg p = Some 0 -> ends p (p + 1)
| ends_label p n l q :
    rd msg p = Some n -> n <> 0 -> plain n -> labellen (from msg p) = good l -> 0 < l -> ends (p + 1 + l) q -> ends p q
| ends_pointer p n : rd msg p = Some n -> Z.land n NS_CMPRSFLGS = NS_CMPRSFLGS -> p + 1 < len msg -> ends p (p + 2).
End Expand.

Lemma from_head msg p n : rd msg p = Some n -> from msg p = n :: from msg (p + 1).
Proof.
  intros H. pose proof (rd_lt _ _ _ H). unfold rd in H. rewrite (proj2 (Z.leb_le 0 p)) in H by lia.
  unfold from. rewrite (drop_S msg n (Z.to_nat p)) by done. do 2 f_equal. lia.
Qed.

Lemma rd_from msg p b rest : 0 <= p -> from msg p = b :: rest -> rd msg p = Some b.
Proof.
  intros Hp Hf. unfold rd. rewrite (proj2 (Z.leb_le 0 p)) by lia.
  pose proof (lookup_drop msg (Z.to_nat p) 0) as E. unfold from in Hf. rewrite Hf, Nat.add_0_r in E. by symmetry.
Qed.

(** The length of a label that labellen accepts. *)
Lemma labellen_cases msg p n :
  byte_list msg -> rd msg p = Some n -> n <> 0 ->
  (Z.land n NS_CMPRSFLGS = 0 /\ labellen (from msg p) = good n /\ 0 < n) \/
  (n = DNS_LABELTYPE_BITSTRING /\ p + 1 = len msg /\ labellen (from msg p) = None) \/
  (n = DNS_LABELTYPE_BITSTRING /\ exists l, labellen (from msg p) = good l /\ 0 < l) \/
  (n <> DNS_LABELTYPE_BITSTRING /\ Z.land n NS_CMPRSFLGS = NS_TYPE_ELT /\ labellen (from msg p) = good (-1)) \/
  (Z.land n NS_CMPRSFLGS <> 0 /\ Z.land n NS_CMPRSFLGS <> NS_TYPE_ELT).
Proof.
  intros Hb Hn Hnz. pose proof (rd_byte _ _ _ Hb Hn). rewrite (from_head _ _ _ Hn).
  unfold labellen. cbn [next rbind good].
  destruct (Z.eqb_spec (Z.land n NS_CMPRSFLGS) NS_CMPRSFLGS) as [E|E].
  { right. right. right. right. rewrite E. done. }
  destruct (Z.eqb_spec (Z.land n NS_CMPRSFLGS) NS_TYPE_ELT) as [E1|E1].
  - destruct (Z.eqb_spec n DNS_LABELTYPE_BITSTRING) as [->|E2]; [|right; right; right; left; done].
    destruct (from msg (p + 1)) as [|b rest] eqn:Ef; cbn [peek rbind good].
    + right. left. split_and!; try done. pose proof (rd_lt _ _ _ Hn).
      apply (f_equal length) in Ef. unfold from in Ef. rewrite length_drop in Ef. simpl in Ef. unfold len in *. lia.
    + right. right. left. split; [done|]. eexists. split; [done|].
      assert (0 <= b < 256).
      { pose proof (rd_lt _ _ _ Hn). apply (rd_byte msg (p + 1)); [done|]. by eapply rd_from; [lia|]. }
      case_test; zbool; [done|]. Z.to_euclidean_division_equations. lia.
  - destruct (Z.eqb_spec (Z.land n NS_CMPRSFLGS) 0) as [E3|E3]; [left; split_and!; [done..|lia]|].
    right. right. right. right. done.
Qed.

(** ** Unpacking *)
Lemma len_slice msg i n : 0 <= i -> 0 <= n -> i + n <= len msg -> len (slice msg i n) = n.
Proof. intros. unfold slice, from, len in *. rewrite length_take, length_drop. lia. Qed.

Section Unpack.
Context (msg : bytes) (Hb : byte_list msg) (src dstsiz : Z).

Lemma getb_rd p n : rd msg p = Some n -> getb msg p = good n.
Proof. unfold getb. by intros ->. Qed.

(** The rounds of the loop: the end, an error, a label or a pointer. *)
Inductive round_is (fuel : nat) (srcp : Z) (out : bytes) (clen checked : Z) : io (Z * bytes) -> Prop :=
| round_end : rd msg srcp = Some 0 ->
    round_is fuel srcp out clen checked (good ((if clen <? 0 then srcp + 1 - src else clen), out ++ [0]))
| round_fail e : round_is fuel srcp out clen checked (fail e)
| round_label n l : rd msg srcp = Some n -> n <> 0 -> plain n -> labellen (from msg srcp) = good l -> 0 < l ->
    len out + l + 1 < dstsiz -> srcp + 1 + l < len msg ->
    round_is fuel srcp out clen checked
      (unpack_loop fuel msg src (srcp + 1 + l) (out ++ [n] ++ slice msg (srcp + 1) l) clen (checked + l + 1) dstsiz)
| round_pointer n b : rd msg srcp = Some n -> Z.land n NS_CMPRSFLGS = NS_CMPRSFLGS ->
    rd msg (srcp + 1) = Some b ->
    0 <= Z.lor (Z.shiftl (Z.land n 0x3f) 8) (Z.land b 0xff) < len msg -> checked + 2 < len msg ->
    round_is fuel srcp out clen checked
      (unpack_loop fuel msg src (Z.lor (Z.shiftl (Z.land n 0x3f) 8) (Z.land b 0xff)) out
         (if clen <? 0 then srcp + 1 - src + 1 else clen) (checked + 2) dstsiz)
| round_outside : rd msg srcp = Some DNS_LABELTYPE_BITSTRING -> srcp + 1 = len msg ->
    round_is fuel srcp out clen checked None.

Lemma unpack_round fuel srcp out clen checked :
  0 <= srcp < len msg ->
  round_is fuel srcp out clen checked (unpack_loop (S fuel) msg src srcp out clen checked dstsiz).
Proof using Hb.
  intros Hs. destruct (rd_in msg srcp Hs) as [n Hn]. cbn [unpack_loop]. rewrite (getb_rd _ _ Hn). cbn [rbind good].
  destruct (Z.eqb_spec n 0) as [->|Hnz]; [by constructor|].
  replace (srcp + 1 - 1) with srcp by lia.
  assert (Hl : forall l, labellen (from msg srcp) = good l -> 0 < l -> plain n ->
    round_is fuel srcp out clen checked
      (if l <? 0 then fail EMSGSIZE
       else if (dstsiz <=? len out + l + 1) || (len msg <=? srcp + 1 + l) then fail EMSGSIZE
       else unpack_loop fuel msg src (srcp + 1 + l) (out ++ [n] ++ slice msg (srcp + 1) l) clen (checked + l + 1) dstsiz)).
  { intros l Hlen Hpos Hpl. rewrite (proj2 (Z.ltb_ge l 0)) by lia. case_test; [constructor|]. zbool. by apply round_label. }
  destruct (labellen_cases msg srcp n Hb Hn Hnz) as [(E & El & Hpos)|[(-> & Hend & El)|[(-> & l & El & Hpos)|[(_ & E & El)|(E1 & E2)]]]].
  - rewrite E. cbn [Z.eqb orb]. rewrite El. cbn [rbind good]. apply Hl; [done..|by left].
  - change (Z.land DNS_LABELTYPE_BITSTRING NS_CMPRSFLGS) with NS_TYPE_ELT. cbn [Z.eqb orb NS_TYPE_ELT Pos.eqb]. rewrite El.
    by constructor.
  - change (Z.land DNS_LABELTYPE_BITSTRING NS_CMPRSFLGS) with NS_TYPE_ELT. cbn [Z.eqb orb NS_TYPE_ELT Pos.eqb]. rewrite El.
    cbn [rbind good]. apply Hl; [done..|by right].
  - rewrite E. cbn [Z.eqb orb NS_TYPE_ELT Pos.eqb]. rewrite El. cbn [rbind good]. constructor.
  - rewrite (proj2 (Z.eqb_neq _ 0)), (proj2 (Z.eqb_neq _ NS_TYPE_ELT)) by done. cbn [orb].
    destruct (Z.eqb_spec (Z.land n NS_CMPRSFLGS) NS_CMPRSFLGS) as [E|_]; [|constructor].
    case_test; [constructor|]. zbool. destruct (rd_in msg (srcp + 1)) as [b Hb']; [lia|].
    rewrite (getb_rd _ _ Hb'). cbn [rbind good]. case_test; [constructor|]. zbool.
    case_test; [constructor|]. zbool. by constructor.
Qed.

(** What a successful run of the loop has read. *)
Lemma unpack_sound fuel srcp out clen checked k res :
  0 <= srcp < len msg -> (clen < 0 -> src <= srcp) -> len out < dstsiz ->
  unpack_loop fuel msg src srcp out clen checked dstsiz = good (k, res) ->
  exists tail, res = out ++ tail /\ expands msg srcp tail /\ len res <= dstsiz /\
    (0 <= clen -> k = clen) /\ (clen < 0 -> exists q, ends msg srcp q /\ q <= len msg /\ k = q - src).
Proof using Hb.
  revert srcp out clen checked. induction fuel as [|fuel IH]; intros srcp out clen checked Hs Hsrc Hd0 Hr; [done|].
  pose proof (unpack_round fuel srcp out clen checked Hs) as Hround. rewrite Hr in Hround.
  inversion Hround as [H0 E|e E|n l Hn Hnz Hpl Hl Hpos Hd Hm E|n b Hn Hf Hb' Hrange Hch E|]; subst.
  - exists [0]. split_and!; [done|by constructor|unfold len in *; rewrite length_app; simpl; lia| |].
    + intros Hc. by rewrite (proj2 (Z.ltb_ge clen 0)) by lia.
    + intros Hc. rewrite (proj2 (Z.ltb_lt clen 0)) by lia. exists (srcp + 1). split_and!; [by constructor|lia|lia].
  - symmetry in E.
    destruct (IH (srcp + 1 + l) (out ++ [n] ++ slice msg (srcp + 1) l) clen (checked + l + 1))
      as (tail & -> & Hex & Hlen & Hk & Hq); [lia|intros Hc; specialize (Hsrc Hc); lia| |done|].
    { pose proof (len_slice msg (srcp + 1) l). unfold len in *. rewrite !length_app. simpl. lia. }
    exists (n :: slice msg (srcp + 1) l ++ tail). split_and!; [by rewrite <- !app_assoc|by eapply expands_label|done|done|].
    intros Hc. destruct (Hq Hc) as (q & Hends & Hqm & ->). exists q. split_and!; [by eapply ends_label|done|done].
  - pose proof (rd_lt _ _ _ Hb') as Hp1.
    destruct (IH _ out (if clen <? 0 then srcp + 1 - src + 1 else clen) (checked + 2) Hrange)
      as (tail & -> & Hex & Hlen & Hk & Hq); [|done|done|].
    { case_test; zbool; [specialize (Hsrc ltac:(done)); lia|lia]. }
    exists tail. split_and!; [done|by eapply expands_pointer|done| |].
    + intros Hc. rewrite (proj2 (Z.ltb_ge clen 0)) in Hk by lia. auto.
    + intros Hc. specialize (Hsrc Hc). rewrite (proj2 (Z.ltb_lt clen 0)) in Hk by lia.
      exists (srcp + 2). split_and!; [by eapply ends_pointer; [done|done|lia]|lia|lia].
Qed.

(** The loop comes to an end without reading outside the message: a label uses
    up space of the destination, a pointer part of the octets to check. *)
Lemma unpack_total fuel srcp out clen checked :
  (forall p, p + 1 = len msg -> rd msg p <> Some DNS_LABELTYPE_BITSTRING) ->
  0 <= srcp < len msg ->
  (Z.to_nat (dstsiz - len out) + Z.to_nat (len msg - checked) < fuel)%nat ->
  unpack_loop fuel msg src srcp out clen checked dstsiz <> None.
Proof using Hb.
  intros Hlast. revert srcp out clen checked. induction fuel as [|fuel IH]; intros srcp out clen checked Hs Hf; [lia|].
  pose proof (unpack_round fuel srcp out clen checked Hs) as Hround.
  destruct Hround as [H0|e|n l Hn Hnz Hpl Hl Hpos Hd Hm|n b Hn Hfl Hb' Hrange Hch|H0 H1].
  - done.
  - done.
  - apply IH; [lia|]. pose proof (len_slice msg (srcp + 1) l). unfold len in *. rewrite !length_app. simpl. lia.
  - apply IH; [done|lia].
  - by destruct (Hlast srcp).
Qed.
End Unpack.

Lemma unpack_facts msg src dstsiz
    (Hb : byte_list msg) (Hd : 0 < dstsiz)
    (Hlast : forall p, p + 1 = len msg -> rd msg p <> Some DNS_LABELTYPE_BITSTRING) :
  ns_name_unpack msg src dstsiz <> None /\
  forall n dst, ns_name_unpack msg src dstsiz = good (n, dst) ->
    expands msg src dst /\ len dst <= dstsiz /\ ends msg src (src + n) /\ src + n <= len msg.
Proof.
  unfold ns_name_unpack. case_test; [by split|]. zbool. split.
  - apply unpack_total; [done|done|lia|]. unfold unpack_fuel, len. simpl. lia.
  - intros n dst E. apply unpack_sound in E as (tail & -> & Hex & Hlen & _ & Hq); [|done|lia|lia|done].
    destruct (Hq ltac:(lia)) as (q & Hends & Hqm & ->). replace (src + (q - src)) with q by lia. done.
Qed.

(** C4.  ns_name_unpack comes to an end on every message, whatever loops its
    compression pointers make, and reads only inside the message, when the
    message does not end in the type byte of a bit-string label.  When it
    answers a length and a name, the name is the expansion of the name at the
    source and fits the destination, and the length is that of the encoding at
    the source, which ends inside the message. *)
Theorem unpack_correct msg src dstsiz
    (Hb : byte_list msg) (Hd : 0 < dstsiz)
    (Hlast : forall p, p + 1 = len msg -> rd msg p <> Some DNS_LABELTYPE_BITSTRING) :
  ns_name_unpack msg src dstsiz <> None /\
  forall n dst, ns_name_unpack msg src dstsiz = good (n, dst) ->
    expands msg src dst /\ len dst <= dstsiz /\ ends msg src (src + n) /\ src + n <= len msg.
Proof. by apply unpack_facts. Qed.

(** ** Skipping *)
Lemma ends_lt msg p q : ends msg p q -> 0 <= p < q /\ q <= len msg.
Proof.
  induction 1 as [p H|p n l q H Hnz Hpl Hl Hpos He IH|p n H Hf Hlt]; [pose proof (rd_lt _ _ _ H); lia..|].
  pose proof (rd_lt _ _ _ H). lia.
Qed.

Lemma skip_ends msg p q fuel :
  byte_list msg -> ends msg p q -> (Z.to_nat (q - p) < fuel)%nat -> skip_loop fuel msg p = good q.
Proof.
  intros Hb He. revert fuel. induction He as [p H|p n l q H Hnz Hpl Hl Hpos He IH|p n H Hf Hlt]; intros fuel Hfuel;
    (destruct fuel as [|fuel]; [lia|]); pose proof (rd_lt _ _ _ H); cbn [skip_loop];
    rewrite (proj2 (Z.ltb_lt _ _)) by lia; rewrite (getb_rd _ _ _ H); cbn [rbind good].
  - done.
  - pose proof (ends_lt _ _ _ He). rewrite (proj2 (Z.eqb_neq n 0)) by done.
    destruct (labellen_cases msg p n Hb H Hnz) as [(E & El & _)|[(-> & _ & El)|[(-> & l' & El & _)|[(_ & E & El)|(E1 & E2)]]]].
    + rewrite E. cbn [Z.eqb]. rewrite El in Hl. injection Hl as ->. apply IH. lia.
    + by rewrite El in Hl.
    + change (Z.land DNS_LABELTYPE_BITSTRING NS_CMPRSFLGS) with NS_TYPE_ELT. cbn [Z.eqb NS_TYPE_ELT Pos.eqb].
      replace (p + 1 - 1) with p by lia. rewrite Hl. cbn [rbind good]. rewrite (proj2 (Z.ltb_ge l 0)) by lia. apply IH. lia.
    + rewrite El in Hl. injection Hl as <-. lia.
    + by destruct Hpl.
  - destruct (Z.eqb_spec n 0) as [->|_]; [done|]. rewrite Hf. cbn [Z.eqb NS_CMPRSFLGS NS_TYPE_ELT Pos.eqb]. 
    unfold good. do 2 f_equal. lia.
Qed.

Lemma skip_unpacked msg src dstsiz n dst
    (Hb : byte_list msg) (Hd : 0 < dstsiz)
    (H : ns_name_unpack msg src dstsiz = good (n, dst)) :
  ns_name_skip msg src = good (src + n).
Proof.
  unfold ns_name_unpack in H. case_test_in H; [done|]. zbool.
  apply unpack_sound in H as (tail & -> & _ & _ & _ & Hq); [|done|lia|lia|done].
  destruct (Hq ltac:(lia)) as (q & Hends & Hqm & ->). replace (src + (q - src)) with q by lia.
  pose proof (ends_lt _ _ _ Hends). unfold ns_name_skip.
  rewrite (skip_ends msg src q) by (done || (unfold len in *; lia)). cbn [rbind good].
  by rewrite (proj2 (Z.ltb_ge _ _)) by lia.
Qed.

(** ns_name_skip agrees with ns_name_unpack: it moves over exactly the
    octets that unpacking the name consumes. *)
Theorem skip_agrees msg src dstsiz n dst
    (Hb : byte_list msg) (Hd : 0 < dstsiz)
    (H : ns_name_unpack msg src dstsiz = good (n, dst)) :
  ns_name_skip msg src = good (src + n).
Proof. by eapply skip_unpacked. Qed.

(** The name abc, and d.abc with a compression pointer to it. *)
Definition sample_msg : bytes := [3; 97; 98; 99; 0; 1; 100; 192; 0].

Lemma sample_bytes : byte_list sample_msg.
Proof. repeat (constructor; [lia|]). constructor. Qed.

Lemma unpack_correct_witness :
  ns_name_unpack sample_msg 5 NS_MAXCDNAME = good (4, [1; 100; 3; 97; 98; 99; 0]) /\
  ends sample_msg 5 9.
Proof.
  split; [vm_compute; reflexivity|].
  assert (Hlast : forall p, p + 1 = len sample_msg -> rd sample_msg p <> Some DNS_LABELTYPE_BITSTRING).
  { intros p Hp. assert (p = 8) as -> by (change (len sample_msg) with 9 in Hp; lia). discriminate. }
  apply (proj2 (unpack_correct sample_msg 5 NS_MAXCDNAME sample_bytes eq_refl Hlast) 4 [1; 100; 3; 97; 98; 99; 0]).
  vm_compute. reflexivity.
Defined.

Lemma skip_agrees_witness :
  ns_name_skip sample_msg 5 = good 9.
Proof.
  apply (skip_agrees sample_msg 5 NS_MAXCDNAME 4 [1; 100; 3; 97; 98; 99; 0]
           sample_bytes eq_refl).
  vm_compute. reflexivity.
Defined.

(** A message that ends in the type byte of a bit-string label is read past its
    end. *)
Example label_read_past_end :
  ns_name_unpack [1; 97; 0x41] 0 NS_MAXCDNAME = None /\ ns_name_skip [1; 97; 0x41] 0 = None.
Proof. split; vm_compute; reflexivity. Qed.
