(* ===== verification/NsPack.v ===== *)
(** * Compressed names (libc/netbsd/nameser/ns_name.c)

    ns_name_pack writes a name into a message with pointers to the names that
    the message has already, ns_name_compress does so from the text of a name.
    The message is the buffer [buf], which starts at msg; pointers into it are
    offsets.  The array dnptrs is the list of its cells after the first one,
    which points to msg; [None] as the whole is a dnptrs or *dnptrs that is NULL,
    and lastdnptr is counted from the second cell.  An access outside the buffer,
    the source or the array answers [None]. *)
From S2P Require Import Prelude Buffer NsName NsUnpack.

Definition ENOENT : Z := 2.
Notation cells := (list (option Z)).

(** ** dn_find *)

(** for (; n > 0; n--) if (mklower( *dn++) != mklower( *cp++)) goto next; *)
Fixpoint same_chars (n : nat) (dn : bytes) (msg : bytes) (cp : Z) : io (option (bytes * Z)) :=
  match n with
  | O => good (Some (dn, cp))
  | S n =>
      let! (d, dn) := next dn in
      let! c := getb msg cp in
      if mklower d =? mklower c then same_chars n dn msg (cp + 1) else good None
  end.

(** How the comparison with a name of the message ends. *)
Inductive verdict : Type := Same | Next | Illegal.

(** while ((n = *cp++) != 0) *)
Fixpoint match_loop (fuel : nat) (msg dn : bytes) (cp : Z) : io verdict :=
  match fuel with
  | O => None
  | S fuel =>
      let! n := getb msg cp in
      let cp := cp + 1 in
      if n =? 0 then good Next
      else
        let flags := Z.land n NS_CMPRSFLGS in
        if flags =? 0 then
          let! n := labellen (from msg (cp - 1)) in
          let! (d, dn) := next dn in
          if negb (n =? d) then good Next
          else
            let! r := same_chars (Z.to_nat n) dn msg cp in
            match r with
            | None => good Next
            | Some (dn, cp) =>
                let! d := peek dn in
                if d =? 0 then let! c := getb msg cp in good (if c =? 0 then Same else Next)
                else match_loop fuel msg dn cp
            end
        else if flags =? NS_CMPRSFLGS then
          let! b := getb msg cp in
          match_loop fuel msg dn (Z.lor (Z.shiftl (Z.land n 0x3f) 8) b)
        else good Illegal
  end.

(** How the walk along the labels of a name ends. *)
Inductive walk : Type := At (sp : Z) | Stop | Exhausted.

(** while ( *sp != 0 && ( *sp & NS_CMPRSFLGS) == 0 && (sp - msg) < 0x4000) *)
Fixpoint walk_loop (fuel : nat) (msg domain : bytes) (sp : Z) : io walk :=
  match fuel with
  | O => None
  | S fuel =>
      let! c := getb msg sp in
      if negb (c =? 0) && (Z.land c NS_CMPRSFLGS =? 0) && (sp <? 0x4000) then
        let! v := match_loop (S (length domain + length msg)) msg domain sp in
        match v with
        | Same => good (At sp)
        | Illegal => good Stop
        | Next => walk_loop fuel msg domain (sp + c + 1)
        end
      else good Exhausted
  end.

(** for (cpp = dnptrs; cpp < lastdnptr; cpp++) *)
Fixpoint dn_find (domain msg : bytes) (dnptrs : cells) : io Z :=
  match dnptrs with
  | [] => fail ENOENT
  | None :: _ => None
  | Some sp :: dnptrs =>
      let! w := walk_loop (S (length msg)) msg domain sp in
      match w with
      | At sp => good sp
      | Stop => fail EMSGSIZE
      | Exhausted => dn_find domain msg dnptrs
      end
  end.

(** ** ns_name_pack *)

(** for (cpp = dnptrs; *cpp != NULL; cpp++) *)
Fixpoint cells_end (cs : cells) : option nat :=
  match cs with
  | [] => None
  | None :: _ => Some 0%nat
  | Some _ :: cs => k ← cells_end cs; Some (S k)
  end.

(** make sure the domain we are about to add is legal *)
Fixpoint legal_loop (fuel : nat) (srcp : bytes) (l : Z) : io unit :=
  match fuel with
  | O => None
  | S fuel =>
      let! n := peek srcp in
      if Z.land n NS_CMPRSFLGS =? NS_CMPRSFLGS then fail EMSGSIZE
      else
        let! l0 := labellen srcp in
        if l0 <? 0 then fail EINVAL
        else
          let l := l + l0 + 1 in
          if NS_MAXCDNAME <? l then fail EMSGSIZE
          else if n =? 0 then good tt else legal_loop fuel (from srcp (l0 + 1)) l
  end.

(** Bytes written to the buffer from offset [i] on. *)
Definition write (buf : bytes) (i : Z) (l : bytes) : option bytes :=
  if (0 <=? i) && (i + len l <=? len buf) then Some (take (Z.to_nat i) buf ++ l ++ from buf (i + len l)) else None.
(** A cell of the array. *)
Definition set_cell (cs : cells) (i : nat) (v : option Z) : option cells :=
  if (i <? length cs)%nat then Some (<[i := v]> cs) else None.

Section Pack.
(** msg != NULL, lastdnptr, dst, eob, and lpp, the end of the list to search. *)
Context (has : bool) (last : option Z) (dst eob : Z) (lpp : nat).

(** The result, the buffer and the array afterwards. *)
Definition packed_result : Type := res Z * bytes * cells.

Definition cleanup (buf : bytes) (cs : cells) : option packed_result :=
  cs ← (if has then set_cell cs lpp None else Some cs); Some (Fail EMSGSIZE, buf, cs).

(** copy label to buffer, then [again] unless it is the root; [n] is *srcp *)
Definition copy_label (n : Z) (srcp buf : bytes) (dstp : Z) (cs : cells) (again : bytes -> bytes -> Z -> option packed_result) :
    option packed_result :=
  if Z.land n NS_CMPRSFLGS =? NS_CMPRSFLGS then cleanup buf cs
  else
    match labellen srcp with
    | Some (Good n) =>
        if eob <=? dstp + 1 + n then cleanup buf cs
        else
          label ← (if n + 1 <=? len srcp then Some (take (Z.to_nat (n + 1)) srcp) else None);
          buf ← write buf dstp label;
          let dstp := dstp + (n + 1) in
          if n =? 0 then if eob <? dstp then cleanup buf cs else Some (Good (dstp - dst), buf, cs)
          else again (from srcp (n + 1)) buf dstp
    | _ => None
    end.

Fixpoint pack_loop (fuel : nat) (srcp buf : bytes) (dstp : Z) (cs : cells) (cpp : nat) (first : bool) : option packed_result :=
  match fuel with
  | O => None
  | S fuel =>
      n ← srcp !! 0%nat;
      let copy cs cpp first := copy_label n srcp buf dstp cs (fun srcp buf dstp => pack_loop fuel srcp buf dstp cs cpp first) in
      if negb (n =? 0) && has then
        match dn_find srcp buf (take lpp cs) with
        | None => None
        | Some (Good l) =>
            if eob <=? dstp + 1 then cleanup buf cs
            else
              buf ← write buf dstp [u8 (Z.lor (Z.shiftr l 8) NS_CMPRSFLGS); l mod 256];
              Some (Good (dstp + 2 - dst), buf, cs)
        | Some (Fail _) =>
            if match last with Some last => Z.of_nat cpp <? last - 1 | None => false end && (dstp <? 0x4000) && first then
              cs ← set_cell cs cpp (Some dstp);
              cs ← set_cell cs (S cpp) None;
              copy cs (S cpp) false
            else copy cs cpp first
        end
      else copy cs cpp first
  end.
End Pack.

Definition ns_name_pack (src buf : bytes) (dst dstsiz : Z) (dnptrs : option cells) (lastdnptr : option Z) : option packed_result :=
  '(has, cs, lpp) ← match dnptrs with
                    | Some cs => lpp ← cells_end cs; Some (true, cs, lpp)
                    | None => Some (false, [], 0%nat)
                    end;
  match legal_loop (S (length src)) src 0 with
  | None => None
  | Some (Fail e) => Some (Fail e, buf, cs)
  | Some (Good _) => pack_loop has lastdnptr dst (dst + dstsiz) lpp (S (length src)) src buf dst cs lpp true
  end.

Definition ns_name_compress (src buf : bytes) (dst dstsiz : Z) (dnptrs : option cells) (lastdnptr : option Z) : option packed_result :=
  match ns_name_pton src NS_MAXCDNAME with
  | None => None
  | Some (Fail e) => Some (Fail e, buf, default [] dnptrs)
  | Some (Good (_, tmp)) => ns_name_pack tmp buf dst (s32 dstsiz) dnptrs lastdnptr
  end.

(** dn_comp of resolv/res_comp.c *)
Definition dn_comp (src buf : bytes) (dst dstsiz : Z) (dnptrs : option cells) (lastdnptr : option Z) : option packed_result :=
  ns_name_compress src buf dst (u32 dstsiz) dnptrs lastdnptr.

(** ** Names in a message *)
Definition target (n b : Z) : Z := Z.lor (Z.shiftl (Z.land n 0x3f) 8) b.

(** The labels [ls] are written from offset [p] to offset [q]; a pointer leads to
    a name that ends at or before [s], the start of this one. *)
Inductive packed (msg : bytes) : Z -> Z -> Z -> list bytes -> Prop :=
| packed_root s p : rd msg p = Some 0 -> packed msg s p (p + 1) []
| packed_label s p q l ls :
    0 <= p -> label_ok l -> slice msg p (len l + 1) = encode_label l -> packed msg s (p + 1 + len l) q ls -> packed msg s p q (l :: ls)
| packed_pointer s p n b q ls :
    rd msg p = Some n -> Z.land n NS_CMPRSFLGS = NS_CMPRSFLGS -> rd msg (p + 1) = Some b -> 0 <= b < 256 ->
    packed msg (target n b) (target n b) q ls -> q <= s -> packed msg s p (p + 2) ls.

(** Equal up to the case of letters. *)
Definition same_name (a b : list bytes) : Prop := map (map mklower) a = map (map mklower) b.

Lemma same_name_refl a : same_name a a.
Proof. done. Qed.
Lemma same_name_cons l k a b : map mklower l = map mklower k -> same_name a b -> same_name (l :: a) (k :: b).
Proof. unfold same_name. simpl. by intros -> ->. Qed.
Lemma same_name_length a b : same_name a b -> len (encode a) = len (encode b).
Proof.
  revert b. induction a as [|l a IH]; intros [|k b] H; [done|discriminate..|]. unfold same_name in H. simpl in H.
  injection H as H1 H2. rewrite !encode_cons. apply IH in H2. apply (f_equal length) in H1. rewrite !length_map in H1.
  unfold encode_label. autorewrite with len. unfold len in *. lia.
Qed.

Lemma slice_len_le msg p n : 0 <= p -> 0 < n -> len (slice msg p n) = n -> p + n <= len msg.
Proof. unfold slice, from, len. rewrite length_take, length_drop. lia. Qed.

Lemma packed_range msg s p q ls : packed msg s p q ls -> 0 <= p < q /\ q <= len msg.
Proof.
  induction 1 as [s p H|s p q l ls Hp [Hl _] Hsl H IH|s p n b q ls Hn Hf Hb _ H IH Hq].
  - pose proof (rd_lt _ _ _ H). lia.
  - lia.
  - pose proof (rd_lt _ _ _ Hn). pose proof (rd_lt _ _ _ Hb). lia.
Qed.

Lemma packed_later msg s s' p q ls : s <= s' -> packed msg s p q ls -> packed msg s' p q ls.
Proof.
  intros Hs H. revert s' Hs. induction H as [s p H|s p q l ls Hp Hl Hsl H IH|s p n b q ls Hn Hf Hb Hbb H IH Hq]; intros s' Hs.
  - by constructor.
  - constructor; auto.
  - econstructor; eauto. lia.
Qed.

(** Two buffers that agree before [e]. *)
Definition agree (e : Z) (a b : bytes) : Prop := take (Z.to_nat e) a = take (Z.to_nat e) b.

Lemma agree_rd e a b i : agree e a b -> i < e -> rd a i = rd b i.
Proof.
  unfold agree, rd. intros H Hi. case_test; [|done]. zbool.
  rewrite <- (lookup_take_lt a (Z.to_nat e)), <- (lookup_take_lt b (Z.to_nat e)) by lia. by rewrite H.
Qed.
Lemma agree_slice e a b i n : agree e a b -> 0 <= i -> 0 <= n -> i + n <= e -> slice a i n = slice b i n.
Proof.
  unfold agree, slice, from. intros H Hi Hn He. rewrite !take_drop_commute.
  replace (take (Z.to_nat i + Z.to_nat n) a) with (take (Z.to_nat i + Z.to_nat n) (take (Z.to_nat e) a)) by (rewrite take_take; f_equal; lia).
  rewrite H, take_take. do 2 f_equal. lia.
Qed.
Lemma agree_le e e' a b : e' <= e -> agree e a b -> agree e' a b.
Proof.
  unfold agree. intros He H. replace (Z.to_nat e') with (Z.to_nat e' `min` Z.to_nat e)%nat by lia. by rewrite <- !take_take, H.
Qed.
Lemma agree_trans e a b c : agree e a b -> agree e b c -> agree e a c.
Proof. unfold agree. congruence. Qed.

Lemma packed_agree e a b s p q ls : agree e a b -> len a = len b -> s <= p -> q <= e -> packed a s p q ls -> packed b s p q ls.
Proof.
  intros Ha Hlen Hs Hq H. revert Hs Hq. induction H as [s p H|s p q l ls Hp Hl Hsl H IH|s p n c q ls Hn Hf Hb Hbb H IH Hqs]; intros Hs Hq.
  - constructor. by rewrite <- (agree_rd e a b) by (done || lia).
  - pose proof (packed_range _ _ _ _ _ H). pose proof (len_nonneg l). constructor; [done..| |apply IH; lia].
    rewrite <- (agree_slice e a b) by (done || lia). done.
  - econstructor; [..|apply IH; lia|done]; [by rewrite <- (agree_rd e a b) by (done || lia)|done|by rewrite <- (agree_rd e a b) by (done || lia)|done].
Qed.

(** ** Comparing names *)
Lemma slice_cons msg p n c l :
  0 <= p -> 0 <= n -> slice msg p (n + 1) = c :: l -> rd msg p = Some c /\ slice msg (p + 1) n = l.
Proof.
  intros Hp Hn H. unfold slice, from in *. replace (Z.to_nat (n + 1)) with (S (Z.to_nat n)) in H by lia.
  destruct (drop (Z.to_nat p) msg) as [|c' t] eqn:E; [done|]. cbn [take] in H. injection H as -> H. split.
  - unfold rd. rewrite (proj2 (Z.leb_le 0 p)) by lia. pose proof (lookup_drop msg (Z.to_nat p) 0) as E'. rewrite E, Nat.add_0_r in E'. by symmetry.
  - replace (Z.to_nat (p + 1)) with (Z.to_nat p + 1)%nat by lia. by rewrite <- drop_drop, E.
Qed.

Lemma plain_length l : label_ok l -> Z.land (len l) NS_CMPRSFLGS = 0.
Proof.
  intros [Hl _]. unfold NS_CMPRSFLGS. change 192 with (Z.shiftl 3 6). apply Z.bits_inj'. intros i Hi. rewrite Z.land_spec, Z.shiftl_spec, Z.bits_0 by lia.
  destruct (Z.lt_ge_cases i 6) as [H|H]; [rewrite (Z.testbit_neg_r 3) by lia; apply andb_false_r|].
  rewrite (Z.bits_above_log2 (len l)) by (try lia; assert (Z.log2 (len l) < 6) by (apply Z.log2_lt_pow2; lia); lia). done.
Qed.

Lemma labellen_label l rest : label_ok l -> labellen (len l :: rest) = good (len l).
Proof. intros Hl. unfold labellen. cbn [next rbind good]. by rewrite (plain_length l Hl). Qed.

Lemma same_chars_spec k l dn msg cp :
  length k = length l -> 0 <= cp -> slice msg cp (len l) = l ->
  same_chars (length k) (k ++ dn) msg cp = good (if bool_decide (map mklower k = map mklower l) then Some (dn, cp + len l) else None).
Proof.
  revert l cp. induction k as [|d k IH]; intros [|c l] cp Hlen Hcp Hsl; [|done..|].
  - cbn. by rewrite Z.add_0_r.
  - pose proof (len_nonneg l) as Hl0. assert (rd msg cp = Some c /\ slice msg (cp + 1) (len l) = l) as [Hc Hsl'].
    { apply slice_cons; [done..|]. by rewrite Z.add_comm, <- (len_cons c). }
    cbn [length same_chars app next rbind good]. rewrite (getb_rd _ _ _ Hc). cbn [rbind good].
    destruct (Z.eqb_spec (mklower d) (mklower c)) as [Hdc|Hdc].
    + rewrite (IH l (cp + 1)) by (done || simpl in Hlen; lia). f_equal. f_equal. rewrite len_cons.
      destruct (bool_decide_reflect (map mklower k = map mklower l)) as [Hm|Hm].
      * rewrite bool_decide_true by (simpl; congruence). f_equal. f_equal. lia.
      * rewrite bool_decide_false; [done|]. simpl. congruence.
    + rewrite bool_decide_false; [done|]. simpl. congruence.
Qed.

Lemma match_loop_ok fuel msg s cp q ls' ls :
  packed msg s cp q ls' -> 0 <= s -> Forall label_ok ls -> ls <> [] -> (length (encode ls) + Z.to_nat s < fuel)%nat ->
  exists v, match_loop fuel msg (encode ls) cp = good v /\ v <> Illegal /\ (v = Same -> same_name ls' ls).
Proof.
  revert s cp q ls' ls. induction fuel as [|fuel IH]; intros s cp q ls' ls Hp Hs Hls Hne Hf; [lia|].
  destruct ls as [|k ks]; [done|]. apply Forall_cons in Hls as [Hk Hks]. cbn [match_loop].
  assert (Hf' : (length (encode ks) + Z.to_nat s < fuel)%nat) by (rewrite encode_cons, length_app in Hf; cbn [encode_label length] in Hf; lia).
  destruct Hp as [s p H|s p q l ls' Hp0 Hl Hsl H|s p n b q ls' Hn Hfl Hb Hbb H Hq].
  - rewrite (getb_rd _ _ _ H). cbn. by exists Next.
  - pose proof Hl as [Hll _]. pose proof Hk as [Hkl _]. destruct (slice_cons _ _ _ _ _ Hp0 (len_nonneg l) Hsl) as [Hrd Hsl'].
    rewrite (getb_rd _ _ _ Hrd). cbn [rbind good]. rewrite (proj2 (Z.eqb_neq (len l) 0)), (plain_length l Hl) by lia. cbn [Z.eqb].
    replace (p + 1 - 1) with p by lia. rewrite (from_head _ _ _ Hrd), labellen_label by done. cbn [rbind good].
    rewrite encode_cons in *. unfold encode_label in *. cbn [app next rbind good].
    destruct (Z.eqb_spec (len l) (len k)) as [Hlen|Hlen]; cbn [negb]; [|by exists Next].
    assert (Hn : length l = length k) by (unfold len in Hlen; lia).
    replace (Z.to_nat (len l)) with (length k) by (unfold len; lia).
    rewrite (same_chars_spec k l) by (done || lia). cbn [rbind good].
    destruct (bool_decide_reflect (map mklower k = map mklower l)) as [Hm|Hm]; [|by exists Next].
    destruct ks as [|k2 ks]; [change (peek (encode [])) with (good 0)|rewrite encode_cons; cbn [peek app encode_label]]; cbn [rbind good].
    + cbn [Z.eqb]. pose proof (packed_range _ _ _ _ _ H) as Hr. destruct (rd_in msg (p + 1 + len l)) as [c Hc]; [lia|].
      rewrite (getb_rd _ _ _ Hc). cbn [rbind good]. eexists. split; [done|]. split; [by destruct (c =? 0)|].
      destruct (Z.eqb_spec c 0) as [->|]; [|done]. intros _. apply same_name_cons; [done|].
      inversion H as [? ? H'|? ? ? l' ? ? [Hl' _] Hsl2|? ? n ? ? ? Hn' Hfl]; subst; [done| |].
      * apply slice_cons in Hsl2 as [Hc' _]; [|lia|apply len_nonneg]. rewrite Hc in Hc'. injection Hc'. lia.
      * rewrite Hc in Hn'. injection Hn' as <-. done.
    + apply Forall_cons in Hks as [Hk2 Hks]. pose proof Hk2 as [Hk2l _]. rewrite (proj2 (Z.eqb_neq (len k2) 0)) by lia.
      change (encode_label k2 ++ encode ks) with (len k2 :: k2 ++ encode ks) in *.
      destruct (IH s (p + 1 + len l) q ls' (k2 :: ks)) as (v & Hv & Hi & Hsame); [done|done|by constructor|done|done|].
      rewrite encode_cons in Hv. exists v. split_and!; [exact Hv|done|]. intros ->. apply same_name_cons; [done|by apply Hsame].
  - rewrite (getb_rd _ _ _ Hn). cbn [rbind good]. rewrite (proj2 (Z.eqb_neq n 0)) by (intros ->; done).
    rewrite Hfl. cbn [Z.eqb NS_CMPRSFLGS Pos.eqb]. rewrite (getb_rd _ _ _ Hb). cbn [rbind good].
    pose proof (packed_range _ _ _ _ _ H). apply (IH (target n b) (target n b) q); [done|lia|by constructor|done|lia].
Qed.

(** The pointer [o] leads to the name [ls], which ends before [e]. *)
Definition points_to (msg : bytes) (e : Z) (ls : list bytes) (o : Z) : Prop :=
  0 <= o < 0x4000 /\ exists q ls', packed msg o o q ls' /\ q <= e /\ same_name ls' ls.

Lemma walk_loop_ok fuel msg s sp q ls' ls :
  packed msg s sp q ls' -> 0 <= s <= sp -> Forall label_ok ls -> ls <> [] -> (length msg < Z.to_nat sp + fuel)%nat ->
  exists w, walk_loop fuel msg (encode ls) sp = good w /\ match w with At o => points_to msg q ls o | Stop => False | Exhausted => True end.
Proof.
  revert sp ls'. induction fuel as [|fuel IH]; intros sp ls' Hp Hs Hls Hne Hf; pose proof (packed_range _ _ _ _ _ Hp) as Hr; [unfold len in *; lia|].
  cbn [walk_loop]. destruct (rd_in msg sp) as [c Hc]; [lia|]. rewrite (getb_rd _ _ _ Hc). cbn [rbind good].
  destruct (negb (c =? 0) && (Z.land c NS_CMPRSFLGS =? 0) && (sp <? 16384)) eqn:E; [|by exists Exhausted]. zbool.
  destruct (match_loop_ok (S (length (encode ls) + length msg)) msg s sp q ls' ls) as (v & Hv & Hi & Hsame); [done|lia|done|done|unfold len in *; lia|].
  rewrite Hv. cbn [rbind good]. destruct v; [|clear Hsame|done].
  - exists (At sp). split; [done|]. split; [lia|]. exists q, ls'. split_and!; [|lia|by apply Hsame]. by apply (packed_later _ s); [lia|].
  - inversion Hp as [? ? H'|? ? ? l ? ? [Hl _] Hsl Hp'|? ? n ? ? ? Hn' Hfl]; subst;
      [congruence| |assert (n = c) as -> by congruence; by rewrite Hfl in *].
    apply slice_cons in Hsl as [Hc' _]; [|lia|apply len_nonneg]. rewrite Hc in Hc'. injection Hc' as ->.
    replace (sp + len l + 1) with (sp + 1 + len l) by lia. eapply IH; [done|lia|done|done|lia].
Qed.

(** The names that the array knows end before [e]. *)
Definition known (msg : bytes) (e : Z) (p : Z) : Prop := exists q ls, packed msg p p q ls /\ q <= e.

Lemma dn_find_ok msg e L ls :
  Forall (known msg e) L -> Forall label_ok ls -> ls <> [] ->
  exists r, dn_find (encode ls) msg (map Some L) = Some r /\ match r with Good o => points_to msg e ls o | Fail _ => True end.
Proof.
  intros HL Hls Hne. induction HL as [|p L (q & ls' & Hp & Hq) HL IH]; cbn [map dn_find]; [by eexists|].
  pose proof (packed_range _ _ _ _ _ Hp).
  destruct (walk_loop_ok (S (length msg)) msg p p q ls' ls) as (w & Hw & Hspec); [done|lia|done|done|lia|].
  rewrite Hw. cbn [rbind good]. destruct w as [o| |]; [|done|done]. exists (Good o). split; [done|].
  destruct Hspec as [Ho (q' & ls2 & Hp2 & Hq2 & Hs)]. split; [done|]. exists q', ls2. split_and!; [done|lia|done].
Qed.

(** ** Writing *)
Lemma write_spec buf i l :
  0 <= i -> i + len l <= len buf ->
  exists buf', write buf i l = Some buf' /\ len buf' = len buf /\ agree i buf buf' /\ slice buf' i (len l) = l /\ from buf' (i + len l) = from buf (i + len l).
Proof.
  intros Hi Hl. pose proof (len_nonneg l). unfold write. rewrite !(proj2 (Z.leb_le _ _)) by lia. cbn [andb]. eexists. split; [done|].
  unfold len, agree, slice, from in *. assert (length (take (Z.to_nat i) buf) = Z.to_nat i) as Ht by (rewrite length_take; lia). split_and!.
  - rewrite !length_app, Ht, length_drop. lia.
  - by rewrite take_app_le, take_take, Nat.min_id by lia.
  - rewrite drop_app_ge, Ht, Nat.sub_diag, drop_0 by lia. rewrite Nat2Z.id. by rewrite take_app_length.
  - rewrite drop_app_ge, Ht by lia. rewrite drop_app_ge by lia.
    by replace (Z.to_nat (i + Z.of_nat (length l)) - Z.to_nat i - length l)%nat with 0%nat by lia.
Qed.

Lemma target_of o : 0 <= o < 0x4000 ->
  let n := u8 (Z.lor (Z.shiftr o 8) NS_CMPRSFLGS) in
  target n (o mod 256) = o /\ Z.land n NS_CMPRSFLGS = NS_CMPRSFLGS.
Proof.
  intros Ho. rewrite Z.shiftr_div_pow2 by lia. change (2 ^ 8) with 256.
  pose proof (Z.div_mod o 256 ltac:(lia)). pose proof (Z.mod_pos_bound o 256 ltac:(lia)).
  assert (Hh : 0 <= o / 256 < 64) by lia. cbn zeta. set (h := o / 256) in *.
  assert (Hall : forallb (fun n => (Z.land (u8 (Z.lor (Z.of_nat n) NS_CMPRSFLGS)) 0x3f =? Z.of_nat n)
    && (Z.land (u8 (Z.lor (Z.of_nat n) NS_CMPRSFLGS)) NS_CMPRSFLGS =? NS_CMPRSFLGS)) (seq 0 64) = true) by (vm_compute; reflexivity).
  rewrite forallb_forall in Hall. specialize (Hall (Z.to_nat h)). rewrite Z2Nat.id in Hall by lia.
  specialize (Hall ltac:(apply in_seq; lia)). zbool. unfold target. rewrite H1. split; [|done].
  rewrite Z.shiftl_mul_pow2 by lia. rewrite <- Z.add_nocarry_lor; [lia|].
  apply Z.bits_inj'. intros i Hi. rewrite Z.land_spec, Z.bits_0. destruct (Z.lt_ge_cases i 8).
  - rewrite Z.mul_pow2_bits_low by lia. done.
  - rewrite (Z.bits_above_log2 (o mod 256)), andb_false_r; [done|lia|].
    destruct (Z.eq_dec (o mod 256) 0) as [->|]; [cbn; lia|]. assert (Z.log2 (o mod 256) < 8) by (apply Z.log2_lt_pow2; lia). lia.
Qed.

(** ** Packing *)
Section Packing.
Context (last : option Z) (dst eob : Z) (L : list Z).
#[local] Notation lpp := (length L).

(** The array while the name is written: [first] says that no cell was added. *)
Definition shape (first : bool) (cs : cells) (cpp : nat) : Prop :=
  if first then cpp = lpp /\ exists rest, cs = map Some L ++ None :: rest
  else exists p rest, cs = map Some L ++ Some p :: None :: rest.

Lemma shape_take first cs cpp : shape first cs cpp -> take lpp cs = map Some L.
Proof.
  destruct first; [intros [_ [rest ->]]|intros (p & rest & ->)];
    (rewrite take_app_le by (by rewrite length_map); by rewrite <- (length_map Some L), firstn_all).
Qed.

Lemma shape_cleanup first cs cpp buf : shape first cs cpp ->
  exists rest, cleanup true lpp buf cs = Some (Fail EMSGSIZE, buf, map Some L ++ None :: rest).
Proof.
  unfold cleanup, set_cell. destruct first; [intros [_ [rest ->]]|intros (p & rest & ->)];
    (rewrite (proj2 (Nat.ltb_lt _ _)) by (rewrite length_app, length_map; simpl; lia)); cbn [mbind option_bind];
    rewrite insert_app_r_alt, length_map, Nat.sub_diag by (by rewrite length_map); simpl; eauto.
Qed.

Lemma shape_save cs cpp p :
  shape true cs cpp -> (S cpp < length cs)%nat ->
  exists cs', (cs ← set_cell cs cpp (Some p); set_cell cs (S cpp) None) = Some cs' /\ length cs' = length cs /\
    exists rest, cs' = map Some L ++ Some p :: None :: rest.
Proof.
  intros [-> [rest ->]] Hlen. unfold set_cell. rewrite length_app, length_map in *. cbn [length] in *.
  rewrite (proj2 (Nat.ltb_lt _ _)) by lia. cbn [mbind option_bind].
  rewrite insert_app_r_alt, length_map, Nat.sub_diag by (rewrite length_map; lia). cbn [insert list_insert].
  rewrite (proj2 (Nat.ltb_lt _ _)) by (rewrite length_app, length_map; cbn [length]; lia).
  rewrite insert_app_r_alt, length_map by (rewrite length_map; lia). replace (S lpp - lpp)%nat with 1%nat by lia.
  destruct rest as [|c rest]; [cbn [length] in Hlen; lia|]. cbn. eexists. split_and!; [done| |eauto].
  rewrite !length_app, length_map. done.
Qed.

(** What the loop leaves when it writes the labels [ls] at [dstp]. *)
Definition pack_post (buf : bytes) (dstp : Z) (first : bool) (cs : cells) (ls : list bytes) (r : packed_result) : Prop :=
  let '(res, buf', cs') := r in
  len buf' = len buf /\ agree dstp buf buf' /\ from buf' eob = from buf eob /\
  match res with
  | Fail e => e = EMSGSIZE /\ eob - dstp <= len (encode ls) /\ exists rest, cs' = map Some L ++ None :: rest
  | Good n =>
      dst + n <= eob /\ dst + n <= dstp + len (encode ls) /\
      (exists ls', packed buf' dst dstp (dst + n) ls' /\ same_name ls' ls) /\
      if first then exists extra rest, cs' = map Some (L ++ extra) ++ None :: rest /\ Forall (known buf' (dst + n)) extra
      else cs' = cs
  end.

Lemma from_later (a b : bytes) i j : 0 <= i <= j -> from a i = from b i -> from a j = from b j.
Proof.
  unfold from. intros Hij H. replace (Z.to_nat j) with (Z.to_nat i + Z.to_nat (j - i))%nat by lia. by rewrite <- !drop_drop, H.
Qed.

Lemma take_encode_label l t : take (Z.to_nat (len l + 1)) (encode_label l ++ t) = encode_label l /\ from (encode_label l ++ t) (len l + 1) = t.
Proof.
  unfold from. replace (Z.to_nat (len l + 1)) with (length (encode_label l)) by (unfold len; cbn [encode_label length]; lia).
  by rewrite take_app_length, drop_app_length.
Qed.

Lemma copy_label_ok first cs cpp l t buf dstp again :
  label_ok l -> shape first cs cpp -> 0 <= dstp -> eob <= len buf ->
  let r := copy_label true dst eob lpp (len l) (encode_label l ++ t) buf dstp cs again in
  (eob <= dstp + 1 + len l /\ exists rest, r = Some (Fail EMSGSIZE, buf, map Some L ++ None :: rest)) \/
  (dstp + 1 + len l < eob /\ exists buf', r = again t buf' (dstp + 1 + len l) /\ len buf' = len buf /\ agree dstp buf buf'
     /\ slice buf' dstp (len l + 1) = encode_label l /\ from buf' eob = from buf eob).
Proof.
  intros Hl Hsh Hd He r. subst r. pose proof Hl as [Hll _]. unfold copy_label. rewrite (plain_length l Hl). cbn [Z.eqb NS_CMPRSFLGS].
  rewrite (labellen_label l (l ++ t) Hl : labellen (encode_label l ++ t) = good (len l)). cbn [good].
  destruct (Z.leb_spec eob (dstp + 1 + len l)) as [Ho|Ho]; [left; split; [done|by eapply shape_cleanup]|]. right. split; [done|].
  destruct (take_encode_label l t) as [-> ->]. rewrite (proj2 (Z.leb_le _ _)) by (rewrite len_app; unfold encode_label; rewrite len_cons; pose proof (len_nonneg t); lia).
  cbn [mbind option_bind]. assert (Hle : len (encode_label l) = len l + 1) by (unfold encode_label; rewrite len_cons; lia).
  destruct (write_spec buf dstp (encode_label l)) as (buf' & -> & Hlen & Hag & Hsl & Hfr); [lia..|]. cbn [mbind option_bind].
  rewrite (proj2 (Z.eqb_neq (len l) 0)) by lia. exists buf'. rewrite Hle in *. split_and!; try done.
  - f_equal. lia.
  - eapply from_later; [|exact Hfr]. lia.
Qed.

Lemma copy_root_ok first cs cpp buf dstp again :
  shape first cs cpp -> 0 <= dstp -> eob <= len buf ->
  let r := copy_label true dst eob lpp 0 (encode []) buf dstp cs again in
  (eob <= dstp + 1 /\ exists rest, r = Some (Fail EMSGSIZE, buf, map Some L ++ None :: rest)) \/
  (dstp + 1 < eob /\ exists buf', r = Some (Good (dstp + 1 - dst), buf', cs) /\ len buf' = len buf /\ agree dstp buf buf'
     /\ rd buf' dstp = Some 0 /\ from buf' eob = from buf eob).
Proof.
  intros Hsh Hd He r. subst r. unfold copy_label. change (Z.land 0 NS_CMPRSFLGS =? NS_CMPRSFLGS) with false.
  change (labellen (encode [])) with (good 0). cbn [good].
  replace (dstp + 1 + 0) with (dstp + 1) by lia.
  destruct (Z.leb_spec eob (dstp + 1)) as [Ho|Ho]; [left; split; [done|by eapply shape_cleanup]|]. right. split; [done|].
  cbn [mbind option_bind]. change (0 + 1 <=? len (encode [])) with true. change (take (Z.to_nat (0 + 1)) (encode [])) with [0]. cbn [mbind option_bind].
  destruct (write_spec buf dstp [0]) as (buf' & -> & Hlen & Hag & Hsl & Hfr); [lia|change (len [0]) with 1; lia|]. cbn [mbind option_bind].
  rewrite (proj2 (Z.ltb_ge eob _)) by lia. exists buf'. split_and!; try done.
  - apply (slice_cons buf' dstp 0 0 []) in Hsl as [? _]; [done..].
  - eapply from_later; [|exact Hfr]. change (len [0]) with 1. lia.
Qed.

(** A label in front of what the rest of the loop writes. *)
Lemma post_label buf buf1 dstp first cs l ls r :
  0 <= dstp -> label_ok l -> len buf1 = len buf -> agree dstp buf buf1 -> slice buf1 dstp (len l + 1) = encode_label l -> from buf1 eob = from buf eob ->
  pack_post buf1 (dstp + 1 + len l) first cs ls r -> pack_post buf dstp first cs (l :: ls) r.
Proof.
  intros Hd Hl Hlen Hag Hsl Hfr. destruct r as [[res buf'] cs']. intros (H1 & H2 & H3 & H4). pose proof Hl as [Hll _].
  assert (Henc : len (encode (l :: ls)) = len l + 1 + len (encode ls)) by (rewrite encode_cons; unfold encode_label; autorewrite with len; lia).
  split_and!; [lia|eapply agree_trans; [exact Hag|by eapply agree_le; [|exact H2]; lia]|congruence|].
  destruct res as [e|n]; [destruct H4 as (-> & ? & ?); split_and!; [done|lia|done]|].
  destruct H4 as (? & ? & (ls' & Hp & Hsame) & Hcs). split_and!; [lia|lia| |done]. exists (l :: ls'). split; [|by apply same_name_cons].
  constructor; [done|done| |done]. rewrite <- Hsl. symmetry. eapply agree_slice; [exact H2|lia..].
Qed.

Lemma post_saved buf dstp cs1 cs ls r rest :
  dst <= dstp -> cs1 = map Some L ++ Some dstp :: None :: rest ->
  pack_post buf dstp false cs1 ls r -> pack_post buf dstp true cs ls r.
Proof.
  intros Hd ->. destruct r as [[[e|n] buf'] cs']; intros (H1 & H2 & H3 & H4); (split; [done|]; split; [done|]; split; [done|]); [done|].
  destruct H4 as (? & ? & (ls' & Hp & Hsame) & ->). split_and!; [done|done|eauto|]. exists [dstp], rest. split.
  - by rewrite map_app, <- app_assoc.
  - constructor; [|constructor]. exists (dst + n), ls'. split; [by apply (packed_later _ dst)|done].
Qed.

Lemma post_kept buf dstp first cs ls buf' n rest :
  shape first cs rest -> len buf' = len buf -> agree dstp buf buf' -> from buf' eob = from buf eob ->
  dst + n <= eob -> dst + n <= dstp + len (encode ls) -> (exists ls', packed buf' dst dstp (dst + n) ls' /\ same_name ls' ls) ->
  pack_post buf dstp first cs ls (Good n, buf', cs).
Proof.
  intros Hsh. intros. split_and!; try done. destruct first; [|done]. destruct Hsh as [_ [rest' ->]]. exists [], rest'. by rewrite app_nil_r.
Qed.

Lemma encode_head (ls : list bytes) : encode ls !! 0%nat = Some (match ls with [] => 0 | l :: _ => len l end).
Proof. by destruct ls. Qed.

Lemma known_agree buf buf' e : agree e buf buf' -> len buf = len buf' -> Forall (known buf e) L -> Forall (known buf' e) L.
Proof.
  intros Ha Hl HF. apply (Forall_impl _ _ _ HF). intros p (q & ls & Hp & Hq). exists q, ls. split; [|done].
  by apply (packed_agree e buf).
Qed.

Lemma fail_post buf dstp first cs ls rest :
  eob - dstp <= len (encode ls) -> pack_post buf dstp first cs ls (Fail EMSGSIZE, buf, map Some L ++ None :: rest).
Proof. intros H. split_and!; [done..|]. eauto. Qed.

Lemma pack_loop_ok fuel ls buf dstp cs cpp first :
  Forall label_ok ls -> (length ls < fuel)%nat -> 0 <= dst <= dstp -> eob <= len buf -> Forall (known buf dst) L ->
  shape first cs cpp -> match last with Some k => k <= Z.of_nat (length cs) | None => True end ->
  exists r, pack_loop true last dst eob lpp fuel (encode ls) buf dstp cs cpp first = Some r /\ pack_post buf dstp first cs ls r.
Proof.
  revert ls buf dstp cs cpp first. induction fuel as [|fuel IH]; intros ls buf dstp cs cpp first Hls Hf Hd He HL Hsh Hlast; [lia|].
  cbn [pack_loop]. rewrite encode_head. cbn [mbind option_bind]. destruct ls as [|l ls].
  { cbn [Z.eqb negb andb]. edestruct (copy_root_ok first cs cpp buf dstp) as [[Ho [rest ->]]|(Ho & buf' & -> & ? & ? & ? & ?)]; [done|lia|done| |].
    - eexists. split; [done|]. apply fail_post. change (len (encode [])) with 1. lia.
    - eexists. split; [done|]. eapply post_kept; try done; [lia|change (len (encode [])) with 1; lia|].
      exists []. split; [|done]. replace (dst + (dstp + 1 - dst)) with (dstp + 1) by lia. by constructor. }
  apply Forall_cons in Hls as [Hl Hls]. pose proof Hl as [Hll _]. rewrite (proj2 (Z.eqb_neq (len l) 0)) by lia. cbn [negb andb].
  assert (Henc : len (encode (l :: ls)) = len l + 1 + len (encode ls)) by (rewrite encode_cons; unfold encode_label; autorewrite with len; lia).
  pose proof (len_nonneg (encode ls)).
  assert (Hcopy : forall first cs cpp, shape first cs cpp -> match last with Some k => k <= Z.of_nat (length cs) | None => True end ->
    exists r, copy_label true dst eob lpp (len l) (encode (l :: ls)) buf dstp cs
      (fun srcp buf dstp => pack_loop true last dst eob lpp fuel srcp buf dstp cs cpp first) = Some r /\ pack_post buf dstp first cs (l :: ls) r).
  { clear first cs cpp Hsh Hlast. intros first cs cpp Hsh Hlast. rewrite encode_cons.
    edestruct (copy_label_ok first cs cpp l (encode ls) buf dstp) as [[Ho [rest ->]]|(Ho & buf1 & -> & Hlen & Hag & Hsl & Hfr)]; [done|done|lia|done| |].
    - eexists. split; [done|]. apply fail_post. lia.
    - destruct (IH ls buf1 (dstp + 1 + len l) cs cpp first) as (r & -> & Hpost); [done|cbn in Hf; lia|lia|lia| |done|done|].
      { apply (known_agree buf); [by eapply agree_le; [|exact Hag]; lia|done|done]. }
      exists r. split; [done|]. by eapply post_label; [lia|..|exact Hpost]. }
  rewrite (shape_take _ _ _ Hsh). destruct (dn_find_ok buf dst L (l :: ls)) as ([e|o] & -> & Hfind); [done|by constructor|done| |].
  - destruct (match last with Some _ => _ | None => _ end) eqn:Ec; cbn [andb]; [|by apply Hcopy].
    destruct (dstp <? 16384); cbn [andb]; [|by apply Hcopy]. destruct first; [|by apply Hcopy].
    destruct last as [k|]; [|done]. zbool. destruct (shape_save cs cpp dstp Hsh) as (cs1 & Hset & Hlen & rest & Hcs1); [lia|].
    destruct (set_cell cs cpp (Some dstp)) as [cs0|]; [|done]. cbn [mbind option_bind] in Hset |- *. rewrite Hset. cbn [mbind option_bind].
    destruct (Hcopy false cs1 (S cpp)) as (r & -> & Hpost); [by exists dstp, rest|lia|].
    exists r. split; [done|]. by eapply post_saved; [lia|exact Hcs1|exact Hpost].
  - destruct Hfind as [Ho (q & ls' & Hp & Hq & Hsame)]. destruct (Z.leb_spec eob (dstp + 1)) as [Hfull|Hfull].
    { destruct (shape_cleanup _ _ _ buf Hsh) as [rest ->]. eexists. split; [done|]. apply fail_post. lia. }
    destruct (target_of o Ho) as [Ht Hfl]. set (n := u8 _) in *.
    destruct (write_spec buf dstp [n; o mod 256]) as (buf' & -> & Hlen & Hag & Hsl & Hfr); [lia|change (len [n; o mod 256]) with 2; lia|].
    change (len [n; o mod 256]) with 2 in *. cbn [mbind option_bind]. eexists. split; [done|].
    apply (slice_cons buf' dstp 1) in Hsl as [Hn Hsl]; [|lia..]. apply (slice_cons buf' (dstp + 1) 0) in Hsl as [Hb _]; [|lia..].
    eapply post_kept; try done; [eapply from_later; [|exact Hfr]; lia|lia|lia|].
    exists ls'. split; [|done]. replace (dst + (dstp + 2 - dst)) with (dstp + 2) by lia.
    eapply packed_pointer; [exact Hn|exact Hfl|exact Hb|pose proof (Z.mod_pos_bound o 256); lia| |exact Hq].
    rewrite Ht. apply (packed_agree dst buf); [by eapply agree_le; [|exact Hag]; lia|done|lia|done|done].
Qed.
End Packing.

Lemma encode_length_cons l ls : len (encode (l :: ls)) = len l + 1 + len (encode ls).
Proof. rewrite encode_cons. unfold encode_label. autorewrite with len. lia. Qed.

Lemma legal_loop_ok fuel ls acc :
  Forall label_ok ls -> (length ls < fuel)%nat -> acc + len (encode ls) <= NS_MAXCDNAME -> legal_loop fuel (encode ls) acc = good tt.
Proof.
  revert fuel acc. induction ls as [|l ls IH]; intros [|fuel] acc Hls Hf Hlen; try (simpl in Hf; lia).
  - change (len (encode [])) with 1 in Hlen. cbn [legal_loop]. change (peek (encode [])) with (good 0). change (labellen (encode [])) with (good 0).
    cbn [rbind good]. change (Z.land 0 NS_CMPRSFLGS =? NS_CMPRSFLGS) with false. change (0 <? 0) with false.
    by rewrite (proj2 (Z.ltb_ge NS_MAXCDNAME _)) by lia.
  - apply Forall_cons in Hls as [Hl Hls]. pose proof Hl as [Hll _]. rewrite encode_length_cons in Hlen. pose proof (len_nonneg (encode ls)).
    rewrite encode_cons. cbn [legal_loop]. change (peek (encode_label l ++ encode ls)) with (good (len l)). cbn [rbind good].
    rewrite (plain_length l Hl). cbn [Z.eqb NS_CMPRSFLGS].
    rewrite (labellen_label l (l ++ encode ls) Hl : labellen (encode_label l ++ encode ls) = good (len l)). cbn [rbind good].
    rewrite (proj2 (Z.ltb_ge (len l) 0)), (proj2 (Z.ltb_ge NS_MAXCDNAME _)), (proj2 (Z.eqb_neq (len l) 0)) by lia.
    rewrite (proj2 (take_encode_label l (encode ls))). apply IH; [done|simpl in Hf; lia|lia].
Qed.

(** A pointer is followed to an earlier name, so the limit on the octets that
    ns_name_unpack looks at is never reached. *)
Lemma unpack_packed fuel msg src s p q e ls out clen checked dstsiz :
  packed msg s p q ls -> 0 <= s <= p -> q <= e <= len msg -> checked <= len msg - e + (p - s) -> len out + len (encode ls) <= dstsiz ->
  (clen < 0 -> src <= p) -> (length ls + Z.to_nat s < fuel)%nat ->
  unpack_loop fuel msg src p out clen checked dstsiz = good ((if clen <? 0 then q - src else clen), out ++ encode ls).
Proof.
  revert s p q e ls out clen checked. induction fuel as [|fuel IH]; intros s p q e ls out clen checked Hp Hs He Hc Hd Hsrc Hf; [lia|].
  pose proof (packed_range _ _ _ _ _ Hp) as Hr. cbn [unpack_loop].
  destruct Hp as [s p H|s p q l ls Hp0 Hl Hsl H|s p n b q ls Hn Hfl Hb Hbb H Hq].
  - rewrite (getb_rd _ _ _ H). done.
  - pose proof Hl as [Hll _]. destruct (slice_cons _ _ _ _ _ Hp0 (len_nonneg l) Hsl) as [Hrd Hsl']. rewrite encode_length_cons in Hd.
    pose proof (packed_range _ _ _ _ _ H). assert (0 < len (encode ls)) by (unfold encode; autorewrite with len; pose proof (len_nonneg (concat (map encode_label ls))); lia).
    rewrite (getb_rd _ _ _ Hrd). cbn [rbind good]. rewrite (proj2 (Z.eqb_neq (len l) 0)), (plain_length l Hl) by lia. cbn [Z.eqb orb].
    replace (p + 1 - 1) with p by lia. rewrite (from_head _ _ _ Hrd), labellen_label by done. cbn [rbind good].
    rewrite (proj2 (Z.ltb_ge (len l) 0)), (proj2 (Z.leb_gt dstsiz _)), (proj2 (Z.leb_gt (len msg) _)) by lia. cbn [orb].
    rewrite Hsl'. rewrite (IH s (p + 1 + len l) q e ls); [|done|lia|lia|lia| |lia|cbn in Hf; lia].
    + rewrite encode_cons. unfold encode_label. by rewrite <- !app_assoc.
    + autorewrite with len. lia.
  - rewrite (getb_rd _ _ _ Hn). cbn [rbind good]. rewrite (proj2 (Z.eqb_neq n 0)) by (intros ->; done).
    rewrite Hfl. cbn [Z.eqb NS_CMPRSFLGS NS_TYPE_ELT Pos.eqb orb]. pose proof (rd_lt _ _ _ Hb). rewrite (proj2 (Z.leb_gt (len msg) (p + 1))) by lia.
    rewrite (getb_rd _ _ _ Hb). cbn [rbind good]. change 255 with (Z.ones 8). rewrite Z.land_ones, Z.mod_small by lia. fold (target n b).
    pose proof (packed_range _ _ _ _ _ H). rewrite (proj2 (Z.ltb_ge _ _)), (proj2 (Z.leb_gt _ _)) by lia. cbn [orb].
    rewrite (proj2 (Z.leb_gt (len msg) _)) by lia.
    rewrite (IH (target n b) (target n b) q s ls); [|done|lia|lia|lia|done| |lia].
    + destruct (Z.ltb_spec clen 0); [|by rewrite (proj2 (Z.ltb_ge _ _)) by lia].
      rewrite (proj2 (Z.ltb_ge (p + 1 - src + 1) 0)) by lia. unfold good. do 3 f_equal. lia.
    + destruct (Z.ltb_spec clen 0); lia.
Qed.

Lemma packed_labels msg s p q ls : packed msg s p q ls -> Forall label_ok ls.
Proof. induction 1; [constructor|by constructor|done]. Qed.

Lemma cells_end_map L rest : cells_end (map Some L ++ None :: rest) = Some (length L).
Proof. induction L as [|p L IH]; [done|]. cbn [map app cells_end]. by rewrite IH. Qed.

Lemma labels_fewer ls : (length ls < length (encode ls))%nat.
Proof.
  unfold encode. rewrite length_app. cbn [length]. induction ls as [|l ls IH]; cbn [map concat length encode_label app]; [lia|].
  rewrite length_app. cbn [length]. lia.
Qed.

(** Unpacking a name of the message, and its text. *)
Lemma unpack_known msg p q ls :
  packed msg p p q ls -> len (encode ls) <= NS_MAXCDNAME ->
  ns_name_unpack msg p NS_MAXCDNAME = good (q - p, encode ls) /\ ns_name_uncompress msg p NS_MAXDNAME = good (q - p, text ls ++ [0]).
Proof.
  intros Hp Hlen. pose proof (packed_range _ _ _ _ _ Hp) as Hr.
  assert (Hu : ns_name_unpack msg p NS_MAXCDNAME = good (q - p, encode ls)).
  { unfold ns_name_unpack. rewrite (proj2 (Z.ltb_ge _ _)), (proj2 (Z.leb_gt _ _)) by lia. cbn [orb].
    pose proof (labels_fewer ls). rewrite (unpack_packed _ msg p p p q (len msg) ls); [done|done|lia|lia|lia|done|lia|].
    unfold unpack_fuel, len in *. lia. }
  split; [done|]. unfold ns_name_uncompress. rewrite Hu. cbn [rbind good]. pose proof (packed_labels _ _ _ _ _ Hp).
  by rewrite ntop_text by (done || by apply text_bound).
Qed.

(** ** Packing the first name of a message *)
Lemma slice_split msg p a b : 0 <= p -> 0 <= a -> 0 <= b -> slice msg p (a + b) = slice msg p a ++ slice msg (p + a) b.
Proof.
  intros Hp Ha Hb. unfold slice, from. replace (Z.to_nat (p + a)) with (Z.to_nat p + Z.to_nat a)%nat by lia.
  rewrite <- drop_drop. replace (Z.to_nat (a + b)) with (Z.to_nat a + Z.to_nat b)%nat by lia.
  by rewrite take_take_drop.
Qed.

Lemma pack_loop_plain last dst eob fuel ls buf dstp cs cpp first :
  Forall label_ok ls -> (length ls < fuel)%nat -> 0 <= dstp -> eob <= len buf -> dstp + len (encode ls) < eob ->
  shape [] first cs cpp -> match last with Some k => k <= Z.of_nat (length cs) | None => True end ->
  exists buf' cs', pack_loop true last dst eob 0 fuel (encode ls) buf dstp cs cpp first = Some (Good (dstp + len (encode ls) - dst), buf', cs') /\
    len buf' = len buf /\ agree dstp buf buf' /\ slice buf' dstp (len (encode ls)) = encode ls /\ length cs' = length cs.
Proof.
  revert ls buf dstp cs cpp first. induction fuel as [|fuel IH]; intros ls buf dstp cs cpp first Hls Hf Hd He Hroom Hsh Hlast; [lia|].
  cbn [pack_loop]. rewrite encode_head. cbn [mbind option_bind]. destruct ls as [|l ls].
  { change (len (encode [])) with 1 in *. cbn [Z.eqb negb andb].
    edestruct (copy_root_ok dst eob [] first cs cpp buf dstp) as [[Ho _]|(_ & buf' & -> & Hlen & Hag & Hrd & _)]; [done|lia|done|lia|].
    exists buf', cs. split_and!; try done. pose proof (from_head _ _ _ Hrd) as Hfr. unfold slice. rewrite Hfr. done. }
  apply Forall_cons in Hls as [Hl Hls]. pose proof Hl as [Hll _]. rewrite (proj2 (Z.eqb_neq (len l) 0)) by lia. cbn [negb andb].
  rewrite encode_length_cons in *. pose proof (len_nonneg (encode ls)) as Hen.
  assert (Hcopy : forall first cs cpp, shape [] first cs cpp -> match last with Some k => k <= Z.of_nat (length cs) | None => True end ->
    exists buf' cs', copy_label true dst eob 0 (len l) (encode (l :: ls)) buf dstp cs
      (fun srcp buf dstp => pack_loop true last dst eob 0 fuel srcp buf dstp cs cpp first)
      = Some (Good (dstp + (len l + 1 + len (encode ls)) - dst), buf', cs') /\
      len buf' = len buf /\ agree dstp buf buf' /\ slice buf' dstp (len l + 1 + len (encode ls)) = encode (l :: ls) /\ length cs' = length cs).
  { clear first cs cpp Hsh Hlast. intros first cs cpp Hsh Hlast. rewrite encode_cons.
    edestruct (copy_label_ok dst eob [] first cs cpp l (encode ls) buf dstp) as [[Ho _]|(_ & buf1 & -> & Hlen & Hag & Hsl & _)]; [done|done|lia|done|lia|].
    destruct (IH ls buf1 (dstp + 1 + len l) cs cpp first) as (buf' & cs' & -> & Hlen' & Hag' & Hsl' & Hcs); [done|cbn in Hf; lia|lia|lia|lia|done|done|].
    exists buf', cs'. split_and!; [do 3 f_equal; f_equal; lia|lia|eapply agree_trans; [exact Hag|eapply agree_le; [|exact Hag']; lia]| |done].
    rewrite slice_split by lia. replace (dstp + (len l + 1)) with (dstp + 1 + len l) by lia. rewrite Hsl'. f_equal.
    rewrite <- Hsl. symmetry. eapply agree_slice; [exact Hag'|lia..]. }
  cbn [take dn_find fail]. destruct (_ && first) eqn:Ec; [|by apply Hcopy]. zbool. destruct first; [|done].
  destruct last as [k|]; [|done]. zbool. destruct (shape_save [] cs cpp dstp Hsh) as (cs1 & Hset & Hlen & rest & Hcs1); [lia|].
  destruct (set_cell cs cpp (Some dstp)) as [cs0|]; [|done]. cbn [mbind option_bind] in Hset |- *. rewrite Hset. cbn [mbind option_bind].
  destruct (Hcopy false cs1 (S cpp)) as (buf' & cs' & ? & ? & ? & ? & ?); [by exists dstp, rest|lia|].
  exists buf', cs'. split_and!; try done. lia.
Qed.

(** The first name of a message is written as it is. *)
Lemma dn_comp_first ls buf dst dstsiz junk last :
  Forall label_ok ls -> len (encode ls) <= NS_MAXCDNAME -> 0 <= dst -> len (encode ls) < dstsiz < 2 ^ 31 -> dst + dstsiz <= len buf ->
  match last with Some k => k <= Z.of_nat (length (None :: junk)) | None => True end ->
  exists buf' cs', dn_comp (text ls ++ [0]) buf dst dstsiz (Some (None :: junk)) last = Some (Good (len (encode ls)), buf', cs') /\
    len buf' = len buf /\ agree dst buf buf' /\ slice buf' dst (len (encode ls)) = encode ls /\ length cs' = S (length junk).
Proof.
  intros Hls Hlen Hd Hsz Hbuf Hlast. unfold dn_comp, ns_name_compress. rewrite pton_text by done. cbn [good].
  pose proof (len_nonneg (encode ls)). rewrite s32_u32, s32_id by (unfold is_s32; lia). unfold ns_name_pack. cbn [cells_end mbind option_bind].
  pose proof (labels_fewer ls). rewrite legal_loop_ok by (done || lia). cbn [good].
  destruct (pack_loop_plain last dst (dst + dstsiz) (S (length (encode ls))) ls buf dst (None :: junk) 0 true)
    as (buf' & cs' & -> & ? & ? & ? & ?); [done|lia|lia|done|lia|by split; [|exists junk]|done|].
  exists buf', cs'. split_and!; try done. do 3 f_equal. f_equal. lia.
Qed.

(** C9.  Compression round-trips: ns_name_compress of the text of a name, into a
    message whose known names end before the place of the new one, never fails
    but for want of room (the encoding needs one byte more than its length), and
    then leaves the list of known names as it was.  When it answers a size, which
    is at most that of the encoding, the message is unchanged before the name and
    after the buffer, ns_name_unpack and ns_name_uncompress read the same name
    back, up to the case of letters, over exactly that size, and the names in
    the list are known names of the new message. *)
Theorem compress_roundtrip ls buf dst dstsiz L rest last :
  Forall label_ok ls -> len (encode ls) <= NS_MAXCDNAME -> 0 <= dst -> 0 <= dstsiz < 2 ^ 31 -> dst + dstsiz <= len buf ->
  Forall (known buf dst) L ->
  match last with Some k => k <= Z.of_nat (length (map Some L ++ None :: rest)) | None => True end ->
  exists r buf' cs', ns_name_compress (text ls ++ [0]) buf dst dstsiz (Some (map Some L ++ None :: rest)) last = Some (r, buf', cs') /\
    len buf' = len buf /\ agree dst buf buf' /\ from buf' (dst + dstsiz) = from buf (dst + dstsiz) /\
    match r with
    | Fail e => e = EMSGSIZE /\ dstsiz <= len (encode ls) /\ exists rest', cs' = map Some L ++ None :: rest'
    | Good n =>
        n <= dstsiz /\ n <= len (encode ls) /\
        (exists ls', same_name ls' ls /\ ns_name_unpack buf' dst NS_MAXCDNAME = good (n, encode ls')
           /\ ns_name_uncompress buf' dst NS_MAXDNAME = good (n, text ls' ++ [0])) /\
        exists extra rest', cs' = map Some (L ++ extra) ++ None :: rest' /\ Forall (known buf' (dst + n)) (L ++ extra)
    end.
Proof.
  intros Hls Hlen Hd Hsz Hbuf HL Hlast. unfold ns_name_compress. rewrite pton_text by done. cbn [good].
  rewrite s32_id by (unfold is_s32; lia). unfold ns_name_pack. rewrite cells_end_map. cbn [mbind option_bind].
  pose proof (labels_fewer ls). rewrite legal_loop_ok by (done || lia). cbn [good].
  destruct (pack_loop_ok last dst (dst + dstsiz) L (S (length (encode ls))) ls buf dst (map Some L ++ None :: rest) (length L) true)
    as ([[r buf'] cs'] & -> & Hlen' & Hag & Hfr & Hr); [done|lia|lia|done|done|by split; [|exists rest]|done|].
  exists r, buf', cs'. split_and!; [done..|]. destruct r as [e|n]; [destruct Hr as (? & ? & ?); split_and!; [done|lia|done]|].
  destruct Hr as (Hn & Hn' & (ls' & Hp & Hsame) & extra & rest' & -> & Hex). split_and!; [lia|lia| |].
  - exists ls'. split; [done|]. rewrite <- (same_name_length _ _ Hsame) in Hlen.
    destruct (unpack_known buf' dst (dst + n) ls' Hp Hlen) as [-> ->]. by replace (dst + n - dst) with n by lia.
  - exists extra, rest'. split; [done|]. apply Forall_app. split; [|done]. pose proof (packed_range _ _ _ _ _ Hp).
    apply (known_agree _ buf buf' dst) in HL; [|done|done]. apply (Forall_impl _ _ _ HL). intros p (q & ls1 & ? & ?). exists q, ls1. split; [done|lia].
Qed.

(** The message with the name abc at 0, and room for eight more bytes. *)
Definition pack_buf : bytes := [3; 97; 98; 99; 0; 9; 9; 9; 9; 9; 9; 9; 9].

Lemma pack_buf_known : known pack_buf 5 0.
Proof.
  exists 5, [[97; 98; 99]]. split; [|lia]. apply (packed_label pack_buf 0 0 5 [97; 98; 99] []); [lia| |reflexivity|].
  - split; [vm_compute; done|]. repeat (constructor; [lia|]). constructor.
  - by apply (packed_root pack_buf 0 4).
Qed.

Lemma compress_roundtrip_witness :
  ns_name_compress (text [[100]; [65; 98; 99]] ++ [0]) pack_buf 5 8 (Some [Some 0; None; None]) (Some 3)
    = Some (Good 4, [3; 97; 98; 99; 0; 1; 100; 192; 0; 9; 9; 9; 9], [Some 0; Some 5; None]) /\
  exists ls', same_name ls' [[100]; [65; 98; 99]] /\
    ns_name_uncompress [3; 97; 98; 99; 0; 1; 100; 192; 0; 9; 9; 9; 9] 5 NS_MAXDNAME = good (4, text ls' ++ [0]).
Proof.
  assert (E : ns_name_compress (text [[100]; [65; 98; 99]] ++ [0]) pack_buf 5 8 (Some [Some 0; None; None]) (Some 3)
    = Some (Good 4, [3; 97; 98; 99; 0; 1; 100; 192; 0; 9; 9; 9; 9], [Some 0; Some 5; None])) by (vm_compute; reflexivity).
  split; [exact E|].
  destruct (compress_roundtrip [[100]; [65; 98; 99]] pack_buf 5 8 [0] [None] (Some 3)) as (r & buf' & cs' & E' & _ & _ & _ & Hr).
  - repeat (constructor; [split; [vm_compute; done|repeat (constructor; [lia|]); constructor]|]). constructor.
  - vm_compute. discriminate.
  - lia.
  - lia.
  - vm_compute. discriminate.
  - constructor; [exact pack_buf_known|constructor].
  - vm_compute. discriminate.
  - change (map Some [0] ++ [None; None]) with [Some 0; None; None] in E'. rewrite E in E'. injection E' as <- <- <-.
    destruct Hr as (_ & _ & (ls' & Hs & _ & Hu) & _). exists ls'. split; [exact Hs|exact Hu].
Defined.
