(* ===== verification/NsParse.v ===== *)
(** * Messages (libc/netbsd/nameser/ns_parse.c, ns_netint.c, resolv/res_comp.c)

    The message handle and its cursor: ns_initparse finds the four sections of a
    message, ns_parserr reads one record, moving the cursor of the handle; and
    answer_getTTL of resolv/res_cache.c, which uses them.  A pointer into the
    message is its offset, a null pointer [None]. *)
From S2P Require Import Prelude Buffer NsName NsUnpack.

(** ** Integers of the network (ns_netint.c) *)
Definition ns_get16 (msg : bytes) (p : Z) : io Z :=
  let! a := getb msg p in
  let! b := getb msg (p + 1) in
  good (Z.lor (Z.shiftl a 8) b).

Definition ns_get32 (msg : bytes) (p : Z) : io Z :=
  let! a := getb msg p in
  let! b := getb msg (p + 1) in
  let! c := getb msg (p + 2) in
  let! d := getb msg (p + 3) in
  good (Z.lor (Z.lor (Z.lor (Z.shiftl a 24) (Z.shiftl b 16)) (Z.shiftl c 8)) d).

Definition ns_put16 (src : Z) : bytes := [u8 (Z.shiftr src 8); u8 src].
Definition ns_put32 (src : Z) : bytes :=
  [u8 (Z.shiftr src 24); u8 (Z.shiftr src 16); u8 (Z.shiftr src 8); u8 src].

(** ** Names (res_comp.c) *)
Definition dn_expand (msg : bytes) (src dstsiz : Z) : io (Z * bytes) :=
  let! (n, dst) := ns_name_uncompress msg src dstsiz in
  let! c := peek dst in
  good (n, if (0 <? n) && (c =? ch_dot) then 0 :: tail dst else dst).

Definition dn_skipname (msg : bytes) (ptr : Z) : io Z :=
  let! p := ns_name_skip msg ptr in
  good (p - ptr).

(** ** The handle *)
Definition ns_s_qd : Z := 0.
Definition ns_s_an : Z := 1.
Definition ns_s_max : Z := 4.
Definition NS_INT16SZ : Z := 2.
Definition NS_INT32SZ : Z := 4.

Record ns_msg : Type := NsMsg {
  _msg : bytes; _id : Z; _flags : Z; _counts : list Z; _sections : list (option Z);
  _sect : Z; _rrnum : Z; _msg_ptr : option Z }.

Record ns_rr : Type := NsRr {
  name : bytes; type : Z; rr_class : Z; ttl : Z; rdlength : Z; rdata : option Z }.

Definition _ns_flagdata : list (Z * Z) :=
  [(0x8000, 15); (0x7800, 11); (0x0400, 10); (0x0200, 9); (0x0100, 8); (0x0080, 7); (0x0040, 6);
   (0x0020, 5); (0x0010, 4); (0x000f, 0); (0, 0); (0, 0); (0, 0); (0, 0); (0, 0); (0, 0)].

Definition ns_msg_getflag (handle : ns_msg) (flag : nat) : option Z :=
  '(mask, shift) ← _ns_flagdata !! flag; Some (Z.shiftr (Z.land (_flags handle) mask) shift).

(** ns_msg_count, and the pointer of a section. *)
Definition ns_msg_count (handle : ns_msg) (section : Z) : Z := nth (Z.to_nat section) (_counts handle) 0.
Definition section_ptr (handle : ns_msg) (section : Z) : option Z :=
  nth (Z.to_nat section) (_sections handle) None.

(** One round of the loop of ns_skiprr. *)
Definition skip_one (msg : bytes) (section ptr : Z) : io Z :=
  let! b := dn_skipname msg ptr in
  let ptr := ptr + (b + NS_INT16SZ + NS_INT16SZ) in
  if negb (section =? ns_s_qd) then
    if len msg <? ptr + NS_INT32SZ + NS_INT16SZ then fail EMSGSIZE
    else
      let ptr := ptr + NS_INT32SZ in
      let! n := ns_get16 msg ptr in
      good (ptr + NS_INT16SZ + n)
  else good ptr.

(** for (; count > 0; count--) *)
Fixpoint skip_rrs (msg : bytes) (section : Z) (count : nat) (ptr : Z) : io Z :=
  match count with
  | O => good ptr
  | S count => let! ptr := skip_one msg section ptr in skip_rrs msg section count ptr
  end.

Definition ns_skiprr (msg : bytes) (ptr section count : Z) : io Z :=
  let! p := skip_rrs msg section (Z.to_nat count) ptr in
  if len msg <? p then fail EMSGSIZE else good (p - ptr).

Definition setsection (handle : ns_msg) (sect : Z) : ns_msg :=
  let '(rrnum, ptr) := if sect =? ns_s_max then (-1, None) else (0, section_ptr handle sect) in
  NsMsg (_msg handle) (_id handle) (_flags handle) (_counts handle) (_sections handle) sect rrnum ptr.

(** if (msg + NS_INT16SZ > eom) RETERR(EMSGSIZE); NS_GET16(...) *)
Definition read16 (msg : bytes) (p : Z) : io Z :=
  if len msg <? p + NS_INT16SZ then fail EMSGSIZE else ns_get16 msg p.

Fixpoint read_counts (msg : bytes) (n : nat) (p : Z) : io (list Z * Z) :=
  match n with
  | O => good ([], p)
  | S n =>
      let! c := read16 msg p in
      let! (cs, p) := read_counts msg n (p + 2) in
      good (c :: cs, p)
  end.

(** The second loop of ns_initparse, from section [i] on. *)
Fixpoint find_sections (msg : bytes) (i : Z) (counts : list Z) (p : Z) : io (list (option Z) * Z) :=
  match counts with
  | [] => good ([], p)
  | c :: counts =>
      if c =? 0 then
        let! (ss, p) := find_sections msg (i + 1) counts p in
        good (None :: ss, p)
      else
        let! b := ns_skiprr msg p i c in
        let! (ss, q) := find_sections msg (i + 1) counts (p + b) in
        good (Some p :: ss, q)
  end.

Definition ns_initparse (msg : bytes) : io ns_msg :=
  let! id := read16 msg 0 in
  let! flags := read16 msg 2 in
  let! (counts, p) := read_counts msg (Z.to_nat ns_s_max) 4 in
  let! (sections, p) := find_sections msg 0 counts p in
  if negb (p =? len msg) then fail EMSGSIZE
  else good (setsection (NsMsg msg id flags counts sections 0 0 None) ns_s_max).

(** ns_parserr changes the handle also when it fails. *)
Definition set_cursor (handle : ns_msg) (rrnum : Z) (ptr : option Z) : ns_msg :=
  NsMsg (_msg handle) (_id handle) (_flags handle) (_counts handle) (_sections handle) (_sect handle) rrnum ptr.

Definition reply {A} (h : ns_msg) (m : io A) (k : A -> option (ns_msg * res ns_rr)) :
    option (ns_msg * res ns_rr) :=
  match m with
  | None => None
  | Some (Fail e) => Some (h, Fail e)
  | Some (Good a) => k a
  end.

(** From "Do the parse": [rrnum] and [p] are _rrnum and _msg_ptr. *)
Definition parse_here (handle : ns_msg) (section rrnum p : Z) : option (ns_msg * res ns_rr) :=
  let msg := _msg handle in
  let at_ p := set_cursor handle rrnum (Some p) in
  let finish (p : Z) (rr : ns_rr) :=
    let h := set_cursor handle (rrnum + 1) (Some p) in
    Some ((if ns_msg_count handle section <? rrnum + 1 then setsection h (section + 1) else h), Good rr) in
  reply (at_ p) (dn_expand msg p NS_MAXDNAME) (fun '(b, nm) =>
  let p := p + b in
  if len msg <? p + NS_INT16SZ + NS_INT16SZ then Some (at_ p, Fail EMSGSIZE)
  else
    reply (at_ p) (ns_get16 msg p) (fun ty =>
    reply (at_ p) (ns_get16 msg (p + 2)) (fun cl =>
    let p := p + 4 in
    if section =? ns_s_qd then finish p (NsRr nm ty cl 0 0 None)
    else if len msg <? p + NS_INT32SZ + NS_INT16SZ then Some (at_ p, Fail EMSGSIZE)
    else
      reply (at_ p) (ns_get32 msg p) (fun tl =>
      reply (at_ p) (ns_get16 msg (p + 4)) (fun rl =>
      let p := p + 6 in
      if len msg <? p + rl then Some (at_ p, Fail EMSGSIZE)
      else finish (p + rl) (NsRr nm ty cl tl rl (Some p))))))).

Definition ns_parserr (handle : ns_msg) (section rrnum : Z) : option (ns_msg * res ns_rr) :=
  if negb ((0 <=? section) && (section <? ns_s_max)) then Some (handle, Fail ENODEV)
  else
    let handle := if negb (section =? _sect handle) then setsection handle section else handle in
    let rrnum := if rrnum =? -1 then _rrnum handle else rrnum in
    if (rrnum <? 0) || (ns_msg_count handle section <=? rrnum) then Some (handle, Fail ENODEV)
    else
      let handle := if rrnum <? _rrnum handle then setsection handle section else handle in
      match _msg_ptr handle with
      | None => None
      | Some p =>
          if _rrnum handle <? rrnum then
            reply handle (ns_skiprr (_msg handle) p section (rrnum - _rrnum handle)) (fun b =>
            parse_here handle section rrnum (p + b))
          else parse_here handle section (_rrnum handle) p
      end.

(** ** The TTL of an answer (res_cache.c) *)
Fixpoint ttl_loop (k : nat) (n : Z) (handle : ns_msg) (result : Z) : option Z :=
  match k with
  | O => Some result
  | S k =>
      '(handle, r) ← ns_parserr handle ns_s_an n;
      let result :=
        match r with
        | Good rr => if (n =? 0) || (ttl rr <? result) then ttl rr else result
        | Fail _ => result
        end in
      ttl_loop k (n + 1) handle result
  end.

Definition answer_getTTL (ans : bytes) : option Z :=
  match ns_initparse ans with
  | None => None
  | Some (Fail _) => Some 0
  | Some (Good handle) => ttl_loop (Z.to_nat (ns_msg_count handle ns_s_an)) 0 handle 0
  end.

(** ** Printing an expanded name stays inside it *)
Inductive wire : bytes -> Prop :=
| wire_root : wire [0]
| wire_label n body rest :
    n <> 0 -> plain n -> labellen (n :: body ++ rest) = good (len body) -> body <> [] -> wire rest ->
    wire (n :: body ++ rest).

(** [m] fails or leaves the cursor at [rest]. *)
Definition leaves {A} (m : io (bytes * A)) (rest : bytes) : Prop :=
  (exists e, m = fail e) \/ exists a, m = good (rest, a).

Lemma leaves_good {A} (a : A) rest : leaves (good (rest, a)) rest.
Proof. right. by exists a. Qed.
Lemma leaves_fail {A} e rest : leaves (A := A) (fail e) rest.
Proof. left. by exists e. Qed.
#[export] Hint Resolve leaves_good leaves_fail : core.

Lemma ntop_chars_leaves body rest out dstsiz : leaves (ntop_chars (length body) (body ++ rest) out dstsiz) rest.
Proof.
  revert out. induction body as [|c body IH]; intros out; simpl; [auto|].
  repeat case_test; auto.
Qed.

Lemma bit_bytes_leaves body rest out : exists out', bit_bytes (length body) (body ++ rest) out = good (rest, out').
Proof. revert out. induction body as [|c body IH]; intros out; simpl; [by exists out|apply IH]. Qed.

Lemma split_bytes (n m : nat) (l : bytes) : length l = (n + m)%nat -> exists a b, l = a ++ b /\ length a = n /\ length b = m.
Proof.
  intros H. exists (take n l), (drop n l). rewrite take_drop, length_take, length_drop. split_and!; [done|lia|lia].
Qed.

Lemma decode_bitstring_leaves b0 data rest out dstsiz :
  0 <= b0 -> len data = ((if (b0 =? 0) then 256 else b0) + 7) / 8 ->
  leaves (decode_bitstring (b0 :: data ++ rest) out dstsiz) rest.
Proof.
  intros Hb0 Hlen. unfold decode_bitstring. cbn [next rbind good].
  set (blen := if b0 =? 0 then 256 else b0) in *.
  assert (0 < blen) by (subst blen; case_test; zbool; lia). case_test; [auto|].
  pose proof (Z.div_mod blen 8 ltac:(lia)). pose proof (Z.mod_pos_bound blen 8 ltac:(lia)).
  destruct (split_bytes (Z.to_nat (blen / 8)) (if 0 <? blen mod 8 then 1 else 0) data) as (a & b & -> & <- & Hb).
  { unfold len in Hlen. assert (0 <= blen / 8) by (apply Z.div_pos; lia).
    case_test; zbool; Z.to_euclidean_division_equations; lia. }
  rewrite <- app_assoc. destruct (bit_bytes_leaves a (b ++ rest) (out ++ [ch_backslash; ch_lbracket; ch_x])) as [out' ->].
  cbn [rbind good]. destruct (Z.ltb_spec 0 (blen mod 8)) as [Hp|Hp].
  - destruct b as [|c [|]]; try (simpl in Hb; lia). simpl app. destruct (Z.ltb_spec 4 (blen mod 8)); cbn [next rbind good]; auto.
  - destruct b; [|simpl in Hb; lia]. rewrite (proj2 (Z.ltb_ge 4 _)) by lia. simpl app. cbn [rbind good]. auto.
Qed.

Lemma ntop_labels_total src fuel out dstsiz :
  byte_list src -> wire src -> (length src < fuel)%nat -> ntop_labels fuel src out dstsiz <> None.
Proof.
  intros Hb Hw. revert fuel out. induction Hw as [|n body rest Hnz Hpl Hl Hne Hw IH]; intros fuel out Hf;
    (destruct fuel as [|fuel]; [simpl in Hf; lia|]); [done|].
  assert (Hrest : byte_list rest /\ byte_list body).
  { inversion Hb as [|? ? _ Hb']. apply Forall_app in Hb' as [??]. done. }
  assert (Hnext : forall A (m : io (bytes * A)) (k : bytes -> A -> io bytes),
    leaves m rest -> (forall a, k rest a <> None) -> (let! (cp, a) := m in k cp a) <> None).
  { intros A m k [[e ->]|[a ->]] Hk; [done|apply Hk]. }
  simpl in Hf. rewrite length_app in Hf.
  cbn [ntop_labels next rbind good]. rewrite (proj2 (Z.eqb_neq n 0)) by done.
  case_test; [done|]. rewrite Hl.
  destruct (if negb (len out =? 0) then _ else good out) as [[e|out1]|] eqn:Eo;
    [done| |repeat case_test_in Eo; done]. cbn [rbind good]. rewrite (proj2 (Z.ltb_ge (len body) 0)) by apply len_nonneg.
  case_test; [done|]. unfold len. rewrite Nat2Z.id.
  destruct Hpl as [Hp|Hp]; rewrite Hp; cbn [Z.eqb NS_TYPE_ELT Pos.eqb].
  - apply Hnext; [apply ntop_chars_leaves|]. intros a. apply IH; [apply Hrest|lia].
  - case_test; [done|]. apply Hnext; [|intros a; apply IH; [apply Hrest|lia]].
    destruct body as [|b0 data]; [done|]. zbool. subst n.
    unfold labellen in Hl. cbn -[len Z.div Z.add] in Hl. injection Hl as Hl. rewrite len_cons in Hl.
    simpl app. apply decode_bitstring_leaves; [|lia].
    destruct Hrest as [_ Hbb]. inversion Hbb. lia.
Qed.

Lemma labellen_head n a r1 r2 : labellen (n :: a :: r1) = labellen (n :: a :: r2).
Proof. done. Qed.

Lemma slice_head msg p l : 0 <= p -> 0 < l -> p + l <= len msg ->
  exists a body, slice msg p l = a :: body /\ rd msg p = Some a.
Proof.
  intros Hp Hl Hle. destruct (rd_in msg p) as [a Ha]; [lia|]. exists a. unfold slice. rewrite (from_head _ _ _ Ha).
  destruct (Z.to_nat l) eqn:E; [lia|]. simpl. eauto.
Qed.

Lemma slice_bytes msg p l : byte_list msg -> byte_list (slice msg p l).
Proof. intros. by apply Forall_take, Forall_drop. Qed.

Lemma expands_wire msg p out : byte_list msg -> expands msg p out -> wire out /\ byte_list out.
Proof.
  intros Hb. induction 1 as [p H|p n l out H Hnz Hpl Hl Hpos Hlt _ [IHw IHb]|p n b out H _ _ _ IH]; [|split|done].
  - split; [constructor|constructor; [lia|constructor]].
  - pose proof (rd_lt _ _ _ H).
    pose proof (len_slice msg (p + 1) l ltac:(lia) ltac:(lia) ltac:(lia)) as Hsl.
    destruct (slice_head msg (p + 1) l) as (a & body & E & Ha); [lia..|].
    constructor; [done|done| |by rewrite E|done].
    rewrite Hsl, <- Hl, (from_head _ _ _ H), (from_head _ _ _ Ha), E. simpl. apply labellen_head.
  - constructor; [exact (rd_byte _ _ _ Hb H)|]. apply Forall_app. split; [by apply slice_bytes|done].
Qed.

(** ** Facts about the functions that read names, for messages that do not end
    in the type byte of a bit-string label *)
Section Reads.
Context (msg : bytes) (Hb : byte_list msg).
Context (Hlast : forall p, p + 1 = len msg -> rd msg p <> Some DNS_LABELTYPE_BITSTRING).

Lemma ntop_total src dstsiz : byte_list src -> wire src -> exists r, ns_name_ntop src dstsiz = Some r.
Proof.
  intros Hs Hw. unfold ns_name_ntop. pose proof (ntop_labels_total src (S (length src)) [] dstsiz Hs Hw ltac:(lia)) as H.
  destruct (ntop_labels _ _ _ _) as [[e|out]|]; [by eexists| |done]. cbn [rbind good].
  repeat case_test; cbn [rbind good fail]; eauto; repeat case_test; eauto.
Qed.

Lemma ntop_nonempty src dstsiz n dst : ns_name_ntop src dstsiz = good (n, dst) -> dst <> [].
Proof.
  unfold ns_name_ntop. destruct (ntop_labels _ _ _ _) as [[e|out]|]; [done| |done]. cbn [rbind good].
  destruct (if len out =? 0 then _ else good out) as [[e|out1]|]; [done| |done]. cbn [rbind good].
  case_test; [done|]. intros [= _ <-]. by destruct out1.
Qed.

(** dn_expand answers; what it consumes is what ns_name_skip moves over. *)
Lemma expand_facts p dstsiz :
  exists r, dn_expand msg p dstsiz = Some r /\
    forall b nm, r = Good (b, nm) -> ns_name_skip msg p = good (p + b).
Proof using Hb Hlast.
  unfold dn_expand, ns_name_uncompress.
  destruct (unpack_facts msg p NS_MAXCDNAME Hb eq_refl Hlast) as [Hn Hg].
  destruct (ns_name_unpack msg p NS_MAXCDNAME) as [[e|[n tmp]]|] eqn:E; [by eexists| |done].
  destruct (Hg n tmp eq_refl) as (Hex & _). destruct (expands_wire _ _ _ Hb Hex) as [Hw Hbt].
  cbn [rbind good]. destruct (ntop_total tmp dstsiz Hbt Hw) as [r Hr]. rewrite Hr.
  destruct r as [e|[k dst]]; [by eexists|]. cbn [rbind good].
  apply ntop_nonempty in Hr. destruct dst as [|c dst]; [done|]. cbn [peek rbind good].
  eexists. split; [done|]. intros b nm [= <- _]. exact (skip_unpacked msg p NS_MAXCDNAME n tmp Hb eq_refl E).
Qed.

Lemma skip_total fuel p : 0 <= p -> (Z.to_nat (len msg - p) < fuel)%nat ->
  exists r, skip_loop fuel msg p = Some r /\ forall q, r = Good q -> p <= q.
Proof using Hb Hlast.
  revert p. induction fuel as [|fuel IH]; intros p Hp Hf; [lia|]. cbn [skip_loop].
  case_test; zbool; [|eexists; split; [done|intros q [= ->]; lia]].
  destruct (rd_in msg p) as [n Hn]; [lia|]. rewrite (getb_rd _ _ _ Hn). cbn [rbind good].
  destruct (Z.eqb_spec n 0) as [->|Hnz]; [eexists; split; [done|intros q [= <-]; lia]|].
  assert (Hgo : forall l, 0 < l -> exists r, skip_loop fuel msg (p + 1 + l) = Some r /\ forall q, r = Good q -> p <= q).
  { intros l Hl. destruct (IH (p + 1 + l)) as (r & Hr & Hq); [lia|lia|]. exists r. split; [done|].
    intros q Eq. specialize (Hq q Eq). lia. }
  replace (p + 1 - 1) with p by lia.
  destruct (labellen_cases msg p n Hb Hn Hnz) as [(Ef & El & Hpos)|[(-> & He & El)|[(-> & l & El & Hpos)|[(_ & Ef & El)|(Ef1 & Ef2)]]]].
  - rewrite Ef. by apply Hgo.
  - by destruct (Hlast p).
  - change (Z.land DNS_LABELTYPE_BITSTRING NS_CMPRSFLGS) with NS_TYPE_ELT. cbn [Z.eqb NS_TYPE_ELT Pos.eqb].
    rewrite El. cbn [rbind good]. rewrite (proj2 (Z.ltb_ge l 0)) by lia. by apply Hgo.
  - rewrite Ef. cbn [Z.eqb NS_TYPE_ELT Pos.eqb]. rewrite El. by eexists.
  - rewrite (proj2 (Z.eqb_neq _ 0)), (proj2 (Z.eqb_neq _ NS_TYPE_ELT)) by done.
    case_test; eexists; (split; [done|]); [intros q [= <-]; lia|done].
Qed.

Lemma name_skip_total p : 0 <= p -> exists r, ns_name_skip msg p = Some r /\ forall q, r = Good q -> p <= q <= len msg.
Proof using Hb Hlast.
  intros Hp. unfold ns_name_skip. destruct (skip_total (S (length msg)) p Hp ltac:(unfold len; lia)) as ([e|q] & -> & Hq);
    cbn [rbind good]; [by eexists|]. specialize (Hq q eq_refl).
  case_test; zbool; eexists; (split; [done|]); [done|]. intros q' [= <-]. lia.
Qed.

Lemma getb_in p : 0 <= p < len msg -> exists b, getb msg p = good b /\ 0 <= b < 256.
Proof using Hb.
  intros H. destruct (rd_in msg p H) as [b Hr]. exists b. split; [by apply getb_rd|]. by eapply rd_byte.
Qed.

Lemma get16_in p : 0 <= p -> p + 2 <= len msg -> exists n, ns_get16 msg p = good n /\ 0 <= n.
Proof using Hb.
  intros Hp Hl. unfold ns_get16. destruct (getb_in p) as (a & -> & Ha); [lia|].
  destruct (getb_in (p + 1)) as (b & -> & Hbb); [lia|]. cbn [rbind good]. eexists. split; [done|].
  apply Z.lor_nonneg. split; [apply Z.shiftl_nonneg|]; lia.
Qed.

Lemma get32_in p : 0 <= p -> p + 4 <= len msg -> exists n, ns_get32 msg p = good n /\ 0 <= n.
Proof using Hb.
  intros Hp Hl. unfold ns_get32. destruct (getb_in p) as (a & -> & Ha); [lia|].
  destruct (getb_in (p + 1)) as (b & -> & Hb1); [lia|]. destruct (getb_in (p + 2)) as (c & -> & Hc); [lia|].
  destruct (getb_in (p + 3)) as (d & -> & Hd); [lia|]. cbn [rbind good]. eexists. split; [done|].
  rewrite !Z.lor_nonneg, !Z.shiftl_nonneg. lia.
Qed.

(** A record that ns_skiprr moves over: its name, then its fields. *)
Lemma skip_one_total section p : 0 <= p ->
  exists r, skip_one msg section p = Some r /\
    forall q, r = Good q -> exists p1, ns_name_skip msg p = good p1 /\ p <= p1 /\
      if section =? ns_s_qd then q = p1 + 4
      else p1 + 10 <= len msg /\ exists n, ns_get16 msg (p1 + 8) = good n /\ 0 <= n /\ q = p1 + 10 + n.
Proof using Hb Hlast.
  intros Hp. unfold skip_one, dn_skipname.
  destruct (name_skip_total p Hp) as ([e|p1] & -> & Hq); cbn [rbind good]; [by eexists|].
  specialize (Hq p1 eq_refl). replace (p + (p1 - p + NS_INT16SZ + NS_INT16SZ)) with (p1 + 4) by (unfold NS_INT16SZ; lia).
  destruct (section =? ns_s_qd); cbn [negb].
  - eexists. split; [done|]. intros q [= <-]. exists p1. split_and!; [done|lia|done].
  - case_test; [by eexists|]. zbool. unfold NS_INT16SZ, NS_INT32SZ in *.
    replace (p1 + 4 + 4) with (p1 + 8) by lia. destruct (get16_in (p1 + 8)) as (n & En & Hn); [lia..|]. rewrite En.
    cbn [rbind good]. eexists. split; [done|]. intros q [= <-]. exists p1. split_and!; [done|lia|lia|].
    exists n. split_and!; [done|done|lia].
Qed.

Lemma skip_one_ge section p q : 0 <= p -> skip_one msg section p = good q -> p <= q.
Proof using Hb Hlast.
  intros Hp H. destruct (skip_one_total section p Hp) as (r & E & Hq). rewrite H in E. injection E as <-.
  destruct (Hq q eq_refl) as (p1 & _ & H1 & H2). case_test_in H2; [lia|]. destruct H2 as (_ & n & _ & Hn & ->). lia.
Qed.

Lemma skip_rrs_total section k p : 0 <= p ->
  exists r, skip_rrs msg section k p = Some r /\ forall q, r = Good q -> p <= q.
Proof using Hb Hlast.
  revert p. induction k as [|k IH]; intros p Hp; simpl; [eexists; split; [done|]; intros q [= ->]; lia|].
  destruct (skip_one_total section p Hp) as ([e|q] & E & _); rewrite E; cbn [rbind good]; [by eexists|].
  pose proof (skip_one_ge section p q Hp E). destruct (IH q) as (r & -> & Hr); [lia|]. eexists. split; [done|].
  intros q' Eq. specialize (Hr q' Eq). lia.
Qed.

Lemma skip_rrs_add section a b p :
  skip_rrs msg section (a + b) p = (let! q := skip_rrs msg section a p in skip_rrs msg section b q).
Proof.
  revert p. induction a as [|a IH]; intros p; simpl; [done|].
  destruct (skip_one msg section p) as [[e|q]|]; [done| |done]. cbn [rbind good]. apply IH.
Qed.

(** The records before the last one of a section. *)
Lemma skip_rrs_prefix section c start q n :
  0 <= start -> skip_rrs msg section c start = good q -> q <= len msg -> (n < c)%nat ->
  exists p p', skip_rrs msg section n start = good p /\ skip_one msg section p = good p' /\
    skip_rrs msg section (S n) start = good p' /\ 0 <= p <= p' /\ p' <= len msg.
Proof using Hb Hlast.
  intros Hs H Hq Hn. replace c with (n + S (c - S n))%nat in H by lia. rewrite skip_rrs_add in H.
  destruct (skip_rrs_total section n start Hs) as ([e|p] & E & Hp); rewrite E in H; [done|]. specialize (Hp p eq_refl).
  cbn [rbind good skip_rrs] in H. destruct (skip_one msg section p) as [[e|p']|] eqn:E1; [done| |done]. cbn [rbind good] in H.
  pose proof (skip_one_ge section p p' ltac:(lia) E1).
  destruct (skip_rrs_total section (c - S n) p' ltac:(lia)) as (r & E2 & Hr). rewrite H in E2. injection E2 as <-.
  specialize (Hr q eq_refl). exists p, p'. split_and!; [done|done| |lia|lia|lia].
  replace (S n) with (n + 1)%nat by lia. rewrite skip_rrs_add, E. cbn [rbind good skip_rrs]. by rewrite E1.
Qed.
End Reads.

(** ** Records, read without a cursor *)
Definition rr_at (msg : bytes) (section p : Z) : io ns_rr :=
  let! (b, nm) := dn_expand msg p NS_MAXDNAME in
  let! ty := ns_get16 msg (p + b) in
  let! cl := ns_get16 msg (p + b + 2) in
  if section =? ns_s_qd then good (NsRr nm ty cl 0 0 None)
  else
    let! tl := ns_get32 msg (p + b + 4) in
    let! rl := ns_get16 msg (p + b + 8) in
    good (NsRr nm ty cl tl rl (Some (p + b + 10))).

(** Record [n] of a section, found from the start of the section. *)
Definition record_at (h : ns_msg) (section n : Z) : io ns_rr :=
  match section_ptr h section with
  | None => fail ENODEV
  | Some start =>
      let! p := skip_rrs (_msg h) section (Z.to_nat n) start in
      rr_at (_msg h) section p
  end.

(** Only the cursor differs. *)
Definition same_message (h h' : ns_msg) : Prop :=
  _msg h' = _msg h /\ _id h' = _id h /\ _flags h' = _flags h /\ _counts h' = _counts h /\ _sections h' = _sections h.

Lemma same_message_refl h : same_message h h.
Proof. done. Qed.
Lemma same_message_trans h1 h2 h3 : same_message h1 h2 -> same_message h2 h3 -> same_message h1 h3.
Proof. unfold same_message. intros (?&?&?&?&?) (?&?&?&?&?). split_and!; congruence. Qed.
#[export] Instance same_message_preorder : PreOrder same_message.
Proof. split; [exact same_message_refl|exact same_message_trans]. Qed.

Lemma record_at_same h h' section n : same_message h h' -> record_at h' section n = record_at h section n.
Proof. unfold record_at, section_ptr. by intros (-> & _ & _ & _ & ->). Qed.

Section Handle.
Context (msg : bytes) (Hb : byte_list msg).
Context (Hlast : forall p, p + 1 = len msg -> rd msg p <> Some DNS_LABELTYPE_BITSTRING).

(** The sections that ns_initparse found. *)
Definition section_ok (h : ns_msg) (s : Z) : Prop :=
  0 <= ns_msg_count h s /\
  (0 < ns_msg_count h s -> exists start q, section_ptr h s = Some start /\ 0 <= start /\
     skip_rrs msg s (Z.to_nat (ns_msg_count h s)) start = good q /\ q <= len msg).
Definition handle_ok (h : ns_msg) : Prop := _msg h = msg /\ forall s, 0 <= s < ns_s_max -> section_ok h s.

(** The cursor is before record _rrnum of its section. *)
Definition cursor_ok (h : ns_msg) : Prop :=
  _sect h = ns_s_max \/
  (0 <= _sect h < ns_s_max /\ 0 <= _rrnum h <= ns_msg_count h (_sect h) /\
   (0 < ns_msg_count h (_sect h) -> exists start p, section_ptr h (_sect h) = Some start /\
      skip_rrs msg (_sect h) (Z.to_nat (_rrnum h)) start = good p /\ _msg_ptr h = Some p)).

Lemma handle_ok_same h h' : same_message h h' -> handle_ok h -> handle_ok h'.
Proof.
  intros (E1 & _ & _ & E2 & E3) [Hm Hs]. split; [congruence|]. intros s Hr. specialize (Hs s Hr).
  unfold section_ok, ns_msg_count, section_ptr in *. by rewrite E2, E3.
Qed.

Lemma setsection_cursor h s : 0 <= s < ns_s_max -> handle_ok h ->
  cursor_ok (setsection h s) /\ _sect (setsection h s) = s /\ _rrnum (setsection h s) = 0 /\ same_message h (setsection h s).
Proof.
  intros Hs [_ Hok]. unfold setsection. rewrite (proj2 (Z.eqb_neq s ns_s_max)) by lia. simpl. split_and!; try done.
  right. simpl. destruct (Hok s Hs) as [Hc Hsec]. split_and!; [lia|lia|lia|exact Hc|]. intros Hpos.
  destruct (Hsec Hpos) as (start & q & E & Hst & _). exists start, start. unfold section_ptr in *. simpl. done.
Qed.

(** Reading the record at the cursor. *)
Lemma parse_here_facts h s n p p' :
  _msg h = msg -> n < ns_msg_count h s -> 0 <= p -> skip_one msg s p = good p' -> p' <= len msg ->
  exists r, rr_at msg s p = Some r /\
    parse_here h s n p = Some (match r with Fail _ => set_cursor h n (Some p) | Good _ => set_cursor h (n + 1) (Some p') end, r) /\
    forall rr d, r = Good rr -> rdata rr = Some d -> 0 <= d /\ d + rdlength rr <= len msg.
Proof using Hb Hlast.
  intros Hm Hn Hp Hone Hle. unfold parse_here, rr_at. rewrite Hm.
  destruct (expand_facts msg Hb Hlast p NS_MAXDNAME) as ([e|[b nm]] & -> & Hexp); cbn [rbind reply good]; [by eexists|].
  specialize (Hexp b nm eq_refl). destruct (skip_one_total msg Hb Hlast s p Hp) as (r & E & Hq).
  rewrite Hone in E. injection E as <-. destruct (Hq p' eq_refl) as (p1 & Hsk & Hge & Hcase).
  rewrite Hexp in Hsk. injection Hsk as <-. unfold NS_INT16SZ, NS_INT32SZ.
  assert (p + b + 4 <= len msg) by (case_test_in Hcase; [lia|destruct Hcase; lia]).
  rewrite (proj2 (Z.ltb_ge (len msg) _)) by lia.
  destruct (get16_in msg Hb (p + b)) as (ty & -> & _); [lia..|]. destruct (get16_in msg Hb (p + b + 2)) as (cl & -> & _); [lia..|].
  cbn [rbind reply good]. rewrite (proj2 (Z.ltb_ge _ (n + 1))) by lia.
  destruct (s =? ns_s_qd).
  - subst p'. eexists. split; [done|]. split; [done|]. by intros rr d [= <-].
  - destruct Hcase as (Hle2 & rl & Hrl & Hnn & ->).
    rewrite (proj2 (Z.ltb_ge (len msg) _)) by lia.
    destruct (get32_in msg Hb (p + b + 4)) as (tl & -> & _); [lia..|].
    replace (p + b + 4 + 4) with (p + b + 8) by lia. rewrite Hrl. cbn [rbind reply good].
    replace (p + b + 4 + 6) with (p + b + 10) by lia. rewrite (proj2 (Z.ltb_ge (len msg) _)) by lia.
    eexists. split; [done|]. split; [done|]. intros rr d [= <-] [= <-]. simpl. lia.
Qed.

(** The number of the record that a call asks for: -1 is the next record. *)
Definition wanted (h : ns_msg) (section rrnum : Z) : Z :=
  if rrnum =? -1 then if section =? _sect h then _rrnum h else 0 else rrnum.

Definition in_range (h : ns_msg) (section n : Z) : Prop :=
  0 <= section < ns_s_max /\ 0 <= n < ns_msg_count h section.

(** The cursor is in the section and not after record [n]. *)
Definition positioned (h : ns_msg) (section n : Z) : Prop :=
  cursor_ok h /\ _sect h = section /\ _rrnum h <= n.

Lemma parse_positioned h section n :
  handle_ok h -> in_range h section n -> positioned h section n ->
  exists h' r,
    (match _msg_ptr h with
     | None => None
     | Some p =>
         if _rrnum h <? n then
           reply h (ns_skiprr (_msg h) p section (n - _rrnum h)) (fun b => parse_here h section n (p + b))
         else parse_here h section (_rrnum h) p
     end) = Some (h', r) /\ record_at h section n = Some r /\ same_message h h' /\ cursor_ok h' /\
    forall rr d, r = Good rr -> rdata rr = Some d -> 0 <= d /\ d + rdlength rr <= len msg.
Proof using Hb Hlast.
  intros [Hm Hok] [Hs Hn] (Hc & Esec & Hle). destruct (Hok section Hs) as [_ Hsec].
  destruct Hsec as (start & q & Est & Hstart & Hq & Hql); [lia|].
  destruct Hc as [Hc|(_ & Hr & Hptr)]; [rewrite Esec in Hc; lia|]. rewrite Esec in *.
  destruct Hptr as (start' & p0 & Est' & Hp0 & ->); [lia|]. rewrite Est in Est'. injection Est' as <-.
  destruct (skip_rrs_prefix msg Hb Hlast section _ start q (Z.to_nat n) Hstart Hq Hql ltac:(lia))
    as (p & p' & Hp & Hone & HS & Hpp & Hp'l).
  destruct (parse_here_facts h section n p p' Hm ltac:(lia) ltac:(lia) Hone Hp'l) as (r & Hr1 & Hr2 & Hr3).
  assert (Hcur : forall k x, 0 <= k <= ns_msg_count h section -> skip_rrs msg section (Z.to_nat k) start = good x ->
    cursor_ok (set_cursor h k (Some x))).
  { intros k x Hk Hx. right. change (_sect (set_cursor h k (Some x))) with (_sect h). rewrite Esec.
    split; [lia|]. split; [exact Hk|]. intros _. exists start, x. split_and!; [exact Est|done|done]. }
  exists (match r with Fail _ => set_cursor h n (Some p) | Good _ => set_cursor h (n + 1) (Some p') end), r.
  split.
  - case_test; zbool.
    + rewrite Hm. unfold ns_skiprr. replace (Z.to_nat n) with (Z.to_nat (_rrnum h) + Z.to_nat (n - _rrnum h))%nat in Hp by lia.
      rewrite skip_rrs_add, Hp0 in Hp. cbn [rbind good] in Hp. rewrite Hp. cbn [rbind good].
      rewrite (proj2 (Z.ltb_ge (len msg) p)) by lia. cbn [reply good]. replace (p0 + (p - p0)) with p by lia. exact Hr2.
    + replace (_rrnum h) with n in * by lia. rewrite Hp in Hp0. injection Hp0 as <-. exact Hr2.
  - split; [unfold record_at; rewrite Est, Hm, Hp; exact Hr1|]. split; [by destruct r|]. split; [|exact Hr3].
    destruct r; apply Hcur; [lia|exact Hp|lia|]. by replace (Z.to_nat (n + 1)) with (S (Z.to_nat n)) by lia.
Qed.

Lemma parserr_facts h section rrnum :
  handle_ok h -> cursor_ok h ->
  exists h' r, ns_parserr h section rrnum = Some (h', r) /\ same_message h h' /\ cursor_ok h' /\
    (in_range h section (wanted h section rrnum) -> record_at h section (wanted h section rrnum) = Some r) /\
    (~ in_range h section (wanted h section rrnum) -> r = Fail ENODEV) /\
    forall rr d, r = Good rr -> rdata rr = Some d -> 0 <= d /\ d + rdlength rr <= len msg.
Proof using Hb Hlast.
  intros Hok Hc. unfold ns_parserr.
  destruct ((0 <=? section) && (section <? ns_s_max)) eqn:Es; cbn [negb]; zbool.
  2:{ exists h, (Fail ENODEV). unfold in_range. split_and!; [done|done|done|lia|done|done]. }
  set (h1 := if negb (section =? _sect h) then setsection h section else h).
  assert (Hh1 : cursor_ok h1 /\ _sect h1 = section /\ same_message h h1 /\
               _rrnum h1 = if section =? _sect h then _rrnum h else 0).
  { subst h1. destruct (Z.eqb_spec section (_sect h)); cbn [negb]; [by split_and!|].
    destruct (setsection_cursor h section ltac:(lia) Hok) as (? & ? & ? & ?). by split_and!. }
  destruct Hh1 as (Hc1 & Es1 & Hsm & Ern).
  assert (Ew : (if rrnum =? -1 then _rrnum h1 else rrnum) = wanted h section rrnum) by (unfold wanted; by rewrite Ern).
  rewrite Ew. set (n := wanted h section rrnum) in *. pose proof (handle_ok_same _ _ Hsm Hok) as Hok1.
  assert (Ecount : ns_msg_count h1 section = ns_msg_count h section) by (unfold ns_msg_count; by rewrite (proj1 (proj2 (proj2 (proj2 Hsm))))).
  rewrite Ecount.
  destruct ((n <? 0) || (ns_msg_count h section <=? n)) eqn:En; zbool.
  { exists h1, (Fail ENODEV). unfold in_range. split_and!; [done|done|done|lia|done|done]. }
  set (h2 := if n <? _rrnum h1 then setsection h1 section else h1).
  assert (Hh2 : positioned h2 section n /\ same_message h1 h2).
  { subst h2. unfold positioned. destruct (Z.ltb_spec n (_rrnum h1)); [|split_and!; [done|done|lia|done..]].
    destruct (setsection_cursor h1 section ltac:(lia) Hok1) as (? & ? & Er & ?). rewrite Er. split_and!; [done|done|lia|done..]. }
  destruct Hh2 as [Hpos Hsm2]. pose proof (same_message_trans _ _ _ Hsm Hsm2) as Hsm3.
  destruct (parse_positioned h2 section n) as (h' & r & -> & Hrec & Hsm4 & Hc' & Hrd);
    [by eapply handle_ok_same| |done|].
  { split; [lia|]. unfold ns_msg_count in *. rewrite (proj1 (proj2 (proj2 (proj2 Hsm3)))). lia. }
  exists h', r. split_and!; [done|by etransitivity|done| | |done].
  - intros _. by rewrite <- (record_at_same h h2).
  - intros Hn. destruct Hn. split; lia.
Qed.

(** ** ns_initparse *)
Lemma read16_total p : 0 <= p -> exists r, read16 msg p = Some r /\ forall n, r = Good n -> 0 <= n /\ ns_get16 msg p = good n.
Proof using Hb.
  intros Hp. unfold read16. case_test; zbool; [by eexists|]. unfold NS_INT16SZ in *.
  destruct (get16_in msg Hb p) as (n & -> & Hn); [lia..|]. eexists. split; [done|]. by intros ? [= <-].
Qed.

Lemma read_counts_total k p : 0 <= p ->
  exists r, read_counts msg k p = Some r /\
    forall cs q, r = Good (cs, q) -> q = p + 2 * Z.of_nat k /\ length cs = k /\ Forall (Z.le 0) cs.
Proof using Hb.
  revert p. induction k as [|k IH]; intros p Hp; simpl.
  { eexists. split; [done|]. intros cs q [= <- <-]. split_and!; [lia|done|constructor]. }
  destruct (read16_total p Hp) as ([e|c] & -> & Hc); cbn [rbind good]; [by eexists|].
  destruct (IH (p + 2)) as ([e|[cs q]] & -> & Hr); [lia|by eexists|]. cbn [rbind good].
  destruct (Hr cs q eq_refl) as (-> & Hl & Hf). eexists. split; [done|]. intros ? ? [= <- <-].
  split_and!; [lia|simpl; lia|constructor; [by apply Hc|done]].
Qed.

Lemma find_sections_total counts i p :
  0 <= p -> Forall (Z.le 0) counts ->
  exists r, find_sections msg i counts p = Some r /\
    forall ss q, r = Good (ss, q) -> p <= q /\ length ss = length counts /\
      forall j c, counts !! j = Some c -> 0 < c -> exists start q', ss !! j = Some (Some start) /\ 0 <= start /\
        skip_rrs msg (i + Z.of_nat j) (Z.to_nat c) start = good q' /\ q' <= len msg.
Proof using Hb Hlast.
  revert i p. induction counts as [|c counts IH]; intros i p Hp Hf; simpl.
  { eexists. split; [done|]. intros ss q [= <- <-]. split_and!; [lia|done|done]. }
  inversion Hf as [|? ? Hc Hf']; subst.
  assert (Htail : forall o ss q p', p <= p' -> find_sections msg (i + 1) counts p' = good (ss, q) ->
    (0 < c -> exists start q', o = Some start /\ 0 <= start /\ skip_rrs msg i (Z.to_nat c) start = good q' /\ q' <= len msg) ->
    exists r, Some (Good (o :: ss, q)) = Some r /\
      forall ss' q'', r = Good (ss', q'') -> p <= q'' /\ length ss' = S (length counts) /\
        forall j c', (c :: counts) !! j = Some c' -> 0 < c' -> exists start q', ss' !! j = Some (Some start) /\ 0 <= start /\
          skip_rrs msg (i + Z.of_nat j) (Z.to_nat c') start = good q' /\ q' <= len msg).
  { intros o ss q p' Hpp E Ho. destruct (IH (i + 1) p' ltac:(lia) Hf') as (r & Er & Hr). rewrite E in Er. injection Er as <-.
    destruct (Hr ss q eq_refl) as (Hq & Hl & Hj). eexists. split; [done|]. intros ss' q'' [= <- <-].
    split_and!; [lia|simpl; lia|]. intros [|j] c' Hc' Hpos'; simpl in Hc'.
    - injection Hc' as <-. destruct (Ho Hpos') as (start & q' & -> & ?). exists start, q'. by rewrite Z.add_0_r.
    - destruct (Hj j c' Hc' Hpos') as (start & q' & ?). exists start, q'. by replace (i + Z.of_nat (S j)) with (i + 1 + Z.of_nat j) by lia. }
  destruct (Z.eqb_spec c 0) as [->|Hnz].
  - destruct (IH (i + 1) p Hp Hf') as ([e|[ss q]] & E & _); rewrite E; cbn [rbind good]; [by eexists|].
    apply (Htail None ss q p); [lia|done|lia].
  - unfold ns_skiprr. destruct (skip_rrs_total msg Hb Hlast i (Z.to_nat c) p Hp) as ([e|q1] & E1 & H1); rewrite E1; cbn [rbind good]; [by eexists|].
    specialize (H1 q1 eq_refl). case_test; zbool; [by eexists|]. cbn [rbind good].
    destruct (IH (i + 1) (p + (q1 - p)) ltac:(lia) Hf') as ([e|[ss q]] & E2 & _); rewrite E2; cbn [rbind good]; [by eexists|].
    apply (Htail (Some p) ss q (p + (q1 - p))); [lia|done|]. intros _. by exists p, q1.
Qed.

Lemma initparse_facts :
  exists r, ns_initparse msg = Some r /\ forall h, r = Good h -> handle_ok h /\ cursor_ok h.
Proof using Hb Hlast.
  unfold ns_initparse.
  destruct (read16_total 0) as ([e|id] & -> & _); [lia|by eexists|]. cbn [rbind good].
  destruct (read16_total 2) as ([e|flags] & -> & _); [lia|by eexists|]. cbn [rbind good].
  destruct (read_counts_total (Z.to_nat ns_s_max) 4) as ([e|[cs p]] & -> & Hcs); [lia|by eexists|]. cbn [rbind good].
  destruct (Hcs cs p eq_refl) as (-> & Hl & Hf).
  destruct (find_sections_total cs 0 (4 + 2 * Z.of_nat (Z.to_nat ns_s_max)) ltac:(lia) Hf) as ([e|[ss q]] & -> & Hss); [by eexists|].
  cbn [rbind good]. destruct (Hss ss q eq_refl) as (_ & Hls & Hj). case_test; [by eexists|].
  eexists. split; [done|]. intros h [= <-]. split; [|by left]. split; [done|]. intros s Hs.
  unfold section_ok, ns_msg_count, section_ptr. simpl.
  destruct (cs !! Z.to_nat s) as [c|] eqn:Ec; [|apply lookup_ge_None in Ec; rewrite Hl in Ec; unfold ns_s_max in *; lia].
  rewrite (nth_lookup_Some _ _ _ _ Ec). split; [by apply (Forall_lookup_1 _ _ _ _ Hf Ec)|].
  intros Hpos. destruct (Hj _ _ Ec Hpos) as (start & q1 & Estart & Hs0 & Hsk & Hq1). exists start, q1.
  rewrite (nth_lookup_Some _ _ _ _ Estart). by replace (0 + Z.of_nat (Z.to_nat s)) with s in Hsk by lia.
Qed.
End Handle.

(** ** Reading the records of a message *)

(** A sequence of calls of ns_parserr: the handle after them. *)
Fixpoint parse_all (h : ns_msg) (calls : list (Z * Z)) : option ns_msg :=
  match calls with
  | [] => Some h
  | (section, rrnum) :: calls => '(h, _) ← ns_parserr h section rrnum; parse_all h calls
  end.

(** Messages of bytes that do not end in the type byte of a bit-string label. *)
Definition readable (msg : bytes) : Prop :=
  byte_list msg /\ forall p, p + 1 = len msg -> rd msg p <> Some DNS_LABELTYPE_BITSTRING.

Lemma parse_all_facts msg h calls :
  readable msg -> handle_ok msg h -> cursor_ok msg h ->
  exists h', parse_all h calls = Some h' /\ same_message h h' /\ handle_ok msg h' /\ cursor_ok msg h'.
Proof.
  intros [Hb Hlast]. revert h. induction calls as [|[s n] calls IH]; intros h Hok Hc; simpl; [by exists h|].
  destruct (parserr_facts msg Hb Hlast h s n Hok Hc) as (h1 & r & -> & Hsm & Hc1 & _). simpl.
  destruct (IH h1 (handle_ok_same _ _ _ Hsm Hok) Hc1) as (h' & ? & ? & ?). exists h'. split_and!; [done|by etransitivity|apply H1..].
Qed.

(** A message that does not end in the type byte of a bit-string label can be
    parsed without reading outside it, whatever it holds.  Once
    ns_initparse has accepted it, and whatever calls of ns_parserr were made
    before, ns_parserr answers the record that lies at its place in the section,
    found from the start of the section: the cursor kept in the handle does not
    show.  The data of the record lie inside the message, and a record that the
    counts do not announce is refused with ENODEV. *)
Theorem parse_any_order msg (Hm : readable msg) :
  ns_initparse msg <> None /\
  forall h0 calls section n, ns_initparse msg = good h0 ->
    exists h h' r, parse_all h0 calls = Some h /\ ns_parserr h section n = Some (h', r) /\
      (in_range h0 section n -> record_at h0 section n = Some r) /\
      (n <> -1 -> ~ in_range h0 section n -> r = Fail ENODEV) /\
      forall rr d, r = Good rr -> rdata rr = Some d -> 0 <= d /\ d + rdlength rr <= len msg.
Proof.
  pose proof Hm as [Hb Hlast]. destruct (initparse_facts msg Hb Hlast) as (r0 & -> & H0). split; [done|].
  intros h0 calls section n [= ->]. destruct (H0 h0 eq_refl) as [Hok Hc].
  destruct (parse_all_facts msg h0 calls Hm Hok Hc) as (h & E & Hsm & Hok1 & Hc1).
  destruct (parserr_facts msg Hb Hlast h section n Hok1 Hc1) as (h' & r & Er & _ & _ & Hin & Hout & Hrd).
  assert (Ein : in_range h section n <-> in_range h0 section n).
  { unfold in_range, ns_msg_count. by rewrite (proj1 (proj2 (proj2 (proj2 Hsm)))). }
  assert (Ew : n <> -1 -> wanted h section n = n) by (intros; unfold wanted; by rewrite (proj2 (Z.eqb_neq n (-1)))).
  exists h, h', r. split_and!; [done|done| | |done].
  - intros Hr. rewrite Ew in Hin by (destruct Hr; lia). rewrite <- (record_at_same h0 h) by done. by apply Hin, Ein.
  - intros Hn Hr. rewrite Ew in Hout by done. apply Hout. by rewrite Ein.
Qed.

(** ** The TTL of an answer *)

(** The least TTL of the records that can be read, 0 when the first cannot. *)
Definition ttl_min (l : list (option Z)) : Z :=
  match l with
  | Some t :: l => foldl (fun m o => match o with Some t => Z.min m t | None => m end) t l
  | _ => 0
  end.

Definition ttl_of (m : io ns_rr) : option Z :=
  match m with Some (Good rr) => Some (ttl rr) | _ => None end.

Definition answer_ttls (h : ns_msg) : list (option Z) :=
  map (fun i => ttl_of (record_at h ns_s_an (Z.of_nat i))) (seq 0 (Z.to_nat (ns_msg_count h ns_s_an))).

Lemma record_ttl_nonneg msg h i rr : readable msg -> _msg h = msg -> record_at h ns_s_an i = good rr -> 0 <= ttl rr.
Proof.
  intros [Hb _] Hm. unfold record_at, rr_at. rewrite Hm. destruct (section_ptr h ns_s_an) as [st|]; [|done].
  destruct (skip_rrs _ _ _ _) as [[|p]|]; [done| |done]. cbn [rbind good].
  destruct (dn_expand _ _ _) as [[|[b nm]]|]; [done| |done]. cbn [rbind good].
  do 2 (destruct (ns_get16 _ _) as [[|]|]; [done| |done]; cbn [rbind good]). simpl Z.eqb. cbv iota.
  destruct (ns_get32 msg (p + b + 4)) as [[|t]|] eqn:Et; [done| |done]. cbn [rbind good].
  destruct (ns_get16 _ _) as [[|]|]; [done| |done]. intros [= <-]. simpl.
  assert (0 <= p + b + 4 /\ p + b + 4 + 4 <= len msg).
  { unfold ns_get32, getb in Et. destruct (rd msg (p + b + 4)) eqn:E0; [|done]. apply rd_lt in E0.
    cbn [rbind good] in Et. do 2 (destruct (rd msg _); [|done]; cbn [rbind good] in Et).
    destruct (rd msg (p + b + 4 + 3)) eqn:E3; [|done]. apply rd_lt in E3. lia. }
  destruct (get32_in msg Hb (p + b + 4)) as (t' & E & Ht); [lia..|]. rewrite Et in E. injection E as ->. done.
Qed.

Section Ttl.
Context (msg : bytes) (Hm : readable msg) (h0 : ns_msg) (H0 : handle_ok msg h0).

(** The loop from record [n] on, with the least TTL so far. *)
Lemma ttl_loop_fold k n h result :
  same_message h0 h -> cursor_ok msg h -> 0 < n -> n + Z.of_nat k = ns_msg_count h0 ns_s_an ->
  ttl_loop k n h result =
  Some (foldl (fun m o => match o with Some t => Z.min m t | None => m end) result
          (map (fun i => ttl_of (record_at h0 ns_s_an (Z.of_nat i))) (seq (Z.to_nat n) k))).
Proof using Hm H0.
  destruct Hm as [Hb Hlast]. revert n h result. induction k as [|k IH]; intros n h result Hsm Hc Hn Hk; [done|]. cbn [ttl_loop].
  destruct (parserr_facts msg Hb Hlast h ns_s_an n (handle_ok_same _ _ _ Hsm H0) Hc)
    as (h' & r & -> & Hsm' & Hc' & Hin & _). simpl mbind.
  rewrite IH; [|by etransitivity|done|lia|lia]. simpl. rewrite Z2Nat.id by lia.
  assert (Erec : record_at h0 ns_s_an n = Some r).
  { rewrite <- (record_at_same h0 h) by done. unfold wanted in Hin. rewrite (proj2 (Z.eqb_neq n (-1))) in Hin by lia.
    apply Hin. split; [done|]. unfold ns_msg_count. rewrite (proj1 (proj2 (proj2 (proj2 Hsm)))). unfold ns_msg_count in Hk. lia. }
  rewrite Erec. replace (Z.to_nat (n + 1)) with (S (Z.to_nat n)) by lia. rewrite (proj2 (Z.eqb_neq n 0)) by lia. simpl.
  destruct r as [e|rr]; [done|]. simpl. do 2 f_equal. case_test; zbool; lia.
Qed.
End Ttl.

(** No TTL is less than 0. *)
Lemma foldl_min_zero l : (forall t, Some t ∈ l -> 0 <= t) ->
  foldl (fun m o => match o with Some t => Z.min m t | None => m end) 0 l = 0.
Proof.
  induction l as [|[t|] l IH]; intros Hl; simpl; [done| |].
  - rewrite Z.min_l by (apply Hl; left). apply IH. intros t' Ht. apply Hl. by right.
  - apply IH. intros t' Ht. apply Hl. by right.
Qed.

Lemma getTTL_value msg (Hm : readable msg) :
  exists r, ns_initparse msg = Some r /\
    answer_getTTL msg = Some (match r with Good h0 => ttl_min (answer_ttls h0) | Fail _ => 0 end).
Proof.
  pose proof Hm as [Hb Hlast]. unfold answer_getTTL. destruct (initparse_facts msg Hb Hlast) as ([e|h0] & -> & H0); [by eexists|].
  eexists. split; [done|]. destruct (H0 h0 eq_refl) as [Hok Hc]. unfold answer_ttls.
  destruct (Z.to_nat (ns_msg_count h0 ns_s_an)) as [|k] eqn:Ek; [done|]. cbn [ttl_loop].
  destruct (parserr_facts msg Hb Hlast h0 ns_s_an 0 Hok Hc) as (h' & r & -> & Hsm & Hc' & Hin & _). simpl mbind.
  assert (Erec : record_at h0 ns_s_an 0 = Some r) by (apply Hin; split; [done|]; unfold wanted; simpl; lia).
  rewrite (ttl_loop_fold msg Hm h0 Hok); [|done|done|lia|lia]. f_equal. cbn [seq map]. change (Z.of_nat 0) with 0. rewrite Erec. cbn [ttl_of ttl_min orb Z.eqb]. change (Z.to_nat (0 + 1)) with 1%nat.
  destruct r as [e'|rr]; [|done]. apply foldl_min_zero.
  intros t Ht. apply list_elem_of_In, in_map_iff in Ht as (i & Ht & _). unfold ttl_of in Ht.
  destruct (record_at h0 ns_s_an (Z.of_nat i)) as [[|rr]|] eqn:E; [done| |done]. injection Ht as <-.
  eapply record_ttl_nonneg; [done|apply Hok|exact E].
Qed.

(** answer_getTTL answers the least TTL of the answer records that can be
    read, and 0 when the first of them cannot or when the message is malformed. *)
Theorem getTTL_least msg (Hm : readable msg) :
  exists r, ns_initparse msg = Some r /\
    answer_getTTL msg = Some (match r with Good h0 => ttl_min (answer_ttls h0) | Fail _ => 0 end).
Proof. by apply getTTL_value. Qed.

(** A response to a query for a, with two records of TTL 100 and 30. *)
Definition sample_response : bytes :=
  [0x12; 0x34; 0x81; 0x80; 0; 1; 0; 2; 0; 0; 0; 0;
   1; 97; 0; 0; 1; 0; 1;
   192; 12; 0; 1; 0; 1; 0; 0; 0; 100; 0; 4; 10; 0; 0; 1;
   192; 12; 0; 1; 0; 1; 0; 0; 0; 30; 0; 4; 10; 0; 0; 2].

Lemma sample_response_readable : readable sample_response.
Proof.
  split; [repeat (constructor; [lia|]); constructor|].
  intros p Hp. assert (p = 50) as -> by (change (len sample_response) with 51 in Hp; lia). discriminate.
Qed.

(** The second record, asked for after the first and the second. *)
Lemma parse_any_order_witness :
  exists h0 h h' rr, ns_initparse sample_response = good h0 /\ parse_all h0 [(ns_s_an, 0); (ns_s_an, -1)] = Some h /\
    ns_parserr h ns_s_an 1 = Some (h', Good rr) /\ ttl rr = 30 /\ rdata rr = Some 47.
Proof.
  destruct (parse_any_order sample_response sample_response_readable) as [_ H].
  eassert (E : ns_initparse sample_response = good _) by (vm_compute; reflexivity).
  destruct (H _ [(ns_s_an, 0); (ns_s_an, -1)] ns_s_an 1 E) as (h & h' & r & Hp & Hr & Hrec & _).
  eexists _, h, h'. assert (Hin : record_at _ ns_s_an 1 = Some r) by (apply Hrec; split; vm_compute; split; congruence).
  vm_compute in Hin. injection Hin as <-. eexists. split_and!; [exact E|exact Hp|exact Hr|reflexivity..].
Defined.

Lemma getTTL_least_witness : answer_getTTL sample_response = Some 30.
Proof.
  destruct (getTTL_least sample_response sample_response_readable) as (r & E & ->).
  vm_compute in E. injection E as <-. vm_compute. reflexivity.
Defined.

(** A record after the first whose name cannot be expanded (a pointer to
    itself) is left out: the answer is cached with the TTL of the first. *)
Definition looping_response : bytes :=
  take 35 sample_response ++ [192; 35; 0; 1; 0; 1; 0; 0; 0; 30; 0; 4; 10; 0; 0; 2].

Example getTTL_ignores_bad_record :
  answer_getTTL looping_response = Some 100 /\
  exists h, ns_initparse looping_response = good h /\ record_at h ns_s_an 1 = fail EMSGSIZE.
Proof. split; [vm_compute; reflexivity|]. eexists. split; [vm_compute; reflexivity|]. vm_compute. reflexivity. Qed.
