(* ===== verification/NsLayout.v ===== *)
(** * Reading a message that is laid out as the format says

    What ns_initparse and ns_parserr of nameser/ns_parse.c answer on a message
    whose sections, records and (compressed) names lie where the format puts them. *)
From S2P Require Import Prelude Buffer NsName NsUnpack NsPack NsParse.

(** ** The layout *)
Definition be32 (buf : bytes) (i : Z) : option Z :=
  a ← be16 buf i; b ← be16 buf (i + 2); Some (Z.lor (Z.shiftl a 16) b).

(** What dn_expand leaves in its buffer: the root is the empty string. *)
Definition host_text (ls : list bytes) : bytes :=
  match ls with [] => [0; 0] | _ => text ls ++ [0] end.

Section Layout.
Context (msg : bytes).

(** The record [rr] of a section lies from offset [p] to offset [q]. *)
Definition rr_laid (section p : Z) (rr : ns_rr) (q : Z) : Prop :=
  exists e ls, packed msg p p e ls /\ len (encode ls) <= NS_MAXCDNAME /\ name rr = host_text ls /\
    be16 msg e = Some (type rr) /\ be16 msg (e + 2) = Some (rr_class rr) /\
    if section =? ns_s_qd then ttl rr = 0 /\ rdlength rr = 0 /\ rdata rr = None /\ q = e + 4
    else be32 msg (e + 4) = Some (ttl rr) /\ be16 msg (e + 8) = Some (rdlength rr) /\ rdata rr = Some (e + 10) /\
         q = e + 10 + rdlength rr /\ q <= len msg.

Inductive rrs_laid (section : Z) : Z -> list ns_rr -> Z -> Prop :=
| rrs_laid_nil p : rrs_laid section p [] p
| rrs_laid_cons p rr m rrs q : rr_laid section p rr m -> rrs_laid section m rrs q -> rrs_laid section p (rr :: rrs) q.

Inductive sections_laid : Z -> Z -> list (list ns_rr) -> Z -> Prop :=
| sections_laid_nil s p : sections_laid s p [] p
| sections_laid_cons s p rrs m rrss q :
    rrs_laid s p rrs m -> sections_laid (s + 1) m rrss q -> sections_laid s p (rrs :: rrss) q.

(** The header, with the numbers of records, and the four sections. *)
Definition message_laid (id flags : Z) (rrss : list (list ns_rr)) : Prop :=
  length rrss = 4%nat /\ be16 msg 0 = Some id /\ be16 msg 2 = Some flags /\
  (forall i rrs, rrss !! i = Some rrs -> be16 msg (4 + 2 * Z.of_nat i) = Some (Z.of_nat (length rrs))) /\
  sections_laid 0 12 rrss (len msg).
End Layout.

(** Record [n] of a section. *)
Definition record_of (rrss : list (list ns_rr)) (section n : Z) : option ns_rr :=
  if (0 <=? section) && (0 <=? n) then rrs ← rrss !! Z.to_nat section; rrs !! Z.to_nat n else None.

(** ** Reading one record *)
Lemma get16_be msg p n : be16 msg p = Some n -> ns_get16 msg p = good n /\ 0 <= p /\ p + 2 <= len msg.
Proof.
  unfold be16, ns_get16, getb. destruct (rd msg p) as [a|] eqn:Ea; [|done]. destruct (rd msg (p + 1)) as [b|] eqn:Eb; [|done].
  intros [= <-]. split; [done|]. apply rd_lt in Ea, Eb. lia.
Qed.

Lemma get32_be msg p n : be32 msg p = Some n -> ns_get32 msg p = good n /\ p + 4 <= len msg.
Proof.
  unfold be32, be16, ns_get32, getb. replace (p + 2 + 1) with (p + 3) by lia.
  destruct (rd msg p); [|done]. destruct (rd msg (p + 1)); [|done]. destruct (rd msg (p + 2)); [|done].
  destruct (rd msg (p + 3)) eqn:E3; [|done]. apply rd_lt in E3. cbn [mbind option_bind rbind good]. intros [= <-].
  split; [|lia]. rewrite Z.shiftl_lor, Z.shiftl_shiftl by lia. by rewrite !Z.lor_assoc.
Qed.

Section Read.
Context (msg : bytes) (Hb : byte_list msg).

Lemma text_first l ls : label_ok l -> exists c r, text (l :: ls) = c :: r /\ (c =? ch_dot) = false.
Proof.
  intros [Hl _]. destruct l as [|c l]; [unfold len in Hl; simpl in Hl; lia|]. unfold text, escs. cbn [map concat].
  unfold esc. destruct (special c) eqn:Es; [by eexists _, _|]. destruct (printable c) eqn:Ep; cbn [negb]; [|by eexists _, _].
  eexists _, _. split; [done|]. apply Z.eqb_neq. intros ->. done.
Qed.

Lemma expand_packed p e ls :
  packed msg p p e ls -> len (encode ls) <= NS_MAXCDNAME ->
  dn_expand msg p NS_MAXDNAME = good (e - p, host_text ls) /\ dn_skipname msg p = good (e - p) /\ 0 <= p < e /\ e <= len msg.
Proof using Hb.
  intros Hp Hlen. pose proof (packed_range _ _ _ _ _ Hp) as Hr. destruct (unpack_known _ _ _ _ Hp Hlen) as [Hu Ht].
  split_and!; [| |lia..].
  - unfold dn_expand. rewrite Ht. cbn [rbind good]. destruct ls as [|l ls]; [cbn; by rewrite (proj2 (Z.ltb_lt 0 (e - p))) by lia|].
    pose proof (packed_labels _ _ _ _ _ Hp) as Hls. apply Forall_cons in Hls as [Hl _].
    destruct (text_first l ls Hl) as (c & r & E & Hc). unfold host_text. rewrite E. cbn. by rewrite Hc, andb_false_r.
  - unfold dn_skipname. rewrite (skip_unpacked msg p NS_MAXCDNAME _ _ Hb ltac:(done) Hu). cbn [rbind good]. unfold good. do 2 f_equal. lia.
Qed.

Lemma skip_laid s p rr q : rr_laid msg s p rr q -> skip_one msg s p = good q /\ 0 <= p < q /\ q <= len msg.
Proof using Hb.
  intros (e & ls & Hp & Hlen & _ & Hty & Hcl & Hrest). destruct (expand_packed p e ls Hp Hlen) as (_ & Hs & Hr).
  destruct (get16_be _ _ _ Hty) as (_ & _ & Hty'), (get16_be _ _ _ Hcl) as (_ & _ & Hcl').
  unfold skip_one. rewrite Hs. cbn [rbind good]. unfold NS_INT16SZ, NS_INT32SZ in *.
  destruct (s =? ns_s_qd); cbn [negb].
  - destruct Hrest as (_ & _ & _ & ->). split; [unfold good; do 2 f_equal; lia|lia].
  - destruct Hrest as (Httl & Hrl & _ & -> & Hq). destruct (get16_be _ _ _ Hrl) as (Hrl' & _ & Hl8).
    pose proof (be16_nonneg _ _ _ Hb Hrl). rewrite (proj2 (Z.ltb_ge _ _)) by lia.
    replace (p + (e - p + 2 + 2) + 4) with (e + 8) by lia. rewrite Hrl'. cbn [rbind good]. split; [unfold good; do 2 f_equal; lia|lia].
Qed.

Lemma skips_laid s p rrs q : rrs_laid msg s p rrs q -> skip_rrs msg s (length rrs) p = good q /\ (0 <= p <= len msg -> p <= q <= len msg).
Proof using Hb.
  induction 1 as [p|p rr m rrs q Hrr _ [IH IHr]]; [split; [done|lia]|]. destruct (skip_laid _ _ _ _ Hrr) as (Hs & Hr & Hm).
  cbn [length skip_rrs]. rewrite Hs. cbn [rbind good]. split; [done|lia].
Qed.

Lemma skiprr_laid s p rrs q : rrs_laid msg s p rrs q -> 0 <= p <= len msg -> ns_skiprr msg p s (Z.of_nat (length rrs)) = good (q - p).
Proof using Hb.
  intros Hl Hp. destruct (skips_laid _ _ _ _ Hl) as [Hs Hr]. specialize (Hr Hp). unfold ns_skiprr. rewrite Nat2Z.id, Hs. cbn [rbind good].
  by rewrite (proj2 (Z.ltb_ge _ _)) by (unfold len in *; lia).
Qed.

Lemma laid_app s p a b q : rrs_laid msg s p (a ++ b) q <-> exists m, rrs_laid msg s p a m /\ rrs_laid msg s m b q.
Proof.
  split.
  - revert p. induction a as [|rr a IH]; intros p H; [exists p; split; [constructor|done]|].
    inversion H as [|? ? m ? ? Hrr Hrest]; subst. destruct (IH m Hrest) as (m' & Ha & Hb'). exists m'. split; [by econstructor|done].
  - intros (m & Ha & Hb'). induction Ha; [done|]. simpl. econstructor; [done|]. by apply IHHa.
Qed.

Lemma parse_here_laid h s n p rr q :
  _msg h = msg -> n + 1 <= ns_msg_count h s -> rr_laid msg s p rr q ->
  parse_here h s n p = Some (set_cursor h (n + 1) (Some q), Good rr).
Proof using Hb.
  intros Hm Hn (e & ls & Hp & Hlen & Hnm & Hty & Hcl & Hrest). destruct (expand_packed p e ls Hp Hlen) as (Hx & _ & Hr).
  destruct (get16_be _ _ _ Hty) as (Gty & _ & Hty'), (get16_be _ _ _ Hcl) as (Gcl & _ & Hcl').
  unfold parse_here. rewrite Hm, Hx. cbn [reply good]. replace (p + (e - p)) with e by lia. unfold NS_INT16SZ, NS_INT32SZ in *.
  rewrite (proj2 (Z.ltb_ge (len msg) (e + 2 + 2))) by lia. rewrite Gty. cbn [reply good]. rewrite Gcl. cbn [reply good].
  destruct rr as [nm ty cl tl rl rda]. cbn [name type rr_class ttl rdlength rdata] in *. subst nm.
  rewrite (proj2 (Z.ltb_ge (ns_msg_count h s) (n + 1))) by lia. destruct (s =? ns_s_qd).
  - destruct Hrest as (-> & -> & -> & ->). done.
  - destruct Hrest as (Httl & Hrl & -> & -> & Hq). destruct (get32_be _ _ _ Httl) as [Gtl Htl], (get16_be _ _ _ Hrl) as (Grl & _ & Hl8).
    rewrite (proj2 (Z.ltb_ge _ _)) by lia. rewrite Gtl. cbn [reply good]. replace (e + 4 + 4) with (e + 8) by lia. rewrite Grl. cbn [reply good].
    replace (e + 4 + 6) with (e + 10) by lia. by rewrite (proj2 (Z.ltb_ge _ _)) by lia.
Qed.
End Read.

(** ** The sections of a message *)
Section Message.
Context (msg : bytes) (Hb : byte_list msg).

(** Where ns_initparse finds a section: nowhere, if it has no records. *)
Definition found_at (s : Z) (rrs : list ns_rr) (start : option Z) : Prop :=
  match rrs with
  | [] => start = None
  | _ => exists p q, start = Some p /\ rrs_laid msg s p rrs q /\ 0 <= p
  end.

Lemma find_laid s p rrss q :
  sections_laid msg s p rrss q -> 0 <= p <= len msg ->
  exists starts, find_sections msg s (map (fun rrs => Z.of_nat (length rrs)) rrss) p = good (starts, q) /\
    length starts = length rrss /\
    (forall i rrs, rrss !! i = Some rrs -> found_at (s + Z.of_nat i) rrs (nth i starts None)) /\ p <= q <= len msg.
Proof using Hb.
  induction 1 as [s p|s p rrs m rrss q Hrrs _ IH]; intros Hp; [exists []; split_and!; [done|done|by intros []|lia..]|].
  destruct (skips_laid msg Hb _ _ _ _ Hrrs) as [_ Hm]. specialize (Hm Hp).
  destruct (IH ltac:(lia)) as (starts & E & Hl & Hf & Hq).
  assert (Hnext : forall o, found_at s rrs o -> forall i rrs', (rrs :: rrss) !! i = Some rrs' ->
    found_at (s + Z.of_nat i) rrs' (nth i (o :: starts) None)).
  { intros o Ho [|i] rrs' Hi; simpl in Hi; [injection Hi as <-; by rewrite Z.add_0_r|].
    replace (s + Z.of_nat (S i)) with (s + 1 + Z.of_nat i) by lia. by apply Hf. }
  cbn [map find_sections]. destruct rrs as [|rr rrs].
  - inversion Hrrs; subst. cbn [length Z.of_nat Z.eqb]. rewrite E. cbn [rbind good]. exists (None :: starts).
    split_and!; [done|simpl; lia|by apply Hnext|lia..].
  - rewrite (proj2 (Z.eqb_neq _ 0)) by (simpl; lia). rewrite (skiprr_laid msg Hb _ _ _ _ Hrrs) by lia. cbn [rbind good].
    replace (p + (m - p)) with m by lia. rewrite E. cbn [rbind good]. exists (Some p :: starts).
    split_and!; [done|simpl; lia| |lia..]. apply Hnext. exists p, m. split_and!; [done|done|lia].
Qed.

Lemma counts_laid cs p :
  (forall i c, cs !! i = Some c -> be16 msg (p + 2 * Z.of_nat i) = Some c) ->
  read_counts msg (length cs) p = good (cs, p + 2 * Z.of_nat (length cs)).
Proof.
  revert p. induction cs as [|c cs IH]; intros p H; cbn [length read_counts]; [do 2 f_equal; by rewrite Z.add_0_r|].
  destruct (get16_be msg p c) as (E & _ & Hp); [rewrite <- (H 0%nat c eq_refl); f_equal; lia|].
  unfold read16, NS_INT16SZ. rewrite (proj2 (Z.ltb_ge _ _)) by lia. rewrite E. cbn [rbind good].
  rewrite (IH (p + 2)); [cbn [rbind good]; unfold good; do 3 f_equal; lia|].
  intros i c' Hi. rewrite <- (H (S i) c' Hi). f_equal. lia.
Qed.

Context (id flags : Z) (rrss : list (list ns_rr)) (Hlaid : message_laid msg id flags rrss).

(** The handle after ns_initparse. *)
Definition handle_of (starts : list (option Z)) : ns_msg :=
  setsection (NsMsg msg id flags (map (fun rrs => Z.of_nat (length rrs)) rrss) starts 0 0 None) ns_s_max.

Lemma initparse_laid :
  exists starts, ns_initparse msg = good (handle_of starts) /\
    forall i rrs, rrss !! i = Some rrs -> found_at (Z.of_nat i) rrs (nth i starts None).
Proof using Hb Hlaid.
  destruct Hlaid as (Hl & Hid & Hfl & Hcs & Hss). set (cs := map (fun rrs : list ns_rr => Z.of_nat (length rrs)) rrss).
  destruct (get16_be _ _ _ Hid) as (Gid & _ & Hid'), (get16_be _ _ _ Hfl) as (Gfl & _ & Hfl').
  assert (Hl4 : length cs = 4%nat) by (unfold cs; by rewrite length_map).
  assert (Hlen : 12 <= len msg).
  { destruct rrss as [|r0 [|r1 [|r2 [|r3 []]]]]; try done. destruct (get16_be _ _ _ (Hcs 3%nat r3 eq_refl)) as (_ & _ & ?). lia. }
  destruct (find_laid 0 12 rrss (len msg) Hss ltac:(lia)) as (starts & E & _ & Hf & _). exists starts. split; [|exact Hf].
  unfold ns_initparse. assert (Hrd : forall p n, ns_get16 msg p = good n -> p + 2 <= len msg -> read16 msg p = good n).
  { intros p n Hg Hle. unfold read16, NS_INT16SZ. by rewrite (proj2 (Z.ltb_ge _ _)) by lia. }
  rewrite (Hrd 0 id), (Hrd 2 flags) by (done || lia). cbn [rbind good]. change (Z.to_nat ns_s_max) with 4%nat.
  rewrite <- Hl4, (counts_laid cs 4), Hl4; cbn [rbind good].
  2:{ intros i c Hi. unfold cs in Hi. apply list_lookup_fmap_Some in Hi as (rrs & -> & Hi). by apply Hcs. }
  change (4 + 2 * Z.of_nat 4) with 12. unfold cs. rewrite E. cbn [rbind good]. by rewrite Z.eqb_refl.
Qed.

(** ** The cursor *)
Context (starts : list (option Z)).
Context (Hstarts : forall i rrs, rrss !! i = Some rrs -> found_at (Z.of_nat i) rrs (nth i starts None)).

(** The cursor is before record [i] of section [s]. *)
Definition located (h : ns_msg) (s : nat) (i : nat) : Prop :=
  same_message (handle_of starts) h /\ _sect h = Z.of_nat s /\ _rrnum h = Z.of_nat i /\
  exists rrs, rrss !! s = Some rrs /\ (i <= length rrs)%nat /\
    (rrs <> [] -> exists p q, _msg_ptr h = Some p /\ rrs_laid msg (Z.of_nat s) p (drop i rrs) q /\ 0 <= p <= len msg).
Definition cursor_laid (h : ns_msg) : Prop :=
  (same_message (handle_of starts) h /\ _sect h = ns_s_max) \/ exists s i, located h s i.

Lemma cursor_same h : cursor_laid h -> same_message (handle_of starts) h.
Proof. by intros [[? _]|(s & i & ? & _)]. Qed.

Lemma count_laid h s rrs : same_message (handle_of starts) h -> rrss !! s = Some rrs -> ns_msg_count h (Z.of_nat s) = Z.of_nat (length rrs).
Proof.
  intros (_ & _ & _ & Hc & _) Hs. unfold ns_msg_count. rewrite Hc, Nat2Z.id. apply nth_lookup_Some.
  change (_counts (handle_of starts)) with (map (fun rrs => Z.of_nat (length rrs)) rrss). apply list_lookup_fmap_Some. by exists rrs.
Qed.

Lemma setsection_laid h s rrs :
  same_message (handle_of starts) h -> rrss !! s = Some rrs -> located (setsection h (Z.of_nat s)) s 0.
Proof using Hb Hlaid Hstarts.
  intros Hsm Hs. assert (Hs4 : (s < 4)%nat) by (apply lookup_lt_Some in Hs; by rewrite (proj1 Hlaid) in Hs).
  unfold setsection. rewrite (proj2 (Z.eqb_neq _ _)) by (unfold ns_s_max; lia).
  pose proof (Hstarts s rrs Hs) as Hf. destruct Hsm as (Hm & Hid & Hfl & Hc & Hss).
  split; [by split_and!|]. split; [done|]. split; [done|]. exists rrs. split; [done|]. split; [lia|]. intros Hne.
  destruct rrs as [|rr rrs]; [done|]. destruct Hf as (p & q & E & Hl & Hp). exists p, q.
  split; [|split; [done|]].
  - cbn [_msg_ptr]. unfold section_ptr. rewrite Hss, Nat2Z.id. exact E.
  - inversion Hl as [|? ? m ? ? Hrr _]; subst. destruct (skip_laid msg Hb _ _ _ _ Hrr) as (_ & ? & ?). lia.
Qed.

Lemma located_at h s i rrs k rr :
  located h s i -> rrss !! s = Some rrs -> rrs !! k = Some rr -> (i <= k)%nat ->
  exists p m, _msg_ptr h = Some p /\ 
    ns_skiprr msg p (Z.of_nat s) (Z.of_nat k - Z.of_nat i) = good (m - p) /\
    exists m', rr_laid msg (Z.of_nat s) m rr m' /\ m' <= len msg /\
      (i = k -> m = p) /\
      exists q, rrs_laid msg (Z.of_nat s) m' (drop (S k) rrs) q.
Proof using Hb.
  intros (_ & _ & _ & rrs' & Hs & _ & Hp) Hs' Hk Hik. rewrite Hs in Hs'. injection Hs' as ->.
  destruct Hp as (p & q & Eptr & Hl & Hpr); [by intros ->|].
  assert (Hsplit : drop i rrs = take (k - i) (drop i rrs) ++ rr :: drop (S k) rrs).
  { rewrite <- (take_drop (k - i) (drop i rrs)) at 1. f_equal. rewrite drop_drop. replace (i + (k - i))%nat with k by lia. by apply drop_S. }
  rewrite Hsplit in Hl. apply laid_app in Hl as (m & Ha & Hl). inversion Hl as [|? ? m' ? ? Hrr Hrest]; subst.
  exists p, m. split; [done|]. pose proof (skiprr_laid msg Hb _ _ _ _ Ha Hpr) as Hskip.
  apply lookup_lt_Some in Hk. rewrite length_take, length_drop in Hskip.
  replace (Z.of_nat (Init.Nat.min (k - i) (length rrs - i))) with (Z.of_nat k - Z.of_nat i) in Hskip by lia.
  split; [done|]. exists m'. destruct (skip_laid msg Hb _ _ _ _ Hrr) as (_ & _ & Hm'). split_and!; [done|done| |by exists q].
  intros ->. rewrite Nat.sub_diag in Ha. by inversion Ha.
Qed.

(** A call for record [k] of a section, with the cursor before it. *)
Lemma read_laid h s i rrs k rr :
  located h s i -> rrss !! s = Some rrs -> rrs !! k = Some rr -> (i <= k)%nat ->
  exists h', (match _msg_ptr h with
     | None => None
     | Some p =>
         if _rrnum h <? Z.of_nat k then
           reply h (ns_skiprr (_msg h) p (Z.of_nat s) (Z.of_nat k - _rrnum h)) (fun b => parse_here h (Z.of_nat s) (Z.of_nat k) (p + b))
         else parse_here h (Z.of_nat s) (_rrnum h) p
     end) = Some (h', Good rr) /\ located h' s (S k).
Proof using Hb.
  intros Hloc Hs Hk Hik. destruct (located_at h s i rrs k rr Hloc Hs Hk Hik) as (p & m & Eptr & Hskip & m' & Hrr & Hm' & Hsame & q & Hrest).
  destruct Hloc as (Hsm & Esec & Ern & _). pose proof (proj1 Hsm) as Hmsg. change (_msg h = msg) in Hmsg.
  pose proof (count_laid h s rrs Hsm Hs) as Hcount. pose proof (lookup_lt_Some _ _ _ Hk) as Hlt.
  exists (set_cursor h (Z.of_nat k + 1) (Some m')). rewrite Eptr, Ern, Hmsg. split.
  - case_test; zbool.
    + rewrite Hskip. cbn [reply good]. replace (p + (m - p)) with m by lia. apply (parse_here_laid msg Hb); [done|lia|done].
    + assert (i = k) as -> by lia. rewrite <- (Hsame eq_refl). apply (parse_here_laid msg Hb); [done|lia|done].
  - split; [exact Hsm|]. split; [exact Esec|]. split; [cbn [_rrnum set_cursor]; lia|]. exists rrs. split; [done|]. split; [lia|].
    intros _. exists m', q. destruct (skip_laid msg Hb _ _ _ _ Hrr) as (_ & ? & _). split_and!; [done|done|lia|lia].
Qed.

Lemma record_of_nat s k : record_of rrss (Z.of_nat s) (Z.of_nat k) = (rrs ← rrss !! s; rrs !! k).
Proof. unfold record_of. rewrite !(proj2 (Z.leb_le 0 _)) by lia. cbn [andb]. by rewrite !Nat2Z.id. Qed.

Lemma record_of_neg s : record_of rrss s (-1) = None.
Proof. unfold record_of. by rewrite andb_false_r. Qed.

(** Every call, whatever its arguments: the answer and the cursor after it. *)
Lemma call_laid h section n :
  cursor_laid h ->
  exists h' r, ns_parserr h section n = Some (h', r) /\ cursor_laid h' /\
    (forall rr, record_of rrss section n = Some rr ->
       r = Good rr /\ located h' (Z.to_nat section) (S (Z.to_nat n))) /\
    (n <> -1 -> record_of rrss section n = None -> r = Fail ENODEV) /\
    (forall s i, located h s i -> section = Z.of_nat s -> n = -1 ->
       r = match record_of rrss section (Z.of_nat i) with Some rr => Good rr | None => Fail ENODEV end).
Proof using Hb Hlaid Hstarts.
  intros Hcur. unfold ns_parserr. destruct ((0 <=? section) && (section <? ns_s_max)) eqn:Esec; cbn [negb].
  2:{ exists h, (Fail ENODEV). apply andb_false_iff in Esec. 
      assert (Hnone : forall k, record_of rrss section k = None).
      { intros k. unfold record_of. destruct (Z.leb_spec 0 section); [|done]. destruct (Z.leb_spec 0 k); [|done]. cbn [andb].
        destruct (rrss !! Z.to_nat section) eqn:E; [|done]. apply lookup_lt_Some in E. rewrite (proj1 Hlaid) in E.
        destruct Esec as [Esec|Esec]; zbool; [lia|]. unfold ns_s_max in Esec. lia. }
      split_and!; [done|done| |done|]; intros *; by rewrite Hnone. }
  zbool. set (s := Z.to_nat section). assert (Es : section = Z.of_nat s) by lia. clearbody s. subst section.
  destruct (lookup_lt_is_Some_2 rrss s) as [rrs Hs]; [rewrite (proj1 Hlaid); unfold ns_s_max in *; lia|].
  set (h1 := if negb (Z.of_nat s =? _sect h) then setsection h (Z.of_nat s) else h).
  assert (H1 : exists i, located h1 s i /\ forall s' i', located h s' i' -> Z.of_nat s = Z.of_nat s' -> i' = i).
  { unfold h1. destruct (Z.eqb_spec (Z.of_nat s) (_sect h)) as [E|E]; cbn [negb].
    - destruct Hcur as [[_ Hc]|(s' & i & Hl)]; [rewrite Hc in E; lia|]. pose proof (proj1 (proj2 Hl)).
      assert (s' = s) as -> by lia. exists i. split; [done|]. intros s' i' (_ & _ & E' & _) _. destruct Hl as (_ & _ & E'' & _). lia.
    - pose proof (cursor_same h Hcur) as Hsm. exists 0%nat. split; [by eapply setsection_laid|].
      intros s' i' (_ & E' & _) E''. lia. }
  clearbody h1. destruct H1 as (i & H1 & Huniq).
  set (n1 := if n =? -1 then _rrnum h1 else n).
  assert (Hn1 : n1 = if n =? -1 then Z.of_nat i else n) by (unfold n1; by rewrite (proj1 (proj2 (proj2 H1)))).
  clearbody n1. rewrite (count_laid h1 s rrs) by (done || apply H1).
  destruct ((n1 <? 0) || (Z.of_nat (length rrs) <=? n1)) eqn:Erange.
  - assert (Hnone : record_of rrss (Z.of_nat s) n1 = None).
    { unfold record_of. destruct (Z.leb_spec 0 (Z.of_nat s)); [|lia]. destruct (Z.leb_spec 0 n1); [|done]. cbn [andb]. rewrite Nat2Z.id, Hs.
      cbn [mbind option_bind]. apply lookup_ge_None. apply orb_true_iff in Erange as [?|?]; zbool; lia. }
    exists h1, (Fail ENODEV). split; [done|]. split; [right; by exists s, i|].
    split; [|split; [done|]].
    + intros rr Hrr. destruct (Z.eqb_spec n (-1)) as [->|]; [by rewrite record_of_neg in Hrr|by rewrite <- Hn1, Hnone in Hrr].
    + intros s' i' Hl E ->. rewrite (Huniq s' i' Hl E). cbn [Z.eqb Pos.eqb] in Hn1. by rewrite <- Hn1, Hnone.
  - apply orb_false_iff in Erange as [Hr1 Hr2]. zbool. set (k := Z.to_nat n1). assert (En1 : n1 = Z.of_nat k) by lia. clearbody k.
    destruct (lookup_lt_is_Some_2 rrs k) as [rr Hk]; [lia|]. revert Hn1. rewrite En1. intros Hn1. clear En1 Hr1 Hr2 n1.
    set (h2 := if Z.of_nat k <? _rrnum h1 then setsection h1 (Z.of_nat s) else h1).
    assert (H2 : exists j, located h2 s j /\ (j <= k)%nat).
    { unfold h2. pose proof (proj1 (proj2 (proj2 H1))) as Ern. case_test; zbool; [|exists i; split; [done|lia]].
      exists 0%nat. split; [by eapply setsection_laid; [apply H1|]|lia]. }
    clearbody h2. destruct H2 as (j & H2 & Hjk).
    destruct (read_laid h2 s j rrs k rr H2 Hs Hk Hjk) as (h' & E & H'). exists h', (Good rr). split; [exact E|].
    assert (Hrec : record_of rrss (Z.of_nat s) (Z.of_nat k) = Some rr) by (rewrite record_of_nat, Hs; exact Hk).
    split; [right; by exists s, (S k)|]. split; [|split].
    + intros rr' Hrr'. destruct (Z.eqb_spec n (-1)) as [->|]; [by rewrite record_of_neg in Hrr'|]. rewrite <- Hn1, Hrec in Hrr'. injection Hrr' as <-.
      split; [done|]. by rewrite <- Hn1, !Nat2Z.id.
    + intros Hn. rewrite (proj2 (Z.eqb_neq _ _) Hn) in Hn1. by rewrite <- Hn1, Hrec.
    + intros s' i' Hl E' ->. rewrite (Huniq s' i' Hl E'). cbn [Z.eqb Pos.eqb] in Hn1. by rewrite <- Hn1, Hrec.
Qed.

Lemma calls_laid calls h : cursor_laid h -> exists h', parse_all h calls = Some h' /\ cursor_laid h'.
Proof using Hb Hlaid Hstarts.
  revert h. induction calls as [|[s n] calls IH]; intros h Hc; simpl; [by exists h|].
  destruct (call_laid h s n Hc) as (h1 & r & -> & Hc1 & _). cbn [mbind option_bind]. by apply IH.
Qed.
End Message.

(** C35.  In a message that is laid out as the format of DNS messages says
    (the id, the flags and the four counts; then the records of the four sections one
    behind the other up to the end of the message, each with a name, compressed or
    not and of ordinary labels, a type and a class, and outside the question section a
    TTL, a length and that many bytes of data), ns_initparse finds the id, the flags
    and the counts.  Whatever calls of ns_parserr were made before, ns_parserr then
    answers record [n] of a section with the text of its name, its type, class, TTL
    and the place and length of its data, and a following call for the number -1
    answers the record behind it, if there is one; a number that is not that of a
    record is refused with ENODEV. *)
Theorem laid_out_message_parsed msg id flags rrss (Hb : byte_list msg) (Hlaid : message_laid msg id flags rrss) :
  exists h0, ns_initparse msg = good h0 /\ _id h0 = id /\ _flags h0 = flags /\
    (forall s rrs, rrss !! s = Some rrs -> ns_msg_count h0 (Z.of_nat s) = Z.of_nat (length rrs)) /\
    forall calls section n, exists h h' r,
      parse_all h0 calls = Some h /\ ns_parserr h section n = Some (h', r) /\
      (forall rr, record_of rrss section n = Some rr ->
         r = Good rr /\
         exists h'' r', ns_parserr h' section (-1) = Some (h'', r') /\
           r' = match record_of rrss section (n + 1) with Some rr' => Good rr' | None => Fail ENODEV end) /\
      (n <> -1 -> record_of rrss section n = None -> r = Fail ENODEV).
Proof.
  destruct (initparse_laid msg Hb id flags rrss Hlaid) as (starts & E & Hst). exists (handle_of msg id flags rrss starts).
  split_and!; [exact E|done|done|intros s rrs Hs; by eapply count_laid|]. intros calls section n.
  destruct (calls_laid msg Hb id flags rrss Hlaid starts Hst calls (handle_of msg id flags rrss starts)) as (h & Eh & Hc); [by left|].
  destruct (call_laid msg Hb id flags rrss Hlaid starts Hst h section n Hc) as (h' & r & Er & Hc' & Hrec & Hno & _).
  exists h, h', r. split_and!; [done|done| |done]. intros rr Hrr. destruct (Hrec rr Hrr) as [-> Hloc]. split; [done|].
  destruct (call_laid msg Hb id flags rrss Hlaid starts Hst h' section (-1) Hc') as (h'' & r' & Er' & _ & _ & _ & Hnext).
  assert (Hpos : 0 <= section /\ 0 <= n) by (unfold record_of in Hrr; case_test_in Hrr; [|done]; apply andb_true_iff in E0 as [? ?]; zbool; lia).
  exists h'', r'. split; [done|]. rewrite (Hnext _ _ Hloc) by lia. by replace (Z.of_nat (S (Z.to_nat n))) with (n + 1) by lia.
Qed.

(** The response to a query for a, with two records that point to its name. *)
Definition a_name : bytes := [97; 0].
Definition sample_rrss : list (list ns_rr) :=
  [[NsRr a_name 1 1 0 0 None]; [NsRr a_name 1 1 100 4 (Some 31); NsRr a_name 1 1 30 4 (Some 47)]; []; []].

Lemma sample_name : packed sample_response 12 12 15 [[97]].
Proof.
  apply (packed_label sample_response 12 12 15 [97] []); [lia| |reflexivity|].
  - split; [vm_compute; done|]. repeat (constructor; [lia|]). constructor.
  - by apply (packed_root sample_response 12 14).
Qed.
Lemma sample_pointer p : rd sample_response p = Some 192 -> rd sample_response (p + 1) = Some 12 -> 15 <= p ->
  packed sample_response p p (p + 2) [[97]].
Proof.
  intros Hn Hp Hle. apply (packed_pointer _ _ _ 192 12 15); [done|reflexivity|done|lia|exact sample_name|lia].
Qed.

Lemma sample_laid : message_laid sample_response 0x1234 0x8180 sample_rrss.
Proof.
  split_and!; [reflexivity|reflexivity|reflexivity| |].
  - intros [|[|[|[|i]]]] rrs Hi; [injection Hi as <-; reflexivity..|done].
  - apply (sections_laid_cons _ 0 12 _ 19); [|apply (sections_laid_cons _ 1 19 _ 51)].
    + eapply rrs_laid_cons; [|constructor]. exists 15, [[97]]. split_and!; [exact sample_name|vm_compute; done|reflexivity|reflexivity|reflexivity|by split_and!].
    + eapply (rrs_laid_cons _ _ _ _ 35); [|eapply rrs_laid_cons; [|constructor]].
      * exists 21, [[97]]. split_and!; [by apply (sample_pointer 19)|vm_compute; done|reflexivity|reflexivity|reflexivity|cbn; split_and!; [reflexivity..|vm_compute; done]].
      * exists 37, [[97]]. split_and!; [by apply (sample_pointer 35)|vm_compute; done|reflexivity|reflexivity|reflexivity|cbn; split_and!; [reflexivity..|vm_compute; done]].
    + do 2 (eapply sections_laid_cons; [constructor|]). constructor.
Qed.

(** The second answer, after calls in another order. *)
Lemma laid_out_message_parsed_witness :
  exists h0 h h', ns_initparse sample_response = good h0 /\
    parse_all h0 [(ns_s_an, 1); (ns_s_qd, 0); (ns_s_an, -1)] = Some h /\
    ns_parserr h ns_s_an 1 = Some (h', Good (NsRr a_name 1 1 30 4 (Some 47))).
Proof.
  destruct (laid_out_message_parsed sample_response 0x1234 0x8180 sample_rrss (proj1 sample_response_readable) sample_laid)
    as (h0 & E & _ & _ & _ & H).
  destruct (H [(ns_s_an, 1); (ns_s_qd, 0); (ns_s_an, -1)] ns_s_an 1) as (h & h' & r & Eh & Er & Hrec & _).
  destruct (Hrec (NsRr a_name 1 1 30 4 (Some 47)) eq_refl) as [-> _]. exists h0, h, h'. split_and!; [exact E|exact Eh|exact Er].
Defined.
