(* ===== verification/ResCache.v ===== *)
(** * The resolver's cache (libc/netbsd/resolv/res_cache.c)

    A hash table with collision chains whose entries are also on a list in the
    order of their last use.  An entry is a struct in a heap of entries; a
    pointer to an entry is its address, [None] is NULL.  The address [MRU] is
    that of cache->mru_list, the head of the list of uses.  The slots of the
    table are the first words of cache->entries; a pointer to a pointer
    (Entry star star) is a slot of the table or the hlink field of an entry.
    [None] as the result of an operation is an invalid access.  The time and
    calloc are arguments of the operations that use them.
    The operations run under cache->lock, so they are functions of the cache. *)
From stdpp Require Import gmap.
From S2P Require Import Prelude Buffer DnsPacket NsUnpack NsParse.

Record Entry : Type := MkEntry {
  hash : Z; hlink : option nat; mru_prev : option nat; mru_next : option nat;
  query : bytes; answer : bytes; expires : Z; id : Z }.

Definition set_hlink (v : option nat) (e : Entry) : Entry :=
  MkEntry (hash e) v (mru_prev e) (mru_next e) (query e) (answer e) (expires e) (id e).
Definition set_prev (v : option nat) (e : Entry) : Entry :=
  MkEntry (hash e) (hlink e) v (mru_next e) (query e) (answer e) (expires e) (id e).
Definition set_next (v : option nat) (e : Entry) : Entry :=
  MkEntry (hash e) (hlink e) (mru_prev e) v (query e) (answer e) (expires e) (id e).
Definition set_expires (v : Z) (e : Entry) : Entry :=
  MkEntry (hash e) (hlink e) (mru_prev e) (mru_next e) (query e) (answer e) v (id e).
Definition set_id (v : Z) (e : Entry) : Entry :=
  MkEntry (hash e) (hlink e) (mru_prev e) (mru_next e) (query e) (answer e) (expires e) v.

Record Cache : Type := MkCache {
  max_entries : Z; num_entries : Z; generation : Z; last_id : Z;
  entries : list (option nat); heap : gmap nat Entry }.

Definition MRU : nat := 0.

Definition set_heap (c : Cache) (h : gmap nat Entry) : Cache :=
  MkCache (max_entries c) (num_entries c) (generation c) (last_id c) (entries c) h.
Definition set_entries (c : Cache) (l : list (option nat)) : Cache :=
  MkCache (max_entries c) (num_entries c) (generation c) (last_id c) l (heap c).
Definition set_num (c : Cache) (n : Z) : Cache :=
  MkCache (max_entries c) n (generation c) (last_id c) (entries c) (heap c).
Definition set_last_id (c : Cache) (n : Z) : Cache :=
  MkCache (max_entries c) (num_entries c) (generation c) n (entries c) (heap c).
Definition set_generation (c : Cache) (g : Z) : Cache :=
  MkCache (max_entries c) (num_entries c) g (last_id c) (entries c) (heap c).

(** p->..., and p->field = v *)
Definition fetch (c : Cache) (p : option nat) : option Entry := a ← p; heap c !! a.
Definition update (c : Cache) (p : option nat) (f : Entry -> Entry) : option Cache :=
  a ← p; e ← heap c !! a; Some (set_heap c (<[a := f e]> (heap c))).

Inductive slot : Type := Bucket (i : nat) | Hlink (a : nat).
#[export] Instance slot_eq_dec : EqDecision slot.
Proof. solve_decision. Defined.

Definition rd_slot (c : Cache) (s : slot) : option (option nat) :=
  match s with
  | Bucket i => entries c !! i
  | Hlink a => hlink <$> heap c !! a
  end.
Definition wr_slot (c : Cache) (s : slot) (v : option nat) : option Cache :=
  match s with
  | Bucket i => _ ← entries c !! i; Some (set_entries c (<[i := v]> (entries c)))
  | Hlink a => update c (Some a) (set_hlink v)
  end.

(** ** Entries *)
Definition entry_free (c : Cache) (e : option nat) : Cache :=
  match e with Some a => set_heap c (delete a (heap c)) | None => c end.

Definition entry_mru_remove (c : Cache) (e : option nat) : option Cache :=
  n ← fetch c e;
  c ← update c (mru_prev n) (set_next (mru_next n));
  n ← fetch c e;
  update c (mru_next n) (set_prev (mru_prev n)).

Definition entry_mru_add (c : Cache) (e list : option nat) : option Cache :=
  l ← fetch c list;
  let first := mru_next l in
  c ← update c e (set_next first);
  c ← update c e (set_prev list);
  c ← update c list (set_next e);
  update c first (set_prev e).

Definition entry_hash (q : bytes) : option Z := _dnsPacket_hashQuery (_dnsPacket_init q).

(** Answers the key and the result of _dnsPacket_checkQuery. *)
Definition entry_init_key (q : bytes) : option (Entry * bool) :=
  h ← entry_hash q;
  '(ok, _) ← _dnsPacket_checkQuery (_dnsPacket_init q);
  Some (MkEntry h None None None q [] 0 0, ok).

(** calloc: the address of a new block, if there is memory, given the blocks in
    use. *)
Definition allocator : Type := gmap nat Entry -> option nat.

Definition entry_alloc (c : Cache) (calloc : allocator) (init : Entry) (ans : bytes) : Cache * option nat :=
  match calloc (heap c) with
  | None => (c, None)
  | Some a => (set_heap c (<[a := MkEntry (hash init) None None None (query init) ans 0 0]> (heap c)), Some a)
  end.

Definition entry_equals (e1 e2 : Entry) : option bool :=
  if negb (len (query e1) =? len (query e2)) then Some false
  else _dnsPacket_isEqualQuery (_dnsPacket_init (query e1)) (_dnsPacket_init (query e2)).

(** ** The table *)

(** while ( *pnode != NULL) of _cache_flush_locked; the fuel is more than the
    number of entries. *)
Fixpoint flush_chain (fuel : nat) (c : Cache) (pnode : slot) : option Cache :=
  match fuel with
  | O => None
  | S fuel =>
      p ← rd_slot c pnode;
      match p with
      | None => Some c
      | Some _ =>
          node ← fetch c p;
          c ← wr_slot c pnode (hlink node);
          flush_chain fuel (entry_free c p) pnode
      end
  end.

Definition walk_fuel (c : Cache) : nat := S (size (heap c)).

Fixpoint flush_table (k nn : nat) (c : Cache) : option Cache :=
  match k with
  | O => Some c
  | S k => c ← flush_chain (walk_fuel c) c (Bucket nn); flush_table k (S nn) c
  end.

Definition _cache_flush_locked (c : Cache) : option Cache :=
  c ← flush_table (Z.to_nat (max_entries c)) 0 c;
  c ← update c (Some MRU) (set_prev (Some MRU));
  c ← update c (Some MRU) (set_next (Some MRU));
  Some (set_last_id (set_num c 0) 0).

Definition CONFIG_MAX_ENTRIES : Z := 64.

(** [prop] is the number in the property ro.net.dns_cache_size, if it is set. *)
Definition _res_cache_get_max_entries (prop : option Z) : Z :=
  let result := match prop with Some n => n | None => -1 end in
  if result <=? 0 then CONFIG_MAX_ENTRIES else result.

(** [mem1] and [mem2]: whether the two calls of calloc succeed. *)
Definition _resolv_cache_create (prop : option Z) (mem1 mem2 : bool) : option Cache :=
  if mem1 then
    let n := _res_cache_get_max_entries prop in
    if mem2 then
      Some (MkCache n 0 (u32 (Z.lnot 0)) 0 (replicate (Z.to_nat n) None)
              {[ MRU := MkEntry 0 None (Some MRU) (Some MRU) [] [] 0 0 ]})
    else None
  else None.

Fixpoint lookup_loop (fuel : nat) (c : Cache) (key : Entry) (pnode : slot) : option slot :=
  match fuel with
  | O => None
  | S fuel =>
      p ← rd_slot c pnode;
      match p with
      | None => Some pnode
      | Some a =>
          node ← fetch c p;
          found ← (if hash node =? hash key then entry_equals node key else Some false);
          if (found : bool) then Some pnode else lookup_loop fuel c key (Hlink a)
      end
  end.

Definition _cache_lookup_p (c : Cache) (key : Entry) : option slot :=
  lookup_loop (walk_fuel c) c key (Bucket (Z.to_nat (hash key mod max_entries c))).

Definition _cache_add_p (c : Cache) (lookup : slot) (e : option nat) : option Cache :=
  c ← wr_slot c lookup e;
  let c := set_last_id c (s32 (last_id c + 1)) in
  c ← update c e (set_id (last_id c));
  c ← entry_mru_add c e (Some MRU);
  Some (set_num c (num_entries c + 1)).

Definition _cache_remove_p (c : Cache) (lookup : slot) : option Cache :=
  e ← rd_slot c lookup;
  c ← entry_mru_remove c e;
  n ← fetch c e;
  c ← wr_slot c lookup (hlink n);
  let c := entry_free c e in
  Some (set_num c (num_entries c - 1)).

Definition _cache_remove_oldest (c : Cache) : option Cache :=
  l ← fetch c (Some MRU);
  oldest ← fetch c (mru_prev l);
  lookup ← _cache_lookup_p c oldest;
  p ← rd_slot c lookup;
  match p with
  | None => Some c
  | Some _ => _cache_remove_p c lookup
  end.

(** ** Lookup and insertion *)
Inductive ResolvCacheStatus : Type :=
  RESOLV_CACHE_UNSUPPORTED | RESOLV_CACHE_NOTFOUND | RESOLV_CACHE_FOUND.

(** What is written to *answerlen, and the bytes copied to answer. *)
Record lookup_result : Type := LookupResult {
  status : ResolvCacheStatus; answerlen : option Z; copied : option bytes }.

Definition _resolv_cache_lookup (c : Cache) (q : bytes) (answersize now : Z) :
    option (Cache * lookup_result) :=
  '(key, ok) ← entry_init_key q;
  if negb ok then Some (c, LookupResult RESOLV_CACHE_UNSUPPORTED None None)
  else
    lookup ← _cache_lookup_p c key;
    e ← rd_slot c lookup;
    match e with
    | None => Some (c, LookupResult RESOLV_CACHE_NOTFOUND None None)
    | Some _ =>
        n ← fetch c e;
        if expires n <=? now then
          c ← _cache_remove_p c lookup; Some (c, LookupResult RESOLV_CACHE_NOTFOUND None None)
        else if answersize <? len (answer n) then
          Some (c, LookupResult RESOLV_CACHE_UNSUPPORTED (Some (len (answer n))) None)
        else
          l ← fetch c (Some MRU);
          c ← (if bool_decide (e <> mru_next l)
               then c ← entry_mru_remove c e; entry_mru_add c e (Some MRU)
               else Some c);
          Some (c, LookupResult RESOLV_CACHE_FOUND (Some (len (answer n))) (Some (answer n)))
    end.

(** From answer_getTTL on; ttl is an unsigned long, time_t a signed one. *)
Definition add_entry (c : Cache) (lookup : slot) (key : Entry) (ans : bytes) (now : Z) (calloc : allocator) :
    option Cache :=
  ttl ← answer_getTTL ans;
  if 0 <? ttl then
    let '(c, e) := entry_alloc c calloc key ans in
    match e with
    | None => Some c
    | Some _ =>
        c ← update c e (set_expires (s32 (u32 (ttl + now))));
        _cache_add_p c lookup e
    end
  else Some c.

Definition _resolv_cache_add (c : Cache) (q ans : bytes) (now : Z) (calloc : allocator) : option Cache :=
  '(key, ok) ← entry_init_key q;
  if negb ok then Some c
  else
    lookup ← _cache_lookup_p c key;
    e ← rd_slot c lookup;
    match e with
    | Some _ => Some c
    | None =>
        if max_entries c <=? num_entries c then
          c ← _cache_remove_oldest c;
          lookup ← _cache_lookup_p c key;
          e ← rd_slot c lookup;
          match e with
          | Some _ => Some c
          | None => add_entry c lookup key ans now calloc
          end
        else add_entry c lookup key ans now calloc
    end.
