(* ===== verification/CacheShape.v ===== *)
(** * The shape of the cache's memory

    The list of uses is a ring through the mru fields, a collision chain a list
    through the hlink fields.  The operations on entries and slots are described
    by what they do to these fields, seen as functions of the address. *)
From stdpp Require Import gmap.
From S2P Require Import Prelude Buffer DnsPacket ResCache.

(** ** Doubly linked segments *)
Section Segment.
Implicit Types (f g : nat -> option nat) (l : list nat).

(** From [x] through [l] to [y]: [f] is the next, [g] the previous node. *)
Fixpoint seg f g (x : nat) l (y : nat) : Prop :=
  match l with
  | [] => f x = Some y /\ g y = Some x
  | a :: l => f x = Some a /\ g a = Some x /\ seg f g a l y
  end.

Lemma seg_frame f g f' g' x l y :
  (forall a, a ∈ x :: l -> f' a = f a) -> (forall a, a ∈ l ++ [y] -> g' a = g a) ->
  seg f g x l y -> seg f' g' x l y.
Proof.
  revert x. induction l as [|a l IH]; intros x Hf Hg; simpl.
  - intros [H1 H2]. rewrite Hf, Hg by set_solver. done.
  - intros (H1 & H2 & H3). rewrite Hf, Hg by set_solver. split_and!; [done..|]. apply IH; [set_solver|set_solver|done].
Qed.

Lemma seg_app f g x l1 a l2 y : seg f g x (l1 ++ a :: l2) y <-> seg f g x l1 a /\ seg f g a l2 y.
Proof. revert x. induction l1 as [|b l1 IH]; intros x; simpl; [tauto|]. rewrite IH. tauto. Qed.

Lemma seg_first f g x l y : seg f g x l y -> exists b, f x = Some b /\ b ∈ l ++ [y].
Proof. destruct l as [|a l]; simpl; [intros [H _]|intros [H _]]; eexists; (split; [done|set_solver]). Qed.
Lemma seg_last f g x l y : seg f g x l y -> exists b, g y = Some b /\ b ∈ x :: l.
Proof.
  revert x. induction l as [|a l IH]; intros x; simpl; [intros [_ H]; eexists; split; [done|set_solver]|].
  intros (_ & _ & H). destruct (IH a H) as (b & ? & ?). exists b. split; [done|set_solver].
Qed.

(** The last node before the end is the last of the list. *)
Lemma seg_prev_end f g x l a y : seg f g x (l ++ [a]) y -> g y = Some a.
Proof. intros H. apply seg_app in H as [_ [_ H]]. done. Qed.

Lemma seg_unlink f g f' g' x l1 e l2 y p n :
  NoDup (x :: l1 ++ e :: l2) -> NoDup (l1 ++ e :: l2 ++ [y]) ->
  seg f g x l1 e -> seg f g e l2 y -> g e = Some p -> f e = Some n ->
  (forall a, f' a = if decide (a = p) then Some n else f a) ->
  (forall a, g' a = if decide (a = n) then Some p else g a) ->
  seg f' g' x (l1 ++ l2) y.
Proof.
  intros Hn1 Hn2 H1 H2 Hp Hn Hf Hg. revert x Hn1 Hn2 H1. induction l1 as [|b l1 IH]; intros x Hn1 Hn2 H1.
  - destruct H1 as [_ Hx]. rewrite Hx in Hp. injection Hp as <-.
    destruct l2 as [|b l2]; simpl in *.
    + destruct H2 as [He _]. rewrite He in Hn. injection Hn as <-. rewrite Hf, Hg. by rewrite !decide_True.
    + destruct H2 as (He & _ & H2). rewrite He in Hn. injection Hn as <-. rewrite Hf, Hg, !decide_True by done.
      split_and!; [done..|]. revert H2. apply seg_frame; intros a Ha.
      * rewrite Hf, decide_False; [done|]. intros ->. apply NoDup_cons in Hn1 as [Hn1 _]. set_solver.
      * rewrite Hg, decide_False; [done|]. intros ->. apply NoDup_cons in Hn2 as [_ Hn2].
        apply NoDup_cons in Hn2 as [Hn2 _]. set_solver.
  - simpl in *. destruct H1 as (Hb & Hx & H1).
    assert (Hpin : p ∈ b :: l1) by (destruct (seg_last _ _ _ _ _ H1) as (p' & E & ?); congruence).
    assert (Hnin : n ∈ l2 ++ [y]) by (destruct (seg_first _ _ _ _ _ H2) as (n' & E & ?); congruence).
    apply NoDup_cons in Hn1 as [Hx1 Hn1]. pose proof Hn2 as Hn2'. apply NoDup_cons in Hn2' as [Hb2 Hn2'].
    rewrite Hf, Hg, !decide_False; [split_and!; [done..|]; by apply IH|intros ->; set_solver|intros ->; set_solver].
Qed.

Lemma seg_push f g f' g' x e l y b :
  NoDup (x :: l) -> NoDup (l ++ [y]) -> e ∉ x :: l ++ [y] -> seg f g x l y -> f x = Some b ->
  (forall a, f' a = if decide (a = x) then Some e else if decide (a = e) then Some b else f a) ->
  (forall a, g' a = if decide (a = b) then Some e else if decide (a = e) then Some x else g a) ->
  seg f' g' x (e :: l) y.
Proof.
  intros Hn1 Hn2 He H Hb Hf Hg. apply NoDup_cons in Hn1 as [Hx Hn1].
  destruct (seg_first _ _ _ _ _ H) as (b' & E & Hin). rewrite Hb in E. injection E as <-. simpl.
  assert (He' : f' e = Some b) by (rewrite Hf, decide_False, decide_True by set_solver; done).
  assert (Hb' : g' b = Some e) by (by rewrite Hg, decide_True).
  split; [by rewrite Hf, decide_True|]. split; [rewrite Hg, decide_False, decide_True by set_solver; done|].
  destruct l as [|a l]; simpl in *.
  - destruct H as [H1 H2]. rewrite Hb in H1. injection H1 as ->. done.
  - destruct H as (H1 & H2 & H3). rewrite Hb in H1. injection H1 as <-. split_and!; [done..|].
    revert H3. apply seg_frame; intros c Hc.
    + rewrite Hf, !decide_False; [done|set_solver..].
    + rewrite Hg, !decide_False; [done|set_solver|]. intros ->. apply NoDup_cons in Hn2 as [Hn2 _]. set_solver.
Qed.
End Segment.

(** ** Collision chains *)
Section Chain.
Implicit Types (R : slot -> option (option nat)) (l : list nat).

Fixpoint chain R (s : slot) l : Prop :=
  match l with
  | [] => R s = Some None
  | a :: l => R s = Some (Some a) /\ chain R (Hlink a) l
  end.

(** The slot after the nodes [l]. *)
Fixpoint after (s : slot) l : slot :=
  match l with [] => s | a :: l => after (Hlink a) l end.

Lemma chain_frame R R' s s' l :
  R' s' = R s -> (forall a, a ∈ l -> R' (Hlink a) = R (Hlink a)) -> chain R s l -> chain R' s' l.
Proof.
  revert s s'. induction l as [|a l IH]; intros s s' Hs Hl; simpl; [congruence|].
  intros [H1 H2]. split; [congruence|]. apply (IH (Hlink a)); [set_solver|set_solver|done].
Qed.

Lemma after_in s l : after s l = s \/ exists a, a ∈ l /\ after s l = Hlink a.
Proof.
  revert s. induction l as [|a l IH]; intros s; simpl; [by left|]. right.
  destruct (IH (Hlink a)) as [->|(b & ? & ->)]; eexists; (split; [|done]); set_solver.
Qed.

Lemma chain_split R s l1 l2 : chain R s (l1 ++ l2) -> chain R (after s l1) l2.
Proof. revert s. induction l1 as [|a l1 IH]; intros s; simpl; [done|]. intros [_ H]. by apply IH. Qed.

(** Writing the slot after [l1] replaces the rest of the chain. *)
Lemma chain_write R R' s l1 l2 l3 :
  NoDup l1 -> (forall a, a ∈ l1 -> s <> Hlink a) ->
  (forall s', s' <> after s l1 -> R' s' = R s') ->
  chain R s (l1 ++ l2) -> chain R' (after s l1) l3 -> chain R' s (l1 ++ l3).
Proof.
  revert s. induction l1 as [|a l1 IH]; intros s Hn Hs HR H1 H3; simpl in *; [done|].
  destruct H1 as [H1 H2]. apply NoDup_cons in Hn as [Ha Hn]. split.
  - rewrite HR; [done|]. destruct (after_in (Hlink a) l1) as [->|(b & Hb & ->)]; [apply Hs; set_solver|].
    apply Hs. set_solver.
  - apply IH; [done| |done|done|done]. intros b Hb [= ->]. done.
Qed.
End Chain.

(** ** The chains of a table *)
Section Chains.
Implicit Types (chs : list (list nat)) (ch : list nat).

Lemma elem_of_chains chs a : a ∈ concat chs <-> exists i ch, chs !! i = Some ch /\ a ∈ ch.
Proof.
  induction chs as [|ch chs IH]; simpl.
  - split; [set_solver|by intros (? & ? & ? & _)].
  - rewrite elem_of_app, IH. split.
    + intros [H|(i & ch' & H & H')]; [by exists 0%nat, ch|by exists (S i), ch'].
    + intros ([|i] & ch' & H & H'); simpl in H; [injection H as ->; by left|right; eauto].
Qed.

Lemma chains_disjoint chs i j ch ch' a :
  NoDup (concat chs) -> chs !! i = Some ch -> chs !! j = Some ch' -> a ∈ ch -> a ∈ ch' -> i = j.
Proof.
  revert i j. induction chs as [|c0 chs IH]; intros i j Hn Hi Hj Ha Ha'; [done|]. simpl in Hn.
  apply NoDup_app in Hn as (_ & Hd & Hn).
  assert (Hin : forall k c, chs !! k = Some c -> a ∈ c -> a ∉ c0).
  { intros k c Hk Hc H0. apply (Hd a H0). apply elem_of_chains. eauto. }
  destruct i as [|i], j as [|j]; simpl in *; [done|injection Hi as ->; by destruct (Hin _ _ Hj Ha')|
    injection Hj as ->; by destruct (Hin _ _ Hi Ha)|]. f_equal. by eapply IH.
Qed.

Lemma chains_nodup chs i ch : NoDup (concat chs) -> chs !! i = Some ch -> NoDup ch.
Proof.
  revert i. induction chs as [|c0 chs IH]; intros i Hn Hi; [done|]. simpl in Hn. apply NoDup_app in Hn as (H0 & _ & Hn).
  destruct i as [|i]; simpl in Hi; [by injection Hi as ->|by eapply IH].
Qed.

Lemma chains_update chs i ch ch' :
  chs !! i = Some ch -> concat (<[i := ch']> chs) ++ ch ≡ₚ concat chs ++ ch'.
Proof.
  revert i. induction chs as [|c0 chs IH]; intros i Hi; [done|]. destruct i as [|i]; simpl in *.
  - injection Hi as ->. rewrite (Permutation_app_comm ch' (concat chs)), (Permutation_app_comm ch (concat chs)), <- !app_assoc.
    f_equiv. apply Permutation_app_comm.
  - rewrite <- !app_assoc. f_equiv. by apply IH.
Qed.
End Chains.

(** ** The fields as functions of the address *)
Definition nx (c : Cache) (a : nat) : option nat := e ← heap c !! a; mru_next e.
Definition pv (c : Cache) (a : nat) : option nat := e ← heap c !! a; mru_prev e.
Definition dat (c : Cache) (a : nat) : option (Z * bytes * bytes * Z) :=
  (fun e => (hash e, query e, answer e, expires e)) <$> heap c !! a.
(** The counters, and the size of the table. *)
Definition counters (c : Cache) : Z * Z * Z * Z * nat :=
  (max_entries c, num_entries c, generation c, last_id c, length (entries c)).

Lemma dat_heap c a d : dat c a = Some d -> exists e, heap c !! a = Some e /\ (hash e, query e, answer e, expires e) = d.
Proof. unfold dat. destruct (heap c !! a) as [e|]; [|done]. intros [= <-]. by exists e. Qed.
Lemma dat_some c a : is_Some (dat c a) <-> is_Some (heap c !! a).
Proof. unfold dat. by rewrite fmap_is_Some. Qed.
Lemma nx_some c a b : nx c a = Some b -> exists e, heap c !! a = Some e /\ mru_next e = Some b.
Proof. unfold nx. destruct (heap c !! a) as [e|]; [|done]. by exists e. Qed.
Lemma pv_some c a b : pv c a = Some b -> exists e, heap c !! a = Some e /\ mru_prev e = Some b.
Proof. unfold pv. destruct (heap c !! a) as [e|]; [|done]. by exists e. Qed.

(** Only the mru fields change. *)
Definition same_table (c c' : Cache) : Prop :=
  counters c' = counters c /\ (forall s, rd_slot c' s = rd_slot c s) /\ forall a, dat c' a = dat c a.

Lemma same_table_trans c1 c2 c3 : same_table c1 c2 -> same_table c2 c3 -> same_table c1 c3.
Proof. intros (?&H1&?) (?&H2&?). split_and!; [congruence|intros; by rewrite H2|intros; congruence]. Qed.
#[export] Instance same_table_preorder : PreOrder same_table.
Proof. split; [done|exact same_table_trans]. Qed.

(** Case analysis of an update of the heap at [a]. *)
Ltac heap_cases x a :=
  destruct (decide (x = a)) as [->|?]; [rewrite ?lookup_insert_eq|rewrite ?lookup_insert_ne by done].

Lemma update_next c a e v :
  heap c !! a = Some e ->
  exists c', update c (Some a) (set_next v) = Some c' /\ same_table c c' /\
    (forall x, nx c' x = if decide (x = a) then v else nx c x) /\ (forall x, pv c' x = pv c x).
Proof.
  intros He. unfold update. simpl. rewrite He. simpl. eexists. split; [done|].
  unfold same_table, counters, dat, nx, pv. simpl. split_and!; [done|intros [i|x]; [done|]| | |];
    try (intros x); simpl; heap_cases x a; by rewrite ?He.
Qed.
Lemma update_prev c a e v :
  heap c !! a = Some e ->
  exists c', update c (Some a) (set_prev v) = Some c' /\ same_table c c' /\
    (forall x, nx c' x = nx c x) /\ (forall x, pv c' x = if decide (x = a) then v else pv c x).
Proof.
  intros He. unfold update. simpl. rewrite He. simpl. eexists. split; [done|].
  unfold same_table, counters, dat, nx, pv. simpl. split_and!; [done|intros [i|x]; [done|]| | |];
    try (intros x); simpl; heap_cases x a; by rewrite ?He.
Qed.

Definition ring (c : Cache) (l : list nat) : Prop := seg (nx c) (pv c) MRU l MRU.

Lemma ring_nodup l : NoDup (MRU :: l) -> NoDup (l ++ [MRU]).
Proof.
  intros [H1 H2]%NoDup_cons. apply NoDup_app. split_and!; [done| |apply NoDup_singleton]. set_solver.
Qed.

Lemma mru_remove_ok c l1 e l2 :
  NoDup (MRU :: l1 ++ e :: l2) -> ring c (l1 ++ e :: l2) ->
  exists c', entry_mru_remove c (Some e) = Some c' /\ same_table c c' /\ ring c' (l1 ++ l2).
Proof.
  intros Hn H. apply seg_app in H as [H1 H2].
  destruct (seg_last _ _ _ _ _ H1) as (p & Hp & Hpin). destruct (seg_first _ _ _ _ _ H2) as (n & Hnx & Hnin).
  destruct (pv_some _ _ _ Hp) as (ee & Hee & Ep). assert (En : mru_next ee = Some n) by (unfold nx in Hnx; by rewrite Hee in Hnx).
  assert (Hhp : exists ep, heap c !! p = Some ep).
  { apply elem_of_cons in Hpin as [->|Hin].
    - destruct (seg_first _ _ _ _ _ H1) as (b & Hb & _). destruct (nx_some _ _ _ Hb) as (? & ? & _). eauto.
    - apply list_elem_of_split in Hin as (A & B & ->). apply seg_app in H1 as [_ HB].
      destruct (seg_first _ _ _ _ _ HB) as (b & Hb & _). destruct (nx_some _ _ _ Hb) as (? & ? & _). eauto. }
  destruct Hhp as (ep & Hep). unfold entry_mru_remove. cbn [fetch mbind option_bind]. rewrite Hee. cbn [mbind option_bind].
  rewrite Ep, En. destruct (update_next c p ep (Some n) Hep) as (c1 & -> & Hs1 & Hf1 & Hg1). cbn [mbind option_bind].
  assert (He1 : exists e1, heap c1 !! e = Some e1 /\ mru_prev e1 = Some p /\ mru_next e1 = Some n).
  { assert (Hpv : pv c1 e = Some p) by (by rewrite Hg1). destruct (pv_some _ _ _ Hpv) as (e1 & E1 & Ep1). exists e1. split_and!; [done..|].
    assert (Hnx1 : nx c1 e = Some n) by (rewrite Hf1; case_decide; [done|exact Hnx]).
    unfold nx in Hnx1. by rewrite E1 in Hnx1. }
  destruct He1 as (e1 & E1 & Ep1 & En1). rewrite E1. cbn [mbind option_bind]. rewrite Ep1, En1.
  assert (Hhn : exists en, heap c1 !! n = Some en).
  { apply dat_some. rewrite (proj2 (proj2 Hs1)). apply dat_some. apply elem_of_app in Hnin as [Hin|Hin].
    - apply list_elem_of_split in Hin as (A & B & ->). apply seg_app in H2 as [HA _].
      destruct (seg_last _ _ _ _ _ HA) as (b & Hb & _). destruct (pv_some _ _ _ Hb) as (? & ? & _). eauto.
    - assert (n = MRU) as -> by set_solver.
      destruct (seg_last _ _ _ _ _ H2) as (b & Hb & _). destruct (pv_some _ _ _ Hb) as (? & ? & _). eauto. }
  destruct Hhn as (en & Hen). destruct (update_prev c1 n en (Some p) Hen) as (c2 & -> & Hs2 & Hf2 & Hg2).
  exists c2. split_and!; [done|by etransitivity|]. eapply (seg_unlink (nx c) (pv c)); [exact Hn| |done..| |].
  - pose proof (ring_nodup _ Hn) as Hn'. by rewrite <- app_assoc in Hn'.
  - intros a. by rewrite Hf2, Hf1.
  - intros a. by rewrite Hg2, Hg1.
Qed.

Lemma mru_add_ok c l e :
  NoDup (MRU :: l) -> e ∉ MRU :: l -> is_Some (heap c !! e) -> ring c l ->
  exists c', entry_mru_add c (Some e) (Some MRU) = Some c' /\ same_table c c' /\ ring c' (e :: l).
Proof.
  intros Hn He [ee Hee] H. destruct (seg_first _ _ _ _ _ H) as (b & Hb & Hbin).
  destruct (nx_some _ _ _ Hb) as (em & Hem & Enx). unfold entry_mru_add. cbn [fetch mbind option_bind]. rewrite Hem. cbn [mbind option_bind].
  rewrite Enx. destruct (update_next c e ee (Some b) Hee) as (c1 & -> & Hs1 & Hf1 & Hg1). cbn [mbind option_bind].
  assert (Hd1 : forall a, is_Some (heap c1 !! a) <-> is_Some (heap c !! a)) by (intros a; rewrite <- !dat_some; by rewrite (proj2 (proj2 Hs1))).
  destruct (proj2 (Hd1 e)) as [e1 He1]; [eauto|].
  destruct (update_prev c1 e e1 (Some MRU) He1) as (c2 & -> & Hs2 & Hf2 & Hg2). cbn [mbind option_bind].
  assert (Hd2 : forall a, is_Some (heap c2 !! a) <-> is_Some (heap c !! a)) by (intros a; rewrite <- Hd1, <- !dat_some; by rewrite (proj2 (proj2 Hs2))).
  destruct (proj2 (Hd2 MRU)) as [m2 Hm2]; [eauto|].
  destruct (update_next c2 MRU m2 (Some e) Hm2) as (c3 & -> & Hs3 & Hf3 & Hg3). cbn [mbind option_bind].
  assert (Hd3 : forall a, is_Some (heap c3 !! a) <-> is_Some (heap c !! a)) by (intros a; rewrite <- Hd2, <- !dat_some; by rewrite (proj2 (proj2 Hs3))).
  destruct (proj2 (Hd3 b)) as [b3 Hb3].
  { destruct l as [|a l]; simpl in H; [destruct H as [H _]|destruct H as (H & Hpv & _)]; rewrite Hb in H; injection H as E; rewrite E; [eauto|].
    destruct (pv_some _ _ _ Hpv) as (? & ? & _). eauto. }
  destruct (update_prev c3 b b3 (Some e) Hb3) as (c4 & -> & Hs4 & Hf4 & Hg4).
  exists c4. split; [done|]. split; [by repeat (etransitivity; [eassumption|])|].
  eapply (seg_push (nx c) (pv c) _ _ _ _ _ _ b); [done|by apply ring_nodup| |done|done| |].
  - rewrite not_elem_of_cons, not_elem_of_app. set_solver.
  - intros a. rewrite Hf4, Hf3, Hf2, Hf1. done.
  - intros a. rewrite Hg4, Hg3, Hg2, Hg1. done.
Qed.

(** ** Slots, allocation and release *)

(** Only the slot [s] changes. *)
Definition same_but_slot (c c' : Cache) (s : slot) (v : option nat) : Prop :=
  counters c' = counters c /\ (forall s', rd_slot c' s' = if decide (s' = s) then Some v else rd_slot c s') /\
  (forall a, dat c' a = dat c a) /\ (forall a, nx c' a = nx c a) /\ forall a, pv c' a = pv c a.

Lemma wr_slot_ok c s v :
  is_Some (rd_slot c s) -> exists c', wr_slot c s v = Some c' /\ same_but_slot c c' s v.
Proof.
  intros [p Hp]. destruct s as [i|a]; simpl in *.
  - rewrite Hp. simpl. eexists. split; [done|]. unfold same_but_slot, counters. cbn [set_entries max_entries num_entries generation last_id entries]. rewrite length_insert.
    split_and!; try done. intros [j|x]; [|by rewrite decide_False]. cbn [rd_slot set_entries entries].
    destruct (decide (j = i)) as [->|].
    + rewrite decide_True, list_lookup_insert_eq by (done || by eapply lookup_lt_Some). done.
    + rewrite decide_False, list_lookup_insert_ne by congruence. done.
  - destruct (heap c !! a) as [e|] eqn:He; [|done]. unfold update. simpl. rewrite ?He. simpl. eexists. split; [done|].
    unfold same_but_slot, counters, dat, nx, pv. split_and!; [done|intros [i|x]; [by rewrite decide_False|]| | |];
      try (intros x); cbn [rd_slot set_heap heap]; (destruct (decide (x = a)) as [->|]; [rewrite ?lookup_insert_eq, ?He|rewrite ?lookup_insert_ne by done]);
      rewrite ?decide_True by done; rewrite ?decide_False by congruence; done.
Qed.

(** The entry [a] is gone; nothing else changes. *)
Lemma free_ok c a :
  let c' := entry_free c (Some a) in
  counters c' = counters c /\ entries c' = entries c /\
  (forall x, heap c' !! x = if decide (x = a) then None else heap c !! x).
Proof.
  simpl. split_and!; [done|done|]. intros x. destruct (decide (x = a)) as [->|].
  - apply lookup_delete_eq.
  - by apply lookup_delete_ne.
Qed.

(** Two heaps that agree on the nodes of a list agree on its shape. *)
Lemma ring_agree c c' l :
  (forall x, x ∈ MRU :: l -> heap c' !! x = heap c !! x) -> ring c l -> ring c' l.
Proof.
  intros H. apply seg_frame; intros a Ha; unfold nx, pv; rewrite H; [done| |done|]; set_solver.
Qed.
Lemma chain_agree c c' i l :
  entries c' = entries c -> (forall x, x ∈ l -> heap c' !! x = heap c !! x) ->
  chain (rd_slot c) (Bucket i) l -> chain (rd_slot c') (Bucket i) l.
Proof. intros He H. apply chain_frame; [simpl; congruence|]. intros a Ha. simpl. by rewrite H. Qed.

(** Writing the slot after [l1] in the chain of a bucket. *)
Lemma table_write c c' chs i l1 l2 l3 v :
  NoDup (concat chs) -> chs !! i = Some (l1 ++ l2) ->
  (forall j ch, chs !! j = Some ch -> chain (rd_slot c) (Bucket j) ch) ->
  same_but_slot c c' (after (Bucket i) l1) v -> chain (rd_slot c') (after (Bucket i) l1) l3 ->
  forall j ch, <[i := l1 ++ l3]> chs !! j = Some ch -> chain (rd_slot c') (Bucket j) ch.
Proof.
  intros Hn Hi Ht (_ & HR & _) H3 j ch Hj. destruct (decide (j = i)) as [->|Hne].
  - rewrite list_lookup_insert_eq in Hj by (by eapply lookup_lt_Some). injection Hj as <-.
    pose proof (chains_nodup _ _ _ Hn Hi) as Hn'. apply NoDup_app in Hn' as (Hn1 & _).
    eapply (chain_write (rd_slot c)); [done|done| |by apply Ht|done]. intros s' Hs'. by rewrite HR, decide_False.
  - rewrite list_lookup_insert_ne in Hj by done. specialize (Ht j ch Hj). revert Ht.
    destruct (after_in (Bucket i) l1) as [E|(a & Ha & E)]; rewrite E in HR; apply chain_frame.
    + rewrite HR, decide_False by congruence. done.
    + intros b Hb. by rewrite HR, decide_False.
    + by rewrite HR, decide_False.
    + intros b Hb. rewrite HR, decide_False; [done|]. intros [= ->].
      apply Hne. eapply chains_disjoint; [done|exact Hj|exact Hi|done|set_solver].
Qed.

Lemma update_id c a e v :
  heap c !! a = Some e ->
  exists c', update c (Some a) (set_id v) = Some c' /\ same_table c c' /\
    (forall x, nx c' x = nx c x) /\ (forall x, pv c' x = pv c x).
Proof.
  intros He. unfold update. simpl. rewrite He. simpl. eexists. split; [done|].
  unfold same_table, counters, dat, nx, pv. simpl. split_and!; [done|intros [i|x]; [done|]| | |];
    try (intros x); simpl; heap_cases x a; by rewrite ?He.
Qed.
