(* ===== verification/LruCache.v ===== *)
(** * The resolver's cache is a least-recently-used map

    The abstract cache is the list of its items, the most recently used first.
    The operations on the memory of the cache implement those on the list. *)
From stdpp Require Import gmap.
From S2P Require Import Prelude Buffer DnsPacket NsUnpack NsParse ResCache CacheShape.

(** ** What identifies a query *)
Definition key_id : Type := option Z * nat * option Z * option Z * bytes.

(** The hash, the length, the RD bit, the number of questions and their bytes. *)
Definition kid (q : bytes) : key_id :=
  (entry_hash q, length q, rd_bit q, be16 q 4,
   match _dnsPacket_checkQuery (_dnsPacket_init q) with
   | Some (_, pk) => slice q DNS_HEADER_SIZE (cursor pk - DNS_HEADER_SIZE)
   | None => []
   end).

Definition good_query (q : bytes) : Prop := byte_list q /\ exists e, valid_query q e.

Lemma valid_query_end q e : valid_query q e -> DNS_HEADER_SIZE <= e <= len q.
Proof.
  intros (f & n & Hl & _ & _ & _ & _ & _ & _ & _ & _ & Hq). unfold DNS_HEADER_SIZE in *.
  assert (12 <= len q) by lia. clear Hl. revert Hq. generalize (Z.to_nat n). intros k Hq. revert H.
  induction Hq as [p|k p r s Hr Hrs IH]; intros H; [lia|]. pose proof (question_bounds _ _ _ Hr).
  assert (r <= s <= len q); [|lia]. apply IH. lia.
Qed.

Lemma slice_lookup q i n k : 0 <= i -> 0 <= n -> i + n <= len q ->
  slice q i n !! k = if decide (Z.of_nat k < n) then rd q (i + Z.of_nat k) else None.
Proof.
  intros Hi Hn Hl. unfold slice, from, rd, len in *. case_decide.
  - etransitivity; [apply (lookup_take_lt (A := Z)); lia|]. etransitivity; [apply (lookup_drop (A := Z))|].
    rewrite (proj2 (Z.leb_le 0 _)) by lia. f_equal. lia.
  - apply (lookup_take_ge (A := Z)). lia.
Qed.

Lemma kid_slice q e : byte_list q -> valid_query q e ->
  kid q = (entry_hash q, length q, rd_bit q, be16 q 4, slice q DNS_HEADER_SIZE (e - DNS_HEADER_SIZE)).
Proof.
  intros Hb Hv. destruct (query_check q Hb) as (b & pk & E & _ & Hq). unfold kid. rewrite E.
  by destruct (proj1 (Hq e) Hv) as [_ ->].
Qed.

(** The test of _cache_lookup_p compares what identifies the queries. *)
Definition good_entry (e : Entry) : Prop := good_query (query e) /\ entry_hash (query e) = Some (hash e).

Lemma match_test e k : good_entry e -> good_entry k ->
  (if hash e =? hash k then entry_equals e k else Some false) = Some (bool_decide (kid (query e) = kid (query k))).
Proof.
  intros [[B1 [q1 V1]] H1] [[B2 [q2 V2]] H2].
  rewrite (kid_slice _ _ B1 V1), (kid_slice _ _ B2 V2), H1, H2.
  destruct (Z.eqb_spec (hash e) (hash k)) as [Eh|Eh]; [|by rewrite bool_decide_false by congruence].
  rewrite Eh. unfold entry_equals. destruct (Z.eqb_spec (len (query e)) (len (query k))) as [El|El]; cbn [negb].
  2:{ rewrite bool_decide_false; [done|]. unfold len in El. intros [= Hl _ _ _]. lia. }
  destruct (query_equality _ _ _ _ B1 B2 V1 V2) as (b & -> & Hb & Hq). f_equal.
  pose proof (valid_query_end _ _ V1). pose proof (valid_query_end _ _ V2). unfold DNS_HEADER_SIZE in *.
  apply eq_bool_prop_intro. rewrite bool_decide_spec. rewrite Is_true_true, Hb. split.
  - intros (Hr & Hn & Ha). assert (q1 = q2) as <- by (apply Hq, Hb; done). rewrite Hr, Hn.
    assert (length (query e) = length (query k)) as -> by (unfold len in El; lia). f_equal.
    apply list_eq. intros i. rewrite !slice_lookup by lia. case_decide; [|done]. apply Ha. lia.
  - intros [= Hl Hr Hn Hs]. split_and!; [done|done|].
    assert (q1 = q2) as <-.
    { apply (f_equal len) in Hs. rewrite !len_slice in Hs by lia. lia. }
    intros i Hi. apply (f_equal (fun l => l !! Z.to_nat (i - 12))) in Hs. rewrite !slice_lookup in Hs by lia.
    rewrite !decide_True in Hs by lia. by replace (12 + Z.of_nat (Z.to_nat (i - 12))) with i in Hs by lia.
Qed.

(** ** The abstract cache *)
Record item : Type := Item { it_key : key_id; it_answer : bytes; it_expires : Z }.

Fixpoint lru_find (k : key_id) (l : list item) : option item :=
  match l with
  | [] => None
  | it :: l => if decide (it_key it = k) then Some it else lru_find k l
  end.
Definition lru_drop (k : key_id) (l : list item) : list item := filter (fun it => it_key it <> k) l.

(** A lookup drops a stale item and moves an item that it answers to the front. *)
Definition lru_lookup (l : list item) (k : key_id) (answersize now : Z) : list item * lookup_result :=
  match lru_find k l with
  | None => (l, LookupResult RESOLV_CACHE_NOTFOUND None None)
  | Some it =>
      if it_expires it <=? now then (lru_drop k l, LookupResult RESOLV_CACHE_NOTFOUND None None)
      else if answersize <? len (it_answer it)
      then (l, LookupResult RESOLV_CACHE_UNSUPPORTED (Some (len (it_answer it))) None)
      else (it :: lru_drop k l,
            LookupResult RESOLV_CACHE_FOUND (Some (len (it_answer it))) (Some (it_answer it)))
  end.

(** An insertion into a full cache first drops the item used least recently;
    [mem] says whether there is memory for the item. *)
Definition lru_room (max : Z) (l : list item) : list item :=
  if max <=? Z.of_nat (length l) then take (length l - 1) l else l.
Definition lru_add (max : Z) (l : list item) (k : key_id) (ans : bytes) (ttl now : Z) (mem : bool) : list item :=
  match lru_find k l with
  | Some _ => l
  | None =>
      let l := lru_room max l in
      if (0 <? ttl) && mem then Item k ans (s32 (u32 (ttl + now))) :: l else l
  end.

(** ** Lists without duplicate keys *)
Lemma lru_find_app k l1 it l2 :
  (forall x, x ∈ l1 -> it_key x <> k) -> it_key it = k -> lru_find k (l1 ++ it :: l2) = Some it.
Proof.
  intros Hl Hk. induction l1 as [|x l1 IH]; simpl; [by rewrite decide_True|].
  rewrite decide_False by (apply Hl; set_solver). apply IH. intros y Hy. apply Hl. set_solver.
Qed.
Lemma lru_find_none k l : (forall x, x ∈ l -> it_key x <> k) -> lru_find k l = None.
Proof.
  intros Hl. induction l as [|x l IH]; simpl; [done|].
  rewrite decide_False by (apply Hl; set_solver). apply IH. intros y Hy. apply Hl. set_solver.
Qed.
Lemma lru_drop_none k l : (forall x, x ∈ l -> it_key x <> k) -> lru_drop k l = l.
Proof.
  intros Hl. induction l as [|x l IH]; [done|]. unfold lru_drop. rewrite filter_cons_True by (apply Hl; set_solver).
  f_equal. apply IH. intros y Hy. apply Hl. set_solver.
Qed.

Lemma nodup_keys_app l1 it l2 :
  NoDup (it_key <$> l1 ++ it :: l2) ->
  (forall x, x ∈ l1 -> it_key x <> it_key it) /\ (forall x, x ∈ l2 -> it_key x <> it_key it) /\ NoDup (it_key <$> l1 ++ l2).
Proof.
  rewrite fmap_app, fmap_cons. intros H. rewrite fmap_app. apply NoDup_app in H as (H1 & H2 & H3).
  apply NoDup_cons in H3 as [H3 H4]. split_and!.
  - intros x Hx E. apply (H2 (it_key x)); [by apply list_elem_of_fmap_2|]. rewrite E. set_solver.
  - intros x Hx E. apply H3. rewrite <- E. by apply list_elem_of_fmap_2.
  - apply NoDup_app. split_and!; [done| |done]. intros x Hx Hx'. apply (H2 x); set_solver.
Qed.

Lemma lru_drop_app l1 it l2 :
  NoDup (it_key <$> l1 ++ it :: l2) -> lru_drop (it_key it) (l1 ++ it :: l2) = l1 ++ l2.
Proof.
  intros Hn. destruct (nodup_keys_app _ _ _ Hn) as (H1 & H2 & _). unfold lru_drop.
  rewrite filter_app, filter_cons, decide_False by (intros H; by apply H).
  change (lru_drop (it_key it) l1 ++ lru_drop (it_key it) l2 = l1 ++ l2). by rewrite !lru_drop_none.
Qed.

(** ** What the memory of the cache represents *)

(** The item of an entry. *)
Definition item_of (c : Cache) (a : nat) (it : item) : Prop :=
  exists h q, dat c a = Some (h, q, it_answer it, it_expires it) /\ good_query q /\ entry_hash q = Some h /\ it_key it = kid q.

(** The chain of each bucket; its entries have the hash of the bucket. *)
Definition table_ok (c : Cache) (chs : list (list nat)) : Prop :=
  length chs = length (entries c) /\
  forall i ch, chs !! i = Some ch ->
    chain (rd_slot c) (Bucket i) ch /\
    forall a d, a ∈ ch -> dat c a = Some d -> Z.to_nat (d.1.1.1 mod max_entries c) = i.

Record shape (c : Cache) (l : list nat) (chs : list (list nat)) : Prop := Shape {
  sh_nodup : NoDup (MRU :: l);
  sh_dom : forall a, is_Some (dat c a) <-> a ∈ MRU :: l;
  sh_ring : ring c l;
  sh_table : table_ok c chs;
  sh_perm : concat chs ≡ₚ l;
  sh_max : 0 < max_entries c;
  sh_len : length (entries c) = Z.to_nat (max_entries c);
  sh_num : num_entries c = Z.of_nat (length l);
  sh_full : num_entries c <= max_entries c }.

Definition rep (c : Cache) (its : list item) : Prop :=
  exists l chs, shape c l chs /\ Forall2 (item_of c) l its /\ NoDup (it_key <$> its).

(** ** Finding an entry *)
Lemma lookup_loop_ok c key ch s fuel :
  good_entry key -> chain (rd_slot c) s ch ->
  (forall a, a ∈ ch -> exists e, heap c !! a = Some e /\ good_entry e) -> (length ch < fuel)%nat ->
  exists l1 l2, ch = l1 ++ l2 /\ lookup_loop fuel c key s = Some (after s l1) /\
    (forall a e, a ∈ l1 -> heap c !! a = Some e -> kid (query e) <> kid (query key)) /\
    (forall a e, head l2 = Some a -> heap c !! a = Some e -> kid (query e) = kid (query key)).
Proof.
  intros Hkey. revert s fuel. induction ch as [|a ch IH]; intros s fuel Hch Hg Hf;
    (destruct fuel as [|fuel]; [simpl in Hf; lia|]); cbn [lookup_loop]; simpl in Hch.
  - rewrite Hch. exists [], []. split_and!; [done|done|set_solver|done].
  - destruct Hch as [-> Hch]. cbn [mbind option_bind fetch]. destruct (Hg a ltac:(set_solver)) as (e & He & Hge).
    rewrite He. cbn [mbind option_bind]. rewrite (match_test e key) by done. cbn [mbind option_bind].
    case_bool_decide as Hk.
    + exists [], (a :: ch). split_and!; [done|done|set_solver|]. intros ? ? [= <-] He'. congruence.
    + destruct (IH (Hlink a) fuel Hch) as (l1 & l2 & -> & -> & H1 & H2); [intros; apply Hg; set_solver|simpl in Hf; lia|].
      exists (a :: l1), l2. split_and!; [done|done| |done].
      intros b eb [->|Hb]%elem_of_cons Heb; [congruence|by apply (H1 b)].
Qed.

Lemma shape_size c l chs : shape c l chs -> size (heap c) = S (length l).
Proof.
  intros H. rewrite <- size_dom. replace (dom (heap c)) with (list_to_set (MRU :: l) : gset nat).
  - rewrite size_list_to_set by apply H. done.
  - apply set_eq. intros a. rewrite elem_of_list_to_set, elem_of_dom, <- dat_some. by rewrite (sh_dom _ _ _ H).
Qed.

Lemma chain_length c l chs i ch : shape c l chs -> chs !! i = Some ch -> (length ch <= length l)%nat.
Proof.
  intros H Hi. rewrite <- (sh_perm _ _ _ H), <- (take_drop_middle chs i ch Hi), concat_app. simpl.
  rewrite !length_app. lia.
Qed.

(** The key of the entry at [a]. *)
Definition key_at (c : Cache) (a : nat) (k : key_id) : Prop := exists it, item_of c a it /\ it_key it = k.

Lemma key_at_entry c a e k : key_at c a k -> heap c !! a = Some e -> good_entry e /\ kid (query e) = k.
Proof.
  intros (it & (h & q & Hd & Hq & Hh & Hk) & <-) He. apply dat_heap in Hd as (e' & He' & [= <- <- _ _]).
  rewrite He in He'. injection He' as ->. done.
Qed.

Lemma item_keys c l its : Forall2 (item_of c) l its -> forall a, a ∈ l -> exists k, key_at c a k.
Proof.
  intros H a Ha. apply list_elem_of_lookup in Ha as [i Hi]. destruct (Forall2_lookup_l _ _ _ _ _ H Hi) as (it & _ & Hit).
  by exists (it_key it), it.
Qed.

(** _cache_lookup_p: the slot after the entries of the chain that do not match. *)
Lemma lookup_p_ok c l chs its key :
  shape c l chs -> Forall2 (item_of c) l its -> good_entry key ->
  exists i l1 l2, chs !! i = Some (l1 ++ l2) /\ Z.to_nat (hash key mod max_entries c) = i /\
    _cache_lookup_p c key = Some (after (Bucket i) l1) /\ rd_slot c (after (Bucket i) l1) = Some (head l2) /\
    match l2 with
    | [] => forall it, it ∈ its -> it_key it <> kid (query key)
    | a :: _ => key_at c a (kid (query key)) /\ a ∈ l
    end.
Proof.
  intros Hs Hits Hkey. pose proof (sh_table _ _ _ Hs) as [Hlen Ht].
  set (i := Z.to_nat (hash key mod max_entries c)).
  pose proof (Z.mod_pos_bound (hash key) (max_entries c) (sh_max _ _ _ Hs)).
  destruct (chs !! i) as [ch|] eqn:Hi.
  2:{ apply lookup_ge_None in Hi. rewrite Hlen, (sh_len _ _ _ Hs) in Hi. lia. }
  assert (Hin : forall a, a ∈ ch -> a ∈ l).
  { intros a Ha. rewrite <- (sh_perm _ _ _ Hs). apply elem_of_chains. eauto. }
  destruct (Ht i ch Hi) as [Hch Hidx].
  destruct (lookup_loop_ok c key ch (Bucket i) (walk_fuel c) Hkey Hch) as (l1 & l2 & -> & Hl & H1 & H2).
  { intros a Ha. destruct (item_keys _ _ _ Hits a (Hin a Ha)) as [k Hk].
    destruct (proj1 (dat_some c a)) as [e He]; [apply (sh_dom _ _ _ Hs); right; auto|].
    exists e. split; [done|]. by eapply key_at_entry. }
  { unfold walk_fuel. rewrite (shape_size _ _ _ Hs). pose proof (chain_length _ _ _ _ _ Hs Hi). lia. }
  exists i, l1, l2. split_and!; [done|done|done| |].
  { pose proof (chain_split _ _ _ _ Hch) as Hc. destruct l2; simpl in *; [done|apply Hc]. }
  destruct l2 as [|a l2].
  - intros it Hit E. apply list_elem_of_lookup in Hit as [j Hj].
    destruct (Forall2_lookup_r _ _ _ _ _ Hits Hj) as (a & Ha & h & q & Hd & Hq & Hh & Hk).
    assert (Hal : a ∈ concat chs) by (rewrite (sh_perm _ _ _ Hs); by eapply list_elem_of_lookup_2).
    apply elem_of_chains in Hal as (i' & ch' & Hi' & Ha'). destruct (Ht i' ch' Hi') as [_ Hidx'].
    specialize (Hidx' a _ Ha' Hd). simpl in Hidx'.
    assert (h = hash key).
    { rewrite Hk in E. apply (f_equal (fun k => k.1.1.1.1)) in E. simpl in E. destruct Hkey as [_ Hkh]. congruence. }
    assert (i' = i) as -> by (subst; done). rewrite Hi in Hi'. injection Hi' as <-. rewrite app_nil_r in Ha'.
    apply dat_heap in Hd as (e & He & [= _ <- _ _]). apply (H1 a e Ha' He). congruence.
  - assert (Ha : a ∈ l) by (apply Hin; set_solver). split; [|done].
    destruct (item_keys _ _ _ Hits a Ha) as [k Hk]. destruct (proj1 (dat_some c a)) as [e He]; [apply (sh_dom _ _ _ Hs); by right|].
    destruct (key_at_entry _ _ _ _ Hk He) as [_ <-]. by rewrite <- (H2 a e).
Qed.

(** ** Removing and adding entries *)
Lemma counters_same c c' : counters c' = counters c ->
  max_entries c' = max_entries c /\ num_entries c' = num_entries c /\ generation c' = generation c /\
  length (entries c') = length (entries c).
Proof. unfold counters. by intros [= -> -> -> _ ->]. Qed.

Lemma concat_remove (chs : list (list nat)) i l1 (a : nat) l2 A B :
  chs !! i = Some (l1 ++ a :: l2) -> concat chs ≡ₚ A ++ a :: B -> concat (<[i := l1 ++ l2]> chs) ≡ₚ A ++ B.
Proof.
  intros Hi Hp. pose proof (chains_update chs i _ (l1 ++ l2) Hi) as H. rewrite Hp in H.
  rewrite <- (Permutation_middle l1 l2 a), <- (Permutation_middle A B a), <- (Permutation_middle _ (l1 ++ l2) a) in H.
  simpl in H. by apply Permutation_cons_inv, Permutation_app_inv_r in H.
Qed.

Lemma remove_p_ok c A a B chs i l1 l2 :
  shape c (A ++ a :: B) chs -> chs !! i = Some (l1 ++ a :: l2) ->
  exists c', _cache_remove_p c (after (Bucket i) l1) = Some c' /\ shape c' (A ++ B) (<[i := l1 ++ l2]> chs) /\
    max_entries c' = max_entries c /\ generation c' = generation c /\ forall x, x <> a -> dat c' x = dat c x.
Proof.
  intros Hs Hi. pose proof (sh_table _ _ _ Hs) as [Hlen Ht].
  assert (Hn : NoDup (concat chs)).
  { rewrite (sh_perm _ _ _ Hs). pose proof (sh_nodup _ _ _ Hs) as H. by apply NoDup_cons in H as [_ ?]. }
  destruct (Ht i _ Hi) as [Hch _]. pose proof (chain_split _ _ _ _ Hch) as [Hsl Hrest].
  pose proof (chains_nodup _ _ _ Hn Hi) as Hnch. apply NoDup_app in Hnch as (_ & Hdis & Hnch).
  apply NoDup_cons in Hnch as [Hal2 Hnl2].
  unfold _cache_remove_p. rewrite Hsl. cbn [mbind option_bind].
  destruct (mru_remove_ok c A a B (sh_nodup _ _ _ Hs) (sh_ring _ _ _ Hs)) as (c1 & -> & (Hc1 & HR1 & Hd1) & Hring1).
  cbn [mbind option_bind].
  assert (Ha : is_Some (heap c1 !! a)).
  { apply dat_some. rewrite Hd1. apply (sh_dom _ _ _ Hs). set_solver. }
  destruct Ha as [n Hna]. cbn [fetch mbind option_bind]. rewrite Hna. cbn [mbind option_bind].
  destruct (wr_slot_ok c1 (after (Bucket i) l1) (hlink n)) as (c2 & -> & Hsb); [rewrite HR1, Hsl; eauto|].
  cbn [mbind option_bind]. pose proof Hsb as (Hc2 & HR2 & Hd2 & Hnx2 & Hpv2).
  set (c3 := entry_free c2 (Some a)).
  destruct (free_ok c2 a) as (Hc3 & He3 & Hh3). fold c3 in Hc3, He3, Hh3.
  assert (Hl2 : chain (rd_slot c2) (after (Bucket i) l1) l2).
  { apply (chain_frame (rd_slot c) _ (Hlink a)); [|intros b Hb|exact Hrest].
    - rewrite HR2, decide_True by done. rewrite <- HR1. simpl. by rewrite Hna.
    - rewrite HR2, decide_False; [by rewrite HR1|]. intros E.
      destruct (after_in (Bucket i) l1) as [E'|(x & Hx & E')]; rewrite E' in E; [done|]. injection E as ->.
      apply (Hdis x Hx). set_solver. }
  assert (Htab : forall j ch, <[i := l1 ++ l2]> chs !! j = Some ch -> chain (rd_slot c2) (Bucket j) ch).
  { eapply (table_write c1); [done|exact Hi| |exact Hsb|exact Hl2].
    intros j ch Hj. destruct (Ht j ch Hj) as [H _]. revert H. apply chain_frame; [apply HR1|]. intros x _. apply HR1. }
  pose proof (concat_remove _ _ _ _ _ _ _ Hi (sh_perm _ _ _ Hs)) as Hperm.
  pose proof (sh_nodup _ _ _ Hs) as Hnd. rewrite <- Permutation_middle in Hnd.
  assert (Ha' : a ∉ MRU :: A ++ B /\ NoDup (MRU :: A ++ B)).
  { rewrite (Permutation_swap a MRU (A ++ B)) in Hnd. by apply NoDup_cons in Hnd. }
  destruct Ha' as [Ha' Hnd'].
  assert (Hdat : forall x, x <> a -> dat c3 x = dat c x).
  { intros x Hx. rewrite <- Hd1, <- Hd2. unfold dat. by rewrite Hh3, decide_False. }
  apply counters_same in Hc1 as (Hm1 & Hn1 & Hg1 & Hl1). apply counters_same in Hc2 as (Hm2 & Hn2 & Hg2 & Hle2).
  apply counters_same in Hc3 as (Hm3 & Hn3 & Hg3 & Hle3).
  exists (set_num c3 (num_entries c3 - 1)). split; [done|].
  assert (Hnum : num_entries c3 = num_entries c) by congruence.
  split; [|split_and!; [simpl; congruence|simpl; congruence|exact Hdat]].
  pose proof (sh_num _ _ _ Hs) as Hcount. rewrite length_app in Hcount. simpl in Hcount. pose proof (sh_full _ _ _ Hs).
  split; cbn [set_num max_entries num_entries entries].
  - done.
  - intros x. change (dat (set_num c3 _) x) with (dat c3 x). destruct (decide (x = a)) as [->|Hx].
    + unfold dat. rewrite Hh3, decide_True by done. split; [by intros []|done].
    + rewrite (Hdat x Hx), (sh_dom _ _ _ Hs). set_solver.
  - apply (ring_agree c2); [|revert Hring1; apply seg_frame; intros; auto].
    intros x Hx. simpl heap. fold c3. rewrite Hh3, decide_False by set_solver. done.
  - split; [rewrite length_insert; cbn [set_num entries]; congruence|]. intros j ch Hj. split.
    + apply (chain_agree c2); [done| |by apply Htab]. intros x Hx. simpl heap. rewrite Hh3, decide_False; [done|].
      intros ->. apply Ha'. right. rewrite <- Hperm. apply elem_of_chains. eauto.
    + intros x d Hx Hd. cbn [set_num max_entries]. replace (max_entries c3) with (max_entries c) by congruence.
      assert (x <> a) by (intros ->; unfold dat in Hd; simpl in Hd; rewrite lookup_delete_eq in Hd; done).
      change (dat c3 x = Some d) in Hd. rewrite Hdat in Hd by done.
      destruct (decide (j = i)) as [->|Hne].
      * rewrite list_lookup_insert_eq in Hj by (by eapply lookup_lt_Some). injection Hj as <-.
        apply (proj2 (Ht i _ Hi) x d); [set_solver|done].
      * rewrite list_lookup_insert_ne in Hj by done. by apply (proj2 (Ht j _ Hj) x d).
  - exact Hperm.
  - replace (max_entries c3) with (max_entries c) by congruence. apply Hs.
  - replace (length (entries c3)) with (length (entries c)) by congruence.
    replace (max_entries c3) with (max_entries c) by congruence. apply Hs.
  - rewrite length_app. lia.
  - replace (max_entries c3) with (max_entries c) by congruence. lia.
Qed.

(** Only the order of use changes. *)
Lemma shape_reorder c c' l l' chs :
  same_table c c' -> ring c' l' -> l' ≡ₚ l -> shape c l chs -> shape c' l' chs.
Proof.
  intros (Hc & HR & Hd) Hring Hp Hs. apply counters_same in Hc as (Hm & Hn & _ & Hl).
  pose proof (sh_table _ _ _ Hs) as [Hlen Ht].
  split; rewrite ?Hm, ?Hn, ?Hl; try apply Hs; try done.
  - rewrite Hp. apply Hs.
  - intros a. rewrite Hd, Hp. apply Hs.
  - split; [congruence|]. intros i ch Hi. destruct (Ht i ch Hi) as [Hch Hidx]. split.
    + revert Hch. apply chain_frame; auto.
    + intros a d Ha. rewrite Hd, Hm. by apply Hidx.
  - rewrite Hp. apply Hs.
  - rewrite Hp. apply Hs.
Qed.

Lemma items_same c c' l its : (forall a, a ∈ l -> dat c' a = dat c a) -> Forall2 (item_of c) l its -> Forall2 (item_of c') l its.
Proof.
  intros Hd H. induction H as [|a it l its (h & q & Hx & ?) H IH]; constructor.
  - exists h, q. by rewrite Hd by set_solver.
  - apply IH. intros b Hb. apply Hd. set_solver.
Qed.

(** Moving an entry to the front of the list of uses. *)
Definition bump (c : Cache) (e : option nat) : option Cache :=
  l ← fetch c (Some MRU);
  if bool_decide (e <> mru_next l) then c ← entry_mru_remove c e; entry_mru_add c e (Some MRU) else Some c.

Lemma bump_ok c A a B chs :
  shape c (A ++ a :: B) chs ->
  exists c', bump c (Some a) = Some c' /\ shape c' (a :: A ++ B) chs /\ same_table c c'.
Proof.
  intros Hs. pose proof (sh_ring _ _ _ Hs) as Hring. destruct (seg_first _ _ _ _ _ Hring) as (b & Hb & _).
  destruct (nx_some _ _ _ Hb) as (m & Hm & Enx). unfold bump. cbn [fetch mbind option_bind]. rewrite Hm. cbn [mbind option_bind].
  rewrite Enx. case_bool_decide as Hab.
  - destruct (mru_remove_ok c A a B (sh_nodup _ _ _ Hs) Hring) as (c1 & -> & Hs1 & Hring1). cbn [mbind option_bind].
    pose proof (sh_nodup _ _ _ Hs) as Hnd. rewrite <- Permutation_middle, (Permutation_swap a MRU (A ++ B)) in Hnd.
    apply NoDup_cons in Hnd as [Ha Hnd].
    destruct (mru_add_ok c1 (A ++ B) a Hnd Ha) as (c2 & -> & Hs2 & Hring2); [|done|].
    { apply dat_some. rewrite (proj2 (proj2 Hs1)). apply (sh_dom _ _ _ Hs). set_solver. }
    exists c2. assert (same_table c c2) by (by etransitivity). split_and!; [done| |done].
    eapply shape_reorder; [done|done|apply Permutation_middle|done].
  - destruct (decide (Some a = Some b)) as [[= ->]|]; [|done].
    destruct A as [|x A].
    + exists c. by split_and!.
    + simpl in Hring. destruct Hring as (Hx & _). rewrite Hx in Hb. injection Hb as ->.
      pose proof (sh_nodup _ _ _ Hs) as Hnd. apply NoDup_cons in Hnd as [_ Hnd]. simpl in Hnd. apply NoDup_cons in Hnd as [Hnd _]. set_solver.
Qed.

(** A fresh entry at the end of the chain of its bucket. *)
Lemma add_p_ok c l chs i ch a e key ans ttl now :
  shape c l chs -> chs !! i = Some ch -> a ∉ MRU :: l -> num_entries c < max_entries c ->
  e = MkEntry (hash key) None None None (query key) ans (s32 (u32 (ttl + now))) 0 ->
  Z.to_nat (hash key mod max_entries c) = i ->
  exists c', _cache_add_p (set_heap c (<[a := e]> (heap c))) (after (Bucket i) ch) (Some a) = Some c' /\
    shape c' (a :: l) (<[i := ch ++ [a]]> chs) /\ max_entries c' = max_entries c /\ generation c' = generation c /\
    dat c' a = Some (hash key, query key, ans, s32 (u32 (ttl + now))) /\ forall x, x <> a -> dat c' x = dat c x.
Proof.
  intros Hs Hi Ha Hroom -> Hidx. set (e := MkEntry _ _ _ _ _ _ _ _). set (c0 := set_heap c _).
  pose proof (sh_table _ _ _ Hs) as [Hlen Ht].
  assert (Hh0 : forall x, heap c0 !! x = if decide (x = a) then Some e else heap c !! x).
  { intros x. unfold c0. simpl. destruct (decide (x = a)) as [->|]; [apply lookup_insert_eq|by apply lookup_insert_ne]. }
  assert (Hne : forall x, x ∈ MRU :: l -> heap c0 !! x = heap c !! x).
  { intros x Hx. rewrite Hh0, decide_False; [done|]. intros ->. done. }
  assert (Hn : NoDup (concat chs)).
  { rewrite (sh_perm _ _ _ Hs). pose proof (sh_nodup _ _ _ Hs) as H. by apply NoDup_cons in H as [_ ?]. }
  assert (Hchin : forall j ch' x, chs !! j = Some ch' -> x ∈ ch' -> x ∈ l).
  { intros j ch' x Hj Hx. rewrite <- (sh_perm _ _ _ Hs). apply elem_of_chains. eauto. }
  assert (Hch0 : forall j ch', chs !! j = Some ch' -> chain (rd_slot c0) (Bucket j) ch').
  { intros j ch' Hj. apply (chain_agree c); [done| |by apply Ht]. intros x Hx. apply Hne. right. by eapply Hchin. }
  pose proof (chain_split _ _ ch [] ltac:(rewrite app_nil_r; exact (Hch0 i ch Hi))) as Hsl. simpl in Hsl.
  unfold _cache_add_p. destruct (wr_slot_ok c0 (after (Bucket i) ch) (Some a)) as (c1 & -> & Hsb); [eauto|].
  cbn [mbind option_bind]. pose proof Hsb as (Hc1 & HR1 & Hd1 & Hnx1 & Hpv1).
  set (c2 := set_last_id c1 _).
  assert (Ha1 : is_Some (heap c2 !! a)).
  { change (heap c2) with (heap c1). apply dat_some. rewrite Hd1. apply dat_some. rewrite Hh0, decide_True by done. eauto. }
  destruct Ha1 as [e1 He1]. destruct (update_id c2 a e1 (last_id c2) He1) as (c3 & -> & Hs3 & Hnx3 & Hpv3). cbn [mbind option_bind].
  assert (Hring3 : ring c3 l).
  { apply (seg_frame (nx c0) (pv c0)); [intros x _; rewrite Hnx3; apply Hnx1|intros x _; rewrite Hpv3; apply Hpv1|].
    apply (ring_agree c); [done|apply Hs]. }
  destruct (mru_add_ok c3 l a (sh_nodup _ _ _ Hs) Ha) as (c4 & -> & Hs4 & Hring4); [|done|].
  { apply dat_some. rewrite (proj2 (proj2 Hs3)). apply dat_some. eauto. }
  cbn [mbind option_bind].
  assert (Hs24 : same_table c2 c4) by (by etransitivity). destruct Hs24 as (Hc4 & HR4 & Hd4).
  apply counters_same in Hc1 as (Hm1 & Hn1 & Hg1 & Hl1). apply counters_same in Hc4 as (Hm4 & Hn4 & Hg4 & Hl4). simpl in Hm4, Hn4, Hg4, Hl4.
  exists (set_num c4 (num_entries c4 + 1)). split; [done|].
  assert (Hm : max_entries c4 = max_entries c) by (rewrite Hm4, Hm1; done).
  assert (Hnum : num_entries c4 = num_entries c) by (rewrite Hn4, Hn1; done).
  assert (Hlent : length (entries c4) = length (entries c)) by (rewrite Hl4, Hl1; done).
  assert (Hdat : forall x, dat c4 x = if decide (x = a) then Some (hash key, query key, ans, s32 (u32 (ttl + now))) else dat c x).
  { intros x. rewrite Hd4. change (dat c2 x) with (dat c1 x). rewrite Hd1. unfold dat. rewrite Hh0. by case_decide. }
  split; [|split_and!; simpl; [congruence|rewrite Hg4, Hg1; done|change (dat (set_num c4 _) a) with (dat c4 a); rewrite Hdat, decide_True; done|]].
  2:{ intros x Hx. change (dat c4 x = dat c x). by rewrite Hdat, decide_False. }
  assert (Hchain : forall j ch', <[i := ch ++ [a]]> chs !! j = Some ch' -> chain (rd_slot c4) (Bucket j) ch').
  { intros j ch' Hj. apply (chain_frame (rd_slot c1) _ (Bucket j)); [apply HR4|intros x _; apply HR4|]. revert j ch' Hj.
    eapply (table_write c0 c1 chs i ch [] [a]); [done|by rewrite app_nil_r|exact Hch0|exact Hsb|].
    cbn [chain]. split; rewrite HR1; [by rewrite decide_True|]. rewrite decide_False; [cbn [rd_slot]; by rewrite Hh0, decide_True|].
    intros E. destruct (after_in (Bucket i) ch) as [E'|(x & Hx & E')]; rewrite E' in E; [done|]. injection E as ->.
    apply Ha. right. by eapply Hchin. }
  pose proof (sh_num _ _ _ Hs). pose proof (sh_dom _ _ _ Hs) as Hdom.
  split; cbn [set_num max_entries num_entries entries]; rewrite ?Hm, ?Hnum, ?Hlent; try apply Hs.
  - rewrite (Permutation_swap a MRU l). apply NoDup_cons. split; [done|apply Hs].
  - intros x. change (dat (set_num c4 _) x) with (dat c4 x). rewrite Hdat. case_decide; [subst; split; [set_solver|eauto]|].
    rewrite Hdom. set_solver.
  - exact Hring4.
  - split; [rewrite length_insert; cbn [set_num entries]; congruence|]. intros j ch' Hj. split; [by apply Hchain|].
    intros x d Hx Hd. cbn [set_num max_entries]. rewrite Hm. change (dat c4 x = Some d) in Hd. rewrite Hdat in Hd.
    destruct (decide (j = i)) as [->|Hji].
    + rewrite list_lookup_insert_eq in Hj by (by eapply lookup_lt_Some). injection Hj as <-.
      case_decide; [by injection Hd as <-|]. apply (proj2 (Ht i ch Hi) x); [set_solver|done].
    + rewrite list_lookup_insert_ne in Hj by done. case_decide; [|by apply (proj2 (Ht j ch' Hj) x)].
      subst x. destruct Ha. right. by eapply Hchin.
  - pose proof (chains_update chs i ch (ch ++ [a]) Hi) as H'. rewrite (sh_perm _ _ _ Hs), app_assoc in H'.
    rewrite (Permutation_app_comm l ch), <- app_assoc, (Permutation_app_comm _ ch) in H'. apply Permutation_app_inv_l in H'.
    rewrite H'. by rewrite (Permutation_app_comm l [a]).
  - simpl length. lia.
  - lia.
Qed.

(** ** The operations *)
Lemma hash_total q : byte_list q -> 3 <= len q -> exists h, entry_hash q = Some h.
Proof.
  intros Hb Hl. unfold entry_hash, _dnsPacket_hashQuery. destruct (rd_in q 2) as [f Hf]; [lia|].
  change (base (_dnsPacket_rewind (_dnsPacket_init q))) with q. rewrite Hf. obind.
  assert (Hskip : forall p k, 0 <= p -> 0 <= k -> exists p', _dnsPacket_skip (pkt_at q p) k = pkt_at q p' /\ 0 <= p').
  { intros p k Hp Hk. unfold _dnsPacket_skip, seek, pkt_at. cbn [base end_ cursor]. eexists. split; [done|].
    case_test; [unfold len|]; lia. }
  assert (Hr : forall p, 0 <= p -> exists n p', _dnsPacket_readInt16 (pkt_at q p) = Some (n, pkt_at q p') /\ 0 <= p').
  { intros p Hp. unfold _dnsPacket_readInt16. cbn [base end_ cursor pkt_at]. case_test; zbool; [by exists (-1), p|].
    destruct (rd_in q p) as [a ->]; [lia|]. destruct (rd_in q (p + 1)) as [b ->]; [lia|]. obind.
    eexists _, (p + 2). split; [done|lia]. }
  change (_dnsPacket_rewind (_dnsPacket_init q)) with (pkt_at q 0).
  destruct (Hskip 0 4) as (p0 & -> & Hp0); [done..|]. destruct (Hr p0 Hp0) as (n & p & -> & Hp). obind.
  destruct (Hskip p 6) as (p' & -> & Hp'); [done..|].
  destruct (hash_qrs_spec q q (Z.to_nat n) p' (fnv FNV_BASIS (Z.land f 1)) Hb Hp') as (h & H & _); [done..|]. eauto.
Qed.

(** Whether the cache supports a query: the result of _dnsPacket_checkQuery. *)
Definition supported (q : bytes) : bool :=
  match _dnsPacket_checkQuery (_dnsPacket_init q) with Some (ok, _) => ok | None => false end.

Lemma init_key_ok q :
  byte_list q -> 3 <= len q ->
  exists h, entry_init_key q = Some (MkEntry h None None None q [] 0 0, supported q) /\
    (supported q = true -> good_entry (MkEntry h None None None q [] 0 0)).
Proof.
  intros Hb Hl. destruct (hash_total q Hb Hl) as [h Hh]. exists h. unfold entry_init_key, supported. rewrite Hh.
  destruct (query_check q Hb) as (ok & pk & -> & _ & Hv). cbn [mbind option_bind]. split; [done|]. intros ->.
  split; [|exact Hh]. split; [done|]. exists (cursor pk). by apply Hv.
Qed.

Lemma item_of_det c a it it' : item_of c a it -> item_of c a it' -> it = it'.
Proof.
  intros (h & q & Hd & _ & _ & Hk) (h' & q' & Hd' & _ & _ & Hk'). rewrite Hd in Hd'.
  destruct it, it'. simpl in *. congruence.
Qed.

(** The item of the entry that was found. *)
Lemma found_item c l its a k :
  Forall2 (item_of c) l its -> NoDup (it_key <$> its) -> a ∈ l -> key_at c a k ->
  exists A B IA it IB, l = A ++ a :: B /\ its = IA ++ it :: IB /\ Forall2 (item_of c) A IA /\ item_of c a it /\
    Forall2 (item_of c) B IB /\ it_key it = k /\ lru_find k its = Some it /\ lru_drop k its = IA ++ IB.
Proof.
  intros Hits Hnd Ha (it0 & Hit0 & Hk). apply list_elem_of_split in Ha as (A & B & ->).
  apply Forall2_app_inv_l in Hits as (IA & its' & HA & HB & ->). apply Forall2_cons_inv_l in HB as (it & IB & Hit & HB & ->).
  rewrite (item_of_det _ _ _ _ Hit0 Hit) in Hk. exists A, B, IA, it, IB. destruct (nodup_keys_app _ _ _ Hnd) as (H1 & _ & _).
  subst k. split_and!; try done; [by apply lru_find_app|by apply lru_drop_app].
Qed.

(** Entries with the same key are the same entry. *)
Lemma key_unique c l its a b k :
  Forall2 (item_of c) l its -> NoDup (it_key <$> its) -> a ∈ l -> b ∈ l -> key_at c a k -> key_at c b k -> a = b.
Proof.
  intros Hits Hnd Ha Hb Hka (itb & Hitb & Hkb).
  destruct (found_item c l its a k Hits Hnd Ha Hka) as (A & B & IA & it & IB & -> & -> & HA & Hit & HB & Hk & _).
  destruct (nodup_keys_app _ _ _ Hnd) as (H1 & H2 & _).
  assert (Hin : forall L I, Forall2 (item_of c) L I -> b ∈ L -> itb ∈ I).
  { intros L I HL HbL. apply list_elem_of_lookup in HbL as [i Hi]. destruct (Forall2_lookup_l _ _ _ _ _ HL Hi) as (it' & Hi' & Hit').
    rewrite (item_of_det _ _ _ _ Hitb Hit'). by eapply list_elem_of_lookup_2. }
  apply elem_of_app in Hb as [Hb|[->|Hb]%elem_of_cons]; [|done|].
  - destruct (H1 itb); [by eapply Hin|congruence].
  - destruct (H2 itb); [by eapply Hin|congruence].
Qed.

(** _cache_remove_p at the slot of a found entry drops its item. *)
Lemma remove_found c l chs its i l1 a l2 k :
  shape c l chs -> Forall2 (item_of c) l its -> NoDup (it_key <$> its) ->
  chs !! i = Some (l1 ++ a :: l2) -> a ∈ l -> key_at c a k ->
  exists c', _cache_remove_p c (after (Bucket i) l1) = Some c' /\ rep c' (lru_drop k its) /\
    max_entries c' = max_entries c /\ generation c' = generation c /\ num_entries c' = num_entries c - 1.
Proof.
  intros Hs Hits Hnd Hi Ha Hk.
  destruct (found_item c l its a k Hits Hnd Ha Hk) as (A & B & IA & it & IB & -> & -> & HA & Hit & HB & <- & _ & ->).
  destruct (remove_p_ok c A a B chs i l1 l2 Hs Hi) as (c' & -> & Hs' & Hm & Hg & Hd).
  exists c'. split; [done|]. split; [|split_and!; [done..|]].
  - exists (A ++ B), (<[i := l1 ++ l2]> chs). split; [done|]. split; [|by apply nodup_keys_app in Hnd as (_ & _ & ?)].
    pose proof (sh_nodup _ _ _ Hs) as Hn. apply NoDup_cons in Hn as [_ Hn]. apply NoDup_app in Hn as (_ & Hn1 & Hn2).
    apply NoDup_cons in Hn2 as [Hn2 _].
    apply Forall2_app; (eapply items_same; [|done]); intros x Hx; apply Hd; intros ->; [apply (Hn1 a Hx)|]; set_solver.
  - rewrite (sh_num _ _ _ Hs'), (sh_num _ _ _ Hs), !length_app. simpl. lia.
Qed.

(** The result of a lookup on the abstract cache. *)
Definition lookup_spec (its : list item) (q : bytes) (answersize now : Z) : list item * lookup_result :=
  if supported q then lru_lookup its (kid q) answersize now
  else (its, LookupResult RESOLV_CACHE_UNSUPPORTED None None).

Lemma lookup_simulates c its q answersize now :
  rep c its -> byte_list q -> 3 <= len q ->
  exists c', _resolv_cache_lookup c q answersize now = Some (c', (lookup_spec its q answersize now).2) /\
    rep c' (lookup_spec its q answersize now).1 /\
    max_entries c' = max_entries c /\ generation c' = generation c.
Proof.
  intros (l & chs & Hs & Hits & Hnd) Hb Hl. unfold _resolv_cache_lookup, lookup_spec.
  destruct (init_key_ok q Hb Hl) as (h & -> & Hgood). cbn [mbind option_bind].
  destruct (supported q); cbn [negb]; [|exists c; split_and!; try done; by exists l, chs].
  specialize (Hgood eq_refl).
  destruct (lookup_p_ok c l chs its _ Hs Hits Hgood) as (i & l1 & l2 & Hi & _ & -> & Hrd & Hcase). cbn [mbind option_bind].
  rewrite Hrd. cbn [mbind option_bind query] in *. unfold lru_lookup. destruct l2 as [|a l2]; cbn [hd_error].
  { rewrite (lru_find_none _ _ Hcase). exists c. split_and!; try done. by exists l, chs. }
  destruct Hcase as [Hk Ha].
  destruct (found_item c l its a _ Hits Hnd Ha Hk) as (A & B & IA & it & IB & El & Eits & HA & Hit & HB & Eit & Hf & Hdrop).
  rewrite Hf. destruct Hit as (h' & q' & Hdat & Hq'). pose proof Hdat as (e & He & [= _ _ Eans Eexp])%dat_heap.
  cbn [fetch mbind option_bind]. rewrite He. cbn [mbind option_bind]. rewrite Eexp, Eans.
  destruct (it_expires it <=? now).
  { destruct (remove_found c l chs its i l1 a l2 _ Hs Hits Hnd Hi Ha Hk) as (c' & -> & Hrep & Hm & Hg & _).
    exists c'. by split_and!. }
  destruct (answersize <? len (it_answer it)); [exists c; split_and!; try done; by exists l, chs|].
  subst l. destruct (bump_ok c A a B chs Hs) as (c' & Hbump & Hs' & Hst). unfold bump in Hbump. cbn [fetch mbind option_bind] in Hbump.
  destruct (heap c !! MRU) as [m|]; [|done]. cbn [mbind option_bind] in *.
  destruct (if bool_decide (Some a <> mru_next m) then _ else Some c) as [c1|]; [|done]. injection Hbump as ->.
  exists c'. split; [done|]. destruct Hst as (Hc & _ & Hd). apply counters_same in Hc as (Hm & _ & Hg & _).
  split; [|done]. exists (a :: A ++ B), chs. split; [done|]. rewrite Hdrop. simpl fst. split.
  - apply (items_same c); [intros; apply Hd|]. constructor; [|by apply Forall2_app]. exists h', q'. done.
  - subst its. destruct (nodup_keys_app _ _ _ Hnd) as (H1 & H2 & H3). rewrite fmap_cons. apply NoDup_cons. split; [|done].
    intros (x & Ex & Hx)%list_elem_of_fmap. apply elem_of_app in Hx as [Hx|Hx]; [by apply (H1 x)|by apply (H2 x)].
Qed.

Lemma remove_oldest_ok c its :
  rep c its -> 0 < num_entries c ->
  exists c', _cache_remove_oldest c = Some c' /\ rep c' (take (length its - 1) its) /\
    max_entries c' = max_entries c /\ generation c' = generation c /\ num_entries c' = num_entries c - 1.
Proof.
  intros (l & chs & Hs & Hits & Hnd) Hpos. pose proof (sh_num _ _ _ Hs) as Hnum.
  destruct (exists_last (l := l)) as (A & a & ->); [intros ->; simpl in *; lia|].
  pose proof (seg_prev_end _ _ _ _ _ _ (sh_ring _ _ _ Hs)) as Hpv.
  destruct (pv_some _ _ _ Hpv) as (m & Hm & Epv). unfold _cache_remove_oldest. cbn [fetch mbind option_bind].
  rewrite Hm. cbn [mbind option_bind]. rewrite Epv. cbn [fetch mbind option_bind].
  assert (Ha : a ∈ A ++ [a]) by set_solver.
  destruct (item_keys _ _ _ Hits a Ha) as [k Hk].
  destruct (proj1 (dat_some c a)) as [e He]; [apply (sh_dom _ _ _ Hs); by right|]. rewrite He. cbn [mbind option_bind].
  destruct (key_at_entry _ _ _ _ Hk He) as [Hgood Ek].
  destruct (lookup_p_ok c _ chs its e Hs Hits Hgood) as (i & l1 & l2 & Hi & _ & -> & Hrd & Hcase). cbn [mbind option_bind].
  rewrite Hrd. cbn [mbind option_bind]. rewrite Ek in Hcase.
  destruct (found_item c _ its a k Hits Hnd Ha Hk) as (A' & B' & IA & it & IB & El & Eits & HA & Hit & HB & Eit & _ & Hdrop).
  destruct l2 as [|b l2]; cbn [hd_error]; [destruct (Hcase it); [subst its; set_solver|done]|].
  destruct Hcase as [Hkb Hbl]. assert (b = a) as -> by (exact (key_unique c _ its b a k Hits Hnd Hbl Ha Hkb Hk)).
  destruct (remove_found c _ chs its i l1 a l2 k Hs Hits Hnd Hi Ha Hk) as (c' & -> & Hrep & Hm' & Hg' & Hn').
  exists c'. split_and!; try done.
  assert (B' = []) as ->.
  { destruct B' as [|b0 B0]; [done|].
    pose proof (sh_nodup _ _ _ Hs) as Hn. rewrite El in Hn. apply NoDup_cons in Hn as [_ Hn].
    assert (Hlast : last (A' ++ a :: b0 :: B0) = Some a) by (rewrite <- El; by rewrite last_snoc).
    rewrite last_app_cons, last_cons_cons in Hlast. apply last_Some_elem_of in Hlast.
    apply NoDup_app in Hn as (_ & _ & Hn). apply NoDup_cons in Hn as [Hn _]. done. }
  apply Forall2_nil_inv_l in HB as ->. rewrite Hdrop, app_nil_r in Hrep. subst its.
  rewrite length_app. simpl. replace (length IA + 1 - 1)%nat with (length IA) by lia. by rewrite take_app_length.
Qed.

(** calloc answers the address of a block that is not in use. *)
Definition fresh_blocks (calloc : allocator) : Prop := forall h a, calloc h = Some a -> h !! a = None.

(** [mem] is the answer of calloc on the memory of a cache that holds the items. *)
Definition found_memory (calloc : allocator) (its : list item) (mem : bool) : Prop :=
  exists c, rep c its /\ mem = bool_decide (is_Some (calloc (heap c))).

Lemma found_memory_total calloc its mem : (forall h, is_Some (calloc h)) -> found_memory calloc its mem -> mem = true.
Proof. intros Hall (c & _ & ->). by apply bool_decide_true. Qed.

(** The answer of the list: [mem] says whether calloc found memory. *)
Definition add_spec (max : Z) (its : list item) (q ans : bytes) (ttl now : Z) (mem : bool) : list item :=
  if supported q then lru_add max its (kid q) ans ttl now mem else its.

Section Add.
Context (calloc : allocator) (Hfresh : fresh_blocks calloc).
Context (ans : bytes) (ttl now : Z) (Httl : answer_getTTL ans = Some ttl).

Lemma add_entry_ok c its l chs i ch key :
  shape c l chs -> Forall2 (item_of c) l its -> NoDup (it_key <$> its) -> good_entry key ->
  chs !! i = Some ch -> Z.to_nat (hash key mod max_entries c) = i -> num_entries c < max_entries c ->
  (forall it, it ∈ its -> it_key it <> kid (query key)) ->
  exists c', add_entry c (after (Bucket i) ch) key ans now calloc = Some c' /\
    rep c' (if (0 <? ttl) && bool_decide (is_Some (calloc (heap c))) then Item (kid (query key)) ans (s32 (u32 (ttl + now))) :: its else its) /\
    max_entries c' = max_entries c /\ generation c' = generation c.
Proof using Hfresh Httl.
  intros Hs Hits Hnd Hgood Hi Hidx Hroom Hnew. unfold add_entry. rewrite Httl. cbn [mbind option_bind].
  assert (Hsame : exists c', Some c = Some c' /\ rep c' its /\ max_entries c' = max_entries c /\ generation c' = generation c).
  { exists c. split_and!; try done. by exists l, chs. }
  destruct (0 <? ttl); cbn [andb]; [|done]. unfold entry_alloc.
  destruct (calloc (heap c)) as [a|] eqn:Ea; [|by rewrite bool_decide_false by (by intros [? ?])].
  rewrite bool_decide_true by eauto. pose proof (Hfresh _ _ Ea) as Hnone.
  assert (Ha : a ∉ MRU :: l).
  { intros H. apply (sh_dom _ _ _ Hs), dat_some in H as [? H]. congruence. }
  unfold update. cbn [mbind option_bind set_heap heap]. rewrite lookup_insert_eq. cbn [mbind option_bind]. rewrite insert_insert_eq.
  destruct (add_p_ok c l chs i ch a _ key ans ttl now Hs Hi Ha Hroom eq_refl Hidx) as (c' & E & Hs' & Hm & Hg & Hda & Hd).
  exists c'. split; [exact E|]. split; [|done]. exists (a :: l), (<[i := ch ++ [a]]> chs). split; [done|]. split.
  - constructor; [by exists (hash key), (query key); destruct Hgood|]. apply (items_same c); [|done].
    intros x Hx. apply Hd. intros ->. apply Ha. by right.
  - rewrite fmap_cons. apply NoDup_cons. split; [|done]. intros (x & Ex & Hx)%list_elem_of_fmap. by apply (Hnew x).
Qed.

Lemma add_simulates c its q :
  rep c its -> byte_list q -> 3 <= len q ->
  exists c' mem, _resolv_cache_add c q ans now calloc = Some c' /\
    rep c' (add_spec (max_entries c) its q ans ttl now mem) /\
    max_entries c' = max_entries c /\ generation c' = generation c /\
    (supported q = true -> lru_find (kid q) its = None -> found_memory calloc (lru_room (max_entries c) its) mem).
Proof using Hfresh Httl.
  intros Hrep Hb Hl. unfold _resolv_cache_add, add_spec. destruct (init_key_ok q Hb Hl) as (h & -> & Hgood). cbn [mbind option_bind].
  destruct (supported q); cbn [negb]; [|by exists c, true]. specialize (Hgood eq_refl).
  pose proof Hrep as (l & chs & Hs & Hits & Hnd).
  destruct (lookup_p_ok c l chs its _ Hs Hits Hgood) as (i & l1 & l2 & Hi & Hidx & -> & Hrd & Hcase). cbn [mbind option_bind].
  rewrite Hrd. cbn [mbind option_bind query] in *. unfold lru_add. destruct l2 as [|a l2]; cbn [hd_error].
  2:{ destruct Hcase as [Hk Ha]. destruct (found_item c l its a _ Hits Hnd Ha Hk) as (? & ? & ? & it & ? & ? & ? & ? & ? & ? & ? & Hf & _).
      rewrite Hf. by exists c, true. }
  unfold lru_room. assert (Elen : Z.of_nat (length its) = num_entries c) by (rewrite (sh_num _ _ _ Hs), (Forall2_length _ _ _ Hits); done).
  rewrite (lru_find_none _ _ Hcase), Elen. rewrite app_nil_r in Hi.
  pose proof (sh_max _ _ _ Hs). destruct (Z.leb_spec (max_entries c) (num_entries c)) as [Hfull|Hroom].
  - destruct (remove_oldest_ok c its Hrep ltac:(lia)) as (c1 & -> & Hrep1 & Hm1 & Hg1 & Hn1). cbn [mbind option_bind].
    pose proof Hrep1 as (l' & chs' & Hs' & Hits' & Hnd').
    assert (Hcase' : forall it, it ∈ take (length its - 1) its -> it_key it <> kid q).
    { intros it Hit. apply Hcase. apply list_elem_of_lookup in Hit as [j Hj]. apply lookup_take_Some in Hj as [Hj _].
      by eapply list_elem_of_lookup_2. }
    destruct (lookup_p_ok c1 l' chs' _ _ Hs' Hits' Hgood) as (i' & l1' & l2' & Hi' & Hidx' & -> & Hrd' & Hcase1). cbn [mbind option_bind].
    rewrite Hrd'. cbn [mbind option_bind query] in *. destruct l2' as [|a l2']; cbn [hd_error].
    2:{ destruct Hcase1 as [Hk Ha]. destruct (found_item _ _ _ a _ Hits' Hnd' Ha Hk) as (? & ? & ? & it & ? & ? & Eits & ? & ? & ? & Ek & _).
        destruct (Hcase' it); [rewrite Eits; set_solver|done]. }
    rewrite app_nil_r in Hi'. pose proof (sh_full _ _ _ Hs).
    destruct (add_entry_ok c1 _ l' chs' i' l1' _ Hs' Hits' Hnd' Hgood Hi' Hidx') as (c' & E & Hr & Hm & Hg); [lia|done|].
    exists c', (bool_decide (is_Some (calloc (heap c1)))). split_and!; [exact E|exact Hr|congruence|congruence|].
    intros _ _. by exists c1.
  - destruct (add_entry_ok c its l chs i l1 _ Hs Hits Hnd Hgood Hi Hidx Hroom Hcase) as (c' & E & Hr & Hm & Hg).
    exists c', (bool_decide (is_Some (calloc (heap c)))). split_and!; [exact E|exact Hr|done|done|].
    intros _ _. by exists c.
Qed.
End Add.

(** ** Flushing *)
Lemma concat_replicate_nil n : concat (replicate n []) = @nil nat.
Proof. by induction n. Qed.

Lemma flush_chain_ok c i ch fuel :
  NoDup ch -> chain (rd_slot c) (Bucket i) ch -> (forall a, a ∈ ch -> is_Some (heap c !! a)) -> (length ch < fuel)%nat ->
  exists c', flush_chain fuel c (Bucket i) = Some c' /\ counters c' = counters c /\ entries c' = <[i := None]> (entries c) /\
    forall x, heap c' !! x = if decide (x ∈ ch) then None else heap c !! x.
Proof.
  revert c fuel. induction ch as [|a ch IH]; intros c fuel Hn Hch Hh Hf; (destruct fuel as [|fuel]; [simpl in Hf; lia|]); cbn [flush_chain].
  - cbn [chain] in Hch. rewrite Hch. exists c. split_and!; [done|done| |intros x; by rewrite decide_False by set_solver].
    symmetry. by apply list_insert_id.
  - destruct Hch as [Hrd Hch]. rewrite Hrd. cbn [fetch mbind option_bind]. destruct (Hh a ltac:(set_solver)) as [n Hna].
    rewrite Hna. cbn [mbind option_bind]. cbn [wr_slot rd_slot] in *. rewrite Hrd. cbn [mbind option_bind].
    set (c1 := entry_free _ _). apply NoDup_cons in Hn as [Ha Hn].
    assert (Hh1 : forall x, heap c1 !! x = if decide (x = a) then None else heap c !! x) by (apply (free_ok (set_entries c (<[i := hlink n]> (entries c))) a)).
    destruct (IH c1 fuel Hn) as (c' & -> & Hc & He & Hx).
    + revert Hch. apply chain_frame.
      * cbn [rd_slot c1 entry_free set_heap set_entries entries]. rewrite list_lookup_insert_eq by (by eapply lookup_lt_Some).
        rewrite Hna. done.
      * intros b Hb. cbn [rd_slot]. rewrite Hh1, decide_False; [done|]. by intros ->.
    + intros b Hb. rewrite Hh1, decide_False; [apply Hh; set_solver|]. by intros ->.
    + simpl in Hf. lia.
    + exists c'. split; [done|]. rewrite Hc, He. unfold counters. cbn [c1 entry_free set_heap set_entries entries max_entries num_entries generation last_id].
      rewrite length_insert, list_insert_insert_eq. split_and!; [done|done|]. intros x. rewrite Hx, Hh1.
      destruct (decide (x = a)) as [->|]; [rewrite (decide_True (P := a ∈ a :: ch)) by set_solver; by case_decide|].
      destruct (decide (x ∈ ch)); [rewrite decide_True by set_solver|rewrite decide_False by set_solver]; done.
Qed.

(** The buckets from [nn] on are emptied, and their entries freed. *)
Lemma flush_table_ok chs k nn c :
  NoDup (concat chs) -> (nn + k)%nat = length chs -> length chs = length (entries c) ->
  (forall j ch, (nn <= j)%nat -> chs !! j = Some ch -> chain (rd_slot c) (Bucket j) ch /\ forall a, a ∈ ch -> is_Some (heap c !! a)) ->
  exists c', flush_table k nn c = Some c' /\ counters c' = counters c /\
    (forall j, (nn <= j < length chs)%nat -> entries c' !! j = Some None) /\ (forall j, (j < nn)%nat -> entries c' !! j = entries c !! j) /\
    forall x, heap c' !! x = if decide (x ∈ concat (drop nn chs)) then None else heap c !! x.
Proof.
  intros Hn. revert nn c. induction k as [|k IH]; intros nn c Hk Hlen Hch; cbn [flush_table].
  { exists c. split_and!; [done|done|lia|done|]. intros x. rewrite drop_ge by lia. by rewrite decide_False by set_solver. }
  destruct (chs !! nn) as [ch|] eqn:Ech; [|apply lookup_ge_None in Ech; lia].
  destruct (Hch nn ch ltac:(lia) Ech) as [Hc Hh]. pose proof (chains_nodup _ _ _ Hn Ech) as Hnch.
  destruct (flush_chain_ok c nn ch (walk_fuel c) Hnch Hc Hh) as (c1 & -> & Hc1 & He1 & Hx1).
  { unfold walk_fuel. pose proof (nodup_dom_length _ _ Hnch Hh). lia. }
  cbn [mbind option_bind]. destruct (IH (S nn) c1) as (c' & -> & Hc' & Hnone & Hold & Hx'); [lia| | |].
  { rewrite He1, length_insert. done. }
  { intros j ch' Hj Hj'. destruct (Hch j ch' ltac:(lia) Hj') as [Hcj Hhj].
    assert (Hdis : forall a, a ∈ ch' -> a ∉ ch).
    { intros a Ha Ha'. assert (j = nn); [|lia]. by eapply chains_disjoint. }
    split.
    - revert Hcj. apply chain_frame; [cbn [rd_slot]; by rewrite He1, list_lookup_insert_ne by lia|].
      intros a Ha. cbn [rd_slot]. rewrite Hx1, decide_False by auto. done.
    - intros a Ha. rewrite Hx1, decide_False by auto. auto. }
  exists c'. split; [done|]. split; [congruence|]. split_and!.
  - intros j Hj. destruct (decide (j = nn)) as [->|]; [|apply Hnone; lia].
    rewrite Hold by lia. rewrite He1. apply list_lookup_insert_eq. lia.
  - intros j Hj. rewrite Hold by lia. rewrite He1. apply list_lookup_insert_ne. lia.
  - intros x. rewrite Hx', Hx1, (drop_S chs ch nn Ech). simpl.
    destruct (decide (x ∈ concat (drop (S nn) chs))); [by rewrite decide_True by set_solver|].
    destruct (decide (x ∈ ch)); [by rewrite decide_True by set_solver|by rewrite decide_False by set_solver].
Qed.

Lemma flush_simulates c its :
  rep c its ->
  exists c', _cache_flush_locked c = Some c' /\ rep c' [] /\ max_entries c' = max_entries c /\ generation c' = generation c.
Proof.
  intros (l & chs & Hs & Hits & Hnd). pose proof (sh_table _ _ _ Hs) as [Hlen Ht]. unfold _cache_flush_locked.
  pose proof (sh_len _ _ _ Hs) as Hle. pose proof (sh_max _ _ _ Hs).
  pose proof (sh_nodup _ _ _ Hs) as Hn. apply NoDup_cons in Hn as [HMRU Hn].
  destruct (flush_table_ok chs (Z.to_nat (max_entries c)) 0 c) as (c1 & -> & Hc1 & Hnone & _ & Hx);
    [by rewrite (sh_perm _ _ _ Hs)|simpl; congruence|done| |].
  { intros j ch _ Hj. split; [by apply Ht|]. intros a Ha. apply dat_some, (sh_dom _ _ _ Hs). right.
    rewrite <- (sh_perm _ _ _ Hs). apply elem_of_chains. eauto. }
  rewrite drop_0 in Hx. apply counters_same in Hc1 as (Hm & _ & Hg & Hl). cbn [mbind option_bind].
  destruct (proj1 (dat_some c MRU)) as [m Hm0]; [apply (sh_dom _ _ _ Hs); by left|].
  assert (Hm1 : heap c1 !! MRU = Some m) by (rewrite Hx, decide_False; [done|]; by rewrite (sh_perm _ _ _ Hs)).
  destruct (update_prev c1 MRU m (Some MRU) Hm1) as (c2 & -> & (Hc2 & HR2 & Hd2) & Hnx2 & Hpv2). cbn [mbind option_bind].
  destruct (proj1 (dat_some c2 MRU)) as [m2 Hm2]; [rewrite Hd2; apply dat_some; eauto|].
  destruct (update_next c2 MRU m2 (Some MRU) Hm2) as (c3 & -> & (Hc3 & HR3 & Hd3) & Hnx3 & Hpv3). cbn [mbind option_bind].
  apply counters_same in Hc2 as (Hma & _ & Hga & Hla). apply counters_same in Hc3 as (Hmb & _ & Hgb & Hlb).
  eexists. split; [done|]. simpl. split; [|split; congruence].
  exists [], (replicate (Z.to_nat (max_entries c)) []). split; [|split; [constructor|by apply NoDup_nil]].
  split; cbn [set_last_id set_num max_entries num_entries entries].
  - apply NoDup_singleton.
  - intros a. change (dat (set_last_id (set_num c3 0) 0) a) with (dat c3 a). rewrite Hd3, Hd2, dat_some, Hx.
    assert (Ha : is_Some (heap c !! a) <-> a ∈ MRU :: l) by (rewrite <- dat_some; apply Hs).
    case_decide as Hin; rewrite (sh_perm _ _ _ Hs) in Hin; [split; [by intros []|set_solver]|]. rewrite Ha. set_solver.
  - split; [change (nx c3 MRU = Some MRU); by rewrite Hnx3, decide_True|change (pv c3 MRU = Some MRU)].
    by rewrite Hpv3, Hpv2, decide_True.
  - split; [rewrite length_replicate; cbn [set_last_id set_num entries]; lia|]. intros i ch Hi.
    apply lookup_replicate in Hi as [-> Hi]. split; [|set_solver]. change (rd_slot c3 (Bucket i) = Some None).
    rewrite HR3, HR2. apply Hnone. lia.
  - by rewrite concat_replicate_nil.
  - lia.
  - lia.
  - done.
  - lia.
Qed.
