(* ===== verification/CacheRun.v ===== *)
(** * Runs of the resolver's cache

    The theorems on the cache of res_cache.c: each operation implements the one
    on the least-recently-used list, and so does every run from the creation. *)
From stdpp Require Import gmap.
From S2P Require Import Prelude Buffer DnsPacket NsUnpack NsParse ResCache CacheShape LruCache.

(** _resolv_cache_lookup makes no invalid access and does what a lookup of
    the least-recently-used list does, on every branch: a query that is not
    supported, one that is not in the cache, a stale entry (which is dropped), an
    answer that does not fit (which leaves the order), and an answer (which is
    moved to the front). *)
Theorem lookup_refines c its q answersize now
    (Hrep : rep c its) (Hq : byte_list q) (Hlen : 3 <= len q) :
  exists c', _resolv_cache_lookup c q answersize now = Some (c', (lookup_spec its q answersize now).2) /\
    rep c' (lookup_spec its q answersize now).1 /\
    max_entries c' = max_entries c /\ generation c' = generation c.
Proof. by apply lookup_simulates. Qed.

(** _resolv_cache_add makes no invalid access and does what an insertion
    into the least-recently-used list does: it ignores a query that is not
    supported or already present, drops the item used least recently when the
    cache is full, and adds the answer with the time at which its TTL ends,
    unless that TTL is 0 or there is no memory. *)
Theorem add_refines c its q ans now calloc
    (Hrep : rep c its) (Hq : byte_list q) (Hlen : 3 <= len q) (Hans : readable ans) (Hfresh : fresh_blocks calloc) :
  exists c' ttl mem, _resolv_cache_add c q ans now calloc = Some c' /\ answer_getTTL ans = Some ttl /\
    rep c' (add_spec (max_entries c) its q ans ttl now mem) /\
    max_entries c' = max_entries c /\ generation c' = generation c /\
    (supported q = true -> lru_find (kid q) its = None -> found_memory calloc (lru_room (max_entries c) its) mem).
Proof.
  destruct (getTTL_value ans Hans) as (r & _ & Httl).
  destruct (add_simulates calloc Hfresh ans _ now Httl c its q Hrep Hq Hlen) as (c' & mem & E & Hr & Hm & Hg & Hmem).
  exists c'. eexists. exists mem. split_and!; [exact E|exact Httl|exact Hr|exact Hm|exact Hg|exact Hmem].
Qed.

(** _cache_flush_locked frees every entry of the table, whatever its
    chains, and leaves an empty cache. *)
Lemma flush_frees c its (Hrep : rep c its) :
  exists c', _cache_flush_locked c = Some c' /\ rep c' [] /\ (forall a, is_Some (heap c' !! a) <-> a = MRU) /\
    num_entries c' = 0 /\ max_entries c' = max_entries c /\ generation c' = generation c.
Proof.
  destruct (flush_simulates c its Hrep) as (c' & E & Hr & Hm & Hg). exists c'.
  pose proof Hr as (l & chs & Hs & Hits & _). apply Forall2_nil_inv_r in Hits as ->.
  split_and!; [done|done| |by rewrite (sh_num _ _ _ Hs)|done|done].
  intros a. rewrite <- dat_some, (sh_dom _ _ _ Hs). set_solver.
Qed.

(** ** Creation *)
Lemma create_ok prop : exists c, _resolv_cache_create prop true true = Some c /\ rep c [] /\
  max_entries c = _res_cache_get_max_entries prop.
Proof.
  eexists. split; [done|]. split; [|done].
  assert (Hpos : 0 < _res_cache_get_max_entries prop).
  { unfold _res_cache_get_max_entries, CONFIG_MAX_ENTRIES. case_test; zbool; lia. }
  exists [], (replicate (Z.to_nat (_res_cache_get_max_entries prop)) []). split; [|split; [constructor|apply NoDup_nil; done]].
  split; cbn [max_entries num_entries entries].
  - apply NoDup_singleton.
  - intros a. rewrite dat_some. cbn [heap]. destruct (decide (a = MRU)) as [->|].
    + rewrite lookup_singleton_eq. split; [set_solver|eauto].
    + rewrite lookup_singleton_ne by done. split; [by intros []|set_solver].
  - unfold ring, seg, nx, pv. cbn [heap]. by rewrite lookup_singleton_eq.
  - split; [cbn [entries]; by rewrite !length_replicate|]. intros i ch Hi. apply lookup_replicate in Hi as [-> Hi].
    split; [|set_solver]. cbn [chain rd_slot entries]. apply lookup_replicate. done.
  - by rewrite concat_replicate_nil.
  - done.
  - apply length_replicate.
  - done.
  - lia.
Qed.

(** ** Runs *)
Inductive cache_op : Type :=
| OpLookup (q : bytes) (answersize now : Z)
| OpAdd (q ans : bytes) (now : Z)
| OpFlush.

Definition cache_step (calloc : allocator) (c : Cache) (op : cache_op) : option (Cache * option lookup_result) :=
  match op with
  | OpLookup q answersize now => '(c, r) ← _resolv_cache_lookup c q answersize now; Some (c, Some r)
  | OpAdd q ans now => c ← _resolv_cache_add c q ans now calloc; Some (c, None)
  | OpFlush => c ← _cache_flush_locked c; Some (c, None)
  end.

Fixpoint cache_run (calloc : allocator) (c : Cache) (ops : list cache_op) : option (Cache * list (option lookup_result)) :=
  match ops with
  | [] => Some (c, [])
  | op :: ops =>
      '(c, r) ← cache_step calloc c op;
      '(c, rs) ← cache_run calloc c ops;
      Some (c, r :: rs)
  end.

Definition op_ok (op : cache_op) : Prop :=
  match op with
  | OpLookup q _ _ => byte_list q /\ 3 <= len q
  | OpAdd q ans _ => byte_list q /\ 3 <= len q /\ readable ans
  | OpFlush => True
  end.

(** The steps of the abstract cache; an insertion that asks for memory finds it
    exactly when calloc does. *)
Inductive lru_step (calloc : allocator) (max : Z) (its : list item) : cache_op -> list item -> option lookup_result -> Prop :=
| lru_step_lookup q answersize now :
    lru_step calloc max its (OpLookup q answersize now) (lookup_spec its q answersize now).1
      (Some (lookup_spec its q answersize now).2)
| lru_step_add q ans now ttl mem :
    answer_getTTL ans = Some ttl ->
    (supported q = true -> lru_find (kid q) its = None -> found_memory calloc (lru_room max its) mem) ->
    lru_step calloc max its (OpAdd q ans now) (add_spec max its q ans ttl now mem) None
| lru_step_flush : lru_step calloc max its OpFlush [] None.

Inductive lru_run (calloc : allocator) (max : Z) : list item -> list cache_op -> list item -> list (option lookup_result) -> Prop :=
| lru_run_nil its : lru_run calloc max its [] its []
| lru_run_cons its op its' r ops its'' rs :
    lru_step calloc max its op its' r -> lru_run calloc max its' ops its'' rs ->
    lru_run calloc max its (op :: ops) its'' (r :: rs).

(** With enough memory the abstract cache is a function. *)
Definition lru_do (max : Z) (its : list item) (op : cache_op) : list item * option lookup_result :=
  match op with
  | OpLookup q answersize now => let '(its, r) := lookup_spec its q answersize now in (its, Some r)
  | OpAdd q ans now =>
      (match answer_getTTL ans with Some ttl => add_spec max its q ans ttl now true | None => its end, None)
  | OpFlush => ([], None)
  end.
Fixpoint lru_all (max : Z) (its : list item) (ops : list cache_op) : list item * list (option lookup_result) :=
  match ops with
  | [] => (its, [])
  | op :: ops => let '(its, r) := lru_do max its op in let '(its, rs) := lru_all max its ops in (its, r :: rs)
  end.

Lemma lru_step_total calloc max its op its' r :
  (forall h, is_Some (calloc h)) -> lru_step calloc max its op its' r -> lru_do max its op = (its', r).
Proof.
  intros Hall [q sz now|q ans now ttl mem Httl Hmem|]; simpl; [by destruct (lookup_spec _ _ _ _)| |done].
  rewrite Httl. unfold add_spec, lru_add in *. destruct (supported q); [|done]. destruct (lru_find _ _); [done|].
  by rewrite (found_memory_total _ _ _ Hall (Hmem eq_refl eq_refl)).
Qed.
Lemma lru_run_total calloc max its ops its' rs :
  (forall h, is_Some (calloc h)) -> lru_run calloc max its ops its' rs -> lru_all max its ops = (its', rs).
Proof.
  intros Hall. induction 1 as [|its op its1 r ops its2 rs Hst _ IH]; [done|].
  cbn [lru_all]. by rewrite (lru_step_total _ _ _ _ _ _ Hall Hst), IH.
Qed.

Lemma step_simulates calloc c its op :
  fresh_blocks calloc -> rep c its -> op_ok op ->
  exists c' its' r, cache_step calloc c op = Some (c', r) /\ lru_step calloc (max_entries c) its op its' r /\ rep c' its' /\
    max_entries c' = max_entries c.
Proof.
  intros Hfresh Hrep Hok. destruct op as [q sz now|q ans now|]; simpl in *.
  - destruct Hok as [Hb Hl]. destruct (lookup_simulates c its q sz now Hrep Hb Hl) as (c' & -> & Hr & Hm & _).
    eexists _, _, _. split; [done|]. split; [constructor|]. done.
  - destruct Hok as (Hb & Hl & Ha). destruct (getTTL_value ans Ha) as (r & _ & Httl).
    destruct (add_simulates calloc Hfresh ans _ now Httl c its q Hrep Hb Hl) as (c' & mem & -> & Hr & Hm & _ & Hmem).
    eexists _, _, _. split; [done|]. split; [by eapply lru_step_add|]. done.
  - destruct (flush_simulates c its Hrep) as (c' & -> & Hr & Hm & _).
    eexists _, _, _. split; [done|]. split; [constructor|]. done.
Qed.

Lemma run_simulates calloc ops c its :
  fresh_blocks calloc -> Forall op_ok ops -> rep c its ->
  exists c' its' rs, cache_run calloc c ops = Some (c', rs) /\ lru_run calloc (max_entries c) its ops its' rs /\ rep c' its' /\
    max_entries c' = max_entries c.
Proof.
  intros Hfresh Hops. revert c its. induction Hops as [|op ops Hop Hops' IH]; intros c its Hr; simpl.
  { exists c, its, []. split_and!; [done|constructor|done|done]. }
  destruct (step_simulates calloc c its op Hfresh Hr Hop) as (c1 & its1 & r & -> & Hst & Hr1 & Hm1). cbn [mbind option_bind].
  destruct (IH c1 its1 Hr1) as (c2 & its2 & rs & -> & Hrun & Hr2 & Hm2). cbn [mbind option_bind].
  exists c2, its2, (r :: rs). rewrite Hm1 in *. split_and!; [done|by econstructor|done|done].
Qed.

Lemma rep_count c its : rep c its -> num_entries c = Z.of_nat (length its) /\ num_entries c <= max_entries c.
Proof.
  intros (l & chs & Hs & Hits & _). split; [|apply Hs]. rewrite (sh_num _ _ _ Hs). by rewrite (Forall2_length _ _ _ Hits).
Qed.

(** C3.  Every sequence of lookups, insertions and flushes on a new cache, with
    queries of at least three bytes and answers that ns_initparse can read, runs
    without an invalid access and gives the answers of the least-recently-used list,
    in which an item is missing for want of memory exactly when calloc failed: if it
    never does, they are those of the function [lru_all].  The cache never holds more
    entries than its size. *)
Theorem cache_refines_lru prop calloc ops
    (Hfresh : fresh_blocks calloc) (Hops : Forall op_ok ops) :
  exists c0 c its rs, _resolv_cache_create prop true true = Some c0 /\ cache_run calloc c0 ops = Some (c, rs) /\
    lru_run calloc (_res_cache_get_max_entries prop) [] ops its rs /\
    ((forall h, is_Some (calloc h)) -> lru_all (_res_cache_get_max_entries prop) [] ops = (its, rs)) /\
    rep c its /\
    num_entries c = Z.of_nat (length its) /\ num_entries c <= _res_cache_get_max_entries prop.
Proof.
  destruct (create_ok prop) as (c0 & E & Hr0 & <-).
  destruct (run_simulates calloc ops c0 [] Hfresh Hops Hr0) as (c & its & rs & Erun & Hl & Hr & Hm).
  destruct (rep_count c its Hr) as [Hn Hle]. exists c0, c, its, rs. rewrite Hm in Hle.
  split_and!; [done|done|done| |done|done|done]. intros Hall. by eapply lru_run_total.
Qed.

(** ** Recently used items are not evicted *)

(** The operation does not flush the cache and is about another query. *)
Definition about_other (k : key_id) (op : cache_op) : Prop :=
  match op with
  | OpLookup q _ _ => kid q <> k
  | OpAdd q _ _ => kid q <> k
  | OpFlush => False
  end.

Lemma drop_keeps k A it B : it_key it <> k ->
  lru_drop k (A ++ it :: B) = lru_drop k A ++ it :: lru_drop k B /\ (length (lru_drop k A) <= length A)%nat.
Proof.
  intros H. unfold lru_drop. rewrite filter_app, filter_cons_True by done. split; [done|]. apply length_filter.
Qed.

Lemma step_keeps calloc max A it B op its' r :
  lru_step calloc max (A ++ it :: B) op its' r -> about_other (it_key it) op -> Z.of_nat (length A) + 1 < max ->
  exists A' B', its' = A' ++ it :: B' /\ (length A' <= S (length A))%nat.
Proof.
  intros Hst Hop Hroom. set (its := A ++ it :: B) in *.
  assert (Hsame : exists A' B', its = A' ++ it :: B' /\ (length A' <= S (length A))%nat) by (exists A, B; split; [done|lia]).
  destruct Hst as [q sz now|q ans now ttl mem _ _|]; [| |done]; simpl in Hop.
  - unfold lookup_spec. destruct (supported q); [|done]. unfold lru_lookup. destruct (lru_find (kid q) its) as [it'|]; [|done].
    destruct (drop_keeps (kid q) A it B) as [Hd Hl]; [done|]. fold its in Hd.
    destruct (it_expires it' <=? now); [rewrite Hd; eexists _, _; split; [done|simpl; lia]|].
    destruct (sz <? len (it_answer it')); [done|]. simpl. rewrite Hd.
    exists (it' :: lru_drop (kid q) A), (lru_drop (kid q) B). split; [done|simpl; lia].
  - unfold add_spec. destruct (supported q); [|done]. unfold lru_add, lru_room. destruct (lru_find (kid q) its) as [it'|]; [done|].
    assert (Htake : exists B', (if max <=? Z.of_nat (length its) then take (length its - 1) its else its) = A ++ it :: B').
    { destruct (Z.leb_spec max (Z.of_nat (length its))) as [Hfull|]; [|by exists B].
      unfold its in *. rewrite length_app in *. simpl in *. exists (take (length B - 1) B).
      rewrite take_app, take_ge by lia. f_equal.
      replace (length A + S (length B) - 1 - length A)%nat with (S (length B - 1)) by lia. done. }
    destruct Htake as [B' ->]. destruct ((0 <? ttl) && mem); [|by exists A, B'; split; [|lia]].
    eexists (_ :: A), B'. split; [done|simpl; lia].
Qed.

(** An item is evicted only after as many operations on other queries as
    there are entries used since: with [length A] items used more recently, it
    survives every run of fewer than [max_entries - length A] operations that
    neither flush the cache nor ask for its query. *)
Theorem recent_items_stay calloc c A it B ops
    (Hfresh : fresh_blocks calloc) (Hrep : rep c (A ++ it :: B)) (Hops : Forall op_ok ops)
    (Hother : Forall (about_other (it_key it)) ops)
    (Hroom : Z.of_nat (length A + length ops) < max_entries c) :
  exists c' its' rs, cache_run calloc c ops = Some (c', rs) /\ rep c' its' /\ it ∈ its'.
Proof.
  destruct (run_simulates calloc ops c _ Hfresh Hops Hrep) as (c' & its' & rs & -> & Hrun & Hr & _).
  exists c', its', rs. split_and!; [done|done|]. clear Hrep Hr Hops. revert A B Hrun Hroom.
  revert its' rs. induction Hother as [|op ops Hop _ IH]; intros its' rs A B Hrun Hroom; inversion Hrun as [|? ? its1 ? ? ? ? Hst Hrun']; subst; [set_solver|].
  simpl in Hroom. destruct (step_keeps _ _ _ _ _ _ _ _ Hst Hop) as (A' & B' & -> & HA); [lia|].
  eapply IH; [done|]. lia.
Qed.

(** ** A run of a small cache *)

(** An allocator that answers an address above those in use. *)
Definition next_block (h : gmap nat Entry) : option nat := Some (S (map_fold (fun a _ m => Nat.max a m) 0%nat h)).

Lemma next_block_fresh : fresh_blocks next_block.
Proof.
  intros h a [= <-]. assert (H : forall x, is_Some (h !! x) -> (x <= map_fold (fun a _ m => Nat.max a m) 0%nat h)%nat).
  { apply (map_fold_weak_ind (fun r h => forall x, is_Some (h !! x) -> (x <= r)%nat)).
    - intros x [? Hx]. by rewrite lookup_empty in Hx.
    - intros i e m r _ IH x. destruct (decide (x = i)) as [->|]; [lia|]. rewrite lookup_insert_ne by done.
      intros Hx. specialize (IH x Hx). lia. }
  destruct (h !! _) eqn:E; [|done]. specialize (H (S (map_fold (fun a _ m => Nat.max a m) 0%nat h)) ltac:(eauto)). lia.
Qed.

Definition sample_query : bytes := root_query 1.
Definition sample_item : item := Item (kid sample_query) sample_response 1030.

Lemma sample_query_ok : byte_list sample_query /\ 3 <= len sample_query.
Proof. split; [apply root_query_bytes; lia|vm_compute; discriminate]. Qed.

(** A cache of two entries, into which the answer was put at time 1000. *)
Lemma sample_cache : exists c, rep c [sample_item] /\ max_entries c = 2.
Proof.
  destruct (create_ok (Some 2)) as (c0 & _ & Hr & Hm). destruct sample_query_ok as [Hb Hl].
  assert (Httl : answer_getTTL sample_response = Some 30) by (vm_compute; reflexivity).
  destruct (add_simulates next_block next_block_fresh _ _ 1000 Httl c0 [] sample_query Hr Hb Hl) as (c & mem & _ & Hrep & Hm' & _ & Hmem).
  rewrite (found_memory_total next_block _ _ ltac:(intros; by eexists) (Hmem eq_refl eq_refl)), Hm in Hrep. exists c. split; [|by rewrite Hm', Hm].
  by replace (add_spec _ _ _ _ _ _ _) with [sample_item] in Hrep by (vm_compute; reflexivity).
Qed.

Lemma add_refines_witness :
  exists c0 c, rep c0 [] /\ _resolv_cache_add c0 sample_query sample_response 1000 next_block = Some c /\ rep c [sample_item].
Proof.
  destruct (create_ok (Some 2)) as (c0 & _ & Hr & Hm). destruct sample_query_ok as [Hb Hl].
  destruct (add_refines c0 [] sample_query sample_response 1000 next_block Hr Hb Hl sample_response_readable next_block_fresh)
    as (c & ttl & mem & E & Httl & Hrep & _ & _ & Hmem).
  rewrite (found_memory_total next_block _ _ ltac:(intros; by eexists) (Hmem eq_refl eq_refl)), Hm in Hrep. vm_compute in Httl. injection Httl as <-.
  exists c0, c. split; [done|]. split; [done|].
  by replace (add_spec _ _ _ _ _ _ _) with [sample_item] in Hrep by (vm_compute; reflexivity).
Defined.

(** The answer is found before its TTL has run out, and not after. *)
Lemma lookup_refines_witness :
  exists c, rep c [sample_item] /\
    (exists c', _resolv_cache_lookup c sample_query 512 1029 =
       Some (c', LookupResult RESOLV_CACHE_FOUND (Some 51) (Some sample_response)) /\ rep c' [sample_item]) /\
    (exists c', _resolv_cache_lookup c sample_query 512 1030 =
       Some (c', LookupResult RESOLV_CACHE_NOTFOUND None None) /\ rep c' []).
Proof.
  destruct sample_cache as (c & Hr & _). destruct sample_query_ok as [Hb Hl]. exists c. split; [done|]. split.
  - destruct (lookup_refines c _ sample_query 512 1029 Hr Hb Hl) as (c' & E & Hr' & _). exists c'. split; [exact E|exact Hr'].
  - destruct (lookup_refines c _ sample_query 512 1030 Hr Hb Hl) as (c' & E & Hr' & _). exists c'. split; [exact E|exact Hr'].
Defined.

(** Two queries, answered after the insertion of the first of them. *)
Definition sample_ops : list cache_op :=
  [OpLookup sample_query 512 1000; OpAdd sample_query sample_response 1000; OpLookup sample_query 512 1010;
   OpLookup (root_query 28) 512 1010; OpFlush; OpLookup sample_query 512 1020].

Lemma sample_ops_ok : Forall op_ok sample_ops.
Proof.
  destruct sample_query_ok as [Hb Hl]. pose proof sample_response_readable.
  assert (byte_list (root_query 28) /\ 3 <= len (root_query 28)) by (split; [apply root_query_bytes; lia|vm_compute; discriminate]).
  unfold sample_ops. rewrite !Forall_cons, Forall_nil. cbn [op_ok]. tauto.
Qed.

Lemma cache_refines_lru_witness :
  exists c0 c its rs, _resolv_cache_create (Some 2) true true = Some c0 /\ cache_run next_block c0 sample_ops = Some (c, rs) /\
    lru_all 2 [] sample_ops = (its, rs) /\ num_entries c <= 2.
Proof.
  destruct (cache_refines_lru (Some 2) next_block sample_ops next_block_fresh sample_ops_ok) as (c0 & c & its & rs & ? & ? & _ & Hall & _ & _ & ?).
  exists c0, c, its, rs. split_and!; [done|done| |done]. apply Hall. intros h. by eexists.
Defined.

Lemma recent_items_stay_witness :
  exists c c' its' rs, rep c [sample_item] /\
    cache_run next_block c [OpLookup (root_query 28) 512 1010] = Some (c', rs) /\ rep c' its' /\ sample_item ∈ its'.
Proof.
  destruct sample_cache as (c & Hr & Hm).
  destruct (recent_items_stay next_block c [] sample_item [] [OpLookup (root_query 28) 512 1010] next_block_fresh Hr)
    as (c' & its' & rs & ? & ? & ?).
  - constructor; [|constructor]. split; [apply root_query_bytes; lia|vm_compute; discriminate].
  - constructor; [|constructor]. vm_compute. discriminate.
  - rewrite Hm. reflexivity.
  - by exists c, c', its', rs.
Defined.
