(* ===== verification/ResMkquery.v ===== *)
(** * Making queries (libc/netbsd/resolv/res_mkquery.c)

    res_nmkquery writes a query into a buffer, res_nopt adds the OPT record of
    EDNS0.  The buffer is its bytes, pointers into it are offsets; [None] is an
    access outside the buffer.  The bit fields of HEADER have the layout of a
    little-endian machine.  The random id is an argument, and so is what the
    array dnptrs holds before it is written; the printing under RES_DEBUG is left
    out. *)
From stdpp Require Import gmap.
From S2P Require Import Prelude Buffer DnsPacket NsName NsUnpack NsPack NsParse ResCache CacheShape LruCache CacheRun.

Definition QUERY : Z := 0.
Definition IQUERY : Z := 1.
Definition NS_NOTIFY_OP : Z := 4.
Definition HFIXEDSZ : Z := 12.
Definition QFIXEDSZ : Z := 4.
Definition RRFIXEDSZ : Z := 10.
Definition T_NULL : Z := 10.
Definition T_OPT : Z := 41.
Definition NOERROR : Z := 0.
Definition RES_RECURSE : Z := 0x40.
Definition RES_USE_DNSSEC : Z := 0x200000.
Definition NS_OPT_DNSSEC_OK : Z := 0x8000.

(** The bytes of a 16-bit field of HEADER that is assigned htons(n). *)
Definition htons_bytes (n : Z) : bytes := [u8 (Z.shiftr n 8); u8 n].

(** memset and the assignments of id, opcode, rd and rcode *)
Definition init_header (options id op : Z) (buf : bytes) : option bytes :=
  buf ← write buf 0 (replicate 12 0);
  buf ← write buf 0 (htons_bytes (u16 id));
  let rd := if negb (Z.land options RES_RECURSE =? 0) then 1 else 0 in
  write buf 2 [Z.lor (Z.shiftl (Z.land op 0xf) 3) rd; NOERROR].

(** The question of QUERY and NS_NOTIFY_OP: cp, the buffer and the array. *)
Definition put_question (dname : bytes) (class type : Z) (buf : bytes) (cp ep : Z) (dnptrs : cells) : option (option (Z * cells) * bytes) :=
  if ep - cp <? QFIXEDSZ then Some (None, buf)
  else
    '(r, buf, dnptrs) ← dn_comp dname buf cp (ep - cp - QFIXEDSZ) (Some dnptrs) (Some 19);
    match r with
    | Fail _ => Some (None, buf)
    | Good n =>
        let cp := cp + n in
        buf ← write buf cp (ns_put16 type);
        let cp := cp + 2 in
        buf ← write buf cp (ns_put16 class);
        let cp := cp + 2 in
        buf ← write buf 4 (htons_bytes 1);
        Some (Some (cp, dnptrs), buf)
    end.

(** The additional record for the completion domain. *)
Definition put_completion (data : bytes) (class : Z) (buf : bytes) (cp ep : Z) (dnptrs : cells) : option (Z * bytes) :=
  if ep - cp <? RRFIXEDSZ then Some (-1, buf)
  else
    '(r, buf, _) ← dn_comp data buf cp (ep - cp - RRFIXEDSZ) (Some dnptrs) (Some 19);
    match r with
    | Fail _ => Some (-1, buf)
    | Good n =>
        let cp := cp + n in
        buf ← write buf cp (ns_put16 T_NULL);
        buf ← write buf (cp + 2) (ns_put16 class);
        buf ← write buf (cp + 4) (ns_put32 0);
        buf ← write buf (cp + 8) (ns_put16 0);
        buf ← write buf 10 (htons_bytes 1);
        Some (cp + 10, buf)
    end.

(** case IQUERY: the answer section *)
Definition put_inverse (class type : Z) (data : bytes) (datalen : Z) (buf : bytes) (cp ep : Z) : option (Z * bytes) :=
  if ep - cp <? 1 + RRFIXEDSZ + datalen then Some (-1, buf)
  else
    buf ← write buf cp [0];
    let cp := cp + 1 in
    buf ← write buf cp (ns_put16 type);
    buf ← write buf (cp + 2) (ns_put16 class);
    buf ← write buf (cp + 4) (ns_put32 0);
    buf ← write buf (cp + 8) (ns_put16 datalen);
    let cp := cp + 10 in
    '(cp, buf) ← (if negb (datalen =? 0) then
        d ← (if datalen <=? len data then Some (slice data 0 datalen) else None);
        buf ← write buf cp d;
        Some (cp + datalen, buf)
      else Some (cp, buf));
    buf ← write buf 6 (htons_bytes 1);
    Some (cp, buf).

(** Answers the size of the query or -1, and the buffer; [junk] is what the last
    18 cells of dnptrs hold at first. *)
Definition res_nmkquery (options id op : Z) (dname : bytes) (class type : Z) (data : option bytes) (datalen : Z)
    (buf : bytes) (buflen : Z) (junk : cells) : option (Z * bytes) :=
  if buflen <? HFIXEDSZ then Some (-1, buf)
  else
    buf ← init_header options id op buf;
    let cp := HFIXEDSZ in
    let ep := buflen in
    let dnptrs := None :: junk in
    if (op =? QUERY) || (op =? NS_NOTIFY_OP) then
      '(r, buf) ← put_question dname class type buf cp ep dnptrs;
      match r with
      | None => Some (-1, buf)
      | Some (cp, dnptrs) =>
          match data with
          | Some data => if op =? QUERY then Some (cp, buf) else put_completion data class buf cp ep dnptrs
          | None => Some (cp, buf)
          end
      end
    else if op =? IQUERY then put_inverse class type (default [] data) datalen buf cp ep
    else Some (-1, buf).

Definition res_nopt (options n0 : Z) (buf : bytes) (buflen anslen : Z) : option (Z * bytes) :=
  let cp := n0 in
  let ep := buflen in
  if ep - cp <? 1 + RRFIXEDSZ then Some (-1, buf)
  else
    buf ← write buf cp [0];
    buf ← write buf (cp + 1) (ns_put16 T_OPT);
    buf ← write buf (cp + 3) (ns_put16 (Z.land anslen 0xffff));
    buf ← write buf (cp + 5) [NOERROR; 0];
    let flags := if negb (Z.land options RES_USE_DNSSEC =? 0) then NS_OPT_DNSSEC_OK else 0 in
    buf ← write buf (cp + 7) (ns_put16 flags);
    buf ← write buf (cp + 9) (ns_put16 0);
    count ← be16 buf 10;
    buf ← write buf 10 (htons_bytes (count + 1));
    Some (cp + 11, buf).

(** ** The bytes of a query *)
Definition rd_flag (options : Z) : Z := if negb (Z.land options RES_RECURSE =? 0) then 1 else 0.
Definition query_bytes (options id : Z) (ls : list bytes) (class type : Z) : bytes :=
  htons_bytes (u16 id) ++ [rd_flag options; 0; 0; 1; 0; 0; 0; 0; 0; 0] ++ encode ls ++ ns_put16 type ++ ns_put16 class.

Lemma write_app (a m b l : bytes) i : length m = length l -> i = len a -> write (a ++ m ++ b) i l = Some (a ++ l ++ b).
Proof.
  intros Hm ->. unfold write. pose proof (len_nonneg a). rewrite (proj2 (Z.leb_le 0 _)) by done.
  rewrite (proj2 (Z.leb_le _ _)) by (unfold len; rewrite !length_app; lia). cbn [andb]. f_equal.
  unfold from, len. rewrite Nat2Z.id, take_app_length. do 2 f_equal.
  replace (Z.to_nat (Z.of_nat (length a) + Z.of_nat (length l))) with (length (a ++ m)) by (rewrite length_app; lia).
  by rewrite app_assoc, drop_app_length.
Qed.

Lemma init_header_ok options id buf h t :
  buf = h ++ t -> length h = 12%nat ->
  init_header options id QUERY buf = Some (htons_bytes (u16 id) ++ [rd_flag options; 0; 0; 0; 0; 0; 0; 0; 0; 0] ++ t).
Proof.
  intros -> Hh. unfold init_header. rewrite (write_app [] h t) by done. cbn [mbind option_bind].
  change ([] ++ replicate 12 0 ++ t) with ([] ++ [0; 0] ++ replicate 10 0 ++ t). rewrite (write_app [] [0; 0]) by done. cbn [mbind option_bind].
  change ([] ++ htons_bytes (u16 id) ++ replicate 10 0 ++ t) with (htons_bytes (u16 id) ++ [0; 0] ++ replicate 8 0 ++ t).
  rewrite (write_app (htons_bytes (u16 id)) [0; 0]) by done. change (Z.lor (Z.shiftl (Z.land QUERY 15) 3) ?x) with x. done.
Qed.

Lemma rebuild (buf e : bytes) i : 0 <= i -> slice buf i (len e) = e -> buf = take (Z.to_nat i) buf ++ e ++ from buf (i + len e).
Proof.
  intros Hi He. rewrite <- (take_drop (Z.to_nat i) buf) at 1. f_equal. rewrite <- He at 1. unfold slice, from.
  rewrite <- (take_drop (Z.to_nat (len e)) (drop (Z.to_nat i) buf)) at 1. f_equal. rewrite drop_drop. f_equal. pose proof (len_nonneg e). lia.
Qed.

Lemma split_len (buf : bytes) n : (n <= length buf)%nat -> exists h t, buf = h ++ t /\ length h = n.
Proof. intros Hn. exists (take n buf), (drop n buf). rewrite take_drop, length_take. split; [done|lia]. Qed.

(** What res_nmkquery writes for QUERY. *)
Lemma mkquery_bytes options id ls class type data datalen buf buflen junk :
  Forall label_ok ls -> len (encode ls) <= NS_MAXCDNAME -> 16 + len (encode ls) < buflen -> buflen < 2 ^ 31 -> buflen <= len buf ->
  length junk = 18%nat ->
  exists buf', res_nmkquery options id QUERY (text ls ++ [0]) class type data datalen buf buflen junk = Some (16 + len (encode ls), buf') /\
    slice buf' 0 (16 + len (encode ls)) = query_bytes options id ls class type.
Proof.
  intros Hls Hlen Hroom Hmax Hbuf Hjunk. unfold res_nmkquery. pose proof (len_nonneg (encode ls)).
  rewrite (proj2 (Z.ltb_ge buflen HFIXEDSZ)) by (unfold HFIXEDSZ; lia).
  destruct (split_len buf 12) as (h & t & -> & Hh); [unfold len in *; lia|].
  rewrite (init_header_ok options id (h ++ t) h t eq_refl Hh). cbn [mbind option_bind]. change (QUERY =? QUERY) with true. cbn [orb].
  unfold put_question, HFIXEDSZ, QFIXEDSZ. rewrite (proj2 (Z.ltb_ge _ _)) by lia.
  set (hd := htons_bytes (u16 id) ++ [rd_flag options; 0; 0; 0; 0; 0; 0; 0; 0; 0]).
  change (htons_bytes (u16 id) ++ [rd_flag options; 0; 0; 0; 0; 0; 0; 0; 0; 0] ++ t) with (hd ++ t).
  assert (Hhd : len (hd ++ t) = len (h ++ t)) by (unfold len; rewrite !length_app, Hh; done).
  destruct (dn_comp_first ls (hd ++ t) 12 (buflen - 12 - 4) junk (Some 19)) as (buf2 & cs & -> & Hl2 & Hag & Hsl & _);
    [done|done|lia|lia|lia|cbn [length]; rewrite Hjunk; lia|]. cbn [mbind option_bind].
  pose proof (rebuild buf2 (encode ls) 12 ltac:(lia) Hsl) as Hb2.
  assert (Ht : take (Z.to_nat 12) buf2 = hd) by (rewrite <- Hag; done). rewrite Ht in Hb2.
  destruct (split_len (from buf2 (12 + len (encode ls))) 2) as (t1 & u & Hu & Ht1); [unfold from, len in *; rewrite length_drop; lia|].
  destruct (split_len u 2) as (t2 & v & -> & Ht2).
  { apply (f_equal length) in Hu. unfold from, len in *. rewrite length_drop, length_app in Hu. lia. }
  rewrite Hu in Hb2. rewrite Hb2. clear Hu Hb2 Ht Hsl Hag Hl2 buf2.
  replace (hd ++ encode ls ++ t1 ++ t2 ++ v) with ((hd ++ encode ls) ++ t1 ++ t2 ++ v) by (by rewrite <- app_assoc).
  assert (Hpl : len (hd ++ encode ls) = 12 + len (encode ls)) by (rewrite len_app; done).
  rewrite (write_app (hd ++ encode ls) t1 (t2 ++ v) (ns_put16 type)) by (done || lia). cbn [mbind option_bind].
  replace ((hd ++ encode ls) ++ ns_put16 type ++ t2 ++ v) with (((hd ++ encode ls) ++ ns_put16 type) ++ t2 ++ v) by (by rewrite <- !app_assoc).
  rewrite (write_app _ t2 v (ns_put16 class)) by (done || rewrite len_app; change (len (ns_put16 type)) with 2; lia). cbn [mbind option_bind].
  set (hd4 := htons_bytes (u16 id) ++ [rd_flag options; 0]). set (hd6 := [0; 0; 0; 0; 0; 0]).
  change hd with (hd4 ++ [0; 0] ++ hd6). rewrite <- !app_assoc. rewrite (write_app hd4 [0; 0]) by done. cbn [mbind option_bind].
  eexists. split; [destruct data; do 2 f_equal; lia|]. unfold slice, from. change (Z.to_nat 0) with 0%nat. rewrite drop_0.
  set (q := query_bytes options id ls class type).
  assert (E : hd4 ++ htons_bytes 1 ++ hd6 ++ encode ls ++ ns_put16 type ++ ns_put16 class ++ v = q ++ v) by (unfold q, query_bytes, hd4, hd6; rewrite <- !app_assoc; reflexivity).
  rewrite E. replace (Z.to_nat (16 + len (encode ls))) with (length q); [by rewrite take_app_length|].
  unfold q, query_bytes, len. rewrite !length_app. cbn [length htons_bytes ns_put16]. lia.
Qed.

(** ** The cache accepts the queries *)
Lemma rd_app_r (a b : bytes) i : 0 <= i -> rd (a ++ b) (len a + i) = rd b i.
Proof.
  intros Hi. pose proof (len_nonneg a). unfold rd. rewrite !(proj2 (Z.leb_le _ _)) by lia.
  etransitivity; [apply (lookup_app_r (A := Z)); unfold len in *; lia|]. f_equal. unfold len. lia.
Qed.

Lemma qname_encode ls a b : Forall label_ok ls -> qname (a ++ encode ls ++ b) (len a) (len a + len (encode ls)).
Proof.
  intros Hls. revert a. induction Hls as [|l ls [Hl _] Hls IH]; intros a.
  - apply qname_root. replace (len a) with (len a + 0) by lia. by rewrite rd_app_r.
  - eapply (qname_label _ _ (len l)); [|done|].
    + replace (len a) with (len a + 0) by lia. by rewrite rd_app_r.
    + rewrite encode_cons, <- app_assoc, app_assoc. replace (len a + 1 + len l) with (len (a ++ encode_label l)) by (rewrite len_app; unfold encode_label; rewrite len_cons; lia).
      rewrite (len_app (encode_label l)), Z.add_assoc, <- len_app. apply IH.
Qed.

Definition header (options id : Z) : bytes := htons_bytes (u16 id) ++ [rd_flag options; 0; 0; 1; 0; 0; 0; 0; 0; 0].

Lemma query_split options id ls class type :
  query_bytes options id ls class type = header options id ++ encode ls ++ ns_put16 type ++ ns_put16 class.
Proof. unfold query_bytes, header. by rewrite <- !app_assoc. Qed.
Lemma query_len options id ls class type : len (query_bytes options id ls class type) = 16 + len (encode ls).
Proof. rewrite query_split, !len_app. change (len (header options id)) with 12. change (len (ns_put16 _)) with 2. lia. Qed.

Lemma encode_bytes ls : Forall label_ok ls -> byte_list (encode ls).
Proof.
  unfold byte_list. induction 1 as [|l ls [Hl Hb] Hls IH]; [repeat constructor; lia|].
  rewrite encode_cons. apply Forall_app. split; [|done]. constructor; [lia|done].
Qed.

Lemma query_byte_list options id ls class type : Forall label_ok ls -> byte_list (query_bytes options id ls class type).
Proof.
  intros Hls. assert (H8 : forall z, 0 <= u8 z < 256) by (intros z; apply u8_range).
  rewrite query_split. unfold byte_list. rewrite !Forall_app. split_and!; [|by apply encode_bytes|repeat constructor; apply H8..].
  unfold header, htons_bytes. repeat (constructor; [apply H8 || lia || (unfold rd_flag; case_test; lia)|]). constructor.
Qed.

Lemma query_valid options id ls type :
  Forall label_ok ls -> type ∈ supported_types -> valid_query (query_bytes options id ls 1 type) (16 + len (encode ls)).
Proof.
  intros Hls Hty. pose proof (query_len options id ls 1 type) as Hql. pose proof (len_nonneg (encode ls)).
  exists (rd_flag options), 1. split_and!; [rewrite Hql; unfold DNS_HEADER_SIZE; lia|reflexivity| |reflexivity..|done|reflexivity|reflexivity|reflexivity|].
  { unfold rd_flag. by case_test. }
  change (Z.to_nat 1) with 1%nat. eapply questions_cons; [|constructor]. rewrite query_split.
  exists (12 + len (encode ls)), type. split; [by apply (qname_encode ls (header options id))|].
  rewrite (app_assoc (header options id)).
  replace (12 + len (encode ls)) with (len (header options id ++ encode ls)) by (rewrite len_app; done).
  assert (Hput : ns_put16 type = [0; type]).
  { unfold supported_types in Hty. rewrite !elem_of_cons, elem_of_nil in Hty. by destruct Hty as [->|[->|[->|[->|[->|[]]]]]]. }
  rewrite Hput. set (p := header options id ++ encode ls). replace (len p) with (len p + 0) at 1 by lia. rewrite !rd_app_r by lia.
  split_and!; try done. subst p. rewrite len_app. change (len (header options id)) with 12. lia.
Qed.

(** Queries that differ in their id have the same key. *)
Lemma query_kid options id1 id2 ls type :
  Forall label_ok ls -> type ∈ supported_types -> kid (query_bytes options id1 ls 1 type) = kid (query_bytes options id2 ls 1 type).
Proof.
  intros Hls Hty. pose proof (query_byte_list options id1 ls 1 type Hls) as B1. pose proof (query_byte_list options id2 ls 1 type Hls) as B2.
  pose proof (query_valid options id1 ls type Hls Hty) as V1. pose proof (query_valid options id2 ls type Hls Hty) as V2.
  pose proof (query_len options id1 ls 1 type) as L1. pose proof (query_len options id2 ls 1 type) as L2.
  rewrite (kid_slice _ _ B1 V1), (kid_slice _ _ B2 V2).
  set (rest := encode ls ++ ns_put16 type ++ ns_put16 1).
  assert (Hrd : forall id i, 12 <= i -> rd (query_bytes options id ls 1 type) i = rd rest (i - 12)).
  { intros id i Hi. rewrite query_split. replace i with (len (header options id) + (i - 12)) at 1 by (change (len (header options id)) with 12; lia).
    apply rd_app_r. lia. }
  destruct (hash_of_same (query_bytes options id1 ls 1 type) (query_bytes options id2 ls 1 type) (16 + len (encode ls)) (16 + len (encode ls)))
    as (h & H1 & H2); [done..|unfold len in *; lia|unfold len in *; lia|reflexivity|reflexivity| |].
  { intros i Hi. rewrite !Hrd by lia. done. }
  unfold entry_hash. rewrite H1, H2. replace (length (query_bytes options id2 ls 1 type)) with (length (query_bytes options id1 ls 1 type)) by (unfold len in *; lia).
  f_equal.
Qed.

Lemma query_accepted options id ls type :
  Forall label_ok ls -> type ∈ supported_types ->
  exists pk, _dnsPacket_checkQuery (_dnsPacket_init (query_bytes options id ls 1 type)) = Some (true, pk).
Proof.
  intros Hls Hty. destruct (query_check _ (query_byte_list options id ls 1 type Hls)) as (b & pk & -> & _ & Hv).
  destruct (proj1 (Hv _) (query_valid options id ls type Hls Hty)) as [-> _]. by exists pk.
Qed.
Lemma query_supported options id ls type :
  Forall label_ok ls -> type ∈ supported_types -> supported (query_bytes options id ls 1 type) = true.
Proof.
  intros Hls Hty. unfold supported. by destruct (query_accepted options id ls type Hls Hty) as [pk ->].
Qed.

Lemma find_after_drop k its : lru_find k (lru_drop k its) = None.
Proof. apply lru_find_none. intros x Hx. unfold lru_drop in Hx. by apply list_elem_of_filter in Hx as [? _]. Qed.

Lemma slice_app (a m b : bytes) : slice (a ++ m ++ b) (len a) (len m) = m.
Proof. unfold slice, from, len. by rewrite !Nat2Z.id, drop_app_length, take_app_length. Qed.

Lemma packed_encode ls s a b : Forall label_ok ls -> packed (a ++ encode ls ++ b) s (len a) (len a + len (encode ls)) ls.
Proof.
  intros Hls. revert a. induction Hls as [|l ls Hl Hls IH]; intros a.
  - apply packed_root. replace (len a) with (len a + 0) by lia. by rewrite rd_app_r.
  - rewrite encode_cons, <- app_assoc. apply packed_label; [apply len_nonneg|done| |].
    + replace (len l + 1) with (len (encode_label l)) by (unfold encode_label; rewrite len_cons; lia). apply slice_app.
    + rewrite app_assoc. replace (len a + 1 + len l) with (len (a ++ encode_label l)) by (rewrite len_app; unfold encode_label; rewrite len_cons; lia).
      rewrite (len_app (encode_label l)), Z.add_assoc, <- len_app. apply IH.
Qed.

(** A lookup that finds nothing, an insertion, and a lookup with the same key. *)
Lemma miss_add_hit c its q1 q2 ans ttl now now2 size calloc :
  rep c its -> byte_list q1 -> byte_list q2 -> 3 <= len q1 -> 3 <= len q2 -> supported q1 = true -> supported q2 = true -> kid q1 = kid q2 ->
  readable ans -> answer_getTTL ans = Some ttl -> 0 < ttl -> now2 < s32 (u32 (ttl + now)) -> len ans <= size ->
  fresh_blocks calloc -> (forall h, is_Some (calloc h)) ->
  exists c0, _resolv_cache_lookup c q1 size now = Some (c0, (lru_lookup its (kid q1) size now).2) /\
    ((lru_lookup its (kid q1) size now).2 = LookupResult RESOLV_CACHE_NOTFOUND None None ->
     exists c1 c2, _resolv_cache_add c0 q1 ans now calloc = Some c1 /\
       _resolv_cache_lookup c1 q2 size now2 = Some (c2, LookupResult RESOLV_CACHE_FOUND (Some (len ans)) (Some ans))).
Proof.
  intros Hrep B1 B2 L1 L2 S1 S2 Hk Hans Httl Hpos Hexp Hsize Hfresh Hmem.
  destruct (lookup_simulates c its q1 size now Hrep B1 L1) as (c0 & E0 & Hrep0 & _).
  unfold lookup_spec in E0, Hrep0. rewrite S1 in *. exists c0. split; [exact E0|]. clear E0. intros Hr.
  assert (Hnone : lru_find (kid q1) (lru_lookup its (kid q1) size now).1 = None).
  { unfold lru_lookup in *. destruct (lru_find (kid q1) its) as [it|] eqn:Ef; [|done].
    destruct (it_expires it <=? now); [apply find_after_drop|]. by destruct (size <? len (it_answer it)). }
  destruct (add_simulates calloc Hfresh ans ttl now Httl c0 _ q1 Hrep0 B1 L1) as (c1 & mem & E1 & Hrep1 & _ & _ & Hm).
  rewrite (found_memory_total _ _ _ Hmem (Hm S1 Hnone)) in Hrep1. unfold add_spec in Hrep1. rewrite S1 in Hrep1. unfold lru_add in Hrep1. rewrite Hnone in Hrep1.
  rewrite (proj2 (Z.ltb_lt 0 ttl)) in Hrep1 by done. cbn [andb] in Hrep1.
  destruct (lookup_simulates c1 _ q2 size now2 Hrep1 B2 L2) as (c2 & E2 & _). exists c1, c2. split; [done|]. rewrite E2. do 2 f_equal.
  unfold lookup_spec, lru_lookup. rewrite S2, <- Hk. cbn [lru_find it_key]. rewrite decide_True by done. cbn [it_expires it_answer].
  by rewrite (proj2 (Z.leb_gt _ _)), (proj2 (Z.ltb_ge _ _)) by lia.
Qed.

(** C8.  From the text of a name to its cached answer: the queries that
    res_nmkquery makes for a name, the class IN and a type of the cache's table
    ([supported_types]) are the same packet but for their id, hold the name at offset
    12, and are accepted by _dnsPacket_checkQuery.  _resolv_cache_lookup of the first
    one answers what the least-recently-used list holds for its key; when that is
    nothing, or something stale, and there is memory, _resolv_cache_add stores the
    answer, and a later query for the same name and type, made with another id, is
    answered with it from the cache until its TTL runs out. *)
Theorem made_query_is_cached ls type options id1 id2 buf buflen junk c its ans ttl now now2 size calloc :
  Forall label_ok ls -> len (encode ls) <= NS_MAXCDNAME -> type ∈ supported_types ->
  16 + len (encode ls) < buflen < 2 ^ 31 -> buflen <= len buf -> length junk = 18%nat ->
  rep c its -> readable ans -> answer_getTTL ans = Some ttl -> 0 < ttl -> now2 < s32 (u32 (ttl + now)) -> len ans <= size ->
  fresh_blocks calloc -> (forall h, is_Some (calloc h)) ->
  exists n buf1 buf2,
    res_nmkquery options id1 QUERY (text ls ++ [0]) 1 type None 0 buf buflen junk = Some (n, buf1) /\
    res_nmkquery options id2 QUERY (text ls ++ [0]) 1 type None 0 buf buflen junk = Some (n, buf2) /\
    ns_name_uncompress (slice buf1 0 n) HFIXEDSZ NS_MAXDNAME = good (len (encode ls), text ls ++ [0]) /\
    slice buf1 2 (n - 2) = slice buf2 2 (n - 2) /\
    (exists pk1 pk2, _dnsPacket_checkQuery (_dnsPacket_init (slice buf1 0 n)) = Some (true, pk1) /\
       _dnsPacket_checkQuery (_dnsPacket_init (slice buf2 0 n)) = Some (true, pk2)) /\
    exists c0, let r := (lru_lookup its (kid (slice buf1 0 n)) size now).2 in
      _resolv_cache_lookup c (slice buf1 0 n) size now = Some (c0, r) /\
      (r = LookupResult RESOLV_CACHE_NOTFOUND None None ->
       exists c1 c2, _resolv_cache_add c0 (slice buf1 0 n) ans now calloc = Some c1 /\
         _resolv_cache_lookup c1 (slice buf2 0 n) size now2 = Some (c2, LookupResult RESOLV_CACHE_FOUND (Some (len ans)) (Some ans))).
Proof.
  intros Hls Hlen Hty Hroom Hbuf Hjunk Hrep Hans Httl Hpos Hexp Hsize Hfresh Hmem.
  destruct (mkquery_bytes options id1 ls 1 type None 0 buf buflen junk) as (buf1 & E1 & S1); [done|done|lia|lia|done|done|].
  destruct (mkquery_bytes options id2 ls 1 type None 0 buf buflen junk) as (buf2 & E2 & S2); [done|done|lia|lia|done|done|].
  pose proof (len_nonneg (encode ls)). exists (16 + len (encode ls)), buf1, buf2.
  assert (Hskip : forall b, slice b 2 (16 + len (encode ls) - 2) = drop 2 (slice b 0 (16 + len (encode ls)))).
  { intros b. unfold slice, from. change (Z.to_nat 0) with 0%nat. rewrite drop_0, skipn_firstn_comm. f_equal. lia. }
  rewrite !Hskip, S1, S2. split_and!; [done|done| |reflexivity| |].
  - rewrite query_split. replace (len (encode ls)) with (12 + len (encode ls) - 12) by lia. apply unpack_known; [|done].
    apply (packed_encode ls 12 (header options id1) _ Hls).
  - destruct (query_accepted options id1 ls type Hls Hty) as [pk1 ->]. destruct (query_accepted options id2 ls type Hls Hty) as [pk2 ->].
    by exists pk1, pk2.
  - apply (miss_add_hit c its _ _ ans ttl); try done; try (rewrite query_len; lia); try (by apply query_byte_list); try (by apply query_supported).
    by apply query_kid.
Qed.

(** A query for the address of w, with ids 7 and 8, and a new cache of two entries. *)
Definition sample_buf : bytes := replicate 64 0.

Lemma made_query_is_cached_witness :
  exists c c0 c1 c2 buf1 buf2,
    rep c [] /\
    res_nmkquery RES_RECURSE 7 QUERY (text [[119]] ++ [0]) 1 1 None 0 sample_buf 64 (replicate 18 None) = Some (19, buf1) /\
    res_nmkquery RES_RECURSE 8 QUERY (text [[119]] ++ [0]) 1 1 None 0 sample_buf 64 (replicate 18 None) = Some (19, buf2) /\
    _resolv_cache_lookup c (slice buf1 0 19) 512 1000 = Some (c0, LookupResult RESOLV_CACHE_NOTFOUND None None) /\
    _resolv_cache_add c0 (slice buf1 0 19) sample_response 1000 next_block = Some c1 /\
    _resolv_cache_lookup c1 (slice buf2 0 19) 512 1010 = Some (c2, LookupResult RESOLV_CACHE_FOUND (Some 51) (Some sample_response)).
Proof.
  destruct (create_ok (Some 2)) as (c & _ & Hr & _). exists c.
  destruct (answer_getTTL sample_response) as [ttl|] eqn:Httl; [|vm_compute in Httl; discriminate].
  assert (Hv : ttl = 30) by (vm_compute in Httl; congruence). subst ttl.
  destruct (made_query_is_cached [[119]] 1 RES_RECURSE 7 8 sample_buf 64 (replicate 18 None) c [] sample_response 30 1000 1010 512 next_block)
    as (n & buf1 & buf2 & E1 & E2 & _ & _ & _ & c0 & Hlook & Hnext);
    [repeat constructor; vm_compute; done|vm_compute; done|by constructor|split; vm_compute; done|vm_compute; done|reflexivity|done
    |exact sample_response_readable|exact Httl|done|vm_compute; done|vm_compute; done|exact next_block_fresh|intros; eexists; reflexivity|].
  assert (n = 19) as -> by (vm_compute in E1; congruence).
  assert (Hq : slice buf1 0 19 = query_bytes RES_RECURSE 7 [[119]] 1 1).
  { destruct (mkquery_bytes RES_RECURSE 7 [[119]] 1 1 None 0 sample_buf 64 (replicate 18 None)) as (b & Eb & Hb);
      [repeat constructor; vm_compute; done|vm_compute; done|vm_compute; done|vm_compute; done|vm_compute; done|reflexivity|].
    rewrite E1 in Eb. injection Eb as <-. exact Hb. }
  destruct (Hnext eq_refl) as (c1 & c2 & Ha & Hl). exists c0, c1, c2, buf1, buf2. split_and!; [exact Hr|exact E1|exact E2|exact Hlook|exact Ha|exact Hl].
Defined.
