(* ===== verification/ResIface.v ===== *)
(** * Caches and name servers of the interfaces (libc/netbsd/resolv/res_cache.c)

    The list of caches, one for each interface, and the name of the default
    interface; the operations hold _res_cache_list_lock throughout, so they are
    functions of this state.  A pointer to a resolv_cache_info is its position in
    the list, [None] is NULL.  A string is the list of its characters without the
    final NUL.  An element of the list always has a cache. *)
From stdpp Require Import gmap.
From S2P Require Import Prelude Buffer DnsPacket NsUnpack NsParse ResCache CacheShape LruCache CacheRun.

Definition IF_NAMESIZE : nat := 16.
Definition MAXNS : nat := 3.

(** struct addrinfo and getaddrinfo, for a numeric host name. *)
Class AddrInfo : Type := {
  addrinfo : Type;
  getaddrinfo : bytes -> option addrinfo }.

Section Iface.
Context `{AI : AddrInfo}.

Record CacheInfo : Type := MkInfo {
  ifname : bytes; ifaddr : Z; cache : Cache;
  nameservers : list (option bytes); nsaddrinfo : list (option addrinfo) }.

Record resolver : Type := MkResolver {
  _res_default_ifname : bytes; _res_cache_list : list CacheInfo }.

Definition set_list (r : resolver) (l : list CacheInfo) : resolver := MkResolver (_res_default_ifname r) l.
Definition set_cache (i : CacheInfo) (c : Cache) : CacheInfo :=
  MkInfo (ifname i) (ifaddr i) c (nameservers i) (nsaddrinfo i).
Definition set_servers (i : CacheInfo) (ns : list (option bytes)) (ai : list (option addrinfo)) : CacheInfo :=
  MkInfo (ifname i) (ifaddr i) (cache i) ns ai.

Definition _res_cache_init : resolver := MkResolver [] [].

(** strncpy(dst, src, IF_NAMESIZE) into an array of IF_NAMESIZE + 1 bytes. *)
Definition copy_name (s : bytes) : bytes := take IF_NAMESIZE s.

(** The loop of _find_cache_info_locked from position [i] on. *)
Fixpoint find_info (l : list CacheInfo) (name : bytes) (i : nat) : option nat :=
  match l with
  | [] => None
  | info :: l => if decide (ifname info = name) then Some i else find_info l name (S i)
  end.

Definition _find_cache_info_locked (r : resolver) (name : option bytes) : option nat :=
  match name with
  | None => None
  | Some name => find_info (_res_cache_list r) name 0
  end.

(** The cache of an element is that element's. *)
Definition _find_named_cache_locked (r : resolver) (name : option bytes) : option nat :=
  _find_cache_info_locked r name.

Definition _create_cache_info (mem : bool) : option unit := if mem then Some () else None.

Definition _insert_cache_info_locked (r : resolver) (info : CacheInfo) : resolver :=
  set_list r (_res_cache_list r ++ [info]).

(** The results of the calls of calloc, the property of the cache size, and whether
    strdup finds memory for each of the strings it is called for in turn. *)
Record resources : Type := Resources {
  mem_info : bool; mem_cache : bool; mem_table : bool; prop_size : option Z; mem_dup : nat -> bool }.

Definition _get_res_cache_for_iface_locked (r : resolver) (name : option bytes) (m : resources) :
    resolver * option nat :=
  match name with
  | None => (r, None)
  | Some nm =>
      match _find_named_cache_locked r name with
      | Some i => (r, Some i)
      | None =>
          match _create_cache_info (mem_info m) with
          | None => (r, None)
          | Some _ =>
              match _resolv_cache_create (prop_size m) (mem_cache m) (mem_table m) with
              | None => (r, None)
              | Some c =>
                  (_insert_cache_info_locked r
                     (MkInfo (copy_name nm) 0 c (replicate (S MAXNS) None) (replicate (S MAXNS) None)),
                   Some (length (_res_cache_list r)))
              end
          end
      end
  end.

Definition _get_default_iface_locked (r : resolver) : bytes := _res_default_ifname r.

(** The loop that looks for a name when there is no default interface. *)
Fixpoint some_ifname (l : list CacheInfo) (name : bytes) : bytes :=
  match l with
  | [] => name
  | info :: l => some_ifname l (match ifname info with [] => name | _ => ifname info end)
  end.

Definition default_ifname (r : resolver) : bytes :=
  match _get_default_iface_locked r with
  | [] => some_ifname (_res_cache_list r) []
  | name => name
  end.

Definition __get_res_cache (r : resolver) (m : resources) : resolver * option nat :=
  _get_res_cache_for_iface_locked r (Some (default_ifname r)) m.

(** Runs [f] on the cache at position [i]. *)
Definition with_cache (r : resolver) (i : nat) (f : Cache -> option Cache) : option resolver :=
  info ← _res_cache_list r !! i;
  c ← f (cache info);
  Some (set_list r (<[i := set_cache info c]> (_res_cache_list r))).

Definition _resolv_cache_reset (r : resolver) (gen : Z) (m : resources) : option resolver :=
  let '(r, i) := _get_res_cache_for_iface_locked r (Some (default_ifname r)) m in
  match i with
  | None => Some r
  | Some i => with_cache r i (fun c =>
      if negb (generation c =? gen) then c ← _cache_flush_locked c; Some (set_generation c gen)
      else Some c)
  end.

Definition _flush_cache_for_iface_locked (r : resolver) (name : option bytes) : option resolver :=
  match _find_named_cache_locked r name with
  | None => Some r
  | Some i => with_cache r i _cache_flush_locked
  end.
Definition _resolv_flush_cache_for_default_iface (r : resolver) : option resolver :=
  _flush_cache_for_iface_locked r (Some (_get_default_iface_locked r)).
Definition _resolv_flush_cache_for_iface (r : resolver) (name : option bytes) : option resolver :=
  _flush_cache_for_iface_locked r name.

Definition _resolv_set_default_iface (r : resolver) (name : bytes) : resolver :=
  MkResolver (copy_name name) (_res_cache_list r).

(** ** Name servers *)
Definition _free_nameservers_locked (info : CacheInfo) : CacheInfo :=
  set_servers info (replicate (S MAXNS) None) (replicate (S MAXNS) None).

Definition strdup (mem : bool) (s : bytes) : option bytes := if mem then Some s else None.

(** for (i = 0; i < numservers && i < MAXNS; i++); index is also the number of calls
    of strdup so far. *)
Fixpoint set_loop (dup : nat -> bool) (k : nat) (servers : list bytes) (index : nat) (info : CacheInfo) : CacheInfo :=
  match k, servers with
  | S k, s :: servers =>
      match getaddrinfo s with
      | Some ai => set_loop dup k servers (S index)
                     (set_servers info (<[index := strdup (dup index) s]> (nameservers info)) (<[index := Some ai]> (nsaddrinfo info)))
      | None => set_loop dup k servers index
                  (set_servers info (nameservers info) (<[index := None]> (nsaddrinfo info)))
      end
  | _, _ => info
  end.

Definition _resolv_set_nameservers_for_iface (r : resolver) (name : option bytes) (servers : list bytes) (m : resources) :
    resolver :=
  let '(r, _) := _get_res_cache_for_iface_locked r name m in
  match _find_cache_info_locked r name with
  | None => r
  | Some i =>
      set_list r (alter (fun info => set_loop (mem_dup m) MAXNS servers 0 (_free_nameservers_locked info)) i (_res_cache_list r))
  end.

(** Answers the length and, when it fits, the string that is written. *)
Definition _get_nameserver_locked (r : resolver) (name : option bytes) (n : Z) (addrLen : Z) : Z * option bytes :=
  if (n <? 1) || (Z.of_nat MAXNS <? n) then (0, None)
  else
    match _find_cache_info_locked r name with
    | None => (0, None)
    | Some i =>
        match info ← _res_cache_list r !! i; mjoin (nameservers info !! Z.to_nat (n - 1)) with
        | None => (0, None)
        | Some ns => if len ns <? addrLen then (len ns, Some ns) else (0, None)
        end
    end.

Definition _resolv_cache_get_nameserver (r : resolver) (n addrLen : Z) : Z * option bytes :=
  _get_nameserver_locked r (Some (_get_default_iface_locked r)) n addrLen.

Definition _get_nameserver_addr_locked (r : resolver) (name : option bytes) (n : Z) : option addrinfo :=
  if (n <? 1) || (Z.of_nat MAXNS <? n) then None
  else
    i ← _find_cache_info_locked r name;
    info ← _res_cache_list r !! i;
    mjoin (nsaddrinfo info !! Z.to_nat (n - 1)).

Definition _cache_get_nameserver_addr (r : resolver) (n : Z) : option addrinfo :=
  _get_nameserver_addr_locked r (Some (_get_default_iface_locked r)) n.

(** ** Addresses of the interfaces *)
Definition _resolv_set_addr_of_iface (r : resolver) (name : option bytes) (addr : Z) : resolver :=
  match _find_cache_info_locked r name with
  | None => r
  | Some i => set_list r (alter (fun info =>
      MkInfo (ifname info) addr (cache info) (nameservers info) (nsaddrinfo info)) i (_res_cache_list r))
  end.

Definition _get_addr_locked (r : resolver) (name : option bytes) : option Z :=
  i ← _find_cache_info_locked r name;
  info ← _res_cache_list r !! i;
  Some (ifaddr info).
Definition _resolv_get_addr_of_default_iface (r : resolver) : option Z :=
  _get_addr_locked r (Some (_get_default_iface_locked r)).
Definition _resolv_get_addr_of_iface (r : resolver) (name : option bytes) : option Z := _get_addr_locked r name.

(** ** Finding an interface *)
Definition names (r : resolver) : list bytes := ifname <$> _res_cache_list r.

Lemma find_info_some l name k i :
  find_info l name k = Some i -> (k <= i)%nat /\ exists info, l !! (i - k)%nat = Some info /\ ifname info = name.
Proof.
  revert k. induction l as [|x l IH]; intros k; simpl; [done|]. case_decide.
  - intros [= <-]. split; [lia|]. exists x. by rewrite Nat.sub_diag.
  - intros H'. destruct (IH (S k) H') as (Hk & info & Hi & Hn). split; [lia|]. exists info. split; [|done].
    replace (i - k)%nat with (S (i - S k)) by lia. done.
Qed.
Lemma find_info_none l name k : find_info l name k = None -> name ∉ ifname <$> l.
Proof.
  revert k. induction l as [|x l IH]; intros k; simpl; [set_solver|]. case_decide; [done|].
  intros H'%IH. rewrite elem_of_cons. intros [->|?]; done.
Qed.
Lemma find_info_found l name k i info :
  NoDup (ifname <$> l) -> l !! i = Some info -> ifname info = name -> find_info l name k = Some (k + i)%nat.
Proof.
  revert k i. induction l as [|x l IH]; intros k i Hn Hi Hname; [done|]. simpl in *. apply NoDup_cons in Hn as [Hx Hn].
  destruct i as [|i]; simpl in Hi.
  - injection Hi as ->. rewrite decide_True by done. f_equal. lia.
  - rewrite decide_False; [rewrite (IH (S k) i) by done; f_equal; lia|]. intros E. apply Hx. rewrite E, <- Hname.
    apply list_elem_of_fmap_2. by eapply list_elem_of_lookup_2.
Qed.

Lemma find_spec r (name : bytes) :
  NoDup (names r) ->
  match _find_cache_info_locked r (Some name) with
  | Some i => exists info, _res_cache_list r !! i = Some info /\ ifname info = name
  | None => name ∉ names r
  end.
Proof.
  intros Hn. unfold _find_cache_info_locked. destruct (find_info _ _ _) as [i|] eqn:E.
  - apply find_info_some in E as (_ & info & Hi & Hname). exists info. by rewrite Nat.sub_0_r in Hi.
  - by apply find_info_none in E.
Qed.

Lemma find_of r i info :
  NoDup (names r) -> _res_cache_list r !! i = Some info -> _find_cache_info_locked r (Some (ifname info)) = Some i.
Proof. intros Hn Hi. unfold _find_cache_info_locked. by rewrite (find_info_found _ _ 0 i info). Qed.

Definition enough (m : resources) : Prop := mem_info m = true /\ mem_cache m = true /\ mem_table m = true.

(** What _get_res_cache_for_iface_locked does to the list. *)
Lemma get_cache_facts r (name : bytes) m :
  NoDup (names r) -> (length name <= IF_NAMESIZE)%nat ->
  exists r' o, _get_res_cache_for_iface_locked r (Some name) m = (r', o) /\ NoDup (names r') /\
    _res_default_ifname r' = _res_default_ifname r /\ (_res_cache_list r) `prefix_of` (_res_cache_list r') /\
    (forall i, o = Some i -> exists info, _res_cache_list r' !! i = Some info /\ ifname info = name /\
       ((length (_res_cache_list r) <= i)%nat -> rep (cache info) [])) /\
    (enough m -> is_Some o).
Proof.
  intros Hn Hlen. unfold _get_res_cache_for_iface_locked, _find_named_cache_locked.
  pose proof (find_spec r name Hn) as Hf. revert Hf. destruct (_find_cache_info_locked r (Some name)) as [i|]; intros Hf.
  { exists r, (Some i). split_and!; try done. intros ? [= <-]. destruct Hf as (info & Hi & Hname).
    exists info. split_and!; [done|done|]. intros Hle. apply lookup_lt_Some in Hi. lia. }
  assert (Hsame : exists r' o, (r, @None nat) = (r', o) /\ NoDup (names r') /\ _res_default_ifname r' = _res_default_ifname r /\
    (_res_cache_list r) `prefix_of` (_res_cache_list r') /\
    (forall i, o = Some i -> exists info, _res_cache_list r' !! i = Some info /\ ifname info = name /\
       ((length (_res_cache_list r) <= i)%nat -> rep (cache info) [])) /\ (False -> is_Some o)).
  { exists r, None. by split_and!. }
  destruct m as [[|] mc mt prop]; simpl.
  2:{ destruct Hsame as (r' & o & ? & ? & ? & ? & ? & _). exists r', o. unfold enough. split_and!; try done. by intros [? _]. }
  destruct (_resolv_cache_create prop mc mt) as [c|] eqn:Ec.
  2:{ destruct Hsame as (r' & o & ? & ? & ? & ? & ? & _). exists r', o. unfold enough. split_and!; try done. intros (_ & Hmc & Hmt). simpl in *.
      subst. by destruct (create_ok prop) as (? & E & _); rewrite E in Ec. }
  assert (Hc : rep c []).
  { destruct mc, mt; try done. destruct (create_ok prop) as (c' & E & Hr & _). rewrite E in Ec. by injection Ec as <-. }
  eexists _, _. split; [done|]. unfold _insert_cache_info_locked, names. simpl.
  assert (Hcopy : copy_name name = name) by (apply take_ge; done).
  split_and!; [|done|by eexists| |eauto].
  - rewrite fmap_app. simpl. apply NoDup_app. split_and!; [done| |apply NoDup_singleton]. rewrite Hcopy. set_solver.
  - intros i [= <-]. eexists. split; [apply list_lookup_middle; done|]. done.
Qed.

(** There is one cache for each interface: asking for the cache of an
    interface adds at most one element at the end of the list, with an empty
    cache, leaves the others as they are, and asking again, even without memory,
    answers the same cache and changes nothing. *)
Theorem iface_cache_unique r (name : bytes) m
    (Hn : NoDup (names r)) (Hlen : (length name <= IF_NAMESIZE)%nat) :
  exists r' o, _get_res_cache_for_iface_locked r (Some name) m = (r', o) /\ NoDup (names r') /\
    (_res_cache_list r) `prefix_of` (_res_cache_list r') /\ (enough m -> is_Some o) /\
    forall i, o = Some i ->
      (exists info, _res_cache_list r' !! i = Some info /\ ifname info = name /\
         ((length (_res_cache_list r) <= i)%nat -> rep (cache info) [])) /\
      forall m', _get_res_cache_for_iface_locked r' (Some name) m' = (r', Some i).
Proof.
  destruct (get_cache_facts r name m Hn Hlen) as (r' & o & E & Hn' & _ & Hp & Hi & Hm). exists r', o.
  split_and!; try done. intros i Ho. destruct (Hi i Ho) as (info & Hl & Hname & Hnew). split; [eauto|]. intros m'.
  unfold _get_res_cache_for_iface_locked, _find_named_cache_locked. subst name. by rewrite (find_of r' i info).
Qed.

(** ** The state of the resolver *)
Definition resolver_ok (r : resolver) : Prop :=
  NoDup (names r) /\ (length (_res_default_ifname r) <= IF_NAMESIZE)%nat /\
  Forall (fun info => (length (ifname info) <= IF_NAMESIZE)%nat /\ exists its, rep (cache info) its) (_res_cache_list r).

Lemma some_ifname_short l name :
  (length name <= IF_NAMESIZE)%nat -> Forall (fun info => (length (ifname info) <= IF_NAMESIZE)%nat) l ->
  (length (some_ifname l name) <= IF_NAMESIZE)%nat.
Proof.
  intros Hn Hl. revert name Hn. induction Hl as [|info l Hi _ IH]; intros name Hn; simpl; [done|].
  apply IH. by destruct (ifname info).
Qed.

Lemma default_short r : resolver_ok r -> (length (default_ifname r) <= IF_NAMESIZE)%nat.
Proof.
  intros (_ & Hd & Hl). unfold default_ifname, _get_default_iface_locked. destruct (_res_default_ifname r) eqn:E; [|exact Hd].
  apply some_ifname_short; [simpl; lia|]. eapply Forall_impl; [exact Hl|]. by intros ? [? _].
Qed.

Lemma generation_only c g its : rep c its -> rep (set_generation c g) its.
Proof. intros (l & chs & [] & Hits & Hnd). exists l, chs. by split. Qed.

(** _resolv_cache_reset gives the cache of the default interface the new
    generation; that cache is emptied when its generation was another one and is
    left alone otherwise, and the caches of the other interfaces are not
    touched. *)
Theorem reset_spec r gen m (Hok : resolver_ok r) (Hm : enough m) :
  exists r' i info info', _resolv_cache_reset r gen m = Some r' /\
    ifname info = default_ifname r /\
    (_get_res_cache_for_iface_locked r (Some (default_ifname r)) m).2 = Some i /\
    _res_cache_list (_get_res_cache_for_iface_locked r (Some (default_ifname r)) m).1 !! i = Some info /\
    _res_cache_list r' !! i = Some info' /\ ifname info' = ifname info /\ generation (cache info') = gen /\
    (generation (cache info) <> gen -> rep (cache info') []) /\ (generation (cache info) = gen -> info' = info) /\
    forall j info0, j <> i -> _res_cache_list r !! j = Some info0 -> _res_cache_list r' !! j = Some info0.
Proof.
  pose proof (default_short r Hok) as Hshort. destruct Hok as (Hn & _ & Hall). unfold _resolv_cache_reset.
  destruct (get_cache_facts r (default_ifname r) m Hn Hshort) as (r1 & o & E & Hn1 & _ & [suf Hp] & Hi & Hsome).
  rewrite E. destruct (Hsome Hm) as [i ->]. destruct (Hi i eq_refl) as (info & Hl & Hname & Hnew).
  assert (Hrep : exists its, rep (cache info) its).
  { destruct (decide (length (_res_cache_list r) <= i)%nat) as [Hle|Hlt]; [eauto|].
    rewrite Hp, lookup_app_l in Hl by lia. by apply (Forall_lookup_1 _ _ _ _ Hall Hl). }
  destruct Hrep as [its Hrep]. unfold with_cache. rewrite Hl. cbn [mbind option_bind].
  assert (Hold : forall c j info0, j <> i -> _res_cache_list r !! j = Some info0 ->
    <[i := set_cache info c]> (_res_cache_list r1) !! j = Some info0).
  { intros c j info0 Hj H0. rewrite list_lookup_insert_ne by done. rewrite Hp. by apply lookup_app_l_Some. }
  pose proof (lookup_lt_Some _ _ _ Hl) as Hlt.
  destruct (Z.eqb_spec (generation (cache info)) gen) as [Hg|Hg]; cbn [negb mbind option_bind].
  - assert (Hid : set_cache info (cache info) = info) by (by destruct info).
    eexists _, i, info, info. split; [done|]. cbn [set_list _res_cache_list].
    split_and!; try done; [|by apply Hold]. rewrite Hid. by apply list_lookup_insert_eq.
  - destruct (flush_simulates _ its Hrep) as (c & -> & Hr & _ & _). cbn [mbind option_bind].
    eexists _, i, info, (set_cache info (set_generation c gen)). split; [done|]. cbn [set_list _res_cache_list].
    split_and!; try done; [by apply list_lookup_insert_eq|intros _; by apply generation_only|by apply Hold].
Qed.

(** ** The name servers that were set *)

(** The first MAXNS servers that getaddrinfo accepts. *)
Definition accepted (servers : list bytes) : list bytes :=
  filter (fun s => is_Some (getaddrinfo s)) (take MAXNS servers).

Definition padded {A} (l : list A) : list (option A) := (Some <$> l) ++ replicate (S MAXNS - length l) None.

Lemma padded_insert {A} (l : list A) x :
  (length l <= MAXNS)%nat -> <[length l := Some x]> (padded l) = padded (l ++ [x]).
Proof.
  intros Hl. unfold padded. rewrite length_app. simpl length.
  replace (S MAXNS - length l)%nat with (S (S MAXNS - (length l + 1))) by lia. simpl replicate.
  replace (length l) with (length (Some <$> l) + 0)%nat at 1 by (rewrite length_fmap; lia).
  rewrite insert_app_r. simpl. rewrite fmap_app, <- app_assoc. done.
Qed.
Lemma padded_insert_none {A} (l : list A) : (length l <= MAXNS)%nat -> <[length l := None]> (padded l) = padded l.
Proof.
  intros Hl. apply list_insert_id. unfold padded. rewrite lookup_app_r by (rewrite length_fmap; lia).
  rewrite length_fmap, Nat.sub_diag. apply lookup_replicate. split; [done|lia].
Qed.
Lemma padded_lookup {A} (l : list A) i : mjoin (padded l !! i) = l !! i.
Proof.
  unfold padded. destruct (decide (i < length l)%nat) as [Hi|Hi].
  - rewrite lookup_app_l by (by rewrite length_fmap). rewrite list_lookup_fmap.
    by destruct (l !! i).
  - rewrite lookup_app_r by (rewrite length_fmap; lia). rewrite (lookup_ge_None_2 l i) by lia.
    by destruct (replicate _ _ !! _) as [[|]|] eqn:E; [apply lookup_replicate in E as [? _]| |].
Qed.

(** The copies of the names of the servers. *)
Definition dupped (dup : nat -> bool) (l : list bytes) : list (option bytes) :=
  imap (fun i s => strdup (dup i) s) l ++ replicate (S MAXNS - length l) None.

Lemma dupped_insert dup l x :
  (length l <= MAXNS)%nat -> <[length l := strdup (dup (length l)) x]> (dupped dup l) = dupped dup (l ++ [x]).
Proof.
  intros Hl. unfold dupped. rewrite length_app. simpl length.
  replace (S MAXNS - length l)%nat with (S (S MAXNS - (length l + 1))) by lia. simpl replicate.
  rewrite imap_app. cbn [imap]. replace (length l) with (length (imap (fun i s => strdup (dup i) s) l) + 0)%nat at 1 by (rewrite length_imap; lia).
  rewrite insert_app_r. simpl. by rewrite Nat.add_0_r, <- app_assoc.
Qed.
Lemma dupped_lookup dup l i : mjoin (dupped dup l !! i) = (s ← l !! i; strdup (dup i) s).
Proof.
  unfold dupped. destruct (decide (i < length l)%nat) as [Hi|Hi].
  - rewrite lookup_app_l by (by rewrite length_imap). rewrite list_lookup_imap. by destruct (l !! i).
  - rewrite lookup_app_r by (rewrite length_imap; lia). rewrite (lookup_ge_None_2 l i) by lia.
    by destruct (replicate _ _ !! _) as [[|]|] eqn:E; [apply lookup_replicate in E as [? _]| |].
Qed.

Lemma set_loop_ok dup k servers acc ais info :
  (length acc + k <= MAXNS)%nat -> length ais = length acc ->
  nameservers info = dupped dup acc -> nsaddrinfo info = padded ais ->
  let info' := set_loop dup k servers (length acc) info in
  let new := filter (fun s => is_Some (getaddrinfo s)) (take k servers) in
  ifname info' = ifname info /\ cache info' = cache info /\
  nameservers info' = dupped dup (acc ++ new) /\ nsaddrinfo info' = padded (ais ++ omap getaddrinfo new).
Proof.
  revert servers acc ais info. induction k as [|k IH]; intros servers acc ais info Hk Hl Hns Hai; cbn zeta.
  { simpl. by rewrite !app_nil_r. }
  destruct servers as [|s servers]; [by rewrite take_nil, !app_nil_r|]. cbn [set_loop take].
  destruct (getaddrinfo s) as [ai|] eqn:Es.
  - rewrite filter_cons_True by eauto. replace (S (length acc)) with (length (acc ++ [s])) by (rewrite length_app; simpl; lia).
    destruct (IH servers (acc ++ [s]) (ais ++ [ai]) (set_servers info (<[length acc:=strdup (dup (length acc)) s]> (nameservers info)) (<[length acc:=Some ai]> (nsaddrinfo info))))
      as (H1 & H2 & H3 & H4); [rewrite length_app; simpl; lia|rewrite !length_app; simpl; lia| | |].
    + cbn [set_servers nameservers]. rewrite Hns. apply dupped_insert. lia.
    + cbn [set_servers nsaddrinfo]. rewrite Hai, <- Hl. apply padded_insert. lia.
    + rewrite H1, H2, H3, H4, <- !app_assoc. split_and!; try done. simpl. by rewrite Es.
  - rewrite filter_cons_False by (rewrite Es; by intros []).
    destruct (IH servers acc ais (set_servers info (nameservers info) (<[length acc:=None]> (nsaddrinfo info)))) as (H1 & H2 & H3 & H4);
      [lia|done|done| |by rewrite H1, H2, H3, H4].
    cbn [set_servers nsaddrinfo]. rewrite Hai, <- Hl. apply padded_insert_none. lia.
Qed.

(** C37.  For an interface whose name has at most IF_NAMESIZE characters, when the
    names of the interfaces are distinct and there is memory for a new cache, the name
    servers set for it as the default interface are the ones that are read back: the
    n-th of those with a numeric address among the first MAXNS, if strdup found memory
    for its name and the buffer has room for it and its NUL, and the address that
    getaddrinfo gave, also if strdup failed; and nothing for other n. *)
Theorem nameservers_roundtrip r (name : bytes) servers m n addrLen
    (Hn : NoDup (names r)) (Hlen : (length name <= IF_NAMESIZE)%nat) (Hm : enough m) :
  let r' := _resolv_set_nameservers_for_iface (_resolv_set_default_iface r name) (Some name) servers m in
  _resolv_cache_get_nameserver r' n addrLen =
    match (if (1 <=? n) && (n <=? Z.of_nat MAXNS) && mem_dup m (Z.to_nat (n - 1))
           then accepted servers !! Z.to_nat (n - 1) else None) with
    | Some s => if len s <? addrLen then (len s, Some s) else (0, None)
    | None => (0, None)
    end /\
  _cache_get_nameserver_addr r' n =
    (if (1 <=? n) && (n <=? Z.of_nat MAXNS) then omap getaddrinfo (accepted servers) !! Z.to_nat (n - 1) else None).
Proof.
  cbn zeta. set (r0 := _resolv_set_default_iface r name). assert (Hn0 : NoDup (names r0)) by exact Hn.
  assert (Hdef : _res_default_ifname r0 = name) by (apply take_ge; done).
  unfold _resolv_set_nameservers_for_iface.
  destruct (get_cache_facts r0 name m Hn0 Hlen) as (r1 & o & E & Hn1 & Hd1 & _ & Hi & Hsome). rewrite E.
  destruct (Hsome Hm) as [i ->]. destruct (Hi i eq_refl) as (info & Hl & Hname & _).
  assert (Hfind : _find_cache_info_locked r1 (Some name) = Some i) by (rewrite <- Hname; by apply find_of).
  rewrite Hfind. set (info' := set_loop (mem_dup m) MAXNS servers 0 (_free_nameservers_locked info)).
  destruct (set_loop_ok (mem_dup m) MAXNS servers [] [] (_free_nameservers_locked info)) as (H1 & _ & H3 & H4); [simpl; lia|done..|].
  cbn [length app] in H1, H3, H4. fold info' in H1, H3, H4.
  set (r2 := set_list r1 _).
  assert (Hr2 : _res_cache_list r2 !! i = Some info').
  { unfold r2. cbn [set_list _res_cache_list]. rewrite list_lookup_alter_eq, Hl. done. }
  assert (Hn2 : NoDup (names r2)).
  { unfold names, r2. cbn [set_list _res_cache_list].
    replace (ifname <$> _) with (names r1); [done|]. unfold names. apply list_eq. intros j. rewrite !list_lookup_fmap.
    destruct (decide (j = i)) as [->|]; [rewrite list_lookup_alter_eq, Hl; cbn [fmap option_fmap option_map]; f_equal; symmetry; exact H1|by rewrite list_lookup_alter_ne]. }
  assert (Hf2 : _find_cache_info_locked r2 (Some name) = Some i).
  { rewrite <- Hname. change (ifname info) with (ifname (_free_nameservers_locked info)). rewrite <- H1. by apply find_of. }
  unfold _resolv_cache_get_nameserver, _cache_get_nameserver_addr, _get_nameserver_locked, _get_nameserver_addr_locked, _get_default_iface_locked.
  replace (_res_default_ifname r2) with name by (unfold r2; simpl; congruence). rewrite Hf2. cbn [mbind option_bind]. rewrite Hr2.
  cbn [mbind option_bind]. rewrite H3, H4, dupped_lookup, padded_lookup. unfold accepted.
  destruct (Z.ltb_spec n 1), (Z.ltb_spec (Z.of_nat MAXNS) n), (Z.leb_spec 1 n), (Z.leb_spec n (Z.of_nat MAXNS)); try lia; cbn [andb orb]; try done.
  unfold strdup. destruct (mem_dup m (Z.to_nat (n - 1))), (filter _ _ !! Z.to_nat (n - 1)); done.
Qed.
End Iface.

(** ** A resolver with two interfaces *)

(** Accepts the strings that start with a digit. *)
Definition digit_addrs : AddrInfo :=
  {| addrinfo := Z; getaddrinfo s := match s with c :: _ => if (48 <=? c) && (c <=? 57) then Some (c - 48) else None | [] => None end |}.
#[local] Existing Instance digit_addrs.

Definition wlan0 : bytes := [119; 108; 97; 110; 48].
Definition rmnet0 : bytes := [114; 109; 110; 101; 116; 48].
Definition plenty : resources := Resources true true true (Some 2) (fun _ => true).
Definition two_ifaces : resolver :=
  (_get_res_cache_for_iface_locked (_get_res_cache_for_iface_locked _res_cache_init (Some wlan0) plenty).1 (Some rmnet0) plenty).1.

Lemma two_ifaces_ok : resolver_ok two_ifaces.
Proof.
  destruct (create_ok (Some 2)) as (c & E & Hr & _). injection E as <-.
  split_and!; [apply (bool_decide_unpack _); vm_compute; done|simpl; lia|].
  unfold two_ifaces. repeat (constructor; [split; [vm_compute; lia|exists []; exact Hr]|]). constructor.
Qed.

Lemma iface_cache_unique_witness :
  NoDup (names two_ifaces) /\
  forall m', _get_res_cache_for_iface_locked two_ifaces (Some wlan0) m' = (two_ifaces, Some 0%nat).
Proof.
  split; [apply two_ifaces_ok|].
  destruct (iface_cache_unique two_ifaces wlan0 plenty) as (r' & o & E & _ & _ & _ & H); [apply two_ifaces_ok|vm_compute; lia|].
  assert (E' : _get_res_cache_for_iface_locked two_ifaces (Some wlan0) plenty = (two_ifaces, Some 0%nat)) by reflexivity.
  rewrite E' in E. injection E as <- <-. apply (H 0%nat eq_refl).
Defined.

Lemma reset_spec_witness :
  exists r' info', _resolv_cache_reset two_ifaces 7 plenty = Some r' /\
    _res_cache_list r' !! 1%nat = Some info' /\ generation (cache info') = 7 /\ rep (cache info') [].
Proof.
  destruct (reset_spec two_ifaces 7 plenty two_ifaces_ok) as (r' & i & info & info' & E & _ & Ei & El & El' & _ & Hg & Hrep & _); [done|].
  assert (Ei' : (_get_res_cache_for_iface_locked two_ifaces (Some (default_ifname two_ifaces)) plenty).2 = Some 1%nat) by reflexivity.
  rewrite Ei' in Ei. injection Ei as <-. injection El as <-. exists r', info'. split_and!; try done. apply Hrep. discriminate.
Defined.

Lemma nameservers_roundtrip_witness :
  let r' := _resolv_set_nameservers_for_iface (_resolv_set_default_iface two_ifaces wlan0) (Some wlan0)
              [[56; 46; 56]; [120]; [52; 46; 50]] plenty in
  _resolv_cache_get_nameserver r' 2 16 = (3, Some [52; 46; 50]) /\ _cache_get_nameserver_addr r' 2 = Some 4.
Proof.
  destruct (nameservers_roundtrip two_ifaces wlan0 [[56; 46; 56]; [120]; [52; 46; 50]] plenty 2 16) as [H1 H2];
    [apply two_ifaces_ok|vm_compute; lia|done|].
  split; [exact H1|exact H2].
Defined.

(** With no default interface the cache of the last interface is used, not that
    of the first. *)
Example default_is_last_iface : default_ifname two_ifaces = rmnet0.
Proof. reflexivity. Qed.

(** A name that does not fit ifname is never found again: every call makes a new
    cache. *)
Definition long_name : bytes := replicate 17 97.
Example long_name_never_found :
  let r1 := (_get_res_cache_for_iface_locked _res_cache_init (Some long_name) plenty).1 in
  let r2 := (_get_res_cache_for_iface_locked r1 (Some long_name) plenty).1 in
  length (_res_cache_list r1) = 1%nat /\ length (_res_cache_list r2) = 2%nat /\ ~ NoDup (names r2).
Proof.
  cbn zeta. split_and!; [reflexivity|reflexivity|]. intros H. apply (bool_decide_pack _) in H. vm_compute in H. done.
Qed.
