(* ===== verification/Qsort.v ===== *)
(** * Sorting and searching (libc/stdlib/qsort.c, bsearch.c)

    The array is the list of its elements, a pointer into it the index of an
    element; the loops over the bytes of an element (swapcode) exchange two
    elements.  [None] is an access outside the array or a run that is out of
    fuel.  The int variables r and d hold numbers of bytes of the array, which is
    taken to have fewer than 2^31 of them. *)
From stdpp Require Import sorting.
From S2P Require Import Prelude.

Section Qsort.
Context {A : Type} (cmp : A -> A -> Z).
Implicit Types (arr : list A) (a n : nat).

(** cmp(p, q) of two elements of the array. *)
Definition cmp_at arr (p q : nat) : option Z := x ← arr !! p; y ← arr !! q; Some (cmp x y).

(** t = *a; *a = *b; *b = t *)
Definition swap arr (i j : nat) : option (list A) :=
  t ← arr !! i; y ← arr !! j; Some (<[j := t]> (<[i := y]> arr)).

(** swapfunc of [r] elements *)
Fixpoint swapfunc arr (i j r : nat) : option (list A) :=
  match r with
  | O => Some arr
  | S r => arr ← swap arr i j; swapfunc arr (S i) (S j) r
  end.
Definition vecswap arr (i j r : nat) : option (list A) := if (0 <? r)%nat then swapfunc arr i j r else Some arr.

Definition med3 arr (a b c : nat) : option nat :=
  ab ← cmp_at arr a b;
  bc ← cmp_at arr b c;
  if ab <? 0 then
    if bc <? 0 then Some b else ac ← cmp_at arr a c; Some (if ac <? 0 then c else a)
  else
    if 0 <? bc then Some b else ac ← cmp_at arr a c; Some (if ac <? 0 then a else c).

(** for (pl = pm; pl > a && cmp(pl - es, pl) > 0; pl -= es) *)
Fixpoint insert_down arr a (pl : nat) : option (list A) :=
  match pl with
  | O => Some arr
  | S p =>
      if (a <? S p)%nat then
        c ← cmp_at arr p (S p);
        if 0 <? c then arr ← swap arr (S p) p; insert_down arr a p else Some arr
      else Some arr
  end.

(** for (pm = a + es; pm < a + n * es; pm += es), [k] rounds. *)
Fixpoint insert_all (k : nat) arr a (pm : nat) : option (list A) :=
  match k with
  | O => Some arr
  | S k => arr ← insert_down arr a pm; insert_all k arr a (S pm)
  end.
Definition insertion_sort arr a n : option (list A) := insert_all (n - 1) arr a (S a).

(** The position of the pivot. *)
Definition pivot arr a n : option nat :=
  let pm := (a + n / 2)%nat in
  if (7 <? n)%nat then
    let pl := a in
    let pn := (a + (n - 1))%nat in
    '(pl, pm, pn) ← (if (40 <? n)%nat then
        let d := (n / 8)%nat in
        pl ← med3 arr pl (pl + d) (pl + 2 * d);
        pm ← med3 arr (pm - d) pm (pm + d);
        pn ← med3 arr (pn - 2 * d) (pn - d) pn;
        Some (pl, pm, pn)
      else Some (pl, pm, pn));
    med3 arr pl pm pn
  else Some pm.

(** The state of the partition. *)
Record part : Type := Part { arr_ : list A; pa : nat; pb : nat; pc : nat; pd : nat; swap_cnt : bool }.

(** while (pb <= pc && (r = cmp(pb, a)) <= 0) *)
Fixpoint scan_up (fuel a : nat) (s : part) : option part :=
  match fuel with
  | O => None
  | S fuel =>
      if (pb s <=? pc s)%nat then
        r ← cmp_at (arr_ s) (pb s) a;
        if r <=? 0 then
          if r =? 0 then
            arr ← swap (arr_ s) (pa s) (pb s);
            scan_up fuel a (Part arr (S (pa s)) (S (pb s)) (pc s) (pd s) true)
          else scan_up fuel a (Part (arr_ s) (pa s) (S (pb s)) (pc s) (pd s) (swap_cnt s))
        else Some s
      else Some s
  end.

(** while (pb <= pc && (r = cmp(pc, a)) >= 0) *)
Fixpoint scan_down (fuel a : nat) (s : part) : option part :=
  match fuel with
  | O => None
  | S fuel =>
      if (pb s <=? pc s)%nat then
        r ← cmp_at (arr_ s) (pc s) a;
        if 0 <=? r then
          if r =? 0 then
            arr ← swap (arr_ s) (pc s) (pd s);
            scan_down fuel a (Part arr (pa s) (pb s) (pc s - 1) (pd s - 1) true)
          else scan_down fuel a (Part (arr_ s) (pa s) (pb s) (pc s - 1) (pd s) (swap_cnt s))
        else Some s
      else Some s
  end.

(** for (;;) *)
Fixpoint partition_loop (fuel a : nat) (s : part) : option part :=
  match fuel with
  | O => None
  | S fuel' =>
      s ← scan_up fuel a s;
      s ← scan_down fuel a s;
      if (pc s <? pb s)%nat then Some s
      else
        arr ← swap (arr_ s) (pb s) (pc s);
        partition_loop fuel' a (Part arr (pa s) (S (pb s)) (pc s - 1) (pd s) true)
  end.

(** The scans and the rounds each see an element once. *)
Definition partition_fuel n : nat := S (S n).

Fixpoint qsort_loop (fuel : nat) arr a n : option (list A) :=
  match fuel with
  | O => None
  | S fuel =>
      if (n <? 7)%nat then insertion_sort arr a n
      else
        pm ← pivot arr a n;
        arr ← swap arr a pm;
        s ← partition_loop (partition_fuel n) a (Part arr (S a) (S a) (a + (n - 1)) (a + (n - 1)) false);
        if negb (swap_cnt s) then insertion_sort (arr_ s) a n
        else
          let pn := (a + n)%nat in
          let r := Nat.min (pa s - a) (pb s - pa s) in
          arr ← vecswap (arr_ s) a (pb s - r) r;
          let r := Nat.min (pd s - pc s) (pn - pd s - 1) in
          arr ← vecswap arr (pb s) (pn - r) r;
          let r := (pb s - pa s)%nat in
          arr ← (if (1 <? r)%nat then qsort_loop fuel arr a r else Some arr);
          let r := (pd s - pc s)%nat in
          if (1 <? r)%nat then qsort_loop fuel arr (pn - r) r else Some arr
  end.

(** Each recursive call and each round has fewer elements. *)
Definition qsort arr : option (list A) := qsort_loop (S (length arr)) arr 0 (length arr).

(** for (lim = nmemb; lim != 0; lim >>= 1), lim an int; the answer is the index
    of the element found, or [None] for NULL. *)
Fixpoint bsearch_loop (fuel : nat) (key : A) arr (base lim : Z) : option (option Z) :=
  match fuel with
  | O => None
  | S fuel =>
      if lim =? 0 then Some None
      else
        let p := base + Z.shiftr lim 1 in
        x ← (if 0 <=? p then arr !! Z.to_nat p else None);
        let c := cmp key x in
        if 0 <? c then bsearch_loop fuel key arr (p + 1) (Z.shiftr (lim - 1) 1)
        else if c =? 0 then Some (Some p)
        else bsearch_loop fuel key arr base (Z.shiftr lim 1)
  end.

(** An int is halved 32 times at most before it is zero. *)
Definition bsearch (key : A) arr : option (option Z) := bsearch_loop 33 key arr 0 (s32 (Z.of_nat (length arr))).
End Qsort.

(** ** Exchanging elements of a concatenation *)
Section Swaps.
Context {A : Type}.
Implicit Types (X Y Z P Q R M : list A).

Lemma swap_mid X x Y y Z i j :
  i = length X -> j = (length X + S (length Y))%nat ->
  swap (X ++ x :: Y ++ y :: Z) i j = Some (X ++ y :: Y ++ x :: Z).
Proof.
  intros -> ->. unfold swap. rewrite (list_lookup_middle X _ x (length X)) by done. cbn [mbind option_bind].
  rewrite lookup_app_r by lia. replace (length X + S (length Y) - length X)%nat with (S (length Y)) by lia. simpl.
  rewrite (list_lookup_middle Y _ y (length Y)) by done. cbn [mbind option_bind]. f_equal.
  rewrite (insert_app_r_alt X) by lia. rewrite Nat.sub_diag. simpl.
  rewrite insert_app_r. simpl. f_equal. f_equal. rewrite (insert_app_r_alt Y) by lia. by rewrite Nat.sub_diag.
Qed.
Lemma swap_self X x Z i : i = length X -> swap (X ++ x :: Z) i i = Some (X ++ x :: Z).
Proof.
  intros ->. unfold swap. rewrite list_lookup_middle by done. cbn [mbind option_bind]. f_equal.
  rewrite !list_insert_id by (rewrite ?list_insert_id; apply list_lookup_middle; done). done.
Qed.
Lemma swap_sym X x Y y Z i j :
  j = length X -> i = (length X + S (length Y))%nat ->
  swap (X ++ x :: Y ++ y :: Z) i j = Some (X ++ y :: Y ++ x :: Z).
Proof.
  intros Hj Hi. rewrite <- (swap_mid X x Y y Z j i Hj Hi). unfold swap.
  destruct ((X ++ x :: Y ++ y :: Z) !! i); destruct ((X ++ x :: Y ++ y :: Z) !! j); try done. cbn [mbind option_bind].
  f_equal. apply list_insert_insert_ne. lia.
Qed.

(** A swap with the first element of a region. *)
Lemma swap_first P R Q i :
  (i < length R)%nat -> exists R', swap (P ++ R ++ Q) (length P) (length P + i) = Some (P ++ R' ++ Q) /\ R' ≡ₚ R.
Proof.
  intros Hi. destruct R as [|x R]; [simpl in Hi; lia|]. destruct i as [|i].
  - exists (x :: R). rewrite Nat.add_0_r. split; [by apply swap_self|done].
  - destruct (lookup_lt_is_Some_2 R i) as [y Hy]; [simpl in Hi; lia|]. rewrite <- (take_drop_middle R i y Hy).
    exists (y :: take i R ++ x :: drop (S i) R). split.
    + simpl. rewrite <- !app_assoc. simpl. apply swap_mid; [done|]. rewrite length_take_le by (apply lookup_lt_Some in Hy; lia). done.
    + rewrite <- !Permutation_middle. apply Permutation_swap.
Qed.

(** Exchanging two blocks of the same length. *)
Lemma vecswap_blocks X B M C Y i j r :
  length B = r -> length C = r -> i = length X -> j = (length X + r + length M)%nat ->
  vecswap (X ++ B ++ M ++ C ++ Y) i j r = Some (X ++ C ++ M ++ B ++ Y).
Proof.
  assert (H : forall r X B M C Y, length B = r -> length C = r ->
    swapfunc (X ++ B ++ M ++ C ++ Y) (length X) (length X + r + length M) r = Some (X ++ C ++ M ++ B ++ Y)).
  { clear. induction r as [|r IH]; intros X B M C Y HB HC.
    - destruct B, C; done.
    - destruct B as [|b B], C as [|c C]; try done. simpl in HB, HC. cbn [swapfunc]. simpl app.
      replace (b :: B ++ M ++ c :: C ++ Y) with (b :: (B ++ M) ++ c :: C ++ Y) by (by rewrite <- app_assoc).
      rewrite swap_mid; [|done|rewrite length_app; lia]. cbn [mbind option_bind].
      specialize (IH (X ++ [c]) B (M ++ [b]) C Y). rewrite !length_app in IH. simpl in IH. rewrite <- !app_assoc in IH. simpl in IH.
      replace (S (length X)) with (length X + 1)%nat by lia.
      replace (S (length X + S r + length M)) with (length X + 1 + r + (length M + 1))%nat by lia.
      rewrite <- !app_assoc. rewrite IH by lia. done. }
  intros HB HC -> ->. unfold vecswap. destruct (0 <? r)%nat eqn:Er; [by apply H|].
  apply Nat.ltb_ge in Er. destruct B; [|simpl in *; lia]. destruct C; [|simpl in *; lia]. done.
Qed.

(** Blocks of any length, by exchanging the shorter with the far end of the longer. *)
Lemma vecswap_regions X E L Y i j r :
  r = Nat.min (length E) (length L) -> i = length X -> j = (length X + length E + length L - r)%nat ->
  exists L' E', vecswap (X ++ E ++ L ++ Y) i j r = Some (X ++ L' ++ E' ++ Y) /\ L' ≡ₚ L /\ E' ≡ₚ E.
Proof.
  intros Hr -> ->. destruct (Nat.le_gt_cases (length E) (length L)) as [Hle|Hgt].
  - rewrite Nat.min_l in Hr by lia. subst r. set (L1 := take (length L - length E) L). set (L2 := drop (length L - length E) L).
    assert (HL : L = L1 ++ L2) by (symmetry; apply take_drop).
    assert (Hl1 : length L1 = (length L - length E)%nat) by (unfold L1; rewrite length_take; lia).
    assert (Hl2 : length L2 = length E) by (unfold L2; rewrite length_drop; lia).
    exists (L2 ++ L1), E. rewrite HL at 1. rewrite <- !app_assoc.
    rewrite (vecswap_blocks X E L1 L2 Y); [|done|done|done|lia]. split_and!; [done| |done].
    transitivity (L1 ++ L2); [apply Permutation_app_comm|by rewrite <- HL].
  - rewrite Nat.min_r in Hr by lia. subst r. set (E1 := take (length L) E). set (E2 := drop (length L) E).
    assert (HE : E = E1 ++ E2) by (symmetry; apply take_drop).
    assert (Hl1 : length E1 = length L) by (unfold E1; rewrite length_take; lia).
    assert (Hl2 : length E2 = (length E - length L)%nat) by (unfold E2; rewrite length_drop; lia).
    exists L, (E2 ++ E1). rewrite HE at 1. rewrite <- !app_assoc.
    rewrite (vecswap_blocks X E1 E2 L Y); [|done|done|done|lia]. split_and!; [done|done|].
    transitivity (E1 ++ E2); [apply Permutation_app_comm|by rewrite <- HE].
Qed.
End Swaps.

Section Sorts.
Context {A : Type} (cmp : A -> A -> Z).
Implicit Types (P Q R T L U G E : list A) (v x y : A).

(** What the callers of qsort promise: cmp is a total preorder. *)
Definition lawful : Prop :=
  (forall x y, 0 < cmp x y <-> cmp y x < 0) /\ (forall x y z, cmp x y <= 0 -> cmp y z <= 0 -> cmp x z <= 0).
Definition sorted (l : list A) : Prop := StronglySorted (fun x y => cmp x y <= 0) l.

(** A region of the array becomes a permutation of it, sorted if cmp is lawful. *)
Definition sorts (m : option (list A)) P R Q : Prop :=
  exists R', m = Some (P ++ R' ++ Q) /\ R' ≡ₚ R /\ (lawful -> sorted R').

Lemma sorts_perm m P R R0 Q : R ≡ₚ R0 -> sorts m P R Q -> sorts m P R0 Q.
Proof. intros Hp (R' & ? & ? & ?). exists R'. split_and!; [done|by etransitivity|done]. Qed.

Lemma cmp_at_eq (arr : list A) i j x y : arr !! i = Some x -> arr !! j = Some y -> cmp_at cmp arr i j = Some (cmp x y).
Proof. unfold cmp_at. by intros -> ->. Qed.

(** ** Insertion sort *)
Lemma insert_down_ok P L x Q :
  (lawful -> sorted L) ->
  sorts (insert_down cmp (P ++ L ++ x :: Q) (length P) (length P + length L)) P (L ++ [x]) Q.
Proof.
  revert x Q. induction L as [|s L IH] using rev_ind; intros x Q Hs.
  - exists [x]. simpl. rewrite Nat.add_0_r. split_and!; [|done|intros _; constructor; constructor].
    destruct (length P) as [|n]; [done|]. cbn [insert_down]. by rewrite Nat.ltb_irrefl.
  - rewrite length_app. simpl. replace (length P + (length L + 1))%nat with (S (length P + length L)) by lia. cbn [insert_down].
    rewrite (proj2 (Nat.ltb_lt _ _)) by lia. rewrite <- (app_assoc L). simpl.
    assert (Ep : (P ++ L ++ s :: x :: Q) !! (length P + length L)%nat = Some s).
    { rewrite app_assoc. apply list_lookup_middle. by rewrite length_app. }
    assert (Eq : (P ++ L ++ s :: x :: Q) !! S (length P + length L) = Some x).
    { replace (P ++ L ++ s :: x :: Q) with ((P ++ L ++ [s]) ++ x :: Q) by (by rewrite <- !app_assoc).
      apply list_lookup_middle. rewrite !length_app. simpl. lia. }
    rewrite (cmp_at_eq _ _ _ s x Ep Eq). cbn [mbind option_bind].
    assert (HS0 : lawful -> sorted L) by (intros Hl; by apply StronglySorted_app in Hs as (_ & ? & _)).
    assert (Hle : lawful -> forall z, z ∈ L -> cmp z s <= 0).
    { intros Hl z Hz. apply (StronglySorted_app_1_elem_of _ L [s] z s (Hs Hl) Hz). set_solver. }
    destruct (Z.ltb_spec 0 (cmp s x)) as [Hgt|Hng].
    + rewrite (app_assoc P L). replace ((P ++ L) ++ s :: x :: Q) with ((P ++ L) ++ s :: [] ++ x :: Q) by done.
      rewrite swap_sym by (rewrite length_app; simpl; lia). cbn [mbind option_bind]. simpl. rewrite <- app_assoc.
      destruct (IH x (s :: Q) HS0) as (R' & -> & Hp & Hsorted). exists (R' ++ [s]). split_and!.
      * by rewrite <- app_assoc.
      * rewrite Hp, <- !app_assoc. f_equiv. apply Permutation_app_comm.
      * intros Hl. apply StronglySorted_app_2; [|by apply Hsorted|constructor; constructor].
        intros z s' Hz Hs'. assert (s' = s) as -> by set_solver. rewrite Hp in Hz.
        apply elem_of_app in Hz as [Hz|Hz]; [by apply Hle|]. assert (z = x) as -> by set_solver.
        apply Z.lt_le_incl. by apply (proj1 Hl).
    + exists (L ++ [s; x]). split_and!; [by rewrite <- !app_assoc|by rewrite <- app_assoc|]. intros Hl.
      replace (L ++ [s; x]) with ((L ++ [s]) ++ [x]) by (by rewrite <- app_assoc).
      apply StronglySorted_app_2; [|by apply Hs|constructor; constructor]. intros z x' Hz Hx'. assert (x' = x) as -> by set_solver.
      apply elem_of_app in Hz as [Hz|Hz]; [|assert (z = s) as -> by set_solver; done].
      apply (proj2 Hl z s x); [by apply Hle|done].
Qed.

Lemma insert_all_ok T P L Q :
  (lawful -> sorted L) ->
  sorts (insert_all cmp (length T) (P ++ L ++ T ++ Q) (length P) (length P + length L)) P (L ++ T) Q.
Proof.
  revert L. induction T as [|x T IH]; intros L Hs; cbn [length insert_all].
  - exists L. by rewrite app_nil_r.
  - simpl app. destruct (insert_down_ok P L x (T ++ Q) Hs) as (S1 & -> & Hp & Hs1). cbn [mbind option_bind].
    assert (Hlen : length S1 = S (length L)) by (rewrite Hp, length_app; simpl; lia).
    replace (S (length P + length L)) with (length P + length S1)%nat by lia.
    eapply sorts_perm; [|by apply IH]. rewrite Hp, <- app_assoc. done.
Qed.

Lemma insertion_sort_ok P R Q : sorts (insertion_sort cmp (P ++ R ++ Q) (length P) (length R)) P R Q.
Proof.
  unfold insertion_sort. destruct R as [|x R]; [exists []; split_and!; [done|done|intros _; constructor]|].
  replace (length (x :: R) - 1)%nat with (length R) by (simpl; lia).
  replace (S (length P)) with (length P + length [x])%nat by (simpl; lia).
  apply (insert_all_ok R P [x] Q). intros _. constructor; constructor.
Qed.

(** ** The pivot is in the region *)
Lemma med3_in arr a b c (Q' : nat -> Prop) :
  (forall i, Q' i -> (i < length arr)%nat) -> Q' a -> Q' b -> Q' c -> exists p, med3 cmp arr a b c = Some p /\ Q' p.
Proof.
  intros Hin Ha Hb Hc. unfold med3, cmp_at.
  destruct (lookup_lt_is_Some_2 arr a (Hin a Ha)) as [x ->]. destruct (lookup_lt_is_Some_2 arr b (Hin b Hb)) as [y ->].
  destruct (lookup_lt_is_Some_2 arr c (Hin c Hc)) as [z ->]. cbn [mbind option_bind].
  repeat match goal with |- context [if ?t then _ else _] => destruct t end; eauto.
Qed.

Lemma pivot_in arr a n :
  (7 <= n)%nat -> (a + n <= length arr)%nat -> exists p, pivot cmp arr a n = Some p /\ (a <= p < a + n)%nat.
Proof.
  intros Hn Ha. unfold pivot. set (Q' := fun i => (a <= i < a + n)%nat).
  assert (Hin : forall i, Q' i -> (i < length arr)%nat) by (unfold Q'; lia).
  assert (Hpm : Q' (a + n / 2)%nat) by (unfold Q'; pose proof (Nat.div_lt n 2); lia).
  destruct (Nat.ltb_spec 7 n); [|by exists (a + n / 2)%nat].
  assert (Hall : exists pl pm pn, (if (40 <? n)%nat then
      pl ← med3 cmp arr a (a + n / 8) (a + 2 * (n / 8));
      pm ← med3 cmp arr (a + n / 2 - n / 8) (a + n / 2) (a + n / 2 + n / 8);
      pn ← med3 cmp arr (a + (n - 1) - 2 * (n / 8)) (a + (n - 1) - n / 8) (a + (n - 1)); Some (pl, pm, pn)
    else Some (a, (a + n / 2)%nat, (a + (n - 1))%nat)) = Some (pl, pm, pn) /\ Q' pl /\ Q' pm /\ Q' pn).
  { destruct (40 <? n)%nat; [|eexists _, _, _; split; [done|]; unfold Q' in *; lia].
    pose proof (Nat.div_mod_eq n 8). pose proof (Nat.div_mod_eq n 2). pose proof (Nat.mod_upper_bound n 8 ltac:(lia)).
    pose proof (Nat.mod_upper_bound n 2 ltac:(lia)).
    destruct (med3_in arr a (a + n / 8) (a + 2 * (n / 8)) Q' Hin) as (pl & -> & Hpl); [unfold Q'; lia..|]. cbn [mbind option_bind].
    destruct (med3_in arr (a + n / 2 - n / 8) (a + n / 2) (a + n / 2 + n / 8) Q' Hin) as (pm & -> & Hpm'); [unfold Q'; lia..|]. cbn [mbind option_bind].
    destruct (med3_in arr (a + (n - 1) - 2 * (n / 8)) (a + (n - 1) - n / 8) (a + (n - 1)) Q' Hin) as (pn & -> & Hpn); [unfold Q'; lia..|].
    cbn [mbind option_bind]. by exists pl, pm, pn. }
  destruct Hall as (pl & pm & pn & -> & H1 & H2 & H3). cbn [mbind option_bind].
  by destruct (med3_in arr pl pm pn Q' Hin H1 H2 H3) as (p & -> & Hp); exists p.
Qed.

(** ** Partition *)

(** The array is [P], the pivot, elements equal to it, smaller ones, those not
    yet seen, greater ones, equal ones, [Q]. *)
Record pinv P Q v (s : part) (E L U G F : list A) : Prop := PInv {
  pi_arr : arr_ s = P ++ v :: E ++ L ++ U ++ G ++ F ++ Q;
  pi_pa : pa s = (length P + 1 + length E)%nat;
  pi_pb : pb s = (length P + 1 + length E + length L)%nat;
  pi_pc : pc s = (length P + length E + length L + length U)%nat;
  pi_pd : pd s = (length P + length E + length L + length U + length G)%nat;
  pi_E : Forall (fun x => cmp x v = 0) E;
  pi_L : Forall (fun x => cmp x v < 0) L;
  pi_G : Forall (fun x => 0 < cmp x v) G;
  pi_F : Forall (fun x => cmp x v = 0) F }.

Lemma pinv_more P Q v s E L U G F : pinv P Q v s E L U G F -> (pb s <=? pc s)%nat = match U with [] => false | _ => true end.
Proof.
  intros H. rewrite (pi_pb _ _ _ _ _ _ _ _ _ H), (pi_pc _ _ _ _ _ _ _ _ _ H).
  destruct U; [apply Nat.leb_gt; simpl; lia|apply Nat.leb_le; simpl; lia].
Qed.

Lemma app_middle_lookup X x Y i : i = length X -> (X ++ x :: Y) !! i = Some x.
Proof. intros ->. by apply list_lookup_middle. Qed.

(** The comparison of the element at [i] with the pivot. *)
Lemma pivot_cmp P v X x Y i :
  i = (length P + 1 + length X)%nat -> cmp_at cmp (P ++ v :: X ++ x :: Y) i (length P) = Some (cmp x v).
Proof.
  intros ->. apply cmp_at_eq; [|by apply app_middle_lookup].
  replace (P ++ v :: X ++ x :: Y) with ((P ++ v :: X) ++ x :: Y) by (by rewrite <- app_assoc).
  apply app_middle_lookup. rewrite length_app. simpl. lia.
Qed.

Lemma scan_up_ok P Q v U G F s E L fuel :
  pinv P Q v s E L U G F -> (length U < fuel)%nat ->
  exists s' E' L' U', scan_up cmp fuel (length P) s = Some s' /\ pinv P Q v s' E' L' U' G F /\
    E' ++ L' ++ U' ≡ₚ E ++ L ++ U /\ (length U' <= length U)%nat /\ (forall u T, U' = u :: T -> 0 < cmp u v).
Proof.
  revert s E L fuel. induction U as [|u U IH]; intros s E L fuel H Hf; (destruct fuel as [|fuel]; [simpl in Hf; lia|]);
    cbn [scan_up]; rewrite (pinv_more _ _ _ _ _ _ _ _ _ H).
  { exists s, E, L, []. by split_and!. }
  pose proof H as [Harr Hpa Hpb Hpc Hpd HE HL HG HF]. simpl in Hpc, Hpd.
  assert (Hc : cmp_at cmp (arr_ s) (pb s) (length P) = Some (cmp u v)).
  { rewrite Harr, (app_assoc E L). simpl. apply pivot_cmp. rewrite Hpb, length_app. lia. }
  rewrite Hc. cbn [mbind option_bind].
  destruct (Z.leb_spec (cmp u v) 0) as [Hle|Hgt].
  2:{ exists s, E, L, (u :: U). split_and!; try done. intros u' T [= <- _]. done. }
  destruct (Z.eqb_spec (cmp u v) 0) as [Heq|Hne].
  - assert (Hsw : exists L', swap (arr_ s) (pa s) (pb s) = Some (P ++ v :: (E ++ [u]) ++ L' ++ U ++ G ++ F ++ Q) /\ L' ≡ₚ L).
    { rewrite Harr, Hpa, Hpb. replace (P ++ v :: E ++ L ++ (u :: U) ++ G ++ F ++ Q) with ((P ++ v :: E) ++ L ++ u :: U ++ G ++ F ++ Q) by (by rewrite <- app_assoc).
      destruct L as [|l L].
      - exists []. split; [|done]. simpl app. rewrite Nat.add_0_r. rewrite swap_self by (rewrite length_app; simpl; lia).
        by rewrite <- !app_assoc.
      - exists (L ++ [l]). split; [|by rewrite Permutation_app_comm]. simpl app. rewrite swap_mid by (rewrite length_app; simpl; lia).
        by rewrite <- !app_assoc. }
    destruct Hsw as (L' & -> & HpL). cbn [mbind option_bind].
    destruct (IH (Part (P ++ v :: (E ++ [u]) ++ L' ++ U ++ G ++ F ++ Q) (S (pa s)) (S (pb s)) (pc s) (pd s) true) (E ++ [u]) L' fuel)
      as (s' & E' & L1 & U' & Hr & Hinv & Hp & Hl & Hh); [|simpl in Hf; lia|].
    { pose proof (Permutation_length HpL). split; cbn [arr_ pa pb pc pd]; rewrite ?length_app; simpl; try lia; try done.
      - by apply Forall_app_2; [|constructor].
      - by rewrite HpL. }
    exists s', E', L1, U'. split_and!; [done|done| |simpl; lia|done]. rewrite Hp, HpL, <- app_assoc. f_equiv. simpl.
    by rewrite Permutation_middle.
  - destruct (IH (Part (arr_ s) (pa s) (S (pb s)) (pc s) (pd s) (swap_cnt s)) E (L ++ [u]) fuel)
      as (s' & E' & L1 & U' & Hr & Hinv & Hp & Hl & Hh); [|simpl in Hf; lia|].
    { split; cbn [arr_ pa pb pc pd]; rewrite ?length_app; simpl; try lia; try done.
      - rewrite Harr, <- app_assoc. done.
      - apply Forall_app_2; [done|]. constructor; [lia|done]. }
    exists s', E', L1, U'. split_and!; [done|done| |simpl; lia|done]. by rewrite Hp, <- app_assoc.
Qed.

Lemma scan_down_ok P Q v E L s U G F fuel :
  pinv P Q v s E L U G F -> (length U < fuel)%nat ->
  exists s' U' G' F', scan_down cmp fuel (length P) s = Some s' /\ pinv P Q v s' E L U' G' F' /\
    U' ++ G' ++ F' ≡ₚ U ++ G ++ F /\ (length U' <= length U)%nat /\
    (exists T, U = U' ++ T) /\ (forall u T, U' = T ++ [u] -> cmp u v < 0).
Proof.
  revert s G F fuel. induction U as [|u U IH] using rev_ind; intros s G F fuel H Hf; (destruct fuel as [|fuel]; [simpl in Hf; lia|]);
    cbn [scan_down]; rewrite (pinv_more _ _ _ _ _ _ _ _ _ H).
  { exists s, [], G, F. split_and!; try done; [by exists []|]. intros ? T ET. by destruct T. }
  replace (match U ++ [u] with [] => false | _ => true end) with true by (by destruct U).
  pose proof H as [Harr Hpa Hpb Hpc Hpd HE HL HG HF]. rewrite length_app in Hpc, Hpd, Hf. simpl in Hpc, Hpd, Hf.
  assert (Hc : cmp_at cmp (arr_ s) (pc s) (length P) = Some (cmp u v)).
  { rewrite Harr, (app_assoc E L), <- (app_assoc U), (app_assoc (E ++ L)). simpl. apply pivot_cmp. rewrite Hpc, !length_app. lia. }
  rewrite Hc. cbn [mbind option_bind].
  destruct (Z.leb_spec 0 (cmp u v)) as [Hle|Hgt].
  2:{ exists s, (U ++ [u]), G, F. split_and!; try done; [by exists []; rewrite app_nil_r|]. intros u' T ET. apply app_inj_tail in ET as [_ <-]. done. }
  destruct (Z.eqb_spec (cmp u v) 0) as [Heq|Hne].
  - assert (Hsw : exists G', swap (arr_ s) (pc s) (pd s) = Some (P ++ v :: E ++ L ++ U ++ G' ++ (u :: F) ++ Q) /\ G' ≡ₚ G).
    { rewrite Harr, Hpc, Hpd. replace (P ++ v :: E ++ L ++ (U ++ [u]) ++ G ++ F ++ Q) with ((P ++ v :: E ++ L ++ U) ++ u :: G ++ F ++ Q)
        by (repeat (rewrite <- app_assoc; simpl); done).
      destruct G as [|g G _] using rev_ind.
      - exists []. split; [|done]. simpl app. rewrite Nat.add_0_r. rewrite swap_self by (rewrite length_app; simpl; rewrite !length_app; lia).
        repeat (rewrite <- app_assoc; simpl). done.
      - exists (g :: G). split; [|by rewrite Permutation_app_comm]. rewrite <- (app_assoc G). simpl app.
        rewrite swap_mid by (rewrite !length_app; simpl; rewrite !length_app; simpl; lia). repeat (rewrite <- app_assoc; simpl). done. }
    destruct Hsw as (G' & -> & HpG). cbn [mbind option_bind].
    destruct (IH (Part (P ++ v :: E ++ L ++ U ++ G' ++ (u :: F) ++ Q) (pa s) (pb s) (pc s - 1) (pd s - 1) true) G' (u :: F) fuel)
      as (s' & U' & G1 & F' & Hr & Hinv & Hp & Hl & HT & Hh); [|lia|].
    { pose proof (Permutation_length HpG). split; cbn [arr_ pa pb pc pd]; try lia; try done; [by rewrite HpG|by constructor]. }
    exists s', U', G1, F'. split_and!; [done|done| |rewrite length_app; lia|destruct HT as [T ->]; exists (T ++ [u]); by rewrite app_assoc|done].
    rewrite Hp, HpG, <- app_assoc. f_equiv. simpl. by rewrite <- Permutation_middle.
  - destruct (IH (Part (arr_ s) (pa s) (pb s) (pc s - 1) (pd s) (swap_cnt s)) (u :: G) F fuel)
      as (s' & U' & G1 & F' & Hr & Hinv & Hp & Hl & HT & Hh); [|lia|].
    { split; cbn [arr_ pa pb pc pd]; simpl; try lia; try done; [by rewrite Harr, <- app_assoc|constructor; [lia|done]]. }
    exists s', U', G1, F'. split_and!; [done|done| |rewrite length_app; lia|destruct HT as [T ->]; exists (T ++ [u]); by rewrite app_assoc|done].
    by rewrite Hp, <- app_assoc.
Qed.

Lemma partition_ok P Q v fuel s E L U G F :
  pinv P Q v s E L U G F -> (length U < fuel)%nat ->
  exists s' E' L' G' F', partition_loop cmp fuel (length P) s = Some s' /\ pinv P Q v s' E' L' [] G' F' /\
    E' ++ L' ++ G' ++ F' ≡ₚ E ++ L ++ U ++ G ++ F.
Proof.
  revert s E L U G F. induction fuel as [|fuel IH]; intros s E L U G F H Hf; [lia|]. cbn [partition_loop].
  destruct (scan_up_ok _ _ _ _ _ _ _ _ _ (S fuel) H Hf) as (s1 & E1 & L1 & U1 & -> & H1 & Hp1 & Hl1 & Hh1). cbn [mbind option_bind].
  destruct (scan_down_ok _ _ _ _ _ _ _ _ _ (S fuel) H1 ltac:(lia)) as (s2 & U2 & G2 & F2 & -> & H2 & Hp2 & Hl2 & [T HT] & Hh2). cbn [mbind option_bind].
  assert (Hall : E1 ++ L1 ++ U2 ++ G2 ++ F2 ≡ₚ E ++ L ++ U ++ G ++ F).
  { rewrite Hp2, !app_assoc. rewrite <- (app_assoc E1 L1 U1), Hp1. by rewrite !app_assoc. }
  pose proof H2 as [Harr Hpa Hpb Hpc Hpd HE HL HG HF].
  destruct (Nat.ltb_spec (pc s2) (pb s2)) as [Hdone|Hmore].
  { assert (U2 = []) as -> by (apply length_zero_iff_nil; lia). by exists s2, E1, L1, G2, F2. }
  destruct U2 as [|x U2]; [simpl in *; lia|].
  assert (Hx : 0 < cmp x v) by (apply (Hh1 x (U2 ++ T)); by rewrite HT).
  destruct U2 as [|y M _] using rev_ind; [specialize (Hh2 x [] eq_refl); lia|].
  assert (Hy : cmp y v < 0) by (by apply (Hh2 y (x :: M))).
  simpl length in *. rewrite length_app in *. simpl length in *.
  assert (Hsw : swap (arr_ s2) (pb s2) (pc s2) = Some (P ++ v :: E1 ++ (L1 ++ [y]) ++ M ++ (x :: G2) ++ F2 ++ Q)).
  { rewrite Harr, Hpb, Hpc.
    replace (P ++ v :: E1 ++ L1 ++ (x :: M ++ [y]) ++ G2 ++ F2 ++ Q) with ((P ++ v :: E1 ++ L1) ++ x :: M ++ y :: G2 ++ F2 ++ Q)
      by (repeat (rewrite <- app_assoc; simpl); done).
    rewrite swap_mid by (rewrite length_app; simpl; rewrite length_app; lia). repeat (rewrite <- app_assoc; simpl). done. }
  rewrite Hsw. cbn [mbind option_bind].
  destruct (IH (Part (P ++ v :: E1 ++ (L1 ++ [y]) ++ M ++ (x :: G2) ++ F2 ++ Q) (pa s2) (S (pb s2)) (pc s2 - 1) (pd s2) true)
              E1 (L1 ++ [y]) M (x :: G2) F2) as (s' & E' & L' & G' & F' & Hr & Hinv & Hp); [|lia|].
  { split; cbn [arr_ pa pb pc pd]; rewrite ?length_app; simpl; try lia; try done;
      [by apply Forall_app_2; [|constructor]|by constructor]. }
  exists s', E', L', G', F'. split_and!; [done|done|]. rewrite Hp, <- Hall. f_equiv. rewrite <- app_assoc. f_equiv. simpl.
  rewrite <- (app_assoc M). simpl. rewrite <- !Permutation_middle. apply Permutation_swap.
Qed.

(** Smaller, equal and greater elements, each sorted. *)
Lemma sorted_regions v L M G :
  lawful -> sorted L -> sorted G -> Forall (fun x => cmp x v < 0) L -> Forall (fun x => cmp x v = 0) M ->
  Forall (fun x => 0 < cmp x v) G -> sorted (L ++ M ++ G).
Proof.
  intros [Hsym Htr] HsL HsG HL HM HG. rewrite !Forall_forall in *.
  assert (Hflip : forall x, 0 <= cmp x v -> cmp v x <= 0).
  { intros x Hx. destruct (Z_le_gt_dec (cmp v x) 0); [done|]. assert (0 < cmp v x) as H%Hsym by lia. lia. }
  assert (HMM : forall x y, x ∈ M -> y ∈ M -> cmp x y <= 0).
  { intros x y Hx Hy. apply (Htr x v y); [rewrite (HM x Hx); lia|apply Hflip; rewrite (HM y Hy); lia]. }
  apply StronglySorted_app_2; [|done|apply StronglySorted_app_2; [| |done]].
  - intros x y Hx Hy. apply (Htr x v y); [specialize (HL x Hx); lia|]. apply Hflip.
    apply elem_of_app in Hy as [Hy|Hy]; [rewrite (HM y Hy); lia|specialize (HG y Hy); lia].
  - intros x y Hx Hy. apply (Htr x v y); [rewrite (HM x Hx); lia|]. apply Hflip. specialize (HG y Hy). lia.
  - clear -HMM. induction M as [|x M IH]; [constructor|]. constructor; [apply IH; intros; apply HMM; set_solver|].
    apply Forall_forall. intros y Hy. apply HMM; set_solver.
Qed.

Lemma sorted_short L : (length L <= 1)%nat -> sorted L.
Proof. destruct L as [|x [|]]; [constructor|constructor; constructor|simpl; lia]. Qed.

(** The part after the pivot was put first. *)
Lemma qsort_rest fuel P v R Q :
  (forall P R Q, (length R < fuel)%nat -> sorts (qsort_loop cmp fuel (P ++ R ++ Q) (length P) (length R)) P R Q) ->
  (length R < fuel)%nat ->
  let n := S (length R) in let a := length P in
  sorts (s ← partition_loop cmp (partition_fuel n) a (Part (P ++ (v :: R) ++ Q) (S a) (S a) (a + (n - 1)) (a + (n - 1)) false);
    if negb (swap_cnt s) then insertion_sort cmp (arr_ s) a n
    else
      let pn := (a + n)%nat in
      let r := Nat.min (pa s - a) (pb s - pa s) in
      arr ← vecswap (arr_ s) a (pb s - r) r;
      let r := Nat.min (pd s - pc s) (pn - pd s - 1) in
      arr ← vecswap arr (pb s) (pn - r) r;
      let r := (pb s - pa s)%nat in
      arr ← (if (1 <? r)%nat then qsort_loop cmp fuel arr a r else Some arr);
      let r := (pd s - pc s)%nat in
      if (1 <? r)%nat then qsort_loop cmp fuel arr (pn - r) r else Some arr) P (v :: R) Q.
Proof.
  intros IH Hlen n a.
  destruct (partition_ok P Q v (partition_fuel n) (Part (P ++ (v :: R) ++ Q) (S a) (S a) (a + (n - 1)) (a + (n - 1)) false) [] [] R [] [])
    as (s & E & L & G & F & Epart & [Harr Hpa Hpb Hpc Hpd HE HL HG HF] & Hp); [|unfold partition_fuel, n; lia|].
  { unfold n, a. split; cbn [arr_ pa pb pc pd]; simpl; try lia; try done. }
  fold a in Epart. rewrite Epart. cbn [mbind option_bind]. rewrite !app_nil_l in Hp. rewrite app_nil_r in Hp. simpl in Harr, Hpc, Hpd.
  assert (HR : length R = (length E + length L + length G + length F)%nat) by (rewrite <- Hp, !length_app; lia).
  destruct (negb (swap_cnt s)).
  { assert (Harr' : arr_ s = P ++ (v :: E ++ L ++ G ++ F) ++ Q) by (rewrite Harr; simpl; by rewrite <- !app_assoc).
    rewrite Harr'. unfold n, a. replace (S (length R)) with (length (v :: E ++ L ++ G ++ F)) by (simpl; rewrite !length_app; lia).
    eapply sorts_perm; [|apply insertion_sort_ok]. by rewrite Hp. }
  cbn zeta. rewrite Harr.
  replace (P ++ v :: E ++ L ++ G ++ F ++ Q) with (P ++ (v :: E) ++ L ++ (G ++ F ++ Q)) by done.
  destruct (vecswap_regions P (v :: E) L (G ++ F ++ Q) a (pb s - Nat.min (pa s - a) (pb s - pa s)) (Nat.min (pa s - a) (pb s - pa s)))
    as (L' & E' & -> & HpL & HpE); [f_equal; simpl length; unfold a; lia|done|simpl length; unfold a; lia|].
  pose proof (Permutation_length HpL) as HlL. pose proof (Permutation_length HpE) as HlE. simpl in HlE.
  cbn [mbind option_bind]. rewrite (app_assoc P L'), (app_assoc (P ++ L') E').
  set (r2 := Nat.min (pd s - pc s) (a + n - pd s - 1)).
  destruct (vecswap_regions ((P ++ L') ++ E') G F Q (pb s) (a + n - r2) r2) as (F' & G' & -> & HpF & HpG);
    [unfold r2, a, n; f_equal; lia|rewrite !length_app; lia|rewrite !length_app; unfold r2, a, n; lia|].
  pose proof (Permutation_length HpF) as HlF. pose proof (Permutation_length HpG) as HlG.
  cbn [mbind option_bind]. rewrite <- (app_assoc P L' E'), <- (app_assoc P (L' ++ E')), <- (app_assoc L' E').
  assert (HsL : sorts (if (1 <? pb s - pa s)%nat then qsort_loop cmp fuel (P ++ L' ++ E' ++ F' ++ G' ++ Q) a (pb s - pa s) else Some (P ++ L' ++ E' ++ F' ++ G' ++ Q))
            P L' (E' ++ F' ++ G' ++ Q)).
  { replace (pb s - pa s)%nat with (length L') by lia. destruct (Nat.ltb_spec 1 (length L')) as [_|Hs]; [apply IH; lia|].
    exists L'. split_and!; [done|done|intros _; by apply sorted_short]. }
  destruct HsL as (L2 & -> & HpL2 & HsL2). pose proof (Permutation_length HpL2) as HlL2. cbn [mbind option_bind].
  set (P2 := P ++ L2 ++ E' ++ F').
  assert (HsG : sorts (if (1 <? pd s - pc s)%nat then qsort_loop cmp fuel (P ++ L2 ++ E' ++ F' ++ G' ++ Q) (a + n - (pd s - pc s)) (pd s - pc s)
                       else Some (P ++ L2 ++ E' ++ F' ++ G' ++ Q)) P2 G' Q).
  { replace (P ++ L2 ++ E' ++ F' ++ G' ++ Q) with (P2 ++ G' ++ Q) by (unfold P2; repeat (rewrite <- app_assoc); done).
    replace (a + n - (pd s - pc s))%nat with (length P2) by (unfold P2, a, n; rewrite !length_app; lia).
    replace (pd s - pc s)%nat with (length G') by lia. destruct (Nat.ltb_spec 1 (length G')) as [_|Hs]; [apply IH; lia|].
    exists G'. split_and!; [done|done|intros _; by apply sorted_short]. }
  destruct HsG as (G2 & -> & HpG2 & HsG2).
  exists (L2 ++ (E' ++ F') ++ G2). split_and!.
  - unfold P2. repeat (rewrite <- app_assoc). done.
  - rewrite HpL2, HpL, HpE, HpF, HpG2, HpG, <- Hp. simpl. rewrite <- app_assoc. simpl. rewrite <- Permutation_middle. f_equiv.
    rewrite (app_assoc L E), (Permutation_app_comm L E), <- (app_assoc E L). f_equiv. f_equiv. apply Permutation_app_comm.
  - intros Hl. apply (sorted_regions v); [done|by apply HsL2|by apply HsG2|by rewrite HpL2, HpL| |by rewrite HpG2, HpG].
    rewrite HpE, HpF. simpl. constructor; [|by apply Forall_app_2].
    destruct (Z.lt_trichotomy (cmp v v) 0) as [H|[H|H]]; [|done|]; [apply (proj1 Hl) in H as H'|apply (proj1 Hl) in H as H']; lia.
Qed.

Lemma qsort_loop_ok fuel P R Q :
  (length R < fuel)%nat -> sorts (qsort_loop cmp fuel (P ++ R ++ Q) (length P) (length R)) P R Q.
Proof.
  revert P R Q. induction fuel as [|fuel IH]; intros P R Q Hf; [lia|]. cbn [qsort_loop].
  destruct (Nat.ltb_spec (length R) 7) as [_|H7]; [apply insertion_sort_ok|].
  destruct (pivot_in (P ++ R ++ Q) (length P) (length R) H7) as (p & -> & Hp); [rewrite !length_app; lia|]. cbn [mbind option_bind].
  destruct (swap_first P R Q (p - length P)) as (R' & Hsw & HpR); [lia|].
  replace (length P + (p - length P))%nat with p in Hsw by lia. rewrite Hsw. cbn [mbind option_bind].
  eapply sorts_perm; [exact HpR|]. pose proof (Permutation_length HpR) as Hl. rewrite <- Hl.
  destruct R' as [|v R']; [simpl in Hl; lia|]. apply (qsort_rest fuel P v R' Q IH). simpl in Hl. lia.
Qed.
End Sorts.

Lemma qsort_sorts {A} (cmp : A -> A -> Z) (arr : list A) :
  exists arr', qsort cmp arr = Some arr' /\ arr' ≡ₚ arr /\ (lawful cmp -> sorted cmp arr').
Proof.
  destruct (qsort_loop_ok cmp (S (length arr)) [] arr [] ltac:(lia)) as (R & E & Hp & Hs).
  rewrite app_nil_l, app_nil_r in E. rewrite app_nil_l, app_nil_r in E. by exists R.
Qed.

(** ** Binary search *)
Section Search.
Context {A : Type} (cmp : A -> A -> Z) (Hl : lawful cmp) (key : A) (arr : list A) (Hs : sorted cmp arr).

Lemma sorted_le i j x y : (i <= j)%nat -> arr !! i = Some x -> arr !! j = Some y -> i <> j -> cmp x y <= 0.
Proof.
  revert i j. unfold sorted in Hs. clear Hl key.
  induction Hs as [|a l Hs' IH Ha]; intros [|i] [|j] Hij Hi Hj Hne; try done; try lia.
  - injection Hi as <-. apply (Forall_lookup_1 _ _ _ _ Ha Hj).
  - apply (IH Hs' i j); (done || lia).
Qed.

(** Nothing equal to the key before an element below it, or after one above it. *)
Lemma above_all i j x y : (i <= j)%nat -> arr !! i = Some x -> arr !! j = Some y -> 0 < cmp key y -> 0 < cmp key x.
Proof.
  intros Hij Hi Hj Hy. destruct (decide (i = j)) as [->|Hne]; [congruence|].
  pose proof (sorted_le i j x y Hij Hi Hj Hne). destruct Hl as [H1 H2].
  destruct (Z.lt_ge_cases 0 (cmp key x)) as [|Hx]; [done|]. pose proof (H2 key x y). lia.
Qed.
Lemma below_all i j x y : (i <= j)%nat -> arr !! i = Some x -> arr !! j = Some y -> cmp key x < 0 -> cmp key y < 0.
Proof.
  intros Hij Hi Hj Hx. destruct (decide (i = j)) as [->|Hne]; [congruence|].
  pose proof (sorted_le i j x y Hij Hi Hj Hne) as Hxy. destruct Hl as [H1 H2].
  destruct (Z.lt_ge_cases (cmp key y) 0) as [|Hy]; [done|].
  apply H1 in Hx. assert (cmp y key <= 0) by (destruct (Z.lt_ge_cases 0 (cmp y key)) as [Hz|]; [apply H1 in Hz; lia|done]).
  pose proof (H2 x y key). lia.
Qed.

(** What is left to search is between [base] and [base + lim]. *)
Lemma bsearch_loop_ok fuel base lim :
  0 <= base -> 0 <= lim < 2 ^ (Z.of_nat fuel - 1) -> base + lim <= Z.of_nat (length arr) -> (0 < fuel)%nat ->
  (forall i x, arr !! i = Some x -> Z.of_nat i < base -> 0 < cmp key x) ->
  (forall i x, arr !! i = Some x -> base + lim <= Z.of_nat i -> cmp key x < 0) ->
  exists r, bsearch_loop cmp fuel key arr base lim = Some r /\
    match r with
    | Some p => 0 <= p /\ exists x, arr !! Z.to_nat p = Some x /\ cmp key x = 0
    | None => forall x, x ∈ arr -> cmp key x <> 0
    end.
Proof.
  revert base lim. induction fuel as [|fuel IH]; intros base lim Hb Hlim Hin Hf Hlo Hhi; [lia|]. cbn [bsearch_loop].
  destruct (Z.eqb_spec lim 0) as [->|H0].
  { exists None. split; [done|]. intros x [i Hi]%list_elem_of_lookup Hx. destruct (Z.lt_ge_cases (Z.of_nat i) base) as [H|H].
    - apply Hlo in Hi; lia.
    - apply Hhi in Hi; lia. }
  destruct fuel as [|fuel]; [change (2 ^ (Z.of_nat 1 - 1)) with 1 in Hlim; lia|].
  replace (Z.of_nat (S (S fuel)) - 1) with (Z.succ (Z.of_nat fuel)) in Hlim by lia.
  rewrite Z.pow_succ_r in Hlim by lia. replace (Z.of_nat (S fuel) - 1) with (Z.of_nat fuel) in IH by lia.
  rewrite !Z.shiftr_div_pow2 by lia. change (2 ^ 1) with 2.
  pose proof (Z.div_mod lim 2 ltac:(lia)). pose proof (Z.mod_pos_bound lim 2 ltac:(lia)).
  pose proof (Z.div_mod (lim - 1) 2 ltac:(lia)). pose proof (Z.mod_pos_bound (lim - 1) 2 ltac:(lia)).
  set (h := lim / 2) in *. set (h' := (lim - 1) / 2) in *.
  rewrite (proj2 (Z.leb_le 0 (base + h))) by lia.
  destruct (lookup_lt_is_Some_2 arr (Z.to_nat (base + h))) as [x Hx]; [lia|]. rewrite Hx. cbn [mbind option_bind].
  destruct (Z.ltb_spec 0 (cmp key x)) as [Hc|Hc]; [apply IH; try lia| destruct (Z.eqb_spec (cmp key x) 0) as [He|He]].
  - intros i y Hi Hlt. apply (above_all i (Z.to_nat (base + h)) y x); [lia|done..].
  - intros i y Hi Hge. apply (Hhi i y Hi). lia.
  - exists (Some (base + h)). split; [done|]. split; [lia|eauto].
  - apply IH; try lia; [done|]. intros i y Hi Hge. apply (below_all (Z.to_nat (base + h)) i x y); (lia || done).
Qed.

Lemma bsearch_ok :
  Z.of_nat (length arr) < 2 ^ 31 ->
  exists r, bsearch cmp key arr = Some r /\
    match r with
    | Some p => 0 <= p /\ exists x, arr !! Z.to_nat p = Some x /\ cmp key x = 0
    | None => forall x, x ∈ arr -> cmp key x <> 0
    end.
Proof.
  intros Hlen. unfold bsearch. rewrite s32_id by (unfold is_s32; lia). apply bsearch_loop_ok; try lia.
  intros i x Hi%lookup_lt_Some ?. lia.
Qed.
End Search.

(** C11.  qsort ends on every array with every comparison function, makes no
    access outside the array, and leaves a permutation of its elements.  When the
    comparison function is a total preorder, the elements are in order, and
    bsearch in an array of fewer than 2^31 elements ends too, makes no access
    outside the array, and answers an element that compares equal to the key,
    or NULL exactly when the array has none. *)
Theorem sort_and_search {A} (cmp : A -> A -> Z) (arr : list A) :
  exists arr', qsort cmp arr = Some arr' /\ arr' ≡ₚ arr /\
    (lawful cmp -> sorted cmp arr' /\
      (Z.of_nat (length arr) < 2 ^ 31 -> forall key, exists r, bsearch cmp key arr' = Some r /\
         match r with
         | Some p => 0 <= p /\ exists x, arr' !! Z.to_nat p = Some x /\ cmp key x = 0
         | None => forall x, x ∈ arr -> cmp key x <> 0
         end)).
Proof.
  destruct (qsort_sorts cmp arr) as (arr' & Hq & Hp & Hs). exists arr'. split_and!; [done..|].
  intros Hl. specialize (Hs Hl). split; [done|]. intros Hlen key.
  destruct (bsearch_ok cmp Hl key arr' Hs) as (r & Hr & Hspec); [by rewrite Hp|]. exists r. split; [done|].
  destruct r; [done|]. intros x. rewrite <- Hp. apply Hspec.
Qed.

Lemma sub_lawful : lawful Z.sub.
Proof. split; intros; lia. Qed.

Definition sample_array : list Z := [5; 3; 9; 1; 1; 8; 7; 2; 4; 6; 5; 5; 0].

Lemma sort_and_search_witness :
  exists arr', qsort Z.sub sample_array = Some arr' /\ sorted Z.sub arr' /\ bsearch Z.sub 7 arr' = Some (Some 10) /\ bsearch Z.sub 10 arr' = Some None.
Proof.
  destruct (sort_and_search Z.sub sample_array) as (arr' & E & _ & Hs).
  assert (E' : qsort Z.sub sample_array = Some [0; 1; 1; 2; 3; 4; 5; 5; 5; 6; 7; 8; 9]) by (vm_compute; reflexivity).
  exists arr'. split; [exact E|]. split; [apply Hs, sub_lawful|]. rewrite E' in E. injection E as <-. split; vm_compute; reflexivity.
Defined.
