(* ===== verification/Ctype.v ===== *)
(** * Character classes (libc/stdlib/ctype_.c, libc/include/ctype.h)

    The table of classes and the functions that look a character up in it.  An
    int that is true in C is a [bool] here; an entry of the table, a char, is
    kept as its eight bits, which is all the masks see.  The tables of case and
    tolower and toupper. *)
From S2P Require Import Prelude.

Definition _U : Z := 0x01.
Definition _L : Z := 0x02.
Definition _N : Z := 0x04.
Definition _S : Z := 0x08.
Definition _P : Z := 0x10.
Definition _C : Z := 0x20.
Definition _X : Z := 0x40.
Definition _B : Z := 0x80.

Definition _C_ctype_ : list Z :=
  [0;
   _C; _C; _C; _C; _C; _C; _C; _C;
   _C; Z.lor _C _S; Z.lor _C _S; Z.lor _C _S; Z.lor _C _S; Z.lor _C _S; _C; _C;
   _C; _C; _C; _C; _C; _C; _C; _C;
   _C; _C; _C; _C; _C; _C; _C; _C;
   Z.lor _S _B; _P; _P; _P; _P; _P; _P; _P;
   _P; _P; _P; _P; _P; _P; _P; _P;
   _N; _N; _N; _N; _N; _N; _N; _N;
   _N; _N; _P; _P; _P; _P; _P; _P;
   _P; Z.lor _U _X; Z.lor _U _X; Z.lor _U _X; Z.lor _U _X; Z.lor _U _X; Z.lor _U _X; _U;
   _U; _U; _U; _U; _U; _U; _U; _U;
   _U; _U; _U; _U; _U; _U; _U; _U;
   _U; _U; _U; _P; _P; _P; _P; _P;
   _P; Z.lor _L _X; Z.lor _L _X; Z.lor _L _X; Z.lor _L _X; Z.lor _L _X; Z.lor _L _X; _L;
   _L; _L; _L; _L; _L; _L; _L; _L;
   _L; _L; _L; _L; _L; _L; _L; _L;
   _L; _L; _L; _P; _P; _P; _P; _C;
   _C; _C; _C; _C; _C; _C; _C; _C;
   _C; _C; _C; _C; _C; _C; _C; _C;
   _C; _C; _C; _C; _C; _C; _C; _C;
   _C; _C; _C; _C; _C; _C; _C; _C;
   _P; _P; _P; _P; _P; _P; _P; _P;
   _P; _P; _P; _P; _P; _P; _P; _P;
   _P; _P; _P; _P; _P; _P; _P; _P;
   _P; _P; _P; _P; _P; _P; _P; _P;
   _P; _P; _P; _P; _P; _P; _P; _P;
   _P; _P; _P; _P; _P; _P; _P; _P;
   _P; _P; _P; _P; _P; _P; _P; _P;
   _P; _P; _P; _P; _P; _P; _P; _P;
   _P; _P; _P; _P; _P; _P; _P; _P;
   _P; _P; _P; _P; _P; _P; _P; _P;
   _P; _P; _P; _P; _P; _P; _P; _P;
   _P; _P; _P; _P; _P; _P; _P; _P].

(** c == -1 ? 0 : ((_ctype_ + 1)[(unsigned char)c] & mask) *)
Definition ctype (mask c : Z) : bool :=
  if c =? -1 then false
  else match _C_ctype_ !! Z.to_nat (1 + u8 c) with
       | Some t => negb (Z.land t mask =? 0)
       | None => false
       end.

Definition isalnum (c : Z) : bool := ctype (Z.lor (Z.lor _U _L) _N) c.
Definition isalpha (c : Z) : bool := ctype (Z.lor _U _L) c.
Definition iscntrl (c : Z) : bool := ctype _C c.
Definition isdigit (c : Z) : bool := ctype _N c.
Definition isgraph (c : Z) : bool := ctype (Z.lor (Z.lor (Z.lor _P _U) _L) _N) c.
Definition islower (c : Z) : bool := ctype _L c.
Definition isprint (c : Z) : bool := ctype (Z.lor (Z.lor (Z.lor (Z.lor _P _U) _L) _N) _B) c.
Definition ispunct (c : Z) : bool := ctype _P c.
Definition isspace (c : Z) : bool := ctype _S c.
Definition isupper (c : Z) : bool := ctype _U c.
Definition isxdigit (c : Z) : bool := ctype (Z.lor _N _X) c.
Definition isblank (c : Z) : bool := (c =? 0x20) || (c =? 0x09).
Definition isascii (c : Z) : bool := u32 c <=? 0x7f.
Definition toascii (c : Z) : Z := Z.land c 0x7f.

(** ** What the table says of the bytes *)

(** A fact about every byte, decided by computing it for each of them. *)
Definition all_bytes (P : Z -> bool) : bool := forallb (fun n => P (Z.of_nat n)) (seq 0 256).

Lemma all_bytes_spec (P : Z -> bool) : all_bytes P = true -> forall c, is_u8 c -> P c = true.
Proof.
  unfold all_bytes, is_u8. rewrite forallb_forall. intros H c Hc.
  specialize (H (Z.to_nat c)). rewrite Z2Nat.id in H by lia. apply H, in_seq. lia.
Qed.

Ltac by_bytes P :=
  let H := fresh in
  pose proof (all_bytes_spec P ltac:(vm_compute; reflexivity)) as H;
  intros; apply eqb_prop, H; assumption.

Lemma isspace_byte c : is_u8 c -> isspace c = ((9 <=? c) && (c <=? 13)) || (c =? 32).
Proof. by_bytes (fun c => Bool.eqb (isspace c) (((9 <=? c) && (c <=? 13)) || (c =? 32))). Qed.
Lemma isdigit_byte c : is_u8 c -> isdigit c = (48 <=? c) && (c <=? 57).
Proof. by_bytes (fun c => Bool.eqb (isdigit c) ((48 <=? c) && (c <=? 57))). Qed.
Lemma isupper_byte c : is_u8 c -> isupper c = (65 <=? c) && (c <=? 90).
Proof. by_bytes (fun c => Bool.eqb (isupper c) ((65 <=? c) && (c <=? 90))). Qed.
Lemma isalpha_byte c : is_u8 c -> isalpha c = ((65 <=? c) && (c <=? 90)) || ((97 <=? c) && (c <=? 122)).
Proof. by_bytes (fun c => Bool.eqb (isalpha c) (((65 <=? c) && (c <=? 90)) || ((97 <=? c) && (c <=? 122)))). Qed.

(** ** Case (libc/stdlib/tolower_.c, toupper_.c)

    The first entry of each table is EOF. *)
Definition _C_tolower_ : list Z :=
  [-1;
   0; 1; 2; 3; 4; 5; 6; 7; 8; 9; 10; 11; 12; 13; 14; 15;
   16; 17; 18; 19; 20; 21; 22; 23; 24; 25; 26; 27; 28; 29; 30; 31;
   32; 33; 34; 35; 36; 37; 38; 39; 40; 41; 42; 43; 44; 45; 46; 47;
   48; 49; 50; 51; 52; 53; 54; 55; 56; 57; 58; 59; 60; 61; 62; 63;
   64; 97; 98; 99; 100; 101; 102; 103; 104; 105; 106; 107; 108; 109; 110; 111;
   112; 113; 114; 115; 116; 117; 118; 119; 120; 121; 122; 91; 92; 93; 94; 95;
   96; 97; 98; 99; 100; 101; 102; 103; 104; 105; 106; 107; 108; 109; 110; 111;
   112; 113; 114; 115; 116; 117; 118; 119; 120; 121; 122; 123; 124; 125; 126; 127;
   128; 129; 130; 131; 132; 133; 134; 135; 136; 137; 138; 139; 140; 141; 142; 143;
   144; 145; 146; 147; 148; 149; 150; 151; 152; 153; 154; 155; 156; 157; 158; 159;
   160; 161; 162; 163; 164; 165; 166; 167; 168; 169; 170; 171; 172; 173; 174; 175;
   176; 177; 178; 179; 180; 181; 182; 183; 184; 185; 186; 187; 188; 189; 190; 191;
   192; 193; 194; 195; 196; 197; 198; 199; 200; 201; 202; 203; 204; 205; 206; 207;
   208; 209; 210; 211; 212; 213; 214; 215; 216; 217; 218; 219; 220; 221; 222; 223;
   224; 225; 226; 227; 228; 229; 230; 231; 232; 233; 234; 235; 236; 237; 238; 239;
   240; 241; 242; 243; 244; 245; 246; 247; 248; 249; 250; 251; 252; 253; 254; 255].
Definition _C_toupper_ : list Z :=
  [-1;
   0; 1; 2; 3; 4; 5; 6; 7; 8; 9; 10; 11; 12; 13; 14; 15;
   16; 17; 18; 19; 20; 21; 22; 23; 24; 25; 26; 27; 28; 29; 30; 31;
   32; 33; 34; 35; 36; 37; 38; 39; 40; 41; 42; 43; 44; 45; 46; 47;
   48; 49; 50; 51; 52; 53; 54; 55; 56; 57; 58; 59; 60; 61; 62; 63;
   64; 65; 66; 67; 68; 69; 70; 71; 72; 73; 74; 75; 76; 77; 78; 79;
   80; 81; 82; 83; 84; 85; 86; 87; 88; 89; 90; 91; 92; 93; 94; 95;
   96; 65; 66; 67; 68; 69; 70; 71; 72; 73; 74; 75; 76; 77; 78; 79;
   80; 81; 82; 83; 84; 85; 86; 87; 88; 89; 90; 123; 124; 125; 126; 127;
   128; 129; 130; 131; 132; 133; 134; 135; 136; 137; 138; 139; 140; 141; 142; 143;
   144; 145; 146; 147; 148; 149; 150; 151; 152; 153; 154; 155; 156; 157; 158; 159;
   160; 161; 162; 163; 164; 165; 166; 167; 168; 169; 170; 171; 172; 173; 174; 175;
   176; 177; 178; 179; 180; 181; 182; 183; 184; 185; 186; 187; 188; 189; 190; 191;
   192; 193; 194; 195; 196; 197; 198; 199; 200; 201; 202; 203; 204; 205; 206; 207;
   208; 209; 210; 211; 212; 213; 214; 215; 216; 217; 218; 219; 220; 221; 222; 223;
   224; 225; 226; 227; 228; 229; 230; 231; 232; 233; 234; 235; 236; 237; 238; 239;
   240; 241; 242; 243; 244; 245; 246; 247; 248; 249; 250; 251; 252; 253; 254; 255].

(** [None] would be a read outside the table. *)
Definition tolower (c : Z) : option Z := if 255 <? u32 c then Some c else _C_tolower_ !! Z.to_nat (1 + c).
Definition toupper (c : Z) : option Z := if 255 <? u32 c then Some c else _C_toupper_ !! Z.to_nat (1 + c).

(** The letters of ASCII. *)
Definition lower (c : Z) : Z := if (65 <=? c) && (c <=? 90) then c + 32 else c.
Definition upper (c : Z) : Z := if (97 <=? c) && (c <=? 122) then c - 32 else c.

Lemma tolower_spec c : is_u8 c -> tolower c = Some (lower c).
Proof.
  intros Hc. apply (all_bytes_spec (fun c => bool_decide (tolower c = Some (lower c)))) in Hc; [|by vm_compute].
  by apply bool_decide_eq_true in Hc.
Qed.
Lemma toupper_spec c : is_u8 c -> toupper c = Some (upper c).
Proof.
  intros Hc. apply (all_bytes_spec (fun c => bool_decide (toupper c = Some (upper c)))) in Hc; [|by vm_compute].
  by apply bool_decide_eq_true in Hc.
Qed.
