(* ===== verification/Strtol.v ===== *)
(** * Numbers from strings (libc/stdlib/strto*.c, ato*.c, strnto*.c)

    A pointer into a string is the list of the bytes from there on, and a read
    past the end of the list answers [None]; so does a signed operation whose
    result its type does not hold.  A long has 32 bits and an intmax_t 64, as on
    the platforms of the library.  The functions take the value of errno before
    the call and answer the result, the offset stored in *endptr, and errno. *)
From S2P Require Import Prelude Buffer Ctype.

Definition ERANGE : Z := 34.

Definition LONG_MIN : Z := - 2 ^ 31.
Definition LONG_MAX : Z := 2 ^ 31 - 1.
Definition ULONG_MAX : Z := 2 ^ 32 - 1.
Definition INTMAX_MIN : Z := - 2 ^ 63.
Definition INTMAX_MAX : Z := 2 ^ 63 - 1.
Definition UINTMAX_MAX : Z := 2 ^ 64 - 1.

(** ** The parts that the four conversions share *)

(** c = *s++, then [k] with the new values. *)
Definition enter {A} (k : Z -> bytes -> option A) (s : bytes) : option A :=
  match s with [] => None | c :: s => k c s end.

(** do c = (unsigned char) *s++; while (isspace(c)); *)
Fixpoint skip_space (s : bytes) : option (Z * bytes) :=
  match s with
  | [] => None
  | c :: s => if isspace c then skip_space s else Some (c, s)
  end.

(** The sign: neg, c and s. *)
Definition scan_sign (c : Z) (s : bytes) : option (bool * Z * bytes) :=
  if c =? 0x2d then enter (fun c s => Some (true, c, s)) s
  else if c =? 0x2b then enter (fun c s => Some (false, c, s)) s
  else Some (false, c, s).

(** The prefix 0x: base, c and s. *)
Definition scan_hex (base c : Z) (s : bytes) : option (Z * Z * bytes) :=
  if ((base =? 0) || (base =? 16)) && (c =? 0x30) then
    x ← s !! 0%nat;
    if (x =? 0x78) || (x =? 0x58) then c ← s !! 1%nat; Some (16, c, drop 2 s)
    else Some (base, c, s)
  else Some (base, c, s).

(** if (base == 0) base = c == '0' ? 8 : 10; *)
Definition default_base (base c : Z) : Z := if base =? 0 then if c =? 0x30 then 8 else 10 else base.

(** Everything before the digits: neg, base, c and s. *)
Definition scan_start (nptr : bytes) (base : Z) : option (bool * Z * Z * bytes) :=
  '(c, s) ← skip_space nptr;
  '(neg, c, s) ← scan_sign c s;
  '(base, c, s) ← scan_hex base c s;
  Some (neg, default_base base c, c, s).

(** The value of a character as a digit; [None] where the loop breaks. *)
Definition digit (c : Z) : option Z :=
  if isdigit c then Some (c - 0x30)
  else if isalpha c then Some (c - (if isupper c then 0x41 - 10 else 0x61 - 10))
  else None.

(** any ? s - 1 : nptr, as an offset from nptr. *)
Definition end_offset (nptr s : bytes) (any : Z) : Z := if any =? 0 then 0 else len nptr - len s - 1.

(** ** strtol and strtoimax *)
Section Signed.
Context (MIN MAX : Z).

Definition chk (z : Z) : option Z := if (MIN <=? z) && (z <=? MAX) then Some z else None.

(** The loop over the digits: acc, any, s and errno at its end. *)
Fixpoint signed_loop (neg : bool) (base cutoff cutlim : Z) (acc any errno : Z) (c : Z) (s : bytes) : option (Z * Z * bytes * Z) :=
  let continue acc any errno :=
    match s with [] => None | c :: s => signed_loop neg base cutoff cutlim acc any errno c s end in
  match digit c with
  | None => Some (acc, any, s, errno)
  | Some c =>
      if base <=? c then Some (acc, any, s, errno)
      else if any <? 0 then continue acc any errno
      else if neg then
        if (acc <? cutoff) || ((acc =? cutoff) && (cutlim <? c)) then continue MIN (-1) ERANGE
        else acc ← chk (acc * base); acc ← chk (acc - c); continue acc 1 errno
      else
        if (cutoff <? acc) || ((acc =? cutoff) && (cutlim <? c)) then continue MAX (-1) ERANGE
        else acc ← chk (acc * base); acc ← chk (acc + c); continue acc 1 errno
  end.

(** if (neg) { if (cutlim > 0) ... cutlim = -cutlim; } *)
Definition neg_cut (neg : bool) (base cutoff cutlim : Z) : Z * Z :=
  if neg then
    let '(cutlim, cutoff) := if 0 <? cutlim then (cutlim - base, cutoff + 1) else (cutlim, cutoff) in
    (cutoff, - cutlim)
  else (cutoff, cutlim).
End Signed.

(** cutoff = neg ? LONG_MIN : LONG_MAX; cutlim = cutoff % base; cutoff /= base; *)
Definition long_cut (neg : bool) (base : Z) : Z * Z :=
  let cutoff := if neg then LONG_MIN else LONG_MAX in
  let cutlim := Z.rem cutoff base in
  let cutoff := Z.quot cutoff base in
  neg_cut neg base cutoff cutlim.

Definition strtol (nptr : bytes) (base errno : Z) : option (Z * Z * Z) :=
  '(neg, base, c, s) ← scan_start nptr base;
  let '(cutoff, cutlim) := long_cut neg base in
  '(acc, any, s, errno) ← signed_loop LONG_MIN LONG_MAX neg base cutoff cutlim 0 0 errno c s;
  Some (acc, end_offset nptr s any, errno).

(** CASE_BASE(x) *)
Definition case_base (neg : bool) (x : Z) : Z * Z :=
  if neg then (Z.quot INTMAX_MIN x, Z.rem INTMAX_MIN x) else (Z.quot INTMAX_MAX x, Z.rem INTMAX_MAX x).

(** switch (base) *)
Definition imax_cut (neg : bool) (base : Z) : Z * Z :=
  let '(cutoff, cutlim) :=
    if base =? 4 then
      if neg then (Z.quot INTMAX_MIN 4, Z.rem INTMAX_MIN 4) else (Z.quot INTMAX_MAX 4, Z.rem INTMAX_MAX 4)
    else if base =? 8 then case_base neg 8
    else if base =? 10 then case_base neg 10
    else if base =? 16 then case_base neg 16
    else
      let cutoff := if neg then INTMAX_MIN else INTMAX_MAX in
      (Z.quot cutoff base, Z.rem cutoff base) in
  neg_cut neg base cutoff cutlim.

Definition strtoimax (nptr : bytes) (base errno : Z) : option (Z * Z * Z) :=
  '(neg, base, c, s) ← scan_start nptr base;
  let '(cutoff, cutlim) := imax_cut neg base in
  '(acc, any, s, errno) ← signed_loop INTMAX_MIN INTMAX_MAX neg base cutoff cutlim 0 0 errno c s;
  Some (acc, end_offset nptr s any, errno).

(** ** strtoul and strtoumax *)
Section Unsigned.
Context (MAX : Z).

Definition wrap (z : Z) : Z := z mod (MAX + 1).

Fixpoint unsigned_loop (base cutoff cutlim : Z) (acc any errno : Z) (c : Z) (s : bytes) : option (Z * Z * bytes * Z) :=
  let continue acc any errno :=
    match s with [] => None | c :: s => unsigned_loop base cutoff cutlim acc any errno c s end in
  match digit c with
  | None => Some (acc, any, s, errno)
  | Some c =>
      if base <=? c then Some (acc, any, s, errno)
      else if any <? 0 then continue acc any errno
      else if (cutoff <? acc) || ((acc =? cutoff) && (cutlim <? c)) then continue MAX (-1) ERANGE
      else continue (wrap (wrap (acc * base) + c)) 1 errno
  end.
End Unsigned.

Definition strtoul (nptr : bytes) (base errno : Z) : option (Z * Z * Z) :=
  '(neg, base, c, s) ← scan_start nptr base;
  let cutoff := ULONG_MAX / u32 base in
  let cutlim := ULONG_MAX mod u32 base in
  '(acc, any, s, errno) ← unsigned_loop ULONG_MAX base cutoff cutlim 0 0 errno c s;
  let acc := if neg && (0 <? any) then wrap ULONG_MAX (- acc) else acc in
  Some (acc, end_offset nptr s any, errno).

(** switch (base) *)
Definition umax_cut (base : Z) : Z * Z :=
  if base =? 8 then (UINTMAX_MAX / 8, UINTMAX_MAX mod 8)
  else if base =? 10 then (UINTMAX_MAX / 10, UINTMAX_MAX mod 10)
  else if base =? 16 then (UINTMAX_MAX / 16, UINTMAX_MAX mod 16)
  else (UINTMAX_MAX / wrap UINTMAX_MAX base, UINTMAX_MAX mod wrap UINTMAX_MAX base).

Definition strtoumax (nptr : bytes) (base errno : Z) : option (Z * Z * Z) :=
  '(neg, base, c, s) ← scan_start nptr base;
  let '(cutoff, cutlim) := umax_cut base in
  '(acc, any, s, errno) ← unsigned_loop UINTMAX_MAX base cutoff cutlim 0 0 errno c s;
  let acc := if neg && (0 <? any) then wrap UINTMAX_MAX (- acc) else acc in
  Some (acc, end_offset nptr s any, errno).

(** ** The functions defined by them *)
Definition strtoll (nptr : bytes) (base errno : Z) : option (Z * Z * Z) := strtoimax nptr base errno.
Definition strtoull (nptr : bytes) (base errno : Z) : option (Z * Z * Z) := strtoumax nptr base errno.

Definition atoi (s : bytes) (errno : Z) : option (Z * Z) := '(n, _, errno) ← strtoimax s 10 errno; Some (s32 n, errno).
Definition atol (s : bytes) (errno : Z) : option (Z * Z) := '(n, _, errno) ← strtoimax s 10 errno; Some (s32 n, errno).
Definition atoll (s : bytes) (errno : Z) : option (Z * Z) := '(n, _, errno) ← strtoimax s 10 errno; Some (n, errno).

(** ** The conversions of strings with a length *)
Definition digitval (ch : Z) : Z :=
  let d := u32 (ch - 0x30) in
  if d <? 10 then s32 d
  else
    let d := u32 (ch - 0x61) in
    if d <? 6 then s32 (u32 (d + 10))
    else
      let d := u32 (ch - 0x41) in
      if d <? 6 then s32 (u32 (d + 10)) else -1.

(** while (p < end && isspace( *p)) p++; [n] bytes are left before end. *)
Fixpoint skip_space_n (n : nat) (p : bytes) : option (nat * bytes) :=
  match n with
  | O => Some (O, p)
  | S n' => match p with [] => None | c :: p' => if isspace c then skip_space_n n' p' else Some (n, p) end
  end.

(** p+2 < end && p[0] == '0' && (p[1] == 'x' || p[1] == 'X') *)
Definition hex_prefix_n (n : nat) (p : bytes) : option bool :=
  if (2 <? n)%nat then
    c ← p !! 0%nat;
    if c =? 0x30 then x ← p !! 1%nat; Some ((x =? 0x78) || (x =? 0x58)) else Some false
  else Some false.

Definition scan_base_n (base : Z) (n : nat) (p : bytes) : option (Z * nat * bytes) :=
  if base =? 0 then
    hex ← hex_prefix_n n p;
    if (hex : bool) then Some (16, (n - 2)%nat, drop 2 p)
    else if (1 <? n)%nat then
      c ← p !! 0%nat;
      if c =? 0x30 then Some (8, (n - 1)%nat, drop 1 p) else Some (10, n, p)
    else Some (10, n, p)
  else if base =? 16 then
    hex ← hex_prefix_n n p;
    if (hex : bool) then Some (base, (n - 2)%nat, drop 2 p) else Some (base, n, p)
  else Some (base, n, p).

(** while ( p < end && (d = digitval( *p)) >= 0 && d < base ) *)
Fixpoint digits_n (base v : Z) (n : nat) (p : bytes) : option (Z * bytes) :=
  match n with
  | O => Some (v, p)
  | S n =>
      match p with
      | [] => None
      | c :: p' =>
          let d := digitval c in
          if (0 <=? d) && (d <? base) then digits_n base (wrap UINTMAX_MAX (v * base + d)) n p' else Some (v, p)
      end
  end.

(** Single optional + or - *)
Definition scan_sign_n (n : nat) (p : bytes) : option (bool * nat * bytes) :=
  if (0 <? n)%nat then
    c ← p !! 0%nat;
    if (c =? 0x2d) || (c =? 0x2b) then Some (c =? 0x2d, (n - 1)%nat, drop 1 p) else Some (false, n, p)
  else Some (false, n, p).

Definition strntoumax (nptr : bytes) (base : Z) (n : nat) : option (Z * Z) :=
  '(n, p) ← skip_space_n n nptr;
  '(minus, n, p) ← scan_sign_n n p;
  '(base, n, p) ← scan_base_n base n p;
  '(v, p) ← digits_n base 0 n p;
  Some (if (minus : bool) then wrap UINTMAX_MAX (- v) else v, len nptr - len p).

(** (intmax_t) of an uintmax_t *)
Definition strntoimax (nptr : bytes) (base : Z) (n : nat) : option (Z * Z) :=
  '(v, k) ← strntoumax nptr base n; Some (wrap UINTMAX_MAX (v + 2 ^ 63) - 2 ^ 63, k).

(** ** Reference: what a string denotes *)
Fixpoint take_while (P : Z -> bool) (s : bytes) : bytes :=
  match s with [] => [] | c :: s => if P c then c :: take_while P s else [] end.
Fixpoint drop_while (P : Z -> bool) (s : bytes) : bytes :=
  match s with [] => [] | c :: s' => if P c then drop_while P s' else s end.

Definition white (c : Z) : bool := ((9 <=? c) && (c <=? 13)) || (c =? 32).
Definition digit_value (c : Z) : Z :=
  if (48 <=? c) && (c <=? 57) then c - 48
  else if (65 <=? c) && (c <=? 90) then c - 55
  else if (97 <=? c) && (c <=? 122) then c - 87
  else 36.
Definition is_digit (b c : Z) : bool := digit_value c <? Z.min b 36.

Definition cut_sign (s : bytes) : bool * bytes :=
  match s with
  | c :: t => if c =? 45 then (true, t) else if c =? 43 then (false, t) else (false, s)
  | [] => (false, s)
  end.
Definition has_hex (s : bytes) : bool :=
  match s with c :: x :: _ => (c =? 48) && ((x =? 120) || (x =? 88)) | _ => false end.
Definition cut_base (base : Z) (s : bytes) : Z * bytes :=
  if ((base =? 0) || (base =? 16)) && has_hex s then (16, drop 2 s)
  else (if base =? 0 then if bool_decide (s !! 0%nat = Some 48) then 8 else 10 else base, s).

(** The number that digits write in base [b], from the number [v] before them. *)
Fixpoint number (b v : Z) (ds : bytes) : Z :=
  match ds with [] => v | c :: ds => number b (v * b + digit_value c) ds end.

(** The sign, the digits' value, whether there is a digit, and the number of
    characters up to the end of the digits. *)
Definition denotes (s : bytes) (base : Z) : bool * Z * bool * Z :=
  let '(neg, t) := cut_sign (drop_while white s) in
  let '(b, t) := cut_base base t in
  let ds := take_while (is_digit b) t in
  (neg, number b 0 ds, negb (bool_decide (ds = [])), len s - len (drop_while (is_digit b) t)).

(** The result in a signed type, saturated, with ERANGE outside its range. *)
Definition to_signed (MIN MAX : Z) (s : bytes) (base errno : Z) : Z * Z * Z :=
  let '(neg, v, any, k) := denotes s base in
  let n := if neg then - v else v in
  (Z.max MIN (Z.min n MAX), if any then k else 0, if (MIN <=? n) && (n <=? MAX) then errno else ERANGE).
(** The result in an unsigned type: a sign negates it modulo the type's range. *)
Definition to_unsigned (MAX : Z) (s : bytes) (base errno : Z) : Z * Z * Z :=
  let '(neg, v, any, k) := denotes s base in
  if v <=? MAX then ((if neg then - v else v) mod (MAX + 1), if any then k else 0, errno)
  else (MAX, k, ERANGE).

(** ** The start of the number *)
Definition cstring (s : bytes) : Prop := byte_list s /\ 0 ∉ s.

Lemma cstring_cons c s : cstring (c :: s) -> is_u8 c /\ c <> 0 /\ cstring s.
Proof. intros [Hb Hn]. apply Forall_cons in Hb as [? ?]. rewrite not_elem_of_cons in Hn. repeat split; naive_solver. Qed.

Lemma isspace_white c : is_u8 c -> isspace c = white c.
Proof. apply isspace_byte. Qed.

Lemma digit_spec c : is_u8 c -> digit c = if digit_value c <? 36 then Some (digit_value c) else None.
Proof.
  intros Hc. unfold digit, digit_value. rewrite isdigit_byte, isalpha_byte, isupper_byte by done. unfold is_u8 in Hc.
  destruct ((48 <=? c) && (c <=? 57)) eqn:E1; [zbool; rewrite (proj2 (Z.ltb_lt _ _)); [done|lia]|].
  destruct ((65 <=? c) && (c <=? 90)) eqn:E2; cbn [orb]; [zbool; rewrite (proj2 (Z.ltb_lt _ _)); [f_equal; lia|lia]|].
  destruct ((97 <=? c) && (c <=? 122)) eqn:E3; [zbool; rewrite (proj2 (Z.ltb_lt _ _)); [f_equal; lia|lia]|done].
Qed.
Lemma digit_value_nonneg c : 0 <= digit_value c.
Proof. unfold digit_value. repeat case_test; zbool; lia. Qed.
#[local] Hint Resolve digit_value_nonneg : cint.

(** A suffix of a C string with its terminator and what follows. *)
Definition ended (rest s : bytes) : bytes := s ++ 0 :: rest.
Definition hd0 (s : bytes) : Z := match s with c :: _ => c | [] => 0 end.
(** The pointer after the first character of [ended rest s]. *)
Definition tl0 (rest s : bytes) : bytes := match s with _ :: t => ended rest t | [] => rest end.

Lemma hd0_byte s : cstring s -> is_u8 (hd0 s).
Proof. destruct s; intros Hs; [by vm_compute|]. by apply cstring_cons in Hs as [? _]. Qed.

Lemma ended_enter {A} (k : Z -> bytes -> option A) rest s : enter k (ended rest s) = k (hd0 s) (tl0 rest s).
Proof. by destruct s. Qed.

Lemma cstring_drop s n : cstring s -> cstring (drop n s).
Proof.
  revert n. induction s as [|c s IH]; intros [|n] H; try done. apply IH. by apply cstring_cons in H as (_ & _ & ?).
Qed.
Lemma drop_while_cstring P s : cstring s -> cstring (drop_while P s).
Proof.
  induction s as [|c s IH]; [done|]. intros H. pose proof (cstring_cons _ _ H) as (_ & _ & ?). simpl. case_test; auto.
Qed.
Lemma cut_sign_cstring s : cstring s -> cstring (snd (cut_sign s)).
Proof. destruct s as [|c s]; [done|]. intros H. pose proof (cstring_cons _ _ H) as (_ & _ & ?). simpl. repeat case_test; done. Qed.
Lemma cut_base_cstring base s : cstring s -> cstring (snd (cut_base base s)).
Proof. intros H. unfold cut_base. case_test; [apply (cstring_drop _ 2), H|done]. Qed.
#[local] Hint Resolve cstring_drop drop_while_cstring cut_sign_cstring cut_base_cstring : cint.

Lemma skip_space_spec rest s : cstring s -> skip_space (ended rest s) = Some (hd0 (drop_while white s), tl0 rest (drop_while white s)).
Proof.
  induction s as [|c s IH]; intros H; [done|]. apply cstring_cons in H as (Hc & _ & Hs).
  cbn [ended app skip_space drop_while]. rewrite isspace_white by done. destruct (white c); [by apply IH|done].
Qed.

Lemma scan_sign_spec rest s :
  scan_sign (hd0 s) (tl0 rest s) = Some ((cut_sign s).1, hd0 (cut_sign s).2, tl0 rest (cut_sign s).2).
Proof.
  destruct s as [|c s]; [done|]. unfold scan_sign. cbn [hd0 tl0 cut_sign].
  destruct (c =? 45); [by rewrite ended_enter|]. destruct (c =? 43); [by rewrite ended_enter|done].
Qed.

Lemma ended_head rest s : ended rest s !! 0%nat = Some (hd0 s).
Proof. by destruct s. Qed.

Lemma scan_hex_spec rest base s :
  cstring s ->
  exists b, scan_hex base (hd0 s) (tl0 rest s) = Some (b, hd0 (cut_base base s).2, tl0 rest (cut_base base s).2)
    /\ default_base b (hd0 (cut_base base s).2) = (cut_base base s).1.
Proof.
  intros Hs. unfold scan_hex, cut_base, default_base.
  destruct ((base =? 0) || (base =? 16)) eqn:Eb; cbn [andb].
  2: { exists base. split; [done|]. apply orb_false_iff in Eb as [-> _]. done. }
  destruct s as [|c s]; [exists base; cbn; by destruct (base =? 0)|]. cbn [hd0 tl0].
  destruct (c =? 48) eqn:Ec.
  2: { exists base. split; [by destruct s; cbn [has_hex]; rewrite ?Ec|]. destruct s; cbn [has_hex]; rewrite ?Ec; cbn [andb hd0 fst snd];
       rewrite Ec; case_test; [|done| |done]; rewrite bool_decide_false; try done; simpl; intros [= ->]; done. }
  apply Z.eqb_eq in Ec as ->. apply cstring_cons in Hs as (_ & _ & Hs). rewrite ended_head. cbn [mbind option_bind].
  destruct s as [|x s]; [exists base; split; [done|]; cbn; by destruct (base =? 0)|].
  cbn [hd0 has_hex]. rewrite Z.eqb_refl. cbn [andb].
  destruct ((x =? 120) || (x =? 88)) eqn:Ex; cbn [fst snd hd0].
  - exists 16. apply cstring_cons in Hs as (_ & _ & Hs). cbn [ended app drop]. split; [|done].
    change ((x :: s ++ 0 :: rest) !! 1%nat) with (ended rest s !! 0%nat). rewrite ended_head. cbn. by destruct s.
  - exists base. split; [done|]. by destruct (base =? 0).
Qed.

Lemma scan_start_spec rest s base :
  cstring s ->
  let '(neg, t) := cut_sign (drop_while white s) in
  let '(b, t) := cut_base base t in
  scan_start (ended rest s) base = Some (neg, b, hd0 t, tl0 rest t).
Proof.
  intros Hs. destruct (cut_sign (drop_while white s)) as [neg t] eqn:Es. destruct (cut_base base t) as [b u] eqn:Eb.
  unfold scan_start. rewrite skip_space_spec by done. cbn [mbind option_bind].
  rewrite scan_sign_spec, Es. cbn [mbind option_bind fst snd].
  destruct (scan_hex_spec rest base t) as (b' & -> & Hb).
  { change t with (neg, t).2. rewrite <- Es. auto with cint. }
  cbn [mbind option_bind]. rewrite Hb, Eb. done.
Qed.

(** ** The loops over the digits *)
Lemma number_ge b ds v : 1 <= b -> 0 <= v -> v <= number b v ds.
Proof.
  revert v. induction ds as [|c ds IH]; intros v Hb Hv; cbn [number]; [lia|].
  pose proof (digit_value_nonneg c). etransitivity; [|apply IH; nia]. nia.
Qed.

(** The test of the loop decides whether the next value is over the limit [M]. *)
Lemma cut_test M b v d :
  0 < b -> 0 <= d < b -> 0 <= M -> (M / b <? v) || ((v =? M / b) && (M mod b <? d)) = (M <? v * b + d).
Proof.
  intros Hb Hd HM. pose proof (Z.div_mod M b ltac:(lia)). pose proof (Z.mod_pos_bound M b Hb).
  set (q := M / b) in *. set (r := M mod b) in *.
  destruct (Z.ltb_spec q v) as [Hq|Hq]; cbn [orb]; [symmetry; apply Z.ltb_lt; nia|].
  destruct (Z.eqb_spec v q) as [->|Hv]; cbn [andb]; [destruct (Z.ltb_spec r d), (Z.ltb_spec M (q * b + d)); try done; nia|].
  symmetry. apply Z.ltb_ge. nia.
Qed.

(** A digit of base [b], as the loops see it. *)
Lemma digit_in b c : is_u8 c -> b <= 36 -> is_digit b c = true -> digit c = Some (digit_value c) /\ (b <=? digit_value c) = false.
Proof.
  unfold is_digit. intros Hc Hb H. zbool. rewrite digit_spec by done. rewrite (proj2 (Z.ltb_lt _ _)) by lia. split; [done|].
  apply Z.leb_gt. lia.
Qed.
Lemma digit_out b c : is_u8 c -> b <= 36 -> is_digit b c = false -> match digit c with Some d => (b <=? d) = true | None => True end.
Proof.
  unfold is_digit. intros Hc Hb H. zbool. rewrite digit_spec by done. case_test; [|done]. apply Z.leb_le. lia.
Qed.

Section Loops.
Context (rest : bytes) (b : Z) (Hb : 2 <= b <= 36).

(** The result of a loop that reads [s]: its digits, and where they end. *)
Definition after (s : bytes) : bytes := tl0 rest (drop_while (is_digit b) s).

Section SignedLoop.
Context (MIN MAX : Z) (HMAX : 0 <= MAX) (HMIN : MIN <= 0).

(** The largest magnitude, the result that has a magnitude, and the cuts. *)
Definition limit (neg : bool) : Z := if neg then - MIN else MAX.
Definition signed_of (neg : bool) (v : Z) : Z := if neg then - v else v.
Definition cuts (neg : bool) : Z * Z := (signed_of neg (limit neg / b), limit neg mod b).

Lemma limit_nonneg neg : 0 <= limit neg.
Proof. destruct neg; simpl; lia. Qed.

Lemma signed_loop_eq neg cutoff cutlim acc any e c s :
  signed_loop MIN MAX neg b cutoff cutlim acc any e c s =
  let continue acc any e := enter (signed_loop MIN MAX neg b cutoff cutlim acc any e) s in
  match digit c with
  | None => Some (acc, any, s, e)
  | Some d =>
      if b <=? d then Some (acc, any, s, e)
      else if any <? 0 then continue acc any e
      else if neg then
        if (acc <? cutoff) || ((acc =? cutoff) && (cutlim <? d)) then continue MIN (-1) ERANGE
        else acc ← chk MIN MAX (acc * b); acc ← chk MIN MAX (acc - d); continue acc 1 e
      else
        if (cutoff <? acc) || ((acc =? cutoff) && (cutlim <? d)) then continue MAX (-1) ERANGE
        else acc ← chk MIN MAX (acc * b); acc ← chk MIN MAX (acc + d); continue acc 1 e
  end.
Proof. by destruct s. Qed.

Lemma chk_in z : MIN <= z <= MAX -> chk MIN MAX z = Some z.
Proof. intros H. unfold chk. by rewrite !(proj2 (Z.leb_le _ _)) by lia. Qed.

Lemma signed_stop neg cutoff cutlim acc any e s :
  cstring s -> is_digit b (hd0 s) = false ->
  signed_loop MIN MAX neg b cutoff cutlim acc any e (hd0 s) (tl0 rest s) = Some (acc, any, tl0 rest s, e).
Proof.
  intros Hs Hd. pose proof (hd0_byte s Hs) as Hc.
  pose proof (digit_out b _ Hc ltac:(lia) Hd) as H. rewrite signed_loop_eq. destruct (digit _); by rewrite ?H.
Qed.

Lemma signed_over neg cutoff cutlim acc any e s :
  any < 0 -> cstring s ->
  signed_loop MIN MAX neg b cutoff cutlim acc any e (hd0 s) (tl0 rest s) = Some (acc, any, after s, e).
Proof.
  intros Ha. unfold after. induction s as [|c s IH]; intros Hs; cbn [drop_while].
  - apply signed_stop; [done|]. unfold is_digit. apply Z.ltb_ge. cbn. lia.
  - case_test; [|by apply signed_stop]. pose proof (cstring_cons _ _ Hs) as (Hc & _ & Ht).
    destruct (digit_in b c Hc ltac:(lia) E) as [Hd Hl].
    cbn [hd0 tl0]. rewrite signed_loop_eq, Hd, Hl, (proj2 (Z.ltb_lt any 0)) by done. cbv beta zeta. rewrite ended_enter. by apply IH.
Qed.

(** One digit, before the limit is passed. *)
Lemma signed_step neg v any e c s :
  0 <= v <= limit neg -> 0 <= any -> is_u8 c -> is_digit b c = true ->
  let v' := v * b + digit_value c in
  let k acc any e := signed_loop MIN MAX neg b (cuts neg).1 (cuts neg).2 acc any e (hd0 s) (tl0 rest s) in
  signed_loop MIN MAX neg b (cuts neg).1 (cuts neg).2 (signed_of neg v) any e c (ended rest s) =
    if limit neg <? v' then k (signed_of neg (limit neg)) (-1) ERANGE else k (signed_of neg v') 1 e.
Proof.
  intros Hv Ha Hc Hdig v' k. destruct (digit_in b c Hc ltac:(lia) Hdig) as [Hd Hl].
  pose proof (digit_value_nonneg c) as Hn. zbool. pose proof (limit_nonneg neg) as HM. subst v'.
  rewrite <- (cut_test (limit neg) b v (digit_value c)) by lia.
  rewrite signed_loop_eq, Hd, (proj2 (Z.leb_gt _ _)), (proj2 (Z.ltb_ge any 0)) by lia.
  cbv beta zeta. rewrite !ended_enter. fold k.
  assert (Hchk : (limit neg <? v * b + digit_value c) = false -> v * b + digit_value c <= limit neg) by (by intros ?%Z.ltb_ge).
  rewrite <- (cut_test (limit neg) b v (digit_value c)) in Hchk by lia.
  destruct neg; cbn [cuts fst snd signed_of limit] in *.
  - replace (- v <? - (- MIN / b)) with (- MIN / b <? v) by (destruct (Z.ltb_spec (- MIN / b) v), (Z.ltb_spec (- v) (- (- MIN / b))); lia).
    replace (- v =? - (- MIN / b)) with (v =? - MIN / b) by (destruct (Z.eqb_spec v (- MIN / b)), (Z.eqb_spec (- v) (- (- MIN / b))); lia).
    destruct (_ || _); [by rewrite Z.opp_involutive|]. specialize (Hchk eq_refl).
    rewrite !chk_in by nia. cbn [mbind option_bind]. rewrite chk_in by nia. cbn [mbind option_bind]. rewrite ended_enter.
    by replace (- v * b - digit_value c) with (- (v * b + digit_value c)) by lia.
  - destruct (_ || _); [done|]. specialize (Hchk eq_refl).
    rewrite !chk_in by nia. cbn [mbind option_bind]. rewrite chk_in by nia. cbn [mbind option_bind]. by rewrite ended_enter.
Qed.

Lemma signed_loop_spec neg v any e s :
  0 <= v <= limit neg -> 0 <= any -> cstring s ->
  let v' := number b v (take_while (is_digit b) s) in
  signed_loop MIN MAX neg b (cuts neg).1 (cuts neg).2 (signed_of neg v) any e (hd0 s) (tl0 rest s) =
    if limit neg <? v' then Some (signed_of neg (limit neg), -1, after s, ERANGE)
    else Some (signed_of neg v', if bool_decide (take_while (is_digit b) s = []) then any else 1, after s, e).
Proof.
  revert v any. induction s as [|c s IH]; intros v any Hv Ha Hs; cbn zeta; unfold after; cbn [take_while drop_while].
  - cbn [number]. rewrite (proj2 (Z.ltb_ge _ _)) by lia. apply signed_stop; [done|]. unfold is_digit. apply Z.ltb_ge. cbn. lia.
  - destruct (is_digit b c) eqn:E.
    2: { cbn [number]. rewrite (proj2 (Z.ltb_ge _ _)) by lia. by apply signed_stop. }
    pose proof (cstring_cons _ _ Hs) as (Hc & _ & Ht). cbn [hd0 tl0 number]. rewrite signed_step by done.
    pose proof (digit_value_nonneg c). destruct (Z.ltb_spec (limit neg) (v * b + digit_value c)) as [Ho|Ho].
    + pose proof (number_ge b (take_while (is_digit b) s) (v * b + digit_value c) ltac:(lia) ltac:(nia)).
      rewrite (proj2 (Z.ltb_lt _ _)) by lia. by apply signed_over.
    + rewrite IH by (done || nia). unfold after. repeat case_test; done.
Qed.
End SignedLoop.
End Loops.

(** The unsigned loop is the signed one that stays at or above zero. *)
Lemma chk_wrap MAX z z' : chk 0 MAX z = Some z' -> z' = z /\ wrap MAX z = z.
Proof.
  unfold chk, wrap. destruct (_ && _) eqn:E; [|done]. intros [= <-]. zbool. split; [done|]. apply Z.mod_small. lia.
Qed.

Lemma unsigned_signed MAX b cutoff cutlim acc any e c s r :
  signed_loop 0 MAX false b cutoff cutlim acc any e c s = Some r -> unsigned_loop MAX b cutoff cutlim acc any e c s = Some r.
Proof.
  revert acc any e c. induction s as [|c' s IH]; intros acc any e c; cbn [signed_loop unsigned_loop]; (destruct (digit c) as [d|]; [|done]);
    (destruct (b <=? d); [done|]); (destruct (any <? 0); [auto|]); (destruct (_ || _); [auto|]);
    (destruct (chk 0 MAX (acc * b)) as [z|] eqn:E; [|done]); cbn [mbind option_bind]; apply chk_wrap in E as [-> Hw];
    (destruct (chk 0 MAX (acc * b + d)) as [z|] eqn:E; [|done]); apply chk_wrap in E as [-> Hw2]; cbn [mbind option_bind]; [done|].
  rewrite Hw, Hw2. apply IH.
Qed.

Lemma unsigned_loop_spec rest b MAX e s :
  2 <= b <= 36 -> 0 <= MAX -> cstring s ->
  let ds := take_while (is_digit b) s in
  unsigned_loop MAX b (MAX / b) (MAX mod b) 0 0 e (hd0 s) (tl0 rest s) =
    if MAX <? number b 0 ds then Some (MAX, -1, after rest b s, ERANGE)
    else Some (number b 0 ds, if bool_decide (ds = []) then 0 else 1, after rest b s, e).
Proof.
  intros Hb HM Hs ds. pose proof (signed_loop_spec rest b Hb 0 MAX HM ltac:(lia) false 0 0 e s) as H.
  cbn [limit signed_of cuts fst snd] in H. specialize (H ltac:(lia) ltac:(lia) Hs). cbv zeta in H. fold ds in H.
  destruct (MAX <? number b 0 ds); apply unsigned_signed, H.
Qed.

(** ** The conversions *)

(** A base the functions accept. *)
Definition valid_base (base : Z) : Prop := base = 0 \/ 2 <= base <= 36.

Lemma cut_base_valid base s : valid_base base -> 2 <= (cut_base base s).1 <= 36.
Proof. unfold valid_base, cut_base. intros H. repeat case_test; cbn [fst]; zbool; lia. Qed.

Lemma tl0_length rest s : len (ended rest s) - len (tl0 rest s) = 1.
Proof. destruct s; unfold len, tl0, ended; cbn [app length]; lia. Qed.
Lemma ended_length rest s : len (ended rest s) = len s + 1 + len rest.
Proof. unfold len, ended. rewrite length_app. cbn [length]. lia. Qed.

(** s - 1 after the loop is the end of the digits. *)
Lemma end_offset_after rest b s t any :
  any <> 0 -> end_offset (ended rest s) (after rest b t) any = len s - len (drop_while (is_digit b) t).
Proof.
  intros Ha. unfold end_offset, after. rewrite (proj2 (Z.eqb_neq _ _)) by done.
  pose proof (tl0_length rest (drop_while (is_digit b) t)) as H. rewrite ended_length in H. rewrite ended_length. lia.
Qed.

Lemma quot_opp_cut M b : 0 < b -> 0 <= M -> Z.quot (- M) b = - (M / b) /\ Z.rem (- M) b = - (M mod b).
Proof.
  intros. rewrite Z.quot_opp_l, Z.rem_opp_l by lia. by rewrite Z.quot_div_nonneg, Z.rem_mod_nonneg by lia.
Qed.

(** The cuts of the source are those of the loop's specification. *)
Lemma neg_cut_spec (MIN MAX : Z) (neg : bool) (b : Z) :
  2 <= b -> MIN <= 0 -> 0 <= MAX ->
  let M := if neg then MIN else MAX in neg_cut neg b (Z.quot M b) (Z.rem M b) = cuts b MIN MAX neg.
Proof.
  intros Hb HMIN HMAX. destruct neg; cbn zeta; unfold neg_cut, cuts; cbn [limit signed_of].
  - destruct (quot_opp_cut (- MIN) b) as [Hq Hr]; [lia..|]. rewrite Z.opp_involutive in Hq, Hr. rewrite Hq, Hr.
    pose proof (Z.mod_pos_bound (- MIN) b). rewrite (proj2 (Z.ltb_ge _ _)) by lia. f_equal; lia.
  - by rewrite Z.quot_div_nonneg, Z.rem_mod_nonneg by lia.
Qed.

Lemma long_cut_spec neg b : 2 <= b -> long_cut neg b = cuts b LONG_MIN LONG_MAX neg.
Proof. intros Hb. apply neg_cut_spec; [done|vm_compute; done..]. Qed.

Lemma imax_cut_spec neg b : 2 <= b -> imax_cut neg b = cuts b INTMAX_MIN INTMAX_MAX neg.
Proof.
  intros Hb. rewrite <- neg_cut_spec by (done || by vm_compute). unfold imax_cut, case_base.
  repeat (case_test; [zbool; subst b; by destruct neg|]). done.
Qed.

Lemma umax_cut_spec b : 2 <= b <= 36 -> umax_cut b = (UINTMAX_MAX / b, UINTMAX_MAX mod b).
Proof.
  intros Hb. unfold umax_cut. repeat (case_test; [zbool; by subst b|]). unfold wrap.
  by rewrite (Z.mod_small b) by (unfold UINTMAX_MAX; lia).
Qed.

(** Where the loops start, and what the string denotes in those terms. *)
Lemma scan_denotes rest s base :
  cstring s -> valid_base base ->
  exists neg b u, scan_start (ended rest s) base = Some (neg, b, hd0 u, tl0 rest u) /\ 2 <= b <= 36 /\ cstring u
    /\ denotes s base = (neg, number b 0 (take_while (is_digit b) u), negb (bool_decide (take_while (is_digit b) u = [])),
         len s - len (drop_while (is_digit b) u)).
Proof.
  intros Hs Hbase. unfold denotes. pose proof (scan_start_spec rest s base Hs) as Hscan.
  destruct (cut_sign (drop_while white s)) as [neg t] eqn:Et. destruct (cut_base base t) as [b u] eqn:Eu.
  exists neg, b, u. split_and!; try done.
  - change b with (b, u).1. rewrite <- Eu. by apply cut_base_valid.
  - change b with (b, u).1. rewrite <- Eu. by apply cut_base_valid.
  - change u with (b, u).2. rewrite <- Eu. apply cut_base_cstring. change t with (neg, t).2. rewrite <- Et. auto with cint.
Qed.

(** strtol and strtoimax, whatever their type. *)
Definition signed_conv (MIN MAX : Z) (cut : bool -> Z -> Z * Z) (nptr : bytes) (base errno : Z) : option (Z * Z * Z) :=
  '(neg, base, c, s) ← scan_start nptr base;
  let '(cutoff, cutlim) := cut neg base in
  '(acc, any, s, errno) ← signed_loop MIN MAX neg base cutoff cutlim 0 0 errno c s;
  Some (acc, end_offset nptr s any, errno).

Lemma signed_conv_spec MIN MAX cut rest s base e :
  MIN <= 0 -> 0 <= MAX -> (forall neg b, 2 <= b -> cut neg b = cuts b MIN MAX neg) -> cstring s -> valid_base base ->
  signed_conv MIN MAX cut (ended rest s) base e = Some (to_signed MIN MAX s base e).
Proof.
  intros HMIN HMAX Hcut Hs Hbase. unfold signed_conv, to_signed.
  destruct (scan_denotes rest s base Hs Hbase) as (neg & b & u & Hscan & Hb & Hu & ->).
  rewrite Hscan. cbn [mbind option_bind]. rewrite Hcut by lia.
  pose proof (signed_loop_spec rest b Hb MIN MAX HMAX HMIN neg 0 0 e u) as Hl. pose proof (limit_nonneg MIN MAX HMAX HMIN neg).
  specialize (Hl ltac:(lia) ltac:(lia) Hu). cbn zeta in Hl. destruct (cuts b MIN MAX neg) as [co cl]. cbn [fst snd] in Hl.
  replace (signed_of neg 0) with 0 in Hl by (by destruct neg). rewrite Hl. clear Hl Hscan Hcut.
  set (ds := take_while (is_digit b) u). pose proof (number_ge b ds 0 ltac:(lia) ltac:(lia)) as Hn.
  destruct (Z.ltb_spec (limit MIN MAX neg) (number b 0 ds)) as [Ho|Ho]; cbn [mbind option_bind].
  - assert (ds <> []) as Hds by (intros ->; cbn in Ho; lia). rewrite (bool_decide_false _ Hds), end_offset_after by done. cbn [negb].
    destruct neg; cbn [signed_of limit] in *; do 3 f_equal; [lia| |lia|]; destruct (_ && _) eqn:E; [zbool; lia|done|zbool; lia|done].
  - replace (_ && _) with true by (destruct neg; cbn [limit] in *; symmetry; apply andb_true_iff; split; apply Z.leb_le; lia).
    f_equal. f_equal. f_equal; [destruct neg; cbn [limit signed_of] in *; lia|].
    destruct (bool_decide_reflect (ds = [])); cbn [negb]; [done|by apply end_offset_after].
Qed.

(** strtoul and strtoumax, whatever their type. *)
Definition unsigned_conv (MAX : Z) (cut : Z -> Z * Z) (nptr : bytes) (base errno : Z) : option (Z * Z * Z) :=
  '(neg, base, c, s) ← scan_start nptr base;
  let '(cutoff, cutlim) := cut base in
  '(acc, any, s, errno) ← unsigned_loop MAX base cutoff cutlim 0 0 errno c s;
  let acc := if neg && (0 <? any) then wrap MAX (- acc) else acc in
  Some (acc, end_offset nptr s any, errno).

Lemma unsigned_conv_spec MAX cut rest s base e :
  0 <= MAX -> (forall b, 2 <= b <= 36 -> cut b = (MAX / b, MAX mod b)) -> cstring s -> valid_base base ->
  unsigned_conv MAX cut (ended rest s) base e = Some (to_unsigned MAX s base e).
Proof.
  intros HMAX Hcut Hs Hbase. unfold unsigned_conv, to_unsigned.
  destruct (scan_denotes rest s base Hs Hbase) as (neg & b & u & Hscan & Hb & Hu & ->).
  rewrite Hscan. cbn [mbind option_bind]. rewrite Hcut by lia. rewrite unsigned_loop_spec by done.
  set (ds := take_while (is_digit b) u). pose proof (number_ge b ds 0 ltac:(lia) ltac:(lia)) as Hn.
  destruct (Z.ltb_spec MAX (number b 0 ds)) as [Ho|Ho]; cbn [mbind option_bind].
  - rewrite (proj2 (Z.leb_gt _ _)), end_offset_after by done. by rewrite andb_false_r.
  - rewrite (proj2 (Z.leb_le _ _)) by done. destruct (bool_decide_reflect (ds = [])) as [Hds|Hds]; cbn [negb].
    + rewrite Hds. cbn [number]. rewrite andb_false_r. by destruct neg.
    + rewrite end_offset_after, andb_true_r by done. unfold wrap. destruct neg; [done|]. by rewrite Z.mod_small by lia.
Qed.

Lemma ul_cut_spec b : 2 <= b <= 36 -> (ULONG_MAX / u32 b, ULONG_MAX mod u32 b) = (ULONG_MAX / b, ULONG_MAX mod b).
Proof. intros Hb. by rewrite u32_id by (unfold is_u32; lia). Qed.

(** C15.  On a C string [s] with a base of 0 or 2 to 36 the conversions read
    nothing after the terminator, overflow no signed type, and answer the number
    that the longest run of digits after the white space, the sign and the prefix
    denotes: strtol and strtoimax (strtoll) saturated to the range of their type,
    with ERANGE exactly when the number is out of it, strtoul and strtoumax
    (strtoull) modulo their range when the magnitude fits and their maximum with
    ERANGE when it does not; *endptr is the end of the digits, or the start of
    the string when there is no digit. *)
Theorem strto_correct (s rest : bytes) (base errno : Z) :
  cstring s -> valid_base base ->
  strtol (s ++ 0 :: rest) base errno = Some (to_signed LONG_MIN LONG_MAX s base errno) /\
  strtoll (s ++ 0 :: rest) base errno = Some (to_signed INTMAX_MIN INTMAX_MAX s base errno) /\
  strtoul (s ++ 0 :: rest) base errno = Some (to_unsigned ULONG_MAX s base errno) /\
  strtoull (s ++ 0 :: rest) base errno = Some (to_unsigned UINTMAX_MAX s base errno).
Proof.
  intros Hs Hb. split_and!.
  - apply (signed_conv_spec LONG_MIN LONG_MAX long_cut rest s); [by vm_compute|by vm_compute|exact long_cut_spec|done|done].
  - apply (signed_conv_spec INTMAX_MIN INTMAX_MAX imax_cut rest s); [by vm_compute|by vm_compute|exact imax_cut_spec|done|done].
  - apply (unsigned_conv_spec ULONG_MAX (fun b => (ULONG_MAX / u32 b, ULONG_MAX mod u32 b)) rest s); [by vm_compute|exact ul_cut_spec|done|done].
  - apply (unsigned_conv_spec UINTMAX_MAX umax_cut rest s); [by vm_compute|exact umax_cut_spec|done|done].
Qed.

(** The string " -2147483649z": one less than LONG_MIN. *)
Definition sample_number : bytes := [32; 45; 50; 49; 52; 55; 52; 56; 51; 54; 52; 57; 122].

Lemma sample_cstring : cstring sample_number.
Proof.
  split; [unfold byte_list, sample_number; repeat constructor; lia|]. unfold sample_number.
  repeat (apply not_elem_of_cons; split; [lia|]). apply not_elem_of_nil.
Qed.

Lemma strto_correct_witness :
  strtol (sample_number ++ [0]) 0 0 = Some (-2147483648, 12, ERANGE) /\ strtoll (sample_number ++ [0]) 0 0 = Some (-2147483649, 12, 0)
  /\ strtoul (sample_number ++ [0]) 0 0 = Some (2147483647, 12, 0) /\ strtoull (sample_number ++ [0]) 0 0 = Some (18446744071562067967, 12, 0).
Proof.
  destruct (strto_correct sample_number [] 0 0 sample_cstring (or_introl eq_refl)) as (-> & -> & -> & ->).
  split_and!; reflexivity.
Defined.

(** "0x" that no hexadecimal digit follows is not read as the number 0. *)
Example hex_prefix_alone : strtol [48; 120; 103; 0] 16 0 = Some (0, 0, 0) /\ strtol [48; 103; 0] 16 0 = Some (0, 1, 0).
Proof. split; reflexivity. Qed.

(** atoi and atol answer the number itself when an int holds it; outside, the
    low 32 bits of the number saturated to 64 bits. *)
Lemma atoi_value s rest errno :
  cstring s ->
  let '(n, _, e) := to_signed INTMAX_MIN INTMAX_MAX s 10 errno in
  atoi (s ++ 0 :: rest) errno = Some (s32 n, e) /\ (is_s32 n -> atoi (s ++ 0 :: rest) errno = Some (n, e)).
Proof.
  intros Hs. unfold atoi.
  pose proof (signed_conv_spec INTMAX_MIN INTMAX_MAX imax_cut rest s 10 errno ltac:(by vm_compute) ltac:(by vm_compute) imax_cut_spec Hs
    ltac:(right; lia)) as H.
  change (strtoimax (s ++ 0 :: rest) 10 errno) with (signed_conv INTMAX_MIN INTMAX_MAX imax_cut (ended rest s) 10 errno).
  destruct (to_signed INTMAX_MIN INTMAX_MAX s 10 errno) as [[n k] e]. rewrite H. cbn [mbind option_bind].
  split; [done|]. intros Hn. by rewrite s32_id.
Qed.

(** ** strntoumax stays within its n bytes *)

Lemma digitval_spec c : is_u8 c -> digitval c = if digit_value c <? 16 then digit_value c else -1.
Proof. intros Hc. apply Z.eqb_eq. revert c Hc. apply all_bytes_spec. vm_compute. reflexivity. Qed.

Lemma number_mod b v ds m : 0 < m -> number b (v mod m) ds mod m = number b v ds mod m.
Proof.
  intros Hm. revert v. induction ds as [|c ds IH]; intros v; cbn [number]; [apply Z.mod_mod; lia|].
  rewrite <- IH, <- (IH (v * b + _)). do 2 f_equal. by rewrite <- Z.add_mod_idemp_l, Z.mul_mod_idemp_l, Z.add_mod_idemp_l by lia.
Qed.

(** The digits that strntoumax knows: those of base 16 at most. *)
Definition is_digit_n (b c : Z) : bool := digit_value c <? Z.min b 16.

Lemma digits_n_spec b v n p :
  2 <= b -> byte_list p -> (n <= length p)%nat -> 0 <= v <= UINTMAX_MAX ->
  let ds := take_while (is_digit_n b) (take n p) in
  digits_n b v n p = Some (wrap UINTMAX_MAX (number b v ds), drop (length ds) p).
Proof.
  intros Hb. revert v p. induction n as [|n IH]; intros v p Hp Hn Hv; cbn [digits_n take take_while].
  - rewrite take_0. cbn [take_while number length drop]. unfold wrap. by rewrite Z.mod_small by lia.
  - destruct p as [|c p]; [cbn in Hn; lia|]. apply Forall_cons in Hp as [Hc Hp]. cbn [take_while take]. cbn zeta.
    rewrite digitval_spec by done. change (is_digit_n b c) with (digit_value c <? Z.min b 16). pose proof (digit_value_nonneg c).
    destruct (Z.ltb_spec (digit_value c) 16) as [H16|H16].
    2: { change (0 <=? -1) with false; cbn [andb]. rewrite (proj2 (Z.ltb_ge _ _)) by lia. cbn [number length drop]. unfold wrap. by rewrite Z.mod_small by lia. }
    rewrite (proj2 (Z.leb_le 0 _)) by lia. cbn [andb].
    replace (digit_value c <? Z.min b 16) with (digit_value c <? b) by (destruct (Z.ltb_spec (digit_value c) b), (Z.ltb_spec (digit_value c) (Z.min b 16)); lia).
    destruct (digit_value c <? b).
    + pose proof (Z.mod_pos_bound (v * b + digit_value c) (UINTMAX_MAX + 1) ltac:(by vm_compute)).
      rewrite IH; [|done|cbn in Hn; lia|unfold wrap; lia]. unfold wrap. by rewrite number_mod by by vm_compute.
    + cbn [number length drop]. unfold wrap. by rewrite Z.mod_small by lia.
Qed.

Lemma take_while_length P s : (length (take_while P s) <= length s)%nat.
Proof. induction s as [|c s IH]; cbn; [lia|]. case_test; cbn; lia. Qed.

Lemma skip_space_n_total n p :
  (n <= length p)%nat -> exists n' p', skip_space_n n p = Some (n', p') /\ (n' <= length p')%nat /\ (n' <= n)%nat /\ p' = drop (n - n') p.
Proof.
  revert p. induction n as [|n IH]; intros p Hn; cbn [skip_space_n].
  - exists 0%nat, p. by rewrite drop_0.
  - destruct p as [|c p]; [cbn in Hn; lia|]. destruct (isspace c).
    + destruct (IH p) as (n' & p' & -> & ? & ? & ->); [cbn in Hn; lia|]. exists n', (drop (n - n') p). split_and!; [done..|lia|].
      by replace (S n - n')%nat with (S (n - n')) by lia.
    + exists (S n), (c :: p). split_and!; [done..|]. by rewrite Nat.sub_diag.
Qed.

Lemma lookup_in (p : bytes) (i : nat) : (i < length p)%nat -> exists x, p !! i = Some x.
Proof. apply lookup_lt_is_Some_2. Qed.

Lemma scan_sign_n_total n p :
  (n <= length p)%nat ->
  exists minus n' p', scan_sign_n n p = Some (minus, n', p') /\ (n' <= length p')%nat /\ (n' <= n)%nat /\ p' = drop (n - n') p.
Proof.
  intros Hn. unfold scan_sign_n. destruct (Nat.ltb_spec 0 n); [|exists false, n, p; by rewrite Nat.sub_diag, drop_0].
  destruct (lookup_in p 0) as [c ->]; [lia|]. cbn [mbind option_bind]. destruct (_ || _); [|exists false, n, p; by rewrite Nat.sub_diag, drop_0].
  exists (c =? 45), (n - 1)%nat, (drop 1 p). rewrite length_drop. replace (n - (n - 1))%nat with 1%nat by lia. split_and!; lia || done.
Qed.

Lemma scan_base_n_total base n p :
  valid_base base -> (n <= length p)%nat ->
  exists b n' p', scan_base_n base n p = Some (b, n', p') /\ 2 <= b <= 36 /\ (n' <= length p')%nat /\ (n' <= n)%nat /\ p' = drop (n - n') p.
Proof.
  intros Hb Hn. unfold scan_base_n.
  assert (exists h, hex_prefix_n n p = Some h /\ (h = true -> (2 < n)%nat)) as (h & Hh & Hh2).
  { unfold hex_prefix_n. destruct (Nat.ltb_spec 2 n); [|by exists false].
    destruct (lookup_in p 0) as [c ->]; [lia|]. cbn [mbind option_bind]. destruct (c =? 48); [|by exists false].
    destruct (lookup_in p 1) as [x ->]; [lia|]. cbn [mbind option_bind]. eauto. }
  assert (Hsame : forall b, 2 <= b <= 36 -> exists b' n' p', Some (b, n, p) = Some (b', n', p') /\ 2 <= b' <= 36 /\ (n' <= length p')%nat /\ (n' <= n)%nat /\ p' = drop (n - n') p).
  { intros b ?. exists b, n, p. rewrite Nat.sub_diag, drop_0. split_and!; lia || done. }
  assert (Hcut : forall b k, 2 <= b <= 36 -> (k <= n)%nat ->
    exists b' n' p', Some (b, (n - k)%nat, drop k p) = Some (b', n', p') /\ 2 <= b' <= 36 /\ (n' <= length p')%nat /\ (n' <= n)%nat /\ p' = drop (n - n') p).
  { intros b k ??. exists b, (n - k)%nat, (drop k p). rewrite length_drop. replace (n - (n - k))%nat with k by lia. split_and!; lia || done. }
  rewrite Hh. cbn [mbind option_bind]. destruct Hb as [->|Hb].
  - cbn [Z.eqb]. destruct h; [apply Hcut; [lia|specialize (Hh2 eq_refl); lia]|]. destruct (Nat.ltb_spec 1 n); [|apply Hsame; lia].
    destruct (lookup_in p 0) as [c ->]; [lia|]. cbn [mbind option_bind]. destruct (c =? 48); [apply Hcut; lia|apply Hsame; lia].
  - rewrite (proj2 (Z.eqb_neq base 0)) by lia. destruct (base =? 16); [|apply Hsame; lia].
    destruct h; [apply Hcut; [lia|specialize (Hh2 eq_refl); lia]|apply Hsame; lia].
Qed.

(** strntoumax reads at most the [n] bytes it is given, and answers a value of
    its type and a pointer that is at most at their end. *)
Lemma strntoumax_total nptr base n :
  byte_list nptr -> valid_base base -> (n <= length nptr)%nat ->
  exists v k, strntoumax nptr base n = Some (v, k) /\ 0 <= v <= UINTMAX_MAX /\ 0 <= k <= Z.of_nat n.
Proof.
  intros Hnp Hb Hn. unfold strntoumax. destruct (skip_space_n_total n nptr Hn) as (n1 & p1 & -> & Hn1 & Hle1 & Hp1). cbn [mbind option_bind].
  destruct (scan_sign_n_total n1 p1 Hn1) as (minus & n2 & p2 & -> & Hn2 & Hle2 & Hp2).
  cbn [mbind option_bind]. destruct (scan_base_n_total base n2 p2 Hb Hn2) as (b & n3 & p3 & -> & Hb3 & Hn3 & Hle3 & Hp3). cbn [mbind option_bind].
  assert (Hby : byte_list p3) by (subst; unfold byte_list; auto using Forall_drop).
  rewrite (digits_n_spec b 0 n3 p3 ltac:(lia) Hby Hn3 ltac:(by vm_compute)). cbn [mbind option_bind].
  set (ds := take_while _ _). eexists _, _. split; [done|].
  assert (Hw : forall z, 0 <= wrap UINTMAX_MAX z <= UINTMAX_MAX).
  { intros z. unfold wrap. pose proof (Z.mod_pos_bound z (UINTMAX_MAX + 1) ltac:(by vm_compute)). lia. }
  split; [destruct minus; apply Hw|].
  assert (Hds : (length ds <= n3)%nat).
  { pose proof (take_while_length (is_digit_n b) (take n3 p3)). rewrite length_take in H. fold ds in H. lia. }
  subst p3 p2 p1. unfold len. rewrite !length_drop in *. lia.
Qed.
