(* ===== verification/CMem.v ===== *)
(** * Blocks of memory (libc/string: bcopy.c, memcpy.c, memmove.c, memset.c,
    memswap.c, memcmp.c, memchr.c, memrchr.c, memccpy.c, memmem.c)

    Memory is the list of its bytes and an address is an index into it; char is
    unsigned, as on ARM.  [None] is an access outside memory, or an access to a
    word at an address that is not a multiple of the word size.  The pointers that
    a function is given may overlap in any way. *)
From S2P Require Import Prelude.
#[local] Open Scope nat_scope.

(** ** Memory *)
Notation cmem := (list Z).

Definition st (m : cmem) (p : nat) (v : Z) : option cmem :=
  if p <? length m then Some (<[p := v]> m) else None.

(** The [n] bytes at [p], and memory with the bytes at [p] replaced. *)
Definition slice (m : cmem) (p n : nat) : list Z := take n (drop p m).
Definition blit (m : cmem) (p : nat) (bs : list Z) : cmem := take p m ++ bs ++ drop (p + length bs) m.

Lemma lookup_slice m p n i : slice m p n !! i = if i <? n then m !! (p + i) else None.
Proof.
  unfold slice. destruct (Nat.ltb_spec i n).
  - by rewrite lookup_take_lt, lookup_drop.
  - by rewrite lookup_take_ge.
Qed.

Lemma length_slice m p n : p + n <= length m -> length (slice m p n) = n.
Proof. unfold slice. rewrite length_take, length_drop. lia. Qed.

Lemma length_blit m p bs : p + length bs <= length m -> length (blit m p bs) = length m.
Proof. unfold blit. rewrite !length_app, length_take, length_drop. lia. Qed.

Lemma lookup_blit m p bs i :
  p + length bs <= length m ->
  blit m p bs !! i = if (p <=? i) && (i <? p + length bs) then bs !! (i - p) else m !! i.
Proof.
  intros H. unfold blit. destruct (Nat.leb_spec p i); cbn [andb].
  - rewrite lookup_app_r by (rewrite length_take; lia). rewrite length_take, Nat.min_l by lia.
    destruct (Nat.ltb_spec i (p + length bs)).
    + rewrite lookup_app_l by lia. done.
    + rewrite lookup_app_r by lia. rewrite lookup_drop. f_equal. lia.
  - rewrite lookup_app_l by (rewrite length_take; lia). by rewrite lookup_take_lt.
Qed.

Lemma slice_blit m p bs : p + length bs <= length m -> slice (blit m p bs) p (length bs) = bs.
Proof.
  intros H. apply list_eq. intros i. rewrite lookup_slice. destruct (Nat.ltb_spec i (length bs)).
  - rewrite lookup_blit by done. rewrite (proj2 (Nat.leb_le _ _)), (proj2 (Nat.ltb_lt _ _)) by lia.
    cbn [andb]. f_equal. lia.
  - symmetry. apply lookup_ge_None. lia.
Qed.

Lemma slice_S m p n v : m !! p = Some v -> slice m p (S n) = v :: slice m (S p) n.
Proof. intros H. unfold slice. by rewrite (drop_S _ v). Qed.

Lemma slice_snoc m p n v : m !! (p + n) = Some v -> slice m p (S n) = slice m p n ++ [v].
Proof. intros H. unfold slice. apply take_S_r. by rewrite lookup_drop. Qed.

Lemma slice_cat m p a b : slice m p (a + b) = slice m p a ++ slice m (p + a) b.
Proof. unfold slice. rewrite <- drop_drop. by rewrite take_take_drop. Qed.

Lemma st_blit m p v : p < length m -> st m p v = Some (blit m p [v]).
Proof.
  intros H. unfold st. rewrite (proj2 (Nat.ltb_lt _ _)) by done. f_equal. unfold blit. cbn.
  rewrite insert_take_drop by done. by rewrite Nat.add_1_r.
Qed.

(** Two writes side by side are one. *)
Lemma blit_app m p xs ys :
  p + length xs + length ys <= length m -> blit (blit m p xs) (p + length xs) ys = blit m p (xs ++ ys).
Proof.
  intros H. apply list_eq. intros i.
  rewrite !lookup_blit by (rewrite ?length_app, ?length_blit by lia; lia). rewrite length_app.
  destruct (Nat.leb_spec p i), (Nat.leb_spec (p + length xs) i), (Nat.ltb_spec i (p + length xs + length ys)),
    (Nat.ltb_spec i (p + length xs)), (Nat.ltb_spec i (p + (length xs + length ys))); cbn [andb]; try lia; try done.
  - rewrite lookup_app_r by lia. f_equal. lia.
  - by rewrite lookup_app_l by lia.
Qed.

Lemma blit_nil m p : blit m p [] = m.
Proof. unfold blit. cbn. rewrite Nat.add_0_r. apply take_drop. Qed.

(** ** bcopy.c

    memcpy and memmove of this file are its body under another name. *)
Definition wsize : nat := 4.
Definition wmask : nat := wsize - 1.

(** *(word * )p and its assignment *)
Definition ldw (m : cmem) (p : nat) : option (list Z) :=
  if (Nat.land p wmask =? 0) && (p + wsize <=? length m) then Some (slice m p wsize) else None.
Definition stw (m : cmem) (p : nat) (w : list Z) : option cmem :=
  if (Nat.land p wmask =? 0) && (p + wsize <=? length m) then Some (blit m p w) else None.

(** TLOOP of *dst++ = *src++ *)
Fixpoint copy_up (t : nat) (m : cmem) (dst src : nat) : option (cmem * nat * nat) :=
  match t with
  | O => Some (m, dst, src)
  | S t => c ← m !! src; m ← st m dst c; copy_up t m (S dst) (S src)
  end.

(** TLOOP of *(word * )dst = *(word * )src; src += wsize; dst += wsize *)
Fixpoint copy_up_words (t : nat) (m : cmem) (dst src : nat) : option (cmem * nat * nat) :=
  match t with
  | O => Some (m, dst, src)
  | S t => w ← ldw m src; m ← stw m dst w; copy_up_words t m (dst + wsize) (src + wsize)
  end.

(** TLOOP of *--dst = *--src; a pointer does not go below the start of memory. *)
Fixpoint copy_down (t : nat) (m : cmem) (dst src : nat) : option (cmem * nat * nat) :=
  match t with
  | O => Some (m, dst, src)
  | S t =>
      if (dst <? 1) || (src <? 1) then None
      else c ← m !! (src - 1); m ← st m (dst - 1) c; copy_down t m (dst - 1) (src - 1)
  end.

(** TLOOP of src -= wsize; dst -= wsize; *(word * )dst = *(word * )src *)
Fixpoint copy_down_words (t : nat) (m : cmem) (dst src : nat) : option (cmem * nat * nat) :=
  match t with
  | O => Some (m, dst, src)
  | S t =>
      if (dst <? wsize) || (src <? wsize) then None
      else w ← ldw m (src - wsize); m ← stw m (dst - wsize) w; copy_down_words t m (dst - wsize) (src - wsize)
  end.

(** TLOOP1 does not test [t] before its first round, after which a zero has wrapped. *)
Definition TLOOP1 {A} (loop : nat -> option A) (t : nat) : option A := if t =? 0 then None else loop t.

Definition bcopy (m : cmem) (src0 dst0 length : nat) : option cmem :=
  let dst := dst0 in
  let src := src0 in
  if (length =? 0) || (dst =? src) then Some m
  else if dst <? src then
    let t := src in
    '(m, dst, src, length) ←
      (if negb (Nat.land (Nat.lor t dst) wmask =? 0) then
         let t := if negb (Nat.land (Nat.lxor t dst) wmask =? 0) || (length <? wsize) then length
                  else wsize - Nat.land t wmask in
         '(m, dst, src) ← TLOOP1 (fun t => copy_up t m dst src) t;
         Some (m, dst, src, length - t)
       else Some (m, dst, src, length));
    '(m, dst, src) ← copy_up_words (length / wsize) m dst src;
    '(m, _, _) ← copy_up (Nat.land length wmask) m dst src;
    Some m
  else
    let src := src + length in
    let dst := dst + length in
    let t := src in
    '(m, dst, src, length) ←
      (if negb (Nat.land (Nat.lor t dst) wmask =? 0) then
         let t := if negb (Nat.land (Nat.lxor t dst) wmask =? 0) || (length <=? wsize) then length
                  else Nat.land t wmask in
         '(m, dst, src) ← TLOOP1 (fun t => copy_down t m dst src) t;
         Some (m, dst, src, length - t)
       else Some (m, dst, src, length));
    '(m, dst, src) ← copy_down_words (length / wsize) m dst src;
    '(m, _, _) ← copy_down (Nat.land length wmask) m dst src;
    Some m.

(** memcpy.c includes bcopy.c with MEMCOPY defined; the result is dst0. *)
Definition memcpy (m : cmem) (dst0 src0 length : nat) : option (cmem * nat) :=
  m ← bcopy m src0 dst0 length; Some (m, dst0).

(** memmove.c *)
Definition memmove (m : cmem) (dst src n : nat) : option (cmem * nat) :=
  let p := src in
  let q := dst in
  if (q <? p) || (n <=? q - p) then memcpy m dst src n
  else m ← bcopy m src dst n; Some (m, dst).

(** ** The other mem functions

    The loops of memset, memchr, memrchr and memcmp have the same statement four
    times in their bodies; here it is there once. *)

Fixpoint memset_loop (n : nat) (m : cmem) (q : nat) (c : Z) : option cmem :=
  match n with O => Some m | S n => m ← st m q (u8 c); memset_loop n m (S q) c end.
Definition memset (m : cmem) (dst : nat) (c : Z) (n : nat) : option (cmem * nat) :=
  m ← memset_loop n m dst c; Some (m, dst).

Fixpoint memswap (n : nat) (m : cmem) (p q : nat) : option cmem :=
  match n with
  | O => Some m
  | S n => tmp ← m !! p; c ← m !! q; m ← st m p c; m ← st m q tmp; memswap n m (S p) (S q)
  end.

(** The loop runs while d is 0; [n] is end1 - p1. *)
Fixpoint memcmp (n : nat) (m : cmem) (p1 p2 : nat) : option Z :=
  match n with
  | O => Some 0%Z
  | S n =>
      c1 ← m !! p1; c2 ← m !! p2;
      let d := (c1 - c2)%Z in
      if (d =? 0)%Z then memcmp n m (S p1) (S p2) else Some d
  end.

(** The result is a pointer or NULL. *)
Fixpoint memchr (n : nat) (m : cmem) (p : nat) (c : Z) : option (option nat) :=
  match n with
  | O => Some None
  | S n => x ← m !! p; if (x =? c)%Z then Some (Some p) else memchr n m (S p) c
  end.

(** q is s + n at the start of a round. *)
Fixpoint memrchr (n : nat) (m : cmem) (s : nat) (c : Z) : option (option nat) :=
  match n with
  | O => Some None
  | S n => x ← m !! (s + n); if (x =? c)%Z then Some (Some (s + n)) else memrchr n m s c
  end.

(** [n] is p_end - p; answers memory, q, the bytes left and the last char. *)
Fixpoint memccpy_loop (n : nat) (m : cmem) (q p : nat) (c ch : Z) : option (cmem * nat * nat * Z) :=
  if (ch =? c)%Z then Some (m, q, n, ch)
  else match n with
  | O => Some (m, q, O, ch)
  | S n => ch ← m !! p; m ← st m q ch; memccpy_loop n m (S q) (S p) c ch
  end.
Definition memccpy (m : cmem) (dst src : nat) (c : Z) (n : nat) : option (cmem * option nat) :=
  let ch := u8 (Z.lnot (u8 c)) in
  '(m, q, n, ch) ← memccpy_loop n m dst src c ch;
  Some (m, if (n =? 0) && negb (ch =? c)%Z then None else Some q).

(** while (j <= n-m); [d] is n-m. *)
Fixpoint memmem_loop (fuel : nat) (m : cmem) (y x d len k l j : nat) : option (option nat) :=
  match fuel with
  | O => None
  | S fuel =>
      if j <=? d then
        x1 ← m !! (x + 1); y1 ← m !! (y + j + 1);
        if negb (x1 =? y1)%Z then memmem_loop fuel m y x d len k l (j + k)
        else
          r ← memcmp (len - 2) m (x + 2) (y + j + 2);
          hit ← (if (r =? 0)%Z then x0 ← m !! x; y0 ← m !! (y + j); Some (x0 =? y0)%Z else Some false);
          if (hit : bool) then Some (Some (y + j))
          else memmem_loop fuel m y x d len k l (j + l)
      else Some None
  end.
Definition memmem (m : cmem) (haystack n needle len : nat) : option (option nat) :=
  if (n <? len) || (len =? 0) || (n =? 0) then Some None
  else if 1 <? len then
    x0 ← m !! needle; x1 ← m !! (needle + 1);
    let '(k, l) := if (x0 =? x1)%Z then (2, 1) else (1, 2) in
    memmem_loop (S n) m haystack needle (n - len) len k l 0
  else c ← m !! needle; memchr n m haystack c.

(** ** Copying *)

Lemma slice_blit_after m p bs q n :
  p + length bs <= length m -> p + length bs <= q -> slice (blit m p bs) q n = slice m q n.
Proof.
  intros H Hq. apply list_eq. intros i. rewrite !lookup_slice. destruct (i <? n); [|done].
  rewrite lookup_blit by done. destruct (Nat.ltb_spec (q + i) (p + length bs)); [lia|].
  by rewrite andb_false_r.
Qed.

Lemma slice_blit_before m p bs q n :
  p + length bs <= length m -> q + n <= p -> slice (blit m p bs) q n = slice m q n.
Proof.
  intros H Hq. apply list_eq. intros i. rewrite !lookup_slice. destruct (Nat.ltb_spec i n); [|done].
  rewrite lookup_blit by done. destruct (Nat.leb_spec p (q + i)); [lia|done].
Qed.

Lemma blit_app_rev m p xs ys :
  p + length xs + length ys <= length m -> blit (blit m (p + length xs) ys) p xs = blit m p (xs ++ ys).
Proof.
  intros H. apply list_eq. intros i.
  rewrite !lookup_blit by (rewrite ?length_app, ?length_blit by lia; lia). rewrite length_app.
  destruct (Nat.leb_spec p i), (Nat.leb_spec (p + length xs) i), (Nat.ltb_spec i (p + length xs + length ys)),
    (Nat.ltb_spec i (p + length xs)), (Nat.ltb_spec i (p + (length xs + length ys))); cbn [andb]; try lia; try done.
  - rewrite lookup_app_r by lia. f_equal. lia.
  - rewrite lookup_app_l by lia. done.
Qed.

(** The first [a] bytes and then the other [b]; the last [b] and then the first [a]. *)
Lemma blit_slice_up m d s a b :
  d < s -> s + a + b <= length m ->
  let m1 := blit m d (slice m s a) in blit m1 (d + a) (slice m1 (s + a) b) = blit m d (slice m s (a + b)).
Proof.
  intros Hd H m1. assert (length (slice m s a) = a) as Ha by (apply length_slice; lia).
  assert (length (slice m (s + a) b) = b) as Hb by (apply length_slice; lia).
  unfold m1. rewrite slice_blit_after by lia. rewrite slice_cat.
  replace (d + a) with (d + length (slice m s a)) by lia. apply blit_app. lia.
Qed.

Lemma blit_slice_down m d s a b :
  s <= d -> d + a + b <= length m ->
  let m1 := blit m (d + a) (slice m (s + a) b) in blit m1 d (slice m1 s a) = blit m d (slice m s (a + b)).
Proof.
  intros Hd H m1. assert (length (slice m s a) = a) as Ha by (apply length_slice; lia).
  assert (length (slice m (s + a) b) = b) as Hb by (apply length_slice; lia).
  unfold m1. rewrite slice_blit_before by lia. rewrite slice_cat.
  replace (d + a) with (d + length (slice m s a)) by lia. apply blit_app_rev. lia.
Qed.

Lemma length_blit_slice m d s n : s + n <= length m -> d + n <= length m -> length (blit m d (slice m s n)) = length m.
Proof. intros. apply length_blit. rewrite length_slice; lia. Qed.

Lemma lookup_byte (m : cmem) p : p < length m -> exists c, m !! p = Some c /\ slice m p 1 = [c].
Proof.
  intros H. destruct (lookup_lt_is_Some_2 m p H) as [c Hc]. exists c. split; [done|]. by rewrite (slice_S _ _ _ c).
Qed.

Lemma copy_up_spec t m d s :
  d < s -> s + t <= length m -> copy_up t m d s = Some (blit m d (slice m s t), d + t, s + t).
Proof.
  revert m d s. induction t as [|t IH]; intros m d s Hd H; cbn [copy_up].
  - rewrite !Nat.add_0_r. unfold slice. cbn. by rewrite blit_nil.
  - destruct (lookup_byte m s) as (c & -> & Hs); [lia|]. cbn [mbind option_bind]. rewrite st_blit by lia. cbn [mbind option_bind].
    rewrite <- Hs. pose proof (length_blit_slice m d s 1 ltac:(lia) ltac:(lia)) as Hl. rewrite IH by lia.
    pose proof (blit_slice_up m d s 1 t) as Hb. cbn zeta in Hb. rewrite !Nat.add_1_r in Hb.
    rewrite Hb by lia. by rewrite !Nat.add_succ_r.
Qed.

Lemma copy_down_spec t m d s :
  s <= d -> d + t <= length m -> copy_down t m (d + t) (s + t) = Some (blit m d (slice m s t), d, s).
Proof.
  revert m d s. induction t as [|t IH]; intros m d s Hd H; cbn [copy_down].
  - rewrite !Nat.add_0_r. unfold slice. cbn. by rewrite blit_nil.
  - rewrite !(proj2 (Nat.ltb_ge _ _)) by lia. cbn [orb].
    replace (s + S t - 1) with (s + t) by lia. replace (d + S t - 1) with (d + t) by lia.
    destruct (lookup_byte m (s + t)) as (c & -> & Hs); [lia|]. cbn [mbind option_bind]. rewrite st_blit by lia. cbn [mbind option_bind].
    rewrite <- Hs. pose proof (length_blit_slice m (d + t) (s + t) 1 ltac:(lia) ltac:(lia)) as Hl. rewrite IH by lia.
    pose proof (blit_slice_down m d s t 1) as Hb. cbn zeta in Hb. rewrite Hb by lia. by rewrite Nat.add_1_r.
Qed.

(** Alignment *)
Lemma land_wmask p : Nat.land p wmask = p mod 4.
Proof. exact (Nat.land_ones p 2). Qed.

Lemma aligned_or a b : Nat.land (Nat.lor a b) wmask = 0 <-> a mod 4 = 0 /\ b mod 4 = 0.
Proof. rewrite Nat.land_lor_distr_l, !land_wmask. apply Nat.lor_eq_0_iff. Qed.

Lemma aligned_xor a b : Nat.land (Nat.lxor a b) wmask = 0 <-> a mod 4 = b mod 4.
Proof.
  assert (Nat.land (Nat.lxor a b) wmask = Nat.lxor (a mod 4) (b mod 4)) as ->.
  - rewrite <- !land_wmask. apply Nat.bits_inj. intros i. rewrite !Nat.land_spec, !Nat.lxor_spec, !Nat.land_spec.
    by destruct (Nat.testbit a i), (Nat.testbit b i), (Nat.testbit wmask i).
  - split; [apply Nat.lxor_eq|]. intros ->. apply Nat.lxor_nilpotent.
Qed.

Lemma mod4_add a b : a mod 4 = 0 -> b mod 4 = 0 -> (a + b) mod 4 = 0.
Proof. intros Ha Hb. rewrite Nat.Div0.add_mod, Ha, Hb. done. Qed.

Lemma ldw_ok m p : p mod 4 = 0 -> p + 4 <= length m -> ldw m p = Some (slice m p 4).
Proof. intros Ha H. unfold ldw. rewrite land_wmask, Ha, (proj2 (Nat.leb_le _ _)) by (unfold wsize; lia). done. Qed.
Lemma stw_ok m p w : p mod 4 = 0 -> p + 4 <= length m -> stw m p w = Some (blit m p w).
Proof. intros Ha H. unfold stw. rewrite land_wmask, Ha, (proj2 (Nat.leb_le _ _)) by (unfold wsize; lia). done. Qed.

Lemma copy_up_words_spec t m d s :
  t = 0 \/ (d mod 4 = 0 /\ s mod 4 = 0) -> d < s -> s + 4 * t <= length m ->
  copy_up_words t m d s = Some (blit m d (slice m s (4 * t)), d + 4 * t, s + 4 * t).
Proof.
  revert m d s. induction t as [|t IH]; intros m d s Ha Hd H; cbn [copy_up_words].
  - rewrite !Nat.add_0_r. unfold slice. cbn. by rewrite blit_nil.
  - destruct Ha as [?|[Had Has]]; [lia|]. rewrite ldw_ok by (done || lia). cbn [mbind option_bind].
    rewrite stw_ok by (done || lia). cbn [mbind option_bind]. unfold wsize.
    pose proof (length_blit_slice m d s 4 ltac:(lia) ltac:(lia)) as Hl.
    rewrite IH by first [right; split; apply mod4_add; done | lia].
    pose proof (blit_slice_up m d s 4 (4 * t)) as Hb. cbn zeta in Hb.
    rewrite Hb by lia. replace (4 + 4 * t) with (4 * S t) by lia.
    replace (d + 4 + 4 * t) with (d + 4 * S t) by lia. replace (s + 4 + 4 * t) with (s + 4 * S t) by lia. done.
Qed.

Lemma mod4_sub a b : (a + b) mod 4 = 0 -> b mod 4 = 0 -> a mod 4 = 0.
Proof. intros Ha Hb. rewrite Nat.Div0.add_mod, Hb, Nat.add_0_r, Nat.Div0.mod_mod in Ha. done. Qed.

Lemma copy_down_words_spec t m d s :
  t = 0 \/ (d mod 4 = 0 /\ s mod 4 = 0) -> s <= d -> d + 4 * t <= length m ->
  copy_down_words t m (d + 4 * t) (s + 4 * t) = Some (blit m d (slice m s (4 * t)), d, s).
Proof.
  revert m d s. induction t as [|t IH]; intros m d s Ha Hd H; cbn [copy_down_words].
  - rewrite !Nat.add_0_r. unfold slice. cbn. by rewrite blit_nil.
  - destruct Ha as [?|[Had Has]]; [lia|]. unfold wsize.
    assert ((4 * t) mod 4 = 0) as Ht by (rewrite Nat.mul_comm; apply Nat.Div0.mod_mul).
    rewrite !(proj2 (Nat.ltb_ge _ _)) by lia. cbn [orb].
    replace (s + 4 * S t - 4) with (s + 4 * t) by lia. replace (d + 4 * S t - 4) with (d + 4 * t) by lia.
    rewrite ldw_ok by first [apply mod4_add; done | lia]. cbn [mbind option_bind].
    rewrite stw_ok by first [apply mod4_add; done | lia]. cbn [mbind option_bind].
    pose proof (length_blit_slice m (d + 4 * t) (s + 4 * t) 4 ltac:(lia) ltac:(lia)) as Hl. rewrite IH by (auto || lia).
    pose proof (blit_slice_down m d s (4 * t) 4) as Hb. cbn zeta in Hb. rewrite Hb by lia.
    replace (4 * t + 4) with (4 * S t) by lia. done.
Qed.

(** Words and then the bytes that are left. *)
Lemma words_bytes n : 4 * (n / wsize) + Nat.land n wmask = n.
Proof. rewrite land_wmask. symmetry. apply Nat.div_mod. done. Qed.

Lemma rest_up n m d s :
  n < 4 \/ (d mod 4 = 0 /\ s mod 4 = 0) -> d < s -> s + n <= length m ->
  ('(m, dst, src) ← copy_up_words (n / wsize) m d s; '(m, _, _) ← copy_up (Nat.land n wmask) m dst src; Some m)
  = Some (blit m d (slice m s n)).
Proof.
  intros Ha Hd H. pose proof (words_bytes n) as Hn. set (t := n / wsize) in *. set (r := Nat.land n wmask) in *.
  rewrite copy_up_words_spec by first [destruct Ha; [left; subst t; by apply Nat.div_small | by right] | lia].
  cbn [mbind option_bind]. rewrite copy_up_spec by (rewrite ?length_blit_slice; lia). cbn [mbind option_bind].
  rewrite blit_slice_up by lia. by rewrite Hn.
Qed.

Lemma rest_down n m d s :
  n < 4 \/ ((d + n) mod 4 = 0 /\ (s + n) mod 4 = 0) -> s <= d -> d + n <= length m ->
  ('(m, dst, src) ← copy_down_words (n / wsize) m (d + n) (s + n);
   '(m, _, _) ← copy_down (Nat.land n wmask) m dst src; Some m)
  = Some (blit m d (slice m s n)).
Proof.
  intros Ha Hd H. pose proof (words_bytes n) as Hn. set (t := n / wsize) in *. set (r := Nat.land n wmask) in *.
  assert ((4 * t) mod 4 = 0) as Ht by (rewrite Nat.mul_comm; apply Nat.Div0.mod_mul).
  replace (d + n) with (d + r + 4 * t) by lia. replace (s + n) with (s + r + 4 * t) by lia.
  rewrite copy_down_words_spec.
  - cbn [mbind option_bind]. rewrite copy_down_spec by (rewrite ?length_blit_slice; lia). cbn [mbind option_bind].
    rewrite blit_slice_down by lia. replace (r + 4 * t) with n by lia. done.
  - destruct Ha as [?|[Ha Hb]]; [left; subst t; by apply Nat.div_small|]. right.
    split; apply (mod4_sub _ (4 * t)); [|done| |done]; rewrite <- ?Nat.add_assoc, (Nat.add_comm r), Hn; done.
  - lia.
  - lia.
Qed.

Lemma align_up a b :
  a mod 4 = b mod 4 -> (a mod 4 <> 0 \/ b mod 4 <> 0) -> let t := 4 - a mod 4 in
  0 < t < 4 /\ (a + t) mod 4 = 0 /\ (b + t) mod 4 = 0.
Proof.
  intros Hab Hn t. pose proof (Nat.mod_upper_bound a 4). pose proof (Nat.mod_upper_bound b 4). subst t.
  split; [lia|]. split; apply Nat.Div0.mod_divides.
  - exists (a / 4 + 1). pose proof (Nat.div_mod_eq a 4). lia.
  - exists (b / 4 + 1). pose proof (Nat.div_mod_eq b 4). lia.
Qed.

Lemma align_down a b :
  (a mod 4 = b mod 4) -> (a mod 4 <> 0 \/ b mod 4 <> 0) -> let t := a mod 4 in
  0 < t < 4 /\ (a - t) mod 4 = 0 /\ (b - t) mod 4 = 0.
Proof.
  intros Hab Hn t. pose proof (Nat.mod_upper_bound a 4). pose proof (Nat.mod_upper_bound b 4). subst t.
  split; [lia|]. split; apply Nat.Div0.mod_divides.
  - exists (a / 4). pose proof (Nat.div_mod_eq a 4). lia.
  - exists (b / 4). pose proof (Nat.div_mod_eq b 4). lia.
Qed.

(** The low bits are seen, and what is known after the test of the source. *)
Lemma unaligned a b : (Nat.land (Nat.lor a b) wmask =? 0) = false -> a mod 4 <> 0 \/ b mod 4 <> 0.
Proof. intros H%Nat.eqb_neq. rewrite aligned_or in H. lia. Qed.

Lemma bcopy_up m s d n :
  n <> 0 -> d < s -> s + n <= length m -> bcopy m s d n = Some (blit m d (slice m s n)).
Proof.
  intros Hn Hd H. unfold bcopy. rewrite (proj2 (Nat.eqb_neq n 0)), (proj2 (Nat.eqb_neq d s)) by lia.
  rewrite (proj2 (Nat.ltb_lt d s)) by done. cbn [orb].
  destruct (Nat.land (Nat.lor s d) wmask =? 0) eqn:Eo; cbn [negb].
  - cbn [mbind option_bind]. apply rest_up; [|lia|lia]. right. apply Nat.eqb_eq, aligned_or in Eo. tauto.
  - set (t := if _ : bool then _ else _).
    assert (0 < t <= n /\ (n - t < 4 \/ ((d + t) mod 4 = 0 /\ (s + t) mod 4 = 0))) as [Ht Ha].
    { subst t. destruct (Nat.land (Nat.lxor s d) wmask =? 0) eqn:Ex; cbn [negb orb]; [|lia].
      destruct (Nat.ltb_spec n wsize); [lia|]. apply Nat.eqb_eq in Ex. rewrite aligned_xor in Ex. unfold wsize in *.
      rewrite land_wmask. destruct (align_up s d Ex (unaligned _ _ Eo)) as (Ht & ? & ?). split; [lia|]. by right. }
    clearbody t. unfold TLOOP1. rewrite (proj2 (Nat.eqb_neq t 0)) by lia. rewrite copy_up_spec by lia.
    cbn [mbind option_bind]. rewrite rest_up by (rewrite ?length_blit_slice; auto; lia).
    rewrite blit_slice_up by lia. by replace (t + (n - t)) with n by lia.
Qed.

Lemma bcopy_down m s d n :
  n <> 0 -> s < d -> d + n <= length m -> bcopy m s d n = Some (blit m d (slice m s n)).
Proof.
  intros Hn Hd H. unfold bcopy. rewrite (proj2 (Nat.eqb_neq n 0)), (proj2 (Nat.eqb_neq d s)) by lia.
  rewrite (proj2 (Nat.ltb_ge d s)) by lia. cbn [orb].
  destruct (Nat.land (Nat.lor (s + n) (d + n)) wmask =? 0) eqn:Eo; cbn [negb].
  - cbn [mbind option_bind]. apply rest_down; [|lia|lia]. right. apply Nat.eqb_eq, aligned_or in Eo. tauto.
  - set (t := if _ : bool then _ else _).
    assert (0 < t <= n /\ (n - t < 4 \/ ((d + (n - t)) mod 4 = 0 /\ (s + (n - t)) mod 4 = 0))) as [Ht Ha].
    { subst t. destruct (Nat.land (Nat.lxor (s + n) (d + n)) wmask =? 0) eqn:Ex; cbn [negb orb]; [|lia].
      destruct (Nat.leb_spec n wsize); [lia|]. apply Nat.eqb_eq in Ex. rewrite aligned_xor in Ex. unfold wsize in *.
      rewrite land_wmask. destruct (align_down _ _ Ex (unaligned _ _ Eo)) as (Ht & ? & ?). split; [lia|]. right.
      split; [replace (d + (n - (s + n) mod 4)) with (d + n - (s + n) mod 4) by lia |
              replace (s + (n - (s + n) mod 4)) with (s + n - (s + n) mod 4) by lia]; done. }
    clearbody t. unfold TLOOP1. rewrite (proj2 (Nat.eqb_neq t 0)) by lia.
    replace (d + n) with (d + (n - t) + t) by lia. replace (s + n) with (s + (n - t) + t) by lia.
    rewrite copy_down_spec by lia.
    cbn [mbind option_bind]. rewrite rest_down by (rewrite ?length_blit_slice; auto; lia).
    rewrite blit_slice_down by lia. by replace (n - t + t) with n by lia.
Qed.

Lemma blit_same m p n : p + n <= length m -> blit m p (slice m p n) = m.
Proof.
  intros H. apply list_eq. intros i. rewrite lookup_blit; rewrite length_slice; try lia.
  destruct (Nat.leb_spec p i), (Nat.ltb_spec i (p + n)); cbn [andb]; try done.
  rewrite lookup_slice, (proj2 (Nat.ltb_lt _ _)) by lia. f_equal. lia.
Qed.

Lemma bcopy_spec m s d n :
  s + n <= length m -> d + n <= length m -> bcopy m s d n = Some (blit m d (slice m s n)).
Proof.
  intros Hs Hd. destruct (decide (n = 0)) as [->|]; [|destruct (decide (s = d)) as [->|]].
  - unfold bcopy, slice. cbn. by rewrite blit_nil.
  - unfold bcopy. rewrite Nat.eqb_refl, orb_true_r. by rewrite blit_same.
  - destruct (decide (d < s)); [apply bcopy_up; lia|apply bcopy_down; lia].
Qed.
Lemma memcpy_spec m d s n :
  s + n <= length m -> d + n <= length m -> memcpy m d s n = Some (blit m d (slice m s n), d).
Proof. intros. unfold memcpy. by rewrite bcopy_spec. Qed.

(** C12.  memmove, memcpy and bcopy write the bytes that the source had before the call to the
    destination and nothing else, however the two blocks overlap and whatever the
    alignment of the two pointers; every word is read and written at an aligned
    address. *)
Theorem memmove_any_overlap m dst src n :
  src + n <= length m -> dst + n <= length m ->
  let m' := blit m dst (slice m src n) in
  memmove m dst src n = Some (m', dst) /\ memcpy m dst src n = Some (m', dst) /\ bcopy m src dst n = Some m' /\
  slice m' dst n = slice m src n /\
  (forall i, i < dst \/ dst + n <= i -> m' !! i = m !! i).
Proof.
  intros Hs Hd m'. pose proof (length_slice m src n Hs) as Hl. unfold memmove.
  rewrite (memcpy_spec _ _ _ _ Hs Hd), (bcopy_spec _ _ _ _ Hs Hd). cbn [mbind option_bind].
  repeat split.
  - by case_test.
  - pose proof (slice_blit m dst (slice m src n)) as Hb. rewrite Hl in Hb. exact (Hb Hd).
  - intros i Hi. unfold m'. rewrite lookup_blit by lia. rewrite Hl.
    destruct (Nat.leb_spec dst i), (Nat.ltb_spec i (dst + n)); cbn [andb]; (done || lia).
Qed.

Lemma memmove_any_overlap_witness :
  memmove [0;1;2;3;4;5;6;7;8;9]%Z 3 1 6 = Some ([0;1;2;1;2;3;4;5;6;9]%Z, 3).
Proof. exact (proj1 (memmove_any_overlap [0;1;2;3;4;5;6;7;8;9]%Z 3 1 6 ltac:(cbn; lia) ltac:(cbn; lia))). Defined.

(** ** Comparing and searching *)

(** The order of two blocks, by their first different byte. *)
Fixpoint lexcmp (a b : list Z) : comparison :=
  match a, b with
  | [], [] => Eq
  | [], _ :: _ => Lt
  | _ :: _, [] => Gt
  | x :: a, y :: b => match Z.compare x y with Eq => lexcmp a b | c => c end
  end.

Lemma lexcmp_eq a b : lexcmp a b = Eq <-> a = b.
Proof.
  revert b. induction a as [|x a IH]; intros [|y b]; cbn; [done..|].
  destruct (Z.compare_spec x y); subst.
  - rewrite IH. split; congruence.
  - split; [done|]. intros [= -> ->]. lia.
  - split; [done|]. intros [= -> ->]. lia.
Qed.

Lemma memcmp_spec n m p q :
  p + n <= length m -> q + n <= length m ->
  exists d, memcmp n m p q = Some d /\ Z.compare d 0 = lexcmp (slice m p n) (slice m q n).
Proof.
  revert p q. induction n as [|n IH]; intros p q Hp Hq; cbn [memcmp]; [by exists 0%Z|].
  destruct (lookup_byte m p) as (c1 & E1 & _); [lia|]. destruct (lookup_byte m q) as (c2 & E2 & _); [lia|].
  rewrite (slice_S _ _ _ c1 E1), (slice_S _ _ _ c2 E2), E1, E2. cbn [mbind option_bind lexcmp].
  destruct (Z.compare_spec c1 c2) as [->|H|H].
  - rewrite Z.sub_diag. apply IH; lia.
  - rewrite (proj2 (Z.eqb_neq _ _)) by lia. exists (c1 - c2)%Z. split; [done|]. apply Z.compare_lt_iff. lia.
  - rewrite (proj2 (Z.eqb_neq _ _)) by lia. exists (c1 - c2)%Z. split; [done|]. apply Z.compare_gt_iff. lia.
Qed.

Lemma memcmp_zero n m p q :
  p + n <= length m -> q + n <= length m ->
  exists d, memcmp n m p q = Some d /\ (d = 0%Z <-> slice m p n = slice m q n).
Proof.
  intros Hp Hq. destruct (memcmp_spec n m p q Hp Hq) as (d & E & H). exists d. split; [done|].
  rewrite <- lexcmp_eq, <- H. symmetry. apply Z.compare_eq_iff.
Qed.

(** The least of the first [n] indices with a property, none below [j] having it. *)
Definition first_index (P : nat -> Prop) (n : nat) (r : option nat) : Prop :=
  match r with
  | Some i => i < n /\ P i /\ forall k, k < i -> ~ P k
  | None => forall k, k < n -> ~ P k
  end.

Lemma memchr_spec n m p c :
  p + n <= length m -> exists r, memchr n m p c = Some ((fun i => p + i) <$> r) /\ first_index (fun i => m !! (p + i) = Some c) n r.
Proof.
  revert p. induction n as [|n IH]; intros p H; cbn [memchr]; [exists None; split; [done|]; cbn; lia|].
  destruct (lookup_byte m p) as (x & E & _); [lia|]. rewrite E. cbn [mbind option_bind].
  destruct (Z.eqb_spec x c) as [->|Hne].
  - exists (Some 0). cbn. rewrite Nat.add_0_r. repeat split; [lia|done|lia].
  - destruct (IH (S p)) as (r & Er & Hr); [lia|]. rewrite Er. exists (S <$> r).
    split; [destruct r; cbn; [do 2 f_equal; lia|done]|].
    assert (forall k, m !! (p + S k) = m !! (S p + k)) as Hk by (intros; f_equal; lia).
    destruct r as [i|]; cbn in *.
    + destruct Hr as (Hi & Hc & Hlt). repeat split; [lia|by rewrite Hk|].
      intros [|k] Hlt'; [rewrite Nat.add_0_r; congruence|]. rewrite Hk. apply Hlt. lia.
    + intros [|k] Hlt'; [rewrite Nat.add_0_r; congruence|]. rewrite Hk. apply Hr. lia.
Qed.

(** *** memmem *)
Section Memmem.
Context (m : cmem) (y x d len : nat).
Hypothesis Hlen : 2 <= len.
Hypothesis Hy : y + d + len <= length m.
Hypothesis Hx : x + len <= length m.

Let occ (j : nat) : Prop := slice m (y + j) len = slice m x len.

Lemma occ_byte j i : occ j -> i < len -> m !! (y + j + i) = m !! (x + i).
Proof.
  intros H Hi. pose proof (f_equal (.!! i) H) as E. cbn in E. rewrite !lookup_slice in E.
  by rewrite (proj2 (Nat.ltb_lt _ _)) in E.
Qed.

Lemma occ_iff j x0 x1 :
  j <= d -> m !! x = Some x0 -> m !! (x + 1) = Some x1 ->
  occ j <-> m !! (y + j) = Some x0 /\ m !! (y + j + 1) = Some x1 /\ slice m (y + j + 2) (len - 2) = slice m (x + 2) (len - 2).
Proof using Hlen Hx Hy.
  intros Hj E0 E1. unfold occ. destruct len as [|[|n]]; [lia..|]. rewrite (slice_S m x _ x0 E0).
  rewrite Nat.add_1_r in *. rewrite (slice_S m (S x) _ x1 E1). replace (S (S n) - 2) with n by lia.
  replace (y + j + 2) with (S (S (y + j))) by lia. replace (x + 2) with (S (S x)) by lia. split.
  - intros H. pose proof (f_equal (.!! 0) H) as H0. pose proof (f_equal (.!! 1) H) as H1. cbn in H0, H1.
    rewrite !lookup_slice in H0, H1. cbn in H0, H1. rewrite Nat.add_0_r in H0. rewrite Nat.add_1_r in H1.
    rewrite (slice_S _ _ _ _ H0), (slice_S _ _ _ _ H1) in H. split_and!; congruence.
  - intros (H0 & H1 & H2). by rewrite (slice_S _ _ _ _ H0), (slice_S _ _ _ _ H1), H2.
Qed.

Lemma memmem_loop_spec fuel k l x0 x1 j :
  m !! x = Some x0 -> m !! (x + 1) = Some x1 ->
  (k = 1 \/ (k = 2 /\ x0 = x1)) -> (l = 1 \/ (l = 2 /\ x0 <> x1)) ->
  (forall i, i < j -> ~ occ i) -> d + 1 < fuel + j -> 0 < fuel ->
  exists r, memmem_loop fuel m y x d len k l j = Some ((fun i => y + i) <$> r) /\ first_index occ (d + 1) r.
Proof using Hlen Hx Hy.
  intros E0 E1 Hk Hl. revert j. induction fuel as [|fuel IH]; intros j Hj Hf Hf0; [lia|]. cbn [memmem_loop].
  destruct (Nat.leb_spec j d) as [Hjd|Hjd]; [|exists None; split; [done|]; intros i Hi; apply Hj; lia].
  rewrite E1. cbn [mbind option_bind]. destruct (lookup_byte m (y + j)) as (y0 & Y0 & _); [lia|].
  destruct (lookup_byte m (y + j + 1)) as (y1 & Y1 & _); [lia|]. rewrite Y1. cbn [mbind option_bind].
  assert (Hsame := occ_iff j x0 x1 Hjd E0 E1).
  assert (forall i, i = j + 1 -> occ i -> y1 = x0) as Hnext.
  { intros i -> H. pose proof (occ_byte _ 0 H ltac:(lia)) as B. rewrite !Nat.add_0_r, Nat.add_assoc in B. congruence. }
  destruct (Z.eqb_spec x1 y1) as [->|Hne]; cbn [negb].
  - destruct (memcmp_zero (len - 2) m (x + 2) (y + j + 2)) as (r & -> & Hr); [lia..|]. cbn [mbind option_bind].
    assert (~ occ j -> forall i, i < j + l -> ~ occ i) as Hskip.
    { intros Hno i Hi Ho. destruct (decide (i < j)); [by apply (Hj i)|]. destruct (decide (i = j)); [by subst|].
      assert (l = 2 /\ x0 <> y1) as [-> Hx01] by lia. by rewrite (Hnext i) in Hx01 by (done || lia). }
    destruct (Z.eqb_spec r 0) as [Hr0|Hr0].
    + rewrite E0, Y0. cbn [mbind option_bind]. destruct (Z.eqb_spec x0 y0) as [->|Hne0].
      * exists (Some j). split; [done|]. split; [lia|]. split; [|exact Hj]. apply Hsame. split_and!; [done..|]. symmetry. tauto.
      * apply IH; [apply Hskip|lia|lia]. rewrite Hsame, Y0. intros ([= ->] & _). done.
    + cbn [mbind option_bind]. apply IH; [apply Hskip|lia|lia]. rewrite Hsame. intros (_ & _ & H). apply Hr0, Hr. done.
  - apply IH; [|lia|lia]. intros i Hi Ho. destruct (decide (i < j)); [by apply (Hj i)|].
    destruct (decide (i = j)) as [->|]; [apply Hsame in Ho as (_ & B & _); congruence|].
    assert (k = 2 /\ x0 = x1) as [-> ->] by lia. apply Hne. by rewrite (Hnext i) by (done || lia).
Qed.
End Memmem.

(** memmem answers the first place where the needle occurs in the haystack, and NULL
    exactly if there is none, for every needle that is not empty: the places that it
    skips, by the test of the second byte alone, hold no occurrence.  For an empty
    needle it answers NULL. *)
Theorem memmem_first m haystack n needle len :
  haystack + n <= length m -> needle + len <= length m -> 0 < len ->
  exists r,
    memmem m haystack n needle len = Some ((fun i => haystack + i) <$> r) /\
    first_index (fun j => slice m (haystack + j) len = slice m needle len) (n + 1 - len) r.
Proof.
  intros Hh Hn Hlen. unfold memmem. rewrite (proj2 (Nat.eqb_neq len 0)) by lia. rewrite orb_false_r.
  destruct (Nat.ltb_spec n len); cbn [orb].
  { exists None. split; [done|]. intros k Hk. lia. }
  rewrite (proj2 (Nat.eqb_neq n 0)) by lia.
  destruct (Nat.ltb_spec 1 len).
  - destruct (lookup_byte m needle) as (x0 & E0 & _); [lia|].
    destruct (lookup_byte m (needle + 1)) as (x1 & E1 & _); [lia|]. rewrite E0, E1. cbn [mbind option_bind].
    replace (n + 1 - len) with (n - len + 1) by lia.
    destruct (Z.eqb_spec x0 x1); eapply memmem_loop_spec; eauto; lia.
  - assert (len = 1) as -> by lia. destruct (lookup_byte m needle) as (c & E & Hs); [lia|].
    rewrite E. cbn [mbind option_bind]. replace (n + 1 - 1) with n by lia.
    destruct (memchr_spec n m haystack c Hh) as (r & -> & Hr). exists r. split; [done|].
    assert (forall j, j < n -> slice m (haystack + j) 1 = slice m needle 1 <-> m !! (haystack + j) = Some c) as Hiff.
    { intros j Hj. destruct (lookup_byte m (haystack + j)) as (b & -> & ->); [lia|]. rewrite Hs. split; congruence. }
    destruct r as [i|]; cbn in *.
    + destruct Hr as (Hi & Hc & Hlt). split; [done|]. split; [by apply Hiff|]. intros k Hk. rewrite Hiff by lia. by apply Hlt.
    + intros k Hk. rewrite Hiff by lia. by apply Hr.
Qed.

Lemma memmem_first_witness :
  exists r,
    memmem [97;97;98;97;97;97;99;97;97;99]%Z 0 7 7 3 = Some ((fun i => 0 + i) <$> r) /\
    first_index (fun j => slice [97;97;98;97;97;97;99;97;97;99]%Z (0 + j) 3 = [97;97;99]%Z) (7 + 1 - 3) r.
Proof. apply (memmem_first [97;97;98;97;97;97;99;97;97;99]%Z 0 7 7 3); cbn; lia. Defined.

(** *** memset, memrchr, memswap, memccpy *)
Lemma memset_spec m p c n : p + n <= length m -> memset m p c n = Some (blit m p (replicate n (u8 c)), p).
Proof.
  intros H. unfold memset. assert (memset_loop n m p c = Some (blit m p (replicate n (u8 c)))) as ->; [|done].
  revert m p H. induction n as [|n IH]; intros m p H; cbn [memset_loop replicate]; [by rewrite blit_nil|].
  rewrite st_blit by lia. cbn [mbind option_bind]. rewrite IH by (rewrite length_blit; cbn; lia).
  rewrite <- Nat.add_1_r. change 1 with (length [u8 c]). rewrite blit_app; [done|]. rewrite length_replicate. cbn. lia.
Qed.

(** The greatest index below [n] with a property. *)
Definition last_index (P : nat -> Prop) (n : nat) (r : option nat) : Prop :=
  match r with
  | Some i => i < n /\ P i /\ forall k, i < k < n -> ~ P k
  | None => forall k, k < n -> ~ P k
  end.

Lemma memrchr_spec n m s c :
  s + n <= length m ->
  exists r, memrchr n m s c = Some ((fun i => s + i) <$> r) /\ last_index (fun i => m !! (s + i) = Some c) n r.
Proof.
  induction n as [|n IH]; intros H; cbn [memrchr]; [exists None; split; [done|]; cbn; lia|].
  destruct (lookup_byte m (s + n)) as (b & E & _); [lia|]. rewrite E. cbn [mbind option_bind].
  destruct (Z.eqb_spec b c) as [->|Hne].
  - exists (Some n). cbn. repeat split; [lia|done|lia].
  - destruct IH as (r & -> & Hr); [lia|]. exists r. split; [done|]. destruct r as [i|]; cbn in *.
    + destruct Hr as (Hi & Hc & Hk). repeat split; [lia|done|]. intros k Hlt.
      destruct (decide (k = n)) as [->|]; [congruence|]. apply Hk. lia.
    + intros k Hlt. destruct (decide (k = n)) as [->|]; [congruence|]. apply Hr. lia.
Qed.

Lemma lookup_st m p v m' i : st m p v = Some m' -> m' !! i = if i =? p then Some v else m !! i.
Proof.
  unfold st. case_test; [|done]. apply Nat.ltb_lt in E. intros [= <-].
  destruct (Nat.eqb_spec i p) as [->|Hne]; [by apply list_lookup_insert_eq|by apply list_lookup_insert_ne].
Qed.
Lemma length_st m p v m' : st m p v = Some m' -> length m' = length m.
Proof. unfold st. case_test; [|done]. intros [= <-]. apply length_insert. Qed.
Lemma st_ok m p v : p < length m -> exists m', st m p v = Some m'.
Proof. intros H. unfold st. rewrite (proj2 (Nat.ltb_lt _ _)) by done. eauto. Qed.

(** Two blocks that do not overlap are exchanged. *)
Lemma memswap_spec n m p q :
  p + n <= length m -> q + n <= length m -> p + n <= q \/ q + n <= p ->
  exists m', memswap n m p q = Some m' /\
    forall i, m' !! i = if (p <=? i) && (i <? p + n) then m !! (q + (i - p))
                        else if (q <=? i) && (i <? q + n) then m !! (p + (i - q)) else m !! i.
Proof.
  revert m p q. induction n as [|n IH]; intros m p q Hp Hq Hd; cbn [memswap].
  { exists m. split; [done|]. intros i.
    destruct (Nat.leb_spec p i), (Nat.ltb_spec i (p + 0)), (Nat.leb_spec q i), (Nat.ltb_spec i (q + 0)); cbn [andb]; (done || lia). }
  destruct (lookup_byte m p) as (a & Ea & _); [lia|]. destruct (lookup_byte m q) as (b & Eb & _); [lia|].
  rewrite Ea, Eb. cbn [mbind option_bind]. destruct (st_ok m p b) as [m1 E1]; [lia|]. rewrite E1. cbn [mbind option_bind].
  pose proof (length_st _ _ _ _ E1). destruct (st_ok m1 q a) as [m2 E2]; [lia|]. rewrite E2. cbn [mbind option_bind].
  pose proof (length_st _ _ _ _ E2). destruct (IH m2 (S p) (S q)) as (m' & -> & Hm); [lia..|]. exists m'. split; [done|].
  assert (forall i, m2 !! i = if i =? q then Some a else if i =? p then Some b else m !! i) as H2.
  { intros i. by rewrite (lookup_st _ _ _ _ i E2), (lookup_st _ _ _ _ i E1). }
  intros i. rewrite Hm, !H2. clear - Ea Eb Hd.
  destruct (Nat.leb_spec (S p) i), (Nat.ltb_spec i (S p + n)), (Nat.leb_spec (S q) i), (Nat.ltb_spec i (S q + n)),
    (Nat.leb_spec p i), (Nat.ltb_spec i (p + S n)), (Nat.leb_spec q i), (Nat.ltb_spec i (q + S n)); cbn [andb]; try lia;
    repeat match goal with |- context [?u =? ?v] => destruct (Nat.eqb_spec u v); try lia end; subst;
    rewrite ?Nat.sub_diag, ?Nat.add_0_r; first [done | f_equal; lia].
Qed.

(** memccpy copies up to the first [c] and answers the address after its copy, or copies
    all and answers NULL. *)
Lemma memccpy_loop_spec n m q p c ch :
  ch <> c -> p + n <= length m -> q + n <= length m -> q + n <= p \/ p + n <= q ->
  exists r, first_index (fun i => m !! (p + i) = Some c) n r /\
    let k := match r with Some i => S i | None => n end in
    exists ch', memccpy_loop n m q p c ch = Some (blit m q (slice m p k), q + k, n - k, ch') /\ (ch' = c <-> is_Some r).
Proof.
  revert m q p ch. induction n as [|n IH]; intros m q p ch Hch Hp Hq Hd; cbn [memccpy_loop]; rewrite (proj2 (Z.eqb_neq _ _)) by done.
  { exists None. split; [cbn; lia|]. exists ch. unfold slice. cbn [take]. rewrite blit_nil, Nat.add_0_r. split; [done|].
    split; [done|]. by intros [? ?]. }
  destruct (lookup_byte m p) as (b & Eb & Hs); [lia|]. rewrite Eb. cbn [mbind option_bind]. rewrite st_blit by lia. cbn [mbind option_bind].
  destruct (decide (b = c)) as [->|Hne].
  - exists (Some 0). split; [cbn; rewrite Nat.add_0_r; repeat split; [lia|done|lia]|]. cbn zeta iota. exists c. rewrite Hs.
    replace (S n - 1) with n by lia. rewrite Nat.add_1_r.
    destruct n; cbn [memccpy_loop]; rewrite Z.eqb_refl; (split; [done|]); split; eauto.
  - rewrite <- Hs. pose proof (length_blit_slice m q p 1 ltac:(lia) ltac:(lia)) as Hl.
    destruct (IH (blit m q (slice m p 1)) (S q) (S p) b Hne) as (r & Hr & ch' & Em & Hc); [lia..|].
    assert (forall i, blit m q (slice m p 1) !! (S p + i) = m !! (p + S i) \/ n <= i) as Hi.
    { intros i. destruct (decide (n <= i)); [by right|]. left. rewrite lookup_blit by (rewrite length_slice; lia).
      rewrite length_slice by lia. destruct (Nat.leb_spec q (S p + i)), (Nat.ltb_spec (S p + i) (q + 1)); cbn [andb]; try lia; f_equal; lia. }
    exists (S <$> r). split.
    + destruct r as [i|]; cbn in *.
      * destruct Hr as (Hlt & Hc' & Hk). repeat split; [lia|destruct (Hi i); [congruence|lia]|].
        intros [|k] Hk'; [rewrite Nat.add_0_r; congruence|]. destruct (Hi k) as [<-|]; [apply Hk|]; lia.
      * intros [|k] Hk'; [rewrite Nat.add_0_r; congruence|]. destruct (Hi k) as [<-|]; [apply Hr|]; lia.
    + cbn zeta. exists ch'. rewrite Em. split; [|rewrite Hc; destruct r; cbn; split; intros [? ?]; eauto; done].
      set (k := match r with Some i => S i | None => n end). assert (k <= n) as Hk by (destruct r as [i|]; cbn in *; lia).
      replace (match S <$> r with Some i => S i | None => S n end) with (S k) by (by destruct r).
      do 3 f_equal. f_equal; [|lia].
      rewrite <- (Nat.add_1_l k), <- (Nat.add_1_r q), <- (Nat.add_1_r p).
      rewrite slice_cat. pose proof (length_slice m p 1) as L1. pose proof (length_slice m (p + 1) k) as L2.
      replace (slice (blit m q (slice m p 1)) (p + 1) k) with (slice m (p + 1) k).
      * rewrite <- blit_app by lia. by rewrite L1 by lia.
      * symmetry. destruct Hd; [apply slice_blit_after|apply slice_blit_before]; lia.
Qed.

Lemma memccpy_start c : u8 (Z.lnot (u8 c)) <> c.
Proof.
  intros H. pose proof (u8_range (Z.lnot (u8 c))) as Hr. rewrite H in Hr. rewrite (u8_id c Hr) in H.
  unfold u8, is_u8, Z.lnot in *. change (2 ^ 8)%Z with 256%Z in *.
  rewrite <- (Z_mod_plus_full _ 1), Z.mod_small in H by lia. lia.
Qed.

Lemma memccpy_spec m q p c n :
  p + n <= length m -> q + n <= length m -> q + n <= p \/ p + n <= q ->
  exists r, first_index (fun i => m !! (p + i) = Some c) n r /\
    let k := match r with Some i => S i | None => n end in
    memccpy m q p c n = Some (blit m q (slice m p k), (fun i => q + S i) <$> r).
Proof.
  intros Hp Hq Hd. unfold memccpy.
  destruct (memccpy_loop_spec n m q p c _ (memccpy_start c) Hp Hq Hd) as (r & Hr & ch' & -> & Hc).
  exists r. split; [done|]. cbn [mbind option_bind]. destruct r as [i|]; cbn [fmap option_fmap option_map].
  - rewrite (proj2 Hc) by eauto. by rewrite Z.eqb_refl, andb_false_r.
  - rewrite Nat.sub_diag, (proj2 (Z.eqb_neq ch' c)); [done|]. intros H%Hc. by destruct H.
Qed.

(** memchr compares with the int and not with its conversion to unsigned char, so that it
    never finds a negative one. *)
Lemma memchr_negative n m p c : p + n <= length m -> Forall is_u8 m -> (c < 0)%Z -> memchr n m p c = Some None.
Proof.
  intros H Hm Hc. destruct (memchr_spec n m p c H) as ([i|] & -> & Hr); [|done].
  destruct Hr as (_ & Hi & _). pose proof (Forall_lookup_1 _ _ _ _ Hm Hi) as Hb. unfold is_u8 in Hb. lia.
Qed.
