(* ===== verification/CString.v ===== *)
(** * Strings that are read (libc/string: strlen.c, strnlen.c, strchr.c, index.c,
    strrchr.c, strcmp.c, strcoll.c, strncmp.c, strcasecmp.c, strstr.c,
    strcasestr.c, strspn.c, strcspn.c, strpbrk.c)

    Memory and pointers are those of CMem.  A loop that runs to the NUL takes as
    many rounds as memory has bytes, after which it would read outside memory. *)
From S2P Require Import Prelude Ctype CMem.
#[local] Open Scope nat_scope.

(** ** Length and characters *)

(** for (s = str; *s; ++s) *)
Fixpoint strlen_loop (fuel : nat) (m : cmem) (s : nat) : option nat :=
  match fuel with
  | O => None
  | S fuel => c ← m !! s; if (c =? 0)%Z then Some s else strlen_loop fuel m (S s)
  end.
Definition strlen (m : cmem) (str : nat) : option nat := s ← strlen_loop (S (length m)) m str; Some (s - str).

Definition strnlen (m : cmem) (str maxlen : nat) : option nat :=
  p ← memchr maxlen m str 0;
  Some (match p with None => maxlen | Some p => p - str end).

Fixpoint strchr_loop (fuel : nat) (m : cmem) (p : nat) (ch : Z) : option (option nat) :=
  match fuel with
  | O => None
  | S fuel =>
      c ← m !! p;
      if (c =? ch)%Z then Some (Some p)
      else if (c =? 0)%Z then Some None
      else strchr_loop fuel m (S p) ch
  end.
Definition strchr (m : cmem) (p : nat) (ch : Z) : option (option nat) := strchr_loop (S (length m)) m p ch.

(** index.c has the same body. *)
Definition index (m : cmem) (p : nat) (ch : Z) : option (option nat) := strchr_loop (S (length m)) m p ch.

Fixpoint strrchr_loop (fuel : nat) (m : cmem) (p : nat) (ch : Z) (save : option nat) : option (option nat) :=
  match fuel with
  | O => None
  | S fuel =>
      c ← m !! p;
      let save := if (c =? ch)%Z then Some p else save in
      if (c =? 0)%Z then Some save else strrchr_loop fuel m (S p) ch save
  end.
Definition strrchr (m : cmem) (p : nat) (ch : Z) : option (option nat) := strrchr_loop (S (length m)) m p ch None.

(** ** Comparison *)

(** while ( *s1 == *s2++) *)
Fixpoint strcmp_loop (fuel : nat) (m : cmem) (s1 s2 : nat) : option Z :=
  match fuel with
  | O => None
  | S fuel =>
      c1 ← m !! s1; c2 ← m !! s2;
      if (c1 =? c2)%Z then if (c1 =? 0)%Z then Some 0%Z else strcmp_loop fuel m (S s1) (S s2)
      else Some (c1 - c2)%Z
  end.
Definition strcmp (m : cmem) (s1 s2 : nat) : option Z := strcmp_loop (S (length m)) m s1 s2.
Definition strcoll (m : cmem) (s1 s2 : nat) : option Z := strcmp m s1 s2.

Fixpoint strncmp (n : nat) (m : cmem) (s1 s2 : nat) : option Z :=
  match n with
  | O => Some 0%Z
  | S n =>
      c1 ← m !! s1; c2 ← m !! s2;
      if negb (c1 =? c2)%Z then Some (c1 - c2)%Z
      else if (c1 =? 0)%Z then Some 0%Z
      else strncmp n m (S s1) (S s2)
  end.

(** The table of strcasecmp.c. *)
Definition charmap : list Z :=
  [0; 1; 2; 3; 4; 5; 6; 7; 8; 9; 10; 11; 12; 13; 14; 15;
   16; 17; 18; 19; 20; 21; 22; 23; 24; 25; 26; 27; 28; 29; 30; 31;
   32; 33; 34; 35; 36; 37; 38; 39; 40; 41; 42; 43; 44; 45; 46; 47;
   48; 49; 50; 51; 52; 53; 54; 55; 56; 57; 58; 59; 60; 61; 62; 63;
   64; 97; 98; 99; 100; 101; 102; 103; 104; 105; 106; 107; 108; 109; 110; 111;
   112; 113; 114; 115; 116; 117; 118; 119; 120; 121; 122; 91; 92; 93; 94; 95;
   96; 97; 98; 99; 100; 101; 102; 103; 104; 105; 106; 107; 108; 109; 110; 111;
   112; 113; 114; 115; 116; 117; 118; 119; 120; 121; 122; 123; 124; 125; 126; 127;
   128; 129; 130; 131; 132; 133; 134; 135; 136; 137; 138; 139; 140; 141; 142; 143;
   144; 145; 146; 147; 148; 149; 150; 151; 152; 153; 154; 155; 156; 157; 158; 159;
   160; 161; 162; 163; 164; 165; 166; 167; 168; 169; 170; 171; 172; 173; 174; 175;
   176; 177; 178; 179; 180; 181; 182; 183; 184; 185; 186; 187; 188; 189; 190; 191;
   192; 193; 194; 195; 196; 197; 198; 199; 200; 201; 202; 203; 204; 205; 206; 207;
   208; 209; 210; 211; 212; 213; 214; 215; 216; 217; 218; 219; 220; 221; 222; 223;
   224; 225; 226; 227; 228; 229; 230; 231; 232; 233; 234; 235; 236; 237; 238; 239;
   240; 241; 242; 243; 244; 245; 246; 247; 248; 249; 250; 251; 252; 253; 254; 255]%Z.

Definition cm (c : Z) : option Z := charmap !! Z.to_nat c.

Fixpoint strcasecmp_loop (fuel : nat) (m : cmem) (us1 us2 : nat) : option Z :=
  match fuel with
  | O => None
  | S fuel =>
      c1 ← m !! us1; c2 ← m !! us2; l1 ← cm c1; l2 ← cm c2;
      if (l1 =? l2)%Z then if (c1 =? 0)%Z then Some 0%Z else strcasecmp_loop fuel m (S us1) (S us2)
      else Some (l1 - l2)%Z
  end.
Definition strcasecmp (m : cmem) (s1 s2 : nat) : option Z := strcasecmp_loop (S (length m)) m s1 s2.

Fixpoint strncasecmp (n : nat) (m : cmem) (us1 us2 : nat) : option Z :=
  match n with
  | O => Some 0%Z
  | S n =>
      c1 ← m !! us1; c2 ← m !! us2; l1 ← cm c1; l2 ← cm c2;
      if negb (l1 =? l2)%Z then Some (l1 - l2)%Z
      else if (c1 =? 0)%Z then Some 0%Z
      else strncasecmp n m (S us1) (S us2)
  end.

(** ** Substrings *)

(** do { do { if ((sc = *s++) == 0) return (NULL); } while (sc != c); } while (strncmp(s, find, len) != 0) *)
Fixpoint strstr_loop (fuel : nat) (m : cmem) (s find len : nat) (c : Z) : option (option nat) :=
  match fuel with
  | O => None
  | S fuel =>
      sc ← m !! s;
      if (sc =? 0)%Z then Some None
      else if negb (sc =? c)%Z then strstr_loop fuel m (S s) find len c
      else
        r ← strncmp len m (S s) find;
        if negb (r =? 0)%Z then strstr_loop fuel m (S s) find len c else Some (Some s)
  end.
Definition strstr (m : cmem) (s find : nat) : option (option nat) :=
  c ← m !! find;
  if negb (c =? 0)%Z then
    len ← strlen m (S find);
    strstr_loop (S (length m)) m s (S find) len c
  else Some (Some s).

(** The same with (char)tolower((unsigned char)sc) and strncasecmp. *)
Fixpoint strcasestr_loop (fuel : nat) (m : cmem) (s find len : nat) (c : Z) : option (option nat) :=
  match fuel with
  | O => None
  | S fuel =>
      sc ← m !! s;
      if (sc =? 0)%Z then Some None
      else
        lc ← tolower sc;
        if negb (u8 lc =? c)%Z then strcasestr_loop fuel m (S s) find len c
        else
          r ← strncasecmp len m (S s) find;
          if negb (r =? 0)%Z then strcasestr_loop fuel m (S s) find len c else Some (Some s)
  end.
Definition strcasestr (m : cmem) (s find : nat) : option (option nat) :=
  c ← m !! find;
  if negb (c =? 0)%Z then
    lc ← tolower c;
    len ← strlen m (S find);
    strcasestr_loop (S (length m)) m s (S find) len (u8 lc)
  else Some (Some s).

(** ** Spans *)

(** for (spanp = s2; (sc = *spanp++) != 0;) if (sc == c): is [c] a character of the
    string? *)
Fixpoint span_loop (fuel : nat) (m : cmem) (spanp : nat) (c : Z) : option bool :=
  match fuel with
  | O => None
  | S fuel =>
      sc ← m !! spanp;
      if (sc =? 0)%Z then Some false else if (sc =? c)%Z then Some true else span_loop fuel m (S spanp) c
  end.
Definition span (m : cmem) (s2 : nat) (c : Z) : option bool := span_loop (S (length m)) m s2 c.

(** do { if ((sc = *spanp++) == c) ... } while (sc != 0): is [c] one of them or the NUL? *)
Fixpoint brk_loop (fuel : nat) (m : cmem) (spanp : nat) (c : Z) : option bool :=
  match fuel with
  | O => None
  | S fuel =>
      sc ← m !! spanp;
      if (sc =? c)%Z then Some true else if negb (sc =? 0)%Z then brk_loop fuel m (S spanp) c else Some false
  end.
Definition brk (m : cmem) (s2 : nat) (c : Z) : option bool := brk_loop (S (length m)) m s2 c.

Fixpoint strspn_loop (fuel : nat) (m : cmem) (p s2 : nat) : option nat :=
  match fuel with
  | O => None
  | S fuel => c ← m !! p; b ← span m s2 c; if (b : bool) then strspn_loop fuel m (S p) s2 else Some p
  end.
Definition strspn (m : cmem) (s1 s2 : nat) : option nat := p ← strspn_loop (S (length m)) m s1 s2; Some (p - s1).

Fixpoint strcspn_loop (fuel : nat) (m : cmem) (p s2 : nat) : option nat :=
  match fuel with
  | O => None
  | S fuel => c ← m !! p; b ← brk m s2 c; if (b : bool) then Some p else strcspn_loop fuel m (S p) s2
  end.
Definition strcspn (m : cmem) (s1 s2 : nat) : option nat := p ← strcspn_loop (S (length m)) m s1 s2; Some (p - s1).

Fixpoint strpbrk_loop (fuel : nat) (m : cmem) (s1 s2 : nat) : option (option nat) :=
  match fuel with
  | O => None
  | S fuel =>
      c ← m !! s1;
      if (c =? 0)%Z then Some None
      else b ← span m s2 c; if (b : bool) then Some (Some s1) else strpbrk_loop fuel m (S s1) s2
  end.
Definition strpbrk (m : cmem) (s1 s2 : nat) : option (option nat) := strpbrk_loop (S (length m)) m s1 s2.

(** ** Strings in memory *)

Definition is_char (c : Z) : Prop := (0 < c < 256)%Z.

(** The string [s] is at [p], with its NUL. *)
Fixpoint cstr (m : cmem) (p : nat) (s : list Z) : Prop :=
  match s with
  | [] => m !! p = Some 0%Z
  | c :: s => m !! p = Some c /\ is_char c /\ cstr m (S p) s
  end.

Lemma cstr_fits m p s : cstr m p s -> p + length s < length m.
Proof.
  revert p. induction s as [|c s IH]; intros p; cbn.
  - intros H%lookup_lt_Some. lia.
  - intros (_ & _ & H%IH). lia.
Qed.

Lemma cstr_app m p s t : cstr m p (s ++ t) <-> slice m p (length s) = s /\ Forall is_char s /\ cstr m (p + length s) t.
Proof.
  revert p. induction s as [|c s IH]; intros p; cbn [app length cstr].
  - rewrite Nat.add_0_r. unfold slice. cbn. split; [eauto|tauto].
  - rewrite Forall_cons, IH, Nat.add_succ_r. split.
    + intros (E & Hc & Hs & Hf & H). by rewrite (slice_S _ _ _ _ E), Hs.
    + intros (Hs & [Hc Hf] & H). destruct (lookup_byte m p) as (b & E & _); [apply cstr_fits in H; lia|].
      rewrite (slice_S _ _ _ _ E) in Hs. injection Hs as -> Hs. eauto.
Qed.

(** A string is its characters and a NUL. *)
Lemma cstr_slice m p s : cstr m p s <-> slice m p (length s) = s /\ Forall is_char s /\ m !! (p + length s) = Some 0%Z.
Proof. rewrite <- (app_nil_r s) at 1. apply cstr_app. Qed.

Lemma cstr_chars m p s : cstr m p s -> Forall is_char s.
Proof. rewrite cstr_slice. tauto. Qed.

Lemma cstr_lookup m p s i : cstr m p s -> i <= length s -> m !! (p + i) = (s ++ [0%Z]) !! i.
Proof.
  rewrite cstr_slice. intros (Hs & _ & H0) Hi. destruct (decide (i = length s)) as [->|].
  - by rewrite H0, lookup_app_r, Nat.sub_diag by lia.
  - rewrite lookup_app_l by lia. rewrite <- Hs. rewrite lookup_slice. by rewrite (proj2 (Nat.ltb_lt _ _)) by lia.
Qed.

Lemma cstr_frame m m' p s :
  cstr m p s -> (forall i, p <= i <= p + length s -> m' !! i = m !! i) -> cstr m' p s.
Proof.
  revert p. induction s as [|c s IH]; intros p; cbn.
  - intros H Hi. rewrite Hi; [done|lia].
  - intros (E & Hc & H) Hi. rewrite Hi by lia. split; [done|]. split; [done|]. apply IH; [done|]. intros i ?. apply Hi. lia.
Qed.

Lemma strlen_loop_spec fuel m p s : cstr m p s -> length s < fuel -> strlen_loop fuel m p = Some (p + length s).
Proof.
  revert p fuel. induction s as [|c s IH]; intros p [|fuel] H Hf; cbn in *; try lia.
  - rewrite H. cbn. f_equal. lia.
  - destruct H as (-> & Hc & H). cbn. rewrite (proj2 (Z.eqb_neq c 0)) by (unfold is_char in Hc; lia).
    rewrite IH by (done || lia). f_equal. lia.
Qed.
Lemma strlen_spec m p s : cstr m p s -> strlen m p = Some (length s).
Proof.
  intros H. unfold strlen. pose proof (cstr_fits _ _ _ H) as Hf. rewrite (strlen_loop_spec _ _ _ _ H) by lia.
  cbn. f_equal. lia.
Qed.

Lemma first_index_S (P : nat -> Prop) n r :
  ~ P 0 -> first_index (fun i => P (S i)) n r -> first_index P (S n) (S <$> r).
Proof.
  intros H0. destruct r as [i|]; cbn.
  - intros (Hi & HP & Hk). repeat split; [lia|done|]. intros [|k] ?; [done|]. apply Hk. lia.
  - intros Hk [|k] ?; [done|]. apply Hk. lia.
Qed.

Lemma first_index_ext (P Q : nat -> Prop) n r : (forall i, P i <-> Q i) -> first_index P n r -> first_index Q n r.
Proof. intros H. destruct r; cbn; [|by setoid_rewrite H]. setoid_rewrite H. done. Qed.

Lemma shift_S p (r : option nat) : (fun i => S p + i) <$> r = (fun i => p + i) <$> (S <$> r).
Proof. destruct r; cbn; [f_equal; lia|done]. Qed.

Lemma strchr_spec m p s ch :
  cstr m p s ->
  exists r, strchr m p ch = Some ((fun i => p + i) <$> r) /\
    first_index (fun i => (s ++ [0%Z]) !! i = Some ch) (S (length s)) r.
Proof.
  intros H. unfold strchr. pose proof (cstr_fits _ _ _ H) as Hf. assert (length s < S (length m)) as Hf' by lia. clear Hf.
  revert Hf'. generalize (S (length m)) as fuel. intros fuel.
  revert p fuel H. induction s as [|c s IH]; intros p [|fuel] H Hf; cbn in Hf; try lia; cbn in H; cbn [strchr_loop].
  - rewrite H. cbn [mbind option_bind]. destruct (Z.eqb_spec 0 ch) as [<-|Hne].
    + exists (Some 0). cbn. repeat split; [do 2 f_equal; lia|lia|lia].
    + exists None. split; [done|]. intros [|[|k]] ?; cbn; congruence.
  - destruct H as (-> & Hc & H). cbn [mbind option_bind]. destruct (Z.eqb_spec c ch) as [<-|Hne].
    + exists (Some 0). cbn. repeat split; [do 2 f_equal; lia|lia|lia].
    + rewrite (proj2 (Z.eqb_neq c 0)) by (unfold is_char in Hc; lia).
      destruct (IH (S p) fuel H ltac:(lia)) as (r & -> & Hr). exists (S <$> r). rewrite shift_S. split; [done|].
      apply first_index_S; [cbn; congruence|exact Hr].
Qed.

Lemma strrchr_spec m p s ch :
  cstr m p s ->
  exists r, strrchr m p ch = Some ((fun i => p + i) <$> r) /\
    last_index (fun i => (s ++ [0%Z]) !! i = Some ch) (S (length s)) r.
Proof.
  intros H. unfold strrchr. pose proof (cstr_fits _ _ _ H) as Hf. assert (length s < S (length m)) as Hf' by lia. clear Hf.
  assert (forall fuel save, length s < fuel ->
    exists r, strrchr_loop fuel m p ch save = Some (match r with Some i => Some (p + i) | None => save end) /\
      last_index (fun i => (s ++ [0%Z]) !! i = Some ch) (S (length s)) r) as Hl.
  - clear Hf'. revert p H. induction s as [|c s IH]; intros p H [|fuel] save Hf; cbn in Hf; try lia; cbn in H; cbn [strrchr_loop].
    + rewrite H. cbn [mbind option_bind]. destruct (Z.eqb_spec 0 ch) as [<-|Hne].
      * exists (Some 0). cbn. repeat split; [do 2 f_equal; lia|lia|lia].
      * exists None. split; [done|]. intros [|[|k]] ?; cbn; congruence.
    + destruct H as (-> & Hc & H). cbn [mbind option_bind]. rewrite (proj2 (Z.eqb_neq c 0)) by (unfold is_char in Hc; lia).
      destruct (IH (S p) H fuel (if (c =? ch)%Z then Some p else save) ltac:(lia)) as ([i|] & -> & Hr).
      * exists (Some (S i)). destruct Hr as (Hi & Hch & Hk). split; [do 2 f_equal; lia|]. cbn. repeat split; [lia|done|].
        intros [|k] ?; [lia|]. apply Hk. lia.
      * destruct (Z.eqb_spec c ch) as [->|Hne].
        -- exists (Some 0). split; [do 2 f_equal; lia|]. cbn. repeat split; [lia|]. intros [|k] ?; [lia|]. apply Hr. lia.
        -- exists None. split; [done|]. intros [|k] Hk; cbn in *; [congruence|]. apply Hr. lia.
  - destruct (Hl _ None Hf') as (r & -> & Hr). exists r. split; [by destruct r|done].
Qed.

(** ** Order *)

Lemma cm_lower c : is_u8 c -> cm c = Some (lower c).
Proof.
  intros Hc. apply (all_bytes_spec (fun c => bool_decide (cm c = Some (lower c)))) in Hc; [|by vm_compute].
  by apply bool_decide_eq_true in Hc.
Qed.
Lemma is_char_u8 c : is_char c -> is_u8 c.
Proof. unfold is_char, is_u8. lia. Qed.
Lemma lower_char c : is_char c -> is_char (lower c).
Proof. unfold is_char, lower. intros. case_test; zbool; lia. Qed.
Lemma lower_0 : lower 0 = 0%Z.
Proof. done. Qed.

Lemma lexcmp_take n s t : length s < n -> lexcmp (take n s) (take n t) = lexcmp s t.
Proof.
  revert s t. induction n as [|n IH]; intros [|x s] [|y t] H; cbn in *; try done; try lia.
  rewrite IH by lia. done.
Qed.

(** The four loops have the same round, once the characters are mapped by [f]; the loop
    on [k] characters, or on fuel [k], starts at [p] and [q]. *)
Section Order.
Context (m : cmem) (f : Z -> Z) (loop : nat -> nat -> nat -> option Z).
Hypothesis f_char : forall c, is_char c -> is_char (f c).
Hypothesis f_0 : f 0 = 0%Z.
Hypothesis loop_S : forall k p q c1 c2, m !! p = Some c1 -> m !! q = Some c2 -> is_u8 c1 -> is_u8 c2 ->
  loop (S k) p q = if negb (f c1 =? f c2)%Z then Some (f c1 - f c2)%Z
                   else if (c1 =? 0)%Z then Some 0%Z else loop k (S p) (S q).

Lemma loop_order k p q s t :
  (forall p q, loop 0 p q = Some 0%Z) \/ length s < k -> cstr m p s -> cstr m q t ->
  exists d, loop k p q = Some d /\ (d ?= 0)%Z = lexcmp (take k (f <$> s)) (take k (f <$> t)).
Proof using All.
  assert (is_u8 0) as H0 by (unfold is_u8; lia).
  revert p q s t. induction k as [|k IH]; intros p q s t Hk Hs Ht.
  { exists 0%Z. cbn. destruct Hk; [auto|lia]. }
  destruct s as [|x s], t as [|y t]; cbn in Hs, Ht; destruct_and?.
  - exists 0%Z. by erewrite loop_S, Z.eqb_refl by eauto.
  - pose proof (f_char y ltac:(done)) as Hy. unfold is_char in Hy. exists (0 - f y)%Z.
    erewrite loop_S by eauto using is_char_u8. rewrite f_0, (proj2 (Z.eqb_neq _ _)) by lia.
    split; [done|]. cbn [fmap list_fmap take lexcmp]. apply Z.compare_lt_iff. lia.
  - pose proof (f_char x ltac:(done)) as Hx. unfold is_char in Hx. exists (f x - 0)%Z.
    erewrite loop_S by eauto using is_char_u8. rewrite f_0, (proj2 (Z.eqb_neq _ _)) by lia.
    split; [done|]. cbn [fmap list_fmap take lexcmp]. apply Z.compare_gt_iff. lia.
  - erewrite loop_S by eauto using is_char_u8. cbn [fmap list_fmap take lexcmp]. rewrite Z.compare_sub.
    destruct (Z.eqb_spec (f x) (f y)) as [->|Hne]; cbn [negb].
    + rewrite Z.sub_diag, (proj2 (Z.eqb_neq x 0)) by (unfold is_char in *; lia). cbn [Z.compare].
      apply IH; [|done..]. destruct Hk; [auto|cbn in *; lia].
    + exists (f x - f y)%Z. split; [done|]. destruct (Z.compare_spec (f x - f y) 0); [lia|done|done].
Qed.
End Order.

Lemma strncmp_order n m p q s t :
  cstr m p s -> cstr m q t -> exists d, strncmp n m p q = Some d /\ (d ?= 0)%Z = lexcmp (take n s) (take n t).
Proof.
  intros Hs Ht. pose proof (loop_order m id (fun k => strncmp k m)) as L. setoid_rewrite list_fmap_id in L.
  apply L; auto. intros k ? ? ? ? E1 E2 _ _. cbn. by rewrite E1, E2.
Qed.
Lemma strncasecmp_order n m p q s t :
  cstr m p s -> cstr m q t ->
  exists d, strncasecmp n m p q = Some d /\ (d ?= 0)%Z = lexcmp (take n (lower <$> s)) (take n (lower <$> t)).
Proof.
  intros Hs Ht. apply (loop_order m lower (fun k => strncasecmp k m)); auto using lower_char.
  intros k ? ? ? ? E1 E2 ? ?. cbn. rewrite E1, E2. cbn. by rewrite !cm_lower by done.
Qed.

(** strcmp, strcoll, strncmp, strcasecmp and strncasecmp order two strings as the lists
    of their unsigned characters are ordered, whole or by their first [n] characters,
    as they are or in lower case.  None of them reads past the NUL of either. *)
Theorem string_order m p q s t :
  cstr m p s -> cstr m q t ->
  (exists d, strcmp m p q = Some d /\ (d ?= 0)%Z = lexcmp s t) /\ strcoll m p q = strcmp m p q /\
  (forall n, exists d, strncmp n m p q = Some d /\ (d ?= 0)%Z = lexcmp (take n s) (take n t)) /\
  (exists d, strcasecmp m p q = Some d /\ (d ?= 0)%Z = lexcmp (lower <$> s) (lower <$> t)) /\
  (forall n, exists d, strncasecmp n m p q = Some d /\ (d ?= 0)%Z = lexcmp (take n (lower <$> s)) (take n (lower <$> t))).
Proof.
  intros Hs Ht. pose proof (cstr_fits _ _ _ Hs) as Hf. assert (length s < S (length m)) as Hf' by lia.
  repeat split.
  - pose proof (loop_order m id (fun k => strcmp_loop k m)) as L. setoid_rewrite list_fmap_id in L.
    rewrite <- (lexcmp_take _ _ _ Hf'). apply L; auto. intros k ? ? ? ? E1 E2 _ _. cbn. rewrite E1, E2. cbn. by repeat case_test.
  - intros n. by apply strncmp_order.
  - assert (length (lower <$> s) < S (length m)) as Hl by (by rewrite length_fmap). rewrite <- (lexcmp_take _ _ _ Hl).
    apply (loop_order m lower (fun k => strcasecmp_loop k m)); auto using lower_char.
    intros k ? ? ? ? E1 E2 ? ?. cbn. rewrite E1, E2. cbn. rewrite !cm_lower by done. cbn. by repeat case_test.
  - intros n. by apply strncasecmp_order.
Qed.

Lemma string_order_witness :
  exists d, strcmp [97; 66; 0; 97; 200; 0]%Z 0 3 = Some d /\ (d ?= 0)%Z = Lt.
Proof.
  refine (proj1 (string_order [97; 66; 0; 97; 200; 0]%Z 0 3 [97; 66]%Z [97; 200]%Z _ _)); cbn; unfold is_char; repeat split; lia.
Defined.

(** ** Substrings *)

(** strstr and strcasestr have the same loop, which looks for [c] followed by [t]. *)
Section Substring.
Context (m : cmem) (f : Z -> Z) (loop : nat -> nat -> option (option nat)) (ncmp : nat -> option Z) (c : Z) (t : list Z).
Hypothesis ncmp_ok : forall p s, cstr m p s -> exists d, ncmp p = Some d /\ (d = 0%Z <-> take (length t) (f <$> s) = f <$> t).
Hypothesis loop_S : forall k p sc, m !! p = Some sc -> is_u8 sc ->
  loop (S k) p = if (sc =? 0)%Z then Some None
                 else if negb (f sc =? f c)%Z then loop k (S p)
                 else r ← ncmp (S p); if negb (r =? 0)%Z then loop k (S p) else Some (Some p).

Definition occurs (s : list Z) (j : nat) : Prop := take (S (length t)) (drop j (f <$> s)) = f <$> (c :: t).

Lemma loop_first k p s :
  cstr m p s -> length s < k ->
  exists r, loop k p = Some ((fun i => p + i) <$> r) /\ first_index (occurs s) (S (length s)) r.
Proof using All.
  revert p s. induction k as [|k IH]; intros p s H Hk; [lia|]. destruct s as [|x s].
  - cbn in H. rewrite (loop_S k p 0 H) by (unfold is_u8; lia). exists None. split; [done|].
    intros j _ Ho. unfold occurs in Ho. cbn [fmap list_fmap] in Ho. rewrite drop_nil in Ho. done.
  - destruct H as (E & Hx & H). rewrite (loop_S k p x E (is_char_u8 _ Hx)), (proj2 (Z.eqb_neq x 0)) by (unfold is_char in Hx; lia).
    cbn in Hk. destruct (IH (S p) s H ltac:(lia)) as (r & Er & Hr).
    assert (~ occurs (x :: s) 0 -> exists r', loop k (S p) = Some ((fun i => p + i) <$> r') /\
      first_index (occurs (x :: s)) (S (length (x :: s))) r') as Hnext.
    { intros Hno. exists (S <$> r). rewrite Er, shift_S. split; [done|]. by apply first_index_S. }
    destruct (Z.eqb_spec (f x) (f c)) as [Hxc|Hxc]; cbn [negb].
    + destruct (ncmp_ok (S p) s H) as (d & -> & Hd). cbn [mbind option_bind].
      destruct (Z.eqb_spec d 0) as [Hd0|Hd0]; cbn [negb].
      * exists (Some 0). cbn. rewrite Nat.add_0_r. split; [done|]. split; [lia|]. split; [|lia].
        unfold occurs. cbn. rewrite Hxc. f_equal. by apply Hd.
      * apply Hnext. unfold occurs. cbn. intros [= _ Ho]. by apply Hd0, Hd.
    + apply Hnext. unfold occurs. cbn. congruence.
Qed.
End Substring.

Lemma cmp_zero (d : Z) a b : (d ?= 0)%Z = lexcmp a b -> d = 0%Z <-> a = b.
Proof. intros H. rewrite <- lexcmp_eq, <- H. symmetry. apply Z.compare_eq_iff. Qed.

(** strstr answers the first place where its second argument occurs in the first, and
    NULL exactly if there is none; strcasestr does the same for the two strings in
    lower case.  An empty string occurs at the start. *)
Theorem strstr_first m p q s t :
  cstr m p s -> cstr m q t ->
  (exists r, strstr m p q = Some ((fun i => p + i) <$> r) /\
    first_index (fun j => take (length t) (drop j s) = t) (S (length s)) r) /\
  (exists r, strcasestr m p q = Some ((fun i => p + i) <$> r) /\
    first_index (fun j => take (length t) (drop j (lower <$> s)) = lower <$> t) (S (length s)) r).
Proof.
  intros Hs Ht. pose proof (cstr_fits _ _ _ Hs) as Hf. unfold strstr, strcasestr. destruct t as [|c t].
  { cbn in Ht. rewrite Ht. cbn [mbind option_bind Z.eqb negb]. split; (exists (Some 0); cbn; rewrite Nat.add_0_r; repeat split; lia). }
  destruct Ht as (E & Hc & Ht). rewrite E. cbn [mbind option_bind]. rewrite (proj2 (Z.eqb_neq c 0)) by (unfold is_char in Hc; lia).
  cbn [negb]. pose proof (is_char_u8 _ Hc) as Hc8. rewrite tolower_spec, (strlen_spec _ _ _ Ht) by done. cbn [mbind option_bind].
  split.
  - destruct (loop_first m id (fun k p => strstr_loop k m p (S q) (length t) c)
      (fun p => strncmp (length t) m p (S q)) c t) with (k := S (length m)) (p := p) (s := s) as (r & Er & Hr); [|..|done|lia|].
    + intros p' s' H'. destruct (strncmp_order (length t) m p' (S q) s' t H' Ht) as (d & Ed & Hd). exists d. split; [done|].
      rewrite !list_fmap_id. rewrite (take_ge t) in Hd by done. by apply cmp_zero.
    + intros k p' sc E' _. cbn. by rewrite E'.
    + exists r. split; [done|]. revert Hr. apply first_index_ext. intros j. unfold occurs. by rewrite !list_fmap_id.
  - pose proof (u8_id _ (is_char_u8 _ (lower_char c Hc))) as Hl. rewrite Hl.
    apply (loop_first m lower (fun k p => strcasestr_loop k m p (S q) (length t) (lower c))
      (fun p => strncasecmp (length t) m p (S q))); [|..|done|lia].
    + intros p' s' H'. destruct (strncasecmp_order (length t) m p' (S q) s' t H' Ht) as (d & Ed & Hd). exists d. split; [done|].
      rewrite (take_ge (lower <$> t)) in Hd by (by rewrite length_fmap). by apply cmp_zero.
    + intros k p' sc E' H8. cbn. rewrite E'. cbn. destruct (Z.eqb_spec sc 0) as [->|Hne]; [done|]. rewrite tolower_spec by done. cbn.
      rewrite (u8_id (lower sc)); [done|]. apply is_char_u8, lower_char. unfold is_char, is_u8 in *. lia.
Qed.

Lemma strstr_first_witness :
  exists r, strcasestr [120; 65; 66; 97; 98; 67; 0; 97; 66; 99; 0]%Z 0 7 = Some ((fun i => 0 + i) <$> r) /\
    first_index (fun j => take 3 (drop j [120; 97; 98; 97; 98; 99]%Z) = [97; 98; 99]%Z) 7 r.
Proof.
  refine (proj2 (strstr_first [120; 65; 66; 97; 98; 67; 0; 97; 66; 99; 0]%Z 0 7 [120; 65; 66; 97; 98; 67]%Z [97; 66; 99]%Z _ _));
    cbn; unfold is_char; repeat split; lia.
Defined.

(** ** Spans *)
Definition among (t : list Z) (c : Z) : bool := bool_decide (c ∈ t).

Lemma among_cons x t c : among (x :: t) c = (x =? c)%Z || among t c.
Proof.
  unfold among. destruct (Z.eqb_spec x c) as [->|Hne]; cbn.
  - apply bool_decide_eq_true. by left.
  - apply bool_decide_ext. rewrite elem_of_cons. split; [intros [?|?]; [congruence|done]|auto].
Qed.

Lemma span_spec m q t c : cstr m q t -> span m q c = Some (among t c).
Proof.
  intros H. unfold span. pose proof (cstr_fits _ _ _ H) as Hf. assert (length t < S (length m)) as Hf' by lia. clear Hf.
  revert Hf'. generalize (S (length m)) as k. revert q H. induction t as [|x t IH]; intros q H [|k] Hk; cbn in Hk; try lia; cbn in H |- *.
  - by rewrite H.
  - destruct H as (-> & Hx & H). cbn. rewrite (proj2 (Z.eqb_neq x 0)) by (unfold is_char in Hx; lia).
    rewrite among_cons. destruct (x =? c)%Z; [done|]. apply IH; [done|lia].
Qed.

Lemma brk_spec m q t c : cstr m q t -> brk m q c = Some (among t c || (c =? 0)%Z).
Proof.
  intros H. unfold brk. pose proof (cstr_fits _ _ _ H) as Hf. assert (length t < S (length m)) as Hf' by lia. clear Hf.
  revert Hf'. generalize (S (length m)) as k. revert q H. induction t as [|x t IH]; intros q H [|k] Hk; cbn in Hk; try lia; cbn in H; cbn [brk_loop].
  - rewrite H. cbn [mbind option_bind]. rewrite (Z.eqb_sym 0 c). by destruct (c =? 0)%Z.
  - destruct H as (-> & Hx & H). cbn [mbind option_bind]. rewrite among_cons. destruct (x =? c)%Z; [done|].
    rewrite (proj2 (Z.eqb_neq x 0)) by (unfold is_char in Hx; lia). apply IH; [done|lia].
Qed.

Lemma not_among_0 m q t : cstr m q t -> among t 0 = false.
Proof.
  intros H%cstr_chars. apply bool_decide_eq_false. intros H0. rewrite Forall_forall in H. specialize (H _ H0).
  unfold is_char in H. lia.
Qed.

(** The number of characters before the first that does not satisfy [f]. *)
Fixpoint count_while (f : Z -> bool) (s : list Z) : nat :=
  match s with [] => 0 | c :: s => if f c then S (count_while f s) else 0 end.

Lemma strspn_loop_spec fuel m p q s t :
  cstr m p s -> cstr m q t -> length s < fuel -> strspn_loop fuel m p q = Some (p + count_while (among t) s).
Proof.
  intros Hs Ht. revert p s Hs. induction fuel as [|fuel IH]; intros p s Hs Hf; [lia|]. cbn [strspn_loop].
  destruct s as [|c s]; cbn in Hs, Hf; destruct_and?; simplify_option_eq; rewrite (span_spec _ _ _ _ Ht); cbn [mbind option_bind count_while].
  - rewrite (not_among_0 _ _ _ Ht). f_equal. lia.
  - destruct (among t c); [|f_equal; lia]. rewrite (IH (S p) s) by (done || lia). f_equal. lia.
Qed.

Lemma strcspn_loop_spec fuel m p q s t :
  cstr m p s -> cstr m q t -> length s < fuel -> strcspn_loop fuel m p q = Some (p + count_while (fun c => negb (among t c)) s).
Proof.
  intros Hs Ht. revert p s Hs. induction fuel as [|fuel IH]; intros p s Hs Hf; [lia|]. cbn [strcspn_loop].
  destruct s as [|c s]; cbn in Hs, Hf; destruct_and?; simplify_option_eq; rewrite (brk_spec _ _ _ _ Ht); cbn [mbind option_bind count_while].
  - rewrite orb_true_r. f_equal. lia.
  - rewrite (proj2 (Z.eqb_neq c 0)) by (unfold is_char in *; lia). rewrite orb_false_r.
    destruct (among t c); cbn [negb]; [f_equal; lia|]. rewrite (IH (S p) s) by (done || lia). f_equal. lia.
Qed.

Lemma strpbrk_loop_spec fuel m p q s t :
  cstr m p s -> cstr m q t -> length s < fuel ->
  strpbrk_loop fuel m p q =
    let k := count_while (fun c => negb (among t c)) s in Some (if k <? length s then Some (p + k) else None).
Proof.
  intros Hs Ht. revert p s Hs. induction fuel as [|fuel IH]; intros p s Hs Hf; [lia|]. cbn [strpbrk_loop].
  destruct s as [|c s]; cbn in Hs, Hf; destruct_and?; simplify_option_eq; [done|].
  rewrite (span_spec _ _ _ _ Ht), (proj2 (Z.eqb_neq c 0)) by (unfold is_char in *; lia). cbn [mbind option_bind count_while length].
  destruct (among t c); cbn [negb]; [cbn; do 2 f_equal; lia|]. rewrite (IH (S p) s) by (done || lia).
  set (k := count_while _ _). cbn zeta. change (S k <? S (length s)) with (k <? length s). case_test; [|done]. do 2 f_equal. lia.
Qed.

(** The spans of a string and the first of a set of characters. *)
Lemma spans_spec m p q s t :
  cstr m p s -> cstr m q t ->
  strspn m p q = Some (count_while (among t) s) /\
  strcspn m p q = Some (count_while (fun c => negb (among t c)) s) /\
  strpbrk m p q = (n ← strcspn m p q; Some (if n <? length s then Some (p + n) else None)).
Proof.
  intros Hs Ht. pose proof (cstr_fits _ _ _ Hs) as Hf. unfold strspn, strcspn, strpbrk.
  rewrite (strspn_loop_spec _ _ _ _ _ _ Hs Ht), (strcspn_loop_spec _ _ _ _ _ _ Hs Ht), (strpbrk_loop_spec _ _ _ _ _ _ Hs Ht) by lia.
  cbn [mbind option_bind]. rewrite !(Nat.add_comm p), !Nat.add_sub. done.
Qed.
