(* ===== verification/CStrCopy.v ===== *)
(** * Strings that are written (libc/string: strcpy.c, strcat.c, strncpy.c,
    strncat.c, strlcpy.c, strlcat.c, strdup.c, strndup.c, strxfrm.c,
    strtotimeval.c)

    Each function answers the memory after the call and its result.  malloc is not
    modelled: its result is an argument of strdup and strndup. *)
From S2P Require Import Prelude Ctype Strtol CMem CString.
#[local] Open Scope nat_scope.

(** ** Copying *)

(** for (; ( *to = *from) != 0; ++from, ++to) *)
Fixpoint strcpy_loop (fuel : nat) (m : cmem) (to from : nat) : option cmem :=
  match fuel with
  | O => None
  | S fuel => c ← m !! from; m ← st m to c; if (c =? 0)%Z then Some m else strcpy_loop fuel m (S to) (S from)
  end.
Definition strcpy (m : cmem) (to from : nat) : option (cmem * nat) :=
  m ← strcpy_loop (S (length m)) m to from; Some (m, to).

(** The loop over *append is that of strcpy. *)
Definition strcat (m : cmem) (s append : nat) : option (cmem * nat) :=
  let save := s in
  s ← strlen_loop (S (length m)) m s;
  m ← strcpy_loop (S (length m)) m s append;
  Some (m, save).

(** do { ... } while (--n != 0); the inner loop sets the rest to 0. *)
Fixpoint strncpy_loop (n : nat) (m : cmem) (d s : nat) : option cmem :=
  match n with
  | O => Some m
  | S n =>
      c ← m !! s; m ← st m d c;
      if (c =? 0)%Z then memset_loop n m (S d) 0 else strncpy_loop n m (S d) (S s)
  end.
Definition strncpy (m : cmem) (dst src n : nat) : option (cmem * nat) :=
  m ← (if negb (n =? 0) then strncpy_loop n m dst src else Some m); Some (m, dst).

(** do { ... } while (--n != 0): answers memory and d. *)
Fixpoint strncat_loop (n : nat) (m : cmem) (d s : nat) : option (cmem * nat) :=
  match n with
  | O => Some (m, d)
  | S n => c ← m !! s; m ← st m d c; if (c =? 0)%Z then Some (m, d) else strncat_loop n m (S d) (S s)
  end.
Definition strncat (m : cmem) (dst src n : nat) : option (cmem * nat) :=
  if negb (n =? 0) then
    d ← strlen_loop (S (length m)) m dst;
    '(m, d) ← strncat_loop n m d src;
    m ← st m d 0;
    Some (m, dst)
  else Some (m, dst).

(** while (--n != 0), where [n] is the value after the decrement: memory, d, s and n. *)
Fixpoint strlcpy_loop (n : nat) (m : cmem) (d s : nat) : option (cmem * nat * nat * nat) :=
  match n with
  | O => Some (m, d, s, O)
  | S n' => c ← m !! s; m ← st m d c; if (c =? 0)%Z then Some (m, S d, S s, n) else strlcpy_loop n' m (S d) (S s)
  end.
Definition strlcpy (m : cmem) (dst src siz : nat) : option (cmem * nat) :=
  '(m, d, s, n) ← (if negb (siz =? 0) then strlcpy_loop (siz - 1) m dst src else Some (m, dst, src, siz));
  if n =? 0 then
    m ← (if negb (siz =? 0) then st m d 0 else Some m);
    s ← strlen_loop (S (length m)) m s;
    Some (m, S s - src - 1)
  else Some (m, s - src - 1).

(** while (n-- != 0 && *d != 0) d++; *)
Fixpoint find_end (n : nat) (m : cmem) (d : nat) : option nat :=
  match n with
  | O => Some d
  | S n => c ← m !! d; if negb (c =? 0)%Z then find_end n m (S d) else Some d
  end.

(** while ( *s != 0): answers memory, d and s. *)
Fixpoint strlcat_loop (fuel : nat) (m : cmem) (d s n : nat) : option (cmem * nat * nat) :=
  match fuel with
  | O => None
  | S fuel =>
      c ← m !! s;
      if negb (c =? 0)%Z then
        if negb (n =? 1) then m ← st m d c; strlcat_loop fuel m (S d) (S s) (n - 1)
        else strlcat_loop fuel m d (S s) n
      else Some (m, d, s)
  end.
Definition strlcat (m : cmem) (dst src siz : nat) : option (cmem * nat) :=
  d ← find_end siz m dst;
  let dlen := d - dst in
  let n := siz - dlen in
  if n =? 0 then l ← strlen m src; Some (m, dlen + l)
  else
    '(m, d, s) ← strlcat_loop (S (length m)) m d src n;
    m ← st m d 0;
    Some (m, dlen + (s - src)).

(** ** Copies in new memory *)

(** [copy] is the result of malloc(siz). *)
Definition strdup (m : cmem) (str : nat) (copy : option nat) : option (cmem * option nat) :=
  l ← strlen m str;
  let siz := l + 1 in
  match copy with
  | None => Some (m, None)
  | Some copy => '(m, _) ← memcpy m copy str siz; Some (m, Some copy)
  end.

(** [copy] is the result of malloc(n + 1). *)
Definition strndup (m : cmem) (s n : nat) (copy : option nat) : option (cmem * option nat) :=
  slen ← strlen m s;
  let n := if slen <? n then slen else n in
  match copy with
  | None => Some (m, None)
  | Some copy => '(m, _) ← memcpy m copy s n; m ← st m (copy + n) 0; Some (m, Some copy)
  end.

Definition strxfrm (m : cmem) (s1 s2 n : nat) : option (cmem * nat) :=
  l ← strlen m s2;
  let len := l + 1 in
  let n := if len <? n then len else n in
  '(m, _) ← memcpy m s1 s2 n;
  Some (m, len).

(** ** strtotimeval *)

(** while ( *s && isdigit( *s)): answers s, fs and count. *)
Fixpoint frac_loop (fuel : nat) (m : cmem) (s : nat) (fs count : Z) : option (nat * Z * Z) :=
  match fuel with
  | O => None
  | S fuel =>
      c ← m !! s;
      if negb (c =? 0)%Z && isdigit c then
        let count := (count + 1)%Z in
        let fs := (if count <? 7 then fs * 10 + (c - 0x30) else fs)%Z in
        frac_loop fuel m (S s) fs count
      else Some (s, fs, count)
  end.
(** for ( ; count < 6; count++ ) fs *= 10; *)
Fixpoint frac_scale (rounds : nat) (fs count : Z) : Z :=
  match rounds with
  | O => fs
  | S k => if (count <? 6)%Z then frac_scale k (fs * 10)%Z (count + 1)%Z else fs
  end.

(** Answers tv_sec, tv_usec, the result and errno. *)
Definition strtotimeval (m : cmem) (str : nat) (errno : Z) : option (Z * Z * nat * Z) :=
  '(n, off, errno) ← strtoumax (drop str m) 10 errno;
  let tv_sec := s32 n in
  let s := str + Z.to_nat off in
  c ← m !! s;
  if (c =? 0x2e)%Z then
    '(s, fs, count) ← frac_loop (S (length m)) m s 0 0;
    Some (tv_sec, frac_scale 6 fs count, s, errno)
  else Some (tv_sec, 0%Z, s, errno).

(** The loop for the fraction starts at the point, which is no digit, so that the
    fraction is never read: tv_usec is 0 and the result points to the point. *)
Lemma strtotimeval_no_fraction m str errno sec usec s e :
  strtotimeval m str errno = Some (sec, usec, s, e) ->
  usec = 0%Z /\ exists n off, strtoumax (drop str m) 10 errno = Some (n, off, e) /\ s = str + Z.to_nat off.
Proof.
  unfold strtotimeval. destruct (strtoumax (drop str m) 10 errno) as [[[n off] e']|]; [|done]. cbn [mbind option_bind].
  destruct (m !! (str + Z.to_nat off)) as [c|] eqn:E; [|done]. cbn [mbind option_bind].
  destruct (Z.eqb_spec c 0x2e) as [->|Hne].
  - cbn [frac_loop]. rewrite E. cbn. intros [= <- <- <- <-]. eauto.
  - intros [= <- <- <- <-]. eauto.
Qed.

(** ** What is written

    The [n] bytes at [d] that are written and the string [s] at [q] do not overlap. *)
Definition sep (d n q : nat) (s : list Z) : Prop := d + n <= q \/ q + length s < d.

Lemma blit_cons m d c xs : d + S (length xs) <= length m -> blit (blit m d [c]) (S d) xs = blit m d (c :: xs).
Proof. intros H. rewrite <- (Nat.add_1_r d). change 1 with (length [c]). rewrite blit_app; [done|cbn; lia]. Qed.

Lemma cstr_blit m d xs q s : cstr m q s -> d + length xs <= length m -> sep d (length xs) q s -> cstr (blit m d xs) q s.
Proof.
  intros H Hd Hs. eapply cstr_frame; [exact H|]. intros i Hi. rewrite lookup_blit by done. unfold sep in Hs.
  destruct (Nat.leb_spec d i), (Nat.ltb_spec i (d + length xs)); cbn [andb]; (done || lia).
Qed.

(** A written string is there. *)
Lemma cstr_written m d s : Forall is_char s -> d + S (length s) <= length m -> cstr (blit m d (s ++ [0%Z])) d s.
Proof.
  intros Hc Hd. assert (length (s ++ [0%Z]) = S (length s)) as Hl by (rewrite length_app; cbn; lia).
  apply cstr_slice. split; [|split; [done|]].
  - apply list_eq. intros i. rewrite lookup_slice, lookup_blit by lia. destruct (Nat.ltb_spec i (length s)).
    + rewrite (proj2 (Nat.leb_le _ _)), (proj2 (Nat.ltb_lt _ _)) by lia. cbn [andb].
      rewrite lookup_app_l by lia. f_equal. lia.
    + symmetry. apply lookup_ge_None. lia.
  - rewrite lookup_blit by lia. rewrite (proj2 (Nat.leb_le _ _)), (proj2 (Nat.ltb_lt _ _)) by lia. cbn [andb].
    rewrite lookup_app_r by lia. by replace (d + length s - d - length s) with 0 by lia.
Qed.

(** One round of a copying loop. *)
Lemma copy_round m d n q c s :
  cstr m q (c :: s) -> sep d (S n) q (c :: s) -> d + S n <= length m ->
  st m d c = Some (blit m d [c]) /\ cstr (blit m d [c]) (S q) s /\ sep (S d) n (S q) s /\
  S d + n <= length (blit m d [c]).
Proof.
  intros (E & Hc & H) Hs Hd. unfold sep in *. cbn in Hs. split_and!.
  - apply st_blit. lia.
  - apply cstr_blit; [done|cbn; lia|]. unfold sep. cbn. lia.
  - lia.
  - rewrite length_blit; cbn; lia.
Qed.

Lemma strcpy_loop_spec fuel m d q s :
  cstr m q s -> sep d (S (length s)) q s -> d + S (length s) <= length m -> length s < fuel ->
  strcpy_loop fuel m d q = Some (blit m d (s ++ [0%Z])).
Proof.
  revert m d q fuel. induction s as [|c s IH]; intros m d q [|fuel] H Hs Hd Hf; cbn in Hf; try lia; cbn [strcpy_loop].
  - cbn in H. rewrite H. cbn [mbind option_bind]. by rewrite st_blit by (cbn in Hd; lia).
  - destruct (copy_round _ _ _ _ _ _ H Hs Hd) as (Est & H1 & H2 & H3). destruct H as (-> & Hc & H). cbn [mbind option_bind].
    rewrite Est. cbn [mbind option_bind]. rewrite (proj2 (Z.eqb_neq c 0)) by (unfold is_char in Hc; lia).
    rewrite IH by (done || lia). rewrite blit_cons; [done|]. rewrite length_app. cbn in *. lia.
Qed.

(** The bounded loops copy [n] characters, or all and the NUL. *)
Lemma strncat_loop_spec n m d q s :
  cstr m q s -> sep d n q s -> d + n <= length m ->
  strncat_loop n m d q =
    Some (if length s <? n then (blit m d (s ++ [0%Z]), d + length s) else (blit m d (take n s), d + n)).
Proof.
  revert m d q s. induction n as [|n IH]; intros m d q s H Hs Hd; cbn [strncat_loop].
  { cbn. by rewrite blit_nil, Nat.add_0_r. }
  destruct s as [|c s].
  - cbn in H. rewrite H. cbn [mbind option_bind]. rewrite st_blit by lia. cbn. by rewrite Nat.add_0_r.
  - destruct (copy_round _ _ _ _ _ _ H Hs Hd) as (Est & H1 & H2 & H3). destruct H as (-> & Hc & H). cbn [mbind option_bind].
    rewrite Est. cbn [mbind option_bind]. rewrite (proj2 (Z.eqb_neq c 0)) by (unfold is_char in Hc; lia).
    rewrite (IH _ _ _ s) by done. cbn [length take app]. change (S (length s) <? S n) with (length s <? n). rewrite length_blit in H3 by (cbn; lia).
    destruct (Nat.ltb_spec (length s) n); f_equal; f_equal; try lia; apply blit_cons; rewrite ?length_app, ?length_take; cbn; lia.
Qed.

Lemma strlcpy_loop_spec n m d q s :
  cstr m q s -> sep d n q s -> d + n <= length m ->
  strlcpy_loop n m d q =
    Some (if length s <? n then (blit m d (s ++ [0%Z]), d + S (length s), q + S (length s), n - length s)
          else (blit m d (take n s), d + n, q + n, 0)).
Proof.
  revert m d q s. induction n as [|n IH]; intros m d q s H Hs Hd; cbn [strlcpy_loop].
  { cbn. by rewrite blit_nil, !Nat.add_0_r. }
  destruct s as [|c s].
  - cbn in H. rewrite H. cbn [mbind option_bind]. rewrite st_blit by lia. cbn. by rewrite !Nat.add_1_r.
  - destruct (copy_round _ _ _ _ _ _ H Hs Hd) as (Est & H1 & H2 & H3). destruct H as (-> & Hc & H). cbn [mbind option_bind].
    rewrite Est. cbn [mbind option_bind]. rewrite (proj2 (Z.eqb_neq c 0)) by (unfold is_char in Hc; lia).
    rewrite (IH _ _ _ s) by done. cbn [length take app]. change (S (length s) <? S n) with (length s <? n). rewrite length_blit in H3 by (cbn; lia).
    rewrite !Nat.add_succ_r, <- !Nat.add_succ_l. cbn [Nat.sub].
    destruct (Nat.ltb_spec (length s) n); rewrite blit_cons; try done; rewrite ?length_app, ?length_take; cbn; lia.
Qed.

Lemma strncpy_loop_spec n m d q s :
  cstr m q s -> sep d n q s -> d + n <= length m ->
  strncpy_loop n m d q = Some (blit m d (take n s ++ replicate (n - length s) 0%Z)).
Proof.
  revert m d q s. induction n as [|n IH]; intros m d q s H Hs Hd; cbn [strncpy_loop].
  { cbn. by rewrite blit_nil. }
  destruct s as [|c s].
  - cbn in H. rewrite H. cbn [mbind option_bind]. rewrite st_blit by lia. cbn [mbind option_bind Z.eqb].
    assert (S d + n <= length (blit m d [0%Z])) as Hl by (rewrite length_blit; cbn; lia).
    pose proof (memset_spec (blit m d [0%Z]) (S d) 0 n Hl) as Hm. unfold memset in Hm.
    destruct (memset_loop n _ _ _) as [m'|] eqn:E; [|done]. cbn in Hm. injection Hm as ->.
    rewrite blit_cons; [done|]. rewrite length_replicate. lia.
  - destruct (copy_round _ _ _ _ _ _ H Hs Hd) as (Est & H1 & H2 & H3). destruct H as (-> & Hc & H). cbn [mbind option_bind].
    rewrite Est. cbn [mbind option_bind]. rewrite (proj2 (Z.eqb_neq c 0)) by (unfold is_char in Hc; lia).
    rewrite (IH _ _ _ s) by done. rewrite length_blit in H3 by (cbn; lia).
    rewrite blit_cons; [done|]. rewrite length_app, length_take, length_replicate. lia.
Qed.

Lemma find_end_spec n m p s : cstr m p s -> find_end n m p = Some (p + Nat.min n (length s)).
Proof.
  revert p s. induction n as [|n IH]; intros p s H; cbn [find_end]; [by rewrite Nat.add_0_r|].
  destruct s as [|c s]; cbn in H.
  - rewrite H. cbn. by rewrite Nat.add_0_r.
  - destruct H as (-> & Hc & H). cbn [mbind option_bind]. rewrite (proj2 (Z.eqb_neq c 0)) by (unfold is_char in Hc; lia).
    cbn [negb]. rewrite (IH _ s H). cbn. f_equal. lia.
Qed.

Lemma find_end_none n m p :
  p + n <= length m -> (forall i, i < n -> m !! (p + i) <> Some 0%Z) -> find_end n m p = Some (p + n).
Proof.
  revert p. induction n as [|n IH]; intros p Hp Hn; cbn [find_end]; [by rewrite Nat.add_0_r|].
  destruct (lookup_byte m p) as (c & E & _); [lia|]. rewrite E. cbn [mbind option_bind].
  rewrite (proj2 (Z.eqb_neq c 0)) by (intros ->; apply (Hn 0); [lia|by rewrite Nat.add_0_r]). cbn [negb].
  rewrite IH; [f_equal; lia|lia|]. intros i Hi. replace (S p + i) with (p + S i) by lia. apply Hn. lia.
Qed.

Lemma strlcat_loop_spec fuel n m d q s :
  cstr m q s -> sep d (S n) q s -> d + S n <= length m -> length s < fuel ->
  strlcat_loop fuel m d q (S n) = Some (blit m d (take n s), d + Nat.min n (length s), q + length s).
Proof.
  revert n m d q fuel. induction s as [|c s IH]; intros n m d q [|fuel] H Hs Hd Hf; cbn in Hf; try lia; cbn [strlcat_loop].
  - cbn in H. rewrite H. cbn. by rewrite Nat.min_0_r, !Nat.add_0_r, take_nil, blit_nil.
  - pose proof H as (E & Hc & H'). rewrite E. cbn [mbind option_bind]. rewrite (proj2 (Z.eqb_neq c 0)) by (unfold is_char in Hc; lia).
    cbn [negb]. destruct n as [|n]; cbn [Nat.eqb negb].
    + rewrite IH; [|done|unfold sep in *; cbn in *; lia|done|lia]. cbn. by rewrite Nat.add_succ_r.
    + destruct (copy_round _ _ _ _ _ _ H Hs Hd) as (-> & H1 & H2 & H3). cbn [mbind option_bind].
      replace (S (S n) - 1) with (S n) by lia. rewrite IH by (done || lia). cbn [take length Nat.min].
      rewrite blit_cons by (rewrite length_take; lia). by rewrite !Nat.add_succ_r.
Qed.

(** The end of a bounded copy: the characters and then the NUL. *)
Lemma blit_snoc m d xs c : d + S (length xs) <= length m -> st (blit m d xs) (d + length xs) c = Some (blit m d (xs ++ [c])).
Proof.
  intros H. rewrite st_blit by (rewrite length_blit; lia). f_equal. apply blit_app. cbn. lia.
Qed.

Lemma strlcpy_spec m p q s siz :
  cstr m q s -> p + siz <= length m -> sep p siz q s ->
  strlcpy m p q siz = Some (if siz =? 0 then m else blit m p (take (siz - 1) s ++ [0%Z]), length s).
Proof.
  intros H Hp Hs. pose proof (cstr_fits _ _ _ H) as Hq. unfold strlcpy. destruct siz as [|siz]; cbn [Nat.eqb negb].
  - cbn [mbind option_bind Nat.eqb negb]. rewrite (strlen_loop_spec _ _ _ _ H) by lia. cbn. do 2 f_equal. lia.
  - replace (S siz - 1) with siz by lia. unfold sep in *.
    rewrite (strlcpy_loop_spec _ _ _ _ s) by (unfold sep; done || lia). destruct (Nat.ltb_spec (length s) siz); cbn [mbind option_bind].
    + rewrite (proj2 (Nat.eqb_neq _ _)) by lia. rewrite take_ge by lia. do 2 f_equal. lia.
    + cbn [Nat.eqb]. assert (length (take siz s) = siz) as Hl by (rewrite length_take; lia).
      pose proof (blit_snoc m p (take siz s) 0) as Hb. rewrite Hl in Hb. rewrite Hb by lia. cbn [mbind option_bind].
      set (m' := blit m p _). assert (length m' = length m) as Hm by (apply length_blit; rewrite length_app, Hl; cbn; lia).
      assert (cstr m' q s) as H'.
      { apply cstr_blit; rewrite ?length_app, ?Hl; cbn; [done|lia|unfold sep; lia]. }
      rewrite <- (take_drop siz s) in H'. apply cstr_app in H' as (_ & _ & H'). rewrite Hl in H'.
      rewrite (strlen_loop_spec _ _ _ _ H') by (rewrite length_drop, Hm; lia). cbn. rewrite length_drop. do 2 f_equal. lia.
Qed.

Lemma strlcat_spec m p q d s siz :
  cstr m q s -> cstr m p d -> length d < siz -> p + siz <= length m -> sep p siz q s ->
  strlcat m p q siz = Some (blit m (p + length d) (take (siz - 1 - length d) s ++ [0%Z]), length d + length s).
Proof.
  intros H Hd Hl Hp Hs. pose proof (cstr_fits _ _ _ H) as Hq. unfold strlcat. rewrite (find_end_spec _ _ _ _ Hd), Nat.min_r by lia.
  cbn [mbind option_bind]. rewrite (Nat.add_comm p), Nat.add_sub, (Nat.add_comm _ p), (proj2 (Nat.eqb_neq _ 0)) by lia.
  replace (siz - length d) with (S (siz - 1 - length d)) by lia. set (n := siz - 1 - length d).
  rewrite (strlcat_loop_spec _ _ _ _ _ s) by first [done | unfold sep in *; lia]. cbn [mbind option_bind].
  rewrite <- length_take. rewrite blit_snoc by (rewrite length_take; lia). cbn. do 2 f_equal. lia.
Qed.

(** A string after another one. *)
Lemma cstr_appended m p d xs :
  cstr m p d -> Forall is_char xs -> p + length d + S (length xs) <= length m ->
  cstr (blit m (p + length d) (xs ++ [0%Z])) p (d ++ xs).
Proof.
  intros (Hd & Hcd & _)%cstr_slice Hc Hp. apply cstr_app. split; [|split; [done|by apply cstr_written]].
  etransitivity; [|exact Hd]. apply slice_blit_before; [rewrite length_app; cbn|]; lia.
Qed.

(** C39.  strlcpy and strlcat write at most [siz] bytes from the destination on, the string
    that they leave there is ended by a NUL and is the longest prefix of the source, or
    of the two strings one after the other, that fits, and the result is the length
    that the whole string would have, so that a result of at least [siz] tells that it
    was cut.  A destination without a NUL in its [siz] bytes is left as it is. *)
Theorem bounded_copies m p q s siz :
  cstr m q s -> p + siz <= length m -> sep p siz q s ->
  (exists m', strlcpy m p q siz = Some (m', length s) /\ (0 < siz -> cstr m' p (take (siz - 1) s)) /\
    (forall i, i < p \/ p + siz <= i -> m' !! i = m !! i)) /\
  (forall d, cstr m p d -> length d < siz -> exists m',
    strlcat m p q siz = Some (m', length (d ++ s)) /\ cstr m' p (take (siz - 1) (d ++ s)) /\
    (forall i, i < p \/ p + siz <= i -> m' !! i = m !! i)) /\
  ((forall i, i < siz -> m !! (p + i) <> Some 0%Z) -> strlcat m p q siz = Some (m, siz + length s)).
Proof.
  intros H Hp Hs. pose proof (cstr_chars _ _ _ H) as Hc. split; [|split].
  - eexists. split; [by apply strlcpy_spec|]. destruct (Nat.eqb_spec siz 0) as [->|Hz]; [split; [lia|done]|].
    assert (length (take (siz - 1) s) < siz) as Hl by (rewrite length_take; lia). split.
    + intros _. apply cstr_written; [by apply Forall_take|lia].
    + intros i Hi. rewrite lookup_blit by (rewrite length_app; cbn; lia). rewrite length_app. cbn [length].
      destruct (Nat.leb_spec p i), (Nat.ltb_spec i (p + (length (take (siz - 1) s) + 1))); cbn [andb]; (done || lia).
  - intros d Hd Hld. eexists. split; [rewrite length_app; by apply strlcat_spec|].
    set (n := siz - 1 - length d). assert (length (take n s) + length d < siz) as Hl by (rewrite length_take; lia). split.
    + rewrite take_app, (take_ge d) by lia. replace (siz - 1 - length d) with n by done.
      apply cstr_appended; [done|by apply Forall_take|lia].
    + intros i Hi. rewrite lookup_blit by (rewrite length_app; cbn; lia). rewrite length_app. cbn [length].
      destruct (Nat.leb_spec (p + length d) i), (Nat.ltb_spec i (p + length d + (length (take n s) + 1))); cbn [andb]; (done || lia).
  - intros Hn. unfold strlcat. rewrite find_end_none by done. cbn [mbind option_bind].
    rewrite (Nat.add_comm p), Nat.add_sub, Nat.sub_diag. cbn [Nat.eqb]. by rewrite (strlen_spec _ _ _ H).
Qed.

Lemma bounded_copies_witness :
  exists m', strlcat [97; 0; 9; 9; 98; 99; 100; 0]%Z 0 4 3 = Some (m', 4) /\ cstr m' 0 [97; 98]%Z.
Proof.
  destruct (bounded_copies [97; 0; 9; 9; 98; 99; 100; 0]%Z 0 4 [98; 99; 100]%Z 3) as (_ & H & _);
    [cbn; unfold is_char; repeat split; lia|cbn; lia|unfold sep; lia|].
  destruct (H [97]%Z) as (m' & E & Hc & _); [cbn; unfold is_char; repeat split; lia|cbn; lia|]. exists m'. split; [exact E|exact Hc].
Defined.

(** Writing a byte again changes nothing. *)
Lemma st_same m p v m' : st m p v = Some m' -> st m' p v = Some m'.
Proof.
  unfold st. case_test; [|done]. intros [= <-]. rewrite length_insert, E. by rewrite list_insert_insert_eq.
Qed.

(** The bytes of a string. *)
Lemma cstr_prefix m q s n : cstr m q s -> slice m q (Nat.min n (length s)) = take n s.
Proof.
  intros (Hs & _ & _)%cstr_slice. rewrite <- Hs at 2. unfold slice. by rewrite take_take.
Qed.
Lemma cstr_whole m q s : cstr m q s -> slice m q (length s + 1) = s ++ [0%Z].
Proof. intros (Hs & _ & H0)%cstr_slice. rewrite Nat.add_1_r, (slice_snoc _ _ _ _ H0). by rewrite Hs. Qed.

Lemma strncat_spec m p q d s n :
  cstr m q s -> cstr m p d -> p + length d + S n <= length m -> sep (p + length d) (S n) q s ->
  exists m', strncat m p q n = Some (m', p) /\ cstr m' p (d ++ take n s).
Proof.
  intros H Hd Hp Hs. pose proof (cstr_chars _ _ _ H) as Hc. unfold strncat. destruct n as [|n]; cbn [Nat.eqb negb].
  { exists m. cbn. by rewrite app_nil_r. }
  rewrite (strlen_loop_spec _ _ _ _ Hd) by lia. cbn [mbind option_bind].
  rewrite (strncat_loop_spec _ _ _ _ s) by first [done | unfold sep in *; lia | lia].
  assert (forall xs, xs = take (S n) s -> cstr (blit m (p + length d) (xs ++ [0%Z])) p (d ++ take (S n) s)) as Hw.
  { intros xs ->. apply cstr_appended; [done|by apply Forall_take|]. rewrite length_take. lia. }
  destruct (Nat.ltb_spec (length s) (S n)); cbn [mbind option_bind].
  - eexists. split; [|apply (Hw s); by rewrite take_ge by lia].
    pose proof (blit_snoc m (p + length d) s 0 ltac:(lia)) as Hb. by rewrite (st_same _ _ _ _ Hb).
  - assert (length (take (S n) s) = S n) as Hl by (rewrite length_take; lia).
    pose proof (blit_snoc m (p + length d) (take (S n) s) 0) as Hb. rewrite Hl in Hb. rewrite Hb by lia. eauto.
Qed.

(** The other copies: strcpy and strcat copy the whole string and its NUL, strncpy
    exactly [n] bytes, padded with NULs, strncat at most [n] characters and a NUL; strdup
    and strndup leave a copy at the address that malloc gives.  strxfrm answers one more
    than the length of the string. *)
Theorem string_copies m p q s :
  cstr m q s ->
  (p + S (length s) <= length m -> sep p (S (length s)) q s ->
    strcpy m p q = Some (blit m p (s ++ [0%Z]), p) /\ cstr (blit m p (s ++ [0%Z])) p s) /\
  (forall d, cstr m p d -> p + length d + S (length s) <= length m -> sep (p + length d) (S (length s)) q s ->
    exists m', strcat m p q = Some (m', p) /\ cstr m' p (d ++ s)) /\
  (forall n, p + n <= length m -> sep p n q s ->
    strncpy m p q n = Some (blit m p (take n s ++ replicate (n - length s) 0%Z), p)) /\
  (forall d n, cstr m p d -> p + length d + S n <= length m -> sep (p + length d) (S n) q s ->
    exists m', strncat m p q n = Some (m', p) /\ cstr m' p (d ++ take n s)) /\
  (p + S (length s) <= length m -> exists m', strdup m q (Some p) = Some (m', Some p) /\ cstr m' p s) /\
  (forall n, p + S (Nat.min n (length s)) <= length m ->
    exists m', strndup m q n (Some p) = Some (m', Some p) /\ cstr m' p (take n s)) /\
  (forall n, p + Nat.min n (S (length s)) <= length m -> exists m', strxfrm m p q n = Some (m', S (length s))).
Proof.
  intros H. pose proof (cstr_chars _ _ _ H) as Hc. pose proof (cstr_fits _ _ _ H) as Hq. split_and!.
  - intros Hp Hs. unfold strcpy. rewrite (strcpy_loop_spec _ _ _ _ s) by (done || lia). split; [done|by apply cstr_written].
  - intros d Hd Hp Hs. unfold strcat. rewrite (strlen_loop_spec _ _ _ _ Hd) by lia. cbn [mbind option_bind].
    rewrite (strcpy_loop_spec _ _ _ _ s) by (done || lia). eexists. split; [done|]. by apply cstr_appended.
  - intros n Hp Hs. unfold strncpy. destruct n as [|n]; [cbn; by rewrite blit_nil|]. cbn [Nat.eqb negb].
    by rewrite (strncpy_loop_spec _ _ _ _ s).
  - intros d n Hd Hp Hs. by apply strncat_spec.
  - intros Hp. unfold strdup. rewrite (strlen_spec _ _ _ H). cbn [mbind option_bind].
    rewrite memcpy_spec by lia. eexists. split; [done|]. rewrite cstr_whole by done. by apply cstr_written.
  - intros n Hp. unfold strndup. rewrite (strlen_spec _ _ _ H). cbn [mbind option_bind].
    replace (if length s <? n then length s else n) with (Nat.min n (length s)) by (destruct (Nat.ltb_spec (length s) n); lia).
    rewrite memcpy_spec by lia. cbn [mbind option_bind].
    rewrite (cstr_prefix _ _ _ _ H). pose proof (blit_snoc m p (take n s) 0) as Hb. rewrite length_take in Hb. rewrite Hb by lia.
    eexists. split; [done|]. apply cstr_written; [by apply Forall_take|]. rewrite length_take. lia.
  - intros n Hp. unfold strxfrm. rewrite (strlen_spec _ _ _ H). cbn [mbind option_bind].
    replace (if length s + 1 <? n then length s + 1 else n) with (Nat.min n (S (length s))) by (destruct (Nat.ltb_spec (length s + 1) n); lia).
    rewrite memcpy_spec by lia. eexists. cbn. by rewrite Nat.add_1_r.
Qed.

Lemma string_copies_witness :
  strncpy [98; 99; 0; 7; 7; 7; 7]%Z 3 0 4 = Some ([98; 99; 0; 98; 99; 0; 0]%Z, 3).
Proof.
  refine (proj1 (proj2 (proj2 (string_copies [98; 99; 0; 7; 7; 7; 7]%Z 3 0 [98; 99]%Z _))) 4 _ _);
    [cbn; unfold is_char; repeat split; lia|cbn; lia|right; cbn; lia].
Defined.
