(* ===== verification/CTok.v ===== *)
(** * Splitting strings (libc/string: strsep.c, strtok.c)

    strsep and strtok_r write a NUL over the character that ends a token, and keep
    in a pointer of the caller where the rest starts.  The theorem follows a client
    that calls one of them until it answers NULL. *)
From S2P Require Import Prelude CMem CString.
#[local] Open Scope nat_scope.

(** ** The functions *)

(** for (;;): answers memory and the new s. *)
Fixpoint strsep_loop (fuel : nat) (m : cmem) (s delim : nat) : option (cmem * option nat) :=
  match fuel with
  | O => None
  | S fuel =>
      c ← m !! s;
      b ← brk m delim c;
      if (b : bool) then
        if (c =? 0)%Z then Some (m, None) else m ← st m s 0; Some (m, Some (S s))
      else strsep_loop fuel m (S s) delim
  end.

(** Answers memory, *stringp and the result. *)
Definition strsep (m : cmem) (stringp : option nat) (delim : nat) : option (cmem * option nat * option nat) :=
  match stringp with
  | None => Some (m, stringp, None)
  | Some s => '(m, stringp) ← strsep_loop (S (length m)) m s delim; Some (m, stringp, Some s)
  end.

(** The loop at cont is that of strspn, the one that scans the token is that of strsep. *)
Definition strtok_r (m : cmem) (s : option nat) (delim : nat) (last : option nat) : option (cmem * option nat * option nat) :=
  match (match s with None => last | Some s => Some s end) with
  | None => Some (m, last, None)
  | Some s =>
      s ← strspn_loop (S (length m)) m s delim;
      c ← m !! s;
      if (c =? 0)%Z then Some (m, None, None)
      else
        let tok := s in
        '(m, last) ← strsep_loop (S (length m)) m (S s) delim;
        Some (m, last, Some tok)
  end.

(** The pointer last is static. *)
Definition strtok (m : cmem) (s : option nat) (delim : nat) (last : option nat) : option (cmem * option nat * option nat) :=
  strtok_r m s delim last.

(** ** Clients *)

(** while ((tok = strsep(&string, delim)) != NULL): the pointers that it answers. *)
Fixpoint strsep_all (fuel : nat) (m : cmem) (stringp : option nat) (delim : nat) : option (cmem * list nat) :=
  match fuel with
  | O => None
  | S fuel =>
      '(m, stringp, tok) ← strsep m stringp delim;
      match tok with
      | None => Some (m, [])
      | Some tok => '(m, toks) ← strsep_all fuel m stringp delim; Some (m, tok :: toks)
      end
  end.

(** for (tok = strtok_r(s, delim, &last); tok; tok = strtok_r(NULL, delim, &last)) *)
Fixpoint strtok_all (fuel : nat) (m : cmem) (s : option nat) (delim : nat) (last : option nat) : option (cmem * list nat) :=
  match fuel with
  | O => None
  | S fuel =>
      '(m, last, tok) ← strtok_r m s delim last;
      match tok with
      | None => Some (m, [])
      | Some tok => '(m, toks) ← strtok_all fuel m None delim last; Some (m, tok :: toks)
      end
  end.

(** ** What they split

    The fields of a string between the delimiters [t], and those that are not empty. *)
Fixpoint fields (t s : list Z) : list (list Z) :=
  match s with
  | [] => [[]]
  | c :: s =>
      if among t c then [] :: fields t s
      else match fields t s with [] => [[c]] | w :: ws => (c :: w) :: ws end
  end.
Definition tokens (t s : list Z) : list (list Z) := filter (fun w => w <> []) (fields t s).

Definition toklen (t s : list Z) : nat := count_while (fun c => negb (among t c)) s.

Lemma toklen_le t s : toklen t s <= length s.
Proof. unfold toklen. induction s as [|c s IH]; cbn; [lia|]. destruct (among t c); cbn; lia. Qed.

(** The first field and the others. *)
Lemma fields_step t s :
  fields t s = if toklen t s =? length s then [s] else take (toklen t s) s :: fields t (drop (S (toklen t s)) s).
Proof.
  induction s as [|c s IH]; [done|]. unfold toklen in *. cbn [fields count_while length].
  destruct (among t c); cbn [negb]; [done|]. rewrite IH. cbn [Nat.eqb]. by destruct (_ =? _).
Qed.

Lemma tokens_skip t s : tokens t s = tokens t (drop (count_while (among t) s) s).
Proof.
  induction s as [|c s IH]; [done|]. cbn [count_while]. destruct (among t c) eqn:E; [|done].
  cbn [drop]. rewrite <- IH. unfold tokens. cbn [fields]. rewrite E. by rewrite filter_cons_False by auto.
Qed.

Lemma tokens_step t c s :
  among t c = false -> let s' := c :: s in tokens t s' = take (toklen t s') s' :: tokens t (drop (S (toklen t s')) s').
Proof.
  intros E s'. unfold tokens. rewrite (fields_step t s'). pose proof (toklen_le t s') as Hle.
  assert (exists k, toklen t s' = S k) as [k Hk] by (unfold s', toklen; cbn; rewrite E; cbn; eauto).
  destruct (Nat.eqb_spec (toklen t s') (length s')) as [H|H].
  - rewrite filter_cons_True by done. rewrite (take_ge s'), (drop_ge s') by lia. done.
  - rewrite Hk. by rewrite filter_cons_True by done.
Qed.

(** ** One call *)

(** A NUL written over the character [k] of a string cuts it in two. *)
Lemma cstr_cut m p s k :
  cstr m p s -> k < length s -> let m' := <[p + k := 0%Z]> m in cstr m' p (take k s) /\ cstr m' (S (p + k)) (drop (S k) s).
Proof.
  intros H Hk m'. pose proof (cstr_fits _ _ _ H) as Hf. rewrite <- (take_drop k s) in H.
  apply cstr_app in H as (Hs & Hc & H). assert (length (take k s) = k) as Hl by (rewrite length_take; lia).
  rewrite Hl in *. split.
  - apply cstr_slice. rewrite Hl. split; [|split; [done|]].
    + rewrite <- Hs. apply list_eq. intros i. rewrite !lookup_slice. destruct (Nat.ltb_spec i k); [|done].
      unfold m'. by rewrite list_lookup_insert_ne by lia.
    + unfold m'. apply list_lookup_insert_eq. lia.
  - destruct (drop k s) as [|c s2] eqn:E; [apply (f_equal length) in E; rewrite length_drop in E; cbn in E; lia|].
    rewrite (drop_S s c k) in E by (rewrite <- (Nat.add_0_r k), <- lookup_drop, E; done). injection E as ->.
    destruct H as (_ & _ & H). eapply cstr_frame; [exact H|]. intros i Hi. unfold m'. by rewrite list_lookup_insert_ne by lia.
Qed.

Lemma strsep_loop_spec fuel m p q s t :
  cstr m p s -> cstr m q t -> length s < fuel ->
  strsep_loop fuel m p q =
    let k := toklen t s in
    Some (if k =? length s then (m, None) else (<[p + k := 0%Z]> m, Some (S (p + k)))).
Proof.
  intros Hs Ht. unfold toklen. revert p s Hs. induction fuel as [|fuel IH]; intros p s Hs Hf; [lia|]. cbn [strsep_loop].
  destruct s as [|c s]; cbn in Hs, Hf; destruct_and?; simplify_option_eq; rewrite (brk_spec _ _ _ _ Ht); cbn [mbind option_bind count_while length].
  - by rewrite orb_true_r.
  - rewrite (proj2 (Z.eqb_neq c 0)) by (unfold is_char in *; lia). rewrite orb_false_r.
    destruct (among t c); cbn [negb Nat.eqb].
    + unfold st. rewrite (proj2 (Nat.ltb_lt _ _)) by (by eapply lookup_lt_Some). by rewrite Nat.add_0_r.
    + rewrite (IH (S p) s) by (done || lia). cbn zeta. by rewrite Nat.add_succ_r.
Qed.

(** ** All the calls *)
Section Split.
Context (q : nat) (t : list Z).

(** The string at [p] of length [n] does not overlap the delimiters. *)
Definition apart (p n : nat) : Prop := q + length t < p \/ p + n <= q.
(** Nothing outside the string is written. *)
Definition outside (p n : nat) (m m' : cmem) : Prop := forall i, i < p \/ p + n <= i -> m' !! i = m !! i.

Lemma outside_cut p (s : list Z) k (m : cmem) : k < length s -> outside p (length s) m (<[p + k := 0%Z]> m).
Proof. intros Hk i Hi. apply list_lookup_insert_ne. lia. Qed.

Lemma delim_kept p n m m' : cstr m q t -> apart p n -> outside p n m m' -> cstr m' q t.
Proof. intros H Ha Ho. eapply cstr_frame; [exact H|]. intros i Hi. apply Ho. unfold apart in Ha. lia. Qed.

Lemma strsep_all_spec n m p s :
  length s <= n -> cstr m p s -> cstr m q t -> apart p (length s) ->
  exists m' ps, strsep_all (S (S n)) m (Some p) q = Some (m', ps) /\
    Forall2 (cstr m') ps (fields t s) /\ outside p (length s) m m'.
Proof.
  revert m p s. induction n as [n IH] using lt_wf_ind. intros m p s Hn Hs Ht Ha. pose proof (cstr_fits _ _ _ Hs) as Hf.
  cbn [strsep_all strsep]. rewrite (strsep_loop_spec _ _ _ _ _ _ Hs Ht) by lia. cbn [mbind option_bind]. rewrite fields_step.
  pose proof (toklen_le t s) as Hk. set (k := toklen t s) in *. destruct (Nat.eqb_spec k (length s)) as [E|E].
  - cbn. exists m, [p]. split; [done|]. split; [by repeat constructor|by intros i].
  - destruct (cstr_cut m p s k Hs ltac:(lia)) as [H1 H2]. pose proof (outside_cut p s k m ltac:(lia)) as Ho.
    assert (length (drop (S k) s) = length s - S k) as Hd by apply length_drop.
    destruct n as [|n]; [lia|].
    destruct (IH n ltac:(lia) _ _ (drop (S k) s) ltac:(lia) H2 (delim_kept _ _ _ _ Ht Ha Ho)) as (m' & ps & Em & Hps & Ho').
    { unfold apart in *. lia. }
    cbn [mbind option_bind strsep_all] in Em |- *. rewrite Em. cbn [mbind option_bind].
    exists m', (p :: ps). split; [done|]. split.
    + constructor; [|done]. eapply cstr_frame; [exact H1|]. intros i Hi. apply Ho'. rewrite length_take in Hi. lia.
    + intros i Hi. rewrite Ho' by lia. by apply Ho.
Qed.

Lemma strtok_call m p s :
  cstr m p s -> cstr m q t ->
  let j := count_while (among t) s in let s' := drop j s in let p' := p + j in
  cstr m p' s' /\ length s' = length s - j /\ j <= length s /\
  forall last, strtok_r m (Some p) q last = strtok_r m None q (Some p) /\
  match s' with
  | [] => strtok_r m (Some p) q last = Some (m, None, None)
  | c :: _ => among t c = false /\
      strtok_r m (Some p) q last =
        let k := toklen t s' in
        Some (if k =? length s' then (m, None) else (<[p' + k := 0%Z]> m, Some (S (p' + k))), Some p')
  end.
Proof.
  intros Hs Ht j s' p'. pose proof (cstr_fits _ _ _ Hs) as Hf.
  assert (j <= length s) as Hj by (subst j; clear; induction s as [|c s IH]; cbn; [lia|]; case_test; cbn; lia).
  assert (match s' with [] => True | c :: _ => among t c = false end) as Hc.
  { subst s' j. clear. induction s as [|c s IH]; cbn; [done|]. destruct (among t c) eqn:E; cbn; done. }
  assert (cstr m p' s') as Hs'.
  { rewrite <- (take_drop j s) in Hs. apply cstr_app in Hs as (_ & _ & Hs). by rewrite length_take, Nat.min_l in Hs. }
  split; [done|]. split; [apply length_drop|]. split; [done|]. intros last. split; [done|]. unfold strtok_r.
  rewrite (strspn_loop_spec _ _ _ _ _ _ Hs Ht) by lia. fold j p'. cbn [mbind option_bind]. destruct s' as [|c s2] eqn:Es.
  - cbn in Hs'. by rewrite Hs'.
  - split; [done|]. destruct Hs' as (E & Hx & Hs2). rewrite E. cbn [mbind option_bind].
    rewrite (proj2 (Z.eqb_neq c 0)) by (unfold is_char in *; lia). pose proof (cstr_fits _ _ _ Hs2) as Hf2.
    rewrite (strsep_loop_spec _ _ _ _ _ _ Hs2 Ht) by lia. cbn [mbind option_bind].
    unfold toklen. cbn [count_while length]. rewrite Hc. cbn [negb Nat.eqb]. rewrite !Nat.add_succ_r. by case_test.
Qed.

Lemma strtok_all_spec n m p s so last :
  length s <= n -> cstr m p s -> cstr m q t -> apart p (length s) -> so = Some p \/ (so = None /\ last = Some p) ->
  exists m' ps, strtok_all (S (S n)) m so q last = Some (m', ps) /\
    Forall2 (cstr m') ps (tokens t s) /\ outside p (length s) m m'.
Proof.
  revert m p s so last. induction n as [n IH] using lt_wf_ind. intros m p s so last Hn Hs Ht Ha Hso.
  pose proof (cstr_fits _ _ _ Hs) as Hf. destruct (strtok_call m p s Hs Ht) as (Hs' & Hl & Hj & Hcall).
  destruct (Hcall last) as [_ Hc]. rewrite tokens_skip. set (j := count_while (among t) s) in *.
  assert (strtok_r m so q last = strtok_r m (Some p) q last) as Hso' by (destruct Hso as [->|[-> ->]]; [done|symmetry; apply (Hcall (Some p))]).
  change (strtok_all (S (S n)) m so q last) with
    ('(m, last, tok) ← strtok_r m so q last;
     match tok with None => Some (m, []) | Some tok => '(m, toks) ← strtok_all (S n) m None q last; Some (m, tok :: toks) end).
  rewrite Hso'. clear Hso' Hcall. destruct (drop j s) as [|c s2] eqn:Es; [rewrite Hc; exists m, []; split; [done|]; split; [constructor|by intros i]|].
  destruct Hc as [Hac ->]. rewrite (tokens_step t c s2 Hac). set (s' := c :: s2) in *.
  pose proof (toklen_le t s') as Hk. set (k := toklen t s') in *. cbn [mbind option_bind].
  destruct (Nat.eqb_spec k (length s')) as [E|E].
  - cbn [strtok_all strtok_r mbind option_bind]. exists m, [p + j]. split; [done|]. split; [|by intros i]. rewrite drop_ge, take_ge by lia. constructor; [done|]. constructor.
  - destruct (cstr_cut m (p + j) s' k Hs' ltac:(lia)) as [H1 H2].
    assert (outside p (length s) m (<[p + j + k := 0%Z]> m)) as Ho by (rewrite <- Nat.add_assoc; apply outside_cut; lia).
    assert (length (drop (S k) s') = length s' - S k) as Hd by apply length_drop.
    destruct n as [|n]; [lia|].
    destruct (IH n ltac:(lia) _ _ (drop (S k) s') None (Some (S (p + j + k))) ltac:(lia) H2 (delim_kept _ _ _ _ Ht Ha Ho)) as (m' & ps & Em & Hps & Ho').
    { unfold apart in *. lia. }
    { by right. }
    rewrite Em. cbn [mbind option_bind]. exists m', (p + j :: ps). split; [done|]. split.
    + constructor; [|done]. eapply cstr_frame; [exact H1|]. intros i Hi. apply Ho'. rewrite length_take in Hi. lia.
    + intros i Hi. rewrite Ho' by lia. by apply Ho.
Qed.
End Split.

(** A client that calls strsep until it answers NULL is given pointers to exactly the
    fields of the string between the delimiters, each ended by a NUL, and one that
    calls strtok_r the fields that are not empty; both calls return, nothing outside the
    string is written, and the number of calls is at most two more than its length. *)
Theorem split_correct m p q s t :
  cstr m p s -> cstr m q t -> apart q t p (length s) ->
  (exists m' ps, strsep_all (S (S (length s))) m (Some p) q = Some (m', ps) /\
    Forall2 (cstr m') ps (fields t s) /\ outside p (length s) m m') /\
  (forall last, exists m' ps, strtok_all (S (S (length s))) m (Some p) q last = Some (m', ps) /\
    Forall2 (cstr m') ps (tokens t s) /\ outside p (length s) m m').
Proof.
  intros Hs Ht Ha. split; [by apply strsep_all_spec|]. intros last. apply strtok_all_spec; auto.
Qed.

Lemma split_correct_witness :
  exists m' ps, strsep_all 8 [97; 44; 44; 98; 99; 59; 0; 44; 59; 0]%Z (Some 0) 7 = Some (m', ps) /\
    Forall2 (cstr m') ps [[97]; []; [98; 99]; []]%Z /\ outside 0 6 [97; 44; 44; 98; 99; 59; 0; 44; 59; 0]%Z m'.
Proof.
  refine (proj1 (split_correct [97; 44; 44; 98; 99; 59; 0; 44; 59; 0]%Z 0 7 [97; 44; 44; 98; 99; 59]%Z [44; 59]%Z _ _ _));
    cbn; unfold is_char, apart; cbn; repeat split; lia.
Defined.
