(* ===== verification/SysProp.v ===== *)
(** * System properties (libc/bionic/system_properties.c)

    The properties are in memory that one process, the property service, writes and
    all the others read without a lock: a word with a serial number tells a reader
    whether the value changed under it.  The functions are programs of loads and
    futex calls; a char and a word of the area are one location each, and what is
    copied to a buffer of the caller is part of the result.  The service is not part of
    the library: the theorems take what the header of the area
    (libc/include/sys/_system_properties.h) says of it as hypotheses. *)
From Stdlib Require Import FunctionalExtensionality.
From S2P Require Import Prelude Buffer Concur Semaphore Ctype Strtol CMem CString.

(** ** The area (libc/include/sys/_system_properties.h) *)
Definition PROP_AREA_MAGIC : Z := 0x504f5250.
Definition PROP_AREA_VERSION : Z := 0x45434f76.
Definition TOC_NAME_LEN (toc : Z) : Z := Z.shiftr toc 24.
Definition TOC_TO_INFO (area : loc) (toc : Z) : loc := area + Z.land toc 0xFFFFFF.
Definition SERIAL_VALUE_LEN (serial : Z) : Z := Z.shiftr serial 24.
Definition SERIAL_DIRTY (serial : Z) : bool := negb (Z.land serial 1 =? 0).

(** Offsets in prop_area and prop_info. *)
Definition pa_count (pa : loc) : loc := pa.
Definition pa_serial (pa : loc) : loc := pa + 4.
Definition pa_magic (pa : loc) : loc := pa + 8.
Definition pa_version (pa : loc) : loc := pa + 12.
Definition pa_toc (pa : loc) (i : Z) : loc := pa + 32 + 4 * i.
Definition pi_name (pi : loc) (i : Z) : loc := pi + i.
Definition pi_serial (pi : loc) : loc := pi + 32.
Definition pi_value (pi : loc) (i : Z) : loc := pi + 36 + i.

(** ** The functions *)

(** __system_property_area__ is [area], and [dummy] the address of dummy_props; getenv
    and mmap are arguments, and a string is the bytes from its start on.  Answers the
    result, the new area, and the area that munmap is called for, if any. *)
Definition __system_properties_init (area dummy : loc) (env : option bytes) (mmap : Z -> Z -> option loc)
    (m : mem) (errno : Z) : option (Z * loc * option loc) :=
  if negb (area =? dummy) then Some (0, area, None)
  else match env with
  | None => Some (-1, area, None)
  | Some env =>
      '(fd, errno) ← atoi env errno;
      comma ← strchr env 0 0x2c;
      match comma with
      | None => Some (-1, area, None)
      | Some i =>
          '(sz, errno) ← atoi (drop (S i) env) errno;
          match mmap (u32 sz) fd with
          | None => Some (-1, area, None)
          | Some pa =>
              if negb (u32 (mget m (pa_magic pa)) =? PROP_AREA_MAGIC) || negb (u32 (mget m (pa_version pa)) =? PROP_AREA_VERSION)
              then Some (-1, area, Some pa)
              else Some (0, pa, None)
          end
      end
  end.

(** The null pointer is 0. *)
Definition __system_property_find_nth (pa : loc) (n : Z) : prog loc :=
  count <- loadu (pa_count pa) ;;
  if count <=? n then Ret 0
  else e <- loadu (pa_toc pa n) ;; Ret (TOC_TO_INFO pa e).

(** memcmp(name, pi->name, len): is it 0? *)
Fixpoint name_matches (name : list Z) (l : loc) : prog bool :=
  match name with
  | [] => Ret true
  | c :: name => x <- load l ;; if c =? x then name_matches name (l + 1) else Ret false
  end.

(** while(count--), the entry [i] being the next. *)
Fixpoint find_loop (count : nat) (pa : loc) (i : Z) (name : list Z) : prog loc :=
  match count with
  | O => Ret 0
  | S count =>
      entry <- loadu (pa_toc pa i) ;;
      if negb (TOC_NAME_LEN entry =? Z.of_nat (length name)) then find_loop count pa (i + 1) name
      else
        let pi := TOC_TO_INFO pa entry in
        b <- name_matches name (pi_name pi 0) ;;
        if b then Ret pi else find_loop count pa (i + 1) name
  end.

(** [name] is the string without its NUL. *)
Definition __system_property_find (pa : loc) (name : list Z) : prog loc :=
  count <- loadu (pa_count pa) ;;
  find_loop (Z.to_nat count) pa 0 name.

(** memcpy of [n] chars *)
Fixpoint load_bytes (n : nat) (l : loc) : prog (list Z) :=
  match n with
  | O => Ret []
  | S n => c <- load l ;; cs <- load_bytes n (l + 1) ;; Ret (c :: cs)
  end.

(** strcpy(name, pi->name) *)
Definition load_string (l : loc) : prog (list Z) :=
  Loop (fun acc : list Z =>
          c <- load (l + Z.of_nat (length acc)) ;;
          Ret (if c =? 0 then inr acc else inl (acc ++ [c]))) [] Ret.

(** while(SERIAL_DIRTY(serial)) *)
Definition wait_clean (pi : loc) (serial : Z) : prog Z :=
  Loop (fun serial =>
          if SERIAL_DIRTY serial then
            __futex_wait_ex (pi_serial pi) 1 serial None ;;;
            s <- loadu (pi_serial pi) ;; Ret (inl s)
          else Ret (inr serial)) serial Ret.

(** Answers len, the bytes copied to value, and the string copied to name if there is one. *)
Definition __system_property_read (pi : loc) (name : bool) : prog (Z * list Z * option (list Z)) :=
  forever (
    serial <- loadu (pi_serial pi) ;;
    serial <- wait_clean pi serial ;;
    let len := SERIAL_VALUE_LEN serial in
    value <- load_bytes (Z.to_nat (len + 1)) (pi_value pi 0) ;;
    serial' <- loadu (pi_serial pi) ;;
    if serial =? serial' then
      (if name then n <- load_string (pi_name pi 0) ;; Ret (Some (len, value, Some n))
       else Ret (Some (len, value, None)))
    else Ret None).

Definition __system_property_get (pa : loc) (name : list Z) : prog (Z * list Z) :=
  pi <- __system_property_find pa name ;;
  if negb (pi =? 0) then r <- __system_property_read pi false ;; Ret (r.1)
  else Ret (0, [0]).

(** do { ... } while(n == *serial) *)
Definition wait_change (l : loc) : prog Z :=
  n <- loadu l ;;
  forever (
    __futex_wait_ex l 1 n None ;;;
    s <- loadu l ;;
    Ret (if n =? s then None else Some 0)).
Definition __system_property_wait (pa pi : loc) : prog Z :=
  if pi =? 0 then wait_change (pa_serial pa) else wait_change (pi_serial pi).

(** ** What a reader sees

    [h t] is memory after [t] steps of the system.  [obsn h n i p j a]: a thread that
    only loads and waits, at the start of [p] after step [i], is at its end with the
    result [a] after step [j], within [n] actions and rounds; each load sees the memory
    of a moment that is not before that of the last one, and a wait answers anything. *)
Section Obs.
Context (h : nat -> mem).

Fixpoint obsn {A} (n i : nat) (p : prog A) (j : nat) (a : A) : Prop :=
  match n with
  | O => False
  | S n =>
      match p with
      | Ret b => (i <= j)%nat /\ a = b
      | Act (ALoad l) k => exists i', (i <= i')%nat /\ obsn n i' (k (mget (h i') l)) j a
      | Act (AFutexWait _ _ _ _) k => exists i' r, (i <= i')%nat /\ obsn n i' (k r) j a
      | Act _ _ => False
      | Loop body x k => obsn n i (bind (body x) (fun r => match r with inl x' => Loop body x' k | inr b => k b end)) j a
      end
  end.
Definition obs {A} (i : nat) (p : prog A) (j : nat) (a : A) : Prop := exists n, obsn n i p j a.

Lemma obsn_weaken {A} n i i0 (p : prog A) j a : obsn n i p j a -> (i0 <= i)%nat -> obsn n i0 p j a.
Proof.
  revert i p i0. induction n as [|n IH]; intros i p i0 H Hi; [done|]. destruct p as [b|[] k|X B body x k]; cbn in *; try done.
  - split; [lia|apply H].
  - destruct H as (i' & ? & ?). exists i'. split; [lia|done].
  - destruct H as (i' & r & ? & ?). exists i', r. split; [lia|done].
  - eauto.
Qed.

Lemma obsn_le {A} n i (p : prog A) j a : obsn n i p j a -> (i <= j)%nat.
Proof.
  revert i p. induction n as [|n IH]; intros i p H; [done|]. destruct p as [b|[] k|X B body x k]; cbn in *; try done.
  - apply H.
  - destruct H as (i' & ? & ?%IH). lia.
  - destruct H as (i' & r & ? & ?%IH). lia.
  - eauto.
Qed.

(** More actions are allowed. *)
Lemma obsn_S {A} n i (p : prog A) j a : obsn n i p j a -> obsn (S n) i p j a.
Proof.
  revert i p. induction n as [|n IH]; intros i p H; [done|]. destruct p as [b|[] k|X B body x k]; cbn [obsn] in H |- *; try done.
  - destruct H as (i' & ? & ?%IH). eauto.
  - destruct H as (i' & r & ? & ?%IH). eauto.
  - by apply IH in H.
Qed.

(** The parts of a sequence. *)
Lemma obsn_bind {A B} n (p : prog A) (f : A -> prog B) i j b :
  obsn n i (bind p f) j b -> exists i' a, obs i p i' a /\ obsn n i' (f a) j b.
Proof.
  revert i p. induction n as [|n IH]; intros i p H; [done|]. destruct p as [a|ac k|X Y body x k].
  - exists i, a. split; [by exists 1%nat|done].
  - cbn in H. destruct ac; try done.
    + destruct H as (i' & Hi & H). destruct (IH _ _ H) as (i1 & a & [n1 H1] & H2).
      exists i1, a. split; [exists (S n1); cbn; eauto|]. by apply obsn_S.
    + destruct H as (i' & r & Hi & H). destruct (IH _ _ H) as (i1 & a & [n1 H1] & H2).
      exists i1, a. split; [exists (S n1); cbn; eauto|]. by apply obsn_S.
  - cbn in H.
    destruct (IH i (bind (body x) (fun r => match r with inl x0 => Loop body x0 k | inr b0 => k b0 end))) as (i1 & a & [n1 H1] & H2).
    { rewrite bind_assoc. erewrite (f_equal (bind (body x))); [exact H|]. apply functional_extensionality. by intros []. }
    exists i1, a. split; [by exists (S n1)|]. by apply obsn_S.
Qed.

Lemma obs_bind {A B} (p : prog A) (f : A -> prog B) i j b :
  obs i (bind p f) j b -> exists i' a, obs i p i' a /\ obs i' (f a) j b.
Proof. intros [n H]. destruct (obsn_bind _ _ _ _ _ _ H) as (i' & a & H1 & H2). exists i', a. split; [done|by exists n]. Qed.
Lemma obs_le {A} i (p : prog A) j a : obs i p j a -> (i <= j)%nat.
Proof. intros [n H]. by eapply obsn_le. Qed.
Lemma obs_ret {A} i j (a b : A) : obs i (Ret a) j b -> (i <= j)%nat /\ b = a.
Proof. by intros [[|n] H]. Qed.

(** A load sees the memory of one moment of the call. *)
Lemma obs_load l i j v : obs i (load l) j v -> exists t, (i <= t <= j)%nat /\ v = mget (h t) l.
Proof.
  intros [[|[|n]] H]; cbn in H; [done| |]; destruct H as (t & Ht & H); [done|]. destruct H as [H ->]. exists t. split; [lia|done].
Qed.
Lemma obs_loadu l i j v : obs i (loadu l) j v -> exists t, (i <= t <= j)%nat /\ v = u32 (mget (h t) l).
Proof.
  intros H. apply obs_bind in H as (i' & w & (t & Ht & ->)%obs_load & [H ->]%obs_ret). exists t. split; [lia|done].
Qed.

(** The last round of a loop, at whose start what every round keeps holds. *)
Lemma obs_loop {A X B} (P : nat -> X -> Prop) (body : X -> prog (X + B)) (k : B -> prog A) i x j a :
  obs i (Loop body x k) j a -> P i x ->
  (forall i x i' x', P i x -> obs i (body x) i' (inl x') -> P i' x') ->
  exists i1 x1 i2 b, (i <= i1)%nat /\ P i1 x1 /\ obs i1 (body x1) i2 (inr b) /\ obs i2 (k b) j a.
Proof.
  intros [n H] HP Hstep. revert i x H HP. induction n as [|n IH]; intros i x H HP; [done|]. cbn in H.
  destruct (obsn_bind _ _ _ _ _ _ H) as (i' & [x'|b] & H1 & H2).
  - destruct (IH i' x' H2) as (i1 & x1 & i2 & b & Hi & ?); [by eapply Hstep|].
    exists i1, x1, i2, b. split; [|done]. apply obs_le in H1. lia.
  - exists i, x, i', b. split; [lia|]. split; [done|]. split; [done|by exists n].
Qed.

Lemma obs_forever {B} (body : prog (option B)) i j b :
  obs i (forever body) j b -> exists i1 i2, (i <= i1)%nat /\ obs i1 body i2 (Some b) /\ (i2 <= j)%nat.
Proof.
  intros H. apply (obs_loop (fun _ _ => True)) in H as (i1 & x1 & i2 & b' & Hi & _ & H1 & H2); [|done..].
  apply obs_ret in H2 as [Hj ->]. apply obs_bind in H1 as (i3 & [b2|] & H1 & H3); apply obs_ret in H3 as [H3 E]; [|done].
  injection E as ->. exists i1, i3. split; [done|]. split; [done|]. lia.
Qed.

Lemma obs_load_bytes n l i j bs :
  obs i (load_bytes n l) j bs ->
  length bs = n /\ forall k c, bs !! k = Some c -> exists t, (i <= t <= j)%nat /\ c = mget (h t) (l + Z.of_nat k).
Proof.
  revert l i j bs. induction n as [|n IH]; intros l i j bs H; cbn [load_bytes] in H.
  - apply obs_ret in H as [_ ->]. done.
  - apply obs_bind in H as (i1 & c & (t & Ht & ->)%obs_load & H). apply obs_bind in H as (i2 & cs & H1 & H2).
    apply obs_ret in H2 as [H2 ->]. pose proof (obs_le _ _ _ _ H1). destruct (IH _ _ _ _ H1) as [Hl Hk]. split; [cbn; lia|].
    intros [|k] c Hc; cbn in Hc.
    + injection Hc as <-. exists t. rewrite Z.add_0_r. split; [lia|done].
    + destruct (Hk _ _ Hc) as (t' & Ht' & ->). exists t'. split; [lia|]. f_equal. lia.
Qed.
End Obs.

(** ** Readers among other threads

    The programs of readers: they load, wait on a futex and compute. *)
Fixpoint read_only {A} (p : prog A) : Prop :=
  match p with
  | Ret _ => True
  | Act a k => match a with ALoad _ | AFutexWait _ _ _ _ => True | _ => False end /\ forall v, read_only (k v)
  | Loop body x k => (forall x, read_only (body x)) /\ forall b, read_only (k b)
  end.

Lemma read_only_bind {A B} (p : prog A) (f : A -> prog B) : read_only p -> (forall a, read_only (f a)) -> read_only (bind p f).
Proof.
  induction p as [a|A a k IH|A X Y body _ x k IH]; intros H Hf; cbn in *; [done| |]; (split; [apply H|]; intros; apply IH; [apply H|done]).
Qed.

Lemma read_only_unroll {A} (p p' : prog A) : unroll p = Some p' -> read_only p -> read_only p'.
Proof.
  destruct p as [| |X B body x k]; cbn; try done. intros [= <-] [Hb Hk]. apply read_only_bind; [done|].
  intros [x'|b]; [by split|done].
Qed.

Definition reading {A} (ts : tstate A) : Prop :=
  match ts with Run p => read_only p | Sleep _ _ _ k => forall v, read_only (k v) end.

(** A reader that ends in an execution has made an observation of its memories,
    whatever the other threads are and do. *)
Lemma execution_obs {A} (s : nat -> sys A) r j a i ts :
  execution s i j -> (i <= j)%nat -> sthreads (s i) !! r = Some ts -> reading ts ->
  sthreads (s j) !! r = Some (Run (Ret a)) ->
  exists v, obs (fun t => smem (s t)) i (match ts with Run p => p | Sleep _ _ _ k => k v end) j a.
Proof.
  intros Hex Hij Hts Hr Hj. remember (j - i)%nat as d eqn:Hd. revert i ts Hex Hij Hts Hr Hd.
  induction d as [|d IH]; intros i ts Hex Hij Hts Hr Hd.
  { assert (i = j) as -> by lia. rewrite Hts in Hj. injection Hj as ->. exists 0, 1%nat. by split. }
  assert (Hnext : forall ts', sthreads (s (S i)) !! r = Some ts' -> reading ts' ->
    exists n v, obsn (fun t => smem (s t)) n i (match ts' with Run p => p | Sleep _ _ _ k => k v end) j a).
  { intros ts' Hts' Hr'. destruct (IH (S i) ts') as (v & n & H); [intros t ?; apply Hex; lia|lia|done|done|lia|].
    exists n, v. eapply obsn_weaken; [exact H|lia]. }
  assert (sthreads (s (S i)) !! r = Some ts ->
    exists v, obs (fun t => smem (s t)) i (match ts with Run p => p | Sleep _ _ _ k => k v end) j a) as Hsame.
  { intros Hs. destruct (Hnext ts Hs Hr) as (n & v & H). by exists v, n. }
  pose proof (Hex i ltac:(lia)) as Hst. destruct (s i) as [m0 th0] eqn:Esi. cbn in Hts.
  assert (smem (s i) = m0) as Hm by by rewrite Esi.
  inversion Hst as [m th t p ac v m' Ht Hh He Hs1 Hs2|m th t p c v Ht Hh Hv Hs1 Hs2|m th t p p' Ht Hu Hs1 Hs2
    |m th t p l ps val to Ht Hh Hv Hs1 Hs2|m th t p l ps val to Ht Hh Hv Hs1 Hs2|m th t l ps timed k Ht Hs1 Hs2
    |m th t l ps k Ht Hs1 Hs2|m th t p l ps n ws Ht Hh Hw Hs1 Hs2]; subst m th; rewrite <- Hs2 in *; cbn [sthreads] in *;
    (destruct (decide (t = r)) as [->|Hne]; [rewrite Hts in Ht; injection Ht as ->|try (apply Hsame; by rewrite lookup_insert_ne)]).
  - destruct p as [|b k|]; try done. injection Hh as ->. destruct Hr as [Ha Hk]. destruct ac; try done. cbn in He. injection He as <- <-.
    destruct (Hnext (Run (k (mget m0 l)))) as (n & v & H); [by rewrite lookup_insert_eq|first [exact Hk | apply Hk]|]. exists 0, (S n). cbn. exists i.
    split; [lia|]. by rewrite Hm.
  - destruct p as [|b k|]; try done. injection Hh as ->. by destruct Hr.
  - destruct (Hnext (Run p')) as (n & v & H); [by rewrite lookup_insert_eq|by eapply read_only_unroll|].
    exists 0, (S n). destruct p; cbn in Hu; try done. injection Hu as <-. done.
  - destruct p as [|b k|]; try done. injection Hh as ->. destruct Hr as [Ha Hk].
    destruct (Hnext (Sleep l ps (is_timed to) (resume (Act (AFutexWait l ps val to) k)))) as (n & v & H); [by rewrite lookup_insert_eq|first [exact Hk | apply Hk]|].
    exists 0, (S n). cbn. exists i, v. split; [lia|done].
  - destruct p as [|b k|]; try done. injection Hh as ->. destruct Hr as [Ha Hk].
    destruct (Hnext (Run (k (- EAGAIN)))) as (n & v & H); [by rewrite lookup_insert_eq|first [exact Hk | apply Hk]|].
    exists 0, (S n). cbn. exists i, (- EAGAIN). split; [lia|done].
  - destruct (Hnext (Run (k (- EINTR)))) as (n & v & H); [by rewrite lookup_insert_eq|apply Hr|]. by exists (- EINTR), n.
  - destruct (Hnext (Run (k (- ETIMEDOUT)))) as (n & v & H); [by rewrite lookup_insert_eq|apply Hr|]. by exists (- ETIMEDOUT), n.
  - destruct p as [|b k|]; try done. injection Hh as ->. by destruct Hr.
  - rewrite lookup_wake_all, lookup_insert_ne, Hts in Hnext, Hsame by done. destruct (decide (r ∈ ws)); [|by apply Hsame].
    destruct (Hnext _ eq_refl) as (n' & v & H); [destruct ts; cbn; apply Hr|]. destruct ts; [by exists v, n'|by exists 0, n'].
Qed.

(** ** The property service

    What the rules of the header promise of the memories [h] of an execution.  There is
    one writer; the number of entries does not decrease; an entry of the table and the
    name it leads to do not change.  The value of property [i] has the versions
    [version i 0], [version i 1], ...: at stage 2k the k-th is in place, under the serial
    number of the third step of an update, and at stage 2k + 1 the next is being written,
    with the dirty bit set.  The second step of an update copies value_len bytes, so that
    only those are promised: the rules say nothing of the byte behind the value, which the
    readers copy too. *)
Definition serial_of (len cnt : Z) : Z := Z.lor (Z.shiftl len 24) (Z.land cnt 0xffffff).

Class PropertyService (h : nat -> mem) (pa : loc) : Type := {
  count : nat -> nat;
  toc : nat -> Z;
  pname : nat -> list Z;
  stage : nat -> nat -> nat;
  version : nat -> nat -> list Z;
  first_serial : nat -> Z;
  count_word t : u32 (mget (h t) (pa_count pa)) = Z.of_nat (count t);
  count_mono t t' : (t <= t')%nat -> (count t <= count t')%nat;
  toc_word t i : (i < count t)%nat -> u32 (mget (h t) (pa_toc pa (Z.of_nat i))) = toc i;
  toc_len i : TOC_NAME_LEN (toc i) = Z.of_nat (length (pname i));
  info_not_null i : TOC_TO_INFO pa (toc i) <> 0;
  name_word t i k c : (i < count t)%nat -> pname i !! k = Some c ->
    mget (h t) (pi_name (TOC_TO_INFO pa (toc i)) (Z.of_nat k)) = c;
  stage_mono i t t' : (t <= t')%nat -> (stage i t <= stage i t')%nat;
  first_even i : Z.even (first_serial i) = true;
  version_len i k : Z.of_nat (length (version i k)) < 92;
  clean_serial t i k : (i < count t)%nat -> stage i t = (2 * k)%nat ->
    u32 (mget (h t) (pi_serial (TOC_TO_INFO pa (toc i)))) =
      serial_of (Z.of_nat (length (version i k))) (first_serial i + 2 * Z.of_nat k);
  clean_value t i k x c : (i < count t)%nat -> stage i t = (2 * k)%nat -> version i k !! x = Some c ->
    mget (h t) (pi_value (TOC_TO_INFO pa (toc i)) (Z.of_nat x)) = c;
  dirty_serial t i k : (i < count t)%nat -> stage i t = (2 * k + 1)%nat ->
    SERIAL_DIRTY (u32 (mget (h t) (pi_serial (TOC_TO_INFO pa (toc i))))) = true }.
#[global] Arguments count {h pa _} t.
#[global] Arguments toc {h pa _} i.
#[global] Arguments pname {h pa _} i.
#[global] Arguments stage {h pa _} i t.
#[global] Arguments version {h pa _} i k.

(** *** Serial numbers *)
Lemma serial_low len cnt : Z.land (serial_of len cnt) 0xffffff = Z.land cnt 0xffffff.
Proof.
  unfold serial_of. rewrite Z.land_lor_distr_l, <- Z.land_assoc, Z.land_diag.
  replace (Z.land (Z.shiftl len 24) 0xffffff) with 0; [done|].
  change 0xffffff with (Z.ones 24). rewrite Z.land_ones, Z.shiftl_mul_pow2 by lia. symmetry. apply Z.mod_mul. lia.
Qed.
Lemma serial_len len cnt : 0 <= len -> SERIAL_VALUE_LEN (serial_of len cnt) = len.
Proof.
  intros Hl. unfold SERIAL_VALUE_LEN, serial_of. rewrite Z.shiftr_lor, Z.shiftr_shiftl_l, Z.sub_diag, Z.shiftl_0_r by lia.
  change 0xffffff with (Z.ones 24). rewrite Z.land_ones, Z.shiftr_div_pow2, Z.div_small, Z.lor_0_r by (try apply Z.mod_pos_bound; lia). done.
Qed.
Lemma serial_clean len cnt : Z.even cnt = true -> SERIAL_DIRTY (serial_of len cnt) = false.
Proof.
  intros He. unfold SERIAL_DIRTY. apply negb_false_iff, Z.eqb_eq.
  replace (Z.land (serial_of len cnt) 1) with (Z.land (Z.land (serial_of len cnt) 0xffffff) 1) by (by rewrite <- Z.land_assoc).
  rewrite serial_low, <- Z.land_assoc. change (Z.land 0xffffff 1) with (Z.ones 1). rewrite Z.land_ones by lia.
  apply Zeven_bool_iff, Zeven_ex in He as [k ->]. change (2 ^ 1) with 2. rewrite Z.mul_comm. by apply Z.mod_mul.
Qed.
(** Two numbers of the counter that are less than a full turn apart are told apart. *)
Lemma serial_inj len len' c k k' :
  serial_of len (c + 2 * k) = serial_of len' (c + 2 * k') -> 0 <= k' - k < 2 ^ 23 -> k = k'.
Proof.
  intros E Hk. apply (f_equal (fun z => Z.land z 0xffffff)) in E. rewrite !serial_low in E.
  change 0xffffff with (Z.ones 24) in E. rewrite !Z.land_ones in E by lia. change (2 ^ 23) with 8388608 in Hk. change (2 ^ 24) with 16777216 in E.
  pose proof (Z.div_mod (c + 2 * k) 16777216). pose proof (Z.div_mod (c + 2 * k') 16777216). lia.
Qed.

Section Reader.
Context (h : nat -> mem) (pa : loc) `{PS : PropertyService h pa}.
Implicit Types (i t : nat).
Notation info i := (TOC_TO_INFO pa (toc i)).

Lemma count_at i j c :
  obs h i (loadu (pa_count pa)) j c -> exists t, (i <= t <= j)%nat /\ c = Z.of_nat (count t).
Proof. intros (t & Ht & ->)%obs_loadu. exists t. by rewrite count_word. Qed.

(** The name of an entry is compared, once the lengths agree. *)
Lemma name_matches_spec i name l nm j b :
  length name = length nm -> (forall t k c, (i <= t)%nat -> nm !! k = Some c -> mget (h t) (l + Z.of_nat k) = c) ->
  obs h i (name_matches name l) j b -> b = bool_decide (name = nm).
Proof.
  revert i l nm. induction name as [|c name IH]; intros i l [|x nm] Hl Hm H; try done; cbn [name_matches] in H.
  - apply obs_ret in H as [_ ->]. done.
  - apply obs_bind in H as (i1 & y & (t & Ht & ->)%obs_load & H). pose proof (Hm t 0%nat x ltac:(lia) eq_refl) as E.
    rewrite Z.add_0_r in E. rewrite E in H. destruct (Z.eqb_spec c x) as [->|Hne].
    + rewrite (IH i1 (l + 1) nm ltac:(cbn in Hl; lia)) with (2 := H).
      * apply bool_decide_ext. split; congruence.
      * intros t' k c' Ht' Hc. rewrite <- (Hm t' (S k) c') by (done || lia). f_equal. lia.
    + apply obs_ret in H as [_ ->]. symmetry. apply bool_decide_eq_false. congruence.
Qed.

(** find looks at the entries in their order. *)
Lemma find_loop_spec n t0 i0 x name j pi :
  (x + n <= count t0)%nat -> (t0 <= i0)%nat -> obs h i0 (find_loop n pa (Z.of_nat x) name) j pi ->
  (exists y, (x <= y < x + n)%nat /\ pname y = name /\ pi = info y) \/
  (pi = 0 /\ forall y, (x <= y < x + n)%nat -> pname y <> name).
Proof.
  revert i0 x. induction n as [|n IH]; intros i0 x Hn Hi H; cbn [find_loop] in H.
  { apply obs_ret in H as [_ ->]. right. split; [done|]. lia. }
  apply obs_bind in H as (i1 & e & (t & Ht & ->)%obs_loadu & H).
  pose proof (count_mono t0 t ltac:(lia)) as Hc. rewrite toc_word in H by lia.
  assert (forall i2, (i0 <= i2)%nat -> obs h i2 (find_loop n pa (Z.of_nat x + 1) name) j pi -> pname x <> name ->
    (exists y, (x <= y < x + S n)%nat /\ pname y = name /\ pi = info y) \/
    (pi = 0 /\ forall y, (x <= y < x + S n)%nat -> pname y <> name)) as Hnext.
  { intros i2 Hi2 H2 Hx. replace (Z.of_nat x + 1) with (Z.of_nat (S x)) in H2 by lia.
    destruct (IH i2 (S x) ltac:(lia) ltac:(lia) H2) as [(y & ? & ? & ?)|[? Hy]].
    - left. exists y. split; [lia|done].
    - right. split; [done|]. intros y ?. destruct (decide (y = x)) as [->|]; [done|]. apply Hy. lia. }
  rewrite toc_len in H. destruct (Z.eqb_spec (Z.of_nat (length (pname x))) (Z.of_nat (length name))) as [El|El]; cbn [negb] in H.
  - apply obs_bind in H as (i2 & b & Hb & H). pose proof (obs_le _ _ _ _ _ Hb).
    rewrite (name_matches_spec i1 name (pi_name (info x) 0) (pname x) i2 b) in H; [|lia| |exact Hb].
    + case_bool_decide as Hx.
      * apply obs_ret in H as [_ ->]. left. exists x. split; [lia|done].
      * apply (Hnext i2); [lia|done|congruence].
    + intros t' k c Ht' Hk. unfold pi_name. rewrite Z.add_0_r. apply (name_word t' x); [|done].
      pose proof (count_mono t0 t' ltac:(lia)). lia.
  - apply (Hnext i1); [lia|done|]. intros E. rewrite E in El. lia.
Qed.

(** The serial number that a read goes on with was loaded, and is clean. *)
Lemma wait_clean_spec pi i0 i s j s' :
  obs h i (wait_clean pi s) j s' -> (exists t, (i0 <= t <= i)%nat /\ s = u32 (mget (h t) (pi_serial pi))) ->
  exists t, (i0 <= t <= j)%nat /\ s' = u32 (mget (h t) (pi_serial pi)) /\ SERIAL_DIRTY s' = false.
Proof.
  intros H H0.
  apply (obs_loop h (fun i' s => exists t, (i0 <= t <= i')%nat /\ s = u32 (mget (h t) (pi_serial pi)))) in H
    as (i5 & s1 & i6 & s2 & Hi5 & (ta & Hta & ->) & Hb & [Hk ->]%obs_ret); [|done|].
  - destruct (SERIAL_DIRTY _) eqn:Ed.
    + apply obs_bind in Hb as (? & ? & _ & Hb). by apply obs_bind in Hb as (? & ? & _ & [_ ?]%obs_ret).
    + apply obs_ret in Hb as [Hb [= ->]]. exists ta. split; [lia|done].
  - intros i' x' i'' x'' (t & Ht & _) Hb'. destruct (SERIAL_DIRTY x'); [|by apply obs_ret in Hb' as [_ ?]].
    apply obs_bind in Hb' as (i7 & r & Hr & Hb'). apply obs_bind in Hb' as (i8 & s1 & (t' & Ht' & ->)%obs_loadu & [H8 [= ->]]%obs_ret).
    apply obs_le in Hr. exists t'. split; [lia|done].
Qed.

(** A clean serial number is that of a version. *)
Lemma clean_stage t x :
  (x < count t)%nat -> SERIAL_DIRTY (u32 (mget (h t) (pi_serial (info x)))) = false -> exists k, stage x t = (2 * k)%nat.
Proof.
  intros Hx Hd. destruct (Nat.Even_or_Odd (stage x t)) as [[k E]|[k E]]; [eauto|]. by rewrite (dirty_serial t x k Hx E) in Hd.
Qed.

(** Between two loads of the same clean serial number nothing was written. *)
Lemma same_serial ta tc x k :
  (x < count ta)%nat -> (ta <= tc)%nat -> Z.of_nat (stage x tc) < Z.of_nat (stage x ta) + 2 ^ 24 -> stage x ta = (2 * k)%nat ->
  u32 (mget (h ta) (pi_serial (info x))) = u32 (mget (h tc) (pi_serial (info x))) ->
  forall t, (ta <= t <= tc)%nat -> stage x t = (2 * k)%nat.
Proof.
  intros Hx Htc Hst Ek E t Ht. pose proof (count_mono ta tc Htc) as Hc.
  pose proof (clean_serial ta x k Hx Ek) as Ea. rewrite Ea in E.
  assert (Z.even (first_serial x + 2 * Z.of_nat k) = true) as He by (rewrite Z.even_add, first_even, Z.even_mul; done).
  pose proof (serial_clean (Z.of_nat (length (version x k))) _ He) as Hd. rewrite E in Hd.
  destruct (clean_stage tc x ltac:(lia) Hd) as [k' Ek']. rewrite (clean_serial tc x k' ltac:(lia) Ek') in E.
  pose proof (stage_mono x ta tc Htc). pose proof (stage_mono x ta t ltac:(lia)). pose proof (stage_mono x t tc ltac:(lia)).
  apply serial_inj in E; lia.
Qed.

(** A read is of one version. *)
Lemma read_spec t0 x i j len buf nm nf :
  (x < count t0)%nat -> (t0 <= i)%nat -> Z.of_nat (stage x j) < Z.of_nat (stage x i) + 2 ^ 24 ->
  obs h i (__system_property_read (info x) nf) j (len, buf, nm) ->
  exists t k t', (i <= t <= j)%nat /\ (i <= t' <= j)%nat /\ stage x t = (2 * k)%nat /\ stage x t' = (2 * k)%nat /\
    len = Z.of_nat (length (version x k)) /\ buf = version x k ++ [mget (h t') (pi_value (info x) len)].
Proof.
  intros Hx Hi Hst H. apply obs_forever in H as (i1 & i2 & Hi1 & H & Hi2).
  apply obs_bind in H as (i3 & s0 & (t1 & Ht1 & ->)%obs_loadu & H).
  apply obs_bind in H as (i4 & s & Hw & H). apply (wait_clean_spec _ i1) in Hw as (ta & Hta & -> & Hd); [|exists t1; split; [lia|done]].
  apply obs_bind in H as (i5 & value & Hv & H). apply obs_bind in H as (i6 & s' & (tc & Htc & ->)%obs_loadu & H).
  pose proof (obs_le _ _ _ _ _ Hv) as Hv'. destruct (Z.eqb_spec (u32 (mget (h ta) (pi_serial (info x)))) (u32 (mget (h tc) (pi_serial (info x))))) as [E|E].
  2: { by apply obs_ret in H as [_ ?]. }
  assert (len = SERIAL_VALUE_LEN (u32 (mget (h ta) (pi_serial (info x)))) /\ buf = value /\ (i6 <= i2)%nat) as (-> & -> & Hi6).
  { destruct nf; [apply obs_bind in H as (i7 & n & H7%obs_le & H)|]; apply obs_ret in H as [H [= -> -> _]]; split_and!; (done || lia). }
  pose proof (count_mono t0 ta ltac:(lia)) as Hc. destruct (clean_stage ta x ltac:(lia) Hd) as [k Ek].
  pose proof (stage_mono x i ta ltac:(lia)). pose proof (stage_mono x tc j ltac:(lia)).
  pose proof (same_serial ta tc x k ltac:(lia) ltac:(lia) ltac:(lia) Ek E) as Hall.
  rewrite (clean_serial ta x k) in * by (done || lia). rewrite serial_len in * by lia.
  destruct (obs_load_bytes _ _ _ _ _ _ Hv) as [Hl Hb].
  destruct (lookup_lt_is_Some_2 value (length (version x k))) as [c Hc']; [lia|]. destruct (Hb _ c Hc') as (t' & Ht' & Ec).
  exists ta, k, t'. split_and!; [lia|lia|lia|lia|done|apply Hall; lia|done|].
  apply list_eq_same_length with (n := S (length (version x k))); [rewrite length_app; cbn; lia|lia|].
  intros z a b Hz Ha Hb'. destruct (decide (z = length (version x k))) as [->|Hne].
  - rewrite Hc' in Ha. injection Ha as <-. rewrite list_lookup_middle in Hb' by done. injection Hb' as <-.
    rewrite Ec. unfold pi_value. f_equal. lia.
  - rewrite lookup_app_l in Hb' by lia. destruct (Hb z a Ha) as (t & Ht & ->).
    unfold pi_value in *. rewrite Z.add_0_r. pose proof (count_mono t0 t ltac:(lia)). by apply (clean_value t x k); [lia|apply Hall; lia|].
Qed.

(** get is find and then read. *)
Lemma get_spec i j name len buf :
  (forall x, Z.of_nat (stage x j) < Z.of_nat (stage x i) + 2 ^ 24) ->
  obs h i (__system_property_get pa name) j (len, buf) ->
  (exists t x k t', (i <= t <= j)%nat /\ (i <= t' <= j)%nat /\ (x < count t)%nat /\ pname x = name /\
    stage x t = (2 * k)%nat /\ stage x t' = (2 * k)%nat /\ len = Z.of_nat (length (version x k)) /\
    buf = version x k ++ [mget (h t') (pi_value (info x) len)]) \/
  (len = 0 /\ buf = [0] /\ exists t, (i <= t <= j)%nat /\ forall x, (x < count t)%nat -> pname x <> name).
Proof.
  intros Hst H. apply obs_bind in H as (i1 & pi & Hf & H). apply obs_bind in Hf as (i2 & c & (t0 & Ht0 & ->)%count_at & Hf).
  rewrite Nat2Z.id in Hf. pose proof (obs_le _ _ _ _ _ Hf) as Hf'.
  apply (find_loop_spec _ t0 i2 0) in Hf; [|lia|lia].
  destruct Hf as [(x & Hx & Hn & ->)|[-> Hn]].
  - rewrite (proj2 (Z.eqb_neq _ _)) in H by apply info_not_null. cbn [negb] in H.
    apply obs_bind in H as (i3 & [[l b] nm] & Hr & [H3 [= -> ->]]%obs_ret).
    pose proof (obs_le _ _ _ _ _ Hr). pose proof (stage_mono x i i1 ltac:(lia)). pose proof (stage_mono x i3 j ltac:(lia)). specialize (Hst x).
    apply (read_spec t0) in Hr as (t & k & t' & Ht & ? & ? & ? & ? & ?); [|lia..]. left. exists t, x, k, t'. pose proof (count_mono t0 t ltac:(lia)).
    split_and!; (done || lia).
  - cbn in H. pose proof (obs_le _ _ _ _ _ H). apply obs_ret in H as [_ [= -> ->]]. right. split; [done|]. split; [done|].
    exists t0. split; [lia|]. intros x Hx. apply Hn. lia.
Qed.
End Reader.

(** ** The programs of readers *)
Lemma read_only_load l : read_only (load l).
Proof. done. Qed.
Lemma read_only_loadu l : read_only (loadu l).
Proof. done. Qed.
Lemma read_only_forever {B} (body : prog (option B)) : read_only body -> read_only (forever body).
Proof. intros H. split; [|done]. intros _. apply read_only_bind; [done|]. by intros []. Qed.
Lemma read_only_load_bytes n l : read_only (load_bytes n l).
Proof. revert l. induction n as [|n IH]; intros l; [done|]. apply read_only_bind; [done|]. intros c. apply read_only_bind; [apply IH|done]. Qed.
Lemma read_only_name_matches name l : read_only (name_matches name l).
Proof. revert l. induction name as [|c name IH]; intros l; [done|]. split; [done|]. intros x. cbn. case_test; [apply IH|done]. Qed.
Create HintDb readonly.
#[local] Hint Resolve read_only_bind read_only_load read_only_loadu read_only_forever read_only_load_bytes read_only_name_matches : readonly.

Lemma read_only_find pa name : read_only (__system_property_find pa name).
Proof.
  apply read_only_bind; [done|]. intros c. generalize 0 as i. induction (Z.to_nat c) as [|n IH]; intros i; [done|].
  apply read_only_bind; [done|]. intros e. case_test; [apply IH|]. apply read_only_bind; [auto with readonly|]. intros []; [done|apply IH].
Qed.

Lemma read_only_wait_clean pi s : read_only (wait_clean pi s).
Proof. split; [|done]. intros s'. case_test; [|done]. split; [done|]. intros v. apply read_only_bind; [done|done]. Qed.

Lemma read_only_get pa name : read_only (__system_property_get pa name).
Proof.
  apply read_only_bind; [apply read_only_find|]. intros pi. case_test; [|done]. apply read_only_bind; [|done].
  apply read_only_forever, read_only_bind; [done|]. intros s. apply read_only_bind; [apply read_only_wait_clean|]. intros s1.
  apply read_only_bind; [auto with readonly|]. intros v. apply read_only_bind; [done|]. intros s2. by case_test.
Qed.

Lemma read_only_wait pa pi : read_only (__system_property_wait pa pi).
Proof.
  unfold __system_property_wait, wait_change. case_test; (apply read_only_bind; [done|]; intros n; apply read_only_forever;
    split; [done|]; intros v; apply read_only_bind; [done|done]).
Qed.

(** C7.  Whatever the threads of the processes do, as long as the property service follows
    its rules and updates each property fewer than 2^23 times during the call (the counter
    in the serial number has 24 bits and moves by two), __system_property_get answers a
    value that the property of that name had at one moment of the call, with its length and
    never a mixture of two values.  The byte that it leaves behind the value is the one
    behind it in the area while that value was in place, so a terminator if the service
    writes one; the rules of the header only have it copy the bytes of the value.  It
    answers the empty string only if at one moment of the call no property had the name. *)
Theorem property_get_atomic (s : nat -> sys (Z * list Z)) pa `{PropertyService (fun t => smem (s t)) pa} r t0 t1 name len buf :
  execution s t0 t1 -> (t0 <= t1)%nat ->
  sthreads (s t0) !! r = Some (Run (__system_property_get pa name)) ->
  sthreads (s t1) !! r = Some (Run (Ret (len, buf))) ->
  (forall x, Z.of_nat (stage x t1) < Z.of_nat (stage x t0) + 2 ^ 24) ->
  (exists t x k t', (t0 <= t <= t1)%nat /\ (t0 <= t' <= t1)%nat /\ (x < count t)%nat /\ pname x = name /\
    stage x t = (2 * k)%nat /\ stage x t' = (2 * k)%nat /\ len = Z.of_nat (length (version x k)) /\
    buf = version x k ++ [mget (smem (s t')) (pi_value (TOC_TO_INFO pa (toc x)) len)]) \/
  (len = 0 /\ buf = [0] /\ exists t, (t0 <= t <= t1)%nat /\ forall x, (x < count t)%nat -> pname x <> name).
Proof.
  intros He Ht H0 H1 Hst. destruct (execution_obs s r t1 _ t0 _ He Ht H0 (read_only_get pa name) H1) as [_ Ho].
  exact (get_spec _ pa _ _ _ _ _ Hst Ho).
Qed.

(** __system_property_wait ends only after the serial number has changed. *)
Lemma wait_sees_change (s : nat -> sys Z) pa pi r t0 t1 (res : Z) :
  execution s t0 t1 -> (t0 <= t1)%nat ->
  sthreads (s t0) !! r = Some (Run (__system_property_wait pa pi)) -> sthreads (s t1) !! r = Some (Run (Ret res)) ->
  let l := if pi =? 0 then pa_serial pa else pi_serial pi in
  res = 0 /\ exists t t', (t0 <= t <= t')%nat /\ (t' <= t1)%nat /\ u32 (mget (smem (s t)) l) <> u32 (mget (smem (s t')) l).
Proof.
  intros He Ht H0 H1 l. destruct (execution_obs s r t1 _ t0 _ He Ht H0 (read_only_wait pa pi) H1) as [_ Ho].
  assert (obs (fun t => smem (s t)) t0 (wait_change l) t1 res) as Ho'.
  { unfold l, __system_property_wait in *. by destruct (pi =? 0). }
  apply obs_bind in Ho' as (i & n & (t & Ht' & ->)%obs_loadu & Ho'). apply obs_forever in Ho' as (i1 & i2 & Hi1 & Hb & Hi2).
  apply obs_bind in Hb as (i3 & v & Hv%obs_le & Hb). apply obs_bind in Hb as (i4 & n' & (t' & Ht2 & ->)%obs_loadu & [H4 E]%obs_ret).
  destruct (Z.eqb_spec (u32 (mget (smem (s t)) l)) (u32 (mget (smem (s t')) l))); [done|]. injection E as ->.
  split; [done|]. exists t, t'. split; [lia|]. split; [lia|done].
Qed.

(** ** A reader alone *)

(** Programs of loads alone end. *)
Fixpoint loads_only {A} (p : prog A) : Prop :=
  match p with
  | Ret _ => True
  | Act (ALoad _) k => forall v, loads_only (k v)
  | _ => False
  end.
Lemma loads_only_bind {A B} (p : prog A) (f : A -> prog B) : loads_only p -> (forall a, loads_only (f a)) -> loads_only (bind p f).
Proof. induction p as [a|A [] k IH|A X Y body _ x k IH]; intros H Hf; cbn in *; try done. intros v. apply IH; [apply H|done]. Qed.
Lemma loads_only_runs {A} now m (p : prog A) : loads_only p -> exists a, runs now m p a m.
Proof.
  induction p as [A a|A [] k IH|A X Y body _ x k IH]; intros H; cbn in *; try done.
  - exists a. apply runs_ret.
  - destruct (IH (mget m l)) as [a Ha]; [apply H|]. exists a. by eapply runs_exec.
Qed.

Lemma runs_obs {A} now m (p : prog A) a m' : runs now m p a m' -> read_only p -> m' = m /\ obs (fun _ => m) 0 p 0 a.
Proof.
  intros [f H]. revert p H. induction f as [|f IH]; intros p H Hr; [done|]. cbn in H. destruct p as [b|ac k|X B body x k].
  - injection H as -> ->. split; [done|]. by exists 1%nat.
  - destruct Hr as [Ha Hk]. destruct ac; try done.
    + destruct (IH _ H (Hk _)) as [-> [n Hn]]. split; [done|]. exists (S n). cbn. by exists 0%nat.
    + case_test_in H; [done|]. destruct (IH _ H (Hk _)) as [-> [n Hn]]. split; [done|]. exists (S n). cbn. exists 0%nat. eauto.
  - destruct (IH _ H (read_only_unroll (Loop body x k) _ eq_refl Hr)) as [-> [n Hn]]. split; [done|]. by exists (S n).
Qed.

Lemma loads_only_find pa name : loads_only (__system_property_find pa name).
Proof.
  apply loads_only_bind; [done|]. intros c. generalize 0 as i. induction (Z.to_nat c) as [|n IH]; intros i; [done|].
  apply loads_only_bind; [done|]. intros e. case_test; [apply IH|]. apply loads_only_bind.
  - generalize (pi_name (TOC_TO_INFO pa e) 0) as l. clear. induction name as [|c name IH]; intros l; [done|]. intros x. cbn. case_test; [apply IH|done].
  - intros []; [done|apply IH].
Qed.
Lemma loads_only_bytes n l : loads_only (load_bytes n l).
Proof. revert l. induction n as [|n IH]; intros l; [done|]. apply loads_only_bind; [done|]. intros v. apply loads_only_bind; [apply IH|done]. Qed.

Lemma runs_load_unsigned now m l : runs now m (loadu l) (u32 (mget m l)) m.
Proof. eapply runs_bind; [apply runs_load|apply runs_ret]. Qed.

(** With no update under way, a read is one round. *)
Lemma read_alone now m pi :
  SERIAL_DIRTY (u32 (mget m (pi_serial pi))) = false -> exists r, runs now m (__system_property_read pi false) r m.
Proof.
  intros Hd. set (s := u32 (mget m (pi_serial pi))) in *.
  destruct (loads_only_runs now m (load_bytes (Z.to_nat (SERIAL_VALUE_LEN s + 1)) (pi_value pi 0))) as [v Hv]; [apply loads_only_bytes|].
  set (r := (SERIAL_VALUE_LEN s, v, @None (list Z))). exists r. apply runs_loop.
  eapply (runs_bind _ _ _ _ (inr r)); [|apply runs_ret]. eapply (runs_bind _ _ _ _ (Some r)); [|apply runs_ret].
  eapply runs_bind; [apply runs_load_unsigned|]. eapply runs_bind.
  { apply runs_loop. fold s. rewrite Hd. apply runs_ret. }
  eapply runs_bind; [exact Hv|]. eapply runs_bind; [apply runs_load_unsigned|]. fold s. rewrite Z.eqb_refl. apply runs_ret.
Qed.

(** Alone, with no update under way, __system_property_get returns, and answers the current
    value of the property and the byte behind it, or the empty string if there is none of
    that name. *)
Theorem property_get_returns now m pa `{PropertyService (fun _ => m) pa} name :
  (forall x, Nat.Even (stage x 0)) ->
  exists len buf, runs now m (__system_property_get pa name) (len, buf) m /\
    ((exists x k, (x < count 0)%nat /\ pname x = name /\ stage x 0 = (2 * k)%nat /\
       len = Z.of_nat (length (version x k)) /\ buf = version x k ++ [mget m (pi_value (TOC_TO_INFO pa (toc x)) len)]) \/
     (len = 0 /\ buf = [0] /\ forall x, (x < count 0)%nat -> pname x <> name)).
Proof.
  intros Hev. assert (exists r, runs now m (__system_property_get pa name) r m) as [[len buf] Hr].
  - destruct (loads_only_runs now m _ (loads_only_find pa name)) as [pi Hf]. pose proof (runs_obs _ _ _ _ _ Hf (read_only_find pa name)) as [_ Ho].
    apply obs_bind in Ho as (i & c & (t & Ht & ->)%(count_at _ pa) & Ho). rewrite Nat2Z.id in Ho. pose proof (obs_le _ _ _ _ _ Ho).
    destruct (Z.eqb_spec pi 0) as [->|Hne].
    + exists (0, [0]). eapply runs_bind; [exact Hf|apply runs_ret].
    + apply (find_loop_spec _ pa _ t i 0) in Ho as [(x & Hx & _ & ->)|[-> _]]; [|done|lia|lia].
      destruct (Hev x) as [k Ek]. assert (t = 0%nat) as -> by lia.
      destruct (read_alone now m (TOC_TO_INFO pa (toc x))) as [rr Hrr].
      { pose proof (clean_serial 0 x k ltac:(lia) Ek) as Es. cbn beta in Es. rewrite Es. apply serial_clean. by rewrite Z.even_add, first_even, Z.even_mul. }
      exists (rr.1). eapply runs_bind; [exact Hf|]. rewrite (proj2 (Z.eqb_neq _ _)) by done. eapply runs_bind; [exact Hrr|apply runs_ret].
  - exists len, buf. split; [done|]. pose proof (runs_obs _ _ _ _ _ Hr (read_only_get pa name)) as [_ Ho].
    apply (get_spec _ pa) in Ho as [(t & x & k & t' & Ht & _ & ? & ? & ? & _ & ? & ?)|(? & ? & t & Ht & ?)]; [| |lia].
    + assert (t = 0%nat) as -> by lia. left. by exists x, k.
    + assert (t = 0%nat) as -> by lia. by right.
Qed.

(** ** An execution with an update

    The property abc has the value xy; while a reader copies it, the service makes it z. *)
Definition prop_demo_mem : mem :=
  list_to_map [(1000, 1); (1032, serial_of 3 100);
    (1100, 97); (1101, 98); (1102, 99); (1103, 0);
    (1132, serial_of 2 6); (1136, 120); (1137, 121); (1138, 0)].
Definition prop_demo_update : prog (Z * list Z) :=
  store 1132 (serial_of 2 7) ;;; store 1136 122 ;;; store 1137 0 ;;; store 1132 (serial_of 1 8) ;;; Ret (0, []).
Definition prop_demo_init : sys (Z * list Z) :=
  Sys prop_demo_mem {[1 := Run (__system_property_get 1000 [97; 98; 99]); 2 := Run prop_demo_update]}.
Definition prop_demo_schedule : list tid := replicate 9 1 ++ [2; 2; 1; 1; 2; 2] ++ replicate 7 1.
Definition prop_demo (t : nat) : sys (Z * list Z) := default prop_demo_init (sched prop_demo_init (take t prop_demo_schedule)).
Definition prop_demo_stage (t : nat) : nat := if (t <? 10)%nat then 0 else if (t <? 15)%nat then 1 else 2.
Definition prop_demo_version (k : nat) : list Z := match k with O => [120; 121] | _ => [122] end.

(** The words that the rules speak of, at a stage. *)
Definition prop_demo_words (st : nat) : list (loc * Z) :=
  [(1000, 1); (1032, serial_of 3 100); (1100, 97); (1101, 98); (1102, 99)] ++
  match st with
  | O => [(1132, serial_of 2 6); (1136, 120); (1137, 121); (1138, 0)]
  | 1%nat => [(1132, serial_of 2 7)]
  | _ => [(1132, serial_of 1 8); (1136, 122); (1137, 0)]
  end.
Definition prop_demo_ok (t : nat) : bool :=
  forallb (fun lv => mget (smem (prop_demo t)) lv.1 =? lv.2) (prop_demo_words (prop_demo_stage t)).

Lemma prop_demo_holds t l v : (l, v) ∈ prop_demo_words (prop_demo_stage t) -> mget (smem (prop_demo t)) l = v.
Proof.
  intros Hin. assert (prop_demo_ok t = true) as Hok.
  - destruct (decide (t < 22)%nat) as [Ht|Ht].
    + assert (forallb prop_demo_ok (seq 0 22) = true) as Hall by (vm_compute; reflexivity).
      rewrite forallb_forall in Hall. apply Hall, in_seq. lia.
    + assert (prop_demo t = prop_demo 22) as E by (unfold prop_demo; by rewrite take_ge by (cbn; lia)).
      assert (prop_demo_stage t = 2%nat) as Es.
      { unfold prop_demo_stage. by rewrite !(proj2 (Nat.ltb_ge _ _)) by lia. }
      unfold prop_demo_ok. rewrite E, Es. vm_compute. reflexivity.
  - unfold prop_demo_ok in Hok. rewrite forallb_forall in Hok. apply list_elem_of_In, Hok in Hin. cbn in Hin. by apply Z.eqb_eq.
Qed.

(** The words that never change. *)
Lemma prop_demo_fixed t l v :
  (l, v) ∈ [(1000, 1); (1032, serial_of 3 100); (1100, 97); (1101, 98); (1102, 99)] -> mget (smem (prop_demo t)) l = v.
Proof. intros H. apply prop_demo_holds, elem_of_app. by left. Qed.

Definition prop_demo_service : PropertyService (fun t => smem (prop_demo t)) 1000.
Proof.
  refine {| count _ := 1%nat; toc _ := serial_of 3 100; pname _ := [97; 98; 99]; stage _ := prop_demo_stage;
    version _ := prop_demo_version; first_serial _ := 6 |}.
  - intros t. exact (f_equal u32 (prop_demo_fixed t 1000 1 ltac:(set_solver))).
  - done.
  - intros t i Hi. assert (i = 0%nat) as -> by lia. exact (f_equal u32 (prop_demo_fixed t 1032 (serial_of 3 100) ltac:(set_solver))).
  - done.
  - done.
  - intros t i k c _ Hk. destruct k as [|[|[|k]]]; [| | |done]; injection Hk as <-; apply prop_demo_fixed; cbn; set_solver.
  - intros _ t t' Ht. unfold prop_demo_stage.
    destruct (Nat.ltb_spec t 10), (Nat.ltb_spec t 15), (Nat.ltb_spec t' 10), (Nat.ltb_spec t' 15); lia.
  - done.
  - intros _ [|k]; cbn; lia.
  - intros t _ k _ Hs. pose proof (prop_demo_holds t) as Hw. rewrite Hs in Hw.
    destruct k as [|[|k]]; cbn in Hw; 
      [exact (f_equal u32 (Hw 1132 (serial_of 2 6) ltac:(set_solver)))|exact (f_equal u32 (Hw 1132 (serial_of 1 8) ltac:(set_solver)))|].
    exfalso. unfold prop_demo_stage in Hs. destruct (t <? 10)%nat, (t <? 15)%nat; lia.
  - intros t _ k x c _ Hs Hx. pose proof (prop_demo_holds t) as Hw. rewrite Hs in Hw.
    destruct k as [|[|k]]; cbn in Hw, Hx.
    + destruct x as [|[|x]]; [| |done]; injection Hx as <-; apply Hw; cbn; set_solver.
    + destruct x as [|x]; [|done]; injection Hx as <-; apply Hw; cbn; set_solver.
    + exfalso. unfold prop_demo_stage in Hs. destruct (t <? 10)%nat, (t <? 15)%nat; lia.
  - intros t _ k _ Hs. pose proof (prop_demo_holds t) as Hw. rewrite Hs in Hw. assert (k = 0%nat) as ->.
    { unfold prop_demo_stage in Hs. destruct (t <? 10)%nat, (t <? 15)%nat; lia. }
    cbn in Hw. change (SERIAL_DIRTY (u32 (mget (smem (prop_demo t)) 1132)) = true). rewrite (Hw 1132 (serial_of 2 7)) by set_solver. done.
Defined.

Lemma prop_demo_execution : execution prop_demo 0 22.
Proof.
  intros t [_ Ht]. assert (forallb (fun t => match sched prop_demo_init (take t prop_demo_schedule) with Some _ => true | None => false end) (seq 0 23) = true)
    as Hall by (vm_compute; reflexivity).
  rewrite forallb_forall in Hall. pose proof (Hall t ltac:(apply in_seq; lia)) as H1. pose proof (Hall (S t) ltac:(apply in_seq; lia)) as H2. cbn beta in *.
  unfold prop_demo. destruct (sched prop_demo_init (take t prop_demo_schedule)) as [s1|] eqn:E1; [|done].
  destruct (sched prop_demo_init (take (S t) prop_demo_schedule)) as [s2|] eqn:E2; [|done].
  destruct (lookup_lt_is_Some_2 prop_demo_schedule t ltac:(cbn; lia)) as [r Hr].
  rewrite (take_S_r _ _ _ Hr), sched_snoc, E1 in E2. by eapply sched1_step.
Qed.

Lemma property_get_atomic_witness :
  (exists t x k t', (0 <= t <= 22)%nat /\ (0 <= t' <= 22)%nat /\ (x < 1)%nat /\ [97; 98; 99] = [97; 98; 99] /\
    prop_demo_stage t = (2 * k)%nat /\ prop_demo_stage t' = (2 * k)%nat /\ 1 = Z.of_nat (length (prop_demo_version k)) /\
    [122; 0] = prop_demo_version k ++ [mget (smem (prop_demo t')) (pi_value 1100 1)]) \/
  (1 = 0 /\ [122; 0] = [0] /\ exists t, (0 <= t <= 22)%nat /\ forall x, (x < 1)%nat -> [97; 98; 99] <> [97; 98; 99]).
Proof.
  refine (@property_get_atomic prop_demo 1000 prop_demo_service 1 0 22 [97; 98; 99] 1 [122; 0] prop_demo_execution _ _ _ _).
  - lia.
  - reflexivity.
  - vm_compute. reflexivity.
  - intros x. vm_compute. reflexivity.
Defined.

(** The area before the update. *)
Definition prop_demo_static : PropertyService (fun _ => prop_demo_mem) 1000.
Proof.
  refine {| count _ := 1%nat; toc _ := serial_of 3 100; pname _ := [97; 98; 99]; stage _ _ := 0%nat;
    version _ _ := [120; 121]; first_serial _ := 6 |}; try done.
  - intros t i Hi. assert (i = 0%nat) as -> by lia. done.
  - intros t i k c _ Hk. destruct k as [|[|[|k]]]; [| | |done]; injection Hk as <-; done.
  - intros t i k _ Hs. assert (k = 0%nat) as -> by lia. done.
  - intros t i k x c _ _ Hx. destruct x as [|[|x]]; [| |done]; injection Hx as <-; done.
  - intros t i k _ Hs. lia.
Defined.

Lemma property_get_returns_witness :
  exists len buf, runs 0 prop_demo_mem (__system_property_get 1000 [97; 98; 99]) (len, buf) prop_demo_mem /\
    ((exists x k, (x < 1)%nat /\ [97; 98; 99] = [97; 98; 99] /\ 0%nat = (2 * k)%nat /\ len = 2 /\
       buf = [120; 121] ++ [mget prop_demo_mem (pi_value 1100 len)]) \/
     (len = 0 /\ buf = [0] /\ forall x, (x < 1)%nat -> [97; 98; 99] <> [97; 98; 99])).
Proof.
  refine (@property_get_returns 0 prop_demo_mem 1000 prop_demo_static [97; 98; 99] _). intros x. by exists 0%nat.
Defined.
