(* ===== verification/Timers.v ===== *)
(** * Timers with threads (libc/bionic/pthread-timers.c)

    A timer of type SIGEV_THREAD is an entry of a table and has a thread that waits
    for its expiry and calls the callback.  The table with its list of free timers is
    a record of lists and indices; what a function does under one lock is one
    operation on it.  The kernel's own timers, the clock, pthread_create and the
    waiting of the thread are arguments.  Seconds and nanoseconds are integers: the
    model holds as long as a time_t holds the times. *)
From stdpp Require Import gmap.
From S2P Require Import Prelude Concur.

(** ** Times (libc/bionic/pthread_internal.h) *)
Definition timespec_add (a b : timespec) : timespec :=
  let sec := a.1 + b.1 in
  let nsec := a.2 + b.2 in
  if 1000000000 <=? nsec then (sec + 1, nsec - 1000000000) else (sec, nsec).
Definition timespec_sub (a b : timespec) : timespec :=
  let sec := a.1 - b.1 in
  let nsec := a.2 - b.2 in
  if nsec <? 0 then (sec - 1, nsec + 1000000000) else (sec, nsec).
Definition timespec_zero : timespec := (0, 0).
Definition timespec_is_zero (a : timespec) : bool := (a.1 =? 0) && (a.2 =? 0).
Definition timespec_cmp (a b : timespec) : Z :=
  if a.1 <? b.1 then -1 else if b.1 <? a.1 then 1
  else if a.2 <? b.2 then -1 else if b.2 <? a.2 then 1 else 0.
Definition timespec_cmp0 (a : timespec) : Z :=
  if a.1 <? 0 then -1 else if 0 <? a.1 then 1
  else if a.2 <? 0 then -1 else if 0 <? a.2 then 1 else 0.

(** ** The table *)
Definition TIMER_ID_WRAP_BIT : Z := 0x80000000.
Definition TIMER_ID_WRAP (id : Z) : Z := Z.lor id TIMER_ID_WRAP_BIT.
Definition TIMER_ID_UNWRAP (id : Z) : Z := Z.ldiff id TIMER_ID_WRAP_BIT.
Definition TIMER_ID_IS_WRAPPED (id : Z) : bool := negb (Z.land id TIMER_ID_WRAP_BIT =? 0).
Definition TIMER_ID_NONE : Z := 0xffffffff.
Definition TIMER_ID_IS_VALID (id : Z) : bool := negb (id =? TIMER_ID_NONE).
Definition DELAYTIMER_MAX : Z := 0x7fffffff.
Definition MAX_THREAD_TIMERS : nat := 32.

(** struct thr_timer, without its lock and condition variable.  Pointers to callbacks
    and attributes are integers. *)
Record thr_timer : Type := Timer {
  tm_next : option nat; tm_id : Z; tm_clock : Z; tm_thread : Z; tm_attributes : Z; tm_callback : Z; tm_value : Z;
  tm_done : bool; tm_stopped : bool; tm_expires : timespec; tm_period : timespec; tm_overruns : Z }.

Record thr_timer_table : Type := Table { free_timer : option nat; timers : list thr_timer }.

(** All bytes 0, as after memset. *)
Definition timer0 : thr_timer := Timer None 0 0 0 0 0 0 false false (0, 0) (0, 0) 0.

Definition set_next (n : option nat) (t : thr_timer) : thr_timer :=
  Timer n (tm_id t) (tm_clock t) (tm_thread t) (tm_attributes t) (tm_callback t) (tm_value t) (tm_done t) (tm_stopped t) (tm_expires t) (tm_period t) (tm_overruns t).
Definition set_id (i : Z) (t : thr_timer) : thr_timer :=
  Timer (tm_next t) i (tm_clock t) (tm_thread t) (tm_attributes t) (tm_callback t) (tm_value t) (tm_done t) (tm_stopped t) (tm_expires t) (tm_period t) (tm_overruns t).
Definition set_thread (th : Z) (t : thr_timer) : thr_timer :=
  Timer (tm_next t) (tm_id t) (tm_clock t) th (tm_attributes t) (tm_callback t) (tm_value t) (tm_done t) (tm_stopped t) (tm_expires t) (tm_period t) (tm_overruns t).
Definition set_done (b : bool) (t : thr_timer) : thr_timer :=
  Timer (tm_next t) (tm_id t) (tm_clock t) (tm_thread t) (tm_attributes t) (tm_callback t) (tm_value t) b (tm_stopped t) (tm_expires t) (tm_period t) (tm_overruns t).
Definition set_stopped (b : bool) (t : thr_timer) : thr_timer :=
  Timer (tm_next t) (tm_id t) (tm_clock t) (tm_thread t) (tm_attributes t) (tm_callback t) (tm_value t) (tm_done t) b (tm_expires t) (tm_period t) (tm_overruns t).
Definition set_times (e p : timespec) (t : thr_timer) : thr_timer :=
  Timer (tm_next t) (tm_id t) (tm_clock t) (tm_thread t) (tm_attributes t) (tm_callback t) (tm_value t) (tm_done t) (tm_stopped t) e p (tm_overruns t).
Definition set_overruns (n : Z) (t : thr_timer) : thr_timer :=
  Timer (tm_next t) (tm_id t) (tm_clock t) (tm_thread t) (tm_attributes t) (tm_callback t) (tm_value t) (tm_done t) (tm_stopped t) (tm_expires t) (tm_period t) n.

(** The two loops: all the ids, then the list of the free timers. *)
Definition thr_timer_table_init : thr_timer_table :=
  let ts := replicate MAX_THREAD_TIMERS timer0 in
  let ts := set_id TIMER_ID_NONE <$> ts in
  let ts := foldl (fun ts nn => alter (set_next (Some nn)) (nn - 1)%nat ts) ts (seq 1 (MAX_THREAD_TIMERS - 1)) in
  Table (Some 0%nat) ts.

(** [None] is an index outside the table. *)
Definition thr_timer_table_alloc (t : option thr_timer_table) : option (option thr_timer_table * option nat) :=
  match t with
  | None => Some (None, None)
  | Some t =>
      match free_timer t with
      | None => Some (Some t, None)
      | Some i =>
          timer ← timers t !! i;
          let ts := <[i := set_id (TIMER_ID_WRAP (Z.of_nat i)) (set_next None timer)]> (timers t) in
          Some (Some (Table (tm_next timer) ts), Some i)
      end
  end.

Definition thr_timer_table_free (t : thr_timer_table) (i : nat) : option thr_timer_table :=
  timer ← timers t !! i;
  Some (Table (Some i) (<[i := set_next (free_timer t) (set_thread 0 (set_id TIMER_ID_NONE timer))]> (timers t))).

Definition thr_timer_table_start_stop (t : thr_timer_table) (stop : bool) : thr_timer_table :=
  Table (free_timer t) ((fun timer => if TIMER_ID_IS_VALID (tm_id timer) then set_stopped stop timer else timer) <$> timers t).

(** Answers the table and the index of the timer, or no timer. *)
Definition thr_timer_table_from_id (t : option thr_timer_table) (id : Z) (remove : bool)
    : option (option thr_timer_table * option nat) :=
  match t with
  | None => Some (None, None)
  | Some t =>
      if negb (TIMER_ID_IS_WRAPPED id) then Some (Some t, None)
      else
        let index := u32 (TIMER_ID_UNWRAP id) in
        if Z.of_nat MAX_THREAD_TIMERS <=? index then Some (Some t, None)
        else
          let i := Z.to_nat index in
          timer ← timers t !! i;
          if negb (TIMER_ID_IS_VALID (tm_id timer)) then Some (Some t, None)
          else if remove then Some (Some (Table (free_timer t) (<[i := set_id TIMER_ID_NONE timer]> (timers t))), Some i)
          else Some (Some t, Some i)
  end.

(** pthread_once( &__timer_table_once, __timer_table_init ): [once] tells that it ran, and
    [calloc] that there is memory. *)
Definition __timer_table_get (once : bool) (table : option thr_timer_table) (calloc : bool) : option thr_timer_table :=
  if once then table else if calloc then Some thr_timer_table_init else None.

Definition __timer_table_start_stop (table : option thr_timer_table) (stop : bool) : option thr_timer_table :=
  match table with
  | Some t => Some (thr_timer_table_start_stop t stop)
  | None => None
  end.

(** ** The functions of a timer

    The operations below are on one timer, under its lock. *)

Definition timer_gettime_internal (timer : thr_timer) (now : timespec) : timespec * timespec :=
  let diff := tm_expires timer in
  let diff :=
    if negb (timespec_is_zero diff) then
      let diff := timespec_sub diff now in
      if timespec_cmp0 diff <? 0 then timespec_zero else diff
    else diff in
  (diff, tm_period timer).

(** [spec] is it_value and it_interval; answers the timer and *ospec, if [want]ed. *)
Definition TIMER_ABSTIME : Z := 1.
Definition timer_settime_locked (timer : thr_timer) (flags : Z) (spec : timespec * timespec) (want : bool) (now0 now : timespec)
    : thr_timer * option (timespec * timespec) :=
  let ospec := if want then Some (timer_gettime_internal timer now0) else None in
  let expires := spec.1 in
  let expires :=
    if negb (timespec_is_zero expires) then
      if Z.land flags TIMER_ABSTIME =? 0 then timespec_add expires now
      else if timespec_cmp expires now <? 0 then now else expires
    else expires in
  (set_times expires spec.2 timer, ospec).

(** The fields that timer_create sets in a timer from the table.  [attr] is *attributes with
    the detached state. *)
Definition timer_create_init (timer : thr_timer) (clockid attr callback value : Z) : thr_timer :=
  Timer (tm_next timer) (tm_id timer) clockid (tm_thread timer) attr callback value false false timespec_zero timespec_zero 0.

(** *** The calls *)
Inductive call_result : Type :=
| Kernel (ret : Z)            (** the result of the system call *)
| Failed (errno : Z)          (** -1 and errno *)
| Success (ret : Z).

(** evp: the notification is SIGEV_THREAD or not, the function (0 is NULL), attributes and value. *)
Record sigevent : Type := Sigevent { sigev_thread : bool; sigev_function : Z; sigev_attributes : Z; sigev_value : Z }.

(** What timer_create does with the timer [i] that it was given.  pthread_create answers 0 and
    sets the thread, or answers an error number. *)
Definition timer_create_finish (t : thr_timer_table) (i : nat) (clockid : Z) (evp : sigevent) (create : Z * Z)
    : option (thr_timer_table * call_result * option Z) :=
  timer ← timers t !! i;
  let timer := timer_create_init timer clockid (sigev_attributes evp) (sigev_function evp) (sigev_value evp) in
  if create.1 <? 0 then
    t ← thr_timer_table_free (Table (free_timer t) (<[i := timer]> (timers t))) i;
    Some (t, Failed ENOMEM, None)
  else
    let timer := if create.1 =? 0 then set_thread create.2 timer else timer in
    Some (Table (free_timer t) (<[i := timer]> (timers t)), Success 0, Some (tm_id timer)).

(** timer_create: [clock_err] is the errno of clock_gettime if it failed, [create] the result of
    pthread_create and the thread.  Answers the table, the result and *ptimerid. *)
Definition timer_create (table : option thr_timer_table) (kernel : Z) (clockid : Z) (evp : option sigevent)
    (clock_err : option Z) (create : Z * Z) : option (option thr_timer_table * call_result * option Z) :=
  match evp with
  | Some evp =>
      if negb (sigev_thread evp) then Some (table, Kernel kernel, None)
      else if sigev_function evp =? 0 then Some (table, Failed EINVAL, None)
      else if match clock_err with Some e => e =? EINVAL | None => false end then Some (table, Failed EINVAL, None)
      else
        '(table, timer) ← thr_timer_table_alloc table;
        match timer, table with
        | Some i, Some t =>
            '(t, r, id) ← timer_create_finish t i clockid evp create;
            Some (Some t, r, id)
        | _, _ => Some (table, Failed ENOMEM, None)
        end
  | None => Some (table, Kernel kernel, None)
  end.

(** A call with a timer id: [body] is what is done with the timer under its lock. *)
Definition with_timer (table : option thr_timer_table) (id : Z) (remove : bool) (body : thr_timer -> thr_timer * Z)
    : option (option thr_timer_table * call_result) :=
  '(table, timer) ← thr_timer_table_from_id table id remove;
  match timer, table with
  | Some i, Some t =>
      timer ← timers t !! i;
      let '(timer, ret) := body timer in
      Some (Some (Table (free_timer t) (<[i := timer]> (timers t))), Success ret)
  | _, _ => Some (table, Failed EINVAL)
  end.

Definition timer_delete (table : option thr_timer_table) (kernel id : Z) : option (option thr_timer_table * call_result) :=
  if negb (TIMER_ID_IS_WRAPPED id) then Some (table, Kernel kernel)
  else with_timer table id true (fun timer => (set_done true timer, 0)).

Definition timer_getoverrun (table : option thr_timer_table) (kernel id : Z) : option (option thr_timer_table * call_result) :=
  if negb (TIMER_ID_IS_WRAPPED id) then Some (table, Kernel kernel)
  else with_timer table id false (fun timer => (timer, tm_overruns timer)).

(** Answers the call's result and *ospec; [null] tells that ospec is NULL. *)
Definition timer_gettime (table : option thr_timer_table) (kernel id : Z) (null : bool) (now : timespec)
    : option (call_result * option (timespec * timespec)) :=
  if null then Some (Failed EINVAL, None)
  else if negb (TIMER_ID_IS_WRAPPED id) then Some (Kernel kernel, None)
  else
    '(table, timer) ← thr_timer_table_from_id table id false;
    match timer, table with
    | Some i, Some t => timer ← timers t !! i; Some (Success 0, Some (timer_gettime_internal timer now))
    | _, _ => Some (Failed EINVAL, None)
    end.

Definition timer_settime (table : option thr_timer_table) (kernel id flags : Z) (spec : option (timespec * timespec)) (want : bool)
    (now0 now : timespec) : option (option thr_timer_table * call_result * option (timespec * timespec)) :=
  match spec with
  | None => Some (table, Failed EINVAL, None)
  | Some spec =>
      if negb (TIMER_ID_IS_WRAPPED id) then Some (table, Kernel kernel, None)
      else
        '(table, timer) ← thr_timer_table_from_id table id false;
        match timer, table with
        | Some i, Some t =>
            timer ← timers t !! i;
            let '(timer, ospec) := timer_settime_locked timer flags spec want now0 now in
            Some (Some (Table (free_timer t) (<[i := timer]> (timers t))), Success 0, ospec)
        | _, _ => Some (table, Failed EINVAL, None)
        end
  end.

(** *** The thread of a timer

    Where the thread is: at the head of its loop; in pthread_cond_wait; in the timed wait,
    with its copies of expires and period and the time it waits; in the callback; after
    the loop. *)
Inductive timer_pc : Type :=
| PTop
| PWait
| PTimed (expires period diff : timespec)
| PCallback
| PFree.

(** do { ... } while ( timespec_cmp( &expires, &now ) < 0 ) *)
Fixpoint overrun_loop (fuel : nat) (expires period now : timespec) (overruns : Z) : option (timespec * Z) :=
  match fuel with
  | O => None
  | S fuel =>
      let expires := timespec_add expires period in
      let overruns := if overruns <? DELAYTIMER_MAX then overruns + 1 else overruns in
      if timespec_cmp expires now <? 0 then overrun_loop fuel expires period now overruns else Some (expires, overruns)
  end.

(** A time in nanoseconds, and the rounds after which the loop has passed [now]. *)
Definition ns (t : timespec) : Z := t.1 * 1000000000 + t.2.
Definition overrun_fuel (expires period now : timespec) : nat := Z.to_nat ((ns now - ns expires) / ns period + 1).

(** Reload or disarm the timer, before the callback. *)
Definition timer_fire (timer : thr_timer) (expires period : timespec) : thr_timer * timer_pc :=
  let expires := if negb (timespec_is_zero period) then timespec_add expires period else timespec_zero in
  (set_times expires (tm_period timer) timer, PCallback).

(** From the head of the loop to the next point where the lock is released. *)
Definition timer_thread_top (timer : thr_timer) (now : timespec) : option (thr_timer * timer_pc) :=
  if tm_done timer then Some (timer, PFree)
  else
    let expires := tm_expires timer in
    let period := tm_period timer in
    if tm_stopped timer || timespec_is_zero expires then Some (timer, PWait)
    else if 0 <? timespec_cmp expires now then Some (timer, PTimed expires period (timespec_sub expires now))
    else if negb (timespec_is_zero period) then
      '(expires, overruns) ← overrun_loop (overrun_fuel expires period now) expires period now (tm_overruns timer);
      let expires := timespec_sub expires period in
      Some (timer_fire (set_overruns overruns timer) expires period)
    else Some (timer_fire (set_overruns 1 timer) expires period).

(** After the timed wait, with its result. *)
Definition timer_thread_timed (timer : thr_timer) (expires period : timespec) (ret : Z) : thr_timer * timer_pc :=
  if negb (ret =? ETIMEDOUT) then (timer, PTop) else timer_fire timer expires period.

(** After the callback. *)
Definition timer_thread_called (timer : thr_timer) : thr_timer * timer_pc := (set_overruns 0 timer, PTop).

(** ** Times as nanoseconds *)
Definition normal (t : timespec) : Prop := 0 <= t.2 < 1000000000.

Lemma timespec_add_ns a b : normal a -> normal b -> normal (timespec_add a b) /\ ns (timespec_add a b) = ns a + ns b.
Proof. unfold normal, ns, timespec_add. intros. case_test; zbool; cbn; lia. Qed.
Lemma timespec_sub_ns a b : normal a -> normal b -> normal (timespec_sub a b) /\ ns (timespec_sub a b) = ns a - ns b.
Proof. unfold normal, ns, timespec_sub. intros. case_test; zbool; cbn; lia. Qed.
Lemma timespec_cmp_ns a b : normal a -> normal b -> timespec_cmp a b = match ns a ?= ns b with Lt => -1 | Eq => 0 | Gt => 1 end.
Proof. unfold normal, ns, timespec_cmp. intros. repeat case_test; zbool; destruct (Z.compare_spec (a.1 * 1000000000 + a.2) (b.1 * 1000000000 + b.2)); lia. Qed.
Lemma timespec_cmp0_ns a : normal a -> (timespec_cmp0 a <? 0) = (ns a <? 0).
Proof. unfold normal, ns, timespec_cmp0. intros. repeat case_test; zbool; symmetry; first [apply Z.ltb_lt | apply Z.ltb_ge]; lia. Qed.
Lemma ns_inj a b : normal a -> normal b -> ns a = ns b -> a = b.
Proof. unfold normal, ns. destruct a as [s n], b as [s' n']. cbn. intros. assert (s = s') by lia. f_equal; lia. Qed.
Lemma timespec_is_zero_ns a : normal a -> timespec_is_zero a = (ns a =? 0).
Proof.
  unfold normal, ns, timespec_is_zero. intros. destruct (Z.eqb_spec (a.1 * 1000000000 + a.2) 0) as [E|E].
  - apply andb_true_iff. split; apply Z.eqb_eq; lia.
  - apply andb_false_iff. rewrite !Z.eqb_neq. lia.
Qed.
Lemma timespec_add_sub a b : normal a -> normal b -> timespec_add (timespec_sub a b) b = a.
Proof.
  intros Ha Hb. destruct (timespec_sub_ns a b Ha Hb) as [Hn E]. destruct (timespec_add_ns _ b Hn Hb) as [Hn' E'].
  apply ns_inj; [done..|lia].
Qed.

(** ** The round of a thread *)

(** The loop stops at the first of expires + period, expires + 2 period, ... that is not before
    now. *)
Lemma overrun_loop_spec fuel e p now o :
  normal e -> normal p -> normal now -> 0 < ns p -> ns now <= ns e + Z.of_nat fuel * ns p -> (0 < fuel)%nat ->
  0 <= o <= DELAYTIMER_MAX ->
  exists k e', 1 <= k <= Z.of_nat fuel /\ overrun_loop fuel e p now o = Some (e', Z.min DELAYTIMER_MAX (o + k)) /\ normal e' /\
    ns e' = ns e + k * ns p /\ ns now <= ns e' /\ (1 < k -> ns e' - ns p < ns now).
Proof.
  intros He Hp Hn Hpos. revert e o He. induction fuel as [|fuel IH]; intros e o He Hf H0 Ho; [lia|]. cbn [overrun_loop].
  destruct (timespec_add_ns e p He Hp) as [He1 E1]. set (e1 := timespec_add e p) in *.
  set (o1 := if o <? DELAYTIMER_MAX then o + 1 else o).
  assert (o1 = Z.min DELAYTIMER_MAX (o + 1)) as Eo by (unfold o1, DELAYTIMER_MAX in *; case_test; zbool; lia).
  rewrite timespec_cmp_ns by done. destruct (Z.compare_spec (ns e1) (ns now)) as [Hc|Hc|Hc]; cbn [Z.ltb Z.compare].
  - exists 1, e1. split_and!; (done || lia || (rewrite Eo; done)).
  - destruct fuel as [|fuel]; [lia|].
    destruct (IH e1 o1 He1) as (k & e' & Hk & -> & Hn' & Ee & Hge & Hlt); [lia|lia|unfold DELAYTIMER_MAX in *; lia|].
    exists (k + 1), e'. split_and!; try (done || lia).
    + do 2 f_equal. rewrite Eo. unfold DELAYTIMER_MAX in *. lia.
    + intros _. destruct (decide (1 < k)); [by apply Hlt|]. assert (k = 1) as -> by lia. lia.
  - exists 1, e1. split_and!; (done || lia || (rewrite Eo; done)).
Qed.

Definition timer_ok (t : thr_timer) : Prop := normal (tm_expires t) /\ normal (tm_period t) /\ 0 <= ns (tm_period t) /\ 0 <= tm_overruns t <= DELAYTIMER_MAX.

(** C16.  A round of a timer's thread that finds an armed timer due ends in the callback, whatever the
    period: a periodic timer is then set to the first of expires + period, expires + 2 period, ...
    that is not before now, and its overruns have grown by the periods that passed, up to
    DELAYTIMER_MAX; a timer without a period is disarmed, with one overrun.  A round that finds the
    timer not yet due waits for exactly the time that is left; one that finds it stopped or disarmed
    waits; one after timer_delete leaves the loop. *)
Theorem thread_round_correct t now :
  timer_ok t -> normal now ->
  exists t' pc, timer_thread_top t now = Some (t', pc) /\
    if tm_done t then t' = t /\ pc = PFree
    else if tm_stopped t || (ns (tm_expires t) =? 0) then t' = t /\ pc = PWait
    else if ns now <? ns (tm_expires t) then
      t' = t /\ exists diff, pc = PTimed (tm_expires t) (tm_period t) diff /\ normal diff /\ ns diff = ns (tm_expires t) - ns now
    else pc = PCallback /\ tm_period t' = tm_period t /\
      if ns (tm_period t) =? 0 then tm_expires t' = timespec_zero /\ tm_overruns t' = 1
      else exists k, 1 <= k /\ ns (tm_expires t') = ns (tm_expires t) + k * ns (tm_period t) /\ normal (tm_expires t') /\
        ns now <= ns (tm_expires t') /\ (1 < k -> ns (tm_expires t') - ns (tm_period t) < ns now) /\
        tm_overruns t' = Z.min DELAYTIMER_MAX (tm_overruns t + k).
Proof.
  intros (He & Hp & Hp0 & Ho) Hn. unfold timer_thread_top. rewrite !timespec_is_zero_ns by done.
  destruct (tm_done t); [eauto|]. destruct (tm_stopped t || _); [eauto|].
  rewrite timespec_cmp_ns by done.
  replace (0 <? match ns (tm_expires t) ?= ns now with Lt => -1 | Eq => 0 | Gt => 1 end) with (ns now <? ns (tm_expires t))
    by (destruct (Z.compare_spec (ns (tm_expires t)) (ns now)), (Z.ltb_spec (ns now) (ns (tm_expires t))); (done || lia)).
  destruct (Z.ltb_spec (ns now) (ns (tm_expires t))) as [Hlt|Hge].
  - eexists _, _. split; [done|]. split; [done|]. eexists. split; [done|]. by apply timespec_sub_ns.
  - destruct (Z.eqb_spec (ns (tm_period t)) 0) as [Ep|Ep]; cbn [negb].
    + eexists _, _. split; [done|]. unfold timer_fire. rewrite timespec_is_zero_ns, Ep by done. done.
    + pose proof (Z.div_mod (ns now - ns (tm_expires t)) (ns (tm_period t)) Ep).
      pose proof (Z.mod_pos_bound (ns now - ns (tm_expires t)) (ns (tm_period t))) as Hm.
      pose proof (Z.div_pos (ns now - ns (tm_expires t)) (ns (tm_period t))) as Hd.
      destruct (overrun_loop_spec (overrun_fuel (tm_expires t) (tm_period t) now) (tm_expires t) (tm_period t) now (tm_overruns t))
        as (k & e' & Hk & -> & Hn' & Ee & H1 & H2); [done..|lia|unfold overrun_fuel; rewrite Z2Nat.id by lia; lia|unfold overrun_fuel; lia|done|].
      cbn [mbind option_bind]. eexists _, _. split; [done|]. unfold timer_fire. rewrite timespec_is_zero_ns, (proj2 (Z.eqb_neq _ _) Ep) by done.
      cbn. split; [done|]. split; [done|]. exists k. rewrite timespec_add_sub by done. split_and!; (done || lia).
Qed.

Lemma thread_round_correct_witness :
  exists t', timer_thread_top (Timer None TIMER_ID_WRAP_BIT 1 5 0 9 0 false false (10, 0) (0, 400000000) 0) (11, 500000000) = Some (t', PCallback).
Proof.
  destruct (thread_round_correct (Timer None TIMER_ID_WRAP_BIT 1 5 0 9 0 false false (10, 0) (0, 400000000) 0) (11, 500000000))
    as (t' & pc & E & -> & _); [unfold timer_ok, normal, ns, DELAYTIMER_MAX; cbn; lia|unfold normal; cbn; lia|]. by exists t'.
Defined.

(** ** Setting and reading a timer *)

(** After timer_settime, timer_gettime answers the interval that was set and the time that is left
    until the timer is due: the given time, relative to the moment of the call or, with TIMER_ABSTIME,
    absolute (and then not before that moment), less the time that has passed, and never less than 0.
    A timer set to 0 is disarmed and answers 0. *)
Theorem settime_gettime t flags v p want now0 now now' :
  normal v -> 0 <= ns v -> normal now -> 0 < ns now -> normal now' ->
  let '(t', _) := timer_settime_locked t flags (v, p) want now0 now in
  let '(rest, interval) := timer_gettime_internal t' now' in
  interval = p /\ normal rest /\
  ns rest = if ns v =? 0 then 0
            else let due := if Z.land flags TIMER_ABSTIME =? 0 then ns v + ns now else Z.max (ns v) (ns now) in
                 Z.max 0 (due - ns now').
Proof.
  intros Hv Hv0 Hn Hn0 Hn'. unfold timer_settime_locked, timer_gettime_internal. cbn [fst snd set_times tm_expires tm_period].
  split; [done|]. rewrite (timespec_is_zero_ns v Hv). destruct (Z.eqb_spec (ns v) 0) as [Ev|Ev]; cbn [negb].
  { rewrite timespec_is_zero_ns, Ev by done. by split. }
  set (e := if Z.land flags TIMER_ABSTIME =? 0 then timespec_add v now else _).
  assert (normal e /\ ns e = if Z.land flags TIMER_ABSTIME =? 0 then ns v + ns now else Z.max (ns v) (ns now)) as [He E].
  { unfold e. case_test; [by apply timespec_add_ns|]. rewrite timespec_cmp_ns by done.
    destruct (Z.compare_spec (ns v) (ns now)); cbn [Z.ltb Z.compare]; (split; [done|lia]). }
  clearbody e. rewrite <- E. assert (0 < ns e) as Hpos by (rewrite E; case_test; lia). clear E.
  rewrite timespec_is_zero_ns, (proj2 (Z.eqb_neq _ _)) by (done || lia). cbn [negb].
  destruct (timespec_sub_ns e now' He Hn') as [Hs Es]. rewrite timespec_cmp0_ns, Es by done.
  destruct (Z.ltb_spec (ns e - ns now') 0); (split; [done|]); [change (ns timespec_zero) with 0|]; lia.
Qed.

Lemma settime_gettime_witness :
  ns (timer_gettime_internal (timer_settime_locked timer0 0 ((2, 500), (1, 0)) false (0, 0) (7, 0)).1 (8, 100)).1 = 1000000400.
Proof.
  pose proof (settime_gettime timer0 0 (2, 500) (1, 0) false (0, 0) (7, 0) (8, 100)) as H. cbn zeta in H.
  apply H; unfold normal, ns; cbn; lia.
Defined.

(** A thread whose timed wait ends with a time-out overwrites the expiry of a timer_settime that was
    made during the wait: the new setting is lost, and a timer that had no period is disarmed. *)
Lemma settime_during_timeout_lost t flags spec want now0 now e period :
  let t1 := (timer_settime_locked t flags spec want now0 now).1 in
  let t2 := (timer_thread_timed t1 e period ETIMEDOUT).1 in
  tm_expires t2 = if timespec_is_zero period then timespec_zero else timespec_add e period.
Proof. cbn. by destruct (timespec_is_zero period). Qed.

(** ** The table and its threads

    The state of a process: the table, the timers that a timer_create has taken and not yet finished,
    the threads, and the timers for which pthread_create answered an error number. *)
Record tsystem : Type := TSys { tbl : thr_timer_table; creating : gset nat; threads : gmap nat timer_pc; lost : gset nat }.

Definition update (t : thr_timer_table) (i : nat) (timer : thr_timer) : thr_timer_table := Table (free_timer t) (<[i := timer]> (timers t)).

(** The steps: what the calls and the threads do under a lock, in any order.  timer_settime may come
    at any moment for any timer. *)
Inductive tstep : tsystem -> tsystem -> Prop :=
| t_alloc t cr th lo t' i :
    thr_timer_table_alloc (Some t) = Some (Some t', Some i) -> tstep (TSys t cr th lo) (TSys t' ({[i]} ∪ cr) th lo)
| t_created t cr th lo i clockid evp thread t' id :
    i ∈ cr -> timer_create_finish t i clockid evp (0, thread) = Some (t', Success 0, id) ->
    tstep (TSys t cr th lo) (TSys t' (cr ∖ {[i]}) (<[i := PTop]> th) lo)
| t_create_failed t cr th lo i clockid evp rc thread t' :
    i ∈ cr -> rc < 0 -> timer_create_finish t i clockid evp (rc, thread) = Some (t', Failed ENOMEM, None) ->
    tstep (TSys t cr th lo) (TSys t' (cr ∖ {[i]}) th lo)
| t_create_error t cr th lo i clockid evp rc thread t' id :
    i ∈ cr -> 0 < rc -> timer_create_finish t i clockid evp (rc, thread) = Some (t', Success 0, id) ->
    tstep (TSys t cr th lo) (TSys t' (cr ∖ {[i]}) th ({[i]} ∪ lo))
| t_remove t cr th lo t' id i :
    thr_timer_table_from_id (Some t) id true = Some (Some t', Some i) -> tstep (TSys t cr th lo) (TSys t' cr th lo)
| t_done t cr th lo i timer :
    timers t !! i = Some timer -> tm_id timer = TIMER_ID_NONE -> tstep (TSys t cr th lo) (TSys (update t i (set_done true timer)) cr th lo)
| t_settime t cr th lo i timer flags spec want now0 now :
    timers t !! i = Some timer ->
    tstep (TSys t cr th lo) (TSys (update t i (timer_settime_locked timer flags spec want now0 now).1) cr th lo)
| t_start_stop t cr th lo stop : tstep (TSys t cr th lo) (TSys (thr_timer_table_start_stop t stop) cr th lo)
| t_top t cr th lo i timer now timer' pc :
    th !! i = Some PTop -> timers t !! i = Some timer -> timer_thread_top timer now = Some (timer', pc) ->
    tstep (TSys t cr th lo) (TSys (update t i timer') cr (<[i := pc]> th) lo)
| t_wake t cr th lo i : th !! i = Some PWait -> tstep (TSys t cr th lo) (TSys t cr (<[i := PTop]> th) lo)
| t_timed t cr th lo i timer e p d ret :
    th !! i = Some (PTimed e p d) -> timers t !! i = Some timer ->
    tstep (TSys t cr th lo) (TSys (update t i (timer_thread_timed timer e p ret).1) cr (<[i := (timer_thread_timed timer e p ret).2]> th) lo)
| t_called t cr th lo i timer :
    th !! i = Some PCallback -> timers t !! i = Some timer ->
    tstep (TSys t cr th lo) (TSys (update t i (timer_thread_called timer).1) cr (<[i := (timer_thread_called timer).2]> th) lo)
| t_free t cr th lo i t' :
    th !! i = Some PFree -> thr_timer_table_free t i = Some t' -> tstep (TSys t cr th lo) (TSys t' cr (delete i th) lo).

Definition tinit : tsystem := TSys thr_timer_table_init ∅ ∅ ∅.

(** The list of free timers. *)
Fixpoint chain (ts : list thr_timer) (p : option nat) (fl : list nat) : Prop :=
  match fl with
  | [] => p = None
  | i :: fl => p = Some i /\ exists t, ts !! i = Some t /\ chain ts (tm_next t) fl
  end.

Lemma chain_ext ts ts' p fl :
  chain ts p fl -> (forall i, i ∈ fl -> tm_next <$> ts' !! i = tm_next <$> ts !! i) -> chain ts' p fl.
Proof.
  revert p. induction fl as [|i fl IH]; intros p; cbn; [done|]. intros (-> & t & Ht & H) Hn. split; [done|].
  pose proof (Hn i ltac:(set_solver)) as E. rewrite Ht in E. destruct (ts' !! i) as [t'|]; [|done]. injection E as E.
  exists t'. split; [done|]. rewrite E. apply IH; [done|]. intros j Hj. apply Hn. set_solver.
Qed.

(** What a timer is to the process. *)
Inductive role : Type := Free | Creating | Threaded | Lost.

Record tinv (s : tsystem) (fl : list nat) (r : nat -> role) : Prop := {
  inv_length : length (timers (tbl s)) = MAX_THREAD_TIMERS;
  inv_chain : chain (timers (tbl s)) (free_timer (tbl s)) fl;
  inv_nodup : NoDup fl;
  inv_free i : i ∈ fl <-> (i < MAX_THREAD_TIMERS)%nat /\ r i = Free;
  inv_creating i : i ∈ creating s <-> (i < MAX_THREAD_TIMERS)%nat /\ r i = Creating;
  inv_threads i : is_Some (threads s !! i) <-> (i < MAX_THREAD_TIMERS)%nat /\ r i = Threaded;
  inv_lost i : i ∈ lost s <-> (i < MAX_THREAD_TIMERS)%nat /\ r i = Lost;
  inv_id i timer : timers (tbl s) !! i = Some timer ->
    tm_id timer = TIMER_ID_NONE \/ (tm_id timer = TIMER_ID_WRAP (Z.of_nat i) /\ r i <> Free) }.

Lemma tinv_init : tinv tinit (seq 0 MAX_THREAD_TIMERS) (fun _ => Free).
Proof.
  split; cbn [tinit tbl creating threads lost].
  - done.
  - vm_compute. repeat (split; [reflexivity|eexists; split; [reflexivity|]]). reflexivity.
  - apply NoDup_seq.
  - intros i. rewrite elem_of_seq. split; [intros; split; [lia|done]|lia].
  - set_solver.
  - intros i. rewrite lookup_empty. split; [by intros []|by intros []].
  - set_solver.
  - intros i timer Hi. left. revert i timer Hi.
    assert (Forall (fun t => tm_id t = TIMER_ID_NONE) (timers thr_timer_table_init)) as Hf by (vm_compute; repeat constructor).
    intros i timer Hi. exact (Forall_lookup_1 _ _ _ _ Hf Hi).
Qed.

(** Changing a timer without its link, its id only to NONE. *)
Lemma tinv_update s fl r i timer timer' pcs :
  tinv s fl r -> timers (tbl s) !! i = Some timer -> tm_next timer' = tm_next timer ->
  (tm_id timer' = tm_id timer \/ tm_id timer' = TIMER_ID_NONE) ->
  (forall j, is_Some (pcs !! j) <-> is_Some (threads s !! j)) ->
  tinv (TSys (update (tbl s) i timer') (creating s) pcs (lost s)) fl r.
Proof.
  intros [Hl Hc Hd Hf Hcr Hth Hlo Hid] Hi Hn Hid' Hp. split; cbn [tbl creating threads lost update timers free_timer]; try done.
  - by rewrite length_insert.
  - eapply chain_ext; [exact Hc|]. intros j Hj. rewrite list_lookup_insert. case_decide as E; [|done].
    destruct E as [-> ?]. rewrite Hi. cbn. by rewrite Hn.
  - intros j. by rewrite Hp.
  - intros j t. rewrite list_lookup_insert. case_decide as E; [|apply Hid]. destruct E as [-> ?]. intros [= <-].
    destruct Hid' as [->| ->]; [by apply Hid|by left].
Qed.

(** Roles are told apart by cases on the timer. *)
Ltac role_cases := case_decide; subst; intuition congruence.

(** A timer leaves the list of free timers. *)
Lemma tinv_alloc t cr th lo fl r t' i :
  tinv (TSys t cr th lo) fl r -> thr_timer_table_alloc (Some t) = Some (Some t', Some i) ->
  exists fl', fl = i :: fl' /\
    tinv (TSys t' ({[i]} ∪ cr) th lo) fl' (fun j => if decide (j = i) then Creating else r j).
Proof.
  intros [Hl Hc Hd Hf Hcr Hth Hlo Hid] H. cbn [tbl creating threads lost] in *. cbn in H.
  destruct (free_timer t) as [i'|] eqn:Ef; [|done]. destruct (timers t !! i') as [timer|] eqn:Ei; [|done]. cbn in H. injection H as <- <-.
  destruct fl as [|i fl]; [done|]. destruct Hc as ([= <-] & timer' & Et & Hc). rewrite Ei in Et. injection Et as <-.
  apply NoDup_cons in Hd as [Hni Hd]. exists fl. split; [done|].
  destruct (proj1 (Hf i')) as [Hi32 Hri]; [set_solver|]. split; cbn [tbl creating threads lost timers free_timer].
  - by rewrite length_insert.
  - eapply chain_ext; [exact Hc|]. intros j Hj. rewrite list_lookup_insert_ne; [done|]. set_solver.
  - done.
  - intros j. case_decide as E; [subst j; split; [done|by intros []]|]. rewrite <- Hf, elem_of_cons. set_solver.
  - intros j. rewrite elem_of_union, elem_of_singleton, Hcr. role_cases.
  - intros j. rewrite Hth. case_decide as E; [subst j|done]. rewrite Hri. split; intros []; done.
  - intros j. rewrite Hlo. case_decide as E; [subst j|done]. rewrite Hri. split; intros []; done.
  - intros j timer'. rewrite list_lookup_insert. case_decide as E.
    + destruct E as [-> ?]. intros [= <-]. right. cbn. rewrite decide_True by done. done.
    + intros Hj. destruct (Hid j timer' Hj) as [?|[? ?]]; [by left|]. right. split; [done|].
      rewrite decide_False; [done|]. intros ->. apply E. split; [done|]. by eapply lookup_lt_Some.
Qed.

(** A timer of the role [r0] becomes free. *)
Lemma tinv_release t cr th lo fl r i cr' th' t' :
  tinv (TSys t cr th lo) fl r -> r i <> Free -> r i <> Lost ->
  (forall j, j ∈ cr' <-> j ∈ cr /\ j <> i) -> (forall j, is_Some (th' !! j) <-> is_Some (th !! j) /\ j <> i) ->
  thr_timer_table_free t i = Some t' ->
  tinv (TSys t' cr' th' lo) (i :: fl) (fun j => if decide (j = i) then Free else r j).
Proof.
  intros [Hl Hc Hd Hf Hcr Hth Hlo Hid] Hr Hr' Hcr' Hth' H. cbn [tbl creating threads lost] in *. unfold thr_timer_table_free in H.
  destruct (timers t !! i) as [timer|] eqn:Ei; [|done]. cbn in H. injection H as <-.
  assert (i < MAX_THREAD_TIMERS)%nat as Hi by (rewrite <- Hl; by eapply lookup_lt_Some).
  assert (i ∉ fl) as Hni by (intros [_ ?]%Hf; done).
  split; cbn [tbl creating threads lost timers free_timer].
  - by rewrite length_insert.
  - split; [done|]. eexists. split; [apply list_lookup_insert_eq; by eapply lookup_lt_Some|]. cbn.
    eapply chain_ext; [exact Hc|]. intros j Hj. rewrite list_lookup_insert_ne; [done|]. set_solver.
  - by constructor.
  - intros j. rewrite elem_of_cons, Hf. role_cases.
  - intros j. rewrite Hcr', Hcr. role_cases.
  - intros j. rewrite Hth', Hth. role_cases.
  - intros j. rewrite Hlo. role_cases.
  - intros j timer'. rewrite list_lookup_insert. case_decide as E.
    + destruct E as [-> ?]. intros [= <-]. by left.
    + intros Hj. destruct (Hid j timer' Hj) as [?|[? ?]]; [by left|]. right. split; [done|].
      rewrite decide_False; [done|]. intros ->. apply E. split; [done|]. by eapply lookup_lt_Some.
Qed.

(** A timer whose creation ended takes another role. *)
Lemma tinv_role t cr th lo fl r i ro cr' th' lo' :
  tinv (TSys t cr th lo) fl r -> i ∈ cr -> ro = Threaded \/ ro = Lost ->
  (forall j, j ∈ cr' <-> j ∈ cr /\ j <> i) ->
  (forall j, is_Some (th' !! j) <-> is_Some (th !! j) \/ (j = i /\ ro = Threaded)) ->
  (forall j, j ∈ lo' <-> j ∈ lo \/ (j = i /\ ro = Lost)) ->
  tinv (TSys t cr' th' lo') fl (fun j => if decide (j = i) then ro else r j).
Proof.
  intros [Hl Hc Hd Hf Hcr Hth Hlo Hid] Hi Hro Hcr' Hth' Hlo'. cbn [tbl creating threads lost] in *.
  destruct (proj1 (Hcr i) Hi) as [Hi32 Hri]. split; cbn [tbl creating threads lost]; try done.
  - intros j. rewrite Hf. role_cases.
  - intros j. rewrite Hcr', Hcr. role_cases.
  - intros j. rewrite Hth', Hth. role_cases.
  - intros j. rewrite Hlo', Hlo. role_cases.
  - intros j timer Hj. destruct (Hid j timer Hj) as [?|[? ?]]; [by left|]. right. split; [done|]. case_decide; [destruct Hro; congruence|done].
Qed.

Lemma tinv_start_stop t cr th lo fl r stop : tinv (TSys t cr th lo) fl r -> tinv (TSys (thr_timer_table_start_stop t stop) cr th lo) fl r.
Proof.
  intros [Hl Hc Hd Hf Hcr Hth Hlo Hid]. cbn [tbl creating threads lost] in *. split; cbn [tbl creating threads lost thr_timer_table_start_stop timers free_timer]; try done.
  - by rewrite length_fmap.
  - eapply chain_ext; [exact Hc|]. intros j _. rewrite list_lookup_fmap. destruct (timers t !! j); [|done]. cbn. by case_test.
  - intros j timer. rewrite list_lookup_fmap. destruct (timers t !! j) as [t0|] eqn:Ej; [|done]. intros [= <-].
    case_test; cbn; by apply Hid.
Qed.

(** The end of timer_create changes neither the link nor the id. *)
Lemma create_init_update t cr th lo fl r i timer clockid evp f :
  tinv (TSys t cr th lo) fl r -> timers t !! i = Some timer -> (forall x, tm_next (f x) = tm_next x /\ tm_id (f x) = tm_id x) ->
  tinv (TSys (update t i (f (timer_create_init timer clockid (sigev_attributes evp) (sigev_function evp) (sigev_value evp)))) cr th lo) fl r.
Proof.
  intros H Hi Hf. apply (tinv_update (TSys t cr th lo) fl r i timer _ th H Hi); [|left|done]; by rewrite ?(proj1 (Hf _)), ?(proj2 (Hf _)).
Qed.

Lemma remove_update t id t' i :
  thr_timer_table_from_id (Some t) id true = Some (Some t', Some i) ->
  exists timer, timers t !! i = Some timer /\ t' = update t i (set_id TIMER_ID_NONE timer).
Proof.
  cbn. repeat (case_test; [done|]). destruct (timers t !! _) as [timer|] eqn:Ei; [|done]. cbn [mbind option_bind].
  case_test; [done|]. intros [= <- <-]. eauto.
Qed.

Lemma threads_insert (th : gmap nat timer_pc) i pc pc' j : th !! i = Some pc -> is_Some (<[i := pc']> th !! j) <-> is_Some (th !! j).
Proof. intros H. rewrite lookup_insert. case_decide; [subst; rewrite H; split; eauto|done]. Qed.

Lemma thread_top_same t now t' pc : timer_thread_top t now = Some (t', pc) -> tm_next t' = tm_next t /\ tm_id t' = tm_id t.
Proof.
  unfold timer_thread_top, timer_fire. repeat case_test; try (by intros [= <- <-]).
  all: destruct (overrun_loop _ _ _ _ _) as [[e o]|]; cbn; by intros [= <- <-].
Qed.

Lemma tstep_inv s s' fl r : tinv s fl r -> tstep s s' -> exists fl' r', tinv s' fl' r'.
Proof.
  intros H Hs. destruct Hs as [t cr th lo t' i Ha|t cr th lo i c evp thr t' id Hi Hf|t cr th lo i c evp rc thr t' Hi Hrc Hf
    |t cr th lo i c evp rc thr t' id Hi Hrc Hf|t cr th lo t' id i Ha|t cr th lo i timer Hi Hid|t cr th lo i timer fl' sp w n0 n Hi|t cr th lo stop
    |t cr th lo i timer n timer' pc Ht Hi Htop|t cr th lo i Ht|t cr th lo i timer e p d ret Ht Hi|t cr th lo i timer Ht Hi|t cr th lo i t' Ht Hf].
  - destruct (tinv_alloc _ _ _ _ _ _ _ _ H Ha) as (fl' & _ & H'). eauto.
  - unfold timer_create_finish in Hf. destruct (timers t !! i) as [timer|] eqn:Et; [|done]. cbn in Hf. injection Hf as <- _.
    pose proof (create_init_update _ _ _ _ _ _ _ _ c evp (set_thread thr) H Et (fun x => conj eq_refl eq_refl)) as H1.
    eexists _, _. eapply (tinv_role _ _ _ _ _ _ i Threaded); [exact H1|done|by left|set_solver| |naive_solver].
    intros j. rewrite lookup_insert. case_decide; subst; naive_solver.
  - unfold timer_create_finish in Hf. destruct (timers t !! i) as [timer|] eqn:Et; [|done]. cbn [mbind option_bind fst] in Hf.
    rewrite (proj2 (Z.ltb_lt rc 0) Hrc) in Hf. destruct (thr_timer_table_free _ i) as [t1|] eqn:Ef; [|done]. cbn in Hf. injection Hf as <-.
    pose proof (create_init_update _ _ _ _ _ _ _ _ c evp id H Et (fun x => conj eq_refl eq_refl)) as H1.
    destruct (proj1 (inv_creating _ _ _ H i) Hi) as [_ Hr].
    assert (i ∉ dom th) as Hni. { rewrite elem_of_dom. intros [_ Hr']%(inv_threads _ _ _ H). congruence. }
    eexists _, _. eapply tinv_release; [exact H1|by rewrite Hr|by rewrite Hr|set_solver| |exact Ef].
    intros j. rewrite <- elem_of_dom. split; [intros ?; split; [done|congruence]|by intros []].
  - unfold timer_create_finish in Hf. destruct (timers t !! i) as [timer|] eqn:Et; [|done]. cbn [mbind option_bind fst snd] in Hf.
    rewrite (proj2 (Z.ltb_ge rc 0)), (proj2 (Z.eqb_neq rc 0)) in Hf by lia. injection Hf as <- _.
    pose proof (create_init_update _ _ _ _ _ _ _ _ c evp (fun x => x) H Et (fun x => conj eq_refl eq_refl)) as H1.
    eexists _, _. eapply (tinv_role _ _ _ _ _ _ i Lost); [exact H1|done|by right|set_solver|naive_solver|set_solver].
  - destruct (remove_update _ _ _ _ Ha) as (timer & Et & ->). eexists _, _. eapply (tinv_update _ _ _ _ _ _ th H Et); [done|by right|done].
  - eexists _, _. eapply (tinv_update _ _ _ _ _ _ th H Hi); [done|by left|done].
  - eexists _, _. eapply (tinv_update _ _ _ _ _ _ th H Hi); [done|by left|done].
  - eexists _, _. by apply tinv_start_stop.
  - destruct (thread_top_same _ _ _ _ Htop) as [E1 E2]. eexists _, _.
    eapply (tinv_update _ _ _ _ _ _ _ H Hi); [done|by left|intros j; by eapply threads_insert].
  - exists fl, r. destruct H as [Hl Hc Hd Hf Hcr Hth Hlo Hid]. split; try done. intros j. cbn [threads] in *. rewrite <- Hth. by eapply threads_insert.
  - eexists _, _. eapply (tinv_update _ _ _ _ _ _ _ H Hi); [| |intros j; by eapply threads_insert]; unfold timer_thread_timed; case_test; (done || by left).
  - eexists _, _. eapply (tinv_update _ _ _ _ _ _ _ H Hi); [done|by left|intros j; by eapply threads_insert].
  - assert (is_Some (th !! i)) as Hsome by (by rewrite Ht). destruct (proj1 (inv_threads _ _ _ H i) Hsome) as [_ Hr].
    assert (i ∉ cr) as Hni. { intros [_ Hr']%(inv_creating _ _ _ H). congruence. }
    eexists _, _. eapply tinv_release; [exact H|by rewrite Hr|by rewrite Hr| | |exact Hf].
    + intros j. split; [intros ?; split; [done|congruence]|by intros []].
    + intros j. rewrite lookup_delete. case_decide; subst; split; [by intros []|by intros []|eauto|by intros []].
Qed.

Lemma wrap_ids i : (i < MAX_THREAD_TIMERS)%nat ->
  TIMER_ID_IS_WRAPPED (TIMER_ID_WRAP (Z.of_nat i)) = true /\ u32 (TIMER_ID_UNWRAP (TIMER_ID_WRAP (Z.of_nat i))) = Z.of_nat i /\
  TIMER_ID_IS_VALID (TIMER_ID_WRAP (Z.of_nat i)) = true.
Proof.
  intros Hi. assert (forallb (fun i => let z := Z.of_nat i in TIMER_ID_IS_WRAPPED (TIMER_ID_WRAP z) &&
    ((u32 (TIMER_ID_UNWRAP (TIMER_ID_WRAP z)) =? z) && TIMER_ID_IS_VALID (TIMER_ID_WRAP z))) (seq 0 MAX_THREAD_TIMERS) = true) as H by (vm_compute; reflexivity).
  rewrite forallb_forall in H. specialize (H i ltac:(apply in_seq; lia)). cbn zeta in H. zbool. done.
Qed.

Lemma wrap_inj i j : (i < MAX_THREAD_TIMERS)%nat -> (j < MAX_THREAD_TIMERS)%nat -> TIMER_ID_WRAP (Z.of_nat i) = TIMER_ID_WRAP (Z.of_nat j) -> i = j.
Proof.
  intros Hi Hj E. destruct (wrap_ids i Hi) as (_ & Ei & _), (wrap_ids j Hj) as (_ & Ej & _). rewrite E in Ei. lia.
Qed.

(** A wrapped id is its index and the highest bit. *)
Lemma wrapped_index id : 0 <= id < 2 ^ 32 -> TIMER_ID_IS_WRAPPED id = true -> TIMER_ID_UNWRAP id = id - 2 ^ 31 /\ 2 ^ 31 <= id.
Proof.
  intros Hid Hw. unfold TIMER_ID_IS_WRAPPED, TIMER_ID_UNWRAP in *. change TIMER_ID_WRAP_BIT with (2 ^ 31) in *. zbool.
  assert (Z.testbit id 31 = true) as Hbit.
  { destruct (Z.testbit id 31) eqn:E; [done|]. destruct Hw. apply Z.bits_inj'. intros n Hn.
    rewrite Z.land_spec, Z.bits_0, Z.pow2_bits_eqb by lia. destruct (Z.eqb_spec 31 n) as [<-|_]; [by rewrite E|apply andb_false_r]. }
  assert (id - 2 ^ 31 = Z.ldiff id (2 ^ 31)) as E.
  { apply Z.sub_nocarry_ldiff, Z.bits_inj'. intros n Hn. rewrite Z.ldiff_spec, Z.bits_0, Z.pow2_bits_eqb by lia.
    destruct (Z.eqb_spec 31 n) as [<-|_]; [by rewrite Hbit|done]. }
  rewrite <- E. split; [done|]. assert (0 <= Z.ldiff id (2 ^ 31)) by (apply Z.ldiff_nonneg; lia). lia.
Qed.

Lemma wrap_add i : (i < MAX_THREAD_TIMERS)%nat -> TIMER_ID_WRAP (Z.of_nat i) = Z.of_nat i + 2 ^ 31.
Proof.
  intros Hi. assert (forallb (fun i => TIMER_ID_WRAP (Z.of_nat i) =? Z.of_nat i + 2 ^ 31) (seq 0 MAX_THREAD_TIMERS) = true) as H by (vm_compute; reflexivity).
  rewrite forallb_forall in H. specialize (H i ltac:(apply in_seq; lia)). by zbool.
Qed.

(** Ids of the table and where they lead. *)
Definition own_ids (t : thr_timer_table) : Prop :=
  length (timers t) = MAX_THREAD_TIMERS /\
  forall i timer, timers t !! i = Some timer -> tm_id timer = TIMER_ID_NONE \/ tm_id timer = TIMER_ID_WRAP (Z.of_nat i).

Lemma from_id_exact t id : own_ids t -> 0 <= id < 2 ^ 32 ->
  exists o, thr_timer_table_from_id (Some t) id false = Some (Some t, o) /\
    forall i, o = Some i <-> exists timer, timers t !! i = Some timer /\ tm_id timer = id /\ TIMER_ID_IS_VALID id = true.
Proof.
  intros [Hl Hown] Hid. assert (forall i, (exists timer, timers t !! i = Some timer /\ tm_id timer = id /\ TIMER_ID_IS_VALID id = true) ->
    (i < MAX_THREAD_TIMERS)%nat /\ id = TIMER_ID_WRAP (Z.of_nat i)) as Hback.
  { intros i (timer & Hi & Eid & Hv). pose proof (lookup_lt_Some _ _ _ Hi). split; [lia|].
    unfold TIMER_ID_IS_VALID in Hv. zbool. destruct (Hown i timer Hi); congruence. }
  assert ((forall i, ~ (exists timer, timers t !! i = Some timer /\ tm_id timer = id /\ TIMER_ID_IS_VALID id = true)) ->
    exists o, Some (Some t, @None nat) = Some (Some t, o) /\
      forall i, o = Some i <-> exists timer, timers t !! i = Some timer /\ tm_id timer = id /\ TIMER_ID_IS_VALID id = true) as Hnone.
  { intros H. exists None. split; [done|]. intros i. split; [done|]. intros Hi. by destruct (H i). }
  unfold thr_timer_table_from_id. destruct (TIMER_ID_IS_WRAPPED id) eqn:Ew; cbn [negb].
  2:{ apply Hnone. intros i Hex. destruct (Hback i Hex) as [Hi ->]. by rewrite (proj1 (wrap_ids i Hi)) in Ew. }
  destruct (wrapped_index id Hid Ew) as [-> Hge]. assert (u32 (id - 2 ^ 31) = id - 2 ^ 31) as -> by (apply u32_id; unfold is_u32; lia).
  case_test; zbool.
  { apply Hnone. intros i Hex. destruct (Hback i Hex) as [Hi ->]. rewrite wrap_add in * by done. lia. }
  destruct (lookup_lt_is_Some_2 (timers t) (Z.to_nat (id - 2 ^ 31))) as [timer Hi]; [lia|]. rewrite Hi. cbn [mbind option_bind].
  pose proof (wrap_add (Z.to_nat (id - 2 ^ 31)) ltac:(lia)) as Ewrap. rewrite Z2Nat.id in Ewrap by lia.
  destruct (TIMER_ID_IS_VALID (tm_id timer)) eqn:Ev; cbn [negb].
  - exists (Some (Z.to_nat (id - 2 ^ 31))). split; [done|]. intros i. split.
    + intros [= <-]. exists timer. unfold TIMER_ID_IS_VALID in Ev. zbool. destruct (Hown _ _ Hi) as [?|Eown]; [done|].
      rewrite Z2Nat.id in Eown by lia. assert (tm_id timer = id) as <- by lia. split_and!; [done|done|]. unfold TIMER_ID_IS_VALID. by rewrite (proj2 (Z.eqb_neq _ _)).
    + intros Hex. destruct (Hback i Hex) as [Hi' ->]. rewrite wrap_add by done. f_equal. lia.
  - apply Hnone. intros i Hex. destruct (Hback i Hex) as [Hi' Ei]. rewrite wrap_add in Ei by done.
    assert (i = Z.to_nat (id - 2 ^ 31)) as -> by lia. destruct Hex as (timer' & Hi'' & Eid & Hv). rewrite Hi in Hi''. injection Hi'' as <-.
    by rewrite Eid, Hv in Ev.
Qed.

Lemma from_id_remove t id t' i :
  own_ids t -> thr_timer_table_from_id (Some t) id true = Some (Some t', Some i) ->
  own_ids t' /\ exists timer, timers t !! i = Some timer /\ timers t' = <[i := set_id TIMER_ID_NONE timer]> (timers t).
Proof.
  intros [Hl Hown] H. destruct (remove_update _ _ _ _ H) as (timer & Hi & ->). cbn [timers update].
  split; [|by exists timer]. split; [cbn; by rewrite length_insert|]. intros j tj. cbn. rewrite list_lookup_insert.
  case_decide; [intros [= <-]; by left|apply Hown].
Qed.

(** C14.  In every state that calls and timer threads can reach, in any order, each of the 32 timers
    is either free, or in a timer_create, or has a thread, or was lost when pthread_create answered an
    error number (timer_create tests for a negative result, which it never has).  An allocation takes
    a free timer and gives it an id by which it is found, and fails only if no timer is free.  A 32-bit
    id leads to the timer that has this id and to no other, and to none if no timer has it; so two
    timers never have the same valid id, and a free timer is never found.  Once timer_delete has taken
    an id out, the id leads to nothing, and the other ids lead where they led. *)
Theorem timer_table_sound s :
  rtc tstep tinit s ->
  exists r : nat -> role,
    (forall i, (i < MAX_THREAD_TIMERS)%nat -> (i ∈ creating s <-> r i = Creating) /\ (is_Some (threads s !! i) <-> r i = Threaded) /\ (i ∈ lost s <-> r i = Lost)) /\
    (exists t' o, thr_timer_table_alloc (Some (tbl s)) = Some (Some t', o) /\
      match o with
      | Some i => (i < MAX_THREAD_TIMERS)%nat /\ r i = Free /\
          thr_timer_table_from_id (Some t') (TIMER_ID_WRAP (Z.of_nat i)) false = Some (Some t', Some i)
      | None => forall i, (i < MAX_THREAD_TIMERS)%nat -> r i <> Free
      end) /\
    (forall id, 0 <= id < 2 ^ 32 ->
      exists o, thr_timer_table_from_id (Some (tbl s)) id false = Some (Some (tbl s), o) /\
        (forall i, o = Some i <-> exists t, timers (tbl s) !! i = Some t /\ tm_id t = id /\ TIMER_ID_IS_VALID id = true) /\
        (forall i, o = Some i -> r i <> Free)) /\
    (forall id t' i, thr_timer_table_from_id (Some (tbl s)) id true = Some (Some t', Some i) ->
      forall id', 0 <= id' < 2 ^ 32 ->
      exists o, thr_timer_table_from_id (Some t') id' false = Some (Some t', o) /\
        (forall j, o = Some j <-> j <> i /\ thr_timer_table_from_id (Some (tbl s)) id' false = Some (Some (tbl s), Some j))).
Proof.
  intros Hr. assert (exists fl r, tinv s fl r) as (fl & r & H).
  { assert (forall a b, rtc tstep a b -> (exists fl r, tinv a fl r) -> exists fl r, tinv b fl r) as Hstep.
    { induction 1 as [|a b c Hab Hbc IH]; [done|]. intros (fl & r & Ha). apply IH. by eapply tstep_inv. }
    apply (Hstep _ _ Hr). eauto using tinv_init. }
  exists r. pose proof H as [Hl Hc Hd Hf Hcr Hth Hlo Hid].
  assert (own_ids (tbl s)) as Hown by (split; [done|]; intros i timer Hi; destruct (Hid i timer Hi) as [?|[? _]]; [by left|by right]).
  split_and!.
  - intros i Hi. rewrite Hcr, Hth, Hlo. tauto.
  - destruct (free_timer (tbl s)) as [i|] eqn:Ef.
    + destruct fl as [|i' fl]; [done|]. destruct Hc as ([= <-] & timer & Et & Hc).
      destruct (proj1 (Hf i)) as [Hi Hri]; [set_solver|]. destruct (wrap_ids i Hi) as (W1 & W2 & W3).
      eexists _, (Some i). cbn [thr_timer_table_alloc]. rewrite Ef, Et. split; [done|]. split; [done|]. split; [done|].
      unfold thr_timer_table_from_id. rewrite W1, W2. cbn [negb]. rewrite (proj2 (Z.leb_gt _ _)), Nat2Z.id by lia.
      cbn [timers]. rewrite list_lookup_insert_eq by (by eapply lookup_lt_Some). cbn. by rewrite W3.
    + exists (tbl s), None. cbn. rewrite Ef. split; [done|]. intros i Hi Hfree. destruct fl as [|i' fl].
      * assert (i ∈ []) as Hin by (by apply Hf). set_solver.
      * by destruct Hc.
  - intros id Hr32. destruct (from_id_exact _ id Hown Hr32) as (o & E & Ho). exists o. split_and!; [done|done|].
    intros i Hi. apply Ho in Hi as (timer & Hi & Eid & Hv). destruct (Hid i timer Hi) as [En|[_ Hfree]]; [|done].
    unfold TIMER_ID_IS_VALID in Hv. zbool. congruence.
  - intros id t' i Hrem id' Hr32. destruct (from_id_remove _ _ _ _ Hown Hrem) as (Hown' & timer & Hi & Ets).
    destruct (from_id_exact _ id' Hown' Hr32) as (o & E & Ho). destruct (from_id_exact _ id' Hown Hr32) as (o0 & E0 & Ho0).
    exists o. split; [done|]. intros j. rewrite Ho, E0. assert (Some (Some (tbl s), o0) = Some (Some (tbl s), Some j) <-> o0 = Some j) as ->
      by (split; [by intros [= ->]|by intros ->]).
    rewrite Ho0, Ets, list_lookup_insert. split.
    + intros (tj & Hj & Eid & Hv). case_decide as Hd'; [|split; [intros ->; apply Hd'; split; [done|by eapply lookup_lt_Some]|by exists tj]].
      injection Hj as <-. unfold TIMER_ID_IS_VALID in Hv. cbn in Eid. zbool. congruence.
    + intros (Hne & tj & Hj & Eid & Hv). exists tj. rewrite decide_False by (intros [Ei _]; by apply Hne). by split_and!.
Qed.

(** A process that has created one timer and is creating another. *)
Definition tdemo_evp : sigevent := Sigevent true 9 0 0.
Definition tdemo_alloc (t : thr_timer_table) : thr_timer_table :=
  match thr_timer_table_alloc (Some t) with Some (Some t', _) => t' | _ => t end.
Definition tdemo_finish (t : thr_timer_table) : thr_timer_table :=
  match timer_create_finish t 0 1 tdemo_evp (0, 77) with Some (t', _, _) => t' | _ => t end.
Definition tdemo : tsystem :=
  TSys (tdemo_alloc (tdemo_finish (tdemo_alloc thr_timer_table_init))) ({[1%nat]} ∪ (({[0%nat]} ∪ ∅) ∖ {[0%nat]})) {[0%nat := PTop]} ∅.

Lemma timer_table_sound_witness :
  exists r : nat -> role,
    forall i, (i < MAX_THREAD_TIMERS)%nat -> (i ∈ creating tdemo <-> r i = Creating) /\ (is_Some (threads tdemo !! i) <-> r i = Threaded) /\ (i ∈ lost tdemo <-> r i = Lost).
Proof.
  destruct (timer_table_sound tdemo) as (r & Hr & _); [|by exists r].
  eapply rtc_l; [eapply (t_alloc _ _ _ _ _ 0%nat); reflexivity|].
  eapply rtc_l; [eapply (t_created _ _ _ _ 0%nat 1 tdemo_evp 77); [set_solver|reflexivity]|].
  eapply rtc_l; [eapply (t_alloc _ _ _ _ _ 1%nat); reflexivity|]. apply rtc_refl.
Defined.
