(* ===== verification/Time64.v ===== *)
(** * Calendar dates of 64-bit times (libc/bionic/time64.c)

    A Time64_T and a Year are 64-bit integers that the values here do not leave; the
    conversions to int are written out.  A failed assert, an index outside a table and
    fuel that ran out answer [None]; NULL is [Fail] with errno.  The system's mktime and
    localtime_r are arguments. *)
From S2P Require Import Prelude Buffer.

(** struct tm *)
Record tm : Type := Tm {
  tm_sec : Z; tm_min : Z; tm_hour : Z; tm_mday : Z; tm_mon : Z; tm_year : Z; tm_wday : Z; tm_yday : Z;
  tm_isdst : Z; tm_gmtoff : Z; tm_zone : list Z }.

Definition set_year (y : Z) (d : tm) : tm :=
  Tm (tm_sec d) (tm_min d) (tm_hour d) (tm_mday d) (tm_mon d) y (tm_wday d) (tm_yday d) (tm_isdst d) (tm_gmtoff d) (tm_zone d).
Definition set_yday (y : Z) (d : tm) : tm :=
  Tm (tm_sec d) (tm_min d) (tm_hour d) (tm_mday d) (tm_mon d) (tm_year d) (tm_wday d) y (tm_isdst d) (tm_gmtoff d) (tm_zone d).

(** ** Tables *)
Definition days_in_month (leap : bool) : list Z :=
  if leap then [31; 29; 31; 30; 31; 30; 31; 31; 30; 31; 30; 31] else [31; 28; 31; 30; 31; 30; 31; 31; 30; 31; 30; 31].
Definition julian_days_by_month (leap : bool) : list Z :=
  if leap then [0; 31; 60; 91; 121; 152; 182; 213; 244; 274; 305; 335] else [0; 31; 59; 90; 120; 151; 181; 212; 243; 273; 304; 334].
Definition length_of_year (leap : bool) : Z := if leap then 366 else 365.
Definition days_in_gregorian_cycle : Z := (365 * 400) + 100 - 4 + 1.
Definition seconds_in_gregorian_cycle : Z := days_in_gregorian_cycle * 60 * 60 * 24.
Definition years_in_gregorian_cycle : Z := 400.
Definition MAX_SAFE_YEAR : Z := 2037.
Definition MIN_SAFE_YEAR : Z := 1971.
Definition SOLAR_CYCLE_LENGTH : Z := 28.
Definition safe_years_high : list Z :=
  [2016; 2017; 2018; 2019; 2020; 2021; 2022; 2023; 2024; 2025; 2026; 2027; 2028; 2029; 2030; 2031;
   2032; 2033; 2034; 2035; 2036; 2037; 2010; 2011; 2012; 2013; 2014; 2015].
Definition safe_years_low : list Z :=
  [1996; 1997; 1998; 1971; 1972; 1973; 1974; 1975; 1976; 1977; 1978; 1979; 1980; 1981; 1982; 1983;
   1984; 1985; 1986; 1987; 1988; 1989; 1990; 1991; 1992; 1993; 1994; 1995].
Definition CHEAT_DAYS : Z := Z.quot (Z.quot (Z.quot 1199145600 24) 60) 60.
Definition CHEAT_YEARS : Z := 108.

Definition IS_LEAP (n : Z) : bool :=
  (Z.rem (n + 1900) 400 =? 0) || ((Z.rem (n + 1900) 4 =? 0) && negb (Z.rem (n + 1900) 100 =? 0)).
(** WRAP(a,b,m): the new a and b *)
Definition WRAP (a b m : Z) : Z * Z := if a <? 0 then (a + m, b - 1) else (a, b).

Definition is_exception_century (year : Z) : bool := (Z.rem year 100 =? 0) && negb (Z.rem year 400 =? 0).

(** ** From dates to times *)

(** while( year < orig_year ) *)
Fixpoint years_up (fuel : nat) (year orig_year days : Z) : option Z :=
  match fuel with
  | O => None
  | S fuel => if year <? orig_year then years_up fuel (year + 1) orig_year (days + length_of_year (IS_LEAP year)) else Some days
  end.
(** do { ... } while( year >= orig_year ) *)
Fixpoint years_down (fuel : nat) (year orig_year days : Z) : option Z :=
  match fuel with
  | O => None
  | S fuel =>
      let days := days - length_of_year (IS_LEAP year) in
      let year := year - 1 in
      if orig_year <=? year then years_down fuel year orig_year days else Some days
  end.
(** After the cycles at most 430 years are left. *)
Definition year_fuel : nat := 500.

Definition timegm64 (date : tm) : option Z :=
  let orig_year := tm_year date in
  let '(orig_year, days) :=
    if (100 <? orig_year) || (orig_year <? -300) then
      let cycles := s32 (Z.quot (orig_year - 100) 400) in
      (orig_year - cycles * 400, cycles * days_in_gregorian_cycle)
    else (orig_year, 0) in
  days ← (if 70 <? orig_year then years_up year_fuel 70 orig_year days
          else if orig_year <? 70 then years_down year_fuel 69 orig_year days
          else Some days);
  j ← (if tm_mon date <? 0 then None else julian_days_by_month (IS_LEAP orig_year) !! Z.to_nat (tm_mon date));
  let days := days + j in
  let days := days + (tm_mday date - 1) in
  let seconds := days * 60 * 60 * 24 in
  let seconds := seconds + tm_hour date * 60 * 60 in
  let seconds := seconds + tm_min date * 60 in
  Some (seconds + tm_sec date).

(** The asserts *)
Definition check_tm (t : tm) : bool :=
  (0 <=? tm_sec t) && (tm_sec t <=? 61) && (0 <=? tm_min t) && (tm_min t <=? 59) && (0 <=? tm_hour t) && (tm_hour t <=? 23) &&
  (1 <=? tm_mday t) &&
  match days_in_month (IS_LEAP (tm_year t)) !! Z.to_nat (tm_mon t) with Some n => tm_mday t <=? n | None => false end &&
  (0 <=? tm_mon t) && (tm_mon t <=? 11) && (0 <=? tm_wday t) && (tm_wday t <=? 6) &&
  (0 <=? tm_yday t) && (tm_yday t <=? length_of_year (IS_LEAP (tm_year t))) &&
  (-24 * 60 * 60 <=? tm_gmtoff t) && (tm_gmtoff t <=? 24 * 60 * 60).
Definition assert_tm (t : tm) : option tm := if check_tm t then Some t else None.

(** ** From times to dates *)

(** while (m >= length_of_year[leap]) *)
Fixpoint take_years (fuel : nat) (m year : Z) : option (Z * Z) :=
  match fuel with
  | O => None
  | S fuel =>
      let leap := IS_LEAP year in
      if length_of_year leap <=? m then take_years fuel (m - length_of_year leap) (year + 1) else Some (m, year)
  end.
(** while (m < -length_of_year[leap]) *)
Fixpoint give_years (fuel : nat) (m year : Z) : option (Z * Z) :=
  match fuel with
  | O => None
  | S fuel =>
      let leap := IS_LEAP year in
      if m <? - length_of_year leap then give_years fuel (m + length_of_year leap) (year - 1) else Some (m, year)
  end.
(** while (m >= days_in_month[leap][v_tm_mon]) *)
Fixpoint take_months (fuel : nat) (leap : bool) (m : Z) (mon : nat) : option (Z * nat) :=
  match fuel with
  | O => None
  | S fuel =>
      d ← days_in_month leap !! mon;
      if d <=? m then take_months fuel leap (m - d) (S mon) else Some (m, mon)
  end.
(** while (m < -days_in_month[leap][v_tm_mon]); an index below 0 is outside the table *)
Fixpoint give_months (fuel : nat) (leap : bool) (m : Z) (mon : nat) : option (Z * nat) :=
  match fuel with
  | O => None
  | S fuel =>
      d ← days_in_month leap !! mon;
      if m <? - d then match mon with O => None | S mon => give_months fuel leap (m + d) mon end else Some (m, mon)
  end.

(** The day of the year and the month of a count of days from the start of [year], which may
    be negative. *)
Definition find_date (m year : Z) : option (Z * Z * nat) :=
  if 0 <=? m then
    let cycles := s32 (Z.quot m days_in_gregorian_cycle) in
    let '(m, year) := if negb (cycles =? 0) then (m - cycles * days_in_gregorian_cycle, year + cycles * years_in_gregorian_cycle) else (m, year) in
    '(m, year) ← take_years 900 m year;
    '(m, mon) ← take_months 13 (IS_LEAP year) m 0;
    Some (year, m, mon)
  else
    let year := year - 1 in
    let cycles := s32 (Z.quot m days_in_gregorian_cycle + 1) in
    let '(m, year) := if negb (cycles =? 0) then (m - cycles * days_in_gregorian_cycle, year + cycles * years_in_gregorian_cycle) else (m, year) in
    '(m, year) ← give_years 900 m year;
    '(m, mon) ← give_months 13 (IS_LEAP year) m 11;
    d ← days_in_month (IS_LEAP year) !! mon;
    Some (year, m + d, mon).

Definition UTC : list Z := [85; 84; 67].

(** The seconds, minutes, hours and days of a time. *)
Definition split_time (time : Z) : Z * Z * Z * Z :=
  let v_tm_sec := s32 (Z.rem time 60) in
  let time := Z.quot time 60 in
  let v_tm_min := s32 (Z.rem time 60) in
  let time := Z.quot time 60 in
  let v_tm_hour := s32 (Z.rem time 24) in
  let time := Z.quot time 24 in
  let v_tm_tday := time in
  let '(v_tm_sec, v_tm_min) := WRAP v_tm_sec v_tm_min 60 in
  let '(v_tm_min, v_tm_hour) := WRAP v_tm_min v_tm_hour 60 in
  let '(v_tm_hour, v_tm_tday) := WRAP v_tm_hour v_tm_tday 24 in
  (v_tm_sec, v_tm_min, v_tm_hour, v_tm_tday).

Definition gmtime64_r (in_time : Z) : option (res tm) :=
  let '(v_tm_sec, v_tm_min, v_tm_hour, v_tm_tday) := split_time in_time in
  let v_tm_wday := s32 (Z.rem (v_tm_tday + 4) 7) in
  let v_tm_wday := if v_tm_wday <? 0 then v_tm_wday + 7 else v_tm_wday in
  let '(m, year) := if CHEAT_DAYS <=? v_tm_tday then (v_tm_tday - CHEAT_DAYS, CHEAT_YEARS) else (v_tm_tday, 70) in
  '(year, m, mon) ← find_date m year;
  if negb (s32 year =? year) then Some (Fail EOVERFLOW)
  else
    j ← julian_days_by_month (IS_LEAP year) !! mon;
    p ← assert_tm (Tm v_tm_sec v_tm_min v_tm_hour (s32 m + 1) (Z.of_nat mon) year v_tm_wday (j + s32 m) 0 0 UTC);
    Some (Good p).

(** ** Years that the system's functions know *)
Definition cycle_offset (year : Z) : Z :=
  let start_year := 2000 in
  let year_diff := year - start_year in
  let year_diff := if start_year <? year then year_diff - 1 else year_diff in
  let exceptions := Z.quot year_diff 100 in
  let exceptions := exceptions - Z.quot year_diff 400 in
  exceptions * 16.

Definition safe_year (year : Z) : option Z :=
  if (MIN_SAFE_YEAR <=? year) && (year <=? MAX_SAFE_YEAR) then Some (s32 year)
  else
    let year_cycle := year + cycle_offset year in
    let year_cycle := if year <? MIN_SAFE_YEAR then year_cycle - 8 else year_cycle in
    let year_cycle := if is_exception_century year then year_cycle + 11 else year_cycle in
    let year_cycle := if is_exception_century (year - 1) then year_cycle + 17 else year_cycle in
    let year_cycle := Z.rem year_cycle SOLAR_CYCLE_LENGTH in
    let year_cycle := if year_cycle <? 0 then SOLAR_CYCLE_LENGTH + year_cycle else year_cycle in
    if (0 <=? year_cycle) && (year_cycle <? SOLAR_CYCLE_LENGTH) then
      safe ← (if year <? MIN_SAFE_YEAR then safe_years_low !! Z.to_nat year_cycle
              else if MAX_SAFE_YEAR <? year then safe_years_high !! Z.to_nat year_cycle
              else None);
      if (safe <=? MAX_SAFE_YEAR) && (MIN_SAFE_YEAR <=? safe) then Some safe else None
    else None.

(** while( left_year != right_year ) *)
Fixpoint between_loop (fuel : nat) (left_year right_year increment seconds : Z) : option Z :=
  match fuel with
  | O => None
  | S fuel =>
      if negb (left_year =? right_year) then
        between_loop fuel left_year (right_year + increment) increment (seconds + length_of_year (IS_LEAP (right_year - 1900)) * 60 * 60 * 24)
      else Some seconds
  end.
Definition seconds_between_years (left_year right_year : Z) : option Z :=
  let increment := if right_year <? left_year then 1 else -1 in
  let '(left_year, seconds) :=
    if 2400 <? left_year then
      let cycles := s32 (Z.quot (left_year - 2400) 400) in (left_year - cycles * 400, cycles * seconds_in_gregorian_cycle)
    else if left_year <? 1600 then
      let cycles := s32 (Z.quot (left_year - 1600) 400) in (left_year + cycles * 400, cycles * seconds_in_gregorian_cycle)
    else (left_year, 0) in
  seconds ← between_loop (S (Z.to_nat (Z.abs (left_year - right_year)))) left_year right_year increment seconds;
  Some (seconds * increment).

(** [mktime] answers the time and the date that it leaves in its argument. *)
Definition mktime64 (mktime : tm -> Z * tm) (input_date : tm) : option Z :=
  let year := tm_year input_date + 1900 in
  if (MIN_SAFE_YEAR <=? year) && (year <=? MAX_SAFE_YEAR) then Some (fst (mktime input_date))
  else
    safe ← safe_year year;
    let '(time, safe_date) := mktime (set_year (safe - 1900) input_date) in
    d ← seconds_between_years year (tm_year safe_date + 1900);
    Some (time + d).
Definition timelocal64 (mktime : tm -> Z * tm) (date : tm) : option Z := mktime64 mktime date.

(** [localtime_r] answers a date, or [None] for NULL, with the errno that it leaves. *)
Definition localtime64_r (localtime_r : Z -> option tm) (errno : Z) (time : Z) : option (res tm) :=
  if (time <=? 2147483647) && (-2147483647 <=? time) then
    match localtime_r time with
    | Some safe_date => p ← assert_tm safe_date; Some (Good p)
    | None => None
    end
  else
    gm ← gmtime64_r time;
    match gm with
    | Fail e => Some (Fail e)
    | Good gm_tm =>
        let orig_year := tm_year gm_tm in
        gm_tm ← (if (2037 - 1900 <? tm_year gm_tm) || (tm_year gm_tm <? 1970 - 1900)
                 then y ← safe_year (tm_year gm_tm + 1900); Some (set_year (y - 1900) gm_tm)
                 else Some gm_tm);
        safe_time ← timegm64 gm_tm;
        match localtime_r (s32 safe_time) with
        | None => Some (Fail errno)
        | Some safe_date =>
            let local_tm := set_year (s32 orig_year) safe_date in
            if negb (tm_year local_tm =? orig_year) then Some (Fail EOVERFLOW)
            else
              let month_diff := tm_mon local_tm - tm_mon gm_tm in
              let local_tm := if month_diff =? 11 then set_year (tm_year local_tm - 1) local_tm else local_tm in
              let local_tm := if month_diff =? -11 then set_year (tm_year local_tm + 1) local_tm else local_tm in
              let local_tm := if negb (IS_LEAP (tm_year local_tm)) && (tm_yday local_tm =? 365) then set_yday (tm_yday local_tm - 1) local_tm else local_tm in
              p ← assert_tm local_tm;
              Some (Good p)
        end
    end.

(** ** The Gregorian calendar

    The days from the first of January 1970 to that of the year [y] + 1900. *)
Definition days_before (y : Z) : Z :=
  let Y := y + 1900 in 365 * (y - 70) + ((Y - 1) / 4 - (Y - 1) / 100 + (Y - 1) / 400) - 477.
Definition leap_year (Y : Z) : bool := (Y mod 400 =? 0) || ((Y mod 4 =? 0) && negb (Y mod 100 =? 0)).

Lemma rem_mod_0 a b : 0 < b -> (Z.rem a b =? 0) = (a mod b =? 0).
Proof.
  intros Hb. apply eq_true_iff_eq. rewrite !Z.eqb_eq, Z.rem_divide, Z.mod_divide by lia. done.
Qed.
Lemma IS_LEAP_spec y : IS_LEAP y = leap_year (y + 1900).
Proof. unfold IS_LEAP, leap_year. by rewrite !rem_mod_0 by lia. Qed.

Lemma div_pred Y n : 0 < n -> Y / n = (Y - 1) / n + (if Y mod n =? 0 then 1 else 0).
Proof.
  intros Hn. pose proof (Z.div_mod Y n ltac:(lia)). pose proof (Z.div_mod (Y - 1) n ltac:(lia)).
  pose proof (Z.mod_pos_bound Y n Hn). pose proof (Z.mod_pos_bound (Y - 1) n Hn). destruct (Z.eqb_spec (Y mod n) 0); nia.
Qed.

Lemma days_before_next y : days_before (y + 1) = days_before y + length_of_year (IS_LEAP y).
Proof.
  rewrite IS_LEAP_spec. unfold days_before, leap_year. set (Y := y + 1900). replace (y + 1 + 1900 - 1) with Y by (subst Y; lia).
  rewrite (div_pred Y 4), (div_pred Y 100), (div_pred Y 400) by lia.
  destruct (Z.eqb_spec (Y mod 4) 0), (Z.eqb_spec (Y mod 100) 0), (Z.eqb_spec (Y mod 400) 0); cbn [andb orb negb length_of_year]; try lia.
  all: exfalso; clearbody Y; pose proof (Z.div_mod Y 4 ltac:(lia)); pose proof (Z.div_mod Y 100 ltac:(lia)); pose proof (Z.div_mod Y 400 ltac:(lia));
    pose proof (Z.mod_pos_bound Y 4 ltac:(lia)); pose proof (Z.mod_pos_bound Y 100 ltac:(lia)); lia.
Qed.

Lemma days_before_cycle y k : days_before (y + 400 * k) = days_before y + 146097 * k.
Proof.
  unfold days_before. cbn zeta.
  replace ((y + 400 * k + 1900 - 1) / 4) with ((y + 1900 - 1) / 4 + 100 * k) by (rewrite <- Z.div_add by lia; f_equal; lia).
  replace ((y + 400 * k + 1900 - 1) / 100) with ((y + 1900 - 1) / 100 + 4 * k) by (rewrite <- Z.div_add by lia; f_equal; lia).
  replace ((y + 400 * k + 1900 - 1) / 400) with ((y + 1900 - 1) / 400 + k) by (rewrite <- Z.div_add by lia; f_equal; lia).
  lia.
Qed.

Lemma IS_LEAP_cycle y k : IS_LEAP (y + 400 * k) = IS_LEAP y.
Proof.
  rewrite !IS_LEAP_spec. unfold leap_year.
  replace ((y + 400 * k + 1900) mod 400) with ((y + 1900) mod 400) by (rewrite <- (Z.mod_add _ k) by lia; f_equal; lia).
  replace ((y + 400 * k + 1900) mod 4) with ((y + 1900) mod 4) by (rewrite <- (Z.mod_add _ (100 * k)) by lia; f_equal; lia).
  replace ((y + 400 * k + 1900) mod 100) with ((y + 1900) mod 100) by (rewrite <- (Z.mod_add _ (4 * k)) by lia; f_equal; lia).
  done.
Qed.

Lemma year_length y : 365 <= length_of_year (IS_LEAP y) <= 366.
Proof. unfold length_of_year. case_test; lia. Qed.

(** Later years start later. *)
Lemma days_before_mono y y' : y <= y' -> days_before y + 365 * (y' - y) <= days_before y' <= days_before y + 366 * (y' - y).
Proof.
  intros H. replace y' with (y + Z.of_nat (Z.to_nat (y' - y))) by lia. induction (Z.to_nat (y' - y)) as [|n IH].
  - rewrite Z.add_0_r. lia.
  - replace (y + Z.of_nat (S n)) with (y + Z.of_nat n + 1) by lia. rewrite days_before_next. pose proof (year_length (y + Z.of_nat n)). lia.
Qed.

(** *** Months *)
Lemma months_table leap :
  forall mon, (mon < 12)%nat -> exists j d, julian_days_by_month leap !! mon = Some j /\ days_in_month leap !! mon = Some d /\
    28 <= d <= 31 /\ 0 <= j /\ j + d <= length_of_year leap /\
    (mon = 11%nat -> j + d = length_of_year leap) /\ (mon = 0%nat -> j = 0) /\
    forall j', julian_days_by_month leap !! S mon = Some j' -> j' = j + d.
Proof.
  intros mon Hm. destruct leap; cbn [length_of_year]; do 12 (destruct mon as [|mon]; [eexists _, _; split; [reflexivity|]; split; [reflexivity|];
    repeat (split; [lia|]); intros j' Hj; cbn in Hj; by simplify_eq|]); lia.
Qed.

Lemma julian_mono leap a b ja jb :
  julian_days_by_month leap !! a = Some ja -> julian_days_by_month leap !! b = Some jb -> (a < b)%nat ->
  exists d, days_in_month leap !! a = Some d /\ ja + d <= jb.
Proof.
  intros Ha Hb Hab. assert (b < 12)%nat as Hb12 by (pose proof (lookup_lt_Some _ _ _ Hb); by destruct leap).
  destruct (months_table leap a) as (j & d & Ej & Ed & _ & _ & _ & _ & _ & Hn); [lia|]. exists d. split; [done|].
  rewrite Ha in Ej. injection Ej as <-. revert jb Hb. induction b as [|b IH]; intros jb Hb; [lia|].
  destruct (decide (a = b)) as [->|]; [rewrite (Hn _ Hb); lia|].
  destruct (months_table leap b) as (j & d' & Ej & Ed' & ? & _ & _ & _ & _ & Hn'); [lia|]. rewrite (Hn' _ Hb).
  pose proof (IH ltac:(lia) ltac:(lia) j Ej). lia.
Qed.

(** A date with its fields in range, the year being one that an int holds. *)
Definition valid_date (d : tm) : Prop :=
  0 <= tm_sec d < 60 /\ 0 <= tm_min d < 60 /\ 0 <= tm_hour d < 24 /\ is_s32 (tm_year d) /\
  (0 <= tm_mon d < 12 /\ exists j n, julian_days_by_month (IS_LEAP (tm_year d)) !! Z.to_nat (tm_mon d) = Some j /\
    days_in_month (IS_LEAP (tm_year d)) !! Z.to_nat (tm_mon d) = Some n /\ 1 <= tm_mday d <= n /\
    tm_yday d = j + (tm_mday d - 1)) /\
  tm_wday d = (days_before (tm_year d) + tm_yday d + 4) mod 7.

(** The seconds from 1970 to a date. *)
Definition seconds_of (d : tm) : Z :=
  (days_before (tm_year d) + tm_yday d) * 86400 + tm_hour d * 3600 + tm_min d * 60 + tm_sec d.

(** *** timegm64 *)
Lemma years_up_spec fuel y orig days :
  y <= orig -> orig - y < Z.of_nat fuel -> years_up fuel y orig days = Some (days + (days_before orig - days_before y)).
Proof.
  revert y days. induction fuel as [|fuel IH]; intros y days Hy Hf; [lia|]. cbn [years_up]. destruct (Z.ltb_spec y orig).
  - rewrite IH by lia. rewrite days_before_next. f_equal. lia.
  - assert (y = orig) as -> by lia. f_equal. lia.
Qed.
Lemma years_down_spec fuel y orig days :
  orig <= y -> y - orig < Z.of_nat fuel -> years_down fuel y orig days = Some (days + (days_before orig - days_before (y + 1))).
Proof.
  revert y days. induction fuel as [|fuel IH]; intros y days Hy Hf; [lia|]. cbn [years_down]. rewrite (days_before_next y). destruct (Z.leb_spec orig (y - 1)).
  - rewrite IH by lia. replace (y - 1 + 1) with y by lia. f_equal. lia.
  - assert (y = orig) as -> by lia. f_equal. lia.
Qed.

Lemma timegm64_spec d :
  valid_date d -> timegm64 d = Some (seconds_of d).
Proof.
  intros (Hs & Hm & Hh & Hy & (Hmon & j & n & Ej & En & Hd & Eyd) & _). unfold timegm64, is_s32 in *.
  set (p := if (100 <? tm_year d) || (tm_year d <? -300) then _ else _).
  assert (exists k, p = (tm_year d - 400 * k, 146097 * k) /\ -300 <= tm_year d - 400 * k <= 499) as (k & -> & Hk).
  { unfold p. destruct ((100 <? tm_year d) || (tm_year d <? -300)) eqn:E.
    - exists (Z.quot (tm_year d - 100) 400). rewrite s32_id by (unfold is_s32; Z.to_euclidean_division_equations; lia).
      split; [f_equal; unfold days_in_gregorian_cycle; lia|].
      apply orb_true_iff in E. destruct E; zbool; Z.to_euclidean_division_equations; lia.
    - exists 0. split; [f_equal; lia|]. zbool. lia. }
  set (y := tm_year d - 400 * k) in *. assert (tm_year d = y + 400 * k) as Ey by lia.
  replace (IS_LEAP y) with (IS_LEAP (tm_year d)) by (rewrite Ey; apply IS_LEAP_cycle).
  set (o := if 70 <? y then _ else _). assert (o = Some (146097 * k + days_before y)) as ->.
  { unfold o. destruct (Z.ltb_spec 70 y); [rewrite years_up_spec by (unfold year_fuel; lia); f_equal; change (days_before 70) with 0; lia|].
    destruct (Z.ltb_spec y 70); [rewrite years_down_spec by (unfold year_fuel; lia); f_equal; change (days_before (69 + 1)) with 0; lia|].
    assert (y = 70) as -> by lia. f_equal. change (days_before 70) with 0. lia. }
  cbn [mbind option_bind]. destruct (Z.ltb_spec (tm_mon d) 0) as [Hneg|_]; [lia|]. rewrite Ej. cbn [mbind option_bind]. f_equal. unfold seconds_of. rewrite Ey, days_before_cycle, Eyd. lia.
Qed.

(** *** gmtime64_r *)
Lemma split_time_spec t :
  let '(sec, min, hour, tday) := split_time t in
  0 <= sec < 60 /\ 0 <= min < 60 /\ 0 <= hour < 24 /\ t = tday * 86400 + hour * 3600 + min * 60 + sec.
Proof.
  unfold split_time, WRAP. rewrite !s32_id by (unfold is_s32; Z.to_euclidean_division_equations; lia).
  repeat case_test; zbool; Z.to_euclidean_division_equations; lia.
Qed.

Lemma take_years_spec fuel m y :
  0 <= m < 365 * Z.of_nat fuel ->
  exists m' y', take_years fuel m y = Some (m', y') /\ 0 <= m' < length_of_year (IS_LEAP y') /\ days_before y' + m' = days_before y + m.
Proof.
  revert m y. induction fuel as [|fuel IH]; intros m y Hm; [lia|]. cbn [take_years]. pose proof (year_length y).
  destruct (Z.leb_spec (length_of_year (IS_LEAP y)) m).
  - destruct (IH (m - length_of_year (IS_LEAP y)) (y + 1)) as (m' & y' & -> & ? & E); [lia|]. rewrite days_before_next in E. exists m', y'. split; [done|lia].
  - exists m, y. split; [done|lia].
Qed.

Lemma give_years_spec fuel m y :
  m < 0 -> - m <= 365 * Z.of_nat fuel ->
  exists m' y', give_years fuel m y = Some (m', y') /\ - length_of_year (IS_LEAP y') <= m' < 0 /\ days_before (y' + 1) + m' = days_before (y + 1) + m.
Proof.
  revert m y. induction fuel as [|fuel IH]; intros m y H0 Hm; [lia|]. cbn [give_years]. pose proof (year_length y).
  destruct (Z.ltb_spec m (- length_of_year (IS_LEAP y))).
  - destruct (IH (m + length_of_year (IS_LEAP y)) (y - 1)) as (m' & y' & -> & ? & E); [lia..|].
    replace (y - 1 + 1) with y in E by lia. rewrite (days_before_next y). exists m', y'. split; [done|lia].
  - exists m, y. split; [done|lia].
Qed.

Lemma take_months_spec fuel leap m mon j :
  (12 <= fuel + mon)%nat -> (mon < 12)%nat -> julian_days_by_month leap !! mon = Some j -> 0 <= m -> j + m < length_of_year leap ->
  exists m' mon' j' d, take_months fuel leap m mon = Some (m', mon') /\ (mon' < 12)%nat /\
    julian_days_by_month leap !! mon' = Some j' /\ days_in_month leap !! mon' = Some d /\ 0 <= m' < d /\ j' + m' = j + m.
Proof.
  revert m mon j. induction fuel as [|fuel IH]; intros m mon j Hf Hmon Hj Hm Hl; [lia|]. cbn [take_months].
  destruct (months_table leap mon Hmon) as (j0 & d & Ej & Ed & Hd & _ & _ & Hlast & _ & Hn). rewrite Hj in Ej. injection Ej as <-.
  rewrite Ed. cbn [mbind option_bind]. destruct (Z.leb_spec d m).
  - destruct (decide (mon = 11)%nat) as [->|]; [specialize (Hlast eq_refl); lia|].
    destruct (months_table leap (S mon)) as (j1 & d1 & Ej1 & _); [lia|]. pose proof (Hn _ Ej1) as ->.
    destruct (IH (m - d) (S mon) (j + d)) as (m' & mon' & j' & d' & ? & ? & ? & ? & ? & ?); [lia|lia|done|lia|lia|].
    exists m', mon', j', d'. split_and!; (done || lia).
  - exists m, mon, j, d. split_and!; (done || lia).
Qed.

Lemma give_months_spec fuel leap m mon j d :
  (mon < fuel)%nat -> (mon < 12)%nat -> julian_days_by_month leap !! mon = Some j -> days_in_month leap !! mon = Some d ->
  m < 0 -> 0 <= j + d + m ->
  exists m' mon' j' d', give_months fuel leap m mon = Some (m', mon') /\ (mon' < 12)%nat /\
    julian_days_by_month leap !! mon' = Some j' /\ days_in_month leap !! mon' = Some d' /\ - d' <= m' < 0 /\ j' + d' + m' = j + d + m.
Proof.
  revert m mon j d. induction fuel as [|fuel IH]; intros m mon j d Hf Hmon Hj Hd Hm Hl; [lia|]. cbn [give_months].
  rewrite Hd. cbn [mbind option_bind]. destruct (Z.ltb_spec m (- d)).
  - destruct mon as [|mon].
    + destruct (months_table leap 0%nat Hmon) as (j0 & d0 & Ej & Ed & _ & _ & _ & _ & H0 & _). rewrite Hj in Ej. injection Ej as <-.
      specialize (H0 eq_refl). lia.
    + destruct (months_table leap mon) as (j1 & d1 & Ej1 & Ed1 & _ & _ & _ & _ & _ & Hn); [lia|]. pose proof (Hn _ Hj) as ->.
      destruct (IH (m + d) mon j1 d1) as (m' & mon' & j' & d' & ? & ? & ? & ? & ? & ?); [lia|lia|done|done|lia|lia|].
      exists m', mon', j', d'. split_and!; (done || lia).
  - exists m, mon, j, d. split_and!; (done || lia).
Qed.

Lemma find_date_spec m year :
  - 2 ^ 47 <= m < 2 ^ 47 ->
  exists y m' mon j d, find_date m year = Some (y, m', mon) /\ (mon < 12)%nat /\ julian_days_by_month (IS_LEAP y) !! mon = Some j /\
    days_in_month (IS_LEAP y) !! mon = Some d /\ 0 <= m' < d /\ days_before y + j + m' = days_before year + m.
Proof.
  intros Hm. change (2 ^ 47) with 140737488355328 in Hm. unfold find_date, days_in_gregorian_cycle, years_in_gregorian_cycle. cbn [Z.mul Z.add Z.sub].
  destruct (Z.leb_spec 0 m) as [H0|H0].
  - set (cycles := s32 _). assert (cycles = Z.quot m 146097) as Ec by (apply s32_id; unfold is_s32; Z.to_euclidean_division_equations; lia).
    set (p := if negb (cycles =? 0) then _ else _). assert (p = (m - cycles * 146097, year + cycles * 400)) as ->.
    { unfold p. destruct (Z.eqb_spec cycles 0) as [->|]; cbn; [f_equal; lia|done]. }
    assert (0 <= m - cycles * 146097 < 146097) as Hr by (Z.to_euclidean_division_equations; lia). clearbody cycles. clear Ec.
    destruct (take_years_spec 900 (m - cycles * 146097) (year + cycles * 400)) as (m1 & y & -> & Hm1 & Ey); [lia|].
    cbn [mbind option_bind]. destruct (months_table (IS_LEAP y) 0%nat) as (j0 & d0 & Ej0 & _ & _ & _ & _ & _ & Hz & _); [lia|]. specialize (Hz eq_refl) as ->.
    destruct (take_months_spec 13 (IS_LEAP y) m1 0 0) as (m2 & mon & j & d & -> & ? & ? & ? & ? & ?); [lia|lia|done|lia|lia|].
    cbn [mbind option_bind]. exists y, m2, mon, j, d. split_and!; try (done || lia).
    replace (year + cycles * 400) with (year + 400 * cycles) in Ey by lia. rewrite days_before_cycle in Ey. lia.
  - set (cycles := s32 _). assert (cycles = Z.quot m 146097 + 1) as Ec by (apply s32_id; unfold is_s32; Z.to_euclidean_division_equations; lia).
    set (p := if negb (cycles =? 0) then _ else _). assert (p = (m - cycles * 146097, year - 1 + cycles * 400)) as ->.
    { unfold p. destruct (Z.eqb_spec cycles 0) as [->|]; cbn; [f_equal; lia|done]. }
    assert (-2 * 146097 <= m - cycles * 146097 < 0) as Hr by (Z.to_euclidean_division_equations; lia). clearbody cycles. clear Ec.
    destruct (give_years_spec 900 (m - cycles * 146097) (year - 1 + cycles * 400)) as (m1 & y & -> & Hm1 & Ey); [lia..|].
    cbn [mbind option_bind]. destruct (months_table (IS_LEAP y) 11%nat) as (j0 & d0 & Ej0 & Ed0 & _ & _ & _ & Hz & _); [lia|]. specialize (Hz eq_refl).
    destruct (give_months_spec 13 (IS_LEAP y) m1 11 j0 d0) as (m2 & mon & j & d & -> & ? & ? & Ed & ? & ?); [lia|lia|done|done|lia|lia|].
    cbn [mbind option_bind]. rewrite Ed. cbn [mbind option_bind]. exists y, (m2 + d), mon, j, d. split_and!; try (done || lia).
    replace (year - 1 + cycles * 400 + 1) with (year + 400 * cycles) in Ey by lia. rewrite days_before_cycle, (days_before_next y) in Ey. lia.
Qed.

(** The day of a valid date and its place in the year are determined by the day count. *)
Lemma valid_yday d : valid_date d -> 0 <= tm_yday d < length_of_year (IS_LEAP (tm_year d)).
Proof.
  intros (_ & _ & _ & _ & (Hmon & j & n & Ej & En & Hd & ->) & _).
  destruct (months_table (IS_LEAP (tm_year d)) (Z.to_nat (tm_mon d))) as (j0 & n0 & Ej0 & En0 & _ & Hj & Hl & _); [lia|].
  rewrite Ej in Ej0. rewrite En in En0. simplify_eq. lia.
Qed.

Lemma year_unique y y' r r' :
  0 <= r < length_of_year (IS_LEAP y) -> 0 <= r' < length_of_year (IS_LEAP y') -> days_before y + r = days_before y' + r' -> y = y' /\ r = r'.
Proof.
  intros Hr Hr' E. assert (y = y') as <-; [|lia].
  destruct (Z.lt_trichotomy y y') as [H|[H|H]]; [|done|].
  - pose proof (days_before_mono (y + 1) y' ltac:(lia)). rewrite days_before_next in *. lia.
  - pose proof (days_before_mono (y' + 1) y ltac:(lia)). rewrite days_before_next in *. lia.
Qed.

Lemma month_unique leap mon mon' j j' n n' a a' :
  julian_days_by_month leap !! mon = Some j -> days_in_month leap !! mon = Some n ->
  julian_days_by_month leap !! mon' = Some j' -> days_in_month leap !! mon' = Some n' ->
  0 <= a < n -> 0 <= a' < n' -> j + a = j' + a' -> mon = mon' /\ a = a'.
Proof.
  intros Ej En Ej' En' Ha Ha' E. assert (mon = mon') as <-; [|split; [done|]; rewrite Ej in Ej'; simplify_eq; lia].
  destruct (Nat.lt_trichotomy mon mon') as [H|[H|H]]; [|done|].
  - destruct (julian_mono _ _ _ _ _ Ej Ej' H) as (d & Ed & ?). rewrite En in Ed. simplify_eq. lia.
  - destruct (julian_mono _ _ _ _ _ Ej' Ej H) as (d & Ed & ?). rewrite En' in Ed. simplify_eq. lia.
Qed.

(** Two valid dates of the same time have the same fields. *)
Definition same_date (d d' : tm) : Prop :=
  tm_sec d = tm_sec d' /\ tm_min d = tm_min d' /\ tm_hour d = tm_hour d' /\ tm_mday d = tm_mday d' /\ tm_mon d = tm_mon d' /\
  tm_year d = tm_year d' /\ tm_wday d = tm_wday d' /\ tm_yday d = tm_yday d'.

Lemma seconds_inj d d' : valid_date d -> valid_date d' -> seconds_of d = seconds_of d' -> same_date d d'.
Proof.
  intros V V' E. pose proof (valid_yday d V) as Hyd. pose proof (valid_yday d' V') as Hyd'.
  destruct V as (Hs & Hm & Hh & _ & (Hmon & j & n & Ej & En & Hd & Ed) & Ew), V' as (Hs' & Hm' & Hh' & _ & (Hmon' & j' & n' & Ej' & En' & Hd' & Ed') & Ew').
  unfold seconds_of in E. assert (days_before (tm_year d) + tm_yday d = days_before (tm_year d') + tm_yday d') as Edays by lia.
  destruct (year_unique _ _ _ _ Hyd Hyd' Edays) as [Ey Eyd]. rewrite Ey in *.
  destruct (month_unique _ _ _ _ _ _ _ (tm_mday d - 1) (tm_mday d' - 1) Ej En Ej' En') as [Emon Emd]; [lia..|].
  unfold same_date. rewrite Ew, Ew', Eyd, Ey. split_and!; lia || done.
Qed.

Definition is_s64 (z : Z) : Prop := - 2 ^ 63 <= z < 2 ^ 63.

Lemma gmtime64_spec t :
  is_s64 t ->
  exists r, gmtime64_r t = Some r /\
    match r with
    | Good d => valid_date d /\ seconds_of d = t /\ tm_isdst d = 0 /\ tm_gmtoff d = 0
    | Fail e => e = EOVERFLOW /\ forall d, valid_date d -> seconds_of d <> t
    end.
Proof.
  intros Ht. unfold is_s64 in Ht. change (2 ^ 63) with 9223372036854775808 in Ht. unfold gmtime64_r. pose proof (split_time_spec t) as Hsp.
  destruct (split_time t) as [[[sec min] hour] tday]. destruct Hsp as (Hs & Hm & Hh & Et).
  assert (s32 (Z.rem (tday + 4) 7) = Z.rem (tday + 4) 7) as Ew by (apply s32_id; unfold is_s32; Z.to_euclidean_division_equations; lia). rewrite Ew.
  set (wday := if Z.rem (tday + 4) 7 <? 0 then _ else _).
  assert (wday = (tday + 4) mod 7) as Hw by (unfold wday; case_test; zbool; Z.to_euclidean_division_equations; lia). clearbody wday. clear Ew.
  set (p := if CHEAT_DAYS <=? tday then _ else _).
  assert (exists m year, p = (m, year) /\ days_before year + m = tday /\ - 2 ^ 47 <= m < 2 ^ 47) as (m & year & -> & Em & Hmr).
  { change (2 ^ 47) with 140737488355328. change CHEAT_DAYS with 13879 in *. unfold p. destruct (Z.leb_spec 13879 tday).
    - eexists _, _. split; [done|]. change (days_before CHEAT_YEARS) with 13879. lia.
    - eexists _, _. split; [done|]. change (days_before 70) with 0. lia. }
  destruct (find_date_spec m year Hmr) as (y & m' & mon & j & n & -> & Hmon & Ej & En & Hm' & Ed). cbn [mbind option_bind].
  assert (0 <= j + m' < length_of_year (IS_LEAP y)) as Hyd.
  { destruct (months_table (IS_LEAP y) mon Hmon) as (j0 & n0 & Ej0 & En0 & _ & Hj & Hl & _). simplify_eq. lia. }
  assert (n <= 31) as Hn31 by (destruct (months_table (IS_LEAP y) mon Hmon) as (j0 & n0 & Ej0 & En0 & ? & _); simplify_eq; lia).
  destruct (Z.eqb_spec (s32 y) y) as [Hy|Hy]; cbn [negb].
  - rewrite (s32_id m') by (unfold is_s32; lia). rewrite Ej. cbn [mbind option_bind].
    set (d := Tm _ _ _ _ _ _ _ _ _ _ _). assert (valid_date d) as Hv.
    { unfold valid_date, d. cbn. rewrite Nat2Z.id. split_and!; try lia.
      - rewrite <- Hy. apply s32_range.
      - exists j, n. split_and!; (done || lia).
      - rewrite Hw. f_equal. lia. }
    assert (check_tm d = true) as Hc.
    { unfold check_tm, d. cbn [tm_sec tm_min tm_hour tm_mday tm_mon tm_year tm_wday tm_yday tm_gmtoff]. rewrite Nat2Z.id, En.
      pose proof (Z.mod_pos_bound (tday + 4) 7 ltac:(lia)). repeat (apply andb_true_iff; split); apply Z.leb_le; lia. }
    unfold assert_tm. rewrite Hc. cbn [mbind option_bind]. exists (Good d). split; [done|]. split; [done|]. split; [|done].
    unfold seconds_of, d. cbn. lia.
  - exists (Fail EOVERFLOW). split; [done|]. split; [done|]. intros d Hv E. apply Hy. pose proof (valid_yday d Hv) as Hyd'.
    destruct Hv as (Hs' & Hmi' & Hh' & Hr & _). unfold seconds_of in E.
    destruct (year_unique (tm_year d) y (tm_yday d) (j + m')) as [<- _]; [done..|lia|]. by apply s32_id.
Qed.

(** gmtime64_r fills in a date whose fields are all in range and agree with each other (the month
    and the day of the month with the day of the year and the leap years, the day of the week with
    the day count), for every 64-bit time; it fails, with EOVERFLOW, exactly for the times whose year
    an int does not hold.  No assert fails and no table is read outside its bounds. *)
Theorem gmtime64_fields t :
  is_s64 t ->
  exists r, gmtime64_r t = Some r /\
    match r with
    | Good d => valid_date d /\ check_tm d = true
    | Fail e => e = EOVERFLOW /\ forall d, valid_date d -> seconds_of d <> t
    end.
Proof.
  intros Ht. destruct (gmtime64_spec t Ht) as (r & E & Hr). exists r. split; [done|]. destruct r as [e|d]; [done|].
  split; [apply Hr|]. unfold gmtime64_r in E. destruct (split_time t) as [[[sec min] hour] tday].
  destruct (if CHEAT_DAYS <=? tday then _ else _) as [m year]. destruct (find_date m year) as [[[y m'] mon]|]; [|done]. cbn [mbind option_bind] in E.
  case_test_in E; [done|]. destruct (julian_days_by_month _ !! _); [|done]. cbn [mbind option_bind] in E. unfold assert_tm in E.
  case_test_in E; [|done]. cbn in E. by injection E as <-.
Qed.
Lemma gmtime64_fields_witness :
  exists r, gmtime64_r (2 ^ 62) = Some r /\ match r with Good d => valid_date d /\ check_tm d = true | Fail e => e = EOVERFLOW /\ forall d, valid_date d -> seconds_of d <> 2 ^ 62 end.
Proof. apply (gmtime64_fields (2 ^ 62)). unfold is_s64. lia. Defined.

(** C13.  timegm64 and gmtime64_r are inverse to each other: the date of a time leads back to that
    time, and the time of a valid date back to the same date. *)
Theorem calendar_roundtrip :
  (forall t d, is_s64 t -> gmtime64_r t = Some (Good d) -> timegm64 d = Some t) /\
  (forall d, valid_date d -> exists t d', timegm64 d = Some t /\ gmtime64_r t = Some (Good d') /\ same_date d d').
Proof.
  split.
  - intros t d Ht E. destruct (gmtime64_spec t Ht) as (r & Er & Hr). rewrite E in Er. injection Er as <-. destruct Hr as (Hv & <- & _).
    by apply timegm64_spec.
  - intros d Hv. exists (seconds_of d). rewrite (timegm64_spec d Hv). assert (is_s64 (seconds_of d)) as Ht.
    { pose proof (valid_yday d Hv) as Hyd. pose proof (year_length (tm_year d)). destruct Hv as (Hs & Hm & Hh & Hy & _). unfold is_s64, seconds_of, is_s32 in *.
      assert (- 2 ^ 40 < days_before (tm_year d) < 2 ^ 40); [|lia]. unfold days_before. Z.to_euclidean_division_equations. lia. }
    destruct (gmtime64_spec _ Ht) as ([e|d'] & -> & Hr).
    + destruct Hr as [_ Hr]. by destruct (Hr d Hv).
    + destruct Hr as (Hv' & E & _). exists d'. split; [done|]. split; [done|]. by apply seconds_inj.
Qed.
Lemma calendar_roundtrip_witness : timegm64 (Tm 0 0 0 29 1 100 2 59 0 0 UTC) = Some 951782400.
Proof. exact (proj1 calendar_roundtrip 951782400 (Tm 0 0 0 29 1 100 2 59 0 0 UTC) ltac:(unfold is_s64; lia) eq_refl). Defined.

(** ** Safe years *)

(** [s] is a year of the system's functions whose calendar, and that of the year before it, are those
    of [y]: both start on the same days of the week and have the same length. *)
Definition matching (y s : Z) : bool :=
  (MIN_SAFE_YEAR <=? s) && (s <=? MAX_SAFE_YEAR) && eqb (leap_year s) (leap_year y) && eqb (leap_year (s - 1)) (leap_year (y - 1)) &&
  ((days_before (s - 1900) - days_before (y - 1900)) mod 7 =? 0).
Definition safe_ok (y : Z) : bool := match safe_year y with Some s => matching y s | None => false end.

Lemma leap_year_cycle y k : leap_year (y + 400 * k) = leap_year y.
Proof.
  replace (y + 400 * k) with (y - 1900 + 400 * k + 1900) by lia. rewrite <- IS_LEAP_spec, IS_LEAP_cycle, IS_LEAP_spec. f_equal. lia.
Qed.

Lemma matching_cycle y k s : matching (y + 400 * k) s = matching y s.
Proof.
  unfold matching. replace (y + 400 * k - 1) with (y - 1 + 400 * k) by lia. rewrite !leap_year_cycle. do 2 f_equal.
  replace (y + 400 * k - 1900) with (y - 1900 + 400 * k) by lia. rewrite days_before_cycle.
  replace (days_before (s - 1900) - (days_before (y - 1900) + 146097 * k)) with (days_before (s - 1900) - days_before (y - 1900) + (-20871 * k) * 7) by lia.
  by rewrite Z.mod_add.
Qed.

Lemma exception_cycle y k : is_exception_century (y + 400 * k) = is_exception_century y.
Proof.
  unfold is_exception_century. rewrite !rem_mod_0 by lia.
  replace (y + 400 * k) with (y + (4 * k) * 100) at 1 by lia. rewrite Z.mod_add by lia.
  replace (y + 400 * k) with (y + k * 400) by lia. by rewrite Z.mod_add.
Qed.

(** The 400 years of the calendar are a whole number of solar cycles, with their exceptions. *)
Lemma safe_year_up y : MAX_SAFE_YEAR < y -> safe_year (y + 400) = safe_year y.
Proof.
  unfold MAX_SAFE_YEAR. intros Hy. unfold safe_year, MIN_SAFE_YEAR, MAX_SAFE_YEAR, SOLAR_CYCLE_LENGTH.
  rewrite !(proj2 (Z.leb_le 1971 _)), !(proj2 (Z.leb_gt _ 2037)), !(proj2 (Z.ltb_ge _ 1971)), !(proj2 (Z.ltb_lt 2037 _)) by lia. cbn [andb].
  change (y + 400) with (y + 400 * 1). replace (y + 400 * 1 - 1) with (y - 1 + 400 * 1) by lia. rewrite !exception_cycle.
  assert (y + 400 * 1 + cycle_offset (y + 400 * 1) = y + cycle_offset y + 16 * 28) as ->.
  { unfold cycle_offset. rewrite !(proj2 (Z.ltb_lt 2000 _)) by lia. Z.to_euclidean_division_equations. lia. }
  assert (0 <= cycle_offset y) as Hc by (unfold cycle_offset; rewrite (proj2 (Z.ltb_lt 2000 _)) by lia; Z.to_euclidean_division_equations; lia).
  set (c := y + cycle_offset y). assert (0 <= c) as Hc0 by lia. clearbody c.
  set (e := is_exception_century y). set (f := is_exception_century (y - 1)).
  set (c1 := if f then (if e then c + 11 else c) + 17 else if e then c + 11 else c).
  replace (if f then (if e then c + 16 * 28 + 11 else c + 16 * 28) + 17 else if e then c + 16 * 28 + 11 else c + 16 * 28) with (c1 + 16 * 28)
    by (unfold c1; destruct e, f; lia).
  assert (0 <= c1) as H1 by (unfold c1; destruct e, f; lia). clearbody c1.
  replace (Z.rem (c1 + 16 * 28) 28) with (Z.rem c1 28) by (Z.to_euclidean_division_equations; lia). done.
Qed.

Lemma safe_year_down y : y < MIN_SAFE_YEAR -> safe_year (y - 400) = safe_year y.
Proof.
  unfold MIN_SAFE_YEAR. intros Hy. unfold safe_year, MIN_SAFE_YEAR, MAX_SAFE_YEAR, SOLAR_CYCLE_LENGTH.
  rewrite !(proj2 (Z.leb_gt 1971 _)), !(proj2 (Z.ltb_lt _ 1971)) by lia. cbn [andb].
  replace (y - 400) with (y + 400 * (-1)) by lia. replace (y + 400 * -1 - 1) with (y - 1 + 400 * (-1)) by lia. rewrite !exception_cycle.
  assert (y + 400 * -1 + cycle_offset (y + 400 * -1) = y + cycle_offset y - 16 * 28) as ->.
  { unfold cycle_offset. rewrite !(proj2 (Z.ltb_ge 2000 _)) by lia. Z.to_euclidean_division_equations. lia. }
  set (c := y + cycle_offset y).
  set (e := is_exception_century y). set (f := is_exception_century (y - 1)).
  set (c1 := if f then (if e then c - 8 + 11 else c - 8) + 17 else if e then c - 8 + 11 else c - 8).
  replace (if f then (if e then c - 16 * 28 - 8 + 11 else c - 16 * 28 - 8) + 17 else if e then c - 16 * 28 - 8 + 11 else c - 16 * 28 - 8) with (c1 - 16 * 28)
    by (unfold c1; destruct e, f; lia). clearbody c1.
  assert (forall z, (if Z.rem z 28 <? 0 then 28 + Z.rem z 28 else Z.rem z 28) = z mod 28) as Hmod
    by (intros z; case_test; zbool; Z.to_euclidean_division_equations; lia).
  rewrite !Hmod. replace ((c1 - 16 * 28) mod 28) with (c1 mod 28) by (rewrite <- (Z.mod_add (c1 - 16 * 28) 16 28) by lia; f_equal; lia). done.
Qed.

Lemma safe_ok_up n y : MAX_SAFE_YEAR < y -> safe_ok (y + 400 * Z.of_nat n) = safe_ok y.
Proof.
  intros Hy. unfold safe_ok. assert (safe_year (y + 400 * Z.of_nat n) = safe_year y) as ->.
  - induction n as [|n IH]; [f_equal; lia|]. rewrite <- IH. replace (y + 400 * Z.of_nat (S n)) with (y + 400 * Z.of_nat n + 400) by lia. apply safe_year_up. lia.
  - destruct (safe_year y); [apply matching_cycle|done].
Qed.
Lemma safe_ok_down n y : y < MIN_SAFE_YEAR -> safe_ok (y + 400 * - Z.of_nat n) = safe_ok y.
Proof.
  intros Hy. unfold safe_ok. assert (safe_year (y + 400 * - Z.of_nat n) = safe_year y) as ->.
  - induction n as [|n IH]; [f_equal; lia|]. rewrite <- IH. replace (y + 400 * - Z.of_nat (S n)) with (y + 400 * - Z.of_nat n - 400) by lia. apply safe_year_down. lia.
  - destruct (safe_year y); [apply matching_cycle|done].
Qed.

Lemma safe_ok_table : forallb (fun n => safe_ok (2038 + Z.of_nat n) && safe_ok (1970 - Z.of_nat n)) (seq 0 400) = true.
Proof. vm_compute. reflexivity. Qed.

Lemma safe_ok_all y : safe_ok y = true.
Proof.
  pose proof safe_ok_table as Ht. rewrite forallb_forall in Ht.
  destruct (Z.lt_ge_cases MAX_SAFE_YEAR y) as [Hu|Hu]; [|destruct (Z.lt_ge_cases y MIN_SAFE_YEAR) as [Hd|Hd]]; unfold MAX_SAFE_YEAR, MIN_SAFE_YEAR in *.
  - set (r := (y - 2038) mod 400). set (k := (y - 2038) / 400).
    assert (y = 2038 + r + 400 * Z.of_nat (Z.to_nat k)) as E by (subst r k; Z.to_euclidean_division_equations; lia).
    assert (0 <= r < 400) as Hr by (subst r; apply Z.mod_pos_bound; lia). clearbody r k.
    rewrite E, safe_ok_up by (unfold MAX_SAFE_YEAR; lia). specialize (Ht (Z.to_nat r) ltac:(apply in_seq; lia)). apply andb_true_iff in Ht as [Ht _].
    by rewrite Z2Nat.id in Ht by lia.
  - set (r := (1970 - y) mod 400). set (k := (1970 - y) / 400).
    assert (y = 1970 - r + 400 * - Z.of_nat (Z.to_nat k)) as E by (subst r k; Z.to_euclidean_division_equations; lia).
    assert (0 <= r < 400) as Hr by (subst r; apply Z.mod_pos_bound; lia). clearbody r k.
    rewrite E, safe_ok_down by (unfold MIN_SAFE_YEAR; lia). specialize (Ht (Z.to_nat r) ltac:(apply in_seq; lia)). apply andb_true_iff in Ht as [_ Ht].
    by rewrite Z2Nat.id in Ht by lia.
  - unfold safe_ok, safe_year, matching, MIN_SAFE_YEAR, MAX_SAFE_YEAR. rewrite !(proj2 (Z.leb_le _ _)) by lia. cbn [andb].
    rewrite s32_id by (unfold is_s32; lia). rewrite !(proj2 (Z.leb_le _ _)) by lia. rewrite !eqb_reflx, Z.sub_diag. done.
Qed.

(** The years from the start of one to that of another of the same length. *)
Lemma between_up fuel l r s :
  r <= l -> l - r < Z.of_nat fuel -> between_loop fuel l r 1 s = Some (s + (days_before (l - 1900) - days_before (r - 1900)) * 86400).
Proof.
  revert r s. induction fuel as [|fuel IH]; intros r s Hr Hf; [lia|]. cbn [between_loop]. destruct (Z.eqb_spec l r) as [->|Hne]; cbn [negb].
  - f_equal. lia.
  - rewrite IH by lia. replace (r + 1 - 1900) with (r - 1900 + 1) by lia. rewrite days_before_next. f_equal. lia.
Qed.
Lemma between_down fuel l r s :
  l <= r -> r - l < Z.of_nat fuel -> between_loop fuel l r (-1) s = Some (s + (days_before (r - 1900 + 1) - days_before (l - 1900 + 1)) * 86400).
Proof.
  revert r s. induction fuel as [|fuel IH]; intros r s Hr Hf; [lia|]. cbn [between_loop]. destruct (Z.eqb_spec l r) as [->|Hne]; cbn [negb].
  - f_equal. lia.
  - rewrite IH by lia. rewrite (days_before_next (r - 1900)). replace (r + -1 - 1900 + 1) with (r - 1900) by lia. f_equal. lia.
Qed.

Lemma seconds_between_spec l r :
  is_s32 (l - 1900) -> 1971 <= r <= 2037 -> leap_year l = leap_year r ->
  seconds_between_years l r = Some ((days_before (l - 1900) - days_before (r - 1900)) * 86400).
Proof.
  unfold is_s32. intros Hl Hr Hleap. unfold seconds_between_years, seconds_in_gregorian_cycle, days_in_gregorian_cycle.
  assert (days_before (l - 1900 + 1) - days_before (r - 1900 + 1) = days_before (l - 1900) - days_before (r - 1900)) as Hnext.
  { rewrite !days_before_next, !IS_LEAP_spec. replace (l - 1900 + 1900) with l by lia. replace (r - 1900 + 1900) with r by lia. rewrite Hleap. lia. }
  destruct (Z.ltb_spec 2400 l) as [H1|H1]; [|destruct (Z.ltb_spec l 1600) as [H2|H2]].
  - rewrite s32_id by (unfold is_s32; Z.to_euclidean_division_equations; lia). set (k := Z.quot (l - 2400) 400).
    assert (2400 <= l - k * 400 < 2800) as Hk by (subst k; Z.to_euclidean_division_equations; lia). clearbody k.
    rewrite (proj2 (Z.ltb_lt r l)) by lia. rewrite between_up by lia. cbn [mbind option_bind]. f_equal.
    replace (l - 1900) with (l - k * 400 - 1900 + 400 * k) by lia. rewrite days_before_cycle. lia.
  - rewrite s32_id by (unfold is_s32; Z.to_euclidean_division_equations; lia). set (k := Z.quot (l - 1600) 400).
    assert (k <= 0 /\ 1200 < l - k * 400 <= 1600) as Hk by (subst k; Z.to_euclidean_division_equations; lia). clearbody k.
    rewrite (proj2 (Z.ltb_ge r l)) by lia. rewrite between_down by lia. cbn [mbind option_bind]. f_equal.
    replace (l + k * 400 - 1900 + 1) with (l - 1900 + 1 + 400 * k) by lia. rewrite days_before_cycle. lia.
  - cbn zeta. destruct (Z.ltb_spec r l) as [H3|H3].
    + rewrite between_up by lia. cbn [mbind option_bind]. f_equal. lia.
    + rewrite between_down by lia. cbn [mbind option_bind]. f_equal. lia.
Qed.

(** mktime64 extends the system's mktime, which knows the years 1971 to 2037, to every date: it
    finds a year of those with the same calendar (the same leap status, the same day of the week for
    the first of January, and the same for the year before), and the offset from UTC of its result is
    the one that the system's mktime has for the date in that year.  The hypothesis is that the
    system's mktime leaves the year of the date as it is. *)
Theorem mktime64_extends (mktime : tm -> Z * tm) d :
  valid_date d -> (forall d', tm_year (mktime d').2 = tm_year d') ->
  exists s t, safe_year (tm_year d + 1900) = Some s /\ MIN_SAFE_YEAR <= s <= MAX_SAFE_YEAR /\
    leap_year s = leap_year (tm_year d + 1900) /\ leap_year (s - 1) = leap_year (tm_year d + 1900 - 1) /\
    days_before (s - 1900) mod 7 = days_before (tm_year d) mod 7 /\
    mktime64 mktime d = Some t /\
    let d' := set_year (s - 1900) d in seconds_of d - t = seconds_of d' - (mktime d').1.
Proof.
  intros Hv Hmk. pose proof (safe_ok_all (tm_year d + 1900)) as Hok. unfold safe_ok in Hok.
  destruct (safe_year (tm_year d + 1900)) as [s|] eqn:Es; [|done]. unfold matching in Hok. zbool.
  repeat match goal with H : eqb _ _ = true |- _ => apply eqb_prop in H end.
  replace (tm_year d + 1900 - 1900) with (tm_year d) in * by lia.
  set (d' := set_year (s - 1900) d). assert (tm_year d' = s - 1900) as Ey by done.
  assert (exists t, mktime64 mktime d = Some t /\ seconds_of d - t = seconds_of d' - (mktime d').1) as (t & Et & Ht).
  { unfold mktime64. destruct ((MIN_SAFE_YEAR <=? tm_year d + 1900) && (tm_year d + 1900 <=? MAX_SAFE_YEAR)) eqn:Er.
    - unfold safe_year in Es. rewrite Er in Es. injection Es as Es. zbool. unfold MIN_SAFE_YEAR, MAX_SAFE_YEAR in *.
      rewrite s32_id in Es by (unfold is_s32; lia). assert (d' = d) as ->; [|by eexists].
      unfold d', set_year. destruct d. cbn in *. f_equal. lia.
    - rewrite Es. cbn [mbind option_bind]. fold d'. pose proof (Hmk d') as Hd'. destruct (mktime d') as [time sd]. cbn [fst snd] in *.
      replace (tm_year sd + 1900) with s by lia. unfold MIN_SAFE_YEAR, MAX_SAFE_YEAR in *. destruct Hv as (_ & _ & _ & Hy & _).
      rewrite seconds_between_spec; [|replace (tm_year d + 1900 - 1900) with (tm_year d) by lia; exact Hy|lia|done].
      cbn [mbind option_bind]. eexists. split; [done|]. unfold seconds_of. rewrite Ey. replace (tm_year d + 1900 - 1900) with (tm_year d) by lia.
      unfold d', set_year. cbn. lia. }
  exists s, t. split_and!; try done.
  pose proof (Z.div_mod (days_before (s - 1900) - days_before (tm_year d)) 7 ltac:(lia)) as E.
  replace (days_before (s - 1900)) with (days_before (tm_year d) + (days_before (s - 1900) - days_before (tm_year d)) / 7 * 7) by lia.
  apply Z.mod_add. lia.
Qed.

Lemma mktime64_extends_witness :
  exists s t, safe_year (200 + 1900) = Some s /\
    mktime64 (fun d => (default 0 (timegm64 d) - 3600, d)) (Tm 0 0 12 1 2 200 1 59 0 0 UTC) = Some t /\
    seconds_of (Tm 0 0 12 1 2 200 1 59 0 0 UTC) - t = 3600.
Proof.
  destruct (mktime64_extends (fun d => (default 0 (timegm64 d) - 3600, d)) (Tm 0 0 12 1 2 200 1 59 0 0 UTC)) as (s & t & Es & _ & _ & _ & _ & Et & H).
  - unfold valid_date, is_s32. cbn [tm_sec tm_min tm_hour tm_mon tm_year tm_mday tm_yday tm_wday]. split_and!; try lia.
    + exists 59, 31. split_and!; (reflexivity || lia).
    + reflexivity.
  - reflexivity.
  - exists s, t. split; [exact Es|]. split; [exact Et|]. change (safe_year (200 + 1900)) with (Some 2010) in Es. injection Es as <-.
    etransitivity; [exact H|vm_compute; reflexivity].
Defined.
