(* ===== verification/Inet.v ===== *)
(** * Network addresses as text (libc/inet: inet_pton.c, inet_ntop.c)

    A string is the list of its characters and a NUL, a pointer into it the list of
    the characters from there on; addresses are lists of bytes.  [None] is an access
    outside a string or an array.  What snprintf writes for %u and %x are the digits of
    the number. *)
From S2P Require Import Prelude Buffer Ctype CMem CString.

Definition AF_INET : Z := 2.
Definition AF_INET6 : Z := 10.
Definition ENOSPC : Z := 28.
Definition EAFNOSUPPORT : Z := 97.

(** ** inet_pton.c *)
Definition digits : list Z := [48; 49; 50; 51; 52; 53; 54; 55; 56; 57; 0].
Definition xdigits_l : list Z := [48; 49; 50; 51; 52; 53; 54; 55; 56; 57; 97; 98; 99; 100; 101; 102; 0].
Definition xdigits_u : list Z := [48; 49; 50; 51; 52; 53; 54; 55; 56; 57; 65; 66; 67; 68; 69; 70; 0].

(** while ((ch = *src++) != 0): [tmp] is the array up to *tp, without its last element, which is
    [cur].  The inner option is [None] for return (0). *)
Fixpoint pton4_loop (src tmp : list Z) (cur : Z) (saw_digit : bool) (octets : Z) : option (option (list Z * Z)) :=
  match src with
  | [] => None
  | ch :: src =>
      if ch =? 0 then Some (Some (tmp ++ [cur], octets))
      else
        pch ← strchr digits 0 ch;
        match pch with
        | Some i =>
            let new := u32 (cur * 10 + Z.of_nat i) in
            if 255 <? new then Some None
            else if negb saw_digit then
              if 4 <? octets + 1 then Some None else pton4_loop src tmp (u8 new) true (octets + 1)
            else pton4_loop src tmp (u8 new) saw_digit octets
        | None =>
            if (ch =? 0x2e) && saw_digit then
              if octets =? 4 then Some None
              else if (length tmp <? 3)%nat then pton4_loop src (tmp ++ [cur]) 0 false octets else None
            else Some None
        end
  end.
Definition inet_pton4 (src : list Z) : option (option (list Z)) :=
  r ← pton4_loop src [] 0 false 0;
  match r with
  | None => Some None
  | Some (tmp, octets) => if octets <? 4 then Some None else if (length tmp =? 4)%nat then Some (Some tmp) else None
  end.

(** *tp++ = (u_char) (val >> 8) & 0xff; *tp++ = (u_char) val & 0xff; *)
Definition put16 (tmp : list Z) (tp : nat) (val : Z) : list Z :=
  <[S tp := Z.land (u8 val) 0xff]> (<[tp := Z.land (u8 (Z.shiftr val 8)) 0xff]> tmp).

(** while ((ch = *src++) != 0): answers tmp, tp, colonp, saw_xdigit and val. *)
Fixpoint pton6_loop (src curtok tmp : list Z) (tp : nat) (colonp : option nat) (saw_xdigit : bool) (count_xdigit val : Z)
    : option (option (list Z * nat * option nat * bool * Z)) :=
  match src with
  | [] => None
  | ch :: src =>
      if ch =? 0 then Some (Some (tmp, tp, colonp, saw_xdigit, val))
      else
        l ← strchr xdigits_l 0 ch;
        pch ← match l with Some i => Some (Some i) | None => strchr xdigits_u 0 ch end;
        match pch with
        | Some i =>
            if 4 <=? count_xdigit then Some None
            else
              let val := Z.lor (u32 (Z.shiftl val 4)) (Z.of_nat i) in
              if 0xffff <? val then Some None
              else pton6_loop src curtok tmp tp colonp true (count_xdigit + 1) val
        | None =>
            if ch =? 0x3a then
              let curtok := src in
              if negb saw_xdigit then
                match colonp with
                | Some _ => Some None
                | None => pton6_loop src curtok tmp tp (Some tp) saw_xdigit count_xdigit val
                end
              else
                c ← hd_error src;
                if c =? 0 then Some None
                else if (16 <? tp + 2)%nat then Some None
                else pton6_loop src curtok (put16 tmp tp val) (tp + 2) colonp false 0 0
            else if (ch =? 0x2e) && (tp + 4 <=? 16)%nat then
              r ← inet_pton4 curtok;
              match r with
              | Some a => Some (Some (blit tmp tp a, (tp + 4)%nat, colonp, false, val))
              | None => Some None
              end
            else Some None
        end
  end.

(** for (i = 1; i <= n; i++) *)
Fixpoint shift_loop (k i : nat) (tmp : list Z) (colonp n : nat) : option (list Z) :=
  match k with
  | O => Some tmp
  | S k =>
      x ← tmp !! (colonp + n - i)%nat;
      shift_loop k (S i) (<[(colonp + n - i)%nat := 0]> (<[(16 - i)%nat := x]> tmp)) colonp n
  end.

(** What inet_pton6 does after its loop. *)
Definition pton6_finish (tmp : list Z) (tp : nat) (colonp : option nat) (saw_xdigit : bool) (val : Z) : option (option (list Z)) :=
  match (if saw_xdigit then if (16 <? tp + 2)%nat then None else Some (put16 tmp tp val, (tp + 2)%nat) else Some (tmp, tp)) with
  | None => Some None
  | Some (tmp, tp) =>
      '(tmp, tp) ← match colonp with
                   | Some c => let n := (tp - c)%nat in tmp ← shift_loop n 1 tmp c n; Some (tmp, 16%nat)
                   | None => Some (tmp, tp)
                   end;
      if negb (tp =? 16)%nat then Some None else Some (Some tmp)
  end.
Definition inet_pton6 (src : list Z) : option (option (list Z)) :=
  let tmp := replicate 16 0 in
  c ← hd_error src;
  start ← (if c =? 0x3a then c2 ← hd_error (tail src); Some (if c2 =? 0x3a then Some (tail src) else None) else Some (Some src));
  match start with
  | None => Some None
  | Some src =>
      r ← pton6_loop src src tmp 0 None false 0 0;
      match r with
      | None => Some None
      | Some (tmp, tp, colonp, saw_xdigit, val) => pton6_finish tmp tp colonp saw_xdigit val
      end
  end.

(** 1 and the address, 0, or -1 with errno *)
Definition inet_pton (af : Z) (src : list Z) : option (res (option (list Z))) :=
  if af =? AF_INET then r ← inet_pton4 src; Some (Good r)
  else if af =? AF_INET6 then r ← inet_pton6 src; Some (Good r)
  else Some (Fail EAFNOSUPPORT).

(** ** inet_ntop.c *)

(** The digits of a number in a base up to 16, as %u and %x print them. *)
Definition digit_char (d : Z) : Z := if d <? 10 then 0x30 + d else 0x61 + (d - 10).
Fixpoint print_digits (fuel : nat) (base n : Z) (acc : list Z) : list Z :=
  match fuel with
  | O => acc
  | S fuel => let acc := digit_char (n mod base) :: acc in if n <? base then acc else print_digits fuel base (n / base) acc
  end.
Definition fmt_u (n : Z) : list Z := print_digits 10 10 n [].
Definition fmt_x (n : Z) : list Z := print_digits 8 16 n [].

(** The string without its NUL. *)
Definition inet_ntop4 (src : list Z) (size : Z) : option (res (list Z)) :=
  match src with
  | a :: b :: c :: d :: _ =>
      let tmp := fmt_u a ++ [0x2e] ++ fmt_u b ++ [0x2e] ++ fmt_u c ++ [0x2e] ++ fmt_u d in
      let l := Z.of_nat (length tmp) in
      if (l <=? 0) || (size <=? l) then Some (Fail ENOSPC) else Some (Good tmp)
  | _ => None
  end.

(** words[i / 2] |= (src[i] << ((1 - (i % 2)) << 3)) *)
Definition words_of (src : list Z) : list Z :=
  foldl (fun words ib => alter (fun w => Z.lor w (Z.shiftl ib.2 (Z.shiftl (1 - Z.of_nat ib.1 mod 2) 3))) (ib.1 / 2)%nat words)
    (replicate 8 0) (zip (seq 0 16) src).

(** base and len of a run; base -1 is none *)
Record run : Type := Run { r_base : Z; r_len : Z }.
Definition better (best cur : run) : run := if (r_base best =? -1) || (r_len best <? r_len cur) then cur else best.
Fixpoint runs_loop (words : list Z) (i : Z) (best cur : run) : run * run :=
  match words with
  | [] => (best, cur)
  | w :: words =>
      if w =? 0 then runs_loop words (i + 1) best (if r_base cur =? -1 then Run i 1 else Run (r_base cur) (r_len cur + 1))
      else if negb (r_base cur =? -1) then runs_loop words (i + 1) (better best cur) (Run (-1) (r_len cur))
      else runs_loop words (i + 1) best cur
  end.
Definition best_run (words : list Z) : run :=
  let '(best, cur) := runs_loop words 0 (Run (-1) 0) (Run (-1) 0) in
  let best := if negb (r_base cur =? -1) then better best cur else best in
  if negb (r_base best =? -1) && (r_len best <? 2) then Run (-1) (r_len best) else best.

(** sizeof tmp *)
Definition TMP6 : Z := 46.
Definition put (tp : list Z) (c : Z) : option (list Z) := if TMP6 <=? Z.of_nat (length tp) + 1 then None else Some (tp ++ [c]).

(** for (i = 0; i < 8 && tp < ep; i++): [words] are those from [i] on, [tp] what is written; [None] is
    return (NULL). *)
Fixpoint ntop6_loop (words : list Z) (i : Z) (src : list Z) (w5 : Z) (best : run) (tp : list Z) : option (list Z) :=
  match words with
  | [] => Some tp
  | w :: words =>
      if negb (Z.of_nat (length tp) <? TMP6) then Some tp
      else if negb (r_base best =? -1) && (r_base best <=? i) && (i <? r_base best + r_len best) then
        tp ← (if i =? r_base best then put tp 0x3a else Some tp);
        ntop6_loop words (i + 1) src w5 best tp
      else
        tp ← (if negb (i =? 0) then put tp 0x3a else Some tp);
        if (i =? 6) && (r_base best =? 0) && ((r_len best =? 6) || ((r_len best =? 5) && (w5 =? 0xffff))) then
          match inet_ntop4 (drop 12 src) (TMP6 - Z.of_nat (length tp)) with
          | Some (Good t) => Some (tp ++ t)
          | _ => None
          end
        else
          let t := fmt_x w in
          let advance := Z.of_nat (length t) in
          if (advance <=? 0) || (TMP6 - Z.of_nat (length tp) <=? advance) then None
          else ntop6_loop words (i + 1) src w5 best (tp ++ t)
  end.

(** NULL without errno is [Fail 0]. *)
Definition inet_ntop6 (src : list Z) (size : Z) : option (res (list Z)) :=
  let words := words_of src in
  let best := best_run words in
  w5 ← words !! 5%nat;
  let r :=
    tp ← ntop6_loop words 0 src w5 best [];
    tp ← (if negb (r_base best =? -1) && (r_base best + r_len best =? 8) then put tp 0x3a else Some tp);
    put tp 0 in
  match r with
  | None => Some (Fail 0)
  | Some tmp => if size <? Z.of_nat (length tmp) then Some (Fail ENOSPC) else Some (Good (removelast tmp))
  end.

Definition inet_ntop (af : Z) (src : list Z) (size : Z) : option (res (list Z)) :=
  if af =? AF_INET then inet_ntop4 src size
  else if af =? AF_INET6 then inet_ntop6 src size
  else Some (Fail EAFNOSUPPORT).

(** ** Digits *)
Lemma forall_below (n : nat) (P : Z -> bool) : forallb (fun k => P (Z.of_nat k)) (seq 0 n) = true -> forall z, 0 <= z < Z.of_nat n -> P z = true.
Proof. intros H z Hz. rewrite forallb_forall in H. specialize (H (Z.to_nat z)). rewrite Z2Nat.id in H by lia. apply H, in_seq. lia. Qed.

Ltac below n P := intros; apply (bool_decide_eq_true_1 _), (forall_below n P); [vm_compute; reflexivity|lia].

Lemma strchr_digit d : 0 <= d < 10 -> strchr digits 0 (digit_char d) = Some (Some (Z.to_nat d)).
Proof. below 10%nat (fun d => bool_decide (strchr digits 0 (digit_char d) = Some (Some (Z.to_nat d)))). Qed.
Lemma strchr_xdigit d : 0 <= d < 16 -> strchr xdigits_l 0 (digit_char d) = Some (Some (Z.to_nat d)).
Proof. below 16%nat (fun d => bool_decide (strchr xdigits_l 0 (digit_char d) = Some (Some (Z.to_nat d)))). Qed.
Lemma digit_char_pos d : 0 <= d < 16 -> 0x30 <= digit_char d <= 0x66 /\ digit_char d <> 0x3a.
Proof. unfold digit_char. intros. case_test; zbool; lia. Qed.

(** The number that digits stand for. *)
Definition value (base v : Z) (ds : list Z) : Z := foldl (fun v d => v * base + d) v ds.

Lemma value_le base v ds : 1 <= base -> 0 <= v -> Forall (fun d => 0 <= d < base) ds -> v <= value base v ds.
Proof.
  intros Hb Hv H. revert v Hv. induction H as [|d ds Hd H IH]; intros v Hv; cbn; [lia|]. etransitivity; [|apply IH; nia]. nia.
Qed.

Lemma print_digits_spec base fuel n acc :
  2 <= base <= 16 -> 0 <= n -> n < base ^ Z.of_nat fuel -> (0 < fuel)%nat ->
  exists ds, print_digits fuel base n acc = (digit_char <$> ds) ++ acc /\ Forall (fun d => 0 <= d < base) ds /\ value base 0 ds = n /\
    (0 < length ds)%nat /\ forall k, (0 < k)%nat -> n < base ^ Z.of_nat k -> (length ds <= k)%nat.
Proof.
  intros Hb. revert n acc. induction fuel as [|fuel IH]; intros n acc Hn Hf H0; [lia|]. cbn [print_digits].
  pose proof (Z.mod_pos_bound n base ltac:(lia)) as Hm. pose proof (Z.div_mod n base ltac:(lia)) as Hd.
  destruct (Z.ltb_spec n base) as [Hlt|Hge].
  - exists [n]. rewrite Z.mod_small by lia. split_and!; [done|by apply Forall_singleton|cbn; lia|cbn; lia|]. intros k Hk _. cbn. lia.
  - assert (0 < n / base < n) by nia. destruct fuel as [|fuel]; [rewrite Nat2Z.inj_succ, Z.pow_succ_r in Hf by lia; cbn in Hf; lia|].
    destruct (IH (n / base) (digit_char (n mod base) :: acc)) as (ds & -> & Hds & Ev & Hl & Hk); [lia| |lia|].
    { apply Z.div_lt_upper_bound; [lia|]. rewrite <- Z.pow_succ_r, <- Nat2Z.inj_succ by lia. done. }
    exists (ds ++ [n mod base]). split_and!.
    + by rewrite fmap_app, <- app_assoc.
    + apply Forall_app. split; [done|by apply Forall_singleton].
    + unfold value in *. rewrite foldl_app, Ev. cbn. lia.
    + rewrite length_app. cbn. lia.
    + intros k Hk0 Hlt. rewrite length_app. cbn. destruct k as [|k]; [lia|]. destruct k as [|k]; [cbn in Hlt; lia|].
      assert (length ds <= S k)%nat; [|lia]. apply Hk; [lia|]. apply Z.div_lt_upper_bound; [lia|].
      rewrite <- Z.pow_succ_r, <- Nat2Z.inj_succ by lia. done.
Qed.

Lemma fmt_u_spec n : 0 <= n < 256 ->
  exists ds, fmt_u n = digit_char <$> ds /\ Forall (fun d => 0 <= d < 10) ds /\ value 10 0 ds = n /\ (0 < length ds <= 3)%nat.
Proof.
  intros Hn. destruct (print_digits_spec 10 10 n []) as (ds & E & H1 & H2 & H3 & H4); [lia|lia|cbn; lia|lia|].
  exists ds. unfold fmt_u. rewrite E, app_nil_r. split_and!; try done. apply (H4 3%nat); [lia|cbn; lia].
Qed.
Lemma fmt_x_spec n : 0 <= n < 65536 ->
  exists ds, fmt_x n = digit_char <$> ds /\ Forall (fun d => 0 <= d < 16) ds /\ value 16 0 ds = n /\ (0 < length ds <= 4)%nat.
Proof.
  intros Hn. destruct (print_digits_spec 16 8 n []) as (ds & E & H1 & H2 & H3 & H4); [lia|lia|cbn; lia|lia|].
  exists ds. unfold fmt_x. rewrite E, app_nil_r. split_and!; try done. apply (H4 4%nat); [lia|cbn; lia].
Qed.

(** ** Reading IPv4 *)
Lemma pton4_digit d src tmp cur saw octets :
  0 <= d < 10 -> 0 <= cur -> cur * 10 + d <= 255 -> saw = true \/ octets < 4 ->
  pton4_loop (digit_char d :: src) tmp cur saw octets = pton4_loop src tmp (cur * 10 + d) true (if saw then octets else octets + 1).
Proof.
  intros Hd Hc Hle Ho. cbn [pton4_loop]. pose proof (digit_char_pos d ltac:(lia)). rewrite (proj2 (Z.eqb_neq _ 0)) by lia.
  rewrite strchr_digit by done. cbn [mbind option_bind]. rewrite Z2Nat.id by lia.
  rewrite u32_id by (unfold is_u32; lia). rewrite u8_id by (unfold is_u8; lia). rewrite (proj2 (Z.ltb_ge 255 _)) by lia.
  destruct saw; cbn [negb]; [done|]. rewrite (proj2 (Z.ltb_ge 4 _)) by lia. done.
Qed.

Lemma pton4_digits ds src tmp cur saw octets :
  Forall (fun d => 0 <= d < 10) ds -> (saw = true \/ (0 < length ds)%nat) -> 0 <= cur -> value 10 cur ds <= 255 -> saw = true \/ octets < 4 ->
  pton4_loop ((digit_char <$> ds) ++ src) tmp cur saw octets = pton4_loop src tmp (value 10 cur ds) true (if saw then octets else octets + 1).
Proof.
  intros Hds. revert cur saw octets. induction Hds as [|d ds Hd Hds IH]; intros cur saw octets Hs Hc Hv Ho.
  - destruct Hs as [->|?]; [done|cbn in *; lia].
  - cbn [fmap list_fmap app value foldl] in *. pose proof (value_le 10 (cur * 10 + d) ds ltac:(lia) ltac:(lia) Hds) as Hle. unfold value in Hle.
    rewrite pton4_digit by (done || lia). rewrite IH by (auto; lia). by destruct saw.
Qed.

Lemma pton4_octet n src tmp octets :
  0 <= n < 256 -> octets < 4 -> pton4_loop (fmt_u n ++ src) tmp 0 false octets = pton4_loop src tmp n true (octets + 1).
Proof.
  intros Hn Ho. destruct (fmt_u_spec n Hn) as (ds & -> & Hds & Ev & Hl). rewrite pton4_digits by (auto || lia). by rewrite Ev.
Qed.

Lemma pton4_dot src tmp cur octets :
  octets <> 4 -> (length tmp < 3)%nat -> pton4_loop (0x2e :: src) tmp cur true octets = pton4_loop src (tmp ++ [cur]) 0 false octets.
Proof.
  intros Ho Hl. cbn [pton4_loop]. change (0x2e =? 0) with false. cbn [negb]. change (strchr digits 0 0x2e) with (Some (@None nat)).
  cbn [mbind option_bind]. change (0x2e =? 0x2e) with true. cbn [andb]. rewrite (proj2 (Z.eqb_neq octets 4)) by done.
  by rewrite (proj2 (Nat.ltb_lt _ _)).
Qed.

(** The text of an IPv4 address, which ends a string. *)
Definition quad (a b c d : Z) : list Z := fmt_u a ++ [0x2e] ++ fmt_u b ++ [0x2e] ++ fmt_u c ++ [0x2e] ++ fmt_u d.

Lemma pton4_quad a b c d rest :
  0 <= a < 256 -> 0 <= b < 256 -> 0 <= c < 256 -> 0 <= d < 256 -> inet_pton4 (quad a b c d ++ 0 :: rest) = Some (Some [a; b; c; d]).
Proof.
  intros. unfold inet_pton4, quad. rewrite <- !app_assoc. cbn [app].
  rewrite pton4_octet, pton4_dot, pton4_octet, pton4_dot, pton4_octet, pton4_dot, pton4_octet by (done || cbn; lia). done.
Qed.

Lemma quad_length a b c d :
  0 <= a < 256 -> 0 <= b < 256 -> 0 <= c < 256 -> 0 <= d < 256 -> (7 <= length (quad a b c d) <= 15)%nat.
Proof.
  intros Ha Hb Hc Hd. unfold quad. rewrite !length_app. cbn [length].
  destruct (fmt_u_spec a Ha) as (da & -> & _ & _ & ?), (fmt_u_spec b Hb) as (db & -> & _ & _ & ?), (fmt_u_spec c Hc) as (dc & -> & _ & _ & ?),
    (fmt_u_spec d Hd) as (dd & -> & _ & _ & ?). rewrite !length_fmap. lia.
Qed.

(** ** Reading IPv6 *)

(** The array with the bytes [bs] written, and the two bytes of a word. *)
Definition st16 (bs : list Z) : list Z := bs ++ replicate (16 - length bs) 0.
Definition w2 (w : Z) : list Z := [w / 256; w mod 256].

Lemma blit_st16 bs xs : (length bs + length xs <= 16)%nat -> blit (st16 bs) (length bs) xs = st16 (bs ++ xs).
Proof.
  intros H. unfold blit, st16. rewrite take_app_length, length_app. rewrite <- app_assoc. do 2 f_equal.
  rewrite drop_app_ge by lia. rewrite Nat.add_sub_swap, Nat.sub_diag by lia. cbn. rewrite drop_replicate. f_equal. lia.
Qed.

Lemma put16_st16 bs w :
  (length bs + 2 <= 16)%nat -> 0 <= w < 65536 -> put16 (st16 bs) (length bs) w = st16 (bs ++ w2 w).
Proof.
  intros Hl Hw. unfold put16, w2. change 0xff with (Z.ones 8). rewrite !Z.land_ones, Z.shiftr_div_pow2 by lia. unfold u8. rewrite !Z.mod_mod by lia.
  change (2 ^ 8) with 256. rewrite (Z.mod_small (w / 256)) by (split; [apply Z.div_pos; lia|apply Z.div_lt_upper_bound; lia]).
  rewrite <- blit_st16 by (cbn; lia). unfold blit. cbn [length].
  assert (length (st16 bs) = 16%nat) as H16 by (unfold st16; rewrite length_app, length_replicate; lia).
  rewrite insert_take_drop by (rewrite length_insert; lia). rewrite take_S_r with (x := w / 256) by (apply list_lookup_insert_eq; lia).
  rewrite <- app_assoc. rewrite take_insert_ge by lia. rewrite drop_insert_lt by lia. cbn. do 4 f_equal. lia.
Qed.

Section Pton6.
Context (colonp : option nat).
Notation loop bs src cur saw k v := (pton6_loop src cur (st16 bs) (length bs) colonp saw k v).

Lemma pton6_digit d src cur bs saw k v :
  0 <= d < 16 -> k < 4 -> 0 <= v -> v * 16 + d < 65536 -> loop bs (digit_char d :: src) cur saw k v = loop bs src cur true (k + 1) (v * 16 + d).
Proof.
  intros Hd Hk Hv Hle. cbn [pton6_loop]. pose proof (digit_char_pos d Hd). rewrite (proj2 (Z.eqb_neq _ 0)) by lia.
  rewrite strchr_xdigit by done. cbn [mbind option_bind]. rewrite (proj2 (Z.leb_gt 4 k)) by done.
  rewrite Z2Nat.id, u32_id by (unfold is_u32; rewrite ?Z.shiftl_mul_pow2 by lia; lia). rewrite (lor_shiftl_low 4) by lia.
  change (2 ^ 4) with 16. by rewrite (proj2 (Z.ltb_ge _ _)) by lia.
Qed.

Lemma pton6_digits ds src cur bs saw k v :
  Forall (fun d => 0 <= d < 16) ds -> saw = true \/ (0 < length ds)%nat -> 0 <= k -> k + Z.of_nat (length ds) <= 4 -> 0 <= v -> value 16 v ds < 65536 ->
  loop bs ((digit_char <$> ds) ++ src) cur saw k v = loop bs src cur true (k + Z.of_nat (length ds)) (value 16 v ds).
Proof.
  intros Hds. revert saw k v. induction Hds as [|d ds Hd Hds IH]; intros saw k v Hs Hk Hk4 Hv Hval.
  - destruct Hs as [->|?]; [|cbn in *; lia]. cbn. by rewrite Z.add_0_r.
  - cbn [fmap list_fmap app value foldl length] in *. pose proof (value_le 16 (v * 16 + d) ds ltac:(lia) ltac:(lia) Hds) as Hle. unfold value in Hle.
    rewrite pton6_digit by lia. rewrite IH by (auto; lia). f_equal. lia.
Qed.

Lemma pton6_word w src cur bs :
  0 <= w < 65536 -> exists k, loop bs (fmt_x w ++ src) cur false 0 0 = loop bs src cur true k w.
Proof.
  intros Hw. destruct (fmt_x_spec w Hw) as (ds & -> & Hds & Ev & Hl). eexists.
  rewrite pton6_digits by (auto || lia). by rewrite Ev.
Qed.

(** Decimal digits are read as hexadecimal ones. *)
Lemma pton6_decimal n src cur bs :
  0 <= n < 256 -> exists k v, loop bs (fmt_u n ++ src) cur false 0 0 = loop bs src cur true k v.
Proof.
  intros Hn. destruct (fmt_u_spec n Hn) as (ds & -> & Hds & Ev & Hl).
  assert (Forall (fun d => 0 <= d < 16) ds) as Hds' by (eapply Forall_impl; [exact Hds|cbn; lia]).
  assert (value 16 0 ds < 65536) as Hv.
  { destruct ds as [|d1 [|d2 [|d3 [|]]]]; cbn in Hl; try lia; rewrite ?Forall_cons in Hds; cbn; lia. }
  eexists _, _. rewrite pton6_digits by (auto || lia). done.
Qed.

Lemma pton6_colon c src cur bs k w :
  c <> 0 -> (length bs + 2 <= 16)%nat -> 0 <= w < 65536 ->
  loop bs (0x3a :: c :: src) cur true k w = loop (bs ++ w2 w) (c :: src) (c :: src) false 0 0.
Proof.
  intros Hc Hl Hw. remember (c :: src) as rest eqn:Er. cbn [pton6_loop]. change (0x3a =? 0) with false.
  change (strchr xdigits_l 0 0x3a) with (Some (@None nat)). change (strchr xdigits_u 0 0x3a) with (Some (@None nat)).
  cbn [mbind option_bind]. change (0x3a =? 0x3a) with true. cbn [negb]. rewrite Er at 1. cbn [hd_error mbind option_bind].
  rewrite (proj2 (Z.eqb_neq c 0)) by done. rewrite (proj2 (Nat.ltb_ge _ _)) by lia. rewrite put16_st16 by done.
  f_equal. rewrite length_app. done.
Qed.

(** The words after the first, each with a colon before it. *)
Definition colons (ws : list Z) : list Z := concat ((fun w => 0x3a :: fmt_x w) <$> ws).
Definition bytes_of (ws : list Z) : list Z := concat (w2 <$> ws).

Lemma fmt_x_head w : 0 <= w < 65536 -> exists c t, fmt_x w = c :: t /\ c <> 0 /\ c <> 0x3a.
Proof.
  intros Hw. destruct (fmt_x_spec w Hw) as (ds & -> & Hds & _ & Hl). destruct ds as [|d ds]; [cbn in Hl; lia|].
  apply Forall_cons in Hds as [Hd _]. pose proof (digit_char_pos d Hd). eexists _, _. split; [reflexivity|]. split; [lia|tauto].
Qed.

Lemma pton6_colons ws rest cur bs k w :
  Forall (fun w => 0 <= w < 65536) (w :: ws) -> (length bs + 2 * length ws <= 16)%nat ->
  exists bs' w' cur' k', bs' ++ w2 w' = bs ++ bytes_of (w :: ws) /\ 0 <= w' < 65536 /\ length bs' = (length bs + 2 * length ws)%nat /\
    loop bs (colons ws ++ rest) cur true k w = loop bs' rest cur' true k' w'.
Proof.
  revert cur bs k w. induction ws as [|x ws IH]; intros cur bs k w Hw Hl; apply Forall_cons in Hw as [Hw Hws].
  - exists bs, w, cur, k. cbn. split_and!; (done || lia).
  - pose proof Hws as Hws'. apply Forall_cons in Hws as [Hx _]. destruct (fmt_x_head x Hx) as (c & t & Ex & Hc & _). cbn [length] in Hl.
    unfold colons. cbn [fmap list_fmap concat]. rewrite <- app_assoc. rewrite Ex. cbn [app]. rewrite pton6_colon by (done || lia).
    change (c :: t ++ concat ((fun w => 0x3a :: fmt_x w) <$> ws) ++ rest) with ((c :: t) ++ colons ws ++ rest). rewrite <- Ex.
    destruct (pton6_word x (colons ws ++ rest) (fmt_x x ++ colons ws ++ rest) (bs ++ w2 w) Hx) as [k1 ->].
    destruct (IH (fmt_x x ++ colons ws ++ rest) (bs ++ w2 w) k1 x Hws') as (bs' & w' & cur' & k' & Eb & Hw' & Hlen & ->).
    { rewrite length_app. cbn. lia. }
    exists bs', w', cur', k'. split; [|split; [done|split; [|done]]].
    + rewrite Eb. unfold bytes_of. cbn [fmap list_fmap concat]. by rewrite <- app_assoc.
    + rewrite Hlen, length_app. cbn. lia.
Qed.
End Pton6.

(** The first of two colons ends a word, the second is the place of the zeros. *)
Lemma pton6_open rest cur bs k v :
  pton6_loop (0x3a :: rest) cur (st16 bs) (length bs) None false k v = pton6_loop rest rest (st16 bs) (length bs) (Some (length bs)) false k v.
Proof.
  cbn [pton6_loop]. change (0x3a =? 0) with false. change (strchr xdigits_l 0 0x3a) with (Some (@None nat)).
  change (strchr xdigits_u 0 0x3a) with (Some (@None nat)). done.
Qed.

(** The ways in which a text ends: with words, or with an IPv4 address. *)
Lemma pton6_words cp p ps cur bs :
  Forall (fun w => 0 <= w < 65536) (p :: ps) -> (length bs + 2 * length ps <= 16)%nat ->
  exists bs' w', bs' ++ w2 w' = bs ++ bytes_of (p :: ps) /\ 0 <= w' < 65536 /\ length bs' = (length bs + 2 * length ps)%nat /\
    pton6_loop (fmt_x p ++ colons ps ++ [0]) cur (st16 bs) (length bs) cp false 0 0 = Some (Some (st16 bs', length bs', cp, true, w')).
Proof.
  intros Hw Hl. pose proof Hw as Hw'. apply Forall_cons in Hw' as [Hp _].
  destruct (pton6_word cp p (colons ps ++ [0]) cur bs Hp) as [k ->].
  destruct (pton6_colons cp ps [0] cur bs k p Hw Hl) as (bs' & w' & cur' & k' & ? & ? & ? & ->). exists bs', w'. repeat (split; [done|]). done.
Qed.

Lemma pton6_quad cp a b c d bs :
  0 <= a < 256 -> 0 <= b < 256 -> 0 <= c < 256 -> 0 <= d < 256 -> (length bs + 4 <= 16)%nat ->
  let rest := quad a b c d ++ [0] in
  exists v, pton6_loop rest rest (st16 bs) (length bs) cp false 0 0 = Some (Some (st16 (bs ++ [a; b; c; d]), (length bs + 4)%nat, cp, false, v)).
Proof.
  intros Ha Hb Hc Hd Hl rest. pose proof (pton4_quad a b c d [] Ha Hb Hc Hd) as Hq. fold rest in Hq.
  assert (rest = fmt_u a ++ 0x2e :: (fmt_u b ++ [0x2e] ++ fmt_u c ++ [0x2e] ++ fmt_u d) ++ [0]) as Er by (unfold rest, quad; by rewrite <- !app_assoc).
  destruct (pton6_decimal cp a (0x2e :: (fmt_u b ++ [0x2e] ++ fmt_u c ++ [0x2e] ++ fmt_u d) ++ [0]) rest bs Ha) as (k & v & E).
  exists v. rewrite <- Er in E. rewrite E. cbn [pton6_loop]. change (0x2e =? 0) with false. change (strchr xdigits_l 0 0x2e) with (Some (@None nat)).
  change (strchr xdigits_u 0 0x2e) with (Some (@None nat)). cbn [mbind option_bind]. change (0x2e =? 0x3a) with false. change (0x2e =? 0x2e) with true.
  rewrite (proj2 (Nat.leb_le _ _)) by done. cbn [andb]. rewrite Hq. cbn [mbind option_bind]. by rewrite blit_st16 by (cbn; lia).
Qed.

(** *** The gap *)
Lemma insert_middle (l1 l2 : list Z) i y x : i = length l1 -> <[i := x]> (l1 ++ y :: l2) = l1 ++ x :: l2.
Proof. intros ->. rewrite <- (Nat.add_0_r (length l1)). by rewrite insert_app_r. Qed.

Lemma shift_spec pre q r g n :
  (length pre + length q + g + length r = 16)%nat -> (0 < g)%nat -> n = (length q + length r)%nat ->
  shift_loop (length q) (S (length r)) (pre ++ q ++ replicate g 0 ++ r) (length pre) n = Some (pre ++ replicate g 0 ++ q ++ r).
Proof.
  revert r. induction q as [|x q IH] using rev_ind; intros r Hl Hg ->; [done|]. rewrite length_app in *. cbn [length] in *. rewrite Nat.add_1_r in *.
  cbn [shift_loop]. replace (length pre + (S (length q) + length r) - S (length r))%nat with (length pre + length q)%nat by lia.
  replace (16 - S (length r))%nat with (length pre + (length q + (1 + (g - 1))))%nat by lia.
  destruct g as [|g]; [lia|]. replace (S g - 1)%nat with g by lia.
  assert (pre ++ (q ++ [x]) ++ replicate (S g) 0 ++ r = pre ++ q ++ [x] ++ replicate g 0 ++ [0] ++ r) as ->.
  { rewrite <- app_assoc. do 3 f_equal. rewrite replicate_S_end, <- app_assoc. done. }
  rewrite lookup_app_r by lia. rewrite lookup_app_r by lia.
  replace (length pre + length q - length pre - length q)%nat with 0%nat by lia. cbn [app lookup list_lookup mbind option_bind].
  assert (<[(length pre + length q)%nat := 0]> (<[(length pre + (length q + (1 + g)))%nat := x]> (pre ++ q ++ x :: replicate g 0 ++ 0 :: r))
    = pre ++ q ++ replicate (S g) 0 ++ (x :: r)) as ->.
  { replace (pre ++ q ++ x :: replicate g 0 ++ 0 :: r) with ((pre ++ q ++ x :: replicate g 0) ++ 0 :: r) by (by rewrite <- !app_assoc).
    rewrite insert_middle by (rewrite !length_app; cbn; rewrite length_replicate; lia).
    replace ((pre ++ q ++ x :: replicate g 0) ++ x :: r) with ((pre ++ q) ++ x :: replicate g 0 ++ x :: r) by (by rewrite <- !app_assoc).
    rewrite insert_middle by (rewrite length_app; lia). by rewrite <- app_assoc. }
  replace (S (length r)) with (length (x :: r)) by done. rewrite IH; [by rewrite <- app_assoc|cbn; lia|lia|cbn; lia].
Qed.

(** ** The words and their longest run of zeros *)
Definition is_word (w : Z) : Prop := 0 <= w < 65536.

Lemma words_of_spec src :
  length src = 16%nat -> Forall is_u8 src -> length (words_of src) = 8%nat /\ Forall is_word (words_of src) /\ bytes_of (words_of src) = src.
Proof.
  intros Hl Hb. do 16 (destruct src as [|? src]; [done|]). destruct src; [|done]. clear Hl.
  assert (forall h l, is_u8 h -> is_u8 l -> Z.lor (Z.lor 0 (Z.shiftl h 8)) (Z.shiftl l 0) = h * 256 + l) as Hw.
  { intros h l Hh Hl. rewrite Z.lor_0_l, Z.shiftl_0_r. rewrite (lor_shiftl_low 8) by (unfold is_u8 in *; lia). done. }
  rewrite !Forall_cons in Hb. destruct_and!. unfold words_of. cbn -[Z.lor Z.shiftl Z.mul Z.add w2]. rewrite !Hw by done.
  assert (forall h l, is_u8 h -> is_u8 l -> is_word (h * 256 + l)) as Hi by (unfold is_u8, is_word; lia).
  assert (forall h l, is_u8 h -> is_u8 l -> w2 (h * 256 + l) = [h; l]) as Hw2.
  { intros h l Hh Hl'. unfold w2, is_u8 in *. f_equal; [|f_equal]; Z.to_euclidean_division_equations; lia. }
  split_and!; [done|by repeat (apply Forall_cons; split; [by apply Hi|])|]. unfold bytes_of. cbn -[w2 Z.mul Z.add]. by rewrite !Hw2.
Qed.

(** A run of zeros of [ws]. *)
Definition run_at (ws : list Z) (r : run) : Prop :=
  0 <= r_base r /\ 0 <= r_len r /\ r_base r + r_len r <= Z.of_nat (length ws) /\
  forall j, (Z.to_nat (r_base r) <= j < Z.to_nat (r_base r + r_len r))%nat -> ws !! j = Some 0.
Definition run_ok (ws : list Z) (r : run) : Prop := r_base r = -1 \/ run_at ws r.

Lemma run_ok_app ws w r : run_ok ws r -> run_ok (ws ++ [w]) r.
Proof.
  intros [?|(? & ? & ? & Hz)]; [by left|right]. unfold run_at. rewrite length_app. cbn. split_and!; [lia..|].
  intros j Hj. apply lookup_app_l_Some. by apply Hz.
Qed.

Lemma better_ok ws best cur : run_ok ws best -> run_ok ws cur -> run_ok ws (better best cur).
Proof. intros. unfold better. by case_test. Qed.

Lemma runs_loop_ok ws seen best cur best' cur' :
  run_ok seen best -> r_base cur = -1 \/ run_at seen cur /\ r_base cur + r_len cur = Z.of_nat (length seen) ->
  runs_loop ws (Z.of_nat (length seen)) best cur = (best', cur') -> run_ok (seen ++ ws) best' /\ run_ok (seen ++ ws) cur'.
Proof.
  revert seen best cur. induction ws as [|w ws IH]; intros seen best cur Hb Hc E; cbn [runs_loop] in E.
  - simplify_eq. rewrite app_nil_r. split; [done|]. destruct Hc as [?|[? _]]; [by left|by right].
  - replace (seen ++ w :: ws) with ((seen ++ [w]) ++ ws) by (by rewrite <- app_assoc).
    assert (Z.of_nat (length seen) + 1 = Z.of_nat (length (seen ++ [w]))) as El by (rewrite length_app; cbn; lia). rewrite El in E.
    assert (run_ok seen cur) as Hc' by (destruct Hc as [?|[? _]]; [by left|by right]).
    destruct (Z.eqb_spec w 0) as [->|Hw]; [|destruct (Z.eqb_spec (r_base cur) (-1)) as [Hn|Hn]; cbn [negb] in E].
    + refine (IH _ _ _ (run_ok_app _ _ _ Hb) _ E). right. destruct (Z.eqb_spec (r_base cur) (-1)) as [Hn|Hn].
      * unfold run_at. cbn [r_base r_len]. rewrite <- El. split; [|done]. split_and!; [lia..|]. intros j Hj.
        replace j with (length seen) by lia. by rewrite lookup_app_r, Nat.sub_diag by lia.
      * destruct Hc as [?|[(? & ? & ? & Hz) ?]]; [done|]. unfold run_at. cbn [r_base r_len]. rewrite <- El. split; [|lia]. split_and!; [lia..|].
        intros j Hj. destruct (decide (j < length seen)%nat) as [|].
        -- apply lookup_app_l_Some, Hz. lia.
        -- replace j with (length seen) by lia. by rewrite lookup_app_r, Nat.sub_diag by lia.
    + refine (IH _ _ _ (run_ok_app _ _ _ Hb) _ E). by left.
    + refine (IH _ _ _ (run_ok_app _ _ _ (better_ok _ _ _ Hb Hc')) _ E). by left.
Qed.

Lemma zeros_between (ws : list Z) b l :
  (b + l <= length ws)%nat -> (forall j, (b <= j < b + l)%nat -> ws !! j = Some 0) -> ws = take b ws ++ replicate l 0 ++ drop (b + l) ws.
Proof.
  intros Hl Hz. rewrite <- (take_drop b ws) at 1. f_equal. rewrite <- (take_drop l (drop b ws)), drop_drop. f_equal.
  apply list_eq. intros i. destruct (decide (i < l)%nat) as [Hi|Hi].
  - rewrite lookup_take_lt, lookup_drop, lookup_replicate_2 by done. apply Hz. lia.
  - rewrite lookup_take_ge by lia. symmetry. apply lookup_ge_None_2. rewrite length_replicate. lia.
Qed.

Lemma best_run_spec ws :
  r_base (best_run ws) = -1 \/
  exists pre l post, ws = pre ++ replicate l 0 ++ post /\ (2 <= l)%nat /\ best_run ws = Run (Z.of_nat (length pre)) (Z.of_nat l).
Proof.
  unfold best_run. destruct (runs_loop ws 0 (Run (-1) 0) (Run (-1) 0)) as [best cur] eqn:E.
  destruct (runs_loop_ok ws [] (Run (-1) 0) (Run (-1) 0) best cur) as [Hb Hc]; [by left|by left|done|]. cbn [app] in Hb, Hc.
  set (b := if negb (r_base cur =? -1) then better best cur else best).
  assert (run_ok ws b) as Hok by (subst b; case_test; auto using better_ok).
  destruct Hok as [Hm|(H0 & H1 & H2 & Hz)]; [rewrite Hm; cbn; by left|].
  destruct (Z.ltb_spec (r_len b) 2) as [Hs|Hs]; [rewrite (proj2 (Z.eqb_neq _ _)) by lia; by left|]. rewrite andb_false_r. right.
  exists (take (Z.to_nat (r_base b)) ws), (Z.to_nat (r_len b)), (drop (Z.to_nat (r_base b) + Z.to_nat (r_len b)) ws).
  split; [|split; [lia|]].
  - apply zeros_between; [lia|]. intros j Hj. apply Hz. lia.
  - rewrite length_take_le by lia. destruct b as [x y]. cbn in *. f_equal; lia.
Qed.

(** ** Printing IPv6 *)
Section Ntop6.
Context (src : list Z) (w5 : Z) (best : run).
Notation loop := (fun ws i tp => ntop6_loop ws i src w5 best tp).

Definition inside (i : Z) : bool := negb (r_base best =? -1) && (r_base best <=? i) && (i <? r_base best + r_len best).
Definition v4_tail : bool := (r_base best =? 0) && ((r_len best =? 6) || ((r_len best =? 5) && (w5 =? 0xffff))).

Lemma put_room tp c : (length tp <= 44)%nat -> put tp c = Some (tp ++ [c]).
Proof. intros. unfold put, TMP6. by rewrite (proj2 (Z.leb_gt _ _)) by lia. Qed.

Lemma fmt_x_length w : is_word w -> (0 < length (fmt_x w) <= 4)%nat.
Proof. intros Hw. destruct (fmt_x_spec w Hw) as (ds & -> & _ & _ & Hl). by rewrite length_fmap. Qed.

Lemma ntop6_first w ws : is_word w -> inside 0 = false -> loop (w :: ws) 0 [] = loop ws 1 (fmt_x w).
Proof.
  intros Hw Hi. pose proof (fmt_x_length w Hw). cbn [ntop6_loop]. fold (inside 0). rewrite Hi. change (0 =? 6) with false.
  change (0 =? 0) with true. change (Z.of_nat (length []) <? TMP6) with true. cbn [andb negb mbind option_bind length]. unfold TMP6.
  rewrite (proj2 (Z.leb_gt _ 0)), (proj2 (Z.leb_gt _ _)) by lia. done.
Qed.

Lemma ntop6_word w ws i tp :
  is_word w -> inside i = false -> i <> 0 -> v4_tail = false \/ i <> 6 -> (length tp <= 40)%nat ->
  loop (w :: ws) i tp = loop ws (i + 1) (tp ++ 0x3a :: fmt_x w).
Proof.
  intros Hw Hi H0 Hv Hl. pose proof (fmt_x_length w Hw). cbn [ntop6_loop]. fold (inside i). rewrite Hi.
  rewrite (proj2 (Z.ltb_lt _ TMP6)) by (unfold TMP6; lia). rewrite (proj2 (Z.eqb_neq i 0)) by done. cbn [negb].
  rewrite put_room by lia. cbn [mbind option_bind]. rewrite <- andb_assoc. fold v4_tail.
  assert ((i =? 6) && v4_tail = false) as -> by (destruct Hv as [->| ?]; [by rewrite andb_false_r|by rewrite (proj2 (Z.eqb_neq i 6))]).
  rewrite length_app. cbn [length]. unfold TMP6. rewrite (proj2 (Z.leb_gt _ 0)), (proj2 (Z.leb_gt _ _)) by lia. cbn [orb].
  by rewrite <- app_assoc.
Qed.

Lemma ntop6_words ws rest i tp :
  Forall is_word ws -> (forall j, i <= j < i + Z.of_nat (length ws) -> inside j = false) -> 0 < i ->
  v4_tail = false \/ i + Z.of_nat (length ws) <= 6 -> (length tp + 5 * length ws <= 45)%nat ->
  loop (ws ++ rest) i tp = loop rest (i + Z.of_nat (length ws)) (tp ++ colons ws).
Proof.
  intros Hws. revert i tp. induction Hws as [|w ws Hw Hws IH]; intros i tp Hin Hi Hv Hl.
  - cbn. by rewrite Z.add_0_r, app_nil_r.
  - cbn [length] in *. pose proof (fmt_x_length w Hw). cbn [app]. rewrite ntop6_word; [|done|apply Hin; lia|lia|destruct Hv; [by left|right; lia]|lia].
    rewrite IH.
    + unfold colons. cbn [fmap list_fmap concat]. rewrite <- app_assoc. f_equal. lia.
    + intros j Hj. apply Hin. lia.
    + lia.
    + destruct Hv; [by left|right; lia].
    + rewrite length_app. cbn [length]. lia.
Qed.

Lemma ntop6_skip n rest i tp :
  (forall j, i <= j < i + Z.of_nat n -> inside j = true /\ j <> r_base best) -> (length tp < 46)%nat ->
  loop (replicate n 0 ++ rest) i tp = loop rest (i + Z.of_nat n) tp.
Proof.
  revert i. induction n as [|n IH]; intros i Hin Hl; [cbn; by rewrite Z.add_0_r|]. cbn [replicate app ntop6_loop]. fold (inside i).
  destruct (Hin i ltac:(lia)) as [-> Hb]. rewrite (proj2 (Z.ltb_lt _ TMP6)) by (unfold TMP6; lia). rewrite (proj2 (Z.eqb_neq _ _)) by done.
  cbn [negb mbind option_bind]. rewrite IH; [f_equal; lia| |done]. intros j Hj. apply Hin. lia.
Qed.

Lemma ntop6_run rest tp :
  0 <= r_base best -> 1 <= r_len best -> (length tp <= 44)%nat ->
  loop (replicate (Z.to_nat (r_len best)) 0 ++ rest) (r_base best) tp = loop rest (r_base best + r_len best) (tp ++ [0x3a]).
Proof.
  intros Hb Hl Ht. destruct (Z.to_nat (r_len best)) as [|n] eqn:En; [lia|]. cbn [replicate app ntop6_loop]. fold (inside (r_base best)).
  assert (forall j, r_base best <= j < r_base best + r_len best -> inside j = true) as Hin.
  { intros j Hj. unfold inside. rewrite (proj2 (Z.eqb_neq _ (-1))), (proj2 (Z.leb_le _ _)), (proj2 (Z.ltb_lt _ _)) by lia. done. }
  rewrite Hin by lia. rewrite (proj2 (Z.ltb_lt _ TMP6)) by (unfold TMP6; lia). rewrite Z.eqb_refl. cbn [negb]. rewrite put_room by done.
  cbn [mbind option_bind]. rewrite ntop6_skip.
  - f_equal. lia.
  - intros j Hj. split; [apply Hin; lia|lia].
  - rewrite length_app. cbn. lia.
Qed.

Lemma ntop6_v4 w ws tp a b c d :
  v4_tail = true -> inside 6 = false -> drop 12 src = [a; b; c; d] -> Forall is_u8 [a; b; c; d] -> (length tp <= 28)%nat ->
  loop (w :: ws) 6 tp = Some (tp ++ 0x3a :: quad a b c d).
Proof.
  intros Hv Hi Hs Hb Hl. rewrite !Forall_cons in Hb. destruct Hb as (Ha & Hb & Hc & Hd & _). pose proof (quad_length a b c d Ha Hb Hc Hd) as Hq.
  cbn [ntop6_loop]. fold (inside 6). rewrite Hi. rewrite (proj2 (Z.ltb_lt _ TMP6)) by (unfold TMP6; lia). change (6 =? 0) with false. cbn [negb].
  rewrite put_room by lia. cbn [mbind option_bind]. rewrite <- andb_assoc. fold v4_tail. rewrite Hv. change (6 =? 6) with true. cbn [andb].
  rewrite Hs. unfold inet_ntop4. fold (quad a b c d). rewrite length_app. cbn [length]. unfold TMP6.
  rewrite (proj2 (Z.leb_gt _ 0)), (proj2 (Z.leb_gt _ _)) by lia. cbn [orb]. by rewrite <- app_assoc.
Qed.
End Ntop6.

(** The text of the words with a run of zeros left out after [pre], or with none. *)
Definition words_text (ws : list Z) : list Z := match ws with [] => [] | w :: ws => fmt_x w ++ colons ws end.

Lemma colons_length ws : Forall is_word ws -> (length (colons ws) <= 5 * length ws)%nat.
Proof.
  induction 1 as [|w ws Hw Hws IH]; [done|]. unfold colons in *. cbn [fmap list_fmap concat]. rewrite length_app. cbn [length].
  pose proof (fmt_x_length w Hw). lia.
Qed.
Lemma words_text_length ws : Forall is_word ws -> (length (words_text ws) <= 5 * length ws)%nat.
Proof.
  intros [|w ws' Hw Hws]; [done|]. cbn [words_text length]. rewrite length_app. pose proof (fmt_x_length w Hw). pose proof (colons_length ws' Hws). lia.
Qed.

Lemma ntop6_start src w5 best pre rest :
  Forall is_word pre -> (length pre <= 8)%nat -> (forall j, 0 <= j < Z.of_nat (length pre) -> inside best j = false) ->
  v4_tail w5 best = false \/ (length pre <= 6)%nat ->
  ntop6_loop (pre ++ rest) 0 src w5 best [] = ntop6_loop rest (Z.of_nat (length pre)) src w5 best (words_text pre).
Proof.
  intros Hw Hl Hin Hv. destruct Hw as [|w ws Hw Hws]; [done|]. cbn [app words_text length] in *. pose proof (fmt_x_length w Hw).
  rewrite ntop6_first by (done || apply Hin; lia). rewrite ntop6_words; [f_equal; lia|done| |lia|destruct Hv; [by left|right; lia]|lia].
  intros j Hj. apply Hin. lia.
Qed.

(** The text around a gap; the whole of it is read back. *)
Definition gap_text (pre rest : list Z) : list Z := words_text pre ++ 0x3a :: 0x3a :: rest.

Definition finish (r : option (option (list Z * nat * option nat * bool * Z))) : option (option (list Z)) :=
  match r with
  | Some (Some (tmp, tp, colonp, saw, v)) => pton6_finish tmp tp colonp saw v
  | Some None => Some None
  | None => None
  end.

Lemma bytes_of_length ws : length (bytes_of ws) = (2 * length ws)%nat.
Proof. induction ws as [|w ws IH]; [done|]. unfold bytes_of in *. cbn [fmap list_fmap concat length]. rewrite length_app, IH. cbn. lia. Qed.
Lemma bytes_of_app ws vs : bytes_of (ws ++ vs) = bytes_of ws ++ bytes_of vs.
Proof. unfold bytes_of. by rewrite fmap_app, concat_app. Qed.
Lemma bytes_of_zeros n : bytes_of (replicate n 0) = replicate (2 * n) 0.
Proof. induction n as [|n IH]; [done|]. unfold bytes_of in *. cbn [replicate fmap list_fmap concat]. rewrite IH. by replace (2 * S n)%nat with (S (S (2 * n))) by lia. Qed.

Lemma pton6_start c src : c <> 0x3a -> inet_pton6 (c :: src) = finish (pton6_loop (c :: src) (c :: src) (st16 []) 0 None false 0 0).
Proof.
  intros Hc. unfold inet_pton6, finish. cbn [hd_error mbind option_bind]. rewrite (proj2 (Z.eqb_neq c _)) by done. cbn [mbind option_bind].
  change (replicate 16 0) with (st16 []). by destruct (pton6_loop _ _ _ _ _ _ _ _) as [[[[[[] ]] ]|]|].
Qed.

Lemma pton6_gap pre rest :
  Forall is_word pre -> (length pre <= 7)%nat ->
  inet_pton6 (gap_text pre rest) = finish (pton6_loop rest rest (st16 (bytes_of pre)) (length (bytes_of pre)) (Some (length (bytes_of pre))) false 0 0).
Proof.
  intros Hw Hl. unfold gap_text. destruct pre as [|w ws].
  - rewrite <- (pton6_open rest (0x3a :: rest)). unfold inet_pton6, finish. cbn [words_text app hd_error tail mbind option_bind].
    change (0x3a =? 0x3a) with true. cbn [mbind option_bind]. change (replicate 16 0) with (st16 (bytes_of [])). change (length (bytes_of [])) with 0%nat.
    by destruct (pton6_loop _ _ _ _ _ _ _ _) as [[[[[[] ]] ]|]|].
  - pose proof Hw as Hw'. apply Forall_cons in Hw' as [Hx Hws]. cbn [words_text length] in *. rewrite <- app_assoc.
    destruct (fmt_x_head w Hx) as (c & t & Ec & _ & Hc). rewrite Ec. cbn [app]. rewrite pton6_start by done.
    change (c :: t ++ colons ws ++ 0x3a :: 0x3a :: rest) with ((c :: t) ++ colons ws ++ 0x3a :: 0x3a :: rest). rewrite <- Ec. clear c t Ec Hc.
    set (text := fmt_x w ++ colons ws ++ 0x3a :: 0x3a :: rest). change 0%nat with (length (@nil Z)). subst text.
    destruct (pton6_word None w (colons ws ++ 0x3a :: 0x3a :: rest) (fmt_x w ++ colons ws ++ 0x3a :: 0x3a :: rest) [] Hx) as [k ->].
    destruct (pton6_colons None ws (0x3a :: 0x3a :: rest) (fmt_x w ++ colons ws ++ 0x3a :: 0x3a :: rest) [] k w Hw) as (bs' & w' & cur' & k' & Eb & Hw' & Hlen & ->);
      [cbn; lia|]. cbn [length] in Hlen. rewrite pton6_colon by (done || lia). rewrite Eb. by rewrite pton6_open.
Qed.

Lemma st16_full bs : length bs = 16%nat -> st16 bs = bs.
Proof. intros H. unfold st16. rewrite H. cbn. by rewrite app_nil_r. Qed.

Lemma finish_gap pre q v :
  (length pre + length q < 16)%nat ->
  pton6_finish (st16 (pre ++ q)) (length (pre ++ q)) (Some (length pre)) false v = Some (Some (pre ++ replicate (16 - length pre - length q) 0 ++ q)).
Proof.
  intros Hl. unfold pton6_finish. rewrite length_app. replace (length pre + length q - length pre)%nat with (length q) by lia.
  unfold st16. rewrite <- app_assoc, length_app. pose proof (shift_spec pre q [] (16 - length pre - length q) (length q)) as E.
  cbn [length] in E. rewrite !app_nil_r in E. rewrite Nat.sub_add_distr. rewrite E by lia. done.
Qed.

Lemma finish_word bs w cp :
  (length bs + 2 <= 16)%nat -> is_word w -> pton6_finish (st16 bs) (length bs) cp true w = pton6_finish (st16 (bs ++ w2 w)) (length (bs ++ w2 w)) cp false 0.
Proof.
  intros Hl Hw. unfold pton6_finish. rewrite (proj2 (Nat.ltb_ge _ _)) by lia. rewrite put16_st16 by done. by rewrite length_app.
Qed.

(** The four shapes of a text are read back. *)
Lemma pton6_no_gap ws : Forall is_word ws -> length ws = 8%nat -> inet_pton6 (words_text ws ++ [0]) = Some (Some (bytes_of ws)).
Proof.
  intros Hw Hl. destruct ws as [|w ws]; [done|]. cbn [length words_text] in *. rewrite <- app_assoc. pose proof Hw as Hw'. apply Forall_cons in Hw' as [Hx _].
  destruct (fmt_x_head w Hx) as (c & t & Ec & _ & Hc). rewrite Ec. cbn [app]. rewrite pton6_start by done.
  change (c :: t ++ colons ws ++ [0]) with ((c :: t) ++ colons ws ++ [0]). rewrite <- Ec. clear c t Ec Hc.
  destruct (pton6_words None w ws (fmt_x w ++ colons ws ++ [0]) [] Hw) as (bs & x & Eb & Hx' & Hlen & E); [cbn; lia|]. cbn [length] in E, Hlen. rewrite E.
  cbn [finish]. rewrite finish_word by (done || lia). rewrite Eb. cbn [app]. unfold pton6_finish. cbn [mbind option_bind].
  rewrite bytes_of_length. cbn [length]. rewrite Hl. by rewrite st16_full by (rewrite bytes_of_length; cbn; lia).
Qed.

Lemma pton6_words_gap pre l post :
  Forall is_word (pre ++ post) -> (length pre + l + length post = 8)%nat -> (0 < l)%nat ->
  inet_pton6 (gap_text pre (words_text post ++ [0])) = Some (Some (bytes_of (pre ++ replicate l 0 ++ post))).
Proof.
  intros [Hp Hq]%Forall_app Hl H0. rewrite pton6_gap by (done || lia). rewrite !bytes_of_app, bytes_of_zeros.
  replace (2 * l)%nat with (16 - length (bytes_of pre) - length (bytes_of post))%nat by (rewrite !bytes_of_length; lia).
  pose proof (bytes_of_length pre). pose proof (bytes_of_length post).
  destruct post as [|p ps].
  - cbn [words_text app pton6_loop]. change (0 =? 0) with true. cbn [finish]. pose proof (finish_gap (bytes_of pre) [] 0) as E. rewrite app_nil_r in E.
    rewrite E by (cbn; lia). done.
  - cbn [words_text length] in *. rewrite <- app_assoc.
    destruct (pton6_words (Some (length (bytes_of pre))) p ps (fmt_x p ++ colons ps ++ [0]) (bytes_of pre) Hq) as (bs & x & Eb & Hx' & Hlen & E); [lia|].
    rewrite E. cbn [finish]. rewrite finish_word by (done || lia). rewrite Eb. apply finish_gap. lia.
Qed.

Lemma pton6_v4_gap mid a b c d :
  Forall is_word mid -> Forall is_u8 [a; b; c; d] -> (length mid <= 1)%nat ->
  inet_pton6 (gap_text [] (match mid with [] => [] | w :: _ => fmt_x w ++ [0x3a] end ++ quad a b c d ++ [0]))
  = Some (Some (bytes_of (replicate (6 - length mid) 0 ++ mid) ++ [a; b; c; d])).
Proof.
  intros Hm Hb Hl. rewrite !Forall_cons in Hb. destruct Hb as (Ha & Hb & Hc & Hd & _). rewrite pton6_gap by (apply Forall_nil_2 || (cbn; lia)).
  rewrite bytes_of_app, bytes_of_zeros, <- app_assoc. cbn [bytes_of fmap list_fmap concat].
  set (rest := quad a b c d ++ [0]). set (cp := Some (length (@nil Z))).
  assert (exists c' t, rest = c' :: t /\ c' <> 0) as (c' & t & Er & Hc').
  { subst rest. unfold quad. destruct (fmt_u_spec a Ha) as (ds & -> & Hds & _ & Hlen). destruct ds as [|x ds]; [cbn in Hlen; lia|].
    apply Forall_cons in Hds as [Hx _]. pose proof (digit_char_pos x ltac:(lia)). cbn. eexists _, _. split; [reflexivity|lia]. }
  destruct mid as [|w [|]]; [| |cbn in Hl; lia].
  - destruct (pton6_quad cp a b c d [] Ha Hb Hc Hd) as [v E]; [cbn; lia|]. fold rest in E. cbn [app]. rewrite E. cbn [finish].
    apply (finish_gap [] [a; b; c; d] v). cbn. lia.
  - rewrite Forall_cons in Hm. destruct Hm as [Hm _]. rewrite <- app_assoc.
    destruct (pton6_word cp w ([0x3a] ++ rest) (fmt_x w ++ [0x3a] ++ rest) [] Hm) as [k ->].
    rewrite Er. cbn [app]. rewrite pton6_colon by (done || cbn; lia). rewrite <- Er. cbn [app].
    destruct (pton6_quad cp a b c d (w2 w) Ha Hb Hc Hd) as [v E]; [cbn; lia|]. fold rest in E. rewrite E. cbn [finish].
    apply (finish_gap [] (w2 w ++ [a; b; c; d]) v). cbn. lia.
Qed.

Lemma ntop6_no_run src w5 best ws :
  Forall is_word ws -> length ws = 8%nat -> r_base best = -1 -> ntop6_loop ws 0 src w5 best [] = Some (words_text ws).
Proof.
  intros Hw Hl Hb. rewrite <- (app_nil_r ws) at 1. rewrite ntop6_start; [done|done|lia| |].
  - intros j _. unfold inside. by rewrite Hb.
  - left. unfold v4_tail. by rewrite Hb.
Qed.

Section WithRun.
Context (src : list Z) (w5 : Z) (pre post : list Z) (l : nat).
Context (Hpre : Forall is_word pre) (Hpost : Forall is_word post) (Hlen : (length pre + l + length post = 8)%nat) (Hrun : (2 <= l)%nat).
Let best : run := Run (Z.of_nat (length pre)) (Z.of_nat l).

Lemma inside_run j : inside best j = bool_decide (Z.of_nat (length pre) <= j < Z.of_nat (length pre) + Z.of_nat l).
Proof.
  unfold inside. cbn [r_base r_len best]. rewrite (proj2 (Z.eqb_neq _ (-1))) by lia. cbn [negb andb].
  apply eq_true_iff_eq. rewrite bool_decide_eq_true, andb_true_iff, Z.leb_le, Z.ltb_lt. done.
Qed.

(** Up to the word after the run. *)
Lemma ntop6_to_run :
  ntop6_loop (pre ++ replicate l 0 ++ post) 0 src w5 best [] = ntop6_loop post (Z.of_nat (length pre + l)) src w5 best (words_text pre ++ [0x3a]).
Proof.
  rewrite ntop6_start; [|done|lia| |right; lia].
  - pose proof (ntop6_run src w5 best post (words_text pre)) as E. cbn [r_base r_len best] in E. rewrite Nat2Z.id in E.
    rewrite E; [f_equal; lia|lia|lia|]. pose proof (words_text_length pre Hpre). lia.
  - intros j Hj. rewrite inside_run. apply bool_decide_eq_false. lia.
Qed.

Lemma ntop6_plain :
  v4_tail w5 best = false -> ntop6_loop (pre ++ replicate l 0 ++ post) 0 src w5 best [] = Some (words_text pre ++ [0x3a] ++ colons post).
Proof.
  intros Hv. rewrite ntop6_to_run. pose proof (words_text_length pre Hpre). rewrite <- (app_nil_r post) at 1. rewrite ntop6_words; [|done| |lia|by left|].
  - cbn [ntop6_loop]. by rewrite <- app_assoc.
  - intros j Hj. rewrite inside_run. apply bool_decide_eq_false. lia.
  - rewrite length_app. cbn [length]. lia.
Qed.

Lemma ntop6_tail a b c d :
  v4_tail w5 best = true -> drop 12 src = [a; b; c; d] -> Forall is_u8 [a; b; c; d] ->
  ntop6_loop (pre ++ replicate l 0 ++ post) 0 src w5 best [] = Some ([0x3a] ++ colons (take (6 - l) post) ++ 0x3a :: quad a b c d) /\
  pre = [] /\ (l = 6%nat \/ l = 5%nat /\ w5 = 0xffff).
Proof.
  intros Hv Hd Hb. pose proof Hv as Hv'. unfold v4_tail in Hv. cbn [r_base r_len best] in Hv. apply andb_true_iff in Hv as [H0 H1]. apply Z.eqb_eq in H0.
  assert (pre = []) as Ep by (destruct pre; [done|cbn in H0; lia]).
  assert (l = 6%nat \/ l = 5%nat /\ w5 = 0xffff) as Hl.
  { apply orb_true_iff in H1 as [H1|H1]; [left|right; apply andb_true_iff in H1 as [H1 H2]]; zbool; [lia|split; [lia|done]]. }
  split; [|done]. pose proof Hlen as Hlen'. rewrite Ep in Hlen'. cbn [length] in Hlen'.
  assert (length (take (6 - l) post) = (6 - l)%nat) as Ht by (rewrite length_take_le; lia).
  pose proof ntop6_to_run as E. rewrite Ep in E |- *. rewrite E. clear E. cbn [words_text app length].
  rewrite <- (take_drop (6 - l) post) at 1. 
  rewrite ntop6_words; [|by apply Forall_take| |lia|right; rewrite Ht; lia|rewrite Ht; cbn; lia].
  - replace (Z.of_nat (0 + l) + Z.of_nat (length (take (6 - l) post))) with 6 by (rewrite Ht; lia).
    destruct (drop (6 - l) post) as [|w ws] eqn:Ed; [apply (f_equal length) in Ed; rewrite length_drop in Ed; cbn in Ed; lia|].
    rewrite (ntop6_v4 _ _ _ _ _ _ a b c d); [by rewrite <- app_assoc|done| |done|done|].
    + rewrite inside_run, Ep. apply bool_decide_eq_false. cbn. lia.
    + pose proof (colons_length (take (6 - l) post) (Forall_take _ _ _ Hpost)). rewrite length_app. cbn [length]. lia.
  - intros j Hj. rewrite inside_run, Ep. apply bool_decide_eq_false. cbn. lia.
Qed.
End WithRun.

(** After the loop: a colon more when the run is the last of the words, and the NUL. *)
Lemma ntop6_result src w5 tp :
  let best := best_run (words_of src) in
  let t := tp ++ (if negb (r_base best =? -1) && (r_base best + r_len best =? 8) then [0x3a] else []) in
  words_of src !! 5%nat = Some w5 -> ntop6_loop (words_of src) 0 src w5 best [] = Some tp -> (length t <= 44)%nat ->
  (length t < 46)%nat /\ forall size, inet_ntop6 src size = Some (if Z.of_nat (length t) <? size then Good t else Fail ENOSPC).
Proof.
  intros best t H5 Hr Hl. split; [lia|]. intros size. unfold inet_ntop6. rewrite H5. cbn [mbind option_bind]. fold best. rewrite Hr. cbn [mbind option_bind].
  assert ((if negb (r_base best =? -1) && (r_base best + r_len best =? 8) then put tp 0x3a else Some tp) = Some t) as ->.
  { subst t. destruct (_ && _); [apply put_room|by rewrite app_nil_r]. rewrite length_app in Hl. lia. }
  cbn [mbind option_bind]. rewrite put_room by done. rewrite length_app, removelast_last. cbn [length].
  destruct (Z.ltb_spec (Z.of_nat (length t)) size); [by rewrite (proj2 (Z.ltb_ge _ _)) by lia|by rewrite (proj2 (Z.ltb_lt _ _)) by lia].
Qed.

(** The two ways to write a run. *)
Lemma plain_text pre l post :
  (length pre + l + length post = 8)%nat ->
  (words_text pre ++ [0x3a] ++ colons post) ++ (if Z.of_nat (length pre) + Z.of_nat l =? 8 then [0x3a] else []) = gap_text pre (words_text post).
Proof.
  intros Hl. unfold gap_text. rewrite <- !app_assoc. f_equal. destruct post as [|p ps].
  - cbn [length] in Hl. by rewrite (proj2 (Z.eqb_eq _ 8)) by lia.
  - cbn [length] in Hl. rewrite (proj2 (Z.eqb_neq _ 8)) by lia. rewrite app_nil_r. done.
Qed.
Lemma tail_text mid q :
  (length mid <= 1)%nat -> [0x3a] ++ colons mid ++ 0x3a :: q = gap_text [] (match mid with [] => [] | w :: _ => fmt_x w ++ [0x3a] end ++ q).
Proof. intros Hl. destruct mid as [|w [|]]; [done| |cbn in Hl; lia]. unfold gap_text, colons. cbn. by rewrite app_nil_r, <- app_assoc. Qed.

Lemma bytes_front l post :
  (l <= 6)%nat -> (6 <= l + length post)%nat -> bytes_of (replicate l 0 ++ take (6 - l) post) = take 12 (bytes_of (replicate l 0 ++ post)).
Proof.
  intros H6 Hl. rewrite <- (take_drop (6 - l) post) at 2. rewrite app_assoc, (bytes_of_app _ (drop _ _)).
  rewrite take_app_length' by (rewrite bytes_of_length, length_app, length_replicate, length_take_le; lia). done.
Qed.

Lemma ntop6_pton6 src :
  length src = 16%nat -> Forall is_u8 src ->
  exists t, ((length t < 46)%nat /\ forall size, inet_ntop6 src size = Some (if Z.of_nat (length t) <? size then Good t else Fail ENOSPC)) /\
    inet_pton6 (t ++ [0]) = Some (Some src).
Proof.
  intros Hl Hb. destruct (words_of_spec src Hl Hb) as (H8 & Hw & Esrc). destruct (words_of src !! 5%nat) as [w5|] eqn:H5;
    [|apply lookup_ge_None in H5; lia].
  pose proof (fun tp => ntop6_result src w5 tp) as Hres. cbn zeta in Hres.
  destruct (best_run_spec (words_of src)) as [Hn|(pre & l & post & Ews & H2 & Ebest)].
  - eexists. split; [apply Hres; [done|by apply ntop6_no_run|]|]; rewrite Hn; cbn [negb andb Z.eqb]; rewrite app_nil_r.
    + pose proof (words_text_length _ Hw). lia.
    + rewrite pton6_no_gap by done. by rewrite Esrc.
  - rewrite Ebest in Hres. cbn [r_base r_len] in Hres. rewrite (proj2 (Z.eqb_neq _ (-1))) in Hres by lia. cbn [negb andb] in Hres.
    rewrite Ews in Hw, H8, H5, Hres, Esrc. rewrite !Forall_app in Hw. destruct Hw as (Hpre & _ & Hpost). rewrite !length_app, length_replicate in H8.
    pose proof (words_text_length pre Hpre). pose proof (colons_length post Hpost).
    destruct (v4_tail w5 (Run (Z.of_nat (length pre)) (Z.of_nat l))) eqn:Hv.
    + destruct (drop 12 src) as [|a [|b [|c [|d [|]]]]] eqn:Ed; try (apply (f_equal length) in Ed; rewrite length_drop, Hl in Ed; discriminate Ed).
      assert (Forall is_u8 [a; b; c; d]) as Hq by (rewrite <- Ed; by apply Forall_drop).
      destruct (ntop6_tail src w5 pre post l Hpre Hpost ltac:(lia) H2 a b c d Hv Ed Hq) as (E & -> & Hl6). cbn [length] in *.
      assert (Forall is_word (take (6 - l) post)) as Hmid by (by apply Forall_take). assert (length (take (6 - l) post) = (6 - l)%nat) as Ht by (rewrite length_take_le; lia).
      pose proof (colons_length _ Hmid). rewrite tail_text in E by lia.
      eexists. split; [apply Hres; [done|exact E|]|]; rewrite (proj2 (Z.eqb_neq _ 8)) by lia; rewrite app_nil_r.
      * rewrite <- tail_text by lia. rewrite !Forall_cons in Hq. destruct Hq as (Ha & Hb' & Hc & Hd & _).
        pose proof (quad_length a b c d Ha Hb' Hc Hd). rewrite !length_app. cbn [length]. lia.
      * unfold gap_text. cbn [words_text app]. rewrite <- app_assoc. pose proof (pton6_v4_gap (take (6 - l) post) a b c d Hmid Hq ltac:(lia)) as E'.
        unfold gap_text in E'. cbn [words_text app] in E'. rewrite E'. do 2 f_equal. rewrite Ht, <- Ed.
        replace (6 - (6 - l))%nat with l by lia. rewrite bytes_front by lia. cbn [app] in Esrc. rewrite Esrc. apply take_drop.
    + eexists. split; [apply Hres; [done|by apply ntop6_plain; (done || lia)|]|].
      * rewrite !length_app. cbn [length]. case_test; cbn [length]; lia.
      * rewrite plain_text by lia. pose proof (pton6_words_gap pre l post) as E. unfold gap_text in E |- *. rewrite <- app_assoc. cbn [app].
        rewrite E by (lia || by apply Forall_app). by rewrite Esrc.
Qed.

(** 1::2:3:4:5:6:7:8, eight words and a gap of none, is accepted, and every byte from the gap on
    is cleared: the loop that closes the gap writes each byte to its own place and then a zero over it. *)
Example pton6_full_with_gap :
  inet_pton6 [0x31; 0x3a; 0x3a; 0x32; 0x3a; 0x33; 0x3a; 0x34; 0x3a; 0x35; 0x3a; 0x36; 0x3a; 0x37; 0x3a; 0x38; 0] = Some (Some (0 :: 1 :: replicate 14 0)).
Proof. vm_compute. reflexivity. Qed.

(** ** The round trip *)

(** C10.  An address of either family is printed and read back: inet_ntop writes for the 4 or 16
    bytes of any address a text that fits in INET_ADDRSTRLEN or INET6_ADDRSTRLEN characters with
    its NUL, whatever run of zero words it leaves out and whether it ends in a dotted quad; it
    answers that text exactly for the sizes with room for it and ENOSPC for the others; and
    inet_pton reads from the text the same bytes. *)
Theorem inet_roundtrip af a :
  Forall is_u8 a -> af = AF_INET /\ length a = 4%nat \/ af = AF_INET6 /\ length a = 16%nat ->
  exists t, (length t < if (af =? AF_INET)%Z then 16 else 46)%nat /\
    (forall size, inet_ntop af a size = Some (if Z.of_nat (length t) <? size then Good t else Fail ENOSPC)) /\
    inet_pton af (t ++ [0]) = Some (Good (Some a)).
Proof.
  intros Hb [[-> Hl]|[-> Hl]].
  - unfold inet_ntop, inet_pton. change (AF_INET =? AF_INET) with true. cbn match.
    destruct a as [|a [|b [|c [|d [|]]]]]; try done. rewrite !Forall_cons in Hb. destruct Hb as (Ha & Hb & Hc & Hd & _).
    pose proof (quad_length a b c d Ha Hb Hc Hd). exists (quad a b c d). split; [lia|]. split; [|by rewrite pton4_quad].
    intros size. unfold inet_ntop4. fold (quad a b c d). rewrite (proj2 (Z.leb_gt _ 0)) by lia. cbn [orb].
    destruct (Z.ltb_spec (Z.of_nat (length (quad a b c d))) size); [by rewrite (proj2 (Z.leb_gt _ _)) by lia|by rewrite (proj2 (Z.leb_le _ _)) by lia].
  - destruct (ntop6_pton6 a Hl Hb) as (t & [Ht E] & E'). exists t. unfold inet_ntop, inet_pton. change (AF_INET6 =? AF_INET) with false.
    change (AF_INET6 =? AF_INET6) with true. cbn match. split; [done|]. split; [done|by rewrite E'].
Qed.

Lemma inet_roundtrip_witness :
  inet_ntop AF_INET6 [32; 1; 0; 0; 0; 0; 0; 0; 0; 9; 0; 0; 0; 0; 0; 10] 46 = Some (Good [0x32; 0x30; 0x30; 0x31; 0x3a; 0x3a; 0x39; 0x3a; 0x30; 0x3a; 0x30; 0x3a; 0x61]) /\
  exists t, inet_pton AF_INET6 (t ++ [0]) = Some (Good (Some [32; 1; 0; 0; 0; 0; 0; 0; 0; 9; 0; 0; 0; 0; 0; 10])).
Proof.
  split; [vm_compute; reflexivity|].
  destruct (inet_roundtrip AF_INET6 [32; 1; 0; 0; 0; 0; 0; 0; 0; 9; 0; 0; 0; 0; 0; 10]) as (t & _ & _ & E).
  - repeat (apply Forall_cons; split; [unfold is_u8; lia|]). apply Forall_nil_2.
  - right. split; reflexivity.
  - exists t. exact E.
Defined.
