(* ===== verification/InetAton.v ===== *)
(** * Addresses in the notations of the C language, and Ethernet addresses
    (libc/inet: inet_aton.c, inet_addr.c, inet_ntoa.c, ether_aton.c, ether_ntoa.c)

    inet_aton reads one to four numbers in decimal, octal or hexadecimal.  A pointer into
    a string is the list of the characters from there on, [None] an access behind its end;
    a struct in_addr is its four bytes in memory. *)
From S2P Require Import Prelude Ctype CMem CString Inet.

(** ** inet_aton.c, inet_addr.c *)

(** The inner for (;;): the number and the place of the character that ends it. *)
Fixpoint aton_digits (cp : list Z) (base val : Z) : option (Z * list Z) :=
  match cp with
  | [] => None
  | c :: cp' =>
      if isascii c && isdigit c then aton_digits cp' base (u32 (u32 (val * base) + (c - 0x30)))
      else if (base =? 16) && isascii c && isxdigit c then
        aton_digits cp' base (Z.lor (u32 (Z.shiftl val 4)) (c + 10 - (if islower c then 0x61 else 0x41)))
      else Some (val, cp)
  end.

(** The outer for (;;): [room] is parts + 3 - pp, [parts] what is written.  The inner [None] is return (0). *)
Fixpoint aton_parts (room : nat) (cp parts : list Z) : option (option (list Z * Z * Z)) :=
  c ← hd_error cp;
  if negb (isdigit c) then Some None
  else
    '(base, cp) ← (if c =? 0x30 then
                     c ← hd_error (tail cp);
                     Some (if (c =? 0x78) || (c =? 0x58) then (16, tail (tail cp)) else (8, tail cp))
                   else Some (10, cp));
    '(val, cp) ← aton_digits cp base 0;
    c ← hd_error cp;
    if c =? 0x2e then
      match room with
      | O => Some None
      | S room => aton_parts room (tail cp) (parts ++ [val])
      end
    else Some (Some (parts, val, c)).

Definition htonl (val : Z) : list Z := [u8 (Z.shiftr val 24); u8 (Z.shiftr val 16); u8 (Z.shiftr val 8); u8 val].

(** The switch on the number of parts. *)
Definition aton_switch (parts : list Z) (val : Z) : option Z :=
  match parts with
  | [] => Some val
  | [p0] => if (0xffffff <? val) || (0xff <? p0) then None else Some (Z.lor val (u32 (Z.shiftl p0 24)))
  | [p0; p1] =>
      if (0xffff <? val) || (0xff <? p0) || (0xff <? p1) then None
      else Some (Z.lor val (Z.lor (u32 (Z.shiftl p0 24)) (u32 (Z.shiftl p1 16))))
  | p0 :: p1 :: p2 :: _ =>
      if (0xff <? val) || (0xff <? p0) || (0xff <? p1) || (0xff <? p2) then None
      else Some (Z.lor val (Z.lor (Z.lor (u32 (Z.shiftl p0 24)) (u32 (Z.shiftl p1 16))) (u32 (Z.shiftl p2 8))))
  end.

Definition inet_aton (cp : list Z) : option (option (list Z)) :=
  r ← aton_parts 3 cp [];
  match r with
  | None => Some None
  | Some (parts, val, c) =>
      if negb (c =? 0) && (negb (isascii c) || negb (isspace c)) then Some None
      else Some (htonl <$> aton_switch parts val)
  end.

Definition INADDR_NONE : list Z := [255; 255; 255; 255].
Definition inet_addr (cp : list Z) : option (list Z) := r ← inet_aton cp; Some (default INADDR_NONE r).

(** ** inet_ntoa.c: what snprintf writes into the static buffer of 18 characters *)
Definition inet_ntoa (p : list Z) : option (list Z) :=
  match p with
  | [a; b; c; d] => Some (take 17 (fmt_u (Z.land a 0xff) ++ [0x2e] ++ fmt_u (Z.land b 0xff) ++ [0x2e] ++ fmt_u (Z.land c 0xff) ++ [0x2e] ++ fmt_u (Z.land d 0xff)) ++ [0])
  | _ => None
  end.

(** ** ether_aton.c *)
Definition xdigit (c : Z) : Z :=
  if u32 (c - 0x30) <? 10 then u32 (c - 0x30)
  else if u32 (c - 0x61) <? 6 then 10 + u32 (c - 0x61)
  else if u32 (c - 0x41) <? 6 then 10 + u32 (c - 0x41)
  else -1.

Definition ETHER_ADDR_LEN : nat := 6.

(** for (i = 0; i < ETHER_ADDR_LEN; ++i), [room] being ETHER_ADDR_LEN - i *)
Fixpoint ether_loop (room : nat) (asc addr : list Z) : option (option (list Z)) :=
  match room with
  | O => c ← hd_error asc; Some (if negb (c =? 0) then None else Some addr)
  | S room =>
      c0 ← hd_error asc;
      let val0 := xdigit c0 in
      if val0 <? 0 then Some None
      else
        c1 ← hd_error (tail asc);
        let val1 := xdigit c1 in
        if val1 <? 0 then Some None
        else
          let asc := tail (tail asc) in
          let addr := addr ++ [u8 (Z.shiftl val0 4 + val1)] in
          match room with
          | O => ether_loop room asc addr
          | S _ => c ← hd_error asc; if negb (c =? 0x3a) then Some None else ether_loop room (tail asc) addr
          end
  end.
Definition ether_aton_r (asc : list Z) : option (option (list Z)) := ether_loop ETHER_ADDR_LEN asc [].

(** ** ether_ntoa.c *)
Definition fmt_02x (n : Z) : list Z := let t := fmt_x n in replicate (2 - length t) 0x30 ++ t.
Definition ether_ntoa_r (addr : list Z) : option (list Z) :=
  match addr with
  | [a; b; c; d; e; f] =>
      Some (take 17 (fmt_02x a ++ [0x3a] ++ fmt_02x b ++ [0x3a] ++ fmt_02x c ++ [0x3a] ++ fmt_02x d ++ [0x3a] ++ fmt_02x e ++ [0x3a] ++ fmt_02x f) ++ [0])
  | _ => None
  end.

(** ** The numbers of the C language *)
Inductive number : Type :=
| Dec (ds : list Z)
| Oct (ds : list Z)
| Hex (ds : list (bool * Z)).

(** A hexadecimal digit, in upper case when the flag says so. *)
Definition hex_char (d : bool * Z) : Z := if d.1 && (10 <=? d.2) then 0x41 + (d.2 - 10) else digit_char d.2.
Definition number_text (n : number) : list Z :=
  match n with
  | Dec ds => digit_char <$> ds
  | Oct ds => 0x30 :: (digit_char <$> ds)
  | Hex ds => 0x30 :: 0x78 :: (hex_char <$> ds)
  end.
(** Any digits may follow the 0 of an octal number, 8 and 9 too. *)
Definition number_ok (n : number) : Prop :=
  match n with
  | Dec ds => Forall (fun d => 0 <= d < 10) ds /\ exists d ds', ds = d :: ds' /\ d <> 0
  | Oct ds => Forall (fun d => 0 <= d < 10) ds
  | Hex ds => Forall (fun d => 0 <= d.2 < 16) ds
  end.
Definition number_value (n : number) : Z :=
  match n with
  | Dec ds => value 10 0 ds
  | Oct ds => value 8 0 ds
  | Hex ds => value 16 0 (snd <$> ds)
  end.

(** The numbers with a dot between each and the next. *)
Fixpoint dotted (ns : list number) : list Z :=
  match ns with
  | [] => []
  | [n] => number_text n
  | n :: ns => number_text n ++ 0x2e :: dotted ns
  end.

(** The address that numbers stand for: each but the last is one byte, the last the rest of the
    four bytes. *)
Definition address (vs : list Z) (v : Z) : option (list Z) :=
  if forallb (fun p => p <? 256) vs && (v <? 256 ^ (4 - Z.of_nat (length vs))) then
    Some (htonl (value 256 0 vs * 256 ^ (4 - Z.of_nat (length vs)) + v))
  else None.

(** ** Reading a number *)
Ltac digits_below n P := intros; apply (bool_decide_eq_true_1 _), (forall_below n P); [vm_compute; reflexivity|lia].

Lemma dec_class d : 0 <= d < 10 -> isascii (digit_char d) && isdigit (digit_char d) = true /\ digit_char d - 0x30 = d.
Proof. digits_below 10%nat (fun d => bool_decide (isascii (digit_char d) && isdigit (digit_char d) = true /\ digit_char d - 0x30 = d)). Qed.

Lemma hex_class u d : 0 <= d < 16 ->
  let c := hex_char (u, d) in
  (isascii c && isdigit c = true /\ c - 0x30 = d) \/
  (isascii c && isdigit c = false /\ isascii c && isxdigit c = true /\ c + 10 - (if islower c then 0x61 else 0x41) = d).
Proof.
  destruct u; [digits_below 16%nat (fun d => let c := hex_char (true, d) in bool_decide ((isascii c && isdigit c = true /\ c - 0x30 = d) \/
    (isascii c && isdigit c = false /\ isascii c && isxdigit c = true /\ c + 10 - (if islower c then 0x61 else 0x41) = d)))
  |digits_below 16%nat (fun d => let c := hex_char (false, d) in bool_decide ((isascii c && isdigit c = true /\ c - 0x30 = d) \/
    (isascii c && isdigit c = false /\ isascii c && isxdigit c = true /\ c + 10 - (if islower c then 0x61 else 0x41) = d)))].
Qed.

Lemma u32_step v b d : u32 (u32 (u32 v * b) + d) = u32 (v * b + d).
Proof. unfold u32. rewrite Z.add_mod_idemp_l, <- Z.add_mod_idemp_l, Z.mul_mod_idemp_l, Z.add_mod_idemp_l by lia. done. Qed.
Lemma u32_hex_step v d : 0 <= d < 16 -> Z.lor (u32 (Z.shiftl (u32 v) 4)) d = u32 (v * 16 + d).
Proof.
  intros Hd. assert (u32 (Z.shiftl (u32 v) 4) = Z.shiftl (v mod 2 ^ 28) 4) as ->.
  { unfold u32. rewrite !Z.shiftl_mul_pow2 by lia. Z.to_euclidean_division_equations; lia. }
  rewrite (lor_shiftl_low 4) by (try lia; apply Z.mod_pos_bound; lia). unfold u32. Z.to_euclidean_division_equations; lia.
Qed.

(** A character that ends a number in either base. *)
Definition ends (c : Z) : Prop := isascii c && isdigit c = false /\ isascii c && isxdigit c = false.

Lemma aton_dec ds c rest base v :
  Forall (fun d => 0 <= d < 10) ds -> ends c -> aton_digits ((digit_char <$> ds) ++ c :: rest) base (u32 v) = Some (u32 (value base v ds), c :: rest).
Proof.
  intros Hds [Hc Hx]. revert v. induction Hds as [|d ds Hd Hds IH]; intros v.
  - cbn [fmap list_fmap app aton_digits]. rewrite Hc, <- andb_assoc, Hx, andb_false_r. done.
  - cbn [fmap list_fmap app aton_digits]. destruct (dec_class d Hd) as [-> ->]. rewrite u32_step. apply IH.
Qed.
Lemma aton_hex ds c rest v :
  Forall (fun d => 0 <= d.2 < 16) ds -> ends c -> aton_digits ((hex_char <$> ds) ++ c :: rest) 16 (u32 v) = Some (u32 (value 16 v (snd <$> ds)), c :: rest).
Proof.
  intros Hds [Hc Hx]. revert v. induction Hds as [|[u d] ds Hd Hds IH]; intros v.
  - cbn [fmap list_fmap app aton_digits]. rewrite Hc, <- andb_assoc, Hx. done.
  - cbn [fmap list_fmap app aton_digits]. destruct (hex_class u d Hd) as [(-> & ->)|(-> & E & ->)].
    + rewrite u32_step. apply IH.
    + change (16 =? 16) with true. cbn [andb]. rewrite E. cbn [snd] in Hd. rewrite u32_hex_step by done. apply IH.
Qed.

Lemma aton_dec_0 ds c rest base :
  Forall (fun d => 0 <= d < 10) ds -> ends c -> aton_digits ((digit_char <$> ds) ++ c :: rest) base 0 = Some (u32 (value base 0 ds), c :: rest).
Proof. exact (aton_dec ds c rest base 0). Qed.
Lemma aton_hex_0 ds c rest :
  Forall (fun d => 0 <= d.2 < 16) ds -> ends c -> aton_digits ((hex_char <$> ds) ++ c :: rest) 16 0 = Some (u32 (value 16 0 (snd <$> ds)), c :: rest).
Proof. exact (aton_hex ds c rest 0). Qed.

(** A character that ends a number and the text, and one that ends a number. *)
Definition blank_end (c : Z) : bool := (c =? 0) || (isascii c && isspace c).
Definition stop (c : Z) : bool :=
  negb (isascii c && isdigit c) && negb (isascii c && isxdigit c) && negb (c =? 0x78) && negb (c =? 0x58).

Lemma stop_ends c : stop c = true -> ends c /\ (c =? 0x78) || (c =? 0x58) = false.
Proof.
  unfold stop, ends. rewrite !andb_true_iff, !negb_true_iff. intros [[[H1 H2] H3] H4]. rewrite H3, H4. auto.
Qed.

Lemma digit_not_x d : 0 <= d < 10 -> isdigit (digit_char d) = true /\ (digit_char d =? 0x78) || (digit_char d =? 0x58) = false.
Proof. digits_below 10%nat (fun d => bool_decide (isdigit (digit_char d) = true /\ (digit_char d =? 0x78) || (digit_char d =? 0x58) = false)). Qed.
Lemma digit_not_0 d : 0 <= d < 10 -> d <> 0 -> (digit_char d =? 0x30) = false.
Proof. intros Hd H0. unfold digit_char. rewrite (proj2 (Z.ltb_lt _ _)) by lia. apply Z.eqb_neq. lia. Qed.

Lemma aton_number room n c rest parts :
  number_ok n -> stop c = true ->
  aton_parts room (number_text n ++ c :: rest) parts =
    if c =? 0x2e then match room with O => Some None | S room => aton_parts room rest (parts ++ [u32 (number_value n)]) end
    else Some (Some (parts, u32 (number_value n), c)).
Proof.
  intros Hn Hs. apply stop_ends in Hs as [He Hx].
  destruct n as [ds|ds|ds]; cbn [number_ok number_text number_value] in *.
  - destruct Hn as [Hds (d & ds' & -> & H0)]. pose proof Hds as Hds'. apply Forall_cons in Hds' as [Hd _].
    assert (forall r, hd_error ((digit_char <$> d :: ds') ++ r) = Some (digit_char d)) as Eh by done.
    destruct room; cbn [aton_parts]; rewrite Eh; cbn [mbind option_bind]; rewrite (proj1 (digit_not_x d Hd)), digit_not_0 by done; cbn [negb mbind option_bind];
      rewrite aton_dec_0 by done; done.
  - assert (forall p, (c' ← hd_error ((digit_char <$> ds) ++ c :: rest); Some (if (c' =? 0x78) || (c' =? 0x58) then (16, p) else (8, (digit_char <$> ds) ++ c :: rest)))
      = Some (8, (digit_char <$> ds) ++ c :: rest)) as Eh.
    { intros p. destruct Hn as [|d ds Hd Hds]; cbn [fmap list_fmap app hd_error mbind option_bind]; [by rewrite Hx|]. by rewrite (proj2 (digit_not_x d Hd)). }
    destruct room; cbn [aton_parts app hd_error tail mbind option_bind]; change (isdigit 0x30) with true; change (0x30 =? 0x30) with true; cbn [negb];
      cbn [mbind option_bind] in Eh; rewrite Eh; cbn [mbind option_bind]; rewrite aton_dec_0 by done; done.
  - destruct room; cbn [aton_parts app hd_error tail mbind option_bind]; change (isdigit 0x30) with true; change (0x30 =? 0x30) with true; cbn [negb];
      change ((0x78 =? 0x78) || (0x78 =? 0x58)) with true; cbn [mbind option_bind]; rewrite aton_hex_0 by done; done.
Qed.

Lemma aton_parts_spec ns room c rest parts :
  ns <> [] -> Forall number_ok ns -> stop c = true -> c <> 0x2e ->
  let vs := (fun n => u32 (number_value n)) <$> ns in
  aton_parts room (dotted ns ++ c :: rest) parts =
    Some (if (length ns <=? S room)%nat then Some (parts ++ removelast vs, List.last vs 0, c) else None).
Proof.
  intros Hne Hok Hs Hd. revert room parts. induction Hok as [|n ns Hn Hok IH]; intros room parts; [done|]. destruct ns as [|m ns].
  - cbn [dotted]. rewrite aton_number by done. rewrite (proj2 (Z.eqb_neq _ _)) by done. cbn. by rewrite app_nil_r.
  - set (tl := m :: ns) in *. assert (dotted (n :: tl) = number_text n ++ 0x2e :: dotted tl) as -> by done. rewrite <- app_assoc. cbn [app].
    rewrite aton_number by done. change (0x2e =? 0x2e) with true. cbn match. destruct room as [|room]; [done|].
    rewrite IH by done. cbn [fmap list_fmap]. set (vs := (fun n => u32 (number_value n)) <$> tl).
    assert (vs <> []) as Hvs by done. cbn [length]. change (S (length tl) <=? S (S room))%nat with (length tl <=? S room)%nat.
    case_test; [|done]. do 2 f_equal. assert (removelast (u32 (number_value n) :: vs) = u32 (number_value n) :: removelast vs) as -> by done.
    rewrite <- app_assoc. done.
Qed.

Lemma lor_add lo hi n : 0 <= n -> 0 <= lo < 2 ^ n -> Z.lor lo (Z.shiftl hi n) = hi * 2 ^ n + lo.
Proof. intros Hn Hlo. rewrite Z.lor_comm. by apply lor_shiftl_low. Qed.

Lemma shift_byte p n : 0 <= p < 256 -> 0 <= n <= 24 -> u32 (Z.shiftl p n) = Z.shiftl p n.
Proof.
  intros Hp Hn. apply u32_id. unfold is_u32. rewrite Z.shiftl_mul_pow2 by lia.
  pose proof (Z.pow_le_mono_r 2 n 24 ltac:(lia) ltac:(lia)). pose proof (Z.pow_pos_nonneg 2 n ltac:(lia) ltac:(lia)). nia.
Qed.

Lemma aton_switch_spec vs v : Forall is_u32 (vs ++ [v]) -> (length vs <= 3)%nat -> htonl <$> aton_switch vs v = address vs v.
Proof.
  intros Hu Hl. apply Forall_app in Hu as [Hvs [Hv _]%Forall_cons]. unfold is_u32 in Hv.
  assert (forall p, is_u32 p -> (0xff <? p) = negb (p <? 256)) as Hff by (intros; destruct (Z.ltb_spec 0xff p), (Z.ltb_spec p 256); done || lia).
  destruct vs as [|p0 [|p1 [|p2 [|]]]]; [..|cbn in Hl; lia]; rewrite ?Forall_cons in Hvs; destruct_and?; unfold address, is_u32 in *;
    cbn [aton_switch forallb length andb value foldl]; rewrite ?Hff by done.
  - rewrite (proj2 (Z.ltb_lt v _)) by done. done.
  - change (256 ^ (4 - Z.of_nat 1)) with 0x1000000. destruct (Z.ltb_spec 0xffffff v), (Z.ltb_spec v 0x1000000); try lia; cbn [orb andb]; [by rewrite andb_false_r|].
    destruct (Z.ltb_spec p0 256); cbn [negb andb]; [|done]. cbn. do 2 f_equal. rewrite shift_byte, lor_add by lia. lia.
  - change (256 ^ (4 - Z.of_nat 2)) with 0x10000. destruct (Z.ltb_spec 0xffff v), (Z.ltb_spec v 0x10000); try lia; cbn [orb andb]; [by rewrite andb_false_r|].
    destruct (Z.ltb_spec p0 256), (Z.ltb_spec p1 256); cbn [negb andb orb]; try done. cbn [fmap option_fmap option_map]. do 2 f_equal.
    rewrite !shift_byte by lia. rewrite (lor_shiftl_low 24) by (rewrite ?Z.shiftl_mul_pow2 by lia; lia).
    replace (p0 * 2 ^ 24 + Z.shiftl p1 16) with (Z.shiftl (p0 * 256 + p1) 16) by (rewrite !Z.shiftl_mul_pow2 by lia; lia). rewrite lor_add by lia. lia.
  - change (256 ^ (4 - Z.of_nat 3)) with 0x100. destruct (Z.ltb_spec v 256); cbn [negb orb andb]; [|by rewrite !andb_false_r].
    destruct (Z.ltb_spec p0 256), (Z.ltb_spec p1 256), (Z.ltb_spec p2 256); cbn [negb andb orb]; try done. cbn [fmap option_fmap option_map]. do 2 f_equal.
    rewrite !shift_byte by lia. rewrite (lor_shiftl_low 24) by (rewrite ?Z.shiftl_mul_pow2 by lia; lia).
    replace (p0 * 2 ^ 24 + Z.shiftl p1 16) with (Z.shiftl (p0 * 256 + p1) 16) by (rewrite !Z.shiftl_mul_pow2 by lia; lia).
    rewrite (lor_shiftl_low 16) by (rewrite ?Z.shiftl_mul_pow2 by lia; lia).
    replace ((p0 * 256 + p1) * 2 ^ 16 + Z.shiftl p2 8) with (Z.shiftl ((p0 * 256 + p1) * 256 + p2) 8) by (rewrite !Z.shiftl_mul_pow2 by lia; lia).
    rewrite lor_add by lia. lia.
Qed.

Lemma aton_numbers ns c rest :
  ns <> [] -> Forall number_ok ns -> stop c = true -> c <> 0x2e ->
  let vs := (fun n => u32 (number_value n)) <$> ns in
  let a := if (length ns <=? 4)%nat && blank_end c then address (removelast vs) (List.last vs 0) else None in
  inet_aton (dotted ns ++ c :: rest) = Some a.
Proof.
  intros Hne Hok Hs Hd vs a. unfold inet_aton. rewrite aton_parts_spec by done. cbn [mbind option_bind]. fold vs. subst a. destruct (Nat.leb_spec (length ns) 4) as [Hl|Hl]; [|done].
  cbn [andb app]. unfold blank_end. rewrite <- negb_andb, <- negb_orb. destruct ((c =? 0) || _); cbn [negb]; [|done]. f_equal. apply aton_switch_spec.
  - assert (removelast vs ++ [List.last vs 0] = vs) as -> by (symmetry; apply app_removelast_last; unfold vs; destruct ns; done).
    apply Forall_fmap, Forall_true. intros n. apply u32_range.
  - assert (length (removelast vs ++ [List.last vs 0]) = length vs) as El
      by (f_equal; symmetry; apply app_removelast_last; unfold vs; destruct ns; done).
    rewrite length_app in El. unfold vs in *. rewrite length_fmap in El. cbn in El. lia.
Qed.

(** inet_aton reads the notations of the C language: from numbers in decimal, octal or
    hexadecimal with a dot between each and the next, up to a character that belongs to no
    number, it takes the address that the numbers stand for, one byte for each but the last and
    the rest of the four bytes for the last, if there are at most four, each fits and the text
    ends there or with white space; else it answers 0.  inet_addr answers the same address, or
    255.255.255.255. *)
Theorem aton_correct ns c rest :
  ns <> [] -> Forall number_ok ns -> stop c = true -> c <> 0x2e ->
  let vs := (fun n => u32 (number_value n)) <$> ns in
  let a := if (length ns <=? 4)%nat && blank_end c then address (removelast vs) (List.last vs 0) else None in
  inet_aton (dotted ns ++ c :: rest) = Some a /\ inet_addr (dotted ns ++ c :: rest) = Some (default INADDR_NONE a).
Proof. intros Hne Hok Hs Hd vs a. unfold inet_addr. by rewrite aton_numbers. Qed.

(** 10.0xAf.012 and a newline *)
Lemma aton_correct_witness :
  inet_aton [0x31; 0x30; 0x2e; 0x30; 0x78; 0x41; 0x66; 0x2e; 0x30; 0x31; 0x32; 0x0a; 0] = Some (Some [10; 0xaf; 0; 10]).
Proof.
  refine (proj1 (aton_correct [Dec [1; 0]; Hex [(true, 10); (false, 15)]; Oct [1; 2]] 0x0a [0] _ _ _ _)); try done.
  apply Forall_cons; split; [|apply Forall_cons; split; [|apply Forall_cons; split; [|apply Forall_nil_2]]].
  - split; [repeat (apply Forall_cons; split; [lia|]); apply Forall_nil_2|]. exists 1, [0]. split; [reflexivity|lia].
  - repeat (apply Forall_cons; split; [cbn; lia|]). apply Forall_nil_2.
  - repeat (apply Forall_cons; split; [lia|]). apply Forall_nil_2.
Defined.

(** ** Round trips *)

(** The number that %u prints for a byte. *)
Definition byte_number (n : Z) : number :=
  if n =? 0 then Oct [] else if n <? 10 then Dec [n] else if n <? 100 then Dec [n / 10; n mod 10] else Dec [n / 100; n / 10 mod 10; n mod 10].

Lemma byte_number_text n : 0 <= n < 256 -> fmt_u n = number_text (byte_number n) /\ number_value (byte_number n) = n.
Proof. digits_below 256%nat (fun n => bool_decide (fmt_u n = number_text (byte_number n) /\ number_value (byte_number n) = n)). Qed.
Lemma byte_number_ok n : 0 <= n < 256 -> number_ok (byte_number n).
Proof.
  intros Hn. unfold byte_number. repeat case_test; zbool; cbn;
    try (split; [|eexists _, _; split; [reflexivity|]]); repeat (apply Forall_cons; split); try apply Forall_nil_2; Z.to_euclidean_division_equations; lia.
Qed.

(** inet_ntoa prints every address whole and inet_aton reads it back. *)
Lemma ntoa_aton a : length a = 4%nat -> Forall is_u8 a -> exists t, inet_ntoa a = Some t /\ inet_aton t = Some (Some a).
Proof.
  intros Hl Hu. destruct a as [|a [|b [|c [|d [|]]]]]; try done. rewrite !Forall_cons in Hu. destruct Hu as (Ha & Hb & Hc & Hd & _). unfold is_u8 in *.
  cbn [inet_ntoa]. change 0xff with (Z.ones 8). rewrite !Z.land_ones, !Z.mod_small by lia. fold (quad a b c d).
  eexists. split; [done|]. rewrite take_ge by (pose proof (quad_length a b c d Ha Hb Hc Hd); lia).
  assert (quad a b c d = dotted (byte_number <$> [a; b; c; d])) as ->.
  { unfold quad. cbn [fmap list_fmap dotted]. by rewrite !(fun n H => proj1 (byte_number_text n H)) by done. }
  rewrite aton_numbers; [|done| |done|done].
  - cbn [fmap list_fmap length removelast List.last]. rewrite !(fun n H => proj2 (byte_number_text n H)) by done. rewrite !u32_id by (unfold is_u32; lia).
    change (blank_end 0) with true. cbn [andb Nat.leb]. unfold address. cbn [forallb length]. change (256 ^ (4 - Z.of_nat 3)) with 256.
    rewrite !(proj2 (Z.ltb_lt _ 256)) by lia. cbn [andb value foldl]. do 2 f_equal. unfold htonl, u8. rewrite !Z.shiftr_div_pow2 by lia.
    repeat f_equal; Z.to_euclidean_division_equations; lia.
  - cbn [fmap list_fmap]. repeat (apply Forall_cons; split; [by apply byte_number_ok|]). apply Forall_nil_2.
Qed.

(** One byte of an Ethernet address. *)
Lemma ether_byte n : 0 <= n < 256 ->
  fmt_02x n = [digit_char (n / 16); digit_char (n mod 16)] /\ xdigit (digit_char (n / 16)) = n / 16 /\ xdigit (digit_char (n mod 16)) = n mod 16.
Proof.
  digits_below 256%nat (fun n => bool_decide (fmt_02x n = [digit_char (n / 16); digit_char (n mod 16)] /\
    xdigit (digit_char (n / 16)) = n / 16 /\ xdigit (digit_char (n mod 16)) = n mod 16)).
Qed.

Lemma ether_step n room asc addr :
  0 <= n < 256 ->
  ether_loop (S room) (fmt_02x n ++ asc) addr =
    match room with
    | O => ether_loop room asc (addr ++ [n])
    | S _ => c ← hd_error asc; if negb (c =? 0x3a) then Some None else ether_loop room (tail asc) (addr ++ [n])
    end.
Proof.
  intros Hn. destruct (ether_byte n Hn) as (-> & E1 & E2). cbn [ether_loop app hd_error tail mbind option_bind]. rewrite E1, E2.
  rewrite !(proj2 (Z.ltb_ge _ 0)) by (Z.to_euclidean_division_equations; lia).
  assert (u8 (Z.shiftl (n / 16) 4 + n mod 16) = n) as ->; [|done].
  rewrite Z.shiftl_mul_pow2 by lia. unfold u8. Z.to_euclidean_division_equations; lia.
Qed.

(** ether_ntoa prints every address whole and ether_aton reads it back. *)
Lemma ether_roundtrip a : length a = 6%nat -> Forall is_u8 a -> exists t, ether_ntoa_r a = Some t /\ ether_aton_r t = Some (Some a).
Proof.
  intros Hl Hu. destruct a as [|a [|b [|c [|d [|e [|f [|]]]]]]]; try done. rewrite !Forall_cons in Hu. destruct Hu as (Ha & Hb & Hc & Hd & He & Hf & _).
  cbn [ether_ntoa_r]. eexists. split; [done|]. rewrite take_ge.
  - unfold ether_aton_r, ETHER_ADDR_LEN. rewrite <- !app_assoc. do 6 (rewrite ether_step by done; cbn [app hd_error tail mbind option_bind Z.eqb Pos.eqb negb]).
    done.
  - rewrite !length_app, !(fun n H => proj1 (ether_byte n H)) by done. cbn. lia.
Qed.
