(* ===== verification/Threads.v ===== *)
(** * Threads (libc/bionic/pthread.c): attributes, creation, exit, join and detach

    A descriptor is a pthread_internal_t at an address; the list of descriptors is kept
    in memory as in the code, each with a pointer to the next and a pointer to the place
    that points to it.  [None] is an access through a null pointer or to memory that was
    freed.  Code that runs under gThreadListLock is one function of the state; pthread_join
    is split where it waits and pthread_exit where it takes the lock.  calloc, mkstack's
    mmap and mprotect, and clone are arguments. *)
From S2P Require Import Prelude Buffer.

Definition PAGE_SIZE : Z := 4096.
Definition PTHREAD_STACK_MIN : Z := 2 * PAGE_SIZE.
Definition PTHREAD_ATTR_FLAG_DETACHED : Z := 0x00000001.
Definition PTHREAD_ATTR_FLAG_USER_STACK : Z := 0x00000002.
Definition PTHREAD_CREATE_DETACHED : Z := 1.
Definition PTHREAD_CREATE_JOINABLE : Z := 0.
Definition PTHREAD_SCOPE_SYSTEM : Z := 0.
Definition PTHREAD_SCOPE_PROCESS : Z := 1.
Definition DEFAULT_STACKSIZE : Z := 1024 * 1024.
Definition SCHED_NORMAL : Z := 0.
Definition ENOTSUP : Z := 95.

(** ** Attributes *)
Record pthread_attr_t : Type := Attr {
  a_flags : Z; a_stack_base : Z; a_stack_size : Z; a_guard_size : Z; a_sched_policy : Z; a_sched_priority : Z }.

Definition gDefaultPthreadAttr : pthread_attr_t := Attr 0 0 DEFAULT_STACKSIZE PAGE_SIZE SCHED_NORMAL 0.

Definition set_flags (f : Z) (a : pthread_attr_t) : pthread_attr_t :=
  Attr f (a_stack_base a) (a_stack_size a) (a_guard_size a) (a_sched_policy a) (a_sched_priority a).
Definition set_base (b : Z) (a : pthread_attr_t) : pthread_attr_t :=
  Attr (a_flags a) b (a_stack_size a) (a_guard_size a) (a_sched_policy a) (a_sched_priority a).

(** The setters answer their result and the attributes, the getters what they store. *)
Definition pthread_attr_init : pthread_attr_t := gDefaultPthreadAttr.
Definition pthread_attr_destroy : pthread_attr_t := Attr 0x42424242 0x42424242 0x42424242 0x42424242 0x42424242 0x42424242.
Definition pthread_attr_setdetachstate (attr : pthread_attr_t) (state : Z) : Z * pthread_attr_t :=
  if state =? PTHREAD_CREATE_DETACHED then (0, set_flags (Z.lor (a_flags attr) PTHREAD_ATTR_FLAG_DETACHED) attr)
  else if state =? PTHREAD_CREATE_JOINABLE then (0, set_flags (Z.ldiff (a_flags attr) PTHREAD_ATTR_FLAG_DETACHED) attr)
  else (EINVAL, attr).
Definition detached (flags : Z) : bool := negb (Z.land flags PTHREAD_ATTR_FLAG_DETACHED =? 0).
Definition pthread_attr_getdetachstate (attr : pthread_attr_t) : Z :=
  if detached (a_flags attr) then PTHREAD_CREATE_DETACHED else PTHREAD_CREATE_JOINABLE.
Definition pthread_attr_setschedpolicy (attr : pthread_attr_t) (policy : Z) : Z * pthread_attr_t :=
  (0, Attr (a_flags attr) (a_stack_base attr) (a_stack_size attr) (a_guard_size attr) policy (a_sched_priority attr)).
Definition pthread_attr_getschedpolicy (attr : pthread_attr_t) : Z := a_sched_policy attr.
Definition pthread_attr_setschedparam (attr : pthread_attr_t) (sched_priority : Z) : Z * pthread_attr_t :=
  (0, Attr (a_flags attr) (a_stack_base attr) (a_stack_size attr) (a_guard_size attr) (a_sched_policy attr) sched_priority).
Definition pthread_attr_getschedparam (attr : pthread_attr_t) : Z := a_sched_priority attr.

Definition bad_stack_size (stack_size : Z) : bool := negb (Z.land stack_size (PAGE_SIZE - 1) =? 0) || (stack_size <? PTHREAD_STACK_MIN).
Definition pthread_attr_setstacksize (attr : pthread_attr_t) (stack_size : Z) : Z * pthread_attr_t :=
  if bad_stack_size stack_size then (EINVAL, attr)
  else (0, Attr (a_flags attr) (a_stack_base attr) stack_size (a_guard_size attr) (a_sched_policy attr) (a_sched_priority attr)).
Definition pthread_attr_getstacksize (attr : pthread_attr_t) : Z := a_stack_size attr.
Definition pthread_attr_setstackaddr (attr : pthread_attr_t) (stack_addr : Z) : Z * pthread_attr_t := (ENOSYS, attr).
Definition pthread_attr_getstackaddr (attr : pthread_attr_t) : Z := u32 (a_stack_base attr + a_stack_size attr).
Definition pthread_attr_setstack (attr : pthread_attr_t) (stack_base stack_size : Z) : Z * pthread_attr_t :=
  if bad_stack_size stack_size then (EINVAL, attr)
  else if negb (Z.land (u32 stack_base) (PAGE_SIZE - 1) =? 0) then (EINVAL, attr)
  else (0, Attr (a_flags attr) stack_base stack_size (a_guard_size attr) (a_sched_policy attr) (a_sched_priority attr)).
Definition pthread_attr_getstack (attr : pthread_attr_t) : Z * Z := (a_stack_base attr, a_stack_size attr).
Definition pthread_attr_setguardsize (attr : pthread_attr_t) (guard_size : Z) : Z * pthread_attr_t :=
  if negb (Z.land guard_size (PAGE_SIZE - 1) =? 0) || (guard_size <? PAGE_SIZE) then (EINVAL, attr)
  else (0, Attr (a_flags attr) (a_stack_base attr) (a_stack_size attr) guard_size (a_sched_policy attr) (a_sched_priority attr)).
Definition pthread_attr_getguardsize (attr : pthread_attr_t) : Z := a_guard_size attr.
Definition pthread_attr_setscope (attr : pthread_attr_t) (scope : Z) : Z :=
  if scope =? PTHREAD_SCOPE_SYSTEM then 0 else if scope =? PTHREAD_SCOPE_PROCESS then ENOTSUP else EINVAL.
Definition pthread_attr_getscope (attr : pthread_attr_t) : Z := PTHREAD_SCOPE_SYSTEM.

(** ** Descriptors and their list *)

(** What pref points to: gThreadList, or the field next of a descriptor. *)
Inductive ref : Type := RList | RNext (t : Z).
#[global] Instance ref_eq_dec : EqDecision ref.
Proof. solve_decision. Defined.

(** struct pthread_internal_t, without the condition variable, the cleanup handlers and the TLS pointer. *)
Record pthread_internal_t : Type := Desc {
  t_next : option Z; t_pref : ref; t_attr : pthread_attr_t; t_kernel_id : Z; t_join_count : Z; t_return_value : Z; t_intern : Z }.

Definition set_tnext (n : option Z) (d : pthread_internal_t) : pthread_internal_t :=
  Desc n (t_pref d) (t_attr d) (t_kernel_id d) (t_join_count d) (t_return_value d) (t_intern d).
Definition set_tpref (p : ref) (d : pthread_internal_t) : pthread_internal_t :=
  Desc (t_next d) p (t_attr d) (t_kernel_id d) (t_join_count d) (t_return_value d) (t_intern d).
Definition set_tattr (a : pthread_attr_t) (d : pthread_internal_t) : pthread_internal_t :=
  Desc (t_next d) (t_pref d) a (t_kernel_id d) (t_join_count d) (t_return_value d) (t_intern d).
Definition set_tid (k : Z) (d : pthread_internal_t) : pthread_internal_t :=
  Desc (t_next d) (t_pref d) (t_attr d) k (t_join_count d) (t_return_value d) (t_intern d).
Definition set_count (c : Z) (d : pthread_internal_t) : pthread_internal_t :=
  Desc (t_next d) (t_pref d) (t_attr d) (t_kernel_id d) c (t_return_value d) (t_intern d).
Definition set_value (v : Z) (d : pthread_internal_t) : pthread_internal_t :=
  Desc (t_next d) (t_pref d) (t_attr d) (t_kernel_id d) (t_join_count d) v (t_intern d).

(** gThreadList and the descriptors that are allocated. *)
Record tlist : Type := TList { gThreadList : option Z; descs : gmap Z pthread_internal_t }.

Definition with_desc (s : tlist) (t : Z) (f : pthread_internal_t -> pthread_internal_t) : option tlist :=
  d ← descs s !! t; Some (TList (gThreadList s) (<[t := f d]> (descs s))).

(** calloc answers memory filled with zeros. *)
Definition _pthread_internal_alloc (calloc : option Z) (s : tlist) : tlist * option Z :=
  match calloc with
  | Some t => (TList (gThreadList s) (<[t := Desc None RList (Attr 0 0 0 0 0 0) 0 0 0 1]> (descs s)), Some t)
  | None => (s, None)
  end.
Definition _pthread_internal_free (s : tlist) (t : Z) : option tlist :=
  d ← descs s !! t;
  Some (if negb (t_intern d =? 0) then TList (gThreadList s) (delete t (descs s)) else s).

(** *r = o *)
Definition write_ref (s : tlist) (r : ref) (o : option Z) : option tlist :=
  match r with
  | RList => Some (TList o (descs s))
  | RNext p => with_desc s p (set_tnext o)
  end.
Definition read_ref (s : tlist) (r : ref) : option (option Z) :=
  match r with
  | RList => Some (gThreadList s)
  | RNext p => t_next <$> descs s !! p
  end.

Definition _pthread_internal_remove_locked (s : tlist) (t : Z) : option tlist :=
  d ← descs s !! t;
  n ← t_next d;
  s ← with_desc s n (set_tpref (t_pref d));
  d ← descs s !! t;
  write_ref s (t_pref d) (t_next d).

Definition _pthread_internal_add (s : tlist) (t : Z) : option tlist :=
  s ← with_desc s t (set_tpref RList);
  n ← read_ref s RList;
  s ← with_desc s t (set_tnext n);
  s ← match n with
      | Some n => with_desc s n (set_tpref (RNext t))
      | None => Some s
      end;
  write_ref s RList (Some t).

(** ** Creation *)
Definition _init_thread (s : tlist) (t kernel_id : Z) (attr : option pthread_attr_t) (stack_base : Z) : option tlist :=
  s ← with_desc s t (fun d =>
        set_count 0 (set_tid kernel_id (set_tattr (set_base stack_base (default gDefaultPthreadAttr attr)) d)));
  _pthread_internal_add s t.

(** mmap answers an address or MAP_FAILED; mprotect 0 or -1. *)
Definition mkstack (mmap : Z -> option Z) (mprotect : Z -> Z -> Z) (size guard_size : Z) : option Z :=
  stack ← mmap size;
  if negb (mprotect stack guard_size =? 0) then None else Some stack.

Definition page_align (size : Z) : Z := Z.land (u32 (size + (PAGE_SIZE - 1))) (u32 (Z.lnot (PAGE_SIZE - 1))).

(** [clone] answers the thread id, or -1 and errno. *)
Definition pthread_create (calloc : option Z) (mmap : Z -> option Z) (mprotect : Z -> Z -> Z) (clone errno : Z)
    (attr : option pthread_attr_t) (s : tlist) : option (tlist * res Z) :=
  match _pthread_internal_alloc calloc s with
  | (s, None) => Some (s, Fail ENOMEM)
  | (s, Some t) =>
      let attr := default gDefaultPthreadAttr attr in
      let stackSize := page_align (a_stack_size attr) in
      let made := if a_stack_base attr =? 0 then mkstack mmap mprotect stackSize (a_guard_size attr) else Some (a_stack_base attr) in
      match made with
      | None => s ← _pthread_internal_free s t; Some (s, Fail ENOMEM)
      | Some stack =>
          let madestack := a_stack_base attr =? 0 in
          let tid := clone in
          if tid <? 0 then s ← _pthread_internal_free s t; Some (s, Fail errno)
          else
            s ← _init_thread s t tid (Some attr) stack;
            s ← (if negb madestack
                 then with_desc s t (fun d => set_tattr (set_flags (Z.lor (a_flags (t_attr d)) PTHREAD_ATTR_FLAG_USER_STACK) (t_attr d)) d)
                 else Some s);
            Some (s, Good t)
      end
  end.

(** ** Exit *)

(** Which way pthread_exit goes after the handlers and the destructors: it looks at the flags
    without the lock. *)
Definition exit_detached (s : tlist) (t : Z) : option bool := d ← descs s !! t; Some (detached (a_flags (t_attr d))).
Definition _pthread_internal_remove (s : tlist) (t : Z) : option tlist := _pthread_internal_remove_locked s t.
(** A joinable thread, under the lock; the flag is for pthread_cond_broadcast. *)
Definition exit_joinable (s : tlist) (t retval : Z) : option (tlist * bool) :=
  s ← with_desc s t (set_value retval);
  d ← descs s !! t;
  if 0 <? t_join_count d then Some (s, true)
  else s ← with_desc s t (set_count (-1)); Some (s, false).

(** ** Join and detach *)

(** for (thread = gThreadList; thread != NULL; thread = thread->next) *)
Fixpoint find_thread (fuel : nat) (s : tlist) (thread : option Z) (thid : Z) : option bool :=
  match thread with
  | None => Some false
  | Some t =>
      if t =? thid then Some true
      else match fuel with
           | O => None
           | S fuel => d ← descs s !! t; find_thread fuel s (t_next d) thid
           end
  end.
Definition is_listed (s : tlist) (thid : Z) : option bool := find_thread (size (descs s)) s (gThreadList s) thid.

Inductive join_step : Type :=
| JWait                       (** pthread_cond_wait *)
| JReturn (r : res Z).        (** an error number, or 0 and the value *)

(** *ret_val = thread->return_value, and the end of the descriptor *)
Definition join_end (s : tlist) (t count : Z) : option (tlist * Z) :=
  d ← descs s !! t;
  if count <=? 0 then
    s ← _pthread_internal_remove_locked s t;
    s ← _pthread_internal_free s t;
    Some (s, t_return_value d)
  else Some (s, t_return_value d).

(** pthread_join up to the wait, or to its end *)
Definition join_begin (s : tlist) (thid : Z) : option (tlist * join_step) :=
  found ← is_listed s thid;
  if negb found then Some (s, JReturn (Fail ESRCH))
  else
    d ← descs s !! thid;
    if detached (a_flags (t_attr d)) then Some (s, JReturn (Fail EINVAL))
    else
      let count := t_join_count d in
      if 0 <=? count then s ← with_desc s thid (set_count (count + 1)); Some (s, JWait)
      else '(s, v) ← join_end s thid count; Some (s, JReturn (Good v)).
(** and after the wait *)
Definition join_rest (s : tlist) (thid : Z) : option (tlist * Z) :=
  d ← descs s !! thid;
  let count := t_join_count d - 1 in
  s ← with_desc s thid (set_count count);
  join_end s thid count.

(** The flags change only under the lock, so that the exchange succeeds at once. *)
Definition pthread_detach (s : tlist) (thid : Z) : option (tlist * Z) :=
  found ← is_listed s thid;
  if negb found then Some (s, ESRCH)
  else
    d ← descs s !! thid;
    let flags := a_flags (t_attr d) in
    if detached flags then Some (s, EINVAL)
    else s ← with_desc s thid (fun d => set_tattr (set_flags (Z.lor flags PTHREAD_ATTR_FLAG_DETACHED) (t_attr d)) d); Some (s, 0).

Definition pthread_equal (one two : Z) : Z := if one =? two then 1 else 0.
Definition pthread_getattr_np (s : tlist) (thid : Z) : option pthread_attr_t := t_attr <$> descs s !! thid.

(** ** Cleanup handlers

    The __pthread_cleanup_t of the callers are memory of their own: previous handler, routine and
    argument.  A call of a routine is recorded. *)
Record cleanup_t : Type := Cleanup { c_prev : option Z; c_routine : Z; c_arg : Z }.
Record cleanups : Type := Cleanups { cleanup_stack : option Z; frames : gmap Z cleanup_t }.

Definition __pthread_cleanup_push (s : cleanups) (c routine arg : Z) : cleanups :=
  Cleanups (Some c) (<[c := Cleanup (cleanup_stack s) routine arg]> (frames s)).
Definition __pthread_cleanup_pop (s : cleanups) (c execute : Z) : option (cleanups * list (Z * Z)) :=
  f ← frames s !! c;
  Some (Cleanups (c_prev f) (frames s), if negb (execute =? 0) then [(c_routine f, c_arg f)] else []).
(** while (thread->cleanup_stack) of pthread_exit *)
Fixpoint exit_cleanups (fuel : nat) (s : cleanups) : option (list (Z * Z)) :=
  match cleanup_stack s with
  | None => Some []
  | Some c =>
      match fuel with
      | O => None
      | S fuel =>
          f ← frames s !! c;
          calls ← exit_cleanups fuel (Cleanups (c_prev f) (frames s));
          Some ((c_routine f, c_arg f) :: calls)
      end
  end.

(** ** The list in memory

    [seg m r o l r' o']: the pointer at [r] has the value [o], which leads through the descriptors
    [l], each of which knows the place that points to it, to the value [o'] at [r']. *)
Fixpoint seg (m : gmap Z pthread_internal_t) (r : ref) (o : option Z) (l : list Z) (r' : ref) (o' : option Z) : Prop :=
  match l with
  | [] => r = r' /\ o = o'
  | t :: l => o = Some t /\ exists d, m !! t = Some d /\ t_pref d = r /\ seg m (RNext t) (t_next d) l r' o'
  end.
Definition listed (s : tlist) (l : list Z) : Prop := NoDup l /\ exists r, seg (descs s) RList (gThreadList s) l r None.

Lemma tseg_app m r o l1 l2 r' o' :
  seg m r o (l1 ++ l2) r' o' <-> exists r1 o1, seg m r o l1 r1 o1 /\ seg m r1 o1 l2 r' o'.
Proof.
  revert r o. induction l1 as [|t l1 IH]; intros r o; cbn.
  - split; [intros H; exists r, o; done|intros (r1 & o1 & [-> ->] & H); done].
  - split.
    + intros [-> (d & Hd & Hp & H)]. apply IH in H as (r1 & o1 & H1 & H2). exists r1, o1. split; [split; [done|]; exists d; done|done].
    + intros (r1 & o1 & [-> (d & Hd & Hp & H1)] & H2). split; [done|]. exists d. split; [done|]. split; [done|]. apply IH. by exists r1, o1.
Qed.

(** Only the fields of the members that are links matter. *)
Definition same_links (m m' : gmap Z pthread_internal_t) (l : list Z) : Prop :=
  forall t d, t ∈ l -> m !! t = Some d -> exists d', m' !! t = Some d' /\ t_next d' = t_next d /\ t_pref d' = t_pref d.
Lemma seg_same m m' r o l r' o' : same_links m m' l -> seg m r o l r' o' -> seg m' r o l r' o'.
Proof.
  revert r o. induction l as [|t l IH]; intros r o Hs; cbn; [done|]. intros [-> (d & Hd & Hp & H)]. split; [done|].
  destruct (Hs t d) as (d' & Hd' & En & Ep); [by left|done|]. exists d'. rewrite En, Ep. split; [done|]. split; [done|].
  apply IH; [|done]. intros u e Hu. apply Hs. by right.
Qed.
Lemma same_links_other m t d l : t ∉ l -> same_links m (<[t := d]> m) l.
Proof. intros Hn u e Hu He. exists e. rewrite lookup_insert_ne by (intros ->; done). done. Qed.
Lemma same_links_field m t d d' l : m !! t = Some d -> t_next d' = t_next d -> t_pref d' = t_pref d -> same_links m (<[t := d']> m) l.
Proof.
  intros Hd En Ep u e Hu He. destruct (decide (u = t)) as [->|].
  - exists d'. rewrite lookup_insert_eq. split; [done|]. rewrite Hd in He. injection He as <-. done.
  - exists e. rewrite lookup_insert_ne by done. done.
Qed.
Lemma same_links_delete m t l : t ∉ l -> same_links m (delete t m) l.
Proof. intros Hn u e Hu He. exists e. rewrite lookup_delete_ne by (intros ->; done). done. Qed.

Lemma listed_same s s' l : gThreadList s' = gThreadList s -> same_links (descs s) (descs s') l -> listed s l -> listed s' l.
Proof. intros Eg Hs [Hn [r H]]. split; [done|]. exists r. rewrite Eg. by eapply seg_same. Qed.

Lemma seg_member m r o l r' o' t : seg m r o l r' o' -> t ∈ l -> is_Some (m !! t).
Proof.
  intros H Ht. apply list_elem_of_split in Ht as (l1 & l2 & ->). apply tseg_app in H as (r1 & o1 & _ & H). cbn in H.
  destruct H as [_ (d & Hd & _)]. by exists d.
Qed.

(** The pointer at the end of a segment is redirected. *)
Lemma seg_redirect s l r1 o1 o :
  NoDup l -> seg (descs s) RList (gThreadList s) l r1 o1 ->
  exists s', write_ref s r1 o = Some s' /\ seg (descs s') RList (gThreadList s') l r1 o /\
    forall u, u ∉ l -> descs s' !! u = descs s !! u.
Proof.
  intros Hn H. destruct l as [|p l _] using rev_ind.
  - destruct H as [<- <-]. eexists. split; [done|]. split; [by split|done].
  - apply tseg_app in H as (r0 & o0 & H0 & -> & d & Hd & Hp & <- & <-). apply NoDup_app in Hn as (Hn & Hpl & _).
    assert (p ∉ l) as Hnp by (intros Hin; apply (Hpl p Hin); by left).
    exists (TList (gThreadList s) (<[p := set_tnext o d]> (descs s))). unfold write_ref, with_desc. rewrite Hd. split; [done|]. split.
    + apply tseg_app. exists r0, (Some p). split; [eapply seg_same; [by apply same_links_other|done]|]. cbn. split; [done|].
      exists (set_tnext o d). rewrite lookup_insert_eq. done.
    + intros u Hu. cbn. rewrite lookup_insert_ne; [done|]. intros ->. apply Hu, elem_of_app. right. by left.
Qed.

(** What the descriptors hold besides their links. *)
Definition erase (d : pthread_internal_t) : pthread_internal_t := set_tnext None (set_tpref RList d).
Definition cores (s : tlist) : gmap Z pthread_internal_t := erase <$> descs s.

Lemma cores_lookup s t d : descs s !! t = Some d -> cores s !! t = Some (erase d).
Proof. intros H. unfold cores. by rewrite lookup_fmap, H. Qed.
Lemma cores_inv s t d : cores s !! t = Some d -> exists d', descs s !! t = Some d' /\ d = erase d'.
Proof. unfold cores. rewrite lookup_fmap. intros H. apply fmap_Some in H as (d' & H & ->). by exists d'. Qed.

(** Links change nothing else; other fields change no links. *)
Lemma with_links s t f d :
  descs s !! t = Some d -> (forall d, erase (f d) = erase d) ->
  with_desc s t f = Some (TList (gThreadList s) (<[t := f d]> (descs s))) /\ cores (TList (gThreadList s) (<[t := f d]> (descs s))) = cores s.
Proof.
  intros Hd Hf. unfold with_desc. rewrite Hd. split; [done|]. unfold cores. cbn. rewrite fmap_insert, Hf. apply insert_id. by apply cores_lookup.
Qed.
Lemma with_fields s t f d :
  cores s !! t = Some d -> (forall d, erase (f d) = f (erase d) /\ t_next (f d) = t_next d /\ t_pref (f d) = t_pref d) ->
  exists s', with_desc s t f = Some s' /\ (forall l, listed s l -> listed s' l) /\ cores s' = <[t := f d]> (cores s).
Proof.
  intros (d' & Hd & ->)%cores_inv Hf. unfold with_desc. rewrite Hd. eexists. split; [done|]. split.
  - intros l Hl. eapply listed_same; [| |exact Hl]; [done|]. by apply (same_links_field _ _ d'); [|apply Hf|apply Hf].
  - unfold cores. cbn. rewrite fmap_insert. f_equal. apply Hf.
Qed.
Lemma write_ref_cores s r o s' : write_ref s r o = Some s' -> cores s' = cores s.
Proof.
  destruct r as [|p]; cbn; [intros [= <-]; done|]. destruct (descs s !! p) as [d|] eqn:Hd; [|unfold with_desc; by rewrite Hd].
  destruct (with_links s p (set_tnext o) d Hd (fun _ => eq_refl)) as [-> H]. by intros [= <-].
Qed.

Lemma add_listed s t l :
  listed s l -> t ∉ l -> is_Some (cores s !! t) ->
  exists s', _pthread_internal_add s t = Some s' /\ listed s' (t :: l) /\ cores s' = cores s.
Proof.
  intros [Hn [r H]] Ht [d0 (d & Hd & _)%cores_inv]. unfold _pthread_internal_add.
  destruct (with_links s t (set_tpref RList) d Hd (fun _ => eq_refl)) as [-> C1]. cbn [mbind option_bind descs gThreadList read_ref].
  set (s1 := TList _ _) in *. assert (descs s1 !! t = Some (set_tpref RList d)) as Hd1 by apply lookup_insert_eq.
  destruct (with_links s1 t (set_tnext (gThreadList s)) _ Hd1 (fun _ => eq_refl)) as [-> C2]. cbn [mbind option_bind].
  set (s2 := TList (gThreadList s1) (<[t := set_tnext _ _]> (descs s1))) in *. assert (gThreadList s2 = gThreadList s) as Eg by done.
  assert (forall u, u <> t -> descs s2 !! u = descs s !! u) as Eu by (intros u Hu; unfold s2, s1; cbn; by rewrite !lookup_insert_ne).
  assert (descs s2 !! t = Some (set_tnext (gThreadList s) (set_tpref RList d))) as Ed by apply lookup_insert_eq.
  pose proof (eq_trans C2 C1) as C. clear C1 C2 Hd1. clearbody s2. clear s1.
  destruct l as [|n l].
  - destruct H as [<- Hg]. rewrite Hg in *. cbn [mbind option_bind write_ref]. eexists. split; [done|]. split; [|exact C].
    split; [apply NoDup_singleton|]. exists (RNext t). cbn. split; [done|]. eexists. split; [exact Ed|]. done.
  - destruct H as [Hg (e & He & Hp & H)]. assert (n <> t) as Hnt by (intros ->; apply Ht; by left). rewrite <- Eu in He by done. rewrite Hg in *.
    destruct (with_links s2 n (set_tpref (RNext t)) e He (fun _ => eq_refl)) as [-> C3]. cbn [mbind option_bind write_ref descs gThreadList].
    eexists. split; [done|]. split; [|exact (eq_trans C3 C)].
    split; [by apply NoDup_cons|]. exists r. cbn [seg gThreadList descs]. split; [done|]. eexists. rewrite lookup_insert_ne by done. split; [exact Ed|].
    split; [done|]. split; [done|]. exists (set_tpref (RNext t) e). rewrite lookup_insert_eq. split; [done|]. split; [done|]. cbn [t_next set_tpref].
    apply NoDup_cons in Hn as [Hn _]. eapply seg_same; [|exact H]. intros u x Hu Hx. exists x.
    rewrite lookup_insert_ne by (intros <-; done). rewrite Eu by (intros ->; apply Ht; by right). done.
Qed.

(** A member that is not the last is taken out. *)
Lemma remove_listed s t n l1 l2 :
  listed s (l1 ++ t :: n :: l2) ->
  exists s', _pthread_internal_remove_locked s t = Some s' /\ listed s' (l1 ++ n :: l2) /\ cores s' = cores s.
Proof.
  intros [Hn [r H]]. apply tseg_app in H as (r1 & o1 & H1 & -> & d & Hd & Ep & En & e & He & Ep' & H2). symmetry in En.
  apply NoDup_app in Hn as (N1 & N12 & [Nt N2]%NoDup_cons). assert (n <> t) as Hnt by (intros ->; apply Nt; by left).
  assert (t ∉ l1) as Ht1 by (intros Hin; apply (N12 _ Hin); by left).
  assert (n ∉ l1) as Hn1 by (intros Hin; apply (N12 _ Hin); right; by left).
  unfold _pthread_internal_remove_locked. rewrite Hd. cbn [mbind option_bind]. rewrite <- En. cbn [mbind option_bind].
  destruct (with_links s n (set_tpref (t_pref d)) e He (fun _ => eq_refl)) as [-> C1]. cbn [mbind option_bind].
  set (s1 := TList _ _) in *. assert (descs s1 !! t = Some d) as -> by (unfold s1; cbn; by rewrite lookup_insert_ne). cbn [mbind option_bind].
  rewrite Ep, <- En. destruct (seg_redirect s1 l1 r1 (Some t) (Some n) N1) as (s' & E & H1' & Hu).
  { eapply seg_same; [by apply same_links_other|exact H1]. }
  rewrite E. exists s'. split; [done|]. split; [|exact (eq_trans (write_ref_cores _ _ _ _ E) C1)].
  split.
  - apply NoDup_app. split; [done|]. split; [|done]. intros x Hx Hin. apply (N12 x Hx). by right.
  - exists r. apply tseg_app. exists r1, (Some n). split; [done|]. cbn. split; [done|]. exists (set_tpref (t_pref d) e).
    split; [rewrite Hu by done; apply lookup_insert_eq|]. split; [done|]. cbn [t_next set_tpref]. eapply seg_same; [|exact H2].
    intros u x Hx Hlu. exists x. rewrite Hu by (intros Hin; apply (N12 u Hin); right; by right).
    split; [|done]. unfold s1. cbn. rewrite lookup_insert_ne; [done|]. intros <-. apply NoDup_cons in N2 as [Hnn _]. done.
Qed.

(** Looking for a descriptor. *)
Lemma find_listed s thid fuel r o l r' :
  seg (descs s) r o l r' None -> (length l <= fuel)%nat -> find_thread fuel s o thid = Some (bool_decide (thid ∈ l)).
Proof.
  revert fuel r o. induction l as [|t l IH]; intros fuel r o H Hf; cbn in H.
  - destruct H as [_ ->]. destruct fuel; cbn; by rewrite bool_decide_eq_false_2 by (intros Hx; inversion Hx).
  - destruct H as [-> (d & Hd & _ & H)]. cbn [length] in Hf. destruct fuel as [|fuel]; [lia|]. cbn [find_thread].
    destruct (Z.eqb_spec t thid) as [->|Hne]; [by rewrite bool_decide_eq_true_2 by (by left)|]. rewrite Hd. cbn [mbind option_bind].
    rewrite (IH fuel _ _ H) by lia. f_equal. apply bool_decide_ext. rewrite elem_of_cons. naive_solver.
Qed.

Lemma is_listed_spec s thid l : listed s l -> is_listed s thid = Some (bool_decide (thid ∈ l)).
Proof.
  intros [Hn [r H]]. apply (find_listed _ _ _ _ _ _ _ H). apply nodup_dom_length; [done|]. intros x Hx. by eapply seg_member.
Qed.

Lemma free_listed s t d l :
  listed s l -> t ∉ l -> cores s !! t = Some d -> t_intern d <> 0 ->
  exists s', _pthread_internal_free s t = Some s' /\ listed s' l /\ cores s' = delete t (cores s).
Proof.
  intros Hl Ht (d' & Hd & ->)%cores_inv Hi. unfold _pthread_internal_free. rewrite Hd. cbn [mbind option_bind]. rewrite (proj2 (Z.eqb_neq _ 0)) by done.
  cbn [negb]. eexists. split; [done|]. split; [|unfold cores; cbn; by rewrite fmap_delete].
  eapply listed_same; [| |exact Hl]; [done|]. by apply same_links_delete.
Qed.

(** A member other than the last leaves the list and is freed. *)
Lemma remove_member s t l m :
  listed s (l ++ [m]) -> t ∈ l ->
  exists s' l', _pthread_internal_remove_locked s t = Some s' /\ listed s' (l' ++ [m]) /\ cores s' = cores s /\ forall u, u ∈ l' ++ [m] <-> u ∈ l ++ [m] /\ u <> t.
Proof.
  intros Hl (l1 & l2 & ->)%list_elem_of_split. pose proof Hl as [Hn _]. rewrite <- app_assoc in Hl. cbn [app] in Hl.
  assert (exists n l2', l2 ++ [m] = n :: l2') as (n & l2' & E) by (destruct l2; eexists _, _; reflexivity). rewrite E in Hl.
  destruct (remove_listed s t n l1 l2' Hl) as (s' & Er & Hl' & Hc). exists s', (l1 ++ l2). rewrite <- !app_assoc. cbn [app]. rewrite E.
  split; [done|]. split; [done|]. split; [done|]. intros u. rewrite !elem_of_app, (elem_of_cons _ u t).
  rewrite <- app_assoc in Hn. cbn [app] in Hn. rewrite E in Hn. apply NoDup_app in Hn as (_ & H12 & [Ht _]%NoDup_cons).
  split; [|naive_solver]. intros [H|H]; (split; [by auto|intros ->]); [apply (H12 _ H); by left|done].
Qed.

Lemma join_end_spec s t l m d count :
  listed s (l ++ [m]) -> t ∈ l ++ [m] -> cores s !! t = Some d -> (count <= 0 -> t <> m) -> (t <> m -> t_intern d <> 0) ->
  exists s', join_end s t count = Some (s', t_return_value d) /\
    if count <=? 0 then exists l', listed s' (l' ++ [m]) /\ cores s' = delete t (cores s) /\ (forall u, u ∈ l' ++ [m] <-> u ∈ l ++ [m] /\ u <> t)
    else s' = s.
Proof.
  intros Hl Ht Hc Hm Hi. pose proof (cores_inv _ _ _ Hc) as (d' & Hd & ->). unfold join_end. rewrite Hd. cbn [mbind option_bind].
  destruct (Z.leb_spec count 0) as [H0|H0]; [|by exists s]. specialize (Hm H0).
  assert (t ∈ l) as Htl by (apply elem_of_app in Ht as [?|Ht]; [done|apply list_elem_of_singleton in Ht; done]).
  destruct (remove_member s t l m Hl Htl) as (s1 & l' & -> & Hl1 & Ec & Hu). cbn [mbind option_bind].
  destruct (free_listed s1 t (erase d') (l' ++ [m])) as (s2 & -> & Hl2 & Ec2); [done| |by rewrite Ec|by apply Hi|].
  { intros Hin. apply Hu in Hin as [_ []]. done. }
  cbn [mbind option_bind]. exists s2. split; [done|]. exists l'. split; [done|]. split; [by rewrite Ec2, Ec|done].
Qed.

Lemma cores_member s l t : listed s l -> t ∈ l -> is_Some (cores s !! t).
Proof. intros [_ [r H]] Ht. destruct (seg_member _ _ _ _ _ _ _ H Ht) as [d Hd]. exists (erase d). by apply cores_lookup. Qed.

Lemma join_begin_spec s thid l m :
  listed s (l ++ [m]) ->
  if decide (thid ∈ l ++ [m]) then
    exists d, cores s !! thid = Some d /\
      if detached (a_flags (t_attr d)) then join_begin s thid = Some (s, JReturn (Fail EINVAL))
      else if 0 <=? t_join_count d then
        exists s', join_begin s thid = Some (s', JWait) /\ listed s' (l ++ [m]) /\ cores s' = <[thid := set_count (t_join_count d + 1) d]> (cores s)
      else join_begin s thid = ('(s, v) ← join_end s thid (t_join_count d); Some (s, JReturn (Good v)))
  else join_begin s thid = Some (s, JReturn (Fail ESRCH)).
Proof.
  intros Hl. unfold join_begin. rewrite (is_listed_spec _ _ _ Hl). cbn [mbind option_bind]. case_decide as Hin.
  - rewrite bool_decide_eq_true_2 by done. cbn [negb]. destruct (cores_member _ _ _ Hl Hin) as [d Hc].
    exists d. split; [done|]. pose proof (cores_inv _ _ _ Hc) as (d' & Hd & ->). rewrite Hd. cbn [mbind option_bind erase t_attr set_tnext set_tpref t_join_count].
    destruct (detached _); [done|]. destruct (0 <=? t_join_count d'); [|done].
    destruct (with_fields s thid (set_count (t_join_count d' + 1)) _ Hc) as (s' & -> & Hl' & Ec); [done|]. exists s'. split; [done|]. split; [by apply Hl'|done].
  - by rewrite bool_decide_eq_false_2.
Qed.

Lemma join_rest_spec s t l m d :
  listed s (l ++ [m]) -> t ∈ l ++ [m] -> cores s !! t = Some d -> (t_join_count d - 1 <= 0 -> t <> m) -> (t <> m -> t_intern d <> 0) ->
  exists s', join_rest s t = Some (s', t_return_value d) /\
    if t_join_count d - 1 <=? 0 then exists l', listed s' (l' ++ [m]) /\ cores s' = delete t (cores s) /\ (forall u, u ∈ l' ++ [m] <-> u ∈ l ++ [m] /\ u <> t)
    else listed s' (l ++ [m]) /\ cores s' = <[t := set_count (t_join_count d - 1) d]> (cores s).
Proof.
  intros Hl Ht Hc Hm Hi. pose proof (cores_inv _ _ _ Hc) as (d' & Hd & ->). unfold join_rest. rewrite Hd. cbn [mbind option_bind].
  cbn [erase t_attr set_tnext set_tpref t_join_count] in *.
  destruct (with_fields s t (set_count (t_join_count d' - 1)) _ Hc) as (s1 & -> & Hl1 & Ec); [done|]. cbn [mbind option_bind].
  specialize (Hl1 _ Hl). destruct (join_end_spec s1 t l m (set_count (t_join_count d' - 1) (erase d')) (t_join_count d' - 1)) as (s2 & E & H2);
    [done|done|by rewrite Ec, lookup_insert_eq|done|done|].
  exists s2. split; [exact E|]. destruct (_ <=? _); [|by subst s2].
  destruct H2 as (l' & Hl2 & Ec2 & Hu). exists l'. split; [done|]. split; [|done]. by rewrite Ec2, Ec, delete_insert_eq.
Qed.

Lemma exit_joinable_spec s t v d l :
  listed s l -> cores s !! t = Some d ->
  exists s', exit_joinable s t v = Some (s', 0 <? t_join_count d) /\ listed s' l /\
    cores s' = <[t := (if 0 <? t_join_count d then set_value v d else set_count (-1) (set_value v d))]> (cores s).
Proof.
  intros Hl Hc. unfold exit_joinable. destruct (with_fields s t (set_value v) _ Hc) as (s1 & -> & Hl1 & Ec); [done|]. cbn [mbind option_bind].
  assert (cores s1 !! t = Some (set_value v d)) as Hc1 by (rewrite Ec; apply lookup_insert_eq).
  pose proof (cores_inv _ _ _ Hc1) as (d' & Hd & Ed). rewrite Hd. cbn [mbind option_bind].
  assert (t_join_count d' = t_join_count d) as -> by (apply (f_equal t_join_count) in Ed; done).
  destruct (0 <? t_join_count d); [exists s1; split; [done|]; split; [by apply Hl1|done]|].
  destruct (with_fields s1 t (set_count (-1)) _ Hc1) as (s2 & -> & Hl2 & Ec2); [done|]. exists s2. split; [done|]. split; [by apply Hl2, Hl1|].
  by rewrite Ec2, Ec, insert_insert_eq.
Qed.

Lemma detached_lor f : detached (Z.lor f PTHREAD_ATTR_FLAG_DETACHED) = true.
Proof.
  unfold detached, PTHREAD_ATTR_FLAG_DETACHED. apply negb_true_iff, Z.eqb_neq. rewrite Z.land_lor_distr_l, Z.land_diag. intros H.
  apply Z.lor_eq_0_iff in H as [_ H]. discriminate.
Qed.
Lemma detached_user_stack f : detached (Z.lor f PTHREAD_ATTR_FLAG_USER_STACK) = detached f.
Proof. unfold detached, PTHREAD_ATTR_FLAG_DETACHED, PTHREAD_ATTR_FLAG_USER_STACK. by rewrite Z.land_lor_distr_l, Z.lor_0_r. Qed.

Lemma detach_spec s thid l :
  listed s l ->
  exists s' r, pthread_detach s thid = Some (s', r) /\ listed s' l /\
    if decide (thid ∈ l) then
      exists d, cores s !! thid = Some d /\
        if detached (a_flags (t_attr d)) then s' = s /\ r = EINVAL
        else r = 0 /\ cores s' = <[thid := set_tattr (set_flags (Z.lor (a_flags (t_attr d)) PTHREAD_ATTR_FLAG_DETACHED) (t_attr d)) d]> (cores s)
    else s' = s /\ r = ESRCH.
Proof.
  intros Hl. unfold pthread_detach. rewrite (is_listed_spec _ _ _ Hl). cbn [mbind option_bind]. case_decide as Hin.
  - rewrite bool_decide_eq_true_2 by done. cbn [negb]. destruct (cores_member _ _ _ Hl Hin) as [d Hc].
    pose proof (cores_inv _ _ _ Hc) as (d' & Hd & ->). rewrite Hd. cbn [mbind option_bind].
    destruct (detached (a_flags (t_attr d'))) eqn:E; [exists s, EINVAL; split; [done|]; split; [done|]; exists (erase d'); cbn; by rewrite E|].
    destruct (with_fields s thid (fun d => set_tattr (set_flags (Z.lor (a_flags (t_attr d')) PTHREAD_ATTR_FLAG_DETACHED) (t_attr d)) d) _ Hc)
      as (s' & -> & Hl' & Ec); [done|]. exists s', 0. split; [done|]. split; [by apply Hl'|]. exists (erase d'). cbn. rewrite E. done.
  - rewrite bool_decide_eq_false_2 by done. exists s, ESRCH. done.
Qed.

Lemma create_spec s l calloc mmap mprotect clone errno attr :
  listed s l -> (forall a, calloc = Some a -> cores s !! a = None) ->
  exists s' r, pthread_create calloc mmap mprotect clone errno attr s = Some (s', r) /\
    match r with
    | Good a => calloc = Some a /\ listed s' (a :: l) /\ exists d, cores s' = <[a := d]> (cores s) /\ t_join_count d = 0 /\ t_intern d = 1 /\
        detached (a_flags (t_attr d)) = detached (a_flags (default gDefaultPthreadAttr attr))
    | Fail _ => s' = s
    end.
Proof.
  intros Hl Hf. destruct calloc as [a|]; [|by exists s, (Fail ENOMEM)]. specialize (Hf a eq_refl).
  unfold pthread_create, _pthread_internal_alloc. set (d0 := Desc _ _ _ _ _ _ 1). set (s1 := TList _ _).
  assert (descs s !! a = None) as Hda by (unfold cores in Hf; rewrite lookup_fmap in Hf; by apply fmap_None in Hf).
  assert (a ∉ l) as Ha by (intros Hin; destruct (cores_member _ _ _ Hl Hin) as [d Hd]; congruence).
  assert (listed s1 l) as Hl1 by (eapply listed_same; [| |exact Hl]; [done|by apply same_links_other]).
  assert (_pthread_internal_free s1 a = Some s) as Efree.
  { unfold _pthread_internal_free, s1. cbn. rewrite lookup_insert_eq. cbn. rewrite delete_insert_id by done. by destruct s. }
  destruct (if a_stack_base _ =? 0 then _ else _) as [stack|]; [|rewrite Efree; by exists s, (Fail ENOMEM)].
  destruct (clone <? 0); [rewrite Efree; by exists s, (Fail errno)|].
  assert (cores s1 !! a = Some (erase d0)) as Hc1 by (apply cores_lookup; apply lookup_insert_eq).
  unfold _init_thread. change (default gDefaultPthreadAttr (Some (default gDefaultPthreadAttr attr))) with (default gDefaultPthreadAttr attr).
  set (attr' := default gDefaultPthreadAttr attr).
  destruct (with_fields s1 a (fun d => set_count 0 (set_tid clone (set_tattr (set_base stack attr') d))) _ Hc1) as (s2 & -> & Hl2 & Ec2); [done|].
  cbn [mbind option_bind]. set (d2 := set_count 0 _) in Ec2. assert (cores s2 !! a = Some d2) as Hc2 by (rewrite Ec2; apply lookup_insert_eq).
  destruct (add_listed s2 a l) as (s3 & -> & Hl3 & Ec3); [by apply Hl2|done|by exists d2|]. cbn [mbind option_bind].
  assert (cores s1 = <[a := erase d0]> (cores s)) as Ec1 by (unfold cores, s1; cbn; by rewrite fmap_insert).
  assert (cores s3 = <[a := d2]> (cores s)) as Ec by (by rewrite Ec3, Ec2, Ec1, insert_insert_eq).
  destruct (negb _).
  - destruct (with_fields s3 a (fun d => set_tattr (set_flags (Z.lor (a_flags (t_attr d)) PTHREAD_ATTR_FLAG_USER_STACK) (t_attr d)) d) d2) as (s4 & -> & Hl4 & Ec4);
      [by rewrite Ec, lookup_insert_eq|done|]. exists s4, (Good a). split; [done|]. split; [done|]. split; [by apply Hl4|].
    eexists. split; [by rewrite Ec4, Ec, insert_insert_eq|]. split; [done|]. split; [done|]. cbn. apply detached_user_stack.
  - exists s3, (Good a). split; [done|]. split; [done|]. split; [done|]. exists d2. done.
Qed.

(** ** Cleanup handlers

    The handlers that are pushed, from the last to the first: frame, routine and argument. *)
Fixpoint handlers (m : gmap Z cleanup_t) (o : option Z) (cs : list (Z * Z * Z)) : Prop :=
  match cs with
  | [] => o = None
  | (c, routine, arg) :: cs => o = Some c /\ exists prev, m !! c = Some (Cleanup prev routine arg) /\ handlers m prev cs
  end.

Lemma handlers_frame m o cs c f : c ∉ (fun x => x.1.1) <$> cs -> handlers m o cs -> handlers (<[c := f]> m) o cs.
Proof.
  revert o. induction cs as [|[[c' r] a] cs IH]; intros o Hc; cbn; [done|]. cbn in Hc. apply not_elem_of_cons in Hc as [Hne Hc].
  intros [-> (prev & Hm & H)]. split; [done|]. exists prev. rewrite lookup_insert_ne by done. split; [done|]. by apply IH.
Qed.

(** Each push puts a handler before the others; the matching pop takes it off again and calls it if asked;
    pthread_exit calls all that are left, the last pushed first. *)
Lemma cleanup_handlers s cs :
  handlers (frames s) (cleanup_stack s) cs ->
  exit_cleanups (length cs) s = Some ((fun x => (x.1.2, x.2)) <$> cs) /\
  forall c routine arg, c ∉ (fun x => x.1.1) <$> cs ->
    let s' := __pthread_cleanup_push s c routine arg in
    handlers (frames s') (cleanup_stack s') ((c, routine, arg) :: cs) /\
    forall execute, exists s'', __pthread_cleanup_pop s' c execute = Some (s'', if execute =? 0 then [] else [(routine, arg)]) /\
      handlers (frames s'') (cleanup_stack s'') cs.
Proof.
  intros H. split.
  - destruct s as [o m]. cbn in H. revert o H. induction cs as [|[[c r] a] cs IH]; intros o H; cbn in H; [by subst o|].
    destruct H as [-> (prev & Hm & H)]. cbn. rewrite Hm. cbn. by rewrite (IH _ H).
  - intros c routine arg Hc. split.
    + cbn. split; [done|]. exists (cleanup_stack s). rewrite lookup_insert_eq. split; [done|]. by apply handlers_frame.
    + intros execute. unfold __pthread_cleanup_pop, __pthread_cleanup_push. cbn. rewrite lookup_insert_eq. cbn.
      eexists. split; [by destruct (execute =? 0)|]. by apply handlers_frame.
Qed.
