(* ===== verification/ThreadSafety.v ===== *)
(** * Threads that create, end, join and detach each other (libc/bionic/pthread.c)

    The functions of Threads as the steps of a system: each part of a call that runs under
    gThreadListLock, or between two uses of it, is one step.  What holds in every reachable state,
    under which conditions, and what happens without them. *)
From S2P Require Import Prelude Buffer Threads.

(** ** Threads that run together

    Where a thread is: running its own code (or in a handler, or in a call that has not reached the
    lock); in pthread_exit, having seen that it is joinable or detached, or removed; in pthread_join,
    asleep or woken. *)
Inductive tpc : Type :=
| Running
| ExitJoin (v : Z)
| ExitRemove
| ExitFree
| Joining (u : Z)
| Woken (u : Z).

(** The list, the threads by their descriptors, and the values of the threads that have ended. *)
Record tsys : Type := TSys { lst : tlist; pcs : gmap Z tpc; ended : gmap Z Z }.

Definition waits (u : Z) (pc : tpc) : Z :=
  match pc with
  | Joining v | Woken v => if v =? u then 1 else 0
  | _ => 0
  end.
Definition waiters (pcs : gmap Z tpc) (u : Z) : Z := msum (waits u) pcs.
Definition wake (u : Z) (pc : tpc) : tpc := match pc with Joining v => if v =? u then Woken v else pc | _ => pc end.

(** What is allowed: wake-ups without a signal, several joins of one thread at a time, a detach of a thread
    that is being joined, a pthread_exit of the main thread. *)
Record perms : Type := Perms { spurious : bool; several : bool; detach_joined : bool; main_exits : bool }.

Section System.
Context (main : Z) (p : perms).

(** The calls by their steps. *)
Inductive thread_step : tsys -> tsys -> Prop :=
| s_create s pc en t calloc mmap mprotect clone errno attr s' a :
    pc !! t = Some Running -> (forall a, calloc = Some a -> descs s !! a = None) ->
    pthread_create calloc mmap mprotect clone errno attr s = Some (s', Good a) ->
    thread_step (TSys s pc en) (TSys s' (<[a := Running]> pc) (delete a en))
| s_create_fail s pc en t calloc mmap mprotect clone errno attr s' e :
    pc !! t = Some Running -> (forall a, calloc = Some a -> descs s !! a = None) ->
    pthread_create calloc mmap mprotect clone errno attr s = Some (s', Fail e) ->
    thread_step (TSys s pc en) (TSys s' pc en)
| s_exit s pc en t v b :
    pc !! t = Some Running -> main_exits p = true \/ t <> main -> exit_detached s t = Some b ->
    thread_step (TSys s pc en) (TSys s (<[t := if b then ExitRemove else ExitJoin v]> pc) en)
| s_exit_joinable s pc en t v s' broadcast :
    pc !! t = Some (ExitJoin v) -> exit_joinable s t v = Some (s', broadcast) ->
    thread_step (TSys s pc en) (TSys s' (delete t (if broadcast then wake t <$> pc else pc)) (<[t := v]> en))
| s_exit_remove s pc en t s' :
    pc !! t = Some ExitRemove -> _pthread_internal_remove s t = Some s' ->
    thread_step (TSys s pc en) (TSys s' (<[t := ExitFree]> pc) en)
| s_exit_free s pc en t s' :
    pc !! t = Some ExitFree -> _pthread_internal_free s t = Some s' ->
    thread_step (TSys s pc en) (TSys s' (delete t pc) en)
| s_join s pc en t u s' :
    pc !! t = Some Running -> several p = true \/ waiters pc u = 0 -> join_begin s u = Some (s', JWait) ->
    thread_step (TSys s pc en) (TSys s' (<[t := Joining u]> pc) en)
| s_joined s pc en t u s' r :
    pc !! t = Some Running -> join_begin s u = Some (s', JReturn r) ->
    thread_step (TSys s pc en) (TSys s' pc en)
| s_spurious s pc en t u :
    spurious p = true -> pc !! t = Some (Joining u) ->
    thread_step (TSys s pc en) (TSys s (<[t := Woken u]> pc) en)
| s_join_rest s pc en t u s' v :
    pc !! t = Some (Woken u) -> join_rest s u = Some (s', v) ->
    thread_step (TSys s pc en) (TSys s' (<[t := Running]> pc) en)
| s_detach s pc en t u s' r :
    pc !! t = Some Running -> detach_joined p = true \/ waiters pc u = 0 -> pthread_detach s u = Some (s', r) ->
    thread_step (TSys s pc en) (TSys s' pc en).

(** After __libc_init_common. *)
Definition main_only (kernel_id : Z) (attr : pthread_attr_t) : option tsys :=
  s ← _init_thread (TList None {[main := Desc None RList (Attr 0 0 0 0 0 0) 0 0 0 0]}) main kernel_id (Some attr) (a_stack_base attr);
  Some (TSys s {[main := Running]} ∅).

(** ** The invariant *)
Definition busy (pc : tpc) : Prop := match pc with Running | Joining _ | Woken _ => True | _ => False end.

Record tinv (l : list Z) (c : gmap Z pthread_internal_t) (pc : gmap Z tpc) (en : gmap Z Z) : Prop := {
  v_dom : forall u, is_Some (c !! u) <-> u ∈ l ++ [main] \/ pc !! u = Some ExitFree;
  v_gone : forall u, pc !! u = Some ExitFree -> u ∉ l ++ [main];
  v_live : forall u, is_Some (pc !! u) -> is_Some (c !! u);
  v_main : exists x, pc !! main = Some x /\ busy x;
  v_intern : forall u d, c !! u = Some d -> u <> main -> t_intern d <> 0;
  v_alive : forall u d x, u ∈ l ++ [main] -> c !! u = Some d -> pc !! u = Some x -> t_join_count d = waiters pc u;
  v_ended : forall u d, u ∈ l ++ [main] -> c !! u = Some d -> pc !! u = None ->
    en !! u = Some (t_return_value d) /\ (t_join_count d = waiters pc u /\ 0 < waiters pc u \/ t_join_count d = -1 /\ waiters pc u = 0);
  v_target : forall t x u, pc !! t = Some x -> waits u x = 1 -> u ∈ l ++ [main];
  v_woken : forall t u, pc !! t = Some (Woken u) -> pc !! u = None;
  v_det : forall u d, c !! u = Some d -> detached (a_flags (t_attr d)) = true -> waiters pc u = 0;
  v_remove : forall u, pc !! u = Some ExitRemove -> exists d, c !! u = Some d /\ detached (a_flags (t_attr d)) = true;
  v_single : several p = false -> forall t u, pc !! t = Some (Joining u) -> is_Some (pc !! u) }.

Definition sound (s : tsys) : Prop := exists l, listed (lst s) (l ++ [main]) /\ tinv l (cores (lst s)) (pcs s) (ended s).

Lemma waits_range u x : waits u x = 0 \/ waits u x = 1.
Proof. destruct x; cbn; auto; destruct (_ =? _); auto. Qed.
Lemma waits_nonneg u x : 0 <= waits u x.
Proof. destruct (waits_range u x); lia. Qed.
Lemma waiters_none pc u t x : waiters pc u = 0 -> pc !! t = Some x -> waits u x = 0.
Proof. intros H Ht. pose proof (msum_ge_one (waits u) pc t x (waits_nonneg u) Ht) as Hl. unfold waiters in H. destruct (waits_range u x); lia. Qed.
Lemma waiters_nonneg pc u : 0 <= waiters pc u.
Proof. apply msum_nonneg, waits_nonneg. Qed.
Lemma waiters_insert pc t x y u : pc !! t = Some x -> waiters (<[t := y]> pc) u = waiters pc u - waits u x + waits u y.
Proof. apply msum_insert. Qed.
Lemma waiters_new pc t y u : pc !! t = None -> waiters (<[t := y]> pc) u = waits u y + waiters pc u.
Proof. apply msum_insert_new. Qed.
Lemma waiters_delete pc t x u : pc !! t = Some x -> waiters (delete t pc) u = waiters pc u - waits u x.
Proof.
  intros H. unfold waiters. rewrite <- (insert_delete_id pc t x H) at 2. rewrite msum_insert_new by apply lookup_delete_eq. lia.
Qed.
Lemma waiters_wake pc t u : waiters (wake t <$> pc) u = waiters pc u.
Proof. unfold waiters. rewrite msum_fmap. apply msum_ext. intros []; cbn; try done. by destruct (u0 =? t). Qed.
Lemma waiters_unlisted l c pc en u : tinv l c pc en -> u ∉ l ++ [main] -> waiters pc u = 0.
Proof.
  intros I Hu. apply msum_zero. intros t x Ht. destruct (waits_range u x) as [?|H1]; [done|]. destruct Hu. by eapply v_target.
Qed.

(** The main thread does not leave; nobody is woken where nobody waits. *)
Lemma tinv_leaving l c pc en t x : tinv l c pc en -> pc !! t = Some x -> ~ busy x -> t <> main.
Proof. intros I Ht Hb ->. destruct (v_main _ _ _ _ I) as (y & Hy & Hb'). rewrite Ht in Hy. by injection Hy as <-. Qed.
Lemma wake_nobody pc t : waiters pc t = 0 -> wake t <$> pc = pc.
Proof.
  intros H0. rewrite <- (map_fmap_id pc) at 2. apply map_fmap_ext. intros u x Hx. cbn.
  pose proof (waiters_none pc t u x H0 Hx) as Hw. destruct x; cbn in *; try done. destruct (_ =? t); [lia|done].
Qed.

(** A step of one thread that changes no descriptor and nobody's waiting. *)
Lemma tinv_goto l c pc en t x y :
  tinv l c pc en -> pc !! t = Some x -> x <> ExitFree -> (forall u, waits u y = waits u x) ->
  (forall u, y <> Woken u \/ pc !! u = None) -> (t = main -> busy y) -> y <> ExitFree ->
  (y = ExitRemove -> exists d, c !! t = Some d /\ detached (a_flags (t_attr d)) = true) ->
  (forall u, y = Joining u -> is_Some (pc !! u)) ->
  tinv l c (<[t := y]> pc) en.
Proof.
  intros I Ht Hx Hw Hwk Hm Hy Hr Hj.
  assert (forall u, waiters (<[t := y]> pc) u = waiters pc u) as Ew by (intros u; rewrite (waiters_insert _ _ _ _ _ Ht), Hw; lia).
  assert (forall u, <[t := y]> pc !! u = None <-> pc !! u = None) as En.
  { intros u. destruct (decide (u = t)) as [->|]; [rewrite lookup_insert_eq, Ht; done|by rewrite lookup_insert_ne]. }
  assert (forall u, is_Some (<[t := y]> pc !! u) <-> is_Some (pc !! u)) as Es by (intros u; rewrite <- !not_eq_None_Some, En; done).
  assert (forall u, <[t := y]> pc !! u = Some ExitFree <-> pc !! u = Some ExitFree) as Ef.
  { intros u. destruct (decide (u = t)) as [->|]; [rewrite lookup_insert_eq, Ht; split; congruence|by rewrite lookup_insert_ne]. }
  destruct I. split.
  - intros u. by rewrite Ef.
  - intros u. rewrite Ef. auto.
  - intros u. rewrite Es. auto.
  - destruct (decide (main = t)) as [<-|]; [exists y; rewrite lookup_insert_eq; auto|]. by rewrite lookup_insert_ne.
  - done.
  - intros u d z Hu Hd Hz. rewrite Ew. assert (is_Some (pc !! u)) as [z' Hz'] by (apply Es; by exists z). eauto.
  - intros u d Hu Hd. rewrite En, Ew. auto.
  - intros t' z u Hz. destruct (decide (t' = t)) as [->|]; [rewrite lookup_insert_eq in Hz; injection Hz as <-; rewrite Hw; eauto|].
    rewrite lookup_insert_ne in Hz by done. eauto.
  - intros t' u Hz. apply En. destruct (decide (t' = t)) as [->|]; [rewrite lookup_insert_eq in Hz; injection Hz as ->; by destruct (Hwk u)|].
    rewrite lookup_insert_ne in Hz by done. eauto.
  - intros u d. rewrite Ew. eauto.
  - intros u Hu. destruct (decide (u = t)) as [->|]; [rewrite lookup_insert_eq in Hu; injection Hu as ->; auto|]. rewrite lookup_insert_ne in Hu by done. auto.
  - intros Hs t' u Hz. apply Es. destruct (decide (t' = t)) as [->|]; [rewrite lookup_insert_eq in Hz; injection Hz as ->; auto|].
    rewrite lookup_insert_ne in Hz by done. eauto.
Qed.

(** A new thread. *)
Lemma tinv_create l c pc en a d :
  tinv l c pc en -> c !! a = None -> t_join_count d = 0 -> t_intern d = 1 -> tinv (a :: l) (<[a := d]> c) (<[a := Running]> pc) (delete a en).
Proof.
  intros I Ha Hj Hi. assert (pc !! a = None) as Hp by (destruct (pc !! a) eqn:E; [|done]; destruct (v_live _ _ _ _ I a) as [? ?]; [by eexists|congruence]).
  assert (a ∉ l ++ [main]) as Hl by (intros Hin; destruct (proj2 (v_dom _ _ _ _ I a)) as [? ?]; [by left|congruence]).
  assert (forall u, waiters (<[a := Running]> pc) u = waiters pc u) as Ew by (intros u; rewrite waiters_new by done; done).
  pose proof (waiters_unlisted _ _ _ _ _ I Hl) as Hwa.
  assert (forall u, u ∈ (a :: l) ++ [main] <-> u = a \/ u ∈ l ++ [main]) as El by (intros u; cbn; apply elem_of_cons).
  destruct I. split.
  - intros u. rewrite El. destruct (decide (u = a)) as [->|]; [rewrite !lookup_insert_eq; split; eauto|]. rewrite !lookup_insert_ne by done. specialize (v_dom0 u). tauto.
  - intros u Hu. rewrite El. destruct (decide (u = a)) as [->|]; [by rewrite lookup_insert_eq in Hu|]. rewrite lookup_insert_ne in Hu by done. naive_solver.
  - intros u. destruct (decide (u = a)) as [->|]; [rewrite !lookup_insert_eq; eauto|]. rewrite !lookup_insert_ne by done. auto.
  - destruct (decide (main = a)) as [->|]; [exists Running; by rewrite lookup_insert_eq|]. by rewrite lookup_insert_ne.
  - intros u d'. destruct (decide (u = a)) as [->|]; [rewrite lookup_insert_eq; intros [= <-]; lia|]. rewrite lookup_insert_ne by done. eauto.
  - intros u d' x. rewrite El, Ew. destruct (decide (u = a)) as [->|]; [rewrite !lookup_insert_eq; intros _ [= <-] _; lia|].
    rewrite !lookup_insert_ne by done. intros [?|?]; [done|eauto].
  - intros u d'. rewrite El, Ew. destruct (decide (u = a)) as [->|]; [by rewrite !lookup_insert_eq|].
    rewrite !lookup_insert_ne by done. rewrite lookup_delete_ne by done. intros [?|?]; [done|eauto].
  - intros t x u. rewrite El. destruct (decide (t = a)) as [->|]; [by rewrite lookup_insert_eq; intros [= <-]|]. rewrite lookup_insert_ne by done. eauto.
  - intros t u. destruct (decide (t = a)) as [->|]; [by rewrite lookup_insert_eq|]. rewrite lookup_insert_ne by done. intros Ht.
    destruct (decide (u = a)) as [->|]; [|rewrite lookup_insert_ne by done; eauto]. destruct Hl. apply (v_target0 _ _ _ Ht). cbn. by rewrite Z.eqb_refl.
  - intros u d'. rewrite Ew. destruct (decide (u = a)) as [->|]; [done|]. rewrite lookup_insert_ne by done. eauto.
  - intros u. destruct (decide (u = a)) as [->|]; [by rewrite lookup_insert_eq|]. rewrite !lookup_insert_ne by done. eauto.
  - intros Hs t u. destruct (decide (t = a)) as [->|]; [by rewrite lookup_insert_eq|]. rewrite lookup_insert_ne by done. intros Ht.
    destruct (decide (u = a)) as [->|]; [rewrite lookup_insert_eq; by eexists|rewrite lookup_insert_ne by done; eauto].
Qed.

(** Fields of one descriptor other than the count, and flags that are set where nobody waits. *)
Lemma tinv_fields l c pc en t d d' :
  tinv l c pc en -> c !! t = Some d -> t_join_count d' = t_join_count d -> t_intern d' = t_intern d -> t_return_value d' = t_return_value d ->
  (detached (a_flags (t_attr d)) = true -> detached (a_flags (t_attr d')) = true) -> (detached (a_flags (t_attr d')) = true -> waiters pc t = 0) ->
  tinv l (<[t := d']> c) pc en.
Proof.
  intros I Hd Ej Ei Er Hf Hw. assert (forall u, is_Some (<[t := d']> c !! u) <-> is_Some (c !! u)) as Es.
  { intros u. destruct (decide (u = t)) as [->|]; [rewrite lookup_insert_eq, Hd; split; eauto|by rewrite lookup_insert_ne]. }
  destruct I. split; try done.
  - intros u. by rewrite Es.
  - intros u. rewrite Es. auto.
  - intros u e. destruct (decide (u = t)) as [->|]; [rewrite lookup_insert_eq; intros [= <-]; rewrite Ei; eauto|]. rewrite lookup_insert_ne by done. eauto.
  - intros u e x Hu. destruct (decide (u = t)) as [->|]; [rewrite lookup_insert_eq; intros [= <-]; rewrite Ej; eauto|]. rewrite lookup_insert_ne by done. eauto.
  - intros u e Hu. destruct (decide (u = t)) as [->|]; [rewrite lookup_insert_eq; intros [= <-]; rewrite Ej, Er; eauto|]. rewrite lookup_insert_ne by done. eauto.
  - intros u e. destruct (decide (u = t)) as [->|]; [rewrite lookup_insert_eq; intros [= <-]; auto|]. rewrite lookup_insert_ne by done. eauto.
  - intros u Hu. destruct (v_remove0 u Hu) as (e & He & Hde). destruct (decide (u = t)) as [->|]; [|exists e; by rewrite lookup_insert_ne].
    exists d'. rewrite lookup_insert_eq. split; [done|]. apply Hf. congruence.
Qed.

(** A joinable thread ends. *)
Lemma tinv_end l c pc en t v d :
  tinv l c pc en -> pc !! t = Some (ExitJoin v) -> t ∈ l ++ [main] -> c !! t = Some d ->
  let b := 0 <? t_join_count d in
  tinv l (<[t := (if b then set_value v d else set_count (-1) (set_value v d))]> c) (delete t (if b then wake t <$> pc else pc)) (<[t := v]> en).
Proof.
  intros I Ht Hl Hd b. set (d' := if b then _ else _). set (pc1 := if b then _ else _).
  assert (t_join_count d = waiters pc t) as Ej by (by eapply v_alive). pose proof (waiters_nonneg pc t) as Hn.
  assert (t <> main) as Hm by (eapply tinv_leaving; [exact I|exact Ht|tauto]).
  assert (pc1 = wake t <$> pc) as Epc.
  { unfold pc1, b. destruct (Z.ltb_spec 0 (t_join_count d)); [done|]. symmetry. apply wake_nobody. lia. }
  rewrite Epc. clearbody pc1. clear pc1 Epc.
  assert (forall u, waiters (delete t (wake t <$> pc)) u = waiters pc u) as Ew.
  { intros u. rewrite (waiters_delete _ _ (ExitJoin v)) by (by rewrite lookup_fmap, Ht). rewrite waiters_wake. cbn. lia. }
  assert (forall u, u <> t -> delete t (wake t <$> pc) !! u = wake t <$> pc !! u) as Eu by (intros u Hu; by rewrite lookup_delete_ne, lookup_fmap).
  assert (forall u x, wake t <$> pc !! u = Some x -> (forall y, x <> Joining y /\ x <> Woken y) -> pc !! u = Some x) as Ek.
  { intros u x Hx Hne. destruct (pc !! u) as [[]|]; cbn in *; try done; try congruence. destruct (_ =? _); [destruct (Hne u0)|]; congruence. }
  assert (forall u, delete t (wake t <$> pc) !! u = Some ExitFree <-> pc !! u = Some ExitFree) as Ef.
  { intros u. destruct (decide (u = t)) as [->|]; [rewrite lookup_delete_eq, Ht; done|]. rewrite Eu by done. split; [intros H; apply Ek in H; done|intros ->; done]. }
  assert (t_intern d' = t_intern d /\ t_return_value d' = v /\ t_attr d' = t_attr d) as (Ei & Er & Ea) by (unfold d'; by destruct b).
  assert (t_join_count d' = waiters pc t /\ 0 < waiters pc t \/ t_join_count d' = -1 /\ waiters pc t = 0) as Hc.
  { unfold d', b. destruct (Z.ltb_spec 0 (t_join_count d)); cbn; lia. }
  clearbody d' b. destruct I. split.
  - intros u. rewrite Ef. destruct (decide (u = t)) as [->|]; [rewrite lookup_insert_eq; split; eauto|]. rewrite lookup_insert_ne by done. auto.
  - intros u. rewrite Ef. auto.
  - intros u. destruct (decide (u = t)) as [->|]; [rewrite lookup_delete_eq; by intros []|]. rewrite Eu, lookup_insert_ne by done.
    rewrite fmap_is_Some. auto.
  - destruct v_main0 as (x & Hx & Hb). exists (wake t x). rewrite Eu, Hx by done. split; [done|]. by destruct x; cbn; try case_test.
  - intros u e. destruct (decide (u = t)) as [->|]; [rewrite lookup_insert_eq; intros [= <-]; rewrite Ei; eauto|]. rewrite lookup_insert_ne by done. eauto.
  - intros u e x Hu. rewrite Ew. destruct (decide (u = t)) as [->|]; [by rewrite lookup_delete_eq|]. rewrite lookup_insert_ne, Eu by done.
    intros He Hx. apply fmap_Some in Hx as (y & Hy & _). eauto.
  - intros u e Hu. rewrite Ew. destruct (decide (u = t)) as [->|]; [rewrite !lookup_insert_eq; intros [= <-] _; rewrite Er; auto|].
    rewrite !lookup_insert_ne, Eu by done. intros He Hx. apply fmap_None in Hx. eauto.
  - intros u x w. destruct (decide (u = t)) as [->|]; [by rewrite lookup_delete_eq|]. rewrite Eu by done. intros Hx Hw. apply fmap_Some in Hx as (y & Hy & ->).
    apply (v_target0 _ _ _ Hy). destruct y; cbn in *; try done. by destruct (_ =? t).
  - intros u w. destruct (decide (u = t)) as [->|]; [by rewrite lookup_delete_eq|]. rewrite Eu by done. intros Hx. apply fmap_Some in Hx as (y & Hy & Ey).
    destruct (decide (w = t)) as [->|]; [apply lookup_delete_eq|]. rewrite Eu by done. apply fmap_None.
    destruct y; cbn in Ey; try done; [destruct (Z.eqb_spec u0 t); congruence|]. injection Ey as <-. eauto.
  - intros u e. rewrite Ew. destruct (decide (u = t)) as [->|]; [rewrite lookup_insert_eq; intros [= <-]; rewrite Ea; eauto|]. rewrite lookup_insert_ne by done. eauto.
  - intros u. destruct (decide (u = t)) as [->|]; [by rewrite lookup_delete_eq|]. rewrite Eu, lookup_insert_ne by done. intros H. apply Ek in H; [eauto|done].
  - intros Hs u w. destruct (decide (u = t)) as [->|]; [by rewrite lookup_delete_eq|]. rewrite Eu by done. intros Hx. apply fmap_Some in Hx as (y & Hy & Ey).
    destruct y; cbn in Ey; try done. destruct (Z.eqb_spec u0 t) as [->|]; [done|]. injection Ey as <-. rewrite Eu, fmap_is_Some by done. eauto.
Qed.

(** A detached thread leaves the list, and its descriptor is freed. *)
Lemma tinv_unlink l l' c pc en t :
  tinv l c pc en -> pc !! t = Some ExitRemove -> (forall u, u ∈ l' ++ [main] <-> u ∈ l ++ [main] /\ u <> t) -> tinv l' c (<[t := ExitFree]> pc) en.
Proof.
  intros I Ht El. destruct (v_remove _ _ _ _ I t Ht) as (d & Hd & Hdet). pose proof (v_det _ _ _ _ I t d Hd Hdet) as Hw0.
  assert (t <> main) as Hm by (eapply tinv_leaving; [exact I|exact Ht|tauto]).
  assert (forall u, waiters (<[t := ExitFree]> pc) u = waiters pc u) as Ew by (intros u; rewrite (waiters_insert _ _ _ _ _ Ht); cbn; lia).
  assert (forall u x, <[t := ExitFree]> pc !! u = Some x -> u = t /\ x = ExitFree \/ u <> t /\ pc !! u = Some x) as Eu.
  { intros u x. destruct (decide (u = t)) as [->|]; [rewrite lookup_insert_eq; intros [= <-]; auto|rewrite lookup_insert_ne by done; auto]. }
  assert (forall u, <[t := ExitFree]> pc !! u = None <-> pc !! u = None) as En.
  { intros u. destruct (decide (u = t)) as [->|]; [rewrite lookup_insert_eq, Ht; done|by rewrite lookup_insert_ne]. }
  destruct I. split.
  - intros u. rewrite El. destruct (decide (u = t)) as [->|]; [rewrite lookup_insert_eq; split; eauto|]. rewrite lookup_insert_ne by done. specialize (v_dom0 u). tauto.
  - intros u Hu. rewrite El. apply Eu in Hu as [[-> _]|[Hne Hu]]; naive_solver.
  - intros u [x Hu]. apply Eu in Hu as [[-> _]|[Hne Hu]]; eauto.
  - by rewrite lookup_insert_ne.
  - done.
  - intros u e x Hu He Hx. rewrite Ew. apply El in Hu as [Hu Hne]. apply Eu in Hx as [[-> _]|[_ Hx]]; [done|eauto].
  - intros u e Hu He. rewrite En, Ew. apply El in Hu as [Hu Hne]. auto.
  - intros u x w Hx Hw. rewrite El. apply Eu in Hx as [[-> ->]|[_ Hx]]; [done|]. split; [eauto|]. intros ->.
    pose proof (waiters_none pc t u x Hw0 Hx). lia.
  - intros u w Hx. rewrite En. apply Eu in Hx as [[_ ?]|[_ Hx]]; [done|eauto].
  - intros u e. rewrite Ew. eauto.
  - intros u Hx. apply Eu in Hx as [[_ ?]|[_ Hx]]; [done|eauto].
  - intros Hs u w Hx. apply Eu in Hx as [[_ ?]|[_ Hx]]; [done|]. apply not_eq_None_Some. rewrite En. apply not_eq_None_Some. eauto.
Qed.

Lemma tinv_free l c pc en t : tinv l c pc en -> pc !! t = Some ExitFree -> tinv l (delete t c) (delete t pc) en.
Proof.
  intros I Ht. pose proof (v_gone _ _ _ _ I t Ht) as Hl. pose proof (waiters_unlisted _ _ _ _ _ I Hl) as Hw0.
  assert (t <> main) as Hm by (intros ->; apply Hl, elem_of_app; right; by left).
  assert (forall u, waiters (delete t pc) u = waiters pc u) as Ew by (intros u; rewrite (waiters_delete _ _ _ _ Ht); cbn; lia).
  assert (forall u x, delete t pc !! u = Some x -> u <> t /\ pc !! u = Some x) as Eu
    by (intros u x; rewrite lookup_delete_Some; intros []; auto).
  assert (forall u, u ∈ l ++ [main] -> u <> t) as Hne by (intros u Hu ->; done).
  destruct I. split.
  - intros u. destruct (decide (u = t)) as [->|]; [rewrite !lookup_delete_eq; split; [by intros []|intros [?|?]; done]|]. rewrite !lookup_delete_ne by done. auto.
  - intros u Hu. apply Eu in Hu as [_ Hu]. auto.
  - intros u [x Hx]. apply Eu in Hx as [Hn Hx]. rewrite lookup_delete_ne by done. eauto.
  - by rewrite lookup_delete_ne.
  - intros u d [_ Hd]%lookup_delete_Some. eauto.
  - intros u d x Hu [_ Hd]%lookup_delete_Some [_ Hx]%Eu. rewrite Ew. eauto.
  - intros u d Hu [_ Hd]%lookup_delete_Some. rewrite lookup_delete_ne by (apply not_eq_sym; auto). rewrite Ew. eauto.
  - intros u x w [_ Hx]%Eu. eauto.
  - intros u w [_ Hx]%Eu. apply lookup_delete_None. eauto.
  - intros u d [_ Hd]%lookup_delete_Some. rewrite Ew. eauto.
  - intros u [Hn Hx]%Eu. rewrite lookup_delete_ne by done. eauto.
  - intros Hs u w [Hn Hx]%Eu. assert (w <> t) by (apply Hne, (v_target0 _ _ _ Hx); cbn; by rewrite Z.eqb_refl). rewrite lookup_delete_ne by done. eauto.
Qed.

(** A descriptor of an ended thread that nobody waits for is freed. *)
Lemma tinv_drop l l' c pc en t :
  tinv l c pc en -> pc !! t = None -> waiters pc t = 0 -> (forall u, u ∈ l' ++ [main] <-> u ∈ l ++ [main] /\ u <> t) -> tinv l' (delete t c) pc en.
Proof.
  intros I Ht Hw0 El. assert (t <> main) as Hm by (intros ->; destruct (v_main _ _ _ _ I) as (x & Hx & Hb); congruence).
  destruct I. split; try done.
  - intros u. rewrite El. destruct (decide (u = t)) as [->|]; [rewrite lookup_delete_eq, Ht; split; [by intros []|naive_solver]|].
    rewrite lookup_delete_ne by done. specialize (v_dom0 u). tauto.
  - intros u Hu. rewrite El. naive_solver.
  - intros u Hu. assert (u <> t) by (intros ->; rewrite Ht in Hu; by destruct Hu). rewrite lookup_delete_ne by done. auto.
  - intros u d [_ Hd]%lookup_delete_Some. eauto.
  - intros u d x [Hu _]%El [_ Hd]%lookup_delete_Some. eauto.
  - intros u d [Hu _]%El [_ Hd]%lookup_delete_Some. eauto.
  - intros u x w Hx Hw. apply El. split; [eauto|]. intros ->. pose proof (waiters_none pc t u x Hw0 Hx). lia.
  - intros u d [_ Hd]%lookup_delete_Some. eauto.
  - intros u Hu. assert (u <> t) by congruence. rewrite lookup_delete_ne by done. auto.
Qed.

(** A thread begins to wait. *)
Lemma tinv_wait l c pc en t u d :
  tinv l c pc en -> pc !! t = Some Running -> u ∈ l ++ [main] -> c !! u = Some d -> detached (a_flags (t_attr d)) = false -> 0 <= t_join_count d ->
  several p = true \/ waiters pc u = 0 ->
  tinv l (<[u := set_count (t_join_count d + 1) d]> c) (<[t := Joining u]> pc) en.
Proof.
  intros I Ht Hu Hd Hf Hj Hp. set (d' := set_count _ d).
  assert (forall w, waiters (<[t := Joining u]> pc) w = waiters pc w + if u =? w then 1 else 0) as Ew by (intros w; rewrite (waiters_insert _ _ _ _ _ Ht); cbn; lia).
  assert (forall w, <[t := Joining u]> pc !! w = None <-> pc !! w = None) as En.
  { intros w. destruct (decide (w = t)) as [->|]; [rewrite lookup_insert_eq, Ht; done|by rewrite lookup_insert_ne]. }
  assert (forall w x, <[t := Joining u]> pc !! w = Some x -> w = t /\ x = Joining u \/ w <> t /\ pc !! w = Some x) as Eu.
  { intros w x. destruct (decide (w = t)) as [->|]; [rewrite lookup_insert_eq; intros [= <-]; auto|rewrite lookup_insert_ne by done; auto]. }
  assert (forall w e, <[u := d']> c !! w = Some e -> exists e', c !! w = Some e' /\ t_intern e = t_intern e' /\ t_attr e = t_attr e' /\
    t_return_value e = t_return_value e' /\ t_join_count e = t_join_count e' + if u =? w then 1 else 0) as Ed.
  { intros w e. destruct (Z.eqb_spec u w) as [->|Hne]; [rewrite lookup_insert_eq; intros [= <-]; by exists d|].
    rewrite lookup_insert_ne by done. intros He. exists e. repeat split; auto. lia. }
  assert (forall w, is_Some (<[u := d']> c !! w) <-> is_Some (c !! w)) as Es.
  { intros w. destruct (decide (w = u)) as [->|]; [rewrite lookup_insert_eq, Hd; split; eauto|by rewrite lookup_insert_ne]. }
  assert (forall w, <[t := Joining u]> pc !! w = Some ExitFree <-> pc !! w = Some ExitFree) as Ef.
  { intros w. destruct (decide (w = t)) as [->|]; [rewrite lookup_insert_eq, Ht; done|by rewrite lookup_insert_ne]. }
  destruct I. split.
  - intros w. by rewrite Es, Ef.
  - intros w. rewrite Ef. auto.
  - intros w [x Hx]. apply Es. apply Eu in Hx as [[-> _]|[_ Hx]]; eauto.
  - destruct (decide (main = t)) as [<-|]; [exists (Joining u); by rewrite lookup_insert_eq|]. by rewrite lookup_insert_ne.
  - intros w e (e' & He & -> & _)%Ed. eauto.
  - intros w e x Hw (e' & He & _ & _ & _ & ->)%Ed Hx. rewrite Ew. apply Eu in Hx as [[-> _]|[_ Hx]]; erewrite v_alive0; eauto.
  - intros w e Hw (e' & He & _ & _ & -> & ->)%Ed Hx. rewrite Ew. apply En in Hx. destruct (v_ended0 w e' Hw He Hx) as [H1 H2]. split; [done|].
    destruct (Z.eqb_spec u w) as [->|]; [|lia]. assert (e' = d) as -> by congruence. lia.
  - intros w x z [[-> ->]|[_ Hx]]%Eu Hz; [|eauto]. cbn in Hz. destruct (Z.eqb_spec u z) as [->|]; [done|lia].
  - intros w z [[_ ?]|[_ Hx]]%Eu; [done|]. apply En. eauto.
  - intros w e (e' & He & _ & -> & _)%Ed Hdet. rewrite Ew. destruct (Z.eqb_spec u w) as [->|]; [congruence|]. rewrite (v_det0 w e') by done. lia.
  - intros w [[_ ?]|[_ Hx]]%Eu; [done|]. destruct (v_remove0 w Hx) as (e & He & Hde). destruct (decide (w = u)) as [->|]; [congruence|].
    exists e. by rewrite lookup_insert_ne.
  - intros Hs w z [[-> [= ->]]|[_ Hx]]%Eu; apply not_eq_None_Some; rewrite En; apply not_eq_None_Some; [|eauto].
    destruct Hp as [?|Hw0]; [congruence|]. destruct (pc !! u) eqn:E; [by eexists|]. destruct (v_ended0 u d Hu Hd E) as [_ H2]. lia.
Qed.

(** A woken thread goes on, and the count is that of the others, or -1. *)
Lemma tinv_leave l c pc en t u d k :
  tinv l c pc en -> pc !! t = Some (Woken u) -> u ∈ l ++ [main] -> c !! u = Some d ->
  k = waiters pc u - 1 /\ 0 < k \/ k = -1 /\ waiters pc u = 1 -> tinv l (<[u := set_count k d]> c) (<[t := Running]> pc) en.
Proof.
  intros I Ht Hu Hd Hk. set (d' := set_count _ d).
  assert (forall w, waiters (<[t := Running]> pc) w = waiters pc w - if u =? w then 1 else 0) as Ew by (intros w; rewrite (waiters_insert _ _ _ _ _ Ht); cbn; lia).
  assert (forall w, <[t := Running]> pc !! w = None <-> pc !! w = None) as En.
  { intros w. destruct (decide (w = t)) as [->|]; [rewrite lookup_insert_eq, Ht; done|by rewrite lookup_insert_ne]. }
  assert (forall w x, <[t := Running]> pc !! w = Some x -> w = t /\ x = Running \/ w <> t /\ pc !! w = Some x) as Eu.
  { intros w x. destruct (decide (w = t)) as [->|]; [rewrite lookup_insert_eq; intros [= <-]; auto|rewrite lookup_insert_ne by done; auto]. }
  assert (forall w e, <[u := d']> c !! w = Some e -> w = u /\ e = d' \/ w <> u /\ c !! w = Some e) as Ed.
  { intros w e. destruct (decide (w = u)) as [->|]; [rewrite lookup_insert_eq; intros [= <-]; auto|rewrite lookup_insert_ne by done; auto]. }
  assert (forall w, is_Some (<[u := d']> c !! w) <-> is_Some (c !! w)) as Es.
  { intros w. destruct (decide (w = u)) as [->|]; [rewrite lookup_insert_eq, Hd; split; eauto|by rewrite lookup_insert_ne]. }
  assert (forall w, <[t := Running]> pc !! w = Some ExitFree <-> pc !! w = Some ExitFree) as Ef.
  { intros w. destruct (decide (w = t)) as [->|]; [rewrite lookup_insert_eq, Ht; done|by rewrite lookup_insert_ne]. }
  pose proof (v_woken _ _ _ _ I t u Ht) as Hnone. destruct I. split.
  - intros w. by rewrite Es, Ef.
  - intros w. rewrite Ef. auto.
  - intros w [x Hx]. apply Es. apply Eu in Hx as [[-> _]|[_ Hx]]; eauto.
  - destruct (decide (main = t)) as [<-|]; [exists Running; by rewrite lookup_insert_eq|]. by rewrite lookup_insert_ne.
  - intros w e [[-> ->]|[_ He]]%Ed; [exact (v_intern0 u d Hd)|eauto].
  - intros w e x Hw [[-> ->]|[Hne He]]%Ed Hx; [apply En in Hnone; congruence|].
    rewrite Ew. destruct (Z.eqb_spec u w) as [->|]; [done|]. assert (t_join_count e = waiters pc w) as ->; [|lia]. apply Eu in Hx as [[-> _]|[_ Hx]]; eauto.
  - intros w e Hw [[-> ->]|[Hne He]]%Ed Hx; rewrite Ew.
    + destruct (v_ended0 u d Hu Hd Hnone) as [H1 _]. split; [done|]. cbn. rewrite Z.eqb_refl. lia.
    + destruct (Z.eqb_spec u w) as [->|]; [done|]. rewrite Z.sub_0_r. apply En in Hx. eauto.
  - intros w x z [[-> ->]|[_ Hx]]%Eu Hz; [done|eauto].
  - intros w z [[_ ?]|[_ Hx]]%Eu; [done|]. apply En. eauto.
  - intros w e [[-> ->]|[Hne He]]%Ed Hdet; rewrite Ew.
    + pose proof (v_det0 u d Hd Hdet). lia.
    + destruct (Z.eqb_spec u w) as [->|]; [done|]. rewrite Z.sub_0_r. eauto.
  - intros w [[_ ?]|[_ Hx]]%Eu; [done|]. destruct (v_remove0 w Hx) as (e & He & Hde). assert (w <> u) by congruence. exists e. by rewrite lookup_insert_ne.
  - intros Hs w z [[_ ?]|[_ Hx]]%Eu; [done|]. apply not_eq_None_Some. rewrite En. apply not_eq_None_Some. eauto.
Qed.

Lemma tinv_member l c pc en t x : tinv l c pc en -> pc !! t = Some x -> x <> ExitFree -> t ∈ l ++ [main] /\ exists d, c !! t = Some d.
Proof.
  intros I Ht Hx. destruct (v_live _ _ _ _ I t) as [d Hd]; [by exists x|]. split; [|by exists d].
  destruct (proj1 (v_dom _ _ _ _ I t)) as [?|?]; [by exists d|done|congruence].
Qed.
Lemma tinv_main l c pc en t : tinv l c pc en -> pc !! t = None -> t <> main.
Proof. intros I Ht ->. destruct (v_main _ _ _ _ I) as (x & Hx & _). congruence. Qed.
Lemma waits_self pc t u x : pc !! t = Some x -> waits u x = 1 -> 1 <= waiters pc u.
Proof. intros Ht Hx. rewrite <- Hx. by apply (msum_ge_one (waits u) pc t x (waits_nonneg u)). Qed.

Lemma tinv_removing l c pc en t : tinv l c pc en -> pc !! t = Some ExitRemove -> t ∈ l.
Proof.
  intros I Ht. destruct (tinv_member _ _ _ _ _ _ I Ht ltac:(done)) as [[?|Hin]%elem_of_app _]; [done|]. apply list_elem_of_singleton in Hin.
  by destruct (tinv_leaving _ _ _ _ _ _ I Ht ltac:(tauto)).
Qed.

(** The calls that may find a dead thread. *)
Lemma joined_sound s pc en u s' r :
  sound (TSys s pc en) -> join_begin s u = Some (s', JReturn r) -> sound (TSys s' pc en) /\ forall v, r = Good v -> en !! u = Some v /\ pc !! u = None.
Proof.
  intros (l & Hl & I) E. cbn in Hl, I. pose proof (join_begin_spec s u l main Hl) as Hj. case_decide as Hin; [|rewrite Hj in E; simplify_eq; split; [by exists l|done]].
  destruct Hj as (d & Hd & Hj). destruct (detached _); [rewrite Hj in E; simplify_eq; split; [by exists l|done]|].
  destruct (Z.leb_spec 0 (t_join_count d)) as [H0|H0]; [destruct Hj as (s1 & Hj & _); rewrite Hj in E; discriminate|].
  assert (pc !! u = None) as Hn by (destruct (pc !! u) eqn:Ep; [|done]; rewrite (v_alive _ _ _ _ I _ _ _ Hin Hd Ep) in H0; pose proof (waiters_nonneg pc u); lia).
  destruct (v_ended _ _ _ _ I u d Hin Hd Hn) as [He Hc]. pose proof (tinv_main _ _ _ _ _ I Hn) as Hm.
  destruct (join_end_spec s u l main d (t_join_count d) Hl Hin Hd) as (s1 & Ee & H1); [done|by intros; eapply v_intern|].
  rewrite Hj, Ee in E. cbn [mbind option_bind] in E. simplify_eq. rewrite (proj2 (Z.leb_le _ 0)) in H1 by lia. destruct H1 as (l' & Hl' & Ec & Hu).
  split; [|by intros v [= <-]]. exists l'. split; [done|]. cbn. rewrite Ec. eapply tinv_drop; [exact I|done|lia|done].
Qed.

Lemma join_rest_sound s pc en t u :
  sound (TSys s pc en) -> pc !! t = Some (Woken u) ->
  exists s' v, join_rest s u = Some (s', v) /\ en !! u = Some v /\ pc !! u = None /\ sound (TSys s' (<[t := Running]> pc) en).
Proof.
  intros (l & Hl & I) Ht. cbn in Hl, I. pose proof (v_woken _ _ _ _ I t u Ht) as Hn. pose proof (tinv_main _ _ _ _ _ I Hn) as Hm.
  assert (waits u (Woken u) = 1) as Hw by (cbn; by rewrite Z.eqb_refl). pose proof (v_target _ _ _ _ I _ _ _ Ht Hw) as Hin. pose proof (waits_self _ _ _ _ Ht Hw).
  destruct (proj2 (v_dom _ _ _ _ I u) (or_introl Hin)) as [d Hd]. destruct (v_ended _ _ _ _ I u d Hin Hd Hn) as [He Hc].
  destruct (join_rest_spec s u l main d Hl Hin Hd) as (s' & E & H1); [done|by intros; eapply v_intern|].
  exists s', (t_return_value d). split; [done|]. split; [done|]. split; [done|].
  destruct (Z.leb_spec (t_join_count d - 1) 0) as [H0|H0].
  - destruct H1 as (l' & Hl' & Ec & Hu). exists l'. split; [done|]. cbn. rewrite Ec.
    pose proof (tinv_leave l _ pc en t u d (-1) I Ht Hin Hd ltac:(lia)) as I'.
    pose proof (tinv_drop l l' _ _ en u I') as I''. rewrite delete_insert_eq in I''. apply I''; [|rewrite (waiters_insert _ _ _ _ _ Ht), Hw; cbn; lia|done].
    rewrite lookup_insert_ne; [done|]. congruence.
  - destruct H1 as [Hl' Ec]. exists l. split; [done|]. cbn. rewrite Ec. apply (tinv_leave l _ pc en t u d _ I Ht Hin Hd). lia.
Qed.

Context (Hsp : spurious p = false) (Hdj : detach_joined p = false) (Hme : main_exits p = false).

Lemma step_sound s s' : sound s -> thread_step s s' -> sound s'.
Proof.
  intros HS Hstep. destruct Hstep as [s pc en t calloc mmap mprotect clone errno attr s' a Ht Hfr E|s pc en t calloc mmap mprotect clone errno attr s' e Ht Hfr E
    |s pc en t v b Ht Hm E|s pc en t v s' b Ht E|s pc en t s' Ht E|s pc en t s' Ht E|s pc en t u s' Ht Hp E|s pc en t u s' r Ht E|s pc en t u Hp Ht
    |s pc en t u s' v Ht E|s pc en t u s' r Ht Hp E].
  1,2: destruct HS as (l & Hl & I); cbn in Hl, I;
    assert (forall a, calloc = Some a -> cores s !! a = None) as Hfr' by (intros x Hx; unfold cores; by rewrite lookup_fmap, Hfr);
    destruct (create_spec s _ calloc mmap mprotect clone errno attr Hl Hfr') as (s2 & r & E2 & H2); rewrite E in E2; simplify_eq.
  - destruct H2 as (-> & Hl' & d & Ec & H0 & H1 & _). exists (a :: l). split; [done|]. cbn. rewrite Ec. apply tinv_create; auto.
  - subst. by exists l.
  - destruct Hm as [?|Hm]; [congruence|].
    destruct HS as (l & Hl & I). exists l. split; [done|]. cbn in *. unfold exit_detached in E. destruct (descs s !! t) as [d|] eqn:Hd; [|done].
    cbn in E. injection E as <-. apply (tinv_goto l _ pc en t Running); try done.
    + by intros u; destruct (detached _).
    + intros u. left. by destruct (detached _).
    + by destruct (detached _).
    + intros Hy. exists (erase d). split; [by apply cores_lookup|]. cbn. by destruct (detached _).
    + intros u Hy. by destruct (detached _).
  - destruct HS as (l & Hl & I). cbn in Hl, I. destruct (tinv_member _ _ _ _ _ _ I Ht ltac:(done)) as [Hin [d Hd]].
    destruct (exit_joinable_spec s t v d _ Hl Hd) as (s2 & E2 & Hl2 & Ec). rewrite E in E2. simplify_eq. exists l. split; [done|]. cbn. rewrite Ec. by apply tinv_end.
  - destruct HS as (l & Hl & I). cbn in Hl, I. pose proof (tinv_removing _ _ _ _ _ I Ht) as Hin'.
    destruct (remove_member s t l main Hl Hin') as (s2 & l' & E2 & Hl2 & Ec & Hu). unfold _pthread_internal_remove in E. rewrite E in E2. simplify_eq.
    exists l'. split; [done|]. cbn. rewrite Ec. by eapply tinv_unlink.
  - destruct HS as (l & Hl & I). cbn in Hl, I. destruct (v_live _ _ _ _ I t) as [d Hd]; [by exists ExitFree|]. pose proof (v_gone _ _ _ _ I t Ht) as Hg.
    destruct (free_listed s t d _ Hl Hg Hd) as (s2 & E2 & Hl2 & Ec); [eapply v_intern; [exact I|exact Hd|]; intros ->; apply Hg, elem_of_app; right; by left|].
    rewrite E in E2. simplify_eq. exists l. split; [done|]. cbn. rewrite Ec. by apply tinv_free.
  - destruct HS as (l & Hl & I). cbn in Hl, I. pose proof (join_begin_spec s u l main Hl) as Hj. case_decide as Hin; [|rewrite Hj in E; discriminate].
    destruct Hj as (d & Hd & Hj). destruct (detached _) eqn:Ed; [rewrite Hj in E; discriminate|]. destruct (Z.leb_spec 0 (t_join_count d)).
    + destruct Hj as (s2 & E2 & Hl2 & Ec). rewrite E in E2. simplify_eq. exists l. split; [done|]. cbn. rewrite Ec. by apply tinv_wait.
    + rewrite Hj in E. destruct (join_end s u (t_join_count d)) as [[]|]; discriminate.
  - by apply (joined_sound s pc en u s' r HS E).
  - congruence.
  - destruct (join_rest_sound s pc en t u HS Ht) as (s2 & v2 & E2 & _ & _ & H2). rewrite E in E2. simplify_eq. done.
  - destruct HS as (l & Hl & I). cbn in Hl, I. destruct (detach_spec s u _ Hl) as (s2 & r2 & E2 & Hl2 & H2). rewrite E in E2. simplify_eq. exists l. split; [done|]. cbn.
    case_decide; [|by destruct H2 as [-> _]]. destruct H2 as (d & Hd & H2). destruct (detached _) eqn:Ed; [by destruct H2 as [-> _]|]. destruct H2 as [_ ->].
    destruct Hp as [?|Hp]; [congruence|]. eapply tinv_fields; [exact I|exact Hd|..]; try done. congruence.
Qed.

Lemma main_sound kernel_id attr s : main_only kernel_id attr = Some s -> sound s.
Proof.
  unfold main_only. set (s0 := TList None _). assert (cores s0 !! main = Some (Desc None RList (Attr 0 0 0 0 0 0) 0 0 0 0)) as Hc.
  { exact (cores_lookup s0 main (Desc None RList (Attr 0 0 0 0 0 0) 0 0 0 0) (lookup_singleton_eq _ _)). }
  unfold _init_thread. edestruct (with_fields s0 main) as (s1 & -> & Hl1 & Ec1); [exact Hc|done|]. cbn [mbind option_bind].
  assert (listed s0 []) as Hl0 by (split; [apply NoDup_nil_2|]; exists RList; done).
  destruct (add_listed s1 main []) as (s2 & -> & Hl2 & Ec2); [by apply Hl1|by intros H; inversion H|rewrite Ec1, lookup_insert_eq; by eexists|].
  cbn [mbind option_bind]. intros [= <-]. exists []. split; [done|]. cbn [lst pcs ended]. rewrite Ec2, Ec1. unfold cores, s0. cbn [descs]. rewrite map_fmap_singleton.
  assert (forall u, u ∈ [] ++ [main] <-> u = main) as El by (intros u; cbn; apply list_elem_of_singleton).
  assert (forall u, waiters {[main := Running]} u = 0) as Ew by (intros u; apply msum_zero; intros i x Hx; apply lookup_singleton_Some in Hx as [_ <-]; done).
  rewrite insert_singleton_eq. split.
  - intros u. rewrite El, lookup_singleton_is_Some, lookup_singleton_Some. naive_solver.
  - intros u Hu. apply lookup_singleton_Some in Hu as [_ ?]. done.
  - intros u. rewrite !lookup_singleton_is_Some. done.
  - exists Running. by rewrite lookup_singleton_eq.
  - intros u d Hu. apply lookup_singleton_Some in Hu as [-> _]. done.
  - intros u d x _ Hu _. rewrite Ew. by apply lookup_singleton_Some in Hu as [_ <-].
  - intros u d Hu _ Hn. apply El in Hu as ->. by rewrite lookup_singleton_eq in Hn.
  - intros t x u Hx. apply lookup_singleton_Some in Hx as [_ <-]. done.
  - intros t u Hx. by apply lookup_singleton_Some in Hx as [_ ?].
  - intros. apply Ew.
  - intros u Hx. by apply lookup_singleton_Some in Hx as [_ ?].
  - intros _ t u Hx. by apply lookup_singleton_Some in Hx as [_ ?].
Qed.

Lemma reachable_sound kernel_id attr s0 s : main_only kernel_id attr = Some s0 -> rtc thread_step s0 s -> sound s.
Proof. intros H0 Hr. pose proof (main_sound _ _ _ H0) as HS. clear H0. induction Hr; eauto using step_sound. Qed.
End System.

(** Every call finds what it needs. *)
Section Calls.
Context (main : Z) (p : perms) (s : tsys) (HS : sound main p s).

Lemma join_begin_total u :
  exists s' r, join_begin (lst s) u = Some (s', r) /\ forall v, r = JReturn (Good v) -> ended s !! u = Some v /\ pcs s !! u = None.
Proof.
  assert (is_Some (join_begin (lst s) u)) as [[s' r] E].
  - destruct HS as (l & Hl & I). pose proof (join_begin_spec (lst s) u l main Hl) as Hj. case_decide as Hin; [|rewrite Hj; by eexists].
    destruct Hj as (d & Hd & Hj). destruct (detached _); [rewrite Hj; by eexists|]. destruct (Z.leb_spec 0 (t_join_count d)) as [H0|H0].
    { destruct Hj as (s1 & -> & _). by eexists. }
    assert (u <> main) as Hm.
    { intros ->. destruct (v_main _ _ _ _ _ _ I) as (x & Hx & _). rewrite (v_alive _ _ _ _ _ _ I _ _ _ Hin Hd Hx) in H0. pose proof (waiters_nonneg (pcs s) main). lia. }
    destruct (join_end_spec (lst s) u l main d (t_join_count d) Hl Hin Hd) as (s1 & Ee & _); [done|by intros; eapply v_intern|].
    rewrite Hj, Ee. by eexists.
  - exists s', r. split; [done|]. intros v ->. destruct s as [ls pc en]. by apply (joined_sound main p ls pc en u s' (Good v) HS E).
Qed.

Lemma detach_total u : is_Some (pthread_detach (lst s) u).
Proof. destruct HS as (l & Hl & _). destruct (detach_spec (lst s) u _ Hl) as (s' & r & -> & _). by eexists. Qed.
Lemma create_total calloc mmap mprotect clone errno attr :
  (forall a, calloc = Some a -> descs (lst s) !! a = None) -> is_Some (pthread_create calloc mmap mprotect clone errno attr (lst s)).
Proof.
  intros Hf. destruct HS as (l & Hl & _). destruct (create_spec (lst s) _ calloc mmap mprotect clone errno attr Hl) as (s' & r & -> & _); [|by eexists].
  intros a Ha. unfold cores. by rewrite lookup_fmap, Hf.
Qed.
Lemma exit_total t :
  (forall v, pcs s !! t = Some (ExitJoin v) -> is_Some (exit_joinable (lst s) t v)) /\
  (pcs s !! t = Some ExitRemove -> is_Some (_pthread_internal_remove (lst s) t)) /\
  (pcs s !! t = Some ExitFree -> is_Some (_pthread_internal_free (lst s) t)).
Proof.
  destruct HS as (l & Hl & I). split_and!.
  - intros v Ht. destruct (tinv_member _ _ _ _ _ _ _ _ I Ht ltac:(done)) as [Hin [d Hd]].
    destruct (exit_joinable_spec (lst s) t v d _ Hl Hd) as (s' & -> & _). by eexists.
  - intros Ht. destruct (remove_member (lst s) t l main Hl) as (s' & l' & E & _); [by eapply tinv_removing|by exists s'].
  - intros Ht. destruct (v_live _ _ _ _ _ _ I t) as [d (d' & Hd & _)%cores_inv]; [by eexists|]. unfold _pthread_internal_free. rewrite Hd. by eexists.
Qed.
End Calls.

(** ** What holds in every state *)

(** C22.  In every state that calls of pthread_create, pthread_exit, pthread_join and pthread_detach by
    any number of threads can reach, if the condition variables wake nobody without a broadcast, no
    thread is detached while it is joined, and the main thread does not call pthread_exit (it is the last
    of the list, and its removal goes through the null pointer behind it): the descriptor of every thread that has not ended is
    allocated, and every call finds the list intact and touches no freed memory; a join that succeeds
    answers the value that the thread it names gave to pthread_exit, and only after it ended; and if no
    thread is joined by two others at a time, whoever sleeps in pthread_join sleeps for a thread that
    has not ended. *)
Theorem thread_lifecycle main p kernel_id attr s0 s :
  spurious p = false -> detach_joined p = false -> main_exits p = false -> main_only main kernel_id attr = Some s0 -> rtc (thread_step main p) s0 s ->
  (forall t, is_Some (pcs s !! t) -> is_Some (descs (lst s) !! t)) /\
  (forall calloc mmap mprotect clone errno attr, (forall a, calloc = Some a -> descs (lst s) !! a = None) ->
    is_Some (pthread_create calloc mmap mprotect clone errno attr (lst s))) /\
  (forall u, exists s' r, join_begin (lst s) u = Some (s', r) /\ forall v, r = JReturn (Good v) -> ended s !! u = Some v /\ pcs s !! u = None) /\
  (forall u, is_Some (pthread_detach (lst s) u)) /\
  (forall t u, pcs s !! t = Some (Woken u) -> exists s' v, join_rest (lst s) u = Some (s', v) /\ ended s !! u = Some v /\ pcs s !! u = None) /\
  (forall t,
    (forall v, pcs s !! t = Some (ExitJoin v) -> is_Some (exit_joinable (lst s) t v)) /\
    (pcs s !! t = Some ExitRemove -> is_Some (_pthread_internal_remove (lst s) t)) /\
    (pcs s !! t = Some ExitFree -> is_Some (_pthread_internal_free (lst s) t))) /\
  (several p = false -> forall t u, pcs s !! t = Some (Joining u) -> is_Some (pcs s !! u)).
Proof.
  intros Hsp Hdj Hme H0 Hr. pose proof (reachable_sound main p Hsp Hdj Hme kernel_id attr s0 s H0 Hr) as HS. split; [|split; [|split; [|split; [|split; [|split]]]]].
  - intros t Ht. destruct HS as (l & _ & I). destruct (v_live _ _ _ _ _ _ I t Ht) as [d (d' & Hd & _)%cores_inv]. by exists d'.
  - intros. by eapply create_total.
  - intros u. by eapply join_begin_total.
  - intros u. by eapply detach_total.
  - intros t u Ht. destruct s as [ls pc en]. destruct (join_rest_sound main p ls pc en t u HS Ht) as (s' & v & ? & ? & ? & _). by exists s', v.
  - intros t. by eapply exit_total.
  - intros Hs. destruct HS as (l & _ & I). by eapply v_single.
Qed.

(** ** Executions, and what the conditions rule out *)
Inductive move : Type :=
| MCreate (t a : Z)
| MExit (t v : Z)
| MEnd (t : Z)                (** the next part of pthread_exit *)
| MJoin (t u : Z)
| MSpurious (t : Z)
| MGoOn (t : Z)               (** the rest of pthread_join *)
| MDetach (t u : Z).

#[global] Instance tpc_eq_dec : EqDecision tpc.
Proof. solve_decision. Defined.

Section Moves.
Context (main : Z) (p : perms).

Definition no_waiters (pc : gmap Z tpc) (u : Z) : bool := waiters pc u =? 0.
Definition do_move (m : move) (s : tsys) : option tsys :=
  let 'TSys l pc en := s in
  match m with
  | MCreate t a =>
      if decide (pc !! t = Some Running) then
        if decide (descs l !! a = None) then
          r ← pthread_create (Some a) (fun _ => Some 4096) (fun _ _ => 0) 101 0 None l;
          match r with
          | (l', Good a) => Some (TSys l' (<[a := Running]> pc) (delete a en))
          | _ => None
          end
        else None
      else None
  | MExit t v =>
      if decide (pc !! t = Some Running /\ (main_exits p = true \/ t <> main)) then b ← exit_detached l t; Some (TSys l (<[t := if (b : bool) then ExitRemove else ExitJoin v]> pc) en) else None
  | MEnd t =>
      match pc !! t with
      | Some (ExitJoin v) => '(l', b) ← exit_joinable l t v; Some (TSys l' (delete t (if (b : bool) then wake t <$> pc else pc)) (<[t := v]> en))
      | Some ExitRemove => l' ← _pthread_internal_remove l t; Some (TSys l' (<[t := ExitFree]> pc) en)
      | Some ExitFree => l' ← _pthread_internal_free l t; Some (TSys l' (delete t pc) en)
      | _ => None
      end
  | MJoin t u =>
      if decide (pc !! t = Some Running) then
        '(l', r) ← join_begin l u;
        match r with
        | JWait => if several p || no_waiters pc u then Some (TSys l' (<[t := Joining u]> pc) en) else None
        | JReturn _ => Some (TSys l' pc en)
        end
      else None
  | MSpurious t => match pc !! t with Some (Joining u) => if spurious p then Some (TSys l (<[t := Woken u]> pc) en) else None | _ => None end
  | MGoOn t => match pc !! t with Some (Woken u) => '(l', _) ← join_rest l u; Some (TSys l' (<[t := Running]> pc) en) | _ => None end
  | MDetach t u =>
      if decide (pc !! t = Some Running) then
        if detach_joined p || no_waiters pc u then '(l', _) ← pthread_detach l u; Some (TSys l' pc en) else None
      else None
  end.

Lemma guard_spec b pc u : b || no_waiters pc u = true -> b = true \/ waiters pc u = 0.
Proof. intros [->|H]%orb_true_iff; [by left|right]. unfold no_waiters in H. by apply Z.eqb_eq. Qed.

Lemma do_move_step m s s' : do_move m s = Some s' -> thread_step main p s s'.
Proof.
  destruct s as [l pc en]. destruct m as [t a|t v|t|t u|t|t|t u]; cbn [do_move].
  - case_decide; [|done]. case_decide; [|done]. destruct (pthread_create _ _ _ _ _ _ _) as [[l' [e|b]]|] eqn:E; cbn; [done| |done]. intros [= <-].
    eapply s_create; [done| |exact E]. by intros ? [= <-].
  - case_decide as H; [|done]. destruct (exit_detached l t) as [b|] eqn:E; cbn; [|done]. intros [= <-]. destruct H. by apply s_exit.
  - destruct (pc !! t) as [[]|] eqn:Ht; try done.
    + destruct (exit_joinable l t v) as [[l' b]|] eqn:E; cbn; [|done]. intros [= <-]. by apply s_exit_joinable.
    + destruct (_pthread_internal_remove l t) as [l'|] eqn:E; cbn; [|done]. intros [= <-]. by apply s_exit_remove.
    + destruct (_pthread_internal_free l t) as [l'|] eqn:E; cbn; [|done]. intros [= <-]. by apply s_exit_free.
  - case_decide; [|done]. destruct (join_begin l u) as [[l' [|r]]|] eqn:E; cbn; [| |done].
    + destruct (several p || no_waiters pc u) eqn:Eg; [|done]. intros [= <-]. apply s_join; [done|by apply guard_spec|done].
    + intros [= <-]. by eapply s_joined.
  - destruct (pc !! t) as [[]|] eqn:Ht; try done. destruct (spurious p) eqn:Es; [|done]. intros [= <-]. by apply s_spurious.
  - destruct (pc !! t) as [[]|] eqn:Ht; try done. destruct (join_rest l u) as [[l' v]|] eqn:E; cbn; [|done]. intros [= <-]. by eapply s_join_rest.
  - case_decide; [|done]. destruct (detach_joined p || no_waiters pc u) eqn:Eg; [|done]. destruct (pthread_detach l u) as [[l' r]|] eqn:E; cbn; [|done].
    intros [= <-]. eapply s_detach; [done|by apply guard_spec|done].
Qed.

Fixpoint do_moves (ms : list move) (s : tsys) : option tsys :=
  match ms with
  | [] => Some s
  | m :: ms => s ← do_move m s; do_moves ms s
  end.
Lemma do_moves_reachable ms s s' : do_moves ms s = Some s' -> rtc (thread_step main p) s s'.
Proof.
  revert s. induction ms as [|m ms IH]; intros s; cbn; [by intros [= ->]|]. destruct (do_move m s) as [s1|] eqn:E; cbn; [|done].
  intros H. eapply rtc_l; [by eapply do_move_step|eauto].
Qed.
End Moves.

Definition run_moves (p : perms) (ms : list move) : option tsys := s ← main_only 1 100 gDefaultPthreadAttr; do_moves 1 p ms s.

Lemma run_moves_reachable p ms s : run_moves p ms = Some s -> exists s0, main_only 1 100 gDefaultPthreadAttr = Some s0 /\ rtc (thread_step 1 p) s0 s.
Proof. unfold run_moves. destruct (main_only _ _ _) as [s0|]; cbn; [|done]. intros H. exists s0. split; [done|]. by eapply do_moves_reachable. Qed.

(** Thread 2 joins 3, which ends with 7. *)
Definition join_demo : list move := [MCreate 1 2; MCreate 2 3; MJoin 2 3; MExit 3 7; MEnd 3].

Lemma thread_lifecycle_witness :
  exists s s', run_moves (Perms false false false false) join_demo = Some s /\ pcs s !! 2 = Some (Woken 3) /\ join_rest (lst s) 3 = Some (s', 7).
Proof.
  destruct (run_moves (Perms false false false false) join_demo) as [s|] eqn:E; [|vm_compute in E; discriminate E].
  assert (pcs s !! 2 = Some (Woken 3)) as Hw by (vm_compute in E; injection E as <-; vm_compute; reflexivity).
  assert (ended s !! 3 = Some 7) as He by (vm_compute in E; injection E as <-; vm_compute; reflexivity).
  destruct (run_moves_reachable _ _ _ E) as (s0 & H0 & Hr).
  destruct (thread_lifecycle 1 (Perms false false false false) 100 gDefaultPthreadAttr s0 s eq_refl eq_refl eq_refl H0 Hr) as (_ & _ & _ & _ & Hg & _).
  destruct (Hg 2 3 Hw) as (s' & v & Ej & Ev & _). exists s, s'. split; [reflexivity|]. split; [exact Hw|]. rewrite Ej. congruence.
Defined.

(** pthread_join waits once, without a loop: a wake-up without a broadcast makes it answer for a thread
    that is still running, and free its descriptor. *)
Example spurious_join_frees_running :
  exists s, run_moves (Perms true false false false) [MCreate 1 2; MJoin 1 2; MSpurious 1; MGoOn 1] = Some s /\
    pcs s !! 2 = Some Running /\ descs (lst s) !! 2 = None.
Proof. eexists. split; [vm_compute; reflexivity|]. vm_compute. done. Qed.

(** A join that comes between the end of a thread and the wake-up of the one that joined it sleeps for
    ever, and the descriptor is never freed. *)
Example late_join_sleeps :
  exists s, run_moves (Perms false true false false) [MCreate 1 2; MCreate 1 3; MCreate 1 4; MJoin 3 2; MExit 2 7; MEnd 2; MJoin 4 2; MGoOn 3] = Some s /\
    pcs s !! 4 = Some (Joining 2) /\ pcs s !! 2 = None /\ is_Some (descs (lst s) !! 2).
Proof. eexists. split; [vm_compute; reflexivity|]. vm_compute. eauto. Qed.

(** A thread that is detached while it is joined frees its descriptor and never wakes the one that sleeps. *)
Example detach_strands_join :
  exists s, run_moves (Perms false false true false) [MCreate 1 2; MCreate 1 3; MJoin 3 2; MDetach 1 2; MExit 2 7; MEnd 2; MEnd 2] = Some s /\
    pcs s !! 3 = Some (Joining 2) /\ descs (lst s) !! 2 = None.
Proof. eexists. split; [vm_compute; reflexivity|]. vm_compute. done. Qed.

(** pthread_detach of a thread that has ended leaves its descriptor for ever: no join accepts it. *)
Example detach_leaks_zombie :
  exists s, run_moves (Perms false false false false) [MCreate 1 2; MExit 2 7; MEnd 2; MDetach 1 2] = Some s /\
    is_Some (descs (lst s) !! 2) /\ pcs s !! 2 = None /\ (snd <$> join_begin (lst s) 2) = Some (JReturn (Fail EINVAL)).
Proof. eexists. split; [vm_compute; reflexivity|]. vm_compute. eauto. Qed.

(** The descriptor of the main thread is the last of the list: joining it when it has left with
    pthread_exit goes through a null pointer. *)
Example join_main_faults :
  exists s, run_moves (Perms false false false true) [MCreate 1 2; MExit 1 0; MEnd 1] = Some s /\
    pcs s !! 1 = None /\ ended s !! 1 = Some 0 /\ join_begin (lst s) 1 = None.
Proof. eexists. split; [vm_compute; reflexivity|]. vm_compute. done. Qed.
