(* ===== verification/Environ.v ===== *)
(** * The environment (libc/stdlib: getenv.c, setenv.c, putenv.c, libc/bionic/clearenv.c)

    environ is the list of the blocks that hold its strings, up to the null pointer.  The
    arguments name, value and str are the characters from the pointer on, with their NUL.
    [None] is an access outside a block.  For getenv, environ and name may be null pointers, [None]; the
    others are given an environ.  malloc answers a block of the size that it is asked
    for, and an array that realloc gives has the entries of the old one. *)
From S2P Require Import Prelude CMem CString CStrCopy.
#[local] Open Scope nat_scope.

Definition EQUALS : Z := 0x3d.

(** for (np = name; *np && *np != '='; ++np): the length of the name *)
Fixpoint name_length (name : list Z) : option nat :=
  match name with
  | [] => None
  | c :: name => if ((c =? 0) || (c =? EQUALS))%Z then Some 0 else S <$> name_length name
  end.

(** for (np = name, i = len; i && *cp; i--) and the test after it: the place of the value *)
Fixpoint match_entry (i : nat) (e : cmem) (cp : nat) (np : list Z) : option (option nat) :=
  match i with
  | O => c ← e !! cp; Some (if (c =? EQUALS)%Z then Some (S cp) else None)
  | S i =>
      c ← e !! cp;
      if (c =? 0)%Z then Some None
      else n ← hd_error np; if negb (c =? n)%Z then Some None else match_entry i e (S cp) (tail np)
  end.
(** for (p = environ; (cp = *p) != NULL; ++p) *)
Fixpoint find_entry (environ : list cmem) (len : nat) (name : list Z) (offset : nat) : option (option (nat * nat)) :=
  match environ with
  | [] => Some None
  | e :: environ =>
      r ← match_entry len e 0 name;
      match r with
      | Some cp => Some (Some (offset, cp))
      | None => find_entry environ len name (S offset)
      end
  end.
(** The offset of the entry and the place of the value in it. *)
Definition __findenv (environ : option (list cmem)) (name : option (list Z)) : option (option (nat * nat)) :=
  match name, environ with
  | Some name, Some environ => len ← name_length name; find_entry environ len name 0
  | _, _ => Some None
  end.
Definition getenv (environ : option (list cmem)) (name : option (list Z)) : option (option (nat * nat)) := __findenv environ name.

(** while (( *C++ = *value++)) *)
Fixpoint put_string (value : list Z) (e : cmem) (C : nat) : option cmem :=
  match value with
  | [] => None
  | c :: value => e ← st e C c; if (c =? 0)%Z then Some e else put_string value e (S C)
  end.
(** for (C = environ[offset]; ( *C = *name++) && *C != '='; ++C) *)
Fixpoint put_name (name : list Z) (e : cmem) (C : nat) : option (cmem * nat) :=
  match name with
  | [] => None
  | c :: name => e ← st e C c; if ((c =? 0) || (c =? EQUALS))%Z then Some (e, C) else put_name name e (S C)
  end.

Definition setenv (malloc : nat -> option cmem) (realloc : bool) (environ : list cmem) (name value : list Z) (rewrite : Z)
    : option (list cmem * Z) :=
  v ← hd_error value;
  let value := if (v =? EQUALS)%Z then tail value else value in
  l_value ← strlen value 0;
  found ← __findenv (Some environ) (Some name);
  let replace environ offset :=
    n ← name_length name;
    match malloc (n + l_value + 2) with
    | None => Some (take offset environ, (-1)%Z)
    | Some e =>
        '(e, C) ← put_name name e 0;
        e ← st e C EQUALS;
        e ← put_string value e (S C);
        Some (<[offset := e]> environ, 0%Z)
    end in
  match found with
  | Some (offset, C) =>
      if (rewrite =? 0)%Z then Some (environ, 0%Z)
      else
        e ← environ !! offset;
        old ← strlen e C;
        if l_value <=? old then e ← put_string value e C; Some (<[offset := e]> environ, 0%Z)
        else replace environ offset
  | None =>
      if negb realloc then Some (environ, (-1)%Z)
      else replace (environ ++ [[]]) (length environ)
  end.

(** while (__findenv(name, &offset)), the entries behind moving down by one *)
Fixpoint unset_loop (fuel : nat) (environ : list cmem) (name : list Z) : option (list cmem) :=
  match fuel with
  | O => None
  | S fuel =>
      found ← __findenv (Some environ) (Some name);
      match found with
      | Some (offset, _) => unset_loop fuel (take offset environ ++ drop (S offset) environ) name
      | None => Some environ
      end
  end.
Definition unsetenv (environ : list cmem) (name : list Z) : option (list cmem) := unset_loop (S (length environ)) environ name.

(** [p] is what strdup gives. *)
Definition putenv (malloc : nat -> option cmem) (realloc strdup : bool) (environ : list cmem) (str : list Z) : option (list cmem * Z) :=
  if negb strdup then Some (environ, (-1)%Z)
  else
    equal ← strchr str 0 EQUALS;
    match equal with
    | None => Some (environ, (-1)%Z)
    | Some k => setenv malloc realloc environ (take k str ++ [0%Z]) (drop (S k) str) 1
    end.

Definition clearenv (environ : list cmem) : list cmem := [].

(** ** What the environment says *)

(** The value that a string gives to a name. *)
Definition value_of (key s : list Z) : option (list Z) :=
  if decide (take (S (length key)) s = key ++ [EQUALS]) then Some (drop (S (length key)) s) else None.
Fixpoint lookup_env (key : list Z) (ss : list (list Z)) : option (list Z) :=
  match ss with
  | [] => None
  | s :: ss => match value_of key s with Some v => Some v | None => lookup_env key ss end
  end.
(** The entries hold these strings. *)
Definition holds (environ : list cmem) (ss : list (list Z)) : Prop := Forall2 (fun e s => cstr e 0 s) environ ss.
Definition is_key (key : list Z) : Prop := Forall (fun c => is_char c /\ c <> EQUALS) key.

(** ** Names and strings *)
Lemma value_of_entry key v : value_of key (key ++ EQUALS :: v) = Some v.
Proof.
  unfold value_of. rewrite decide_True.
  - f_equal. replace (S (length key)) with (length (key ++ [EQUALS])) by (rewrite length_app; cbn; lia).
    replace (key ++ EQUALS :: v) with ((key ++ [EQUALS]) ++ v) by (by rewrite <- app_assoc). apply drop_app_length.
  - replace (S (length key)) with (length (key ++ [EQUALS])) by (rewrite length_app; cbn; lia).
    replace (key ++ EQUALS :: v) with ((key ++ [EQUALS]) ++ v) by (by rewrite <- app_assoc). apply take_app_length.
Qed.
Lemma value_of_inv key s v : value_of key s = Some v -> s = key ++ EQUALS :: v.
Proof.
  unfold value_of. case_decide as H; [|done]. intros [= <-]. rewrite <- (take_drop (S (length key)) s) at 1. by rewrite H, <- app_assoc.
Qed.

Lemma is_key_chars key : is_key key -> Forall is_char key.
Proof. intros H. induction H as [|c key [Hc _] H IH]; by constructor. Qed.

(** A string belongs to one name. *)
Lemma entry_name key key' v v' : is_key key -> is_key key' -> key ++ EQUALS :: v = key' ++ EQUALS :: v' -> key = key' /\ v = v'.
Proof.
  intros H. revert key'. induction H as [|c key [_ Hc] H IH]; intros key' H' E; destruct H' as [|c' key' [_ Hc'] H']; cbn in E; simplify_eq; try done.
  destruct (IH key' H' H1) as [-> ->]. done.
Qed.
Lemma value_of_other key key' v : is_key key -> is_key key' -> key <> key' -> value_of key' (key ++ EQUALS :: v) = None.
Proof.
  intros H H' Hne. destruct (value_of key' _) as [v'|] eqn:E; [|done]. apply value_of_inv in E. by destruct (entry_name _ _ _ _ H H' E).
Qed.

(** ** Looking a name up *)

(** [name] begins with the name [key], which a NUL or an equals sign ends. *)
Definition named (name key : list Z) : Prop := is_key key /\ exists c rest, name = key ++ c :: rest /\ (c = 0%Z \/ c = EQUALS).

Lemma named_length name key : named name key -> name_length name = Some (length key).
Proof.
  intros [Hk (c & rest & -> & Hc)]. induction Hk as [|x key [Hx Hne] Hk IH]; cbn.
  - destruct Hc as [->| ->]; done.
  - rewrite (proj2 (Z.eqb_neq x 0)), (proj2 (Z.eqb_neq x _)) by (done || (unfold is_char in Hx; lia)). cbn. by rewrite IH.
Qed.

Lemma match_entry_spec key x e p s :
  is_key key -> cstr e p s ->
  match_entry (length key) e p (key ++ x) = Some (match value_of key s with Some _ => Some (p + S (length key)) | None => None end).
Proof.
  intros Hk. revert p s. induction Hk as [|k key [Hk Hne] Hks IH]; intros p s Hs; cbn [length match_entry].
  - destruct s as [|c s]; cbn in Hs; [rewrite Hs; done|]. destruct Hs as (Hc & Hch & Hs). rewrite Hc. cbn [mbind option_bind]. f_equal.
    destruct (Z.eqb_spec c EQUALS) as [->|Hn].
    + change (EQUALS :: s) with ([] ++ EQUALS :: s). rewrite value_of_entry. cbn. f_equal. lia.
    + destruct (value_of [] (c :: s)) eqn:E; [|done]. apply value_of_inv in E. cbn in E. congruence.
  - destruct s as [|c s]; cbn in Hs; [rewrite Hs; done|]. destruct Hs as (Hc & Hch & Hs). rewrite Hc. cbn [mbind option_bind].
    rewrite (proj2 (Z.eqb_neq c 0)) by (unfold is_char in Hch; lia). cbn [app hd_error mbind option_bind tail].
    assert (value_of (k :: key) (c :: s) = if decide (c = k) then value_of key s else None) as ->.
    { unfold value_of. cbn [length]. change (drop (S (S (length key))) (c :: s)) with (drop (S (length key)) s).
      change (take (S (S (length key))) (c :: s)) with (c :: take (S (length key)) s). change ((k :: key) ++ [EQUALS]) with (k :: (key ++ [EQUALS])).
      destruct (decide (c = k)) as [->|Hn]; [|apply decide_False; congruence].
      destruct (decide (take (S (length key)) s = key ++ [EQUALS])) as [->|Hn]; [by apply decide_True|apply decide_False; congruence]. }
    destruct (Z.eqb_spec c k) as [->|Hn]; cbn [negb]; [|by rewrite decide_False]. rewrite decide_True by done. rewrite (IH (S p) s Hs).
    f_equal. destruct (value_of key s); [f_equal; lia|done].
Qed.

Lemma find_entry_spec name key environ ss off :
  named name key -> holds environ ss ->
  exists r, find_entry environ (length key) name off = Some r /\
    match r with
    | Some (o, cp) => exists i e v, o = off + i /\ cp = S (length key) /\ environ !! i = Some e /\ ss !! i = Some (key ++ EQUALS :: v) /\
        lookup_env key ss = Some v /\ forall j s, j < i -> ss !! j = Some s -> value_of key s = None
    | None => lookup_env key ss = None
    end.
Proof.
  intros Hn H. revert off. induction H as [|e s environ ss He H IH]; intros off; [by exists None|]. cbn [find_entry lookup_env].
  destruct Hn as [Hk (c & rest & -> & Hc)]. rewrite (match_entry_spec key (c :: rest) e 0 s Hk He). cbn [mbind option_bind].
  destruct (value_of key s) as [v|] eqn:Ev.
  - eexists. split; [done|]. exists 0, e, v. apply value_of_inv in Ev as ->. split; [lia|]. split; [done|]. split; [done|]. split; [done|]. split; [done|]. lia.
  - destruct (IH (S off)) as (r & E & Hr). exists r. split; [exact E|]. destruct r as [[o cp]|]; [|done].
    destruct Hr as (i & e' & v & -> & -> & H1 & H2 & H3 & H4). exists (S i), e', v. split; [lia|]. split; [done|]. split; [done|]. split; [done|]. split; [done|].
    intros [|j] s' Hj Hs'; [cbn in Hs'; by injection Hs' as <-|]. apply (H4 j); [lia|done].
Qed.

(** ** Changing it *)
Lemma lookup_env_app key ss1 ss2 : lookup_env key (ss1 ++ ss2) = match lookup_env key ss1 with Some v => Some v | None => lookup_env key ss2 end.
Proof. induction ss1 as [|s ss1 IH]; [done|]. cbn. destruct (value_of key s); [done|]. apply IH. Qed.
Lemma lookup_env_none key ss : (forall s, s ∈ ss -> value_of key s = None) -> lookup_env key ss = None.
Proof.
  induction ss as [|s ss IH]; intros H; [done|]. cbn. rewrite H by (by left). apply IH. intros s' Hs'. apply H. by right.
Qed.

(** An entry for the name takes the place of the first that was there. *)
Lemma lookup_env_insert key ss i v w :
  is_key key -> ss !! i = Some (key ++ EQUALS :: w) -> (forall j s, j < i -> ss !! j = Some s -> value_of key s = None) ->
  let ss' := <[i := key ++ EQUALS :: v]> ss in
  lookup_env key ss' = Some v /\ forall key', is_key key' -> key' <> key -> lookup_env key' ss' = lookup_env key' ss.
Proof.
  intros Hk Hi Hb ss'. assert (i < length ss) as Hl by (apply lookup_lt_Some in Hi; done).
  assert (ss = take i ss ++ (key ++ EQUALS :: w) :: drop (S i) ss) as Es by (symmetry; by apply take_drop_middle).
  assert (ss' = take i ss ++ (key ++ EQUALS :: v) :: drop (S i) ss) as -> by (unfold ss'; by apply insert_take_drop).
  split.
  - rewrite lookup_env_app, lookup_env_none; [cbn; by rewrite value_of_entry|]. intros s (j & Hj)%list_elem_of_lookup.
    apply lookup_take_Some in Hj as [Hj Hji]. apply (Hb j); done.
  - intros key' Hk' Hne. trans (lookup_env key' (take i ss ++ (key ++ EQUALS :: w) :: drop (S i) ss)); [|by rewrite <- Es]. rewrite !lookup_env_app. destruct (lookup_env key' (take i ss)); [done|]. cbn. assert (key <> key') by congruence. by rewrite !value_of_other.
Qed.

Lemma put_string_spec v rest e C :
  Forall is_char v -> C + S (length v) <= length e -> put_string (v ++ 0%Z :: rest) e C = Some (blit e C (v ++ [0%Z])).
Proof.
  intros Hv. revert e C. induction Hv as [|c v Hc Hv IH]; intros e C Hl; cbn [app put_string length] in *; rewrite st_blit by lia; cbn [mbind option_bind].
  - done.
  - rewrite (proj2 (Z.eqb_neq c 0)) by (unfold is_char in Hc; lia). rewrite IH by (rewrite length_blit; cbn; lia). f_equal. apply blit_cons.
    rewrite length_app. cbn. lia.
Qed.
Lemma put_name_spec key c rest e C :
  is_key key -> c = 0%Z \/ c = EQUALS -> C + S (length key) <= length e ->
  put_name (key ++ c :: rest) e C = Some (blit e C (key ++ [c]), C + length key).
Proof.
  intros Hk Hc. revert e C. induction Hk as [|k key [Hk Hne] Hks IH]; intros e C Hl; cbn [app put_name length] in *; rewrite st_blit by lia; cbn [mbind option_bind].
  - assert (((c =? 0) || (c =? EQUALS))%Z = true) as -> by (destruct Hc as [->| ->]; done). by rewrite Nat.add_0_r.
  - rewrite (proj2 (Z.eqb_neq k 0)), (proj2 (Z.eqb_neq k _)) by (done || (unfold is_char in Hk; lia)). cbn [orb].
    rewrite IH by (rewrite length_blit; cbn; lia). f_equal. f_equal; [|lia]. apply blit_cons. rewrite length_app. cbn. lia.
Qed.

(** The block that holds the name, the equals sign and the value. *)
Lemma new_entry key name v rest e :
  named name key -> Forall is_char v -> length e = length key + length v + 2 ->
  exists e', ('(e, C) ← put_name name e 0; e ← st e C EQUALS; put_string (v ++ 0%Z :: rest) e (S C)) = Some e' /\
    cstr e' 0 (key ++ EQUALS :: v).
Proof.
  intros [Hk (c & r & -> & Hc)] Hv Hl. rewrite (put_name_spec key c r e 0) by (done || lia). cbn [mbind option_bind].
  assert (st (blit e 0 (key ++ [c])) (0 + length key) EQUALS = Some (blit e 0 (key ++ [EQUALS]))) as ->.
  { rewrite st_blit by (rewrite length_blit; rewrite ?length_app; cbn; lia). f_equal. unfold blit. cbn [Nat.add take app].
    rewrite take_0. cbn [app]. rewrite <- !app_assoc. rewrite take_app_length, !length_app. cbn [length app]. f_equal. f_equal.
    rewrite drop_app_ge by lia. replace (length key + 1 - length key) with 1 by lia. done. }
  cbn [mbind option_bind]. rewrite put_string_spec by (done || (rewrite length_blit; rewrite ?length_app; cbn; lia)).
  eexists. split; [done|]. assert (length (key ++ [EQUALS]) = S (length key)) as El by (rewrite length_app; cbn; lia).
  rewrite cstr_slice. assert (blit (blit e 0 (key ++ [EQUALS])) (S (0 + length key)) (v ++ [0%Z]) = (key ++ EQUALS :: v) ++ [0%Z]) as ->.
  { unfold blit at 1. rewrite drop_ge by (rewrite length_blit; rewrite ?length_app; cbn; lia). rewrite app_nil_r.
    unfold blit. rewrite take_0. cbn [Nat.add app]. rewrite <- El, take_app_length, <- !app_assoc. done. }
  split; [unfold slice; cbn [drop]; apply take_app_length|]. split; [|by rewrite lookup_app_r, Nat.sub_diag by lia].
  apply Forall_app. split; [by apply is_key_chars|]. constructor; [unfold is_char, EQUALS; lia|done].
Qed.

(** In place: the value is written over one that is no shorter. *)
Lemma old_entry key w v rest e :
  cstr e 0 (key ++ EQUALS :: w) -> Forall is_char v -> length v <= length w ->
  exists e', put_string (v ++ 0%Z :: rest) e (S (length key)) = Some e' /\ cstr e' 0 (key ++ EQUALS :: v).
Proof.
  intros He Hv Hl. pose proof (cstr_fits _ _ _ He) as Hf. rewrite length_app in Hf. cbn in Hf.
  rewrite put_string_spec by (done || lia). eexists. split; [done|].
  replace (key ++ EQUALS :: v) with ((key ++ [EQUALS]) ++ v) by (by rewrite <- app_assoc).
  replace (key ++ EQUALS :: w) with ((key ++ [EQUALS]) ++ w) in He by (by rewrite <- app_assoc).
  apply cstr_app in He as (H1 & H2 & H3). assert (length (key ++ [EQUALS]) = S (length key)) as El by (rewrite length_app; cbn; lia).
  rewrite El in H1, H3. apply cstr_app. rewrite El. split; [|split; [done|apply cstr_written; [done|lia]]].
  trans (slice e 0 (S (length key))); [|exact H1]. unfold slice, blit. rewrite !drop_0, take_app_le by (rewrite length_take; lia). rewrite take_take. f_equal. lia.
Qed.

(** The value without an equals sign in front of it. *)
Definition set_value (v : list Z) : list Z := match v with c :: v' => if (c =? EQUALS)%Z then v' else v | [] => [] end.
Lemma set_value_tail v rest :
  exists c, hd_error (v ++ 0%Z :: rest) = Some c /\ (if (c =? EQUALS)%Z then tail (v ++ 0%Z :: rest) else v ++ 0%Z :: rest) = set_value v ++ 0%Z :: rest.
Proof. destruct v as [|c v]; cbn; [by exists 0%Z|]. exists c. split; [done|]. by destruct (Z.eqb_spec c EQUALS). Qed.
Lemma set_value_chars v : Forall is_char v -> Forall is_char (set_value v).
Proof. intros H. destruct H; cbn; [done|]. case_match; [done|by constructor]. Qed.

(** What setenv answers, when it has its memory: the strings of the environment it leaves. *)
Definition set_strings (ss : list (list Z)) (key v : list Z) (rewrite : Z) (ss' : list (list Z)) : Prop :=
  match lookup_env key ss with
  | Some w =>
      if (rewrite =? 0)%Z then ss' = ss
      else exists i, ss !! i = Some (key ++ EQUALS :: w) /\ (forall j s, j < i -> ss !! j = Some s -> value_of key s = None) /\
        ss' = <[i := key ++ EQUALS :: v]> ss
  | None => ss' = ss ++ [key ++ EQUALS :: v]
  end.

Lemma cstr_of s rest : Forall is_char s -> cstr (s ++ 0%Z :: rest) 0 s.
Proof.
  intros H. apply cstr_slice. split; [unfold slice; cbn [drop]; apply take_app_length|]. split; [done|]. by rewrite lookup_app_r, Nat.sub_diag by lia.
Qed.

Lemma setenv_strings malloc environ ss name key v rest rewrite :
  (forall n, exists e, malloc n = Some e /\ length e = n) -> holds environ ss -> named name key -> Forall is_char v ->
  exists environ' ss', setenv malloc true environ name (v ++ 0%Z :: rest) rewrite = Some (environ', 0%Z) /\
    holds environ' ss' /\ set_strings ss key (set_value v) rewrite ss'.
Proof.
  intros Hm Hh Hn Hv. unfold setenv. destruct (set_value_tail v rest) as (c & -> & E). cbn [mbind option_bind]. rewrite E. clear E c.
  pose proof (set_value_chars v Hv) as Hv'. revert Hv'. generalize (set_value v) as u. clear v Hv. intros u Hu.
  rewrite (strlen_spec _ _ _ (cstr_of u rest Hu)). cbn [mbind option_bind]. unfold __findenv. rewrite (named_length name key Hn). cbn [mbind option_bind].
  destruct (Hm (length key + length u + 2)) as (e & He & Hle). rewrite He. cbn [mbind option_bind].
  destruct (new_entry key name u rest e Hn Hu Hle) as (e' & Ee & He').
  assert (forall (k : cmem -> option (list cmem * Z)), ('(e, C) ← put_name name e 0; e ← st e C EQUALS; e ← put_string (u ++ 0%Z :: rest) e (S C); k e) = k e') as Ek.
  { intros k. revert Ee. destruct (put_name name e 0) as [[e1 C]|]; cbn; [|done]. destruct (st e1 C EQUALS) as [e2|]; cbn; [|done].
    intros ->. done. }
  destruct (find_entry_spec name key environ ss 0 Hn Hh) as (r & -> & Hr). cbn [mbind option_bind]. unfold set_strings.
  destruct r as [[o cp]|].
  - destruct Hr as (i & e0 & w & -> & -> & H1 & H2 & H3 & H4). cbn [Nat.add]. rewrite H3. destruct (rewrite =? 0)%Z; [by exists environ, ss|].
    rewrite H1. cbn [mbind option_bind].
    destruct (Forall2_lookup_l _ _ _ _ _ Hh H1) as (s & Hs & Hc). rewrite H2 in Hs. injection Hs as <-.
    assert (cstr e0 (S (length key)) w) as Hw.
    { replace (key ++ EQUALS :: w) with ((key ++ [EQUALS]) ++ w) in Hc by (by rewrite <- app_assoc). apply cstr_app in Hc as (_ & _ & Hc).
      rewrite length_app, Nat.add_1_r in Hc. exact Hc. }
    rewrite (strlen_spec _ _ _ Hw). cbn [mbind option_bind]. destruct (Nat.leb_spec (length u) (length w)) as [Hle'|Hgt].
    + destruct (old_entry key w u rest e0 Hc Hu Hle') as (e1 & -> & Hc1). cbn [mbind option_bind]. do 2 eexists. split; [done|].
      split; [|by exists i]. by apply Forall2_insert.
    + rewrite Ek. do 2 eexists. split; [done|]. split; [|by exists i]. by apply Forall2_insert.
  - rewrite Hr. cbn [negb]. rewrite Ek. do 2 eexists. split; [done|]. split; [|done].
    replace (length environ) with (length environ + 0) by lia. rewrite insert_app_r. cbn. apply Forall2_app; [done|]. by constructor.
Qed.

Lemma set_strings_lookup ss key v rewrite ss' :
  is_key key -> set_strings ss key v rewrite ss' ->
  lookup_env key ss' = Some (if (rewrite =? 0)%Z then default v (lookup_env key ss) else v) /\
  forall key', is_key key' -> key' <> key -> lookup_env key' ss' = lookup_env key' ss.
Proof.
  unfold set_strings. intros Hk H. destruct (lookup_env key ss) as [w|] eqn:E.
  - destruct (rewrite =? 0)%Z; [by subst|]. destruct H as (i & H1 & H2 & ->). by apply (lookup_env_insert key ss i v w).
  - subst ss'. split.
    + rewrite lookup_env_app, E. cbn. rewrite value_of_entry. cbn. by case_match.
    + intros key' Hk' Hne. rewrite lookup_env_app. destruct (lookup_env key' ss); [done|]. cbn. assert (key <> key') by congruence. by rewrite value_of_other.
Qed.

(** ** Taking a name away *)
Definition without (key : list Z) (ss : list (list Z)) : list (list Z) := filter (fun s => value_of key s = None) ss.
Lemma without_skip key ss i w : ss !! i = Some (key ++ EQUALS :: w) -> without key (take i ss ++ drop (S i) ss) = without key ss.
Proof.
  intros H. rewrite <- (take_drop_middle ss i _ H) at 3. unfold without. rewrite !filter_app. f_equal.
  rewrite filter_cons_False; [done|]. rewrite value_of_entry. done.
Qed.
Lemma lookup_env_without key ss :
  is_key key -> lookup_env key (without key ss) = None /\
  forall key', is_key key' -> key' <> key -> lookup_env key' (without key ss) = lookup_env key' ss.
Proof.
  intros Hk. split.
  - apply lookup_env_none. intros s Hs. apply list_elem_of_filter in Hs. tauto.
  - intros key' Hk' Hne. unfold without. induction ss as [|s ss IH]; [done|]. destruct (value_of key s) as [w|] eqn:E.
    + rewrite filter_cons_False by (rewrite E; done). apply value_of_inv in E as ->. cbn [lookup_env]. rewrite value_of_other by congruence. exact IH.
    + rewrite filter_cons_True by done. cbn [lookup_env]. by rewrite IH.
Qed.
Lemma without_id key ss : lookup_env key ss = None -> without key ss = ss.
Proof.
  unfold without. induction ss as [|s ss IH]; intros H; [done|]. cbn in H. destruct (value_of key s) eqn:E; [done|].
  rewrite filter_cons_True by done. by rewrite IH.
Qed.
Lemma unset_loop_spec fuel environ ss name key :
  holds environ ss -> named name key -> length environ < fuel ->
  exists environ', unset_loop fuel environ name = Some environ' /\ holds environ' (without key ss).
Proof.
  revert environ ss. induction fuel as [|fuel IH]; intros environ ss Hh Hn Hf; [lia|]. cbn [unset_loop]. unfold __findenv.
  rewrite (named_length name key Hn). cbn [mbind option_bind]. destruct (find_entry_spec name key environ ss 0 Hn Hh) as (r & -> & Hr).
  cbn [mbind option_bind]. destruct r as [[o cp]|].
  - destruct Hr as (i & e & w & -> & _ & H1 & H2 & _). cbn [Nat.add]. rewrite <- (without_skip key ss i w H2). apply IH; [|done|].
    + apply Forall2_app; [by apply Forall2_take|by apply Forall2_drop].
    + apply lookup_lt_Some in H1. rewrite length_app, length_take, length_drop. lia.
  - exists environ. split; [done|]. by rewrite without_id.
Qed.

(** The first equals sign of the string of putenv. *)
Lemma putenv_equal key v rest :
  is_key key -> Forall is_char v -> strchr (key ++ EQUALS :: v ++ 0%Z :: rest) 0 EQUALS = Some (Some (length key)).
Proof.
  intros Hk Hv. assert (Forall is_char (key ++ EQUALS :: v)) as Hs.
  { apply Forall_app. split; [by apply is_key_chars|]. constructor; [unfold is_char, EQUALS; lia|done]. }
  replace (key ++ EQUALS :: v ++ 0%Z :: rest) with ((key ++ EQUALS :: v) ++ 0%Z :: rest) by (by rewrite <- app_assoc).
  destruct (strchr_spec _ 0 _ EQUALS (cstr_of _ rest Hs)) as (r & -> & Hr). f_equal. 
  assert (((key ++ EQUALS :: v) ++ [0%Z]) !! length key = Some EQUALS) as Hp by (rewrite <- app_assoc, lookup_app_r, Nat.sub_diag by lia; done).
  assert (forall i, i < length key -> ((key ++ EQUALS :: v) ++ [0%Z]) !! i <> Some EQUALS) as Hb.
  { intros i Hi E. rewrite <- app_assoc, lookup_app_l in E by done. by destruct (Forall_lookup_1 _ _ _ _ Hk E). }
  destruct r as [i|]; cbn in Hr |- *; [|exfalso; apply (Hr (length key)); [rewrite length_app; cbn; lia|done]].
  destruct Hr as (_ & Hi & Hm). f_equal. destruct (Nat.lt_trichotomy i (length key)) as [Hlt|[->|Hgt]]; [by destruct (Hb i)|done|by destruct (Hm (length key))].
Qed.

Section correct.
  Variables (malloc : nat -> option cmem) (environ : list cmem) (ss : list (list Z)) (key : list Z).
  Hypothesis malloc_ok : forall n, exists e, malloc n = Some e /\ length e = n.
  Hypothesis environ_ok : holds environ ss.
  Hypothesis key_ok : is_key key.

(** The variable [key] is [r] and the others are as they were. *)
Definition updated (r : option (list Z)) (environ' : list cmem) : Prop :=
  exists ss', holds environ' ss' /\ lookup_env key ss' = r /\ forall key', is_key key' -> key' <> key -> lookup_env key' ss' = lookup_env key' ss.

Lemma getenv_spec name : named name key ->
  exists r, getenv (Some environ) (Some name) = Some r /\
    match r with
    | Some (o, cp) => exists e v, environ !! o = Some e /\ cstr e cp v /\ lookup_env key ss = Some v
    | None => lookup_env key ss = None
    end.
Proof using environ_ok.
  intros Hn. unfold getenv, __findenv. rewrite (named_length name key Hn). cbn [mbind option_bind].
  destruct (find_entry_spec name key environ ss 0 Hn environ_ok) as (r & -> & Hr). exists r. split; [done|]. destruct r as [[o cp]|]; [|done].
  destruct Hr as (i & e & v & -> & -> & H1 & H2 & H3 & _). exists e, v. split; [done|]. split; [|done].
  destruct (Forall2_lookup_l _ _ _ _ _ environ_ok H1) as (s & Hs & Hc). rewrite H2 in Hs. injection Hs as <-.
  replace (key ++ EQUALS :: v) with ((key ++ [EQUALS]) ++ v) in Hc by (by rewrite <- app_assoc). apply cstr_app in Hc as (_ & _ & Hc).
  rewrite length_app, Nat.add_1_r in Hc. exact Hc.
Qed.
Lemma setenv_spec name v rest rewrite : named name key -> Forall is_char v ->
  exists environ', setenv malloc true environ name (v ++ 0%Z :: rest) rewrite = Some (environ', 0%Z) /\
    updated (Some (if (rewrite =? 0)%Z then default (set_value v) (lookup_env key ss) else set_value v)) environ'.
Proof using malloc_ok environ_ok key_ok.
  intros Hn Hv. destruct (setenv_strings malloc environ ss name key v rest rewrite malloc_ok environ_ok Hn Hv) as (environ' & ss' & E & Hh & Hs).
  exists environ'. split; [exact E|]. exists ss'. split; [done|]. by apply set_strings_lookup.
Qed.
Lemma unsetenv_spec name : named name key -> exists environ', unsetenv environ name = Some environ' /\ updated None environ'.
Proof using environ_ok key_ok.
  intros Hn. unfold unsetenv. destruct (unset_loop_spec (S (length environ)) environ ss name key environ_ok Hn) as (environ' & E & Hh); [lia|].
  exists environ'. split; [exact E|]. exists (without key ss). split; [done|]. by apply lookup_env_without.
Qed.
Lemma putenv_spec v rest : Forall is_char v ->
  exists environ', putenv malloc true true environ (key ++ EQUALS :: v ++ 0%Z :: rest) = Some (environ', 0%Z) /\
    updated (Some (set_value v)) environ'.
Proof using malloc_ok environ_ok key_ok.
  intros Hv. unfold putenv. cbn [negb]. rewrite putenv_equal by done. cbn [mbind option_bind].
  rewrite take_app_length. replace (drop (S (length key)) (key ++ EQUALS :: v ++ 0%Z :: rest)) with (v ++ 0%Z :: rest).
  - apply (setenv_spec _ v rest 1); [|done]. split; [done|]. exists 0%Z, []. auto.
  - rewrite drop_app_ge by lia. by replace (S (length key) - length key) with 1 by lia.
Qed.
End correct.

(** C38.  The environment behaves as a map from names to values.  getenv answers the place of the
    value of the first entry of the name, or says that there is none; setenv without rewrite keeps
    the value that is there, and with rewrite puts its value, less one equals sign in front, in the
    place of the old one, in its block when it fits and in a new block when it does not; unsetenv
    ends and takes every entry of the name away; putenv sets what is behind the first equals sign.
    Each of them leaves the value of every other name as it was.  This is for an environ and a name that
    are not null pointers, and as long as malloc, realloc and strdup find
    memory: where malloc fails in setenv, other names may be lost (setenv_failure_truncates below). *)
Theorem environment_correct malloc environ ss key name :
  (forall n, exists e, malloc n = Some e /\ length e = n) -> holds environ ss -> named name key ->
  (exists r, getenv (Some environ) (Some name) = Some r /\
    match r with
    | Some (o, cp) => exists e v, environ !! o = Some e /\ cstr e cp v /\ lookup_env key ss = Some v
    | None => lookup_env key ss = None
    end) /\
  (forall v rest rewrite, Forall is_char v ->
    exists environ', setenv malloc true environ name (v ++ 0%Z :: rest) rewrite = Some (environ', 0%Z) /\
      updated ss key (Some (if (rewrite =? 0)%Z then default (set_value v) (lookup_env key ss) else set_value v)) environ') /\
  (exists environ', unsetenv environ name = Some environ' /\ updated ss key None environ') /\
  (forall v rest, Forall is_char v ->
    exists environ', putenv malloc true true environ (key ++ EQUALS :: v ++ 0%Z :: rest) = Some (environ', 0%Z) /\
      updated ss key (Some (set_value v)) environ').
Proof.
  intros Hm Hh Hn. pose proof (proj1 Hn) as Hk. split; [by apply getenv_spec|]. split; [intros v rest rewrite Hv; by apply setenv_spec|].
  split; [by apply unsetenv_spec|]. intros v rest Hv. by apply putenv_spec.
Qed.

(** The name "A" in an environment "A=b", "B=", "A=cd". *)
Lemma environment_correct_witness :
  exists environ', unsetenv [[65; 61; 98; 0]; [66; 61; 0]; [65; 61; 99; 100; 0]]%Z [65; 0]%Z = Some environ' /\
    updated [[65; 61; 98]; [66; 61]; [65; 61; 99; 100]]%Z [65]%Z None environ'.
Proof.
  apply (environment_correct (fun n => Some (replicate n 0%Z)) [[65; 61; 98; 0]; [66; 61; 0]; [65; 61; 99; 100; 0]]%Z).
  - intros n. eexists. split; [done|]. apply length_replicate.
  - repeat constructor; cbn; unfold is_char; lia.
  - split; [constructor; [split; [unfold is_char; lia|done]|constructor]|]. exists 0%Z, []. auto.
Defined.

(** When the new block of a longer value cannot be had, the variables behind it are gone as well:
    "A=", "B=", with A set to "x". *)
Example setenv_failure_truncates :
  setenv (fun _ => None) true [[65; 61; 0]; [66; 61; 0]]%Z [65; 0]%Z [120; 0]%Z 1 = Some ([], (-1)%Z).
Proof. reflexivity. Qed.
(** Without an environment nothing is found. *)
Example getenv_without_environ : getenv None (Some [65; 0]%Z) = Some None.
Proof. reflexivity. Qed.
