(* ===== verification/Atexit.v ===== *)
(** * Handlers at exit and at unloading (libc/stdlib: atexit.c, atexit.h, exit.c)

    The pages of the list are numbered from the oldest on, so that the next page of page [S q] is
    page [q] and __atexit is the last of them.  A handler may register handlers and call
    __cxa_finalize itself: what it does is a list of actions, and the calls under way are frames
    of a stack.  [None] is an access to a page that is not mapped.  The handlers registered and
    called are kept in a log.  call_depth is not wrapped: it takes 2^31 calls to overflow. *)
From S2P Require Import Prelude.
#[local] Open Scope nat_scope.

Record atexit_fn := { cxa_func : Z; fn_arg : Z; fn_dso : Z }.
Definition fn_null : atexit_fn := {| cxa_func := 0; fn_arg := 0; fn_dso := 0 |}.
#[export] Instance atexit_fn_eq : EqDecision atexit_fn.
Proof. solve_decision. Defined.

(** [max] is the same in every page: (pgsize - offset of fns) / sizeof(p->fns[0]). *)
Definition ATEXIT_MAX : nat := (4096 - 12) / 12.
Record atexit := { ind : nat; fns : list atexit_fn }.

Inductive event := Registered (e : atexit_fn) | Called (e : atexit_fn).
Record exit_state := { pages : list atexit; __atexit_invalid : bool; call_depth : Z; events : list event }.
Definition exit_init : exit_state := {| pages := []; __atexit_invalid := true; call_depth := 0; events := [] |}.
Definition with_pages (s : exit_state) ps := {| pages := ps; __atexit_invalid := __atexit_invalid s; call_depth := call_depth s; events := events s |}.
Definition with_depth (s : exit_state) d := {| pages := pages s; __atexit_invalid := __atexit_invalid s; call_depth := d; events := events s |}.
Definition logged (s : exit_state) e := {| pages := pages s; __atexit_invalid := __atexit_invalid s; call_depth := call_depth s; events := events s ++ [e] |}.

(** What mmap gives: the page is zero. *)
Definition new_page (i : nat) : atexit := {| ind := i; fns := replicate ATEXIT_MAX fn_null |}.
Definition set_fn (p : atexit) (n : nat) (e : atexit_fn) : atexit := {| ind := ind p; fns := <[n := e]> (fns p) |}.
Definition push_fn (p : atexit) (e : atexit_fn) : atexit := {| ind := S (ind p); fns := <[ind p := e]> (fns p) |}.

(** Which of its system calls succeed: mmap, mprotect for writing, mprotect for reading. *)
Record faults := { mmap_ok : bool; write_ok : bool; read_ok : bool }.
Definition no_faults : faults := {| mmap_ok := true; write_ok := true; read_ok := true |}.

(** The entry into the last page, and its answer. *)
Definition store_fn (ok : faults) (s : exit_state) (ps : list atexit) (p : atexit) (e : atexit_fn) : exit_state * Z :=
  (logged {| pages := ps ++ [push_fn p e]; __atexit_invalid := false; call_depth := call_depth s; events := events s |} (Registered e),
   if read_ok ok then 0%Z else (-1)%Z).
Definition __cxa_atexit (ok : faults) (s : exit_state) (e : atexit_fn) : exit_state * Z :=
  let fresh i := if mmap_ok ok then store_fn ok s (pages s) (new_page i) e else (s, (-1)%Z) in
  match last (pages s) with
  | None => fresh 1
  | Some p =>
      if ATEXIT_MAX <=? ind p + 1 then fresh 0
      else if write_ok ok then store_fn ok s (removelast (pages s)) p e else (s, (-1)%Z)
  end.

(** The oldest page has the cleanup function in its first entry. *)
Definition cleanup_fn (func : Z) : atexit_fn := {| cxa_func := func; fn_arg := 0; fn_dso := 0 |}.
Definition __atexit_register_cleanup (ok : faults) (s : exit_state) (func : Z) : exit_state :=
  let e := cleanup_fn func in
  match pages s with
  | [] =>
      if mmap_ok ok then logged {| pages := [set_fn (new_page 1) 0 e]; __atexit_invalid := false; call_depth := call_depth s; events := events s |} (Registered e)
      else s
  | p :: ps => if write_ok ok then logged (with_pages s (set_fn p 0 e :: ps)) (Registered e) else s
  end.

Inductive action := ARegister (ok : faults) (e : atexit_fn) | ACleanup (ok : faults) (func : Z) | AFinalize (dso : Z).
(** [Pages dso q]: the pages below [q] remain; [Slots dso q n]: the entries below [n] of page [q], and the pages below it. *)
Inductive frame := Actions (l : list action) | Pages (dso : Z) (q : nat) | Slots (dso : Z) (q n : nat).

Section run.
(** What a handler does with its argument; whether mprotect lets an entry be marked. *)
Variables (handler : Z -> Z -> list action) (mark_ok : nat -> nat -> bool).

(** The head of __cxa_finalize, to its loop. *)
Definition finalize_enter (s : exit_state) (dso : Z) (k : list frame) : exit_state * list frame :=
  if __atexit_invalid s then (s, k) else (with_depth s (call_depth s + 1), Pages dso (length (pages s)) :: k).
(** Its end, after the loop. *)
Definition finalize_leave (s : exit_state) (dso : Z) : exit_state :=
  if (dso =? 0)%Z then
    let s := with_depth s (call_depth s - 1) in
    if (call_depth s =? 0)%Z then with_pages s [] else s
  else s.
(** The body of the inner loop at entry [n] of page [q]. *)
Definition finalize_entry (s : exit_state) (dso : Z) (q n : nat) (k : list frame) : option (exit_state * list frame) :=
  p ← pages s !! q;
  e ← fns p !! n;
  if (cxa_func e =? 0)%Z then Some (s, k)
  else if negb (dso =? 0)%Z && negb (dso =? fn_dso e)%Z then Some (s, k)
  else
    let s := if mark_ok q n then with_pages s (<[q := set_fn p n {| cxa_func := 0; fn_arg := fn_arg e; fn_dso := fn_dso e |}]> (pages s)) else s in
    Some (logged s (Called e), Actions (handler (cxa_func e) (fn_arg e)) :: k).

Definition exit_step (s : exit_state) (stack : list frame) : option (exit_state * list frame) :=
  match stack with
  | [] => Some (s, [])
  | Actions [] :: k => Some (s, k)
  | Actions (ARegister ok e :: l) :: k => Some ((__cxa_atexit ok s e).1, Actions l :: k)
  | Actions (ACleanup ok func :: l) :: k => Some (__atexit_register_cleanup ok s func, Actions l :: k)
  | Actions (AFinalize dso :: l) :: k => Some (finalize_enter s dso (Actions l :: k))
  | Pages dso O :: k => Some (finalize_leave s dso, k)
  | Pages dso (S q) :: k => p ← pages s !! q; Some (s, Slots dso q (ind p) :: k)
  | Slots dso q O :: k => Some (s, Pages dso q :: k)
  | Slots dso q (S n) :: k => finalize_entry s dso q n (Slots dso q n :: k)
  end.
Fixpoint exit_run (fuel : nat) (s : exit_state) (stack : list frame) : option (exit_state * list frame) :=
  match fuel with
  | O => Some (s, stack)
  | S fuel => match stack with [] => Some (s, []) | _ => '(s, stack) ← exit_step s stack; exit_run fuel s stack end
  end.
End run.

(** exit: __cxa_finalize(NULL), and then _exit. *)
Definition exit_actions : list action := [AFinalize 0].

(** ** Memory safety, and no handler called twice *)
Definition page_ok (p : atexit) : Prop := ind p <= ATEXIT_MAX /\ length (fns p) = ATEXIT_MAX.
Definition frame_ok (ps : list atexit) (f : frame) : Prop :=
  match f with
  | Actions _ => True
  | Pages _ q => q <= length ps
  | Slots _ q n => q < length ps /\ n <= ATEXIT_MAX
  end.
Definition is_loop (f : frame) : Prop := match f with Actions _ => False | _ => True end.
#[export] Instance is_loop_dec f : Decision (is_loop f).
Proof. destruct f; apply _. Defined.
Definition loops (k : list frame) : nat := length (filter is_loop k).

Definition is_live (e : atexit_fn) : Prop := cxa_func e <> 0%Z.
#[export] Instance is_live_dec e : Decision (is_live e) := decide (~ _).
Definition live (ps : list atexit) : list atexit_fn := filter is_live (concat (map fns ps)).
Definition registered (l : list event) : list atexit_fn := omap (fun v => match v with Registered e => Some e | Called _ => None end) l.
Definition called (l : list event) : list atexit_fn := omap (fun v => match v with Called e => Some e | Registered _ => None end) l.

Definition exit_inv (s : exit_state) (k : list frame) : Prop :=
  Forall page_ok (pages s) /\ Forall (frame_ok (pages s)) k /\ (Z.of_nat (loops k) <= call_depth s)%Z /\
  called (events s) ++ live (pages s) ⊆+ registered (events s).

#[local] Instance submseteq_app_proper A : Proper (submseteq ==> submseteq ==> submseteq) (@app A).
Proof. intros l l' H m m' H'. by apply submseteq_app. Qed.

Lemma max_pos : 1 < ATEXIT_MAX.
Proof. vm_compute. lia. Qed.
Opaque ATEXIT_MAX.

Lemma live_app a b : live (a ++ b) = live a ++ live b.
Proof. unfold live. by rewrite map_app, concat_app, filter_app. Qed.
Lemma live_single p : live [p] = filter is_live (fns p).
Proof. unfold live. cbn. by rewrite app_nil_r. Qed.
Lemma live_nulls n : filter is_live (replicate n fn_null) = [].
Proof. induction n as [|n IH]; [done|]. rewrite replicate_S, filter_cons_False; [exact IH|]. unfold is_live. cbn. lia. Qed.

Lemma filter_middle {A} (P : A -> Prop) `{!forall x, Decision (P x)} l1 x l2 :
  filter P (l1 ++ x :: l2) = filter P l1 ++ filter P [x] ++ filter P l2.
Proof. by rewrite (filter_app P l1), (filter_app P [x] l2). Qed.
Lemma filter_at {A} (P : A -> Prop) `{!forall x, Decision (P x)} (l : list A) n x y :
  l !! n = Some x -> exists r, filter P l ≡ₚ filter P [x] ++ r /\ filter P (<[n := y]> l) ≡ₚ filter P [y] ++ r.
Proof.
  intros Hn. exists (filter P (take n l) ++ filter P (drop (S n) l)). rewrite insert_take_drop by (by apply lookup_lt_Some in Hn).
  rewrite <- (take_drop_middle l n x Hn) at 1. rewrite !filter_middle. split; rewrite !app_assoc; apply Permutation_app_tail, Permutation_app_comm.
Qed.

(** An entry that is written adds at most itself; one that is marked is taken away. *)
Lemma insert_live (l : list atexit_fn) n e : filter is_live (<[n := e]> l) ⊆+ e :: filter is_live l.
Proof.
  destruct (l !! n) as [x|] eqn:E.
  - destruct (filter_at is_live l n x e E) as (r & -> & ->). rewrite (filter_cons _ e). case_decide; cbn.
    + apply submseteq_skip, submseteq_inserts_l. done.
    + apply submseteq_cons, submseteq_inserts_l. done.
  - rewrite list_insert_ge by (by apply lookup_ge_None). by apply submseteq_cons.
Qed.
Lemma mark_live (l : list atexit_fn) n e a d :
  l !! n = Some e -> is_live e -> filter is_live l ≡ₚ e :: filter is_live (<[n := {| cxa_func := 0; fn_arg := a; fn_dso := d |}]> l).
Proof.
  intros E He. destruct (filter_at is_live l n e {| cxa_func := 0; fn_arg := a; fn_dso := d |} E) as (r & -> & ->).
  rewrite filter_cons_True by done. rewrite filter_cons_False by (unfold is_live; cbn; lia). done.
Qed.
Lemma live_insert ps q p p' : ps !! q = Some p -> exists r, live ps ≡ₚ filter is_live (fns p) ++ r /\ live (<[q := p']> ps) ≡ₚ filter is_live (fns p') ++ r.
Proof.
  intros H. exists (live (take q ps) ++ live (drop (S q) ps)). rewrite insert_take_drop by (by apply lookup_lt_Some in H).
  rewrite <- (take_drop_middle ps q p H) at 1. change (p :: ?x) with ([p] ++ x). change (p' :: ?x) with ([p'] ++ x). rewrite !live_app, !live_single.
  split; rewrite !app_assoc; apply Permutation_app_tail, Permutation_app_comm.
Qed.

Lemma called_snoc l v : called (l ++ [v]) = called l ++ match v with Called e => [e] | Registered _ => [] end.
Proof. unfold called. rewrite omap_app. by destruct v. Qed.
Lemma registered_snoc l v : registered (l ++ [v]) = registered l ++ match v with Registered e => [e] | Called _ => [] end.
Proof. unfold registered. rewrite omap_app. by destruct v. Qed.

(** *** Every step keeps it *)
Lemma frames_grow ps ps' k : length ps <= length ps' -> Forall (frame_ok ps) k -> Forall (frame_ok ps') k.
Proof. intros H Hk. eapply Forall_impl; [exact Hk|]. intros [l|d q|d q n]; cbn; lia. Qed.
Lemma frames_quiet ps k : loops k = 0 -> Forall (frame_ok ps) k.
Proof.
  induction k as [|f k IH]; intros H; [constructor|]. unfold loops in H. destruct (decide (is_loop f)) as [Hf|Hf].
  - by rewrite filter_cons_True in H.
  - rewrite filter_cons_False in H by done. constructor; [by destruct f|by apply IH].
Qed.

(** More pages and one more entry that is in the log. *)
Lemma inv_logged s ps e k (d := call_depth s) i :
  exit_inv s k -> Forall page_ok ps -> length (pages s) <= length ps -> live ps ⊆+ e :: live (pages s) ->
  exit_inv (logged {| pages := ps; __atexit_invalid := i; call_depth := d; events := events s |} (Registered e)) k.
Proof.
  intros (H1 & H2 & H3 & H4) Hp Hl Hv. repeat split; cbn.
  - done.
  - by eapply frames_grow.
  - done.
  - rewrite called_snoc, registered_snoc, app_nil_r. rewrite Hv. rewrite <- Permutation_middle.
    rewrite <- (Permutation_cons_append (registered (events s))). by apply submseteq_skip.
Qed.

Lemma push_ok p e : page_ok p -> ind p < ATEXIT_MAX -> page_ok (push_fn p e).
Proof. intros [H1 H2] Hi. split; cbn; [lia|]. by rewrite length_insert. Qed.
Lemma set_ok p n e : page_ok p -> page_ok (set_fn p n e).
Proof. intros [H1 H2]. split; cbn; [lia|]. by rewrite length_insert. Qed.
Lemma new_ok i : i <= 1 -> page_ok (new_page i).
Proof. intros H. pose proof max_pos. split; cbn; [lia|]. apply length_replicate. Qed.

Lemma last_removelast {A} (l : list A) x : last l = Some x -> l = removelast l ++ [x].
Proof. intros H. destruct (last_Some l x) as [Hl _]. destruct (Hl H) as [l' ->]. by rewrite removelast_last. Qed.

Lemma cxa_atexit_inv ok s e k : exit_inv s k -> exit_inv (__cxa_atexit ok s e).1 k.
Proof.
  intros H. pose proof max_pos as Hmp. assert (forall i, i <= 1 -> exit_inv (if mmap_ok ok then store_fn ok s (pages s) (new_page i) e else (s, (-1)%Z)).1 k) as Hf.
  { intros i Hi. destruct (mmap_ok ok); [|done]. cbn. apply inv_logged; [done|..].
    - apply Forall_app. split; [apply H|]. constructor; [apply push_ok; [by apply new_ok|cbn; lia]|done].
    - rewrite length_app. lia.
    - rewrite live_app, live_single. cbn. rewrite insert_live, live_nulls. rewrite (Permutation_app_comm (live _)). done. }
  unfold __cxa_atexit. destruct (last (pages s)) as [p|] eqn:El; [|by apply Hf]. destruct (Nat.leb_spec ATEXIT_MAX (ind p + 1)); [by apply Hf; lia|].
  destruct (write_ok ok); [|done]. apply last_removelast in El. set (ps := removelast (pages s)) in *. cbn. apply inv_logged; [done|..].
  - destruct H as (H & _). rewrite El in H. apply Forall_app in H as [H Hp]. apply Forall_app. split; [done|]. inversion Hp; subst.
    constructor; [apply push_ok; [done|lia]|done].
  - rewrite El, !length_app. done.
  - rewrite El, !live_app, !live_single. cbn. rewrite insert_live. by rewrite Permutation_middle.
Qed.
Lemma cleanup_inv ok s f k : exit_inv s k -> exit_inv (__atexit_register_cleanup ok s f) k.
Proof.
  intros H. unfold __atexit_register_cleanup. destruct (pages s) as [|p ps] eqn:Ep.
  - destruct (mmap_ok ok); [|done]. apply inv_logged; [done|..].
    + constructor; [apply set_ok, new_ok; lia|done].
    + rewrite Ep. cbn. lia.
    + rewrite live_single. cbn [fns set_fn]. rewrite insert_live. cbn [fns new_page]. rewrite live_nulls, Ep. done.
  - destruct (write_ok ok); [|done]. unfold with_pages. apply inv_logged; [done|..].
    + destruct H as (H & _). rewrite Ep in H. inversion H; subst. constructor; [by apply set_ok|done].
    + rewrite Ep. done.
    + rewrite Ep. change (live (?x :: ps)) with (live ([x] ++ ps)). rewrite !live_app, !live_single. cbn [fns set_fn]. rewrite insert_live. done.
Qed.

Section safety.
Variables (handler : Z -> Z -> list action).
Notation mark_ok := (fun _ _ => true).

Lemma loops_actions l k : loops (Actions l :: k) = loops k.
Proof. done. Qed.
Lemma loops_pages d q k : loops (Pages d q :: k) = S (loops k).
Proof. done. Qed.
Lemma loops_slots d q n k : loops (Slots d q n :: k) = S (loops k).
Proof. done. Qed.
Ltac count_loops := repeat (rewrite loops_actions in * || rewrite loops_pages in * || rewrite loops_slots in * ); lia.

Lemma inv_stack s f k k' : exit_inv s (f :: k) -> Forall (frame_ok (pages s)) k' -> loops k' <= loops (f :: k) -> exit_inv s k'.
Proof. intros (H1 & H2 & H3 & H4) Hk Hl. repeat split; [done|done|lia|done]. Qed.

Lemma entry_inv s dso q n k :
  exit_inv s (Slots dso q (S n) :: k) ->
  exists s' k', finalize_entry handler mark_ok s dso q n (Slots dso q n :: k) = Some (s', k') /\ exit_inv s' k'.
Proof.
  intros H. pose proof H as (H1 & H2 & H3 & H4). inversion H2 as [|? ? Hqn Hk]; subst. destruct Hqn as [Hq Hn]. unfold finalize_entry.
  destruct (lookup_lt_is_Some_2 (pages s) q Hq) as [p Ep]. rewrite Ep. cbn [mbind option_bind].
  destruct (Forall_lookup_1 _ _ _ _ H1 Ep) as [Hi Hl]. destruct (lookup_lt_is_Some_2 (fns p) n) as [e Ee]; [lia|]. rewrite Ee. cbn [mbind option_bind].
  assert (exit_inv s (Slots dso q n :: k)) as H'.
  { eapply inv_stack; [exact H|constructor; [split; lia|done]|]. count_loops. }
  destruct (Z.eqb_spec (cxa_func e) 0) as [|Hf]; [by do 2 eexists|]. destruct (_ && _); [by do 2 eexists|].
  do 2 eexists. split; [done|]. repeat split; cbn [pages events call_depth logged with_pages].
  - apply Forall_insert; [done|]. by apply set_ok.
  - constructor; [done|]. apply (frames_grow (pages s)); [by rewrite length_insert|]. apply H'.
  - destruct H' as (_ & _ & H' & _). count_loops.
  - rewrite called_snoc, registered_snoc, app_nil_r. rewrite <- H4. rewrite <- app_assoc. apply submseteq_app; [done|].
    destruct (live_insert (pages s) q p (set_fn p n {| cxa_func := 0; fn_arg := fn_arg e; fn_dso := fn_dso e |}) Ep) as (r & -> & ->).
    cbn [fns set_fn]. rewrite (mark_live (fns p) n e (fn_arg e) (fn_dso e) Ee Hf). done.
Qed.

Lemma exit_step_inv s k : exit_inv s k -> exists s' k', exit_step handler mark_ok s k = Some (s', k') /\ exit_inv s' k'.
Proof.
  intros H. pose proof H as (H1 & H2 & H3 & H4). destruct k as [|f k]; [by do 2 eexists|]. inversion H2 as [|? ? Hf Hk]; subst.
  destruct f as [l|dso [|q]|dso q [|n]].
  - assert (forall l', exit_inv s (Actions l' :: k)) as Ha.
    { intros l'. eapply inv_stack; [exact H|by constructor|count_loops]. }
    destruct l as [|[ok e|ok f|dso] l]; cbn [exit_step].
    + do 2 eexists. split; [done|]. eapply inv_stack; [exact H|done|count_loops].
    + do 2 eexists. split; [done|]. by apply cxa_atexit_inv.
    + do 2 eexists. split; [done|]. by apply cleanup_inv.
    + unfold finalize_enter. destruct (__atexit_invalid s); do 2 eexists; (split; [done|]); [done|]. repeat split; cbn [pages events call_depth with_depth]; [done|by repeat constructor| |done].
      count_loops.
  - cbn [exit_step]. do 2 eexists. split; [done|]. rewrite loops_pages in H3. unfold finalize_leave. destruct (dso =? 0)%Z; [|repeat split; [done|done|lia|done]].
    cbn. destruct (Z.eqb_spec (call_depth s - 1) 0) as [Hz|Hz]; repeat split; cbn; try done; try lia.
    + apply frames_quiet. lia.
    + rewrite app_nil_r. rewrite <- H4. by apply submseteq_inserts_r.
  - cbn in Hf. destruct (lookup_lt_is_Some_2 (pages s) q Hf) as [p Ep]. cbn [exit_step]. rewrite Ep. do 2 eexists. split; [done|].
    eapply inv_stack; [exact H| |count_loops]. constructor; [|done]. split; [lia|]. apply (Forall_lookup_1 _ _ _ _ H1 Ep).
  - cbn [exit_step]. do 2 eexists. split; [done|]. eapply inv_stack; [exact H| |count_loops]. constructor; [|done]. cbn in Hf |- *. lia.
  - by apply entry_inv.
Qed.
Lemma exit_run_inv fuel s k : exit_inv s k -> exists s' k', exit_run handler mark_ok fuel s k = Some (s', k') /\ exit_inv s' k'.
Proof.
  revert s k. induction fuel as [|fuel IH]; intros s k H; cbn [exit_run]; [by do 2 eexists|]. destruct k as [|f k]; [by do 2 eexists|].
  destruct (exit_step_inv s (f :: k) H) as (s' & k' & -> & H'). cbn [mbind option_bind]. by apply IH.
Qed.
End safety.

(** Whatever the handlers do, registering handlers and unloading libraries and calling exit
    again from within handlers included, __cxa_finalize never reads a page that has been unmapped,
    and no handler is called more often than it was registered. *)
Theorem exit_handlers_safe handler prog fuel :
  exists s k, exit_run handler (fun _ _ => true) fuel exit_init [Actions prog] = Some (s, k) /\
    called (events s) ⊆+ registered (events s).
Proof.
  destruct (exit_run_inv handler fuel exit_init [Actions prog]) as (s & k & E & (_ & _ & _ & H)).
  - split; [apply List.Forall_nil|]. split; [apply List.Forall_cons; [done|apply List.Forall_nil]|]. split; [by rewrite loops_actions|done].
  - exists s, k. split; [exact E|]. rewrite <- H. by apply submseteq_inserts_r.
Qed.

(** ** The order of the calls *)

(** The entries in the order in which they were made; what an unloading calls. *)
Definition entries (ps : list atexit) : list atexit_fn := concat (map (fun p => take (ind p) (fns p)) ps).
Definition picked (dso : Z) (e : atexit_fn) : bool := negb (cxa_func e =? 0)%Z && ((dso =? 0)%Z || (dso =? fn_dso e)%Z).
Definition marked (dso : Z) (e : atexit_fn) : atexit_fn := if picked dso e then {| cxa_func := 0; fn_arg := fn_arg e; fn_dso := fn_dso e |} else e.

Lemma entries_app a b : entries (a ++ b) = entries a ++ entries b.
Proof. unfold entries. by rewrite map_app, concat_app. Qed.
Lemma entries_single p : entries [p] = take (ind p) (fns p).
Proof. unfold entries. cbn. by rewrite app_nil_r. Qed.
Lemma take_insert_at {A} (l : list A) n x : n < length l -> take (S n) (<[n := x]> l) = take n l ++ [x].
Proof.
  intros H. rewrite (take_S_r _ _ x) by (by apply list_lookup_insert_eq). f_equal. apply take_insert_ge. lia.
Qed.
Lemma entries_push p e : page_ok p -> ind p < ATEXIT_MAX -> entries [push_fn p e] = entries [p] ++ [e].
Proof. intros [_ Hl] H. rewrite !entries_single. cbn [ind fns push_fn]. apply take_insert_at. lia. Qed.

(** Registering, when the pages from [p] on are looked at: [p] keeps its entries. *)
Definition grown (p : atexit) (ps : list atexit) (new : list atexit_fn) (p' : atexit) (ps' : list atexit) : Prop :=
  Forall page_ok (p' :: ps') /\ ind p <= ind p' /\ take (ind p) (fns p') = take (ind p) (fns p) /\
  entries (p' :: ps') = entries (p :: ps) ++ new.

Lemma cxa_atexit_grown s ps1 p ps e :
  pages s = ps1 ++ p :: ps -> Forall page_ok (p :: ps) ->
  exists p' ps', (__cxa_atexit no_faults s e).1 =
      logged {| pages := ps1 ++ p' :: ps'; __atexit_invalid := false; call_depth := call_depth s; events := events s |} (Registered e) /\
    grown p ps [e] p' ps'.
Proof.
  intros E Hok. pose proof max_pos as Hmp. unfold __cxa_atexit. cbn [mmap_ok write_ok no_faults].
  destruct (last (pages s)) as [l|] eqn:El; [|apply last_None in El; rewrite El in E; by destruct ps1].
  destruct (Nat.leb_spec ATEXIT_MAX (ind l + 1)) as [Hf|Hf].
  - exists p, (ps ++ [push_fn (new_page 0) e]). cbn. rewrite E, <- app_assoc. split; [done|]. split; [|split; [done|split; [done|]]].
    + inversion Hok; subst. constructor; [done|]. apply Forall_app. split; [done|]. constructor; [|done]. apply push_ok; [apply new_ok; lia|cbn; lia].
    + change (p :: ps ++ ?x) with ((p :: ps) ++ x). rewrite entries_app, entries_push; [done|apply new_ok; lia|cbn; lia].
  - destruct (exists_last (l := p :: ps)) as (r & x & Er); [done|]. rewrite Er in E. rewrite E, app_assoc in El. rewrite last_snoc in El. injection El as ->.
    cbn. rewrite E, app_assoc, removelast_last. rewrite Er in Hok. apply Forall_app in Hok as [Hr Hx]. inversion Hx; subst.
    destruct r as [|p0 r]; cbn in Er; injection Er as -> ->.
    + exists (push_fn l e), []. rewrite app_nil_r. split; [done|]. split; [constructor; [apply push_ok; [done|lia]|done]|]. split; [cbn; lia|].
      split; [cbn; apply take_insert_ge; lia|]. apply entries_push; [done|lia].
    + exists p0, (r ++ [push_fn l e]). rewrite <- app_assoc. split; [done|]. split; [|split; [done|split; [done|]]].
      * change (p0 :: r ++ ?x) with ((p0 :: r) ++ x). apply Forall_app. split; [done|]. constructor; [apply push_ok; [done|lia]|done].
      * change (p0 :: r ++ ?x) with ((p0 :: r) ++ x). rewrite !entries_app, entries_push by (done || lia). by rewrite app_assoc.
Qed.

Lemma grown_trans p ps a p1 ps1 b p2 ps2 : grown p ps a p1 ps1 -> grown p1 ps1 b p2 ps2 -> grown p ps (a ++ b) p2 ps2.
Proof.
  intros (_ & H1 & H2 & H3) (H0 & H4 & H5 & H6). split; [done|]. split; [lia|]. split; [|by rewrite H6, H3, app_assoc].
  rewrite <- H2. replace (ind p) with (ind p `min` ind p1) by lia. rewrite <- !take_take. by rewrite H5.
Qed.
Lemma exit_run_app handler mark_ok n m s k s' k' :
  exit_run handler mark_ok n s k = Some (s', k') -> exit_run handler mark_ok (n + m) s k = exit_run handler mark_ok m s' k'.
Proof.
  revert s k. induction n as [|n IH]; intros s k H; cbn [exit_run Nat.add] in *; [by injection H as -> ->|].
  destruct k as [|f k]; [injection H as <- <-; by destruct m|]. destruct (exit_step _ _ s (f :: k)) as [[s1 k1]|]; [|done]. by apply IH.
Qed.

Lemma entries_mark p n x ps :
  page_ok p -> n < ind p -> entries (set_fn p n x :: ps) = take n (fns p) ++ x :: drop (S n) (entries (p :: ps)).
Proof.
  intros [Hi Hl] Hn. change (?y :: ps) with ([y] ++ ps). rewrite !entries_app, !entries_single. cbn [ind fns set_fn].
  rewrite take_insert_lt, insert_take_drop by (rewrite ?length_take; lia). rewrite drop_app_le by (rewrite length_take; lia).
  rewrite <- app_assoc. cbn. f_equal. rewrite take_take. f_equal. lia.
Qed.

Section order.
(** Handlers that only register other handlers. *)
Variable does : Z -> Z -> list atexit_fn.
Definition registering (f a : Z) : list action := map (ARegister no_faults) (does f a).
Definition regs (e : atexit_fn) : list atexit_fn := does (cxa_func e) (fn_arg e).
Notation mark_ok := (fun _ _ => true).

Definition reaches (s : exit_state) (k : list frame) (s' : exit_state) (k' : list frame) : Prop :=
  exists n, exit_run registering mark_ok n s k = Some (s', k').
Lemma reaches_trans s k s1 k1 s2 k2 : reaches s k s1 k1 -> reaches s1 k1 s2 k2 -> reaches s k s2 k2.
Proof. intros [n Hn] [m Hm]. exists (n + m). by rewrite (exit_run_app _ _ _ _ _ _ _ _ Hn). Qed.
Lemma reaches_step s f k s1 k1 s2 k2 : exit_step registering mark_ok s (f :: k) = Some (s1, k1) -> reaches s1 k1 s2 k2 -> reaches s (f :: k) s2 k2.
Proof. intros H [n Hn]. exists (S n). cbn [exit_run]. by rewrite H. Qed.
Lemma reaches_refl s k : reaches s k s k.
Proof. by exists 0. Qed.

(** The handlers of these entries that are called, the last first, with what they register. *)
Definition calls (dso : Z) (es : list atexit_fn) : list atexit_fn := filter (fun e => picked dso e = true) (rev es).
Definition effects (dso : Z) (es : list atexit_fn) : list event := flat_map (fun e => Called e :: map Registered (regs e)) (calls dso es).
Definition added (dso : Z) (es : list atexit_fn) : list atexit_fn := flat_map regs (calls dso es).

(** The state with other pages and a longer log. *)
Definition after (s : exit_state) (ps : list atexit) (l : list event) (s' : exit_state) : Prop :=
  s' = {| pages := ps; __atexit_invalid := false; call_depth := call_depth s; events := events s ++ l |}.

Lemma actions_run es s ps1 p ps l k :
  pages s = ps1 ++ p :: ps -> Forall page_ok (p :: ps) -> __atexit_invalid s = false ->
  exists s' p' ps', reaches s (Actions (map (ARegister no_faults) es ++ l) :: k) s' (Actions l :: k) /\
    after s (ps1 ++ p' :: ps') (map Registered es) s' /\ grown p ps es p' ps'.
Proof.
  revert s p ps. induction es as [|e es IH]; intros s p ps E Hok Hi; cbn [map app].
  - exists s, p, ps. split; [apply reaches_refl|]. split; [|by repeat split; rewrite ?app_nil_r].
    unfold after. rewrite app_nil_r, <- E, <- Hi. by destruct s.
  - destruct (cxa_atexit_grown s ps1 p ps e E Hok) as (p1 & ps1' & Es & Hg).
    destruct (IH (__cxa_atexit no_faults s e).1 p1 ps1') as (s' & p' & ps' & Hr & Ha & Hg'); [by rewrite Es|apply Hg|by rewrite Es|].
    exists s', p', ps'. split; [eapply reaches_step; [done|exact Hr]|]. split; [|by apply (grown_trans p ps [e] p1 ps1')].
    unfold after in *. rewrite Ha, Es. cbn. by rewrite <- app_assoc.
Qed.

Lemma calls_app dso a b : calls dso (a ++ b) = calls dso b ++ calls dso a.
Proof. unfold calls. by rewrite rev_app_distr, filter_app. Qed.
Lemma calls_snoc dso es e : calls dso (es ++ [e]) = (if picked dso e then [e] else []) ++ calls dso es.
Proof. rewrite calls_app. f_equal. unfold calls. cbn [rev app]. rewrite filter_cons. destruct (picked dso e); [by rewrite decide_True|by rewrite decide_False]. Qed.

Lemma slots_run n dso s ps1 p ps k :
  pages s = ps1 ++ p :: ps -> Forall page_ok (p :: ps) -> __atexit_invalid s = false -> n <= ind p ->
  exists s' p' ps', reaches s (Slots dso (length ps1) n :: k) s' (Slots dso (length ps1) 0 :: k) /\
    after s (ps1 ++ p' :: ps') (effects dso (take n (fns p))) s' /\ Forall page_ok (p' :: ps') /\
    entries (p' :: ps') = map (marked dso) (take n (fns p)) ++ drop n (entries (p :: ps)) ++ added dso (take n (fns p)).
Proof.
  revert s p ps. induction n as [|n IH]; intros s p ps E Hok Hi Hn.
  - exists s, p, ps. split; [apply reaches_refl|]. split; [|split; [done|]].
    + unfold after, effects. cbn. rewrite app_nil_r, <- E, <- Hi. by destruct s.
    + unfold added. cbn. by rewrite app_nil_r.
  - assert (pages s !! length ps1 = Some p) as Ep by (rewrite E, lookup_app_r, Nat.sub_diag by lia; done).
    inversion Hok as [|? ? Hp Hps]; subst. destruct (lookup_lt_is_Some_2 (fns p) n) as [e Ee]; [destruct Hp; lia|].
    rewrite (take_S_r _ _ _ Ee). unfold effects, added. rewrite calls_snoc, map_app.
    assert (drop n (entries (p :: ps)) = e :: drop (S n) (entries (p :: ps))) as Ed.
    { apply drop_S. unfold entries. cbn. rewrite lookup_app_l by (rewrite length_take; destruct Hp; lia). by rewrite lookup_take_lt. }
    assert (finalize_entry registering mark_ok s dso (length ps1) n (Slots dso (length ps1) n :: k) =
      if picked dso e then Some (logged (with_pages s (ps1 ++ set_fn p n (marked dso e) :: ps)) (Called e), Actions (map (ARegister no_faults) (regs e)) :: Slots dso (length ps1) n :: k)
      else Some (s, Slots dso (length ps1) n :: k)) as Es.
    { unfold finalize_entry. rewrite Ep. cbn [mbind option_bind]. rewrite Ee. cbn [mbind option_bind]. unfold marked, picked.
      destruct (cxa_func e =? 0)%Z; [done|]. cbn [negb andb]. destruct (dso =? 0)%Z, (dso =? fn_dso e)%Z; cbn [negb andb orb]; try done.
      all: rewrite E; replace (length ps1) with (length ps1 + 0) at 1 by lia; rewrite insert_app_r; done. }
    destruct (picked dso e) eqn:Epk.
    + set (p1 := set_fn p n (marked dso e)) in *. set (s1 := logged _ _) in Es.
      assert (page_ok p1) as Hp1 by (by apply set_ok).
      destruct (actions_run (regs e) s1 ps1 p1 ps [] (Slots dso (length ps1) n :: k)) as (s2 & p2 & ps2 & Hr & Ha & (Hg1 & Hg2 & Hg3 & Hg4)); [done|by constructor|done|].
      assert (take n (fns p2) = take n (fns p)) as Et.
      { trans (take n (fns p1)); [|cbn; by apply take_insert_ge].
        replace n with (n `min` ind p1) by (cbn; lia). rewrite <- !take_take. by rewrite Hg3. }
      destruct (IH s2 p2 ps2) as (s3 & p3 & ps3 & Hr3 & Ha3 & Hok3 & He3); [by rewrite Ha|done|by rewrite Ha|cbn in Hg2; lia|].
      exists s3, p3, ps3. rewrite app_nil_r in Hr.
      split; [eapply reaches_step; [exact Es|]; eapply reaches_trans; [exact Hr|]; by eapply reaches_step|]. split; [|split; [done|]].
      * rewrite Et in Ha3. unfold after in *. rewrite Ha3, Ha. cbn. by rewrite <- !app_assoc.
      * rewrite He3, Et, Hg4. rewrite <- app_assoc. f_equal. cbn [map flat_map app].
        unfold p1 at 1. rewrite (entries_mark p n _ ps Hp) by lia. rewrite <- app_assoc, drop_app_ge by (rewrite length_take; destruct Hp; lia).
        rewrite length_take. replace (n - n `min` length (fns p)) with 0 by (destruct Hp; lia). cbn. by rewrite <- app_assoc.
    + destruct (IH s p ps E Hok Hi) as (s' & p' & ps' & Hr & Ha & Hok' & He); [lia|].
      exists s', p', ps'. split; [eapply reaches_step; [exact Es|exact Hr]|]. split; [done|]. split; [done|]. rewrite He, Ed. cbn [app map flat_map].
      unfold marked at 3. rewrite Epk. rewrite <- app_assoc. done.
Qed.

Lemma pages_run dso ps1 s ps2 k :
  pages s = ps1 ++ ps2 -> Forall page_ok (pages s) -> __atexit_invalid s = false ->
  exists s' ps', reaches s (Pages dso (length ps1) :: k) s' (Pages dso 0 :: k) /\ after s ps' (effects dso (entries ps1)) s' /\ Forall page_ok ps' /\
    entries ps' = map (marked dso) (entries ps1) ++ entries ps2 ++ added dso (entries ps1).
Proof.
  revert s ps2. induction ps1 as [|p r IH] using rev_ind; intros s ps2 E Hok Hi.
  - exists s, (pages s). split; [apply reaches_refl|]. split; [|split; [done|]].
    + unfold after, effects. cbn. rewrite app_nil_r, <- Hi. by destruct s.
    + unfold added. cbn. rewrite E, app_nil_r. done.
  - rewrite <- app_assoc in E. cbn in E. rewrite E in Hok. apply Forall_app in Hok as [Hr Hok].
    destruct (slots_run (ind p) dso s r p ps2 k E Hok Hi) as (s1 & p1 & ps1 & Hr1 & Ha1 & Hok1 & He1); [lia|].
    destruct (IH s1 (p1 :: ps1)) as (s2 & ps' & Hr2 & Ha2 & Hok2 & He2); [by rewrite Ha1|rewrite Ha1; by apply Forall_app|by rewrite Ha1|].
    exists s2, ps'. rewrite length_app, Nat.add_1_r. split; [|split; [|split; [done|]]].
    + eapply reaches_step; [cbn [exit_step]; rewrite E, lookup_app_r, Nat.sub_diag by lia; done|].
      eapply reaches_trans; [exact Hr1|]. eapply reaches_step; [done|exact Hr2].
    + unfold after in *. rewrite Ha2, Ha1. cbn. rewrite entries_app, entries_single. unfold effects. by rewrite calls_app, flat_map_app, <- app_assoc.
    + rewrite He2, He1, entries_app, entries_single. unfold added. rewrite calls_app, flat_map_app, map_app.
      change (p :: ps2) with ([p] ++ ps2). rewrite entries_app, entries_single.
      rewrite drop_app_ge by (rewrite length_take; lia). rewrite length_take. apply Forall_cons_1 in Hok as [[Hp1 Hp2] _].
      replace (ind p - ind p `min` length (fns p)) with 0 by lia. cbn. by rewrite <- !app_assoc.
Qed.

Lemma finalize_run dso s l k :
  Forall page_ok (pages s) -> __atexit_invalid s = false ->
  exists s', reaches s (Actions (AFinalize dso :: l) :: k) s' (Actions l :: k) /\
    events s' = events s ++ effects dso (entries (pages s)) /\ Forall page_ok (pages s') /\ __atexit_invalid s' = false /\
    (if (dso =? 0)%Z && (call_depth s =? 0)%Z then pages s' = []
     else entries (pages s') = map (marked dso) (entries (pages s)) ++ added dso (entries (pages s))).
Proof.
  intros Hok Hi. set (s1 := with_depth s (call_depth s + 1)).
  destruct (pages_run dso (pages s) s1 [] (Actions l :: k)) as (s2 & ps' & Hr & Ha & Hok' & He); [by rewrite app_nil_r|done|done|].
  exists (finalize_leave s2 dso). split.
  - eapply reaches_step; [cbn [exit_step]; unfold finalize_enter; by rewrite Hi|]. eapply reaches_trans; [exact Hr|]. eapply reaches_step; [done|apply reaches_refl].
  - unfold after in Ha. rewrite Ha. cbn in He. rewrite <- He. unfold finalize_leave. destruct (dso =? 0)%Z; [|done]. cbn.
    replace (call_depth s + 1 - 1)%Z with (call_depth s) by lia. destruct (call_depth s =? 0)%Z; cbn; [|done]. split; [done|]. split; [constructor|done].
Qed.

(** The handlers of what is marked are not called. *)
Lemma calls_marked dso es : calls 0 (map (marked dso) es) = calls 0 (filter (fun e => picked dso e = false) es).
Proof.
  induction es as [|e es IH] using rev_ind; [done|]. rewrite map_app, filter_app. cbn [map]. rewrite calls_snoc, IH. rewrite filter_cons.
  unfold marked at 1 2. destruct (picked dso e) eqn:E.
  - rewrite decide_False by done. by rewrite app_nil_r.
  - rewrite decide_True by done. by rewrite calls_snoc.
Qed.

(** The registrations before the cleanup function, and those behind it. *)
Lemma registered_run rs1 c rs2 k :
  exists s, reaches exit_init (Actions (map (ARegister no_faults) rs1 ++ ACleanup no_faults c :: map (ARegister no_faults) rs2 ++ k) :: []) s [Actions k] /\
    events s = map Registered (rs1 ++ cleanup_fn c :: rs2) /\ Forall page_ok (pages s) /\ __atexit_invalid s = false /\ call_depth s = 0%Z /\
    entries (pages s) = cleanup_fn c :: rs1 ++ rs2.
Proof.
  set (l := ACleanup no_faults c :: map (ARegister no_faults) rs2 ++ k). pose proof max_pos as Hmp.
  assert (exists s, reaches exit_init [Actions (map (ARegister no_faults) rs1 ++ l)] s [Actions (map (ARegister no_faults) rs2 ++ k)] /\
    events s = map Registered (rs1 ++ [cleanup_fn c]) /\ __atexit_invalid s = false /\ call_depth s = 0%Z /\
    exists p ps, pages s = p :: ps /\ Forall page_ok (p :: ps) /\ entries (p :: ps) = cleanup_fn c :: rs1) as (s & Hr & He & Hi & Hd & p & ps & Ep & Hok & Hes).
  { destruct rs1 as [|e rs1].
    - eexists. split; [eapply reaches_step; [done|apply reaches_refl]|]. split; [done|]. split; [done|]. split; [done|]. do 2 eexists. split; [done|].
      split; [constructor; [apply set_ok, new_ok; lia|constructor]|]. rewrite entries_mark by (apply new_ok || cbn; lia). cbn. rewrite take_0. cbn. f_equal. 
    - set (p := push_fn (new_page 1) e). set (s := (__cxa_atexit no_faults exit_init e).1).
      assert (page_ok p) as Hp by (apply push_ok; [apply new_ok; lia|cbn; lia]).
      destruct (actions_run rs1 s [] p [] l []) as (s' & p' & ps' & Hr & Ha & (Hg1 & Hg2 & _ & Hg4)); [done|by repeat constructor|done|].
      exists (__atexit_register_cleanup no_faults s' c). split; [eapply reaches_step; [done|]; eapply reaches_trans; [exact Hr|]; eapply reaches_step; [done|apply reaches_refl]|].
      unfold after in Ha. subst s'. cbn [__atexit_register_cleanup pages write_ok no_faults events logged with_pages app __atexit_invalid call_depth]. split; [cbn; by rewrite map_app|]. split; [done|]. split; [done|]. do 2 eexists. split; [done|].
      apply Forall_cons_1 in Hg1 as [Hg1 Hg1']. split; [constructor; [by apply set_ok|done]|]. rewrite entries_mark by (done || (cbn in Hg2; lia)).
      rewrite take_0, Hg4. cbn. done. }
  destruct (actions_run rs2 s [] p ps k [] Ep Hok Hi) as (s' & p' & ps' & Hr' & Ha & (Hg1 & _ & _ & Hg4)).
  exists s'. split; [by eapply reaches_trans|]. rewrite Ha. cbn [events pages __atexit_invalid call_depth app].
  rewrite He, Hd, Hg4, Hes, !map_app. cbn. by rewrite <- app_assoc.
Qed.
End order.

(** Handlers that register nothing are just called, the last first. *)
Lemma effects_quiet does es :
  Forall (fun e => regs does e = []) es -> effects does 0 es = map Called (filter is_live (rev es)).
Proof.
  intros Hq. apply Forall_rev in Hq. unfold effects, calls. induction Hq as [|e l He _ IH]; [done|].
  destruct (decide (is_live e)) as [Hl|Hl].
  - rewrite !filter_cons_True; [|done|]; [|unfold picked; by rewrite (proj2 (Z.eqb_neq _ _) Hl)].
    cbn [flat_map map app]. rewrite He. cbn [map app]. by f_equal.
  - rewrite !filter_cons_False; [done|done|]. unfold picked, is_live in *. by destruct (Z.eqb_spec (cxa_func e) 0).
Qed.

(** C33.  Handlers are called in the reverse order of their registration, each once: unloading a
    library calls those registered with its handle, the last first, which may register others, and
    exit then calls all that remain, the handlers that the first calls registered among them, the
    last first, and the cleanup function, whenever it was registered, behind every handler registered
    before the unloading.  The handlers that exit calls are such as register none themselves. *)
Theorem exit_handlers_order does rs1 c rs2 dso :
  dso <> 0%Z ->
  let es := cleanup_fn c :: rs1 ++ rs2 in
  let remaining := filter (fun e => picked dso e = false) es ++ added does dso es in
  Forall (fun e => regs does e = []) remaining ->
  exists n s, exit_run (registering does) (fun _ _ => true) n exit_init
      [Actions (map (ARegister no_faults) rs1 ++ ACleanup no_faults c :: map (ARegister no_faults) rs2 ++ AFinalize dso :: exit_actions)] = Some (s, []) /\
    events s = map Registered (rs1 ++ cleanup_fn c :: rs2) ++
      flat_map (fun e => Called e :: map Registered (regs does e)) (filter (fun e => picked dso e = true) (rev es)) ++
      map Called (filter is_live (rev remaining)).
Proof.
  intros Hd es remaining Hq. destruct (registered_run does rs1 c rs2 (AFinalize dso :: exit_actions)) as (s & Hr & He & Hok & Hi & Hc & Hes).
  destruct (finalize_run does dso s exit_actions [] Hok Hi) as (s1 & Hr1 & He1 & Hok1 & Hi1 & Hes1). rewrite (proj2 (Z.eqb_neq dso 0) Hd) in Hes1. cbn [andb] in Hes1.
  destruct (finalize_run does 0 s1 [] [] Hok1 Hi1) as (s2 & Hr2 & He2 & _).
  assert (reaches does s2 [Actions []] s2 []) as Hr3 by (eapply reaches_step; [done|apply reaches_refl]).
  destruct (reaches_trans _ _ _ _ _ _ _ Hr (reaches_trans _ _ _ _ _ _ _ Hr1 (reaches_trans _ _ _ _ _ _ _ Hr2 Hr3))) as [n Hn].
  exists n, s2. split; [exact Hn|]. rewrite He2, He1, He, Hes1, Hes, <- app_assoc. do 2 f_equal.
  rewrite <- (effects_quiet does remaining Hq). unfold effects. f_equal. unfold remaining.
  rewrite !calls_app. f_equal. apply calls_marked.
Qed.
Lemma exit_handlers_order_witness :
  let f k d := {| cxa_func := k; fn_arg := 0; fn_dso := d |} in
  exists n s, exit_run (registering (fun k _ => if (k =? 2)%Z then [f 9%Z 7%Z] else [])) (fun _ _ => true) n exit_init
      [Actions [ARegister no_faults (f 1%Z 5%Z); ACleanup no_faults 8; ARegister no_faults (f 2%Z 5%Z); ARegister no_faults (f 3%Z 6%Z); AFinalize 5; AFinalize 0]] = Some (s, []) /\
    called (events s) = [f 2%Z 5%Z; f 1%Z 5%Z; f 9%Z 7%Z; f 3%Z 6%Z; f 8%Z 0%Z].
Proof.
  intros f. destruct (exit_handlers_order (fun k _ => if (k =? 2)%Z then [f 9%Z 7%Z] else []) [f 1%Z 5%Z] 8 [f 2%Z 5%Z; f 3%Z 6%Z] 5) as (n & s & E & He);
    [done|by repeat constructor|].
  exists n, s. split; [exact E|]. rewrite He. reflexivity.
Defined.

(** A handler that a handler registers while exit runs is lost: its page is unmapped. *)
Example exit_loses_late_handlers :
  let f k := {| cxa_func := k; fn_arg := 0; fn_dso := 0 |} in
  exists s, exit_run (registering (fun k _ => if (k =? 1)%Z then [f 2%Z] else [])) (fun _ _ => true) 20 exit_init
      [Actions (ARegister no_faults (f 1%Z) :: exit_actions)] = Some (s, []) /\
    events s = [Registered (f 1%Z); Called (f 1%Z); Registered (f 2%Z)] /\ pages s = [].
Proof. eexists. split; [vm_compute; reflexivity|]. split; reflexivity. Qed.
(** A registration whose last mprotect fails answers -1, and the handler is called. *)
Example failed_registration_called :
  let f k := {| cxa_func := k; fn_arg := 0; fn_dso := 0 |} in
  let bad := {| mmap_ok := true; write_ok := true; read_ok := false |} in
  (__cxa_atexit bad exit_init (f 1%Z)).2 = (-1)%Z /\
  exists s, exit_run (fun _ _ => []) (fun _ _ => true) 20 exit_init [Actions (ARegister bad (f 1%Z) :: exit_actions)] = Some (s, []) /\ called (events s) = [f 1%Z].
Proof. split; [reflexivity|]. eexists. split; [vm_compute; reflexivity|]. reflexivity. Qed.
