(* ===== verification/StdioFile.v ===== *)
(** * Streams (libc/stdio: local.h, fflush.c, makebuf.c, wsetup.c, setvbuf.c, fpurge.c; include/stdio.h)

    A FILE, the device that its functions _read and _write reach, and errno.  A pointer into the
    buffer of a FILE is an offset; _p is an offset in the ungetc buffer while there is one.  The
    class [Device] states what the functions _read and _write of a stream promise.  Not kept: the
    orientation, the offset and the line buffer of fgetln, __sinit. *)
From S2P Require Import Prelude CMem.
#[local] Open Scope Z_scope.

(** ** Devices *)

(** [dread d n] is a read of at most [n] bytes, [None] for an error; [dwrite d bs] answers how many it
    took, or at most 0 for an error.  What is still to be read, and what was written, are for the laws. *)
Class Device (D : Type) := {
  dread : D -> Z -> D * option (list Z);
  dwrite : D -> list Z -> D * Z;
  to_read : D -> list Z;
  written : D -> list Z }.
Class DeviceLaws (D : Type) `{Device D} : Prop := {
  dread_data d n d' bs : 0 < n -> dread d n = (d', Some bs) ->
    to_read d = bs ++ to_read d' /\ Z.of_nat (length bs) <= n /\ written d' = written d /\ (bs = [] -> to_read d = []);
  dread_error d n d' : 0 < n -> dread d n = (d', None) -> to_read d' = to_read d /\ written d' = written d;
  dwrite_some d bs d' t : dwrite d bs = (d', t) -> t <= Z.of_nat (length bs) /\ written d' = written d ++ take (Z.to_nat t) bs }.

(** ** FILE *)
Definition __SLBF : Z := 0x0001.
Definition __SNBF : Z := 0x0002.
Definition __SRD : Z := 0x0004.
Definition __SWR : Z := 0x0008.
Definition __SRW : Z := 0x0010.
Definition __SEOF : Z := 0x0020.
Definition __SERR : Z := 0x0040.
Definition __SMBF : Z := 0x0080.
Definition __SAPP : Z := 0x0100.
Definition __SSTR : Z := 0x0200.
Definition __SOPT : Z := 0x0400.
Definition __SNPT : Z := 0x0800.
Definition __SOFF : Z := 0x1000.
Definition __SMOD : Z := 0x2000.
Definition __SALC : Z := 0x4000.
Definition BUFSIZ : Z := 1024.
Definition EOF : Z := -1.
Definition EBADF : Z := 9.
Definition NEWLINE : Z := 10.

(** _bf and _ub are the bytes of the buffers; [ub_reserve] tells that _ub is _ubuf. *)
Record FILE : Type := File {
  f_p : nat; f_r : Z; f_w : Z; f_flags : Z; bf_base : option (list Z); bf_size : Z; f_lbfsize : Z;
  ub_base : option (list Z); ub_reserve : bool; f_up : nat; f_ur : Z }.
Definition set_p (p : nat) (f : FILE) : FILE :=
  File p (f_r f) (f_w f) (f_flags f) (bf_base f) (bf_size f) (f_lbfsize f) (ub_base f) (ub_reserve f) (f_up f) (f_ur f).
Definition set_r (r : Z) (f : FILE) : FILE :=
  File (f_p f) r (f_w f) (f_flags f) (bf_base f) (bf_size f) (f_lbfsize f) (ub_base f) (ub_reserve f) (f_up f) (f_ur f).
Definition set_w (w : Z) (f : FILE) : FILE :=
  File (f_p f) (f_r f) w (f_flags f) (bf_base f) (bf_size f) (f_lbfsize f) (ub_base f) (ub_reserve f) (f_up f) (f_ur f).
Definition set_fl (g : Z -> Z) (f : FILE) : FILE :=
  File (f_p f) (f_r f) (f_w f) (g (f_flags f)) (bf_base f) (bf_size f) (f_lbfsize f) (ub_base f) (ub_reserve f) (f_up f) (f_ur f).
Definition set_bf (b : option (list Z)) (n : Z) (f : FILE) : FILE :=
  File (f_p f) (f_r f) (f_w f) (f_flags f) b n (f_lbfsize f) (ub_base f) (ub_reserve f) (f_up f) (f_ur f).
Definition set_lbfsize (n : Z) (f : FILE) : FILE :=
  File (f_p f) (f_r f) (f_w f) (f_flags f) (bf_base f) (bf_size f) n (ub_base f) (ub_reserve f) (f_up f) (f_ur f).
Definition set_ub (b : option (list Z)) (own : bool) (f : FILE) : FILE :=
  File (f_p f) (f_r f) (f_w f) (f_flags f) (bf_base f) (bf_size f) (f_lbfsize f) b own (f_up f) (f_ur f).
Definition set_saved (p : nat) (r : Z) (f : FILE) : FILE :=
  File (f_p f) (f_r f) (f_w f) (f_flags f) (bf_base f) (bf_size f) (f_lbfsize f) (ub_base f) (ub_reserve f) p r.

(** flags & m != 0, flags |= m, flags &= ~m *)
Definition has (flags m : Z) : bool := negb (Z.land flags m =? 0).
Definition on (m flags : Z) : Z := Z.lor flags m.
Definition off (m flags : Z) : Z := Z.ldiff flags m.

Definition HASUB (f : FILE) : bool := match ub_base f with Some _ => true | None => false end.
Definition FREEUB (f : FILE) : FILE := set_ub None (ub_reserve f) f.
(** The buffer that _p points into. *)
Definition cur (f : FILE) : list Z := match ub_base f with Some u => u | None => default [] (bf_base f) end.

Section streams.
Context {D : Type} `{Device D}.

Record stream : Type := Stream { fp : FILE; dv : D; errno : Z }.
Definition on_fp (g : FILE -> FILE) (s : stream) : stream := Stream (g (fp s)) (dv s) (errno s).
Definition on_dv (d : D) (s : stream) : stream := Stream (fp s) d (errno s).
Definition set_errno (e : Z) (s : stream) : stream := Stream (fp s) (dv s) e.
Definition flag (s : stream) (m : Z) : bool := has (f_flags (fp s)) m.

(** ** fflush.c *)

(** for (; n > 0; n -= t, p += t) *)
Fixpoint sflush_loop (fuel : nat) (s : stream) (bs : list Z) : option (stream * Z) :=
  match bs with
  | [] => Some (s, 0)
  | _ =>
      match fuel with
      | O => None
      | S fuel =>
          let '(d, t) := dwrite (dv s) bs in
          let s := on_dv d s in
          if t <=? 0 then Some (on_fp (set_fl (on __SERR)) s, EOF)
          else sflush_loop fuel s (drop (Z.to_nat t) bs)
      end
  end.
Definition __sflush (s : stream) : option (stream * Z) :=
  let t := f_flags (fp s) in
  if negb (has t __SWR) then Some (s, 0)
  else
    match bf_base (fp s) with
    | None => Some (s, 0)
    | Some b =>
        let n := f_p (fp s) in
        let s := on_fp (fun f => set_w (if has t (Z.lor __SLBF __SNBF) then 0 else bf_size f) (set_p 0 f)) s in
        sflush_loop n s (take n b)
    end.
(** fflush of one file *)
Definition fflush (s : stream) : option (stream * Z) :=
  if negb (has (f_flags (fp s)) (Z.lor __SWR __SRW)) then Some (set_errno EBADF s, EOF) else __sflush s.

(** ** makebuf.c

    What __swhatbuf finds out by fstat, with isatty, and whether malloc has memory: its bytes. *)
Record bufinfo : Type := BufInfo { b_size : Z; b_opt : Z; b_tty : bool; b_malloc : option (list Z) }.
Context (info : bufinfo).

Definition unbuffer (f : FILE) : FILE := set_bf (Some [0]) 1 (set_p 0 f).
Definition __smakebuf (f : FILE) : FILE :=
  if has (f_flags f) __SNBF then unbuffer f
  else
    match b_malloc info with
    | None => unbuffer (set_fl (on __SNBF) f)
    | Some b =>
        let flags := Z.lor (b_opt info) __SMBF in
        let f := set_bf (Some b) (b_size info) (set_p 0 f) in
        set_fl (on (if b_tty info then Z.lor flags __SLBF else flags)) f
    end.

(** ** wsetup.c *)
Definition swsetup_w (f : FILE) : FILE :=
  if has (f_flags f) __SLBF then set_lbfsize (- bf_size f) (set_w 0 f)
  else set_w (if has (f_flags f) __SNBF then 0 else bf_size f) f.
Definition __swsetup (f : FILE) : FILE * Z :=
  let setup f :=
    match bf_base f with
    | None =>
        if has (f_flags f) __SSTR && negb (has (f_flags f) __SALC) then (f, EOF)
        else (swsetup_w (__smakebuf f), 0)
    | Some _ => (swsetup_w f, 0)
    end in
  if negb (has (f_flags f) __SWR) then
    if negb (has (f_flags f) __SRW) then (f, EOF)
    else
      let f := if has (f_flags f) __SRD
               then set_p 0 (set_r 0 (set_fl (off (Z.lor __SRD __SEOF)) (if HASUB f then FREEUB f else f)))
               else f in
      setup (set_fl (on __SWR) f)
  else setup f.
(** #define cantwrite(fp) *)
Definition cantwrite (f : FILE) : FILE * bool :=
  if negb (has (f_flags f) __SWR) || match bf_base f with None => true | Some _ => false end
  then let '(f, r) := __swsetup f in (f, negb (r =? 0)) else (f, false).
End streams.
Arguments stream : clear implicits.

(** ** Flags *)
Lemma has_on m m' f : has (on m f) m' = has f m' || has m m'.
Proof.
  unfold has, on. rewrite Z.land_lor_distr_l. destruct (Z.eqb_spec (Z.lor (Z.land f m') (Z.land m m')) 0) as [E|E].
  - apply Z.lor_eq_0_iff in E as [-> ->]. done.
  - destruct (Z.eqb_spec (Z.land f m') 0) as [E1|]; [|done]. destruct (Z.eqb_spec (Z.land m m') 0) as [E2|]; [|done]. by rewrite E1, E2 in E.
Qed.
Lemma has_off m m' f : has (off m f) m' = has f (Z.ldiff m' m).
Proof.
  unfold has, off. f_equal. f_equal. apply Z.bits_inj'. intros n _. rewrite !Z.land_spec, !Z.ldiff_spec.
  destruct (Z.testbit f n), (Z.testbit m n), (Z.testbit m' n); done.
Qed.
Lemma has_0 f : has f 0 = false.
Proof. unfold has. by rewrite Z.land_0_r. Qed.
Lemma has_off_out m m' f : Z.ldiff m' m = 0 -> has (off m f) m' = false.
Proof. intros E. by rewrite has_off, E, has_0. Qed.
Lemma has_off_other m m' f : Z.ldiff m' m = m' -> has (off m f) m' = has f m'.
Proof. intros E. by rewrite has_off, E. Qed.
Lemma has_either f a b : has f (Z.lor a b) = has f a || has f b.
Proof.
  unfold has. rewrite Z.land_lor_distr_r. destruct (Z.eqb_spec (Z.lor (Z.land f a) (Z.land f b)) 0) as [E|E].
  - apply Z.lor_eq_0_iff in E as [-> ->]. done.
  - destruct (Z.eqb_spec (Z.land f a) 0) as [E1|]; [|done]. destruct (Z.eqb_spec (Z.land f b) 0) as [E2|]; [|done]. by rewrite E1, E2 in E.
Qed.

(** Flags of a stream after assignments to its fields. *)
Ltac eval_flags :=
  repeat match goal with
  | |- context [has ?m ?m'] => let b := eval vm_compute in (has m m') in
      match b with true => change (has m m') with true | false => change (has m m') with false end
  end.
Ltac flags :=
  unfold flag; cbn [fp dv errno on_fp on_dv set_errno f_p f_r f_w f_flags bf_base bf_size f_lbfsize ub_base ub_reserve f_up f_ur
    set_p set_r set_w set_fl set_bf set_lbfsize set_ub set_saved unbuffer FREEUB];
  repeat (rewrite has_on || rewrite has_off_other by reflexivity || rewrite has_off_out by reflexivity); eval_flags;
  rewrite ?orb_false_r, ?orb_true_r, ?andb_false_r, ?andb_true_r; cbn [orb andb negb].

(** ** Flushing always ends *)
Section flushing.
Context {D : Type} `{Device D}.

Lemma sflush_loop_total fuel (s : stream D) bs : (length bs <= fuel)%nat -> is_Some (sflush_loop fuel s bs).
Proof.
  revert s bs. induction fuel as [|fuel IH]; intros s [|b bs] Hf; cbn in *; try (by eexists); [lia|]. destruct (dwrite (dv s) (b :: bs)) as [d t].
  destruct (Z.leb_spec t 0); [by eexists|]. apply IH. rewrite length_drop. cbn. lia.
Qed.
Lemma sflush_total (s : stream D) : is_Some (__sflush s).
Proof.
  unfold __sflush. destruct (negb _); [by eexists|]. destruct (bf_base (fp s)); [|by eexists]. apply sflush_loop_total. rewrite length_take. lia.
Qed.
End flushing.
