(* ===== verification/StdioRead.v ===== *)
(** * Reading from streams (libc/stdio: refill.c, rget.c, fgetc.c, fread.c, fgets.c, ungetc.c)

    [others] are the other streams of the process, which _fwalk visits.  A function that reads into
    memory of the caller answers the bytes it put there.  [None] is an access outside a buffer. *)
From S2P Require Import Prelude CMem StdioFile.
#[local] Open Scope Z_scope.

Section reading.
Context {D : Type} `{Device D} (info : bufinfo).
Notation stream := (stream D).

(** ** refill.c *)
Definition lflush (s : stream) : option stream :=
  if flag s __SLBF && flag s __SWR then '(s, _) ← __sflush s; Some s else Some s.
(** (void) _fwalk(lflush) *)
Definition fwalk_lflush (others : list stream) (s : stream) : option (list stream * stream) :=
  others ← mapM (fun x => if f_flags (fp x) =? 0 then Some x else lflush x) others;
  s ← lflush s;
  Some (others, s).

(** From the read on: fp->_r = ( *fp->_read)(...) *)
Definition srefill_read (s : stream) : option (stream * Z) :=
  b ← bf_base (fp s);
  let '(d, r) := dread (dv s) (bf_size (fp s)) in
  let s := on_dv d (on_fp (fun f => set_fl (off __SMOD) (set_p 0 f)) s) in
  match r with
  | Some [] => Some (on_fp (fun f => set_fl (on __SEOF) (set_r 0 f)) s, EOF)
  | None => Some (on_fp (fun f => set_fl (on __SERR) (set_r 0 f)) s, EOF)
  | Some bs =>
      if (Z.to_nat (bf_size (fp s)) <? length bs)%nat then None
      else Some (on_fp (fun f => set_r (Z.of_nat (length bs)) (set_bf (Some (blit b 0 bs)) (bf_size f) f)) s, 0)
  end.
(** From if (fp->_bf._base == NULL) on. *)
Definition srefill_fill (others : list stream) (s : stream) : option (list stream * stream * Z) :=
  let s := match bf_base (fp s) with None => on_fp (__smakebuf info) s | Some _ => s end in
  '(others, s) ← (if flag s (Z.lor __SLBF __SNBF) then fwalk_lflush others s else Some (others, s));
  '(s, r) ← srefill_read s;
  Some (others, s, r).
(** The switch to reading: the answer tells whether to go on. *)
Definition start_reading (s : stream) : option (stream * bool) :=
  if negb (flag s __SRW) then Some (on_fp (set_fl (on __SERR)) (set_errno EBADF s), false)
  else if flag s __SWR then
    '(s, r) ← __sflush s;
    if negb (r =? 0) then Some (s, false)
    else Some (on_fp (fun f => set_fl (on __SRD) (set_lbfsize 0 (set_w 0 (set_fl (off __SWR) f)))) s, true)
  else Some (on_fp (set_fl (on __SRD)) s, true).
Definition __srefill (others : list stream) (s : stream) : option (list stream * stream * Z) :=
  let s := on_fp (set_r 0) s in
  if flag s __SEOF then Some (others, s, EOF)
  else if negb (flag s __SRD) then
    '(s, go) ← start_reading s;
    if go : bool then srefill_fill others s else Some (others, s, EOF)
  else if HASUB (fp s) then
    let s := on_fp (fun f => set_r (f_ur f) (FREEUB f)) s in
    if negb (f_r (fp s) =? 0) then Some (others, on_fp (fun f => set_p (f_up f) f) s, 0)
    else srefill_fill others s
  else srefill_fill others s.

(** fp->_r--; return ( *fp->_p++); *)
Definition take_byte (s : stream) : option (stream * Z) :=
  c ← cur (fp s) !! f_p (fp s);
  Some (on_fp (fun f => set_p (S (f_p f)) f) s, c).
Definition __srget (others : list stream) (s : stream) : option (list stream * stream * Z) :=
  '(others, s, r) ← __srefill others s;
  if r =? 0 then '(s, c) ← take_byte (on_fp (fun f => set_r (f_r f - 1) f) s); Some (others, s, c)
  else Some (others, s, EOF).
(** #define __sgetc(p) *)
Definition fgetc (others : list stream) (s : stream) : option (list stream * stream * Z) :=
  let s := on_fp (fun f => set_r (f_r f - 1) f) s in
  if f_r (fp s) <? 0 then __srget others s
  else '(s, c) ← take_byte s; Some (others, s, c).

(** ** fread.c *)

(** memcpy(p, fp->_p, n); fp->_r -= n; fp->_p += n *)
Definition take_bytes (n : nat) (s : stream) : option (stream * list Z) :=
  if (f_p (fp s) + n <=? length (cur (fp s)))%nat
  then Some (on_fp (fun f => set_r (f_r f - Z.of_nat n) (set_p (f_p f + n) f)) s, slice (cur (fp s)) (f_p (fp s)) n)
  else None.

(** The bytes copied and the number of bytes that are missing, 0 when the loop ends; _r is not negative here. *)
Fixpoint fread_loop (fuel : nat) (others : list stream) (s : stream) (resid : Z) (acc : list Z)
    : option (list stream * stream * list Z * Z) :=
  let r := f_r (fp s) in
  if r <? resid then
    match fuel with
    | O => None
    | S fuel =>
        '(s, bs) ← (if r =? 0 then Some (s, []) else take_bytes (Z.to_nat r) s);
        let resid := resid - r in
        '(others, s, e) ← __srefill others s;
        if negb (e =? 0) then Some (others, s, acc ++ bs, resid) else fread_loop fuel others s resid (acc ++ bs)
    end
  else '(s, bs) ← take_bytes (Z.to_nat resid) s; Some (others, s, acc ++ bs, 0).
(** The reads into the memory of the caller *)
Fixpoint direct_loop (fuel : nat) (s : stream) (resid : Z) (acc : list Z) : option (stream * list Z * Z) :=
  if 0 <? resid then
    match fuel with
    | O => None
    | S fuel =>
        let '(d, r) := dread (dv s) resid in
        let s := on_dv d (on_fp (set_fl (off __SMOD)) s) in
        match r with
        | None => Some (on_fp (set_fl (on __SERR)) s, acc, resid)
        | Some [] => Some (on_fp (set_fl (on __SEOF)) s, acc, resid)
        | Some bs => direct_loop fuel s (resid - Z.of_nat (length bs)) (acc ++ bs)
        end
    end
  else Some (s, acc, resid).
Definition fread_direct (others : list stream) (s : stream) (resid size count : Z) : option (list stream * stream * list Z * Z) :=
  let s := on_fp (set_r 0) s in
  if flag s __SEOF then Some (others, s, [], u32 EOF)
  else
    '(s, go) ← (if negb (flag s __SRD) then start_reading s
                else Some (on_fp (fun f => if HASUB f then FREEUB f else f) s, true));
    if negb go then Some (others, s, [], u32 EOF)
    else
      '(others, s) ← (if flag s (Z.lor __SLBF __SNBF) then fwalk_lflush others s else Some (others, s));
      '(s, bs, missing) ← direct_loop (S (Z.to_nat resid)) s resid [];
      Some (others, s, bs, if missing =? 0 then count else (resid - missing) / size).
(** The stream, the bytes that were read and the number of objects. *)
Definition fread (others : list stream) (s : stream) (size count : Z) : option (list stream * stream * list Z * Z) :=
  let resid := u32 (count * size) in
  if resid =? 0 then Some (others, s, [], 0)
  else
    let s := if f_r (fp s) <? 0 then on_fp (set_r 0) s else s in
    if flag s __SNBF && (f_ur (fp s) =? 0) then fread_direct others s resid size count
    else
      '(others, s, bs, missing) ← fread_loop (S (S (Z.to_nat resid))) others s resid [];
      Some (others, s, bs, if missing =? 0 then count else (resid - missing) / size).

(** ** fgets.c *)

(** The bytes read, or none when the first refill fails. *)
Fixpoint fgets_loop (fuel : nat) (others : list stream) (s : stream) (n : Z) (acc : list Z)
    : option (list stream * stream * option (list Z)) :=
  if n =? 0 then Some (others, s, Some acc)
  else
    match fuel with
    | O => None
    | S fuel =>
        '(others, s, e) ← (if f_r (fp s) <=? 0 then __srefill others s else Some (others, s, 0));
        if negb (e =? 0) then Some (others, s, match acc with [] => None | _ => Some acc end)
        else
          let len := f_r (fp s) in
          let len := if n <? len then n else len in
          t ← memchr (Z.to_nat len) (cur (fp s)) (f_p (fp s)) NEWLINE;
          match t with
          | Some t => '(s, bs) ← take_bytes (S t - f_p (fp s))%nat s; Some (others, s, Some (acc ++ bs))
          | None => '(s, bs) ← take_bytes (Z.to_nat len) s; fgets_loop fuel others s (n - len) (acc ++ bs)
          end
    end.
Definition fgets (others : list stream) (s : stream) (n : Z) : option (list stream * stream * option (list Z)) :=
  if n <=? 0 then Some (others, s, None) else fgets_loop (Z.to_nat n) others s (n - 1) [].

(** ** ungetc.c

    [malloc] tells whether malloc and realloc have memory; its bytes are not read before they are written. *)
Definition __submore (malloc : bool) (f : FILE) : option (FILE * Z) :=
  u ← ub_base f;
  if negb malloc then Some (f, EOF)
  else if ub_reserve f then
    Some (set_p (Z.to_nat BUFSIZ - 3) (set_ub (Some (replicate (Z.to_nat BUFSIZ - 3) 0 ++ u)) false f), 0)
  else Some (set_p (length u) (set_ub (Some (u ++ u)) false f), 0).
(** *--fp->_p = c; fp->_r++ in the ungetc buffer *)
Definition push_byte (c : Z) (f : FILE) : option FILE :=
  u ← ub_base f;
  match f_p f with
  | O => None
  | S p => u ← st u p c; Some (set_r (f_r f + 1) (set_p p (set_ub (Some u) (ub_reserve f) f)))
  end.
Definition ungetc_reading (malloc : bool) (c : Z) (s : stream) : option (stream * Z) :=
  match ub_base (fp s) with
  | Some u =>
      '(f, e) ← (if Z.of_nat (length u) <=? f_r (fp s) then __submore malloc (fp s) else Some (fp s, 0));
      if negb (e =? 0) then Some (s, EOF)
      else f ← push_byte c f; Some (on_fp (fun _ => f) s, c)
  | None =>
      let s := on_fp (set_fl (off __SEOF)) s in
      let back := match bf_base (fp s), f_p (fp s) with
                  | Some b, S p => if decide (b !! p = Some c) then Some p else None
                  | _, _ => None
                  end in
      match back with
      | Some p => Some (on_fp (fun f => set_r (f_r f + 1) (set_p p f)) s, c)
      | None => Some (on_fp (fun f => set_r 1 (set_p 2 (set_ub (Some [0; 0; c]) true (set_saved (f_p f) (f_r f) f)))) s, c)
      end
  end.
Definition ungetc (malloc : bool) (c : Z) (s : stream) : option (stream * Z) :=
  if c =? EOF then Some (s, EOF)
  else if negb (flag s __SRD) then
    if negb (flag s __SRW) then Some (s, EOF)
    else if flag s __SWR then
      '(s, r) ← __sflush s;
      if negb (r =? 0) then Some (s, EOF)
      else ungetc_reading malloc (u8 c) (on_fp (fun f => set_fl (on __SRD) (set_lbfsize 0 (set_w 0 (set_fl (off __SWR) f)))) s)
    else ungetc_reading malloc (u8 c) (on_fp (set_fl (on __SRD)) s)
  else ungetc_reading malloc (u8 c) s.
End reading.

(** ** What is left to read *)
Section read_proofs.
Context {D : Type} `{DeviceLaws D} (info : bufinfo).
Notation stream := (stream D).

(** What malloc and fstat give for a buffer. *)
Definition info_ok : Prop :=
  (b_opt info = __SOPT \/ b_opt info = __SNPT) /\
  match b_malloc info with Some b => Z.of_nat (length b) = b_size info /\ 0 < b_size info | None => True end.
Context (Hinfo : info_ok).
(** [keep]: the stream has a buffer, for which there is memory. *)
Context (keep : Prop) (Hkeep : keep -> b_malloc info <> None).

(** The bytes in the buffers of a FILE, those pushed back first, and behind them those of the device. *)
Definition pending (f : FILE) : list Z :=
  match ub_base f with
  | Some u => slice u (f_p f) (Z.to_nat (f_r f)) ++ slice (default [] (bf_base f)) (f_up f) (Z.to_nat (f_ur f))
  | None => slice (default [] (bf_base f)) (f_p f) (Z.to_nat (f_r f))
  end.
Definition unread (s : stream) : list Z := pending (fp s) ++ to_read (dv s).

(** A stream that is open for reading. *)
Definition pos_ok (f : FILE) : Prop :=
  match ub_base f with
  | Some u => 0 <= f_r f /\ (f_p f + Z.to_nat (f_r f) = length u)%nat /\ 0 <= f_ur f /\
      (f_up f + Z.to_nat (f_ur f) <= length (default [] (bf_base f)))%nat /\ (ub_reserve f = true -> length u = 3%nat) /\ (3 <= length u)%nat
  | None => 0 <= f_r f /\ (f_p f + Z.to_nat (f_r f) <= length (default [] (bf_base f)))%nat
  end.
Definition buf_ok (f : FILE) : Prop := match bf_base f with Some b => Z.of_nat (length b) = bf_size f /\ 0 < bf_size f | None => True end.
Record rd_ok (s : stream) : Prop := {
  rd_on : flag s __SRD = true;
  rd_not_wr : flag s __SWR = false;
  rd_buf : buf_ok (fp s);
  rd_pos : pos_ok (fp s);
  rd_eof : flag s __SEOF = true -> to_read (dv s) = [] /\ ub_base (fp s) = None;
  rd_nb : keep -> flag s __SNBF = false }.

Lemma lflush_reading (s : stream) : flag s __SWR = false -> lflush s = Some s.
Proof. intros E. unfold lflush. by rewrite E, andb_false_r. Qed.
Lemma lflush_total (s : stream) : is_Some (lflush s).
Proof. unfold lflush. destruct (_ && _); [|by eexists]. destruct (sflush_total s) as [[s' r] ->]. by eexists. Qed.
Lemma fwalk_total others (s : stream) : flag s __SWR = false -> exists others', fwalk_lflush others s = Some (others', s).
Proof.
  intros E. unfold fwalk_lflush. rewrite (lflush_reading s E).
  assert (is_Some (mapM (fun x => if f_flags (fp x) =? 0 then Some x else lflush x) others)) as [o ->]; [|by exists o].
  apply mapM_is_Some, Forall_true. intros x. unfold compose. destruct (f_flags (fp x) =? 0); [by eexists|apply lflush_total].
Qed.

(** Some read of the device fails. *)
Definition device_fails : Prop := exists d n d', 0 < n /\ dread d n = (d', None).

(** After a refill there is something in the buffer, or nothing left to read, or an error. *)
Definition refilled (s s' : stream) (e : Z) : Prop :=
  rd_ok s' /\ unread s' = unread s /\
  (e = 0 /\ 0 < f_r (fp s') \/ e = EOF /\ f_r (fp s') = 0 /\ (unread s' = [] /\ flag s' __SEOF = true \/ device_fails /\ flag s' __SERR = true)).

Lemma makebuf_ok (f : FILE) :
  bf_base f = None ->
  exists b, bf_base (__smakebuf info f) = Some b /\ Z.of_nat (length b) = bf_size (__smakebuf info f) /\ 0 < bf_size (__smakebuf info f) /\
    ub_base (__smakebuf info f) = ub_base f /\
    (forall m, m = __SRD \/ m = __SWR \/ m = __SEOF \/ m = __SERR -> has (f_flags (__smakebuf info f)) m = has (f_flags f) m) /\
    (b_malloc info <> None -> has (f_flags (__smakebuf info f)) __SNBF = has (f_flags f) __SNBF).
Proof using Hinfo Hkeep info keep.
  intros Ef. destruct Hinfo as [Ho Hm]. unfold __smakebuf. destruct (has (f_flags f) __SNBF) eqn:En.
  - exists [0]. cbn. rewrite ?En. repeat split; try done; try lia.
  - destruct (b_malloc info) as [b|].
    + exists b. split; [done|]. split; [apply Hm|]. split; [apply Hm|]. split; [done|].
      assert (forall m, m = __SRD \/ m = __SWR \/ m = __SEOF \/ m = __SERR \/ m = __SNBF ->
        has (on (if b_tty info then Z.lor (Z.lor (b_opt info) __SMBF) __SLBF else Z.lor (b_opt info) __SMBF) (f_flags f)) m = has (f_flags f) m) as Hk.
      { intros m Hc. rewrite has_on. replace (has (if b_tty info then _ else _) m) with false; [apply orb_false_r|].
        destruct Ho as [-> | ->], (b_tty info); destruct Hc as [-> | [-> | [-> | [-> | ->]]]]; reflexivity. }
      split; [intros m Hc; apply Hk; tauto|]. intros _. cbn [f_flags set_fl set_bf set_p]. rewrite Hk by tauto. done.
    + exists [0]. cbn. split; [done|]. split; [done|]. split; [lia|]. split; [done|]. split; [|done].
      intros m Hc. rewrite has_on. destruct Hc as [-> | [-> | [-> | ->]]]; apply orb_false_r.
Qed.

Lemma slice_all_blit b bs : (length bs <= length b)%nat -> slice (blit b 0 bs) 0 (length bs) = bs.
Proof. intros Hl. apply slice_blit. cbn. lia. Qed.

(** The read into the buffer. *)
Lemma srefill_read_spec (s : stream) b :
  bf_base (fp s) = Some b -> Z.of_nat (length b) = bf_size (fp s) -> 0 < bf_size (fp s) -> ub_base (fp s) = None ->
  flag s __SRD = true -> flag s __SWR = false -> flag s __SEOF = false -> (keep -> flag s __SNBF = false) ->
  exists s' e, srefill_read s = Some (s', e) /\ rd_ok s' /\ unread s' = to_read (dv s) /\
  (e = 0 /\ 0 < f_r (fp s') \/ e = EOF /\ f_r (fp s') = 0 /\ (unread s' = [] /\ flag s' __SEOF = true \/ device_fails /\ flag s' __SERR = true)).
Proof using H0.
  intros Eb Hl Hs Eu E1 E2 E3 E4. unfold srefill_read. rewrite Eb. cbn [mbind option_bind]. destruct (dread (dv s) (bf_size (fp s))) as [d r] eqn:Er.
  destruct r as [[|c bs]|].
  - destruct (dread_data _ _ _ _ Hs Er) as (Ht & _ & _ & He). specialize (He eq_refl). rewrite He in Ht. cbn in Ht.
    do 2 eexists. split; [done|]. split; [|split].
    + split; unfold buf_ok, pos_ok; flags; rewrite ?Eb, ?Eu; cbn; try done; lia.
    + unfold unread, pending. cbn. rewrite Eu, Eb. cbn. by rewrite He, <- Ht.
    + right. split; [done|]. split; [done|]. left. split; [|by flags]. unfold unread, pending. cbn. rewrite Eu, Eb. cbn. by rewrite <- Ht.
  - destruct (dread_data _ _ _ _ Hs Er) as (Ht & Hn & _ & _). set (l := c :: bs) in *. assert (0 < length l)%nat as Hp by (cbn; lia).
    rewrite (proj2 (Nat.ltb_ge _ _)) by (cbn [fp on_dv on_fp set_fl set_p bf_size]; lia).
    do 2 eexists. split; [done|]. split; [|split].
    + assert (length (blit b 0 l) = length b) as Hbl by (apply length_blit; cbn [Nat.add]; lia).
      split; [by flags|by flags| | |flags; unfold flag in E3; by rewrite E3|by flags].
      * unfold buf_ok. cbn. fold l. by rewrite Hbl.
      * unfold pos_ok. cbn [fp on_fp on_dv ub_base f_r f_p bf_base set_r set_bf set_fl set_p]. rewrite Eu. change (default [] (Some ?x)) with x. lia.
    + unfold unread, pending. flags. rewrite Eu. change (default [] (Some ?x)) with x. rewrite Nat2Z.id, slice_all_blit by lia. by rewrite Ht.
    + left. split; [done|]. flags. lia.
  - destruct (dread_error _ _ _ Hs Er) as (Ht & _). do 2 eexists. split; [done|]. split; [|split].
    + split; unfold buf_ok, pos_ok; flags; rewrite ?Eb, ?Eu; cbn; try done; [lia|]. unfold flag in E3. by rewrite E3.
    + unfold unread, pending. cbn. rewrite Eu, Eb. cbn. by rewrite Ht.
    + right. split; [done|]. split; [done|]. right. split; [by do 3 eexists|by flags].
Qed.

Lemma srefill_fill_spec others (s : stream) :
  buf_ok (fp s) -> ub_base (fp s) = None -> flag s __SRD = true -> flag s __SWR = false -> flag s __SEOF = false ->
  (keep -> flag s __SNBF = false) -> pending (fp s) = [] ->
  exists others' s' e, srefill_fill info others s = Some (others', s', e) /\ refilled s s' e.
Proof using H0 Hinfo Hkeep.
  intros Hb Eu E1 E2 E3 E4 Ep. unfold srefill_fill.
  assert (exists s1 b, match bf_base (fp s) with None => on_fp (__smakebuf info) s | Some _ => s end = s1 /\
    bf_base (fp s1) = Some b /\ Z.of_nat (length b) = bf_size (fp s1) /\ 0 < bf_size (fp s1) /\ ub_base (fp s1) = None /\ dv s1 = dv s /\
    (forall m, m = __SRD \/ m = __SWR \/ m = __SEOF \/ m = __SERR -> flag s1 m = flag s m) /\
    (b_malloc info <> None -> flag s1 __SNBF = flag s __SNBF)) as (s1 & b & -> & Eb & Hl & Hs & Eu1 & Ed & Hf & Hn).
  { unfold buf_ok in Hb. destruct (bf_base (fp s)) as [b|] eqn:Eb; [exists s, b; tauto|].
    destruct (makebuf_ok (fp s) Eb) as (b & H1 & H2 & H3 & H4 & H5 & H6). exists (on_fp (__smakebuf info) s), b.
    split; [done|]. split; [done|]. split; [done|]. split; [done|]. cbn. rewrite H4. split; [done|]. split; [done|]. split; [exact H5|exact H6]. }
  assert (exists others', (if flag s1 (Z.lor __SLBF __SNBF) then fwalk_lflush others s1 else Some (others, s1)) = Some (others', s1)) as [others' ->].
  { destruct (flag s1 (Z.lor __SLBF __SNBF)); [|by exists others]. apply fwalk_total. rewrite Hf by tauto. done. }
  cbn [mbind option_bind].
  destruct (srefill_read_spec s1 b Eb Hl Hs Eu1) as (s' & e & -> & Hok & Hu & He); [by rewrite Hf by tauto..|intros Hk; rewrite Hn by (by apply Hkeep); by apply E4|].
  exists others', s', e. split; [done|]. split; [done|]. split; [by rewrite Hu, Ed; unfold unread; rewrite Ep|done].
Qed.

Lemma srefill_spec others (s : stream) :
  rd_ok s -> f_r (fp s) = 0 -> exists others' s' e, __srefill info others s = Some (others', s', e) /\ refilled s s' e.
Proof using H0 Hinfo Hkeep.
  intros Hok Hr. unfold __srefill. assert (on_fp (set_r 0) s = s) as -> by (destruct s as [[] ? ?]; cbn in *; by rewrite Hr).
  pose proof Hok as [E1 E2 Hb Hp He E4]. destruct (flag s __SEOF) eqn:E3.
  - destruct (He eq_refl) as [Ht Eu]. do 3 eexists. split; [done|]. split; [exact Hok|]. split; [done|]. right. split; [done|]. split; [done|].
    left. split; [|done]. unfold unread, pending. rewrite Eu, Hr, Ht. done.
  - rewrite E1. cbn [negb]. unfold HASUB. unfold pos_ok in Hp. destruct (ub_base (fp s)) as [u|] eqn:Eu.
    + destruct Hp as (_ & Hp & Hur & Hup & _). cbn [fp on_fp f_r set_r].
      destruct (Z.eqb_spec (f_ur (fp s)) 0) as [Hz|Hz]; cbn [negb].
      * set (s1 := on_fp _ s).
        destruct (srefill_fill_spec others s1) as (o' & s' & e & E & Hs); unfold s1; try done; [unfold pending; cbn; by rewrite Hz|].
        exists o', s', e. split; [exact E|]. destruct Hs as (H1 & H2 & H3). split; [done|]. split; [|exact H3].
        rewrite H2. unfold unread, pending. cbn. by rewrite Eu, Hr, Hz.
      * do 3 eexists. split; [done|]. split; [|split; [|left; cbn; lia]].
        -- split; [by flags|by flags|done|unfold pos_ok; cbn; lia|unfold flag in *; cbn; by rewrite E3|done].
        -- unfold unread, pending. cbn. by rewrite Eu, Hr.
    + apply srefill_fill_spec; try done. unfold pending. by rewrite Eu, Hr.
Qed.

(** ** The functions *)
Lemma slice_nil_0 (b : list Z) p : slice b p 0 = [].
Proof. done. Qed.
Lemma pos_cur f : pos_ok f -> 0 <= f_r f /\ (f_p f + Z.to_nat (f_r f) <= length (cur f))%nat.
Proof. unfold pos_ok, cur. destruct (ub_base f); lia. Qed.
Lemma rd_nonneg (s : stream) : rd_ok s -> 0 <= f_r (fp s).
Proof. intros Hok. apply (pos_cur _ (rd_pos _ Hok)). Qed.
Lemma take_bytes_spec n (s : stream) :
  rd_ok s -> Z.of_nat n <= f_r (fp s) ->
  exists s' bs, take_bytes n s = Some (s', bs) /\ rd_ok s' /\ unread s = bs ++ unread s' /\ length bs = n /\
    f_r (fp s') = f_r (fp s) - Z.of_nat n /\ f_flags (fp s') = f_flags (fp s) /\ f_ur (fp s') = f_ur (fp s) /\ bs = slice (cur (fp s)) (f_p (fp s)) n.
Proof using H0.
  intros [E1 E2 Hb Hp He E4] Hn. assert (f_p (fp s) + Z.to_nat (f_r (fp s)) <= length (cur (fp s)))%nat as Hl.
  { by apply pos_cur. }
  unfold take_bytes. rewrite (proj2 (Nat.leb_le _ _)) by lia. do 2 eexists. split; [done|].
  assert (slice (cur (fp s)) (f_p (fp s)) (Z.to_nat (f_r (fp s))) = slice (cur (fp s)) (f_p (fp s)) n ++ slice (cur (fp s)) (f_p (fp s) + n) (Z.to_nat (f_r (fp s) - Z.of_nat n))) as Ec.
  { rewrite <- slice_cat. f_equal. lia. }
  split; [|split; [|split; [apply length_slice; lia|done]]].
  - split; [done|done|done| |done|done]. revert Hp. unfold pos_ok. cbn. destruct (ub_base (fp s)); intros Hp; split_and!; try tauto; lia.
  - revert Ec. unfold unread, pending, cur. cbn. destruct (ub_base (fp s)); intros ->; rewrite <- !app_assoc; done.
Qed.
Lemma take_byte_spec (s : stream) :
  rd_ok s -> 0 < f_r (fp s) ->
  exists s' c, take_byte (on_fp (fun f => set_r (f_r f - 1) f) s) = Some (s', c) /\ rd_ok s' /\ unread s = c :: unread s'.
Proof using H0.
  intros Hok Hr. destruct (take_bytes_spec 1 s Hok) as (s' & bs & E & Hok' & Hu & Hl & _); [lia|]. unfold take_bytes in E.
  destruct (Nat.leb_spec (f_p (fp s) + 1) (length (cur (fp s)))) as [Hp|]; [|done]. injection E as <- <-.
  destruct (lookup_lt_is_Some_2 (cur (fp s)) (f_p (fp s))) as [c Ec]; [lia|]. unfold take_byte.
  change (cur (fp (on_fp _ s))) with (cur (fp s)). cbn [fp on_fp f_p set_r]. rewrite Ec. do 2 eexists. split; [done|].
  rewrite (slice_S _ _ 0 c Ec) in Hu. cbn [app] in Hu. change (slice _ _ 0) with (@nil Z) in Hu. cbn [app] in Hu.
  assert (forall f, set_p (S (f_p f)) (set_r (f_r f - 1) f) = set_r (f_r f - 1) (set_p (f_p f + 1) f)) as Es by (intros []; cbn; by rewrite Nat.add_1_r).
  unfold on_fp in *. cbn in *. split; [|rewrite Hu; f_equal]; rewrite Nat.add_1_r in *; done.
Qed.

(** fgetc answers the next byte, or EOF when there is none or an error was seen. *)
Definition at_end (s : stream) : Prop := unread s = [] /\ flag s __SEOF = true \/ device_fails /\ flag s __SERR = true.
Lemma fgetc_spec others (s : stream) :
  rd_ok s -> exists others' s' c, fgetc info others s = Some (others', s', c) /\ rd_ok s' /\
    (unread s = c :: unread s' \/ c = EOF /\ unread s' = unread s /\ at_end s').
Proof using H0 Hinfo Hkeep.
  intros Hok. unfold fgetc. cbn [fp on_fp f_r set_r]. pose proof (rd_nonneg _ Hok) as Hr.
  destruct (Z.ltb_spec (f_r (fp s) - 1) 0) as [Hlt|Hge].
  - unfold __srget. assert (__srefill info others (on_fp (fun f => set_r (f_r f - 1) f) s) = __srefill info others s) as -> by done.
    destruct (srefill_spec others s Hok) as (o' & s1 & e & -> & Hok1 & Hu1 & He); [lia|]. cbn [mbind option_bind].
    destruct He as [[-> Hr1]|(-> & Hr1 & He)].
    + cbn [Z.eqb]. destruct (take_byte_spec s1 Hok1 Hr1) as (s2 & c & -> & Hok2 & Hu2). cbn [mbind option_bind].
      exists o', s2, c. split; [done|]. split; [done|]. left. by rewrite <- Hu1.
    + exists o', s1, EOF. split; [done|]. split; [done|]. by right.
  - destruct (take_byte_spec s Hok) as (s2 & c & -> & Hok2 & Hu2); [lia|]. cbn [mbind option_bind].
    exists others, s2, c. split; [done|]. split; [done|]. by left.
Qed.

(** The buffered loop of fread. *)
Lemma fread_loop_spec fuel others (s : stream) resid acc :
  rd_ok s -> 0 < resid -> (Z.to_nat resid + (if (f_r (fp s) =? 0)%Z then 1 else 0) <= fuel)%nat ->
  exists others' s' bs missing, fread_loop info fuel others s resid acc = Some (others', s', acc ++ bs, missing) /\ rd_ok s' /\
    unread s = bs ++ unread s' /\ Z.of_nat (length bs) = resid - missing /\ 0 <= missing /\ (missing = 0 \/ at_end s').
Proof using H0 Hinfo Hkeep.
  revert others s resid acc. induction fuel as [|fuel IH]; intros others s resid acc Hok Hp Hf; [lia|].
  pose proof (rd_nonneg s Hok) as Hr. cbn [fread_loop]. destruct (Z.ltb_spec (f_r (fp s)) resid) as [Hlt|Hge].
  - assert (exists s1 bs, (if f_r (fp s) =? 0 then Some (s, []) else take_bytes (Z.to_nat (f_r (fp s))) s) = Some (s1, bs) /\
      rd_ok s1 /\ f_r (fp s1) = 0 /\ unread s = bs ++ unread s1 /\ Z.of_nat (length bs) = f_r (fp s)) as (s1 & bs & -> & Hok1 & Hr1 & Hu1 & Hl1).
    { destruct (Z.eqb_spec (f_r (fp s)) 0) as [Hz|Hz]; [exists s, []; cbn; rewrite Hz; done|].
      destruct (take_bytes_spec (Z.to_nat (f_r (fp s))) s Hok) as (s1 & bs & E & H1 & H2 & H3 & H4 & _); [lia|]. exists s1, bs. split; [done|].
      split; [done|]. split; [lia|]. split; [done|lia]. }
    cbn [mbind option_bind]. destruct (srefill_spec others s1 Hok1 Hr1) as (o2 & s2 & e & -> & Hok2 & Hu2 & He). cbn [mbind option_bind].
    destruct He as [[-> Hr2]|(-> & Hr2 & He)].
    + cbn [Z.eqb negb]. destruct (IH o2 s2 (resid - f_r (fp s)) (acc ++ bs)) as (o3 & s3 & bs' & missing & E & Hok3 & Hu3 & Hl3 & Hm3); [done|lia| |].
      { rewrite (proj2 (Z.eqb_neq (f_r (fp s2)) 0)) by lia. destruct (Z.eqb_spec (f_r (fp s)) 0); lia. }
      exists o3, s3, (bs ++ bs'), missing. rewrite E, <- !app_assoc. split; [done|]. split; [done|]. split; [by rewrite Hu1, <- Hu2, Hu3|].
      rewrite length_app. split; [lia|done].
    + exists o2, s2, bs, (resid - f_r (fp s)). cbn. split; [done|]. split; [done|]. split; [by rewrite Hu1, Hu2|]. split; [lia|]. split; [lia|]. by right.
  - destruct (take_bytes_spec (Z.to_nat resid) s Hok) as (s1 & bs & -> & H1 & H2 & H3 & _); [lia|]. cbn [mbind option_bind].
    exists others, s1, bs, 0. split; [done|]. split; [done|]. split; [done|]. split; [lia|]. split; [lia|]. by left.
Qed.

(** *** fgets *)
Definition one_line (bs : list Z) : Prop := exists b0, bs = b0 ++ [NEWLINE] /\ NEWLINE ∉ b0.
Lemma not_in_slice (b : list Z) p n : (p + n <= length b)%nat -> (forall k, (k < n)%nat -> b !! (p + k)%nat <> Some NEWLINE) -> NEWLINE ∉ slice b p n.
Proof.
  intros Hl Hk (i & Hi)%list_elem_of_lookup. rewrite lookup_slice in Hi. destruct (Nat.ltb_spec i n); [|done]. by apply (Hk i).
Qed.
Lemma one_line_app bs l : NEWLINE ∉ bs -> one_line l -> one_line (bs ++ l).
Proof. intros Hb (b0 & -> & Hb0). exists (bs ++ b0). rewrite app_assoc. split; [done|]. rewrite elem_of_app. tauto. Qed.

Lemma fgets_loop_spec fuel others (s : stream) n acc :
  rd_ok s -> 0 <= n -> (Z.to_nat n <= fuel)%nat ->
  exists others' s' r bs, fgets_loop info fuel others s n acc = Some (others', s', r) /\ rd_ok s' /\
    unread s = bs ++ unread s' /\ Z.of_nat (length bs) <= n /\
    (one_line bs \/ NEWLINE ∉ bs /\ (Z.of_nat (length bs) = n \/ at_end s')) /\
    (r = Some (acc ++ bs) /\ (n = 0 \/ acc ++ bs <> []) \/ r = None /\ acc = [] /\ bs = [] /\ at_end s').
Proof using H0 Hinfo Hkeep.
  revert others s n acc. induction fuel as [|fuel IH]; intros others s n acc Hok Hn Hf; cbn [fgets_loop]; destruct (Z.eqb_spec n 0) as [->|Hne]; [|lia| |].
  1, 2: exists others, s, (Some acc), []; rewrite app_nil_r; split; [done|]; split; [done|]; split; [done|]; split; [cbn; lia|];
    split; [right; split; [apply not_elem_of_nil|by left]|left; split; [done|by left]].
  assert (exists o1 s1 e, (if f_r (fp s) <=? 0 then __srefill info others s else Some (others, s, 0)) = Some (o1, s1, e) /\ rd_ok s1 /\ unread s1 = unread s /\
    (e = 0 /\ 0 < f_r (fp s1) \/ e = EOF /\ at_end s1)) as (o1 & s1 & e & -> & Hok1 & Hu1 & He).
  { pose proof (rd_nonneg s Hok). destruct (Z.leb_spec (f_r (fp s)) 0); [|do 3 eexists; split; [done|]; split; [done|]; split; [done|]; left; lia].
    destruct (srefill_spec others s Hok) as (o1 & s1 & e & E & Hx1 & Hx2 & Hx3); [lia|]. exists o1, s1, e. split; [done|]. split; [done|]. split; [done|].
    destruct Hx3 as [?|(-> & _ & ?)]; [by left|by right]. }
  cbn [mbind option_bind]. destruct He as [[-> Hr]|[-> He]].
  2: { cbn. exists o1, s1. destruct acc as [|a acc]; eexists _, []; (split; [done|]); (split; [done|]); (split; [done|]); cbn; (split; [lia|]);
    (split; [right; split; [apply not_elem_of_nil|by right]|]); [by right|left; rewrite app_nil_r; split; [done|by right]]. }
  cbn [Z.eqb negb]. set (len := if n <? f_r (fp s1) then n else f_r (fp s1)). assert (0 < len <= f_r (fp s1) /\ len <= n) as Hlen by (unfold len; destruct (Z.ltb_spec n (f_r (fp s1))); lia).
  pose proof (pos_cur _ (rd_pos _ Hok1)) as [_ Hcur].
  destruct (memchr_spec (Z.to_nat len) (cur (fp s1)) (f_p (fp s1)) NEWLINE) as (t & -> & Ht); [lia|]. cbn [mbind option_bind].
  destruct t as [i|]; cbn [fmap option_fmap option_map] in *.
  - destruct Ht as (Hi & Hnl & Hno). replace (S (f_p (fp s1) + i) - f_p (fp s1))%nat with (S i) by lia.
    destruct (take_bytes_spec (S i) s1 Hok1) as (s2 & bs & -> & Hok2 & Hu2 & Hl2 & _ & _ & _ & Eb); [lia|]. cbn [mbind option_bind].
    exists o1, s2, (Some (acc ++ bs)), bs. split; [done|]. split; [done|]. split; [by rewrite <- Hu1|]. split; [lia|]. split; [left|left; split; [done|right; intros [_ ->]%app_eq_nil; done]].
    exists (slice (cur (fp s1)) (f_p (fp s1)) i). split; [by rewrite Eb, (slice_snoc _ _ _ _ Hnl)|]. apply not_in_slice; [lia|done].
  - destruct (take_bytes_spec (Z.to_nat len) s1 Hok1) as (s2 & bs & -> & Hok2 & Hu2 & Hl2 & _ & _ & _ & Eb); [lia|]. cbn [mbind option_bind].
    assert (NEWLINE ∉ bs) as Hno by (rewrite Eb; apply not_in_slice; [lia|done]).
    destruct (IH o1 s2 (n - len) (acc ++ bs)) as (o3 & s3 & r & bs' & -> & Hok3 & Hu3 & Hl3 & Hline & Hr3); [done|lia|lia|].
    exists o3, s3, r, (bs ++ bs'). split; [done|]. split; [done|]. split; [by rewrite <- Hu1, Hu2, Hu3, app_assoc|]. rewrite length_app. split; [lia|]. split.
    + destruct Hline as [Hline|[Hno' He]]; [left; by apply one_line_app|right]. split; [rewrite elem_of_app; tauto|]. destruct He; [left; lia|by right].
    + rewrite app_assoc. destruct Hr3 as [[-> _]|(-> & [-> ->]%app_eq_nil & -> & ?)]; [|cbn in Hl2; lia].
      left. split; [done|]. right. intros [[_ ->]%app_eq_nil _]%app_eq_nil. cbn in Hl2. lia.
Qed.

(** *** ungetc *)
Lemma push_byte_spec c f u :
  ub_base f = Some u -> pos_ok f -> (f_p f <> 0)%nat ->
  exists f', push_byte c f = Some f' /\ pos_ok f' /\ pending f' = c :: pending f /\ f_flags f' = f_flags f /\ bf_base f' = bf_base f /\ bf_size f' = bf_size f /\
    is_Some (ub_base f').
Proof.
  intros Eu Hp Hne. unfold push_byte. rewrite Eu. cbn [mbind option_bind]. unfold pos_ok in Hp. rewrite Eu in Hp. destruct Hp as (H1 & H2 & H3 & H4 & H5 & H6).
  destruct (f_p f) as [|p] eqn:Ep; [done|]. unfold st. rewrite (proj2 (Nat.ltb_lt _ _)) by lia. cbn [mbind option_bind]. eexists. split; [done|].
  split; [|split; [|done]].
  - unfold pos_ok. cbn. rewrite length_insert. split; [lia|]. split; [lia|]. split; [done|]. split; [done|]. split; [done|done].
  - unfold pending. cbn. rewrite Eu, Ep. replace (Z.to_nat (f_r f + 1)) with (S (Z.to_nat (f_r f))) by lia.
    rewrite (slice_S _ _ _ c) by (apply list_lookup_insert_eq; lia). cbn. f_equal. f_equal. unfold slice. by rewrite drop_insert_lt by lia.
Qed.
Lemma submore_spec malloc f u :
  ub_base f = Some u -> pos_ok f -> (f_p f = 0)%nat ->
  exists f' e, __submore malloc f = Some (f', e) /\
    (e = EOF /\ malloc = false \/ e = 0 /\ (exists u', ub_base f' = Some u') /\ pos_ok f' /\ (f_p f' <> 0)%nat /\ pending f' = pending f /\ f_flags f' = f_flags f /\ bf_base f' = bf_base f /\ bf_size f' = bf_size f).
Proof.
  intros Eu Hp Hz. unfold __submore. rewrite Eu. cbn [mbind option_bind]. unfold pos_ok in Hp. rewrite Eu in Hp. destruct Hp as (H1 & H2 & H3 & H4 & H5 & H6).
  destruct malloc; cbn [negb]; [|do 2 eexists; split; [done|by left]].
  assert (forall j, pending (set_p (length j) (set_ub (Some (j ++ u)) false f)) = pending f) as Hpe.
  { intros j. unfold pending. cbn. rewrite Eu, Hz. f_equal. unfold slice. rewrite drop_app_length. by rewrite drop_0. }
  assert (forall j, (0 < length j)%nat -> pos_ok (set_p (length j) (set_ub (Some (j ++ u)) false f))) as Hpo.
  { intros j Hj. unfold pos_ok. cbn. rewrite length_app. split; [done|]. split; [lia|]. split; [done|]. split; [done|]. split; [done|lia]. }
  destruct (ub_reserve f); do 2 eexists; (split; [done|]); right; (split; [done|]).
  - set (j := replicate (Z.to_nat BUFSIZ - 3) 0). assert (length j = Z.to_nat BUFSIZ - 3)%nat as Ej by apply length_replicate. rewrite <- Ej.
    assert (0 < length j)%nat by (rewrite Ej; vm_compute; lia). split; [by eexists|]. split; [by apply Hpo|]. split; [cbn; lia|]. split; [apply Hpe|done].
  - split; [by eexists|]. split; [apply Hpo; lia|]. split; [cbn; lia|]. split; [apply Hpe|done].
Qed.

Lemma ungetc_spec malloc c (s : stream) :
  rd_ok s -> c <> EOF ->
  exists s' r, ungetc malloc c s = Some (s', r) /\ rd_ok s' /\ (r = u8 c /\ unread s' = u8 c :: unread s \/ r = EOF /\ s' = s /\ malloc = false) /\ flag s' __SNBF = flag s __SNBF.
Proof.
  intros Hok Hc. pose proof Hok as [E1 E2 Hb Hp He E4]. unfold ungetc. rewrite (proj2 (Z.eqb_neq c EOF)) by done. rewrite E1. cbn [negb]. generalize (u8 c) as b. clear c Hc. intros c.
  unfold ungetc_reading. destruct (ub_base (fp s)) as [u|] eqn:Eu.
  - assert (flag s __SEOF = false) as E3 by (destruct (flag s __SEOF); [by destruct (He eq_refl)|done]).
    assert (forall f, (exists u', ub_base f = Some u') -> pos_ok f -> (f_p f <> 0)%nat -> pending f = pending (fp s) -> f_flags f = f_flags (fp s) -> bf_base f = bf_base (fp s) ->
      bf_size f = bf_size (fp s) -> exists s' r, (f' ← push_byte c f; Some (on_fp (fun _ => f') s, c)) = Some (s', r) /\ rd_ok s' /\
      (r = c /\ unread s' = c :: unread s \/ r = EOF /\ s' = s /\ malloc = false) /\ flag s' __SNBF = flag s __SNBF) as Hpush.
    { intros f [u' Eu'] Hp' Hne Epe Efl Ebf Ebs. destruct (push_byte_spec c f u' Eu' Hp' Hne) as (f' & -> & Hp2 & Epe2 & Efl2 & Ebf2 & Ebs2 & [u2 Eu2]). cbn [mbind option_bind].
      do 2 eexists. split; [done|]. unfold flag in *. split; [|split; [left; split; [done|]|cbn; by rewrite Efl2, Efl]].
      - split; unfold flag, buf_ok; cbn; rewrite ?Efl2, ?Efl, ?Ebf2, ?Ebf, ?Ebs2, ?Ebs; try done. by rewrite E3.
      - unfold unread. cbn. by rewrite Epe2, Epe. }
    pose proof Hp as Hp0. unfold pos_ok in Hp0. rewrite Eu in Hp0. destruct Hp0 as (H1 & H2 & _).
    destruct (Z.leb_spec (Z.of_nat (length u)) (f_r (fp s))) as [Hle|Hgt].
    + destruct (submore_spec malloc (fp s) u Eu Hp) as (f & e & -> & Hs); [lia|]. cbn [mbind option_bind]. destruct Hs as [[-> ->]|(-> & Hu' & Hp' & Hne & Hpe & Hfl & Hbf & Hbs)].
      * cbn. do 2 eexists. split; [done|]. split; [exact Hok|]. split; [by right|done].
      * cbn [Z.eqb negb]. by apply Hpush.
    + cbn [mbind option_bind Z.eqb negb]. apply Hpush; try done; [by eexists|lia].
  - set (s1 := on_fp (set_fl (off __SEOF)) s). unfold pos_ok in Hp. rewrite Eu in Hp. destruct Hp as [H1 H2].
    assert (forall f, pos_ok f -> f_flags f = f_flags (fp s1) -> bf_base f = bf_base (fp s) -> bf_size f = bf_size (fp s) -> pending f = c :: pending (fp s) ->
      rd_ok (on_fp (fun _ => f) s1) /\ (c = c /\ unread (on_fp (fun _ => f) s1) = c :: unread s \/ c = EOF /\ on_fp (fun _ => f) s1 = s /\ malloc = false) /\ flag (on_fp (fun _ => f) s1) __SNBF = flag s __SNBF) as Hr.
    { intros f Hp' Efl Ebf Ebs Epe. unfold flag in *. split; [|split; [left; split; [done|]|cbn; rewrite Efl; unfold s1; by flags]].
      - split; unfold buf_ok; cbn [fp on_fp]; rewrite ?Ebf, ?Ebs; try done; unfold s1 in *; cbn in Efl; unfold flag; cbn [fp on_fp]; rewrite Efl; flags; try done; rewrite has_off_out; done.
      - unfold unread. cbn. by rewrite Epe. }
    destruct (bf_base (fp s1)) as [b|] eqn:Eb; [destruct (f_p (fp s1)) as [|p] eqn:Ep; [|destruct (decide (b !! p = Some c)) as [Hd|Hd]]|].
    2: { do 2 eexists. split; [done|]. apply Hr; try done; cbn in Eb, Ep.
      - unfold pos_ok. cbn. rewrite Eu, Eb. cbn. rewrite Eb in H2. cbn in H2. lia.
      - unfold pending. cbn. rewrite Eu, Eb, Ep. cbn. replace (Z.to_nat (f_r (fp s) + 1)) with (S (Z.to_nat (f_r (fp s)))) by lia. by rewrite (slice_S _ _ _ c). }
    all: do 2 eexists; (split; [done|]); apply Hr; try done.
    all: unfold pending; cbn; by rewrite Eu.
Qed.

(** *** fread without a buffer *)
Lemma direct_loop_spec fuel (s : stream) resid acc :
  0 <= resid -> (Z.to_nat resid < fuel)%nat -> rd_ok s -> ub_base (fp s) = None -> f_r (fp s) = 0 -> flag s __SEOF = false ->
  exists s' bs missing, direct_loop fuel s resid acc = Some (s', acc ++ bs, missing) /\ rd_ok s' /\
    unread s = bs ++ unread s' /\ Z.of_nat (length bs) = resid - missing /\ 0 <= missing /\ (missing = 0 \/ at_end s').
Proof using H0.
  revert s resid acc. induction fuel as [|fuel IH]; intros s resid acc Hn Hf Hok Eu Er E3; [lia|]. cbn [direct_loop].
  destruct (Z.ltb_spec 0 resid) as [Hp|Hp]; [|exists s, [], resid; rewrite app_nil_r; cbn; split; [done|]; split; [done|]; split; [done|]; split; [lia|]; split; [lia|]; left; lia].
  assert (forall f : FILE, unread s = slice (default [] (bf_base (fp s))) (f_p (fp s)) 0 ++ to_read (dv s)) as Hu by (intros _; unfold unread, pending; by rewrite Eu, Er).
  destruct Hok as [E1 E2 Hb Hpo He E4]. unfold pos_ok in Hpo. rewrite Eu in Hpo.
  destruct (dread (dv s) resid) as [d r] eqn:Ed. destruct r as [[|c bs]|].
  - destruct (dread_data _ _ _ _ Hp Ed) as (Ht & _ & _ & Hz). specialize (Hz eq_refl). rewrite Hz in Ht. cbn in Ht.
    eexists _, [], resid. rewrite app_nil_r. split; [done|]. split; [|split; [|split; [cbn; lia|split; [lia|right; left]]]].
    + split; [by flags|by flags|done|unfold pos_ok; cbn; by rewrite Eu|intros _; cbn; by rewrite <- Ht|by flags].
    + unfold unread, pending. cbn. by rewrite Eu, Hz, <- Ht.
    + split; [|by flags]. unfold unread, pending. cbn. rewrite Eu, Er. cbn. by rewrite <- Ht.
  - destruct (dread_data _ _ _ _ Hp Ed) as (Ht & Hl & _ & _). set (l := c :: bs) in *. set (s1 := on_dv d _).
    assert (1 <= Z.of_nat (length l)) by (cbn; lia).
    destruct (IH s1 (resid - Z.of_nat (length l)) (acc ++ l)) as (s' & bs' & missing & E & Hok' & Hu' & Hl' & Hm); [lia|lia| |done|done| |].
    { unfold s1. split; [by flags|by flags|done|unfold pos_ok; cbn; by rewrite Eu| |by flags]. flags. unfold flag in E3. by rewrite E3. }
    { unfold s1. flags. exact E3. }
    exists s', (l ++ bs'), missing. rewrite E, <- app_assoc. split; [done|]. split; [done|]. rewrite length_app. split; [|split; [lia|done]].
    rewrite <- app_assoc, <- Hu'. unfold unread, pending. cbn. rewrite Eu, Er. cbn. exact Ht.
  - destruct (dread_error _ _ _ Hp Ed) as (Ht & _). eexists _, [], resid. rewrite app_nil_r. split; [done|].
    split; [|split; [|split; [cbn; lia|split; [lia|right; right; split; [by do 3 eexists|by flags]]]]].
    + split; [by flags|by flags|done|unfold pos_ok; cbn; by rewrite Eu| |by flags]. flags. unfold flag in E3. by rewrite E3.
    + unfold unread, pending. cbn. by rewrite Eu, Ht.
Qed.
Lemma fread_unbuffered_spec others (s : stream) size count :
  rd_ok s -> flag s __SNBF = true -> f_ur (fp s) = 0 -> ub_base (fp s) = None -> f_r (fp s) = 0 -> flag s __SEOF = false ->
  0 < size -> 0 < count -> count * size < 2 ^ 32 ->
  exists others' s' bs k, fread info others s size count = Some (others', s', bs, k) /\ rd_ok s' /\ unread s = bs ++ unread s' /\
    (Z.of_nat (length bs) = count * size /\ k = count \/ Z.of_nat (length bs) < count * size /\ k = Z.of_nat (length bs) / size /\ at_end s').
Proof using H0.
  intros Hok En Eur Eu Er E3 Hs Hc Ho. unfold fread. assert (u32 (count * size) = count * size) as -> by (unfold u32; apply Z.mod_small; nia).
  rewrite (proj2 (Z.eqb_neq _ 0)) by nia. rewrite (proj2 (Z.ltb_ge _ _)) by lia. rewrite En, Eur. cbn [Z.eqb andb]. unfold fread_direct.
  assert (on_fp (set_r 0) s = s) as -> by (destruct s as [[] ? ?]; cbn in *; by rewrite Er). rewrite E3.
  rewrite (rd_on _ Hok). cbn [negb]. unfold HASUB. cbn [mbind option_bind].
  assert (on_fp (fun f => if match ub_base f with Some _ => true | None => false end then FREEUB f else f) s = s) as -> by (destruct s as [[] ? ?]; cbn in *; by rewrite Eu).
  destruct (fwalk_total others s (rd_not_wr _ Hok)) as [others' Eo].
  assert ((if flag s (Z.lor __SLBF __SNBF) then fwalk_lflush others s else Some (others, s)) = Some (others', s)) as ->.
  { unfold flag. rewrite has_either. unfold flag in En. by rewrite En, orb_true_r. }
  cbn [mbind option_bind]. destruct (direct_loop_spec (S (Z.to_nat (count * size))) s (count * size) []) as (s' & bs & missing & -> & Hok' & Hu & Hl & Hm & He); try done; [nia|lia|].
  cbn [mbind option_bind app]. do 4 eexists. split; [done|]. split; [done|]. split; [done|]. destruct (Z.eqb_spec missing 0) as [->|Hz].
  - left. split; [lia|done].
  - right. split; [lia|]. split; [by rewrite Hl|]. by destruct He.
Qed.
Lemma fread_buffered_spec others (s : stream) size count :
  rd_ok s -> flag s __SNBF = false -> 0 < size -> 0 < count -> count * size < 2 ^ 32 ->
  exists others' s' bs k, fread info others s size count = Some (others', s', bs, k) /\ rd_ok s' /\ unread s = bs ++ unread s' /\
    (Z.of_nat (length bs) = count * size /\ k = count \/ Z.of_nat (length bs) < count * size /\ k = Z.of_nat (length bs) / size /\ at_end s').
Proof using H0 Hinfo Hkeep.
  intros Hok En Hs Hc Ho. unfold fread. assert (u32 (count * size) = count * size) as -> by (unfold u32; apply Z.mod_small; nia).
  rewrite (proj2 (Z.eqb_neq _ 0)) by nia. rewrite (proj2 (Z.ltb_ge _ _)) by (apply rd_nonneg; done). rewrite En. cbn [andb].
  destruct (fread_loop_spec (S (S (Z.to_nat (count * size)))) others s (count * size) []) as (o' & s' & bs & missing & -> & Hok' & Hu & Hl & Hm & He); [done|nia|case_match; lia|].
  cbn [mbind option_bind app]. do 4 eexists. split; [done|]. split; [done|]. split; [done|]. destruct (Z.eqb_spec missing 0) as [->|Hz].
  - left. split; [lia|done].
  - right. split; [lia|]. split; [by rewrite Hl|]. by destruct He.
Qed.
End read_proofs.

(** ** Reading is reading a list

    Operations on a stream that has a buffer, and the same operations on the list of what is left to read. *)
Inductive rop : Type := OGetc | OUngetc (c : Z) | ORead (size count : Z) | OGets (n : Z).
Inductive rresult : Type := RChar (c : Z) | RBytes (bs : list Z) (n : Z) | RLine (l : option (list Z)).
Definition rop_ok (op : rop) : Prop :=
  match op with
  | OGetc => True
  | OUngetc c => c <> EOF
  | ORead size count => 0 < size /\ 0 < count /\ count * size < 2 ^ 32
  | OGets n => 1 < n
  end.

Fixpoint take_line (n : nat) (u : list Z) : list Z :=
  match n, u with
  | S n, c :: u => if c =? NEWLINE then [c] else c :: take_line n u
  | _, _ => []
  end.
Definition list_op (op : rop) (u : list Z) : list Z * rresult :=
  match op with
  | OGetc => match u with c :: u => (u, RChar c) | [] => ([], RChar EOF) end
  | OUngetc c => (u8 c :: u, RChar (u8 c))
  | ORead size count =>
      let bs := take (Z.to_nat (count * size)) u in
      (drop (Z.to_nat (count * size)) u, RBytes bs (Z.of_nat (length bs) / size))
  | OGets n =>
      let bs := take_line (Z.to_nat (n - 1)) u in
      (drop (length bs) u, RLine (match u with [] => None | _ => Some bs end))
  end.
Fixpoint list_ops (ops : list rop) (u : list Z) : list Z * list rresult :=
  match ops with
  | [] => (u, [])
  | op :: ops => let '(u, r) := list_op op u in let '(u, rs) := list_ops ops u in (u, r :: rs)
  end.

Section reading_ops.
Context {D : Type} `{DeviceLaws D} (info : bufinfo).
Notation stream := (stream D).
Definition stream_op (others : list stream) (s : stream) (op : rop) : option (list stream * stream * rresult) :=
  match op with
  | OGetc => '(o, s, c) ← fgetc info others s; Some (o, s, RChar c)
  | OUngetc c => '(s, r) ← ungetc true c s; Some (others, s, RChar r)
  | ORead size count => '(o, s, bs, n) ← fread info others s size count; Some (o, s, RBytes bs n)
  | OGets n => '(o, s, l) ← fgets info others s n; Some (o, s, RLine l)
  end.
Fixpoint stream_ops (others : list stream) (s : stream) (ops : list rop) : option (list stream * stream * list rresult) :=
  match ops with
  | [] => Some (others, s, [])
  | op :: ops => '(others, s, r) ← stream_op others s op; '(others, s, rs) ← stream_ops others s ops; Some (others, s, r :: rs)
  end.

(** A line, found in the list. *)
Lemma take_line_spec n bs u :
  (length bs <= n)%nat -> (one_line bs \/ NEWLINE ∉ bs /\ (length bs = n \/ u = [])) -> take_line n (bs ++ u) = bs.
Proof.
  revert n. induction bs as [|c bs IH]; intros n Hl Hc.
  - destruct Hc as [(b0 & Hb & _)|[_ [<-| ->]]]; [by destruct b0|done|by destruct n].
  - cbn in Hl. destruct n as [|n]; [lia|]. cbn [app take_line]. destruct (Z.eqb_spec c NEWLINE) as [->|Hne].
    + destruct Hc as [(b0 & Hb & Hn)|[Hn _]]; [|by destruct Hn; left]. destruct b0 as [|x b0]; [injection Hb as ->; done|].
      injection Hb as Hx _. destruct Hn. rewrite Hx. by left.
    + f_equal. apply IH; [lia|]. destruct Hc as [(b0 & Hb & Hn)|[Hn Hc]].
      * left. destruct b0 as [|x b0]; [by injection Hb as Hx _|]. injection Hb as <- ->. exists b0. split; [done|]. intros Hx. apply Hn. by right.
      * right. split; [intros Hx; apply Hn; by right|]. destruct Hc as [Hc|]; [left; cbn in Hc; lia|by right].
Qed.

Context (Hinfo : info_ok info) (Hmalloc : b_malloc info <> None) (Hreliable : forall (d : D) n d', dread d n <> (d', None)).
Notation ok := (rd_ok True).

Lemma never_fails : ~ device_fails (D := D).
Proof using Hreliable. intros (d & n & d' & _ & E). by destruct (Hreliable d n d'). Qed.
Lemma at_end_empty (s : stream) : at_end s -> unread s = [].
Proof using Hreliable. intros [[E _]|[E _]]; [done|by apply never_fails in E]. Qed.

Lemma stream_op_spec others (s : stream) op :
  ok s -> rop_ok op -> exists others' s', stream_op others s op = Some (others', s', (list_op op (unread s)).2) /\ ok s' /\ unread s' = (list_op op (unread s)).1.
Proof using H0 Hinfo Hmalloc Hreliable.
  intros Hok Hop. destruct op as [|c|size count|n]; cbn [stream_op list_op rop_ok] in *.
  - destruct (fgetc_spec info Hinfo True (fun _ => Hmalloc) others s Hok) as (o' & s' & c & -> & Hok' & Hu). cbn [mbind option_bind]. exists o', s'.
    destruct Hu as [->|(-> & Eu & He%at_end_empty)]; [done|]. rewrite <- Eu, He. done.
  - destruct (ungetc_spec True true c s Hok Hop) as (s' & r & E & Hok' & Hu & _).
    rewrite E. cbn [mbind option_bind]. destruct Hu as [[-> Hu]|(_ & _ & ?)]; [|done]. by exists others, s'.
  - destruct Hop as (Hs & Hc & Ho). assert (0 <= count * size) by nia.
    destruct (fread_buffered_spec info Hinfo True (fun _ => Hmalloc) others s size count Hok (rd_nb _ _ Hok I) Hs Hc Ho) as (o' & s' & bs & k & -> & Hok' & Hu & Hk).
    cbn [mbind option_bind]. exists o', s'. assert (take (Z.to_nat (count * size)) (unread s) = bs /\ drop (Z.to_nat (count * size)) (unread s) = unread s' /\ k = Z.of_nat (length bs) / size) as (-> & -> & ->); [|done].
    rewrite Hu. destruct Hk as [(Hl & ->)|(Hl & -> & He%at_end_empty)].
    + replace (Z.to_nat (count * size)) with (length bs) by lia. rewrite take_app_length, drop_app_length, Hl. split; [done|]. split; [done|]. by rewrite Z.div_mul by lia.
    + rewrite He, app_nil_r. rewrite take_ge, drop_ge by lia. done.
  - unfold fgets. rewrite (proj2 (Z.leb_gt _ _)) by lia.
    destruct (fgets_loop_spec info Hinfo True (fun _ => Hmalloc) (Z.to_nat n) others s (n - 1) [] Hok) as (o' & s' & r & bs & -> & Hok' & Hu & Hl & Hline & Hr); [lia|lia|].
    cbn [mbind option_bind]. exists o', s'. assert (take_line (Z.to_nat (n - 1)) (unread s) = bs) as ->.
    { rewrite Hu. apply take_line_spec; [lia|]. destruct Hline as [|[? [?|He%at_end_empty]]]; [by left|right; split; [done|left; lia]|right; split; [done|by right]]. }
    split; [|split; [done|by rewrite Hu, drop_app_length]]. do 3 f_equal. destruct Hr as [[-> Hne]|(-> & _ & -> & He%at_end_empty)].
    + cbn. destruct (unread s) as [|x u] eqn:Es; [|done]. symmetry in Hu. apply app_eq_nil in Hu as [-> Hu]. by destruct Hne; [lia|].
    + cbn in Hu. by rewrite Hu, He.
Qed.

Lemma stream_ops_spec others (s : stream) ops :
  ok s -> Forall rop_ok ops ->
  exists others' s', stream_ops others s ops = Some (others', s', (list_ops ops (unread s)).2) /\ ok s' /\ unread s' = (list_ops ops (unread s)).1.
Proof using H0 Hinfo Hmalloc Hreliable.
  intros Hok Hops. revert others s Hok. induction Hops as [|op ops Hop Hops IH]; intros others s Hok; cbn [stream_ops list_ops]; [by exists others, s|].
  destruct (stream_op_spec others s op Hok Hop) as (o1 & s1 & -> & Hok1 & Hu1). cbn [mbind option_bind].
  destruct (IH o1 s1 Hok1) as (o2 & s2 & -> & Hok2 & Hu2). cbn [mbind option_bind]. exists o2, s2. rewrite Hu1 in *.
  destruct (list_op op (unread s)) as [u r]. cbn [fst snd] in *. destruct (list_ops ops u) as [u' rs]. done.
Qed.
End reading_ops.

(** A FILE as fopen leaves it. *)
Definition opened {D} (flags : Z) (d : D) : stream D := Stream (File 0 0 0 flags None 0 0 None false 0 0) d 0.
Lemma opened_reading {D} `{Device D} d : rd_ok True (opened __SRD d).
Proof. by split. Qed.

(** C23.  Reading from a stream with a buffer is reading from a list: whatever pieces the read function
    of the stream delivers, every sequence of fgetc, ungetc, fread and fgets on a newly opened stream
    answers what the same operations answer on the list of the bytes of the file (fread the bytes that
    are there and the number of whole objects, fgets a line or what fits), never reads outside a buffer,
    and characters pushed back, any number of them, are read again in the reverse order.  This is for a
    device that reports no error, as long as malloc finds memory, and for calls of fread of at least
    one object of at least one byte and of less than 2^32 bytes in all, of fgets with room for a
    character, and of ungetc with a character. *)
Theorem reading_refines_list {D} `{DeviceLaws D} info (others : list (stream D)) (d : D) ops :
  info_ok info -> b_malloc info <> None -> (forall (d : D) n d', dread d n <> (d', None)) -> Forall rop_ok ops ->
  exists others' s', stream_ops info others (opened __SRD d) ops = Some (others', s', (list_ops ops (to_read d)).2) /\
    unread s' = (list_ops ops (to_read d)).1.
Proof.
  intros Hi Hm Hr Hops. destruct (stream_ops_spec info Hi Hm Hr others (opened __SRD d) ops (opened_reading d) Hops) as (o' & s' & E & _ & Hu). by exists o', s'.
Qed.

(** A device that moves at most [k + 1] bytes at a time: what is left, and what was written. *)
Record chunked : Type := Chunked { ck_in : list Z; ck_k : nat; ck_out : list Z }.
#[export] Instance chunked_device : Device chunked := {
  dread d n := let m := Nat.min (Z.to_nat n) (S (ck_k d)) in (Chunked (drop m (ck_in d)) (ck_k d) (ck_out d), Some (take m (ck_in d)));
  dwrite d bs := let m := Nat.min (length bs) (S (ck_k d)) in (Chunked (ck_in d) (ck_k d) (ck_out d ++ take m bs), Z.of_nat m);
  to_read := ck_in;
  written := ck_out }.
#[export] Instance chunked_laws : DeviceLaws chunked.
Proof.
  split.
  - intros d n d' bs Hn [= <- <-]. cbn. split; [by rewrite take_drop|]. rewrite length_take. split; [lia|]. split; [done|].
    destruct (ck_in d); [done|]. replace (Nat.min (Z.to_nat n) (S (ck_k d))) with (S (Nat.min (Z.to_nat n - 1) (ck_k d))) by lia. done.
  - intros d n d' Hn E. by injection E.
  - intros d bs d' t [= <- <-]. cbn [written chunked_device ck_out]. split; [lia|]. by rewrite Nat2Z.id.
Qed.
Definition small_buffer : bufinfo := BufInfo 4 __SOPT false (Some [0; 0; 0; 0]).
(** Pieces of three bytes, a buffer of four: "ab", newline, "cde". *)
Lemma reading_refines_list_witness :
  exists o s, stream_ops small_buffer [] (opened __SRD (Chunked [97; 98; 10; 99; 100; 101] 2 [])) [OGetc; OUngetc 120; OGets 9; ORead 2 5] =
    Some (o, s, [RChar 97; RChar 120; RLine (Some [120; 98; 10]); RBytes [99; 100; 101] 1]).
Proof.
  destruct (reading_refines_list small_buffer [] (Chunked [97; 98; 10; 99; 100; 101] 2 []) [OGetc; OUngetc 120; OGets 9; ORead 2 5]) as (o & s & E & _).
  - split; [by left|]. split; [done|]. cbn. lia.
  - done.
  - intros d n d' E. by injection E.
  - repeat constructor; cbn; try lia; done.
  - exists o, s. exact E.
Defined.

(** ** Without a buffer

    fread on a stream without a buffer forgets the character that ungetc pushed back, and once the end of
    the file was seen it answers (size_t) EOF objects. *)
Example unbuffered_fread_loses_ungetc :
  exists s1 s2 o s, fgetc small_buffer [] (opened (Z.lor __SRD __SNBF) (Chunked [97; 98; 99] 2 [])) = Some ([], s1, 97) /\
    ungetc true 97 s1 = Some (s2, 97) /\ fread small_buffer [] s2 1 1 = Some (o, s, [98], 1).
Proof. do 4 eexists. split; [vm_compute; reflexivity|]. split; vm_compute; reflexivity. Qed.
Example unbuffered_fread_at_eof :
  exists o s o' s', fread small_buffer [] (opened (Z.lor __SRD __SNBF) (Chunked [97] 2 [])) 1 2 = Some (o, s, [97], 1) /\
    fread small_buffer o s 1 2 = Some (o', s', [], 2 ^ 32 - 1).
Proof. do 4 eexists. split; vm_compute; reflexivity. Qed.
