(* ===== verification/StdioWrite.v ===== *)
(** * Writing to streams (libc/stdio: wbuf.c, fputc.c, putc.c, fvwrite.c, fwrite.c, fputs.c, puts.c, fpurge.c, setvbuf.c)

    A memory region of a struct __suio is the list of its bytes.  [None] is an access outside a
    buffer.  Lengths are those of memory regions and below 2^31, so that the casts to int keep them. *)
From S2P Require Import Prelude CMem StdioFile StdioRead.
#[local] Open Scope Z_scope.

Section writing.
Context {D : Type} `{Device D} (info : bufinfo).
Notation stream := (stream D).

(** memcpy(fp->_p, bs, n); fp->_p += n *)
Definition put_bytes (bs : list Z) (s : stream) : option stream :=
  b ← bf_base (fp s);
  if (f_p (fp s) + length bs <=? length b)%nat
  then Some (on_fp (fun f => set_p (f_p f + length bs) (set_bf (Some (blit b (f_p f) bs)) (bf_size f) f)) s)
  else None.
Definition add_w (n : Z) (s : stream) : stream := on_fp (fun f => set_w (f_w f + n) f) s.

(** cantwrite(fp) and errno = EBADF *)
Definition check_writable (s : stream) : stream * bool :=
  let '(f, cant) := cantwrite info (fp s) in
  let s := on_fp (fun _ => f) s in
  if cant then (set_errno EBADF s, true) else (s, false).

(** ** wbuf.c, putc *)
Definition __swbuf (c : Z) (s : stream) : option (stream * Z) :=
  let s := on_fp (fun f => set_w (f_lbfsize f) f) s in
  let '(s, cant) := check_writable s in
  if cant : bool then Some (s, EOF)
  else
    let c := u8 c in
    '(s, e) ← (if bf_size (fp s) <=? Z.of_nat (f_p (fp s)) then fflush s else Some (s, 0));
    if negb (e =? 0) then Some (s, EOF)
    else
      s ← put_bytes [c] (add_w (-1) s);
      if (Z.of_nat (f_p (fp s)) =? bf_size (fp s)) || (flag s __SLBF && (c =? NEWLINE)) then
        '(s, e) ← fflush s;
        Some (s, if negb (e =? 0) then EOF else c)
      else Some (s, c).
Definition __sputc (c : Z) (s : stream) : option (stream * Z) :=
  let s := add_w (-1) s in
  let w := f_w (fp s) in
  if (0 <=? w) || ((f_lbfsize (fp s) <=? w) && negb (u8 c =? NEWLINE)) then s ← put_bytes [u8 c] s; Some (s, u8 c)
  else __swbuf c s.
Definition putc_unlocked (c : Z) (s : stream) : option (stream * Z) :=
  let '(s, cant) := check_writable s in
  if cant : bool then Some (s, EOF) else __sputc c s.
Definition fputc (c : Z) (s : stream) : option (stream * Z) :=
  let '(s, cant) := check_writable s in
  if cant : bool then Some (s, EOF) else putc_unlocked c s.

(** ** fvwrite.c

    [p] is what is left of the region that is being written, [iov] the regions behind it; the answer
    counts what is left of all of them. *)
Definition resid (p : list Z) (iov : list (list Z)) : Z := Z.of_nat (length (p ++ concat iov)).
(** GETIOV *)
Fixpoint getiov (p : list Z) (iov : list (list Z)) : option (list Z * list (list Z)) :=
  match p, iov with
  | _ :: _, _ => Some (p, iov)
  | [], [] => None
  | [], p :: iov => getiov p iov
  end.
(** err: *)
Definition write_err (s : stream) (p : list Z) (iov : list (list Z)) : option (stream * Z * Z) :=
  Some (on_fp (set_fl (on __SERR)) s, EOF, resid p iov).

(** ( *fp->_write)(fp->_cookie, p, n), with what it answers *)
Definition write_out (s : stream) (bs : list Z) : stream * Z :=
  let '(d, w) := dwrite (dv s) bs in (on_dv d s, w).

Fixpoint unbuffered_loop (fuel : nat) (s : stream) (p : list Z) (iov : list (list Z)) : option (stream * Z * Z) :=
  match fuel with
  | O => None
  | S fuel =>
      '(p, iov) ← getiov p iov;
      let '(s, w) := write_out s p in
      if w <=? 0 then write_err s p iov
      else
        let p := drop (Z.to_nat w) p in
        if resid p iov =? 0 then Some (s, 0, 0) else unbuffered_loop fuel s p iov
  end.

(** do _size = (_size << 1) + 1 while (_size < need) *)
Fixpoint grow_size (fuel : nat) (size need : Z) : option Z :=
  match fuel with
  | O => None
  | S fuel => let size := 2 * size + 1 in if size <? need then grow_size fuel size need else Some size
  end.
(** The string streams of vasprintf get more memory when [p] does not fit; [realloc] tells whether there is some. *)
Definition grow_string (realloc : bool) (s : stream) (p : list Z) : option (stream * bool) :=
  let f := fp s in
  if has (f_flags f) __SALC && has (f_flags f) __SSTR && (f_w f <? Z.of_nat (length p)) then
    b ← bf_base f;
    size ← grow_size 32 (bf_size f) (Z.of_nat (f_p f) + Z.of_nat (length p));
    if negb realloc then Some (s, false)
    else Some (on_fp (fun f => set_bf (Some (take (Z.to_nat (size + 1)) (b ++ replicate (Z.to_nat (size + 1) - length b) 0))) size
                                  (set_w (f_w f + (size - bf_size f)) f)) s, true)
  else Some (s, true).

(** One round for a fully buffered stream: how much of [p] was written, or an error. *)
Definition full_round (realloc : bool) (s : stream) (p : list Z) : option (stream * option Z) :=
  '(s, grown) ← grow_string realloc s p;
  if negb grown then Some (s, None)
  else
    let len := Z.of_nat (length p) in
    let w := f_w (fp s) in
    if flag s __SSTR then
      let w := if len <? w then len else w in
      s ← put_bytes (take (Z.to_nat w) p) s;
      Some (add_w (- w) s, Some len)
    else if (0 <? f_p (fp s))%nat && (w <? len) then
      s ← put_bytes (take (Z.to_nat w) p) s;
      '(s, e) ← fflush s;
      Some (s, if negb (e =? 0) then None else Some w)
    else if bf_size (fp s) <=? len then
      let '(s, w) := write_out s (take (Z.to_nat (bf_size (fp s))) p) in
      Some (s, if w <=? 0 then None else Some w)
    else
      s ← put_bytes p s;
      Some (add_w (- len) s, Some len).
Fixpoint full_loop (realloc : bool) (fuel : nat) (s : stream) (p : list Z) (iov : list (list Z)) : option (stream * Z * Z) :=
  match fuel with
  | O => None
  | S fuel =>
      '(p, iov) ← getiov p iov;
      '(s, r) ← full_round realloc s p;
      match r with
      | None => write_err s p iov
      | Some w =>
          let p := drop (Z.to_nat w) p in
          if resid p iov =? 0 then Some (s, 0, 0) else full_loop realloc fuel s p iov
      end
  end.

(** The distance to the newline, or one more than there is. *)
Definition nl_distance (p : list Z) : option Z :=
  nl ← memchr (length p) p 0 NEWLINE;
  Some (match nl with Some i => Z.of_nat i + 1 | None => Z.of_nat (length p) + 1 end).
(** One round for a line buffered stream. *)
Definition line_round (s : stream) (p : list Z) (nldist : Z) : option (stream * option Z) :=
  let n := Z.min (Z.of_nat (length p)) nldist in
  let w := f_w (fp s) + bf_size (fp s) in
  if (0 <? f_p (fp s))%nat && (w <? n) then
    s ← put_bytes (take (Z.to_nat w) p) s;
    '(s, e) ← fflush s;
    Some (s, if negb (e =? 0) then None else Some w)
  else if bf_size (fp s) <=? n then
    let '(s, w) := write_out s (take (Z.to_nat (bf_size (fp s))) p) in
    Some (s, if w <=? 0 then None else Some w)
  else
    s ← put_bytes (take (Z.to_nat n) p) s;
    Some (add_w (- n) s, Some n).
(** [nldist] is [None] while the distance is not known. *)
Fixpoint line_loop (fuel : nat) (s : stream) (p : list Z) (iov : list (list Z)) (nldist : option Z) : option (stream * Z * Z) :=
  match fuel with
  | O => None
  | S fuel =>
      let nldist := match p with [] => None | _ => nldist end in
      '(p, iov) ← getiov p iov;
      nldist ← match nldist with Some d => Some d | None => nl_distance p end;
      '(s, r) ← line_round s p nldist;
      match r with
      | None => write_err s p iov
      | Some w =>
          let nldist := nldist - w in
          '(s, e) ← (if nldist =? 0 then fflush s else Some (s, 0));
          if negb (e =? 0) then write_err s p iov
          else
            let p := drop (Z.to_nat w) p in
            if resid p iov =? 0 then Some (s, 0, 0)
            else line_loop fuel s p iov (if nldist =? 0 then None else Some nldist)
      end
  end.

(** The stream, 0 or EOF, and uio_resid. *)
Definition __sfvwrite (realloc : bool) (s : stream) (iov : list (list Z)) : option (stream * Z * Z) :=
  if resid [] iov =? 0 then Some (s, 0, 0)
  else
    let '(s, cant) := check_writable s in
    if cant : bool then Some (s, EOF, resid [] iov)
    else
      let fuel := (2 * Z.to_nat (resid [] iov) + 1)%nat in
      if flag s __SNBF then unbuffered_loop fuel s [] iov
      else if negb (flag s __SLBF) then full_loop realloc fuel s [] iov
      else line_loop fuel s [] iov None.

Definition fwrite (realloc : bool) (buf : list Z) (size count : Z) (s : stream) : option (stream * Z) :=
  let n := u32 (count * size) in
  '(s, e, still) ← __sfvwrite realloc s [take (Z.to_nat n) buf];
  Some (s, if e =? 0 then count else (n - still) / size).
Definition fputs (realloc : bool) (str : list Z) (s : stream) : option (stream * Z) :=
  '(s, e, _) ← __sfvwrite realloc s [str];
  Some (s, e).
Definition puts (str : list Z) (stdout : stream) : option (stream * Z) :=
  '(s, e, _) ← __sfvwrite true stdout [str; [NEWLINE]];
  Some (s, if negb (e =? 0) then EOF else NEWLINE).

(** ** fpurge.c, setvbuf.c *)
Definition fpurge (s : stream) : stream * Z :=
  if f_flags (fp s) =? 0 then (set_errno EBADF s, EOF)
  else
    let f := if HASUB (fp s) then FREEUB (fp s) else fp s in
    (on_fp (fun _ => set_w (if has (f_flags f) (Z.lor __SLBF __SNBF) then 0 else bf_size f) (set_r 0 (set_p 0 f))) s, 0).

Definition _IOFBF : Z := 0.
Definition _IOLBF : Z := 1.
Definition _IONBF : Z := 2.
(** [malloc n] is the memory for a buffer of [n] bytes; [buf] the memory of the caller. *)
Definition setvbuf (malloc : Z -> option (list Z)) (buf : option (list Z)) (mode size : Z) (s : stream) : option (stream * Z) :=
  if negb (mode =? _IONBF) && (negb ((mode =? _IOFBF) || (mode =? _IOLBF)) || (s32 size <? 0)) then Some (s, EOF)
  else
    '(s, _) ← __sflush s;
    let f := if HASUB (fp s) then FREEUB (fp s) else fp s in
    let f := set_lbfsize 0 (set_r 0 f) in
    let flags := off (Z.lor __SLBF (Z.lor __SNBF (Z.lor __SMBF (Z.lor __SOPT (Z.lor __SNPT __SEOF))))) (f_flags f) in
    let nbf flags ret := Some (on_fp (fun _ => set_bf (Some [0]) 1 (set_p 0 (set_w 0 (set_fl (fun _ => Z.lor flags __SNBF) f)))) s, ret) in
    if mode =? _IONBF then nbf flags 0
    else
      let iosize := b_size info in
      let flags := Z.lor flags (b_opt info) in
      let buf := if size =? 0 then None else buf in
      let size := if size =? 0 then iosize else size in
      let '(buf, size, flags, ret) :=
        match buf with
        | Some b => (Some b, size, flags, 0)
        | None =>
            match malloc size with
            | Some b => (Some b, size, Z.lor flags __SMBF, 0)
            | None => if size =? iosize then (None, size, flags, EOF) else (malloc iosize, iosize, Z.lor flags __SMBF, EOF)
            end
        end in
      match buf with
      | None => nbf (off __SMBF flags) ret
      | Some b =>
          let flags := if negb (size =? iosize) then Z.lor flags __SNPT else flags in
          let flags := if mode =? _IOLBF then Z.lor flags __SLBF else flags in
          let f := set_bf (Some b) size (set_p 0 (set_fl (fun _ => flags) f)) in
          let f := if has flags __SWR
                   then if has flags __SLBF then set_lbfsize (- size) (set_w 0 f) else set_w size f
                   else set_w 0 f in
          Some (on_fp (fun _ => f) s, ret)
      end.
End writing.

(** ** What was written *)
Section write_proofs.
Context {D : Type} `{DeviceLaws D} (info : bufinfo).
Notation stream := (stream D).

(** The bytes in the buffer, and all that was given to the stream. *)
Definition held (f : FILE) : list Z := take (f_p f) (default [] (bf_base f)).
Definition total (s : stream) : list Z := written (dv s) ++ held (fp s).
(** Some write of the device takes nothing. *)
Definition device_stalls : Prop := exists d bs d' t, bs <> [] /\ dwrite d bs = (d', t) /\ t <= 0.

(** A stream that is writing: its buffer, and how _w counts in each of the three kinds. *)
Record wr_base (f : FILE) : Prop := {
  wb_on : has (f_flags f) __SWR = true;
  wb_str : has (f_flags f) __SSTR = false;
  wb_buf : exists b, bf_base f = Some b /\ Z.of_nat (length b) = bf_size f /\ (f_p f <= length b)%nat;
  wb_size : 0 < bf_size f;
  wb_lbf : f_lbfsize f = if has (f_flags f) __SLBF then - bf_size f else 0;
  wb_one : has (f_flags f) __SLBF = true -> has (f_flags f) __SNBF = false;
  wb_nbf : has (f_flags f) __SNBF = true -> bf_size f = 1 }.
Definition w_ok (f : FILE) : Prop :=
  if has (f_flags f) __SLBF then f_w f = - Z.of_nat (f_p f) /\ NEWLINE ∉ held f
  else if has (f_flags f) __SNBF then f_w f = 0 /\ f_p f = 0%nat
  else f_w f = bf_size f - Z.of_nat (f_p f).
Definition wr_ok (s : stream) : Prop := wr_base (fp s) /\ w_ok (fp s).

(** Flags that writing leaves alone. *)
Definition same_mode (f f' : FILE) : Prop :=
  bf_size f' = bf_size f /\ f_lbfsize f' = f_lbfsize f /\
  forall m, m ∈ [__SWR; __SSTR; __SLBF; __SNBF; __SRW; __SRD; __SALC] -> has (f_flags f') m = has (f_flags f) m.
Lemma same_mode_refl f : same_mode f f.
Proof. done. Qed.
Lemma same_mode_trans f g h : same_mode f g -> same_mode g h -> same_mode f h.
Proof. intros (A1 & A2 & A3) (B1 & B2 & B3). split; [by rewrite B1|]. split; [by rewrite B2|]. intros m Hm. by rewrite B3, A3. Qed.
Lemma same_flags f f' : bf_size f' = bf_size f -> f_lbfsize f' = f_lbfsize f -> f_flags f' = f_flags f -> same_mode f f'.
Proof. intros E1 E2 E3. split; [done|]. split; [done|]. intros m _. by rewrite E3. Qed.
Ltac in_flags := repeat (first [left; reflexivity|right]).
Lemma sm_swr f f' : same_mode f f' -> has (f_flags f') __SWR = has (f_flags f) __SWR.
Proof. intros (_ & _ & Hm). apply Hm. set_solver. Qed.
Lemma sm_slbf f f' : same_mode f f' -> has (f_flags f') __SLBF = has (f_flags f) __SLBF.
Proof. intros (_ & _ & Hm). apply Hm. set_solver. Qed.
Lemma sm_snbf f f' : same_mode f f' -> has (f_flags f') __SNBF = has (f_flags f) __SNBF.
Proof. intros (_ & _ & Hm). apply Hm. set_solver. Qed.
Lemma sm_sstr f f' : same_mode f f' -> has (f_flags f') __SSTR = has (f_flags f) __SSTR.
Proof. intros (_ & _ & Hm). apply Hm. set_solver. Qed.
Lemma on_err_same f : same_mode f (set_fl (on __SERR) f).
Proof. split; [done|]. split; [done|]. intros m Hm. cbn. rewrite has_on. repeat (apply elem_of_cons in Hm as [->|Hm]; [apply orb_false_r|]). by apply elem_of_nil in Hm. Qed.

Lemma base_mode f f' :
  wr_base f -> same_mode f f' -> (exists b, bf_base f' = Some b /\ Z.of_nat (length b) = bf_size f' /\ (f_p f' <= length b)%nat) -> wr_base f'.
Proof.
  intros [H1 H2 H3 H4 H5 H6 H7] Hm Hb. pose proof Hm as (M1 & M2 & _).
  split; rewrite ?(sm_swr _ _ Hm), ?(sm_sstr _ _ Hm), ?(sm_slbf _ _ Hm), ?(sm_snbf _ _ Hm), ?M1, ?M2; try done. by rewrite <- M1.
Qed.

(** ** Results *)
Definition wrote (s s' : stream) (bs : list Z) : Prop :=
  wr_ok s' /\ same_mode (fp s) (fp s') /\ written (dv s) `prefix_of` written (dv s') /\ total s' = total s ++ bs.
Definition failed (s s' : stream) (bs : list Z) : Prop :=
  wr_ok s' /\ same_mode (fp s) (fp s') /\ written (dv s) `prefix_of` written (dv s') /\ held (fp s') = [] /\ device_stalls /\
  written (dv s') `prefix_of` total s ++ bs.
Lemma wrote_trans s s1 s2 a b : wrote s s1 a -> wrote s1 s2 b -> wrote s s2 (a ++ b).
Proof.
  intros (_ & M1 & P1 & T1) (W2 & M2 & P2 & T2). split; [done|]. split; [by eapply same_mode_trans|]. split; [by etrans|]. by rewrite T2, T1, app_assoc.
Qed.
Lemma wrote_failed s s1 s2 a b : wrote s s1 a -> failed s1 s2 b -> failed s s2 (a ++ b).
Proof.
  intros (_ & M1 & P1 & T1) (W2 & M2 & P2 & E2 & S2 & T2). split; [done|]. split; [by eapply same_mode_trans|]. split; [by etrans|]. split; [done|]. split; [done|].
  by rewrite app_assoc, <- T1.
Qed.
Lemma failed_more s s' a b : failed s s' a -> failed s s' (a ++ b).
Proof. intros (W & M & P & E & S & T). split_and!; try done. rewrite app_assoc. by apply prefix_app_r. Qed.
Lemma failed_err s s' a : failed s s' a -> failed s (on_fp (set_fl (on __SERR)) s') a.
Proof.
  intros ([Wb Ww] & M & P & E & S & T). pose proof (on_err_same (fp s')) as Hm. split; [|split; [by eapply same_mode_trans|done]]. split.
  - eapply base_mode; [exact Wb|exact Hm|]. apply Wb.
  - unfold w_ok in *. cbn [fp on_fp]. rewrite (sm_slbf _ _ Hm), (sm_snbf _ _ Hm). exact Ww.
Qed.

(** ** Flushing *)
Lemma sflush_loop_spec fuel (s : stream) bs :
  (length bs <= fuel)%nat ->
  exists d e, sflush_loop fuel s bs = Some (if e =? 0 then on_dv d s else on_fp (set_fl (on __SERR)) (on_dv d s), e) /\
    written (dv s) `prefix_of` written d /\
    (e = 0 /\ written d = written (dv s) ++ bs \/ e = EOF /\ device_stalls /\ written d `prefix_of` written (dv s) ++ bs).
Proof using H0.
  revert s bs. induction fuel as [|fuel IH]; intros s bs Hf.
  { destruct bs; [|cbn in Hf; lia]. exists (dv s), 0. cbn. split; [by destruct s|]. split; [done|]. left. by rewrite app_nil_r. }
  destruct bs as [|b bs]; [exists (dv s), 0; cbn; split; [by destruct s|]; split; [done|]; left; by rewrite app_nil_r|].
  cbn [sflush_loop]. set (l := b :: bs) in *. destruct (dwrite (dv s) l) as [d t] eqn:Ed. destruct (dwrite_some _ _ _ _ Ed) as [Ht Hw].
  destruct (Z.leb_spec t 0) as [Hle|Hgt].
  - replace (Z.to_nat t) with 0%nat in Hw by lia. rewrite take_0, app_nil_r in Hw. exists d, EOF. split; [done|]. split; [by rewrite Hw|].
    right. split; [done|]. split; [by exists (dv s), l, d, t|]. rewrite Hw. by apply prefix_app_r.
  - destruct (IH (on_dv d s) (drop (Z.to_nat t) l)) as (d' & e & E & P & Hr); [rewrite length_drop; lia|]. exists d', e. rewrite E.
    split; [by destruct (e =? 0)|]. cbn [dv on_dv] in *. rewrite Hw, <- app_assoc in Hr. rewrite take_drop in Hr. split; [|done].
    etrans; [|exact P]. rewrite Hw. by apply prefix_app_r.
Qed.
Lemma sflush_spec (s : stream) :
  wr_base (fp s) -> exists s' e, __sflush s = Some (s', e) /\ f_p (fp s') = 0%nat /\
    (e = 0 /\ wrote s s' [] \/ e = EOF /\ flag s' __SERR = true /\ failed s s' []).
Proof using H0.
  intros Hb. pose proof Hb as [H1 H2 (b & Eb & Hl & Hp) H4 H5 H6 H7]. unfold __sflush. rewrite H1. cbn [negb]. rewrite Eb.
  set (s1 := on_fp _ s). destruct (sflush_loop_spec (f_p (fp s)) s1 (take (f_p (fp s)) b)) as (d & e & -> & P & Hr); [rewrite length_take; lia|].
  assert (forall f, bf_base f = bf_base (fp s) -> f_p f = 0%nat -> same_mode (fp s) f -> f_w f = f_w (fp s1) -> wr_base f /\ w_ok f) as Hok.
  { intros f Ebf Ep Hm Ew. split; [eapply base_mode; [exact Hb|exact Hm|]; exists b; rewrite Ebf, Ep; pose proof Hm as (-> & _); split; [done|]; split; [done|lia]|].
    unfold w_ok, held. rewrite Ep, take_0, Ew. unfold s1. cbn [fp on_fp f_w set_w]. rewrite has_either, (sm_slbf _ _ Hm), (sm_snbf _ _ Hm).
    destruct (has (f_flags (fp s)) __SLBF); cbn [orb]; [split; [done|apply not_elem_of_nil]|].
    destruct (has (f_flags (fp s)) __SNBF); [done|]. cbn. pose proof Hm as (-> & _). lia. }
  assert (total s = written (dv s) ++ take (f_p (fp s)) b) as Et by (unfold total, held; by rewrite Eb).
  do 2 eexists. split; [done|]. destruct Hr as [[-> Hw]|(-> & Hs & Hw)]; cbn [Z.eqb] in *.
  - split; [done|]. left. split; [done|]. split; [by apply Hok|]. split; [done|]. split; [done|]. unfold total at 1, held. cbn. rewrite take_0, !app_nil_r, Et. exact Hw.
  - change (EOF =? 0) with false. cbv iota. split; [done|]. right. split; [done|]. split; [by flags|].
    assert (same_mode (fp s) (set_fl (on __SERR) (fp s1))) as Hm by (eapply same_mode_trans; [|apply on_err_same]; done).
    split; [by apply Hok|]. split; [done|]. split; [done|]. split; [unfold held; cbn; by rewrite take_0|]. split; [done|]. rewrite app_nil_r, Et. exact Hw.
Qed.
Lemma fflush_spec (s : stream) :
  wr_base (fp s) -> exists s' e, fflush s = Some (s', e) /\ f_p (fp s') = 0%nat /\
    (e = 0 /\ wrote s s' [] \/ e = EOF /\ flag s' __SERR = true /\ failed s s' []).
Proof using H0.
  intros Hb. unfold fflush. rewrite has_either, (wb_on _ Hb). cbn [orb negb]. by apply sflush_spec.
Qed.

(** ** Into the buffer *)

(** The bytes [bs] went into the buffer; _w is not yet what it should be. *)
Definition buffered (s s' : stream) (bs : list Z) : Prop :=
  wr_base (fp s') /\ same_mode (fp s) (fp s') /\ dv s' = dv s /\ held (fp s') = held (fp s) ++ bs.
Lemma buffered_wrote s s1 s2 a b : buffered s s1 a -> wrote s1 s2 b -> wrote s s2 (a ++ b).
Proof.
  intros (_ & M1 & E1 & T1) (W2 & M2 & P2 & T2). split; [done|]. split; [by eapply same_mode_trans|]. rewrite E1 in P2. split; [done|].
  rewrite T2. unfold total. by rewrite E1, T1, !app_assoc.
Qed.
Lemma buffered_failed s s1 s2 a b : buffered s s1 a -> failed s1 s2 b -> failed s s2 (a ++ b).
Proof.
  intros (_ & M1 & E1 & T1) (W2 & M2 & P2 & E2 & S2 & T2). split; [done|]. split; [by eapply same_mode_trans|]. rewrite E1 in P2. split; [done|]. split; [done|]. split; [done|].
  unfold total in *. rewrite E1, T1 in T2. by rewrite app_assoc, <- (app_assoc (written (dv s))).
Qed.
Lemma buffered_done s s' bs : buffered s s' bs -> w_ok (fp s') -> wrote s s' bs.
Proof. intros (B & M & E & T) W. split; [by split|]. split; [done|]. rewrite E. split; [done|]. unfold total. by rewrite E, T, app_assoc. Qed.

Lemma put_bytes_spec (s : stream) bs :
  wr_base (fp s) -> Z.of_nat (f_p (fp s) + length bs) <= bf_size (fp s) ->
  exists s', put_bytes bs s = Some s' /\ buffered s s' bs /\ f_p (fp s') = (f_p (fp s) + length bs)%nat /\ f_w (fp s') = f_w (fp s) /\ f_flags (fp s') = f_flags (fp s).
Proof.
  intros Hb Hl. pose proof Hb as [H1 H2 (b & Eb & Hlb & Hp) H4 H5 H6 H7]. unfold put_bytes. rewrite Eb. cbn [mbind option_bind].
  rewrite (proj2 (Nat.leb_le _ _)) by lia. eexists. split; [done|]. split; [|done].
  assert (length (blit b (f_p (fp s)) bs) = length b) as Hlen by (apply length_blit; lia).
  split; [|split; [by apply same_flags|split; [done|]]].
  - eapply base_mode; [exact Hb|by apply same_flags|]. eexists. split; [done|]. cbn. rewrite Hlen. lia.
  - unfold held. cbn. rewrite Eb. cbn. unfold blit. assert (length (take (f_p (fp s)) b) = f_p (fp s)) as Ht by (rewrite length_take; lia).
    rewrite app_assoc. rewrite take_app_le by (rewrite length_app; lia). apply take_ge. rewrite length_app. lia.
Qed.
(** A change of _w alone. *)
Lemma buffered_w s s' bs w : buffered s s' bs -> buffered s (on_fp (set_w w) s') bs.
Proof. intros (B & M & E & T). split; [eapply base_mode; [exact B|by apply same_flags|apply B]|]. split; [eapply same_mode_trans; [exact M|by apply same_flags]|done]. Qed.
Lemma w_buffered s w : wr_base (fp s) -> buffered s (on_fp (set_w w) s) [].
Proof. intros B. split; [eapply base_mode; [exact B|by apply same_flags|apply B]|]. split; [by apply same_flags|]. split; [done|]. by rewrite app_nil_r. Qed.
Lemma buffered_trans s s1 s2 a b : buffered s s1 a -> buffered s1 s2 b -> buffered s s2 (a ++ b).
Proof. intros (_ & M1 & E1 & T1) (B2 & M2 & E2 & T2). split; [done|]. split; [by eapply same_mode_trans|]. split; [by rewrite E2|]. by rewrite T2, T1, app_assoc. Qed.

(** Straight to the device: with nothing in the buffer. *)
Lemma write_out_spec (s : stream) bs :
  wr_ok s -> held (fp s) = [] -> bs <> [] ->
  exists s' w, write_out s bs = (s', w) /\ f_p (fp s') = f_p (fp s) /\ f_w (fp s') = f_w (fp s) /\
    (0 < w <= Z.of_nat (length bs) /\ wrote s s' (take (Z.to_nat w) bs) \/ w <= 0 /\ failed s s' []).
Proof using H0.
  intros [Hb Hw] Hh Hne. unfold write_out. destruct (dwrite (dv s) bs) as [d w] eqn:Ed. destruct (dwrite_some _ _ _ _ Ed) as [Ht Hd].
  do 2 eexists. split; [done|]. split; [done|]. split; [done|]. destruct (Z.leb_spec w 0) as [Hle|Hgt].
  - right. split; [done|]. replace (Z.to_nat w) with 0%nat in Hd by lia. rewrite take_0, app_nil_r in Hd.
    split; [by split|]. split; [apply same_mode_refl|]. cbn [dv on_dv fp]. rewrite Hd. split; [done|]. split; [done|]. split; [by exists (dv s), bs, d, w|].
    rewrite app_nil_r. unfold total. by apply prefix_app_r.
  - left. split; [lia|]. split; [by split|]. split; [apply same_mode_refl|]. cbn [dv on_dv fp]. split; [rewrite Hd; by apply prefix_app_r|].
    unfold total. cbn [dv on_dv fp]. by rewrite Hh, !app_nil_r, Hd.
Qed.

(** A partial fill, then a flush. *)
Lemma fill_flush_spec (s : stream) bs :
  wr_base (fp s) -> Z.of_nat (f_p (fp s) + length bs) <= bf_size (fp s) ->
  exists s1 s2 e, put_bytes bs s = Some s1 /\ fflush s1 = Some (s2, e) /\ f_p (fp s2) = 0%nat /\
    (e = 0 /\ wrote s s2 bs \/ e = EOF /\ flag s2 __SERR = true /\ failed s s2 bs).
Proof using H0.
  intros Hb Hl. destruct (put_bytes_spec s bs Hb Hl) as (s1 & -> & Hbu & _). destruct (fflush_spec s1) as (s2 & e & E & Hp & Hr); [apply Hbu|].
  exists s1, s2, e. split; [done|]. split; [done|]. split; [done|].
  destruct Hr as [[-> Hr]|(-> & Hs & Hr)]; [left|right]; (split; [done|]); [|split; [done|]]; rewrite <- (app_nil_r bs).
  - by eapply buffered_wrote.
  - by eapply buffered_failed.
Qed.

(** ** __sfvwrite: the rounds *)
Definition round_ok (s s' : stream) (p : list Z) (r : option Z) : Prop :=
  match r with
  | Some w => 0 <= w <= Z.of_nat (length p) /\ wrote s s' (take (Z.to_nat w) p)
  | None => failed s s' p
  end.
(** How much is free in the buffer. *)
Definition room (s : stream) : Z := bf_size (fp s) - Z.of_nat (f_p (fp s)).

Lemma held_zero (f : FILE) : f_p f = 0%nat -> held f = [].
Proof. intros E. unfold held. by rewrite E, take_0. Qed.
Lemma fill_end e (s s2 : stream) p w :
  e = 0 /\ wrote s s2 (take (Z.to_nat w) p) \/ e = EOF /\ flag s2 __SERR = true /\ failed s s2 (take (Z.to_nat w) p) ->
  0 <= w <= Z.of_nat (length p) -> round_ok s s2 p (if negb (e =? 0) then None else Some w).
Proof.
  intros [[-> Hr]|(-> & _ & Hr)] Hw; [by split|]. cbn. rewrite <- (take_drop (Z.to_nat w) p). by apply failed_more.
Qed.
Lemma direct_end (s s2 : stream) n p w :
  0 < w <= Z.of_nat (length (take n p)) /\ wrote s s2 (take (Z.to_nat w) (take n p)) \/ w <= 0 /\ failed s s2 [] ->
  round_ok s s2 p (if w <=? 0 then None else Some w).
Proof.
  intros [[Hw Hr]|[Hw Hr]].
  - rewrite (proj2 (Z.leb_gt _ _)) by lia. rewrite length_take in Hw. split; [lia|]. rewrite take_take in Hr. by replace (Z.to_nat w `min` n)%nat with (Z.to_nat w) in Hr by lia.
  - rewrite (proj2 (Z.leb_le _ _)) by lia. change p with ([] ++ p). by apply failed_more.
Qed.

Lemma full_round_spec (s : stream) p :
  wr_ok s -> flag s __SLBF = false -> flag s __SNBF = false -> p <> [] ->
  exists s' r, full_round true s p = Some (s', r) /\ round_ok s s' p r /\ (r = Some 0 -> room s = 0 /\ 0 < room s').
Proof using H0.
  intros Hok E1 E2 Hne. pose proof Hok as [Hb Hw]. pose proof Hb as [B1 B2 (b & Eb & Hlb & Hp) B4 B5 B6 B7]. unfold w_ok in Hw. unfold flag in E1, E2. rewrite E1, E2 in Hw.
  unfold full_round, grow_string. rewrite B2, andb_false_r. cbn [andb mbind option_bind negb]. unfold flag. rewrite B2.
  assert (0 < length p)%nat as Hlp by (destruct p; [done|cbn; lia]).
  destruct ((0 <? f_p (fp s))%nat && (f_w (fp s) <? Z.of_nat (length p))) eqn:Ec.
  - apply andb_true_iff in Ec as [_ Ec%Z.ltb_lt]. destruct (fill_flush_spec s (take (Z.to_nat (f_w (fp s))) p) Hb) as (s1 & s2 & e & -> & E & Hz & Hr); [rewrite length_take; lia|].
    cbn [mbind option_bind]. rewrite E. cbn [mbind option_bind]. do 2 eexists. split; [done|]. split; [apply fill_end; [done|lia]|].
    intros Hs. destruct (e =? 0) eqn:Ee; [|done]. cbn in Hs. injection Hs as Hs. unfold room. split; [lia|].
    destruct Hr as [[_ (_ & (-> & _) & _)]|(-> & _)]; [lia|done].
  - assert (f_p (fp s) = 0%nat \/ Z.of_nat (length p) <= f_w (fp s)) as Hc.
    { apply andb_false_iff in Ec as [Ec%Nat.ltb_ge|Ec%Z.ltb_ge]; [left|right]; lia. }
    destruct (Z.leb_spec (bf_size (fp s)) (Z.of_nat (length p))) as [Hle|Hgt].
    + destruct (write_out_spec s (take (Z.to_nat (bf_size (fp s))) p) Hok) as (s2 & w & E & _ & _ & Hr); [apply held_zero; lia| |].
      { intros Ht. apply (f_equal length) in Ht. rewrite length_take in Ht. cbn in Ht. lia. }
      rewrite E. do 2 eexists. split; [done|]. split; [by eapply direct_end|]. intros Hs. destruct (Z.leb_spec w 0); [done|]. injection Hs as ->. lia.
    + destruct (put_bytes_spec s p Hb) as (s1 & -> & Hbu & Hp1 & Hw1 & Hf1); [lia|]. cbn [mbind option_bind].
      do 2 eexists. split; [done|]. split; [|intros [=]; lia]. split; [lia|]. rewrite Nat2Z.id, firstn_all.
      apply buffered_done; [by apply buffered_w|]. pose proof Hbu as (_ & (M1 & _) & _). unfold w_ok, add_w. cbn. rewrite Hf1, E1, E2, M1, Hp1, Hw1. lia.
Qed.

(** ** __sfvwrite: the loops *)
Lemma getiov_spec p iov :
  0 < resid p iov -> exists p' iov', getiov p iov = Some (p', iov') /\ p' <> [] /\ p' ++ concat iov' = p ++ concat iov /\ (p <> [] -> p' = p /\ iov' = iov).
Proof.
  unfold resid. revert p. induction iov as [|q iov IH]; intros [|c p] Hr; cbn [getiov]; cbn in Hr; try lia; try by do 2 eexists.
  destruct (IH q) as (p' & iov' & E & Hne & Hc & _); [done|]. exists p', iov'. done.
Qed.
Lemma resid_zero p iov : resid p iov = 0 -> p ++ concat iov = [].
Proof. unfold resid. intros E. apply length_zero_iff_nil. lia. Qed.
Lemma resid_drop w p iov : 0 <= w <= Z.of_nat (length p) -> resid (drop (Z.to_nat w) p) iov = resid p iov - w.
Proof. intros Hw. unfold resid. rewrite !length_app, length_drop. lia. Qed.
Lemma rest_split w (p : list Z) iov : p ++ concat iov = take (Z.to_nat w) p ++ (drop (Z.to_nat w) p ++ concat iov).
Proof. by rewrite app_assoc, take_drop. Qed.

(** What a loop answers. *)
Definition loop_ok (s s' : stream) (bs : list Z) (e rs : Z) : Prop :=
  e = 0 /\ rs = 0 /\ wrote s s' bs \/ e = EOF /\ 0 < rs /\ flag s' __SERR = true /\ failed s s' bs.
Lemma write_err_spec s s1 p iov : failed s s1 p -> 0 < resid p iov -> exists s' e rs, write_err s1 p iov = Some (s', e, rs) /\ loop_ok s s' (p ++ concat iov) e rs.
Proof.
  intros Hf Hr. unfold write_err. do 3 eexists. split; [done|]. right. split; [done|]. split; [done|]. split; [by flags|]. by apply failed_err, failed_more.
Qed.
Lemma loop_next s s1 s' w p iov e rs :
  wrote s s1 (take (Z.to_nat w) p) -> loop_ok s1 s' (drop (Z.to_nat w) p ++ concat iov) e rs -> loop_ok s s' (p ++ concat iov) e rs.
Proof.
  intros Hw Hl. rewrite (rest_split w). destruct Hl as [(-> & -> & Hl)|(-> & Hr & He & Hl)]; [left|right]; (split; [done|]); (split; [done|]); [|split; [done|]].
  - by eapply wrote_trans.
  - by eapply wrote_failed.
Qed.
Lemma loop_end s s1 w p iov : wrote s s1 (take (Z.to_nat w) p) -> resid (drop (Z.to_nat w) p) iov = 0 -> loop_ok s s1 (p ++ concat iov) 0 0.
Proof. intros Hw E%resid_zero. left. split; [done|]. split; [done|]. rewrite (rest_split w), E, app_nil_r. exact Hw. Qed.

Lemma mode_flags (s s' : stream) bs : wrote s s' bs -> flag s' __SLBF = flag s __SLBF /\ flag s' __SNBF = flag s __SNBF.
Proof. intros (_ & M & _). split; [by apply sm_slbf|by apply sm_snbf]. Qed.

Lemma full_loop_spec fuel (s : stream) p iov :
  wr_ok s -> flag s __SLBF = false -> flag s __SNBF = false -> 0 < resid p iov ->
  (2 * Z.to_nat (resid p iov) + (if (room s =? 0)%Z then 1 else 0) <= fuel)%nat ->
  exists s' e rs, full_loop true fuel s p iov = Some (s', e, rs) /\ loop_ok s s' (p ++ concat iov) e rs.
Proof using H0.
  revert s p iov. induction fuel as [|fuel IH]; intros s p iov Hok E1 E2 Hr Hf; [lia|]. cbn [full_loop].
  destruct (getiov_spec p iov Hr) as (p' & iov' & -> & Hne & Hc & _). cbn [mbind option_bind]. rewrite <- Hc.
  assert (resid p' iov' = resid p iov) as Er by (unfold resid; by rewrite Hc). rewrite <- Er in *. clear p iov Hc Er.
  destruct (full_round_spec s p' Hok E1 E2 Hne) as (s1 & r & -> & Hro & Hz). cbn [mbind option_bind].
  destruct r as [w|]; cbn [round_ok] in Hro; [|by apply write_err_spec]. destruct Hro as [Hw Hro]. pose proof (resid_drop w p' iov' Hw) as Hd.
  destruct (Z.eqb_spec (resid (drop (Z.to_nat w) p') iov') 0) as [Ez|Ez]; [do 3 eexists; split; [done|]; by eapply loop_end|].
  destruct (mode_flags _ _ _ Hro) as [F1 F2]. assert (0 <= resid (drop (Z.to_nat w) p') iov') by (unfold resid; lia).
  destruct (IH s1 (drop (Z.to_nat w) p') iov') as (s' & e & rs & E & Hl); [apply Hro|by rewrite F1|by rewrite F2|lia| |].
  { rewrite Hd. destruct (Z.eqb_spec w 0) as [->|]; [destruct Hz as [Hz0 Hz]; [done|]; rewrite Hz0 in Hf; rewrite (proj2 (Z.eqb_neq (room s1) 0)) by lia; cbn in Hf; lia|].
    destruct (room s1 =? 0); lia. }
  exists s', e, rs. split; [exact E|]. by eapply loop_next.
Qed.
Lemma unbuffered_loop_spec fuel (s : stream) p iov :
  wr_ok s -> flag s __SNBF = true -> flag s __SLBF = false -> 0 < resid p iov -> (Z.to_nat (resid p iov) <= fuel)%nat ->
  exists s' e rs, unbuffered_loop fuel s p iov = Some (s', e, rs) /\ loop_ok s s' (p ++ concat iov) e rs.
Proof using H0.
  revert s p iov. induction fuel as [|fuel IH]; intros s p iov Hok E1 E2 Hr Hf; [lia|]. cbn [unbuffered_loop].
  destruct (getiov_spec p iov Hr) as (p' & iov' & -> & Hne & Hc & _). cbn [mbind option_bind]. rewrite <- Hc.
  assert (resid p' iov' = resid p iov) as Er by (unfold resid; by rewrite Hc). rewrite <- Er in *. clear p iov Hc Er.
  assert (f_p (fp s) = 0%nat) as Hz.
  { destruct Hok as [_ Hw]. unfold w_ok in Hw. unfold flag in E1, E2. rewrite E1, E2 in Hw. apply Hw. }
  destruct (write_out_spec s p' Hok (held_zero _ Hz) Hne) as (s1 & w & -> & _ & _ & Hro).
  destruct Hro as [[Hw Hro]|[Hw Hro]].
  - rewrite (proj2 (Z.leb_gt _ _)) by lia. pose proof (resid_drop w p' iov' ltac:(lia)) as Hd.
    destruct (Z.eqb_spec (resid (drop (Z.to_nat w) p') iov') 0) as [Ez|Ez]; [do 3 eexists; split; [done|]; by eapply loop_end|].
    destruct (mode_flags _ _ _ Hro) as [F1 F2]. assert (0 <= resid (drop (Z.to_nat w) p') iov') by (unfold resid; lia).
    destruct (IH s1 (drop (Z.to_nat w) p') iov') as (s' & e & rs & E & Hl); [apply Hro|by rewrite F2|by rewrite F1|lia|lia|].
    exists s', e, rs. split; [exact E|]. by eapply loop_next.
  - rewrite (proj2 (Z.leb_le _ _)) by lia. apply write_err_spec; [|done]. change p' with ([] ++ p'). by apply failed_more.
Qed.

(** *** Lines *)
Definition nl_ok (p : list Z) (d : Z) : Prop :=
  0 < d <= Z.of_nat (length p) + 1 /\ NEWLINE ∉ take (Z.to_nat (d - 1)) p.
Lemma nl_distance_spec p : exists d, nl_distance p = Some d /\ nl_ok p d.
Proof.
  unfold nl_distance. destruct (memchr_spec (length p) p 0 NEWLINE) as (r & -> & Hr); [lia|]. cbn [mbind option_bind].
  assert (forall n, (n <= length p)%nat -> (forall k, (k < n)%nat -> p !! k <> Some NEWLINE) -> NEWLINE ∉ take n p) as Hn.
  { intros n Hl Hk (i & Hi)%list_elem_of_lookup. apply lookup_take_Some in Hi as [Hi Hin]. by apply (Hk i). }
  destruct r as [i|]; cbn in Hr |- *; eexists; (split; [done|]).
  - destruct Hr as (Hi & _ & Hno). split; [lia|]. replace (Z.to_nat (Z.of_nat i + 1 - 1)) with i by lia. apply Hn; [lia|done].
  - split; [lia|]. replace (Z.to_nat (Z.of_nat (length p) + 1 - 1)) with (length p) by lia. by apply Hn.
Qed.
Lemma nl_ok_drop p d w : nl_ok p d -> 0 <= w < d -> w <= Z.of_nat (length p) -> nl_ok (drop (Z.to_nat w) p) (d - w).
Proof.
  intros [Hd Hn] Hw Hl. split; [rewrite length_drop; lia|]. intros (i & Hi)%list_elem_of_lookup. apply lookup_take_Some in Hi as [Hi Hin]. rewrite lookup_drop in Hi.
  apply Hn. apply list_elem_of_lookup. exists (Z.to_nat w + i)%nat. apply lookup_take_Some. split; [done|lia].
Qed.
Lemma no_newline_take p d n : nl_ok p d -> Z.of_nat n < d -> NEWLINE ∉ take n p.
Proof.
  intros [Hd Hn] Hlt Hin. apply Hn. replace n with (n `min` Z.to_nat (d - 1))%nat in Hin by lia. rewrite <- take_take in Hin.
  apply list_elem_of_lookup in Hin as (i & Hi). apply lookup_take_Some in Hi as [Hi _]. by apply list_elem_of_lookup_2 in Hi.
Qed.

(** After a round the bytes are written, or they end with a newline and lie in the buffer. *)
Lemma line_round_spec (s : stream) p d :
  wr_ok s -> flag s __SLBF = true -> p <> [] -> nl_ok p d ->
  exists s' r, line_round s p d = Some (s', r) /\ (r = Some 0 -> room s = 0 /\ 0 < room s') /\
    match r with
    | None => failed s s' p
    | Some w => 0 <= w <= Z.of_nat (length p) /\ w <= d /\ (wrote s s' (take (Z.to_nat w) p) \/ w = d /\ buffered s s' (take (Z.to_nat w) p))
    end.
Proof using H0.
  intros Hok E1 Hne Hd. pose proof Hok as [Hb Hw]. pose proof Hb as [B1 B2 (b & Eb & Hlb & Hp) B4 B5 B6 B7]. unfold w_ok in Hw. unfold flag in E1. rewrite E1 in Hw. destruct Hw as [Hw Hnh].
  unfold line_round. rewrite Hw. assert (0 < length p)%nat as Hlp by (destruct p; [done|cbn; lia]). pose proof Hd as [Hdr _].
  set (n := Z.min (Z.of_nat (length p)) d). assert (0 < n <= Z.of_nat (length p) /\ n <= d) as Hn by lia.
  replace (- Z.of_nat (f_p (fp s)) + bf_size (fp s)) with (room s) by (unfold room; lia).
  destruct ((0 <? f_p (fp s))%nat && (room s <? n)) eqn:Ec.
  - apply andb_true_iff in Ec as [_ Ec%Z.ltb_lt]. destruct (fill_flush_spec s (take (Z.to_nat (room s)) p) Hb) as (s1 & s2 & e & -> & E & Hz & Hr); [rewrite length_take; unfold room; lia|].
    cbn [mbind option_bind]. rewrite E. cbn [mbind option_bind]. do 2 eexists. split; [done|]. assert (0 <= room s) by (unfold room; lia).
    pose proof (fill_end e s s2 p (room s) Hr ltac:(lia)) as Hro. split.
    + intros Hs. destruct (e =? 0) eqn:Ee; [|done]. cbn in Hs. injection Hs as Hs. split; [done|]. unfold room.
      destruct Hr as [[_ (_ & (-> & _) & _)]|(-> & _)]; [lia|done].
    + destruct (negb (e =? 0)); cbn [round_ok] in Hro; [done|]. split; [lia|]. split; [lia|]. left. apply Hro.
  - assert (f_p (fp s) = 0%nat \/ n <= room s) as Hc by (apply andb_false_iff in Ec as [Ec%Nat.ltb_ge|Ec%Z.ltb_ge]; [left|right]; lia).
    destruct (Z.leb_spec (bf_size (fp s)) n) as [Hle|Hgt].
    + assert (f_p (fp s) = 0%nat) as Hz by (unfold room in Hc; lia).
      destruct (write_out_spec s (take (Z.to_nat (bf_size (fp s))) p) Hok (held_zero _ Hz)) as (s2 & w & E & _ & _ & Hr).
      { intros Ht. apply (f_equal length) in Ht. rewrite length_take in Ht. cbn in Ht. lia. }
      rewrite E. do 2 eexists. split; [done|]. pose proof (direct_end _ _ _ _ _ Hr) as Hro. split; [intros Hs; destruct (Z.leb_spec w 0); [done|]; injection Hs as ->; lia|].
      destruct (Z.leb_spec w 0); cbn [round_ok] in Hro; [done|]. split; [apply Hro|]. split; [|left; apply Hro].
      destruct Hr as [[[_ Hwl] _]|[? _]]; [rewrite length_take in Hwl|]; lia.
    + destruct (put_bytes_spec s (take (Z.to_nat n) p) Hb) as (s1 & -> & Hbu & Hp1 & Hw1 & Hf1); [rewrite length_take; unfold room in Hc; lia|]. cbn [mbind option_bind].
      do 2 eexists. split; [done|]. split; [intros [=]; lia|]. split; [lia|]. split; [lia|].
      pose proof (buffered_w _ _ _ (f_w (fp s1) + - n) Hbu) as Hbw. destruct (Z.eq_dec n d) as [->|Hnd]; [right; by split|left].
      apply buffered_done; [exact Hbw|]. unfold w_ok. change (fp (add_w (- n) s1)) with (set_w (f_w (fp s1) + - n) (fp s1)). cbn [f_flags set_w]. rewrite Hf1, E1.
      split; [cbn; rewrite Hw1, Hp1, length_take; lia|]. destruct Hbw as (_ & _ & _ & Eh). cbn [fp on_fp] in Eh. rewrite Eh, elem_of_app. intros [?|Hin]; [done|].
      by apply (no_newline_take p d (Z.to_nat n) Hd) in Hin; [|lia].
Qed.
Lemma line_flush_spec (s s1 : stream) p d w :
  0 <= w <= Z.of_nat (length p) -> wrote s s1 (take (Z.to_nat w) p) \/ w = d /\ buffered s s1 (take (Z.to_nat w) p) ->
  exists s2 e, (if d - w =? 0 then fflush s1 else Some (s1, 0)) = Some (s2, e) /\ (d - w = 0 \/ s2 = s1) /\
    (e = 0 /\ wrote s s2 (take (Z.to_nat w) p) /\ (d - w = 0 -> f_p (fp s2) = 0%nat) \/ e = EOF /\ failed s s2 p).
Proof using H0.
  intros Hl Hw. destruct (Z.eqb_spec (d - w) 0) as [Hz|Hz].
  - destruct (fflush_spec s1) as (s2 & e & -> & Hp & Hr); [destruct Hw as [[[Hb _] _]|[_ [Hb _]]]; exact Hb|].
    exists s2, e. split; [done|]. split; [by left|]. destruct Hr as [[-> Hr]|(-> & _ & Hr)]; [left|right]; (split; [done|]).
    + split; [|done]. rewrite <- (app_nil_r (take _ p)). destruct Hw as [Hw|[_ Hw]]; [by eapply wrote_trans|by eapply buffered_wrote].
    + rewrite <- (take_drop (Z.to_nat w) p). apply failed_more. rewrite <- (app_nil_r (take _ p)). destruct Hw as [Hw|[_ Hw]]; [by eapply wrote_failed|by eapply buffered_failed].
  - exists s1, 0. split; [done|]. split; [by right|]. left. split; [done|]. split; [|done]. destruct Hw as [Hw|[Hw _]]; [done|lia].
Qed.
Lemma line_loop_spec fuel (s : stream) p iov nld :
  wr_ok s -> flag s __SLBF = true -> 0 < resid p iov -> (p <> [] -> match nld with Some d => nl_ok p d | None => True end) ->
  (2 * Z.to_nat (resid p iov) + (if (room s =? 0)%Z then 1 else 0) <= fuel)%nat ->
  exists s' e rs, line_loop fuel s p iov nld = Some (s', e, rs) /\ loop_ok s s' (p ++ concat iov) e rs.
Proof using H0.
  revert s p iov nld. induction fuel as [|fuel IH]; intros s p iov nld Hok E1 Hr Hnld Hf; [lia|]. cbn [line_loop].
  destruct (getiov_spec p iov Hr) as (p' & iov' & -> & Hne & Hc & Hsame). cbn [mbind option_bind].
  assert (exists d, (match match p with [] => None | _ :: _ => nld end with Some d => Some d | None => nl_distance p' end) = Some d /\ nl_ok p' d) as (d & -> & Hd).
  { destruct p as [|c p]; [apply nl_distance_spec|]. destruct Hsame as [-> _]; [done|]. destruct nld as [d|]; [exists d; split; [done|by apply Hnld]|apply nl_distance_spec]. }
  cbn [mbind option_bind]. rewrite <- Hc.
  assert (resid p' iov' = resid p iov) as Er by (unfold resid; by rewrite Hc). rewrite <- Er in *. clear p iov Hc Er Hnld Hsame.
  destruct (line_round_spec s p' d Hok E1 Hne Hd) as (s1 & r & -> & Hz & Hro). cbn [mbind option_bind].
  destruct r as [w|]; [|by apply write_err_spec]. destruct Hro as (Hw & Hwd & Hro). pose proof (resid_drop w p' iov' Hw) as Hdr.
  destruct (line_flush_spec s s1 p' d w Hw Hro) as (s2 & e & -> & Hs2 & He). cbn [mbind option_bind].
  destruct He as [(-> & Hwr & Hp0)|[-> Hfa]]; [|by apply write_err_spec]. cbn [Z.eqb negb].
  destruct (Z.eqb_spec (resid (drop (Z.to_nat w) p') iov') 0) as [Ez|Ez]; [do 3 eexists; split; [done|]; by eapply loop_end|].
  destruct (mode_flags _ _ _ Hwr) as [F1 _]. assert (0 <= resid (drop (Z.to_nat w) p') iov') by (unfold resid; lia).
  destruct (IH s2 (drop (Z.to_nat w) p') iov' (if d - w =? 0 then None else Some (d - w))) as (s' & e & rs & E & Hl); [apply Hwr|by rewrite F1|lia| | |].
  { intros _. destruct (Z.eqb_spec (d - w) 0); [done|]. apply nl_ok_drop; [done|lia|lia]. }
  { rewrite Hdr. destruct (Z.eqb_spec w 0) as [->|]; [|destruct (room s2 =? 0); lia]. destruct Hz as [Hz0 Hz]; [done|]. rewrite Hz0 in Hf. destruct Hd as [Hd _].
    destruct Hs2 as [?| ->]; [lia|]. rewrite (proj2 (Z.eqb_neq (room s1) 0)) by lia. cbn in Hf. lia. }
  exists s', e, rs. split; [exact E|]. by eapply loop_next.
Qed.

(** ** Ready to write

    A stream that is writing, or that was opened for it and has no buffer yet. *)
Definition fresh (s : stream) : Prop :=
  bf_base (fp s) = None /\ f_p (fp s) = 0%nat /\ f_lbfsize (fp s) = 0 /\ flag s __SWR = true /\ flag s __SSTR = false /\ flag s __SLBF = false.
Definition ready (s : stream) : Prop := wr_ok s \/ fresh s.

Lemma check_ok (s : stream) : wr_ok s -> check_writable info s = (s, false).
Proof.
  intros [Hb _]. pose proof Hb as [B1 _ (b & Eb & _) _ _ _ _]. unfold check_writable, cantwrite. rewrite B1, Eb. cbn. by destruct s.
Qed.
Lemma check_writable_spec (s : stream) :
  info_ok info -> ready s -> exists s1, check_writable info s = (s1, false) /\ wr_ok s1 /\ dv s1 = dv s /\ total s1 = total s /\ (flag s1 __SERR = flag s __SERR).
Proof.
  intros [Ho Hm] [Hok|(Eb & Ep & El & E1 & E2 & E3)].
  { exists s. rewrite check_ok by done. done. }
  unfold check_writable, cantwrite, __swsetup. unfold flag in *. rewrite E1, Eb, E2. cbn [negb orb andb Z.eqb].
  assert (forall f, wr_base f -> f_w f = (if has (f_flags f) __SLBF then 0 else if has (f_flags f) __SNBF then 0 else bf_size f) -> f_p f = 0%nat ->
    has (f_flags f) __SERR = has (f_flags (fp s)) __SERR ->
    exists s1, (on_fp (fun _ => f) s, false) = (s1, false) /\ wr_ok s1 /\ dv s1 = dv s /\ total s1 = total s /\ has (f_flags (fp s1)) __SERR = has (f_flags (fp s)) __SERR) as Hf.
  { intros f Hb Hw Hp He. eexists. split; [done|]. split; [|split; [done|split; [|done]]].
    - split; [exact Hb|]. unfold w_ok. cbn [fp on_fp]. rewrite Hw, Hp. destruct (has (f_flags f) __SLBF); [split; [done|]; rewrite held_zero by done; apply not_elem_of_nil|].
      destruct (has (f_flags f) __SNBF); [done|cbn; lia].
    - unfold total. cbn [fp on_fp dv]. by rewrite !held_zero. }
  unfold __smakebuf. destruct (has (f_flags (fp s)) __SNBF) eqn:E4; [|destruct (b_malloc info) as [b|] eqn:Em].
  - unfold swsetup_w. cbn [f_flags unbuffer set_bf set_p]. rewrite E3, E4. apply Hf; cbn; rewrite ?E3, ?E4; try done.
    split; cbn; rewrite ?E3, ?E4; try done. exists [0]. cbn. split; [done|]. split; [done|lia].
  - unfold swsetup_w. set (fl := on (if b_tty info then Z.lor (Z.lor (b_opt info) __SMBF) __SLBF else Z.lor (b_opt info) __SMBF) (f_flags (fp s))).
    assert (forall m, m = __SWR \/ m = __SSTR \/ m = __SNBF \/ m = __SERR -> has fl m = has (f_flags (fp s)) m) as Hfl.
    { intros m Hc. unfold fl. rewrite has_on. destruct Ho as [-> | ->], (b_tty info); destruct Hc as [-> | [-> | [-> | ->]]]; apply orb_false_r. }
    cbn [f_flags set_fl set_bf set_p bf_size]. fold fl. destruct (has fl __SLBF) eqn:E5; [|rewrite (Hfl __SNBF), E4 by tauto].
    all: apply Hf; cbn; fold fl; rewrite ?E5, ?(Hfl __SNBF), ?(Hfl __SERR), ?E4 by tauto; try done.
    all: split; cbn; fold fl; rewrite ?E5, ?(Hfl __SNBF), ?(Hfl __SWR), ?(Hfl __SSTR), ?E4 by tauto; try done; try apply Hm.
    all: exists b; split; [done|]; split; [apply Hm|lia].
  - unfold swsetup_w. cbn [f_flags unbuffer set_bf set_p set_fl bf_size]. rewrite !has_on, E3. eval_flags. cbn [orb]. rewrite orb_true_r.
    apply Hf; cbn; rewrite ?has_on, ?E3, ?E4; eval_flags; rewrite ?orb_false_r; try done.
    split; cbn; rewrite ?has_on, ?E1, ?E2, ?E3, ?E4; try done. exists [0]. cbn. split; [done|]. split; [done|lia].
Qed.

(** ** The functions *)

(** Success, with [bs] written; or failure. *)
Definition done_or_failed (s s' : stream) (bs : list Z) (success : bool) : Prop :=
  wr_ok s' /\
  if success then total s' = total s ++ bs
  else device_stalls /\ flag s' __SERR = true /\ held (fp s') = [] /\ written (dv s') `prefix_of` total s ++ bs.
Lemma done_wrote (s s1 s' : stream) bs : total s1 = total s -> wrote s1 s' bs -> done_or_failed s s' bs true.
Proof. intros E (W & _ & _ & T). split; [done|]. by rewrite T, E. Qed.
Lemma done_failed (s s1 s' : stream) bs : total s1 = total s -> flag s' __SERR = true -> failed s1 s' bs -> done_or_failed s s' bs false.
Proof. intros E F (W & _ & _ & Hh & S & T). split; [done|]. rewrite <- E. done. Qed.

Lemma sfvwrite_spec (s : stream) iov :
  info_ok info -> ready s -> 0 < resid [] iov ->
  exists s' e rs, __sfvwrite info true s iov = Some (s', e, rs) /\ (e = 0 /\ rs = 0 \/ e = EOF /\ 0 < rs) /\ done_or_failed s s' (concat iov) (e =? 0).
Proof using H0.
  intros Hi Hrd Hr. unfold __sfvwrite. rewrite (proj2 (Z.eqb_neq _ 0)) by lia.
  destruct (check_writable_spec s Hi Hrd) as (s1 & -> & Hok & _ & Et & _). cbv zeta.
  assert (exists s' e rs, (if flag s1 __SNBF then unbuffered_loop (2 * Z.to_nat (resid [] iov) + 1) s1 [] iov
    else if negb (flag s1 __SLBF) then full_loop true (2 * Z.to_nat (resid [] iov) + 1) s1 [] iov
    else line_loop (2 * Z.to_nat (resid [] iov) + 1) s1 [] iov None) = Some (s', e, rs) /\ loop_ok s1 s' ([] ++ concat iov) e rs) as (s' & e & rs & -> & Hl).
  { pose proof (wb_one _ (proj1 Hok)) as H1. fold (flag s1 __SLBF) in H1. fold (flag s1 __SNBF) in H1. destruct (flag s1 __SNBF) eqn:E1.
    - apply unbuffered_loop_spec; try done; [|lia]. destruct (flag s1 __SLBF) eqn:E3; [|done]. by specialize (H1 eq_refl).
    - destruct (flag s1 __SLBF) eqn:E2; cbn [negb]; [apply line_loop_spec|apply full_loop_spec]; try done; destruct (room s1 =? 0); lia. }
  exists s', e, rs. split; [done|]. destruct Hl as [(-> & -> & Hl)|(-> & Hrs & He & Hl)].
  - split; [by left|]. by apply (done_wrote s s1).
  - split; [by right|]. by apply (done_failed s s1).
Qed.

Lemma swbuf_spec c (s0 s : stream) :
  wr_ok s0 -> (exists w, s = on_fp (set_w w) s0) -> (flag s0 __SLBF = false -> flag s0 __SNBF = false -> f_w (fp s0) = 0) ->
  (flag s0 __SLBF = true -> u8 c <> NEWLINE -> Z.of_nat (f_p (fp s0)) = bf_size (fp s0)) ->
  exists s' e, __swbuf info c s = Some (s', if e : bool then u8 c else EOF) /\ (if e then wrote s0 s' [u8 c] else flag s' __SERR = true /\ failed s0 s' [u8 c]).
Proof using H0.
  intros Hok [w ->] Hfull Hline. unfold __swbuf. pose proof Hok as [Hb Hw]. pose proof Hb as [B1 B2 (b & Eb & Hlb & Hp) B4 B5 B6 B7].
  assert (check_writable info (on_fp (fun f => set_w (f_lbfsize f) f) (on_fp (set_w w) s0)) = (on_fp (set_w (f_lbfsize (fp s0))) s0, false)) as ->.
  { unfold check_writable, cantwrite. cbn. rewrite B1, Eb. cbn. done. }
  set (s1 := on_fp (set_w (f_lbfsize (fp s0))) s0). cbv zeta. generalize (u8 c) as ch, Hline. clear c Hline. intros c Hline.
  pose proof (w_buffered s0 (f_lbfsize (fp s0)) Hb) as Hbu. fold s1 in Hbu.
  assert (exists s2 e, (if bf_size (fp s1) <=? Z.of_nat (f_p (fp s1)) then fflush s1 else Some (s1, 0)) = Some (s2, e) /\
    (e = EOF /\ flag s2 __SERR = true /\ failed s0 s2 [] \/ e = 0 /\ (bf_size (fp s0) <= Z.of_nat (f_p (fp s0)) /\ wrote s0 s2 [] /\ f_p (fp s2) = 0%nat \/
      Z.of_nat (f_p (fp s0)) < bf_size (fp s0) /\ s2 = s1))) as (s2 & e & -> & He).
  { destruct (Z.leb_spec (bf_size (fp s1)) (Z.of_nat (f_p (fp s1)))) as [Hle|Hgt]; [|exists s1, 0; split; [done|]; right; split; [done|by right]].
    destruct (fflush_spec s1) as (s2 & e & -> & Hz & Hr); [apply Hbu|]. exists s2, e. split; [done|].
    destruct Hr as [[-> Hr]|(-> & Hs & Hr)]; [right|left]; (split; [done|]); [left; split; [done|split; [by apply (buffered_wrote _ _ _ [] [] Hbu)|done]]|split; [done|by apply (buffered_failed _ _ _ [] [] Hbu)]]. }
  cbn [mbind option_bind]. destruct He as [(-> & Hs & He)|[-> He]].
  { cbn. exists s2, false. split; [done|]. split; [done|]. by apply (failed_more _ _ [] [c]). }
  cbn [Z.eqb negb].
  assert (wr_base (fp s2) /\ f_p (fp s2) = (if decide (bf_size (fp s0) <= Z.of_nat (f_p (fp s0))) then 0%nat else f_p (fp s0)) /\ same_mode (fp s0) (fp s2) /\
    forall s3 x, buffered s2 s3 x -> (wr_ok s3 -> wrote s0 s3 x) /\ (forall s4 y, wrote s3 s4 y -> wrote s0 s4 (x ++ y)) /\ (forall s4 y, failed s3 s4 y -> failed s0 s4 (x ++ y))) as (Hb2 & Hp2 & Hm2 & Hcomp).
  { destruct He as [(Hle & He & Hz)|[Hlt ->]].
    - rewrite decide_True by done. split; [apply He|]. split; [done|]. split; [apply He|]. intros s3 x Hx. split_and!.
      + intros Hok3. apply (wrote_trans _ _ _ [] x He). apply buffered_done; [done|apply Hok3].
      + intros s4 y Hy. apply (wrote_trans _ _ _ [] _ He). by eapply buffered_wrote.
      + intros s4 y Hy. apply (wrote_failed _ _ _ [] _ He). by eapply buffered_failed.
    - rewrite decide_False by lia. split; [apply Hbu|]. split; [done|]. split; [apply Hbu|]. intros s3 x Hx. pose proof (buffered_trans _ _ _ [] x Hbu Hx) as Hx0. split_and!.
      + intros Hok3. apply buffered_done; [done|apply Hok3].
      + intros s4 y Hy. by eapply buffered_wrote.
      + intros s4 y Hy. by eapply buffered_failed. }
  pose proof Hm2 as (Ms & _ & _). set (s2' := add_w (-1) s2).
  destruct (put_bytes_spec s2' [c]) as (s3 & -> & Hb3 & Hp3 & Hw3 & Hf3).
  { eapply base_mode; [exact Hb2|by apply same_flags|apply Hb2]. }
  { cbn. rewrite Hp2. case_decide; lia. }
  cbn [mbind option_bind]. cbn in Hp3, Hw3, Hf3. assert (buffered s2 s3 [c]) as Hbu3 by (apply (buffered_trans _ s2' _ [] [c]); [by apply w_buffered|done]).
  destruct (Hcomp s3 [c] Hbu3) as (Hdone & Hthen & Helse). destruct (Hbu3) as (Hb3' & Hm3 & _).
  pose proof (same_mode_trans _ _ _ Hm2 Hm3) as Hm. pose proof Hm as (Ms3 & _).
  destruct ((Z.of_nat (f_p (fp s3)) =? bf_size (fp s3)) || (flag s3 __SLBF && (c =? NEWLINE))) eqn:Ec.
  - destruct (fflush_spec s3 Hb3') as (s4 & e & -> & _ & Hr). cbn [mbind option_bind]. destruct Hr as [[-> Hr]|(-> & Hs & Hr)].
    + exists s4, true. split; [done|]. by apply (Hthen s4 []).
    + exists s4, false. split; [done|]. split; [done|]. by apply (Helse s4 []).
  - exists s3, true. split; [done|]. apply Hdone. split; [done|]. apply orb_false_iff in Ec as [Ec1%Z.eqb_neq Ec2].
    unfold w_ok. unfold flag in Ec2, Hfull, Hline. rewrite (sm_slbf _ _ Hm) in *. rewrite (sm_snbf _ _ Hm). rewrite Ms3 in *. unfold w_ok in Hw.
    destruct (has (f_flags (fp s0)) __SLBF) eqn:E1.
    + cbn in Ec2. apply Z.eqb_neq in Ec2. specialize (Hline eq_refl Ec2). destruct Hw as [Hw Hnh]. rewrite decide_True in Hp2 by lia.
      destruct He as [(_ & ([_ Hw2] & Hmm & _) & _)|[? _]]; [|lia]. unfold w_ok in Hw2. rewrite (sm_slbf _ _ Hmm), E1 in Hw2. destruct Hw2 as [Hw2 Hn2].
      split; [lia|]. destruct Hbu3 as (_ & _ & _ & ->). rewrite elem_of_app, list_elem_of_singleton. intros [?|?]; [done|by subst].
    + destruct (has (f_flags (fp s0)) __SNBF) eqn:E2.
      * specialize (B7 eq_refl). destruct Hw as [_ Hz]. exfalso. apply Ec1. rewrite Hp3, Hp2. case_decide; lia.
      * specialize (Hfull eq_refl eq_refl). rewrite decide_True in Hp2 by lia. destruct He as [(_ & ([_ Hw2] & Hmm & _) & _)|[? _]]; [|lia].
        unfold w_ok in Hw2. rewrite (sm_slbf _ _ Hmm), (sm_snbf _ _ Hmm), E1, E2 in Hw2. lia.
Qed.

Lemma sputc_spec c (s : stream) :
  wr_ok s ->
  exists s' e, __sputc info c s = Some (s', if e : bool then u8 c else EOF) /\ (if e then wrote s s' [u8 c] else flag s' __SERR = true /\ failed s s' [u8 c]).
Proof using H0.
  intros Hok. pose proof Hok as [Hb Hw]. pose proof Hb as [B1 B2 (b & Eb & Hlb & Hp) B4 B5 B6 B7]. unfold __sputc. unfold w_ok in Hw.
  set (s1 := add_w (-1) s). pose proof (w_buffered s (f_w (fp s) + -1) Hb) as Hbu. change (on_fp (set_w (f_w (fp s) + -1)) s) with s1 in Hbu.
  change (f_w (fp s1)) with (f_w (fp s) + -1). change (f_lbfsize (fp s1)) with (f_lbfsize (fp s)).
  destruct ((0 <=? f_w (fp s) + -1) || ((f_lbfsize (fp s) <=? f_w (fp s) + -1) && negb (u8 c =? NEWLINE))) eqn:Ec.
  - assert (Z.of_nat (f_p (fp s)) + 1 <= bf_size (fp s) /\ has (f_flags (fp s)) __SNBF = false /\ (has (f_flags (fp s)) __SLBF = true -> u8 c <> NEWLINE)) as (Hroom & En & Hnl).
    { apply orb_true_iff in Ec. destruct (has (f_flags (fp s)) __SLBF) eqn:E1.
      - destruct Hw as [Hw _]. destruct Ec as [Ec%Z.leb_le|[Ec%Z.leb_le Ec2]%andb_true_iff]; [lia|]. split; [lia|]. split; [by apply B6|]. intros _ Eq. by rewrite Eq in Ec2.
      - destruct (has (f_flags (fp s)) __SNBF) eqn:E2; [exfalso; destruct Hw as [Hw _]; destruct Ec as [Ec%Z.leb_le|[Ec%Z.leb_le Ec2]%andb_true_iff]; lia|].
        split; [|done]. destruct Ec as [Ec%Z.leb_le|[Ec%Z.leb_le Ec2]%andb_true_iff]; lia. }
    destruct (put_bytes_spec s1 [u8 c]) as (s2 & -> & Hbu2 & Hp2 & Hw2 & Hf2); [apply Hbu|cbn; lia|]. cbn [mbind option_bind].
    exists s2, true. split; [done|]. pose proof (buffered_trans _ _ _ [] _ Hbu Hbu2) as Hbt. apply buffered_done; [exact Hbt|].
    pose proof Hbt as (_ & (Ms & _) & _ & Hh). unfold w_ok. cbn in Hf2, Hp2, Hw2. rewrite Hf2, Hp2, Hw2, Ms, En, Hh.
    rewrite En in Hw. destruct (has (f_flags (fp s)) __SLBF); [|lia]. destruct Hw as [Hw Hn]. split; [lia|]. cbn [app]. rewrite elem_of_app, list_elem_of_singleton.
    intros [?|Eq]; [done|]. by apply Hnl.
  - apply orb_false_iff in Ec as [Ec1%Z.leb_gt Ec2]. apply swbuf_spec; [done|by eexists| |].
    + unfold flag. intros E1 E2. rewrite E1, E2 in Hw. lia.
    + unfold flag. intros E1 Hne. rewrite E1 in Hw, B5. apply andb_false_iff in Ec2 as [Ec2%Z.leb_gt|Ec2]; [lia|].
      apply negb_false_iff, Z.eqb_eq in Ec2. done.
Qed.
Lemma fputc_spec c (s : stream) :
  info_ok info -> ready s ->
  exists s' e, fputc info c s = Some (s', if e : bool then u8 c else EOF) /\ done_or_failed s s' [u8 c] e.
Proof using H0.
  intros Hi Hrd. unfold fputc, putc_unlocked. destruct (check_writable_spec s Hi Hrd) as (s1 & -> & Hok & _ & Et & _). cbv zeta. rewrite (check_ok s1 Hok). cbv zeta.
  destruct (sputc_spec c s1 Hok) as (s2 & e & -> & He). exists s2, e. split; [done|]. destruct e; [by apply (done_wrote s s1)|destruct He; by apply (done_failed s s1)].
Qed.
Lemma sfvwrite_one (s : stream) bs :
  info_ok info -> ready s ->
  exists s' e rs, __sfvwrite info true s [bs] = Some (s', e, rs) /\ (e = 0 /\ rs = 0 \/ e = EOF /\ 0 < rs <= Z.of_nat (length bs) \/ e = EOF /\ 0 < rs) /\
    (ready s' /\ (bs = [] /\ s' = s /\ e = 0 \/ done_or_failed s s' bs (e =? 0))).
Proof using H0.
  intros Hi Hrd. destruct bs as [|c bs].
  - exists s, 0, 0. split; [done|]. split; [by left|]. split; [done|by left].
  - destruct (sfvwrite_spec s [c :: bs] Hi Hrd) as (s' & e & rs & E & He & Hd); [unfold resid; cbn; lia|]. exists s', e, rs. split; [done|]. split; [tauto|].
    cbn [concat] in Hd. rewrite app_nil_r in Hd. split; [left; apply Hd|by right].
Qed.
Lemma fflush_ready (s : stream) :
  ready s -> exists s' e, fflush s = Some (s', e) /\ ready s' /\ (e = 0 /\ total s' = total s /\ held (fp s') = [] \/ e = EOF /\ done_or_failed s s' [] false).
Proof using H0.
  intros [Hok|Hf].
  - destruct (fflush_spec s (proj1 Hok)) as (s' & e & -> & Hz & Hr). exists s', e. split; [done|].
    destruct Hr as [[-> (W & _ & _ & T)]|(-> & Hs & Hr)].
    + split; [by left|]. left. split; [done|]. split; [by rewrite T, app_nil_r|by apply held_zero].
    + split; [left; apply Hr|]. right. split; [done|]. by apply (done_failed s s).
  - pose proof Hf as (Eb & Ep & _ & E1 & _). unfold fflush, __sflush. rewrite has_either. unfold flag in E1. rewrite E1, Eb. cbn [orb negb].
    exists s, 0. split; [done|]. split; [by right|]. left. split; [done|]. split; [done|by apply held_zero].
Qed.
End write_proofs.

(** ** Writing is writing a list *)
Inductive wop : Type := WPutc (c : Z) | WWrite (buf : list Z) (size count : Z) | WPuts (str : list Z) | WFlush.
Definition wop_bytes (op : wop) : list Z :=
  match op with
  | WPutc c => [u8 c]
  | WWrite buf size count => take (Z.to_nat (count * size)) buf
  | WPuts str => str
  | WFlush => []
  end.
Definition wop_ok (op : wop) : Prop :=
  match op with
  | WWrite buf size count => 0 < size /\ 0 <= count /\ count * size < 2 ^ 31 /\ count * size <= Z.of_nat (length buf)
  | WPuts str => Z.of_nat (length str) < 2 ^ 31
  | _ => True
  end.

Section writing_ops.
Context {D : Type} `{DeviceLaws D} (info : bufinfo).
(** The stream, and whether the answer is that of success. *)
Definition write_op (s : stream D) (op : wop) : option (stream D * bool) :=
  match op with
  | WPutc c => '(s, r) ← fputc info c s; Some (s, r =? u8 c)
  | WWrite buf size count => '(s, r) ← fwrite info true buf size count s; Some (s, r =? count)
  | WPuts str => '(s, r) ← fputs info true str s; Some (s, r =? 0)
  | WFlush => '(s, r) ← fflush s; Some (s, r =? 0)
  end.
(** As long as they succeed. *)
Fixpoint write_ops (s : stream D) (ops : list wop) : option (stream D * bool) :=
  match ops with
  | [] => Some (s, true)
  | op :: ops => '(s, ok) ← write_op s op; if ok : bool then write_ops s ops else Some (s, false)
  end.

Definition op_result (s s' : stream D) (bs : list Z) (ok : bool) : Prop :=
  ready s' /\
  if ok then total s' = total s ++ bs
  else device_stalls (D := D) /\ flag s' __SERR = true /\ held (fp s') = [] /\ written (dv s') `prefix_of` total s ++ bs.
Lemma result_of s s' bs ok : done_or_failed s s' bs ok -> op_result s s' bs ok.
Proof. intros [Hw Hr]. split; [by left|done]. Qed.
Lemma one_result (s s' : stream D) bs e : ready s' /\ (bs = [] /\ s' = s /\ e = 0 \/ done_or_failed s s' bs (e =? 0)) -> op_result s s' bs (e =? 0).
Proof. intros [Hr [(-> & -> & ->)|Hd]]; [split; [done|]; cbn; by rewrite app_nil_r|by apply result_of]. Qed.

Lemma write_op_spec (s : stream D) op :
  info_ok info -> ready s -> wop_ok op -> exists s' ok, write_op s op = Some (s', ok) /\ op_result s s' (wop_bytes op) ok /\ (op = WFlush -> ok = true -> held (fp s') = []).
Proof using H0.
  intros Hi Hrd Hop. destruct op as [c|buf size count|str|]; cbn [write_op wop_bytes wop_ok] in *.
  - destruct (fputc_spec info c s Hi Hrd) as (s' & e & -> & Hd). cbn [mbind option_bind]. exists s', e. split; [|split; [by apply result_of|done]].
    assert (0 <= u8 c) by (unfold u8; apply Z.mod_pos_bound; lia). destruct e; [by rewrite Z.eqb_refl|]. unfold EOF. by rewrite (proj2 (Z.eqb_neq _ _)) by lia.
  - destruct Hop as (Hs & Hc & Hlt & Hle). unfold fwrite. assert (u32 (count * size) = count * size) as -> by (unfold u32; apply Z.mod_small; nia).
    set (bs := take (Z.to_nat (count * size)) buf). assert (Z.of_nat (length bs) = count * size) as Hl by (unfold bs; rewrite length_take; nia).
    destruct (sfvwrite_one info s bs Hi Hrd) as (s' & e & rs & -> & He & Hd). cbn [mbind option_bind]. exists s', (e =? 0). split; [|split; [by apply one_result|done]].
    do 2 f_equal. destruct (Z.eqb_spec e 0) as [->|Hne]; [by rewrite Z.eqb_refl|]. apply Z.eqb_neq.
    assert ((count * size - rs) / size < count); [|lia]. apply Z.div_lt_upper_bound; [lia|]. destruct He as [[? _]|[[_ ?]|[_ ?]]]; [done|nia|nia].
  - unfold fputs. destruct (sfvwrite_one info s str Hi Hrd) as (s' & e & rs & -> & He & Hd). cbn [mbind option_bind]. exists s', (e =? 0). split; [done|split; [by apply one_result|done]].
  - destruct (fflush_ready s Hrd) as (s' & e & -> & Hr' & He). cbn [mbind option_bind]. exists s', (e =? 0). split; [done|].
    destruct He as [(-> & Et & Eh)|(-> & Hd)]; [split; [split; [done|by rewrite app_nil_r]|done]|split; [by apply (result_of _ _ _ false)|done]].
Qed.

Lemma write_ops_spec (s : stream D) ops :
  info_ok info -> ready s -> Forall wop_ok ops ->
  exists s' ok, write_ops s ops = Some (s', ok) /\ op_result s s' (concat (map wop_bytes ops)) ok /\ (last ops = Some WFlush -> ok = true -> held (fp s') = []).
Proof using H0.
  intros Hi Hrd Hops. revert s Hrd. induction Hops as [|op ops Hop Hops IH]; intros s Hrd; cbn [write_ops map concat].
  - exists s, true. split; [done|]. split; [split; [done|by rewrite app_nil_r]|done].
  - destruct (write_op_spec s op Hi Hrd Hop) as (s1 & ok & -> & [Hrd1 Hr] & Hfl). cbn [mbind option_bind]. destruct ok.
    + destruct (IH s1 Hrd1) as (s' & ok & E & [Hrd' Hr'] & Hfl'). exists s', ok. split; [exact E|]. split.
      * split; [done|]. rewrite Hr, <- app_assoc in Hr'. exact Hr'.
      * destruct ops as [|op' ops]; [|exact Hfl']. cbn in E. injection E as <- <-. cbn [last]. intros [= ->]. by apply Hfl.
    + exists s1, false. split; [done|]. split; [|done]. split; [done|]. destruct Hr as (H1 & H2 & H3 & H4). split; [done|]. split; [done|]. split; [done|].
      rewrite app_assoc. by apply prefix_app_r.
Qed.
End writing_ops.

Lemma ready_held {D} `{Device D} (s : stream D) : ready s -> (flag s __SLBF = true -> NEWLINE ∉ held (fp s)) /\ (flag s __SNBF = true -> held (fp s) = []).
Proof.
  intros [[Hb Hw]|(_ & Hz & _)]; [|rewrite held_zero by done; split; [intros _; apply not_elem_of_nil|done]].
  pose proof (wb_one _ Hb) as H1. unfold w_ok in Hw. unfold flag. destruct (has (f_flags (fp s)) __SLBF) eqn:E1.
  - split; [tauto|]. intros E2. by rewrite H1 in E2.
  - split; [done|]. intros E2. rewrite E2 in Hw. apply held_zero, Hw.
Qed.
Lemma opened_writing {D} `{Device D} (d : D) : ready (opened __SWR d).
Proof. by right. Qed.

(** C24.  Writing to a stream is appending to a list, for streams that are fully buffered, line buffered
    or without a buffer, and whatever pieces the write function of the stream takes: as long as fputc,
    fwrite, fputs and fflush report success, what the device has got and what is in the buffer are
    together exactly the bytes given so far, in order; a line buffered stream holds no newline back, a
    stream without a buffer nothing, and after fflush everything is at the device.  An operation fails
    only when the device takes nothing; the error flag is then set, and what the device has got is the
    beginning of what was written.  No operation writes outside a buffer, and all of them end. *)
Theorem writing_refines_list {D} `{DeviceLaws D} info (d : D) ops :
  info_ok info -> Forall wop_ok ops ->
  let bytes := written d ++ concat (map wop_bytes ops) in
  exists s ok, write_ops info (opened __SWR d) ops = Some (s, ok) /\
    if ok : bool
    then written (dv s) ++ held (fp s) = bytes /\ (flag s __SLBF = true -> NEWLINE ∉ held (fp s)) /\ (flag s __SNBF = true -> held (fp s) = []) /\
      (last ops = Some WFlush -> written (dv s) = bytes)
    else device_stalls (D := D) /\ flag s __SERR = true /\ written (dv s) `prefix_of` bytes.
Proof.
  intros Hi Hops bytes. destruct (write_ops_spec info (opened __SWR d) ops Hi (opened_writing d) Hops) as (s & ok & E & [Hrd Hr] & Hfl).
  assert (total (opened __SWR d) = written d) as Et by (unfold total; cbn; by rewrite app_nil_r). rewrite Et in Hr. fold bytes in Hr.
  exists s, ok. split; [exact E|]. destruct ok; [|tauto]. destruct (ready_held s Hrd) as [H1 H2]. unfold total in Hr.
  split; [done|]. split; [done|]. split; [done|]. intros Hl. rewrite (Hfl Hl eq_refl), app_nil_r in Hr. exact Hr.
Qed.
(** A terminal with a buffer of four bytes that takes two at a time: "abcdef", newline, "g". *)
Lemma writing_refines_list_witness :
  exists s, write_ops (BufInfo 4 __SNPT true (Some [0; 0; 0; 0])) (opened __SWR (Chunked [] 1 [])) [WPuts [97; 98; 99; 100; 101; 102; 10]; WPutc 103] = Some (s, true) /\
    written (dv s) ++ held (fp s) = [97; 98; 99; 100; 101; 102; 10; 103] /\ held (fp s) = [103].
Proof.
  destruct (writing_refines_list (BufInfo 4 __SNPT true (Some [0; 0; 0; 0])) (Chunked [] 1 []) [WPuts [97; 98; 99; 100; 101; 102; 10]; WPutc 103]) as (s & ok & E & Hr).
  - split; [by right|]. split; [done|]. cbn. lia.
  - repeat constructor.
  - assert (ok = true) as -> by (vm_compute in E; injection E as _ <-; done). exists s. split; [exact E|]. split; [apply Hr|].
    vm_compute in E. injection E as <-. reflexivity.
Defined.

(** fpurge on a stream that reads leaves room to write in _w. *)
Example fpurge_while_reading :
  exists o s, fgetc small_buffer [] (opened __SRD (Chunked [97; 98] 5 [])) = Some (o, s, 97) /\
    flag (fpurge s).1 __SRD = true /\ f_w (fp (fpurge s).1) = 4.
Proof. do 2 eexists. split; [vm_compute; reflexivity|]. split; reflexivity. Qed.
