(* ===== verification/Fnmatch.v ===== *)
(** * Patterns of file names (libc/unistd/fnmatch.c)

    A pointer into the pattern or the string is the list of the characters from there on, with the
    NUL; [None] is a read behind it.  [prev] is the character before the string, if there is one
    behind stringstart.  char is unsigned, as on ARM. *)
From S2P Require Import Prelude Ctype CMem CString.
#[local] Open Scope Z_scope.

Definition FNM_NOMATCH : Z := 1.
Definition FNM_NOESCAPE : Z := 0x01.
Definition FNM_PATHNAME : Z := 0x02.
Definition FNM_PERIOD : Z := 0x04.
Definition FNM_LEADING_DIR : Z := 0x08.
Definition FNM_CASEFOLD : Z := 0x10.
Definition EOS : Z := 0.
Definition SLASH : Z := 47.
Definition DOT : Z := 46.
Definition STAR : Z := 42.
Definition BACKSLASH : Z := 92.
(** flags & m *)
Definition fl (flags m : Z) : bool := negb (Z.land flags m =? 0).

(** *p++ *)
Definition next (p : list Z) : option (Z * list Z) := match p with [] => None | c :: p => Some (c, p) end.

(** ** rangematch *)
Inductive range_result : Type := RANGE_MATCH (newp : list Z) | RANGE_NOMATCH | RANGE_ERROR.

Definition foldc (flags c : Z) : option Z := if fl flags FNM_CASEFOLD then u8 <$> tolower (u8 c) else Some c.
Fixpoint range_loop (fuel : nat) (flags test : Z) (negate ok : bool) (c : Z) (pattern : list Z) : option range_result :=
  match fuel with
  | O => None
  | S fuel =>
      '(c, pattern) ← (if (c =? BACKSLASH) && negb (fl flags FNM_NOESCAPE) then next pattern else Some (c, pattern));
      if c =? EOS then Some RANGE_ERROR
      else if (c =? SLASH) && fl flags FNM_PATHNAME then Some RANGE_NOMATCH
      else
        c ← foldc flags c;
        d ← hd_error pattern;
        c2 ← (if d =? 45 then hd_error (tail pattern) else Some EOS);
        if (d =? 45) && negb (c2 =? EOS) && negb (c2 =? 93) then
          let pattern := drop 2 pattern in
          '(c2, pattern) ← (if (c2 =? BACKSLASH) && negb (fl flags FNM_NOESCAPE) then next pattern else Some (c2, pattern));
          if c2 =? EOS then Some RANGE_ERROR
          else
            c2 ← foldc flags c2;
            let ok := ok || ((c <=? test) && (test <=? c2)) in
            '(c, pattern) ← next pattern;
            if c =? 93 then Some (if Bool.eqb ok negate then RANGE_NOMATCH else RANGE_MATCH pattern)
            else range_loop fuel flags test negate ok c pattern
        else
          let ok := ok || (c =? test) in
          '(c, pattern) ← next pattern;
          if c =? 93 then Some (if Bool.eqb ok negate then RANGE_NOMATCH else RANGE_MATCH pattern)
          else range_loop fuel flags test negate ok c pattern
  end.
Definition rangematch (pattern : list Z) (test flags : Z) : option range_result :=
  c ← hd_error pattern;
  let negate := (c =? 33) || (c =? 94) in
  let pattern := if negate then tail pattern else pattern in
  test ← foldc flags test;
  '(c, pattern) ← next pattern;
  range_loop (S (length pattern)) flags test negate false c pattern.

(** ** fnmatch *)

(** A period that has to be matched by itself. *)
Definition leading_period (flags : Z) (prev : option Z) (c : Z) : bool :=
  (c =? DOT) && fl flags FNM_PERIOD &&
  match prev with None => true | Some d => fl flags FNM_PATHNAME && (d =? SLASH) end.

(** while (c == '*') c = *++pattern *)
Fixpoint skip_stars (pattern : list Z) : option (list Z) :=
  match pattern with
  | [] => None
  | c :: p => if c =? STAR then skip_stars p else Some pattern
  end.
(** strchr(string, '/'), with the character before it *)
Fixpoint find_slash (prev : option Z) (string : list Z) : option (option (option Z * list Z)) :=
  match string with
  | [] => None
  | c :: s => if c =? SLASH then Some (Some (prev, string)) else if c =? EOS then Some None else find_slash (Some c) s
  end.
(** while ((test = *string) != EOS) *)
Fixpoint star_loop (again : list Z -> option Z) (pathname : bool) (string : list Z) : option Z :=
  match string with
  | [] => None
  | test :: s =>
      if test =? EOS then Some FNM_NOMATCH
      else
        r ← again string;
        if r =? 0 then Some 0
        else if (test =? SLASH) && pathname then Some FNM_NOMATCH else star_loop again pathname s
  end.

Fixpoint fnmatch_loop (fuel : nat) (flags : Z) (pattern : list Z) (prev : option Z) (string : list Z) : option Z :=
  match fuel with
  | O => None
  | S fuel =>
      '(c, pattern) ← next pattern;
      s ← hd_error string;
      let forward pattern := fnmatch_loop fuel flags pattern (Some s) (tail string) in
      let normal c pattern :=
        lc ← tolower (u8 c);
        ls ← tolower (u8 s);
        if negb (c =? s) && negb (fl flags FNM_CASEFOLD && (lc =? ls)) then Some FNM_NOMATCH
        else forward pattern in
      if c =? EOS then
        Some (if fl flags FNM_LEADING_DIR && (s =? SLASH) then 0 else if s =? EOS then 0 else FNM_NOMATCH)
      else if c =? 63 then
        if s =? EOS then Some FNM_NOMATCH
        else if (s =? SLASH) && fl flags FNM_PATHNAME then Some FNM_NOMATCH
        else if leading_period flags prev s then Some FNM_NOMATCH
        else forward pattern
      else if c =? STAR then
        pattern ← skip_stars pattern;
        c ← hd_error pattern;
        if leading_period flags prev s then Some FNM_NOMATCH
        else if c =? EOS then
          if fl flags FNM_PATHNAME then
            slash ← find_slash prev string;
            Some (if fl flags FNM_LEADING_DIR || match slash with None => true | Some _ => false end then 0 else FNM_NOMATCH)
          else Some 0
        else if (c =? SLASH) && fl flags FNM_PATHNAME then
          slash ← find_slash prev string;
          match slash with
          | None => Some FNM_NOMATCH
          | Some (prev, string) => fnmatch_loop fuel flags pattern prev string
          end
        else
          star_loop (fnmatch_loop fuel (Z.ldiff flags FNM_PERIOD) pattern None) (fl flags FNM_PATHNAME) string
      else if c =? 91 then
        if s =? EOS then Some FNM_NOMATCH
        else if (s =? SLASH) && fl flags FNM_PATHNAME then Some FNM_NOMATCH
        else if leading_period flags prev s then Some FNM_NOMATCH
        else
          r ← rangematch pattern s flags;
          match r with
          | RANGE_ERROR => normal c pattern
          | RANGE_MATCH newp => forward newp
          | RANGE_NOMATCH => Some FNM_NOMATCH
          end
      else if (c =? BACKSLASH) && negb (fl flags FNM_NOESCAPE) then
        '(e, pattern') ← next pattern;
        if e =? EOS then normal BACKSLASH pattern else normal e pattern'
      else normal c pattern
  end.
Definition fnmatch (pattern string : list Z) (flags : Z) : option Z := fnmatch_loop (length pattern) flags pattern None string.

(** ** Patterns as lists of items

    The reference: a pattern is read into items, once, and a relation says which strings they match. *)
Record opts : Type := Opts { o_noescape : bool; o_pathname : bool; o_leading_dir : bool; o_casefold : bool }.
Definition opts_of (flags : Z) : opts :=
  Opts (fl flags FNM_NOESCAPE) (fl flags FNM_PATHNAME) (fl flags FNM_LEADING_DIR) (fl flags FNM_CASEFOLD).

(** [ILit] has a mark for a character behind a backslash; [INever] is a set with a slash in it. *)
Inductive item : Type := IAny | IStar | ISet (neg : bool) (rs : list (Z * Z)) | INever | ILit (quoted : bool) (c : Z).

Section reference.
Context (o : opts).

Definition folded (c : Z) : Z := if o_casefold o then lower c else c.
Definition unquote (p : list Z) : option (Z * list Z) :=
  match p with
  | [] => None
  | c :: p => if (c =? BACKSLASH) && negb (o_noescape o) then match p with [] => None | e :: p => Some (e, p) end else Some (c, p)
  end.

Inductive set_parse : Type := SBad | SSlash | SSet (rs : list (Z * Z)) (rest : list Z).
(** One element of a set, a range or a character, that begins with [c]. *)
Definition set_element (c : Z) (p : list Z) : option (Z * Z * list Z) :=
  match p with
  | d :: c2 :: _ =>
      if (d =? 45) && negb (c2 =? 93)
      then match unquote (tail p) with None => None | Some (c2, p) => Some (folded c, folded c2, p) end
      else Some (folded c, folded c, p)
  | _ => Some (folded c, folded c, p)
  end.
Fixpoint set_items (fuel : nat) (p : list Z) : set_parse :=
  match fuel with
  | O => SBad
  | S fuel =>
      match unquote p with
      | None => SBad
      | Some (c, p) =>
          if (c =? SLASH) && o_pathname o then SSlash
          else
            match set_element c p with
            | None => SBad
            | Some (lo, hi, p) =>
                match p with
                | [] => SBad
                | d :: rest =>
                    if d =? 93 then SSet [(lo, hi)] rest
                    else match set_items fuel p with SSet rs rest => SSet ((lo, hi) :: rs) rest | r => r end
                end
            end
      end
  end.
Definition is_neg (p : list Z) : bool := match p with c :: _ => (c =? 33) || (c =? 94) | [] => false end.
Definition set_of (p : list Z) : set_parse := let p := if is_neg p then tail p else p in set_items (S (length p)) p.

Fixpoint drop_stars (p : list Z) : list Z := match p with c :: p' => if c =? STAR then drop_stars p' else p | [] => [] end.
Fixpoint items (fuel : nat) (p : list Z) : list item :=
  match fuel, p with
  | S fuel, c :: p =>
      if c =? 63 then IAny :: items fuel p
      else if c =? STAR then IStar :: items fuel (drop_stars p)
      else if c =? 91 then
        match set_of p with
        | SBad => ILit false c :: items fuel p
        | SSlash => [INever]
        | SSet rs rest => ISet (is_neg p) rs :: items fuel rest
        end
      else if (c =? BACKSLASH) && negb (o_noescape o) then
        match p with [] => [ILit true BACKSLASH] | e :: p => ILit true e :: items fuel p end
      else ILit false c :: items fuel p
  | _, _ => []
  end.

(** A period that only a period matches: at the beginning, or behind a slash. *)
Definition hidden (per : bool) (prev : option Z) (c : Z) : bool :=
  per && (c =? DOT) && match prev with None => true | Some d => o_pathname o && (d =? SLASH) end.
Definition in_set (c : Z) (rs : list (Z * Z)) : bool := existsb (fun r => (r.1 <=? c) && (c <=? r.2)) rs.
Definition item_ok (per : bool) (prev : option Z) (i : item) (c : Z) : bool :=
  match i with
  | IAny => negb ((c =? SLASH) && o_pathname o) && negb (hidden per prev c)
  | ISet neg rs => negb ((c =? SLASH) && o_pathname o) && negb (hidden per prev c) && negb (Bool.eqb (in_set (folded c) rs) neg)
  | ILit _ x => folded x =? folded c
  | IStar | INever => false
  end.
Definition prev_after (prev : option Z) (a : list Z) : option Z := match last a with Some c => Some c | None => prev end.

(** The rule of fnmatch.h and of POSIX.2: [prev] is the character before the string,
    and a hidden period is hidden from every item of the pattern but a period. *)
Inductive pattern_matches (per : bool) : option Z -> list item -> list Z -> Prop :=
| pm_end prev : pattern_matches per prev [] []
| pm_dir prev s : o_leading_dir o = true -> pattern_matches per prev [] (SLASH :: s)
| pm_one prev i its c s : item_ok per prev i c = true -> pattern_matches per (Some c) its s -> pattern_matches per prev (i :: its) (c :: s)
| pm_star prev its a b :
    (forall c s, a ++ b = c :: s -> hidden per prev c = false) -> (o_pathname o = true -> SLASH ∉ a) ->
    pattern_matches per (prev_after prev a) its b -> pattern_matches per prev (IStar :: its) (a ++ b).

(** ** What the loop accepts

    Behind a star it hides periods only when a slash follows the star. *)
Definition per_after (per : bool) (its : list item) : bool :=
  match its with ILit false c :: _ => (c =? SLASH) && o_pathname o && per | _ => false end.
Inductive matches : bool -> option Z -> list item -> list Z -> Prop :=
| m_end per prev : matches per prev [] []
| m_dir per prev s : o_leading_dir o = true -> matches per prev [] (SLASH :: s)
| m_one per prev i its c s : item_ok per prev i c = true -> matches per (Some c) its s -> matches per prev (i :: its) (c :: s)
| m_star per prev its a b :
    (forall c s, a ++ b = c :: s -> hidden per prev c = false) -> (o_pathname o = true -> SLASH ∉ a) ->
    matches (per_after per its) (prev_after prev a) its b -> matches per prev (IStar :: its) (a ++ b).

Lemma hidden_no prev c : hidden false prev c = false.
Proof. done. Qed.
Lemma per_after_no its : per_after false its = false.
Proof. destruct its as [|[]]; try done. destruct quoted; [done|]. cbn. by rewrite andb_false_r. Qed.
(** Where no period is hidden, the character before the string does not matter. *)
Lemma matches_prev prev prev' its s : matches false prev its s -> matches false prev' its s.
Proof.
  intros H. remember false as per eqn:Ep. revert prev'. induction H as [| |per prev i its c s Hi H IH|per prev its a b H1 H2 H IH]; intros prev'; subst.
  - constructor.
  - by constructor.
  - constructor; [|by apply IH]. destruct i; done.
  - rewrite per_after_no in *. constructor; [done|done|]. rewrite per_after_no. by apply IH.
Qed.
(** Every match by the rule is one of the loop. *)
Lemma hidden_weaker per per' prev c : (per' = true -> per = true) -> hidden per prev c = false -> hidden per' prev c = false.
Proof. intros Hp. unfold hidden. destruct per'; [by rewrite Hp|done]. Qed.
Lemma item_ok_weaker per per' prev i c : (hidden per prev c = false -> hidden per' prev c = false) ->
  item_ok per prev i c = true -> item_ok per' prev i c = true.
Proof.
  intros Hh. destruct i; cbn; try done; rewrite ?andb_true_iff, ?negb_true_iff; intros H; naive_solver.
Qed.
Lemma per_after_weaker per its : per_after per its = true -> per = true.
Proof. destruct its as [|[| | | |[] c] its]; try done. cbn. rewrite !andb_true_iff. tauto. Qed.

Lemma pattern_matches_loop per per' prev its s :
  pattern_matches per prev its s -> (per' = true -> per = true) -> matches per' prev its s.
Proof.
  intros H. revert per'. induction H as [| |prev i its c s Hi H IH|prev its a b H1 H2 H IH]; intros per' Hp.
  - constructor.
  - by constructor.
  - constructor; [|by apply IH]. eapply item_ok_weaker; [|exact Hi]. by apply hidden_weaker.
  - constructor; [intros c s E; apply (hidden_weaker _ _ _ _ Hp); by apply (H1 c s)|done|]. apply IH. intros Ha. by apply Hp, (per_after_weaker _ its).
Qed.

Lemma pattern_item per prev i its s : pattern_matches per prev (i :: its) s -> i <> IStar ->
  exists c s', s = c :: s' /\ item_ok per prev i c = true /\ pattern_matches per (Some c) its s'.
Proof. intros H Hi. inversion H; subst; [eauto|done]. Qed.
Lemma pattern_star per prev its s : pattern_matches per prev (IStar :: its) s ->
  exists a b, s = a ++ b /\ (forall c s', s = c :: s' -> hidden per prev c = false) /\ (o_pathname o = true -> SLASH ∉ a) /\
    pattern_matches per (prev_after prev a) its b.
Proof. intros H. inversion H; subst; [done|]. eauto 10. Qed.

(** Stars at the end of the pattern or before a slash. *)
Fixpoint stars_plain (its : list item) : bool :=
  match its with
  | [] => true
  | IStar :: r =>
      match r with [] => true | ILit false c :: _ => (c =? SLASH) && o_pathname o && stars_plain r | _ => false end
  | _ :: r => stars_plain r
  end.
(** The loop loses no hidden period. *)
Definition period_kept (per : bool) (its : list item) : bool := negb (per && o_pathname o) || stars_plain its.

Lemma hidden_inside per d c : o_pathname o = false -> hidden per (Some d) c = false.
Proof. intros E. unfold hidden. by rewrite E, andb_false_r. Qed.

(** Without FNM_PATHNAME only the first character of the string can be hidden. *)
Lemma matches_first per per' prev its s :
  o_pathname o = false -> matches per' prev its s -> (forall c s', s = c :: s' -> hidden per prev c = false) \/ per' = per ->
  pattern_matches per prev its s.
Proof.
  intros Epn H. induction H as [| |per' prev i its c s Hi H IH|per' prev its a b H1 H2 H IH]; intros Hf.
  - constructor.
  - by constructor.
  - constructor; [|apply IH; left; intros; by apply hidden_inside].
    destruct Hf as [Hf| ->]; [|done]. eapply item_ok_weaker; [|exact Hi]. intros _. by eapply Hf.
  - assert (forall c s, a ++ b = c :: s -> hidden per prev c = false) as Hf' by (destruct Hf as [Hf| ->]; [exact Hf|exact H1]).
    constructor; [done|done|]. apply IH. left. intros c s' ->. destruct a as [|x a _] using rev_ind; [by apply (Hf' c s')|].
    unfold prev_after. rewrite last_snoc. by apply hidden_inside.
Qed.

Lemma matches_nil_any per per' prev s : matches per' prev [] s -> pattern_matches per prev [] s.
Proof. intros H. inversion H; subst; by constructor. Qed.

Lemma matches_kept per prev its s : period_kept per its = true -> matches per prev its s -> pattern_matches per prev its s.
Proof.
  unfold period_kept. intros Hk H. destruct (o_pathname o) eqn:Epn; [|by apply (matches_first per per); [..|right]].
  rewrite andb_true_r in Hk. induction H as [| |per prev i its c s Hi H IH|per prev its a b H1 H2 H IH].
  - constructor.
  - by constructor.
  - constructor; [done|]. apply IH. destruct per; [|done]. cbn in *. destruct i; try done.
  - constructor; [done|done|]. destruct per; [|rewrite per_after_no in *; by apply IH]. cbn in Hk.
    destruct its as [|[| | | |[] c] its]; try done; [by eapply matches_nil_any|].
    rewrite Epn, andb_true_r in Hk. cbn in Hk. apply andb_true_iff in Hk as [Hc Hk].
    assert (per_after true (ILit false c :: its) = true) as Ea by (cbn; by rewrite Hc, Epn).
    rewrite Ea in *. by apply IH.
Qed.

Lemma matches_one per prev i its s :
  i <> IStar -> matches per prev (i :: its) s <-> exists c s', s = c :: s' /\ item_ok per prev i c = true /\ matches per (Some c) its s'.
Proof.
  intros Hi. split.
  - intros H. inversion H; subst; [|done]. by do 2 eexists.
  - intros (c & s' & -> & H1 & H2). by constructor.
Qed.
End reference.

Lemma fl_other flags m : Z.ldiff m FNM_PERIOD = m -> fl (Z.ldiff flags FNM_PERIOD) m = fl flags m.
Proof.
  intros E. unfold fl. f_equal. f_equal. apply Z.bits_inj'. intros n _. rewrite !Z.land_spec, Z.ldiff_spec.
  assert (Z.testbit m n = Z.testbit m n && negb (Z.testbit FNM_PERIOD n)) as Em by (by rewrite <- Z.ldiff_spec, E).
  destruct (Z.testbit flags n), (Z.testbit m n), (Z.testbit FNM_PERIOD n); done.
Qed.
Lemma opts_no_period flags : opts_of (Z.ldiff flags FNM_PERIOD) = opts_of flags.
Proof. unfold opts_of. by rewrite !fl_other by reflexivity. Qed.
Lemma fl_period flags : fl (Z.ldiff flags FNM_PERIOD) FNM_PERIOD = false.
Proof.
  unfold fl. apply negb_false_iff, Z.eqb_eq, Z.bits_inj'. intros n _. rewrite Z.land_spec, Z.ldiff_spec, Z.bits_0.
  destruct (Z.testbit flags n), (Z.testbit FNM_PERIOD n); done.
Qed.

(** ** Sets *)
Lemma fold_spec flags c : is_char c -> foldc flags c = Some (folded (opts_of flags) c).
Proof.
  intros Hc. unfold foldc, folded, opts_of. cbn. destruct (fl flags FNM_CASEFOLD); [|done]. rewrite u8_id by (by apply is_char_u8).
  rewrite tolower_spec by (by apply is_char_u8). cbn. f_equal. apply u8_id, is_char_u8, lower_char, Hc.
Qed.
Lemma next_cons c p : next (c :: p) = Some (c, p).
Proof. done. Qed.

(** Reading the next character of a set, quoted or not. *)
Lemma unquote_spec flags c p rest :
  Forall is_char (c :: p) ->
  (if (c =? BACKSLASH) && negb (fl flags FNM_NOESCAPE) then next (p ++ EOS :: rest) else Some (c, p ++ EOS :: rest)) =
  Some (match unquote (opts_of flags) (c :: p) with Some (e, p') => (e, p' ++ EOS :: rest) | None => (EOS, rest) end).
Proof. intros H. cbn. destruct ((c =? BACKSLASH) && _); [by destruct p|done]. Qed.
Lemma unquote_chars o p e p' : Forall is_char p -> unquote o p = Some (e, p') -> is_char e /\ Forall is_char p' /\ (length p' < length p)%nat.
Proof.
  intros H E. destruct H as [|c p Hc H]; [done|]. cbn in E. destruct (_ && _).
  - destruct H as [|e' p He H]; [done|]. injection E as -> ->. split; [done|]. split; [done|]. cbn. lia.
  - injection E as -> ->. split; [done|]. split; [done|]. cbn. lia.
Qed.
Lemma char_not_eos c : is_char c -> (c =? EOS) = false.
Proof. unfold is_char, EOS. intros. apply Z.eqb_neq. lia. Qed.

Definition range_answer (negate ok : bool) (test : Z) (rest : list Z) (r : set_parse) : range_result :=
  match r with
  | SBad => RANGE_ERROR
  | SSlash => RANGE_NOMATCH
  | SSet rs p => if Bool.eqb (ok || in_set test rs) negate then RANGE_NOMATCH else RANGE_MATCH (p ++ EOS :: rest)
  end.
Lemma range_loop_spec fuel flags test negate ok q rest :
  Forall is_char q -> (length q < fuel)%nat ->
  (exists c p, next (q ++ EOS :: rest) = Some (c, p) /\ range_loop fuel flags test negate ok c p = Some (range_answer negate ok test rest (set_items (opts_of flags) fuel q))).
Proof.
  revert ok q. induction fuel as [|fuel IH]; intros ok q Hq Hf; [lia|].
  destruct q as [|c q]; [exists EOS, rest; done|]. exists c, (q ++ EOS :: rest). split; [done|]. cbn [range_loop set_items].
  rewrite unquote_spec by done. cbn [mbind option_bind]. destruct (unquote (opts_of flags) (c :: q)) as [[e p]|] eqn:Eu; [|done].
  destruct (unquote_chars _ _ _ _ Hq Eu) as (He & Hp & Hl). rewrite char_not_eos by done.
  change (o_pathname (opts_of flags)) with (fl flags FNM_PATHNAME). destruct ((e =? SLASH) && fl flags FNM_PATHNAME); [done|].
  rewrite fold_spec by done. cbn [mbind option_bind].
  assert (forall lo hi p', Forall is_char p' -> (length p' < S (length q))%nat -> forall ok',
    ok' = ok || ((lo <=? test) && (test <=? hi)) ->
    ('(c, pattern) ← next (p' ++ EOS :: rest);
      if c =? 93 then Some (if Bool.eqb ok' negate then RANGE_NOMATCH else RANGE_MATCH pattern)
      else range_loop fuel flags test negate ok' c pattern) =
    Some (range_answer negate ok test rest
      match p' with
      | [] => SBad
      | d :: rest0 => if d =? 93 then SSet [(lo, hi)] rest0 else match set_items (opts_of flags) fuel p' with SSet rs r => SSet ((lo, hi) :: rs) r | r => r end
      end)) as Hend.
  { intros lo hi p' Hp' Hl' ok' Eok. destruct (IH ok' p' Hp') as (c' & t & En & Er); [cbn in Hf; lia|]. rewrite En. cbn [mbind option_bind].
    destruct p' as [|d p']; cbn in En; injection En as <- <-.
    - cbn [Z.eqb EOS]. rewrite Er. by destruct fuel.
    - destruct (Z.eqb_spec d 93) as [->|Hne]; [cbn; by rewrite orb_false_r, Eok|]. rewrite Er. f_equal.
      destruct (set_items (opts_of flags) fuel (d :: p')); cbn; try done. by rewrite Eok, orb_assoc. }
  assert (hd_error (p ++ EOS :: rest) = Some (match p with d :: _ => d | [] => EOS end)) as -> by (by destruct p). cbn [mbind option_bind].
  assert (forall lo, ok || (lo =? test) = ok || ((lo <=? test) && (test <=? lo))) as Es.
  { intros lo. f_equal. destruct (Z.eqb_spec lo test) as [->|]; [by rewrite !Z.leb_refl|]. symmetry. apply andb_false_iff. rewrite !Z.leb_gt. lia. }
  set (fe := folded (opts_of flags) e). destruct p as [|d [|c2 p]].
  - cbn [Z.eqb EOS andb mbind option_bind]. by apply (Hend fe fe []); [|cbn; lia|].
  - assert ((if d =? 45 then hd_error (tail ([d] ++ EOS :: rest)) else Some EOS) = Some EOS) as -> by (by destruct (d =? 45)). cbn [mbind option_bind].
    rewrite andb_false_r. cbn [andb]. apply (Hend fe fe [d]); [done|cbn in Hl |- *; lia|done].
  - assert (exists x, (if d =? 45 then hd_error (tail ((d :: c2 :: p) ++ EOS :: rest)) else Some EOS) = Some x /\
      (d =? 45) && negb (x =? EOS) && negb (x =? 93) = (d =? 45) && negb (c2 =? 93) /\ (d =? 45 = true -> x = c2)) as (x & -> & Ec2 & Hx).
    { destruct (d =? 45); [|by exists EOS]. exists c2. cbn. split; [done|]. split; [|done]. inversion Hp as [|? ? ? Hp1]; subst. inversion Hp1; subst. by rewrite char_not_eos. }
    cbn [mbind option_bind set_element]. rewrite Ec2. clear Ec2. destruct ((d =? 45) && negb (c2 =? 93)) eqn:Ec; [|by apply (Hend fe fe (d :: c2 :: p)); [|cbn in Hl |- *; lia|]].
    apply andb_true_iff in Ec as [Ed _]. rewrite (Hx Ed). clear Hx x. cbn [drop app tail].
    inversion Hp as [|? ? ? Hp1]; subst. rewrite drop_0. change (c2 :: p ++ EOS :: rest) with (c2 :: (p ++ EOS :: rest)). rewrite unquote_spec by done. cbn [mbind option_bind]. destruct (unquote (opts_of flags) (c2 :: p)) as [[e2 p']|] eqn:Eu2; [|done].
    destruct (unquote_chars _ _ _ _ Hp1 Eu2) as (He2 & Hp2 & Hl2). rewrite char_not_eos by done. rewrite fold_spec by done. cbn [mbind option_bind].
    apply Hend; [done|cbn in *; lia|done].
Qed.
Lemma set_element_chars o c p lo hi p' : Forall is_char p -> set_element o c p = Some (lo, hi, p') -> Forall is_char p' /\ (length p' <= length p)%nat.
Proof.
  intros Hp Es. unfold set_element in Es. destruct p as [|d [|c2 p]]; try by (injection Es as <- <- <-). destruct ((d =? 45) && _); [|by injection Es as <- <- <-].
  cbn [tail] in Es. inversion Hp as [|? ? ? Hp1]; subst. destruct (unquote o (c2 :: p)) as [[e2 p2]|] eqn:Eu2; [|done]. injection Es as <- <- <-.
  destruct (unquote_chars _ _ _ _ Hp1 Eu2) as (_ & ? & Hl2). split; [done|]. cbn in *. lia.
Qed.
Lemma set_items_fuel o n m q : Forall is_char q -> (length q < n)%nat -> (length q < m)%nat -> set_items o n q = set_items o m q.
Proof.
  revert m q. induction n as [|n IH]; intros [|m] q Hq Hn Hm; try lia. cbn [set_items]. destruct (unquote o q) as [[c p]|] eqn:Eu; [|done].
  destruct (unquote_chars _ _ _ _ Hq Eu) as (_ & Hp & Hl). destruct (_ && _); [done|].
  destruct (set_element o c p) as [[[lo hi] p']|] eqn:Es; [|done].
  destruct (set_element_chars _ _ _ _ _ _ Hp Es) as [Hp' Hl'].
  destruct p' as [|d rest]; [done|]. destruct (d =? 93); [done|]. by rewrite (IH m) by (done || lia).
Qed.
Lemma rangematch_spec flags p test rest :
  Forall is_char p -> is_char test ->
  rangematch (p ++ EOS :: rest) test flags = Some (range_answer (is_neg p) false (folded (opts_of flags) test) rest (set_of (opts_of flags) p)).
Proof.
  intros Hp Ht. unfold rangematch, set_of.
  assert (hd_error (p ++ EOS :: rest) = Some (match p with d :: _ => d | [] => EOS end)) as -> by (by destruct p). cbn [mbind option_bind].
  assert ((match p with d :: _ => d | [] => EOS end =? 33) || (match p with d :: _ => d | [] => EOS end =? 94) = is_neg p) as -> by (by destruct p).
  rewrite fold_spec by done. cbn [mbind option_bind]. set (q := if is_neg p then tail p else p).
  assert ((if is_neg p then tail (p ++ EOS :: rest) else p ++ EOS :: rest) = q ++ EOS :: rest) as -> by (unfold q; destruct p; [done|]; by destruct (is_neg _)).
  assert (Forall is_char q) as Hq by (unfold q; destruct (is_neg p); [by apply Forall_tail|done]).
  destruct (next (q ++ EOS :: rest)) as [[c r]|] eqn:En; [|by destruct q]. cbn [mbind option_bind].
  assert (range_answer (is_neg p) false (folded (opts_of flags) test) rest (set_items (opts_of flags) (S (length q)) q) =
    range_answer (is_neg p) false (folded (opts_of flags) test) rest (set_items (opts_of flags) (S (length r)) q)) as ->.
  { f_equal. apply set_items_fuel; [done|lia|]. destruct q; cbn in En; injection En as <- <-; [cbn; lia|]. rewrite length_app. cbn. lia. }
  destruct (range_loop_spec (S (length r)) flags (folded (opts_of flags) test) (is_neg p) false q rest Hq) as (c' & r' & En' & E).
  { destruct q; cbn in En; injection En as <- <-; cbn [length]; [lia|]. rewrite length_app. cbn. lia. }
  rewrite En in En'. injection En' as <- <-. exact E.
Qed.

(** ** The items of a pattern *)
Definition items_of (o : opts) (p : list Z) : list item := items o (length p) p.

Lemma drop_stars_chars p : Forall is_char p -> Forall is_char (drop_stars p) /\ (length (drop_stars p) <= length p)%nat.
Proof. induction 1 as [|c p Hc Hp [IH1 IH2]]; [done|]. cbn. destruct (c =? STAR); [split; [done|lia]|split; [by constructor|done]]. Qed.
Lemma set_items_rest o n q rs rest : Forall is_char q -> set_items o n q = SSet rs rest -> Forall is_char rest /\ (length rest < length q)%nat.
Proof.
  revert q rs. induction n as [|n IH]; intros q rs Hq; [done|]. cbn [set_items]. destruct (unquote o q) as [[c p]|] eqn:Eu; [|done].
  destruct (unquote_chars _ _ _ _ Hq Eu) as (_ & Hp & Hl). destruct (_ && _); [done|].
  destruct (set_element o c p) as [[[lo hi] p']|] eqn:Es; [|done].
  destruct (set_element_chars _ _ _ _ _ _ Hp Es) as [Hp' Hl'].
  destruct p' as [|d p']; [done|]. inversion Hp'; subst. cbn in Hl'. destruct (d =? 93); [intros [= <- <-]; split; [done|lia]|].
  destruct (set_items o n (d :: p')) as [| |rs' rest'] eqn:E; try done. intros [= <- <-]. destruct (IH _ _ Hp' E) as [? ?]. cbn in *. split; [done|lia].
Qed.
Lemma set_of_rest o p rs rest : Forall is_char p -> set_of o p = SSet rs rest -> Forall is_char rest /\ (length rest < length p)%nat.
Proof.
  intros Hp. unfold set_of. destruct p as [|c p]; [done|]. cbn [tail]. destruct (is_neg (c :: p)); intros E.
  - inversion Hp; subst. destruct (set_items_rest _ _ _ _ _ ltac:(eassumption) E). cbn. split; [done|lia].
  - by apply (set_items_rest _ _ _ _ _ Hp E).
Qed.
Lemma items_fuel o n m p : Forall is_char p -> (length p <= n)%nat -> (length p <= m)%nat -> items o n p = items o m p.
Proof.
  revert m p. induction n as [|n IH]; intros [|m] p Hp Hn Hm; destruct Hp as [|c p Hc Hp]; cbn in Hn, Hm; try lia; try done. cbn [items].
  destruct (drop_stars_chars p Hp) as [Hs1 Hs2]. rewrite (IH m p), (IH m (drop_stars p)) by (done || lia).
  destruct (set_of o p) as [| |rs rest] eqn:Es.
  - destruct Hp; [done|]. cbn in *. by rewrite (IH m) by (done || lia).
  - destruct Hp; [done|]. cbn in *. by rewrite (IH m) by (done || lia).
  - destruct (set_of_rest _ _ _ _ Hp Es). rewrite (IH m rest) by (done || lia). destruct Hp; [done|]. cbn in *. by rewrite (IH m l) by (done || lia).
Qed.
Lemma items_of_cons o c p :
  Forall is_char p ->
  items_of o (c :: p) =
    if c =? 63 then IAny :: items_of o p
    else if c =? STAR then IStar :: items_of o (drop_stars p)
    else if c =? 91 then
      match set_of o p with
      | SBad => ILit false c :: items_of o p
      | SSlash => [INever]
      | SSet rs rest => ISet (is_neg p) rs :: items_of o rest
      end
    else if (c =? BACKSLASH) && negb (o_noescape o) then
      match p with [] => [ILit true BACKSLASH] | e :: p => ILit true e :: items_of o p end
    else ILit false c :: items_of o p.
Proof.
  intros Hp. unfold items_of. cbn [length items]. destruct (drop_stars_chars p Hp) as [Hs1 Hs2].
  rewrite (items_fuel o (length p) (length (drop_stars p)) (drop_stars p)) by (done || lia).
  assert (match p with [] => [ILit true BACKSLASH] | e :: p' => ILit true e :: items o (length p) p' end =
    match p with [] => [ILit true BACKSLASH] | e :: p' => ILit true e :: items o (length p') p' end) as ->.
  { destruct Hp; [done|]. f_equal. apply items_fuel; [done|cbn; lia|done]. }
  destruct (set_of o p) as [| |rs rest] eqn:Es; [done|done|]. destruct (set_of_rest _ _ _ _ Hp Es).
  by rewrite (items_fuel o (length p) (length rest) rest) by (done || lia).
Qed.

(** ** The loop *)
Definition answers (r : option Z) (P : Prop) : Prop := exists v, r = Some v /\ (v = 0 \/ v = FNM_NOMATCH) /\ (v = 0 <-> P).
Lemma answers_no (P : Prop) : ~ P -> answers (Some FNM_NOMATCH) P.
Proof. intros H. exists FNM_NOMATCH. split; [done|]. split; [by right|]. by split. Qed.
Lemma answers_yes (P : Prop) : P -> answers (Some 0) P.
Proof. intros H. exists 0. split; [done|]. split; [by left|]. by split. Qed.
Lemma answers_iff r (P Q : Prop) : (P <-> Q) -> answers r P -> answers r Q.
Proof. intros H (v & E & Hv & Hi). exists v. split; [done|]. split; [done|]. by rewrite Hi. Qed.
Lemma answers_if (b : bool) (P : Prop) : (b = true <-> P) -> answers (Some (if b then 0 else FNM_NOMATCH)) P.
Proof. intros H. destruct b; [apply answers_yes|apply answers_no]; rewrite <- H; done. Qed.

Lemma leading_hidden flags prev c : leading_period flags prev c = hidden (opts_of flags) (fl flags FNM_PERIOD) prev c.
Proof. unfold leading_period, hidden. by rewrite (andb_comm (c =? DOT)). Qed.
Lemma head_eos s rest : hd_error (s ++ EOS :: rest) = Some (match s with c :: _ => c | [] => EOS end).
Proof. by destruct s. Qed.
Lemma skip_stars_spec p rest : skip_stars (p ++ EOS :: rest) = Some (drop_stars p ++ EOS :: rest).
Proof. induction p as [|c p IH]; [done|]. cbn. by destruct (c =? STAR). Qed.
Lemma drop_stars_head p : match drop_stars p with c :: _ => c <> STAR | [] => True end.
Proof. induction p as [|c p IH]; [done|]. cbn. by destruct (Z.eqb_spec c STAR). Qed.
Lemma prev_after_cons prev c a : prev_after prev (c :: a) = prev_after (Some c) a.
Proof. unfold prev_after. rewrite last_cons. by destruct (last a). Qed.

Lemma find_slash_spec s prev rest :
  Forall is_char s ->
  (SLASH ∉ s /\ find_slash prev (s ++ EOS :: rest) = Some None) \/
  (exists a b, s = a ++ SLASH :: b /\ SLASH ∉ a /\ find_slash prev (s ++ EOS :: rest) = Some (Some (prev_after prev a, (SLASH :: b) ++ EOS :: rest))).
Proof.
  intros H. revert prev. induction H as [|c s Hc Hs IH]; intros prev; [left; split; [apply not_elem_of_nil|done]|]. cbn [app find_slash].
  destruct (Z.eqb_spec c SLASH) as [->|Hne]; [right; exists [], s; split; [done|]; split; [apply not_elem_of_nil|done]|].
  rewrite char_not_eos by done. destruct (IH (Some c)) as [[Hn ->]|(a & b & -> & Hn & ->)].
  - left. split; [|done]. rewrite not_elem_of_cons. done.
  - right. exists (c :: a), b. rewrite prev_after_cons. split; [done|]. split; [|done]. rewrite not_elem_of_cons. done.
Qed.
Lemma star_loop_spec again pathname P s rest :
  (forall b, Forall is_char b -> answers (again (b ++ EOS :: rest)) (P b)) -> Forall is_char s ->
  answers (star_loop again pathname (s ++ EOS :: rest)) (exists a b, s = a ++ b /\ b <> [] /\ (pathname = true -> SLASH ∉ a) /\ P b).
Proof.
  intros Ha H. induction H as [|c s Hc Hs IH].
  - apply answers_no. intros (a & b & E & Hb & _). by destruct a, b.
  - cbn [app star_loop]. rewrite char_not_eos by done. destruct (Ha (c :: s)) as (v & E & Hv & Hi); [by constructor|]. cbn [app] in E. rewrite E. cbn [mbind option_bind].
    destruct Hv as [->| ->]; cbn [Z.eqb FNM_NOMATCH].
    + apply answers_yes. exists [], (c :: s). split; [done|]. split; [done|]. split; [intros _; apply not_elem_of_nil|by apply Hi].
    + assert (~ P (c :: s)) as Hno by (by rewrite <- Hi). destruct (Z.eqb_spec c SLASH) as [->|Hne]; [destruct pathname|]; cbn [andb].
      * apply answers_no. intros ([|x a] & b & E' & _ & Hp & HP); cbn in E'; [by rewrite <- E' in HP|]. injection E' as <- _. destruct (Hp eq_refl). by left.
      * revert IH. apply answers_iff. split.
        -- intros (a & b & -> & Hb & Hp & HP). by exists (SLASH :: a), b.
        -- intros ([|x a] & b & E' & Hb & Hp & HP); cbn in E'; [by rewrite <- E' in HP|]. injection E' as <- ->. by exists a, b.
      * revert IH. apply answers_iff. split.
        -- intros (a & b & -> & Hb & Hp & HP). exists (c :: a), b. rewrite not_elem_of_cons. split; [done|]. split; [done|]. split; [|done]. intros Ep. split; [done|by apply Hp].
        -- intros ([|x a] & b & E' & Hb & Hp & HP); cbn in E'; [by rewrite <- E' in HP|]. injection E' as <- ->. exists a, b. rewrite not_elem_of_cons in Hp. naive_solver.
Qed.

Section matching.
Context (o : opts).
Implicit Types (per : bool) (prev : option Z) (its : list item) (s : list Z).

Lemma matches_star per prev its s :
  matches o per prev (IStar :: its) s <->
  (forall c s', s = c :: s' -> hidden o per prev c = false) /\
  exists a b, s = a ++ b /\ (o_pathname o = true -> SLASH ∉ a) /\ matches o (per_after o per its) (prev_after prev a) its b.
Proof.
  split.
  - intros H. inversion H as [| |? ? ? ? ? ? Hi|? ? ? a b H1 H2 H3]; subst; [done|]. split; [done|]. by exists a, b.
  - intros (H1 & a & b & -> & H2 & H3). by constructor.
Qed.
Lemma matches_nil per prev s : matches o per prev [] s <-> s = [] \/ (o_leading_dir o = true /\ exists s', s = SLASH :: s').
Proof. split; [intros H; inversion H; subst; eauto|]. intros [-> |(H & s' & ->)]; by constructor. Qed.
Lemma not_matches_nil per prev i its : i <> IStar -> ~ matches o per prev (i :: its) [].
Proof. intros Hi. rewrite matches_one by done. intros (c & s' & ? & _). done. Qed.
Lemma answers_one r per prev i its s :
  i <> IStar -> (s = [] -> r = Some FNM_NOMATCH) ->
  (forall c s', s = c :: s' -> if item_ok o per prev i c then answers r (matches o per (Some c) its s') else r = Some FNM_NOMATCH) ->
  answers r (matches o per prev (i :: its) s).
Proof.
  intros Hi H1 H2. destruct s as [|c s']; [rewrite H1 by done; apply answers_no; by apply not_matches_nil|].
  specialize (H2 c s' eq_refl). destruct (item_ok o per prev i c) eqn:Ei.
  - revert H2. apply answers_iff. rewrite matches_one by done. split; [eauto 6|]. intros (? & ? & [= <- <-] & _ & ?). done.
  - subst r. apply answers_no. rewrite matches_one by done. intros (? & ? & [= <- <-] & ? & _). congruence.
Qed.
Lemma answers_one_inv r per prev i its c s :
  i <> IStar -> answers r (matches o per prev (i :: its) (c :: s)) ->
  if item_ok o per prev i c then answers r (matches o per (Some c) its s) else r = Some FNM_NOMATCH.
Proof.
  intros Hi H. destruct (item_ok o per prev i c) eqn:Ei.
  - revert H. apply answers_iff. rewrite matches_one by done. split; [|eauto 6]. intros (? & ? & [= <- <-] & _ & ?). done.
  - destruct H as (v & -> & [->| ->] & H); [|done]. pose proof (proj1 H eq_refl) as Hm. rewrite matches_one in Hm by done. destruct Hm as (? & ? & [= <- <-] & ? & _). congruence.
Qed.
Lemma items_head d q :
  Forall is_char q -> d <> STAR ->
  exists i its, items_of o (d :: q) = i :: its /\ i <> IStar /\ forall per, per_after o per (i :: its) = (d =? SLASH) && o_pathname o && per.
Proof.
  intros Hq Hd. rewrite items_of_cons by done. destruct (Z.eqb_spec d 63) as [->|]; [by do 2 eexists|].
  destruct (Z.eqb_spec d STAR); [done|]. destruct (Z.eqb_spec d 91) as [->|].
  { by destruct (set_of o q); do 2 eexists. }
  destruct ((d =? BACKSLASH) && _) eqn:Eb; [|by do 2 eexists]. apply andb_true_iff in Eb as [->%Z.eqb_eq _]. by destruct q; do 2 eexists.
Qed.
End matching.

Lemma char_not_nul c : is_char c -> c <> 0.
Proof. unfold is_char. lia. Qed.
Lemma lower_slash c : is_char c -> lower SLASH = lower c -> c = SLASH.
Proof. intros _. unfold SLASH, lower. cbn [Z.leb Z.compare Pos.compare Pos.compare_cont andb]. destruct (Z.leb_spec 65 c), (Z.leb_spec c 90); cbn [andb]; lia. Qed.
Lemma folded_bracket o c : folded o 91 = folded o c -> c = 91.
Proof.
  unfold folded. destruct (o_casefold o); [|done]. unfold lower at 1. cbn [Z.leb Z.compare Pos.compare Pos.compare_cont andb]. unfold lower.
  destruct (Z.leb_spec 65 c), (Z.leb_spec c 90); cbn [andb]; lia.
Qed.
(** Literal characters. *)
Lemma normal_spec flags prev quoted c s rest' (fwd : option Z -> list Z -> option Z) its :
  is_char c -> Forall is_char s ->
  (forall x s', s = x :: s' -> answers (fwd (Some x) (s' ++ EOS :: rest')) (matches (opts_of flags) (fl flags FNM_PERIOD) (Some x) its s')) ->
  let x := match s with x :: _ => x | [] => EOS end in
  answers (lc ← tolower (u8 c); ls ← tolower (u8 x);
           if negb (c =? x) && negb (fl flags FNM_CASEFOLD && (lc =? ls)) then Some FNM_NOMATCH else fwd (Some x) (tail (s ++ EOS :: rest')))
    (matches (opts_of flags) (fl flags FNM_PERIOD) prev (ILit quoted c :: its) s).
Proof.
  intros Hc Hs Hf x. rewrite (u8_id c), (tolower_spec c) by (by apply is_char_u8). cbn [mbind option_bind].
  apply answers_one; [done| |].
  - intros ->. unfold x. cbn [u8]. change (tolower (u8 EOS)) with (Some EOS). cbn [mbind option_bind]. rewrite char_not_eos by done.
    pose proof (lower_char c Hc) as Hl. rewrite char_not_eos by done. by rewrite andb_false_r.
  - intros y s' ->. inversion Hs; subst. unfold x. rewrite (u8_id y), (tolower_spec y) by (by apply is_char_u8). cbn [mbind option_bind].
    cbn [item_ok]. unfold folded. change (o_casefold (opts_of flags)) with (fl flags FNM_CASEFOLD).
    destruct (fl flags FNM_CASEFOLD); cbn [andb negb].
    + destruct (Z.eqb_spec (lower c) (lower y)) as [El|El]; cbn [negb]; [rewrite andb_false_r; by apply Hf|].
      destruct (Z.eqb_spec c y) as [->|]; [done|]. done.
    + destruct (Z.eqb_spec c y) as [->|]; cbn [negb andb]; [by apply Hf|done].
Qed.
(** ? and sets. *)
Lemma one_char flags prev i s (r : option Z) its :
  i <> IStar -> Forall is_char s ->
  (forall c s', s = c :: s' ->
     if item_ok (opts_of flags) (fl flags FNM_PERIOD) prev i c
     then answers r (matches (opts_of flags) (fl flags FNM_PERIOD) (Some c) its s')
     else negb ((c =? SLASH) && fl flags FNM_PATHNAME) && negb (hidden (opts_of flags) (fl flags FNM_PERIOD) prev c) = true -> r = Some FNM_NOMATCH) ->
  (forall c, item_ok (opts_of flags) (fl flags FNM_PERIOD) prev i c = true -> negb ((c =? SLASH) && fl flags FNM_PATHNAME) && negb (hidden (opts_of flags) (fl flags FNM_PERIOD) prev c) = true) ->
  let x := match s with x :: _ => x | [] => EOS end in
  answers (if x =? EOS then Some FNM_NOMATCH else if (x =? SLASH) && fl flags FNM_PATHNAME then Some FNM_NOMATCH
           else if leading_period flags prev x then Some FNM_NOMATCH else r)
    (matches (opts_of flags) (fl flags FNM_PERIOD) prev (i :: its) s).
Proof.
  intros Hi Hs H1 H2 x. apply answers_one; [done|by intros ->|]. intros c s' ->. specialize (H1 c s' eq_refl). specialize (H2 c). inversion Hs; subst.
  unfold x. rewrite char_not_eos by done. rewrite leading_hidden. revert H1 H2.
  destruct ((c =? SLASH) && _); cbn [negb andb].
  { intros _ H2. destruct (item_ok _ _ _ _ _); [by specialize (H2 eq_refl)|done]. }
  destruct (hidden _ _ _ _); cbn [negb].
  { intros _ H2. destruct (item_ok _ _ _ _ _); [by specialize (H2 eq_refl)|done]. }
  intros H1 _. destruct (item_ok _ _ _ _ _); [done|by apply H1].
Qed.

Lemma trailing_star flags prev s rest :
  Forall is_char s -> (forall c s', s = c :: s' -> hidden (opts_of flags) (fl flags FNM_PERIOD) prev c = false) ->
  answers
    (if fl flags FNM_PATHNAME then
       slash ← find_slash prev (s ++ EOS :: rest);
       Some (if fl flags FNM_LEADING_DIR || match slash with None => true | Some _ => false end then 0 else FNM_NOMATCH)
     else Some 0)
    (matches (opts_of flags) (fl flags FNM_PERIOD) prev [IStar] s).
Proof.
  intros Hs Hh. assert (forall P : Prop, (P <-> exists a b, s = a ++ b /\ (fl flags FNM_PATHNAME = true -> SLASH ∉ a) /\ (b = [] \/ fl flags FNM_LEADING_DIR = true /\ exists b', b = SLASH :: b')) ->
    (P <-> matches (opts_of flags) (fl flags FNM_PERIOD) prev [IStar] s)) as Hm.
  { intros P ->. rewrite matches_star. split.
    - intros (a & b & -> & H1 & H2). split; [done|]. exists a, b. by rewrite matches_nil.
    - intros (_ & a & b & -> & H1 & H2). exists a, b. by rewrite matches_nil in H2. }
  eapply answers_iff; [by apply Hm|]. clear Hm. destruct (fl flags FNM_PATHNAME).
  - destruct (find_slash_spec s prev rest Hs) as [[Hn ->]|(a & b & -> & Hn & ->)]; cbn [mbind option_bind].
    + rewrite orb_true_r. apply answers_yes. exists s, []. rewrite app_nil_r. split; [done|]. split; [done|by left].
    + rewrite orb_false_r. apply answers_if. split.
      * intros ->. exists a, (SLASH :: b). split; [done|]. split; [done|]. right. eauto.
      * intros (a' & b' & E & Ha & [->|[? _]]); [|done]. rewrite app_nil_r in E. subst a'. destruct (Ha eq_refl). rewrite elem_of_app. right. by left.
  - apply answers_yes. exists s, []. rewrite app_nil_r. split; [done|]. split; [done|by left].
Qed.
Lemma slash_split (a b a' b' : list Z) : a ++ SLASH :: b = a' ++ SLASH :: b' -> SLASH ∉ a -> SLASH ∉ a' -> a = a' /\ b = b'.
Proof.
  revert a'. induction a as [|x a IH]; intros [|y a'] E H1 H2; cbn in E.
  - by injection E.
  - injection E as <- _. destruct H2. by left.
  - injection E as -> _. destruct H1. by left.
  - injection E as -> E. rewrite not_elem_of_cons in H1, H2. by destruct (IH a' E (proj2 H1) (proj2 H2)) as [-> ->].
Qed.
Lemma star_before_slash flags prev s rest its (next_slash : option Z -> list Z -> option Z) :
  Forall is_char s -> fl flags FNM_PATHNAME = true ->
  (forall c s', s = c :: s' -> hidden (opts_of flags) (fl flags FNM_PERIOD) prev c = false) ->
  (forall prev b, Forall is_char b -> answers (next_slash prev (b ++ EOS :: rest)) (matches (opts_of flags) (fl flags FNM_PERIOD) prev (ILit false SLASH :: its) b)) ->
  answers
    (slash ← find_slash prev (s ++ EOS :: rest);
     match slash with None => Some FNM_NOMATCH | Some (prev, string) => next_slash prev string end)
    (matches (opts_of flags) (fl flags FNM_PERIOD) prev (IStar :: ILit false SLASH :: its) s).
Proof.
  intros Hs Hp Hh Hr.
  assert (forall a b, s = a ++ b -> forall per prev', matches (opts_of flags) per prev' (ILit false SLASH :: its) b -> exists b', b = SLASH :: b') as Hb.
  { intros a b -> per prev' Hm. rewrite matches_one in Hm by done. destruct Hm as (c & b' & -> & Hc & _). exists b'. f_equal.
    apply Forall_app in Hs as [_ Hs]. inversion Hs; subst. cbn in Hc. unfold folded in Hc. destruct (o_casefold _); apply Z.eqb_eq in Hc; [|done].
    by apply lower_slash. }
  assert (per_after (opts_of flags) (fl flags FNM_PERIOD) (ILit false SLASH :: its) = fl flags FNM_PERIOD) as Hper by (cbn; by rewrite Hp).
  destruct (find_slash_spec s prev rest Hs) as [[Hn ->]|(a & b & -> & Hn & ->)]; cbn [mbind option_bind].
  - apply answers_no. rewrite matches_star. intros (_ & a & b & Es & _ & Hm). destruct (Hb a b Es _ _ Hm) as [b' ->]. subst s. destruct Hn. rewrite elem_of_app. right. by left.
  - apply Forall_app in Hs as [Hsa Hsb]. eapply answers_iff; [|by apply Hr]. rewrite matches_star, Hper. split.
    + intros Hm. split; [done|]. by exists a, (SLASH :: b).
    + intros (_ & a' & b' & Es & Ha' & Hm). destruct (Hb a' b' Es _ _ Hm) as [b'' ->]. destruct (slash_split _ _ _ _ Es Hn (Ha' Hp)) as [-> ->]. done.
Qed.
Lemma star_general flags prev s d q rest (again : list Z -> option Z) :
  Forall is_char s -> Forall is_char q -> d <> STAR -> (d =? SLASH) && fl flags FNM_PATHNAME = false ->
  (forall c s', s = c :: s' -> hidden (opts_of flags) (fl flags FNM_PERIOD) prev c = false) ->
  (forall b, Forall is_char b -> answers (again (b ++ EOS :: rest)) (matches (opts_of flags) false None (items_of (opts_of flags) (d :: q)) b)) ->
  answers (star_loop again (fl flags FNM_PATHNAME) (s ++ EOS :: rest))
    (matches (opts_of flags) (fl flags FNM_PERIOD) prev (IStar :: items_of (opts_of flags) (d :: q)) s).
Proof.
  intros Hs Hq Hd Hn Hh Ha. eapply answers_iff; [|by apply star_loop_spec].
  destruct (items_head (opts_of flags) d q Hq Hd) as (i & its & -> & Hi & Hper). rewrite matches_star, Hper. cbn [o_pathname opts_of]. rewrite Hn. split.
  - intros (a & b & -> & Hb & Hp & Hm). split; [done|]. exists a, b. split; [done|]. split; [done|]. by apply matches_prev with None.
  - intros (_ & a & b & -> & Hp & Hm). exists a, b. split; [done|]. split; [|split; [done|by eapply matches_prev]].
    intros ->. by apply not_matches_nil in Hm.
Qed.

(** A set, or a bracket that is none. *)
Lemma bracket_spec flags prev p s rest (normal : option Z) (forward : list Z -> option Z) :
  Forall is_char p -> Forall is_char s ->
  (set_of (opts_of flags) p = SBad -> answers normal (matches (opts_of flags) (fl flags FNM_PERIOD) prev (ILit false 91 :: items_of (opts_of flags) p) s)) ->
  (forall rs q x s', set_of (opts_of flags) p = SSet rs q -> s = x :: s' ->
     answers (forward (q ++ EOS :: rest)) (matches (opts_of flags) (fl flags FNM_PERIOD) (Some x) (items_of (opts_of flags) q) s')) ->
  let x := match s with x :: _ => x | [] => EOS end in
  answers (if x =? EOS then Some FNM_NOMATCH else if (x =? SLASH) && fl flags FNM_PATHNAME then Some FNM_NOMATCH
           else if leading_period flags prev x then Some FNM_NOMATCH
           else r ← rangematch (p ++ EOS :: rest) x flags;
                match r with RANGE_ERROR => normal | RANGE_MATCH newp => forward newp | RANGE_NOMATCH => Some FNM_NOMATCH end)
    (matches (opts_of flags) (fl flags FNM_PERIOD) prev
       match set_of (opts_of flags) p with
       | SBad => ILit false 91 :: items_of (opts_of flags) p
       | SSlash => [INever]
       | SSet rs rest => ISet (is_neg p) rs :: items_of (opts_of flags) rest
       end s).
Proof.
  intros Hp Hs Hnormal Hfwd x. revert Hnormal Hfwd. destruct (set_of (opts_of flags) p) as [| |rs q] eqn:Eset; intros Hnormal Hfwd.
  - apply one_char; [done|done| |].
    + intros y s' Es. rewrite rangematch_spec, Eset; [|done|by subst s; inversion Hs]. cbn [mbind option_bind range_answer].
      specialize (Hnormal eq_refl). subst s. apply answers_one_inv in Hnormal; [|done].
      destruct (item_ok _ _ _ _ _); [exact Hnormal|intros _; exact Hnormal].
    + intros y Hx. cbn [item_ok] in Hx. apply Z.eqb_eq in Hx. assert (y = 91) as -> by (by apply folded_bracket in Hx).
      unfold hidden. cbn [Z.eqb SLASH DOT]. by rewrite andb_false_r.
  - apply one_char; [done|done| |].
    + intros y s' Es. rewrite rangematch_spec, Eset; [|done|by subst s; inversion Hs]. done.
    + done.
  - apply one_char; [done|done| |].
    + intros y s' Es. rewrite rangematch_spec, Eset; [|done|by subst s; inversion Hs]. cbn [mbind option_bind range_answer item_ok orb].
      change (o_pathname (opts_of flags)) with (fl flags FNM_PATHNAME). destruct (_ && negb (hidden _ _ _ _)); cbn [andb]; [|done].
      subst s. destruct (Bool.eqb _ _); cbn [negb]; [done|]. exact (Hfwd rs q y s' eq_refl eq_refl).
    + intros y. cbn [item_ok]. rewrite !andb_true_iff. tauto.
Qed.
(** The whole loop. *)
Lemma fnmatch_loop_spec fuel flags p prev s rest rest' :
  Forall is_char p -> Forall is_char s -> (length p < fuel)%nat ->
  answers (fnmatch_loop fuel flags (p ++ EOS :: rest) prev (s ++ EOS :: rest'))
    (matches (opts_of flags) (fl flags FNM_PERIOD) prev (items_of (opts_of flags) p) s).
Proof.
  revert flags p prev s. induction fuel as [|fuel IH]; intros flags p prev s Hp Hs Hf; [lia|].
  cbn [fnmatch_loop]. rewrite (head_eos s). destruct Hp as [|c p Hc Hp].
  { cbn [app next mbind option_bind Z.eqb EOS]. destruct Hs as [|x s Hx Hs]; [|].
    - cbn [Z.eqb SLASH EOS]. rewrite andb_false_r. apply answers_yes. constructor.
    - rewrite char_not_eos by done. apply answers_if. rewrite matches_nil, andb_true_iff, Z.eqb_eq. cbn [o_leading_dir opts_of]. split.
      + intros [? ->]. right. eauto.
      + intros [?|(? & s' & [= -> _])]; done. }
  cbn [length] in Hf. cbn [app next mbind option_bind]. rewrite char_not_eos by done. rewrite items_of_cons by done.
  assert (forall q x s', s = x :: s' -> Forall is_char q -> (length q <= length p)%nat ->
    answers (fnmatch_loop fuel flags (q ++ EOS :: rest) (Some (match s with c :: _ => c | [] => EOS end)) (tail (s ++ EOS :: rest')))
      (matches (opts_of flags) (fl flags FNM_PERIOD) (Some x) (items_of (opts_of flags) q) s')) as Hfwd.
  { intros q x s' -> Hq Hl. inversion Hs; subst. apply IH; [done|done|lia]. }
  assert (forall quoted e q, is_char e -> Forall is_char q -> (length q <= length p)%nat ->
    answers (lc ← tolower (u8 e); ls ← tolower (u8 (match s with c :: _ => c | [] => EOS end));
      if negb (e =? (match s with c :: _ => c | [] => EOS end)) && negb (fl flags FNM_CASEFOLD && (lc =? ls)) then Some FNM_NOMATCH
      else fnmatch_loop fuel flags (q ++ EOS :: rest) (Some (match s with c :: _ => c | [] => EOS end)) (tail (s ++ EOS :: rest')))
    (matches (opts_of flags) (fl flags FNM_PERIOD) prev (ILit quoted e :: items_of (opts_of flags) q) s)) as Hnormal.
  { intros quoted e q He Hq Hl. apply (normal_spec flags prev quoted e s rest' (fnmatch_loop fuel flags (q ++ EOS :: rest))); [done|done|].
    intros x s' ->. inversion Hs; subst. apply IH; [done|done|lia]. }
  destruct (c =? 63).
  { apply one_char; [done|done| |].
    - intros x s' Es. cbn [item_ok]. change (o_pathname (opts_of flags)) with (fl flags FNM_PATHNAME).
      destruct (_ && _); [by apply Hfwd|done].
    - intros x. cbn [item_ok]. done. }
  destruct (c =? STAR).
  { rewrite skip_stars_spec. cbn [mbind option_bind]. rewrite head_eos. cbn [mbind option_bind].
    destruct (drop_stars_chars p Hp) as [Hq Hl]. pose proof (drop_stars_head p) as Hd. set (q := drop_stars p) in *. clearbody q.
    destruct (leading_period _ _ _) eqn:Elp.
    { rewrite leading_hidden in Elp. apply answers_no. rewrite matches_star. intros [Hh _]. destruct s as [|x s].
      - unfold hidden in Elp. by rewrite andb_false_r in Elp.
      - by rewrite (Hh x s eq_refl) in Elp. }
    rewrite leading_hidden in Elp.
    assert (forall x s', s = x :: s' -> hidden (opts_of flags) (fl flags FNM_PERIOD) prev x = false) as Hh by (by intros x s' ->).
    clear Elp. destruct q as [|d q]; [by apply trailing_star|]. inversion Hq as [|? ? Hdc Hq']; subst. rewrite char_not_eos by done.
    destruct ((d =? SLASH) && fl flags FNM_PATHNAME) eqn:Esl.
    - apply andb_true_iff in Esl as [->%Z.eqb_eq Epn]. rewrite items_of_cons by done. cbn [Z.eqb SLASH STAR BACKSLASH andb].
      apply star_before_slash; [done|done|done|]. intros prev' b Hb. specialize (IH flags (SLASH :: q) prev' b Hq Hb ltac:(lia)).
      rewrite items_of_cons in IH by done. exact IH.
    - apply star_general; [done|done|done|done|done|]. intros b Hb.
      specialize (IH (Z.ldiff flags FNM_PERIOD) (d :: q) None b Hq Hb ltac:(lia)). by rewrite opts_no_period, fl_period in IH. }
  destruct (c =? 91) eqn:Ec.
  { apply Z.eqb_eq in Ec as ->. apply (bracket_spec flags prev p s rest _ (fun newp => fnmatch_loop fuel flags newp _ _)); [done|done| |].
    - intros _. by apply Hnormal.
    - intros rs q x s' Eset Es. destruct (set_of_rest _ _ _ _ Hp Eset) as [Hq Hl]. apply (Hfwd q x s' Es Hq). lia. }
  destruct ((c =? BACKSLASH) && _) eqn:Eb.
  - destruct p as [|e p]; cbn [app next mbind option_bind].
    + apply (Hnormal true BACKSLASH []); done.
    + inversion Hp; subst. rewrite char_not_eos by done. apply Hnormal; [done|done|cbn; lia].
  - by apply Hnormal.
Qed.

(** C25.  fnmatch answers for every pattern, every string and all flags, 0 or FNM_NOMATCH.  It answers 0
    for every string that the pattern matches, and for no other, unless FNM_PATHNAME and FNM_PERIOD are
    both set and a star of the pattern is followed by something else than a slash: behind such a star the
    call for the rest of the pattern drops FNM_PERIOD, and a wildcard may match a period at the beginning
    of a component, against the rule. *)
Theorem fnmatch_correct pattern string rest rest' flags :
  Forall is_char pattern -> Forall is_char string ->
  let o := opts_of flags in
  let its := items_of o pattern in
  exists v, fnmatch (pattern ++ EOS :: rest) (string ++ EOS :: rest') flags = Some v /\ (v = 0 \/ v = FNM_NOMATCH) /\
    (pattern_matches o (fl flags FNM_PERIOD) None its string -> v = 0) /\
    (v = 0 -> negb (fl flags FNM_PERIOD && fl flags FNM_PATHNAME) || stars_plain o its = true ->
     pattern_matches o (fl flags FNM_PERIOD) None its string).
Proof.
  intros Hp Hs o its. destruct (fnmatch_loop_spec (length (pattern ++ EOS :: rest)) flags pattern None string rest rest') as (v & E & Hv & Hm);
    [done|done|rewrite length_app; cbn; lia|]. exists v. split_and!; [exact E|exact Hv| |].
  - intros H. apply Hm. by eapply pattern_matches_loop.
  - intros H0 Hk. apply matches_kept; [exact Hk|by apply Hm].
Qed.

(** "m*[!0-9].c" *)
Definition pattern_m : list Z := [109; 42; 91; 33; 48; 45; 57; 93; 46; 99].
Lemma fnmatch_correct_witness :
  fnmatch (pattern_m ++ EOS :: []) ([109; 97; 105; 110; 46; 99] ++ EOS :: []) FNM_PATHNAME = Some 0 /\
  pattern_matches (opts_of FNM_PATHNAME) false None (items_of (opts_of FNM_PATHNAME) pattern_m) [109; 97; 105; 110; 46; 99].
Proof.
  destruct (fnmatch_correct pattern_m [109; 97; 105; 110; 46; 99] [] [] FNM_PATHNAME) as (v & E & _ & _ & H); [repeat constructor; done..|].
  assert (v = 0) as -> by (vm_compute in E; congruence). split; [exact E|]. by apply H.
Defined.
Example fnmatch_main : fnmatch (pattern_m ++ [EOS]) [109; 97; 105; 110; 46; 99; EOS] FNM_PATHNAME = Some 0.
Proof. reflexivity. Qed.
Example fnmatch_main1 : fnmatch (pattern_m ++ [EOS]) [109; 97; 49; 46; 99; EOS] FNM_PATHNAME = Some FNM_NOMATCH.
Proof. reflexivity. Qed.
(** "a/*" does not match "a/.b", "*/*" neither, but "*a/*" does: the call for the rest of the pattern drops FNM_PERIOD. *)
Example star_forgets_period :
  let o := opts_of (Z.lor FNM_PATHNAME FNM_PERIOD) in
  fnmatch [97; SLASH; STAR; EOS] [97; SLASH; DOT; 98; EOS] (Z.lor FNM_PATHNAME FNM_PERIOD) = Some FNM_NOMATCH /\
  fnmatch [STAR; SLASH; STAR; EOS] [97; SLASH; DOT; 98; EOS] (Z.lor FNM_PATHNAME FNM_PERIOD) = Some FNM_NOMATCH /\
  fnmatch [STAR; 97; SLASH; STAR; EOS] [97; 97; SLASH; DOT; 98; EOS] (Z.lor FNM_PATHNAME FNM_PERIOD) = Some 0 /\
  ~ pattern_matches o true None (items_of o [STAR; 97; SLASH; STAR]) [97; 97; SLASH; DOT; 98].
Proof.
  cbn zeta. split_and!; [reflexivity..|]. intros H.
  apply pattern_star in H as (a & b & E & _ & _ & H).
  apply pattern_item in H as (c & s & -> & Hc & H); [|done]. apply pattern_item in H as (d & s' & -> & Hd & H); [|done].
  apply pattern_star in H as (a' & b' & -> & Hh & _).
  destruct a as [|x [|y [|z [|? [|? [|? ?]]]]]]; cbn in E; simplify_eq; try (vm_compute in Hc, Hd; discriminate).
  by specialize (Hh DOT [98] ltac:(done)).
Qed.
