(* ===== verification/Base64.v ===== *)
(** * Base 64 (libc/netbsd/net/base64.c)

    [target] is the memory from the pointer on; what a function writes outside it is [None].  The answer
    [None] inside is -1.  The pointers are not NULL, which the functions assert. *)
From S2P Require Import Prelude Ctype CMem CString.
#[local] Open Scope Z_scope.

Definition Base64 : list Z := seqZ 65 26 ++ seqZ 97 26 ++ seqZ 48 10 ++ [43; 47].
Definition Pad64 : Z := 61.

(** ** b64_ntop *)
Definition output0 (i0 : Z) : Z := Z.shiftr i0 2.
Definition output1 (i0 i1 : Z) : Z := u8 (Z.shiftl (Z.land i0 0x03) 4 + Z.shiftr i1 4).
Definition output2 (i1 i2 : Z) : Z := u8 (Z.shiftl (Z.land i1 0x0f) 2 + Z.shiftr i2 6).
Definition output3 (i2 : Z) : Z := Z.land i2 0x3f.
(** target[datalength++] = Base64[o] *)
Definition put_digit (target : cmem) (datalength : nat) (o : Z) : option cmem := c ← Base64 !! Z.to_nat o; st target datalength c.

Definition ntop_end (target : cmem) (targsize datalength : nat) : option (cmem * option nat) :=
  if (targsize <=? datalength)%nat then Some (target, None)
  else target ← st target datalength 0; Some (target, Some datalength).
(** if (0 != srclength) *)
Definition ntop_rest (src : list Z) (target : cmem) (targsize datalength : nat) : option (cmem * option nat) :=
  match src with
  | [] => ntop_end target targsize datalength
  | i0 :: src =>
      let i1 := match src with [] => 0 | i1 :: _ => i1 end in
      if (targsize <? datalength + 4)%nat then Some (target, None)
      else
        target ← put_digit target datalength (output0 i0);
        target ← put_digit target (datalength + 1) (output1 i0 i1);
        target ← (if (length src =? 0)%nat then st target (datalength + 2) Pad64
                  else put_digit target (datalength + 2) (output2 i1 0));
        target ← st target (datalength + 3) Pad64;
        ntop_end target targsize (datalength + 4)
  end.
Fixpoint ntop_loop (src : list Z) (target : cmem) (targsize datalength : nat) : option (cmem * option nat) :=
  match src with
  | i0 :: i1 :: i2 :: src =>
      if (targsize <? datalength + 4)%nat then Some (target, None)
      else
        target ← put_digit target datalength (output0 i0);
        target ← put_digit target (datalength + 1) (output1 i0 i1);
        target ← put_digit target (datalength + 2) (output2 i1 i2);
        target ← put_digit target (datalength + 3) (output3 i2);
        ntop_loop src target targsize (datalength + 4)
  | _ => ntop_rest src target targsize datalength
  end.
Definition b64_ntop (src : list Z) (target : cmem) (targsize : nat) : option (cmem * option nat) := ntop_loop src target targsize 0.

(** ** b64_pton *)

(** target[i] |= v *)
Definition or_byte (target : cmem) (i : nat) (v : Z) : option cmem := b ← target !! i; st target i (u8 (Z.lor b v)).

(** The digit [v] in the given state: the target, its index and the next state, or no room. *)
Definition pton_digit (target : cmem) (targsize tarindex state : nat) (v : Z) : option (cmem * option (nat * nat)) :=
  match state with
  | 0%nat =>
      if (targsize <=? tarindex)%nat then Some (target, None)
      else target ← st target tarindex (u8 (Z.shiftl v 2)); Some (target, Some (tarindex, 1%nat))
  | 1%nat =>
      if (targsize <=? tarindex + 1)%nat then Some (target, None)
      else
        target ← or_byte target tarindex (Z.shiftr v 4);
        target ← st target (tarindex + 1) (u8 (Z.shiftl (Z.land v 0x0f) 4));
        Some (target, Some ((tarindex + 1)%nat, 2%nat))
  | 2%nat =>
      if (targsize <=? tarindex + 1)%nat then Some (target, None)
      else
        target ← or_byte target tarindex (Z.shiftr v 2);
        target ← st target (tarindex + 1) (u8 (Z.shiftl (Z.land v 0x03) 6));
        Some (target, Some ((tarindex + 1)%nat, 3%nat))
  | 3%nat =>
      if (targsize <=? tarindex)%nat then Some (target, None)
      else target ← or_byte target tarindex v; Some (target, Some ((tarindex + 1)%nat, 0%nat))
  | _ => None
  end.

(** for (; ch != '\0'; ch = *src++) if (!isspace(ch)) break; *)
Fixpoint skip_spaces (src : list Z) : option (Z * list Z) :=
  match src with
  | [] => None
  | ch :: src => if ch =? 0 then Some (ch, src) else if isspace ch then skip_spaces src else Some (ch, src)
  end.
(** Only spaces are left, and the extra bits are 0. *)
Definition pton_last (src : list Z) (target : cmem) (tarindex : nat) : option (cmem * option nat) :=
  '(ch, _) ← skip_spaces src;
  if negb (ch =? 0) then Some (target, None)
  else b ← target !! tarindex; Some (target, if negb (b =? 0) then None else Some tarindex).
(** Behind the pad character. *)
Definition pton_pad (src : list Z) (target : cmem) (tarindex state : nat) : option (cmem * option nat) :=
  match state with
  | 2%nat =>
      '(ch, src) ← skip_spaces src;
      if negb (ch =? Pad64) then Some (target, None) else pton_last src target tarindex
  | 3%nat => pton_last src target tarindex
  | _ => Some (target, None)
  end.
Fixpoint pton_loop (src : list Z) (target : cmem) (targsize tarindex state : nat) : option (cmem * option nat) :=
  match src with
  | [] => None
  | ch :: src =>
      if ch =? 0 then Some (target, if (state =? 0)%nat then Some tarindex else None)
      else if isspace ch then pton_loop src target targsize tarindex state
      else if ch =? Pad64 then pton_pad src target tarindex state
      else
        pos ← strchr (Base64 ++ [0]) 0 ch;
        match pos with
        | None => Some (target, None)
        | Some pos =>
            '(target, r) ← pton_digit target targsize tarindex state (Z.of_nat pos);
            match r with
            | None => Some (target, None)
            | Some (tarindex, state) => pton_loop src target targsize tarindex state
            end
        end
  end.
Definition b64_pton (src : list Z) (target : cmem) (targsize : nat) : option (cmem * option nat) := pton_loop src target targsize 0 0.

(** "abc" is "YWJj", "ab" is "YWI=". *)
Example ntop_ab : b64_ntop [97; 98] (replicate 6 1) 6 = Some ([89; 87; 73; 61; 0; 1], Some 4%nat).
Proof. reflexivity. Qed.
Example pton_abc : b64_pton [89; 32; 87; 74; 106; 10; 0] (replicate 4 1) 3 = Some ([97; 98; 99; 1], Some 3%nat).
Proof. reflexivity. Qed.

(** ** The encoding *)
Definition digit64 (v : Z) : Z := nth (Z.to_nat v) Base64 0.
(** The digits of three bytes. *)
Definition quad (a b c : Z) : list Z := map digit64 [a / 4; a mod 4 * 16 + b / 16; b mod 16 * 4 + c / 64; c mod 64].
Fixpoint encode (bs : list Z) : list Z :=
  match bs with
  | [] => []
  | a :: [] => take 2 (quad a 0 0) ++ [Pad64; Pad64]
  | a :: b :: [] => take 3 (quad a b 0) ++ [Pad64]
  | a :: b :: c :: bs => quad a b c ++ encode bs
  end.

(** *** One digit at a time *)
Definition sextet (x : Z) : Prop := 0 <= x < 64.
Lemma sextet_elem x : sextet x -> x ∈ seqZ 0 64.
Proof. intros H. apply elem_of_seqZ. unfold sextet in H. lia. Qed.
Lemma all_sextets (P : Z -> bool) x : forallb P (seqZ 0 64) = true -> sextet x -> P x = true.
Proof. intros H Hx. rewrite forallb_forall in H. apply H. apply list_elem_of_In. by apply sextet_elem. Qed.
Lemma digit_char x : sextet x -> is_char (digit64 x) /\ isspace (digit64 x) = false /\ digit64 x <> Pad64.
Proof.
  intros Hx. pose proof (all_sextets (fun x => (1 <=? digit64 x) && (digit64 x <? 256) && negb (isspace (digit64 x)) && negb (digit64 x =? Pad64)) x ltac:(vm_compute; reflexivity) Hx) as H.
  cbn beta in H. rewrite !andb_true_iff, !negb_true_iff, Z.leb_le, Z.ltb_lt, Z.eqb_neq in H. unfold is_char. split; [lia|tauto].
Qed.
Lemma digit_inj x y : sextet x -> sextet y -> digit64 x = digit64 y -> x = y.
Proof.
  intros Hx Hy E. pose proof (all_sextets (fun x => forallb (fun y => negb (digit64 x =? digit64 y) || (x =? y)) (seqZ 0 64)) x ltac:(vm_compute; reflexivity) Hx) as H.
  apply (all_sextets _ _ H) in Hy. rewrite E, Z.eqb_refl in Hy. by apply Z.eqb_eq.
Qed.
(** What strchr finds in the alphabet. *)
Lemma strchr_digit64 x : sextet x -> strchr (Base64 ++ [0]) 0 (digit64 x) = Some (Some (Z.to_nat x)).
Proof.
  intros Hx. pose proof (all_sextets (fun x => match strchr (Base64 ++ [0]) 0 (digit64 x) with Some (Some i) => (i =? Z.to_nat x)%nat | _ => false end) x
    ltac:(vm_compute; reflexivity) Hx) as H.
  cbn beta in H. destruct (strchr _ _ _) as [[i|]|]; [|done|done]. by apply Nat.eqb_eq in H as ->.
Qed.
Lemma cstr_Base64 : cstr (Base64 ++ [0]) 0 Base64.
Proof. cbn. unfold is_char. repeat split; lia. Qed.
(** *** Bytes and digits *)
Definition byte3 (x0 x1 x2 x3 : Z) : list Z := [x0 * 4 + x1 / 16; x1 mod 16 * 16 + x2 / 4; x2 mod 4 * 64 + x3].
Lemma output_quad a b c :
  is_u8 a -> is_u8 b -> is_u8 c ->
  output0 a = a / 4 /\ output1 a b = a mod 4 * 16 + b / 16 /\ output2 b c = b mod 16 * 4 + c / 64 /\ output3 c = c mod 64.
Proof.
  unfold is_u8, output0, output1, output2, output3. intros Ha Hb Hc. rewrite !Z.shiftr_div_pow2, !Z.shiftl_mul_pow2 by lia.
  change 3 with (Z.ones 2). change 15 with (Z.ones 4). change 63 with (Z.ones 6). rewrite !Z.land_ones by lia.
  rewrite !u8_id; unfold is_u8; [done|..]; change (2 ^ 8) with 256 in *; change (2 ^ 6) with 64; change (2 ^ 2) with 4; change (2 ^ 4) with 16; Z.div_mod_to_equations; lia.
Qed.
Lemma sextets_of a b c :
  is_u8 a -> is_u8 b -> is_u8 c ->
  Forall sextet [a / 4; a mod 4 * 16 + b / 16; b mod 16 * 4 + c / 64; c mod 64].
Proof. unfold is_u8, sextet. intros Ha Hb Hc. repeat constructor; change (2 ^ 8) with 256 in *; Z.div_mod_to_equations; lia. Qed.
Lemma byte3_quad a b c :
  is_u8 a -> is_u8 b -> is_u8 c -> byte3 (a / 4) (a mod 4 * 16 + b / 16) (b mod 16 * 4 + c / 64) (c mod 64) = [a; b; c].
Proof. unfold is_u8, byte3. intros Ha Hb Hc. repeat f_equal; change (2 ^ 8) with 256 in *; Z.div_mod_to_equations; lia. Qed.
Lemma quad_byte3 x0 x1 x2 x3 :
  sextet x0 -> sextet x1 -> sextet x2 -> sextet x3 ->
  quad (x0 * 4 + x1 / 16) (x1 mod 16 * 16 + x2 / 4) (x2 mod 4 * 64 + x3) = map digit64 [x0; x1; x2; x3].
Proof. unfold sextet, quad. intros H0 H1 H2 H3. f_equal. repeat f_equal; Z.div_mod_to_equations; lia. Qed.
Lemma byte3_u8 x0 x1 x2 x3 : sextet x0 -> sextet x1 -> sextet x2 -> sextet x3 -> Forall is_u8 (byte3 x0 x1 x2 x3).
Proof. unfold is_u8, sextet, byte3. intros H0 H1 H2 H3. repeat constructor; change (2 ^ 8) with 256 in *; Z.div_mod_to_equations; lia. Qed.

(** How b64_pton puts a byte together. *)
Lemma join_bits x y k : sextet x -> sextet y -> k ∈ [2; 4; 6] -> u8 (Z.lor (u8 (Z.shiftl x k)) (Z.shiftr y (6 - k))) = u8 (x * 2 ^ k) + y / 2 ^ (6 - k).
Proof.
  intros Hx Hy Hk. assert (forallb (fun k => forallb (fun x => forallb (fun y => u8 (Z.lor (u8 (Z.shiftl x k)) (Z.shiftr y (6 - k))) =? u8 (x * 2 ^ k) + y / 2 ^ (6 - k)) (seqZ 0 64)) (seqZ 0 64)) [2; 4; 6] = true) as H by (vm_compute; reflexivity).
  rewrite forallb_forall in H. specialize (H k ltac:(by apply list_elem_of_In)). apply (all_sextets _ _ H) in Hx. apply (all_sextets _ _ Hx) in Hy. by apply Z.eqb_eq.
Qed.
Lemma join1 x y : sextet x -> sextet y -> u8 (Z.lor (u8 (x * 4)) (Z.shiftr y 4)) = x * 4 + y / 16.
Proof. intros Hx Hy. pose proof (join_bits x y 2 Hx Hy ltac:(set_solver)) as E. rewrite Z.shiftl_mul_pow2 in E by lia. rewrite (u8_id (x * 4)) in * by (unfold is_u8, sextet in *; lia). rewrite (u8_id (x * 2 ^ 2)) in E by (unfold is_u8, sextet in *; lia). exact E. Qed.
Lemma join2 x y : sextet x -> sextet y -> u8 (Z.lor (u8 (x * 16)) (Z.shiftr y 2)) = x mod 16 * 16 + y / 4.
Proof. intros Hx Hy. pose proof (join_bits x y 4 Hx Hy ltac:(set_solver)) as E. rewrite Z.shiftl_mul_pow2 in E by lia. change (2 ^ 4) with 16 in E. change (6 - 4) with 2 in E. rewrite E. f_equal. unfold u8. change (2 ^ 8) with (16 * 16). by rewrite Z.mul_mod_distr_r. Qed.
Lemma join3 x y : sextet x -> sextet y -> u8 (Z.lor (u8 (x * 64)) y) = x mod 4 * 64 + y.
Proof.
  intros Hx Hy. pose proof (join_bits x y 6 Hx Hy ltac:(set_solver)) as E. rewrite Z.shiftl_mul_pow2 in E by lia. change (2 ^ 6) with 64 in E. change (6 - 6) with 0 in E. rewrite Z.shiftr_0_r in E.
  rewrite E, Z.div_1_r. f_equal. unfold u8. change (2 ^ 8) with (4 * 64). by rewrite Z.mul_mod_distr_r.
Qed.
Lemma strchr_other ch : is_char ch -> (exists x, sextet x /\ ch = digit64 x) \/ strchr (Base64 ++ [0]) 0 ch = Some None /\ (forall x, sextet x -> digit64 x <> ch).
Proof.
  intros Hc. destruct (strchr_spec (Base64 ++ [0]) 0 Base64 ch) as ([i|] & E & Hi); [apply cstr_Base64| |].
  - left. destruct Hi as (Hl & Hi & _). change (length Base64) with 64%nat in Hl. destruct (Nat.eq_dec i 64) as [->|Hne].
    + injection Hi as <-. unfold is_char in Hc. lia.
    + rewrite lookup_app_l in Hi by (change (length Base64) with 64%nat; lia). exists (Z.of_nat i). unfold sextet. split; [lia|].
      unfold digit64. rewrite Nat2Z.id. symmetry. by apply nth_lookup_Some.
  - right. cbn [fmap option_fmap option_map] in E. split; [done|]. intros x Hx <-. rewrite strchr_digit64 in E by done. done.
Qed.
(** What the digits leave in memory, the last byte perhaps a part of one. *)
Definition partial (xs : list Z) : list Z :=
  match xs with
  | [x0] => [u8 (x0 * 4)]
  | [x0; x1] => [x0 * 4 + x1 / 16; u8 (x1 * 16)]
  | [x0; x1; x2] => [x0 * 4 + x1 / 16; x1 mod 16 * 16 + x2 / 4; u8 (x2 * 64)]
  | _ => []
  end.
(** The memory that decoding [bs] needs: one byte more when there is padding. *)
Definition padded (bs : list Z) : list Z := bs ++ (if (length bs mod 3 =? 0)%nat then [] else [0]).

Lemma st_snoc target bs v : (length bs < length target)%nat -> st (blit target 0 bs) (length bs) v = Some (blit target 0 (bs ++ [v])).
Proof. intros H. rewrite st_blit by (rewrite length_blit; lia). f_equal. rewrite <- blit_app by (cbn; lia). done. Qed.
Lemma or_last target bs b v :
  (length bs < length target)%nat -> or_byte (blit target 0 (bs ++ [b])) (length bs) v = Some (blit target 0 (bs ++ [u8 (Z.lor b v)])).
Proof.
  intros H. unfold or_byte. rewrite lookup_blit by (rewrite length_app; cbn; lia). cbn [Nat.leb andb]. rewrite length_app, Nat.sub_0_r.
  rewrite (proj2 (Nat.ltb_lt _ _)) by (cbn; lia). rewrite lookup_app_r, Nat.sub_diag by lia. cbn [lookup list_lookup mbind option_bind].
  rewrite st_blit by (rewrite length_blit; rewrite ?length_app; cbn; lia). f_equal. apply list_eq. intros i.
  rewrite !lookup_blit by (rewrite ?length_blit, ?length_app by (rewrite ?length_app; cbn; lia); cbn; lia). rewrite !length_app. cbn [length Nat.leb Nat.add].
  destruct (Nat.leb_spec (length bs) i), (Nat.ltb_spec i (length bs + 1)); cbn [andb]; try done; try lia.
  - replace i with (length bs) by lia. by rewrite Nat.sub_diag, Nat.sub_0_r, lookup_app_r, Nat.sub_diag by lia.
  - rewrite !lookup_app_l by lia. done.
Qed.

Lemma drop_blit n target bs : (length bs <= n)%nat -> drop n (blit target 0 bs) = drop n target.
Proof. intros H. unfold blit. rewrite take_0. cbn [app Nat.add]. rewrite drop_app_ge by lia. rewrite drop_drop. f_equal. lia. Qed.

Section decoding.
Context (target : cmem) (targsize : nat) (Ht : (targsize <= length target)%nat).

Lemma pton_digit_spec (done_ : list Z) xs x :
  Forall sextet (xs ++ [x]) -> (length xs < 4)%nat -> (length done_ + length (partial xs) <= targsize)%nat ->
  let tarindex := (length done_ + (length xs - 1))%nat in
  let need := match xs with [] | [_; _; _] => (tarindex + 1)%nat | _ => (tarindex + 2)%nat end in
  pton_digit (blit target 0 (done_ ++ partial xs)) targsize tarindex (length xs) x =
    if (targsize <? need)%nat then Some (blit target 0 (done_ ++ partial xs), None)
    else match xs with
         | [x0; x1; x2] => Some (blit target 0 (done_ ++ byte3 x0 x1 x2 x), Some ((length done_ + 3)%nat, 0%nat))
         | _ => Some (blit target 0 (done_ ++ partial (xs ++ [x])), Some ((length done_ + length xs)%nat, S (length xs)))
         end.
Proof using Ht.
  intros Hx Hl Hp. cbv zeta. assert (forall bs v, (length bs < targsize)%nat -> st (blit target 0 bs) (length bs) v = Some (blit target 0 (bs ++ [v]))) as Hst by (intros; apply st_snoc; lia).
  assert (forall bs b v, (length bs < targsize)%nat -> or_byte (blit target 0 (bs ++ [b])) (length bs) v = Some (blit target 0 (bs ++ [u8 (Z.lor b v)]))) as Hor by (intros; apply or_last; lia).
  assert (forall x, u8 (Z.shiftl (Z.land x 15) 4) = u8 (x * 16)) as Em4.
  { intros z. change 15 with (Z.ones 4). rewrite Z.land_ones, Z.shiftl_mul_pow2 by lia. unfold u8. change (2 ^ 4) with 16. change (2 ^ 8) with (16 * 16). rewrite !Z.mul_mod_distr_r by lia. by rewrite Z.mod_mod. }
  assert (forall x, u8 (Z.shiftl (Z.land x 3) 6) = u8 (x * 64)) as Em6.
  { intros z. change 3 with (Z.ones 2). rewrite Z.land_ones, Z.shiftl_mul_pow2 by lia. unfold u8. change (2 ^ 6) with 64. change (2 ^ 2) with 4. change (2 ^ 8) with (4 * 64). rewrite !Z.mul_mod_distr_r by lia. by rewrite Z.mod_mod. }
  destruct xs as [|x0 [|x1 [|x2 [|? ?]]]]; cbn [length app] in *; [| | | |lia]; cbn [pton_digit partial length Nat.sub Nat.add app] in *; rewrite ?app_nil_r, ?Nat.add_0_r.
  - destruct (Nat.leb_spec targsize (length done_)), (Nat.ltb_spec targsize (length done_ + 1)); try lia; [done|].
    rewrite Hst by lia. cbn [mbind option_bind]. by rewrite Z.shiftl_mul_pow2 by lia.
  - inversion Hx as [|? ? Hx0 Hx']; subst. inversion Hx' as [|? ? Hx1 _]; subst.
    destruct (Nat.leb_spec targsize (length done_ + 1)), (Nat.ltb_spec targsize (length done_ + 2)); try lia; [done|].
    rewrite Hor by lia. cbn [mbind option_bind]. rewrite Em4, join1 by done.
    pose proof (Hst (done_ ++ [x0 * 4 + x / 16]) (u8 (x * 16))) as E. rewrite length_app in E. cbn [length] in E. rewrite E by lia. cbn [mbind option_bind]. by rewrite <- app_assoc.
  - inversion Hx as [|? ? Hx0 Hx']; subst. inversion Hx' as [|? ? Hx1 Hx'']; subst. inversion Hx'' as [|? ? Hx2 _]; subst.
    destruct (Nat.leb_spec targsize (length done_ + 1 + 1)), (Nat.ltb_spec targsize (length done_ + 1 + 2)); try lia; [done|].
    pose proof (Hor (done_ ++ [x0 * 4 + x1 / 16]) (u8 (x1 * 16)) (Z.shiftr x 2)) as E. rewrite length_app, <- app_assoc in E. cbn [length app] in E. rewrite E by lia. clear E. cbn [mbind option_bind].
    rewrite Em6, join2 by done.
    pose proof (Hst (done_ ++ [x0 * 4 + x1 / 16; x1 mod 16 * 16 + x / 4]) (u8 (x * 64))) as E. rewrite length_app in E. cbn [length] in E.
    rewrite <- !app_assoc in *. cbn [app] in *. replace (length done_ + 1 + 1)%nat with (length done_ + 2)%nat by lia. rewrite E by lia. cbn [mbind option_bind]. done.
  - inversion Hx as [|? ? Hx0 Hx']; subst. inversion Hx' as [|? ? Hx1 Hx'']; subst. inversion Hx'' as [|? ? Hx2 Hx3]; subst. inversion Hx3 as [|? ? Hx4 _]; subst.
    destruct (Nat.leb_spec targsize (length done_ + 2)), (Nat.ltb_spec targsize (length done_ + 2 + 1)); try lia.
    pose proof (Hor (done_ ++ [x0 * 4 + x1 / 16; x1 mod 16 * 16 + x2 / 4]) (u8 (x2 * 64)) x) as E. rewrite length_app, <- app_assoc in E. cbn [length app] in E. rewrite E by lia. clear E. cbn [mbind option_bind].
    rewrite join3 by done. rewrite <- app_assoc. do 4 f_equal. lia.
Qed.

(** *** What the text decides *)
Definition strip (t : list Z) : list Z := filter (fun c => isspace c = false) t.
Definition decoded (text : list Z) (r : option (cmem * option nat)) : Prop :=
  exists target' res, r = Some (target', res) /\ drop targsize target' = drop targsize target /\
    match res with
    | Some n => exists bs, Forall is_u8 bs /\ encode bs = text /\ n = length bs /\ (length (padded bs) <= targsize)%nat /\ target' = blit target 0 (padded bs)
    | None => forall bs, Forall is_u8 bs -> encode bs = text -> (targsize < length (padded bs))%nat
    end.

Lemma list3_ind (P : list Z -> Prop) :
  P [] -> (forall a b c l, P l -> P (a :: b :: c :: l)) -> forall l, (length l mod 3 = 0)%nat -> P l.
Proof.
  intros H0 H3 l. remember (length l) as n eqn:En. revert l En. induction n as [n IH] using lt_wf_ind. intros [|a [|b [|c l]]] -> Hl; [done|done|done|].
  apply H3, (IH (length l)); [cbn; lia|done|]. rewrite <- (Nat.Div0.mod_add _ 1). replace (length l + 1 * 3)%nat with (length (a :: b :: c :: l)) by (cbn [length]; lia). exact Hl.
Qed.
Lemma encode_app bs bs' : (length bs mod 3 = 0)%nat -> encode (bs ++ bs') = encode bs ++ encode bs'.
Proof. intros H. revert bs H. apply list3_ind; [done|]. intros a b c l IH. cbn [app encode]. by rewrite IH, app_assoc. Qed.
Lemma quad_inj a b c a' b' c' : is_u8 a -> is_u8 b -> is_u8 c -> is_u8 a' -> is_u8 b' -> is_u8 c' -> quad a b c = quad a' b' c' -> [a; b; c] = [a'; b'; c'].
Proof.
  intros Ha Hb Hc Ha' Hb' Hc' E. pose proof (sextets_of a b c Ha Hb Hc) as H. pose proof (sextets_of a' b' c' Ha' Hb' Hc') as H'. unfold quad in E. cbn [map] in E.
  injection E as E0 E1 E2 E3. rewrite !Forall_cons in H, H'. destruct H as (? & ? & ? & ? & _), H' as (? & ? & ? & ? & _).
  apply digit_inj in E0, E1, E2, E3; try done. rewrite <- (byte3_quad a b c), <- (byte3_quad a' b' c') by done. congruence.
Qed.
Lemma digit_not_pad x : sextet x -> digit64 x <> Pad64.
Proof. intros H. by destruct (digit_char x H) as (_ & _ & ?). Qed.
Lemma quad_digits a b c : is_u8 a -> is_u8 b -> is_u8 c -> Forall (fun d => d <> Pad64) (quad a b c).
Proof. intros Ha Hb Hc. unfold quad. apply Forall_map. eapply Forall_impl; [by apply sextets_of|]. cbn. apply digit_not_pad. Qed.
(** What begins with whole groups begins with their bytes. *)
Lemma encode_prefix done_ bs w :
  (length done_ mod 3 = 0)%nat -> Forall is_u8 done_ -> Forall is_u8 bs -> encode bs = encode done_ ++ w -> exists bs', bs = done_ ++ bs' /\ encode bs' = w.
Proof.
  intros H. revert done_ H bs. refine (list3_ind _ _ _); [intros bs _ _ E; by exists bs|]. intros a b c l IH bs Hd Hbs E. cbn [encode] in E. rewrite <- app_assoc in E.
  rewrite !Forall_cons in Hd. destruct Hd as (Ha & Hb & Hc & Hl). pose proof (quad_digits a b c Ha Hb Hc) as Hn. unfold quad in Hn. cbn [map] in Hn. rewrite !Forall_cons in Hn.
  destruct bs as [|a' [|b' [|c' bs]]]; cbn [encode] in E.
  - done.
  - exfalso. unfold quad in E. cbn [map take app] in E. injection E as _ _ E _. symmetry in E. tauto.
  - exfalso. unfold quad in E. cbn [map take app] in E. injection E as _ _ _ E _. symmetry in E. tauto.
  - rewrite !Forall_cons in Hbs. destruct Hbs as (Ha' & Hb' & Hc' & Hbs). apply app_inj_1 in E as [E1 E2]; [|done].
    apply quad_inj in E1; try done. injection E1 as -> -> ->. destruct (IH bs Hl Hbs E2) as (bs' & -> & E'). by exists bs'.
Qed.

(** *** The text *)
Lemma strip_cons c t : strip (c :: t) = if isspace c then strip t else c :: strip t.
Proof. unfold strip. destruct (isspace c) eqn:E; [rewrite filter_cons_False by congruence|rewrite filter_cons_True by done]; done. Qed.
Lemma skip_spaces_spec t rest :
  Forall is_char t ->
  (strip t = [] /\ skip_spaces (t ++ 0 :: rest) = Some (0, rest)) \/
  (exists c t', Forall is_char (c :: t') /\ strip t = c :: strip t' /\ skip_spaces (t ++ 0 :: rest) = Some (c, t' ++ 0 :: rest)).
Proof.
  intros H. induction H as [|c t Hc Ht' IH]; [by left|]. cbn [app skip_spaces]. rewrite strip_cons, (proj2 (Z.eqb_neq c 0)) by (unfold is_char in Hc; lia).
  destruct (isspace c); [exact IH|]. right. exists c, t. split; [by constructor|done].
Qed.

Lemma blit_room bs : (length bs <= targsize)%nat -> drop targsize (blit target 0 bs) = drop targsize target.
Proof using Ht. intros H. by apply drop_blit. Qed.
Lemma fails text bs : (length bs <= targsize)%nat -> (forall bs, Forall is_u8 bs -> encode bs = text -> (targsize < length (padded bs))%nat) -> decoded text (Some (blit target 0 bs, None)).
Proof using Ht. intros Hb H. do 2 eexists. split; [done|]. split; [by apply blit_room|done]. Qed.
Lemma succeeds text bs n :
  Forall is_u8 bs -> encode bs = text -> n = length bs -> (length (padded bs) <= targsize)%nat -> decoded text (Some (blit target 0 (padded bs), Some n)).
Proof using Ht. intros H1 H2 -> H3. do 2 eexists. split; [done|]. split; [by apply blit_room|]. by exists bs. Qed.
Lemma padded_whole bs : (length bs mod 3 = 0)%nat -> padded bs = bs.
Proof. intros H. unfold padded. rewrite H. by rewrite app_nil_r. Qed.
Lemma padded_rest done_ bs : (length done_ mod 3 = 0)%nat -> length bs ∈ [1; 2]%nat -> padded (done_ ++ bs) = done_ ++ bs ++ [0].
Proof.
  intros Hd Hb. unfold padded. rewrite length_app, <- Nat.Div0.add_mod_idemp_l, Hd, Nat.add_0_l, app_assoc.
  assert ((length bs mod 3 =? 0)%nat = false) as -> by (repeat (apply list_elem_of_In in Hb; destruct Hb as [<-|Hb]; [done|]; apply list_elem_of_In in Hb); set_solver). done.
Qed.

(** A group of two or three digits with its padding: the whole bytes, and the bits that are left, which are 0 in an encoding. *)
Lemma padded_group xs pads :
  Forall sextet xs -> length xs = 2%nat /\ pads = [Pad64; Pad64] \/ length xs = 3%nat /\ pads = [Pad64] ->
  exists init last, partial xs = init ++ [last] /\ length init = (length xs - 1)%nat /\ Forall is_u8 init /\
    (last = 0 -> encode init = map digit64 xs ++ pads) /\
    (forall bs w, Forall is_u8 bs -> encode bs = map digit64 xs ++ pads ++ w -> last = 0 /\ w = []).
Proof.
  assert (is_u8 0) as H00 by done. intros Hx [[Hl ->]|[Hl ->]].
  - destruct xs as [|x0 [|x1 [|? ?]]]; try done. rewrite !Forall_cons in Hx. destruct Hx as (H0 & H1 & _).
    exists [x0 * 4 + x1 / 16], (u8 (x1 * 16)). split; [done|]. split; [done|].
    assert (is_u8 (x0 * 4 + x1 / 16)) as Hb by (unfold sextet, is_u8 in *; change (2 ^ 8) with 256; Z.div_mod_to_equations; lia).
    split; [by rewrite ?Forall_cons|]. split.
    + intros E. cbn [encode map app]. pose proof (quad_byte3 x0 x1 0 0 H0 H1 ltac:(done) ltac:(done)) as Eq. rewrite Z.div_0_l, Z.mod_0_l, Z.mul_0_l, !Z.add_0_r in Eq by lia.
      unfold u8 in E. change (2 ^ 8) with (16 * 16) in E. rewrite Z.mul_mod_distr_r in E by lia. rewrite E, ?Z.add_0_r in Eq. by rewrite Eq.
    + intros [|a [|b [|c bs]]] w Hbs E; cbn [encode] in E; [done|..]; rewrite ?Forall_cons in Hbs.
      * destruct Hbs as [Ha _]. pose proof (sextets_of a 0 0 Ha H00 H00) as Hs. rewrite !Forall_cons in Hs. destruct Hs as (? & ? & _). unfold quad in E. cbn [map take app] in E.
        injection E as E0 E1 <-. apply digit_inj in E0, E1; try done. split; [|done]. subst. unfold u8. rewrite Z.div_0_l, Z.add_0_r by lia. replace (a mod 4 * 16 * 16) with (a mod 4 * 2 ^ 8) by lia. by apply Z.mod_mul.
      * destruct Hbs as (Ha & Hb' & _). pose proof (quad_digits a b 0 Ha Hb' H00) as Hn. unfold quad in *. cbn [map take app] in *. injection E as _ _ E _. rewrite !Forall_cons in Hn. tauto.
      * destruct Hbs as (Ha & Hb' & Hc & _). pose proof (quad_digits a b c Ha Hb' Hc) as Hn. unfold quad in *. cbn [map take app] in *. injection E as _ _ E _. rewrite !Forall_cons in Hn. tauto.
  - destruct xs as [|x0 [|x1 [|x2 [|? ?]]]]; try done. rewrite !Forall_cons in Hx. destruct Hx as (H0 & H1 & H2 & _).
    exists [x0 * 4 + x1 / 16; x1 mod 16 * 16 + x2 / 4], (u8 (x2 * 64)). split; [done|]. split; [done|].
    assert (is_u8 (x0 * 4 + x1 / 16)) as Hb by (unfold sextet, is_u8 in *; change (2 ^ 8) with 256; Z.div_mod_to_equations; lia).
    assert (is_u8 (x1 mod 16 * 16 + x2 / 4)) as Hb2 by (unfold sextet, is_u8 in *; change (2 ^ 8) with 256; Z.div_mod_to_equations; lia).
    split; [by rewrite ?Forall_cons|]. split.
    + intros E. cbn [encode map app]. pose proof (quad_byte3 x0 x1 x2 0 H0 H1 H2 ltac:(done)) as Eq.
      unfold u8 in E. change (2 ^ 8) with (4 * 64) in E. rewrite Z.mul_mod_distr_r in E by lia. rewrite E, ?Z.add_0_r in Eq. by rewrite Eq.
    + intros [|a [|b [|c bs]]] w Hbs E; cbn [encode] in E; [done|..]; rewrite ?Forall_cons in Hbs.
      * exfalso. unfold quad in *. cbn [map take app] in *. injection E as _ _ E _. symmetry in E. by apply digit_not_pad in E.
      * destruct Hbs as (Ha & Hb' & _). pose proof (sextets_of a b 0 Ha Hb' H00) as Hs. rewrite !Forall_cons in Hs. destruct Hs as (? & ? & ? & _). unfold quad in E. cbn [map take app] in E.
        injection E as E0 E1 E2 <-. apply digit_inj in E0, E1, E2; try done. split; [|done]. subst. unfold u8. rewrite Z.div_0_l, Z.add_0_r by lia. replace (b mod 16 * 4 * 64) with (b mod 16 * 2 ^ 8) by lia. by apply Z.mod_mul.
      * destruct Hbs as (Ha & Hb' & Hc & _). pose proof (quad_digits a b c Ha Hb' Hc) as Hn. unfold quad in *. cbn [map take app] in *. injection E as _ _ _ E _. rewrite !Forall_cons in Hn. tauto.
Qed.
(** The text behind the pad characters, when two or three digits of a group were read. *)
Lemma pton_last_spec done_ xs pads t rest :
  (length done_ mod 3 = 0)%nat -> Forall is_u8 done_ -> Forall sextet xs -> Forall is_char t -> (length done_ + length (partial xs) <= targsize)%nat ->
  length xs = 2%nat /\ pads = [Pad64; Pad64] \/ length xs = 3%nat /\ pads = [Pad64] ->
  decoded (encode done_ ++ map digit64 xs ++ pads ++ strip t)
    (pton_last (t ++ 0 :: rest) (blit target 0 (done_ ++ partial xs)) (length done_ + (length xs - 1))).
Proof using Ht.
  intros Hm Hd Hx Hc Hl Hp. unfold pton_last.
  destruct (padded_group xs pads Hx Hp) as (init & last & Ep & Hi & Hb & H0 & Hn).
  rewrite Ep in *. rewrite length_app in Hl. cbn [length] in Hl.
  destruct (skip_spaces_spec t rest Hc) as [[Es ->]|(c & t' & Hct & Es & ->)]; cbn [mbind option_bind].
  - rewrite lookup_blit by (rewrite !length_app; cbn; lia). cbn [Nat.leb andb]. rewrite !length_app, Nat.sub_0_r, (proj2 (Nat.ltb_lt _ _)) by (cbn; lia).
    rewrite lookup_app_r by lia. replace (length done_ + (length xs - 1) - length done_)%nat with (length init) by lia.
    rewrite lookup_app_r, Nat.sub_diag by lia. cbn [lookup list_lookup mbind option_bind Z.eqb negb]. rewrite Es, app_nil_r. destruct (Z.eqb_spec last 0) as [->|Hne]; cbn [negb].
    + pose proof (H0 eq_refl) as He. rewrite <- (padded_rest done_ init) by (done || (rewrite Hi; destruct Hp as [[-> _]|[-> _]]; set_solver)).
      apply succeeds.
      * by apply Forall_app.
      * by rewrite encode_app, He.
      * rewrite length_app. lia.
      * rewrite padded_rest by (done || (rewrite Hi; destruct Hp as [[-> _]|[-> _]]; set_solver)). rewrite !length_app. cbn. lia.
    + apply fails; [rewrite !length_app; cbn; lia|]. intros bs Hbs E. exfalso. destruct (encode_prefix _ _ _ Hm Hd Hbs E) as (bs1 & -> & E1).
      apply Forall_app in Hbs as [_ Hbs]. rewrite <- (app_nil_r pads) in E1. by destruct (Hn bs1 [] Hbs E1).
  - rewrite (proj2 (Z.eqb_neq c 0)) by (inversion Hct; subst; unfold is_char in *; lia). cbn [negb].
    apply fails; [rewrite !length_app; cbn; lia|]. intros bs Hbs E. exfalso. destruct (encode_prefix _ _ _ Hm Hd Hbs E) as (bs1 & -> & E1).
    apply Forall_app in Hbs as [_ Hbs]. destruct (Hn bs1 _ Hbs E1) as [_ Hw]. by rewrite Es in Hw.
Qed.
Lemma encode_two bs : Forall is_u8 bs -> bs = [] \/ exists d0 d1 w, encode bs = d0 :: d1 :: w /\ d0 <> Pad64 /\ d1 <> Pad64.
Proof.
  assert (is_u8 0) as H00 by done. destruct bs as [|a [|b [|c bs]]]; rewrite ?Forall_cons; intros Hb; [by left|..]; right.
  - pose proof (quad_digits a 0 0 (proj1 Hb) H00 H00) as Hn. unfold quad in *. cbn [map] in Hn. rewrite !Forall_cons in Hn. do 3 eexists. split; [done|tauto].
  - pose proof (quad_digits a b 0 (proj1 Hb) (proj1 (proj2 Hb)) H00) as Hn. unfold quad in *. cbn [map] in Hn. rewrite !Forall_cons in Hn. do 3 eexists. split; [done|tauto].
  - pose proof (quad_digits a b c (proj1 Hb) (proj1 (proj2 Hb)) (proj1 (proj2 (proj2 Hb)))) as Hn. unfold quad in *. cbn [map] in Hn. rewrite !Forall_cons in Hn. do 3 eexists. split; [done|tauto].
Qed.
Lemma pton_pad_spec done_ xs t rest :
  (length done_ mod 3 = 0)%nat -> Forall is_u8 done_ -> Forall sextet xs -> (length xs < 4)%nat -> Forall is_char t -> (length done_ + length (partial xs) <= targsize)%nat ->
  decoded (encode done_ ++ map digit64 xs ++ Pad64 :: strip t)
    (pton_pad (t ++ 0 :: rest) (blit target 0 (done_ ++ partial xs)) (length done_ + (length xs - 1)) (length xs)).
Proof using Ht.
  intros Hm Hd Hx Hl4 Hc Hl. assert (length (done_ ++ partial xs) <= targsize)%nat as Hroom by (by rewrite length_app).
  destruct xs as [|x0 [|x1 [|x2 [|? ?]]]]; cbn [length pton_pad map app] in *; [| | | |lia].
  - apply fails; [done|]. intros bs Hbs E. exfalso. destruct (encode_prefix _ _ _ Hm Hd Hbs E) as (bs1 & -> & E1). apply Forall_app in Hbs as [_ Hbs].
    destruct (encode_two bs1 Hbs) as [->|(d0 & d1 & w & E2 & Hn & _)]; [done|]. rewrite E2 in E1. by injection E1.
  - apply fails; [done|]. intros bs Hbs E. exfalso. destruct (encode_prefix _ _ _ Hm Hd Hbs E) as (bs1 & -> & E1). apply Forall_app in Hbs as [_ Hbs].
    destruct (encode_two bs1 Hbs) as [->|(d0 & d1 & w & E2 & _ & Hn)]; [done|]. rewrite E2 in E1. by injection E1.
  - destruct (skip_spaces_spec t rest Hc) as [[Es ->]|(c & t' & Hct & Es & ->)]; cbn [mbind option_bind].
    + cbn [Z.eqb Pad64 negb]. rewrite Es. apply fails; [done|]. intros bs Hbs E. exfalso. destruct (encode_prefix _ _ _ Hm Hd Hbs E) as (bs1 & -> & E1). apply Forall_app in Hbs as [_ Hbs].
      destruct bs1 as [|a [|b [|d bs1]]]; done.
    + rewrite Es. destruct (Z.eqb_spec c Pad64) as [->|Hne]; cbn [negb].
      * inversion Hct; subst. apply (pton_last_spec done_ [x0; x1] [Pad64; Pad64] t' rest); try done. by left.
      * apply fails; [done|]. intros bs Hbs E. exfalso. destruct (encode_prefix _ _ _ Hm Hd Hbs E) as (bs1 & -> & E1). apply Forall_app in Hbs as [_ Hbs].
        destruct bs1 as [|a [|b [|d bs1]]]; [done|..].
        -- cbn in E1. by injection E1.
        -- rewrite !Forall_cons in Hbs. pose proof (quad_digits a b 0 (proj1 Hbs) (proj1 (proj2 Hbs)) ltac:(done)) as Hn. unfold quad in *. cbn [map] in *. rewrite !Forall_cons in Hn. cbn [encode quad map take app] in E1. injection E1 as _ _ E1 _. tauto.
        -- rewrite !Forall_cons in Hbs. pose proof (quad_digits a b d (proj1 Hbs) (proj1 (proj2 Hbs)) (proj1 (proj2 (proj2 Hbs)))) as Hn. unfold quad in *. cbn [map] in *. rewrite !Forall_cons in Hn. cbn [encode quad map take app] in E1. injection E1 as _ _ E1 _. tauto.
  - apply (pton_last_spec done_ [x0; x1; x2] [Pad64] t rest); try done. by right.
Qed.
Lemma length_padded_app done_ bs : (length done_ mod 3 = 0)%nat -> length (padded (done_ ++ bs)) = (length done_ + length (padded bs))%nat.
Proof. intros H. unfold padded. rewrite !length_app, <- Nat.Div0.add_mod_idemp_l, H, Nat.add_0_l. destruct (_ =? 0)%nat; cbn; lia. Qed.
Lemma length_padded_ge bs n : (n <= length bs)%nat -> (n <= length (padded bs))%nat.
Proof. unfold padded. rewrite length_app. lia. Qed.
Definition needed (xs : list Z) : nat := match xs with [] => 1 | [_] => 2 | _ => 3 end%nat.
Lemma group_room xs x w bs :
  Forall sextet (xs ++ [x]) -> Forall is_u8 bs -> (length xs < 4)%nat -> encode bs = map digit64 (xs ++ [x]) ++ w -> (needed xs <= length (padded bs))%nat.
Proof.
  intros Hx Hb Hl E. destruct bs as [|a [|b [|c bs]]].
  - by destruct xs.
  - destruct xs as [|x0 [|x1 [|x2 xs]]]; cbn; try lia; exfalso; cbn [encode quad map take app] in E; injection E as _ _ E _; symmetry in E.
    + cbn [app] in Hx. rewrite !Forall_cons in Hx. apply digit_not_pad in E; tauto.
    + cbn [app] in Hx. rewrite !Forall_cons in Hx. apply digit_not_pad in E; tauto.
  - unfold padded. destruct xs as [|x0 [|x1 xs]]; cbn; lia.
  - apply length_padded_ge. destruct xs as [|x0 [|x1 xs]]; cbn; lia.
Qed.
Lemma encode_alphabet ch bs : Forall is_u8 bs -> ch <> Pad64 -> (forall x, sextet x -> digit64 x <> ch) -> ch ∈ encode bs -> False.
Proof.
  intros Hb Hp Hn. assert (is_u8 0) as H00 by done.
  assert (forall a b c, is_u8 a -> is_u8 b -> is_u8 c -> ch ∈ quad a b c -> False) as Hq.
  { intros a b c Ha Hb' Hc Hin. unfold quad in Hin. apply list_elem_of_In, in_map_iff in Hin as (x & <- & Hin). apply list_elem_of_In in Hin.
    pose proof (sextets_of a b c Ha Hb' Hc) as Hs. rewrite Forall_forall in Hs. by apply (Hn x (Hs x Hin)). }
  remember (length bs) as n eqn:En. revert bs Hb En. induction n as [n IH] using lt_wf_ind. intros [|a [|b [|c bs]]] Hb -> Hin; cbn [encode] in Hin.
  - by apply not_elem_of_nil in Hin.
  - rewrite Forall_cons in Hb. apply elem_of_app in Hin as [Hin|Hin]; [|set_solver]. apply elem_of_take in Hin as (i & Hin & _). apply (Hq a 0 0); [tauto|done|done|by eapply list_elem_of_lookup_2].
  - rewrite !Forall_cons in Hb. apply elem_of_app in Hin as [Hin|Hin]; [|set_solver]. apply elem_of_take in Hin as (i & Hin & _). apply (Hq a b 0); [tauto|tauto|done|by eapply list_elem_of_lookup_2].
  - rewrite !Forall_cons in Hb. apply elem_of_app in Hin as [Hin|Hin]; [apply (Hq a b c); tauto|]. apply (IH (length bs)) with bs; [cbn; lia|tauto|done|done].
Qed.

Lemma pton_loop_spec t rest done_ xs :
  (length done_ mod 3 = 0)%nat -> Forall is_u8 done_ -> Forall sextet xs -> (length xs < 4)%nat -> Forall is_char t -> (length done_ + length (partial xs) <= targsize)%nat ->
  decoded (encode done_ ++ map digit64 xs ++ strip t)
    (pton_loop (t ++ 0 :: rest) (blit target 0 (done_ ++ partial xs)) targsize (length done_ + (length xs - 1)) (length xs)).
Proof using Ht.
  intros Hm Hd Hx Hl4 Hc. revert done_ xs Hm Hd Hx Hl4. induction Hc as [|ch t Hch Hc IH]; intros done_ xs Hm Hd Hx Hl4 Hl;
    assert (length (done_ ++ partial xs) <= targsize)%nat as Hroom by (by rewrite length_app).
  - cbn [app pton_loop Z.eqb]. destruct xs as [|x0 xs]; cbn [length Nat.eqb].
    + rewrite Nat.add_0_r, !app_nil_r. rewrite <- (padded_whole done_) at 2 by done. apply succeeds; [done|done|done|]. rewrite padded_whole by done. cbn in Hl. lia.
    + apply fails; [done|]. intros bs Hbs E. exfalso. destruct (encode_prefix _ _ _ Hm Hd Hbs E) as (bs1 & -> & E1). apply Forall_app in Hbs as [_ Hbs].
      apply (f_equal length) in E1. cbn [app map length] in E1. rewrite app_nil_r, length_map in E1. cbn [length] in Hl4.
      destruct bs1 as [|a [|b [|c bs1]]]; cbn [encode] in E1; rewrite ?length_app in E1; cbn [length quad map take app Nat.add] in E1; lia.
  - cbn [app pton_loop]. rewrite (proj2 (Z.eqb_neq ch 0)) by (unfold is_char in Hch; lia). rewrite strip_cons. destruct (isspace ch) eqn:Esp; [by apply IH|].
    destruct (Z.eqb_spec ch Pad64) as [->|Hnp]; [by apply pton_pad_spec|].
    destruct (strchr_other ch Hch) as [(x & Hxs & ->)|(-> & Hno)]; cbn [mbind option_bind].
    + rewrite strchr_digit64 by done. cbn [mbind option_bind]. rewrite Z2Nat.id by (unfold sextet in Hxs; lia).
      assert (Forall sextet (xs ++ [x])) as Hxx by (apply Forall_app; split; [done|by rewrite Forall_singleton]).
      pose proof (pton_digit_spec done_ xs x Hxx Hl4 Hl) as Ed. cbv zeta in Ed. rewrite Ed. clear Ed.
      assert (forall bs, Forall is_u8 bs -> encode bs = encode done_ ++ map digit64 xs ++ digit64 x :: strip t -> (length done_ + needed xs <= length (padded bs))%nat) as Hneed.
      { intros bs Hbs E. destruct (encode_prefix _ _ _ Hm Hd Hbs E) as (bs1 & -> & E1). apply Forall_app in Hbs as [_ Hbs].
        rewrite length_padded_app by done. apply Nat.add_le_mono_l. apply (group_room xs x (strip t)); [done|done|done|]. rewrite map_app, <- app_assoc. exact E1. }
      destruct (Nat.ltb_spec targsize (match xs with [] | [_; _; _] => length done_ + (length xs - 1) + 1 | _ => length done_ + (length xs - 1) + 2 end)) as [Hsmall|Hok]; cbn [mbind option_bind].
      * apply fails; [done|]. intros bs Hbs E. specialize (Hneed bs Hbs E). destruct xs as [|x0 [|x1 [|x2 [|? ?]]]]; cbn in *; lia.
      * destruct xs as [|x0 [|x1 [|x2 [|? ?]]]]; cbn [length] in *; [| | | |lia].
        -- specialize (IH done_ [x] Hm Hd Hxx). cbn [length Nat.sub] in IH. rewrite Nat.add_0_r in *. apply IH; [lia|cbn in *; lia].
        -- apply (IH done_ [x0; x]); [done|done|done|cbn; lia|cbn in *; lia].
        -- apply (IH done_ [x0; x1; x]); [done|done|done|cbn; lia|cbn in *; lia].
        -- cbn [app] in Hxx. rewrite !Forall_cons in Hxx. destruct Hxx as (H0 & H1 & H2 & H3 & _).
           specialize (IH (done_ ++ byte3 x0 x1 x2 x) []). cbn [partial map length app Nat.sub] in IH. rewrite length_app, Nat.add_0_r, app_nil_r in IH. change (length (byte3 x0 x1 x2 x)) with 3%nat in IH.
           rewrite encode_app, <- app_assoc in IH by done.
           assert (encode (byte3 x0 x1 x2 x) = map digit64 [x0; x1; x2; x]) as Eq by (unfold byte3; cbn [encode]; rewrite quad_byte3 by done; by rewrite app_nil_r).
           rewrite Eq in IH. apply IH.
           ++ rewrite <- Nat.Div0.add_mod_idemp_l, Hm. done.
           ++ apply Forall_app. split; [done|]. by apply byte3_u8.
           ++ done.
           ++ lia.
           ++ cbn in Hok. lia.
    + apply fails; [done|]. intros bs Hbs E. exfalso. apply (encode_alphabet ch bs); [done|done|done|]. rewrite E. set_solver.
Qed.
End decoding.

(** *** Encodings are read back *)
Definition value64 (ch : Z) : Z := match strchr (Base64 ++ [0]) 0 ch with Some (Some i) => Z.of_nat i | _ => 0 end.
Fixpoint decode (t : list Z) : list Z :=
  match t with
  | c0 :: c1 :: c2 :: c3 :: t =>
      let bytes := byte3 (value64 c0) (value64 c1) (value64 c2) (value64 c3) in
      if c2 =? Pad64 then take 1 bytes else if c3 =? Pad64 then take 2 bytes else bytes ++ decode t
  | _ => []
  end.
Lemma value_digit x : sextet x -> value64 (digit64 x) = x.
Proof. intros H. unfold value64. rewrite strchr_digit64 by done. unfold sextet in H. lia. Qed.
Lemma decode_encode bs : Forall is_u8 bs -> decode (encode bs) = bs.
Proof.
  assert (is_u8 0) as H00 by done. remember (length bs) as n eqn:En. revert bs En. induction n as [n IH] using lt_wf_ind. intros bs -> Hb.
  assert (forall a b c, is_u8 a -> is_u8 b -> is_u8 c -> byte3 (value64 (digit64 (a / 4))) (value64 (digit64 (a mod 4 * 16 + b / 16))) (value64 (digit64 (b mod 16 * 4 + c / 64))) (value64 (digit64 (c mod 64))) = [a; b; c] /\
    digit64 (b mod 16 * 4 + c / 64) <> Pad64 /\ digit64 (c mod 64) <> Pad64) as Hq.
  { intros a b c Ha Hb' Hc. pose proof (sextets_of a b c Ha Hb' Hc) as H. rewrite !Forall_cons in H. destruct H as (? & ? & ? & ? & _).
    rewrite !value_digit by done. split; [by apply byte3_quad|]. split; by apply digit_not_pad. }
  destruct bs as [|a [|b [|c bs]]]; [done|..]; rewrite !Forall_cons in Hb; unfold encode; fold encode; cbn [quad map take app decode].
  - destruct (Hq a 0 0) as (E & _ & _); [tauto..|]. unfold byte3 in *. cbn [Z.eqb Pad64 Pos.eqb take] in *. f_equal. by injection E.
  - destruct (Hq a b 0) as (E & Hn & _); [tauto..|]. rewrite (proj2 (Z.eqb_neq _ _) Hn). unfold byte3 in *. cbn [Z.eqb Pad64 Pos.eqb take] in *. injection E as E1 E2 _. by rewrite E1, E2.
  - destruct (Hq a b c) as (E & Hn & Hn'); [tauto..|]. rewrite (proj2 (Z.eqb_neq _ _) Hn), (proj2 (Z.eqb_neq _ _) Hn'), E. cbn [app]. rewrite (IH (length bs)); [done|cbn; lia|done|tauto].
Qed.
Lemma encode_inj bs bs' : Forall is_u8 bs -> Forall is_u8 bs' -> encode bs = encode bs' -> bs = bs'.
Proof. intros H H' E. rewrite <- (decode_encode bs), <- (decode_encode bs') by done. by rewrite E. Qed.
Lemma encode_chars bs : Forall is_u8 bs -> Forall (fun c => is_char c /\ isspace c = false) (encode bs).
Proof.
  assert (is_char Pad64 /\ isspace Pad64 = false) as Hp by (split; [unfold is_char, Pad64; lia|done]). assert (is_u8 0) as H00 by done.
  assert (forall a b c, is_u8 a -> is_u8 b -> is_u8 c -> Forall (fun c => is_char c /\ isspace c = false) (quad a b c)) as Hq.
  { intros a b c Ha Hb Hc. unfold quad. apply Forall_map. eapply Forall_impl; [by apply sextets_of|]. intros x Hx. by destruct (digit_char x Hx) as (? & ? & _). }
  remember (length bs) as n eqn:En. revert bs En. induction n as [n IH] using lt_wf_ind. intros [|a [|b [|c bs]]] -> Hb; cbn [encode]; rewrite ?Forall_cons in Hb; [done|..]; apply Forall_app; split.
  - apply Forall_take, Hq; tauto.
  - by repeat constructor.
  - apply Forall_take, Hq; tauto.
  - by repeat constructor.
  - apply Hq; tauto.
  - apply (IH (length bs)); [cbn; lia|done|tauto].
Qed.
Lemma strip_encode bs : Forall is_u8 bs -> strip (encode bs) = encode bs.
Proof. intros H. pose proof (encode_chars bs H) as Hc. induction Hc as [|c t [_ E] _ IH]; [done|]. rewrite strip_cons, E. by f_equal. Qed.

(** *** b64_ntop *)
Lemma put_digit_spec target w x : (length w < length target)%nat -> sextet x -> put_digit (blit target 0 w) (length w) x = Some (blit target 0 (w ++ [digit64 x])).
Proof.
  intros Hw Hx. unfold put_digit. assert (Base64 !! Z.to_nat x = Some (digit64 x)) as ->; [|by apply st_snoc].
  unfold digit64. destruct (lookup_lt_is_Some_2 Base64 (Z.to_nat x)) as [c Ec]; [change (length Base64) with 64%nat; unfold sextet in Hx; lia|]. rewrite Ec. f_equal. symmetry. by apply nth_lookup_Some.
Qed.
Lemma st_at target w k v : k = length w -> (length w < length target)%nat -> st (blit target 0 w) k v = Some (blit target 0 (w ++ [v])).
Proof. intros ->. apply st_snoc. Qed.
Lemma put_digit_at target w k x : k = length w -> (length w < length target)%nat -> sextet x -> put_digit (blit target 0 w) k x = Some (blit target 0 (w ++ [digit64 x])).
Proof. intros ->. apply put_digit_spec. Qed.
Ltac put_all := repeat (first [rewrite put_digit_at by (done || (rewrite ?length_app; cbn; lia)) | rewrite st_at by (rewrite ?length_app; cbn; lia)]; cbn [mbind option_bind]).

Section encoding.
Context (target : cmem) (targsize : nat) (Ht : (targsize <= length target)%nat).
Definition encoded (text : list Z) (r : option (cmem * option nat)) : Prop :=
  exists target', r = Some (target', if (targsize <=? length text)%nat then None else Some (length text)) /\ drop targsize target' = drop targsize target /\
    ((length text < targsize)%nat -> target' = blit target 0 (text ++ [0])).
Lemma encoded_no_room w text : (length w <= targsize)%nat -> (targsize <= length text)%nat -> encoded text (Some (blit target 0 w, None)).
Proof using Ht. intros Hw H. exists (blit target 0 w). rewrite (proj2 (Nat.leb_le _ _) H). split; [done|]. split; [by apply drop_blit|lia]. Qed.
Lemma ntop_end_spec w : (length w <= targsize)%nat -> encoded w (ntop_end (blit target 0 w) targsize (length w)).
Proof using Ht.
  intros Hw. unfold ntop_end. destruct (Nat.leb_spec targsize (length w)); [by apply encoded_no_room|]. rewrite st_snoc by lia. cbn [mbind option_bind].
  eexists. rewrite (proj2 (Nat.leb_gt _ _)) by done. split; [done|]. split; [apply drop_blit; rewrite length_app; cbn; lia|done].
Qed.
Lemma ntop_loop_spec src w : Forall is_u8 src -> (length w <= targsize)%nat -> encoded (w ++ encode src) (ntop_loop src (blit target 0 w) targsize (length w)).
Proof using Ht.
  assert (is_u8 0) as H00 by done. remember (length src) as n eqn:En. revert src En w. induction n as [n IH] using lt_wf_ind.
  intros [|a [|b [|c src]]] -> w Hb Hw; rewrite ?Forall_cons in Hb; cbn [ntop_loop ntop_rest length Nat.eqb].
  - cbn [encode]. rewrite app_nil_r. by apply ntop_end_spec.
  - destruct (Nat.ltb_spec targsize (length w + 4)); [apply encoded_no_room; [done|]; rewrite length_app; cbn; lia|].
    destruct (output_quad a 0 0) as (-> & -> & _); [tauto..|]. pose proof (sextets_of a 0 0 ltac:(tauto) H00 H00) as Hs. rewrite !Forall_cons in Hs. destruct Hs as (? & ? & ? & ? & _).
    put_all. rewrite <- !app_assoc. cbn [encode quad map take app].
    match goal with |- encoded ?t _ => pose proof (ntop_end_spec t) as E end. rewrite length_app in E. cbn [length] in E. apply E. lia.
  - destruct (Nat.ltb_spec targsize (length w + 4)); [apply encoded_no_room; [done|]; rewrite length_app; cbn; lia|].
    destruct (output_quad a b 0) as (-> & -> & -> & _); [tauto..|]. pose proof (sextets_of a b 0 ltac:(tauto) ltac:(tauto) H00) as Hs. rewrite !Forall_cons in Hs. destruct Hs as (? & ? & ? & ? & _).
    put_all. rewrite <- !app_assoc. cbn [encode quad map take app].
    match goal with |- encoded ?t _ => pose proof (ntop_end_spec t) as E end. rewrite length_app in E. cbn [length] in E. apply E. lia.
  - destruct (Nat.ltb_spec targsize (length w + 4)); [apply encoded_no_room; [done|]; rewrite length_app; cbn; lia|].
    destruct (output_quad a b c) as (-> & -> & -> & ->); [tauto..|]. pose proof (sextets_of a b c ltac:(tauto) ltac:(tauto) ltac:(tauto)) as Hs. rewrite !Forall_cons in Hs. destruct Hs as (? & ? & ? & ? & _).
    put_all. rewrite <- !app_assoc. cbn [encode]. rewrite app_assoc.
    replace (length w + 4)%nat with (length (w ++ quad a b c)) by (rewrite length_app; done). apply (IH (length src)); [cbn; lia|done|tauto|rewrite length_app; cbn; lia].
Qed.
End encoding.

(** C32.  b64_ntop writes the encoding of every sequence of bytes, ended by a NUL, and answers its
    length, or -1 when there is no room for it, and writes nothing behind targsize.  b64_pton accepts
    a text exactly when it is, without its white space, the encoding of some bytes for which there is
    room: padding that is missing or misplaced, a foreign character or bits that are not 0 behind the
    last byte are refused, and nothing is written behind targsize.  What the one wrote the other reads. *)
Theorem base64_roundtrip src text target targsize rest :
  Forall is_u8 src -> Forall is_char text -> (targsize <= length target)%nat ->
  (exists target', b64_ntop src target targsize = Some (target', if (targsize <=? length (encode src))%nat then None else Some (length (encode src))) /\
     drop targsize target' = drop targsize target /\
     ((length (encode src) < targsize)%nat -> target' = blit target 0 (encode src ++ [0]))) /\
  (exists target' r, b64_pton (text ++ 0 :: rest) target targsize = Some (target', r) /\ drop targsize target' = drop targsize target /\
     match r with
     | Some n => exists bs, Forall is_u8 bs /\ encode bs = strip text /\ n = length bs /\ target' = blit target 0 (padded bs)
     | None => forall bs, Forall is_u8 bs -> encode bs = strip text -> (targsize < length (padded bs))%nat
     end) /\
  ((length (padded src) <= targsize)%nat -> b64_pton (encode src ++ 0 :: rest) target targsize = Some (blit target 0 (padded src), Some (length src))).
Proof.
  intros Hs Ht Hl. split; [|split].
  - pose proof (ntop_loop_spec target targsize Hl src [] Hs ltac:(cbn; lia)) as H. rewrite blit_nil in H. exact H.
  - destruct (pton_loop_spec target targsize Hl text rest [] [] eq_refl ltac:(done) ltac:(done) ltac:(cbn; lia) Ht ltac:(cbn; lia)) as (target' & r & E & Hd & Hr).
    cbn [app encode map partial length Nat.sub Nat.add] in E. rewrite blit_nil in E. exists target', r. split; [exact E|]. split; [done|].
    destruct r; [|exact Hr]. destruct Hr as (bs & ? & ? & ? & _ & ?). by exists bs.
  - intros Hp. assert (Forall is_char (encode src)) as Hc by (eapply Forall_impl; [by apply encode_chars|]; intros c Hc; apply Hc).
    destruct (pton_loop_spec target targsize Hl (encode src) rest [] [] eq_refl ltac:(done) ltac:(done) ltac:(cbn; lia) Hc ltac:(cbn; lia)) as (target' & r & E & _ & Hr).
    cbn [app encode map partial length Nat.sub Nat.add] in E, Hr. rewrite blit_nil in E. unfold b64_pton. rewrite E, strip_encode in * by done. destruct r as [n|].
    + destruct Hr as (bs & Hb & Ee & -> & _ & ->). by apply encode_inj in Ee as ->.
    + specialize (Hr src Hs eq_refl). lia.
Qed.

Definition ab_bytes : list Z := [97; 98].
Lemma base64_roundtrip_witness :
  (exists target', b64_ntop ab_bytes (replicate 8 1) 8 = Some (target', if (8 <=? length (encode ab_bytes))%nat then None else Some (length (encode ab_bytes))) /\
     drop 8 target' = drop 8 (replicate 8 1) /\
     ((length (encode ab_bytes) < 8)%nat -> target' = blit (replicate 8 1) 0 (encode ab_bytes ++ [0]))) /\
  (exists target' r, b64_pton ([89; 32; 87] ++ 0 :: []) (replicate 8 1) 8 = Some (target', r) /\ drop 8 target' = drop 8 (replicate 8 1) /\
     match r with
     | Some n => exists bs, Forall is_u8 bs /\ encode bs = strip [89; 32; 87] /\ n = length bs /\ target' = blit (replicate 8 1) 0 (padded bs)
     | None => forall bs, Forall is_u8 bs -> encode bs = strip [89; 32; 87] -> (8 < length (padded bs))%nat
     end) /\
  ((length (padded ab_bytes) <= 8)%nat -> b64_pton (encode ab_bytes ++ 0 :: []) (replicate 8 1) 8 = Some (blit (replicate 8 1) 0 (padded ab_bytes), Some 2%nat)).
Proof.
  apply (base64_roundtrip ab_bytes [89; 32; 87] (replicate 8 1) 8 []).
  - unfold ab_bytes. rewrite !Forall_cons. unfold is_u8. repeat split; try lia; apply Forall_nil_2.
  - rewrite !Forall_cons. unfold is_char. repeat split; try lia; apply Forall_nil_2.
  - cbn. lia.
Defined.
(** For "YWI=" a target of two bytes is refused, although the text stands for two bytes. *)
Example pton_needs_spare_byte : b64_pton [89; 87; 73; 61; 0] [1; 1] 2 = Some ([97; 96], None).
Proof. reflexivity. Qed.
