(* ===== verification/Digest.v ===== *)
(** * What the message digests share: 32-bit words, bytes and blocks of 64 bytes *)
From S2P Require Import Prelude CMem.
#[local] Open Scope Z_scope.

(** ** Words *)

(** #define rol(value, bits) of sha1.c and cshift of hash.h *)
Definition rol (value bits : Z) : Z := Z.lor (u32 (Z.shiftl value bits)) (Z.shiftr value (32 - bits)).
(** The bytes of a word, the lowest and the highest first. *)
Definition le_bytes (w : Z) : list Z := map (fun i => Z.land (Z.shiftr w (8 * i)) 0xff) [0; 1; 2; 3].
Definition be_bytes (w : Z) : list Z := rev (le_bytes w).
(** The word that four bytes are, in the two orders. *)
Definition le_word (bs : list Z) : Z :=
  match bs with [b0; b1; b2; b3] => Z.lor b0 (Z.lor (Z.shiftl b1 8) (Z.lor (Z.shiftl b2 16) (Z.shiftl b3 24))) | _ => 0 end.
Definition be_word (bs : list Z) : Z := le_word (rev bs).
(** A block of 64 bytes seen as 16 words, as a little-endian machine sees it. *)
Definition words (block : list Z) : list Z := map (fun i => le_word (slice block (4 * i) 4)) (seq 0 16).
(** memcpy(&save[j], data, n) for a member array, which it may not leave. *)
Definition copy_in (save : list Z) (j : nat) (bs : list Z) : option (list Z) :=
  if (j + length bs <=? length save)%nat then Some (blit save j bs) else None.

(** ** The blocks of a message

    Whole blocks go into the state; [absorb] answers the state and the bytes behind the last block. *)
Section blocks.
Context {S : Type} (compress : S -> list Z -> S).

Fixpoint absorb_loop (fuel : nat) (s : S) (bs : list Z) : S * list Z :=
  match fuel with
  | O => (s, bs)
  | Datatypes.S fuel => if (64 <=? length bs)%nat then absorb_loop fuel (compress s (take 64 bs)) (drop 64 bs) else (s, bs)
  end.
Definition absorb (s : S) (bs : list Z) : S * list Z := absorb_loop (length bs) s bs.

Lemma absorb_fuel n s bs : (length bs <= n)%nat -> absorb_loop n s bs = absorb s bs.
Proof.
  unfold absorb. enough (forall m n s bs, (length bs <= n)%nat -> (length bs <= m)%nat -> absorb_loop n s bs = absorb_loop m s bs) as H by (intros; by apply H).
  clear. induction m as [|m IH]; intros [|n] s bs Hn Hm; try done; cbn [absorb_loop]; (destruct (Nat.leb_spec 64 (length bs)); [|done]); try lia.
  apply IH; rewrite length_drop; lia.
Qed.
Lemma absorb_short s bs : (length bs < 64)%nat -> absorb s bs = (s, bs).
Proof. unfold absorb. destruct (length bs) as [|n] eqn:E; [done|]. cbn [absorb_loop]. rewrite E. destruct (Nat.leb_spec 64 (Datatypes.S n)); [lia|done]. Qed.
Lemma absorb_block s b bs : length b = 64%nat -> absorb s (b ++ bs) = absorb (compress s b) bs.
Proof.
  intros Hb. rewrite <- (absorb_fuel (Datatypes.S (length (b ++ bs))) s (b ++ bs)) by lia. cbn [absorb_loop].
  assert (64 <=? length (b ++ bs) = true)%nat as -> by (apply Nat.leb_le; rewrite length_app, Hb; lia).
  rewrite take_app_le, take_ge, drop_app_ge, Hb, Nat.sub_diag, drop_0 by lia. apply absorb_fuel. rewrite length_app. lia.
Qed.
Lemma block_ind (P : list Z -> Prop) :
  (forall bs, (length bs < 64)%nat -> P bs) -> (forall b bs, length b = 64%nat -> P bs -> P (b ++ bs)) -> forall bs, P bs.
Proof.
  intros H0 H1 bs. remember (length bs) as n eqn:En. revert bs En. induction n as [n IH] using lt_wf_ind. intros bs ->.
  destruct (Nat.ltb_spec (length bs) 64); [by apply H0|]. rewrite <- (take_drop 64 bs). apply H1; [rewrite length_take; lia|].
  apply (IH (length (drop 64 bs))); [rewrite length_drop; lia|done].
Qed.
Lemma absorb_app s a b : absorb s (a ++ b) = let '(s, rest) := absorb s a in absorb s (rest ++ b).
Proof.
  revert s. induction a as [a Ha|c a Hc IH] using block_ind; intros s; [by rewrite (absorb_short s a)|]. rewrite <- app_assoc, !(absorb_block s c) by done. apply IH.
Qed.
Lemma absorb_rest s bs : length (absorb s bs).2 = (length bs mod 64)%nat.
Proof.
  revert s. induction bs as [bs H|b bs Hb IH] using block_ind; intros s; [rewrite absorb_short by done; cbn [snd]; by rewrite Nat.mod_small|].
  rewrite absorb_block, IH, length_app, Hb by done. rewrite <- (Nat.Div0.mod_add (length bs) 1). by rewrite (Nat.add_comm (length bs)).
Qed.
Lemma absorb_forall (P : Z -> Prop) s bs : Forall P bs -> Forall P (absorb s bs).2.
Proof. revert s. induction bs as [bs H|b bs Hb IH] using block_ind; intros s Hf; [by rewrite absorb_short|]. rewrite absorb_block by done. apply Forall_app in Hf as [_ Hf]. by apply IH. Qed.
End blocks.
Lemma copy_in_fits save j bs : (j + length bs <= length save)%nat -> copy_in save j bs = Some (blit save j bs).
Proof. intros H. unfold copy_in. by rewrite (proj2 (Nat.leb_le _ _) H). Qed.

(** ** Words and bytes *)
Lemma u32_bits x n : Z.testbit (u32 x) n = (n <? 32) && Z.testbit x n.
Proof.
  unfold u32. destruct (Z.ltb_spec n 32).
  - by rewrite Z.mod_pow2_bits_low.
  - by rewrite Z.mod_pow2_bits_high by lia.
Qed.
Lemma byte_bits b n : is_u8 b -> 8 <= n -> Z.testbit b n = false.
Proof. intros Hb Hn. rewrite <- (u8_id b) by done. unfold u8. apply Z.mod_pow2_bits_high. lia. Qed.
Lemma le_word_sum b0 b1 b2 b3 : is_u8 b0 -> is_u8 b1 -> is_u8 b2 -> is_u8 b3 -> le_word [b0; b1; b2; b3] = b0 + b1 * 2 ^ 8 + b2 * 2 ^ 16 + b3 * 2 ^ 24.
Proof.
  unfold is_u8. intros H0 H1 H2 H3. cbn [le_word]. rewrite (Z.lor_comm (Z.shiftl b2 16)), (Z.lor_comm (Z.shiftl b1 8)), (Z.lor_comm b0).
  rewrite (Z.shiftl_mul_pow2 b2), (Z.shiftl_mul_pow2 b1) by lia. rewrite (lor_shiftl_low 24) by lia.
  replace (b3 * 2 ^ 24 + b2 * 2 ^ 16) with (Z.shiftl (b3 * 2 ^ 8 + b2) 16) by (rewrite Z.shiftl_mul_pow2 by lia; lia).
  rewrite (lor_shiftl_low 16) by lia.
  replace ((b3 * 2 ^ 8 + b2) * 2 ^ 16 + b1 * 2 ^ 8) with (Z.shiftl ((b3 * 2 ^ 8 + b2) * 2 ^ 8 + b1) 8) by (rewrite Z.shiftl_mul_pow2 by lia; lia).
  rewrite (lor_shiftl_low 8) by lia. lia.
Qed.
Lemma le_word_u32 bs : Forall is_u8 bs -> is_u32 (le_word bs).
Proof.
  intros H. destruct bs as [|b0 [|b1 [|b2 [|b3 [|? ?]]]]]; try (unfold is_u32; cbn; lia). rewrite !Forall_cons in H. destruct H as (H0 & H1 & H2 & H3 & _).
  rewrite le_word_sum by done. unfold is_u8, is_u32 in *. lia.
Qed.
Lemma le_bytes_u8 w : Forall is_u8 (le_bytes w).
Proof. unfold le_bytes. apply Forall_map, Forall_true. intros i. unfold is_u8. change 255 with (Z.ones 8). rewrite Z.land_ones by lia. apply Z.mod_pos_bound. lia. Qed.
Lemma le_bytes_u32 w : le_bytes (u32 w) = le_bytes w.
Proof.
  unfold le_bytes. cbn [map]. assert (forall k, 0 <= k <= 24 -> Z.land (Z.shiftr (u32 w) k) 255 = Z.land (Z.shiftr w k) 255) as H.
  { intros k Hk. change 255 with (Z.ones 8). apply Z.bits_inj'. intros n Hn. rewrite !Z.land_spec, !Z.shiftr_spec, u32_bits by done. destruct (Z.ltb_spec (n + k) 32); [done|]. rewrite Z.ones_spec_high by lia. by rewrite !andb_false_r. }
  by rewrite !H by lia.
Qed.
Lemma be_bytes_u32 w : be_bytes (u32 w) = be_bytes w.
Proof. unfold be_bytes. by rewrite le_bytes_u32. Qed.
Lemma be_bytes_u8 w : Forall is_u8 (be_bytes w).
Proof. apply Forall_rev, le_bytes_u8. Qed.

(** ** The length of a message

    The bytes behind the last whole block, the number of bits, and the zeros between the bit behind
    the message and its length. *)
Definition rest (msg : list Z) : nat := (length msg mod 64)%nat.
Definition bits (msg : list Z) : Z := 8 * Z.of_nat (length msg).
Definition zeros (msg : list Z) : nat := Z.to_nat ((56 - Z.of_nat (length msg)) mod 64).
Lemma rest_lt msg : (rest msg < 64)%nat.
Proof. by apply Nat.mod_upper_bound. Qed.
Lemma rest_bits msg : Z.of_nat (rest msg) = u32 (bits msg) / 8 mod 64.
Proof.
  unfold u32, bits, rest. rewrite Nat2Z.inj_mod. change (2 ^ 32) with (8 * 2 ^ 29). rewrite Z.mul_mod_distr_l by lia. rewrite Z.mul_comm, Z.div_mul by lia.
  rewrite Z.mod_mod_divide; [done|]. by exists (2 ^ 23).
Qed.
Lemma absorb_at {S} (f : S -> list Z -> S) s msg : rest msg = length (absorb f s msg).2.
Proof. by rewrite absorb_rest. Qed.
(** The count of bits in two words, when a piece of less than 2^29 bytes is added. *)
Lemma count_carry msg data :
  Z.of_nat (length data) < 2 ^ 29 ->
  let n := u32 (u32 (bits msg) + u32 (bits data)) in
  n = u32 (bits (msg ++ data)) /\ u32 (u32 (Z.shiftr (bits msg) 32) + (if n <? u32 (bits msg) then 1 else 0)) = u32 (Z.shiftr (bits (msg ++ data)) 32).
Proof.
  intros Hd. unfold bits in *. rewrite length_app, Nat2Z.inj_add. cbv zeta. set (m := Z.of_nat (length msg)). set (d := Z.of_nat (length data)) in *.
  assert (0 <= m) by (unfold m; lia). assert (0 <= d) by (unfold d; lia). clearbody m d.
  rewrite !Z.shiftr_div_pow2 by lia. unfold u32. rewrite (Z.mod_small (8 * d)) by lia.
  assert ((8 * m mod 2 ^ 32 + 8 * d) mod 2 ^ 32 = (8 * (m + d)) mod 2 ^ 32) as -> by (rewrite Z.add_mod_idemp_l by lia; f_equal; lia).
  split; [done|]. pose proof (Z.div_mod (8 * m) (2 ^ 32) ltac:(lia)) as Em. pose proof (Z.mod_pos_bound (8 * m) (2 ^ 32) ltac:(lia)) as Bm.
  pose proof (Z.div_mod (8 * (m + d)) (2 ^ 32) ltac:(lia)) as Ed. pose proof (Z.mod_pos_bound (8 * (m + d)) (2 ^ 32) ltac:(lia)) as Bd.
  rewrite Z.add_mod_idemp_l by lia. destruct (Z.ltb_spec (8 * (m + d) mod 2 ^ 32) (8 * m mod 2 ^ 32)); f_equal; nia.
Qed.
