(* ===== verification/Sha1.v ===== *)
(** * SHA-1 (libc/bionic/sha1.c, little-endian)

    The five working variables keep their places here and the calls of the round macros, which rename
    them instead, are a loop.  [None] is an access outside the buffer of the context. *)
From S2P Require Import Prelude CMem Digest.
#[local] Open Scope Z_scope.

Record regs : Type := Regs { ra : Z; rb : Z; rc : Z; rd : Z; re : Z }.
Record SHA1_CTX : Type := Ctx { state : regs; count0 : Z; count1 : Z; buffer : list Z }.

(** ** SHA1Transform *)

(** block->l[i] *)
Definition bl (block : list Z) (i : nat) : Z := nth i block 0.
(** The values of the macros blk0 and blk, with the block they leave. *)
Definition blk0 (block : list Z) (i : nat) : Z * list Z :=
  let l := bl block i in
  let v := Z.lor (Z.land (rol l 24) 0xFF00FF00) (Z.land (rol l 8) 0x00FF00FF) in (v, <[i := v]> block).
Definition blk (block : list Z) (i : nat) : Z * list Z :=
  let at_ k := bl block ((i + k) mod 16)%nat in
  let v := rol (Z.lxor (Z.lxor (Z.lxor (at_ 13%nat) (at_ 8%nat)) (at_ 2%nat)) (at_ 0%nat)) 1 in (v, <[(i mod 16)%nat := v]> block).

(** z += f(w,x,y) + blk(i) + k + rol(v,5); w = rol(w,30); and the places for the next call. *)
Definition round (f : Z -> Z -> Z -> Z) (b : list Z -> nat -> Z * list Z) (k : Z) (i : nat) (r : regs) (block : list Z) : regs * list Z :=
  let '(Regs v w x y z) := r in
  let '(x_i, block) := b block i in
  (Regs (u32 (z + (f w x y + x_i + k + rol v 5))) v (rol w 30) x y, block).
Definition R0 := round (fun w x y => Z.lxor (Z.land w (Z.lxor x y)) y) blk0 0x5A827999.
Definition R1 := round (fun w x y => Z.lxor (Z.land w (Z.lxor x y)) y) blk 0x5A827999.
Definition R2 := round (fun w x y => Z.lxor (Z.lxor w x) y) blk 0x6ED9EBA1.
Definition R3 := round (fun w x y => Z.lor (Z.land (Z.lor w x) y) (Z.land w x)) blk 0x8F1BBCDC.
Definition R4 := round (fun w x y => Z.lxor (Z.lxor w x) y) blk 0xCA62C1D6.
Definition R (i : nat) : regs -> list Z -> regs * list Z :=
  (if i <? 16 then R0 else if i <? 20 then R1 else if i <? 40 then R2 else if i <? 60 then R3 else R4)%nat i.
Definition rounds (n : nat) (r : regs) (block : list Z) : regs * list Z := foldl (fun '(r, block) i => R i r block) (r, block) (seq 0 n).
Definition add_regs (r s : regs) : regs :=
  Regs (u32 (ra r + ra s)) (u32 (rb r + rb s)) (u32 (rc r + rc s)) (u32 (rd r + rd s)) (u32 (re r + re s)).
Definition SHA1Transform (s : regs) (buffer : list Z) : regs := add_regs s (rounds 80 s (words buffer)).1.

(** ** The incremental interface *)
Definition SHA1Init (buffer : list Z) : SHA1_CTX :=
  Ctx (Regs 0x67452301 0xEFCDAB89 0x98BADCFE 0x10325476 0xC3D2E1F0) 0 0 buffer.

(** count[0] += len << 3, and count[1] when that wraps. *)
Definition add_count (c : SHA1_CTX) (len : Z) : SHA1_CTX :=
  let j := count0 c in
  let n := u32 (j + u32 (Z.shiftl len 3)) in
  Ctx (state c) n (if n <? j then u32 (count1 c + (Z.shiftr len 29 + 1)) else count1 c) (buffer c).
(** for ( ; i + 63 < len; i += 64): the state and the data that is left. *)
Fixpoint transform_loop (fuel : nat) (s : regs) (data : list Z) : option (regs * list Z) :=
  if (63 <? length data)%nat then
    match fuel with
    | O => None
    | S fuel => transform_loop fuel (SHA1Transform s (take 64 data)) (drop 64 data)
    end
  else Some (s, data).
Definition SHA1Update (c : SHA1_CTX) (data : list Z) : option SHA1_CTX :=
  let len := Z.of_nat (length data) in
  let j := Z.to_nat (Z.land (Z.shiftr (count0 c) 3) 63) in
  let c := add_count c len in
  if 63 <? u32 (Z.of_nat j + len) then
    buf ← copy_in (buffer c) j (take (64 - j) data);
    '(s, data) ← transform_loop (length data) (SHA1Transform (state c) buf) (drop (64 - j) data);
    buf ← copy_in buf 0 data;
    Some (Ctx s (count0 c) (count1 c) buf)
  else
    buf ← copy_in (buffer c) j data;
    Some (Ctx (state c) (count0 c) (count1 c) buf).

(** while ((count[0] & 504) != 448) SHA1Update(context, "\0", 1) *)
Fixpoint pad_loop (fuel : nat) (c : SHA1_CTX) : option SHA1_CTX :=
  if Z.land (count0 c) 504 =? 448 then Some c
  else match fuel with O => None | S fuel => c ← SHA1Update c [0]; pad_loop fuel c end.
Definition SHA1Final (c : SHA1_CTX) : option (list Z * SHA1_CTX) :=
  let finalcount := be_bytes (count1 c) ++ be_bytes (count0 c) in
  c ← SHA1Update c [0x80];
  c ← pad_loop 64 c;
  c ← SHA1Update c finalcount;
  let s := state c in
  Some (be_bytes (ra s) ++ be_bytes (rb s) ++ be_bytes (rc s) ++ be_bytes (rd s) ++ be_bytes (re s), c).
(** The digest of a message that is given in pieces. *)
Definition sha1_stream (junk : list Z) (pieces : list (list Z)) : option (list Z) :=
  c ← foldl (fun c data => c ← c; SHA1Update c data) (Some (SHA1Init junk)) pieces;
  '(digest, _) ← SHA1Final c;
  Some digest.

(** "abc" *)
Example sha1_abc : sha1_stream (replicate 64 7) [[97; 98]; []; [99]] =
  Some [0xA9; 0x99; 0x3E; 0x36; 0x47; 0x06; 0x81; 0x6A; 0xBA; 0x3E; 0x25; 0x71; 0x78; 0x50; 0xC2; 0x6C; 0x9C; 0xD0; 0xD8; 0x9D].
Proof. vm_compute. reflexivity. Qed.

(** ** FIPS 180-1 *)
Section fips.
Definition Ch (x y z : Z) : Z := Z.lxor (Z.land x y) (Z.ldiff z x).
Definition Parity (x y z : Z) : Z := Z.lxor (Z.lxor x y) z.
Definition Maj (x y z : Z) : Z := Z.lxor (Z.lxor (Z.land x y) (Z.land x z)) (Z.land y z).
Definition f_t (t : nat) : Z -> Z -> Z -> Z := (if t <? 20 then Ch else if t <? 40 then Parity else if t <? 60 then Maj else Parity)%nat.
Definition K_t (t : nat) : Z := if (t <? 20)%nat then 0x5A827999 else if (t <? 40)%nat then 0x6ED9EBA1 else if (t <? 60)%nat then 0x8F1BBCDC else 0xCA62C1D6.
(** W_0, ..., W_(n+15) *)
Fixpoint schedule (block : list Z) (n : nat) : list Z :=
  match n with
  | O => map (fun i => be_word (slice block (4 * i) 4)) (seq 0 16)
  | S n =>
      let W := schedule block n in
      let w k := nth (n + 16 - k) W 0 in
      W ++ [rol (Z.lxor (Z.lxor (Z.lxor (w 3%nat) (w 8%nat)) (w 14%nat)) (w 16%nat)) 1]
  end.
Definition step (W : list Z) (r : regs) (t : nat) : regs :=
  let '(Regs a b c d e) := r in
  Regs (u32 (rol a 5 + f_t t b c d + e + nth t W 0 + K_t t)) a (rol b 30) c d.
Definition compress (s : regs) (block : list Z) : regs := add_regs s (foldl (step (schedule block 64)) s (seq 0 80)).
Definition H0 : regs := Regs 0x67452301 0xEFCDAB89 0x98BADCFE 0x10325476 0xC3D2E1F0.
Definition padding (msg : list Z) : list Z :=
  let l := 8 * Z.of_nat (length msg) in
  0x80 :: replicate (Z.to_nat ((448 - (l + 8)) mod 512 / 8)) 0 ++ be_bytes (Z.shiftr l 32) ++ be_bytes (u32 l).
Definition sha1 (msg : list Z) : list Z :=
  let '(Regs a b c d e) := (absorb compress H0 (msg ++ padding msg)).1 in be_bytes a ++ be_bytes b ++ be_bytes c ++ be_bytes d ++ be_bytes e.
End fips.
Example fips_abc : Some (sha1 [97; 98; 99]) = sha1_stream (replicate 64 7) [[97; 98; 99]].
Proof. vm_compute. reflexivity. Qed.

(** ** The transformation of a block *)
Ltac bitwise := apply Z.bits_inj'; intros n Hn; rewrite ?Z.lor_spec, ?Z.land_spec, ?Z.lxor_spec, ?Z.ldiff_spec, ?Z.lor_spec, ?Z.land_spec, ?Z.lxor_spec.
Lemma choose_spec w x y : Z.lxor (Z.land w (Z.lxor x y)) y = Ch w x y.
Proof. unfold Ch. bitwise. by destruct (Z.testbit w n), (Z.testbit x n), (Z.testbit y n). Qed.
Lemma majority_spec w x y : Z.lor (Z.land (Z.lor w x) y) (Z.land w x) = Maj w x y.
Proof. unfold Maj. bitwise. by destruct (Z.testbit w n), (Z.testbit x n), (Z.testbit y n). Qed.

Lemma rol_bits x k n : is_u32 x -> 0 < k < 32 -> 0 <= n -> Z.testbit (rol x k) n = (n <? 32) && (if n <? k then Z.testbit x (n + 32 - k) else Z.testbit x (n - k)).
Proof.
  intros Hx Hk Hn. assert (forall m, 32 <= m -> Z.testbit x m = false) as Hh.
  { intros m Hm. rewrite <- (u32_id x) by done. rewrite u32_bits. destruct (Z.ltb_spec m 32); [lia|done]. }
  unfold rol. rewrite Z.lor_spec, u32_bits, Z.shiftl_spec, Z.shiftr_spec by lia.
  destruct (Z.ltb_spec n 32), (Z.ltb_spec n k); cbn [andb]; try lia.
  - rewrite (Z.testbit_neg_r x (n - k)) by lia. cbn [orb]. f_equal. lia.
  - rewrite (Hh (n + (32 - k))) by lia. by rewrite orb_false_r.
  - rewrite Hh by lia. done.
Qed.
(** One bit, whose number is known, of a word that is made of bytes. *)
Ltac swap_bit H :=
  repeat match goal with |- context [if ?a <? ?b then _ else _] => let v := eval vm_compute in (a <? b) in change (a <? b) with v; cbv iota end;
  rewrite !H by lia;
  repeat match goal with |- context [Z.testbit (Zpos ?p) ?m] => let v := eval vm_compute in (Z.testbit (Zpos p) m) in change (Z.testbit (Zpos p) m) with v end;
  repeat match goal with
  | |- context [Z.testbit ?b ?m] =>
      let v := eval vm_compute in m in
      first [rewrite (Z.testbit_neg_r b m) by lia | rewrite (byte_bits b m) by (done || lia) | progress (change (Z.testbit b m) with (Z.testbit b v))]
  end;
  rewrite ?andb_true_r, ?andb_false_r, ?orb_false_r, ?orb_false_l; reflexivity.
(** blk0 swaps the bytes of a word. *)
Lemma swap_spec b0 b1 b2 b3 :
  is_u8 b0 -> is_u8 b1 -> is_u8 b2 -> is_u8 b3 ->
  let l := le_word [b0; b1; b2; b3] in Z.lor (Z.land (rol l 24) 0xFF00FF00) (Z.land (rol l 8) 0x00FF00FF) = be_word [b0; b1; b2; b3].
Proof.
  intros H0 H1 H2 H3 l. assert (is_u32 l) as Hl by (apply le_word_u32; by rewrite !Forall_cons).
  assert (is_u32 (be_word [b0; b1; b2; b3])) as Hbe by (apply le_word_u32; cbn; by rewrite !Forall_cons).
  assert (forall x m, is_u32 x -> 32 <= m -> Z.testbit x m = false) as Hh.
  { intros x m Hx Hm. rewrite <- (u32_id x) by done. rewrite u32_bits. destruct (Z.ltb_spec m 32); [lia|done]. }
  apply Z.bits_inj'. intros n Hn. rewrite Z.lor_spec, !Z.land_spec, !rol_bits by (done || lia).
  destruct (Z.ltb_spec n 32) as [Hlt|Hge]; [|cbn [andb orb]; by rewrite Hh]. cbn [andb].
  assert (n ∈ seqZ 0 32) as Hin by (apply elem_of_seqZ; lia).
  assert (forall m, 0 <= m -> Z.testbit l m = Z.testbit b0 m || (Z.testbit b1 (m - 8) || (Z.testbit b2 (m - 16) || Z.testbit b3 (m - 24)))) as Hlb.
  { intros m Hm. unfold l. cbn [le_word]. by rewrite !Z.lor_spec, !Z.shiftl_spec by done. }
  assert (Z.testbit (be_word [b0; b1; b2; b3]) n = Z.testbit b3 n || (Z.testbit b2 (n - 8) || (Z.testbit b1 (n - 16) || Z.testbit b0 (n - 24)))) as ->.
  { unfold be_word. cbn [rev app le_word]. by rewrite !Z.lor_spec, !Z.shiftl_spec by done. }
  let v := eval vm_compute in (seqZ 0 32) in change (seqZ 0 32) with v in Hin. clear Hn Hlt Hl Hbe Hh. clearbody l.
  repeat (apply elem_of_cons in Hin as [->|Hin]; [swap_bit Hlb|]). by apply not_elem_of_nil in Hin.
Qed.

(** *** The schedule *)
Section transform.
Context (block : list Z) (Hlen : length block = 64%nat) (Hbytes : Forall is_u8 block).
Definition W (t : nat) : Z := nth t (schedule block 64) 0.

Lemma schedule_length n : length (schedule block n) = (n + 16)%nat.
Proof using Hlen Hbytes. induction n as [|n IH]; [done|]. cbn [schedule]. rewrite length_app, IH. cbn. lia. Qed.
Lemma schedule_more n m t : (t < n + 16)%nat -> nth t (schedule block (n + m)) 0 = nth t (schedule block n) 0.
Proof using Hlen Hbytes.
  intros Ht. induction m as [|m IH]; [by rewrite Nat.add_0_r|]. rewrite Nat.add_succ_r. cbn [schedule]. rewrite app_nth1; [exact IH|]. rewrite schedule_length. lia.
Qed.
Lemma W_rec t : (16 <= t < 80)%nat -> W t = rol (Z.lxor (Z.lxor (Z.lxor (W (t - 3)) (W (t - 8))) (W (t - 14))) (W (t - 16))) 1.
Proof using Hlen Hbytes.
  intros Ht. unfold W. assert (forall k, (k <= t)%nat -> nth k (schedule block 64) 0 = nth k (schedule block (t - 15)) 0) as Hk.
  { intros k Hk. replace 64%nat with (t - 15 + (79 - t))%nat at 1 by lia. apply schedule_more. lia. }
  rewrite !Hk by lia. replace (t - 15)%nat with (S (t - 16)) by lia. cbn [schedule].
  assert (length (schedule block (t - 16)) = t) as Hl by (rewrite schedule_length; lia).
  rewrite (app_nth2 _ _ 0 (n := t)) by lia. rewrite Hl, Nat.sub_diag. cbn [nth]. rewrite !(app_nth1 (schedule block (t - 16))) by lia.
  replace (t - 16 + 16 - 3)%nat with (t - 3)%nat by lia. replace (t - 16 + 16 - 8)%nat with (t - 8)%nat by lia.
  replace (t - 16 + 16 - 14)%nat with (t - 14)%nat by lia. replace (t - 16 + 16 - 16)%nat with (t - 16)%nat by lia. done.
Qed.
Lemma block_word i : (i < 16)%nat -> exists b0 b1 b2 b3, slice block (4 * i) 4 = [b0; b1; b2; b3] /\ is_u8 b0 /\ is_u8 b1 /\ is_u8 b2 /\ is_u8 b3.
Proof using Hlen Hbytes.
  intros Hi. assert (length (slice block (4 * i) 4) = 4%nat) as Hl by (apply length_slice; lia).
  assert (Forall is_u8 (slice block (4 * i) 4)) as Hb by (unfold slice; by apply Forall_take, Forall_drop).
  destruct (slice block (4 * i) 4) as [|b0 [|b1 [|b2 [|b3 [|? ?]]]]]; try done. rewrite !Forall_cons in Hb. exists b0, b1, b2, b3. tauto.
Qed.
Lemma nth_map_seq (f : nat -> Z) i n : (i < n)%nat -> nth i (map f (seq 0 n)) 0 = f i.
Proof using Hlen Hbytes. intros Hi. rewrite (nth_indep _ 0 (f 0%nat)) by (rewrite length_map, length_seq; lia). by rewrite map_nth, seq_nth. Qed.
Lemma W_first i : (i < 16)%nat -> W i = be_word (slice block (4 * i) 4).
Proof using Hlen Hbytes. intros Hi. unfold W. change 64%nat with (0 + 64)%nat. rewrite schedule_more by lia. cbn [schedule]. by rewrite nth_map_seq. Qed.

(** After [t] rounds each word of the buffer holds the last value of the schedule with its place. *)
Record window (t : nat) (b : list Z) : Prop := {
  w_length : length b = 16%nat;
  w_raw i : (t <= i < 16)%nat -> bl b i = le_word (slice block (4 * i) 4);
  w_done i : (i < t)%nat -> (t <= i + 16)%nat -> bl b (i mod 16) = W i;
}.
Lemma bl_insert b i j v : (i < length b)%nat -> bl (<[i := v]> b) j = if decide (i = j) then v else bl b j.
Proof using Hlen Hbytes.
  intros Hi. unfold bl. rewrite !nth_lookup. destruct (decide (i = j)) as [<-|Hne]; [by rewrite list_lookup_insert_eq|]. by rewrite list_lookup_insert_ne.
Qed.
Lemma mod16_lt i : (i mod 16 < 16)%nat.
Proof using Hlen Hbytes. by apply Nat.mod_upper_bound. Qed.
Lemma window_next t b : window t b -> window (S t) (<[(t mod 16)%nat := W t]> b).
Proof using Hlen Hbytes.
  intros [Hl Hr Hd]. pose proof (mod16_lt t) as Hm. split.
  - by rewrite length_insert.
  - intros i Hi. rewrite bl_insert by lia. rewrite (Nat.mod_small t) by lia. destruct (decide (t = i)); [lia|]. apply Hr. lia.
  - intros i Hi1 Hi2. rewrite bl_insert by lia. destruct (decide (t mod 16 = i mod 16)%nat) as [E|Hne].
    + f_equal. pose proof (Nat.div_mod_eq t 16). pose proof (Nat.div_mod_eq i 16). lia.
    + apply Hd; [|lia]. destruct (Nat.eq_dec i t) as [->|]; [done|lia].
Qed.
Lemma blk0_window t b : window t b -> (t < 16)%nat -> blk0 b t = (W t, <[(t mod 16)%nat := W t]> b).
Proof using Hlen Hbytes.
  intros [Hl Hr Hd] Ht. unfold blk0. rewrite (Hr t) by lia. rewrite (Nat.mod_small t) by done. destruct (block_word t Ht) as (b0 & b1 & b2 & b3 & E & ? & ? & ? & ?).
  rewrite W_first by done. rewrite E. pose proof (swap_spec b0 b1 b2 b3) as Es. cbv zeta in Es. by rewrite Es.
Qed.
Lemma blk_window t b : window t b -> (16 <= t < 80)%nat -> blk b t = (W t, <[(t mod 16)%nat := W t]> b).
Proof using Hlen Hbytes.
  intros [Hl Hr Hd] Ht. assert (forall k, (k < 16)%nat -> bl b ((t + k) mod 16) = W (t - (16 - k))) as Hk.
  { intros k Hk. rewrite <- (Hd (t - (16 - k))%nat) by lia. f_equal. replace (t + k)%nat with (t - (16 - k) + 1 * 16)%nat by lia. by rewrite Nat.Div0.mod_add. }
  unfold blk. rewrite !Hk by lia. cbn [Nat.sub]. rewrite <- W_rec by done. done.
Qed.

#[local] Opaque schedule.
Lemma round_spec t r b : window t b -> (t < 80)%nat -> exists b', R t r b = (step (schedule block 64) r t, b') /\ window (S t) b'.
Proof using Hlen Hbytes.
  intros Hw Ht. exists (<[(t mod 16)%nat := W t]> b). split; [|by apply window_next]. destruct r as [v w x y z].
  assert (forall f g k B, (forall b', B b' t = blk0 b' t /\ (t < 16)%nat \/ B b' t = blk b' t /\ (16 <= t)%nat) -> (forall a b c, f a b c = g a b c) ->
    round f B k t (Regs v w x y z) b = (Regs (u32 (rol v 5 + g w x y + z + W t + k)) v (rol w 30) x y, <[(t mod 16)%nat := W t]> b)) as H.
  { intros f g k B HB Hfg. unfold round. assert (B b t = (W t, <[(t mod 16)%nat := W t]> b)) as ->.
    { destruct (HB b) as [[-> ?]|[-> ?]]; [by apply blk0_window|apply blk_window; [done|lia]]. }
    rewrite Hfg. do 3 f_equal. lia. }
  unfold R, step, f_t, K_t, R0, R1, R2, R3, R4. change (nth t (schedule block 64) 0) with (W t).
  destruct (Nat.ltb_spec t 16), (Nat.ltb_spec t 20), (Nat.ltb_spec t 40), (Nat.ltb_spec t 60); try lia;
    (apply H; [intros b'; first [by left|by right]|]); auto using choose_spec, majority_spec.
Qed.
Lemma transform_spec s : SHA1Transform s block = compress s block.
Proof using Hlen Hbytes.
  unfold SHA1Transform, compress. f_equal.
  assert (forall n, (n <= 80)%nat -> exists b, rounds n s (words block) = (foldl (step (schedule block 64)) s (seq 0 n), b) /\ window n b) as H.
  { induction n as [|n IH]; intros Hn.
    - exists (words block). split; [done|]. split; [done| |lia]. intros i Hi. unfold bl, words. by rewrite nth_map_seq by lia.
    - destruct (IH ltac:(lia)) as (b & E & Hw). unfold rounds in *. rewrite seq_S, !foldl_app, E. cbn [foldl Nat.add]. destruct (round_spec n (foldl (step (schedule block 64)) s (seq 0 n)) b Hw ltac:(lia)) as (b' & -> & Hw'). eauto. }
  destruct (H 80%nat (le_n _)) as (b & -> & _). done.
Qed.
End transform.

(** ** The pieces of a message *)
(** The context after [msg]. *)
Record after (msg : list Z) (c : SHA1_CTX) : Prop := {
  a_bytes : Forall is_u8 msg;
  a_room : length (buffer c) = 64%nat;
  a_absorb : absorb compress H0 msg = (state c, take (rest msg) (buffer c));
  a_count0 : count0 c = u32 (bits msg);
  a_count1 : count1 c = u32 (Z.shiftr (bits msg) 32);
}.
Lemma count_index msg : Z.to_nat (Z.land (Z.shiftr (u32 (bits msg)) 3) 63) = rest msg.
Proof. change 63 with (Z.ones 6). rewrite Z.land_ones, Z.shiftr_div_pow2 by lia. change (2 ^ 3) with 8. change (2 ^ 6) with 64. rewrite <- rest_bits. lia. Qed.
Lemma add_count_spec msg data c :
  count0 c = u32 (bits msg) -> count1 c = u32 (Z.shiftr (bits msg) 32) -> Z.of_nat (length data) < 2 ^ 29 ->
  let c' := add_count c (Z.of_nat (length data)) in
  state c' = state c /\ buffer c' = buffer c /\ count0 c' = u32 (bits (msg ++ data)) /\ count1 c' = u32 (Z.shiftr (bits (msg ++ data)) 32).
Proof.
  intros H0 H1 Hd. unfold add_count. cbn [state buffer count0 count1]. rewrite H0, H1. split; [done|]. split; [done|].
  destruct (count_carry msg data Hd) as [En Ec]. cbv zeta in En, Ec.
  assert (u32 (Z.shiftl (Z.of_nat (length data)) 3) = u32 (bits data)) as -> by (unfold bits; f_equal; rewrite Z.shiftl_mul_pow2 by lia; lia).
  split; [exact En|]. rewrite <- Ec. rewrite (Z.shiftr_div_pow2 _ 29), Z.div_small by lia. destruct (_ <? _); [done|]. rewrite Z.add_0_r. symmetry. apply u32_id, u32_range.
Qed.
Lemma absorb_same s bs : Forall is_u8 bs -> absorb compress s bs = absorb SHA1Transform s bs.
Proof.
  revert s. induction bs as [bs H|b bs Hb IH] using block_ind; intros s Hu; [by rewrite !absorb_short|]. apply Forall_app in Hu as [Hub Hu]. rewrite !absorb_block by done. rewrite transform_spec by done. by apply IH.
Qed.
Lemma transform_loop_spec fuel s data : (length data <= fuel)%nat -> transform_loop fuel s data = Some (absorb SHA1Transform s data).
Proof.
  intros Hl. rewrite <- (absorb_fuel SHA1Transform fuel) by done. revert s data Hl. induction fuel as [|fuel IH]; intros s data Hl; cbn [transform_loop absorb_loop].
  - destruct (Nat.ltb_spec 63 (length data)); [lia|done].
  - change (63 <? length data)%nat with (64 <=? length data)%nat. destruct (Nat.leb_spec 64 (length data)); [|done]. apply IH. rewrite length_drop. lia.
Qed.

Lemma SHA1Update_spec msg data c :
  after msg c -> Forall is_u8 data -> Z.of_nat (length data) < 2 ^ 29 -> exists c', SHA1Update c data = Some c' /\ after (msg ++ data) c'.
Proof.
  intros [Hm Hr Ha H0 H1] Hd Hl. pose proof (rest_lt msg) as Hj.
  destruct (add_count_spec msg data c H0 H1 Hl) as (Es & Eb & E0 & E1). unfold SHA1Update. rewrite H0, count_index, Es, Eb. cbn beta iota zeta.
  assert (absorb compress Sha1.H0 (msg ++ data) = absorb SHA1Transform (state c) (take (rest msg) (buffer c) ++ data)) as Hab.
  { rewrite absorb_app, Ha. apply absorb_same. apply Forall_app. split; [|done].
    assert (Forall is_u8 (absorb compress Sha1.H0 msg).2) as Hf by (apply absorb_forall; done). by rewrite Ha in Hf. }
  assert (length (take (rest msg) (buffer c)) = rest msg) as Ht by (rewrite length_take; lia).
  pose proof (absorb_at compress Sha1.H0 (msg ++ data)) as Hrest.
  assert (u32 (Z.of_nat (rest msg) + Z.of_nat (length data)) = Z.of_nat (rest msg + length data)) as ->.
  { rewrite u32_id; [lia|]. unfold is_u32. lia. }
  destruct (Z.ltb_spec 63 (Z.of_nat (rest msg + length data))) as [Hbig|Hsmall].
  - rewrite copy_in_fits by (rewrite length_take, Hr; lia). cbn [mbind option_bind].
    assert (blit (buffer c) (rest msg) (take (64 - rest msg) data) = take (rest msg) (buffer c) ++ take (64 - rest msg) data) as Eblk.
    { unfold blit. rewrite drop_ge by (rewrite length_take; lia). by rewrite app_nil_r. }
    rewrite Eblk, transform_loop_spec by (rewrite length_drop; lia).
    rewrite <- (take_drop (64 - rest msg) data) in Hab at 2. rewrite app_assoc, (absorb_block SHA1Transform) in Hab by (rewrite length_app, Ht, length_take; lia). rewrite <- Hab.
    destruct (absorb compress Sha1.H0 (msg ++ data)) as [s tl] eqn:Eabs. cbn [mbind option_bind snd] in *.
    pose proof (rest_lt (msg ++ data)) as Hlt. rewrite copy_in_fits by (rewrite length_app, Ht, length_take; lia). cbn [mbind option_bind].
    eexists. split; [done|]. split; [by apply Forall_app| | |done|done]; cbn [buffer state].
    + rewrite length_blit; rewrite length_app, Ht, length_take; lia.
    + rewrite Eabs, Hrest. f_equal. unfold blit. rewrite take_0. cbn [app]. by rewrite take_app_le, take_ge by lia.
  - rewrite copy_in_fits by lia. cbn [mbind option_bind].
    eexists. split; [done|]. rewrite (absorb_short SHA1Transform) in Hab by (rewrite length_app, Ht; lia). split; [by apply Forall_app| | |done|done]; cbn [buffer state].
    + rewrite length_blit; lia.
    + rewrite Hrest, Hab. f_equal. cbn [snd]. rewrite length_app, Ht. unfold blit. rewrite app_assoc, take_app_le, (take_ge (take (rest msg) (buffer c) ++ data)) by (rewrite length_app, Ht; lia). done.
Qed.

Lemma land_504 msg : Z.land (u32 (bits msg)) 504 = 8 * Z.of_nat (rest msg).
Proof.
  unfold u32, bits, rest. rewrite Nat2Z.inj_mod. change (2 ^ 32) with (8 * 2 ^ 29). rewrite Z.mul_mod_distr_l by lia. rewrite !(Z.mul_comm 8). change 8 with (2 ^ 3). rewrite <- !Z.shiftl_mul_pow2 by lia.
  change 504 with (Z.shiftl 63 3). rewrite <- Z.shiftl_land. f_equal. change 63 with (Z.ones 6). rewrite Z.land_ones by lia. change (2 ^ 6) with 64. rewrite Z.mod_mod_divide; [done|]. by exists (2 ^ 23).
Qed.
Lemma pad_loop_spec fuel msg c : after msg c -> (zeros msg <= fuel)%nat -> exists c', pad_loop fuel c = Some c' /\ after (msg ++ replicate (zeros msg) 0) c'.
Proof.
  revert msg c. induction fuel as [|fuel IH]; intros msg c Hc Hz; cbn [pad_loop]; rewrite (a_count0 _ _ Hc), land_504.
  - assert (zeros msg = 0%nat) as E by lia. rewrite E, app_nil_r. unfold zeros in E. assert (rest msg = 56%nat) as ->.
    { unfold rest. apply Nat2Z.inj. rewrite Nat2Z.inj_mod. change (Z.of_nat 64) with 64. Z.div_mod_to_equations. lia. }
    by exists c.
  - assert (rest msg = 56%nat <-> zeros msg = 0%nat) as Hr.
    { unfold zeros, rest. rewrite <- (Nat2Z.inj_iff _ 56), Nat2Z.inj_mod. change (Z.of_nat 64) with 64. split; intros E; Z.div_mod_to_equations; lia. }
    destruct (Z.eqb_spec (8 * Z.of_nat (rest msg)) 448) as [E|E].
    + assert (zeros msg = 0%nat) as -> by (apply Hr; lia). rewrite app_nil_r. by exists c.
    + assert (zeros msg <> 0%nat) as Hne by (intros ?%Hr; lia).
      destruct (SHA1Update_spec msg [0] c Hc) as (c1 & -> & Hc1); [by repeat constructor|done|]. cbn [mbind option_bind].
      assert (zeros msg = S (zeros (msg ++ [0]))) as Ez.
      { unfold zeros in *. rewrite length_app. cbn [length]. Z.div_mod_to_equations. lia. }
      destruct (IH (msg ++ [0]) c1 Hc1) as (c' & E' & Hc'); [lia|]. exists c'. split; [done|]. rewrite Ez. cbn [replicate]. by rewrite <- app_assoc in Hc'.
Qed.
Lemma SHA1Init_spec junk : length junk = 64%nat -> after [] (SHA1Init junk).
Proof. intros Hj. split; [done|done|done|done|done]. Qed.
Lemma pieces_spec msg c pieces :
  after msg c -> Forall (Forall is_u8) pieces -> Forall (fun p => Z.of_nat (length p) < 2 ^ 29) pieces ->
  exists c', foldl (fun c data => c ← c; SHA1Update c data) (Some c) pieces = Some c' /\ after (msg ++ concat pieces) c'.
Proof.
  intros Hc Hp Hl. revert msg c Hc. induction Hp as [|p pieces Hp Hps IH]; intros msg c Hc; [exists c; by rewrite app_nil_r|]. inversion Hl; subst.
  cbn [foldl mbind option_bind concat]. destruct (SHA1Update_spec msg p c Hc) as (c1 & -> & Hc1); [done|done|]. rewrite app_assoc. by apply IH.
Qed.
Lemma padding_spec msg : padding msg = [0x80] ++ replicate (zeros (msg ++ [0x80])) 0 ++ be_bytes (Z.shiftr (bits msg) 32) ++ be_bytes (u32 (bits msg)).
Proof.
  unfold padding, zeros. cbn [app]. do 3 f_equal. rewrite length_app. cbn [length]. f_equal. unfold bits. Z.div_mod_to_equations. lia.
Qed.
Lemma SHA1Final_spec msg c : after msg c -> exists c', SHA1Final c = Some (sha1 msg, c').
Proof.
  intros Hc. unfold SHA1Final. rewrite (a_count0 _ _ Hc), (a_count1 _ _ Hc).
  destruct (SHA1Update_spec msg [0x80] c Hc) as (c1 & -> & Hc1); [by repeat constructor|done|]. cbn [mbind option_bind].
  destruct (pad_loop_spec 64 _ c1 Hc1) as (c2 & -> & Hc2); [unfold zeros; pose proof (Z.mod_pos_bound (56 - Z.of_nat (length (msg ++ [128]))) 64 ltac:(lia)); lia|]. cbn [mbind option_bind].
  destruct (SHA1Update_spec _ (be_bytes (u32 (Z.shiftr (bits msg) 32)) ++ be_bytes (u32 (bits msg))) c2 Hc2) as (c3 & -> & Hc3); [apply Forall_app; split; apply be_bytes_u8|done|]. cbn [mbind option_bind].
  exists c3. unfold sha1. rewrite padding_spec. rewrite be_bytes_u32 in Hc3. rewrite <- !app_assoc in Hc3. rewrite (a_absorb _ _ Hc3). cbn [fst]. by destruct (state c3).
Qed.

(** C30.  Whatever pieces a message is given to SHA1Update in, none of them half a gigabyte or more, SHA1Final
    answers its SHA-1 digest as the standard defines it (padding, schedule of 80 words, compression of
    the blocks one after the other), and nothing is accessed outside the buffer of the context. *)
Theorem sha1_correct junk pieces :
  length junk = 64%nat -> Forall (Forall is_u8) pieces -> Forall (fun p => Z.of_nat (length p) < 2 ^ 29) pieces ->
  sha1_stream junk pieces = Some (sha1 (concat pieces)).
Proof.
  intros Hj Hp Hl. unfold sha1_stream. destruct (pieces_spec [] _ pieces (SHA1Init_spec junk Hj) Hp Hl) as (c & -> & Hc). cbn [mbind option_bind].
  destruct (SHA1Final_spec _ c Hc) as (c' & ->). done.
Qed.
Lemma sha1_correct_witness : sha1_stream (replicate 64 7) [[97]; [98; 99]] = Some (sha1 (concat [[97]; [98; 99]])).
Proof. apply sha1_correct; [reflexivity| |]; repeat constructor; done. Defined.
(** A piece of 2^29 bytes leaves the upper half of the bit count as it was. *)
Example count_loses_bits c : count0 c = 0 -> count1 (add_count c (2 ^ 29)) = count1 c.
Proof. intros E. unfold add_count. by rewrite E. Qed.
