(* ===== verification/Md5.v ===== *)
(** * MD5 (libc/bionic/md5.c and hash.h, little-endian)

    The four counters keep their places here and the calls of DOIT, which rename them instead, are a
    loop over their arguments.  [None] is an access outside save or zeros. *)
From S2P Require Import Prelude CMem Digest.
#[local] Open Scope Z_scope.

Record counters : Type := Counters { cA : Z; cB : Z; cC : Z; cD : Z }.
Record md5 : Type := Md5 { sz0 : Z; sz1 : Z; counter : counters; save : list Z }.

Definition MD5_Init (save : list Z) : md5 := Md5 0 0 (Counters 0x67452301 0xefcdab89 0x98badcfe 0x10325476) save.

(** ** calc *)
Definition F (x y z : Z) : Z := Z.lor (Z.land x y) (Z.land (Z.lnot x) z).
Definition G (x y z : Z) : Z := Z.lor (Z.land x z) (Z.land y (Z.lnot z)).
Definition H (x y z : Z) : Z := Z.lxor (Z.lxor x y) z.
Definition I (x y z : Z) : Z := u32 (Z.lxor y (Z.lor x (Z.lnot z))).

(** DOIT(a,b,c,d,k,s,i,OP), and the places for the next call. *)
Definition DOIT (X : list Z) (m : counters) (row : (Z -> Z -> Z -> Z) * nat * Z * Z) : counters :=
  let '(Counters a b c d) := m in
  let '(OP, k, s, i) := row in
  Counters d (u32 (b + rol (u32 (a + OP b c d + nth k X 0 + i)) s)) b c.
Definition calls : list ((Z -> Z -> Z -> Z) * nat * Z * Z) := [
  (F, 0%nat, 7, 0xd76aa478); (F, 1%nat, 12, 0xe8c7b756); (F, 2%nat, 17, 0x242070db); (F, 3%nat, 22, 0xc1bdceee);
  (F, 4%nat, 7, 0xf57c0faf); (F, 5%nat, 12, 0x4787c62a); (F, 6%nat, 17, 0xa8304613); (F, 7%nat, 22, 0xfd469501);
  (F, 8%nat, 7, 0x698098d8); (F, 9%nat, 12, 0x8b44f7af); (F, 10%nat, 17, 0xffff5bb1); (F, 11%nat, 22, 0x895cd7be);
  (F, 12%nat, 7, 0x6b901122); (F, 13%nat, 12, 0xfd987193); (F, 14%nat, 17, 0xa679438e); (F, 15%nat, 22, 0x49b40821);
  (G, 1%nat, 5, 0xf61e2562); (G, 6%nat, 9, 0xc040b340); (G, 11%nat, 14, 0x265e5a51); (G, 0%nat, 20, 0xe9b6c7aa);
  (G, 5%nat, 5, 0xd62f105d); (G, 10%nat, 9, 0x2441453); (G, 15%nat, 14, 0xd8a1e681); (G, 4%nat, 20, 0xe7d3fbc8);
  (G, 9%nat, 5, 0x21e1cde6); (G, 14%nat, 9, 0xc33707d6); (G, 3%nat, 14, 0xf4d50d87); (G, 8%nat, 20, 0x455a14ed);
  (G, 13%nat, 5, 0xa9e3e905); (G, 2%nat, 9, 0xfcefa3f8); (G, 7%nat, 14, 0x676f02d9); (G, 12%nat, 20, 0x8d2a4c8a);
  (H, 5%nat, 4, 0xfffa3942); (H, 8%nat, 11, 0x8771f681); (H, 11%nat, 16, 0x6d9d6122); (H, 14%nat, 23, 0xfde5380c);
  (H, 1%nat, 4, 0xa4beea44); (H, 4%nat, 11, 0x4bdecfa9); (H, 7%nat, 16, 0xf6bb4b60); (H, 10%nat, 23, 0xbebfbc70);
  (H, 13%nat, 4, 0x289b7ec6); (H, 0%nat, 11, 0xeaa127fa); (H, 3%nat, 16, 0xd4ef3085); (H, 6%nat, 23, 0x4881d05);
  (H, 9%nat, 4, 0xd9d4d039); (H, 12%nat, 11, 0xe6db99e5); (H, 15%nat, 16, 0x1fa27cf8); (H, 2%nat, 23, 0xc4ac5665);
  (I, 0%nat, 6, 0xf4292244); (I, 7%nat, 10, 0x432aff97); (I, 14%nat, 15, 0xab9423a7); (I, 5%nat, 21, 0xfc93a039);
  (I, 12%nat, 6, 0x655b59c3); (I, 3%nat, 10, 0x8f0ccc92); (I, 10%nat, 15, 0xffeff47d); (I, 1%nat, 21, 0x85845dd1);
  (I, 8%nat, 6, 0x6fa87e4f); (I, 15%nat, 10, 0xfe2ce6e0); (I, 6%nat, 15, 0xa3014314); (I, 13%nat, 21, 0x4e0811a1);
  (I, 4%nat, 6, 0xf7537e82); (I, 11%nat, 10, 0xbd3af235); (I, 2%nat, 15, 0x2ad7d2bb); (I, 9%nat, 21, 0xeb86d391)
].
Definition calc (m : counters) (save : list Z) : counters :=
  let '(Counters a b c d) := foldl (DOIT (words save)) m calls in
  Counters (u32 (a + cA m)) (u32 (b + cB m)) (u32 (c + cC m)) (u32 (d + cD m)).

(** ** The incremental interface *)

(** while(len > 0) *)
Fixpoint update_loop (fuel : nat) (m : counters) (save : list Z) (offset : nat) (p : list Z) : option (counters * list Z) :=
  match p with
  | [] => Some (m, save)
  | _ =>
      match fuel with
      | O => None
      | S fuel =>
          let l := Nat.min (length p) (64 - offset) in
          save ← copy_in save offset (take l p);
          let offset := (offset + l)%nat in
          if (offset =? 64)%nat then update_loop fuel (calc m save) save 0 (drop l p) else update_loop fuel m save offset (drop l p)
      end
  end.
Definition MD5_Update (m : md5) (v : list Z) : option md5 :=
  let len := Z.of_nat (length v) in
  let old_sz := sz0 m in
  let sz0 := u32 (old_sz + u32 (len * 8)) in
  let sz1 := if sz0 <? old_sz then u32 (sz1 m + 1) else sz1 m in
  let offset := Z.to_nat (old_sz / 8 mod 64) in
  '(counter, save) ← update_loop (S (length v)) (counter m) (save m) offset v;
  Some (Md5 sz0 sz1 counter save).
Definition MD5_Final (m : md5) : option (list Z * md5) :=
  let offset := sz0 m / 8 mod 64 in
  let dstart := u32 (120 - offset - 1) mod 64 + 1 in
  zeros ← copy_in (0x80 :: replicate 71 0) (Z.to_nat dstart) (le_bytes (sz0 m) ++ le_bytes (sz1 m));
  m ← MD5_Update m (take (Z.to_nat (dstart + 8)) zeros);
  let c := counter m in
  Some (le_bytes (cA c) ++ le_bytes (cB c) ++ le_bytes (cC c) ++ le_bytes (cD c), m).
(** The digest of a message that is given in pieces. *)
Definition md5_stream (junk : list Z) (pieces : list (list Z)) : option (list Z) :=
  m ← foldl (fun m data => m ← m; MD5_Update m data) (Some (MD5_Init junk)) pieces;
  '(digest, _) ← MD5_Final m;
  Some digest.
(** "abc" *)
Example md5_abc : md5_stream (replicate 64 7) [[97; 98]; []; [99]] =
  Some [0x90; 0x01; 0x50; 0x98; 0x3C; 0xD2; 0x4F; 0xB0; 0xD6; 0x96; 0x3F; 0x7D; 0x28; 0xE1; 0x7F; 0x72].
Proof. vm_compute. reflexivity. Qed.

(** ** RFC 1321 *)
Section rfc.
Definition T : list Z := [
  0xd76aa478; 0xe8c7b756; 0x242070db; 0xc1bdceee; 0xf57c0faf; 0x4787c62a; 0xa8304613; 0xfd469501;
  0x698098d8; 0x8b44f7af; 0xffff5bb1; 0x895cd7be; 0x6b901122; 0xfd987193; 0xa679438e; 0x49b40821;
  0xf61e2562; 0xc040b340; 0x265e5a51; 0xe9b6c7aa; 0xd62f105d; 0x2441453; 0xd8a1e681; 0xe7d3fbc8;
  0x21e1cde6; 0xc33707d6; 0xf4d50d87; 0x455a14ed; 0xa9e3e905; 0xfcefa3f8; 0x676f02d9; 0x8d2a4c8a;
  0xfffa3942; 0x8771f681; 0x6d9d6122; 0xfde5380c; 0xa4beea44; 0x4bdecfa9; 0xf6bb4b60; 0xbebfbc70;
  0x289b7ec6; 0xeaa127fa; 0xd4ef3085; 0x4881d05; 0xd9d4d039; 0xe6db99e5; 0x1fa27cf8; 0xc4ac5665;
  0xf4292244; 0x432aff97; 0xab9423a7; 0xfc93a039; 0x655b59c3; 0x8f0ccc92; 0xffeff47d; 0x85845dd1;
  0x6fa87e4f; 0xfe2ce6e0; 0xa3014314; 0x4e0811a1; 0xf7537e82; 0xbd3af235; 0x2ad7d2bb; 0xeb86d391
].
Definition shifts (round : nat) : list Z := nth round [[7; 12; 17; 22]; [5; 9; 14; 20]; [4; 11; 16; 23]; [6; 10; 15; 21]] [].
Definition operation (i : nat) (c : counters) (X : list Z) : counters :=
  let '(Counters a b c d) := c in
  let round := (i / 16)%nat in
  let f := match round with
           | 0%nat => Z.lor (Z.land b c) (Z.ldiff d b)
           | 1%nat => Z.lor (Z.land b d) (Z.ldiff c d)
           | 2%nat => Z.lxor b (Z.lxor c d)
           | _ => Z.lxor c (Z.lor b (Z.lnot d))
           end in
  let k := (match round with 0 => i | 1 => 5 * i + 1 | 2 => 3 * i + 5 | _ => 7 * i end mod 16)%nat in
  Counters d (u32 (b + rol (u32 (a + f + nth k X 0 + nth i T 0)) (nth (i mod 4) (shifts round) 0))) b c.
Definition md5_block (c : counters) (block : list Z) : counters :=
  let c' := foldl (fun c i => operation i c (words block)) c (seq 0 64) in
  Counters (u32 (cA c + cA c')) (u32 (cB c + cB c')) (u32 (cC c + cC c')) (u32 (cD c + cD c')).
Definition md5_init : counters := Counters 0x67452301 0xefcdab89 0x98badcfe 0x10325476.
Definition md5_padding (msg : list Z) : list Z :=
  0x80 :: replicate (zeros (msg ++ [0x80])) 0 ++ le_bytes (u32 (bits msg)) ++ le_bytes (Z.shiftr (bits msg) 32).
Definition md5_of (msg : list Z) : list Z :=
  let '(Counters a b c d) := (absorb md5_block md5_init (msg ++ md5_padding msg)).1 in le_bytes a ++ le_bytes b ++ le_bytes c ++ le_bytes d.
End rfc.

(** *** The block function *)
Definition row (i : nat) : (Z -> Z -> Z -> Z) * nat * Z * Z :=
  let round := (i / 16)%nat in
  (match round with 0%nat => F | 1%nat => G | 2%nat => H | _ => I end,
   (match round with 0 => i | 1 => 5 * i + 1 | 2 => 3 * i + 5 | _ => 7 * i end mod 16)%nat, nth (i mod 4) (shifts round) 0, nth i T 0).
Lemma calls_rows : calls = map row (seq 0 64).
Proof. reflexivity. Qed.
Lemma not_and x z : Z.land (Z.lnot x) z = Z.ldiff z x.
Proof. apply Z.bits_inj'. intros n Hn. rewrite Z.land_spec, Z.ldiff_spec, Z.lnot_spec by done. apply andb_comm. Qed.
Lemma DOIT_row X m i : DOIT X m (row i) = operation i m X.
Proof.
  destruct m as [a b c d]. unfold DOIT, row, operation. destruct (i / 16)%nat as [|[|[|r]]].
  - unfold F. by rewrite not_and.
  - unfold G. by rewrite (Z.land_comm c), not_and.
  - unfold H. by rewrite Z.lxor_assoc.
  - unfold I. do 3 f_equal. unfold u32. rewrite <- !(Z.add_assoc a), (Z.add_comm a), (Z.add_comm a).
    f_equal. rewrite <- !Z.add_assoc, Z.add_mod_idemp_l by lia. done.
Qed.
Lemma calc_spec m b : calc m b = md5_block m b.
Proof.
  unfold calc, md5_block. rewrite calls_rows.
  assert (forall l m, foldl (DOIT (words b)) m (map row l) = foldl (fun c i => operation i c (words b)) m l) as ->.
  { induction l as [|i l IH]; intros m'; [done|]. cbn [map foldl]. rewrite DOIT_row. apply IH. }
  destruct (foldl _ m _) as [a' b' c' d']. cbn [cA cB cC cD]. f_equal; f_equal; lia.
Qed.

(** *** The pieces of a message *)
Record after (msg : list Z) (m : md5) : Prop := {
  a_room : length (save m) = 64%nat;
  a_absorb : absorb md5_block md5_init msg = (counter m, take (rest msg) (save m));
  a_sz0 : sz0 m = u32 (bits msg);
  a_sz1 : sz1 m = u32 (Z.shiftr (bits msg) 32);
}.
Lemma update_loop_spec fuel m buf offset p :
  length buf = 64%nat -> (offset < 64)%nat -> (length p < fuel)%nat ->
  exists m' buf', update_loop fuel m buf offset p = Some (m', buf') /\ length buf' = 64%nat /\
    let '(s, tl) := absorb md5_block m (take offset buf ++ p) in m' = s /\ take (length tl) buf' = tl.
Proof.
  revert m buf offset p. induction fuel as [|fuel IH]; intros m buf offset p Hb Ho Hf; [lia|].
  assert (length (take offset buf) = offset) as Ht by (rewrite length_take; lia).
  destruct p as [|x p]; cbn [update_loop].
  { exists m, buf. rewrite app_nil_r, absorb_short by lia. split; [done|]. split; [done|]. split; [done|]. by rewrite Ht. }
  set (q := x :: p) in *. assert (0 < length q)%nat as Hq by (cbn; lia). clearbody q. set (l := Nat.min (length q) (64 - offset)).
  assert (length (take l q) = l) as Hl by (rewrite length_take; lia). assert (offset + l <= 64)%nat as Hol by lia.
  rewrite copy_in_fits by lia. cbn [mbind option_bind].
  assert (take (offset + l) (blit buf offset (take l q)) = take offset buf ++ take l q) as Etake.
  { unfold blit. rewrite app_assoc, take_app_le, take_ge by (rewrite length_app; lia). done. }
  assert (length (blit buf offset (take l q)) = 64%nat) as Hlb by (rewrite length_blit; lia).
  destruct (Nat.eqb_spec (offset + l) 64) as [E|E].
  - destruct (IH (calc m (blit buf offset (take l q))) (blit buf offset (take l q)) 0%nat (drop l q)) as (m' & buf' & -> & Hl' & Hab); [done|lia|rewrite length_drop; lia|].
    exists m', buf'. split; [done|]. split; [done|]. cbn [take app] in Hab. rewrite E, take_ge in Etake by lia.
    rewrite <- (take_drop l q), app_assoc, <- Etake, absorb_block, <- calc_spec by done. by rewrite take_0 in Hab.
  - destruct (IH m (blit buf offset (take l q)) (offset + l)%nat (drop l q)) as (m' & buf' & -> & Hl' & Hab); [done|lia|rewrite length_drop; lia|].
    exists m', buf'. split; [done|]. split; [done|]. rewrite Etake, <- app_assoc, take_drop in Hab. exact Hab.
Qed.
Lemma MD5_Update_spec msg data m :
  after msg m -> Z.of_nat (length data) < 2 ^ 29 -> exists m', MD5_Update m data = Some m' /\ after (msg ++ data) m'.
Proof.
  intros [Hr Ha H0 H1] Hd. pose proof (rest_lt msg). unfold MD5_Update. rewrite H0, H1. cbn beta iota zeta.
  assert (Z.to_nat (u32 (bits msg) / 8 mod 64) = rest msg) as -> by (rewrite <- rest_bits; lia).
  destruct (update_loop_spec (S (length data)) (counter m) (save m) (rest msg) data) as (c' & buf' & -> & Hl & Hab); [done|done|lia|]. cbn [mbind option_bind].
  destruct (count_carry msg data Hd) as [En Ec]. cbv zeta in En, Ec.
  assert (u32 (Z.of_nat (length data) * 8) = u32 (bits data)) as -> by (unfold bits; f_equal; lia).
  pose proof (absorb_at md5_block md5_init (msg ++ data)) as Hrest.
  assert (absorb md5_block md5_init (msg ++ data) = absorb md5_block (counter m) (take (rest msg) (save m) ++ data)) as Hm by (by rewrite absorb_app, Ha).
  rewrite <- Hm in Hab. destruct (absorb md5_block md5_init (msg ++ data)) as [s tl] eqn:Eab. destruct Hab as [-> Htl]. cbn [snd] in Hrest.
  eexists. split; [done|]. split; cbn [save counter sz0 sz1]; [done| |exact En|].
  - by rewrite Hrest, Htl.
  - rewrite <- Ec. destruct (_ <? _); [done|]. rewrite Z.add_0_r. symmetry. apply u32_id, u32_range.
Qed.
Lemma md5_pieces_spec msg m pieces :
  after msg m -> Forall (fun p => Z.of_nat (length p) < 2 ^ 29) pieces ->
  exists m', foldl (fun m data => m ← m; MD5_Update m data) (Some m) pieces = Some m' /\ after (msg ++ concat pieces) m'.
Proof.
  intros Hc Hl. revert msg m Hc. induction Hl as [|p pieces Hp Hps IH]; intros msg m Hc; [exists m; by rewrite app_nil_r|].
  cbn [foldl mbind option_bind concat]. destruct (MD5_Update_spec msg p m Hc) as (c1 & -> & Hc1); [done|]. rewrite app_assoc. by apply IH.
Qed.
Lemma MD5_Final_spec msg m : after msg m -> exists m', MD5_Final m = Some (md5_of msg, m').
Proof.
  intros Hc. pose proof (rest_lt msg) as Hr. unfold MD5_Final. rewrite (a_sz0 _ _ Hc), (a_sz1 _ _ Hc), <- rest_bits.
  set (k := zeros (msg ++ [0x80])).
  assert (u32 (120 - Z.of_nat (rest msg) - 1) mod 64 + 1 = Z.of_nat (S k)) as ->.
  { rewrite u32_id by (unfold is_u32; lia). unfold k, zeros, rest. rewrite length_app, Nat2Z.inj_mod. cbn [length]. Z.div_mod_to_equations. lia. }
  assert (k < 64)%nat as Hk by (unfold k, zeros; pose proof (Z.mod_pos_bound (56 - Z.of_nat (length (msg ++ [128]))) 64 ltac:(lia)); lia).
  rewrite copy_in_fits by (cbn [length le_bytes map app]; rewrite length_replicate; lia). cbn [mbind option_bind].
  assert (take (Z.to_nat (Z.of_nat (S k) + 8)) (blit (128 :: replicate 71 0) (Z.to_nat (Z.of_nat (S k))) (le_bytes (u32 (bits msg)) ++ le_bytes (u32 (Z.shiftr (bits msg) 32)))) = md5_padding msg) as ->.
  { rewrite Nat2Z.id. replace (Z.to_nat (Z.of_nat (S k) + 8)) with (S k + 8)%nat by lia. unfold blit, md5_padding. fold k. rewrite app_assoc, take_app_le, take_ge.
    - cbn [take app]. rewrite take_replicate, Nat.min_l by lia. by rewrite (le_bytes_u32 (Z.shiftr _ _)).
    - rewrite length_app, length_take. cbn. lia.
    - rewrite length_app, length_take. cbn [length]. rewrite length_replicate. cbn. lia. }
  destruct (MD5_Update_spec msg (md5_padding msg) m Hc) as (m' & -> & Hm').
  { unfold md5_padding. fold k. cbn [length]. rewrite !length_app, length_replicate. cbn. lia. }
  cbn [mbind option_bind]. exists m'. unfold md5_of. rewrite (a_absorb _ _ Hm'). cbn [fst]. by destruct (counter m').
Qed.

(** C31.  Whatever pieces a message is given to MD5_Update in, none of them half a gigabyte or more,
    MD5_Final answers its MD5 digest as RFC 1321 defines it (its order of words, shifts and constants,
    its padding), and nothing is accessed outside save and zeros. *)
Theorem md5_correct junk pieces :
  length junk = 64%nat -> Forall (fun p => Z.of_nat (length p) < 2 ^ 29) pieces -> md5_stream junk pieces = Some (md5_of (concat pieces)).
Proof.
  intros Hj Hl. unfold md5_stream. destruct (md5_pieces_spec [] (MD5_Init junk) pieces) as (m & -> & Hm); [by split|done|]. cbn [mbind option_bind].
  destruct (MD5_Final_spec _ m Hm) as (m' & ->). done.
Qed.
Lemma md5_correct_witness : md5_stream (replicate 64 7) [[97]; [98; 99]] = Some (md5_of (concat [[97]; [98; 99]])).
Proof. apply md5_correct; [reflexivity|]. repeat constructor; done. Defined.
