(* ===== verification/Getopt.v ===== *)
(** * Command line options (libc/unistd/getopt_long.c)

    An element of argv is the number of a string, [str] their characters without the NUL; a pointer
    into one is the number with an offset.  nargv[nargc] is NULL, and an access behind it is [None], as
    is one behind the NUL of a string.  The messages on stderr are left out, and getenv is an argument;
    for nonopt_start and nonopt_end, [None] is -1. *)
From S2P Require Import Prelude.
#[local] Open Scope Z_scope.

(** ** permute_args *)
Fixpoint gcd_loop (fuel : nat) (a b : nat) : option nat :=
  match fuel with
  | O => None
  | S fuel => if (b =? 0)%nat then None else let c := (a mod b)%nat in if (c =? 0)%nat then Some b else gcd_loop fuel b c
  end.
Definition gcd (a b : nat) : option nat := gcd_loop (S b) a b.

(** swap = nargv[pos]; nargv[pos] = nargv[cstart]; nargv[cstart] = swap *)
Definition swap_args (nargv : list nat) (pos cstart : nat) : option (list nat) :=
  swap ← nargv !! pos;
  x ← nargv !! cstart;
  Some (<[cstart := swap]> (<[pos := x]> nargv)).
Fixpoint cycle_loop (panonopt_end nnonopts nopts cyclelen : nat) (pos cstart : nat) (nargv : list nat) : option (list nat) :=
  match cyclelen with
  | O => Some nargv
  | S cyclelen =>
      let pos := (if panonopt_end <=? pos then pos - nnonopts else pos + nopts)%nat in
      nargv ← swap_args nargv pos cstart;
      cycle_loop panonopt_end nnonopts nopts cyclelen pos cstart nargv
  end.
Fixpoint cycles_loop (panonopt_end nnonopts nopts cyclelen n i : nat) (nargv : list nat) : option (list nat) :=
  match n with
  | O => Some nargv
  | S n =>
      let cstart := (panonopt_end + i)%nat in
      nargv ← cycle_loop panonopt_end nnonopts nopts cyclelen cstart cstart nargv;
      cycles_loop panonopt_end nnonopts nopts cyclelen n (S i) nargv
  end.
Definition permute_args (panonopt_start panonopt_end opt_end : nat) (nargv : list nat) : option (list nat) :=
  let nnonopts := (panonopt_end - panonopt_start)%nat in
  let nopts := (opt_end - panonopt_end)%nat in
  ncycle ← gcd nnonopts nopts;
  let cyclelen := ((opt_end - panonopt_start) / ncycle)%nat in
  cycles_loop panonopt_end nnonopts nopts cyclelen ncycle 0 nargv.

(** ** The state *)
Inductive has_arg_t : Type := no_argument | required_argument | optional_argument.
#[export] Instance has_arg_dec : EqDecision has_arg_t.
Proof. solve_decision. Defined.
(** struct option; [flag] is the number of the variable that it points to. *)
Record option_t : Type := LongOption { name : list Z; has_arg : has_arg_t; flag : option nat; val : Z }.
(** A pointer into a string. *)
Record ptr : Type := Ptr { p_str : nat; p_off : nat }.
(** The globals, nargv, *idx and the variables of long options; a place of [None] is EMSG. *)
Record getopt_state : Type := State {
  optind : nat; optopt : Z; optarg : option ptr; optreset : bool; place : option ptr;
  nonopt_start : option nat; nonopt_end : option nat; nargv : list nat; longidx : nat; vars : gmap nat Z }.
Definition set_optind (n : nat) (s : getopt_state) : getopt_state :=
  State n (optopt s) (optarg s) (optreset s) (place s) (nonopt_start s) (nonopt_end s) (nargv s) (longidx s) (vars s).
Definition set_optopt (c : Z) (s : getopt_state) : getopt_state :=
  State (optind s) c (optarg s) (optreset s) (place s) (nonopt_start s) (nonopt_end s) (nargv s) (longidx s) (vars s).
Definition set_optarg (p : option ptr) (s : getopt_state) : getopt_state :=
  State (optind s) (optopt s) p (optreset s) (place s) (nonopt_start s) (nonopt_end s) (nargv s) (longidx s) (vars s).
Definition set_place (p : option ptr) (s : getopt_state) : getopt_state :=
  State (optind s) (optopt s) (optarg s) (optreset s) p (nonopt_start s) (nonopt_end s) (nargv s) (longidx s) (vars s).
Definition set_optreset (b : bool) (s : getopt_state) : getopt_state :=
  State (optind s) (optopt s) (optarg s) b (place s) (nonopt_start s) (nonopt_end s) (nargv s) (longidx s) (vars s).
Definition set_nonopts (a b : option nat) (s : getopt_state) : getopt_state :=
  State (optind s) (optopt s) (optarg s) (optreset s) (place s) a b (nargv s) (longidx s) (vars s).
Definition set_nargv (l : list nat) (s : getopt_state) : getopt_state :=
  State (optind s) (optopt s) (optarg s) (optreset s) (place s) (nonopt_start s) (nonopt_end s) l (longidx s) (vars s).
Definition set_longidx (i : nat) (s : getopt_state) : getopt_state :=
  State (optind s) (optopt s) (optarg s) (optreset s) (place s) (nonopt_start s) (nonopt_end s) (nargv s) i (vars s).
Definition set_vars (v : gmap nat Z) (s : getopt_state) : getopt_state :=
  State (optind s) (optopt s) (optarg s) (optreset s) (place s) (nonopt_start s) (nonopt_end s) (nargv s) (longidx s) v.
Definition nargc (s : getopt_state) : nat := length (nargv s).
(** nargv[i], which may be NULL *)
Definition arg_at (s : getopt_state) (i : nat) : option (option nat) :=
  if (i <? nargc s)%nat then Some (nargv s !! i) else if (i =? nargc s)%nat then Some None else None.

(** The bits of flags *)
Record mode : Type := Mode { FLAG_PERMUTE : bool; FLAG_ALLARGS : bool; FLAG_LONGONLY : bool }.
Definition BADCH : Z := 63.
Definition INORDER : Z := 1.
Definition COLON : Z := 58.
Definition DASH : Z := 45.
Definition PLUS : Z := 43.
Definition EQUAL : Z := 61.
Definition BADARG (options : list Z) : Z := if hd 0 options =? COLON then COLON else BADCH.

(** strchr(s, c): the characters from the found one on; the NUL is found behind the last. *)
Fixpoint strchr (s : list Z) (c : Z) : option (list Z) :=
  match s with
  | [] => if c =? 0 then Some [] else None
  | d :: s' => if d =? c then Some s else strchr s' c
  end.
(** !strncmp(a, b, n) *)
Fixpoint same_prefix (n : nat) (a b : list Z) : bool :=
  match n with
  | O => true
  | S n => if hd 0 a =? hd 0 b then (if hd 0 a =? 0 then true else same_prefix n (tail a) (tail b)) else false
  end.

Section getopt.
Context (str : nat -> list Z).
(** The characters from a pointer on. *)
Definition text (p : option ptr) : list Z := match p with None => [] | Some p => drop (p_off p) (str (p_str p)) end.
Definition forward (n : nat) (p : ptr) : ptr := Ptr (p_str p) (p_off p + n).
(** place++ *)
Definition next_place (s : getopt_state) : option getopt_state :=
  match place s, text (place s) with Some p, _ :: _ => Some (set_place (Some (forward 1 p)) s) | _, _ => None end.

(** ** parse_long_options *)
Inductive long_match : Type := MatchAt (i : nat) | NoMatch | Ambiguous.
Fixpoint match_loop (current : list Z) (len : nat) (short_too : bool) (i : nat) (longs : list option_t) (found : option nat) : long_match :=
  match longs with
  | [] => match found with Some i => MatchAt i | None => NoMatch end
  | o :: longs =>
      if negb (same_prefix len current (name o)) then match_loop current len short_too (S i) longs found
      else if (length (name o) =? len)%nat then MatchAt i
      else if short_too && (len =? 1)%nat then match_loop current len short_too (S i) longs found
      else match found with
           | None => match_loop current len short_too (S i) longs (Some i)
           | Some _ => Ambiguous
           end
  end.
Definition bad_option (o : option_t) (s : getopt_state) : getopt_state := set_optopt (match flag o with None => val o | Some _ => 0 end) s.
Definition parse_long_options (options : list Z) (long_options : list option_t) (short_too : bool) (s : getopt_state) : option (getopt_state * Z) :=
  let current := text (place s) in
  let s := set_optind (optind s + 1) s in
  let equal := strchr current EQUAL in
  let len := match equal with Some e => (length current - length e)%nat | None => length current end in
  let has_equal := match equal, place s with Some _, Some p => Some (forward (len + 1) p) | _, _ => None end in
  match match_loop current len short_too 0 long_options None with
  | Ambiguous => Some (set_optopt 0 s, BADCH)
  | NoMatch => if short_too then Some (set_optind (optind s - 1) s, -1) else Some (set_optopt 0 s, BADCH)
  | MatchAt i =>
      o ← long_options !! i;
      if bool_decide (has_arg o = no_argument) && negb (bool_decide (has_equal = None)) then Some (bad_option o s, BADARG options)
      else
        s ← (if bool_decide (has_arg o = no_argument) then Some s
             else match has_equal with
                  | Some p => Some (set_optarg (Some p) s)
                  | None =>
                      if bool_decide (has_arg o = required_argument)
                      then a ← arg_at s (optind s); Some (set_optind (optind s + 1) (set_optarg ((fun a => Ptr a 0) <$> a) s))
                      else Some s
                  end);
        if bool_decide (has_arg o = required_argument) && bool_decide (optarg s = None)
        then Some (set_optind (optind s - 1) (bad_option o s), BADARG options)
        else
          let s := set_longidx i s in
          match flag o with
          | Some v => Some (set_vars (<[v := val o]> (vars s)) s, 0)
          | None => Some (s, val o)
          end
  end.

(** ** getopt_internal *)

(** Non-options are kept back in nargv; [permute s] moves the options behind them before them. *)
Definition permute (s : getopt_state) : option getopt_state :=
  match nonopt_start s, nonopt_end s with
  | Some a, Some b => l ← permute_args a b (optind s) (nargv s); Some (set_nargv l s)
  | _, _ => None
  end.
(** permute_args(...); optind -= nonopt_end - nonopt_start, if there are non-options before options *)
Definition finish (s : getopt_state) : option getopt_state :=
  match nonopt_start s, nonopt_end s with
  | _, None => Some s
  | a, Some b => s ← permute s; Some (set_optind (optind s - (b - default 0%nat a)) s)
  end.
(** From start: on; the answer is what getopt_internal returns, or [None] when there is an option at place. *)
Fixpoint scan (fuel : nat) (options : list Z) (flags : mode) (s : getopt_state) : option (getopt_state * option Z) :=
  match fuel with
  | O => None
  | S fuel =>
      if negb (optreset s || match text (place s) with [] => true | _ => false end) then Some (s, None)
      else
        let s := set_optreset false s in
        if (nargc s <=? optind s)%nat then
          let s := set_place None s in
          s ← (match nonopt_end s, nonopt_start s with
               | None, Some a => Some (set_optind a s)
               | _, _ => finish s
               end);
          Some (set_nonopts None None s, Some (-1))
        else
          a ← nargv s !! optind s;
          let t := str a in
          let s := set_place (Some (Ptr a 0)) s in
          if negb (hd 0 t =? DASH) || ((length t =? 1)%nat && bool_decide (strchr options DASH = None)) then
            let s := set_place None s in
            if FLAG_ALLARGS flags then Some (set_optind (optind s + 1) (set_optarg (Some (Ptr a 0)) s), Some INORDER)
            else if negb (FLAG_PERMUTE flags) then Some (s, Some (-1))
            else
              s ← (match nonopt_start s, nonopt_end s with
                   | None, _ => Some (set_nonopts (Some (optind s)) (nonopt_end s) s)
                   | Some a, Some b => s ← permute s; Some (set_nonopts (Some (optind s - (b - a))%nat) None s)
                   | Some _, None => Some s
                   end);
              scan fuel options flags (set_optind (optind s + 1) s)
          else
            let s := match nonopt_start s, nonopt_end s with Some _, None => set_nonopts (nonopt_start s) (Some (optind s)) s | _, _ => s end in
            if (length t =? 1)%nat then Some (s, None)
            else
              let s := set_place (Some (Ptr a 1)) s in
              if (nth 1 t 0 =? DASH) && (length t =? 2)%nat then
                s ← finish (set_place None (set_optind (optind s + 1) s));
                Some (set_nonopts None None s, Some (-1))
              else Some (s, None)
  end.

(** The long options, when they apply: a value to return, or [None] to go on with a short option. *)
Definition try_long (options : list Z) (long_options : option (list option_t)) (flags : mode) (s : getopt_state) : option (getopt_state * option Z) :=
  match long_options with
  | None => Some (s, None)
  | Some longs =>
      a ← arg_at s (optind s);
      let at_start := match place s, a with Some p, Some a => bool_decide (p_str p = a) && (p_off p =? 0)%nat | _, _ => false end in
      let c := hd 0 (text (place s)) in
      if negb at_start && ((c =? DASH) || FLAG_LONGONLY flags) then
        s' ← (if c =? DASH then next_place s else Some s);
        let short_too := negb (c =? DASH) && negb (c =? COLON) && negb (bool_decide (strchr options c = None)) in
        '(s, optchar) ← parse_long_options options longs short_too s';
        if negb (optchar =? -1) then Some (set_place None s, Some optchar) else Some (s, None)
      else Some (s, None)
  end.
(** if (!*place) ++optind *)
Definition end_of_arg (s : getopt_state) : getopt_state := match text (place s) with [] => set_optind (optind s + 1) s | _ => s end.
(** The argument of the short option at [oli]. *)
Definition short_arg (options oli : list Z) (optchar : Z) (flags : mode) (s : getopt_state) : option (getopt_state * Z) :=
  if negb (hd 0 (tail oli) =? COLON) then Some (end_of_arg s, optchar)
  else
    let s := set_optarg None s in
    let done s := Some (set_optind (optind s + 1) (set_place None s), optchar) in
    match text (place s) with
    | _ :: _ => done (set_optarg (place s) s)
    | [] =>
        if negb (hd 0 (tail (tail oli)) =? COLON) then
          let s := set_optind (optind s + 1) s in
          if (nargc s <=? optind s)%nat then Some (set_optopt optchar (set_place None s), BADARG options)
          else a ← nargv s !! optind s; done (set_optarg (Some (Ptr a 0)) s)
        else if negb (FLAG_PERMUTE flags) then
          match nargv s !! (optind s + 1)%nat with
          | Some a => if negb (hd 0 (str a) =? DASH) then done (set_optind (optind s + 1) (set_optarg (Some (Ptr a 0)) s)) else done s
          | None => done s
          end
        else done s
    end.
Definition short_option (options : list Z) (long_options : option (list option_t)) (flags : mode) (s : getopt_state) : option (getopt_state * Z) :=
  let optchar := hd 0 (text (place s)) in
  s ← next_place s;
  let more := match text (place s) with [] => false | _ => true end in
  match (if (optchar =? COLON) || ((optchar =? DASH) && more) then None else strchr options optchar) with
  | None =>
      if (optchar =? DASH) && negb more then Some (s, -1)
      else Some (set_optopt optchar (end_of_arg s), BADCH)
  | Some oli =>
      match long_options with
      | Some longs =>
          if (optchar =? 87) && (hd 0 (tail oli) =? 59) then
            if more then
              '(s, optchar) ← parse_long_options options longs false s; Some (set_place None s, optchar)
            else
              let s := set_optind (optind s + 1) s in
              if (nargc s <=? optind s)%nat then Some (set_optopt optchar (set_place None s), BADARG options)
              else
                a ← nargv s !! optind s;
                '(s, optchar) ← parse_long_options options longs false (set_place (Some (Ptr a 0)) s);
                Some (set_place None s, optchar)
          else short_arg options oli optchar flags s
      | None => short_arg options oli optchar flags s
      end
  end.
Definition getopt_internal (posixly_correct : bool) (options : list Z) (long_options : option (list option_t)) (flags : mode) (s : getopt_state) : option (getopt_state * Z) :=
  let c := hd 0 options in
  let flags :=
    if posixly_correct || (c =? PLUS) then Mode false (FLAG_ALLARGS flags) (FLAG_LONGONLY flags)
    else if c =? DASH then Mode (FLAG_PERMUTE flags) true (FLAG_LONGONLY flags) else flags in
  let options := if (c =? PLUS) || (c =? DASH) then tail options else options in
  let s := if (optind s =? 0)%nat then set_optreset true (set_optind 1 s) else s in
  let s := set_optarg None s in
  let s := if optreset s then set_nonopts None None s else s in
  '(s, r) ← scan (S (S (nargc s))) options flags s;
  match r with
  | Some r => Some (s, r)
  | None =>
      '(s, r) ← try_long options long_options flags s;
      match r with
      | Some r => Some (s, r)
      | None => short_option options long_options flags s
      end
  end.
Definition getopt (posixly_correct : bool) (options : list Z) : getopt_state -> option (getopt_state * Z) :=
  getopt_internal posixly_correct options None (Mode false false false).
Definition getopt_long (posixly_correct : bool) (options : list Z) (long_options : list option_t) : getopt_state -> option (getopt_state * Z) :=
  getopt_internal posixly_correct options (Some long_options) (Mode true false false).
Definition getopt_long_only (posixly_correct : bool) (options : list Z) (long_options : list option_t) : getopt_state -> option (getopt_state * Z) :=
  getopt_internal posixly_correct options (Some long_options) (Mode true false true).
End getopt.

(** ** A client: it calls until the answer is -1 *)
Section client.
Context (str : nat -> list Z) (call : getopt_state -> option (getopt_state * Z)).
Fixpoint client (fuel : nat) (s : getopt_state) : option (getopt_state * list (Z * option ptr)) :=
  match fuel with
  | O => None
  | S fuel =>
      '(s, r) ← call s;
      if r =? -1 then Some (s, [])
      else '(s', rs) ← client fuel s; Some (s', (r, optarg s) :: rs)
  end.
End client.
Definition initial (nargv : list nat) : getopt_state := State 1 BADCH None false None None None nargv 0 ∅.

Definition sample_args : nat -> list Z := fun i => nth i [[112]; [120]; [45; 97; 98; 49]; [121]; [45; 45; 118]; [45; 98]; [122]; [45; 45]; [45; 97]] [].
(** prog x -ab1 y --v -b z -- -a, with the options "ab:" and the long option "verbose" *)
Example getopt_sample :
  option_map (fun '(s, rs) => (nargv s, optind s, rs)) (client (getopt_long sample_args false [97; 98; 58] [LongOption [118; 101; 114; 98] no_argument None 86]) 9 (initial (seq 0 9))) =
  Some ([0; 2; 4; 5; 6; 7; 1; 3; 8]%nat, 6%nat, [(97, None); (98, Some (Ptr 2 3)); (86, None); (98, Some (Ptr 6 0))]).
Proof. vm_compute. reflexivity. Qed.
(** "-a-" with the options "a": behind the option the dash ends the parsing, at an argument that looks like the first operand. *)
Example getopt_stops_at_dash :
  option_map (fun '(s, rs) => (optind s, rs)) (client (getopt (fun i => nth i [[112]; [45; 97; 45]; [45; 97]] []) false [97]) 9 (initial (seq 0 3))) =
  Some (1%nat, [(97, None)]).
Proof. vm_compute. reflexivity. Qed.

(** ** The exchange of two blocks *)
#[local] Open Scope nat_scope.

(** ** permute_args exchanges two blocks *)
Lemma gcd_spec a b : 0 < b -> gcd a b = Some (Nat.gcd a b).
Proof.
  intros Hb. unfold gcd. assert (b < S b) as Hf by lia. revert Hf. generalize (S b) as fuel. intros fuel. revert a b Hb.
  induction fuel as [|fuel IH]; intros a b Hb Hf; [lia|]. cbn [gcd_loop]. destruct (Nat.eqb_spec b 0); [lia|].
  rewrite (Nat.gcd_comm a b), <- Nat.gcd_mod, Nat.gcd_comm by lia. destruct (Nat.eqb_spec (a mod b) 0) as [->|Hne]; [by rewrite Nat.gcd_0_r|].
  apply IH; [lia|]. pose proof (Nat.mod_upper_bound a b). lia.
Qed.

Section rotation.
Context (a b : nat) (Ha : 0 < a) (Hb : 0 < b).
Let n := a + b.
Let g := Nat.gcd a b.
Let L := n / g.
(** Where the element at [r] goes. *)
Definition nx (r : nat) : nat := if a <=? r then r - a else r + b.
Lemma nx_mod r : r < n -> nx r = (r + b) mod n.
Proof using Ha Hb.
  intros Hr. unfold nx, n in *. destruct (Nat.leb_spec a r).
  - replace (r + b) with (r - a + 1 * (a + b)) by lia. rewrite Nat.Div0.mod_add. symmetry. apply Nat.mod_small. lia.
  - symmetry. apply Nat.mod_small. lia.
Qed.
Lemma nx_lt r : r < n -> nx r < n.
Proof using Ha Hb. intros Hr. unfold nx, n in *. destruct (Nat.leb_spec a r); lia. Qed.
Lemma nx_back r : r < n -> exists r', r' < n /\ nx r' = r.
Proof using Ha Hb.
  intros Hr. unfold nx, n in *. destruct (Nat.ltb_spec r b).
  - exists (r + a). destruct (Nat.leb_spec a (r + a)); lia.
  - exists (r - b). destruct (Nat.leb_spec a (r - b)); lia.
Qed.
Lemma nx_inj r r' : r < n -> r' < n -> nx r = nx r' -> r = r'.
Proof using Ha Hb. intros Hr Hr'. unfold nx, n in *. destruct (Nat.leb_spec a r), (Nat.leb_spec a r'); lia. Qed.

Lemma g_pos : 0 < g.
Proof using Ha Hb. unfold g. destruct (Nat.gcd a b) eqn:E; [apply Nat.gcd_eq_0 in E; lia|lia]. Qed.
Lemma g_divides : exists x y, a = g * x /\ b = g * y /\ 0 < x /\ 0 < y /\ L = x + y /\ n = g * L /\ Nat.gcd y L = 1.
Proof using Ha Hb.
  pose proof g_pos as Hg. destruct (Nat.gcd_divide_l a b) as [x Hx]. destruct (Nat.gcd_divide_r a b) as [y Hy]. fold g in Hx, Hy.
  assert (L = x + y) as HL by (unfold L, n; replace (a + b) with ((x + y) * g) by lia; by rewrite Nat.div_mul by lia).
  exists x, y. split; [lia|]. split; [lia|]. split; [nia|]. split; [nia|]. split; [done|]. split; [unfold n; nia|].
  rewrite HL, Nat.gcd_add_diag_r, Nat.gcd_comm.
  assert (Nat.gcd (a / g) (b / g) = 1) as H by (apply Nat.gcd_div_gcd; [lia|done]). by rewrite Hx, Hy, !Nat.div_mul in H by lia.
Qed.

(** The places of the element at [c] after 0, 1, ... steps. *)
Section cycle.
Context (c : nat) (Hc : c < n).
Definition at_step (t : nat) : nat := Nat.iter t nx c.
Lemma at_step_mod t : at_step t = (c + t * b) mod n /\ at_step t < n.
Proof using Ha Hb Hc.
  induction t as [|t [IH1 IH2]]; [unfold at_step; cbn [Nat.iter]; rewrite Nat.mul_0_l, Nat.add_0_r, Nat.mod_small by done; done|]. change (at_step (S t)) with (nx (at_step t)).
  split; [|by apply nx_lt]. rewrite nx_mod, IH1, Nat.Div0.add_mod_idemp_l by done. f_equal. lia.
Qed.
Lemma divides_mod x y : x <= y -> x mod n = y mod n -> Nat.divide n (y - x).
Proof using Ha Hb Hc. intros Hle E. pose proof (Nat.div_mod_eq x n) as H1. pose proof (Nat.div_mod_eq y n) as H2. exists (y / n - x / n). rewrite Nat.mul_sub_distr_r. lia. Qed.
Lemma at_step_inj t u : t < L -> u < L -> at_step t = at_step u -> t = u.
Proof using Ha Hb Hc.
  destruct g_divides as (x & y & Ea & Eb & Hx & Hy & EL & En & Hg). pose proof g_pos.
  assert (forall t u, t <= u -> u < L -> at_step t = at_step u -> t = u) as Hle.
  { intros t' u' Htu Hu E. destruct (at_step_mod t') as [Et _], (at_step_mod u') as [Eu _]. rewrite Et, Eu in E.
    apply divides_mod in E; [|nia]. replace (c + u' * b - (c + t' * b)) with (g * ((u' - t') * y)) in E by nia. rewrite En in E.
    apply Nat.mul_divide_cancel_l in E; [|lia]. rewrite Nat.mul_comm in E. apply Nat.gauss in E; [|by rewrite Nat.gcd_comm].
    destruct E as [k Hk]. destruct k; nia. }
  intros Ht Hu E. destruct (Nat.le_ge_cases t u); [by apply Hle|]. symmetry. by apply Hle.
Qed.
Lemma at_step_back : at_step L = c.
Proof using Ha Hb Hc.
  destruct g_divides as (x & y & Ea & Eb & Hx & Hy & EL & En & Hg). destruct (at_step_mod L) as [-> _].
  replace (c + L * b) with (c + y * n) by nia. rewrite Nat.Div0.mod_add. by apply Nat.mod_small.
Qed.
Lemma at_step_class t : at_step t mod g = c mod g.
Proof using Ha Hb Hc.
  destruct g_divides as (x & y & Ea & Eb & Hx & Hy & EL & En & Hg). destruct (at_step_mod t) as [-> _].
  pose proof (Nat.div_mod_eq (c + t * b) n) as E. rewrite <- (Nat.Div0.mod_add ((c + t * b) mod n) (L * ((c + t * b) / n)) g).
  replace ((c + t * b) mod n + L * ((c + t * b) / n) * g) with (c + t * y * g) by nia. apply Nat.Div0.mod_add.
Qed.
Lemma at_step_all r : r < n -> r mod g = c mod g -> exists t, t < L /\ at_step t = r.
Proof using Ha Hb Hc.
  destruct g_divides as (x & y & Ea & Eb & Hx & Hy & EL & En & Hg). pose proof g_pos as Hgp. intros Hr Hm.
  (* u * y = 1 modulo L *)
  destruct (Nat.gcd_bezout_pos y L ltac:(lia)) as (u & v & Huv). rewrite Hg in Huv.
  (* r = c + g * s modulo n *)
  set (s := (r + (g * L) * c - c) / g).
  assert (r + g * L * c = c + g * s) as Hs.
  { unfold s. pose proof (Nat.div_mod_eq r g). pose proof (Nat.div_mod_eq c g). assert (r + g * L * c - c = (r / g + L * c - c / g) * g) as ->; [|rewrite Nat.div_mul by lia]; nia. }
  exists ((s * u) mod L). split; [apply Nat.mod_upper_bound; lia|]. destruct (at_step_mod ((s * u) mod L)) as [-> _].
  pose proof (Nat.div_mod_eq (s * u) L) as E. set (q := s * u / L) in *. set (t := (s * u) mod L) in *.
  rewrite <- (Nat.Div0.mod_add (c + t * b) (q * y) n). replace (c + t * b + q * y * n) with (c + s * u * b) by nia.
  replace (c + s * u * b) with (r + (c + s * v) * n) by nia. rewrite Nat.Div0.mod_add. by apply Nat.mod_small.
Qed.
End cycle.
End rotation.

Lemma swap_args_spec l pos c x y :
  l !! pos = Some x -> l !! c = Some y ->
  exists l', swap_args l pos c = Some l' /\ length l' = length l /\ forall j, l' !! j = if decide (j = c) then Some x else if decide (j = pos) then Some y else l !! j.
Proof.
  intros Hx Hy. unfold swap_args. rewrite Hx, Hy. cbn [mbind option_bind]. eexists. split; [done|]. split; [by rewrite !length_insert|].
  apply lookup_lt_Some in Hx as Hlx. apply lookup_lt_Some in Hy as Hly. intros j. destruct (decide (j = c)) as [->|Hjc].
  - rewrite list_lookup_insert_eq by (rewrite length_insert; lia). done.
  - rewrite list_lookup_insert_ne by done. destruct (decide (j = pos)) as [->|Hjp]; [by rewrite list_lookup_insert_eq|by rewrite list_lookup_insert_ne].
Qed.

Section permuting.
Context (ps a b : nat) (Ha : 0 < a) (Hb : 0 < b).
Context (n g L : nat) (En : n = a + b) (Eg : g = Nat.gcd a b) (EL : L = n / g).

Section one_cycle.
Context (c : nat) (Hc : c < n).
Notation at_ := (at_step a b c).
Lemma at_inj t u : t < L -> u < L -> at_ t = at_ u -> t = u.
Proof using All. subst. by apply at_step_inj. Qed.
Lemma at_back : at_ L = c.
Proof using All. subst. by apply at_step_back. Qed.
Lemma at_lt t : at_ t < n.
Proof using All. subst. by apply at_step_mod. Qed.
Context (l0 : list nat) (Hl0 : ps + n <= length l0).
(** After [t] steps: the elements behind the first are in their places, and the next one is at [c]. *)
Record cycled (t : nat) (l : list nat) : Prop := {
  c_length : length l = length l0;
  c_moved u : u < t -> l !! (ps + at_ (S u)) = l0 !! (ps + at_ u);
  c_next : t < L -> l !! (ps + c) = l0 !! (ps + at_ t);
  c_same j : (forall u, u <= t -> j <> ps + at_ u) -> l !! j = l0 !! j;
}.
Lemma cycle_step t l :
  t < L -> cycled t l -> exists l', swap_args l (ps + at_ (S t)) (ps + c) = Some l' /\ cycled (S t) l'.
Proof using All.
  intros Ht [Hlen Hm Hn Hs]. pose proof (at_lt (S t)) as Hlt. pose proof (at_lt t) as Hlt'.
  assert (S t < L -> at_ (S t) <> c) as Hne.
  { intros Hst E. assert (S t = 0); [|discriminate]. apply at_inj; [done|lia|exact E]. }
  destruct (lookup_lt_is_Some_2 l (ps + at_ (S t))) as [x Hx]; [rewrite Hlen; lia|].
  destruct (lookup_lt_is_Some_2 l (ps + c)) as [y Hy]; [rewrite Hlen; lia|].
  destruct (swap_args_spec l (ps + at_ (S t)) (ps + c) x y Hx Hy) as (l' & -> & Hl' & Hlook). exists l'. split; [done|].
  assert (forall u, u < t -> S u < L -> ps + at_ (S u) <> ps + c /\ ps + at_ (S u) <> ps + at_ (S t) \/ S t = L /\ ps + at_ (S u) <> ps + c) as Hdist.
  { intros u Hu HuL. assert (at_ (S u) <> c) by (intros E; assert (S u = 0) by (apply at_inj; [done|lia|exact E]); discriminate).
    destruct (Nat.eq_dec (S t) L); [right; lia|]. left. assert (at_ (S u) <> at_ (S t)); [|lia]. intros E. apply at_inj in E; [lia|done|lia]. }
  split.
  - by rewrite Hl', Hlen.
  - intros u Hu. rewrite Hlook. destruct (Nat.eq_dec u t) as [->|Hut].
    + destruct (Nat.eq_dec (S t) L) as [EtL|HnL].
      * assert (at_ (S t) = c) as E by (rewrite EtL; apply at_back). rewrite E in *. rewrite decide_True by done. rewrite <- Hx. by apply Hn.
      * specialize (Hne ltac:(lia)). rewrite decide_False by lia. rewrite decide_True by done. rewrite <- Hy. by apply Hn.
    + destruct (Hdist u ltac:(lia) ltac:(lia)) as [[H1 H2]|[EtL H1]].
      * rewrite !decide_False by lia. apply Hm. lia.
      * rewrite decide_False by lia. assert (at_ (S t) = c) as E by (rewrite EtL; apply at_back). rewrite decide_False by lia. apply Hm. lia.
  - intros HSt. rewrite Hlook, decide_True by done. rewrite <- Hx. apply Hs. intros u Hu E. assert (at_ (S t) = at_ u) as E' by lia. apply at_inj in E'; [lia|done|lia].
  - intros j Hj. rewrite Hlook, !decide_False.
    + apply Hs. intros u Hu. apply Hj. lia.
    + by apply Hj.
    + exact (Hj 0 ltac:(lia)).
Qed.
Lemma cycle_loop_spec t m l : t + m = L -> cycled t l -> exists l', cycle_loop (ps + a) a b m (ps + at_ t) (ps + c) l = Some l' /\ cycled L l'.
Proof using All.
  revert t l. induction m as [|m IH]; intros t l E Hcy; cbn [cycle_loop]; [exists l; replace L with t by lia; done|].
  assert ((if ps + a <=? ps + at_ t then ps + at_ t - a else ps + at_ t + b) = ps + at_ (S t)) as ->.
  { change (at_ (S t)) with (nx a b (at_ t)). unfold nx. destruct (Nat.leb_spec (ps + a) (ps + at_ t)), (Nat.leb_spec a (at_ t)); lia. }
  destruct (cycle_step t l ltac:(lia) Hcy) as (l' & -> & Hcy'). cbn [mbind option_bind]. apply IH; [lia|done].
Qed.
Lemma cycle_result : exists l', cycle_loop (ps + a) a b L (ps + c) (ps + c) l0 = Some l' /\ length l' = length l0 /\
  (forall r, r < n -> l' !! (ps + nx a b r) = if r mod g =? c mod g then l0 !! (ps + r) else l0 !! (ps + nx a b r)) /\
  (forall j, j < ps \/ ps + n <= j -> l' !! j = l0 !! j).
Proof using All.
  destruct (cycle_loop_spec 0 L l0 eq_refl) as (l' & E & [Hlen Hm _ Hs]).
  { split; [done|lia|done|done]. }
  exists l'. split; [exact E|]. split; [done|]. split.
  - intros r Hr. destruct (Nat.eqb_spec (r mod g) (c mod g)) as [Em|Em].
    + assert (exists t, t < L /\ at_ t = r) as (t & Ht & <-) by (subst; by apply at_step_all). apply (Hm t Ht).
    + apply Hs. intros u Hu Eu. apply Em. assert (nx a b r = at_ u) as E' by lia.
      subst. pose proof (at_step_class a b Ha Hb r Hr 1) as H1. change (at_step a b r 1) with (nx a b r) in H1. rewrite <- H1, E'. by apply at_step_class.
  - intros j Hj. apply Hs. intros u _ ->. pose proof (at_lt u). lia.
Qed.
End one_cycle.

Lemma nx_class r : r < n -> nx a b r mod g = r mod g.
Proof using All. intros Hr. subst. apply (at_step_class a b Ha Hb r Hr 1). Qed.
Record partly (l0 : list nat) (i : nat) (l : list nat) : Prop := {
  p_length : length l = length l0;
  p_moved r : r < n -> l !! (ps + nx a b r) = if r mod g <? i then l0 !! (ps + r) else l0 !! (ps + nx a b r);
  p_same j : j < ps \/ ps + n <= j -> l !! j = l0 !! j;
}.
Lemma cycles_loop_spec l0 m i l :
  ps + n <= length l0 -> i + m = g -> partly l0 i l -> exists l', cycles_loop (ps + a) a b L m i l = Some l' /\ partly l0 g l'.
Proof using All.
  intros Hl0. destruct (g_divides a b Ha Hb) as (x & y & Eax & Eby & Hx & Hy & _ & _ & _). rewrite <- Eg in *.
  revert i l. induction m as [|m IH]; intros i l Ei Hp; cbn [cycles_loop]; [exists l; by replace g with i by lia|].
  destruct Hp as [Hlen Hm Hs]. assert (a + i < n) as Hc by nia. assert ((a + i) mod g = i) as Hci.
  { rewrite Eax, Nat.add_comm, (Nat.mul_comm g), Nat.Div0.mod_add. apply Nat.mod_small. lia. }
  destruct (cycle_result (a + i) Hc l) as (l' & E & Hl' & Hr & Hs'); [lia|]. rewrite Nat.add_assoc in E. rewrite E. cbn [mbind option_bind].
  apply IH; [lia|]. split; [lia| |].
  - intros r Hrn. rewrite Hr, Hci by done. destruct (Nat.eqb_spec (r mod g) i) as [Em|Em].
    + assert (r mod g <? S i = true) as -> by (apply Nat.ltb_lt; lia).
      assert (exists r', r' < n /\ nx a b r' = r) as (r' & Hr' & <-) by (pose proof (nx_back a b Ha Hb r) as Hback; rewrite <- En in Hback; auto). rewrite Hm by done.
      rewrite nx_class in Em by done. assert (r' mod g <? i = false) as -> by (apply Nat.ltb_ge; lia). done.
    + rewrite Hm by done. destruct (Nat.ltb_spec (r mod g) i), (Nat.ltb_spec (r mod g) (S i)); done || lia.
  - intros j Hj. rewrite Hs' by done. by apply Hs.
Qed.
End permuting.

Lemma permute_args_spec P A B Q :
  A <> [] -> B <> [] -> permute_args (length P) (length P + length A) (length P + length A + length B) (P ++ A ++ B ++ Q) = Some (P ++ B ++ A ++ Q).
Proof.
  intros HA HB. assert (0 < length A) as Ha by (destruct A; [done|cbn; lia]). assert (0 < length B) as Hb by (destruct B; [done|cbn; lia]).
  unfold permute_args. replace (length P + length A - length P) with (length A) by lia. replace (length P + length A + length B - (length P + length A)) with (length B) by lia.
  replace (length P + length A + length B - length P) with (length A + length B) by lia. rewrite gcd_spec by done. cbn [mbind option_bind].
  set (l0 := P ++ A ++ B ++ Q). destruct (cycles_loop_spec (length P) (length A) (length B) Ha Hb _ _ _ eq_refl eq_refl eq_refl l0 (Nat.gcd (length A) (length B)) 0 l0) as (l' & -> & [Hlen Hm Hs]).
  { unfold l0. rewrite !length_app. lia. }
  { done. }
  { split; [done|done|done]. }
  f_equal. apply list_eq. intros j. destruct (Nat.ltb_spec j (length P)).
  { rewrite Hs by lia. unfold l0. by rewrite !(lookup_app_l P) by done. }
  destruct (Nat.leb_spec (length P + (length A + length B)) j).
  { rewrite Hs by lia. unfold l0. rewrite !(lookup_app_r P) by lia. rewrite (lookup_app_r A), (lookup_app_r B), (lookup_app_r B), (lookup_app_r A) by lia. f_equal. lia. }
  destruct (nx_back (length A) (length B) Ha Hb (j - length P) ltac:(lia)) as (r & Hr & Er).
  replace j with (length P + nx (length A) (length B) r) by lia. rewrite Hm by done.
  assert (r mod Nat.gcd (length A) (length B) <? Nat.gcd (length A) (length B) = true) as ->.
  { apply Nat.ltb_lt, Nat.mod_upper_bound. intros E. apply Nat.gcd_eq_0 in E. lia. }
  unfold l0. rewrite !(lookup_app_r P) by lia. replace (length P + r - length P) with r by lia. replace (length P + nx (length A) (length B) r - length P) with (nx (length A) (length B) r) by lia. unfold nx. destruct (Nat.leb_spec (length A) r).
  - rewrite (lookup_app_r A) by lia. rewrite !(lookup_app_l B) by lia. done.
  - rewrite (lookup_app_l A) by lia. rewrite (lookup_app_r B) by lia. rewrite (lookup_app_l A) by lia. f_equal. lia.
Qed.

(** ** The order of the arguments *)

(** [D] is made of [O] and [N], each in its order. *)
Inductive merge : list nat -> list nat -> list nat -> Prop :=
| merge_nil : merge [] [] []
| merge_option D O N x : merge D O N -> merge (D ++ [x]) (O ++ [x]) N
| merge_operand D O N x : merge D O N -> merge (D ++ [x]) O (N ++ [x]).
Lemma merge_before_option D O N x : merge D O N -> merge (x :: D) (x :: O) N.
Proof.
  induction 1 as [|D O N y H IH|D O N y H IH]; [apply (merge_option [] [] []); constructor| |].
  - by apply (merge_option (x :: D) (x :: O)).
  - by apply (merge_operand (x :: D)).
Qed.
Lemma merge_before_operand D O N x : merge D O N -> merge (x :: D) O (x :: N).
Proof.
  induction 1 as [|D O N y H IH|D O N y H IH]; [apply (merge_operand [] [] []); constructor| |].
  - by apply (merge_option (x :: D)).
  - by apply (merge_operand (x :: D) O (x :: N)).
Qed.
Lemma merge_before_options D O N l : merge D O N -> merge (l ++ D) (l ++ O) N.
Proof. intros H. induction l; [done|]. by apply merge_before_option. Qed.

(** ** The reading of the arguments

    The reference: what the arguments mean, read once from the first to the last, without indices into
    argv and without moving anything. *)
Section reading.
Context (str : nat -> list Z) (options : list Z) (longs : list option_t) (longonly : bool).

(** A non-option *)
Definition operand (a : nat) : bool := negb (hd 0%Z (str a) =? DASH)%Z || ((length (str a) =? 1) && bool_decide (strchr options DASH = None)).

(** The long option that is named or abbreviated by [nm]: an exact name, behind no more than one option
    that it abbreviates, or the only option that it abbreviates.  Where a single letter may be a short
    option it abbreviates none. *)
Inductive long_name : Type := Named (o : option_t) | Unknown | Several.
Definition abbreviates (short_too : bool) (nm : list Z) (o : option_t) : Prop :=
  nm `prefix_of` name o /\ nm <> name o /\ short_too && (length nm =? 1) = false.
#[export] Instance abbreviates_dec short_too nm o : Decision (abbreviates short_too nm o).
Proof. unfold abbreviates. apply _. Defined.
Definition long_named (short_too : bool) (nm : list Z) : long_name :=
  match list_find (fun o => nm = name o) longs with
  | Some (i, o) => if length (filter (abbreviates short_too nm) (take i longs)) <=? 1 then Named o else Several
  | None => match filter (abbreviates short_too nm) longs with [] => Unknown | [o] => Named o | _ => Several end
  end.

(** A long option at [p], with the arguments [rest] behind its element: what is returned, optarg, and how many of
    [rest] are taken; [None] when it is to be a short option. *)
Definition name_end (t : list Z) : nat := match list_find (fun c => c = EQUAL) t with Some (n, _) => n | None => length t end.
Definition equal_arg (p : ptr) : option ptr :=
  let t := text str (Some p) in if name_end t <? length t then Some (forward (name_end t + 1) p) else None.
Definition read_long (short_too : bool) (p : ptr) (rest : list nat) : option (Z * option ptr * nat) :=
  let t := text str (Some p) in
  match long_named short_too (take (name_end t) t) with
  | Several => Some (BADCH, None, 0)
  | Unknown => if short_too then None else Some (BADCH, None, 0)
  | Named o =>
      let answer := match flag o with Some _ => 0%Z | None => val o end in
      match has_arg o, equal_arg p, rest with
      | no_argument, Some _, _ => Some (BADARG options, None, 0)
      | no_argument, None, _ => Some (answer, None, 0)
      | _, Some a, _ => Some (answer, Some a, 0)
      | required_argument, None, a :: _ => Some (answer, Some (Ptr a 0), 1)
      | required_argument, None, [] => Some (BADARG options, None, 0)
      | optional_argument, None, _ => Some (answer, None, 0)
      end
  end.

(** Behind an option: the next character of the element, or [n] elements are done. *)
Inductive onward : Type := Inside | Took (n : nat).
(** The argument that the letter at the beginning of [oli] takes. *)
Definition letter_arg (oli : list Z) : has_arg_t :=
  match oli with
  | _ :: c :: d :: _ => if (c =? COLON)%Z then (if (d =? COLON)%Z then optional_argument else required_argument) else no_argument
  | [_; c] => if (c =? COLON)%Z then required_argument else no_argument
  | _ => no_argument
  end.
Definition read_short (c off : nat) (rest : list nat) : Z * option ptr * onward :=
  let x := hd 0%Z (text str (Some (Ptr c off))) in
  let more := off + 1 <? length (str c) in
  let goes := if more then Inside else Took 1 in
  match (if (x =? COLON)%Z || ((x =? DASH)%Z && more) then None else strchr options x) with
  | None => (BADCH, None, goes)
  | Some oli =>
      if (x =? 87)%Z && (hd 0%Z (tail oli) =? 59)%Z then
        if more then match read_long false (Ptr c (off + 1)) rest with Some (r, a, n) => (r, a, Took (1 + n)) | None => (BADCH, None, Took 1) end
        else match rest with
             | [] => (BADARG options, None, Took 1)
             | b :: rest => match read_long false (Ptr b 0) rest with Some (r, a, n) => (r, a, Took (2 + n)) | None => (BADCH, None, Took 2) end
             end
      else
        match letter_arg oli, rest with
        | no_argument, _ => (x, None, goes)
        | required_argument, [] => if more then (x, Some (Ptr c (off + 1)), Took 1) else (BADARG options, None, Took 1)
        | required_argument, a :: _ => if more then (x, Some (Ptr c (off + 1)), Took 1) else (x, Some (Ptr a 0), Took 2)
        | optional_argument, _ => (x, if more then Some (Ptr c (off + 1)) else None, Took 1)
        end
  end.
Definition read_option (c off : nat) (rest : list nat) : Z * option ptr * onward :=
  let x := hd 0%Z (text str (Some (Ptr c off))) in
  if (0 <? off) && ((x =? DASH)%Z || longonly) then
    let short_too := negb (x =? DASH)%Z && negb (x =? COLON)%Z && negb (bool_decide (strchr options x = None)) in
    match read_long short_too (Ptr c (if (x =? DASH)%Z then off + 1 else off)) rest with
    | Some (r, a, n) => (r, a, Took (1 + n))
    | None => read_short c off rest
    end
  else read_short c off rest.

(** [reads at args rs O N B]: of [args], at the offset [at] of the first of them or before it, [rs] are the options
    with their arguments, [O] the elements that belong to options, [N] the non-options, and [B] stands behind "--". *)
Inductive reads : option nat -> list nat -> list (Z * option ptr) -> list nat -> list nat -> list nat -> Prop :=
| reads_end : reads None [] [] [] [] []
| reads_operand a rest rs O N B : operand a = true -> reads None rest rs O N B -> reads None (a :: rest) rs O (a :: N) B
| reads_stop a rest : operand a = false -> str a = [DASH; DASH] -> reads None (a :: rest) [] [a] [] rest
| reads_element a rest rs O N B :
    operand a = false -> str a <> [DASH; DASH] ->
    reads (Some (if length (str a) =? 1 then 0 else 1)) (a :: rest) rs O N B -> reads None (a :: rest) rs O N B
| reads_inside c off rest r a rs O N B :
    read_option c off rest = (r, a, Inside) -> reads (Some (S off)) (c :: rest) rs O N B -> reads (Some off) (c :: rest) ((r, a) :: rs) O N B
| reads_took c off rest r a n rs O N B :
    read_option c off rest = (r, a, Took n) -> reads None (drop n (c :: rest)) rs O N B ->
    reads (Some off) (c :: rest) ((r, a) :: rs) (take n (c :: rest) ++ O) N B.

(** There is one reading. *)
Lemma reads_unique at_ args rs O N B rs' O' N' B' :
  reads at_ args rs O N B -> reads at_ args rs' O' N' B' -> rs = rs' /\ O = O' /\ N = N' /\ B = B'.
Proof.
  intros H. revert rs' O' N' B'.
  induction H as [|? ? ? ? ? ? ? H IH| |? ? ? ? ? ? ? ? H IH|? ? ? ? ? ? ? ? ? ? H IH|? ? ? ? ? ? ? ? ? ? ? H IH]; intros rs' O' N' B' H'; inversion H'; simplify_eq; try done; try congruence.
  all: repeat match goal with
       | H1 : _ = (?r, _, _), H2 : _ = (?r', _, _) |- _ => rewrite H1 in H2; simplify_eq
       | H1 : reads _ _ _ _ _ _, H2 : forall _ _ _ _, reads _ _ _ _ _ _ -> _ |- _ => destruct (H2 _ _ _ _ H1) as (-> & -> & -> & ->)
       end; done.
Qed.
(** All arguments are in it, in their order. *)
Lemma reads_merge at_ args rs O N B : reads at_ args rs O N B -> exists A, args = A ++ B /\ merge A O N.
Proof.
  induction 1 as [|a rest rs O N B _ _ (A & -> & Hm)|a rest _ _| |
    |c off rest r a n rs O N B _ _ (A & E & Hm)]; try done.
  - exists []. by split; [|constructor].
  - exists (a :: A). split; [done|]. by apply merge_before_operand.
  - exists [a]. split; [done|]. apply (merge_option [] [] []). constructor.
  - exists (take n (c :: rest) ++ A). split; [by rewrite <- app_assoc, <- E, take_drop|]. by apply merge_before_options.
Qed.
Lemma reads_operands at_ args rs O N B : reads at_ args rs O N B -> Forall operand N.
Proof. induction 1; try constructor; try done. by rewrite H. Qed.
Lemma reads_rest at_ args rs O N B : reads at_ args rs O N B -> B = [] \/ exists x, last O = Some x /\ str x = [DASH; DASH].
Proof.
  induction 1 as [| |a rest|  | |c off rest r a n rs O N B _ _ [IH|(x & IH & Hx)]]; try tauto; [right; by exists a|].
  right. exists x. by rewrite last_app, IH.
Qed.
End reading.

Section order.
Context (str : nat -> list Z) (options : list Z) (longs : list option_t) (longonly : bool) (P : list nat).
Context (Hchars : forall i, Forall (fun c => 0 < c)%Z (str i)).
Context (Hvals : Forall (fun o => flag o = None -> val o <> (-1)%Z) longs).
Notation flags := (Mode true false longonly).
Notation text := (text str).
Notation reads := (reads str options longs longonly).
Notation long_read := (read_long str options longs).
Notation short_read := (read_short str options longs).
Notation option_read := (read_option str options longs longonly).

(** Options, non-options, options and what is still to be read. *)
Record shape (s : getopt_state) (O N O2 rest : list nat) : Prop := {
  sh_args : nargv s = P ++ O ++ N ++ O2 ++ rest;
  sh_optind : optind s = length P + length O + length N + length O2;
  sh_reset : optreset s = false;
  sh_nonopts :
    (N = [] /\ O2 = [] /\ nonopt_start s = None /\ nonopt_end s = None) \/
    (N <> [] /\ O2 = [] /\ nonopt_start s = Some (length P + length O) /\ nonopt_end s = None) \/
    (N <> [] /\ nonopt_start s = Some (length P + length O) /\ nonopt_end s = Some (length P + length O + length N));
}.
(** Between two elements, and inside one; [O] are the elements of options so far, [N] the non-options. *)
Definition ready (s : getopt_state) (rest O N : list nat) : Prop :=
  text (place s) = [] /\ exists O1 O2, O = O1 ++ O2 /\ shape s O1 N O2 rest /\ (nonopt_end s <> None -> O2 <> []).
Definition inside (s : getopt_state) (c : nat) (rest : list nat) (off : nat) (O N : list nat) : Prop :=
  place s = Some (Ptr c off) /\ off < length (str c) /\ (off = 0 -> str c = [DASH] /\ strchr options DASH <> None) /\
  exists O1 O2, O = O1 ++ O2 /\ shape s O1 N O2 (c :: rest) /\ (N = [] \/ nonopt_end s <> None).
(** All is read: the options, the non-options, and what stands behind "--". *)
Definition finished (s : getopt_state) (O N B : list nat) : Prop :=
  place s = None /\ nonopt_start s = None /\ nonopt_end s = None /\ nargv s = P ++ O ++ N ++ B /\ optind s = length P + length O.

Definition weight (l : list nat) : nat := sum_list_with (fun x => S (length (str x))) l.
Lemma shape_at s O N O2 c rest : shape s O N O2 (c :: rest) -> nargv s !! optind s = Some c /\ optind s < nargc s /\ nargc s = optind s + S (length rest) /\
  forall i, nargv s !! (optind s + S i) = rest !! i.
Proof using.
  intros [Ha Ho _ _]. unfold nargc. rewrite Ha, Ho, !app_assoc. split_and!.
  - rewrite lookup_app_r by (rewrite !length_app; lia). rewrite !length_app.
    by replace (length P + length O + length N + length O2 - (length P + length O + length N + length O2)) with 0 by lia.
  - rewrite !length_app. cbn. lia.
  - rewrite !length_app. cbn. lia.
  - intros i. rewrite lookup_app_r by (rewrite !length_app; lia). rewrite !length_app.
    by replace (length P + length O + length N + length O2 + S i - (length P + length O + length N + length O2)) with (S i) by lia.
Qed.
Lemma shape_end s O N O2 : shape s O N O2 [] -> nargc s = optind s.
Proof using. intros [Ha Ho _ _]. unfold nargc. rewrite Ha, Ho, !length_app. cbn. lia. Qed.

(** Moving the options before the non-options *)
Lemma permute_spec s O N O2 rest :
  nargv s = P ++ O ++ N ++ O2 ++ rest -> optind s = length P + length O + length N + length O2 ->
  nonopt_start s = Some (length P + length O) -> nonopt_end s = Some (length P + length O + length N) -> N <> [] -> O2 <> [] ->
  permute s = Some (set_nargv (P ++ (O ++ O2) ++ N ++ rest) s).
Proof using.
  intros Ha Ho Hs He HN HO. unfold permute. rewrite Hs, He, Ha, Ho. pose proof (permute_args_spec (P ++ O) N O2 rest HN HO) as Ep.
  rewrite length_app in Ep. rewrite <- !app_assoc in *. rewrite Ep. done.
Qed.

Lemma finish_spec s O N O2 rest :
  nargv s = P ++ O ++ N ++ O2 ++ rest -> optind s = length P + length O + length N + length O2 ->
  (N = [] /\ O2 = [] /\ nonopt_start s = None /\ nonopt_end s = None \/
   N <> [] /\ O2 <> [] /\ nonopt_start s = Some (length P + length O) /\ nonopt_end s = Some (length P + length O + length N)) ->
  exists s', finish s = Some s' /\ place s' = place s /\ nargv s' = P ++ (O ++ O2) ++ N ++ rest /\ optind s' = length P + length (O ++ O2).
Proof using.
  intros Ha Ho [(-> & -> & Hs & He)|(HN & HO2 & Hs & He)]; unfold finish.
  - rewrite He. exists s. rewrite app_nil_r. cbn [app length] in *. split; [by destruct (nonopt_start s)|]. split; [done|]. split; [exact Ha|lia].
  - rewrite Hs, He, (permute_spec s O N O2 rest) by done. cbn [mbind option_bind default]. eexists. split; [done|]. cbn [set_optind set_nargv place nargv optind].
    split; [done|]. split; [done|]. rewrite Ho, length_app. unfold id. lia.
Qed.

(** A non-option is kept back. *)
Lemma keep_spec s s1 O N O2 a rest :
  shape s O N O2 (a :: rest) -> (nonopt_end s <> None -> O2 <> []) ->
  nargv s1 = nargv s -> optind s1 = optind s -> optreset s1 = false -> place s1 = None -> nonopt_start s1 = nonopt_start s -> nonopt_end s1 = nonopt_end s ->
  exists s2,
    (match nonopt_start s1, nonopt_end s1 with
     | None, _ => Some (set_nonopts (Some (optind s1)) (nonopt_end s1) s1)
     | Some a, Some b => s ← permute s1; Some (set_nonopts (Some (optind s - (b - a))%nat) None s)
     | Some _, None => Some s1
     end) = Some s2 /\ optarg s2 = optarg s1 /\ ready (set_optind (optind s2 + 1) s2) rest (O ++ O2) (N ++ [a]).
Proof using.
  intros [Ha Ho Hr Hn] HO2 Ea Eo Er Ep Es Ee.
  assert (N ++ [a] <> []) as Hne by (by destruct N).
  destruct Hn as [(-> & -> & Hs & He)|[(HN & -> & Hs & He)|(HN & Hs & He)]].
  - rewrite Es, Hs. eexists. split; [done|]. split; [done|]. split; [cbn; by rewrite Ep|]. cbn [length app] in *.
    exists O, []. split; [done|]. split; [|cbn; congruence]. split; cbn; rewrite ?app_nil_r, ?Ea, ?Eo; try done; try lia.
    right; left. split_and!; try done; [by rewrite Ho; f_equal; lia|congruence].
  - rewrite Es, Ee, Hs, He. eexists. split; [done|]. split; [done|]. split; [cbn; by rewrite Ep|]. cbn [length app] in *.
    exists O, []. split; [done|]. split; [|cbn; congruence]. split; cbn; rewrite ?app_nil_r, ?length_app, ?Ea, ?Eo; try done.
    + by rewrite <- !app_assoc.
    + cbn. lia.
    + right; left. split_and!; try done; congruence.
  - rewrite Es, Ee, Hs, He. rewrite (permute_spec s1 O N O2 (a :: rest)); [|congruence|congruence|congruence|congruence|done|apply HO2; congruence].
    cbn [mbind option_bind]. eexists. split; [done|]. split; [done|]. split; [cbn; by rewrite Ep|].
    exists (O ++ O2), []. split; [by rewrite app_nil_r|]. split; [|done]. split; cbn; rewrite ?app_nil_r, ?length_app; try done.
    + by rewrite <- !app_assoc.
    + cbn. rewrite Eo, Ho. lia.
    + right; left. split_and!; try done. f_equal. rewrite Eo, Ho. lia.
Qed.

(** An option is reached. *)
Lemma reach_spec s s1 O N O2 a rest :
  shape s O N O2 (a :: rest) ->
  nargv s1 = nargv s -> optind s1 = optind s -> optreset s1 = false -> nonopt_start s1 = nonopt_start s -> nonopt_end s1 = nonopt_end s ->
  let s2 := match nonopt_start s1, nonopt_end s1 with Some _, None => set_nonopts (nonopt_start s1) (Some (optind s1)) s1 | _, _ => s1 end in
  shape s2 O N O2 (a :: rest) /\ (N = [] \/ nonopt_end s2 <> None) /\ place s2 = place s1 /\ optarg s2 = optarg s1.
Proof using.
  intros [Ha Ho Hr Hn] Ea Eo Er Es Ee. cbv zeta. rewrite Es, Ee.
  destruct Hn as [(-> & -> & Hs & He)|[(HN & -> & Hs & He)|(HN & Hs & He)]]; rewrite Hs; [|rewrite He|rewrite He]; cbn [set_nonopts].
  - split; [|split; [by left|done]]. split; rewrite ?Ea, ?Eo, ?Er, ?Es, ?Ee; try done. left. by rewrite Hs, He.
  - split; [|split; [by right|done]]. split; cbn; rewrite ?Ea, ?Eo, ?Er, ?Es, ?Ee; try done. right; right. rewrite ?Hs. split_and!; try done. f_equal. rewrite Ho. cbn. lia.
  - split; [|split; [right; congruence|done]]. split; rewrite ?Ea, ?Eo, ?Er, ?Es, ?Ee; try done. right; right. by rewrite Hs, He.
Qed.

(** "--" ends the options. *)
Lemma stop_spec s O N O2 a rest :
  shape s O N O2 (a :: rest) -> (N = [] \/ nonopt_end s <> None) ->
  exists s', finish (set_place None (set_optind (optind s + 1) s)) = Some s' /\ finished (set_nonopts None None s') ((O ++ O2) ++ [a]) N rest.
Proof using.
  intros [Ha Ho Hr Hn] Hin. set (s1 := set_place None (set_optind (optind s + 1) s)).
  assert (exists s', finish s1 = Some s' /\ place s' = None /\ nargv s' = P ++ ((O ++ O2) ++ [a]) ++ N ++ rest /\ optind s' = length P + length ((O ++ O2) ++ [a])) as (s' & E & Hp & Ha2 & Ho2).
  { destruct Hn as [(-> & -> & Hs & He)|[(HN & -> & Hs & He)|(HN & Hs & He)]].
    - rewrite app_nil_r. rewrite <- (app_nil_r (O ++ [a])). apply (finish_spec s1 (O ++ [a]) [] [] rest); [|cbn; rewrite length_app; cbn in *; lia|by left].
      cbn in *. by rewrite Ha, <- !app_assoc.
    - by destruct Hin.
    - rewrite <- (app_assoc O O2 [a]). apply (finish_spec s1 O N (O2 ++ [a]) rest); [|cbn; rewrite length_app; cbn in *; lia|right; split_and!; try done; by destruct O2].
      cbn. by rewrite Ha, <- !app_assoc. }
  exists s'. split; [done|]. split; [done|]. split; [done|]. split; [done|]. split; [exact Ha2|exact Ho2].
Qed.

(** The scan: to the next option, [M] being the non-options before it, or to the end. *)
Definition scanned (rest O N : list nat) (s' : getopt_state) (r : option Z) : Prop :=
  (r = None /\ exists c rest' off M, inside s' c rest' off O (N ++ M) /\ weight (c :: rest') - off <= weight rest /\
     forall rs O' N' B, reads (Some off) (c :: rest') rs O' N' B -> reads None rest rs O' (M ++ N') B) \/
  (r = Some (-1)%Z /\ exists O' M B, reads None rest [] O' M B /\ finished s' (O ++ O') (N ++ M) B).
Lemma scanned_operand a rest O N s' r : operand str options a = true -> scanned rest O (N ++ [a]) s' r -> scanned (a :: rest) O N s' r.
Proof using.
  intros Hop [(-> & c & rest' & off & M & Hi & Hw & Hr)|(-> & O' & M & B & Hr & Hfin)].
  - left. split; [done|]. exists c, rest', off, (a :: M). rewrite <- app_assoc in Hi. split; [done|].
    split; [unfold weight in *; cbn [sum_list_with] in *; lia|]. intros rs O' N' B H. cbn [app]. constructor; [done|]. by apply Hr.
  - right. split; [done|]. exists O', (a :: M), B. rewrite <- app_assoc in Hfin. split; [by constructor|done].
Qed.
Lemma scan_end s rest O1 N O2 :
  rest = [] -> shape s O1 N O2 rest -> (nonopt_end s <> None -> O2 <> []) ->
  let s1 := set_place None (set_optreset false s) in
  exists s2, (match nonopt_end s1, nonopt_start s1 with None, Some a => Some (set_optind a s1) | _, _ => finish s1 end) = Some s2 /\
    finished (set_nonopts None None s2) (O1 ++ O2) N [].
Proof using.
  intros -> [Ha Ho Hr Hn] HO2 s1.
  destruct Hn as [(-> & -> & Hs & He)|[(HN & -> & Hs & He)|(HN & Hs & He)]].
  - destruct (finish_spec s1 O1 [] [] []) as (s2 & E & Hp & Ha2 & Ho2); [exact Ha|exact Ho|by left|]. exists s2. unfold s1 in *.
    cbn [set_place set_optreset nonopt_end nonopt_start] in *. rewrite He, Hs, E. by split.
  - exists (set_optind (length P + length O1) s1). unfold s1. cbn [set_place set_optreset nonopt_end nonopt_start]. rewrite He, Hs. split; [done|].
    unfold finished. cbn in *. rewrite !app_nil_r in *. by rewrite Ha.
  - destruct (finish_spec s1 O1 N O2 []) as (s2 & E & Hp & Ha2 & Ho2); [exact Ha|exact Ho| |].
    { right. split; [done|]. split; [apply HO2; congruence|done]. }
    exists s2. unfold s1 in *. cbn [set_place set_optreset nonopt_end nonopt_start] in *. rewrite He, E. by split.
Qed.
Lemma scan_spec rest fuel s O N :
  ready s rest O N -> length rest < fuel -> exists s' r, scan str fuel options flags s = Some (s', r) /\ (r = None -> optarg s' = optarg s) /\ scanned rest O N s' r.
Proof using.
  revert s fuel O N. induction rest as [|a rest IH]; intros s [|fuel] O N (Ht & O1 & O2 & -> & Hsh & HO2) Hf; cbn in Hf; try lia; cbn [scan];
    rewrite Ht, orb_true_r; cbn [negb].
  - pose proof (shape_end _ _ _ _ Hsh) as Hend. change (nargc (set_optreset false s)) with (nargc s). change (optind (set_optreset false s)) with (optind s).
    rewrite Hend, Nat.leb_refl. destruct (scan_end s [] O1 N O2 eq_refl Hsh HO2) as (s2 & -> & Hfin). cbn [mbind option_bind]. eexists _, _. split; [done|]. split; [done|].
    right. split; [done|]. exists [], [], []. split; [constructor|]. by rewrite !(app_nil_r (O1 ++ O2)), app_nil_r.
  - destruct (shape_at _ _ _ _ _ _ Hsh) as (Hat & Hlt & _). change (nargc (set_optreset false s)) with (nargc s). change (optind (set_optreset false s)) with (optind s).
    destruct (Nat.leb_spec (nargc s) (optind s)); [lia|]. change (nargv (set_optreset false s)) with (nargv s). rewrite Hat. cbn [mbind option_bind].
    set (s1 := set_place (Some (Ptr a 0)) (set_optreset false s)).
    destruct (operand str options a) eqn:Eop.
    + pose proof Eop as Eop'. unfold operand in Eop'. rewrite Eop'. cbn [FLAG_ALLARGS FLAG_PERMUTE negb].
      destruct (keep_spec s (set_place None s1) O1 N O2 a rest Hsh HO2) as (s2 & -> & Harg & Hrd); [done..|]. cbn [mbind option_bind].
      destruct (IH _ fuel _ _ Hrd ltac:(lia)) as (s' & r & -> & Ha & Hsc). eexists _, _. split; [done|]. split; [intros ->; rewrite Ha by done; exact Harg|]. by apply scanned_operand.
    + pose proof (reach_spec s s1 O1 N O2 a rest Hsh) as Hreach. do 5 (specialize (Hreach ltac:(done))).
      pose proof Eop as Eop'. unfold operand in Eop'. rewrite Eop'. apply orb_false_iff in Eop' as [Eh Edash]. apply negb_false_iff, Z.eqb_eq in Eh.
      revert Hreach. set (s2 := match nonopt_start s1, nonopt_end s1 with Some _, None => _ | _, _ => s1 end). intros (Hsh2 & Hin & Hp2 & Harg).
      destruct (str a) as [|d t] eqn:Estr; [done|]. cbn in Eh. subst d. destruct t as [|d t].
      * cbn [length Nat.eqb]. eexists _, _. split; [done|]. split; [done|]. left. split; [done|]. exists a, rest, 0, []. rewrite app_nil_r. split; [|split; [lia|]].
        -- split; [exact Hp2|]. rewrite Estr. split; [cbn; lia|]. split; [|by exists O1, O2]. intros _. split; [done|].
           cbn in Edash. by apply bool_decide_eq_false in Edash.
        -- intros rs O' N' B H'. apply reads_element; [done|by rewrite Estr|]. by rewrite Estr.
      * change (length (DASH :: d :: t) =? 1) with false. cbn [nth]. cbn iota.
        destruct ((d =? DASH)%Z && (length (DASH :: d :: t) =? 2)) eqn:E2.
        -- apply andb_true_iff in E2 as [->%Z.eqb_eq E2]. destruct t; [|done].
           destruct (stop_spec s2 O1 N O2 a rest Hsh2 Hin) as (s' & Hf' & Hfin). change (optind (set_place (Some (Ptr a 1)) s2)) with (optind s2).
           change (set_place None (set_optind (optind s2 + 1) (set_place (Some (Ptr a 1)) s2))) with (set_place None (set_optind (optind s2 + 1) s2)).
           rewrite Hf'. cbn [mbind option_bind]. eexists _, _. split; [done|]. split; [done|]. right. split; [done|]. exists [a], [], rest. rewrite app_nil_r.
           split; [by apply reads_stop|done].
        -- eexists _, _. split; [done|]. split; [done|]. left. split; [done|]. exists a, rest, 1, []. rewrite app_nil_r. split; [|split; [lia|]].
           ++ split; [done|]. rewrite Estr. split; [cbn; lia|]. split; [done|]. exists O1, O2. split; [done|]. split; [by destruct Hsh2|done].
           ++ intros rs O' N' B H'. apply reads_element; [done| |by rewrite Estr]. rewrite Estr. intros [= -> ->]. done.
Qed.

(** ** Reading an option *)
Record same (s s' : getopt_state) : Prop := {
  same_args : nargv s' = nargv s; same_reset : optreset s' = optreset s;
  same_start : nonopt_start s' = nonopt_start s; same_end : nonopt_end s' = nonopt_end s }.
Lemma same_trans s s' s'' : same s s' -> same s' s'' -> same s s''.
Proof using. intros [] []. split; congruence. Qed.
(** [rest] is what stands behind the element at optind. *)
Definition behind (s : getopt_state) (rest : list nat) : Prop :=
  nargc s = optind s + S (length rest) /\ forall i, nargv s !! (optind s + S i) = rest !! i.
Lemma behind_same s s' rest : same s s' -> optind s' = optind s -> behind s rest -> behind s' rest.
Proof using. intros [Ea _ _ _] Eo. unfold behind, nargc. by rewrite Ea, Eo. Qed.

Lemma same_prefix_spec n (cur nm : list Z) :
  Forall (fun c => 0 < c)%Z cur -> n <= length cur -> same_prefix n cur nm = true <-> take n cur `prefix_of` nm.
Proof using.
  intros Hc. revert n nm. induction Hc as [|c cur Hc Hcur IH]; intros [|n] nm Hn; cbn in Hn; try lia; cbn [same_prefix take]; try (split; [intros _; apply prefix_nil|done]).
  destruct nm as [|d nm]; cbn [hd tail].
  - destruct (Z.eqb_spec c 0); [lia|]. split; [done|]. intros [k Hk]. done.
  - destruct (Z.eqb_spec c d) as [->|Hne].
    + destruct (Z.eqb_spec d 0); [lia|]. rewrite IH by lia. split; [apply prefix_cons|apply prefix_cons_inv_2].
    + split; [done|]. intros H%prefix_cons_inv_1. done.
Qed.
Lemma prefix_exact (nm t : list Z) : nm `prefix_of` t -> (length t =? length nm) = bool_decide (nm = t).
Proof using.
  intros [k ->]. rewrite length_app. destruct (bool_decide_reflect (nm = nm ++ k)) as [E|E].
  - apply (f_equal length) in E. rewrite length_app in E. apply Nat.eqb_eq. lia.
  - apply Nat.eqb_neq. intros El. apply E. destruct k; [by rewrite app_nil_r|cbn in El; lia].
Qed.

(** The loop over the long options finds the named one. *)
Lemma match_loop_spec current len short_too ls pre found :
  Forall (fun c => 0 < c)%Z current -> len <= length current -> longs = pre ++ ls ->
  let nm := take len current in
  Forall (fun o => nm <> name o) pre ->
  match found with
  | None => filter (abbreviates short_too nm) pre = []
  | Some i => exists o, longs !! i = Some o /\ filter (abbreviates short_too nm) pre = [o]
  end ->
  match match_loop current len short_too (length pre) ls found with
  | MatchAt i => exists o, longs !! i = Some o /\ long_named longs short_too nm = Named o
  | NoMatch => long_named longs short_too nm = Unknown
  | Ambiguous => long_named longs short_too nm = Several
  end.
Proof using.
  intros Hcur Hlen Hl nm. assert (length nm = len) as Hnm by (unfold nm; rewrite length_take; lia).
  revert pre found Hl. induction ls as [|o ls IH]; intros pre found Hl Hpre Hfound; cbn [match_loop].
  { rewrite app_nil_r in Hl. rewrite <- Hl in *. assert (list_find (fun o => nm = name o) longs = None) as E by (by apply list_find_None).
    unfold long_named. rewrite E. destruct found as [i|]; [destruct Hfound as (o & Ho & ->); by exists o|by rewrite Hfound]. }
  assert (longs = (pre ++ [o]) ++ ls) as Hl2 by (by rewrite <- app_assoc).
  assert (length pre + 1 = length (pre ++ [o])) as Hlp by (by rewrite length_app).
  assert (forall found, nm <> name o -> ~ abbreviates short_too nm o ->
    match found with None => filter (abbreviates short_too nm) pre = [] | Some i => exists o, longs !! i = Some o /\ filter (abbreviates short_too nm) pre = [o] end ->
    match match_loop current len short_too (S (length pre)) ls found with
    | MatchAt i => exists o, longs !! i = Some o /\ long_named longs short_too nm = Named o
    | NoMatch => long_named longs short_too nm = Unknown
    | Ambiguous => long_named longs short_too nm = Several
    end) as Hskip.
  { intros f Hne Hab Hf. replace (S (length pre)) with (length (pre ++ [o])) by lia. apply IH; [done|apply Forall_app; by repeat constructor|].
    rewrite filter_app, filter_cons_False by done. by rewrite app_nil_r. }
  destruct (same_prefix len current (name o)) eqn:Esp; cbn [negb].
  2: { assert (~ nm `prefix_of` name o) as Hnp by (intros Hp%same_prefix_spec; [congruence|done|lia]).
       apply Hskip; [intros E; apply Hnp; by rewrite E|by intros (? & _)|done]. }
  apply same_prefix_spec in Esp; [|done|lia]. fold nm in Esp. pose proof (prefix_exact _ _ Esp) as Eex. rewrite Hnm in Eex. rewrite Eex.
  assert (longs !! length pre = Some o) as Ho by (rewrite Hl, lookup_app_r by lia; by rewrite Nat.sub_diag).
  destruct (bool_decide_reflect (nm = name o)) as [E|Hne].
  { exists o. split; [done|]. unfold long_named. assert (list_find (fun o => nm = name o) longs = Some (length pre, o)) as ->.
    { apply list_find_Some. split; [done|]. split; [done|]. intros j y Hj Hjl. rewrite Hl, lookup_app_l in Hj by done. rewrite Forall_lookup in Hpre. by eapply Hpre. }
    replace (take (length pre) longs) with pre by (by rewrite Hl, take_app_length). destruct found as [i|]; [destruct Hfound as (o' & _ & ->)|rewrite Hfound]; done. }
  destruct (short_too && (len =? 1)) eqn:Est; [apply Hskip; [done| |done]; intros (_ & _ & Hs); rewrite Hnm in Hs; congruence|].
  assert (abbreviates short_too nm o) as Hab by (split; [done|]; split; [done|]; by rewrite Hnm).
  destruct found as [i|].
  - destruct Hfound as (o' & Hi & Hf). unfold long_named. destruct (list_find _ longs) as [[j x]|] eqn:Elf.
    + apply list_find_Some in Elf as (Hj & Hx & _). assert (S (length pre) <= j) as Hlj.
      { destruct (Nat.lt_trichotomy j (length pre)) as [H|[->|H]]; [|congruence|lia]. rewrite Hl, lookup_app_l in Hj by done.
        rewrite Forall_lookup in Hpre. by destruct (Hpre j x Hj). }
      replace (take j longs) with ((pre ++ [o]) ++ take (j - length (pre ++ [o])) ls) by (rewrite Hl2, take_app_ge by (rewrite length_app; cbn; lia); done).
      rewrite !filter_app, Hf, filter_cons_True, filter_nil, !length_app by done. done.
    + rewrite Hl2, !filter_app, Hf, filter_cons_True, filter_nil by done. done.
  - replace (S (length pre)) with (length (pre ++ [o])) by lia. apply IH; [done|apply Forall_app; by repeat constructor|].
    exists o. split; [done|]. by rewrite filter_app, Hfound, filter_cons_True, filter_nil.
Qed.
Lemma badarg_not_end : BADARG options <> (-1)%Z.
Proof using. unfold BADARG. by destruct (_ =? _)%Z. Qed.

(** The name and the argument of a long option *)
Lemma strchr_equal (t : list Z) : strchr t EQUAL = match list_find (fun c => c = EQUAL) t with Some (n, _) => Some (drop n t) | None => None end.
Proof using.
  induction t as [|c t IH]; [done|]. cbn [strchr list_find]. destruct (decide (c = EQUAL)) as [->|Hne]; [done|].
  rewrite (proj2 (Z.eqb_neq c EQUAL)), IH by done. by destruct (list_find _ t) as [[]|].
Qed.
Lemma name_end_spec (p : ptr) :
  let t := text (Some p) in
  (match strchr t EQUAL with Some e => length t - length e | None => length t end = name_end t) /\
  (match strchr t EQUAL with Some _ => Some (forward (match strchr t EQUAL with Some e => length t - length e | None => length t end + 1) p) | None => None end = equal_arg str p) /\
  name_end t <= length t.
Proof using.
  intros t. unfold equal_arg. fold t. unfold name_end. rewrite strchr_equal. destruct (list_find _ t) as [[n x]|] eqn:E.
  - apply list_find_Some in E as (E & _). apply lookup_lt_Some in E. rewrite length_drop. replace (length t - (length t - n)) with n by lia.
    destruct (Nat.ltb_spec n (length t)); [|lia]. split_and!; [done|done|lia].
  - rewrite Nat.ltb_irrefl. done.
Qed.
Lemma text_chars p : Forall (fun c => 0 < c)%Z (text p).
Proof using Hchars. destruct p as [p|]; [apply Forall_drop, Hchars|constructor]. Qed.

(** The long option is read as the reference says. *)
Definition reads_long (s : getopt_state) (rest : list nat) (answer : option (getopt_state * Z)) (r : option (Z * option ptr * nat)) : Prop :=
  match r with
  | None => answer = Some (s, (-1)%Z)
  | Some (r, a, n) => exists s', answer = Some (s', r) /\ same s s' /\ r <> (-1)%Z /\ optarg s' = a /\ optind s' = optind s + S n /\ n <= length rest
  end.
Lemma parse_long_spec short_too s p rest :
  place s = Some p -> optarg s = None -> behind s rest ->
  reads_long s rest (parse_long_options str options longs short_too s) (long_read short_too p rest).
Proof using Hchars Hvals.
  intros Hp Harg [Hn Hb]. unfold parse_long_options, read_long. cbv zeta. change (place (set_optind (optind s + 1) s)) with (place s). rewrite Hp.
  destruct (name_end_spec p) as (El & Ee & Hle). cbv zeta in El, Ee, Hle. cbn iota. rewrite Ee, El.
  set (s1 := set_optind (optind s + 1) s). assert (same s s1) as Hs1 by done.
  pose proof (match_loop_spec (text (Some p)) (name_end (text (Some p))) short_too longs [] None (text_chars _) Hle eq_refl (Forall_nil_2 _) eq_refl) as Hm.
  cbv zeta in Hm. cbn [length] in Hm.
  destruct (match_loop _ _ _ _ _ _) as [i| |].
  2: { rewrite Hm. destruct short_too; cbn [reads_long].
       - f_equal. f_equal. destruct s; unfold s1, set_optind; cbn. f_equal. lia.
       - eexists. split; [done|]. split_and!; try done; cbn; lia. }
  2: { rewrite Hm. eexists. split; [done|]. split_and!; try done; cbn; lia. }
  destruct Hm as (o & Ho & ->). rewrite Ho. cbn [mbind option_bind].
  assert (flag o = None -> val o <> (-1)%Z) as Hval by (eapply Forall_lookup_1 in Hvals; [exact Hvals|exact Ho]).
  assert (forall s2 n a, same s s2 -> optarg s2 = a -> optind s2 = optind s + S n -> n <= length rest ->
    reads_long s rest (match flag o with Some v => Some (set_vars (<[v:=val o]> (vars (set_longidx i s2))) (set_longidx i s2), 0%Z) | None => Some (set_longidx i s2, val o) end)
      (Some (match flag o with Some _ => 0%Z | None => val o end, a, n))) as Hans.
  { intros s2 n a Hs2 <- Ho2 Hnl. destruct (flag o); eexists; (split; [done|]); split_and!; try done; try (by destruct Hs2); by apply Hval. }
  destruct (has_arg o) eqn:Eh; cbn [bool_decide decide_rel]; rewrite ?bool_decide_eq_true_2, ?bool_decide_eq_false_2 by done; cbn [andb].
  - destruct (equal_arg str p) as [q|]; cbn [bool_decide decide_rel negb mbind option_bind]; rewrite ?bool_decide_eq_true_2, ?bool_decide_eq_false_2 by done; cbn [negb mbind option_bind].
    + eexists. split; [done|]. split_and!; try done; [apply badarg_not_end|cbn; lia..].
    + apply (Hans s1); [done|done|cbn; lia|lia].
  - destruct (equal_arg str p) as [q|]; cbn [mbind option_bind].
    + cbn [optarg set_optarg]. rewrite bool_decide_eq_true_2, bool_decide_eq_false_2 by done. cbn [andb]. apply (Hans (set_optarg (Some q) s1)); [done|done|cbn; lia|lia].
    + unfold arg_at. change (nargc s1) with (nargc s). change (optind s1) with (optind s + 1). change (nargv s1) with (nargv s). rewrite (Hb 0). destruct rest as [|a rest]; cbn [length] in *.
      * destruct (Nat.ltb_spec (optind s + 1) (nargc s)); [lia|]. destruct (Nat.eqb_spec (optind s + 1) (nargc s)); [|lia]. cbn [mbind option_bind fmap option_map optarg set_optind set_optarg].
        rewrite !bool_decide_eq_true_2 by done. cbn [andb]. eexists. split; [done|]. split_and!; try done; [apply badarg_not_end|cbn; lia..].
      * destruct (Nat.ltb_spec (optind s + 1) (nargc s)); [|lia]. cbn [lookup list_lookup mbind option_bind fmap option_map optarg set_optind set_optarg].
        apply (Hans (set_optind (optind s + 1 + 1) (set_optarg (Some (Ptr a 0)) s1)) 1); [done|done|cbn; lia|cbn; lia].
  - destruct (equal_arg str p) as [q|]; cbn [mbind option_bind].
    + apply (Hans (set_optarg (Some q) s1)); [done|done|cbn; lia|lia].
    + apply (Hans s1); [done|done|cbn; lia|lia].
Qed.

Lemma shape_same s s' O N O2 rest : same s s' -> optind s' = optind s -> shape s O N O2 rest -> shape s' O N O2 rest.
Proof using. intros [Ea Er Es Ee] Eo [Ha Ho Hr Hn]. split; rewrite ?Ea, ?Er, ?Es, ?Ee, ?Eo; done. Qed.
Lemma inside_at s c rest off O N : inside s c rest off O N -> nargv s !! optind s = Some c /\ optind s < nargc s /\ behind s rest.
Proof using. intros (_ & _ & _ & O1 & O2 & _ & Hsh & _). destruct (shape_at _ _ _ _ _ _ Hsh) as (H1 & H2 & H3 & H4). done. Qed.

(** One more character of the element is read, or the whole element and perhaps some behind it. *)
Lemma advance s s' c rest off O N :
  inside s c rest off O N -> same s s' -> place s' = Some (Ptr c (off + 1)) -> off + 1 < length (str c) -> optind s' = optind s -> inside s' c rest (S off) O N.
Proof using.
  intros (_ & _ & _ & O1 & O2 & -> & Hsh & Hin) Hs Hp Hlt Ho. rewrite Nat.add_1_r in *. split; [done|]. split; [done|]. split; [done|]. exists O1, O2.
  split; [done|]. split; [by eapply shape_same|]. destruct Hs as [_ _ _ ->]. done.
Qed.
Lemma weight_drop k l : weight (drop k l) <= weight l.
Proof using. revert k. induction l as [|x l IH]; intros [|k]; cbn; [lia|lia|unfold weight; cbn; lia|]. specialize (IH k). unfold weight in *. cbn. lia. Qed.
Lemma consume s s' c rest off O N n :
  inside s c rest off O N -> same s s' -> text (place s') = [] -> optind s' = optind s + S n -> n <= length rest ->
  ready s' (drop (S n) (c :: rest)) (O ++ take (S n) (c :: rest)) N.
Proof using.
  intros (_ & Hoff & _ & O1 & O2 & -> & [Ha Ho Hr Hn] & Hin) [Ea Er Es Ee] Ht Hi Hle. split; [done|].
  set (taken := take (S n) (c :: rest)). assert (length taken = S n) as Hlk by (unfold taken; rewrite length_take; cbn; lia).
  assert (c :: rest = taken ++ drop (S n) (c :: rest)) as Hsplit by (symmetry; apply take_drop).
  destruct Hn as [(-> & -> & Hs & He)|[(HN & -> & Hs & He)|(HN & Hs & He)]].
  - exists (O1 ++ taken), []. rewrite !app_nil_r. split; [done|]. cbn [app] in *. split; [|congruence]. split; rewrite ?Ea, ?Er, ?Es, ?Ee; try done.
    + rewrite Ha. cbn [app]. by rewrite <- app_assoc, <- Hsplit.
    + rewrite length_app. cbn [length] in *. lia.
    + by left.
  - by destruct Hin.
  - exists O1, (O2 ++ taken). split; [by rewrite app_assoc|]. split; [|intros _ [_ E]%app_nil; by rewrite E in Hlk]. split; rewrite ?Ea, ?Er, ?Es, ?Ee; try done.
    + rewrite Ha. by rewrite <- app_assoc, <- Hsplit.
    + rewrite length_app. lia.
    + right; right. done.
Qed.

(** What an option leaves. *)
Definition went (s' : getopt_state) (c : nat) (rest : list nat) (off : nat) (O N : list nat) (goes : onward) : Prop :=
  match goes with
  | Inside => inside s' c rest (S off) O N
  | Took n => 0 < n /\ ready s' (drop n (c :: rest)) (O ++ take n (c :: rest)) N
  end.
Lemma went_took s s' c rest off O N n :
  inside s c rest off O N -> same s s' -> text (place s') = [] -> optind s' = optind s + n -> 0 < n <= S (length rest) -> went s' c rest off O N (Took n).
Proof using. intros Hin Hs Ht Hi Hn. destruct n as [|n]; [lia|]. split; [lia|]. eapply consume; [exact Hin|done|done|done|lia]. Qed.
Lemma text_at s c rest off O N : inside s c rest off O N ->
  exists x, hd 0%Z (text (Some (Ptr c off))) = x /\ text (place s) = x :: text (Some (Ptr c (off + 1))) /\ (0 < x)%Z /\ (off = 0 -> x = DASH /\ text (Some (Ptr c (off + 1))) = []).
Proof using Hchars.
  intros (-> & Hlt & H0 & _). exists (hd 0%Z (text (Some (Ptr c off)))). split; [done|]. pose proof (text_chars (Some (Ptr c off))) as Hc. cbn in Hc |- *.
  destruct (drop off (str c)) as [|x t] eqn:E.
  - apply (f_equal length) in E. rewrite length_drop in E. cbn in E. lia.
  - rewrite <- drop_drop, E. cbn [hd drop]. split; [done|]. split; [by inversion Hc|]. intros ->. rewrite (proj1 (H0 eq_refl)) in E. cbn in E. by injection E as <- <-.
Qed.
Lemma more_text c n : match text (Some (Ptr c n)) with [] => false | _ :: _ => true end = (n <? length (str c)).
Proof using.
  cbn. destruct (drop n (str c)) as [|x t] eqn:E; apply (f_equal length) in E; rewrite length_drop in E; cbn in E; symmetry; [apply Nat.ltb_ge|apply Nat.ltb_lt]; lia.
Qed.
Lemma next_place_at s c rest off O N : inside s c rest off O N -> next_place str s = Some (set_place (Some (Ptr c (off + 1))) s).
Proof using Hchars. intros Hin. destruct (text_at _ _ _ _ _ _ Hin) as (x & _ & Et & _). unfold next_place. rewrite Et. destruct Hin as (-> & _). done. Qed.

(** Unless it may be a short option, it is read as a long one. *)
Lemma long_is_read p rest : long_read false p rest <> None.
Proof using. unfold read_long. destruct (long_named _ _ _) as [o| |]; try done. by destruct (has_arg o), (equal_arg _ _), rest. Qed.

Lemma try_long_spec s c rest off O N :
  inside s c rest off O N -> optarg s = None ->
  exists s1 r1, try_long str options (Some longs) flags s = Some (s1, r1) /\
    ((exists r g, r1 = Some r /\ r <> (-1)%Z /\ option_read c off rest = (r, optarg s1, g) /\ went s1 c rest off O N g) \/
     (r1 = None /\ s1 = s /\ option_read c off rest = short_read c off rest /\ (off = 0 \/ hd 0%Z (text (place s)) <> DASH))).
Proof using Hchars Hvals.
  intros Hin Harg. destruct (inside_at _ _ _ _ _ _ Hin) as (Hat & Hlt & Hbe). destruct (text_at _ _ _ _ _ _ Hin) as (x & Ex & Et & Hx & H0).
  pose proof Hin as (Hp & Hoff & _). unfold try_long, arg_at, read_option. rewrite Ex. destruct (Nat.ltb_spec (optind s) (nargc s)); [|lia].
  rewrite Hat, Et, Hp. cbn [mbind option_bind p_str p_off hd]. rewrite bool_decide_eq_true_2 by done. cbn [andb FLAG_LONGONLY].
  assert (forall s' short_too p, same s s' -> optind s' = optind s -> optarg s' = None -> place s' = Some p -> 
    match long_read short_too p rest with
    | Some (r, a, n) => exists s2, parse_long_options str options longs short_too s' = Some (s2, r) /\ r <> (-1)%Z /\
        optarg (set_place None s2) = a /\ went (set_place None s2) c rest off O N (Took (1 + n))
    | None => parse_long_options str options longs short_too s' = Some (s', (-1)%Z)
    end) as Hlong.
  { intros s' short_too p Hs Ho Ha Hps. pose proof (parse_long_spec short_too s' p rest Hps Ha (behind_same _ _ _ Hs Ho Hbe)) as H1.
    destruct (long_read short_too p rest) as [[[r a] n]|]; cbn [reads_long] in H1; [|done]. destruct H1 as (s2 & E & Hs2 & Hr & Ha2 & Ho2 & Hn).
    exists s2. split_and!; try done. eapply went_took; [exact Hin|eapply same_trans; [exact Hs|by destruct Hs2]|done|cbn; lia|lia]. }
  assert ((0 <? off) = negb (off =? 0)) as -> by (by destruct off).
  destruct (Nat.eqb_spec off 0) as [->|Hne]; cbn [negb andb].
  { eexists _, _. split; [done|]. right. split_and!; try done. by left. }
  destruct (Z.eqb_spec x DASH) as [->|Hnd].
  - cbn [orb]. rewrite (next_place_at _ _ _ _ _ _ Hin). cbn [mbind option_bind negb andb].
    specialize (Hlong (set_place (Some (Ptr c (off + 1))) s) false _ ltac:(done) eq_refl Harg eq_refl).
    destruct (long_read false _ rest) as [[[r a] n]|] eqn:Er.
    + destruct Hlong as (s2 & -> & Hr & Ha & Hw). cbn [mbind option_bind]. rewrite (proj2 (Z.eqb_neq _ _) Hr). cbn [negb].
      eexists _, _. split; [done|]. left. exists r, (Took (1 + n)). by rewrite Ha.
    + by apply long_is_read in Er.
  - cbn [orb]. destruct longonly; cbn [mbind option_bind].
    + specialize (Hlong s (negb false && negb (x =? COLON)%Z && negb (bool_decide (strchr options x = None))) _ ltac:(done) eq_refl Harg Hp).
      destruct (long_read _ _ rest) as [[[r a] n]|] eqn:Er.
      * destruct Hlong as (s2 & -> & Hr & Ha & Hw). cbn [mbind option_bind]. rewrite (proj2 (Z.eqb_neq _ _) Hr). cbn [negb].
        eexists _, _. split; [done|]. left. exists r, (Took (1 + n)). by rewrite Ha.
      * rewrite Hlong. cbn [mbind option_bind Z.eqb negb]. eexists _, _. split; [done|]. right. split_and!; try done. by right.
    + eexists _, _. split; [done|]. right. split_and!; try done. by right.
Qed.

Lemma letter_arg_spec oli :
  letter_arg oli = if negb (hd 0 (tail oli) =? COLON)%Z then no_argument else if negb (hd 0 (tail (tail oli)) =? COLON)%Z then required_argument else optional_argument.
Proof using. destruct oli as [|x [|y [|z t]]]; try done; cbn; destruct (y =? COLON)%Z; try done; by destruct (z =? COLON)%Z. Qed.

(** Behind the character the element ends or goes on. *)
Lemma end_of_arg_spec s c rest off O N s' :
  inside s c rest off O N -> same s s' -> optind s' = optind s -> place s' = Some (Ptr c (off + 1)) ->
  optarg (end_of_arg str s') = optarg s' /\ went (end_of_arg str s') c rest off O N (if off + 1 <? length (str c) then Inside else Took 1).
Proof using.
  intros Hin Hs Ho Hp. pose proof (more_text c (off + 1)) as Hm. unfold end_of_arg. rewrite Hp. destruct (text (Some (Ptr c (off + 1)))) as [|y t] eqn:Et; rewrite <- Hm; (split; [done|]).
  - eapply went_took; [exact Hin|by destruct Hs|by cbn; rewrite Hp|cbn; lia|lia].
  - eapply advance; [exact Hin|done|done|by apply Nat.ltb_lt|done].
Qed.
(** -W, which a long option follows *)
Lemma dash_w_spec s c rest off O N s' :
  inside s c rest off O N -> optarg s = None -> same s s' -> optind s' = optind s -> optarg s' = optarg s -> place s' = Some (Ptr c (off + 1)) ->
  exists s1 r g,
    (if off + 1 <? length (str c) then '(s, optchar) ← parse_long_options str options longs false s'; Some (set_place None s, optchar)
     else
       let s := set_optind (optind s' + 1) s' in
       if nargc s <=? optind s then Some (set_optopt 87 (set_place None s), BADARG options)
       else a ← nargv s !! optind s; '(s, optchar) ← parse_long_options str options longs false (set_place (Some (Ptr a 0)) s); Some (set_place None s, optchar)) = Some (s1, r) /\
    r <> (-1)%Z /\
    (if off + 1 <? length (str c) then match long_read false (Ptr c (off + 1)) rest with Some (r, a, n) => (r, a, Took (1 + n)) | None => (BADCH, None, Took 1) end
     else match rest with
          | [] => (BADARG options, None, Took 1)
          | b :: rest => match long_read false (Ptr b 0) rest with Some (r, a, n) => (r, a, Took (2 + n)) | None => (BADCH, None, Took 2) end
          end) = (r, optarg s1, g) /\ went s1 c rest off O N g.
Proof using Hchars Hvals.
  intros Hin Harg Hs Ho Ha Hp. destruct (inside_at _ _ _ _ _ _ Hin) as (Hat & Hlt & Hbe).
  pose proof (behind_same _ _ _ Hs Ho Hbe) as Hbe'. destruct (off + 1 <? length (str c)).
  - pose proof (parse_long_spec false s' _ rest Hp ltac:(congruence) Hbe') as H1. destruct (long_read false _ rest) as [[[r a] n]|] eqn:Er.
    + destruct H1 as (s2 & -> & Hs2 & Hr & Ha2 & Ho2 & Hn). cbn [mbind option_bind]. exists (set_place None s2), r, (Took (1 + n)). split_and!; try done; [by rewrite <- Ha2|].
      eapply went_took; [exact Hin|eapply same_trans; [exact Hs|by destruct Hs2]|done|cbn; lia|lia].
    + by apply long_is_read in Er.
  - destruct Hbe' as [Hn Hb]. cbv zeta. set (s2 := set_optind (optind s' + 1) s'). change (nargc s2) with (nargc s'). change (optind s2) with (optind s' + 1). change (nargv s2) with (nargv s').
    rewrite (Hb 0). destruct rest as [|b rest]; cbn [length] in *.
    + destruct (Nat.leb_spec (nargc s') (optind s' + 1)); [|lia]. eexists _, _, (Took 1). split; [done|]. split; [apply badarg_not_end|]. split; [cbn; congruence|].
      eapply went_took; [exact Hin|by destruct Hs|done|cbn; lia|cbn; lia].
    + destruct (Nat.leb_spec (nargc s') (optind s' + 1)); [lia|]. cbn [lookup list_lookup mbind option_bind].
      assert (behind (set_place (Some (Ptr b 0)) s2) rest) as Hbe2.
      { split; [change (nargc s' = optind s' + 1 + S (length rest)); lia|]. intros i. change (rest !! i) with ((b :: rest) !! S i). rewrite <- (Hb (S i)). cbn. f_equal. lia. }
      pose proof (parse_long_spec false (set_place (Some (Ptr b 0)) s2) _ rest eq_refl ltac:(cbn; congruence) Hbe2) as H1. destruct (long_read false _ rest) as [[[r a] n]|] eqn:Er.
      * destruct H1 as (s3 & -> & Hs3 & Hr & Ha2 & Ho2 & Hnr). cbn [mbind option_bind]. exists (set_place None s3), r, (Took (2 + n)). split_and!; try done; [by rewrite <- Ha2|].
        eapply went_took; [exact Hin|eapply same_trans; [exact Hs|by destruct Hs3]|done|cbn in *; lia|cbn; lia].
      * by apply long_is_read in Er.
Qed.
Lemma short_arg_spec s c rest off O N s' oli x :
  inside s c rest off O N -> optarg s = None -> same s s' -> optind s' = optind s -> optarg s' = optarg s -> place s' = Some (Ptr c (off + 1)) -> x <> (-1)%Z ->
  exists s1 r g, short_arg str options oli x flags s' = Some (s1, r) /\ r <> (-1)%Z /\
    match letter_arg oli, rest with
    | no_argument, _ => (x, None, if off + 1 <? length (str c) then Inside else Took 1)
    | required_argument, [] => if off + 1 <? length (str c) then (x, Some (Ptr c (off + 1)), Took 1) else (BADARG options, None, Took 1)
    | required_argument, a :: _ => if off + 1 <? length (str c) then (x, Some (Ptr c (off + 1)), Took 1) else (x, Some (Ptr a 0), Took 2)
    | optional_argument, _ => (x, if off + 1 <? length (str c) then Some (Ptr c (off + 1)) else None, Took 1)
    end = (r, optarg s1, g) /\ went s1 c rest off O N g.
Proof using.
  intros Hin Harg Hs Ho Ha Hp Hx. destruct (inside_at _ _ _ _ _ _ Hin) as (Hat & Hlt & Hbe).
  destruct (behind_same _ _ _ Hs Ho Hbe) as [Hn Hb]. unfold short_arg. cbn [FLAG_PERMUTE negb]. rewrite letter_arg_spec.
  destruct (negb (hd 0%Z (tail oli) =? COLON)%Z).
  { destruct (end_of_arg_spec s c rest off O N s') as [Ea Hw]; [done|done|done|done|]. eexists _, _, _. split; [done|]. split; [done|]. split; [rewrite Ea, Ha, Harg; by destruct rest|exact Hw]. }
  change (place (set_optarg None s')) with (place s'). rewrite Hp.
  pose proof (more_text c (off + 1)) as Hm. destruct (text (Some (Ptr c (off + 1)))) as [|y t] eqn:Et; rewrite <- Hm.
  2: { eexists _, _, (Took 1). split; [done|]. split; [done|]. split; [by destruct (negb _), rest|].
       eapply went_took; [exact Hin|by destruct Hs|done|cbn; lia|lia]. }
  destruct (negb (hd 0%Z (tail (tail oli)) =? COLON)%Z).
  2: { eexists _, _, (Took 1). split; [done|]. split; [done|]. split; [by destruct rest|].
       eapply went_took; [exact Hin|by destruct Hs|done|cbn; lia|lia]. }
  set (s2 := set_optind _ _). change (nargc s2) with (nargc s'). change (optind s2) with (optind s' + 1). change (nargv s2) with (nargv s').
  rewrite (Hb 0). destruct rest as [|a rest]; cbn [length] in *.
  - destruct (Nat.leb_spec (nargc s') (optind s' + 1)); [|lia]. eexists _, _, (Took 1). split; [done|]. split; [apply badarg_not_end|]. split; [done|].
    eapply went_took; [exact Hin|by destruct Hs|done|cbn; lia|cbn; lia].
  - destruct (Nat.leb_spec (nargc s') (optind s' + 1)); [lia|]. cbn [lookup list_lookup mbind option_bind]. eexists _, _, (Took 2). split; [done|]. split; [done|]. split; [done|].
    eapply went_took; [exact Hin|by destruct Hs|done|cbn; lia|cbn; lia].
Qed.
Lemma short_option_spec s c rest off O N :
  inside s c rest off O N -> optarg s = None -> off = 0 \/ hd 0%Z (text (place s)) <> DASH ->
  exists s1 r g, short_option str options (Some longs) flags s = Some (s1, r) /\ r <> (-1)%Z /\ short_read c off rest = (r, optarg s1, g) /\ went s1 c rest off O N g.
Proof using Hchars Hvals.
  intros Hin Harg Hdash. destruct (inside_at _ _ _ _ _ _ Hin) as (Hat & Hlt & Hbe). destruct (text_at _ _ _ _ _ _ Hin) as (x & Ex & Et & Hx & H0).
  pose proof Hin as (Hp & Hoff & Hone & _). unfold short_option, read_short. rewrite (next_place_at _ _ _ _ _ _ Hin), Ex, Et. rewrite Et in Hdash. cbn [mbind option_bind hd] in *.
  set (s' := set_place (Some (Ptr c (off + 1))) s). change (text (place s')) with (text (Some (Ptr c (off + 1)))). rewrite more_text.
  assert (same s s') as Hs by done. assert (x <> (-1)%Z) as Hxr by lia.
  set (more := off + 1 <? length (str c)). set (goes := if more then Inside else Took 1).
  destruct (if (x =? COLON)%Z || ((x =? DASH)%Z && more) then None else strchr options x) as [oli|] eqn:Eoli.
  2: { destruct ((x =? DASH)%Z && negb more) eqn:Ed.
       { exfalso. apply andb_true_iff in Ed as [->%Z.eqb_eq Em%negb_true_iff]. rewrite Em in Eoli. cbn in Eoli.
         destruct Hdash as [H|H]; [|done]. by apply (proj2 (Hone H)). }
       destruct (end_of_arg_spec s c rest off O N (set_optopt x s')) as [Ha Hw]; [done|done|done|done|].
       exists (set_optopt x (end_of_arg str s')), BADCH, goes. split; [done|]. split; [done|].
       replace (set_optopt x (end_of_arg str s')) with (end_of_arg str (set_optopt x s')) by (unfold end_of_arg; change (place (set_optopt x s')) with (place s'); by destruct (text (place s'))).
       split; [by rewrite Ha; cbn; rewrite Harg|exact Hw]. }
  destruct ((x =? 87)%Z && (hd 0%Z (tail oli) =? 59)%Z) eqn:Ew.
  - apply andb_true_iff in Ew as [Ew%Z.eqb_eq _]. rewrite Ew. apply (dash_w_spec s c rest off O N s'); done.
  - apply (short_arg_spec s c rest off O N s' oli x); done.
Qed.

(** ** A call, and all calls *)
Context (Hhd : hd 0%Z options <> PLUS /\ hd 0%Z options <> DASH).
(** Before the arguments [args], at the offset [at_]; [m] bounds the calls that are left. *)
Definition running (m : nat) (s : getopt_state) (at_ : option nat) (args O N : list nat) : Prop :=
  match at_, args with
  | None, _ => ready s args O N /\ weight args <= m
  | Some off, c :: rest => inside s c rest off O N /\ weight (c :: rest) - off <= m
  | Some _, [] => False
  end.
Notation call := (getopt_internal str false options (Some longs) flags).

Lemma running_same m s s' at_ args O N : same s s' -> optind s' = optind s -> place s' = place s -> running m s at_ args O N -> running m s' at_ args O N.
Proof using.
  intros Hs Ho Hp. destruct at_ as [off|]; cbn [running].
  - destruct args as [|c rest]; [done|]. intros [(Hpl & Hoff & H1 & O1 & O2 & E & Hsh & HO) Hw]. split; [|done]. split; [congruence|]. split; [done|]. split; [done|].
    exists O1, O2. split; [done|]. split; [by eapply shape_same|]. by destruct Hs as [_ _ _ ->].
  - intros [(Ht & O1 & O2 & E & Hsh & HO) Hw]. split; [|done]. split; [by rewrite Hp|]. exists O1, O2. split; [done|]. split; [by eapply shape_same|]. by destruct Hs as [_ _ _ ->].
Qed.
Lemma running_optind m s at_ args O N : running m s at_ args O N -> length P <= optind s /\ optreset s = false.
Proof using.
  destruct at_ as [off|]; cbn [running].
  - destruct args as [|c rest]; [done|]. intros [(_ & _ & _ & O1 & O2 & _ & [] & _) _]. split; [lia|done].
  - intros [(_ & O1 & O2 & _ & [] & _) _]. split; [lia|done].
Qed.
(** The scan gets inside an element, or to the end. *)
Lemma scan_running m s at_ args O N :
  running m s at_ args O N ->
  exists s' r, scan str (S (S (nargc s))) options flags s = Some (s', r) /\
    ((r = None /\ optarg s' = optarg s /\ exists c rest off M, inside s' c rest off O (N ++ M) /\ weight (c :: rest) - off <= m /\
        forall rs O' N' B, reads (Some off) (c :: rest) rs O' N' B -> reads at_ args rs O' (M ++ N') B) \/
     (r = Some (-1)%Z /\ exists O' M B, reads at_ args [] O' M B /\ finished s' (O ++ O') (N ++ M) B)).
Proof using Hchars.
  intros Hrun. destruct (running_optind _ _ _ _ _ _ Hrun) as [_ Hr]. destruct at_ as [off|]; cbn [running] in Hrun.
  - destruct args as [|c rest]; [done|]. destruct Hrun as [Hin Hw]. cbn [scan]. destruct (text_at _ _ _ _ _ _ Hin) as (x & _ & -> & _). rewrite Hr. cbn [orb negb].
    eexists _, _. split; [done|]. left. split; [done|]. split; [done|]. exists c, rest, off, []. by rewrite app_nil_r.
  - destruct Hrun as [Hrd Hw]. destruct (scan_spec args (S (S (nargc s))) s O N Hrd) as (s' & r & E & Ha & Hsc).
    + destruct Hrd as (_ & O1 & O2 & _ & [Ha _ _ _] & _). unfold nargc. rewrite Ha, !length_app. lia.
    + exists s', r. split; [done|]. destruct Hsc as [(-> & c & rest & off & M & Hin & Hw2 & Hrd2)|H]; [left|by right]. split; [done|]. split; [by apply Ha|].
      exists c, rest, off, M. split; [done|]. split; [lia|done].
Qed.

(** A call answers with the next option of the reading, or with -1 at its end. *)
Lemma call_spec m s at_ args O N :
  P <> [] -> running m s at_ args O N ->
  exists s' r, call s = Some (s', r) /\
    ((r = (-1)%Z /\ exists O' M B, reads at_ args [] O' M B /\ finished s' (O ++ O') (N ++ M) B) \/
     (r <> (-1)%Z /\ exists m' at' args' O' M, m' < m /\ running m' s' at' args' (O ++ O') (N ++ M) /\
        forall rs O2 N2 B, reads at' args' rs O2 N2 B -> reads at_ args ((r, optarg s') :: rs) (O' ++ O2) (M ++ N2) B)).
Proof using Hchars Hvals Hhd.
  intros HP Hrun. destruct (running_optind _ _ _ _ _ _ Hrun) as [Hpos Hr]. unfold getopt_internal. destruct Hhd as [H1 H2].
  rewrite (proj2 (Z.eqb_neq _ _) H1), (proj2 (Z.eqb_neq _ _) H2). cbn [orb]. destruct (Nat.eqb_spec (optind s) 0) as [E|_].
  { destruct P; [done|]. cbn in Hpos. lia. }
  change (optreset (set_optarg None s)) with (optreset s). rewrite Hr.
  destruct (scan_running m (set_optarg None s) at_ args O N) as (s1 & r1 & -> & [(-> & Harg & c & rest & off & M & Hin & Hw & Hrd)|(-> & Hfin)]); [by apply (running_same m s)| |]; cbn [mbind option_bind].
  2: { eexists _, _. split; [done|]. by left. }
  assert (forall s' r g, option_read c off rest = (r, optarg s', g) -> r <> (-1)%Z -> went s' c rest off O (N ++ M) g ->
    exists m' at' args' O' M, m' < m /\ running m' s' at' args' (O ++ O') (N ++ M) /\
      forall rs O2 N2 B, reads at' args' rs O2 N2 B -> reads at_ args ((r, optarg s') :: rs) (O' ++ O2) (M ++ N2) B) as Hgo.
  { intros s' r g Eg Hne Hwent. destruct Hin as (_ & Hoff & _). destruct g as [|n]; cbn [went] in Hwent.
    - exists (weight (c :: rest) - S off), (Some (S off)), (c :: rest), [], M. rewrite app_nil_r. split; [unfold weight in *; cbn in *; lia|]. split; [done|].
      intros rs O2 N2 B H. apply Hrd. by eapply reads_inside.
    - destruct Hwent as [Hn Hready]. destruct n as [|n]; [lia|]. exists (weight rest), None, (drop (S n) (c :: rest)), (take (S n) (c :: rest)), M.
      split; [unfold weight in *; cbn in *; lia|]. split; [split; [done|apply (weight_drop n rest)]|]. intros rs O2 N2 B H. apply Hrd. by eapply reads_took. }
  destruct (try_long_spec _ _ _ _ _ _ Hin Harg) as (s2 & r2 & -> & [(r & g & -> & Hne & Eg & Hwent)|(-> & -> & Eg & Hcase)]); cbn [mbind option_bind].
  - eexists _, _. split; [done|]. right. split; [done|]. by apply (Hgo _ _ g).
  - destruct (short_option_spec _ _ _ _ _ _ Hin Harg Hcase) as (s3 & r3 & g & -> & Hne & Eg3 & Hwent). eexists _, _. split; [done|]. right. split; [done|].
    apply (Hgo _ _ g); [by rewrite Eg|done|done].
Qed.

Lemma client_spec m s at_ args O N fuel :
  P <> [] -> running m s at_ args O N -> m < fuel ->
  exists s' rs O' N' B, client call fuel s = Some (s', rs) /\ reads at_ args rs O' N' B /\ finished s' (O ++ O') (N ++ N') B.
Proof using Hchars Hvals Hhd.
  intros HP. revert m s at_ args O N. induction fuel as [|fuel IH]; intros m s at_ args O N Hrun Hf; [lia|]. cbn [client].
  destruct (call_spec m s at_ args O N HP Hrun) as (s1 & r & -> & [(-> & O' & M & B & Hrd & Hfin)|(Hne & m' & at' & args' & O' & M & Hlt & Hrun' & Hrd)]); cbn [mbind option_bind].
  - cbn. exists s1, [], O', M, B. done.
  - rewrite (proj2 (Z.eqb_neq _ _) Hne). destruct (IH m' s1 at' args' _ _ Hrun' ltac:(lia)) as (s' & rs & O2 & N2 & B & -> & Hrd2 & Hfin). cbn [mbind option_bind].
    rewrite <- !app_assoc in Hfin. exists s', ((r, optarg s1) :: rs), (O' ++ O2), (M ++ N2), B. split; [done|]. split; [by apply Hrd|done].
Qed.
End order.

(** C26.  getopt_long and getopt_long_only with the permuting default (no '+' or '-' before the options, no POSIXLY_CORRECT):
    for any arguments behind the program's name, any short options and any long options of which none is reported as -1, a
    client that calls until the answer is -1 gets it, and no access leaves argv or a string.  The answers, each with its optarg,
    are those of the only reading of the arguments from the first to the last, in which a long option is looked up by its name
    or an unambiguous abbreviation and an option takes its argument from its own element or from the next.  Then argv has
    been rearranged: of the part A of the arguments that was read (all of them, or those up to and with "--"), first come the
    elements of the options with the arguments that they took, then the non-options, each in their order, then what stood behind;
    and optind is at the first non-option.  The state is ready for another parse. *)
Theorem getopt_long_permutes str options longs (longonly : bool) prog args fuel :
  (forall i, Forall (fun c => 0 < c)%Z (str i)) -> Forall (fun o => flag o = None -> val o <> (-1)%Z) longs ->
  hd 0%Z options <> PLUS -> hd 0%Z options <> DASH -> weight str args < fuel ->
  exists s rs A B O N,
    client ((if longonly then getopt_long_only else getopt_long) str false options longs) fuel (initial (prog :: args)) = Some (s, rs) /\
    reads str options longs longonly None args rs O N B /\
    (forall rs' O' N' B', reads str options longs longonly None args rs' O' N' B' -> rs' = rs /\ O' = O /\ N' = N /\ B' = B) /\
    args = A ++ B /\ merge A O N /\ Forall (operand str options) N /\
    (B = [] \/ exists x, last O = Some x /\ str x = [DASH; DASH]) /\
    nargv s = prog :: O ++ N ++ B /\ optind s = S (length O) /\
    place s = None /\ nonopt_start s = None /\ nonopt_end s = None.
Proof.
  intros Hc Hv H1 H2 Hf.
  destruct (client_spec str options longs longonly [prog] Hc Hv (conj H1 H2) (weight str args) (initial (prog :: args)) None args [] [] fuel)
    as (s & rs & O & N & B & E & Hrd & Hp & Hs & He & Ha & Ho); [done| |done|].
  { split; [|done]. split; [done|]. exists [], []. split; [done|]. split; [|done]. split; try done. by left. }
  destruct (reads_merge _ _ _ _ _ _ _ _ _ _ Hrd) as (A & HA & Hm). exists s, rs, A, B, O, N. split; [by destruct longonly|]. split_and!; try done.
  - intros rs' O' N' B' H. destruct (reads_unique _ _ _ _ _ _ _ _ _ _ _ _ _ _ Hrd H) as (-> & -> & -> & ->). done.
  - by eapply reads_operands.
  - by eapply reads_rest.
Qed.
(** "prog x -ab1 y --v -b z -- -a", as in the example above. *)
Lemma getopt_long_permutes_witness :
  exists s rs A B O N,
    client (getopt_long sample_args false [97; 98; 58]%Z [LongOption [118; 101; 114; 98]%Z no_argument None 86%Z]) 100 (initial (0 :: seq 1 8)) = Some (s, rs) /\
    reads sample_args [97; 98; 58]%Z [LongOption [118; 101; 114; 98]%Z no_argument None 86%Z] false None (seq 1 8) rs O N B /\
    (forall rs' O' N' B', reads sample_args [97; 98; 58]%Z [LongOption [118; 101; 114; 98]%Z no_argument None 86%Z] false None (seq 1 8) rs' O' N' B' ->
       rs' = rs /\ O' = O /\ N' = N /\ B' = B) /\
    seq 1 8 = A ++ B /\ merge A O N /\ Forall (operand sample_args [97; 98; 58]%Z) N /\
    (B = [] \/ exists x, last O = Some x /\ sample_args x = [DASH; DASH]) /\
    nargv s = 0 :: O ++ N ++ B /\ optind s = S (length O) /\
    place s = None /\ nonopt_start s = None /\ nonopt_end s = None.
Proof.
  apply (getopt_long_permutes sample_args [97; 98; 58]%Z [LongOption [118; 101; 114; 98]%Z no_argument None 86%Z] false 0 (seq 1 8) 100).
  - intros i. do 9 (destruct i as [|i]; [vm_compute; repeat constructor|]). destruct i; constructor.
  - repeat constructor. discriminate.
  - discriminate.
  - discriminate.
  - vm_compute. lia.
Defined.
