(* ===== verification/Ieee.v ===== *)
(** * Floating-point numbers as words (libm/src/math_private.h)

    A double is the two words that EXTRACT_WORDS and INSERT_WORDS move, a float one word.  Every finite
    double is a multiple of 2^-1074 (a float of 2^-149), and its value here is that multiple, an integer, so
    that the theorems on libm speak of integers alone.  The magnitude of a number is its bits without
    the sign; [mag] is what it is worth, for p bits of fraction. *)
From S2P Require Import Prelude.
#[local] Open Scope Z_scope.

(** ** Words *)
(** Where a macro fills a variable of type int32_t its value goes through [s32]. *)
Record double : Type := Double { msw : Z; lsw : Z }.
#[export] Instance double_dec : EqDecision double.
Proof. solve_decision. Defined.
Definition is_double (d : double) : Prop := is_u32 (msw d) /\ is_u32 (lsw d).
Definition INSERT_WORDS (ix0 ix1 : Z) : double := Double (u32 ix0) (u32 ix1).

(** The arithmetic of the processor *)
Class Fpu : Type := { fadd : double -> double -> double; fsub : double -> double -> double; fmul : double -> double -> double; fdiv : double -> double -> double }.
Definition ONE : double := Double 0x3ff00000 0.

(** ** Magnitudes *)
Section format.
Context (p bias : Z) (Hp : 0 < p) (Hb : 0 < bias).
Definition mag (M : Z) : Z := let e := M / 2 ^ p in if e =? 0 then M else (2 ^ p + M mod 2 ^ p) * 2 ^ (e - 1).
(** The value 1 *)
Definition one : Z := 2 ^ (p + bias - 1).

Lemma pow_p : 0 < 2 ^ p.
Proof using Hp. apply Z.pow_pos_nonneg; lia. Qed.
Lemma one_pos : 0 < one.
Proof using Hp Hb. apply Z.pow_pos_nonneg; lia. Qed.
Lemma split_mag M : M = 2 ^ p * (M / 2 ^ p) + M mod 2 ^ p /\ 0 <= M mod 2 ^ p < 2 ^ p.
Proof using Hp. pose proof pow_p. split; [by apply Z.div_mod; lia|by apply Z.mod_pos_bound]. Qed.
Lemma mag_small M : 0 <= M < 2 ^ p -> mag M = M.
Proof using. intros H. unfold mag. by rewrite Z.div_small. Qed.
Lemma mag_exp e f : 1 <= e -> 0 <= f < 2 ^ p -> mag (2 ^ p * e + f) = (2 ^ p + f) * 2 ^ (e - 1).
Proof using Hp.
  intros He Hf. unfold mag. pose proof pow_p.
  replace ((2 ^ p * e + f) / 2 ^ p) with e by (apply (Z.div_unique_pos _ _ _ f); lia).
  destruct (Z.eqb_spec e 0); [lia|]. f_equal. f_equal. symmetry. apply (Z.mod_unique_pos _ _ e f); lia.
Qed.
Lemma mag_nonneg M : 0 <= M -> 0 <= mag M.
Proof using Hp.
  intros HM. destruct (split_mag M) as [E Hf]. pose proof pow_p. assert (0 <= M / 2 ^ p) by (apply Z.div_pos; lia).
  destruct (Z.eq_dec (M / 2 ^ p) 0) as [E0|].
  - rewrite mag_small by lia. lia.
  - rewrite E, mag_exp by lia. apply Z.mul_nonneg_nonneg; [lia|]. apply Z.pow_nonneg. lia.
Qed.

(** The next magnitude is worth one unit of the last place more; the order of magnitudes is that of values. *)
Definition ulp (M : Z) : Z := 2 ^ (Z.max 1 (M / 2 ^ p) - 1).
Lemma mag_succ M : 0 <= M -> mag (M + 1) = mag M + ulp M.
Proof using Hp.
  intros HM. destruct (split_mag M) as [E Hf]. pose proof pow_p. assert (0 <= M / 2 ^ p) by (apply Z.div_pos; lia).
  unfold ulp. set (e := M / 2 ^ p) in *. set (f := M mod 2 ^ p) in *.
  destruct (Z.eq_dec e 0) as [->|].
  - rewrite (mag_small M) by lia. change (2 ^ (Z.max 1 0 - 1)) with 1. destruct (Z.eq_dec f (2 ^ p - 1)).
    + replace (M + 1) with (2 ^ p * 1 + 0) by lia. rewrite mag_exp by lia. change (2 ^ (1 - 1)) with 1. lia.
    + by rewrite mag_small by lia.
  - rewrite Z.max_r by lia. rewrite E at 2. rewrite mag_exp by lia. destruct (Z.eq_dec f (2 ^ p - 1)).
    + replace (M + 1) with (2 ^ p * (e + 1) + 0) by lia. rewrite mag_exp by lia.
      replace (e + 1 - 1) with (1 + (e - 1)) by lia. rewrite Z.pow_add_r by lia. nia.
    + replace (M + 1) with (2 ^ p * e + (f + 1)) by lia. rewrite mag_exp by lia. nia.
Qed.
Lemma ulp_pos M : 0 < ulp M.
Proof using Hp. apply Z.pow_pos_nonneg; lia. Qed.
Lemma mag_lt M M' : 0 <= M -> M < M' -> mag M < mag M'.
Proof using Hp.
  intros HM Hlt. replace M' with (M + (1 + (M' - M - 1))) by lia. assert (0 <= M' - M - 1) as Hk by lia. revert Hk. generalize (M' - M - 1). clear M' Hlt.
  apply natlike_ind.
  - rewrite Z.add_0_r, mag_succ by done. pose proof (ulp_pos M). lia.
  - intros k Hk IH. replace (M + (1 + Z.succ k)) with (M + (1 + k) + 1) by lia. rewrite mag_succ by lia. pose proof (ulp_pos (M + (1 + k))). lia.
Qed.
Lemma mag_le M M' : 0 <= M -> M <= M' -> mag M <= mag M'.
Proof using Hp. intros HM [H| ->]%Z.lt_eq_cases; [|done]. pose proof (mag_lt M M' HM H). lia. Qed.
Lemma mag_inj M M' : 0 <= M -> 0 <= M' -> mag M = mag M' -> M = M'.
Proof using Hp.
  intros H1 H2 E. destruct (Z.lt_trichotomy M M') as [H|[H|H]]; [|done|].
  - pose proof (mag_lt M M' H1 H). lia.
  - pose proof (mag_lt M' M H2 H). lia.
Qed.

(** ** Rounding to a multiple of 1: the bits below it are cleared. *)
Definition fraction_bits (M : Z) : Z := 2 ^ (p - (M / 2 ^ p - bias)).
Lemma mag_below_one M : 0 <= M -> M / 2 ^ p < bias -> 0 <= mag M < one.
Proof using Hp Hb.
  intros HM He. split; [by apply mag_nonneg|]. pose proof pow_p. destruct (split_mag M) as [E Hf].
  assert (mag (2 ^ p * bias + 0) = one) as <-.
  { rewrite mag_exp by lia. unfold one. rewrite Z.add_0_r, <- Z.pow_add_r by lia. f_equal. lia. }
  apply mag_lt; [lia|nia].
Qed.
Lemma mag_integral M : bias + p <= M / 2 ^ p -> mag M mod one = 0.
Proof using Hp Hb.
  intros He. destruct (split_mag M) as [E Hf]. rewrite E, mag_exp by lia. unfold one.
  replace (M / 2 ^ p - 1) with (M / 2 ^ p - bias - p + (p + bias - 1)) by lia. rewrite Z.pow_add_r by lia. rewrite Z.mul_assoc. by rewrite Z_mod_mult.
Qed.
Lemma rounded M :
  bias <= M / 2 ^ p < bias + p ->
  let K := fraction_bits M in
  mag (M - M mod K) = mag M / one * one /\ mag (M - M mod K + K) = (mag M / one + 1) * one /\ (M mod K = 0 <-> mag M mod one = 0).
Proof using Hp Hb.
  intros He K. unfold K, fraction_bits. clear K. destruct (split_mag M) as [E Hf]. set (e := M / 2 ^ p) in *. set (f := M mod 2 ^ p) in *.
  set (K := 2 ^ (p - (e - bias))). assert (0 < K) as HK by (apply Z.pow_pos_nonneg; lia).
  assert (0 < 2 ^ (e - 1)) as HU by (apply Z.pow_pos_nonneg; lia).
  assert (one = K * 2 ^ (e - 1)) as Hone by (unfold one, K; rewrite <- Z.pow_add_r by lia; f_equal; lia).
  assert (exists c, 2 ^ p = c * K) as [c Hc].
  { exists (2 ^ (e - bias)). unfold K. rewrite <- Z.pow_add_r by lia. f_equal. lia. }
  assert (M mod K = f mod K) as EM by (rewrite E, Hc, <- Z.mul_assoc, (Z.mul_comm K e), Z.mul_assoc, Z.add_comm, Z_mod_plus_full; done).
  pose proof (Z.div_mod f K ltac:(lia)) as Ef. pose proof (Z.mod_pos_bound f K HK) as Hfk. assert (0 <= f / K) as Hq by (apply Z.div_pos; lia). set (q := f / K) in *. set (r := f mod K) in *.
  assert (0 <= K * q) as HKq by nia.
  assert (mag M = (2 ^ p + f) * 2 ^ (e - 1)) as Emag by (rewrite E; apply mag_exp; lia).
  assert (mag M / one = c + q) as Ediv.
  { rewrite Emag, Hone. rewrite Z.div_mul_cancel_r by lia. symmetry. apply (Z.div_unique_pos _ _ _ r); lia. }
  assert (mag M mod one = r * 2 ^ (e - 1)) as Emod.
  { rewrite Emag, Hone. rewrite Z.mul_mod_distr_r by lia. f_equal. symmetry. apply (Z.mod_unique_pos _ _ (c + q)); lia. }
  rewrite Ediv, Emod, EM, Hone. split; [|split].
  - replace (M - r) with (2 ^ p * e + (f - r)) by lia. rewrite mag_exp by lia. rewrite Hc. replace (f - r) with (K * q) by lia. ring.
  - destruct (Z.eq_dec (f - r + K) (2 ^ p)) as [E2|E2].
    + replace (M - r + K) with (2 ^ p * (e + 1) + 0) by lia. rewrite mag_exp by lia. replace (e + 1 - 1) with (1 + (e - 1)) by lia.
      rewrite Z.pow_add_r by lia. change (2 ^ 1) with 2. assert (q + 1 = c) as E3 by (apply (Z.mul_reg_r _ _ K); lia). replace (c + q + 1) with (2 * c) by lia. rewrite Hc. ring.
    + assert (q < c) by nia. assert (q + 1 <> c) by (intros E3; apply E2; rewrite Hc, <- E3; lia). assert (f - r + K < 2 ^ p) by nia. replace (M - r + K) with (2 ^ p * e + (f - r + K)) by lia. rewrite mag_exp by lia. rewrite Hc. replace (f - r + K) with (K * q + K) by lia. ring.
  - split; intros H; [rewrite H; lia|]. apply Z.mul_eq_0 in H. lia.
Qed.
End format.

(** ** Doubles and floats *)
Definition magnitude (d : double) : Z := msw d mod 2 ^ 31 * 2 ^ 32 + lsw d.
Definition negative (d : double) : bool := 2 ^ 31 <=? msw d.
Definition is_finite (d : double) : Prop := is_double d /\ magnitude d < 2047 * 2 ^ 52.
Definition signed (neg : bool) (m : Z) : Z := if neg then - m else m.
(** The double is [value d] times 2^-1074. *)
Definition value (d : double) : Z := signed (negative d) (mag 52 (magnitude d)).
Definition unit : Z := one 52 1023.
(** A float is its word, and is [fvalue f] times 2^-149. *)
Definition fmagnitude (f : Z) : Z := f mod 2 ^ 31.
Definition fnegative (f : Z) : bool := 2 ^ 31 <=? f.
Definition is_ffinite (f : Z) : Prop := is_u32 f /\ fmagnitude f < 255 * 2 ^ 23.
Definition fvalue (f : Z) : Z := signed (fnegative f) (mag 23 (fmagnitude f)).
Definition funit : Z := one 23 127.

(** ** Masks *)
Lemma land_mask x n : 0 <= n -> Z.land x (2 ^ n - 1) = x mod 2 ^ n.
Proof. intros Hn. rewrite <- Z.land_ones by done. by rewrite Z.ones_equiv, Z.sub_1_r. Qed.
Lemma land_clear x n : 0 <= n -> Z.land x (Z.lnot (2 ^ n - 1)) = x - x mod 2 ^ n.
Proof.
  intros Hn. rewrite <- Z.ldiff_land. replace (2 ^ n - 1) with (Z.ones n) by (rewrite Z.ones_equiv; lia). rewrite Z.ldiff_ones_r, Z.shiftl_mul_pow2, Z.shiftr_div_pow2 by done.
  pose proof (Z.div_mod x (2 ^ n) ltac:(apply Z.pow_nonzero; lia)). lia.
Qed.
Lemma mask_shiftr n j : 0 <= j <= n -> Z.shiftr (2 ^ n - 1) j = 2 ^ (n - j) - 1.
Proof.
  intros Hj. rewrite Z.shiftr_div_pow2 by lia. replace n with (j + (n - j)) at 1 by lia. rewrite Z.pow_add_r by lia.
  assert (0 < 2 ^ j) by (apply Z.pow_pos_nonneg; lia). assert (0 < 2 ^ (n - j)) by (apply Z.pow_pos_nonneg; lia).
  symmetry. apply (Z.div_unique_pos _ _ _ (2 ^ j - 1)); nia.
Qed.
Lemma pow_shiftr n j : 0 <= j <= n -> Z.shiftr (2 ^ n) j = 2 ^ (n - j).
Proof.
  intros Hj. rewrite Z.shiftr_div_pow2 by lia. symmetry. apply (Z.div_unique_pos _ _ _ 0); [split; [done|apply Z.pow_pos_nonneg; lia]|].
  rewrite <- Z.pow_add_r by lia. rewrite Z.add_0_r. f_equal. lia.
Qed.
Lemma s32_mod x n : 0 <= n <= 32 -> s32 x mod 2 ^ n = x mod 2 ^ n.
Proof.
  intros Hn. unfold s32. pose proof (Z.div_mod (x + 2 ^ 31) (2 ^ 32) ltac:(lia)).
  replace ((x + 2 ^ 31) mod 2 ^ 32 - 2 ^ 31) with (x + (- ((x + 2 ^ 31) / 2 ^ 32) * 2 ^ (32 - n)) * 2 ^ n).
  - by rewrite Z_mod_plus_full.
  - rewrite <- Z.mul_assoc, <- Z.pow_add_r by lia. replace (32 - n + n) with 32 by lia. lia.
Qed.
Lemma u32_mod x n : 0 <= n <= 32 -> u32 x mod 2 ^ n = x mod 2 ^ n.
Proof. intros Hn. by rewrite <- (s32_mod (u32 x)), s32_u32, s32_mod. Qed.
Lemma u32_clear x n : 0 <= n <= 32 -> u32 (Z.land (s32 x) (Z.lnot (2 ^ n - 1))) = u32 x - u32 x mod 2 ^ n.
Proof.
  intros Hn. rewrite land_clear by lia. assert (0 < 2 ^ n) by (apply Z.pow_pos_nonneg; lia).
  pose proof (Z.mod_pos_bound (u32 x) (2 ^ n) ltac:(lia)). pose proof (Z.mod_le (u32 x) (2 ^ n) (proj1 (u32_range x)) ltac:(lia)). pose proof (u32_range x) as Hr. unfold is_u32 in *.
  rewrite s32_mod, <- (u32_mod x n) by lia. rewrite <- (u32_id (u32 x - u32 x mod 2 ^ n)) by (unfold is_u32; lia).
  unfold u32 at 1 3. rewrite <- Zminus_mod_idemp_l, <- (Zminus_mod_idemp_l (u32 x)). f_equal. f_equal.
  change (s32 x mod 2 ^ 32) with (u32 (s32 x)). rewrite u32_s32. symmetry. by apply u32_id.
Qed.
(** The sign of a word *)
Lemma s32_word h : is_u32 h -> s32 h = if 2 ^ 31 <=? h then h - 2 ^ 32 else h.
Proof.
  unfold is_u32. intros Hh. unfold s32. destruct (Z.leb_spec (2 ^ 31) h).
  - replace (h + 2 ^ 31) with (h - 2 ^ 31 + 1 * 2 ^ 32) by lia. rewrite Z_mod_plus_full, Z.mod_small by lia. lia.
  - rewrite Z.mod_small by lia. lia.
Qed.
Lemma split_word h : is_u32 h -> h = (if 2 ^ 31 <=? h then 2 ^ 31 else 0) + h mod 2 ^ 31 /\ 0 <= h mod 2 ^ 31 < 2 ^ 31.
Proof.
  unfold is_u32. intros Hh. destruct (Z.leb_spec (2 ^ 31) h).
  - replace h with (h - 2 ^ 31 + 1 * 2 ^ 31) at 2 3 4 by lia. rewrite Z_mod_plus_full, Z.mod_small by lia. lia.
  - rewrite Z.mod_small by lia. lia.
Qed.
Lemma exponent_field h k n : 0 <= k -> 0 <= n -> k + n = 31 -> Z.land (Z.shiftr (s32 h) k) (2 ^ n - 1) = h mod 2 ^ 31 / 2 ^ k.
Proof.
  intros Hk Hn E. rewrite land_mask, Z.shiftr_div_pow2 by lia. rewrite <- (s32_mod h) by lia. rewrite <- E.
  rewrite Z.pow_add_r by lia.
  assert (0 < 2 ^ k) by (apply Z.pow_pos_nonneg; lia). assert (0 < 2 ^ n) by (apply Z.pow_pos_nonneg; lia).
  rewrite (Z.rem_mul_r (s32 h)) by lia. rewrite (Z.mul_comm (2 ^ k)), Z.div_add by lia. rewrite (Z.div_small (_ mod 2 ^ k)) by (apply Z.mod_pos_bound; lia). lia.
Qed.
Lemma land_pow2 x k : 0 <= k -> Z.land x (2 ^ k) = 2 ^ k * (x / 2 ^ k mod 2).
Proof.
  intros Hk. apply Z.bits_inj'. intros n Hn. rewrite Z.land_spec, Z.pow2_bits_eqb by lia. rewrite Z.mul_comm, Z.mul_pow2_bits by lia.
  change (x / 2 ^ k mod 2) with (x / 2 ^ k mod 2 ^ 1). destruct (Z.eqb_spec k n) as [<-|Hne].
  - rewrite andb_true_r. rewrite Z.mod_pow2_bits_low by lia. rewrite Z.div_pow2_bits by lia. f_equal. lia.
  - rewrite andb_false_r. destruct (Z.lt_ge_cases n k); [symmetry; apply Z.testbit_neg_r; lia|]. by rewrite Z.mod_pow2_bits_high by lia.
Qed.
Lemma land_sign h : is_u32 h -> Z.land (s32 h) (2 ^ 31) = if 2 ^ 31 <=? h then 2 ^ 31 else 0.
Proof.
  intros Hh. rewrite land_pow2, (s32_word h Hh) by lia. unfold is_u32 in Hh. destruct (Z.leb_spec (2 ^ 31) h).
  - replace ((h - 2 ^ 32) / 2 ^ 31) with (-1) by (apply (Z.div_unique_pos _ _ _ (h - 2 ^ 31)); lia). done.
  - by rewrite Z.div_small by lia.
Qed.
Lemma sign_bit_mod (b : bool) v : 0 <= v < 2 ^ 31 -> ((if b then 2 ^ 31 else 0) + v) mod 2 ^ 31 = v.
Proof.
  intros Hv. destruct b; [|by apply Z.mod_small]. rewrite Z.add_comm, <- (Z.mul_1_l (2 ^ 31)) at 1. rewrite Z_mod_plus_full. by apply Z.mod_small.
Qed.

(** ** The words of a double *)
Section words.
Context (x : double) (Hx : is_double x).
Notation h := (msw x).
Notation l := (lsw x).
Notation M := (magnitude x).
Notation m := (h mod 2 ^ 31).
Lemma h_split : h = (if negative x then 2 ^ 31 else 0) + m /\ 0 <= m < 2 ^ 31.
Proof using Hx. exact (split_word h (proj1 Hx)). Qed.
Lemma magnitude_exponent : M / 2 ^ 52 = m / 2 ^ 20.
Proof using Hx.
  unfold magnitude. replace (2 ^ 52) with (2 ^ 32 * 2 ^ 20) by done. rewrite <- Z.div_div by lia. f_equal.
  destruct Hx as [_ Hl]. unfold is_u32 in Hl. rewrite Z.div_add_l by lia. rewrite Z.div_small; lia.
Qed.
Lemma magnitude_range : 0 <= M < 2 ^ 63.
Proof using Hx. pose proof h_split. destruct Hx as [_ Hl]. unfold is_u32 in Hl. unfold magnitude. lia. Qed.
Lemma exponent_words : Z.land (Z.shiftr (s32 h) 20) 0x7ff - 0x3ff = M / 2 ^ 52 - 1023.
Proof using Hx. rewrite magnitude_exponent. f_equal. by apply (exponent_field h 20 11). Qed.
Lemma sign_word : (s32 h <? 0) = negative x /\ (0 <=? s32 h) = negb (negative x).
Proof using Hx.
  destruct Hx as [Hh _]. rewrite (s32_word h Hh). unfold negative. unfold is_u32 in Hh.
  destruct (Z.leb_spec (2 ^ 31) h); split; first [apply Z.ltb_lt|apply Z.ltb_ge|apply Z.leb_gt|apply Z.leb_le]; lia.
Qed.
Lemma insert_magnitude hi lo : is_u32 hi -> is_u32 lo -> hi = (if negative x then 2 ^ 31 else 0) + hi mod 2 ^ 31 ->
  let d := Double hi lo in is_double d /\ negative d = negative x /\ magnitude d = hi mod 2 ^ 31 * 2 ^ 32 + lo.
Proof using.
  intros Hh Hl E. split; [done|]. split; [|done]. pose proof (Z.mod_pos_bound hi (2 ^ 31) ltac:(lia)).
  unfold negative at 1. cbn [msw]. destruct (negative x); [apply Z.leb_le|apply Z.leb_gt]; lia.
Qed.
Lemma magnitude_zero : M = 0 <-> msw x mod 2 ^ 31 = 0 /\ lsw x = 0.
Proof using Hx. pose proof h_split. destruct Hx as [_ Hl]. unfold is_u32, magnitude in *. lia. Qed.
Lemma zero_bits : M = 0 -> x = Double (if negative x then 2 ^ 31 else 0) 0.
Proof using Hx.
  intros [E1 E2]%magnitude_zero. destruct h_split as [Eh _]. rewrite E1, Z.add_0_r in Eh. destruct x as [h l]. cbn [msw lsw] in *. rewrite E2. f_equal. exact Eh.
Qed.
End words.
