(* ===== verification/Rounding.v ===== *)
(** * Rounding to integral values (libm/src/s_floor.c, s_ceil.c, s_trunc.c and their float versions)

    "huge+x > 0.0" holds for every finite x that reaches it, for those are less than 2^52 in magnitude: the sum
    is there to raise the inexact flag, which is not modelled.  x+x for an infinity or a NaN is [fadd x x]. *)
From S2P Require Import Prelude Ieee.
#[local] Open Scope Z_scope.

Section round.
Context (fadd : double -> double -> double) (faddf : Z -> Z -> Z).

(** ** The functions on doubles *)

(** 1 is added to the integral part when it reaches into the low word. *)
Definition up_low (j0 i0 i1 : Z) : Z * Z :=
  if j0 =? 20 then (s32 (i0 + 1), i1)
  else
    let j := u32 (i1 + Z.shiftl 1 (52 - j0)) in
    (if j <? u32 i1 then s32 (i0 + 1) else i0, s32 j).

Definition floor (x : double) : double :=
  let i0 := s32 (msw x) in
  let i1 := s32 (lsw x) in
  let j0 := Z.land (Z.shiftr i0 20) 0x7ff - 0x3ff in
  if j0 <? 20 then
    if j0 <? 0 then
      if 0 <=? i0 then INSERT_WORDS 0 0
      else if negb (Z.lor (Z.land i0 0x7fffffff) i1 =? 0) then INSERT_WORDS 0xbff00000 0
      else INSERT_WORDS i0 i1
    else
      let i := Z.shiftr 0x000fffff j0 in
      if Z.lor (Z.land i0 i) i1 =? 0 then x
      else
        let i0 := if i0 <? 0 then s32 (i0 + Z.shiftr 0x00100000 j0) else i0 in
        INSERT_WORDS (Z.land i0 (Z.lnot i)) 0
  else if 51 <? j0 then (if j0 =? 0x400 then fadd x x else x)
  else
    let i := Z.shiftr 0xffffffff (j0 - 20) in
    if Z.land i1 i =? 0 then x
    else
      let '(i0, i1) := if i0 <? 0 then up_low j0 i0 i1 else (i0, i1) in
      INSERT_WORDS i0 (Z.land i1 (Z.lnot i)).

Definition ceil (x : double) : double :=
  let i0 := s32 (msw x) in
  let i1 := s32 (lsw x) in
  let j0 := Z.land (Z.shiftr i0 20) 0x7ff - 0x3ff in
  if j0 <? 20 then
    if j0 <? 0 then
      if i0 <? 0 then INSERT_WORDS 0x80000000 0
      else if negb (Z.lor i0 i1 =? 0) then INSERT_WORDS 0x3ff00000 0
      else INSERT_WORDS i0 i1
    else
      let i := Z.shiftr 0x000fffff j0 in
      if Z.lor (Z.land i0 i) i1 =? 0 then x
      else
        let i0 := if 0 <? i0 then s32 (i0 + Z.shiftr 0x00100000 j0) else i0 in
        INSERT_WORDS (Z.land i0 (Z.lnot i)) 0
  else if 51 <? j0 then (if j0 =? 0x400 then fadd x x else x)
  else
    let i := Z.shiftr 0xffffffff (j0 - 20) in
    if Z.land i1 i =? 0 then x
    else
      let '(i0, i1) := if 0 <? i0 then up_low j0 i0 i1 else (i0, i1) in
      INSERT_WORDS i0 (Z.land i1 (Z.lnot i)).

Definition trunc (x : double) : double :=
  let i0 := s32 (msw x) in
  let i1 := s32 (lsw x) in
  let j0 := Z.land (Z.shiftr i0 20) 0x7ff - 0x3ff in
  if j0 <? 20 then
    if j0 <? 0 then INSERT_WORDS (Z.land i0 0x80000000) 0
    else
      let i := Z.shiftr 0x000fffff j0 in
      if Z.lor (Z.land i0 i) i1 =? 0 then x
      else INSERT_WORDS (Z.land i0 (Z.lnot i)) 0
  else if 51 <? j0 then (if j0 =? 0x400 then fadd x x else x)
  else
    let i := Z.shiftr 0xffffffff (j0 - 20) in
    if Z.land i1 i =? 0 then x
    else INSERT_WORDS i0 (Z.land i1 (Z.lnot i)).

(** ** The functions on floats *)
Definition floorf (x : Z) : Z :=
  let i0 := s32 x in
  let j0 := Z.land (Z.shiftr i0 23) 0xff - 0x7f in
  if j0 <? 23 then
    if j0 <? 0 then
      u32 (if 0 <=? i0 then 0 else if negb (Z.land i0 0x7fffffff =? 0) then 0xbf800000 else i0)
    else
      let i := Z.shiftr 0x007fffff j0 in
      if Z.land i0 i =? 0 then x
      else u32 (Z.land (if i0 <? 0 then s32 (i0 + Z.shiftr 0x00800000 j0) else i0) (Z.lnot i))
  else if j0 =? 0x80 then faddf x x else x.
Definition ceilf (x : Z) : Z :=
  let i0 := s32 x in
  let j0 := Z.land (Z.shiftr i0 23) 0xff - 0x7f in
  if j0 <? 23 then
    if j0 <? 0 then
      u32 (if i0 <? 0 then 0x80000000 else if negb (i0 =? 0) then 0x3f800000 else i0)
    else
      let i := Z.shiftr 0x007fffff j0 in
      if Z.land i0 i =? 0 then x
      else u32 (Z.land (if 0 <? i0 then s32 (i0 + Z.shiftr 0x00800000 j0) else i0) (Z.lnot i))
  else if j0 =? 0x80 then faddf x x else x.
Definition truncf (x : Z) : Z :=
  let i0 := s32 x in
  let j0 := Z.land (Z.shiftr i0 23) 0xff - 0x7f in
  if j0 <? 23 then
    if j0 <? 0 then u32 (Z.land i0 0x80000000)
    else
      let i := Z.shiftr 0x007fffff j0 in
      if Z.land i0 i =? 0 then x
      else u32 (Z.land i0 (Z.lnot i))
  else if j0 =? 0x80 then faddf x x else x.
End round.
(** floor(-2.5), ceil(2^40 + 0.5), truncf(-1.75) *)
Example rounding_samples :
  floor (fun x _ => x) (Double 0xC0040000 0) = Double 0xC0080000 0 /\
  ceil (fun x _ => x) (Double 0x42700000 0x00000800) = Double 0x42700000 0x00001000 /\
  truncf (fun x _ => x) 0xBFE00000 = 0xBF800000.
Proof. vm_compute. done. Qed.

(** ** A magnitude rounded to a multiple of 1, away from 0 or towards it *)
Definition round_mag (away : bool) (m u : Z) : Z := (if away && negb (m mod u =? 0) then m / u + 1 else m / u) * u.
Lemma round_mag_integral away m u : 0 < u -> m mod u = 0 -> round_mag away m u = m.
Proof. intros Hu H. unfold round_mag. rewrite H, andb_false_r. pose proof (Z.div_mod m u ltac:(lia)). lia. Qed.
Lemma round_mag_small away m u : 0 <= m < u -> round_mag away m u = if away && negb (m =? 0) then u else 0.
Proof. intros H. unfold round_mag. rewrite Z.mod_small, Z.div_small by lia. destruct (away && _); lia. Qed.
Lemma floor_signed neg m u : 0 < u -> signed neg m / u * u = signed neg (round_mag neg m u).
Proof.
  intros Hu. destruct neg; cbn [signed]; unfold round_mag; cbn [andb]; [|done]. destruct (Z.eqb_spec (m mod u) 0); cbn [negb].
  - rewrite Z.div_opp_l_z by lia. lia.
  - rewrite Z.div_opp_l_nz by lia. lia.
Qed.
Lemma ceil_signed neg m u : 0 < u -> - (- signed neg m / u) * u = signed neg (round_mag (negb neg) m u).
Proof.
  intros Hu. pose proof (floor_signed (negb neg) m u Hu) as H. destruct neg; cbn [signed negb] in *; rewrite ?Z.opp_involutive; lia.
Qed.
Lemma trunc_signed neg m u : 0 < u -> 0 <= m -> Z.quot (signed neg m) u * u = signed neg (round_mag false m u).
Proof.
  intros Hu Hm. unfold round_mag. cbn [andb]. destruct neg; cbn [signed].
  - rewrite Z.quot_opp_l, Z.quot_div_nonneg by lia. lia.
  - by rewrite Z.quot_div_nonneg by lia.
Qed.

Lemma signed_integral neg m u : 0 < u -> signed neg m mod u = 0 -> m mod u = 0.
Proof. intros Hu. destruct neg; cbn [signed]; [|done]. intros H. rewrite <- (Z.opp_involutive m). by apply Z.mod_opp_l_z; [lia|]. Qed.

(** ** Words of sign and magnitude *)
(** A word of sign and magnitude of which the low bits are cleared, with a carry or not *)
Lemma word_rounded h n (up : bool) : is_u32 h -> 0 <= n <= 31 -> h mod 2 ^ 31 + 2 ^ n < 2 ^ 31 ->
  let a := if up then s32 (s32 h + 2 ^ n) else s32 h in
  let h' := u32 (Z.land a (Z.lnot (2 ^ n - 1))) in
  is_u32 h' /\ h' mod 2 ^ 31 = h mod 2 ^ 31 - h mod 2 ^ 31 mod 2 ^ n + (if up then 2 ^ n else 0) /\ h' = (if 2 ^ 31 <=? h then 2 ^ 31 else 0) + h' mod 2 ^ 31.
Proof.
  intros Hh Hn Hb. cbv zeta. destruct (split_word h Hh) as [Eh Hm]. set (neg := 2 ^ 31 <=? h) in *. set (m := h mod 2 ^ 31) in *. set (k := 2 ^ n) in *.
  assert (0 < k) as Hk by (apply Z.pow_pos_nonneg; lia). unfold is_u32 in Hh.
  assert (h mod k = m mod k) as Ehk.
  { rewrite Eh. destruct neg; [|done]. replace (2 ^ 31) with (2 ^ (31 - n) * k) by (unfold k; rewrite <- Z.pow_add_r by lia; f_equal; lia). by rewrite Z.add_comm, Z_mod_plus_full. }
  pose proof (Z.mod_pos_bound m k Hk) as Hr. pose proof (Z.mod_le m k (proj1 Hm) Hk) as Hrm.
  set (w := h + (if up then k else 0)). assert (is_u32 w) as Hw by (unfold is_u32, w; destruct neg, up; lia).
  replace (if up then s32 (s32 h + k) else s32 h) with (s32 w).
  2: { unfold w. destruct up; [|by rewrite Z.add_0_r]. rewrite <- (s32_u32 (h + k)), <- (s32_u32 (s32 h + k)). f_equal. unfold u32. rewrite <- Zplus_mod_idemp_l, <- (Zplus_mod_idemp_l (s32 h)). f_equal. f_equal. symmetry. apply u32_s32. }
  change (k - 1) with (2 ^ n - 1). rewrite u32_clear by lia. fold k. rewrite (u32_id w Hw).
  assert (w mod k = m mod k) as -> by (rewrite <- Ehk; unfold w; destruct up; [rewrite <- (Z.mul_1_l k) at 1; apply Z_mod_plus_full|by rewrite Z.add_0_r]).
  assert (w - m mod k = (if neg then 2 ^ 31 else 0) + (m - m mod k + (if up then k else 0))) as -> by (unfold w; lia).
  rewrite sign_bit_mod by (destruct up; lia). split; [unfold is_u32; destruct neg, up; lia|]. done.
Qed.

(** ** The words of a double *)
Section words.
Context (x : double) (Hx : is_double x).
Notation h := (msw x).
Notation l := (lsw x).
Notation M := (magnitude x).
Notation m := (h mod 2 ^ 31).
(** The fraction reaches into the high word. *)
Lemma high_words : 1023 <= M / 2 ^ 52 < 1043 ->
  let j0 := M / 2 ^ 52 - 1023 in
  let i := Z.shiftr 0x000fffff j0 in
  let K := fraction_bits 52 1023 M in
  (Z.lor (Z.land (s32 h) i) (s32 l) =? 0) = (M mod K =? 0) /\
  forall up : bool, let a := if up then s32 (s32 h + Z.shiftr 0x00100000 j0) else s32 h in
    let d := INSERT_WORDS (Z.land a (Z.lnot i)) 0 in
    is_double d /\ negative d = negative x /\ magnitude d = M - M mod K + (if up then K else 0).
Proof using Hx.
  intros He. cbv zeta. unfold fraction_bits. set (j0 := M / 2 ^ 52 - 1023) in *.
  change 0xfffff with (2 ^ 20 - 1). rewrite mask_shiftr by lia. change 0x100000 with (2 ^ 20). rewrite pow_shiftr by lia.
  replace (52 - j0) with (32 + (20 - j0)) by lia. rewrite Z.pow_add_r by lia.
  set (n := 20 - j0). set (k := 2 ^ n). assert (0 < k) as Hk by (apply Z.pow_pos_nonneg; lia).
  destruct (h_split x Hx) as [Eh Hm]. destruct Hx as [Hh Hl]. pose proof Hh as Hh'. pose proof Hl as Hl'. unfold is_u32 in Hh', Hl'.
  assert (exists c, 2 ^ 20 = c * k) as [c Hc] by (exists (2 ^ j0); unfold k, n; rewrite <- Z.pow_add_r by lia; f_equal; lia).
  assert (h mod k = m mod k) as Ehk.
  { rewrite Eh at 1. destruct (negative x); [|done]. replace (2 ^ 31 + m) with (m + 2 ^ 11 * c * k) by lia. by rewrite Z_mod_plus_full. }
  pose proof (Z.mod_pos_bound m k Hk) as Hr. pose proof (Z.div_mod m k ltac:(lia)) as Em. pose proof (Z.mod_le m k (proj1 Hm) Hk) as Hrm.
  assert (M mod (2 ^ 32 * k) = m mod k * 2 ^ 32 + l) as EK.
  { symmetry. apply (Z.mod_unique_pos _ _ (m / k)); [nia|]. unfold magnitude. lia. }
  assert (m <= 1042 * 2 ^ 20 + (2 ^ 20 - 1)) as Hm2.
  { rewrite (magnitude_exponent x Hx) in *. pose proof (Z.div_mod m (2 ^ 20) ltac:(lia)). pose proof (Z.mod_pos_bound m (2 ^ 20) ltac:(lia)). lia. }
  split.
  - rewrite EK. change (k - 1) with (2 ^ n - 1). rewrite land_mask by lia. rewrite s32_mod by lia. fold k. rewrite Ehk.
    destruct (Z.eqb_spec (Z.lor (m mod k) (s32 l)) 0) as [E|E].
    + apply Z.lor_eq_0_iff in E as [E1 E2]. rewrite (s32_word l Hl) in E2. symmetry. apply Z.eqb_eq. destruct (2 ^ 31 <=? l); lia.
    + symmetry. apply Z.eqb_neq. intros E2. apply E. assert (l = 0) as -> by lia. assert (m mod k = 0) as -> by lia. done.
  - intros up. unfold INSERT_WORDS.
    destruct (word_rounded h n up Hh ltac:(lia)) as (Hh2 & E' & Es); [fold k; assert (k <= 2 ^ 20) by (apply Z.pow_le_mono_r; lia); lia|].
    cbv zeta in *. fold k in Hh2, E', Es |- *. set (h' := u32 _) in *. change (2 ^ 31 <=? h) with (negative x) in Es.
    destruct (insert_magnitude x h' 0 Hh2 ltac:(unfold is_u32; lia) Es) as (Hd & Hn & Ed). split; [exact Hd|]. split; [exact Hn|].
    change (u32 0) with 0. rewrite Ed, E', EK. unfold magnitude. destruct up; lia.
Qed.

(** The fraction is in the low word. *)
Lemma low_words : 1043 <= M / 2 ^ 52 < 1075 ->
  let j0 := M / 2 ^ 52 - 1023 in
  let i := Z.shiftr 0xffffffff (j0 - 20) in
  let K := fraction_bits 52 1023 M in
  (Z.land (s32 l) i =? 0) = (M mod K =? 0) /\
  forall up : bool,
    let d := let '(a0, a1) := if up then up_low j0 (s32 h) (s32 l) else (s32 h, s32 l) in INSERT_WORDS a0 (Z.land a1 (Z.lnot i)) in
    is_double d /\ negative d = negative x /\ magnitude d = M - M mod K + (if up then K else 0).
Proof using Hx.
  intros He. cbv zeta. unfold fraction_bits. set (j0 := M / 2 ^ 52 - 1023) in *.
  change 0xffffffff with (2 ^ 32 - 1). rewrite mask_shiftr by lia. replace (32 - (j0 - 20)) with (52 - j0) by lia.
  set (n := 52 - j0). set (k := 2 ^ n). assert (0 < k) as Hk by (apply Z.pow_pos_nonneg; lia).
  destruct (h_split x Hx) as [Eh Hm]. destruct Hx as [Hh Hl]. pose proof Hh as Hh'. pose proof Hl as Hl'. unfold is_u32 in Hh', Hl'.
  assert (exists c, 2 ^ 32 = c * k) as [c Hc] by (exists (2 ^ (32 - n)); unfold k, n; rewrite <- Z.pow_add_r by lia; f_equal; lia).
  assert (k <= 2 ^ 32) as Hk32 by (apply Z.pow_le_mono_r; lia).
  assert (M mod k = l mod k) as EK by (unfold magnitude; rewrite Hc, Z.mul_assoc, Z.add_comm; apply Z_mod_plus_full).
  pose proof (Z.mod_pos_bound l k Hk) as Hr. pose proof (Z.mod_le l k (proj1 Hl') Hk) as Hrl.
  assert (m <= 1074 * 2 ^ 20 + (2 ^ 20 - 1)) as Hm2.
  { rewrite (magnitude_exponent x Hx) in *. pose proof (Z.div_mod m (2 ^ 20) ltac:(lia)). pose proof (Z.mod_pos_bound m (2 ^ 20) ltac:(lia)). lia. }
  assert (forall b : bool, let u := u32 (if b then s32 (s32 h + 1) else s32 h) in
            is_u32 u /\ u = (if negative x then 2 ^ 31 else 0) + u mod 2 ^ 31 /\ u mod 2 ^ 31 = m + (if b then 1 else 0)) as Hhigh.
  { intros b u. assert (u = (if negative x then 2 ^ 31 else 0) + (m + (if b then 1 else 0))) as Eu.
    { unfold u. destruct b; rewrite u32_s32.
      - unfold u32. rewrite <- Zplus_mod_idemp_l. change (s32 h mod 2 ^ 32) with (u32 (s32 h)). rewrite u32_s32, (u32_id h Hh). rewrite Z.mod_small; [lia|destruct (negative x); lia].
      - rewrite (u32_id h Hh). lia. }
    assert (u mod 2 ^ 31 = m + (if b then 1 else 0)) as Em by (rewrite Eu; apply sign_bit_mod; destruct b; lia).
    split; [unfold is_u32; destruct (negative x), b; lia|]. split; [lia|exact Em]. }
  rewrite EK. split.
  - unfold k at 1. rewrite land_mask by lia. rewrite s32_mod by lia. done.
  - intros up.
    assert (exists b a1, (if up then up_low j0 (s32 h) (s32 l) else (s32 h, s32 l)) = (if b : bool then s32 (s32 h + 1) else s32 h, s32 a1) /\
              is_u32 a1 /\ a1 mod k = l mod k /\ (if b then 2 ^ 32 else 0) + (a1 - l mod k) = l - l mod k + (if up then k else 0)) as (b & a1 & E & Ha & Hak & Esum).
    { destruct up; [|exists false, l; split; [done|]; split; [done|]; lia]. unfold up_low. destruct (Z.eqb_spec j0 20) as [E20|].
      - exists true, l. split; [done|]. split; [done|]. split; [done|]. assert (k = 2 ^ 32) as Ek by (unfold k, n; rewrite E20; done). lia.
      - assert (k < 2 ^ 32) as Hk2 by (apply Z.pow_lt_mono_r; lia).
        assert (u32 (s32 l + Z.shiftl 1 (52 - j0)) = u32 (l + k)) as ->.
        { rewrite Z.shiftl_1_l. unfold u32. rewrite <- Zplus_mod_idemp_l. change (s32 l mod 2 ^ 32) with (u32 (s32 l)). rewrite u32_s32. unfold u32. by rewrite Zplus_mod_idemp_l. }
        rewrite u32_s32, (u32_id l Hl). exists (u32 (l + k) <? l), (u32 (l + k)). split; [done|]. split; [apply u32_range|]. split.
        + unfold k. rewrite u32_mod by lia. fold k. rewrite <- (Z.mul_1_l k) at 1. apply Z_mod_plus_full.
        + unfold u32. destruct (Z.le_gt_cases (2 ^ 32) (l + k)).
          * assert ((l + k) mod 2 ^ 32 = l + k - 2 ^ 32) as E. { replace (l + k) with (l + k - 2 ^ 32 + 1 * 2 ^ 32) at 1 by lia. rewrite Z_mod_plus_full. apply Z.mod_small. lia. }
            rewrite E. destruct (Z.ltb_spec (l + k - 2 ^ 32) l); lia.
          * rewrite Z.mod_small by lia. destruct (Z.ltb_spec (l + k) l); lia. }
    rewrite E. unfold INSERT_WORDS. destruct (Hhigh b) as (Hu & Es & Eu).
    change (k - 1) with (2 ^ n - 1). rewrite u32_clear by lia. fold k. rewrite (u32_id a1 Ha), Hak.
    pose proof (Z.mod_le a1 k (proj1 Ha) Hk) as Hle. rewrite Hak in Hle. unfold is_u32 in Ha.
    destruct (insert_magnitude x _ (a1 - l mod k) Hu ltac:(unfold is_u32; lia) Es) as (Hd & Hn & Ed). split; [exact Hd|]. split; [exact Hn|].
    rewrite Ed, Eu. unfold magnitude. destruct b; lia.
Qed.
End words.

(** ** What the functions on doubles give *)
Section doubles.
Context (x : double) (Hx : is_double x).
Notation M := (magnitude x).
Notation v := (mag 52 M).

(** [d] is x rounded to an integral value, with the sign of x. *)
Definition rounded_to (away : bool) (d : double) : Prop :=
  is_finite d /\ negative d = negative x /\ value d = signed (negative x) (round_mag away v unit) /\ (v mod unit = 0 -> d = x).
Lemma unit_pos : 0 < unit.
Proof using. done. Qed.
Lemma rounded_self away : is_finite x -> v mod unit = 0 -> rounded_to away x.
Proof using. intros Hf H. split; [done|]. split; [done|]. split; [|done]. unfold value. by rewrite round_mag_integral. Qed.
Lemma rounded_words (up : bool) d :
  1023 <= M / 2 ^ 52 < 1075 -> M mod fraction_bits 52 1023 M <> 0 ->
  is_double d -> negative d = negative x -> magnitude d = M - M mod fraction_bits 52 1023 M + (if up then fraction_bits 52 1023 M else 0) ->
  rounded_to up d.
Proof using Hx.
  intros He Hfrac Hd Hn E. destruct (rounded 52 1023 ltac:(lia) ltac:(lia) M He) as (Hdown & Hup & Hz). cbv zeta in *.
  assert (0 < fraction_bits 52 1023 M <= 2 ^ 52) as HK.
  { unfold fraction_bits. split; [apply Z.pow_pos_nonneg; lia|apply Z.pow_le_mono_r; lia]. }
  pose proof (Z.mod_pos_bound M _ (proj1 HK)). pose proof (Z.div_mod M (2 ^ 52) ltac:(lia)). pose proof (Z.mod_pos_bound M (2 ^ 52) ltac:(lia)).
  split; [split; [done|]; rewrite E; destruct up; lia|]. split; [done|]. split; [|intros Hv; by apply Hz in Hv].
  unfold value. rewrite Hn, E. f_equal. unfold round_mag. change (one 52 1023) with unit in *.
  destruct (Z.eqb_spec (v mod unit) 0) as [Hv|Hv]; [by apply Hz in Hv|]. destruct up; cbn [andb negb]; [exact Hup|]. by rewrite Z.add_0_r.
Qed.
(** Below 1 *)
Lemma rounded_below (away : bool) d :
  M / 2 ^ 52 < 1023 -> is_double d -> negative d = negative x -> magnitude d = (if away && negb (M =? 0) then 1023 * 2 ^ 52 else 0) ->
  (M = 0 -> d = x) -> rounded_to away d.
Proof using Hx.
  intros He Hd Hn E Hz. pose proof (magnitude_range x Hx) as HM. destruct (mag_below_one 52 1023 ltac:(lia) ltac:(lia) M ltac:(lia) He) as [H0 H1]. change (one 52 1023) with unit in *.
  assert (v = 0 <-> M = 0) as Hv0.
  { split; [|by intros ->]. intros H. apply (mag_inj 52 ltac:(lia)); [lia|lia|exact H]. }
  split; [split; [done|]; rewrite E; destruct (away && _); lia|]. split; [done|]. split.
  - unfold value. rewrite Hn, E. f_equal. rewrite round_mag_small by done.
    assert ((v =? 0) = (M =? 0)) as -> by (destruct (Z.eqb_spec v 0), (Z.eqb_spec M 0); tauto). by destruct (away && _).
  - rewrite Z.mod_small by done. intros H. apply Hz. by apply Hv0.
Qed.

Lemma zero_words : (Z.lor (Z.land (s32 (msw x)) 0x7fffffff) (s32 (lsw x)) =? 0) = (M =? 0).
Proof using Hx.
  change 0x7fffffff with (2 ^ 31 - 1). rewrite land_mask, s32_mod by lia. pose proof (magnitude_zero x Hx) as H0. destruct Hx as [_ Hl]. pose proof (s32_word _ Hl) as El. unfold is_u32 in Hl.
  destruct (Z.eqb_spec M 0) as [E|E].
  - apply H0 in E as [-> ->]. done.
  - apply Z.eqb_neq. intros [E1 E2]%Z.lor_eq_0_iff. apply E, H0. split; [done|]. rewrite El in E2. destruct (2 ^ 31 <=? lsw x); lia.
Qed.
Lemma zero_words_pos : negative x = false -> (Z.lor (s32 (msw x)) (s32 (lsw x)) =? 0) = (M =? 0).
Proof using Hx.
  intros En. rewrite <- zero_words. change 0x7fffffff with (2 ^ 31 - 1). rewrite land_mask, s32_mod by lia.
  assert (s32 (msw x) = msw x mod 2 ^ 31) as ->; [|done].
  destruct (h_split x Hx) as [Eh _]. rewrite En in Eh. rewrite (s32_word _ (proj1 Hx)). unfold negative in En. rewrite En. lia.
Qed.
Lemma insert_same : INSERT_WORDS (s32 (msw x)) (s32 (lsw x)) = x.
Proof using Hx. unfold INSERT_WORDS. rewrite !u32_s32, !u32_id by apply Hx. by destruct x. Qed.
Lemma signed_word_pos : 1 <= M / 2 ^ 52 -> (0 <? s32 (msw x)) = negb (negative x).
Proof using Hx.
  intros He. destruct (sign_word x Hx) as [_ <-]. destruct (Z.ltb_spec 0 (s32 (msw x))), (Z.leb_spec 0 (s32 (msw x))); try lia; try done.
  exfalso. assert (s32 (msw x) = 0) as E by lia. rewrite magnitude_exponent in He by done. rewrite <- (s32_mod (msw x) 31) in He by lia. rewrite E in He. change (0 mod 2 ^ 31 / 2 ^ 20) with 0 in He. lia.
Qed.

Lemma exponent_cases : M / 2 ^ 52 < 1023 \/ 1023 <= M / 2 ^ 52 < 1043 \/ 1043 <= M / 2 ^ 52 < 1075 \/ 1075 <= M / 2 ^ 52.
Proof using. lia. Qed.
Lemma large_integral : 1075 <= M / 2 ^ 52 -> v mod unit = 0.
Proof using. intros H. apply (mag_integral 52 1023); lia. Qed.
Lemma integral_bits : 1023 <= M / 2 ^ 52 < 1075 -> (M mod fraction_bits 52 1023 M =? 0) = true -> v mod unit = 0.
Proof using. intros He H%Z.eqb_eq. by apply (rounded 52 1023). Qed.
End doubles.

(** Comparisons of the exponent *)
Ltac exponent_tests :=
  repeat match goal with
  | |- context [?a <? ?b] => lazymatch a with context [magnitude] => idtac | _ => lazymatch b with context [magnitude] => idtac end end; destruct (Z.ltb_spec a b); try lia
  end.
Section double_functions.
Context (fadd : double -> double -> double) (x : double) (Hf : is_finite x).
Notation M := (magnitude x).
Lemma finite_exponent : M / 2 ^ 52 < 2047.
Proof using Hf. destruct Hf. apply Z.div_lt_upper_bound; lia. Qed.
Lemma not_infinite : (M / 2 ^ 52 - 1023 =? 0x400) = false.
Proof using Hf. pose proof finite_exponent. apply Z.eqb_neq. lia. Qed.

(** The bits of the fraction are cleared, with a carry when [up]; or there are none. *)
Lemma high_spec up : 1023 <= M / 2 ^ 52 < 1043 ->
  let i := Z.shiftr 0x000fffff (M / 2 ^ 52 - 1023) in
  rounded_to x up
    (if Z.lor (Z.land (s32 (msw x)) i) (s32 (lsw x)) =? 0 then x
     else INSERT_WORDS (Z.land (if up : bool then s32 (s32 (msw x) + Z.shiftr 0x00100000 (M / 2 ^ 52 - 1023)) else s32 (msw x)) (Z.lnot i)) 0).
Proof using Hf.
  intros He. pose proof (proj1 Hf) as Hx. destruct (high_words x Hx He) as [Htest Hwords]. cbv zeta in *. rewrite Htest.
  destruct (Z.eqb_spec (M mod fraction_bits 52 1023 M) 0) as [E|E].
  - apply rounded_self; [done|]. apply integral_bits; [lia|by apply Z.eqb_eq].
  - destruct (Hwords up) as (Hd & Hn & Em). apply rounded_words; done || lia.
Qed.
Lemma low_spec up : 1043 <= M / 2 ^ 52 < 1075 ->
  let i := Z.shiftr 0xffffffff (M / 2 ^ 52 - 1023 - 20) in
  rounded_to x up
    (if Z.land (s32 (lsw x)) i =? 0 then x
     else let '(i0, i1) := if up : bool then up_low (M / 2 ^ 52 - 1023) (s32 (msw x)) (s32 (lsw x)) else (s32 (msw x), s32 (lsw x)) in
          INSERT_WORDS i0 (Z.land i1 (Z.lnot i))).
Proof using Hf.
  intros He. pose proof (proj1 Hf) as Hx. destruct (low_words x Hx He) as [Htest Hwords]. cbv zeta in *. rewrite Htest.
  destruct (Z.eqb_spec (M mod fraction_bits 52 1023 M) 0) as [E|E].
  - apply rounded_self; [done|]. apply integral_bits; [lia|by apply Z.eqb_eq].
  - destruct (Hwords up) as (Hd & Hn & Em). apply rounded_words; done || lia.
Qed.
Lemma large_spec up : 1075 <= M / 2 ^ 52 -> rounded_to x up (if M / 2 ^ 52 - 1023 =? 0x400 then fadd x x else x).
Proof using Hf. intros He. rewrite not_infinite. apply rounded_self; [done|by apply large_integral]. Qed.

Lemma floor_spec : rounded_to x (negative x) (floor fadd x).
Proof using Hf.
  pose proof (proj1 Hf) as Hx. unfold floor. cbv zeta. rewrite (exponent_words x Hx). destruct (sign_word x Hx) as [Hneg Hpos]. rewrite Hneg, Hpos.
  destruct (exponent_cases x) as [He|[He|[He|He]]]; exponent_tests; [|by apply high_spec|by apply low_spec|by apply large_spec].
  rewrite zero_words, insert_same by done. destruct (negative x) eqn:En; cbn [negb]; [destruct (Z.eqb_spec M 0) as [E|E]; cbn [negb]|]; apply rounded_below; try done.
  - by rewrite E.
  - by apply Z.eqb_neq in E as ->.
  -  intros E. rewrite (zero_bits x Hx E), En. done.
Qed.
Lemma ceil_spec : rounded_to x (negb (negative x)) (ceil fadd x).
Proof using Hf.
  pose proof (proj1 Hf) as Hx. unfold ceil. cbv zeta. rewrite (exponent_words x Hx). destruct (sign_word x Hx) as [Hneg Hpos].
  destruct (exponent_cases x) as [He|[He|[He|He]]]; exponent_tests; [|rewrite signed_word_pos by (done || lia); by apply high_spec|rewrite signed_word_pos by (done || lia); by apply low_spec|by apply large_spec].
  rewrite Hneg, insert_same by done. destruct (negative x) eqn:En; cbn [negb].
  - apply rounded_below; try done. intros E. by rewrite (zero_bits x Hx E), En.
  - rewrite zero_words_pos by done. destruct (Z.eqb_spec M 0) as [E|E]; cbn [negb]; apply rounded_below; try done.
    + by rewrite E.
    + by apply Z.eqb_neq in E as ->.
Qed.
Lemma trunc_spec : rounded_to x false (trunc fadd x).
Proof using Hf.
  pose proof (proj1 Hf) as Hx. unfold trunc. cbv zeta. rewrite (exponent_words x Hx).
  destruct (exponent_cases x) as [He|[He|[He|He]]]; exponent_tests; [|by apply (high_spec false)|by apply (low_spec false)|by apply large_spec].
  change 0x80000000 with (2 ^ 31). rewrite land_sign by apply Hx. change (2 ^ 31 <=? msw x) with (negative x).
  destruct (negative x) eqn:En; apply rounded_below; try done; intros E; by rewrite (zero_bits x Hx E), En.
Qed.
End double_functions.

(** ** What the functions on floats give *)
Section float_functions.
Context (x : Z) (Hf : is_ffinite x).
Notation M := (fmagnitude x).
Notation v := (mag 23 M).
Definition frounded_to (away : bool) (y : Z) : Prop :=
  is_ffinite y /\ fnegative y = fnegative x /\ fvalue y = signed (fnegative x) (round_mag away v funit) /\ (v mod funit = 0 -> y = x).
Lemma x_split : x = (if fnegative x then 2 ^ 31 else 0) + M /\ 0 <= M < 2 ^ 31.
Proof using Hf. exact (split_word x (proj1 Hf)). Qed.
Lemma float_exponent : Z.land (Z.shiftr (s32 x) 23) 0xff - 0x7f = M / 2 ^ 23 - 127 /\ M / 2 ^ 23 < 255.
Proof using Hf. split; [f_equal; by apply (exponent_field x 23 8)|]. destruct Hf. apply Z.div_lt_upper_bound; lia. Qed.
Lemma float_sign : (s32 x <? 0) = fnegative x /\ (0 <=? s32 x) = negb (fnegative x) /\ (M <> 0 -> (0 <? s32 x) = negb (fnegative x)).
Proof using Hf.
  pose proof x_split as Hs. rewrite (s32_word x (proj1 Hf)). unfold fnegative in *. destruct (2 ^ 31 <=? x); split_and?; intros;
    first [apply Z.ltb_lt|apply Z.ltb_ge|apply Z.leb_le|apply Z.leb_gt]; lia.
Qed.
Lemma funit_pos : 0 < funit.
Proof using. done. Qed.
Lemma frounded_self away : v mod funit = 0 -> frounded_to away x.
Proof using Hf. intros H. split; [done|]. split; [done|]. split; [|done]. unfold fvalue. by rewrite round_mag_integral. Qed.
Lemma frounded_below (away : bool) y :
  M / 2 ^ 23 < 127 -> y = (if fnegative x then 2 ^ 31 else 0) + (if away && negb (M =? 0) then 127 * 2 ^ 23 else 0) -> frounded_to away y.
Proof using Hf.
  intros He Ey. destruct x_split as [Ex HM]. destruct (mag_below_one 23 127 ltac:(lia) ltac:(lia) M ltac:(lia) He) as [H0 H1]. change (one 23 127) with funit in *.
  assert (v = 0 <-> M = 0) as Hv0 by (split; [intros H; apply (mag_inj 23 ltac:(lia)); [lia|lia|exact H]|by intros ->]).
  assert (fmagnitude y = if away && negb (M =? 0) then 127 * 2 ^ 23 else 0) as Em by (unfold fmagnitude at 1; rewrite Ey; apply sign_bit_mod; destruct (away && _); lia).
  assert (fnegative y = fnegative x) as En by (unfold fnegative at 1; rewrite Ey; destruct (fnegative x); [apply Z.leb_le|apply Z.leb_gt]; destruct (away && _); lia).
  split; [split; [unfold is_u32; destruct (fnegative x), (away && _); lia|rewrite Em; destruct (away && _); lia]|]. split; [done|]. split.
  - unfold fvalue. rewrite En, Em. f_equal. rewrite round_mag_small by done.
    assert ((v =? 0) = (M =? 0)) as -> by (destruct (Z.eqb_spec v 0), (Z.eqb_spec M 0); tauto). by destruct (away && _).
  - rewrite Z.mod_small by done. intros H%Hv0. rewrite Ey, H. cbn [Z.eqb negb]. rewrite andb_false_r. lia.
Qed.
Lemma float_words up : 127 <= M / 2 ^ 23 < 150 ->
  let i := Z.shiftr 0x007fffff (M / 2 ^ 23 - 127) in
  frounded_to up (if Z.land (s32 x) i =? 0 then x
                  else u32 (Z.land (if up : bool then s32 (s32 x + Z.shiftr 0x00800000 (M / 2 ^ 23 - 127)) else s32 x) (Z.lnot i))).
Proof using Hf.
  intros He. cbv zeta. set (j0 := M / 2 ^ 23 - 127) in *. change 0x7fffff with (2 ^ 23 - 1). rewrite mask_shiftr by lia. change 0x800000 with (2 ^ 23). rewrite pow_shiftr by lia.
  rewrite land_mask, s32_mod by lia. destruct x_split as [Ex HM]. destruct (rounded 23 127 ltac:(lia) ltac:(lia) M He) as (Hdown & Hup & Hz). cbv zeta in *.
  change (fraction_bits 23 127 M) with (2 ^ (23 - j0)) in *. set (k := 2 ^ (23 - j0)) in *.
  assert (0 < k <= 2 ^ 23) as Hk by (unfold k; split; [apply Z.pow_pos_nonneg; lia|apply Z.pow_le_mono_r; lia]).
  assert (x mod k = M mod k) as Exk.
  { rewrite Ex at 1. destruct (fnegative x); [|done]. replace (2 ^ 31) with (2 ^ (31 - (23 - j0)) * k) by (unfold k; rewrite <- Z.pow_add_r by lia; f_equal; lia). by rewrite Z.add_comm, Z_mod_plus_full. }
  rewrite Exk. destruct (Z.eqb_spec (M mod k) 0) as [E|E].
  { apply frounded_self. by apply Hz. }
  pose proof (Z.div_mod M (2 ^ 23) ltac:(lia)). pose proof (Z.mod_pos_bound M (2 ^ 23) ltac:(lia)). pose proof (Z.mod_pos_bound M k ltac:(lia)). pose proof (Z.mod_le M k ltac:(lia) ltac:(lia)).
  destruct (word_rounded x (23 - j0) up (proj1 Hf) ltac:(lia)) as (Hy & Em & Es); [fold k; fold (fmagnitude x); lia|].
  cbv zeta in *. fold k in Hy, Em, Es |- *. set (y := u32 _) in *. fold (fmagnitude y) in *. fold (fmagnitude x) in *. change (2 ^ 31 <=? x) with (fnegative x) in Es.
  assert (fnegative y = fnegative x) as En.
  { unfold fnegative at 1. unfold is_u32 in Hy. destruct (fnegative x); [apply Z.leb_le|apply Z.leb_gt]; destruct up; lia. }
  split; [split; [done|destruct up; lia]|]. split; [done|]. split; [|intros Hv; by apply Hz in Hv].
  unfold fvalue. rewrite En, Em. f_equal. unfold round_mag. change (one 23 127) with funit in *.
  destruct (Z.eqb_spec (v mod funit) 0) as [Hv|Hv]; [by apply Hz in Hv|]. destruct up; cbn [andb negb]; [exact Hup|]. by rewrite Z.add_0_r.
Qed.
Lemma float_cases : M / 2 ^ 23 < 127 \/ 127 <= M / 2 ^ 23 < 150 \/ 150 <= M / 2 ^ 23.
Proof using. clear. lia. Qed.
Context (faddf : Z -> Z -> Z).
Lemma float_large up : 150 <= M / 2 ^ 23 -> frounded_to up (if M / 2 ^ 23 - 127 =? 0x80 then faddf x x else x).
Proof using Hf.
  intros He. destruct float_exponent as [_ Hlt]. destruct (Z.eqb_spec (M / 2 ^ 23 - 127) 0x80); [lia|]. apply frounded_self. apply (mag_integral 23 127); lia.
Qed.
Ltac float_tests :=
  repeat match goal with
  | |- context [?a <? ?b] => lazymatch a with context [fmagnitude] => idtac end; destruct (Z.ltb_spec a b); try lia
  end.
Lemma floorf_spec : frounded_to (fnegative x) (floorf faddf x).
Proof using Hf.
  unfold floorf. cbv zeta. destruct float_exponent as [-> _]. destruct float_sign as (-> & -> & _). destruct x_split as [Ex HM].
  destruct float_cases as [He|[He|He]]; float_tests; [|by apply float_words|by apply float_large].
  change 0x7fffffff with (2 ^ 31 - 1). rewrite land_mask, s32_mod by lia. fold (fmagnitude x). apply frounded_below; [done|].
  destruct (fnegative x); cbn [negb andb]; [|done]. destruct (Z.eqb_spec M 0) as [E|E]; cbn [negb]; [|done]. rewrite u32_s32, u32_id by apply Hf. lia.
Qed.
Lemma ceilf_spec : frounded_to (negb (fnegative x)) (ceilf faddf x).
Proof using Hf.
  unfold ceilf. cbv zeta. destruct float_exponent as [-> _]. destruct float_sign as (-> & _ & Hpos). destruct x_split as [Ex HM].
  destruct float_cases as [He|[He|He]]; float_tests; [| |by apply float_large].
  - apply frounded_below; [done|]. destruct (fnegative x) eqn:En; cbn [negb andb]; [done|]. rewrite (s32_word x (proj1 Hf)). unfold fnegative in En. rewrite En.
    rewrite Z.add_0_l in Ex. rewrite <- Ex. destruct (Z.eqb_spec x 0) as [->|E]; cbn [negb]; done.
  - rewrite Hpos; [by apply float_words|]. intros E. rewrite E in He. change (0 / 2 ^ 23) with 0 in He. lia.
Qed.
Lemma truncf_spec : frounded_to false (truncf faddf x).
Proof using Hf.
  unfold truncf. cbv zeta. destruct float_exponent as [-> _].
  destruct float_cases as [He|[He|He]]; float_tests; [|by apply (float_words false)|by apply float_large].
  apply frounded_below; [done|]. change 0x80000000 with (2 ^ 31). rewrite land_sign by apply Hf. change (2 ^ 31 <=? x) with (fnegative x). by destruct (fnegative x).
Qed.
End float_functions.

(** C29.  For every finite double, subnormal numbers and zeros of both signs among them, floor, ceil and trunc give
    the finite double whose value is the largest multiple of 1 that is not above, the smallest that is not
    below, and the one towards zero; the sign bit is that of the argument, and an integral argument is
    answered unchanged.  The same holds for floorf, ceilf and truncf on floats. *)
Theorem rounding_correct fadd faddf :
  (forall x, is_finite x -> let v := value x in
     (is_finite (floor fadd x) /\ value (floor fadd x) = v / unit * unit /\ negative (floor fadd x) = negative x) /\
     (is_finite (ceil fadd x) /\ value (ceil fadd x) = - (- v / unit) * unit /\ negative (ceil fadd x) = negative x) /\
     (is_finite (trunc fadd x) /\ value (trunc fadd x) = Z.quot v unit * unit /\ negative (trunc fadd x) = negative x) /\
     (v mod unit = 0 -> floor fadd x = x /\ ceil fadd x = x /\ trunc fadd x = x)) /\
  (forall x, is_ffinite x -> let v := fvalue x in
     (is_ffinite (floorf faddf x) /\ fvalue (floorf faddf x) = v / funit * funit /\ fnegative (floorf faddf x) = fnegative x) /\
     (is_ffinite (ceilf faddf x) /\ fvalue (ceilf faddf x) = - (- v / funit) * funit /\ fnegative (ceilf faddf x) = fnegative x) /\
     (is_ffinite (truncf faddf x) /\ fvalue (truncf faddf x) = Z.quot v funit * funit /\ fnegative (truncf faddf x) = fnegative x) /\
     (v mod funit = 0 -> floorf faddf x = x /\ ceilf faddf x = x /\ truncf faddf x = x)).
Proof.
  split.
  - intros x Hf. cbv zeta. destruct (floor_spec fadd x Hf) as (F1 & F2 & F3 & F4), (ceil_spec fadd x Hf) as (C1 & C2 & C3 & C4), (trunc_spec fadd x Hf) as (T1 & T2 & T3 & T4).
    assert (0 <= mag 52 (magnitude x)) as Hm by (apply mag_nonneg; [lia|]; pose proof (magnitude_range x (proj1 Hf)); lia).
    unfold value in *. rewrite floor_signed, ceil_signed, trunc_signed by done. split_and!; try done.
    intros Hi%signed_integral; [|done]. auto.
  - intros x Hf. cbv zeta. destruct (floorf_spec x Hf faddf) as (F1 & F2 & F3 & F4), (ceilf_spec x Hf faddf) as (C1 & C2 & C3 & C4), (truncf_spec x Hf faddf) as (T1 & T2 & T3 & T4).
    assert (0 <= mag 23 (fmagnitude x)) as Hm by (apply mag_nonneg; [lia|]; pose proof (x_split x Hf); lia).
    unfold fvalue in *. rewrite floor_signed, ceil_signed, trunc_signed by done. split_and!; try done.
    intros Hi%signed_integral; [|done]. auto.
Qed.
Lemma rounding_correct_witness :
  let x := Double 0xC0040000 0 in
  value (floor (fun x _ => x) x) = value x / unit * unit /\ value (ceil (fun x _ => x) x) = - (- value x / unit) * unit.
Proof.
  intros x. assert (is_finite x) as Hx by (split; [split; vm_compute; split; congruence|reflexivity]).
  destruct (proj1 (rounding_correct (fun x _ => x) (fun x _ => x)) x Hx) as ((_ & E1 & _) & (_ & E2 & _) & _). split; [exact E1|exact E2].
Defined.
