(* ===== verification/Fmod.v ===== *)
(** * fmod and ilogb (libm/src/e_fmod.c, s_ilogb.c)

    The remainder of two doubles by shifting and subtracting their words.  A loop whose counter the C code lets
    run down from a negative number, which does not happen, is [None], as is one that has used its fuel.
    "x *= one" and "(x*y)/(x*y)" are the arithmetic of the processor, [Fpu]. *)
From S2P Require Import Prelude Ieee.
#[local] Open Scope Z_scope.

(** for (ix = ..., i = ...; i>0; i<<=1) ix -=1; *)
Fixpoint lead_loop (fuel : nat) (ix i : Z) : option Z :=
  if 0 <? i then match fuel with O => None | S fuel => lead_loop fuel (ix - 1) (s32 (Z.shiftl i 1)) end else Some ix.
(** ilogb of a number that is neither 0 nor infinite, from the words of its magnitude *)
Definition exponent_of (hx lx : Z) : option Z :=
  if hx <? 0x00100000 then
    (if hx =? 0 then lead_loop 32 (-1043) (s32 lx) else lead_loop 32 (-1022) (s32 (Z.shiftl hx 11)))
  else Some (Z.shiftr hx 20 - 1023).
(** The leading bit is brought to bit 20 of the high word. *)
Definition align (hx lx ix : Z) : Z * Z :=
  if -1022 <=? ix then (Z.lor 0x00100000 (Z.land 0x000fffff hx), lx)
  else
    let n := -1022 - ix in
    if n <=? 31 then (s32 (Z.lor (Z.shiftl hx n) (Z.shiftr lx (32 - n))), u32 (Z.shiftl lx n))
    else (s32 (Z.shiftl lx (n - 32)), 0).

Section fixpoint.
Context (hy ly : Z).
(** hz=hx-hy;lz=lx-ly; if(lx<ly) hz -= 1; *)
Definition sub_words (hx lx : Z) : Z * Z := (s32 (hx - hy - (if lx <? ly then 1 else 0)), u32 (lx - ly)).
Definition double_words (hx lx : Z) : Z * Z := (s32 (hx + hx + Z.shiftr lx 31), u32 (lx + lx)).
(** while(n--): the words that are left, or [None] when the remainder is 0 *)
Fixpoint fix_loop (n : nat) (hx lx : Z) : option (Z * Z) :=
  match n with
  | O => Some (hx, lx)
  | S n =>
      let '(hz, lz) := sub_words hx lx in
      if hz <? 0 then let '(hx, lx) := double_words hx lx in fix_loop n hx lx
      else if Z.lor hz lz =? 0 then None
      else let '(hx, lx) := double_words hz lz in fix_loop n hx lx
  end.
End fixpoint.
(** while(hx<0x00100000) *)
Fixpoint norm_loop (fuel : nat) (hx lx iy : Z) : option (Z * Z * Z) :=
  if hx <? 0x00100000 then
    match fuel with O => None | S fuel => let '(hx, lx) := double_words hx lx in norm_loop fuel hx lx (iy - 1) end
  else Some (hx, lx, iy).

Section fmod.
Context `{Fpu}.
Definition Zero (sx : Z) : double := Double (u32 sx) 0.
(** Back to a floating value, with the sign *)
Definition pack (hx lx iy sx : Z) : double :=
  if -1022 <=? iy then INSERT_WORDS (Z.lor (Z.lor (hx - 0x00100000) (Z.shiftl (iy + 1023) 20)) sx) lx
  else
    let n := -1022 - iy in
    let '(hx, lx) :=
      if n <=? 20 then (Z.shiftr hx n, Z.lor (Z.shiftr lx n) (u32 (Z.shiftl hx (32 - n))))
      else if n <=? 31 then (sx, Z.lor (u32 (Z.shiftl hx (32 - n))) (Z.shiftr lx n))
      else (sx, Z.shiftr hx (n - 32)) in
    fmul (INSERT_WORDS (Z.lor hx sx) lx) ONE.
Definition __ieee754_fmod (x y : double) : option double :=
  let hx := s32 (msw x) in
  let lx := lsw x in
  let hy := s32 (msw y) in
  let ly := lsw y in
  let sx := s32 (Z.land hx 0x80000000) in
  let hx := Z.lxor hx sx in
  let hy := Z.land hy 0x7fffffff in
  if (Z.lor hy ly =? 0) || (0x7ff00000 <=? hx) || (0x7ff00000 <? Z.lor hy (Z.shiftr (Z.lor ly (u32 (- ly))) 31)) then Some (fdiv (fmul x y) (fmul x y))
  else if (hx <=? hy) && ((hx <? hy) || (lx <? ly)) then Some x
  else if (hx <=? hy) && (lx =? ly) then Some (Zero sx)
  else
    ix ← exponent_of hx lx;
    iy ← exponent_of hy ly;
    let '(hx, lx) := align hx lx ix in
    let '(hy, ly) := align hy ly iy in
    let n := ix - iy in
    if n <? 0 then None
    else
      match fix_loop hy ly (Z.to_nat n) hx lx with
      | None => Some (Zero sx)
      | Some (hx, lx) =>
          let '(hz, lz) := sub_words hy ly hx lx in
          let '(hx, lx) := if 0 <=? hz then (hz, lz) else (hx, lx) in
          if Z.lor hx lx =? 0 then Some (Zero sx)
          else '(hx, lx, iy) ← norm_loop 64 hx lx iy; Some (pack hx lx iy sx)
      end.
End fmod.

(** ** ilogb *)
Definition FP_ILOGB0 : Z := - 0x7fffffff.
Definition FP_ILOGBNAN : Z := 0x7fffffff.
Definition INT_MAX : Z := 0x7fffffff.
Definition ilogb (x : double) : option Z :=
  let hx := Z.land (s32 (msw x)) 0x7fffffff in
  let lx := s32 (lsw x) in
  if hx <? 0x00100000 then
    if Z.lor hx lx =? 0 then Some FP_ILOGB0
    else if hx =? 0 then lead_loop 32 (-1043) lx else lead_loop 32 (-1022) (s32 (Z.shiftl hx 11))
  else if hx <? 0x7ff00000 then Some (Z.shiftr hx 20 - 1023)
  else if (0x7ff00000 <? hx) || negb (lx =? 0) then Some FP_ILOGBNAN
  else Some INT_MAX.

#[local] Instance no_fpu : Fpu := {| fadd x _ := x; fsub x _ := x; fmul x _ := x; fdiv x _ := x |}.
(** fmod(-5.5, 2), and of a normal number by 7 * 2^-1074 *)
Example fmod_samples :
  __ieee754_fmod (Double 0xC0160000 0) (Double 0x40000000 0) = Some (Double 0xBFF80000 0) /\
  __ieee754_fmod (Double 0x12345678 5) (Double 0 7) = Some (Double 0 6).
Proof. vm_compute. done. Qed.

(** ** Two words as one number *)
Definition val (h l : Z) : Z := h * 2 ^ 32 + l.
Definition words (h l : Z) : Prop := 0 <= h < 2 ^ 22 /\ is_u32 l.
Lemma double_words_spec h l : words h l -> val h l < 2 ^ 53 ->
  let '(h', l') := double_words h l in words h' l' /\ val h' l' = 2 * val h l.
Proof.
  unfold words, val, double_words, is_u32. intros [Hh Hl] Hb. rewrite Z.shiftr_div_pow2 by lia.
  pose proof (Z.div_mod l (2 ^ 31) ltac:(lia)) as E. pose proof (Z.mod_pos_bound l (2 ^ 31) ltac:(lia)) as Hr.
  assert (0 <= l / 2 ^ 31 <= 1) as Hq by lia. set (q := l / 2 ^ 31) in *. set (r := l mod 2 ^ 31) in *.
  assert (u32 (l + l) = 2 * r) as ->. { unfold u32. replace (l + l) with (2 * r + q * 2 ^ 32) by lia. rewrite Z_mod_plus_full. apply Z.mod_small. lia. }
  rewrite s32_id by (unfold is_s32; lia). split; [split|]; lia.
Qed.
Lemma sub_words_spec hy ly h l : words h l -> words hy ly ->
  let '(hz, lz) := sub_words hy ly h l in is_u32 lz /\ hz * 2 ^ 32 + lz = val h l - val hy ly /\ - 2 ^ 22 <= hz < 2 ^ 22.
Proof.
  unfold words, val, sub_words, is_u32. intros [Hh Hl] [Hhy Hly].
  assert (u32 (l - ly) = l - ly + (if l <? ly then 2 ^ 32 else 0)) as ->.
  { unfold u32. destruct (Z.ltb_spec l ly).
    - replace (l - ly) with (l - ly + 2 ^ 32 + (-1) * 2 ^ 32) at 1 by lia. rewrite Z_mod_plus_full. apply Z.mod_small. lia.
    - rewrite Z.mod_small; lia. }
  rewrite s32_id by (unfold is_s32; destruct (l <? ly); lia). destruct (Z.ltb_spec l ly); lia.
Qed.
(** A difference of words that is not negative *)
Lemma sub_words_cases hy ly h l : words h l -> words hy ly ->
  let '(hz, lz) := sub_words hy ly h l in
  if hz <? 0 then val h l < val hy ly else words hz lz /\ val hz lz = val h l - val hy ly.
Proof.
  intros H1 H2. pose proof (sub_words_spec hy ly h l H1 H2) as H. destruct (sub_words hy ly h l) as [hz lz]. destruct H as (Hl & E & Hz). unfold is_u32 in Hl.
  destruct (Z.ltb_spec hz 0); [lia|]. split; [split; [lia|done]|]. exact E.
Qed.
Lemma words_zero h l : words h l -> (Z.lor h l =? 0) = (val h l =? 0).
Proof.
  unfold words, is_u32, val. intros [Hh Hl]. destruct (Z.eqb_spec (h * 2 ^ 32 + l) 0) as [E|E].
  - assert (h = 0) as -> by lia. assert (l = 0) as -> by lia. done.
  - apply Z.eqb_neq. intros [-> ->]%Z.lor_eq_0_iff. lia.
Qed.

(** ** The loops *)
Lemma fix_loop_spec hy ly n h l : words hy ly -> 0 < val hy ly < 2 ^ 53 -> words h l -> val h l < 2 * val hy ly ->
  match fix_loop hy ly n h l with
  | None => (val h l * 2 ^ Z.of_nat n) mod val hy ly = 0
  | Some (h', l') => words h' l' /\ val h' l' < 2 * val hy ly /\ val h' l' mod val hy ly = (val h l * 2 ^ Z.of_nat n) mod val hy ly
  end.
Proof.
  intros Hy HY. revert h l. induction n as [|n IH]; intros h l Hw HX; cbn [fix_loop].
  - rewrite Z.mul_1_r. done.
  - assert (forall X, X * 2 ^ Z.of_nat (S n) = 2 * X * 2 ^ Z.of_nat n) as Epow.
    { intros X. rewrite Nat2Z.inj_succ, Z.pow_succ_r by lia. ring. }
    pose proof (sub_words_cases hy ly h l Hw Hy) as Hs. destruct (sub_words hy ly h l) as [hz lz]. destruct (hz <? 0).
    + pose proof (double_words_spec h l Hw ltac:(lia)) as Hd. destruct (double_words h l) as [h2 l2]. destruct Hd as [Hw2 E2].
      specialize (IH h2 l2 Hw2 ltac:(lia)). rewrite Epow, <- E2. exact IH.
    + destruct Hs as [Hwz Ez]. rewrite (words_zero hz lz Hwz). destruct (Z.eqb_spec (val hz lz) 0) as [E0|E0].
      * assert (val h l = val hy ly) as -> by lia. rewrite Z.mul_comm. apply Z_mod_mult.
      * pose proof (double_words_spec hz lz Hwz ltac:(lia)) as Hd. destruct (double_words hz lz) as [h2 l2]. destruct Hd as [Hw2 E2].
        specialize (IH h2 l2 Hw2 ltac:(lia)).
        assert ((val h2 l2 * 2 ^ Z.of_nat n) mod val hy ly = (val h l * 2 ^ Z.of_nat (S n)) mod val hy ly) as <-; [|exact IH].
        rewrite E2, Epow. replace (2 * val h l * 2 ^ Z.of_nat n) with (2 * val hz lz * 2 ^ Z.of_nat n + 2 * 2 ^ Z.of_nat n * val hy ly) by lia.
        by rewrite Z_mod_plus_full.
Qed.
Lemma lead_loop_spec fuel ix i : 0 < i < 2 ^ 31 -> 31 <= Z.log2 i + Z.of_nat fuel -> lead_loop fuel ix i = Some (ix - (31 - Z.log2 i)).
Proof.
  revert ix i. induction fuel as [|fuel IH]; intros ix i Hi Hf; cbn [lead_loop].
  - exfalso. assert (Z.log2 i < 31) by (apply Z.log2_lt_pow2; lia). lia.
  - destruct (Z.ltb_spec 0 i); [|lia]. rewrite Z.shiftl_mul_pow2 by lia. change (2 ^ 1) with 2.
    assert (Z.log2 (i * 2) = Z.log2 i + 1) as El by (change 2 with (2 ^ 1); rewrite Z.log2_mul_pow2; lia).
    destruct (Z.lt_ge_cases (i * 2) (2 ^ 31)).
    + rewrite s32_id by (unfold is_s32; lia). rewrite IH by (rewrite ?El; lia). rewrite El. f_equal. lia.
    + rewrite (s32_word (i * 2)) by (unfold is_u32; lia). destruct (Z.leb_spec (2 ^ 31) (i * 2)); [|lia].
      assert (Z.log2 i = 30) as E30. { apply Z.log2_unique; [lia|]. change (2 ^ Z.succ 30) with (2 ^ 31). lia. }
      rewrite E30. destruct fuel; cbn [lead_loop]; destruct (Z.ltb_spec 0 (i * 2 - 2 ^ 32)); try lia; f_equal; lia.
Qed.
Lemma lead_loop_word ix w : is_u32 w -> w <> 0 -> lead_loop 32 ix (s32 w) = Some (ix - (31 - Z.log2 w)).
Proof.
  unfold is_u32. intros Hw H0. rewrite (s32_word w Hw). destruct (Z.leb_spec (2 ^ 31) w).
  - cbn [lead_loop]. destruct (Z.ltb_spec 0 (w - 2 ^ 32)); [lia|]. assert (Z.log2 w = 31) as ->. { apply Z.log2_unique; [lia|]. change (2 ^ Z.succ 31) with (2 ^ 32). lia. }
    f_equal. lia.
  - apply lead_loop_spec; [lia|]. pose proof (Z.log2_nonneg w). lia.
Qed.
Lemma norm_loop_spec fuel h l iy : words h l -> 0 < val h l < 2 ^ 53 -> 52 <= Z.log2 (val h l) + Z.of_nat fuel ->
  exists h' l', norm_loop fuel h l iy = Some (h', l', iy - (52 - Z.log2 (val h l))) /\ words h' l' /\ val h' l' = val h l * 2 ^ (52 - Z.log2 (val h l)) /\ 2 ^ 52 <= val h' l' < 2 ^ 53.
Proof.
  revert h l iy. induction fuel as [|fuel IH]; intros h l iy Hw HR Hf; cbn [norm_loop];
    pose proof (Z.log2_spec (val h l) ltac:(lia)) as Hlog; assert (Z.log2 (val h l) < 53) as Hl53 by (apply Z.log2_lt_pow2; lia).
  - assert (Z.log2 (val h l) = 52) as E by lia. rewrite E in *. change (2 ^ Z.succ 52) with (2 ^ 53) in *. destruct (Z.ltb_spec h 0x100000); [unfold val, words, is_u32 in *; lia|].
    exists h, l. rewrite Z.mul_1_r. split; [do 2 f_equal; lia|]. split; [done|]. lia.
  - destruct (Z.ltb_spec h 0x100000).
    + assert (val h l < 2 ^ 52) as Hlt by (clear Hlog Hl53; unfold val, words, is_u32 in *; lia).
      pose proof (double_words_spec h l Hw ltac:(lia)) as Hd. destruct (double_words h l) as [h2 l2]. destruct Hd as [Hw2 E2].
      assert (Z.log2 (val h2 l2) = Z.log2 (val h l) + 1) as El by (rewrite E2, Z.mul_comm; change 2 with (2 ^ 1); rewrite Z.log2_mul_pow2; lia).
      assert (Z.log2 (val h l) < 52) as Hl52 by (apply Z.log2_lt_pow2; lia).
      destruct (IH h2 l2 (iy - 1) Hw2 ltac:(lia) ltac:(lia)) as (h' & l' & -> & Hw' & E' & Hb). exists h', l'. rewrite El in *.
      split; [do 2 f_equal; lia|]. split; [done|]. split; [|done]. rewrite E', E2. replace (52 - Z.log2 (val h l)) with (1 + (52 - (Z.log2 (val h l) + 1))) by lia.
      rewrite (Z.pow_add_r 2 1) by lia. ring.
    + assert (Z.log2 (val h l) = 52) as E. { apply Z.log2_unique; [lia|]. change (2 ^ Z.succ 52) with (2 ^ 53). unfold val, words, is_u32 in *. lia. }
      rewrite E in *. change (2 ^ Z.succ 52) with (2 ^ 53) in *. exists h, l. rewrite Z.mul_1_r. split; [do 2 f_equal; lia|]. split; [done|]. lia.
Qed.

(** ** The exponent and the significand of a magnitude *)
Lemma log2_mag M : 2 ^ 52 <= M -> Z.log2 (mag 52 M) = 51 + M / 2 ^ 52.
Proof.
  intros HM. destruct (split_mag 52 ltac:(lia) M) as [E Hf]. assert (1 <= M / 2 ^ 52) as He by (apply Z.div_le_lower_bound; lia).
  rewrite E at 1. rewrite mag_exp by lia. rewrite Z.log2_mul_pow2 by lia.
  assert (Z.log2 (2 ^ 52 + M mod 2 ^ 52) = 52) as ->. { apply Z.log2_unique; [lia|]. change (2 ^ Z.succ 52) with (2 ^ 53). lia. } lia.
Qed.
Lemma log2_val h l : 0 < h -> is_u32 l -> Z.log2 (h * 2 ^ 32 + l) = Z.log2 h + 32.
Proof.
  unfold is_u32. intros Hh Hl. pose proof (Z.log2_spec h Hh) as [H1 H2]. pose proof (Z.log2_nonneg h). apply Z.log2_unique; [lia|].
  replace (Z.succ (Z.log2 h + 32)) with (Z.succ (Z.log2 h) + 32) by lia. rewrite !Z.pow_add_r by lia. lia.
Qed.
Section magnitude_words.
Context (h l : Z) (Hh : 0 <= h < 2047 * 2 ^ 20) (Hl : is_u32 l).
Notation M := (h * 2 ^ 32 + l).
Notation E := (Z.log2 (mag 52 M)).
Context (HM : M <> 0).
Lemma exponent_of_spec : exponent_of h l = Some (E - 1074).
Proof using All.
  unfold exponent_of, is_u32 in *. destruct (Z.ltb_spec h 0x100000).
  - rewrite mag_small by lia. destruct (Z.eqb_spec h 0) as [E0|E0].
    + rewrite lead_loop_word by (unfold is_u32; lia). f_equal. rewrite E0, Z.add_0_l. lia.
    + rewrite Z.shiftl_mul_pow2 by lia. rewrite lead_loop_word.
      * f_equal. rewrite log2_val by (done || lia). rewrite Z.log2_mul_pow2 by lia. lia.
      * unfold is_u32. lia.
      * lia.
  - rewrite log2_mag by lia. f_equal. rewrite Z.shiftr_div_pow2 by lia. replace (2 ^ 52) with (2 ^ 32 * 2 ^ 20) by done. rewrite <- Z.div_div by lia.
    rewrite Z.div_add_l by lia. rewrite (Z.div_small l) by lia. rewrite Z.add_0_r. lia.
Qed.
Lemma align_spec : let '(h', l') := align h l (E - 1074) in words h' l' /\ val h' l' * 2 ^ E = mag 52 M * 2 ^ 52 /\ 2 ^ 52 <= val h' l' < 2 ^ 53.
Proof using All.
  pose proof Hl as Hl'. unfold is_u32 in Hl'. unfold align. destruct (Z.lt_ge_cases M (2 ^ 52)) as [Hs|Hn].
  - rewrite mag_small by lia. pose proof (Z.log2_spec M ltac:(lia)) as [H1 H2]. assert (0 <= Z.log2 M < 52) as HE by (split; [apply Z.log2_nonneg|apply Z.log2_lt_pow2; lia]).
    set (e := Z.log2 M) in *. destruct (Z.leb_spec (-1022) (e - 1074)); [lia|]. replace (-1022 - (e - 1074)) with (52 - e) by lia. set (n := 52 - e) in *.
    assert (2 ^ n * 2 ^ e = 2 ^ 52) as Hpow by (unfold n; rewrite <- Z.pow_add_r by lia; f_equal; lia).
    assert (0 < 2 ^ n) as Hpn by (apply Z.pow_pos_nonneg; lia).
    assert (2 ^ 52 <= M * 2 ^ n < 2 ^ 53) as HX.
    { replace (2 ^ 53) with (2 ^ n * 2 ^ (Z.succ e)) by (unfold n; rewrite <- Z.pow_add_r by lia; f_equal; lia). nia. }
    assert (h * 2 ^ n < 2 ^ 21) as Hhn by nia.
    assert (exists h' l', (if n <=? 31 then (s32 (Z.lor (Z.shiftl h n) (Z.shiftr l (32 - n))), u32 (Z.shiftl l n)) else (s32 (Z.shiftl l (n - 32)), 0)) = (h', l') /\ words h' l' /\ val h' l' = M * 2 ^ n) as (h' & l' & -> & Hw & Ev).
    { destruct (Z.leb_spec n 31).
      - assert (2 ^ 32 = 2 ^ (32 - n) * 2 ^ n) as E32 by (rewrite <- Z.pow_add_r by lia; f_equal; lia).
        assert (0 < 2 ^ (32 - n)) as Hp2 by (apply Z.pow_pos_nonneg; lia).
        pose proof (Z.div_mod l (2 ^ (32 - n)) ltac:(lia)) as Ediv. pose proof (Z.mod_pos_bound l (2 ^ (32 - n)) ltac:(lia)) as Hr.
        set (q := l / 2 ^ (32 - n)) in *. set (r := l mod 2 ^ (32 - n)) in *.
        assert (0 <= q < 2 ^ n) as Hq by (unfold q; split; [apply Z.div_pos; lia|apply Z.div_lt_upper_bound; lia]).
        rewrite Z.shiftr_div_pow2 by lia. fold q. rewrite lor_shiftl_low by lia. rewrite Z.shiftl_mul_pow2 by lia.
        assert (u32 (l * 2 ^ n) = r * 2 ^ n) as ->.
        { unfold u32. rewrite Ediv. replace ((2 ^ (32 - n) * q + r) * 2 ^ n) with (r * 2 ^ n + q * 2 ^ 32) by (rewrite E32; ring). rewrite Z_mod_plus_full. apply Z.mod_small. nia. }
        rewrite s32_id by (unfold is_s32; nia). eexists _, _. split; [done|]. unfold words, val, is_u32. split; [split; nia|]. replace ((h * 2 ^ 32 + l) * 2 ^ n) with (h * 2 ^ 32 * 2 ^ n + (2 ^ (32 - n) * q + r) * 2 ^ n) by (rewrite <- Ediv; ring). rewrite E32. ring.
      - assert (2 ^ 32 <= 2 ^ n) by (apply Z.pow_le_mono_r; lia). assert (h = 0) as -> by nia. rewrite Z.shiftl_mul_pow2 by lia.
        assert (2 ^ n = 2 ^ (n - 32) * 2 ^ 32) as En by (rewrite <- Z.pow_add_r by lia; f_equal; lia). rewrite Z.mul_0_l, Z.add_0_l in *.
        assert (0 <= l * 2 ^ (n - 32) < 2 ^ 21) as Hb by nia. rewrite s32_id by (unfold is_s32; lia). eexists _, _. split; [done|]. unfold words, val, is_u32. split; [lia|]. rewrite En. ring. }
    split; [done|]. rewrite Ev. split; [|done]. rewrite <- Z.mul_assoc, Hpow. done.
  - assert (1 <= M / 2 ^ 52) as He by (apply Z.div_le_lower_bound; lia). rewrite log2_mag by done. destruct (Z.leb_spec (-1022) (51 + M / 2 ^ 52 - 1074)); [|lia].
    change 0xfffff with (2 ^ 20 - 1). rewrite Z.land_comm, land_mask by lia. change 0x100000 with (Z.shiftl 1 20). rewrite lor_shiftl_low by (try apply Z.mod_pos_bound; lia).
    assert (h mod 2 ^ 20 * 2 ^ 32 + l = M mod 2 ^ 52) as Ef.
    { apply (Z.mod_unique_pos _ _ (h / 2 ^ 20)); pose proof (Z.mod_pos_bound h (2 ^ 20) ltac:(lia)); pose proof (Z.div_mod h (2 ^ 20) ltac:(lia)); lia. }
    pose proof (Z.mod_pos_bound h (2 ^ 20) ltac:(lia)). destruct (split_mag 52 ltac:(lia) M) as [EM Hf].
    split; [unfold words, is_u32; lia|]. assert (val (1 * 2 ^ 20 + h mod 2 ^ 20) l = 2 ^ 52 + M mod 2 ^ 52) as -> by (unfold val; lia). split; [|lia].
    rewrite EM at 3. rewrite mag_exp by lia. replace (51 + M / 2 ^ 52) with (M / 2 ^ 52 - 1 + 52) by lia. rewrite Z.pow_add_r by lia. ring.
Qed.
End magnitude_words.

(** ** Back to a double *)
Definition sign_word_of (neg : bool) : Z := if neg then - 2 ^ 31 else 0.
Lemma insert_signed A lo neg : 0 <= A < 2047 * 2 ^ 20 -> is_u32 lo ->
  let d := INSERT_WORDS (Z.lor A (sign_word_of neg)) lo in is_finite d /\ negative d = neg /\ magnitude d = A * 2 ^ 32 + lo.
Proof.
  intros HA Hlo. unfold INSERT_WORDS. rewrite (u32_id lo Hlo).
  assert (u32 (Z.lor A (sign_word_of neg)) = (if neg then 2 ^ 31 else 0) + A) as ->.
  { destruct neg; cbn [sign_word_of].
    - change (- 2 ^ 31) with (Z.shiftl (-1) 31). rewrite Z.lor_comm, lor_shiftl_low by lia. unfold u32.
      replace (-1 * 2 ^ 31 + A) with (2 ^ 31 + A + (-1) * 2 ^ 32) by lia. rewrite Z_mod_plus_full. apply Z.mod_small. lia.
    - rewrite Z.lor_0_r. apply u32_id. unfold is_u32. lia. }
  assert (((if neg then 2 ^ 31 else 0) + A) mod 2 ^ 31 = A) as EA by (apply sign_bit_mod; lia).
  unfold is_finite, is_double, negative, magnitude, is_u32 in *. cbn [msw lsw]. rewrite EA.
  split; [|split; [|done]]; [destruct neg; lia|]. destruct neg; [apply Z.leb_le|apply Z.leb_gt]; lia.
Qed.
Lemma shifted_words h l n r : words h l -> 1 <= n <= 31 -> val h l = r * 2 ^ n -> 0 <= r ->
  Z.shiftr h n * 2 ^ 32 + Z.lor (Z.shiftr l n) (u32 (Z.shiftl h (32 - n))) = r /\ is_u32 (Z.lor (Z.shiftr l n) (u32 (Z.shiftl h (32 - n)))).
Proof.
  unfold words, val, is_u32. intros [Hh Hl] Hn E Hr0. assert (2 ^ 32 = 2 ^ (32 - n) * 2 ^ n) as E32 by (rewrite <- Z.pow_add_r by lia; f_equal; lia).
  assert (0 < 2 ^ n) as Hp by (apply Z.pow_pos_nonneg; lia). assert (0 < 2 ^ (32 - n)) as Hp2 by (apply Z.pow_pos_nonneg; lia).
  rewrite !Z.shiftr_div_pow2 by lia. pose proof (Z.div_mod h (2 ^ n) ltac:(lia)) as Ediv. pose proof (Z.mod_pos_bound h (2 ^ n) ltac:(lia)) as Hr.
  set (q := h / 2 ^ n) in *. set (s := h mod 2 ^ n) in *.
  assert (l mod 2 ^ n = 0) as El.
  { replace l with (0 + (r - h * 2 ^ (32 - n)) * 2 ^ n) by (rewrite Z.mul_sub_distr_r, <- Z.mul_assoc, <- E32; lia). rewrite Z_mod_plus_full. by apply Z.mod_0_l; lia. }
  pose proof (Z.div_mod l (2 ^ n) ltac:(lia)) as Edl. rewrite El in Edl. set (t := l / 2 ^ n) in *.
  assert (0 <= t < 2 ^ (32 - n)) as Ht by (unfold t; split; [apply Z.div_pos; lia|apply Z.div_lt_upper_bound; lia]).
  assert (u32 (Z.shiftl h (32 - n)) = Z.shiftl s (32 - n)) as ->.
  { rewrite !Z.shiftl_mul_pow2 by lia. unfold u32. rewrite Ediv. replace ((2 ^ n * q + s) * 2 ^ (32 - n)) with (s * 2 ^ (32 - n) + q * 2 ^ 32) by (rewrite E32; ring).
    rewrite Z_mod_plus_full. apply Z.mod_small. rewrite E32. nia. }
  rewrite Z.lor_comm, lor_shiftl_low by lia. split; [|rewrite E32; nia].
  apply (Z.mul_reg_r _ _ (2 ^ n)); [lia|]. rewrite <- E, Edl, Ediv. rewrite E32. ring.
Qed.

Section pack.
Context `{Fpu} (Hone : forall x, is_finite x -> fmul x ONE = x).
Lemma pack_spec h l iy neg r : words h l -> 2 ^ 52 <= val h l < 2 ^ 53 -> -1074 <= iy <= 1023 -> 0 < r -> val h l * 2 ^ (iy + 1074) = r * 2 ^ 52 ->
  let d := pack h l iy (sign_word_of neg) in is_finite d /\ negative d = neg /\ mag 52 (magnitude d) = r.
Proof using Hone.
  intros Hw Hv Hiy Hr E. unfold pack. pose proof Hw as [Hh Hl]. unfold is_u32 in Hl.
  destruct (Z.leb_spec (-1022) iy).
  - assert (2 ^ 20 <= h < 2 ^ 21) as Hh2 by (unfold val in Hv; lia). rewrite (Z.lor_comm (h - 0x100000)), lor_shiftl_low by lia.
    destruct (insert_signed ((iy + 1023) * 2 ^ 20 + (h - 0x100000)) l neg) as (Hf & Hn & Em); [lia|done|]. split; [exact Hf|]. split; [exact Hn|].
    rewrite Em. replace (((iy + 1023) * 2 ^ 20 + (h - 0x100000)) * 2 ^ 32 + l) with (2 ^ 52 * (iy + 1023) + (val h l - 2 ^ 52)) by (unfold val; lia).
    rewrite mag_exp by lia. apply (Z.mul_reg_r _ _ (2 ^ 52)); [lia|]. rewrite <- E. replace (iy + 1074) with (iy + 1023 - 1 + 52) by lia. rewrite Z.pow_add_r by lia. ring.
  - set (n := -1022 - iy). assert (1 <= n <= 52) as Hn by (unfold n; lia). replace (iy + 1074) with (52 - n) in E by (unfold n; lia).
    assert (val h l = r * 2 ^ n) as Ev.
    { apply (Z.mul_reg_r _ _ (2 ^ (52 - n))); [apply Z.pow_nonzero; lia|]. rewrite E, <- Z.mul_assoc, <- Z.pow_add_r by lia. f_equal. f_equal. lia. }
    assert (2 <= 2 ^ n) as Hp by (change 2 with (2 ^ 1) at 1; apply Z.pow_le_mono_r; lia). assert (r < 2 ^ 52) as Hr52 by nia.
    assert (exists A lo, (if n <=? 20 then (Z.shiftr h n, Z.lor (Z.shiftr l n) (u32 (Z.shiftl h (32 - n))))
                          else if n <=? 31 then (sign_word_of neg, Z.lor (u32 (Z.shiftl h (32 - n))) (Z.shiftr l n))
                          else (sign_word_of neg, Z.shiftr h (n - 32))) = (A, lo) /\
             Z.lor A (sign_word_of neg) = Z.lor (r / 2 ^ 32) (sign_word_of neg) /\ lo = r mod 2 ^ 32) as (A & lo & -> & EA & Elo).
    { destruct (Z.leb_spec n 20); [|destruct (Z.leb_spec n 31)]; (eexists _, _; split; [done|]).
      - destruct (shifted_words h l n r Hw ltac:(lia) Ev ltac:(lia)) as [Er Hu]. unfold is_u32 in Hu. split.
        + f_equal. apply (Z.div_unique_pos _ _ _ (Z.lor (Z.shiftr l n) (u32 (Z.shiftl h (32 - n))))); lia.
        + apply (Z.mod_unique_pos _ _ (Z.shiftr h n)); lia.
      - destruct (shifted_words h l n r Hw ltac:(lia) Ev ltac:(lia)) as [Er Hu]. unfold is_u32 in Hu. rewrite (Z.lor_comm (u32 _)).
        assert (2 ^ 21 <= 2 ^ n) by (apply Z.pow_le_mono_r; lia). assert (Z.shiftr h n = 0) as Eh.
        { rewrite Z.shiftr_div_pow2 by lia. apply Z.div_small. unfold val in Hv. lia. }
        rewrite Eh in Er. rewrite Z.div_small by lia. rewrite Z.lor_diag, Z.lor_0_l. split; [done|]. rewrite Z.mod_small; lia.
      - assert (2 ^ n = 2 ^ (n - 32) * 2 ^ 32) as En by (rewrite <- Z.pow_add_r by lia; f_equal; lia). assert (0 < 2 ^ (n - 32)) as Hp3 by (apply Z.pow_pos_nonneg; lia).
        unfold val in Ev. rewrite En in Ev. assert (l = 0 /\ h = r * 2 ^ (n - 32)) as [-> ->] by lia.
        assert (r < 2 ^ 22) as Hr22 by nia. rewrite Z.shiftr_div_pow2, Z.div_mul by lia. rewrite (Z.div_small r) by lia. rewrite Z.lor_diag, Z.lor_0_l. split; [done|]. rewrite Z.mod_small; lia. }
    pose proof (Z.div_mod r (2 ^ 32) ltac:(lia)) as Er. pose proof (Z.mod_pos_bound r (2 ^ 32) ltac:(lia)) as Hrm.
    destruct (insert_signed (r / 2 ^ 32) (r mod 2 ^ 32) neg) as (Hf & Hneg & Em); [lia|exact Hrm|]. cbv zeta in *. rewrite EA, Elo, Hone by exact Hf.
    split; [exact Hf|]. split; [exact Hneg|]. rewrite Em. replace (r / 2 ^ 32 * 2 ^ 32 + r mod 2 ^ 32) with r by lia. apply mag_small. lia.
Qed.
End pack.

(** ** The remainder *)
Lemma sign_of h : is_u32 h -> s32 (Z.land (s32 h) 0x80000000) = sign_word_of (2 ^ 31 <=? h).
Proof. intros Hh. change 0x80000000 with (2 ^ 31). rewrite land_sign by done. by destruct (2 ^ 31 <=? h). Qed.
Lemma lxor_sign h : is_u32 h -> Z.lxor (s32 h) (sign_word_of (2 ^ 31 <=? h)) = h mod 2 ^ 31.
Proof.
  intros Hh. destruct (split_word h Hh) as [E Hm]. rewrite (s32_word h Hh). destruct (2 ^ 31 <=? h); cbn [sign_word_of].
  - replace (h - 2 ^ 32) with (h mod 2 ^ 31 + - 2 ^ 31) by lia. rewrite Z.add_nocarry_lxor, Z.lxor_assoc, Z.lxor_nilpotent, Z.lxor_0_r; [done|].
    change (- 2 ^ 31) with (Z.lnot (2 ^ 31 - 1)). rewrite land_clear by lia. rewrite Z.mod_mod by lia. lia.
  - rewrite Z.lxor_0_r. lia.
Qed.
Lemma lor_one a : 0 <= a -> a <= Z.lor a 1 <= a + 1.
Proof.
  intros Ha. pose proof (Z.add_lor_land a 1) as E. pose proof (land_mask a 1 ltac:(lia) : Z.land a 1 = a mod 2).
  pose proof (Z.mod_pos_bound a 2 ltac:(lia)). lia.
Qed.
Lemma magnitude_order x y : is_double x -> is_double y ->
  let hx := msw x mod 2 ^ 31 in let hy := msw y mod 2 ^ 31 in
  (hx <=? hy) && ((hx <? hy) || (lsw x <? lsw y)) = (magnitude x <? magnitude y) /\
  (magnitude y <= magnitude x -> (hx <=? hy) && (lsw x =? lsw y) = (magnitude x =? magnitude y)).
Proof.
  intros [_ Hx] [_ Hy]. unfold is_u32 in *. cbv zeta. unfold magnitude. split; [|intros H];
    repeat match goal with |- context [?a <=? ?b] => destruct (Z.leb_spec a b) | |- context [?a <? ?b] => destruct (Z.ltb_spec a b) | |- context [?a =? ?b] => destruct (Z.eqb_spec a b) end; cbn [andb orb]; try done; lia.
Qed.
Lemma nan_test y : is_double y -> (0x7ff00000 <? Z.lor (msw y mod 2 ^ 31) (Z.shiftr (Z.lor (lsw y) (u32 (- lsw y))) 31)) = (2047 * 2 ^ 52 <? magnitude y).
Proof.
  intros Hd. destruct (h_split y Hd) as [_ Hm]. destruct Hd as [_ Hl]. set (m := msw y mod 2 ^ 31) in *. unfold magnitude. fold m. set (l := lsw y) in *. unfold is_u32 in Hl.
  assert (Z.shiftr (Z.lor l (u32 (- l))) 31 = if l =? 0 then 0 else 1) as ->.
  { destruct (Z.eqb_spec l 0) as [->|Hl0]; [done|]. assert (u32 (- l) = 2 ^ 32 - l) as ->.
    { unfold u32. replace (- l) with (2 ^ 32 - l + (-1) * 2 ^ 32) by lia. rewrite Z_mod_plus_full. apply Z.mod_small. lia. }
    rewrite Z.shiftr_lor, !Z.shiftr_div_pow2 by lia.
    destruct (Z.lt_ge_cases l (2 ^ 31)).
    - rewrite (Z.div_small l) by lia. rewrite Z.lor_0_l. symmetry. apply (Z.div_unique_pos _ _ _ (2 ^ 31 - l)); lia.
    - assert (l / 2 ^ 31 = 1) as -> by (symmetry; apply (Z.div_unique_pos _ _ _ (l - 2 ^ 31)); lia).
      destruct (Z.eq_dec l (2 ^ 31)) as [->|]; [done|]. rewrite (Z.div_small (2 ^ 32 - l)) by lia. done. }
  destruct (Z.eqb_spec l 0) as [->|Hl0].
  - rewrite Z.lor_0_r. destruct (Z.ltb_spec 0x7ff00000 m), (Z.ltb_spec (2047 * 2 ^ 52) (m * 2 ^ 32 + 0)); try done; lia.
  - destruct (Z.eq_dec m 0x7ff00000) as [->|]. { destruct (Z.ltb_spec (2047 * 2 ^ 52) (0x7ff00000 * 2 ^ 32 + l)); [done|lia]. }
    pose proof (lor_one m ltac:(lia)). destruct (Z.ltb_spec 0x7ff00000 (Z.lor m 1)), (Z.ltb_spec (2047 * 2 ^ 52) (m * 2 ^ 32 + l)); try done; lia.
Qed.

Section remainder.
Context `{Fpu} (Hone : forall x, is_finite x -> fmul x ONE = x).
Context (x y : double) (Hx : is_finite x) (Hy : is_finite y) (Hy0 : magnitude y <> 0).
Notation vx := (mag 52 (magnitude x)).
Notation vy := (mag 52 (magnitude y)).
Lemma mag_finite z : is_finite z -> magnitude z <> 0 -> 0 < mag 52 (magnitude z) /\ 0 <= msw z mod 2 ^ 31 < 2047 * 2 ^ 20 /\ 0 <= Z.log2 (mag 52 (magnitude z)) <= 2097.
Proof using.
  clear. intros [Hd Hf] H0. pose proof (magnitude_range z Hd) as Hr. destruct (h_split z Hd) as [_ Hm].
  assert (0 < mag 52 (magnitude z)) as Hp by (change 0 with (mag 52 0); apply mag_lt; lia). split; [done|].
  destruct Hd as [_ Hl]. unfold is_u32 in Hl. split; [unfold magnitude in *; lia|]. split; [apply Z.log2_nonneg|].
  destruct (Z.lt_ge_cases (magnitude z) (2 ^ 52)).
  - rewrite mag_small by lia. assert (Z.log2 (magnitude z) < 52) by (apply Z.log2_lt_pow2; lia). lia.
  - rewrite log2_mag by done. assert (magnitude z / 2 ^ 52 < 2047) by (apply Z.div_lt_upper_bound; lia). lia.
Qed.
(** [d] is the result when its magnitude is that of the remainder. *)
Definition is_remainder (d : double) : Prop := is_finite d /\ negative d = negative x /\ mag 52 (magnitude d) = vx mod vy.
Lemma zero_remainder : vx mod vy = 0 -> is_remainder (Zero (sign_word_of (negative x))).
Proof using. intros E. unfold is_remainder, Zero. rewrite E. destruct (negative x); (split; [split; [split; vm_compute; split; congruence|vm_compute; congruence]|done]). Qed.

Lemma fmod_spec : exists r, __ieee754_fmod x y = Some r /\ is_remainder r.
Proof using All.
  pose proof Hx as [Hxd Hxf]. pose proof Hy as [Hyd Hyf]. destruct (mag_finite y Hy Hy0) as (Hvy & Hhy & Hey).
  destruct (h_split x Hxd) as [_ Hmx]. pose proof (magnitude_range x Hxd) as Hrx. pose proof (magnitude_range y Hyd) as Hry.
  unfold __ieee754_fmod. cbv zeta. rewrite sign_of, lxor_sign by apply Hxd. change (2 ^ 31 <=? msw x) with (negative x).
  change 0x7fffffff with (2 ^ 31 - 1). rewrite land_mask, s32_mod by lia. rewrite nan_test by done.
  assert (Z.lor (msw y mod 2 ^ 31) (lsw y) =? 0 = false) as ->.
  { apply Z.eqb_neq. intros [E1 E2]%Z.lor_eq_0_iff. apply Hy0. unfold magnitude. lia. }
  destruct (Z.ltb_spec (2047 * 2 ^ 52) (magnitude y)); [lia|]. destruct (Z.leb_spec 0x7ff00000 (msw x mod 2 ^ 31)).
  { exfalso. destruct Hxd as [_ Hl]. unfold is_u32, magnitude in *. lia. }
  cbn [orb]. destruct (magnitude_order x y Hxd Hyd) as [-> Heq].
  destruct (Z.ltb_spec (magnitude x) (magnitude y)) as [Hlt|Hge].
  { exists x. split; [done|]. split; [done|]. split; [done|]. symmetry. apply Z.mod_small. split; [apply mag_nonneg; lia|apply mag_lt; lia]. }
  rewrite Heq by done. destruct (Z.eqb_spec (magnitude x) (magnitude y)) as [Eeq|Hne].
  { eexists. split; [done|]. apply zero_remainder. rewrite Eeq. apply Z_mod_same_full. }
  assert (magnitude x <> 0) as Hx0 by lia. destruct (mag_finite x Hx Hx0) as (Hvx & Hhx & Hex).
  assert (vy < vx) as Hvxy by (apply mag_lt; lia).
  rewrite (exponent_of_spec (msw x mod 2 ^ 31) (lsw x)) by (done || apply Hxd). rewrite (exponent_of_spec (msw y mod 2 ^ 31) (lsw y)) by (done || apply Hyd).
  cbn [mbind option_bind]. pose proof (align_spec (msw x mod 2 ^ 31) (lsw x) Hhx (proj2 Hxd) Hx0) as Hax. pose proof (align_spec (msw y mod 2 ^ 31) (lsw y) Hhy (proj2 Hyd) Hy0) as Hay.
  change (msw x mod 2 ^ 31 * 2 ^ 32 + lsw x) with (magnitude x) in *. change (msw y mod 2 ^ 31 * 2 ^ 32 + lsw y) with (magnitude y) in *.
  set (ex := Z.log2 vx) in *. set (ey := Z.log2 vy) in *.
  destruct (align (msw x mod 2 ^ 31) (lsw x) (ex - 1074)) as [h1 l1]. destruct (align (msw y mod 2 ^ 31) (lsw y) (ey - 1074)) as [h2 l2].
  destruct Hax as (Hw1 & E1 & Hb1). destruct Hay as (Hw2 & E2 & Hb2).
  assert (ey <= ex) as Hexy by (apply Z.log2_le_mono; lia). destruct (Z.ltb_spec (ex - 1074 - (ey - 1074)) 0); [lia|].
  replace (ex - 1074 - (ey - 1074)) with (ex - ey) by lia.
  pose proof (fix_loop_spec h2 l2 (Z.to_nat (ex - ey)) h1 l1 Hw2 ltac:(lia) Hw1 ltac:(lia)) as Hloop. rewrite Z2Nat.id in Hloop by lia.
  assert (forall R, 0 <= R < val h2 l2 -> R mod val h2 l2 = (val h1 l1 * 2 ^ (ex - ey)) mod val h2 l2 -> R * 2 ^ ey = (vx mod vy) * 2 ^ 52) as Hrem.
  { intros R HR ER. rewrite Z.mod_small in ER by done. rewrite ER. assert (0 < 2 ^ ey) by (apply Z.pow_pos_nonneg; lia).
    rewrite <- Z.mul_mod_distr_r, <- (Z.mul_mod_distr_r vx) by lia. rewrite <- Z.mul_assoc, <- Z.pow_add_r by lia. replace (ex - ey + ey) with ex by lia. by rewrite E1, E2. }
  destruct (fix_loop h2 l2 (Z.to_nat (ex - ey)) h1 l1) as [[h3 l3]|].
  2: { eexists. split; [done|]. apply zero_remainder. pose proof (Hrem 0 ltac:(lia)) as Hr0. rewrite Z.mod_0_l in Hr0 by lia. specialize (Hr0 (eq_sym Hloop)). lia. }
  destruct Hloop as (Hw3 & Hb3 & E3).
  assert (exists h4 l4, (let '(hz, lz) := sub_words h2 l2 h3 l3 in if 0 <=? hz then (hz, lz) else (h3, l3)) = (h4, l4) /\ words h4 l4 /\ 0 <= val h4 l4 < val h2 l2 /\ val h4 l4 mod val h2 l2 = val h3 l3 mod val h2 l2) as (h4 & l4 & E & Hw4 & Hb4 & E4).
  { pose proof (sub_words_cases h2 l2 h3 l3 Hw3 Hw2) as Hs. destruct (sub_words h2 l2 h3 l3) as [hz lz].
    assert (forall a b, words a b -> 0 <= val a b) as Hval by (intros a b [? ?]; unfold val, is_u32 in *; lia).
    rewrite Z.leb_antisym. destruct (hz <? 0); cbn [negb]; [exists h3, l3|exists hz, lz]; (split; [done|]).
    - split; [done|]. split; [split; [by apply Hval|done]|done].
    - destruct Hs as [Hwz Ez]. split; [done|]. split; [split; [by apply Hval|lia]|]. rewrite Ez. replace (val h3 l3 - val h2 l2) with (val h3 l3 + (-1) * val h2 l2) by lia. apply Z_mod_plus_full. }
  destruct (sub_words h2 l2 h3 l3) as [hz lz]. rewrite E. rewrite (words_zero h4 l4 Hw4). pose proof (Hrem (val h4 l4) Hb4 ltac:(lia)) as Hr4.
  destruct (Z.eqb_spec (val h4 l4) 0) as [E0|Hne0].
  { eexists. split; [done|]. apply zero_remainder. rewrite E0 in Hr4. lia. }
  assert (0 < 2 ^ ey) as Hpey by (apply Z.pow_pos_nonneg; lia). assert (0 < vx mod vy < vy) as Hrb by (pose proof (Z.mod_pos_bound vx vy Hvy); nia).
  destruct (norm_loop_spec 64 h4 l4 (ey - 1074) Hw4 ltac:(lia) ltac:(pose proof (Z.log2_nonneg (val h4 l4)); lia)) as (h5 & l5 & -> & Hw5 & E5 & Hb5).
  cbn [mbind option_bind]. eexists. split; [done|]. set (k := 52 - Z.log2 (val h4 l4)) in *.
  assert (0 <= k) as Hk. { assert (Z.log2 (val h4 l4) < 53) by (apply Z.log2_lt_pow2; lia). lia. }
  assert (k <= ey) as Hkey.
  { destruct (Z.le_gt_cases k ey) as [|Hgt]; [done|exfalso]. assert (2 ^ 52 <= (vx mod vy) * 2 ^ 52) by lia.
    assert (2 ^ k = 2 ^ (k - ey) * 2 ^ ey) as Ek by (rewrite <- Z.pow_add_r by lia; f_equal; lia).
    assert (2 <= 2 ^ (k - ey)) by (change 2 with (2 ^ 1) at 1; apply Z.pow_le_mono_r; lia).
    rewrite Ek in E5. assert (val h5 l5 = 2 ^ (k - ey) * (vx mod vy * 2 ^ 52)) by (rewrite E5, <- Hr4; ring). nia. }
  destruct (pack_spec Hone h5 l5 (ey - 1074 - k) (negative x) (vx mod vy) Hw5 Hb5) as (Hf & Hn & Em); [lia|lia| |by split].
  replace (ey - 1074 - k + 1074) with (ey - k) by lia. rewrite E5, <- Hr4, <- Z.mul_assoc, <- Z.pow_add_r by lia. f_equal. f_equal. lia.
Qed.
End remainder.

Lemma value_zero z : is_double z -> value z = 0 <-> magnitude z = 0.
Proof.
  intros Hd. pose proof (magnitude_range z Hd). unfold value. split.
  - intros E. apply (mag_inj 52 ltac:(lia)); [lia|lia|]. change (mag 52 0) with 0. destruct (negative z); cbn [signed] in E; lia.
  - intros ->. by destruct (negative z).
Qed.
Lemma rem_signed a b m n : 0 <= m -> 0 < n -> Z.rem (signed a m) (signed b n) = signed a (m mod n).
Proof.
  intros Hm Hn. destruct a, b; cbn [signed]; rewrite ?Z.rem_opp_l, ?Z.rem_opp_r, ?Z.rem_mod_nonneg by lia; done.
Qed.

(** C28.  fmod is exact: for finite doubles x and y, y not zero, subnormal numbers among them, it gives a finite double
    whose value is the remainder of the division that truncates, with the sign bit of x also when it is
    zero.  x is answered when y is infinite, and the invalid (x*y)/(x*y) when y is zero or one of them is a NaN
    or x infinite.  No loop goes on for more than its fuel. *)
Theorem fmod_exact `{Fpu} x y :
  (forall x, is_finite x -> fmul x ONE = x) -> is_double x -> is_double y ->
  (is_finite x -> is_finite y -> value y <> 0 ->
     exists r, __ieee754_fmod x y = Some r /\ is_finite r /\ value r = Z.rem (value x) (value y) /\ negative r = negative x) /\
  (is_finite x -> magnitude y = 2047 * 2 ^ 52 -> __ieee754_fmod x y = Some x) /\
  (magnitude y = 0 \/ 2047 * 2 ^ 52 <= magnitude x \/ 2047 * 2 ^ 52 < magnitude y -> __ieee754_fmod x y = Some (fdiv (fmul x y) (fmul x y))).
Proof.
  intros Hone Hx Hy. split; [|split].
  - intros Hfx Hfy Hy0. rewrite value_zero in Hy0 by done. destruct (fmod_spec Hone x y Hfx Hfy Hy0) as (r & E & Hr & Hn & Em).
    exists r. split; [done|]. split; [done|]. split; [|done]. unfold value at 1 2 3. rewrite Hn, Em.
    destruct (mag_finite y Hfy Hy0) as [Hv _]. rewrite rem_signed; [done|apply mag_nonneg; [lia|]; pose proof (magnitude_range x Hx); lia|done].
  - intros [_ Hfx] Ey. unfold __ieee754_fmod. cbv zeta. rewrite sign_of, lxor_sign by apply Hx. change 0x7fffffff with (2 ^ 31 - 1). rewrite land_mask, s32_mod by lia.
    rewrite nan_test, (proj1 (magnitude_order x y Hx Hy)) by done. rewrite Ey. cbn [Z.ltb Z.compare]. change (2047 * 2 ^ 52 <? 2047 * 2 ^ 52) with false.
    destruct (Z.ltb_spec (magnitude x) (2047 * 2 ^ 52)); [|lia].
    destruct (Z.eqb_spec (Z.lor (msw y mod 2 ^ 31) (lsw y)) 0) as [E|_].
    { apply Z.lor_eq_0_iff in E as [E1 E2]. unfold magnitude in Ey. rewrite E1, E2 in Ey. done. }
    destruct (Z.leb_spec 0x7ff00000 (msw x mod 2 ^ 31)); [|done]. exfalso. destruct Hx as [_ Hl]. unfold is_u32, magnitude in *. lia.
  - intros Hcase. unfold __ieee754_fmod. cbv zeta. rewrite sign_of, lxor_sign by apply Hx. change 0x7fffffff with (2 ^ 31 - 1). rewrite land_mask, s32_mod by lia.
    rewrite nan_test by done. destruct (h_split x Hx) as [_ Hmx]. destruct (h_split y Hy) as [_ Hmy]. destruct Hx as [_ Hlx], Hy as [_ Hly]. unfold is_u32 in *.
    destruct Hcase as [E|[E|E]].
    + assert (msw y mod 2 ^ 31 = 0 /\ lsw y = 0) as [-> ->] by (unfold magnitude in E; lia). done.
    + destruct (Z.leb_spec 0x7ff00000 (msw x mod 2 ^ 31)); [by rewrite orb_true_r|]. unfold magnitude in E. lia.
    + destruct (Z.ltb_spec (2047 * 2 ^ 52) (magnitude y)); [by rewrite orb_true_r|lia].
Qed.
Lemma fmod_exact_witness : let x := Double 0xC0160000 0 in let y := Double 0x40000000 0 in
  exists r, __ieee754_fmod x y = Some r /\ is_finite r /\ value r = Z.rem (value x) (value y) /\ negative r = negative x.
Proof.
  intros x y. assert (is_double x) as Hx by (split; vm_compute; split; congruence). assert (is_double y) as Hy by (split; vm_compute; split; congruence).
  apply (@fmod_exact no_fpu x y (fun d _ => eq_refl d) Hx Hy); [by split|by split|]. vm_compute. congruence.
Defined.

(** ilogb is the exponent of every number that is neither zero nor infinite. *)
Lemma ilogb_spec x : is_double x ->
  ilogb x = Some (if magnitude x =? 0 then FP_ILOGB0 else if magnitude x <? 2047 * 2 ^ 52 then Z.log2 (Z.abs (value x)) - 1074
                  else if magnitude x =? 2047 * 2 ^ 52 then INT_MAX else FP_ILOGBNAN).
Proof.
  intros Hd. destruct (h_split x Hd) as [_ Hm]. pose proof Hd as [_ Hl]. unfold ilogb. cbv zeta. change 0x7fffffff with (2 ^ 31 - 1). rewrite land_mask, s32_mod by lia.
  assert (forall s m, 0 <= m -> Z.abs (signed s m) = m) as Habs by (intros [] m Hm0; cbn [signed]; lia).
  pose proof (magnitude_range x Hd) as Hr. unfold value. rewrite Habs by (apply mag_nonneg; [lia|lia]).
  assert ((s32 (lsw x) =? 0) = (lsw x =? 0)) as Es.
  { rewrite (s32_word (lsw x) Hl). unfold is_u32 in Hl. destruct (Z.leb_spec (2 ^ 31) (lsw x)), (Z.eqb_spec (lsw x) 0); try lia; first [apply Z.eqb_eq; lia|apply Z.eqb_neq; lia]. }
  destruct (Z.eqb_spec (magnitude x) 0) as [E0|H0].
  { unfold magnitude, is_u32 in *. assert (msw x mod 2 ^ 31 = 0) as -> by lia. assert (lsw x = 0) as -> by lia. done. }
  destruct (Z.ltb_spec (magnitude x) (2047 * 2 ^ 52)) as [Hf|Hinf].
  - destruct (mag_finite x (conj Hd Hf) H0) as (_ & Hh & _). pose proof (exponent_of_spec (msw x mod 2 ^ 31) (lsw x) Hh Hl H0) as E. change (msw x mod 2 ^ 31 * 2 ^ 32 + lsw x) with (magnitude x) in E. rewrite <- E. unfold exponent_of.
    destruct (Z.ltb_spec (msw x mod 2 ^ 31) 0x100000).
    + destruct (Z.eqb_spec (Z.lor (msw x mod 2 ^ 31) (s32 (lsw x))) 0) as [E0|_]; [|done].
      apply Z.lor_eq_0_iff in E0 as [E1 E2]. apply Z.eqb_eq in E2. rewrite Es in E2. apply Z.eqb_eq in E2. unfold magnitude in H0. lia.
    + destruct (Z.ltb_spec (msw x mod 2 ^ 31) 0x7ff00000); [done|lia].
  - unfold is_u32, magnitude in *. destruct (Z.ltb_spec (msw x mod 2 ^ 31) 0x100000); [lia|]. destruct (Z.ltb_spec (msw x mod 2 ^ 31) 0x7ff00000); [lia|].
    rewrite Es. destruct (Z.ltb_spec 0x7ff00000 (msw x mod 2 ^ 31)), (Z.eqb_spec (lsw x) 0), (Z.eqb_spec (msw x mod 2 ^ 31 * 2 ^ 32 + lsw x) (2047 * 2 ^ 52)); cbn [orb negb]; try done; lia.
Qed.
