(* ===== verification/Sqrt.v ===== *)
(** * The square root (libm/src/e_sqrt.c)

    The root is found bit by bit in words.  The comparisons of one-tiny and one+tiny with one depend on the rounding
    mode only, and are what [mode] stands for.  When the leading bit of a subnormal number is bit 31 of its low
    word the code shifts by 32, which C leaves undefined: [shift32] is what the processor makes of it. *)
From S2P Require Import Prelude Ieee Fmod.
#[local] Open Scope Z_scope.

Inductive mode : Type := Nearest | Upward | Downward.
(** one-tiny >= one, and one+tiny > one *)
Definition keeps_one (md : mode) : bool := match md with Downward => false | _ => true end.
Definition above_one (md : mode) : bool := match md with Upward => true | _ => false end.

(** while(ix0==0) { m -= 21; ix0 |= (ix1>>11); ix1 <<= 21; } *)
Fixpoint skip_words (fuel : nat) (m ix0 ix1 : Z) : option (Z * Z * Z) :=
  if ix0 =? 0 then match fuel with O => None | S fuel => skip_words fuel (m - 21) (Z.lor ix0 (Z.shiftr ix1 11)) (u32 (Z.shiftl ix1 21)) end
  else Some (m, ix0, ix1).
(** for(i=0;(ix0&0x00100000)==0;i++) ix0<<=1; *)
Fixpoint lead_bits (fuel : nat) (i ix0 : Z) : option (Z * Z) :=
  if Z.land ix0 0x00100000 =? 0 then match fuel with O => None | S fuel => lead_bits fuel (i + 1) (s32 (Z.shiftl ix0 1)) end
  else Some (i, ix0).
(** ix0 += ix0 + ((ix1&sign)>>31); ix1 += ix1; *)
Definition twice (ix0 ix1 : Z) : Z * Z := (s32 (ix0 + (ix0 + Z.shiftr (Z.land ix1 0x80000000) 31)), u32 (ix1 + ix1)).

(** The bits of q, and then those of q1 *)
Fixpoint high_loop (fuel : nat) (r s0 ix0 ix1 q : Z) : option (Z * Z * Z * Z) :=
  if r =? 0 then Some (s0, ix0, ix1, q)
  else
    match fuel with
    | O => None
    | S fuel =>
        let t := s32 (s0 + r) in
        let '(s0, ix0, q) := if t <=? ix0 then (s32 (t + r), s32 (ix0 - t), s32 (q + r)) else (s0, ix0, q) in
        let '(ix0, ix1) := twice ix0 ix1 in
        high_loop fuel (Z.shiftr r 1) s0 ix0 ix1 q
    end.
Fixpoint low_loop (fuel : nat) (r s0 s1 ix0 ix1 q1 : Z) : option (Z * Z * Z) :=
  if r =? 0 then Some (ix0, ix1, q1)
  else
    match fuel with
    | O => None
    | S fuel =>
        let t1 := u32 (s1 + r) in
        let t := s0 in
        let '(s0, s1, ix0, ix1, q1) :=
          if (t <? ix0) || ((t =? ix0) && (t1 <=? ix1)) then
            let s1 := u32 (t1 + r) in
            let s0 := if (Z.land t1 0x80000000 =? 0x80000000) && (Z.land s1 0x80000000 =? 0) then s32 (s0 + 1) else s0 in
            let ix0 := s32 (ix0 - t) in
            let ix0 := if ix1 <? t1 then s32 (ix0 - 1) else ix0 in
            (s0, s1, ix0, u32 (ix1 - t1), u32 (q1 + r))
          else (s0, s1, ix0, ix1, q1) in
        let '(ix0, ix1) := twice ix0 ix1 in
        low_loop fuel (Z.shiftr r 1) s0 s1 ix0 ix1 q1
    end.
(** The rounding direction, when there is a remainder *)
Definition round_bits (md : mode) (q q1 : Z) : Z * Z :=
  if keeps_one md then
    if q1 =? 0xffffffff then (s32 (q + 1), 0)
    else if above_one md then ((if q1 =? 0xfffffffe then s32 (q + 1) else q), u32 (q1 + 2))
    else (q, u32 (q1 + Z.land q1 1))
  else (q, q1).

Section sqrt.
Context `{Fpu} (shift32 : Z -> Z) (md : mode).
(** if(m==0): the exponent and the words of a number, subnormal or not *)
Definition normalize (ix0 ix1 : Z) : option (Z * Z * Z) :=
  let m := Z.shiftr ix0 20 in
  if m =? 0 then
    '(m, ix0, ix1) ← skip_words 3 m ix0 ix1;
    '(i, ix0) ← lead_bits 32 0 ix0;
    Some (m - (i - 1), s32 (Z.lor ix0 (if i =? 0 then shift32 ix1 else Z.shiftr ix1 (32 - i))), u32 (Z.shiftl ix1 i))
  else Some (m, ix0, ix1).
Definition __ieee754_sqrt (x : double) : option double :=
  let ix0 := s32 (msw x) in
  let ix1 := lsw x in
  if Z.land ix0 0x7ff00000 =? 0x7ff00000 then Some (fadd (fmul x x) x)
  else if (ix0 <=? 0) && (Z.lor (Z.land ix0 0x7fffffff) ix1 =? 0) then Some x
  else if ix0 <? 0 then Some (fdiv (fsub x x) (fsub x x))
  else
    '(m, ix0, ix1) ← normalize ix0 ix1;
    let m := m - 1023 in
    let ix0 := Z.lor (Z.land ix0 0x000fffff) 0x00100000 in
    let '(ix0, ix1) := if negb (Z.land m 1 =? 0) then twice ix0 ix1 else (ix0, ix1) in
    let m := Z.shiftr m 1 in
    let '(ix0, ix1) := twice ix0 ix1 in
    '(s0, ix0, ix1, q) ← high_loop 22 0x00200000 0 ix0 ix1 0;
    '(ix0, ix1, q1) ← low_loop 32 0x80000000 s0 0 ix0 ix1 0;
    let '(q, q1) := if negb (Z.lor ix0 ix1 =? 0) then round_bits md q q1 else (q, q1) in
    let ix0 := Z.shiftr q 1 + 0x3fe00000 in
    let ix1 := Z.shiftr q1 1 in
    let ix1 := if Z.land q 1 =? 1 then Z.lor ix1 0x80000000 else ix1 in
    Some (INSERT_WORDS (ix0 + Z.shiftl m 20) ix1).
End sqrt.
#[local] Instance no_fpu : Fpu := {| fadd x _ := x; fsub x _ := x; fmul x _ := x; fdiv x _ := x |}.
(** sqrt(2) to the nearest and downward, and sqrt(2^-1074) *)
Example sqrt_samples :
  __ieee754_sqrt (fun _ => 0) Nearest (Double 0x40000000 0) = Some (Double 0x3FF6A09E 0x667F3BCD) /\
  __ieee754_sqrt (fun _ => 0) Downward (Double 0x40000000 0) = Some (Double 0x3FF6A09E 0x667F3BCC) /\
  __ieee754_sqrt (fun _ => 0) Nearest (Double 0 1) = Some (Double 0x1E600000 0).
Proof. vm_compute. done. Qed.

(** ** The digits of the root *)
Definition wide (h l : Z) : Prop := 0 <= h < 2 ^ 29 /\ is_u32 l.
Lemma top_bit w : is_u32 w -> Z.shiftr (Z.land w 0x80000000) 31 = w / 2 ^ 31 /\ (Z.land w 0x80000000 =? 0x80000000) = (2 ^ 31 <=? w) /\ (Z.land w 0x80000000 =? 0) = (w <? 2 ^ 31).
Proof.
  unfold is_u32. intros Hw. assert (Z.land w 0x80000000 = if 2 ^ 31 <=? w then 2 ^ 31 else 0) as E.
  { change 0x80000000 with (2 ^ 31). rewrite land_pow2 by lia. destruct (Z.leb_spec (2 ^ 31) w); [|by rewrite Z.div_small by lia].
    replace (w / 2 ^ 31) with 1 by (apply (Z.div_unique_pos _ _ _ (w - 2 ^ 31)); lia). done. }
  rewrite E. destruct (Z.leb_spec (2 ^ 31) w).
  - split; [change (Z.shiftr (2 ^ 31) 31) with 1; apply (Z.div_unique_pos _ _ _ (w - 2 ^ 31)); lia|]. split; [done|]. symmetry. apply Z.ltb_ge. lia.
  - split; [symmetry; apply Z.div_small; lia|]. split; [done|]. symmetry. apply Z.ltb_lt. lia.
Qed.
Lemma twice_spec h l : wide h l -> let '(h', l') := twice h l in 0 <= h' /\ is_u32 l' /\ val h' l' = 2 * val h l.
Proof.
  intros [Hh Hl]. unfold twice. destruct (top_bit l Hl) as [-> _]. unfold is_u32 in Hl.
  pose proof (Z.div_mod l (2 ^ 31) ltac:(lia)) as E. pose proof (Z.mod_pos_bound l (2 ^ 31) ltac:(lia)) as Hr. assert (0 <= l / 2 ^ 31 <= 1) as Hq by lia.
  assert (u32 (l + l) = 2 * (l mod 2 ^ 31)) as ->.
  { unfold u32. replace (l + l) with (2 * (l mod 2 ^ 31) + l / 2 ^ 31 * 2 ^ 32) by lia. rewrite Z_mod_plus_full. apply Z.mod_small. lia. }
  rewrite s32_id by (unfold is_s32; lia). unfold val, is_u32. lia.
Qed.
Lemma wide_of h l : 0 <= h -> is_u32 l -> val h l < 2 ^ 61 -> wide h l.
Proof. unfold wide, val, is_u32. lia. Qed.
Lemma half_pow n : Z.shiftr (2 ^ Z.of_nat (S n)) 1 = 2 ^ Z.of_nat n.
Proof. rewrite pow_shiftr by lia. f_equal. lia. Qed.
Lemma next_multiple q n : 0 <= q -> q mod 2 ^ Z.of_nat (S n) = 0 -> q mod 2 ^ Z.of_nat n = 0 /\ (q + 2 ^ Z.of_nat n) mod 2 ^ Z.of_nat n = 0.
Proof.
  intros Hq H. assert (0 < 2 ^ Z.of_nat n) by (apply Z.pow_pos_nonneg; lia). assert (q mod 2 ^ Z.of_nat n = 0) as E.
  { rewrite Nat2Z.inj_succ, Z.pow_succ_r in H by lia. apply Z.mod_divide in H; [|lia]. apply Z.mod_divide; [lia|]. etransitivity; [|exact H]. apply Z.divide_factor_r. }
  split; [done|]. rewrite <- (Z.mul_1_l (2 ^ Z.of_nat n)) at 1. by rewrite Z_mod_plus_full.
Qed.

Section root.
Context (D : Z).
(** [P] is the root so far, of which the digits below [W] are open, and [I] the scaled remainder. *)
Record digits (P I W : Z) : Prop := { dg_rem : 2 * (D - P * P) = I * W; dg_upper : D < (P + W) * (P + W); dg_pos : 0 <= P /\ 0 <= I }.
Lemma digits_yes P I R : 0 < R -> digits P I (2 * R) -> 2 * P + R <= I -> digits (P + R) (2 * (I - (2 * P + R))) R.
Proof using. intros HR [E Hu [HP HI]] Ht. split; [nia| |lia]. replace (P + R + R) with (P + 2 * R) by ring. exact Hu. Qed.
Lemma digits_no P I R : 0 < R -> digits P I (2 * R) -> I < 2 * P + R -> digits P (2 * I) R.
Proof using. intros HR [E Hu [HP HI]] Ht. split; [lia| |lia]. nia. Qed.
Lemma digits_bound P I W : 0 < W -> digits P I W -> I < 4 * P + 2 * W.
Proof using. intros HW [E Hu [HP HI]]. nia. Qed.

Lemma high_loop_spec n q ix0 ix1 :
  0 <= ix0 -> is_u32 ix1 -> 0 <= q -> q mod 2 ^ Z.of_nat n = 0 -> q + 2 ^ Z.of_nat n <= 2 ^ 22 ->
  digits (q * 2 ^ 32) (val ix0 ix1) (2 ^ Z.of_nat n * 2 ^ 32) ->
  exists q' ix0' ix1', high_loop n (Z.shiftr (2 ^ Z.of_nat n) 1) (2 * q) ix0 ix1 q = Some (2 * q', ix0', ix1', q') /\
    0 <= ix0' /\ is_u32 ix1' /\ q <= q' < 2 ^ 22 /\ digits (q' * 2 ^ 32) (val ix0' ix1') (2 ^ 32).
Proof using.
  revert q ix0 ix1. induction n as [|n IH]; intros q ix0 ix1 H0 H1 Hq Hmod Hb Hdg.
  - cbn [high_loop]. change (Z.shiftr (2 ^ Z.of_nat 0) 1 =? 0) with true. change (2 ^ Z.of_nat 0) with 1 in *. rewrite Z.mul_1_l in Hdg. exists q, ix0, ix1. split; [done|]. split; [done|]. split; [done|]. split; [lia|done].
  - rewrite half_pow. cbn [high_loop]. set (r := 2 ^ Z.of_nat n) in *. assert (0 < r) as Hr by (apply Z.pow_pos_nonneg; lia).
    assert (2 ^ Z.of_nat (S n) = 2 * r) as Er by (rewrite Nat2Z.inj_succ, Z.pow_succ_r by lia; done). destruct (next_multiple q n Hq Hmod) as [Hm1 Hm2]. rewrite Er in *.
    destruct (Z.eqb_spec r 0); [lia|]. replace (2 * r * 2 ^ 32) with (2 * (r * 2 ^ 32)) in Hdg by ring.
    pose proof (digits_bound _ _ (2 * (r * 2 ^ 32)) ltac:(lia) Hdg) as HI. assert (wide ix0 ix1) as Hw by (apply wide_of; [done|done|lia]). destruct Hw as [Hw0 _].
    rewrite (s32_id (2 * q + r)) by (unfold is_s32; lia).
    destruct (Z.leb_spec (2 * q + r) ix0) as [Ht|Ht].
    + rewrite !s32_id by (unfold is_s32; lia). assert (wide (ix0 - (2 * q + r)) ix1) as Hw by (split; [lia|done]).
      pose proof (twice_spec _ _ Hw) as H2. destruct (twice (ix0 - (2 * q + r)) ix1) as [a b]. destruct H2 as (Ha & Hb' & Ev).
      destruct (IH (q + r) a b Ha Hb' ltac:(lia) Hm2 ltac:(lia)) as (q' & a' & b' & E & Hres).
      { replace ((q + r) * 2 ^ 32) with (q * 2 ^ 32 + r * 2 ^ 32) by ring. assert (val a b = 2 * (val ix0 ix1 - (2 * (q * 2 ^ 32) + r * 2 ^ 32))) as -> by (rewrite Ev; unfold val; ring).
        apply digits_yes; [lia|done|]. unfold val, is_u32 in *. lia. }
      exists q', a', b'. replace (2 * q + r + r) with (2 * (q + r)) by ring. split; [exact E|]. destruct Hres as (? & ? & ? & ?). split; [done|]. split; [done|]. split; [lia|done].
    + pose proof (twice_spec ix0 ix1 (conj Hw0 H1)) as H2. destruct (twice ix0 ix1) as [a b]. destruct H2 as (Ha & Hb' & Ev).
      apply (IH q a b Ha Hb' Hq Hm1 ltac:(lia)). rewrite Ev. apply digits_no; [lia|done|]. unfold val, is_u32 in *. lia.
Qed.

(** The step of the low loop on words: the doubled root in s0 and s1, and the comparison. *)
Lemma doubled_low q1 n : 0 <= q1 -> q1 mod 2 ^ Z.of_nat (S n) = 0 -> q1 + 2 ^ Z.of_nat (S n) <= 2 ^ 32 ->
  2 * q1 mod 2 ^ 32 + 2 ^ Z.of_nat n < 2 ^ 32 /\ 2 * q1 mod 2 ^ 32 + 2 * 2 ^ Z.of_nat n <= 2 ^ 32.
Proof using.
  clear D. intros Hq Hm Hb. assert (2 ^ Z.of_nat (S n) = 2 * 2 ^ Z.of_nat n) as Er by (rewrite Nat2Z.inj_succ, Z.pow_succ_r by lia; done). rewrite Er in *.
  set (r := 2 ^ Z.of_nat n) in *. assert (0 < r) as Hr by (apply Z.pow_pos_nonneg; lia). apply Z.mod_divide in Hm as [c ->]; [|lia].
  destruct (Z.le_gt_cases (2 ^ 32) (4 * r)) as [Hbig|Hsmall].
  - assert (2 * (c * (2 * r)) mod 2 ^ 32 = 0) as ->; [|lia]. assert (0 <= c) as Hc by nia. destruct (Z.eq_dec c 0) as [->|]; [done|].
    assert (c = 1 /\ 4 * r = 2 ^ 32) as [-> E4] by nia. replace (2 * (1 * (2 * r))) with (2 ^ 32) by lia. done.
  - assert (exists k, 2 ^ 32 = k * (4 * r)) as [k Hk].
    { assert (4 * r = 2 ^ (2 + Z.of_nat n)) as E4 by (rewrite Z.pow_add_r by lia; done). rewrite E4 in *. apply Z.pow_lt_mono_r_iff in Hsmall; [|lia|lia].
      exists (2 ^ (30 - Z.of_nat n)). rewrite <- Z.pow_add_r by lia. f_equal. lia. }
    replace (2 * (c * (2 * r))) with (c * (4 * r)) by ring. rewrite Hk at 1 3. rewrite Z.mul_mod_distr_r by nia.
    pose proof (Z.mod_pos_bound c k ltac:(nia)). nia.
Qed.
Lemma low_loop_spec q n q1 ix0 ix1 :
  0 <= ix0 -> is_u32 ix1 -> 0 <= q < 2 ^ 22 -> 0 <= q1 -> q1 mod 2 ^ Z.of_nat n = 0 -> q1 + 2 ^ Z.of_nat n <= 2 ^ 32 ->
  digits (q * 2 ^ 32 + q1) (val ix0 ix1) (2 ^ Z.of_nat n) ->
  exists q1' ix0' ix1', low_loop n (Z.shiftr (2 ^ Z.of_nat n) 1) (2 * q + q1 / 2 ^ 31) (2 * q1 mod 2 ^ 32) ix0 ix1 q1 = Some (ix0', ix1', q1') /\
    0 <= ix0' /\ is_u32 ix1' /\ is_u32 q1' /\ digits (q * 2 ^ 32 + q1') (val ix0' ix1') 1.
Proof using.
  intros H0 H1 Hq Hq1 Hmod Hb Hdg. revert q1 ix0 ix1 H0 H1 Hq1 Hmod Hb Hdg. induction n as [|n IH]; intros q1 ix0 ix1 H0 H1 Hq1 Hmod Hb Hdg.
  - cbn [low_loop]. change (Z.shiftr (2 ^ Z.of_nat 0) 1 =? 0) with true. change (2 ^ Z.of_nat 0) with 1 in *. exists q1, ix0, ix1. split; [done|]. split; [done|]. split; [done|]. split; [unfold is_u32; lia|done].
  - destruct (doubled_low q1 n Hq1 Hmod Hb) as [Hs1 Hs2]. rewrite half_pow. cbn [low_loop]. set (r := 2 ^ Z.of_nat n) in *. assert (0 < r) as Hr by (apply Z.pow_pos_nonneg; lia).
    assert (2 ^ Z.of_nat (S n) = 2 * r) as Er by (rewrite Nat2Z.inj_succ, Z.pow_succ_r by lia; done). destruct (next_multiple q1 n Hq1 Hmod) as [Hm1 Hm2]. rewrite Er in *.
    destruct (Z.eqb_spec r 0); [lia|].
    set (s1 := 2 * q1 mod 2 ^ 32) in *. set (c := q1 / 2 ^ 31).
    assert (0 <= s1) as Hs0 by (apply Z.mod_pos_bound; lia).
    assert (2 * q1 = c * 2 ^ 32 + s1) as Edouble.
    { unfold c, s1. replace (2 ^ 32) with (2 * 2 ^ 31) by done. rewrite Z.mul_mod_distr_l by lia. pose proof (Z.div_mod q1 (2 ^ 31) ltac:(lia)). lia. }
    assert (0 <= c <= 1) as Hc by (unfold c; split; [apply Z.div_pos; lia|]; assert (q1 / 2 ^ 31 < 2) by (apply Z.div_lt_upper_bound; lia); lia).
    rewrite (u32_id (s1 + r)) by (unfold is_u32; lia).
    pose proof (digits_bound _ _ (2 * r) ltac:(lia) Hdg) as HI. assert (wide ix0 ix1) as Hw by (apply wide_of; [done|done|lia]). destruct Hw as [Hw0 _].
    unfold is_u32 in H1.
    assert (((2 * q + c <? ix0) || ((2 * q + c =? ix0) && (s1 + r <=? ix1))) = (2 * (q * 2 ^ 32 + q1) + r <=? val ix0 ix1)) as ->.
    { unfold val. destruct (Z.ltb_spec (2 * q + c) ix0), (Z.eqb_spec (2 * q + c) ix0), (Z.leb_spec (s1 + r) ix1), (Z.leb_spec (2 * (q * 2 ^ 32 + q1) + r) (ix0 * 2 ^ 32 + ix1)); cbn [orb andb]; try done; lia. }
    destruct (Z.leb_spec (2 * (q * 2 ^ 32 + q1) + r) (val ix0 ix1)) as [Ht|Ht].
    + pose proof (digits_yes _ _ r Hr Hdg Ht) as Hdg'.
      assert (exists s0' s1', s1' = 2 * (q1 + r) mod 2 ^ 32 /\ s0' = 2 * q + (q1 + r) / 2 ^ 31 /\ u32 (s1 + r + r) = s1' /\
               (if (Z.land (s1 + r) 0x80000000 =? 0x80000000) && (Z.land s1' 0x80000000 =? 0) then s32 (2 * q + c + 1) else 2 * q + c) = s0') as (s0' & s1' & Es1 & Es0 & Eu & Ec).
      { destruct (top_bit (s1 + r) ltac:(unfold is_u32; lia)) as (_ & -> & _). rewrite (s32_id (2 * q + c + 1)) by (unfold is_s32; lia).
        eexists _, _. split; [reflexivity|]. split; [reflexivity|].
        destruct (Z.eq_dec (s1 + 2 * r) (2 ^ 32)) as [Ewrap|Enw].
        - assert (2 * (q1 + r) mod 2 ^ 32 = 0) as E1 by (replace (2 * (q1 + r)) with ((c + 1) * 2 ^ 32) by lia; apply Z_mod_mult). rewrite E1.
          assert ((q1 + r) / 2 ^ 31 = c + 1) as E2 by (symmetry; apply (Z.div_unique_pos _ _ _ 0); lia). rewrite E2. split; [replace (s1 + r + r) with (2 ^ 32) by lia; done|].
          assert (r <= 2 ^ 31) by lia. destruct (Z.leb_spec (2 ^ 31) (s1 + r)); [|lia]. change (Z.land 0 0x80000000 =? 0) with true. cbn [andb]. lia.
        - assert (2 * (q1 + r) mod 2 ^ 32 = s1 + 2 * r) as E1 by (symmetry; apply (Z.mod_unique_pos _ _ c); lia). rewrite E1.
          assert ((q1 + r) / 2 ^ 31 = c) as E2. { symmetry. apply (Z.div_unique_pos _ _ _ (q1 + r - c * 2 ^ 31)); lia. }
          rewrite E2. split; [replace (s1 + r + r) with (s1 + 2 * r) by lia; apply u32_id; unfold is_u32; lia|].
          destruct (top_bit (s1 + 2 * r) ltac:(unfold is_u32; lia)) as (_ & _ & ->). destruct (Z.leb_spec (2 ^ 31) (s1 + r)), (Z.ltb_spec (s1 + 2 * r) (2 ^ 31)); cbn [andb]; try lia. }
      rewrite Eu, Ec. rewrite (u32_id (q1 + r)) by (unfold is_u32; lia).
      assert (exists h l, (if ix1 <? s1 + r then s32 (s32 (ix0 - (2 * q + c)) - 1) else s32 (ix0 - (2 * q + c))) = h /\ u32 (ix1 - (s1 + r)) = l /\ wide h l /\ val h l = val ix0 ix1 - (2 * (q * 2 ^ 32 + q1) + r)) as (h & l & -> & -> & Hwz & Ez).
      { eexists _, _. split; [reflexivity|]. split; [reflexivity|]. rewrite !s32_id by (unfold is_s32; rewrite ?s32_id by (unfold is_s32; lia); lia).
        assert (u32 (ix1 - (s1 + r)) = ix1 - (s1 + r) + (if ix1 <? s1 + r then 2 ^ 32 else 0)) as ->.
        { unfold u32. destruct (Z.ltb_spec ix1 (s1 + r)).
          - replace (ix1 - (s1 + r)) with (ix1 - (s1 + r) + 2 ^ 32 + (-1) * 2 ^ 32) at 1 by lia. rewrite Z_mod_plus_full. apply Z.mod_small. lia.
          - rewrite Z.mod_small; lia. }
        unfold wide, val, is_u32 in *. destruct (Z.ltb_spec ix1 (s1 + r)); lia. }
      pose proof (twice_spec h l Hwz) as H2. destruct (twice h l) as [a b]. destruct H2 as (Ha & Hb' & Ev). rewrite <- Ez, <- Ev in Hdg'.
      rewrite Es1, Es0. apply (IH (q1 + r) a b Ha Hb' ltac:(lia) Hm2 ltac:(lia)). rewrite Z.add_assoc. exact Hdg'.
    + pose proof (twice_spec ix0 ix1 (conj Hw0 H1)) as H2. destruct (twice ix0 ix1) as [a b]. destruct H2 as (Ha & Hb' & Ev).
      apply (IH q1 a b Ha Hb' Hq1 Hm1 ltac:(lia)). rewrite Ev. by apply digits_no.
Qed.
End root.

(** ** The significand and the exponent of a positive number *)
Section normal.
Context (shift32 : Z -> Z) (Hshift : forall w, is_u32 w -> shift32 w = 0 \/ shift32 w = w).
Lemma skip_words_spec fuel m h l : 0 <= h < 2 ^ 20 -> is_u32 l -> 0 < val h l -> (h = 0 -> l < 2 ^ 11 -> (2 <= fuel)%nat) -> (h = 0 -> (1 <= fuel)%nat) ->
  exists n h' l', skip_words fuel m h l = Some (m - n, h', l') /\ 0 <= n /\ 0 < h' < 2 ^ 21 /\ is_u32 l' /\ val h' l' = val h l * 2 ^ n /\ (2 ^ 20 <= h' -> l' mod 2 ^ 21 = 0).
Proof using.
  clear Hshift shift32. unfold val, is_u32. revert m h l. induction fuel as [|fuel IH]; intros m h l Hh Hl Hv H2 H1; cbn [skip_words].
  - destruct (Z.eqb_spec h 0); [lia|]. exists 0, h, l. rewrite Z.sub_0_r, Z.mul_1_r. split; [done|]. lia.
  - destruct (Z.eqb_spec h 0) as [->|]; [|exists 0, h, l; rewrite Z.sub_0_r, Z.mul_1_r; split; [done|]; lia].
    rewrite Z.lor_0_l, Z.shiftr_div_pow2, Z.shiftl_mul_pow2 by lia.
    pose proof (Z.div_mod l (2 ^ 11) ltac:(lia)) as E. pose proof (Z.mod_pos_bound l (2 ^ 11) ltac:(lia)) as Hr. assert (0 <= l / 2 ^ 11 < 2 ^ 21) as Hq by lia.
    set (q := l / 2 ^ 11) in *. set (r := l mod 2 ^ 11) in *.
    assert (u32 (l * 2 ^ 21) = r * 2 ^ 21) as ->. { unfold u32. replace (l * 2 ^ 21) with (r * 2 ^ 21 + q * 2 ^ 32) by lia. rewrite Z_mod_plus_full. apply Z.mod_small. lia. }
    destruct (Z.lt_ge_cases q (2 ^ 20)).
    + destruct (IH (m - 21) q (r * 2 ^ 21)) as (n & h' & l' & -> & Hn & Hh' & Hl' & Ev & Hm); [lia|lia|lia|lia|intros; specialize (H2 eq_refl); lia|].
      exists (21 + n), h', l'. split; [do 3 f_equal; lia|]. split; [lia|]. split; [done|]. split; [done|]. split; [|done].
      rewrite Ev, Z.pow_add_r by lia. replace (0 * 2 ^ 32 + l) with (2 ^ 11 * q + r) by lia. ring.
    + exists 21, q, (r * 2 ^ 21). destruct fuel; cbn [skip_words]; destruct (Z.eqb_spec q 0); try lia; (split; [done|]); (split; [lia|]); (split; [lia|]); (split; [lia|]); (split; [lia|]); intros _; apply Z_mod_mult.
Qed.
Lemma lead_bits_spec fuel i x : 0 < x < 2 ^ 21 -> 20 <= Z.log2 x + Z.of_nat fuel -> lead_bits fuel i x = Some (i + (20 - Z.log2 x), x * 2 ^ (20 - Z.log2 x)).
Proof using.
  clear Hshift shift32. revert i x. induction fuel as [|fuel IH]; intros i x Hx Hf; cbn [lead_bits]; change 0x100000 with (2 ^ 20); rewrite land_pow2 by lia;
    assert (Z.log2 x < 21) as Hlog by (apply Z.log2_lt_pow2; lia).
  - assert (Z.log2 x = 20) as El by lia. pose proof (Z.log2_spec x ltac:(lia)) as [H1 H2]. rewrite El in *. change (2 ^ Z.succ 20) with (2 ^ 21) in *.
    replace (x / 2 ^ 20) with 1 by (apply (Z.div_unique_pos _ _ _ (x - 2 ^ 20)); lia). cbn [Z.modulo]. change (2 ^ 20 * (1 mod 2) =? 0) with false. cbn iota. rewrite Z.mul_1_r. do 2 f_equal. lia.
  - destruct (Z.lt_ge_cases x (2 ^ 20)).
    + rewrite (Z.div_small x) by lia. change (2 ^ 20 * (0 mod 2) =? 0) with true. cbn iota. rewrite Z.shiftl_mul_pow2, s32_id by (unfold is_s32; lia).
      assert (Z.log2 (x * 2 ^ 1) = Z.log2 x + 1) as El by (rewrite Z.log2_mul_pow2; lia). assert (Z.log2 x < 20) by (apply Z.log2_lt_pow2; lia).
      rewrite IH by (rewrite ?El; lia). rewrite El. do 2 f_equal; [lia|]. rewrite <- Z.mul_assoc, <- Z.pow_add_r by lia. f_equal. f_equal. lia.
    + replace (x / 2 ^ 20) with 1 by (apply (Z.div_unique_pos _ _ _ (x - 2 ^ 20)); lia). change (2 ^ 20 * (1 mod 2) =? 0) with false. cbn iota.
      assert (Z.log2 x = 20) as ->. { apply Z.log2_unique; [lia|]. change (2 ^ Z.succ 20) with (2 ^ 21). lia. } rewrite Z.mul_1_r. do 2 f_equal. lia.
Qed.

Lemma lead_word x : 2 ^ 20 <= x < 2 ^ 21 -> Z.lor (Z.land x 0x000fffff) 0x00100000 = x.
Proof using.
  clear Hshift shift32. intros Hx. change 0xfffff with (2 ^ 20 - 1). rewrite land_mask by lia. rewrite Z.lor_comm. change 0x100000 with (Z.shiftl 1 20). rewrite lor_shiftl_low by (try apply Z.mod_pos_bound; lia).
  rewrite <- (Z.mod_unique_pos x (2 ^ 20) 1 (x - 2 ^ 20)); lia.
Qed.
(** The words that come out of [normalize], with the leading bit set, hold the significand. *)
Lemma normalize_spec h l : 0 <= h < 2047 * 2 ^ 20 -> is_u32 l -> val h l <> 0 ->
  exists m a0 a1, normalize shift32 h l = Some (m, a0, a1) /\
    let f0 := Z.lor (Z.land a0 0x000fffff) 0x00100000 in
    0 <= f0 /\ is_u32 a1 /\ 2 ^ 52 <= val f0 a1 < 2 ^ 53 /\ -51 <= m <= 2046 /\ mag 52 (val h l) * 2 ^ 52 = val f0 a1 * 2 ^ (m + 51).
Proof using Hshift.
  intros Hh Hl Hv. pose proof Hl as Hl'. unfold is_u32 in Hl'. unfold normalize. cbv zeta. rewrite Z.shiftr_div_pow2 by lia.
  destruct (Z.lt_ge_cases h (2 ^ 20)) as [Hs|Hn].
  - rewrite Z.div_small by lia. cbn [Z.eqb]. assert (0 < val h l) as Hp by (unfold val in *; lia).
    destruct (skip_words_spec 3 0 h l ltac:(lia) Hl Hp ltac:(lia) ltac:(lia)) as (n & b0 & b1 & -> & Hn & Hb0 & Hb1 & Ev & Hz). cbn [mbind option_bind].
    pose proof (Z.log2_nonneg b0) as Hlog0. rewrite lead_bits_spec by lia. cbn [mbind option_bind]. pose proof Hb1 as Hb1'. unfold is_u32 in Hb1'.
    assert (Z.log2 b0 < 21) as Hlog by (apply Z.log2_lt_pow2; lia). rewrite Z.add_0_l. set (i := 20 - Z.log2 b0) in *.
    assert (2 ^ 20 <= b0 * 2 ^ i < 2 ^ 21) as Hlead.
    { pose proof (Z.log2_spec b0 ltac:(lia)) as [H1 H2]. replace (2 ^ 20) with (2 ^ Z.log2 b0 * 2 ^ i) by (rewrite <- Z.pow_add_r by lia; f_equal; lia).
      replace (2 ^ 21) with (2 ^ Z.succ (Z.log2 b0) * 2 ^ i) by (rewrite <- Z.pow_add_r by lia; f_equal; lia). assert (0 < 2 ^ i) by (apply Z.pow_pos_nonneg; lia). split; [apply Z.mul_le_mono_nonneg_r; lia|apply Z.mul_lt_mono_pos_r; lia]. }
    assert ((b0 + 1) * 2 ^ i <= 2 ^ 21) as Htop.
    { replace (2 ^ 21) with (2 ^ Z.succ (Z.log2 b0) * 2 ^ i) by (rewrite <- Z.pow_add_r by lia; f_equal; lia). apply Z.mul_le_mono_nonneg_r; [apply Z.pow_nonneg; lia|]. pose proof (Z.log2_spec b0 ltac:(lia)). lia. }
    assert (exists f0, Z.lor (Z.land (s32 (Z.lor (b0 * 2 ^ i) (if i =? 0 then shift32 b1 else Z.shiftr b1 (32 - i)))) 0x000fffff) 0x00100000 = f0 /\
              0 <= f0 /\ val f0 (u32 (Z.shiftl b1 i)) = val b0 b1 * 2 ^ i) as (f0 & Ef0 & Hf0 & Evf).
    { destruct (Z.eqb_spec i 0) as [Ei|Ei].
      - rewrite Ei in *. rewrite Z.mul_1_r in *. rewrite Z.shiftl_0_r, (u32_id b1 Hb1), Z.mul_1_r. exists b0. split; [|split; [lia|done]]. rewrite <- (lead_word b0 Hlead) at 2. f_equal.
        change 0xfffff with (2 ^ 20 - 1). rewrite land_mask, s32_mod, <- land_mask by lia. rewrite Z.land_lor_distr_l. specialize (Hz ltac:(lia)).
        assert (Z.land (shift32 b1) (2 ^ 20 - 1) = 0) as ->; [|apply Z.lor_0_r]. destruct (Hshift b1 Hb1) as [->| ->]; [done|]. rewrite land_mask by lia.
        apply Z.mod_divide in Hz as [c ->]; [|lia]. replace (c * 2 ^ 21) with (2 * c * 2 ^ 20) by ring. apply Z_mod_mult.
      - assert (2 ^ 32 = 2 ^ (32 - i) * 2 ^ i) as E32 by (rewrite <- Z.pow_add_r by lia; f_equal; lia).
        assert (0 < 2 ^ (32 - i)) as Hp2 by (apply Z.pow_pos_nonneg; lia). assert (0 < 2 ^ i) as Hpi by (apply Z.pow_pos_nonneg; lia).
        pose proof (Z.div_mod b1 (2 ^ (32 - i)) ltac:(lia)) as Ediv. pose proof (Z.mod_pos_bound b1 (2 ^ (32 - i)) ltac:(lia)) as Hr.
        rewrite Z.shiftr_div_pow2 by lia. set (q := b1 / 2 ^ (32 - i)) in *. set (r := b1 mod 2 ^ (32 - i)) in *.
        assert (0 <= q < 2 ^ i) as Hq by (unfold q; split; [apply Z.div_pos; lia|apply Z.div_lt_upper_bound; lia]).
        rewrite <- (Z.shiftl_mul_pow2 b0) by lia. rewrite lor_shiftl_low by lia.
        assert (b0 * 2 ^ i + q < 2 ^ 21) as Hb by lia.
        rewrite s32_id by (unfold is_s32; lia). rewrite lead_word by lia. eexists. split; [reflexivity|]. split; [lia|].
        rewrite Z.shiftl_mul_pow2 by lia. assert (u32 (b1 * 2 ^ i) = r * 2 ^ i) as ->.
        { unfold u32. rewrite Ediv. replace ((2 ^ (32 - i) * q + r) * 2 ^ i) with (r * 2 ^ i + q * 2 ^ 32) by (rewrite E32; ring). rewrite Z_mod_plus_full. apply Z.mod_small. nia. }
        unfold val. replace ((b0 * 2 ^ 32 + b1) * 2 ^ i) with (b0 * 2 ^ 32 * 2 ^ i + (2 ^ (32 - i) * q + r) * 2 ^ i) by (rewrite <- Ediv; ring). rewrite E32. ring. }
    eexists _, _, _. split; [done|]. cbv zeta. rewrite Ef0. split; [done|]. split; [apply u32_range|].
    assert (2 ^ 52 <= val f0 (u32 (Z.shiftl b1 i)) < 2 ^ 53) as HA.
    { rewrite Evf. assert (0 < 2 ^ i) as Hpi by (apply Z.pow_pos_nonneg; lia). unfold val.
      assert (0 <= b1 * 2 ^ i < 2 ^ 32 * 2 ^ i) by (split; [lia|apply Z.mul_lt_mono_pos_r; lia]). lia. }
    split; [done|]. rewrite Evf, Ev in *. rewrite <- Z.mul_assoc, <- Z.pow_add_r in * by lia.
    assert (n + i <= 52) as Hni. { assert (n + i < 53); [|lia]. apply (Z.pow_lt_mono_r_iff 2); [lia|lia|]. assert (0 < 2 ^ (n + i)) by (apply Z.pow_pos_nonneg; lia). nia. }
    split; [lia|]. rewrite mag_small by (unfold val; lia). rewrite <- ?Z.mul_assoc, <- ?Z.pow_add_r by lia. f_equal. f_equal. lia.
  - assert (1 <= h / 2 ^ 20) as He by (apply Z.div_le_lower_bound; lia). destruct (Z.eqb_spec (h / 2 ^ 20) 0); [lia|]. eexists _, _, _. split; [done|]. cbv zeta.
    change 0xfffff with (2 ^ 20 - 1). rewrite land_mask by lia. rewrite Z.lor_comm. change 0x100000 with (Z.shiftl 1 20). rewrite lor_shiftl_low by (try apply Z.mod_pos_bound; lia).
    pose proof (Z.mod_pos_bound h (2 ^ 20) ltac:(lia)) as Hr. pose proof (Z.div_mod h (2 ^ 20) ltac:(lia)) as Ediv. split; [lia|]. split; [done|]. split; [unfold val; lia|].
    assert (h / 2 ^ 20 < 2047) by (apply Z.div_lt_upper_bound; lia). split; [lia|].
    replace (val h l) with (2 ^ 52 * (h / 2 ^ 20) + (h mod 2 ^ 20 * 2 ^ 32 + l)) by (unfold val; lia). rewrite mag_exp by lia.
    replace (h / 2 ^ 20 + 51) with (h / 2 ^ 20 - 1 + 52) by lia. rewrite Z.pow_add_r by lia. unfold val. ring.
Qed.
End normal.

(** ** Rounding and packing *)
(** The significand that is made of the root, of which the last bit is the rounding bit, when there is a remainder *)
Definition significand (md : mode) (Q : Z) : Z := match md with Nearest => (Q + 1) / 2 | Upward => Q / 2 + 1 | Downward => Q / 2 end.
Lemma half_unique x g : 2 * g <= x < 2 * g + 2 -> x / 2 = g.
Proof. intros Hx. symmetry. apply (Z.div_unique_pos _ _ _ (x - 2 * g)); lia. Qed.
Lemma round_bits_spec md q q1 : 0 <= q < 2 ^ 22 -> is_u32 q1 ->
  let '(q', q1') := round_bits md q q1 in 0 <= q' <= 2 ^ 22 /\ is_u32 q1' /\ (q' * 2 ^ 32 + q1') / 2 = significand md (q * 2 ^ 32 + q1).
Proof.
  unfold is_u32. intros Hq H1. unfold round_bits, significand. pose proof (Z.div_mod q1 2 ltac:(lia)) as E1. pose proof (Z.mod_pos_bound q1 2 ltac:(lia)) as Hr.
  assert ((q * 2 ^ 32 + q1) / 2 = q * 2 ^ 31 + q1 / 2) as Eh by (apply half_unique; lia).
  assert ((q * 2 ^ 32 + q1 + 1) / 2 = q * 2 ^ 31 + q1 / 2 + q1 mod 2) as Eh1 by (apply half_unique; lia).
  pose proof (land_mask q1 1 ltac:(lia) : Z.land q1 1 = q1 mod 2) as El.
  destruct md; cbn [keeps_one above_one]; rewrite ?Eh, ?Eh1; [destruct (Z.eqb_spec q1 0xffffffff)|destruct (Z.eqb_spec q1 0xffffffff); [|destruct (Z.eqb_spec q1 0xfffffffe)]|];
    rewrite ?s32_id by (unfold is_s32; lia).
  - subst q1. change (0xffffffff / 2) with 0x7fffffff. change (0xffffffff mod 2) with 1. split; [lia|]. split; [lia|]. apply half_unique. lia.
  - rewrite El, u32_id by (unfold is_u32; lia). split; [lia|]. split; [lia|]. apply half_unique. lia.
  - subst q1. change (0xffffffff / 2) with 0x7fffffff. split; [lia|]. split; [lia|]. apply half_unique. lia.
  - subst q1. change (u32 (0xfffffffe + 2)) with 0. change (0xfffffffe / 2) with 0x7fffffff. split; [lia|]. split; [lia|]. apply half_unique. lia.
  - rewrite u32_id by (unfold is_u32; lia). split; [lia|]. split; [lia|]. apply half_unique. lia.
  - split; [lia|]. split; [lia|]. lia.
Qed.
Lemma pack_root q q1 mh : 0 <= q <= 2 ^ 22 -> is_u32 q1 -> -537 <= mh <= 511 -> 2 ^ 52 <= (q * 2 ^ 32 + q1) / 2 <= 2 ^ 53 ->
  let ix0 := Z.shiftr q 1 + 0x3fe00000 in
  let ix1 := if Z.land q 1 =? 1 then Z.lor (Z.shiftr q1 1) 0x80000000 else Z.shiftr q1 1 in
  let d := INSERT_WORDS (ix0 + Z.shiftl mh 20) ix1 in
  let G := (q * 2 ^ 32 + q1) / 2 in
  is_finite d /\ negative d = false /\ magnitude d = G + (1022 + mh) * 2 ^ 52 /\ mag 52 (magnitude d) = G * 2 ^ (1022 + mh).
Proof.
  intros Hq H1 Hmh HG. cbv zeta. unfold is_u32 in H1. rewrite !Z.shiftr_div_pow2, Z.shiftl_mul_pow2 by lia. change (2 ^ 1) with 2.
  pose proof (land_mask q 1 ltac:(lia) : Z.land q 1 = q mod 2) as El. rewrite El. pose proof (Z.div_mod q 2 ltac:(lia)) as Eq. pose proof (Z.mod_pos_bound q 2 ltac:(lia)) as Hr.
  pose proof (Z.div_mod q1 2 ltac:(lia)) as Eq1. pose proof (Z.mod_pos_bound q1 2 ltac:(lia)) as Hr1.
  assert (0 <= q1 / 2 < 2 ^ 31) as Hq1 by lia.
  assert ((if q mod 2 =? 1 then Z.lor (q1 / 2) 0x80000000 else q1 / 2) = q mod 2 * 2 ^ 31 + q1 / 2) as ->.
  { destruct (Z.eqb_spec (q mod 2) 1) as [->|]; [|replace (q mod 2) with 0 by lia; lia]. rewrite Z.lor_comm. change 0x80000000 with (Z.shiftl 1 31). rewrite lor_shiftl_low by lia. lia. }
  assert ((q * 2 ^ 32 + q1) / 2 = q * 2 ^ 31 + q1 / 2) as EG by (apply half_unique; lia). rewrite EG in *.
  set (hi := q / 2 + 0x3fe00000 + mh * 2 ^ 20). assert (0 <= hi < 2 ^ 31) as Hhi by (unfold hi; lia).
  unfold INSERT_WORDS. rewrite !u32_id by (unfold is_u32; lia). set (d := Double hi _).
  assert (magnitude d = q * 2 ^ 31 + q1 / 2 + (1022 + mh) * 2 ^ 52) as Em.
  { unfold magnitude, d. cbn [msw lsw]. rewrite Z.mod_small by lia. unfold hi. lia. }
  split; [split; [split; unfold is_u32, d; cbn [msw lsw]; lia|rewrite Em; lia]|]. split; [unfold negative, d; cbn [msw]; apply Z.leb_gt; lia|]. split; [exact Em|].
  rewrite Em. set (G := q * 2 ^ 31 + q1 / 2) in *. destruct (Z.eq_dec G (2 ^ 53)) as [->|].
  - replace (2 ^ 53 + (1022 + mh) * 2 ^ 52) with (2 ^ 52 * (1024 + mh) + 0) by lia. rewrite mag_exp by lia. replace (1024 + mh - 1) with (1 + (1022 + mh)) by lia. rewrite (Z.pow_add_r 2 1) by lia. lia.
  - replace (G + (1022 + mh) * 2 ^ 52) with (2 ^ 52 * (1023 + mh) + (G - 2 ^ 52)) by lia. rewrite mag_exp by lia. f_equal; [lia|]. f_equal. lia.
Qed.

(** The neighbours of a magnitude are at least an ulp away. *)
Lemma neighbour_above M M' : 0 <= M -> 0 <= M' -> mag 52 M < mag 52 M' -> mag 52 M + ulp 52 M <= mag 52 M'.
Proof.
  intros HM HM' Hlt. rewrite <- mag_succ by lia. apply mag_le; [lia|lia|]. destruct (Z.lt_ge_cases M M'); [lia|]. pose proof (mag_le 52 ltac:(lia) M' M HM' ltac:(lia)). lia.
Qed.
Lemma neighbour_below M M' : 0 < M -> 0 <= M' -> mag 52 M' < mag 52 M -> mag 52 M' <= mag 52 M - ulp 52 (M - 1).
Proof.
  intros HM HM' Hlt. replace (mag 52 M - ulp 52 (M - 1)) with (mag 52 (M - 1)). 2: { replace M with (M - 1 + 1) at 2 by lia. rewrite mag_succ by lia. lia. }
  apply mag_le; [lia|lia|]. destruct (Z.lt_ge_cases M' M); [lia|]. pose proof (mag_le 52 ltac:(lia) M M' ltac:(lia) ltac:(lia)). lia.
Qed.
(** The spacing above and below the root [G * 2^(1022+mh)] *)
Lemma root_spacing G mh w : 2 ^ 52 <= G <= 2 ^ 53 -> -537 <= mh <= 511 -> 0 <= w -> let u := 2 ^ (1022 + mh) in let r := mag 52 (G + (1022 + mh) * 2 ^ 52) in
  r = G * u ->
  (r < mag 52 w -> r + u <= mag 52 w) /\ (mag 52 w < r -> 2 ^ 52 < G -> mag 52 w <= r - u).
Proof.
  intros HG Hmh Hw u r Er. set (M := G + (1022 + mh) * 2 ^ 52) in *. assert (forall e, 1022 + mh <= e -> u <= 2 ^ e) as Hu by (intros e He; apply Z.pow_le_mono_r; lia). split.
  - intros Hlt. pose proof (neighbour_above M w ltac:(lia) Hw Hlt) as Hn. unfold ulp in Hn. assert (1023 + mh <= M / 2 ^ 52) as Hd by (apply Z.div_le_lower_bound; lia).
    specialize (Hu (Z.max 1 (M / 2 ^ 52) - 1) ltac:(lia)). lia.
  - intros Hlt Hg. pose proof (neighbour_below M w ltac:(lia) Hw Hlt) as Hn. unfold ulp in Hn. assert (1023 + mh <= (M - 1) / 2 ^ 52) as Hd by (apply Z.div_le_lower_bound; lia).
    specialize (Hu (Z.max 1 ((M - 1) / 2 ^ 52) - 1) ltac:(lia)). lia.
Qed.

(** ** Correct rounding *)

(** [r] is the double that the rounding mode asks for, for the root of [Z]. *)
Definition correctly_rounded (md : mode) (Z r : Z) : Prop :=
  match md with
  | Nearest => forall y, is_finite y -> 0 <= value y -> (value y < r -> (value y + r) * (value y + r) < 4 * Z) /\ (r < value y -> 4 * Z < (value y + r) * (value y + r))
  | Downward => r * r <= Z /\ forall y, is_finite y -> 0 <= value y -> r < value y -> Z < value y * value y
  | Upward => Z <= r * r /\ forall y, is_finite y -> 0 <= value y -> value y < r -> value y * value y < Z
  end.
Lemma square_le a b : 0 <= a -> a <= b -> a * a <= b * b.
Proof. intros H1 H2. by apply Z.mul_le_mono_nonneg. Qed.
Lemma square_lt a b : 0 <= a -> a < b -> a * a < b * b.
Proof. intros H1 H2. by apply Z.mul_lt_mono_nonneg. Qed.

Section rounding.
Context (D Q U G : Z) (HU : 0 < U) (HQ : 2 ^ 53 <= Q) (Hlow : Q * Q <= D) (Hup : D < (Q + 1) * (Q + 1)) (Heven : D = Q * Q -> Q mod 2 = 0).
Context (Hspace : forall y, is_finite y -> 0 <= value y ->
  (G * (2 * U) < value y -> G * (2 * U) + 2 * U <= value y) /\ (value y < G * (2 * U) -> 2 ^ 52 < G -> value y <= G * (2 * U) - 2 * U)).
(** The root lies between [Q * U] and [(Q + 1) * U]. *)
Lemma root_low a : 0 <= a -> a <= Q * U -> a * a <= D * (U * U).
Proof using HU HQ Hlow Hup. intros H0 Ha. pose proof (square_le a (Q * U) H0 Ha). nia. Qed.
Lemma root_low_strict a : D <> Q * Q -> 0 <= a -> a <= Q * U -> a * a < D * (U * U).
Proof using HU HQ Hlow Hup. intros Hne H0 Ha. pose proof (square_le a (Q * U) H0 Ha). nia. Qed.
Lemma root_high a : (Q + 1) * U <= a -> D * (U * U) < a * a.
Proof using HU HQ Hlow Hup. intros Ha. pose proof (square_le ((Q + 1) * U) a ltac:(nia) Ha). nia. Qed.
Lemma correct_rounding md : G = (if D =? Q * Q then Q / 2 else significand md Q) -> correctly_rounded md (D * (U * U)) (G * (2 * U)).
Proof using All.
  intros EG. pose proof (Z.div_mod Q 2 ltac:(lia)) as Eq. pose proof (Z.mod_pos_bound Q 2 ltac:(lia)) as Hr. set (g := Q / 2) in *.
  assert (Hg : Q - 1 <= 2 * g <= Q) by lia. assert (Hone : D = Q * Q -> 2 * g = Q) by (intros E; specialize (Heven E); lia).
  destruct (Z.eqb_spec D (Q * Q)) as [ED|ED]; [specialize (Hone ED)|clear Hone]; destruct md; cbn [correctly_rounded significand] in *.
  - intros y Hy H0. split; intros Hlt.
    + assert ((value y + G * (2 * U)) * (value y + G * (2 * U)) < 2 * (Q * U) * (2 * (Q * U))) by (apply square_lt; nia). nia.
    + assert (2 * (Q * U) * (2 * (Q * U)) < (value y + G * (2 * U)) * (value y + G * (2 * U))) by (apply square_lt; nia). nia.
  - assert (G * (2 * U) = Q * U) as -> by nia. split; [nia|]. intros y Hy H0 Hlt. pose proof (square_lt (value y) (Q * U) H0 Hlt). nia.
  - assert (G * (2 * U) = Q * U) as E by nia. split; [apply root_low; nia|]. intros y Hy H0 Hlt. rewrite E in Hlt. pose proof (square_lt (Q * U) (value y) ltac:(nia) Hlt). nia.
  - assert (G = g \/ (G = g + 1 /\ Q = 2 * g + 1)) as Hcase.
    { rewrite EG. destruct (Z.eq_dec (Q mod 2) 0); [left; apply half_unique; lia|right; split; [apply half_unique; lia|lia]]. }
    intros y Hy H0. destruct (Hspace y Hy H0) as [Ha Hb]. destruct Hcase as [EG2|[EG2 Eodd]].
    + assert (2 * g = Q) as E2. { rewrite EG2 in EG. pose proof (Z.div_mod (Q + 1) 2 ltac:(lia)). pose proof (Z.mod_pos_bound (Q + 1) 2 ltac:(lia)). lia. }
      assert (G * (2 * U) = Q * U) as E by nia. rewrite E in *. split; intros Hlt.
      * assert ((value y + Q * U) * (value y + Q * U) < 2 * (Q * U) * (2 * (Q * U))) by (apply square_lt; lia). pose proof (root_low (Q * U) ltac:(nia) ltac:(lia)). lia.
      * specialize (Ha Hlt). assert (2 * ((Q + 1) * U) * (2 * ((Q + 1) * U)) <= (value y + Q * U) * (value y + Q * U)) by (apply square_le; nia).
        pose proof (root_high ((Q + 1) * U) ltac:(lia)). lia.
    + assert (G * (2 * U) = (Q + 1) * U) as E by nia. rewrite E in *. split; intros Hlt.
      * specialize (Hb Hlt ltac:(lia)). assert ((value y + (Q + 1) * U) * (value y + (Q + 1) * U) <= 2 * (Q * U) * (2 * (Q * U))) by (apply square_le; nia).
        pose proof (root_low_strict (Q * U) ED ltac:(nia) ltac:(lia)). lia.
      * assert (2 * ((Q + 1) * U) * (2 * ((Q + 1) * U)) < (value y + (Q + 1) * U) * (value y + (Q + 1) * U)) by (apply square_lt; nia).
        pose proof (root_high ((Q + 1) * U) ltac:(lia)). lia.
  - assert (Q + 1 <= 2 * G) as HG by lia. pose proof (root_high (G * (2 * U)) ltac:(nia)) as Hh. split; [lia|].
    intros y Hy H0 Hlt. destruct (Hspace y Hy H0) as [_ Hb]. specialize (Hb Hlt ltac:(lia)). apply root_low_strict; [done|done|]. nia.
  - split; [apply root_low; nia|]. intros y Hy H0 Hlt. destruct (Hspace y Hy H0) as [Ha _]. specialize (Ha Hlt). apply root_high. nia.
Qed.
End rounding.

(** ** The function *)
Lemma exponent_mask h : is_u32 h -> Z.land (s32 h) 0x7ff00000 = h mod 2 ^ 31 - h mod 2 ^ 31 mod 2 ^ 20.
Proof.
  intros Hh. rewrite <- land_clear, <- (s32_mod h 31), <- land_mask by lia. rewrite <- Z.land_assoc. f_equal.
Qed.
Lemma value_nonneg y : is_finite y -> 0 <= value y -> value y = mag 52 (magnitude y) /\ 0 <= magnitude y.
Proof.
  intros [Hd _]. pose proof (magnitude_range y Hd) as Hr. unfold value. pose proof (mag_nonneg 52 ltac:(lia) (magnitude y) ltac:(lia)). destruct (negative y); cbn [signed]; lia.
Qed.

Section root_of_double.
Context `{Fpu} (shift32 : Z -> Z) (Hshift : forall w, is_u32 w -> shift32 w = 0 \/ shift32 w = w) (md : mode).
(** From the significand [A] to the digits of the root *)
Lemma digits_spec (A : Z) a0 a1 : 0 <= a0 -> is_u32 a1 -> val a0 a1 = A -> 2 ^ 52 <= A < 2 ^ 54 -> exists ix0 ix1 q q1,
  (let '(ix0, ix1) := twice a0 a1 in '(s0, ix0, ix1, q) ← high_loop 22 0x00200000 0 ix0 ix1 0; '(ix0, ix1, q1) ← low_loop 32 0x80000000 s0 0 ix0 ix1 0; Some (ix0, ix1, q, q1)) = Some (ix0, ix1, q, q1) /\
  0 <= q < 2 ^ 22 /\ is_u32 q1 /\ 0 <= ix0 /\ is_u32 ix1 /\ digits (A * 2 ^ 54) (q * 2 ^ 32 + q1) (val ix0 ix1) 1.
Proof using.
  clear shift32 Hshift md H. intros H0 H1 EA HA. assert (wide a0 a1) as Hw by (apply wide_of; [done|done|lia]).
  pose proof (twice_spec a0 a1 Hw) as H2. destruct (twice a0 a1) as [b0 b1]. destruct H2 as (Hb0 & Hb1 & Ev).
  destruct (high_loop_spec (A * 2 ^ 54) 22 0 b0 b1 Hb0 Hb1 ltac:(lia) eq_refl ltac:(lia)) as (q & c0 & c1 & Eh & Hc0 & Hc1 & Hq & Hdg).
  { split; [change (2 ^ Z.of_nat 22) with (2 ^ 22); lia| |unfold val, is_u32 in *; lia]. change (2 ^ Z.of_nat 22) with (2 ^ 22). lia. }
  change (Z.shiftr (2 ^ Z.of_nat 22) 1) with 0x200000 in Eh. rewrite Z.mul_0_r in Eh. rewrite Eh. cbn [mbind option_bind].
  destruct (low_loop_spec (A * 2 ^ 54) q 32 0 c0 c1 Hc0 Hc1 Hq ltac:(lia) eq_refl ltac:(lia)) as (q1 & d0 & d1 & El & Hd0 & Hd1 & Hq1 & Hdg').
  { rewrite Z.add_0_r. exact Hdg. }
  change (Z.shiftr (2 ^ Z.of_nat 32) 1) with 0x80000000 in El. change (2 * 0 mod 2 ^ 32) with 0 in El. change (0 / 2 ^ 31) with 0 in El. rewrite Z.add_0_r in El. rewrite El. cbn [mbind option_bind].
  exists d0, d1, q, q1. done.
Qed.
Lemma sqrt_spec x : is_finite x -> negative x = false -> magnitude x <> 0 ->
  exists r, __ieee754_sqrt shift32 md x = Some r /\ is_finite r /\ 0 < value r /\ correctly_rounded md (value x * 2 ^ 1074) (value r).
Proof using Hshift.
  intros [Hd Hf] Hn H0. destruct (h_split x Hd) as [Eh Hm]. rewrite Hn, Z.add_0_l in Eh. pose proof Hd as [Hh Hl].
  assert (val (msw x) (lsw x) = magnitude x) as EM by (unfold val, magnitude; lia). assert (0 <= msw x < 2047 * 2 ^ 20) as Hmsw by (unfold is_u32, magnitude in *; lia).
  assert (s32 (msw x) = msw x) as Es by (apply s32_id; unfold is_s32; lia).
  unfold __ieee754_sqrt. cbv zeta. rewrite exponent_mask, <- Eh by done. rewrite Es.
  destruct (Z.eqb_spec (msw x - msw x mod 2 ^ 20) 0x7ff00000); [pose proof (Z.mod_pos_bound (msw x) (2 ^ 20) ltac:(lia)); lia|].
  assert ((msw x <=? 0) && (Z.lor (Z.land (msw x) 0x7fffffff) (lsw x) =? 0) = false) as ->.
  { destruct (Z.leb_spec (msw x) 0); [|done]. cbn [andb]. apply Z.eqb_neq. intros [_ E]%Z.lor_eq_0_iff. apply H0. unfold magnitude. assert (msw x = 0) as -> by lia. rewrite E. done. }
  destruct (Z.ltb_spec (msw x) 0); [lia|].
  destruct (normalize_spec shift32 Hshift (msw x) (lsw x) Hmsw Hl ltac:(lia)) as (m & a0 & a1 & -> & Hf0 & Ha1 & HA & Hmb & Emag). cbv zeta in *. cbn [mbind option_bind].
  set (f0 := Z.lor (Z.land a0 0xfffff) 0x100000) in *. set (A := val f0 a1) in *. rewrite EM in Emag.
  pose proof (land_mask (m - 1023) 1 ltac:(lia) : Z.land (m - 1023) 1 = (m - 1023) mod 2) as El. rewrite El.
  rewrite (Z.shiftr_div_pow2 (m - 1023)) by lia. change (2 ^ 1) with 2. set (mh := (m - 1023) / 2).
  pose proof (Z.div_mod (m - 1023) 2 ltac:(lia)) as Emh. pose proof (Z.mod_pos_bound (m - 1023) 2 ltac:(lia)) as Hodd. fold mh in Emh.
  assert (exists b0 b1, (if negb ((m - 1023) mod 2 =? 0) then twice f0 a1 else (f0, a1)) = (b0, b1) /\ 0 <= b0 /\ is_u32 b1 /\ val b0 b1 = A * 2 ^ ((m - 1023) mod 2)) as (b0 & b1 & -> & Hb0 & Hb1 & EB).
  { destruct (Z.eqb_spec ((m - 1023) mod 2) 0) as [E|E]; cbn [negb].
    - exists f0, a1. rewrite E, Z.mul_1_r. done.
    - pose proof (twice_spec f0 a1 (wide_of f0 a1 Hf0 Ha1 ltac:(lia))) as H2. destruct (twice f0 a1) as [b0 b1]. destruct H2 as (? & ? & Ev). exists b0, b1.
      assert ((m - 1023) mod 2 = 1) as -> by lia. split; [done|]. split; [done|]. split; [done|]. rewrite Ev. fold A. lia. }
  set (B := A * 2 ^ ((m - 1023) mod 2)) in *.
  assert (2 ^ 52 <= B < 2 ^ 54) as HB by (unfold B; assert ((m - 1023) mod 2 = 0 \/ (m - 1023) mod 2 = 1) as [-> | ->] by lia; lia).
  destruct (digits_spec B b0 b1 Hb0 Hb1 EB HB) as (d0 & d1 & q & q1 & E & Hq & Hq1 & Hd0 & Hd1 & [Erem Eup [HP HI]]).
  destruct (twice b0 b1) as [c0 c1]. destruct (high_loop 22 0x200000 0 c0 c1 0) as [[[[s0 e0] e1] q_]|]; [|done]. cbn [mbind option_bind] in *.
  destruct (low_loop 32 0x80000000 s0 0 e0 e1 0) as [[[g0 g1] q1_]|]; [|done]. cbn [mbind option_bind] in *. injection E as -> -> -> ->.
  set (Q := q * 2 ^ 32 + q1) in *. set (D := B * 2 ^ 54) in *.
  assert (Q * Q <= D) as Hlow by lia. assert (2 ^ 53 <= Q < 2 ^ 54) as HQ by (unfold Q, D, is_u32 in *; split; nia).
  assert (D = Q * Q -> Q mod 2 = 0) as Heven.
  { intros ED. assert ((Q * Q) mod 2 = 0) as Em by (rewrite <- ED; unfold D; replace (B * 2 ^ 54) with (B * 2 ^ 53 * 2) by lia; apply Z_mod_mult).
    rewrite Z.mul_mod in Em by lia. pose proof (Z.mod_pos_bound Q 2 ltac:(lia)). assert (Q mod 2 = 0 \/ Q mod 2 = 1) as [E|E] by lia; [done|]. rewrite E in Em. done. }
  assert ((Z.lor d0 d1 =? 0) = (D =? Q * Q)) as Ezero.
  { unfold is_u32, val in *. destruct (Z.eqb_spec D (Q * Q)) as [ED|ED].
    - assert (d0 = 0) as -> by lia. assert (d1 = 0) as -> by lia. done.
    - apply Z.eqb_neq. intros [-> ->]%Z.lor_eq_0_iff. lia. }
  set (G := if D =? Q * Q then Q / 2 else significand md Q).
  assert (exists q' q1', (if negb (Z.lor d0 d1 =? 0) then round_bits md q q1 else (q, q1)) = (q', q1') /\ 0 <= q' <= 2 ^ 22 /\ is_u32 q1' /\ (q' * 2 ^ 32 + q1') / 2 = G) as (q' & q1' & -> & Hq' & Hq1' & EG).
  { rewrite Ezero. unfold G. destruct (D =? Q * Q); cbn [negb]; [exists q, q1; split; [done|]; split; [lia|done]|].
    pose proof (round_bits_spec md q q1 Hq Hq1) as Hrb. destruct (round_bits md q q1) as [q' q1']. by exists q', q1'. }
  assert (2 ^ 52 <= G <= 2 ^ 53) as HG.
  { assert (2 ^ 52 <= Q / 2 < 2 ^ 53) by (split; [apply Z.div_le_lower_bound; lia|apply Z.div_lt_upper_bound; lia]).
    assert (2 ^ 52 <= (Q + 1) / 2 < 2 ^ 53 + 1) by (split; [apply Z.div_le_lower_bound; lia|apply Z.div_lt_upper_bound; lia]).
    unfold G, significand. destruct (D =? Q * Q), md; lia. }
  assert (-537 <= mh <= 511) as Hmh by lia.
  destruct (pack_root q' q1' mh Hq' Hq1' Hmh ltac:(lia)) as (Hrf & Hrn & Hrm & Hrv). cbv zeta in *. rewrite EG in *.
  set (r := INSERT_WORDS _ _) in *. set (U := 2 ^ (1021 + mh)). assert (0 < U) as HU by (apply Z.pow_pos_nonneg; lia).
  assert (2 ^ (1022 + mh) = 2 * U) as E2U by (unfold U; replace (1022 + mh) with (1 + (1021 + mh)) by lia; by rewrite Z.pow_add_r by lia). rewrite E2U in *.
  assert (value r = G * (2 * U)) as Evr by (unfold value; rewrite Hrn; exact Hrv).
  assert (value x * 2 ^ 1074 = D * (U * U)) as EZ.
  { unfold value. rewrite Hn. cbn [signed]. apply (Z.mul_reg_r _ _ (2 ^ 52)); [lia|]. replace (mag 52 (magnitude x) * 2 ^ 1074 * 2 ^ 52) with (mag 52 (magnitude x) * 2 ^ 52 * 2 ^ 1074) by ring.
    rewrite Emag. unfold D, B, U. rewrite <- !Z.mul_assoc. rewrite <- !Z.pow_add_r by lia. f_equal. f_equal. lia. }
  exists r. split; [done|]. split; [exact Hrf|]. rewrite Evr. split; [nia|]. rewrite EZ.
  apply (correct_rounding D Q U G HU (proj1 HQ) Hlow Eup Heven); [|done].
  intros y Hy Hy0. destruct (value_nonneg y Hy Hy0) as [-> Hmy]. rewrite Hrm in Hrv.
  pose proof (root_spacing G mh (magnitude y) HG Hmh Hmy) as Hsp. cbv zeta in Hsp. rewrite E2U in Hsp. rewrite Hrv in Hsp. exact (Hsp eq_refl).
Qed.
End root_of_double.

(** C27.  sqrt is correctly rounded in the rounding modes to the nearest, up and down: for every positive finite double,
    subnormal numbers among them, the result is the double next to the exact root in the direction of the mode,
    or strictly closer to it than every other double that is not negative.  All iterations end.  A zero is
    answered, and infinities, NaNs and negative numbers give what x*x+x and (x-x)/(x-x) give.  The shift by 32 that C
    leaves undefined does no harm on processors that give 0 or the operand for it. *)
Theorem sqrt_correct `{Fpu} shift32 md x :
  (forall w, is_u32 w -> shift32 w = 0 \/ shift32 w = w) -> is_double x ->
  (is_finite x -> 0 < value x ->
     exists r, __ieee754_sqrt shift32 md x = Some r /\ is_finite r /\ 0 < value r /\ correctly_rounded md (value x * 2 ^ 1074) (value r)) /\
  (magnitude x = 0 -> __ieee754_sqrt shift32 md x = Some x) /\
  (2047 * 2 ^ 52 <= magnitude x -> __ieee754_sqrt shift32 md x = Some (fadd (fmul x x) x)) /\
  (is_finite x -> value x < 0 -> __ieee754_sqrt shift32 md x = Some (fdiv (fsub x x) (fsub x x))).
Proof.
  intros Hshift Hd. pose proof (magnitude_range x Hd) as Hr. pose proof (mag_nonneg 52 ltac:(lia) (magnitude x) ltac:(lia)) as Hmn.
  destruct (h_split x Hd) as [Eh Hm]. pose proof Hd as [Hh Hl].
  pose proof (Z.mod_pos_bound (msw x mod 2 ^ 31) (2 ^ 20) ltac:(lia)) as Hlowbits. pose proof (Z.div_mod (msw x mod 2 ^ 31) (2 ^ 20) ltac:(lia)) as Ediv.
  split; [|split; [|split]].
  - intros Hf Hv. unfold value in Hv. destruct (negative x) eqn:Hn; cbn [signed] in Hv; [lia|]. apply sqrt_spec; [done|done|done|]. intros E. rewrite E in Hv. done.
  - intros E. unfold __ieee754_sqrt. cbv zeta. rewrite exponent_mask by done. rewrite (zero_bits x Hd E). by destruct (negative x).
  - intros Hinf. unfold __ieee754_sqrt. cbv zeta. rewrite exponent_mask by done. destruct (Z.eqb_spec (msw x mod 2 ^ 31 - msw x mod 2 ^ 31 mod 2 ^ 20) 0x7ff00000) as [|Hne]; [done|].
    unfold magnitude, is_u32 in *. lia.
  - intros Hf Hv. pose proof Hf as [_ Hfm]. unfold value in Hv. destruct (negative x) eqn:Hn; cbn [signed] in Hv; [|lia].
    unfold __ieee754_sqrt. cbv zeta. rewrite exponent_mask by done. destruct (sign_word x Hd) as [Hneg _]. rewrite Hneg, Hn.
    destruct (Z.eqb_spec (msw x mod 2 ^ 31 - msw x mod 2 ^ 31 mod 2 ^ 20) 0x7ff00000); [unfold magnitude, is_u32 in *; lia|].
    change 0x7fffffff with (2 ^ 31 - 1). rewrite land_mask, s32_mod by lia. destruct (Z.eqb_spec (Z.lor (msw x mod 2 ^ 31) (lsw x)) 0) as [E|E]; [|by rewrite andb_false_r].
    apply Z.lor_eq_0_iff in E as [E1 E2]. unfold magnitude in Hv. rewrite E1, E2 in Hv. done.
Qed.
Lemma sqrt_correct_witness : let x := Double 0x40000000 0 in
  exists r, __ieee754_sqrt (fun _ => 0) Nearest x = Some r /\ is_finite r /\ 0 < value r /\ correctly_rounded Nearest (value x * 2 ^ 1074) (value r).
Proof.
  intros x. assert (is_double x) as Hx by (split; vm_compute; split; congruence).
  apply (sqrt_correct (fun _ => 0) Nearest x (fun _ _ => or_introl eq_refl) Hx); [by split|]. vm_compute. reflexivity.
Defined.
